(* ===== verification/_CoqProject ===== *)
-Q . S2P
Prelude.v
Intervals.v
RiscvPages.v
MemMap.v
Elf.v
Imsic.v
ImsicFacts.v
PageInfoModel.v
PageMapModel.v
HypAlloc.v
Tracker.v
TrackerFacts.v
PageListFacts.v
Pte.v
PteFacts.v
PageTableModel.v
PageTableFacts.v
PageTableOps.v
GuestTableFacts.v
TlbModel.v
TlbTrackerFacts.v
TlbProtocol.v
TlbProtocolFacts.v
VmRegions.v
VmRegionsFacts.v
VmPages.v
VmPagesFacts.v
VmCalls.v
VmInvariant.v
TlbRelease.v
GuestCallFacts.v
MeasuredCallFacts.v
VcpuCallFacts.v
Isolation.v
Iommu.v
DeviceDirectoryFacts.v
IommuFacts.v
PciRegs.v
PciCaps.v
PciSpaces.v
PciDevices.v
PciRoot.v
PciProbe.v
PciConfigFacts.v
PciGuestView.v
PciProbeFacts.v
PciParseFacts.v
PciSafety.v
PciResourceFacts.v
PciDecodeFacts.v
PciEnumFacts.v
PciRootFacts.v
PciAddressFacts.v
PciNodeFacts.v
PciIsolation.v
PciIommu.v
DeviceTree.v
DeviceTreeFacts.v
DeviceTreeRefine.v
Fdt.v
FdtFacts.v
FdtRoundtrip.v
FdtRegions.v
ImsicCore.v
ImsicCoreFacts.v
VmInterrupts.v
VmInterruptsFacts.v
CpuInfo.v
ImsicProbe.v
NodeFacts.v
CpuInfoFacts.v
ImsicProbeFacts.v
VmPmu.v
VmPmuFacts.v
