(* ===== verification/Prelude.v ===== *)
(** * Salus: a verification library

    Salus is a hypervisor for confidential VMs on RISC-V.  It owns all physical
    memory, gives most of it to a host VM at boot, and lets the host build guest VMs
    out of pages that it converts to confidential memory.  Its promise is isolation:
    a page is never used by two VMs unless it is shared on purpose, and never reused
    while a CPU may still reach it through a stale translation.  The library models
    the parts of the code that carry this promise as executable functions and proves
    what they do.

    ** The parts and the files that model them

    - Addresses, page sizes, page sequences (crate riscv-pages): [RiscvPages].
    - The hardware memory map (page-tracking/src/hw_mem_map.rs): [MemMap].
    - Page records and the page map (page-tracking/src/page_info.rs):
      [PageInfoModel] has the life cycle of one page, [PageMapModel] the map from
      page numbers to records and how it is populated from the memory map.
    - The boot allocator ([HypPageAlloc] of page_tracker.rs): [HypAlloc].
    - The page tracker and the page lists (page_tracker.rs, page_list.rs):
      [Tracker]; theorems in [TrackerFacts] and [PageListFacts].
    - Page tables (crate riscv-page-tables): [Pte] for entries and paging modes,
      [PageTableModel] for first-stage and guest-stage tables; theorems in [PteFacts],
      [PageTableFacts], [PageTableOps] and [GuestTableFacts].
    - TLB versions and VMIDs (vm_pages.rs, vm_id.rs, vm_cpu.rs): [TlbModel] and
      [TlbTrackerFacts]; the shootdown protocol of several CPUs and VMs is
      [TlbProtocol] with [TlbProtocolFacts], and [TlbRelease] is about leaving the address
      space of a VM.
    - Guest physical regions (vm_pages.rs): [VmRegions] and [VmRegionsFacts].
    - The memory of a VM (vm_pages.rs): [VmPages] and [VmPagesFacts] tie the tracker,
      the guest page table, the regions and the TLB versions together.
    - The host's calls on guests (vm.rs, guest_tracking.rs): [VmCalls] has the
      handlers, over a machine of one host and its guests that share the tracker and
      memory.  [VmInvariant] states what holds of the memory of one VM,
      [GuestCallFacts], [MeasuredCallFacts] and [VcpuCallFacts] that the calls which
      move pages to a guest keep it for every VM, and [Isolation] concludes for
      histories of calls.
    - Interrupt files (drivers/src/imsic): [Imsic] and [ImsicFacts] have their
      addresses and software copies (geometry.rs, sw_file.rs), [ImsicCore] and
      [ImsicCoreFacts] the files of the CPUs and their registers (core.rs), over the
      class [ImsicHw] with the laws [ImsicHwLaws] and an instance.
    - The interrupts of a vCPU (vm_interrupts.rs): [VmInterrupts] and
      [VmInterruptsFacts].
    - Performance counters (drivers/src/pmu.rs, vm_pmu.rs, vm.rs): [VmPmu] and
      [VmPmuFacts]; the types of the crate sbi-rs are the class [PmuTypes], the calls
      to the platform and the counters of a CPU the class [Platform], with laws and an
      instance.
    - CPU information and the probing of the IMSIC (drivers/src/cpu.rs, imsic/core.rs):
      [CpuInfo] and [ImsicProbe] read the hypervisor's device tree and write the nodes
      of the host; [NodeFacts] is about reading and writing nodes, theorems are in
      [CpuInfoFacts] and [ImsicProbeFacts].
    - The IOMMU (drivers/src/iommu): [Iommu] has the MSI page tables, the device
      directory, the queues and the soft-context ids, over any device that is an
      instance of [IommuDevice]; theorems in [DeviceDirectoryFacts] and [IommuFacts].
    - PCI (drivers/src/pci): [PciRegs] has the registers and the partial accesses to
      them (registers.rs, mmio_builder.rs), [PciCaps] the capability lists
      (capabilities.rs), [PciSpaces] addresses, the configuration space and the
      resources (address.rs, config_space.rs, resource.rs), [PciDevices] a function
      and its emulation (device.rs), [PciRoot] enumeration and the root complex
      (bus.rs, root.rs) and [PciProbe] its node in the device tree (root.rs).  The
      hardware is the class [ConfigHw], the crate tock-registers [RegisterFields];
      each has laws and an instance.  Theorems on one device are in
      [PciConfigFacts], [PciGuestView], [PciProbeFacts], [PciParseFacts] and
      [PciSafety], on resources and addresses in [PciResourceFacts],
      [PciDecodeFacts], [PciAddressFacts] and [PciNodeFacts], on the hierarchy in
      [PciEnumFacts], [PciRootFacts] and [PciIsolation].  [PciIommu] makes a PCI
      device an [IommuDevice] and composes the root complex with the IOMMU.
    - Device trees (crate device-tree, hyp-alloc/src/arena.rs): [DeviceTree] has the
      arena of nodes, its operations, the iterator and the construction from the
      tokens of a blob, over any allocator ([Heap], which may refuse every
      reservation); theorems in [DeviceTreeFacts] and [DeviceTreeRefine].  [Fdt] has
      the serializer (serialize.rs) and the wrapper of the crate fdt-rs (fdt.rs), whose
      parser is the class [FdtParser] with its laws and an instance in
      [FdtRoundtrip]; theorems in [FdtFacts], [FdtRoundtrip] and [FdtRegions].
    - The loader of the U-mode binary (crate riscv-elf): [Elf].
    - [Intervals] holds the sorted interval lists that the memory map, the page map
      and the region list share; this file holds the effects and common lemmas.

    ** How code becomes definitions

    A Rust type is a module with a type [t]; a method keeps its name.  A [Result] is
    [result], a panic (which aborts the hypervisor) is [Panics], and a method that
    changes state is a function [M S E A] of the state.  An early return with [?] is
    the bind of [M].  The build is a release build, so 64-bit arithmetic wraps
    ([wrap64]) unless the code uses a checked operation.  Typestates such as
    [Page<Converted>] exist at compile time only and are dropped; the memory type
    that they carry is an argument.  Methods under a lock are one step.  Iterators
    that change state when they are advanced are functions from the list of remaining
    addresses; [drain_iter] and [for_pages] run them.

    ** What the theorems show

    - Life cycle: the operations on a page record implement an abstract life cycle
      with owners as a stack.  In a run of tracker calls a page in use gets another
      owner only after a conversion, and loses one only by a release or an
      unassignment, that began at an older TLB version than the one at which it was
      completed.  Tracker calls keep the tracker well
      formed and do not panic on known pages; guest ids are never reused; the queries
      agree with the operations that they guard; page lists are queues.
    - Translation: [lookup] is what a page table means.  Range operations on guest
      tables are all-or-nothing and change exactly the addresses of their range.
    - TLB: in every interleaving a translation that a running vCPU can use is current
      or belongs to a page whose conversion can not complete yet, provided that the
      version is taken after the invalidation; the code reads it before, so that a fence
      in between counts for pages that are invalidated after it.  A vCPU that leaves
      finds the reference that it took.
    - Regions: the region list refines a map from addresses to types.
    - Isolation: no history of host calls on existing guests and of stores by VMs makes
      the hypervisor panic, if the arguments are within the address space, and after it
      a page that two VMs can access is recorded as shared and no VM can write a page
      that holds a table of any VM.  Creating and destroying guests and reclaiming pages
      are modelled but are not steps of these histories; reclaiming at an alias of an
      address panics.  The frame that makes this
      compositional is the class [Footprint] of [PageTableOps]: a page-table
      operation touches the pages of its own table, and the facts on it hold for any
      set of pages that surrounds them.
    - VM memory: conversion, sharing and the hand-over of converted pages, composed
      from the tracker, the page table and the regions, with the invariant that a
      page of a VM is referenced by at most one entry of its table.
    - Devices: a device directory keeps the contexts of the devices apart, an MSI
      page table is a map to interrupt files that the VM owns, the reference counts
      of the soft-context ids count the attached devices, the command queue is a FIFO,
      and interrupt files and their addresses are in bijection.
    - Interrupts: the interrupts of a vCPU are a set, wherever the vCPU is bound; every
      call changes it as specified, and a move to another interrupt file keeps it, but
      for what is injected while the vCPU is rebinding.  The CPU and IMSIC nodes of the
      host are read back as the hypervisor's, but for the guest interrupt file that the
      host itself runs on, if the shift of the group index is written or has its default.
    - Performance counters: whatever the platform answers, the calls of a guest return
      and change exactly the counters of their mask, unless the counters wrap around;
      counters survive a context switch, unless the platform refuses to restore them, but
      stay readable for the next vCPU.
    - PCI: enumeration ends and leaves a tree of devices, which are silent if their
      COMMAND registers were zero: the code relies on this state after reset.  Then, in
      every history of configuration accesses, hand-outs and attachments, a device that
      decodes addresses decodes pages of its owner, up to the ranges that [confined]
      leaves out, such as a window over the whole address space, whose check passes; an
      access by a VM changes only devices of that VM, and a device that does DMA has the
      page tables of its owner in its device context.  A VM sees an array of bytes in
      which it finds the capabilities that the hypervisor knows.
    - Device trees: the arena refines an ordered tree as long as a node that a removal
      left detached for lack of memory is not named again, the iterator enumerates it
      depth first, and a tree that is written and read again is the same tree.
    - Loader: no input makes the ELF loader panic or read outside of the file, and
      it reads back what a linker wrote.
    - Boot: the memory map, the page map and the allocator account for every byte
      and page.
    - Where the code departs from its intention, a theorem shows when it does.

    ** Fuel

    A walk takes at most one step per level of the paging mode, so [MAX_LEVELS] is
    enough.  Loops over lists of addresses or pages use the length of the list plus
    one turn to see the end.  The device directory has three levels.  [update_all]
    shortens the rest of the list in every turn.  Lists threaded through page records
    are walked at most once per record of the page map.  Enumeration goes down one
    bridge per level and every bridge has a greater bus number of 8 bits, so 256
    levels are enough; a capability list is followed for [PARSE_FUEL] pointers, more
    than a configuration space has, and a list that is longer does not end.  The
    iterator of a device tree climbs at most once per node of the arena and yields each
    node once, so searches are bounded by the size of the arena; a hexadecimal number
    of 64 bits has 16 digits.  The iterator over a counter mask takes a bit per turn.
    Theorems on these loops prove the result, not only its form.

    ** Not modelled

    - CSRs and assembly: traps, boot on other CPUs, the U-mode task, timers.  The
      registers of the IOMMU are not modelled, those of PCI functions and interrupt
      files are.
    - The decoding of SBI calls (vm.rs): messages are types of the sbi-rs submodule,
      whose sources are not in the repository.  The handlers take the decoded
      arguments.  The handlers that run vCPUs or bind interrupt files are left out,
      and a vCPU is its slot only.
    - Attestation: certificates and digests are third-party code.
    - Contents of memory other than page tables: copies to and from guest memory and
      the measurement of pages are arguments of the calls that use them, and the
      page-backed collections are left out.
    - The wiring of a VM to its MSI page table and IOMMU context, and pinned pages: the
      fence of the IOMMU is an argument of the fence of a VM.
      The IOMMU hardware is assumed to consume every command that is posted.
      Detaching a device is modelled but is not a step of the histories of
      [PciIommu], as it turns bus mastering on. *)
From Stdlib Require Export ZArith Lia.
From stdpp Require Export base tactics option list gmap numbers.

#[export] Set Default Proof Using "Type".
#[global] Open Scope Z_scope.

(** ** Outcomes of Rust code

    [result] is Rust's [Result]; [outcome] adds the panic, which aborts the
    hypervisor ([panic = "abort"] in Cargo.toml), so no state survives it. *)

Inductive result (E A : Type) : Type :=
| Ok (a : A)
| Err (e : E).
Arguments Ok {_ _} _.
Arguments Err {_ _} _.

Inductive outcome (A : Type) : Type :=
| Returns (a : A)
| Panics.
Arguments Returns {_} _.
Arguments Panics {_}.

#[export] Instance result_eq_dec `{EqDecision E, EqDecision A} : EqDecision (result E A).
Proof. solve_decision. Defined.
#[export] Instance outcome_eq_dec `{EqDecision A} : EqDecision (outcome A).
Proof. solve_decision. Defined.

#[export] Instance outcome_ret : MRet outcome := λ _ a, Returns a.
#[export] Instance outcome_bind : MBind outcome := λ _ _ f m,
  match m with Returns a => f a | Panics => Panics end.

Lemma obind_ret {A B} (x : A) (f : A → outcome B) : (Returns x ≫= f) = f x.
Proof. done. Qed.

(** [unwrap]/[expect] on options and results. *)
Definition unwrap_option {A} (o : option A) : outcome A :=
  match o with Some a => Returns a | None => Panics end.
Definition unwrap_result {E A} (r : result E A) : outcome A :=
  match r with Ok a => Returns a | Err _ => Panics end.
(** [Option::ok_or]. *)
Definition ok_or {E A} (o : option A) (e : E) : result E A :=
  match o with Some a => Ok a | None => Err e end.
(** [Result::map_err]. *)
Definition map_err {E F A} (f : E → F) (r : result E A) : result F A :=
  match r with Ok a => Ok a | Err e => Err (f e) end.
Definition is_ok {E A} (r : result E A) : bool :=
  match r with Ok _ => true | Err _ => false end.

(** The monad of the stateful code: a state that survives errors (what was
    mutated before a [?] stays mutated), an error channel, and panics. *)
Definition M (S E A : Type) : Type := S → outcome (result E A * S).

#[export] Instance M_ret S E : MRet (M S E) := λ _ a s, Returns (Ok a, s).
#[export] Instance M_bind S E : MBind (M S E) := λ _ _ f m s,
  match m s with
  | Returns (Ok a, s') => f a s'
  | Returns (Err e, s') => Returns (Err e, s')
  | Panics => Panics
  end.

Definition err {S E A} (e : E) : M S E A := λ s, Returns (Err e, s).
Definition panic {S E A} : M S E A := λ _, Panics.
Definition get {S E} : M S E S := λ s, Returns (Ok s, s).
Definition put {S E} (s : S) : M S E unit := λ _, Returns (Ok tt, s).
Definition gets {S E A} (f : S → A) : M S E A := λ s, Returns (Ok (f s), s).
Definition modify {S E} (f : S → S) : M S E unit := λ s, Returns (Ok tt, f s).
(** The [?] operator on a pure result. *)
Definition lift {S E A} (r : result E A) : M S E A := λ s, Returns (r, s).
(** [.unwrap()] of a stateful call. *)
Definition unwrap {S E F A} (m : M S E A) : M S F A := λ s,
  match m s with
  | Returns (Ok a, s') => Returns (Ok a, s')
  | _ => Panics
  end.
(** [.map_err(f)?] of a stateful call. *)
Definition with_err {S E F A} (f : E → F) (m : M S E A) : M S F A := λ s,
  match m s with
  | Returns (r, s') => Returns (map_err f r, s')
  | Panics => Panics
  end.
Definition of_outcome {S E A} (o : outcome A) : M S E A := λ s,
  match o with Returns a => Returns (Ok a, s) | Panics => Panics end.

Lemma bind_ok {S E A B} (m : M S E A) (f : A → M S E B) s a s' :
  m s = Returns (Ok a, s') → (m ≫= f) s = f a s'.
Proof. intros H. unfold mbind, M_bind. by rewrite H. Qed.

Lemma bind_err {S E A B} (m : M S E A) (f : A → M S E B) s e s' :
  m s = Returns (Err e, s') → (m ≫= f) s = Returns (Err e, s').
Proof. intros H. unfold mbind, M_bind. by rewrite H. Qed.

(** A sequence that returns: either the first half returned [Ok], or its error
    is the result. *)
Lemma bind_inv {S E A B} (m : M S E A) (f : A → M S E B) s r s'' :
  (m ≫= f) s = Returns (r, s'') →
  (∃ a s', m s = Returns (Ok a, s') ∧ f a s' = Returns (r, s'')) ∨
  (∃ e, m s = Returns (Err e, s'') ∧ r = Err e).
Proof.
  unfold mbind, M_bind. destruct (m s) as [[[a|e] s']|]; intros H; simplify_eq; [left|right]; eauto.
Qed.

Lemma bind_inv_ok {S E A B} (m : M S E A) (f : A → M S E B) s b s'' :
  (m ≫= f) s = Returns (Ok b, s'') →
  ∃ a s', m s = Returns (Ok a, s') ∧ f a s' = Returns (Ok b, s'').
Proof. intros [?|(? & ? & ?)]%bind_inv; [done|done]. Qed.

Lemma unwrap_eq {S E F X} (m : M S E X) s a s' : m s = Returns (Ok a, s') → unwrap (F := F) m s = Returns (Ok a, s').
Proof. unfold unwrap. by intros ->. Qed.

(** ** Calls that end in a state with a property *)
Definition ends {S E A} (m : M S E A) (s : S) (Q : result E A → S → Prop) : Prop :=
  ∃ r s', m s = Returns (r, s') ∧ Q r s'.
Section ends.
Context {S E : Type}.
Implicit Types s : S.
Lemma ends_pure {A} (m : M S E A) s r s' (Q : result E A → S → Prop) : m s = Returns (r, s') → Q r s' → ends m s Q.
Proof. intros Hm HQ. by exists r, s'. Qed.
Lemma ends_ret {A} (a : A) s (Q : result E A → S → Prop) : Q (Ok a) s → ends (mret a) s Q.
Proof. by apply ends_pure. Qed.
Lemma ends_err {A} e s (Q : result E A → S → Prop) : Q (Err e) s → ends (err e) s Q.
Proof. by apply ends_pure. Qed.
Lemma ends_lift {A} r s (Q : result E A → S → Prop) : Q r s → ends (lift r) s Q.
Proof. by apply ends_pure. Qed.
Lemma ends_modify f s (Q : result E unit → S → Prop) : Q (Ok tt) (f s) → ends (modify f) s Q.
Proof. by apply ends_pure. Qed.
Lemma ends_gets {A} (f : S → A) s (Q : result E A → S → Prop) : Q (Ok (f s)) s → ends (gets f) s Q.
Proof. by apply ends_pure. Qed.
Lemma ends_outcome {A} (o : outcome A) a s (Q : result E A → S → Prop) : o = Returns a → Q (Ok a) s → ends (of_outcome o) s Q.
Proof. intros ->. by apply ends_pure. Qed.
Lemma ends_bind {A B} (m : M S E A) (f : A → M S E B) s Q :
  ends m s (λ r s', match r with Ok a => ends (f a) s' Q | Err e => Q (Err e) s' end) → ends (m ≫= f) s Q.
Proof.
  intros (r & s' & Hm & HQ). destruct r as [a|e].
  - destruct HQ as (r & s'' & Hf & HQ). exists r, s''. by rewrite (bind_ok _ _ _ _ _ Hm).
  - exists (Err e), s'. by rewrite (bind_err _ _ _ _ _ Hm).
Qed.
Lemma ends_impl {A} (m : M S E A) s (P Q : result E A → S → Prop) : ends m s P → (∀ r s', P r s' → Q r s') → ends m s Q.
Proof. intros (r & s' & Hm & HP) Himp. exists r, s'. auto. Qed.
End ends.

(** The final state of a run, [d] if it panics. *)
Definition final {A S E} (d : S) (o : outcome (result E A * S)) : S :=
  match o with Returns (_, s) => s | Panics => d end.

(** A [for] loop over a list; stops at the first error. *)
Fixpoint for_each {S E A} (l : list A) (body : A → M S E unit) : M S E unit :=
  match l with
  | [] => mret tt
  | x :: l' => body x ≫= λ _, for_each l' body
  end.

(** ** 64-bit machine words

    Values of type [u64]/[usize] are [Z] in [0, 2^64).  The release profile
    has no overflow checks, so [+], [-] and [*] wrap. *)
Abbreviation U64 := 18446744073709551616 (only parsing).
Abbreviation U64_MAX := 18446744073709551615 (only parsing).

Definition u64 (x : Z) : Prop := 0 ≤ x < U64.
Definition wrap64 (x : Z) : Z := x mod U64.
Definition not64 (x : Z) : Z := U64_MAX - x.
Definition checked_add (a b : Z) : option Z := if a + b <? U64 then Some (a + b) else None.
Definition checked_sub (a b : Z) : option Z := if b <=? a then Some (a - b) else None.
Definition checked_mul (a b : Z) : option Z := if a * b <? U64 then Some (a * b) else None.

(** ** Bit-level lemmas *)
Lemma land_mask_mod x k : 0 ≤ k → Z.land x (2 ^ k - 1) = x mod 2 ^ k.
Proof. intros Hk. rewrite <-Z.land_ones by lia. f_equal. rewrite Z.ones_equiv. lia. Qed.

Lemma testbit_high x i n : 0 ≤ x < 2 ^ n → 0 ≤ n ≤ i → Z.testbit x i = false.
Proof.
  intros Hx Hn. destruct (decide (x = 0)) as [->|]; [apply Z.testbit_0_l|].
  apply Z.bits_above_log2; [lia|]. apply Z.log2_lt_pow2; [lia|].
  pose proof (Z.pow_le_mono_r 2 n i). lia.
Qed.

Lemma sub_mod_shift x k : 0 ≤ k → x - x mod 2 ^ k = Z.shiftl (Z.shiftr x k) k.
Proof.
  intros Hk. rewrite Z.shiftl_mul_pow2, Z.shiftr_div_pow2 by lia.
  pose proof (Z.div_mod x (2 ^ k)) as Hdm.
  pose proof (Z.pow_pos_nonneg 2 k). lia.
Qed.

Lemma land_not64_mask x k :
  u64 x → 0 ≤ k ≤ 64 → Z.land x (not64 (2 ^ k - 1)) = x - x mod 2 ^ k.
Proof.
  intros Hx Hk. rewrite sub_mod_shift by lia.
  replace (not64 (2 ^ k - 1)) with (Z.shiftl (Z.ones (64 - k)) k).
  2: { unfold not64. rewrite Z.shiftl_mul_pow2, Z.ones_equiv by lia.
       rewrite <-Z.sub_1_r, Z.mul_sub_distr_r, <-Z.pow_add_r by lia.
       replace (64 - k + k) with 64 by lia. lia. }
  apply Z.bits_inj'. intros i Hi. rewrite Z.land_spec, !Z.shiftl_spec by lia.
  destruct (Z.lt_ge_cases i k).
  - rewrite !(Z.testbit_neg_r _ (i - k)) by lia. apply andb_false_r.
  - rewrite Z.shiftr_spec by lia. replace (i - k + k) with i by lia.
    destruct (Z.lt_ge_cases i 64).
    + rewrite Z.ones_spec_low by lia. apply andb_true_r.
    + rewrite (testbit_high x i 64) by (unfold u64 in Hx; lia). done.
Qed.

Lemma testbit_not64 x i : u64 x → 0 ≤ i < 64 → Z.testbit (not64 x) i = negb (Z.testbit x i).
Proof.
  intros [Hx1 Hx2] Hi. unfold not64.
  change U64_MAX with (Z.ones 64). rewrite Z.sub_nocarry_ldiff.
  - rewrite Z.ldiff_spec, Z.ones_spec_low by lia. done.
  - apply Z.bits_inj'. intros j Hj. rewrite Z.ldiff_spec, Z.bits_0.
    destruct (Z.lt_ge_cases j 64).
    + rewrite Z.ones_spec_low by lia. apply andb_false_r.
    + rewrite (testbit_high x j 64) by lia. done.
Qed.

Lemma testbit_u64 x i : u64 x → 64 ≤ i → Z.testbit x i = false.
Proof. intros [??] ?. apply (testbit_high x i 64); lia. Qed.

Lemma testbit_wrap64 x i : 0 ≤ i < 64 → Z.testbit (wrap64 x) i = Z.testbit x i.
Proof. intros. unfold wrap64. change U64 with (2 ^ 64). apply Z.mod_pow2_bits_low. lia. Qed.

Lemma u64_bits x : 0 ≤ x → (∀ i, 64 ≤ i → Z.testbit x i = false) → u64 x.
Proof.
  intros Hx H. split; [done|]. destruct (Z.lt_ge_cases x (2 ^ 64)) as [|Hge]; [done|].
  assert (64 ≤ Z.log2 x) by (apply Z.log2_le_pow2; lia).
  specialize (H _ H0). rewrite Z.bit_log2 in H by lia. done.
Qed.

Lemma wrap64_u64 x : u64 (wrap64 x).
Proof. unfold u64, wrap64. pose proof (Z.mod_pos_bound x U64). lia. Qed.
Lemma lor_u64 x y : u64 x → u64 y → u64 (Z.lor x y).
Proof.
  intros Hx Hy. apply u64_bits; [apply Z.lor_nonneg; unfold u64 in *; lia|].
  intros i Hi. by rewrite Z.lor_spec, !testbit_u64.
Qed.
Lemma land_u64 x y : u64 x → 0 ≤ y → u64 (Z.land x y).
Proof.
  intros Hx Hy. apply u64_bits; [apply Z.land_nonneg; unfold u64 in *; lia|].
  intros i Hi. by rewrite Z.land_spec, testbit_u64.
Qed.

(** A bit of a mask. *)
Lemma testbit_shiftl1 k i : 0 ≤ k → Z.testbit (Z.shiftl 1 k) i = (i =? k).
Proof.
  intros. rewrite Z.shiftl_1_l. destruct (Z.eqb_spec i k) as [->|]; [by apply Z.pow2_bits_true|].
  by apply Z.pow2_bits_false.
Qed.

(** Fields of a word that do not overlap. *)
Lemma lor_fields a b n : 0 ≤ n → 0 ≤ a < 2 ^ n → Z.lor a (Z.shiftl b n) = a + b * 2 ^ n.
Proof.
  intros Hn Ha. rewrite <-Z.shiftl_mul_pow2 by done. symmetry. apply Z.add_nocarry_lor, Z.bits_inj'. intros i Hi.
  rewrite Z.land_spec, Z.bits_0, Z.shiftl_spec by done.
  destruct (Z.lt_ge_cases i n); [by rewrite (Z.testbit_neg_r b), andb_false_r by lia|].
  by rewrite (testbit_high a i n) by lia.
Qed.

Lemma fields_bound a b n k : 0 ≤ n → 0 ≤ k → 0 ≤ a < 2 ^ n → 0 ≤ b < 2 ^ k → 0 ≤ a + b * 2 ^ n < 2 ^ (k + n).
Proof.
  intros Hn Hk Ha Hb. rewrite Z.pow_add_r by done. set (P := 2 ^ n) in *. set (Q := 2 ^ k) in *. nia.
Qed.

Lemma fields_inj a b a' b' n : 0 ≤ n → 0 ≤ a < 2 ^ n → 0 ≤ a' < 2 ^ n → a + b * 2 ^ n = a' + b' * 2 ^ n → a = a' ∧ b = b'.
Proof. intros Hn Ha Ha' H. set (P := 2 ^ n) in *. assert (b = b') as -> by nia. lia. Qed.

(** ** Vectors with a fixed capacity

    [ArrayVec<T, CAP>] and [RawPageVec<T>] are lists with a capacity. *)
Definition insert_at {A} (i : nat) (x : A) (l : list A) : list A := take i l ++ x :: drop i l.
Arguments insert_at : simpl never.

(** [ArrayVec::try_insert] for an index inside the vector: fails when full. *)
Definition try_insert {A} (cap : nat) (i : nat) (x : A) (l : list A) : option (list A) :=
  if decide (length l < cap)%nat then Some (insert_at i x l) else None.

(** [ArrayVec::push]: panics when full. *)
Definition push_cap {A} (cap : nat) (x : A) (l : list A) : outcome (list A) :=
  if decide (length l < cap)%nat then Returns (l ++ [x]) else Panics.

(** [iter().position(p)]. *)
Fixpoint position {A} (p : A → bool) (l : list A) : option nat :=
  match l with
  | [] => None
  | x :: l' => if p x then Some O else S <$> position p l'
  end.

Lemma position_Some {A} (p : A → bool) l i :
  position p l = Some i →
  ∃ x, l !! i = Some x ∧ p x = true ∧ ∀ j y, (j < i)%nat → l !! j = Some y → p y = false.
Proof.
  revert i. induction l as [|x l IH]; intros i; cbn; [done|].
  destruct (p x) eqn:Hp.
  - intros [= <-]. exists x. split_and!; [done..|lia].
  - destruct (position p l) as [k|]; intros [= <-].
    destruct (IH k eq_refl) as (y & Hy & Hpy & Hbefore).
    exists y. split_and!; [done..|]. intros [|j] z ? Hz; cbn in Hz; simplify_eq; [done|].
    eapply Hbefore; [|done]. lia.
Qed.

Lemma position_None {A} (p : A → bool) l :
  position p l = None ↔ Forall (λ x, p x = false) l.
Proof.
  induction l as [|x l IH]; cbn; [done|]. rewrite list.Forall_cons. destruct (p x).
  - split; [done|intros [? _]; done].
  - rewrite fmap_None. tauto.
Qed.

Lemma length_insert_at {A} i (x : A) l : length (insert_at i x l) = S (length l).
Proof. unfold insert_at. rewrite length_app. cbn. rewrite length_take, length_drop. lia. Qed.

Lemma insert_at_app {A} (x : A) l1 l2 : insert_at (length l1) x (l1 ++ l2) = l1 ++ x :: l2.
Proof. unfold insert_at. by rewrite take_app_length, drop_app_length. Qed.

Lemma elem_of_insert_at {A} i (x y : A) l : y ∈ insert_at i x l ↔ y = x ∨ y ∈ l.
Proof.
  unfold insert_at. rewrite elem_of_app, elem_of_cons.
  rewrite <-(take_drop i l) at 3. rewrite elem_of_app. tauto.
Qed.

(** ** Proof automation of the library *)
Create HintDb salus.
#[export] Hint Unfold u64 : salus.

(** Case analysis on every boolean comparison in sight. *)
Ltac bool_cases :=
  repeat match goal with
  | H : context [?a <? ?b] |- _ => destruct (Z.ltb_spec a b)
  | H : context [?a <=? ?b] |- _ => destruct (Z.leb_spec a b)
  | H : context [?a =? ?b] |- _ => destruct (Z.eqb_spec a b)
  | |- context [?a <? ?b] => destruct (Z.ltb_spec a b)
  | |- context [?a <=? ?b] => destruct (Z.leb_spec a b)
  | |- context [?a =? ?b] => destruct (Z.eqb_spec a b)
  end; cbn in *; simplify_eq; try done; try lia.

(** Linear arithmetic with divisions and remainders by constants. *)
Ltac mod_lia := Z.to_euclidean_division_equations; lia.

(** Evaluates the plumbing of the monad. *)
Ltac msimpl :=
  repeat (unfold mbind, mret, M_bind, M_ret, outcome_bind, outcome_ret, err, panic, get,
    put, gets, modify, lift, unwrap, with_err, of_outcome, unwrap_option, unwrap_result,
    ok_or, map_err in *; cbn in *).
