(* ===== verification/Intervals.v ===== *)
(** * Sorted lists of disjoint address intervals

    Shared by the hardware memory map ([HwMemMap]), the sparse page map and the
    guest-physical region list ([VmRegionList]), which all keep a vector of
    half-open intervals sorted by address. *)
From S2P Require Import Prelude.
Local Open Scope Z_scope.

Section intervals.
Context {R : Type} (lo hi : R → Z).
Implicit Types (l : list R) (r : R) (x : Z).

(** Every interval ends before the ones after it start. *)
Definition ordered (l : list R) : Prop :=
  (∀ i j a b, (i < j)%nat → l !! i = Some a → l !! j = Some b → hi a ≤ lo b) ∧
  Forall (λ r, lo r ≤ hi r) l.

Definition covers (r : R) (x : Z) : bool := (lo r <=? x) && (x <? hi r).

(** The first interval that holds [x]. *)
Fixpoint find_at (x : Z) (l : list R) : option R :=
  match l with
  | [] => None
  | r :: l' => if covers r x then Some r else find_at x l'
  end.

Lemma covers_spec r x : covers r x = true ↔ lo r ≤ x < hi r.
Proof. unfold covers. rewrite andb_true_iff, Z.leb_le, Z.ltb_lt. done. Qed.

Lemma ordered_nil : ordered [].
Proof. split; [|constructor]. intros i j a b _ H. by rewrite lookup_nil in H. Qed.

Lemma ordered_cons r l :
  ordered (r :: l) ↔ lo r ≤ hi r ∧ Forall (λ b, hi r ≤ lo b) l ∧ ordered l.
Proof.
  unfold ordered. rewrite list.Forall_cons. split.
  - intros (Hs & Hr & Hl). split_and!; [done| | |done].
    + apply Forall_lookup. intros i b Hb. by apply (Hs 0%nat (S i)); [lia|..].
    + intros i j a b Hij Ha Hb. by apply (Hs (S i) (S j)); [lia|..].
  - intros (Hr & Hb & Hs & Hl). split_and!; [|done..].
    intros [|i] [|j] a b Hij Ha Hb'; cbn in *; [lia| |lia|].
    + simplify_eq. by eapply Forall_lookup in Hb.
    + eapply Hs; [|done..]. lia.
Qed.

Lemma ordered_app l1 l2 :
  ordered (l1 ++ l2) ↔
  ordered l1 ∧ ordered l2 ∧ Forall (λ a, Forall (λ b, hi a ≤ lo b) l2) l1.
Proof.
  induction l1 as [|r l1 IH]; cbn [app].
  - pose proof ordered_nil. split; [intros; split_and!; [done..|constructor]|naive_solver].
  - rewrite !ordered_cons, list.Forall_app, list.Forall_cons, IH. tauto.
Qed.

Lemma ordered_singleton r : ordered [r] ↔ lo r ≤ hi r.
Proof. rewrite ordered_cons. pose proof ordered_nil. split; [naive_solver|]. intros; split_and!; [done|constructor|done]. Qed.

Lemma ordered_snoc l r :
  ordered (l ++ [r]) ↔ ordered l ∧ lo r ≤ hi r ∧ Forall (λ a, hi a ≤ lo r) l.
Proof.
  rewrite ordered_app, ordered_singleton.
  assert (Forall (λ a, Forall (λ b, hi a ≤ lo b) [r]) l ↔ Forall (λ a, hi a ≤ lo r) l) as ->; [|tauto].
  rewrite !list.Forall_forall. setoid_rewrite list.Forall_singleton. done.
Qed.

Lemma find_at_Some_1 x l r : find_at x l = Some r → r ∈ l ∧ lo r ≤ x < hi r.
Proof.
  induction l as [|y l IH]; cbn; [done|]. destruct (covers y x) eqn:E.
  - intros [= <-]. apply covers_spec in E. split; [left|done].
  - intros [? ?]%IH. split; [by right|done].
Qed.

Lemma find_at_Some x l r :
  ordered l → find_at x l = Some r ↔ r ∈ l ∧ lo r ≤ x < hi r.
Proof.
  intros Hl. split; [apply find_at_Some_1|].
  induction l as [|y l IH]; cbn; intros [Hin Hx]; [by apply not_elem_of_nil in Hin|].
  apply ordered_cons in Hl as (Hy & Hyl & Hl). rewrite list.Forall_forall in Hyl.
  destruct (covers y x) eqn:E.
  - apply covers_spec in E. apply elem_of_cons in Hin as [->|Hin]; [done|].
    apply Hyl in Hin. lia.
  - apply elem_of_cons in Hin as [->|Hin]; [|by apply IH].
    apply covers_spec in Hx. congruence.
Qed.

Lemma find_at_None x l : find_at x l = None ↔ Forall (λ r, ¬ (lo r ≤ x < hi r)) l.
Proof.
  induction l as [|r l IH]; cbn; [done|]. rewrite list.Forall_cons, <-IH.
  destruct (covers r x) eqn:E.
  - apply covers_spec in E. split; [done|tauto].
  - split; [|tauto]. intros ?. split; [|done]. rewrite <-covers_spec. congruence.
Qed.

Lemma find_at_app x l1 l2 :
  find_at x (l1 ++ l2) = match find_at x l1 with Some r => Some r | None => find_at x l2 end.
Proof. induction l1 as [|r l1 IH]; cbn; [done|]. by destruct (covers r x). Qed.

(** Replacing a segment of the list by other intervals inside the same bounds. *)
Lemma ordered_splice l1 old mid l2 lb ub :
  ordered (l1 ++ old ++ l2) → ordered mid →
  Forall (λ a, hi a ≤ lb) l1 → Forall (λ b, ub ≤ lo b) l2 →
  Forall (λ m, lb ≤ lo m ∧ hi m ≤ ub) mid →
  ordered (l1 ++ mid ++ l2).
Proof.
  rewrite !ordered_app, !list.Forall_forall. setoid_rewrite list.Forall_forall. setoid_rewrite elem_of_app.
  intros (H1 & (H2 & H3 & H4) & H5) Hm Hlb Hub Hb. split_and!; try done.
  - intros a Ha b Hb'. apply Hb in Ha. apply Hub in Hb'. lia.
  - intros a Ha b [Hb'|Hb']; [|by eauto]. apply Hlb in Ha. apply Hb in Hb'. lia.
Qed.

(** ... changes the lookup only inside those bounds. *)
Lemma find_at_splice x l1 old mid l2 lb ub :
  Forall (λ a, hi a ≤ lb) l1 → Forall (λ b, ub ≤ lo b) l2 →
  Forall (λ m, lb ≤ lo m ∧ hi m ≤ ub) mid → Forall (λ m, lb ≤ lo m ∧ hi m ≤ ub) old →
  find_at x (l1 ++ mid ++ l2) =
    if (lb <=? x) && (x <? ub) then find_at x mid else find_at x (l1 ++ old ++ l2).
Proof.
  intros Hl1 Hl2 Hm Ho. rewrite !find_at_app.
  destruct ((lb <=? x) && (x <? ub)) eqn:Hx.
  - apply andb_true_iff in Hx as [Hx1%Z.leb_le Hx2%Z.ltb_lt].
    assert (find_at x l1 = None) as ->.
    { apply find_at_None. eapply list.Forall_impl; [exact Hl1|]. cbn. lia. }
    assert (find_at x l2 = None) as ->.
    { apply find_at_None. eapply list.Forall_impl; [exact Hl2|]. cbn. lia. }
    by destruct (find_at x mid).
  - assert (∀ l, Forall (λ m, lb ≤ lo m ∧ hi m ≤ ub) l → find_at x l = None) as Hnone.
    { intros l Hl. apply find_at_None. eapply list.Forall_impl; [exact Hl|]. cbn.
      apply andb_false_iff in Hx as [?%Z.leb_gt|?%Z.ltb_ge]; lia. }
    by rewrite (Hnone mid Hm), (Hnone old Ho).
Qed.
End intervals.
