(* ===== verification/RiscvPages.v ===== *)
(** * Page sizes, addresses and page sequences (crate [riscv-pages])

    Models [riscv-pages/src/page.rs], [page_owner_id.rs], [memory_type.rs] and
    [sequential_pages.rs].  Addresses and page frame numbers are [u64] values
    in [Z]; the [AddressSpace] tag of [RawAddr]/[PageAddr]/[Pfn] is a
    compile-time phantom in the supervisor case and constant per VM in the
    guest case, so an address is modelled by its bits.  The typestate parameter
    of [Page<S>] and [SequentialPages<S>] exists at compile time only. *)
From S2P Require Import Prelude.
Local Open Scope Z_scope.

(** ** [PageSize] *)
Module PageSize.
Inductive t :=
| Size4k
| Size2M
| Size1G
| Size512G.
#[global] Instance eq_dec : EqDecision t.
Proof. solve_decision. Defined.

(** [size as u64]. *)
Definition bytes (s : t) : Z :=
  match s with
  | Size4k => 4096
  | Size2M => 2097152
  | Size1G => 1073741824
  | Size512G => 549755813888
  end.

(** The exponent of the size; used in statements only. *)
Definition shift (s : t) : Z :=
  match s with Size4k => 12 | Size2M => 21 | Size1G => 30 | Size512G => 39 end.

Definition num_4k_pages (val : Z) : Z := wrap64 (val + bytes Size4k - 1) / bytes Size4k.
Definition is_aligned (s : t) (val : Z) : bool := Z.land val (bytes s - 1) =? 0.
Definition round_up (s : t) (val : Z) : Z :=
  Z.land (wrap64 (val + bytes s - 1)) (not64 (bytes s - 1)).
Definition round_down (s : t) (val : Z) : Z := Z.land val (not64 (bytes s - 1)).
Definition is_huge (s : t) : bool :=
  match s with Size4k => false | _ => true end.
End PageSize.
Import PageSize (Size4k, Size2M, Size1G, Size512G).

(** ** [PageOwnerId] *)
Module PageOwnerId.
Definition t := Z.
Definition HOST : t := 0.
Definition HYPERVISOR : t := 1.
Definition new (id : Z) : option t :=
  if (id =? HOST) || (id =? HYPERVISOR) then None else Some id.
Definition host : t := HOST.
Definition hypervisor : t := HYPERVISOR.
Definition is_host (id : t) : bool := id =? HOST.
End PageOwnerId.

(** ** [MemType], [DeviceMemType] *)
Module DeviceMemType.
Inductive t := Imsic | PciConfig | PciBar | Uart | Reset.
#[global] Instance eq_dec : EqDecision t.
Proof. solve_decision. Defined.
End DeviceMemType.

Module MemType.
Inductive t :=
| Ram
| Mmio (d : DeviceMemType.t).
#[global] Instance eq_dec : EqDecision t.
Proof. solve_decision. Defined.
End MemType.

(** ** [RawAddr], [PageAddr] and [Pfn] *)
Module RawAddr.
Definition checked_increment (addr increment : Z) : option Z := checked_add addr increment.
End RawAddr.

Module PageAddr.
Definition PFN_SHIFT : Z := 12.
Definition PFN_BITS : Z := 44.
Definition PFN_MASK : Z := Z.shiftl 1 PFN_BITS - 1.

Definition with_alignment (addr : Z) (alignment : PageSize.t) : option Z :=
  if PageSize.is_aligned alignment addr then Some addr else None.
Definition new (addr : Z) : option Z := with_alignment addr Size4k.
Definition from_pfn (pfn : Z) (alignment : PageSize.t) : option Z :=
  with_alignment (wrap64 (Z.shiftl pfn PFN_SHIFT)) alignment.
Definition with_round_up (addr : Z) (alignment : PageSize.t) : Z :=
  PageSize.round_up alignment addr.
Definition with_round_down (addr : Z) (alignment : PageSize.t) : Z :=
  PageSize.round_down alignment addr.
Definition is_aligned (addr : Z) (alignment : PageSize.t) : bool :=
  PageSize.is_aligned alignment addr.
Definition pfn (addr : Z) : Z := Z.land (Z.shiftr addr PFN_SHIFT) PFN_MASK.
Definition checked_add_pages_with_size (addr n : Z) (page_size : PageSize.t) : option Z :=
  inc ← checked_mul n (PageSize.bytes page_size);
  a ← RawAddr.checked_increment addr inc;
  with_alignment a page_size.
Definition checked_add_pages (addr n : Z) : option Z :=
  checked_add_pages_with_size addr n Size4k.
Definition index (addr : Z) : Z := pfn addr.
End PageAddr.

(** ** [PageAddrIter]: page addresses until the end of the [u64] range *)
Module PageAddrIter.
Record t := mk { it_next : option Z; increment : PageSize.t }.
Definition new (start : Z) (inc : PageSize.t) : option t :=
  n ← PageAddr.with_alignment start inc;
  Some (mk (Some n) inc).
(** One [Iterator::next]. *)
Definition next (it : t) : option Z * t :=
  match it_next it with
  | Some n => (Some n, mk (PageAddr.checked_add_pages_with_size n 1 (increment it)) (increment it))
  | None => (None, it)
  end.
(** [it.take(n)] collected. *)
Fixpoint take (it : t) (n : nat) : list Z :=
  match n with
  | O => []
  | S n' => match next it with
            | (Some a, it') => a :: take it' n'
            | (None, _) => []
            end
  end.
End PageAddrIter.

(** [addr.iter_from().take(n)]: [iter_from] unwraps a 4kB-aligned start. *)
Definition iter_from_take (addr : Z) (n : Z) : outcome (list Z) :=
  it ← unwrap_option (PageAddrIter.new addr Size4k);
  Returns (PageAddrIter.take it (Z.to_nat n)).

(** ** [PageAddrRange] *)
Module PageAddrRange.
Record t := mk { base : Z; page_size : PageSize.t; num_pages : Z }.
Definition new (b n : Z) : t := mk b Size4k n.
Definition with_size (b n : Z) (s : PageSize.t) : option t :=
  if negb (PageAddr.is_aligned b s) then None else Some (mk b s n).
Definition length_bytes (r : t) : Z := wrap64 (num_pages r * PageSize.bytes (page_size r)).
Definition next (r : t) : option Z * t :=
  if num_pages r =? 0 then (None, r)
  else match PageAddr.checked_add_pages_with_size (base r) 1 (page_size r) with
       | None => (None, r)
       | Some b => (Some (base r), mk b (page_size r) (num_pages r - 1))
       end.
(** The iterator drained, for at most [fuel] items. *)
Fixpoint collect (r : t) (fuel : nat) : list Z :=
  match fuel with
  | O => []
  | S k => match next r with
           | (Some a, r') => a :: collect r' k
           | (None, _) => []
           end
  end.
Definition to_list (r : t) : list Z := collect r (Z.to_nat (num_pages r)).
End PageAddrRange.

(** ** [Page] and [SequentialPages] *)
Module Page.
Record t := mk { addr : Z; size : PageSize.t }.
#[global] Instance eq_dec : EqDecision t.
Proof. solve_decision. Defined.
(** [PhysPage::new_with_size] asserts the alignment. *)
Definition new_with_size (a : Z) (s : PageSize.t) : outcome t :=
  if PageAddr.is_aligned a s then Returns (mk a s) else Panics.
Definition new (a : Z) : outcome t := new_with_size a Size4k.
End Page.

Module SequentialPages.
Record t := mk { addr : Z; page_size : PageSize.t; count : Z }.

(** The errors carry the pages back as the lazy chain of the sequence built so
    far and the pages not yet consumed. *)
Inductive error :=
| Empty
| NonContiguous (seq : t) (rest : list Page.t)
| NonUniformSize (seq : t) (rest : list Page.t)
| Overflow (seq : t) (rest : list Page.t).

(** [SeqPageIter::next]: the unwrap of the successor address panics when the
    page ends at the end of the address space. *)
Definition iter_next (s : t) : outcome (option Page.t * t) :=
  if count s =? 0 then Returns (None, s)
  else
    a ← unwrap_option (PageAddr.checked_add_pages_with_size (addr s) 1 (page_size s));
    p ← Page.new_with_size (addr s) (page_size s);
    Returns (Some p, mk a (page_size s) (count s - 1)).

(** The iterator drained: [count] calls of [next]. *)
Fixpoint iter_collect (s : t) (fuel : nat) : outcome (list Page.t) :=
  match fuel with
  | O => Returns []
  | S k => r ← iter_next s;
           match r with
           | (Some p, s') => l ← iter_collect s' k; Returns (p :: l)
           | (None, _) => Returns []
           end
  end.
Definition into_iter (s : t) : outcome (list Page.t) := iter_collect s (Z.to_nat (count s)).

(** The [while let] loop of [from_pages]. *)
Fixpoint from_pages_loop (seq : t) (last_addr : Z) (rest : list Page.t) : result error t :=
  match rest with
  | [] => Ok seq
  | page :: rest' =>
      if negb (bool_decide (Page.size page = page_size seq)) then Err (NonUniformSize seq rest)
      else match PageAddr.checked_add_pages_with_size last_addr 1 (page_size seq) with
           | None => Err (Overflow seq rest)
           | Some next_addr =>
               if negb (Page.addr page =? next_addr) then Err (NonContiguous seq rest)
               else from_pages_loop (mk (addr seq) (page_size seq) (wrap64 (count seq + 1)))
                      (Page.addr page) rest'
           end
  end.
Definition from_pages (pages : list Page.t) : result error t :=
  match pages with
  | [] => Err Empty
  | first_page :: rest =>
      from_pages_loop (mk (Page.addr first_page) (Page.size first_page) 1) (Page.addr first_page) rest
  end.

Definition len (s : t) : Z := count s.
Definition length_bytes (s : t) : Z := wrap64 (PageSize.bytes (page_size s) * count s).
Definition from_mem_range (a : Z) (s : PageSize.t) (n : Z) : option t :=
  if negb (PageAddr.is_aligned a s) then None else Some (mk a s n).
Definition from_page_range (start end_ : Z) (s : PageSize.t) : outcome (option t) :=
  if negb (PageAddr.is_aligned start s) || negb (PageAddr.is_aligned end_ s) then Returns None
  else d ← unwrap_option (checked_sub end_ start);
       Returns (Some (mk start s (d / PageSize.bytes s))).
Definition page_addrs (s : t) : outcome (list Z) := iter_from_take (addr s) (count s).
Definition from_page (p : Page.t) : t := mk (Page.addr p) (Page.size p) 1.
End SequentialPages.

(** [SeqPageChunkIter] *)
Module SeqPageChunkIter.
Record t := mk { chunk_size : Z; addr : option Z; page_size : PageSize.t; count : Z }.
Definition into_chunks_iter (s : SequentialPages.t) (chunk : Z) : t :=
  mk chunk (if 0 <? SequentialPages.count s then Some (SequentialPages.addr s) else None)
     (SequentialPages.page_size s) (SequentialPages.count s).
Definition next (it : t) : outcome (option SequentialPages.t * t) :=
  if count it =? 0 then Returns (None, it)
  else
    a ← unwrap_option (addr it);
    let to_remove := Z.min (count it) (chunk_size it) in
    let count' := count it - to_remove in
    addr' ← (if 0 <? count' then
               b ← unwrap_option (PageAddr.checked_add_pages_with_size a to_remove (page_size it));
               Returns (Some b)
             else Returns None);
    sp ← unwrap_option (SequentialPages.from_mem_range a (page_size it) to_remove);
    Returns (Some sp, mk (chunk_size it) addr' (page_size it) count').
Fixpoint collect (it : t) (fuel : nat) : outcome (list SequentialPages.t) :=
  match fuel with
  | O => Returns []
  | S k => r ← next it;
           match r with
           | (Some s, it') => l ← collect it' k; Returns (s :: l)
           | (None, _) => Returns []
           end
  end.
End SeqPageChunkIter.

(** ** Alignment and rounding *)
Lemma bytes_pow s : PageSize.bytes s = 2 ^ PageSize.shift s.
Proof. by destruct s. Qed.
Lemma bytes_pos s : 4096 ≤ PageSize.bytes s ≤ 549755813888.
Proof. destruct s; cbn; lia. Qed.
Lemma shift_range s : 12 ≤ PageSize.shift s ≤ 39.
Proof. destruct s; cbn; lia. Qed.

Lemma is_aligned_spec s v : PageSize.is_aligned s v = true ↔ v mod PageSize.bytes s = 0.
Proof.
  unfold PageSize.is_aligned. rewrite bytes_pow, land_mask_mod by (pose proof (shift_range s); lia).
  apply Z.eqb_eq.
Qed.

Lemma is_aligned_4k s v : PageSize.is_aligned s v = true → PageSize.is_aligned Size4k v = true.
Proof.
  rewrite !is_aligned_spec. intros H. apply Z.mod_divide in H; [|pose proof (bytes_pos s); lia].
  apply Z.mod_divide; [done|]. etrans; [|exact H].
  destruct s; [exists 1|exists 512|exists 262144|exists 134217728]; done.
Qed.

Lemma round_down_spec s v :
  u64 v → PageSize.round_down s v = v - v mod PageSize.bytes s.
Proof.
  intros Hv. unfold PageSize.round_down. rewrite bytes_pow.
  apply land_not64_mask; [done|]. pose proof (shift_range s). lia.
Qed.

Lemma round_up_spec s v :
  0 ≤ v → v + PageSize.bytes s - 1 < U64 →
  PageSize.round_up s v mod PageSize.bytes s = 0 ∧
  v ≤ PageSize.round_up s v < v + PageSize.bytes s.
Proof.
  intros Hv Hb. pose proof (bytes_pos s).
  assert (Hr : PageSize.round_up s v =
    v + PageSize.bytes s - 1 - (v + PageSize.bytes s - 1) mod PageSize.bytes s).
  { unfold PageSize.round_up, wrap64. rewrite Z.mod_small by lia.
    apply round_down_spec. unfold u64. lia. }
  rewrite Hr. pose proof (Z.mod_pos_bound (v + PageSize.bytes s - 1) (PageSize.bytes s)).
  split; [|lia]. rewrite Zminus_mod_idemp_r, Z.sub_diag. apply Z.mod_0_l. lia.
Qed.

Lemma num_4k_pages_spec v :
  0 ≤ v → v + 4095 < U64 →
  v ≤ PageSize.num_4k_pages v * 4096 < v + 4096.
Proof.
  intros Hv Hb. unfold PageSize.num_4k_pages, wrap64. cbn [PageSize.bytes].
  rewrite Z.mod_small by lia.
  pose proof (Z.div_mod (v + 4096 - 1) 4096). pose proof (Z.mod_pos_bound (v + 4096 - 1) 4096). lia.
Qed.

Lemma num_4k_pages_mul n : 0 ≤ n → n * 4096 + 4095 < U64 → PageSize.num_4k_pages (n * 4096) = n.
Proof. intros. pose proof (num_4k_pages_spec (n * 4096)). lia. Qed.

(** ** Page-address arithmetic *)
Lemma with_alignment_Some a s b :
  PageAddr.with_alignment a s = Some b ↔ b = a ∧ a mod PageSize.bytes s = 0.
Proof.
  unfold PageAddr.with_alignment. destruct (PageSize.is_aligned s a) eqn:E.
  - apply is_aligned_spec in E. naive_solver.
  - split; [done|]. intros [_ H%is_aligned_spec]. congruence.
Qed.

Lemma checked_add_pages_spec a n s b :
  a mod PageSize.bytes s = 0 →
  PageAddr.checked_add_pages_with_size a n s = Some b ↔
  b = a + n * PageSize.bytes s ∧ n * PageSize.bytes s < U64 ∧ a + n * PageSize.bytes s < U64.
Proof.
  intros Ha. unfold PageAddr.checked_add_pages_with_size, RawAddr.checked_increment,
    checked_mul, checked_add.
  destruct (Z.ltb_spec (n * PageSize.bytes s) U64); cbn; [|split; [done|lia]].
  destruct (Z.ltb_spec (a + n * PageSize.bytes s) U64); cbn; [|split; [done|lia]].
  rewrite with_alignment_Some. rewrite Z.mod_add by (pose proof (bytes_pos s); lia). naive_solver.
Qed.

Lemma checked_add_pages_None a n s :
  0 ≤ a → a mod PageSize.bytes s = 0 →
  PageAddr.checked_add_pages_with_size a n s = None ↔ U64 ≤ a + n * PageSize.bytes s.
Proof.
  intros Hp Ha. destruct (PageAddr.checked_add_pages_with_size a n s) as [b|] eqn:E.
  - apply checked_add_pages_spec in E; [|done]. split; [done|lia].
  - split; [intros _|done]. destruct (Z.le_gt_cases U64 (a + n * PageSize.bytes s)); [done|].
    assert (PageAddr.checked_add_pages_with_size a n s = Some (a + n * PageSize.bytes s)); [|congruence].
    apply checked_add_pages_spec; [done|]. lia.
Qed.

Lemma pfn_spec a : PageAddr.pfn a = (a / 4096) mod 2 ^ 44.
Proof.
  unfold PageAddr.pfn. rewrite Z.shiftr_div_pow2 by done.
  change PageAddr.PFN_MASK with (2 ^ 44 - 1). by rewrite land_mask_mod.
Qed.

Lemma pfn_small a : 0 ≤ a < 2 ^ 56 → PageAddr.pfn a = a / 4096.
Proof.
  intros Ha. rewrite pfn_spec. apply Z.mod_small.
  split; [apply Z.div_pos; lia|apply Z.div_lt_upper_bound; lia].
Qed.

Lemma from_pfn_Some pfn s a :
  0 ≤ pfn < 2 ^ 52 →
  PageAddr.from_pfn pfn s = Some a ↔ a = pfn * 4096 ∧ a mod PageSize.bytes s = 0.
Proof.
  intros Hp. unfold PageAddr.from_pfn, wrap64. rewrite with_alignment_Some.
  rewrite Z.shiftl_mul_pow2 by done. change (2 ^ PageAddr.PFN_SHIFT) with 4096.
  rewrite Z.mod_small by lia. naive_solver.
Qed.

(** ** Runs of pages

    [page_seq a s n] are the addresses of [n] consecutive pages of size [s]. *)
Fixpoint page_seq (a : Z) (s : PageSize.t) (n : nat) : list Z :=
  match n with
  | O => []
  | S k => a :: page_seq (a + PageSize.bytes s) s k
  end.
Definition page_run (a : Z) (s : PageSize.t) (n : nat) : list Page.t :=
  (λ x, Page.mk x s) <$> page_seq a s n.

Lemma page_run_S a s n : page_run a s (S n) = Page.mk a s :: page_run (a + PageSize.bytes s) s n.
Proof. done. Qed.

Lemma length_page_seq a s n : length (page_seq a s n) = n.
Proof. revert a. induction n; intros; cbn; auto. Qed.

Lemma lookup_page_seq a s n i :
  (i < n)%nat → page_seq a s n !! i = Some (a + Z.of_nat i * PageSize.bytes s).
Proof.
  revert a i. induction n as [|n IH]; intros a [|i] Hi; cbn; try lia.
  - f_equal. lia.
  - rewrite IH by lia. f_equal. lia.
Qed.

Lemma elem_of_page_seq x a s n :
  x ∈ page_seq a s n ↔ ∃ i, 0 ≤ i < Z.of_nat n ∧ x = a + i * PageSize.bytes s.
Proof.
  rewrite list_elem_of_lookup. split.
  - intros [i Hi]. assert (i < n)%nat as Hlt.
    { apply lookup_lt_Some in Hi. by rewrite length_page_seq in Hi. }
    rewrite lookup_page_seq in Hi by done. exists (Z.of_nat i). simplify_eq. lia.
  - intros (i & Hi & ->). exists (Z.to_nat i). rewrite lookup_page_seq by lia. rewrite Z2Nat.id by lia. done.
Qed.

Lemma page_seq_app a s n m :
  page_seq a s (n + m) = page_seq a s n ++ page_seq (a + Z.of_nat n * PageSize.bytes s) s m.
Proof.
  revert a. induction n as [|n IH]; intros a; cbn [Nat.add page_seq app].
  - f_equal. lia.
  - f_equal. rewrite IH. do 2 f_equal. lia.
Qed.

Lemma NoDup_page_seq a s n : NoDup (page_seq a s n).
Proof.
  revert a. induction n as [|n IH]; intros a; constructor; [|done].
  rewrite elem_of_page_seq. pose proof (bytes_pos s). intros (i & ? & ?). nia.
Qed.

(** The address iterator yields consecutive pages up to the end of the address space. *)
Lemma iter_take_run a s n :
  0 ≤ a → a mod PageSize.bytes s = 0 → a + Z.of_nat n * PageSize.bytes s ≤ U64 →
  PageAddrIter.take (PageAddrIter.mk (Some a) s) n = page_seq a s n.
Proof.
  revert a. induction n as [|n IH]; intros a Ha Hal Hn; [done|].
  pose proof (bytes_pos s). cbn [PageAddrIter.take PageAddrIter.next PageAddrIter.it_next page_seq].
  f_equal. cbn [PageAddrIter.increment].
  destruct (PageAddr.checked_add_pages_with_size a 1 s) as [b|] eqn:E.
  - apply checked_add_pages_spec in E as (-> & _ & _); [|done].
    rewrite Z.mul_1_l. apply IH; [lia| |lia].
    rewrite <-Zplus_mod_idemp_r, Z.mod_same, Z.add_0_r by lia. done.
  - apply checked_add_pages_None in E; [|done..]. destruct n; [done|lia].
Qed.

Lemma iter_from_take_run a n :
  0 ≤ a → 0 ≤ n → a mod 4096 = 0 → a + n * 4096 ≤ U64 →
  iter_from_take a n = Returns (page_seq a Size4k (Z.to_nat n)).
Proof.
  intros Ha Hn Hal Hb. unfold iter_from_take, PageAddrIter.new.
  assert (PageAddr.with_alignment a Size4k = Some a) as -> by by apply with_alignment_Some.
  cbn [mbind option_bind unwrap_option outcome_bind]. f_equal.
  apply iter_take_run; [done..|]. cbn [PageSize.bytes]. lia.
Qed.

Lemma is_aligned_true a s : a mod PageSize.bytes s = 0 → PageAddr.is_aligned a s = true.
Proof. apply is_aligned_spec. Qed.

Lemma aligned_step a s n :
  a mod PageSize.bytes s = 0 → (a + n * PageSize.bytes s) mod PageSize.bytes s = 0.
Proof. intros. rewrite Z.mod_add; [done|]. pose proof (bytes_pos s). lia. Qed.

Lemma into_iter_run a s n :
  0 ≤ a → a mod PageSize.bytes s = 0 → a + Z.of_nat n * PageSize.bytes s < U64 →
  SequentialPages.into_iter (SequentialPages.mk a s (Z.of_nat n)) = Returns (page_run a s n).
Proof.
  unfold SequentialPages.into_iter. cbn [SequentialPages.count]. rewrite Nat2Z.id.
  revert a. induction n as [|n IH]; intros a Ha Hal Hb; [done|].
  pose proof (bytes_pos s). cbn [SequentialPages.iter_collect]. unfold SequentialPages.iter_next.
  cbn [SequentialPages.count SequentialPages.addr SequentialPages.page_size].
  destruct (Z.eqb_spec (Z.of_nat (S n)) 0); [lia|].
  assert (PageAddr.checked_add_pages_with_size a 1 s = Some (a + PageSize.bytes s)) as ->.
  { apply checked_add_pages_spec; [done|]. lia. }
  unfold Page.new_with_size. rewrite is_aligned_true by done.
  cbn [mbind outcome_bind unwrap_option].
  replace (Z.of_nat (S n) - 1) with (Z.of_nat n) by lia.
  rewrite IH; [done|lia| |lia].
  replace (a + PageSize.bytes s) with (a + 1 * PageSize.bytes s) by lia. by apply aligned_step.
Qed.

Lemma from_pages_loop_spec rest a s c seq :
  0 ≤ a → a mod PageSize.bytes s = 0 → 1 ≤ c → a + (c - 1) * PageSize.bytes s < U64 →
  SequentialPages.from_pages_loop (SequentialPages.mk a s c) (a + (c - 1) * PageSize.bytes s) rest
    = Ok seq ↔
  rest = page_run (a + c * PageSize.bytes s) s (length rest) ∧
  seq = SequentialPages.mk a s (c + Z.of_nat (length rest)) ∧
  a + (c + Z.of_nat (length rest) - 1) * PageSize.bytes s < U64.
Proof.
  pose proof (bytes_pos s) as Hs. revert c.
  induction rest as [|[pa ps] rest IH]; intros c Ha Hal Hc Hb;
    cbn [SequentialPages.from_pages_loop SequentialPages.page_size SequentialPages.addr
         SequentialPages.count Page.size Page.addr].
  { cbn. split; [intros [= <-]|intros (_ & -> & _)]; split_and?; try done; try lia; do 2 f_equal; lia. }
  destruct (decide (ps = s)) as [->|Hne]; cycle 1.
  { rewrite bool_decide_false by done. cbn. split; [done|]. intros (Hr & _). by simplify_eq. }
  rewrite bool_decide_true by done. cbn [negb length].
  destruct (PageAddr.checked_add_pages_with_size _ 1 s) as [b|] eqn:E; cycle 1.
  { apply checked_add_pages_None in E; [|nia|by apply aligned_step].
    split; [done|]. intros (_ & _ & ?). nia. }
  apply checked_add_pages_spec in E as (-> & _ & Hlt); [|by apply aligned_step].
  replace (a + (c - 1) * PageSize.bytes s + 1 * PageSize.bytes s)
    with (a + (c + 1 - 1) * PageSize.bytes s) in * by lia.
  destruct (Z.eqb_spec pa (a + (c + 1 - 1) * PageSize.bytes s)) as [->|Hne]; cbn [negb]; cycle 1.
  { split; [done|]. cbn. intros (Hr & _). simplify_eq. lia. }
  unfold wrap64. rewrite Z.mod_small by nia. rewrite IH by (try done; lia).
  rewrite page_run_S. replace (c + 1 - 1) with c by lia.
  replace (a + c * PageSize.bytes s + PageSize.bytes s) with (a + (c + 1) * PageSize.bytes s) by lia.
  replace (c + Z.of_nat (S (length rest))) with (c + 1 + Z.of_nat (length rest)) by lia.
  split; intros (Hr & ? & ?); (split; [|done]); [congruence|by injection Hr].
Qed.

(** [SequentialPages::from_pages] accepts exactly the non-empty runs of
    consecutive, equally sized pages, and the sequence it returns has the first
    page's address and size and as many pages as were given. *)
Theorem from_pages_contiguous (pages : list Page.t) (seq : SequentialPages.t) :
  Forall (λ p, u64 (Page.addr p) ∧ Page.addr p mod PageSize.bytes (Page.size p) = 0) pages →
  SequentialPages.from_pages pages = Ok seq ↔
  pages ≠ [] ∧
  pages = page_run (SequentialPages.addr seq) (SequentialPages.page_size seq) (length pages) ∧
  SequentialPages.count seq = Z.of_nat (length pages) ∧
  SequentialPages.addr seq + (SequentialPages.count seq - 1) * PageSize.bytes (SequentialPages.page_size seq) < U64.
Proof.
  intros Hwf. destruct pages as [|[a s] rest]; cbn [SequentialPages.from_pages Page.addr Page.size].
  { split; [done|]. naive_solver. }
  inversion_clear Hwf as [|? ? [[Ha0 Ha1] Hal] _]. cbn in Ha0, Ha1, Hal.
  pose proof (from_pages_loop_spec rest a s 1 seq Ha0 Hal) as Hl.
  rewrite Z.sub_diag, Z.mul_0_l, Z.add_0_r, Z.mul_1_l in Hl. rewrite Hl by lia.
  destruct seq as [a' s' c]; cbn [length SequentialPages.addr SequentialPages.page_size SequentialPages.count].
  split.
  - intros (Hr & [= -> -> ->] & Hb). split_and!; [done| |lia|lia]. rewrite page_run_S. congruence.
  - intros (_ & Hr & -> & Hb). rewrite page_run_S in Hr. injection Hr as -> -> Hr. split_and!; [done| |].
    + f_equal. lia.
    + replace (1 + Z.of_nat (length rest) - 1) with (Z.of_nat (S (length rest)) - 1) by lia. done.
Qed.

Lemma from_pages_contiguous_witness :
  SequentialPages.from_pages (page_run 4096 Size4k 3) = Ok (SequentialPages.mk 4096 Size4k 3).
Proof.
  apply from_pages_contiguous; [|split_and!; done].
  repeat constructor; done.
Defined.

(** Building a sequence from pages and iterating over it gives back the same
    pages ([from_pages] then [into_iter]), so no page is lost or duplicated, as
    long as the run ends below the end of the address space. *)
Theorem from_pages_into_iter (pages : list Page.t) (seq : SequentialPages.t) :
  Forall (λ p, u64 (Page.addr p) ∧ Page.addr p mod PageSize.bytes (Page.size p) = 0) pages →
  SequentialPages.from_pages pages = Ok seq →
  SequentialPages.addr seq + SequentialPages.count seq * PageSize.bytes (SequentialPages.page_size seq) < U64 →
  SequentialPages.into_iter seq = Returns pages.
Proof.
  intros Hwf Hok Hend. destruct pages as [|[a s] rest]; [done|].
  cbn [SequentialPages.from_pages Page.addr Page.size] in Hok.
  inversion_clear Hwf as [|? ? [[Ha0 Ha1] Hal] _]. cbn in Ha0, Ha1, Hal.
  pose proof (from_pages_loop_spec rest a s 1 seq Ha0 Hal) as Hl.
  rewrite Z.sub_diag, Z.mul_0_l, Z.add_0_r, Z.mul_1_l in Hl.
  apply Hl in Hok as (Hr & -> & _); [|lia..]. cbn in Hend.
  replace (1 + Z.of_nat (length rest)) with (Z.of_nat (S (length rest))) in * by lia.
  rewrite into_iter_run by done. rewrite page_run_S. congruence.
Qed.

Lemma from_pages_into_iter_witness :
  SequentialPages.into_iter (SequentialPages.mk 2097152 Size2M 2) = Returns (page_run 2097152 Size2M 2).
Proof. apply from_pages_into_iter; [repeat constructor; done|done|done]. Defined.

(** Page frame numbers and page addresses convert back and forth without
    loss for every page-aligned address of the 56-bit physical address space. *)
Theorem pfn_from_pfn_roundtrip (s : PageSize.t) (a : Z) :
  0 ≤ a < 2 ^ 56 → a mod PageSize.bytes s = 0 →
  PageAddr.from_pfn (PageAddr.pfn a) s = Some a ∧ PageAddr.index a * 4096 = a.
Proof.
  intros Ha Hal. unfold PageAddr.index. rewrite pfn_small by done.
  assert (a mod 4096 = 0) as H4k.
  { apply is_aligned_spec in Hal. by apply (is_aligned_spec Size4k), (is_aligned_4k s). }
  assert (a / 4096 * 4096 = a) as Heq by (pose proof (Z.div_mod a 4096); lia).
  split; [|done]. apply from_pfn_Some; [|by rewrite Heq].
  split; [apply Z.div_pos; lia|apply Z.div_lt_upper_bound; lia].
Qed.

Lemma pfn_from_pfn_roundtrip_witness :
  PageAddr.from_pfn (PageAddr.pfn 2147483648) Size1G = Some 2147483648
  ∧ PageAddr.index 2147483648 * 4096 = 2147483648.
Proof. apply (pfn_from_pfn_roundtrip Size1G); done. Defined.

Lemma chunk_collect_run c s n a fuel :
  1 ≤ c → 0 ≤ a → a mod PageSize.bytes s = 0 → a + Z.of_nat n * PageSize.bytes s < U64 →
  (n ≤ fuel)%nat →
  ∃ l, SeqPageChunkIter.collect
         (SeqPageChunkIter.mk c (if (0 <? Z.of_nat n) then Some a else None) s (Z.of_nat n)) fuel
       = Returns l ∧
    mjoin ((λ sp, page_seq (SequentialPages.addr sp) (SequentialPages.page_size sp)
                    (Z.to_nat (SequentialPages.count sp))) <$> l) = page_seq a s n ∧
    Forall (λ sp, 0 < SequentialPages.count sp ≤ c) l.
Proof.
  intros Hc. pose proof (bytes_pos s) as Hs. revert n a.
  induction fuel as [|fuel IH]; intros n a Ha Hal Hb Hf.
  { assert (n = 0%nat) as -> by lia. by exists []. }
  destruct n as [|n]; [by exists []|].
  cbn [SeqPageChunkIter.collect]. unfold SeqPageChunkIter.next.
  cbn [SeqPageChunkIter.count SeqPageChunkIter.addr SeqPageChunkIter.page_size SeqPageChunkIter.chunk_size].
  destruct (Z.eqb_spec (Z.of_nat (S n)) 0); [lia|].
  destruct (Z.ltb_spec 0 (Z.of_nat (S n))); [|lia]. cbn [mbind outcome_bind unwrap_option].
  set (k := Z.to_nat (Z.min (Z.of_nat (S n)) c)).
  assert (Z.min (Z.of_nat (S n)) c = Z.of_nat k) as Hk by lia. rewrite Hk.
  assert (Z.of_nat (S n) - Z.of_nat k = Z.of_nat (S n - k)) as -> by lia.
  destruct (IH (S n - k)%nat (a + Z.of_nat k * PageSize.bytes s)) as (l & Hl & Hpages & Hcnt);
    [nia|by apply aligned_step|nia|lia|].
  assert (SequentialPages.from_mem_range a s (Z.of_nat k)
          = Some (SequentialPages.mk a s (Z.of_nat k))) as Hfm.
  { unfold SequentialPages.from_mem_range. by rewrite is_aligned_true. }
  rewrite Hfm. exists (SequentialPages.mk a s (Z.of_nat k) :: l).
  split_and!; [| |constructor; [cbn; lia|done]]; cycle 1.
  { rewrite fmap_cons. change (mjoin (?x :: ?y)) with (x ++ mjoin y). rewrite Hpages.
    cbn [SequentialPages.addr SequentialPages.page_size SequentialPages.count].
    rewrite Nat2Z.id, <-page_seq_app. f_equal. lia. }
  destruct (Z.ltb_spec 0 (Z.of_nat (S n - k))).
  - assert (PageAddr.checked_add_pages_with_size a (Z.of_nat k) s
            = Some (a + Z.of_nat k * PageSize.bytes s)) as ->.
    { apply checked_add_pages_spec; [done|]. nia. }
    cbn [unwrap_option mbind outcome_bind]. rewrite Hl. done.
  - cbn [unwrap_option mbind outcome_bind]. rewrite Hl. done.
Qed.

(** Splitting a sequence of pages with [into_chunks_iter] partitions it: the
    chunks, each of at most [chunk_size] pages and none empty, hold exactly the
    original pages in order. *)
Theorem chunks_partition (seq : SequentialPages.t) (chunk : Z) :
  1 ≤ chunk → 0 ≤ SequentialPages.addr seq → 0 ≤ SequentialPages.count seq →
  SequentialPages.addr seq mod PageSize.bytes (SequentialPages.page_size seq) = 0 →
  SequentialPages.addr seq + SequentialPages.count seq * PageSize.bytes (SequentialPages.page_size seq) < U64 →
  ∃ l, SeqPageChunkIter.collect (SeqPageChunkIter.into_chunks_iter seq chunk)
         (Z.to_nat (SequentialPages.count seq)) = Returns l ∧
    mjoin ((λ sp, page_seq (SequentialPages.addr sp) (SequentialPages.page_size sp)
                    (Z.to_nat (SequentialPages.count sp))) <$> l)
      = page_seq (SequentialPages.addr seq) (SequentialPages.page_size seq)
          (Z.to_nat (SequentialPages.count seq)) ∧
    Forall (λ sp, 0 < SequentialPages.count sp ≤ chunk) l.
Proof.
  destruct seq as [a s c]. cbn. intros Hchunk Ha Hc Hal Hb.
  unfold SeqPageChunkIter.into_chunks_iter. cbn.
  destruct (chunk_collect_run chunk s (Z.to_nat c) a (Z.to_nat c)) as (l & Hl); try done.
  { by rewrite Z2Nat.id. }
  rewrite Z2Nat.id in Hl by done. by exists l.
Qed.

Lemma chunks_partition_witness :
  ∃ l, SeqPageChunkIter.collect
         (SeqPageChunkIter.into_chunks_iter (SequentialPages.mk 4096 Size4k 5) 2) 5 = Returns l ∧
    mjoin ((λ sp, page_seq (SequentialPages.addr sp) (SequentialPages.page_size sp)
                    (Z.to_nat (SequentialPages.count sp))) <$> l) = page_seq 4096 Size4k 5 ∧
    Forall (λ sp, 0 < SequentialPages.count sp ≤ 2) l.
Proof. apply (chunks_partition (SequentialPages.mk 4096 Size4k 5) 2); cbn; (done || lia). Defined.
