(* ===== verification/MemMap.v ===== *)
(** * The hardware memory map (page-tracking/src/hw_mem_map.rs)

    [HwMemRegion] is a typed range of physical addresses, [HwMemMap] the sorted
    vector of at most [MAX_HW_MEM_REGIONS] of them, [HwMemMapBuilder] the
    boot-time front end that consumes itself on an error.  The theorems show
    that every operation keeps the regions sorted, disjoint and page aligned,
    and how each operation changes the type of every physical address. *)
From S2P Require Import Prelude Intervals RiscvPages.
Import PageSize(Size4k, Size2M).

Module HwReservedMemType.
Inductive t :=
| FirmwareReserved
| HypervisorImage
| HypervisorHeap
| HypervisorPerCpu
| PageMap
| HostKernelImage
| HostInitramfsImage.
#[global] Instance eq_dec : EqDecision t.
Proof. solve_decision. Defined.
End HwReservedMemType.

Module HwMemRegionType.
Inductive t :=
| Available
| Reserved (r : HwReservedMemType.t)
| Mmio (d : DeviceMemType.t).
#[global] Instance eq_dec : EqDecision t.
Proof. solve_decision. Defined.

(** [impl From<HwMemRegionType> for MemType]. *)
Definition to_mem_type (r : t) : MemType.t :=
  match r with Mmio dev => MemType.Mmio dev | _ => MemType.Ram end.
End HwMemRegionType.

Module HwMemRegion.
Record t := mk { region_type : HwMemRegionType.t; base : Z; size : Z }.
#[global] Instance eq_dec : EqDecision t.
Proof. solve_decision. Defined.

(** [HwMemRegion::end]; the [unwrap] panics if the end does not fit. *)
Definition end_ (r : t) : outcome Z :=
  unwrap_option (PageAddr.checked_add_pages (base r) (size r / PageSize.bytes Size4k)).
End HwMemRegion.
Import HwMemRegion(region_type, base, size, end_).

Module HwMemMap.
Definition MAX_HW_MEM_REGIONS : nat := 32.

Record t := mk { regions : list HwMemRegion.t; min_ram_alignment : Z }.

Inductive error :=
| UnalignedRegion
| OverlappingRegion
| InvalidReservedRegion
| OutOfSpace
| SequentialPagesError.
#[global] Instance error_eq_dec : EqDecision error.
Proof. solve_decision. Defined.

Definition is_aligned (m : t) (val : Z) : bool :=
  Z.land val (wrap64 (min_ram_alignment m - 1)) =? 0.
Definition align_up (m : t) (val : Z) : Z :=
  Z.land (wrap64 (val + min_ram_alignment m - 1)) (not64 (wrap64 (min_ram_alignment m - 1))).
Definition align_down (m : t) (val : Z) : Z :=
  Z.land val (not64 (wrap64 (min_ram_alignment m - 1))).

(** The scan for the insertion index, with the overlap checks, shared by
    [add_memory_region] and [add_mmio_region]. *)
Fixpoint insertion_index (region : HwMemRegion.t) (others : list HwMemRegion.t) (index : nat)
    : outcome (result error nat) :=
  match others with
  | [] => Returns (Ok index)
  | other :: rest =>
      if base region <? base other then
        re ← end_ region;
        if base other <? re then Returns (Err OverlappingRegion) else Returns (Ok index)
      else
        oe ← end_ other;
        if base region <? oe then Returns (Err OverlappingRegion)
        else insertion_index region rest (S index)
  end.

Definition set_regions (l : list HwMemRegion.t) (m : t) : t := mk l (min_ram_alignment m).

(** [self.regions.try_insert(index, region).map_err(|_| OutOfSpace)?]. *)
Definition insert_region (index : nat) (region : HwMemRegion.t) : M t error unit :=
  m ← get;
  match try_insert MAX_HW_MEM_REGIONS index region (regions m) with
  | Some l => put (set_regions l m)
  | None => err OutOfSpace
  end.

(** [self.regions[index]]; out of range panics. *)
Definition region_at (index : nat) : M t error HwMemRegion.t :=
  m ← get; of_outcome (unwrap_option (regions m !! index)).

(** The scan and the insertion, as both callers write them. *)
Definition checked_insert (region : HwMemRegion.t) : M t error unit :=
  m ← get;
  index ← of_outcome (insertion_index region (regions m) 0) ≫= lift;
  insert_region index region.

Definition add_mmio_region (dev_type : DeviceMemType.t) (addr len : Z) : M t error unit :=
  let b := PageAddr.with_round_down addr Size4k in
  let sz := PageSize.round_up Size4k len in
  checked_insert (HwMemRegion.mk (HwMemRegionType.Mmio dev_type) b sz).

(** The closure given to [position] in [reserve_region]; [&&] is lazy. *)
Definition holds_region (region other : HwMemRegion.t) : outcome bool :=
  if decide (region_type other = HwMemRegionType.Available) then
    if base other <=? base region then
      re ← end_ region;
      oe ← end_ other;
      mret (re <=? oe)
    else mret false
  else mret false.

Fixpoint find_available (region : HwMemRegion.t) (l : list HwMemRegion.t) (i : nat)
    : outcome (option nat) :=
  match l with
  | [] => mret None
  | other :: rest =>
      b ← holds_region region other;
      if b : bool then mret (Some i) else find_available region rest (S i)
  end.

Definition reserve_region (resv_type : HwReservedMemType.t) (addr len : Z) : M t error unit :=
  m ← get;
  b ← of_outcome (unwrap_option (PageAddr.new (align_down m addr)));
  let sz := align_up m len in
  let region := HwMemRegion.mk (HwMemRegionType.Reserved resv_type) b sz in
  found ← of_outcome (find_available region (regions m) 0);
  index ← lift (ok_or found InvalidReservedRegion);
  other ← region_at index;
  index ← (if base other <? b then
             insert_region index
               (HwMemRegion.mk HwMemRegionType.Available (base other) (wrap64 (b - base other)));;
             mret (S index)
           else mret index);
  slot ← region_at index;
  oe ← of_outcome (end_ slot);
  modify (λ m, set_regions (<[index := region]> (regions m)) m);;
  re ← of_outcome (end_ region);
  if re <? oe then
    insert_region (S index) (HwMemRegion.mk HwMemRegionType.Available re (wrap64 (oe - re)))
  else mret tt.

Definition reserve_and_take_pages (resv_type : HwReservedMemType.t) (addr : Z)
    (page_size : PageSize.t) (count : Z) : M t error SequentialPages.t :=
  reserve_region resv_type addr (wrap64 (count * PageSize.bytes page_size));;
  lift (ok_or (SequentialPages.from_mem_range addr page_size count) SequentialPagesError).
End HwMemMap.

(** The builder passes itself by value: an error drops it. *)
Module HwMemMapBuilder.
Import HwMemMap.
Definition new (min_alignment : Z) : outcome t :=
  if PageSize.is_aligned Size4k min_alignment then Returns (mk [] min_alignment) else Panics.

Definition consume (f : M t error unit) (m : t) : outcome (result error t) :=
  match f m with
  | Returns (Ok _, m') => Returns (Ok m')
  | Returns (Err e, _) => Returns (Err e)
  | Panics => Panics
  end.

Definition add_memory_region (addr len : Z) : t → outcome (result error t) :=
  consume (
    m ← get;
    if is_aligned m addr then
      b ← of_outcome (unwrap_option (PageAddr.new addr));
      let sz := align_down m len in
      checked_insert (HwMemRegion.mk HwMemRegionType.Available b sz)
    else err UnalignedRegion).

Definition reserve_region (resv_type : HwReservedMemType.t) (addr len : Z) :=
  consume (HwMemMap.reserve_region resv_type addr len).
Definition add_mmio_region (dev_type : DeviceMemType.t) (addr len : Z) :=
  consume (HwMemMap.add_mmio_region dev_type addr len).
End HwMemMapBuilder.

(** ** Invariant *)
Definition region_end (r : HwMemRegion.t) : Z := base r + size r.

Definition region_wf (r : HwMemRegion.t) : Prop :=
  0 ≤ base r ∧ base r mod 4096 = 0 ∧ 0 ≤ size r ∧ size r mod 4096 = 0 ∧ region_end r < U64.

(** Sorted, disjoint, page aligned, within capacity; the RAM alignment is a
    power of two of at least a page. *)
Record mem_map_wf (m : HwMemMap.t) : Prop := {
  wf_align : ∃ k, 12 ≤ k ≤ 63 ∧ HwMemMap.min_ram_alignment m = 2 ^ k;
  wf_regions : Forall region_wf (HwMemMap.regions m);
  wf_ordered : ordered base region_end (HwMemMap.regions m);
  wf_cap : (length (HwMemMap.regions m) ≤ HwMemMap.MAX_HW_MEM_REGIONS)%nat
}.

(** The type the map gives to a physical address. *)
Definition type_at (m : HwMemMap.t) (x : Z) : option HwMemRegionType.t :=
  region_type <$> find_at base region_end x (HwMemMap.regions m).

Lemma end_wf r : region_wf r → end_ r = Returns (region_end r).
Proof.
  intros (Hb & Hba & Hs & Hsa & He). unfold end_, PageAddr.checked_add_pages, region_end in *.
  assert (size r / 4096 * 4096 = size r) as Hd by (pose proof (Z.div_mod (size r) 4096); lia).
  assert (PageAddr.checked_add_pages_with_size (base r) (size r / 4096) Size4k
    = Some (base r + size r)) as Hc.
  { apply checked_add_pages_spec; [done|]. cbn [PageSize.bytes]. rewrite Hd. lia. }
  cbn [PageSize.bytes] in *. by rewrite Hc.
Qed.

Lemma end_Returns r e :
  base r mod 4096 = 0 → size r mod 4096 = 0 → 0 ≤ base r → 0 ≤ size r →
  end_ r = Returns e → e = region_end r ∧ region_wf r.
Proof.
  intros Hb Hs Hb0 Hs0. unfold end_, PageAddr.checked_add_pages.
  destruct (PageAddr.checked_add_pages_with_size _ _ _) as [b|] eqn:E; [|done].
  intros [= <-]. apply checked_add_pages_spec in E; [|done]. cbn [PageSize.bytes] in E.
  assert (size r / 4096 * 4096 = size r) as Hd by (pose proof (Z.div_mod (size r) 4096); lia).
  rewrite Hd in E. unfold region_wf, region_end. lia.
Qed.

Lemma pow2_mod_4096 v k : 12 ≤ k → v mod 2 ^ k = 0 → v mod 4096 = 0.
Proof.
  intros Hk Hv. apply Z.mod_divide in Hv; [|pose proof (Z.pow_pos_nonneg 2 k); lia].
  apply Z.mod_divide; [done|]. etrans; [|exact Hv]. exists (2 ^ (k - 12)).
  change 4096 with (2 ^ 12). rewrite <-Z.pow_add_r by lia. f_equal. lia.
Qed.

Section align.
Context (m : HwMemMap.t) (k : Z) (Hk : 12 ≤ k ≤ 63)
  (Ha : HwMemMap.min_ram_alignment m = 2 ^ k).

Lemma pow_k_bounds : 4096 ≤ 2 ^ k < U64.
Proof using Hk.
  pose proof (Z.pow_le_mono_r 2 12 k). pose proof (Z.pow_lt_mono_r 2 k 64). lia.
Qed.

Lemma mask_k : wrap64 (HwMemMap.min_ram_alignment m - 1) = 2 ^ k - 1.
Proof using Hk Ha. rewrite Ha. unfold wrap64. pose proof pow_k_bounds. apply Z.mod_small. lia. Qed.

Lemma map_is_aligned_spec v : HwMemMap.is_aligned m v = true ↔ v mod 2 ^ k = 0.
Proof using Hk Ha.
  unfold HwMemMap.is_aligned. rewrite mask_k, land_mask_mod by lia. apply Z.eqb_eq.
Qed.

Lemma align_down_spec v :
  u64 v → HwMemMap.align_down m v = v - v mod 2 ^ k ∧
  HwMemMap.align_down m v mod 2 ^ k = 0 ∧ v - 2 ^ k < HwMemMap.align_down m v ≤ v ∧
  0 ≤ HwMemMap.align_down m v.
Proof using Hk Ha.
  intros Hv. unfold HwMemMap.align_down. rewrite mask_k, land_not64_mask by (done || lia).
  pose proof pow_k_bounds. pose proof (Z.mod_pos_bound v (2 ^ k)).
  pose proof (Z.mod_le v (2 ^ k)). unfold u64 in Hv.
  split_and!; [done| |lia..]. rewrite Zminus_mod_idemp_r, Z.sub_diag. apply Z.mod_0_l. lia.
Qed.

Lemma align_up_mod v :
  u64 v → HwMemMap.align_up m v mod 2 ^ k = 0 ∧ 0 ≤ HwMemMap.align_up m v.
Proof using Hk Ha.
  intros Hv. unfold HwMemMap.align_up. fold (HwMemMap.align_down m (wrap64 (v + HwMemMap.min_ram_alignment m - 1))).
  destruct (align_down_spec (wrap64 (v + HwMemMap.min_ram_alignment m - 1))) as (_ & ? & ? & ?); [|lia].
  unfold u64, wrap64. apply Z.mod_pos_bound. lia.
Qed.

Lemma align_up_spec v :
  0 ≤ v → v + 2 ^ k ≤ U64 → v ≤ HwMemMap.align_up m v < v + 2 ^ k.
Proof using Hk Ha.
  intros Hv Hb. pose proof pow_k_bounds. unfold HwMemMap.align_up.
  fold (HwMemMap.align_down m (wrap64 (v + HwMemMap.min_ram_alignment m - 1))).
  rewrite Ha. replace (wrap64 (v + 2 ^ k - 1)) with (v + 2 ^ k - 1)
    by (unfold wrap64; rewrite Z.mod_small; lia).
  destruct (align_down_spec (v + 2 ^ k - 1)) as (-> & _); [unfold u64; lia|].
  pose proof (Z.mod_pos_bound (v + 2 ^ k - 1) (2 ^ k)). lia.
Qed.
End align.

(** ** Insertion of a region *)
Definition overlaps (r o : HwMemRegion.t) : Prop :=
  base o ≤ base r < region_end o ∨ base r < base o < region_end r.

Lemma insertion_index_spec r l i :
  region_wf r → Forall region_wf l → ordered base region_end l →
  (HwMemMap.insertion_index r l i = Returns (Err HwMemMap.OverlappingRegion) ∧ Exists (overlaps r) l) ∨
  (∃ l1 l2, l = l1 ++ l2 ∧
    HwMemMap.insertion_index r l i = Returns (Ok (i + length l1)%nat) ∧
    Forall (λ o, region_end o ≤ base r) l1 ∧ Forall (λ o, region_end r ≤ base o) l2).
Proof.
  intros Hr. revert i. induction l as [|o l IH]; intros i Hwf Ho; cbn [HwMemMap.insertion_index].
  { right. exists [], []. rewrite Nat.add_0_r. by repeat constructor. }
  apply list.Forall_cons in Hwf as [Hwo Hwf]. apply ordered_cons in Ho as (Hoo & Hol & Ho).
  rewrite !end_wf by done. unfold mbind, outcome_bind.
  destruct (Z.ltb_spec (base r) (base o)).
  - destruct (Z.ltb_spec (base o) (region_end r)).
    + left. split; [done|]. left. right. lia.
    + right. exists [], (o :: l). rewrite Nat.add_0_r. split_and!; [done..|constructor|].
      apply list.Forall_cons. split; [lia|]. eapply list.Forall_impl; [exact Hol|]. cbn. lia.
  - destruct (Z.ltb_spec (base r) (region_end o)).
    + left. split; [done|]. left. left. lia.
    + destruct (IH (S i) Hwf Ho) as [[-> Hx]|(l1 & l2 & -> & -> & H1 & H2)].
      * left. split; [done|]. by right.
      * right. exists (o :: l1), l2. cbn [length]. rewrite Nat.add_succ_r.
        split_and!; [done..|by constructor|done].
Qed.

(** What an insertion of [r] into [m] may do. *)
Definition insert_post (m : HwMemMap.t) (r : HwMemRegion.t)
    (res : outcome (result HwMemMap.error unit * HwMemMap.t)) : Prop :=
  match res with
  | Returns (Ok _, m') =>
      mem_map_wf m' ∧
      ∀ x, type_at m' x =
        if (base r <=? x) && (x <? region_end r) then Some (region_type r) else type_at m x
  | Returns (Err HwMemMap.OverlappingRegion, m') =>
      m' = m ∧ Exists (overlaps r) (HwMemMap.regions m)
  | Returns (Err HwMemMap.OutOfSpace, m') =>
      m' = m ∧ length (HwMemMap.regions m) = HwMemMap.MAX_HW_MEM_REGIONS
  | _ => False
  end.

Lemma checked_insert_spec m r :
  mem_map_wf m → region_wf r → insert_post m r (HwMemMap.checked_insert r m).
Proof.
  intros [Ha Hwf Ho Hc] Hr. unfold HwMemMap.checked_insert, HwMemMap.insert_region.
  msimpl. destruct (insertion_index_spec r _ 0 Hr Hwf Ho)
    as [[-> Hx]|(l1 & l2 & Hl & -> & H1 & H2)]; [done|].
  cbn [Nat.add]. unfold try_insert. case_decide; cbn; [|split; [done|lia]].
  rewrite Hl, insert_at_app in *. apply list.Forall_app in Hwf as [? ?].
  assert (base r ≤ region_end r) by (unfold region_wf, region_end in *; lia).
  split; [split|]; cbn.
  - done.
  - apply list.Forall_app. split; [done|]. by constructor.
  - apply (ordered_splice _ _ l1 [] [r] l2 (base r) (region_end r)); [done|..|done|done|].
    + by apply ordered_singleton.
    + by constructor.
  - rewrite length_app in *. cbn. lia.
  - intros x. unfold type_at. cbn. rewrite Hl.
    rewrite (find_at_splice _ _ x l1 [] [r] l2 (base r) (region_end r)) by (done || by constructor).
    cbn. unfold covers. by destruct ((_ <=? _) && _).
Qed.

(** ** Reservation of part of an available region *)
Definition contained (r o : HwMemRegion.t) : Prop :=
  region_type o = HwMemRegionType.Available ∧ base o ≤ base r ∧ region_end r ≤ region_end o.

Lemma holds_region_spec r o :
  region_wf r → region_wf o →
  ∃ b, HwMemMap.holds_region r o = Returns b ∧ (b = true ↔ contained r o).
Proof.
  intros Hr Ho. unfold HwMemMap.holds_region, contained. rewrite !end_wf by done.
  case_decide; [|exists false; naive_solver].
  destruct (Z.leb_spec (base o) (base r)); [|exists false; split; [done|split; [done|lia]]].
  eexists. split; [done|]. rewrite Z.leb_le. tauto.
Qed.

Lemma find_available_spec r l i :
  region_wf r → Forall region_wf l →
  (HwMemMap.find_available r l i = Returns None ∧ Forall (λ o, ¬ contained r o) l) ∨
  (∃ l1 o l2, l = l1 ++ o :: l2 ∧ contained r o ∧
     HwMemMap.find_available r l i = Returns (Some (i + length l1)%nat)).
Proof.
  intros Hr. revert i. induction l as [|o l IH]; intros i Hwf; cbn [HwMemMap.find_available].
  { left. by split. }
  apply list.Forall_cons in Hwf as [Hwo Hwf].
  destruct (holds_region_spec r o Hr Hwo) as ([] & -> & Hb); unfold mbind, outcome_bind.
  - right. exists [], o, l. rewrite Nat.add_0_r. split_and!; [done|by apply Hb|done].
  - destruct (IH (S i) Hwf) as [[-> Hx]|(l1 & o' & l2 & -> & Hc & ->)].
    + left. split; [done|]. constructor; [|done]. intros Hc%Hb. done.
    + right. exists (o :: l1), o', l2. cbn [length]. by rewrite Nat.add_succ_r.
Qed.

(** The pieces of [o] left around a reservation [r] inside it. *)
Definition before (r o : HwMemRegion.t) : list HwMemRegion.t :=
  if base o <? base r
  then [HwMemRegion.mk HwMemRegionType.Available (base o) (base r - base o)] else [].
Definition after (r o : HwMemRegion.t) : list HwMemRegion.t :=
  if region_end r <? region_end o
  then [HwMemRegion.mk HwMemRegionType.Available (region_end r) (region_end o - region_end r)]
  else [].

Section splice.
Context (m : HwMemMap.t) (Hm : mem_map_wf m) (r o : HwMemRegion.t)
  (l1 l2 : list HwMemRegion.t)
  (Hl : HwMemMap.regions m = l1 ++ o :: l2) (Hc : contained r o) (Hr : region_wf r).

Lemma splice_bounds :
  region_wf o ∧ Forall (λ a, region_end a ≤ base o) l1 ∧ Forall (λ b, region_end o ≤ base b) l2 ∧
  ordered base region_end (l1 ++ [o] ++ l2).
Proof using Hm Hl.
  destruct Hm as [_ Hwf Ho _]. rewrite Hl in *. pose proof Ho as Ho'.
  apply list.Forall_app in Hwf as [_ [? _]%list.Forall_cons].
  apply ordered_app in Ho as (_ & Ho & H1). apply ordered_cons in Ho as (_ & H2 & _).
  split_and!; [done| |done|done]. eapply list.Forall_impl; [exact H1|]. cbn.
  by intros a [? _]%list.Forall_cons.
Qed.

Lemma before_after_in tl :
  tl = [] ∨ tl = after r o →
  Forall region_wf (before r o ++ r :: tl) ∧
  ordered base region_end (before r o ++ r :: tl) ∧
  Forall (λ x, base o ≤ base x ∧ region_end x ≤ region_end o) (before r o ++ r :: tl).
Proof using Hm Hl Hc Hr.
  destruct splice_bounds as (Hwo & _). destruct Hc as (_ & Hb & He). intros Htl.
  unfold before, after, region_wf, region_end in *. pose proof (ordered_nil base region_end).
  assert (Hmod : (base r - base o) mod 4096 = 0 ∧
    (base o + size o - (base r + size r)) mod 4096 = 0 ∧ (base r + size r) mod 4096 = 0).
  { mod_lia. }
  destruct Htl as [->| ->]; bool_cases; split_and!;
    repeat first [apply list.Forall_cons | apply ordered_cons | apply list.Forall_nil | split];
    try done; unfold region_end; cbn; lia.
Qed.

Lemma splice_wf tl :
  tl = [] ∨ tl = after r o →
  (length (l1 ++ before r o ++ r :: tl ++ l2) ≤ HwMemMap.MAX_HW_MEM_REGIONS)%nat →
  mem_map_wf (HwMemMap.set_regions (l1 ++ before r o ++ r :: tl ++ l2) m).
Proof using Hm Hl Hc Hr.
  intros Htl Hlen. destruct splice_bounds as (Hwo & H1 & H2 & Ho).
  destruct (before_after_in tl Htl) as (Hmw & Hmo & Hmb). destruct Hm as [Ha Hwf _ _].
  replace (l1 ++ before r o ++ r :: tl ++ l2) with (l1 ++ (before r o ++ r :: tl) ++ l2) in *
    by by rewrite <-!app_assoc.
  rewrite Hl in Hwf. apply list.Forall_app in Hwf as [? [_ ?]%list.Forall_cons].
  split; cbn; [done| | |done].
  - apply list.Forall_app. split; [done|]. by apply list.Forall_app.
  - by eapply (ordered_splice _ _ l1 [o]).
Qed.

Lemma type_at_splice tl x :
  tl = [] ∨ tl = after r o →
  type_at (HwMemMap.set_regions (l1 ++ before r o ++ r :: tl ++ l2) m) x =
    if (base o <=? x) && (x <? region_end o)
    then region_type <$> find_at base region_end x (before r o ++ r :: tl)
    else type_at m x.
Proof using Hm Hl Hc Hr.
  intros Htl. destruct splice_bounds as (Hwo & H1 & H2 & Ho).
  destruct (before_after_in tl Htl) as (_ & _ & Hmb). unfold type_at. cbn. rewrite Hl.
  replace (l1 ++ before r o ++ r :: tl ++ l2) with (l1 ++ (before r o ++ r :: tl) ++ l2)
    by by rewrite <-!app_assoc.
  change (o :: l2) with ([o] ++ l2).
  rewrite (find_at_splice _ _ x l1 [o] _ l2 (base o) (region_end o)); [|done..|].
  - by destruct ((base o <=? x) && (x <? region_end o)).
  - constructor; [lia|constructor].
Qed.

Lemma type_at_old x : base o ≤ x < region_end o → type_at m x = Some HwMemRegionType.Available.
Proof using Hm Hl Hc.
  intros Hx. destruct Hm as [_ _ Ho _]. unfold type_at.
  rewrite (proj2 (find_at_Some _ _ x _ o Ho)); [cbn; by destruct Hc as [-> _]|].
  split; [|done]. rewrite Hl, elem_of_app. right. left.
Qed.
End splice.

(** The region that [reserve_region] builds from its arguments. *)
Definition reserved_region (m : HwMemMap.t) (rt : HwReservedMemType.t) (addr len : Z)
    : HwMemRegion.t :=
  HwMemRegion.mk (HwMemRegionType.Reserved rt)
    (HwMemMap.align_down m addr) (HwMemMap.align_up m len).

(** What a reservation of [r] may do to [m]. *)
Definition reserve_post (m : HwMemMap.t) (r : HwMemRegion.t)
    (res : outcome (result HwMemMap.error unit * HwMemMap.t)) : Prop :=
  match res with
  | Returns (Ok _, m') =>
      mem_map_wf m' ∧ Exists (contained r) (HwMemMap.regions m) ∧
      ∀ x, type_at m' x =
        if (base r <=? x) && (x <? region_end r) then Some (region_type r) else type_at m x
  | Returns (Err HwMemMap.InvalidReservedRegion, m') =>
      m' = m ∧ Forall (λ o, ¬ contained r o) (HwMemMap.regions m)
  | Returns (Err HwMemMap.OutOfSpace, m') =>
      mem_map_wf m' ∧
      (HwMemMap.MAX_HW_MEM_REGIONS ≤ S (length (HwMemMap.regions m)))%nat ∧
      ∀ x, type_at m' x = type_at m x ∨
        (base r ≤ x < region_end r ∧ type_at m' x = Some (region_type r)) ∨
        (region_end r ≤ x ∧ type_at m' x = None)
  | _ => False
  end.

(** The state after the [before] piece was split off: [o] sits at [length l1]. *)
Lemma reserve_tail_spec m r o l1 l2 cap :
  region_wf r → region_wf o → cap = HwMemMap.MAX_HW_MEM_REGIONS →
  HwMemMap.regions m = l1 ++ o :: l2 →
  (slot ← HwMemMap.region_at (length l1);
   oe ← of_outcome (end_ slot);
   modify (λ m, HwMemMap.set_regions (<[length l1 := r]> (HwMemMap.regions m)) m);;
   re ← of_outcome (end_ r);
   if re <? oe then
     HwMemMap.insert_region (S (length l1))
       (HwMemRegion.mk HwMemRegionType.Available re (wrap64 (oe - re)))
   else mret tt) m =
  if decide (after r o = [] ∨ length (l1 ++ o :: l2) < cap)%nat
  then Returns (Ok tt, HwMemMap.set_regions (l1 ++ r :: after r o ++ l2) m)
  else Returns (Err HwMemMap.OutOfSpace, HwMemMap.set_regions (l1 ++ r :: l2) m).
Proof.
  intros Hr Ho -> Hl. unfold HwMemMap.region_at, HwMemMap.insert_region. msimpl.
  rewrite Hl, list_lookup_middle by done. rewrite !end_wf by done. cbn.
  rewrite Hl. replace (<[length l1:=r]> (l1 ++ o :: l2)) with (l1 ++ r :: l2)
    by (rewrite insert_app_r_alt, Nat.sub_diag by done; done).
  unfold after. destruct (Z.ltb_spec (region_end r) (region_end o)).
  - unfold try_insert. cbn. rewrite !length_app. cbn.
    assert (wrap64 (region_end o - region_end r) = region_end o - region_end r) as ->.
    { apply Z.mod_small. unfold region_wf, region_end in *. lia. }
    replace (S (length l1)) with (length (l1 ++ [r])) by (rewrite length_app; cbn; lia).
    replace (l1 ++ r :: l2) with ((l1 ++ [r]) ++ l2) by by rewrite <-app_assoc.
    rewrite insert_at_app, <-!app_assoc. cbn.
    do 2 case_decide; try done; naive_solver.
  - rewrite decide_True by (by left). done.
Qed.

Lemma length_before_after r o : (length (before r o) ≤ 1 ∧ length (after r o) ≤ 1)%nat.
Proof. unfold before, after. split; destruct (_ <? _); cbn; lia. Qed.

(** Splitting off the piece before the reservation. *)
Lemma reserve_head_spec m r o l1 l2 :
  region_wf r → region_wf o → HwMemMap.regions m = l1 ++ o :: l2 →
  (if base o <? base r then
     HwMemMap.insert_region (length l1)
       (HwMemRegion.mk HwMemRegionType.Available (base o) (wrap64 (base r - base o)));;
     mret (S (length l1))
   else mret (length l1)) m =
  if decide (before r o = [] ∨ length (l1 ++ o :: l2) < HwMemMap.MAX_HW_MEM_REGIONS)%nat
  then Returns (Ok (length (l1 ++ before r o)),
    HwMemMap.set_regions ((l1 ++ before r o) ++ o :: l2) m)
  else Returns (Err HwMemMap.OutOfSpace, m).
Proof.
  intros Hr Ho Hl. unfold before. destruct (Z.ltb_spec (base o) (base r)).
  - unfold HwMemMap.insert_region. msimpl. unfold try_insert. rewrite Hl.
    assert (wrap64 (base r - base o) = base r - base o) as ->.
    { apply Z.mod_small. unfold region_wf, region_end in *. lia. }
    rewrite insert_at_app, <-app_assoc, (length_app _ [_]). cbn. rewrite Nat.add_1_r.
    do 2 case_decide; try done; naive_solver.
  - rewrite decide_True by (by left). rewrite app_nil_r, <-Hl. by destruct m.
Qed.

Lemma reserved_region_wf m rt addr len :
  mem_map_wf m → u64 addr → u64 len →
  region_end (reserved_region m rt addr len) < U64 →
  region_wf (reserved_region m rt addr len).
Proof.
  intros [(k & Hk & Ha) _ _ _] Haddr Hlen He.
  destruct (align_down_spec m k Hk Ha addr Haddr) as (_ & Hb & _ & Hb0).
  destruct (align_up_mod m k Hk Ha len Hlen) as [Hs Hs0].
  unfold region_wf. cbn. split_and!; [done| |done| |done]; apply (pow2_mod_4096 _ k); (done || lia).
Qed.

(** The typing of the addresses inside [o] after a complete reservation. *)
Lemma type_at_reserved m r o l1 l2 x :
  mem_map_wf m → region_wf r → HwMemMap.regions m = l1 ++ o :: l2 → contained r o →
  type_at (HwMemMap.set_regions (l1 ++ before r o ++ r :: after r o ++ l2) m) x =
  if (base r <=? x) && (x <? region_end r) then Some (region_type r) else type_at m x.
Proof.
  intros Hm Hr Hl Hc. rewrite (type_at_splice m Hm r o) by (done || by right).
  pose proof (type_at_old m Hm r o l1 l2 Hl Hc x) as Hold. destruct Hc as (Ht & Hb & He).
  assert (base r ≤ region_end r) by (unfold region_wf, region_end in *; lia).
  unfold before, after.
  destruct (Z.leb_spec (base o) x); destruct (Z.ltb_spec x (region_end o)); cbn [andb];
    try rewrite Hold by lia; bool_cases; unfold covers, region_end in *; cbn; bool_cases.
Qed.

(** ... and when there was no room for the piece after it. *)
Lemma type_at_reserved_lost m r o l1 l2 x :
  mem_map_wf m → region_wf r → HwMemMap.regions m = l1 ++ o :: l2 → contained r o →
  let m' := HwMemMap.set_regions (l1 ++ before r o ++ r :: l2) m in
  type_at m' x = type_at m x ∨
  (base r ≤ x < region_end r ∧ type_at m' x = Some (region_type r)) ∨
  (region_end r ≤ x ∧ type_at m' x = None).
Proof.
  intros Hm Hr Hl Hc m'. subst m'.
  change (r :: l2) with (r :: [] ++ l2). rewrite (type_at_splice m Hm r o) by (done || by left).
  pose proof (type_at_old m Hm r o l1 l2 Hl Hc x) as Hold. destruct Hc as (Ht & Hb & He).
  assert (base r ≤ region_end r) by (unfold region_wf, region_end in *; lia).
  unfold before.
  destruct (Z.leb_spec (base o) x); destruct (Z.ltb_spec x (region_end o)); cbn [andb];
    try rewrite Hold by lia; auto.
  destruct (Z.ltb_spec (base o) (base r)); cbn; unfold covers, region_end in *; cbn;
  repeat match goal with |- context [?a <? ?b] => destruct (Z.ltb_spec a b)
    | |- context [?a <=? ?b] => destruct (Z.leb_spec a b) end; cbn; auto; lia.
Qed.

Lemma reserve_region_spec_aux m rt addr len :
  mem_map_wf m → u64 addr → u64 len →
  region_end (reserved_region m rt addr len) < U64 →
  reserve_post m (reserved_region m rt addr len) (HwMemMap.reserve_region rt addr len m).
Proof.
  intros Hm Haddr Hlen He. pose proof (reserved_region_wf m rt addr len Hm Haddr Hlen He) as Hr.
  set (r := reserved_region m rt addr len) in *. pose proof Hm as [Halign Hwf Ho Hcap].
  unfold HwMemMap.reserve_region.
  erewrite bind_ok by done.
  assert (PageAddr.new (HwMemMap.align_down m addr) = Some (base r)) as ->.
  { apply with_alignment_Some. split; [done|]. apply Hr. }
  erewrite bind_ok by done. cbv zeta. change (HwMemRegion.mk _ (base r) _) with r.
  destruct (find_available_spec r _ 0 Hr Hwf) as [[Hf Hx]|(l1 & o & l2 & Hl & Hc & Hf)].
  { rewrite Hf. erewrite bind_ok by done. done. }
  rewrite Hf. erewrite bind_ok by done.
  destruct (splice_bounds m Hm o l1 l2 Hl) as (Hwo & _).
  erewrite (bind_ok (lift _)) by done. cbn [Nat.add].
  erewrite (bind_ok (HwMemMap.region_at _)).
  2: { unfold HwMemMap.region_at. erewrite bind_ok by done. rewrite Hl, list_lookup_middle by done. done. }
  pose proof (reserve_head_spec m r o l1 l2 Hr Hwo Hl) as Hhead.
  destruct (length_before_after r o) as [Hlb Hla].
  rewrite Hl, length_app in Hcap. cbn [length] in Hcap. case_decide as Hd1.
  2: { erewrite bind_err by exact Hhead. cbn. rewrite Hl, length_app. cbn.
       split_and!; [done| |by left]. rewrite length_app in Hd1. cbn in Hd1. lia. }
  erewrite bind_ok by exact Hhead.
  rewrite (reserve_tail_spec _ r o (l1 ++ before r o) l2 _ Hr Hwo eq_refl) by done.
  unfold HwMemMap.set_regions. cbn [HwMemMap.min_ram_alignment].
  rewrite !length_app in *. cbn [length] in *.
  case_decide as Hd2; cbn [reserve_post]; rewrite <-!app_assoc; fold (HwMemMap.set_regions (l1 ++ before r o ++ r :: after r o ++ l2) m) (HwMemMap.set_regions (l1 ++ before r o ++ r :: l2) m).
  - split_and!.
    + apply (splice_wf m Hm r o); [done..|by right|]. rewrite !length_app. cbn.
      rewrite length_app. destruct Hd1 as [Hd1|Hd1], Hd2 as [Hd2|Hd2]; rewrite ?Hd1, ?Hd2; cbn; lia.
    + rewrite Hl. apply Exists_app. right. by left.
    + intros x. by apply type_at_reserved.
  - split_and!.
    + apply (splice_wf m Hm r o l1 l2 Hl Hc Hr []); [by left|]. rewrite !length_app. cbn.
      destruct Hd1 as [Hd1|Hd1]; [rewrite Hd1; cbn; lia|]. lia.
    + rewrite Hl, length_app. cbn. lia.
    + intros x. by apply type_at_reserved_lost.
Qed.

(** ** Properties *)

(** C34: [reserve_region] on a well-formed map never panics as long as the
    rounded range fits in the address space.  On success the map stays sorted,
    disjoint and aligned, the rounded range lay inside an available region,
    every address of it now has the reserved type and every other address keeps
    its type.  [InvalidReservedRegion] leaves the map alone and means that no
    available region holds the range.  [OutOfSpace] only occurs with at least 31
    regions and may drop the addresses after the range, never make an address
    available. *)
Theorem reserve_region_spec (m : HwMemMap.t) (rt : HwReservedMemType.t) (addr len : Z) :
  mem_map_wf m → u64 addr → u64 len →
  region_end (reserved_region m rt addr len) < U64 →
  reserve_post m (reserved_region m rt addr len) (HwMemMap.reserve_region rt addr len m).
Proof. apply reserve_region_spec_aux. Qed.

Definition example_map : HwMemMap.t :=
  HwMemMap.mk [HwMemRegion.mk HwMemRegionType.Available 2147483648 16777216] 4096.

Lemma example_map_wf : mem_map_wf example_map.
Proof.
  split; cbn.
  - by exists 12.
  - repeat constructor; unfold region_end; cbn; lia.
  - apply ordered_singleton. unfold region_end. cbn. lia.
  - unfold HwMemMap.MAX_HW_MEM_REGIONS; lia.
Qed.

Lemma reserve_region_spec_witness :
  reserve_post example_map
    (reserved_region example_map HwReservedMemType.HypervisorHeap 2147487744 8192)
    (HwMemMap.reserve_region HwReservedMemType.HypervisorHeap 2147487744 8192 example_map).
Proof.
  apply reserve_region_spec; [exact example_map_wf|unfold u64; lia|unfold u64; lia|by vm_compute].
Defined.

(** The reservation covers the requested bytes whenever the offset of the
    base inside its alignment unit is absorbed by the rounding of the size, in
    particular for an aligned base. *)
Theorem reserve_region_covers (m m' : HwMemMap.t) (rt : HwReservedMemType.t) (addr len : Z) :
  mem_map_wf m → u64 addr → u64 len →
  region_end (reserved_region m rt addr len) < U64 →
  addr mod HwMemMap.min_ram_alignment m + len ≤ HwMemMap.align_up m len →
  HwMemMap.reserve_region rt addr len m = Returns (Ok tt, m') →
  ∀ x, addr ≤ x < addr + len → type_at m' x = Some (HwMemRegionType.Reserved rt).
Proof.
  intros Hm Ha Hl He Hcov Hres x Hx.
  pose proof (reserve_region_spec_aux m rt addr len Hm Ha Hl He) as Hp. rewrite Hres in Hp.
  destruct Hp as (_ & _ & Hty). rewrite Hty.
  destruct Hm as [(k & Hk & Hal) _ _ _].
  destruct (align_down_spec m k Hk Hal addr Ha) as (Hd & _).
  rewrite Hal in Hcov. unfold region_end. cbn.
  pose proof (Z.mod_pos_bound addr (2 ^ k)) as Hpos. pose proof (pow_k_bounds k Hk).
  rewrite (proj2 (Z.leb_le _ _)), (proj2 (Z.ltb_lt _ _)) by lia. done.
Qed.

Lemma reserve_region_covers_witness :
  type_at (HwMemMap.mk
    [HwMemRegion.mk HwMemRegionType.Available 2147483648 4096;
     HwMemRegion.mk (HwMemRegionType.Reserved HwReservedMemType.HypervisorHeap) 2147487744 8192;
     HwMemRegion.mk HwMemRegionType.Available 2147495936 16764928] 4096) 2147492000 =
  Some (HwMemRegionType.Reserved HwReservedMemType.HypervisorHeap).
Proof.
  apply (reserve_region_covers example_map _ _ 2147487744 5000);
    [exact example_map_wf|unfold u64; lia|unfold u64; lia|by vm_compute|by vm_compute|by vm_compute|].
  lia.
Defined.

(** Base and size are rounded independently, so a request whose base is not
    aligned can leave its tail available: a byte of the requested range
    [0x80001800, 0x80002800) is still available after a successful reservation. *)
Theorem reserve_region_unaligned_tail :
  ∃ m', HwMemMap.reserve_region HwReservedMemType.FirmwareReserved
          0x80001800 0x1000 example_map = Returns (Ok tt, m') ∧
    0x80001800 ≤ 0x80002000 < 0x80001800 + 0x1000 ∧
    type_at m' 0x80002000 = Some HwMemRegionType.Available.
Proof. eexists. split; [vm_compute; reflexivity|]. split; [lia|by vm_compute]. Qed.

(** [add_memory_region] rejects an unaligned base, reports an overlap only if
    there is one and a full map only if it holds 32 regions; otherwise exactly
    the addresses of the region become available and the map stays sorted,
    disjoint and aligned. *)
Theorem add_memory_region_spec (m : HwMemMap.t) (addr len : Z) :
  mem_map_wf m → u64 addr → u64 len → addr + HwMemMap.align_down m len < U64 →
  let r := HwMemRegion.mk HwMemRegionType.Available addr (HwMemMap.align_down m len) in
  match HwMemMapBuilder.add_memory_region addr len m with
  | Returns (Err HwMemMap.UnalignedRegion) => addr mod HwMemMap.min_ram_alignment m ≠ 0
  | Returns (Err HwMemMap.OverlappingRegion) => Exists (overlaps r) (HwMemMap.regions m)
  | Returns (Err HwMemMap.OutOfSpace) =>
      length (HwMemMap.regions m) = HwMemMap.MAX_HW_MEM_REGIONS
  | Returns (Ok m') =>
      mem_map_wf m' ∧ addr mod HwMemMap.min_ram_alignment m = 0 ∧
      ∀ x, type_at m' x =
        if (addr <=? x) && (x <? region_end r) then Some HwMemRegionType.Available
        else type_at m x
  | _ => False
  end.
Proof.
  intros Hm Ha Hl He r. unfold HwMemMapBuilder.add_memory_region, HwMemMapBuilder.consume.
  erewrite bind_ok by done. pose proof Hm as [(k & Hk & Hal) _ _ _].
  pose proof (map_is_aligned_spec m k Hk Hal addr) as Hia.
  destruct (HwMemMap.is_aligned m addr); [|cbn; rewrite Hal; intros ?%Hia; done].
  pose proof (proj1 Hia eq_refl) as Hmod.
  destruct (align_down_spec m k Hk Hal len Hl) as (_ & Hlm & _ & Hl0).
  assert (PageAddr.new addr = Some addr) as ->.
  { apply with_alignment_Some. split; [done|]. apply (pow2_mod_4096 _ k); [lia|done]. }
  erewrite bind_ok by done.
  assert (Hr : region_wf r).
  { unfold u64, region_wf in *. cbn. split_and!; try done; [lia|..]; apply (pow2_mod_4096 _ k); (done || lia). }
  pose proof (checked_insert_spec m r Hm Hr) as Hp. cbv zeta. fold r.
  destruct (HwMemMap.checked_insert r m) as [[[[]|[]] m']|]; cbn in Hp; try done;
    try (by destruct Hp). rewrite Hal. by destruct Hp.
Qed.

Lemma add_memory_region_spec_witness :
  ∃ m', HwMemMapBuilder.add_memory_region 4294967296 1048576 example_map = Returns (Ok m') ∧
    mem_map_wf m'.
Proof.
  pose proof (add_memory_region_spec example_map 4294967296 1048576 example_map_wf
    ltac:(unfold u64; lia) ltac:(unfold u64; lia) ltac:(by vm_compute)) as H.
  eexists. split; [vm_compute; reflexivity|].
  exact (proj1 H).
Defined.

(** [add_mmio_region] never panics when the rounded range fits; it reports an
    overlap or a full map only when that is the case, leaving the map alone,
    and otherwise types exactly the rounded range as MMIO. *)
Theorem add_mmio_region_spec (m : HwMemMap.t) (dev : DeviceMemType.t) (addr len : Z) :
  mem_map_wf m → u64 addr → 0 ≤ len → len + 4095 < U64 →
  let r := HwMemRegion.mk (HwMemRegionType.Mmio dev)
    (PageAddr.with_round_down addr Size4k) (PageSize.round_up Size4k len) in
  region_end r < U64 →
  insert_post m r (HwMemMap.add_mmio_region dev addr len m).
Proof.
  intros Hm Ha Hl Hlb r He. apply checked_insert_spec; [done|].
  unfold region_wf, u64 in *. cbn. unfold PageAddr.with_round_down.
  rewrite round_down_spec by done. destruct (round_up_spec Size4k len) as [Hm0 Hb]; [done|cbn; lia|].
  cbn [PageSize.bytes] in *. split_and!; [mod_lia|mod_lia|lia|done|done].
Qed.

Lemma add_mmio_region_spec_witness :
  insert_post example_map
    (HwMemRegion.mk (HwMemRegionType.Mmio DeviceMemType.Imsic) 671088640 4096)
    (HwMemMap.add_mmio_region DeviceMemType.Imsic 671088640 100 example_map).
Proof.
  apply (add_mmio_region_spec example_map DeviceMemType.Imsic 671088640 100 example_map_wf);
    [unfold u64; lia|lia|lia|by vm_compute].
Defined.
