(* ===== verification/Elf.v ===== *)
(** * The ELF loader (crate riscv-elf)

    [ElfMap::new] checks the bytes of the U-mode binary and lists its loadable
    segments.  The theorems show that it accepts only files whose segments lie
    within the file, that it never panics, and that it reads back what a
    linker wrote. *)
From Stdlib Require Import Strings.Byte.
From S2P Require Import Prelude RiscvPages.

Abbreviation bytes := (list byte).
#[global] Instance byte_eq_decision : EqDecision byte := Byte.byte_eq_dec.

(** A little-endian integer of packed bytes, and the field of [n] bytes at [off]. *)
Fixpoint le (bs : bytes) : Z :=
  match bs with
  | [] => 0
  | b :: bs => Z.of_N (Byte.to_N b) + 256 * le bs
  end.
Definition field (bs : bytes) (off n : nat) : Z := le (take n (drop off bs)).

Module ElfError.
Inductive t :=
| BadOffset
| InvalidMagicNumber
| InvalidClass
| InvalidEndianness
| NotRiscV
| BadElfVersion
| BadElfType
| BadElfHeaderSize
| BadEntrySize
| NoProgramHeader
| ProgramHeaderMalformed
| UnsupportedProgramHeaderFlags (flags : Z).
End ElfError.
Import ElfError.

(** ** Checked slices *)
Module ElfOffset64.
Definition usize_add (self other : Z) : option Z := checked_add self other.
End ElfOffset64.

Definition slice_check_offset (bs : bytes) (offset : Z) : bool := offset <? Z.of_nat (length bs).
Definition slice_check_range (bs : bytes) (offset size : Z) : bool :=
  if size <? 1 then false
  else match ElfOffset64.usize_add offset (size - 1) with
       | Some last => slice_check_offset bs last
       | None => false
       end.
(** [&bytes[start..end]] panics unless [start <= end <= bytes.len()]. *)
Definition slice (bs : bytes) (start end_ : Z) : outcome bytes :=
  if (start <=? end_) && (end_ <=? Z.of_nat (length bs))
  then Returns (take (Z.to_nat (end_ - start)) (drop (Z.to_nat start) bs)) else Panics.
Definition slice_get_range (bs : bytes) (offset len : Z) : outcome (option bytes) :=
  if slice_check_range bs offset len
  then r ← slice bs offset (wrap64 (offset + len)); Returns (Some r)
  else Returns None.

(** ** Headers, as laid out in the file *)
Module ElfProgramHeader64.
Record t := mk {
  p_type : Z; p_flags : Z; p_offset : Z; p_vaddr : Z; p_paddr : Z; p_filesz : Z; p_memsz : Z; p_align : Z
}.
Definition SIZE : Z := 56.
Definition read (bs : bytes) : t :=
  mk (field bs 0 4) (field bs 4 4) (field bs 8 8) (field bs 16 8) (field bs 24 8) (field bs 32 8) (field bs 40 8)
     (field bs 48 8).
End ElfProgramHeader64.

Definition PT_LOAD : Z := 1.
Definition PF_X : Z := 1.
Definition PF_W : Z := 2.
Definition PF_R : Z := 4.

(** The fields that the loader reads. *)
Module ElfHeader64.
Record t := mk {
  ei_magic : bytes; ei_class : Z; ei_data : Z; ei_version : Z; e_type : Z; e_machine : Z; e_version : Z; e_entry : Z;
  e_phoff : Z; e_ehsize : Z; e_phentsize : Z; e_phnum : Z
}.
Definition SIZE : Z := 64.
Definition read (bs : bytes) : t :=
  mk (take 4 bs) (field bs 4 1) (field bs 5 1) (field bs 6 1) (field bs 16 2) (field bs 18 2) (field bs 20 4)
     (field bs 24 8) (field bs 32 8) (field bs 52 2) (field bs 54 2) (field bs 56 2).
End ElfHeader64.

Definition EI_MAGIC : bytes := [x7f; x45; x4c; x46].
Definition EI_CLASS_64 : Z := 2.
Definition EI_DATA_LE : Z := 1.
Definition EI_VERSION_1 : Z := 1.
Definition E_TYPE_EXEC : Z := 2.
Definition E_MACHINE_RISCV : Z := 0xf3.
Definition E_VERSION_1 : Z := 1.
Definition E_EHSIZE : Z := 0x40.

(** ** Segments *)
Module ElfSegmentPerms.
Inductive t := ReadOnly | ReadWrite | ReadOnlyExecute.
End ElfSegmentPerms.
Import ElfSegmentPerms(ReadOnly, ReadWrite, ReadOnlyExecute).

Module ElfSegment.
Record t := mk { data : option bytes; vaddr : Z; size : Z; perms : ElfSegmentPerms.t }.

Definition new (data : option bytes) (vaddr size flags : Z) : result ElfError.t t :=
  match (if flags =? PF_R then Some ReadOnly
         else if flags =? Z.lor PF_R PF_W then Some ReadWrite
         else if flags =? Z.lor PF_R PF_X then Some ReadOnlyExecute
         else None), checked_add vaddr size with
  | None, _ => Err (UnsupportedProgramHeaderFlags flags)
  | _, None => Err ProgramHeaderMalformed
  | Some perms, Some _ => Ok (mk data vaddr size perms)
  end.
End ElfSegment.

Definition ELF_SEGMENTS_MAX : nat := 8.

Module ElfMap.
Record t := mk { entry : Z; segments : list ElfSegment.t }.

(** The checks of the ELF header. *)
Definition check_header (header : ElfHeader64.t) : result ElfError.t unit :=
  if bool_decide (ElfHeader64.ei_magic header ≠ EI_MAGIC) then Err InvalidMagicNumber
  else if negb (ElfHeader64.ei_class header =? EI_CLASS_64) then Err InvalidClass
  else if negb (ElfHeader64.ei_data header =? EI_DATA_LE) then Err InvalidEndianness
  else if negb (ElfHeader64.ei_version header =? EI_VERSION_1) || negb (ElfHeader64.e_version header =? E_VERSION_1)
  then Err BadElfVersion
  else if negb (ElfHeader64.e_type header =? E_TYPE_EXEC) then Err BadElfType
  else if negb (ElfHeader64.e_machine header =? E_MACHINE_RISCV) then Err NotRiscV
  else if negb (ElfHeader64.e_ehsize header =? E_EHSIZE) then Err BadElfHeaderSize
  else if (ElfHeader64.e_phnum header =? 0) || (ElfHeader64.e_phoff header =? 0) then Err NoProgramHeader
  else if ElfHeader64.e_phentsize header <? ElfProgramHeader64.SIZE then Err BadEntrySize
  else Ok tt.

(** [slice_get_range(..).ok_or(Error::BadOffset)?]. *)
Definition get_range {S} (bs : bytes) (offset len : Z) : M S ElfError.t bytes :=
  o ← of_outcome (slice_get_range bs offset len); lift (ok_or o BadOffset).

(** A turn of the loop over the program headers; the state is the vector of
    segments, and a [push] to a full vector panics. *)
Definition load (bs program_headers : bytes) (phentsize : Z) (i : nat) : M (list ElfSegment.t) ElfError.t unit :=
  phbytes ← get_range program_headers (Z.of_nat i * phentsize) phentsize;
  let ph := ElfProgramHeader64.read phbytes in
  if negb (ElfProgramHeader64.p_type ph =? PT_LOAD) then mret tt
  else if ElfProgramHeader64.p_memsz ph =? 0 then mret tt
  else
    data ← (if 0 <? ElfProgramHeader64.p_filesz ph
            then d ← get_range bs (ElfProgramHeader64.p_offset ph) (ElfProgramHeader64.p_filesz ph); mret (Some d)
            else mret None);
    segment ← lift (ElfSegment.new data (ElfProgramHeader64.p_vaddr ph) (ElfProgramHeader64.p_memsz ph)
                      (ElfProgramHeader64.p_flags ph));
    segments ← get;
    if decide (length segments < ELF_SEGMENTS_MAX)%nat then put (segments ++ [segment]) else panic.

Definition new (bs : bytes) : outcome (result ElfError.t t) :=
  '(r, _) ← (hbytes ← get_range bs 0 ElfHeader64.SIZE;
    let header := ElfHeader64.read hbytes in
    lift (check_header header);;
    let phentsize := ElfHeader64.e_phentsize header in
    program_headers ← get_range bs (ElfHeader64.e_phoff header) (ElfHeader64.e_phnum header * phentsize);
    for_each (seq 0 (Nat.min (Z.to_nat (ElfHeader64.e_phnum header)) ELF_SEGMENTS_MAX)) (load bs program_headers phentsize);;
    segments ← get;
    mret (mk (ElfHeader64.e_entry header) segments)) [];
  Returns r.
End ElfMap.

(** ** What the checks guarantee *)
Definition range (bs : bytes) (offset len : Z) : bytes := take (Z.to_nat len) (drop (Z.to_nat offset) bs).
Definition in_file (bs : bytes) (offset len : Z) : bool := (1 <=? len) && (offset + len <=? Z.of_nat (length bs)).
Definition addressable (bs : bytes) : Prop := Z.of_nat (length bs) < U64.

Lemma slice_get_range_eq bs offset len :
  addressable bs → 0 ≤ offset →
  slice_get_range bs offset len = Returns (if in_file bs offset len then Some (range bs offset len) else None).
Proof.
  unfold addressable. intros Hbs Hoff. unfold slice_get_range, slice_check_range, in_file, ElfOffset64.usize_add, checked_add, slice_check_offset.
  destruct (Z.ltb_spec len 1), (Z.leb_spec 1 len); try lia; [done|]. cbn [andb].
  destruct (Z.ltb_spec (offset + (len - 1)) U64).
  - destruct (Z.ltb_spec (offset + (len - 1)) (Z.of_nat (length bs))), (Z.leb_spec (offset + len) (Z.of_nat (length bs))); try lia; [|done].
    assert (wrap64 (offset + len) = offset + len) as -> by (apply Z.mod_small; lia). unfold slice.
    destruct (Z.leb_spec offset (offset + len)), (Z.leb_spec (offset + len) (Z.of_nat (length bs))); try lia. cbn [andb].
    unfold range. by replace (offset + len - offset) with len by lia.
  - by destruct (Z.leb_spec (offset + len) (Z.of_nat (length bs))); [lia|].
Qed.

Lemma get_range_eq {S} bs offset len (s : S) :
  addressable bs → 0 ≤ offset →
  ElfMap.get_range bs offset len s = Returns (if in_file bs offset len then Ok (range bs offset len) else Err BadOffset, s).
Proof.
  intros Hbs Hoff. unfold ElfMap.get_range. erewrite bind_ok by (unfold of_outcome; rewrite slice_get_range_eq by done; done).
  by destruct (in_file bs offset len).
Qed.

Lemma length_range bs offset len : 0 ≤ offset → in_file bs offset len = true → Z.of_nat (length (range bs offset len)) = len.
Proof.
  intros Hoff [H1%Z.leb_le H2%Z.leb_le]%andb_true_iff. unfold range. rewrite length_take, length_drop. lia.
Qed.

Lemma le_bound bs : 0 ≤ le bs < 256 ^ Z.of_nat (length bs).
Proof.
  induction bs as [|b bs IH]; [done|]. cbn [le length]. rewrite Nat2Z.inj_succ, Z.pow_succ_r by lia.
  pose proof (Byte.to_N_bounded b). lia.
Qed.
Lemma field_nonneg bs off n : 0 ≤ field bs off n.
Proof. apply le_bound. Qed.

(** The segment of a program header, if it has one. *)
Definition segment (bs : bytes) (ph : ElfProgramHeader64.t) : result ElfError.t (option ElfSegment.t) :=
  if negb (ElfProgramHeader64.p_type ph =? PT_LOAD) || (ElfProgramHeader64.p_memsz ph =? 0) then Ok None
  else
    let filesz := ElfProgramHeader64.p_filesz ph in
    if (0 <? filesz) && negb (in_file bs (ElfProgramHeader64.p_offset ph) filesz) then Err BadOffset
    else match ElfSegment.new (if 0 <? filesz then Some (range bs (ElfProgramHeader64.p_offset ph) filesz) else None)
                 (ElfProgramHeader64.p_vaddr ph) (ElfProgramHeader64.p_memsz ph) (ElfProgramHeader64.p_flags ph) with
         | Ok s => Ok (Some s)
         | Err e => Err e
         end.

Lemma load_eq bs tbl phentsize i segs :
  addressable bs → addressable tbl → 0 ≤ phentsize → (length segs < ELF_SEGMENTS_MAX)%nat →
  let offset := Z.of_nat i * phentsize in
  ElfMap.load bs tbl phentsize i segs =
    if in_file tbl offset phentsize then
      match segment bs (ElfProgramHeader64.read (range tbl offset phentsize)) with
      | Ok o => Returns (Ok tt, segs ++ option_list o)
      | Err e => Returns (Err e, segs)
      end
    else Returns (Err BadOffset, segs).
Proof.
  intros Hbs Htbl Hpe Hlen offset. unfold ElfMap.load. pose proof (get_range_eq tbl offset phentsize segs Htbl ltac:(lia)) as Hr.
  destruct (in_file tbl offset phentsize); [|by erewrite bind_err by exact Hr]. erewrite bind_ok by exact Hr. clear Hr.
  set (ph := ElfProgramHeader64.read _). unfold segment.
  destruct (ElfProgramHeader64.p_type ph =? PT_LOAD); cbn [negb orb]; [|by rewrite app_nil_r].
  destruct (ElfProgramHeader64.p_memsz ph =? 0); [by rewrite app_nil_r|].
  assert (Hpush : ∀ o, (x ← lift (ElfSegment.new o (ElfProgramHeader64.p_vaddr ph) (ElfProgramHeader64.p_memsz ph) (ElfProgramHeader64.p_flags ph));
      segments ← get; if decide (length segments < ELF_SEGMENTS_MAX)%nat then put (segments ++ [x]) else panic) segs
      = match ElfSegment.new o (ElfProgramHeader64.p_vaddr ph) (ElfProgramHeader64.p_memsz ph) (ElfProgramHeader64.p_flags ph) with
        | Ok x => Returns (Ok tt, segs ++ [x]) | Err e => Returns (Err e, segs) end).
  { intros o. destruct (ElfSegment.new _ _ _ _); [|by erewrite bind_err by done]. do 2 erewrite bind_ok by done. by rewrite decide_True. }
  destruct (0 <? ElfProgramHeader64.p_filesz ph); cbn [andb].
  - pose proof (get_range_eq bs (ElfProgramHeader64.p_offset ph) (ElfProgramHeader64.p_filesz ph) segs Hbs (field_nonneg _ _ _)) as Hr.
    destruct (in_file bs _ _); cbn [negb].
    + erewrite bind_ok by (erewrite bind_ok by exact Hr; done). rewrite Hpush. by destruct (ElfSegment.new _ _ _ _).
    + erewrite bind_err; [done|]. by erewrite bind_err by exact Hr.
  - erewrite bind_ok by done. rewrite Hpush. by destruct (ElfSegment.new _ _ _ _).
Qed.

(** The [i]-th program header yields [o]. *)
Definition yields (bs tbl : bytes) (phentsize : Z) (i : nat) (r : result ElfError.t (option ElfSegment.t)) : Prop :=
  if in_file tbl (Z.of_nat i * phentsize) phentsize
  then segment bs (ElfProgramHeader64.read (range tbl (Z.of_nat i * phentsize) phentsize)) = r
  else r = Err BadOffset.

Lemma load_all bs tbl phentsize l segs :
  addressable bs → addressable tbl → 0 ≤ phentsize → (length segs + length l ≤ ELF_SEGMENTS_MAX)%nat →
  ∃ r segs', for_each l (ElfMap.load bs tbl phentsize) segs = Returns (r, segs') ∧
    match r with
    | Ok _ => ∃ os, Forall2 (λ i o, yields bs tbl phentsize i (Ok o)) l os ∧ segs' = segs ++ omap id os
    | Err e => ∃ i, i ∈ l ∧ yields bs tbl phentsize i (Err e)
    end.
Proof.
  intros Hbs Htbl Hpe. revert segs. induction l as [|i l IH]; intros segs Hlen; cbn [for_each].
  { exists (Ok tt), segs. split; [done|]. exists []. split; [constructor|]. by rewrite app_nil_r. }
  cbn [length] in Hlen. pose proof (load_eq bs tbl phentsize i segs Hbs Htbl Hpe ltac:(lia)) as Hl. cbv zeta in Hl.
  assert (∃ r, yields bs tbl phentsize i r ∧ ElfMap.load bs tbl phentsize i segs =
    Returns match r with Ok o => (Ok tt, segs ++ option_list o) | Err e => (Err e, segs) end) as (r & Hy & Hload).
  { unfold yields. destruct (in_file _ _ _); [|by exists (Err BadOffset)].
    eexists. split; [done|]. rewrite Hl. by destruct (segment _ _). }
  destruct r as [o|e].
  - erewrite bind_ok by exact Hload. destruct (IH (segs ++ option_list o)) as (r & segs' & E & Hr).
    { rewrite length_app. destruct o; cbn; lia. }
    exists r, segs'. split; [done|]. destruct r as [[]|e].
    + destruct Hr as (os & HF & ->). exists (o :: os). split; [by constructor|]. rewrite <-app_assoc. by destruct o.
    + destruct Hr as (j & Hj & Hy'). exists j. split; [by right|done].
  - erewrite bind_err by exact Hload. do 2 eexists. split; [done|]. exists i. split; [by left|done].
Qed.

(** The parts of the file that the loader reads. *)
Definition header_of (bs : bytes) : ElfHeader64.t := ElfHeader64.read (range bs 0 ElfHeader64.SIZE).
Definition table_of (bs : bytes) : bytes :=
  range bs (ElfHeader64.e_phoff (header_of bs)) (ElfHeader64.e_phnum (header_of bs) * ElfHeader64.e_phentsize (header_of bs)).
Definition indices (bs : bytes) : list nat := seq 0 (Nat.min (Z.to_nat (ElfHeader64.e_phnum (header_of bs))) ELF_SEGMENTS_MAX).
Definition yields_in (bs : bytes) : nat → result ElfError.t (option ElfSegment.t) → Prop :=
  yields bs (table_of bs) (ElfHeader64.e_phentsize (header_of bs)).
Definition table_in_file (bs : bytes) : bool :=
  in_file bs (ElfHeader64.e_phoff (header_of bs)) (ElfHeader64.e_phnum (header_of bs) * ElfHeader64.e_phentsize (header_of bs)).

Lemma elf_new_spec bs :
  addressable bs →
  ∃ r, ElfMap.new bs = Returns r ∧
    match r with
    | Ok m => in_file bs 0 ElfHeader64.SIZE = true ∧ ElfMap.check_header (header_of bs) = Ok tt ∧ table_in_file bs = true ∧
        ElfMap.entry m = ElfHeader64.e_entry (header_of bs) ∧
        ∃ os, Forall2 (λ i o, yields_in bs i (Ok o)) (indices bs) os ∧ ElfMap.segments m = omap id os
    | Err e => in_file bs 0 ElfHeader64.SIZE = false ∨ ElfMap.check_header (header_of bs) = Err e ∨
        table_in_file bs = false ∨ ∃ i, i ∈ indices bs ∧ yields_in bs i (Err e)
    end.
Proof.
  intros Hbs. unfold ElfMap.new, mbind at 1, outcome_bind.
  pose proof (get_range_eq bs 0 ElfHeader64.SIZE (S := list ElfSegment.t) [] Hbs ltac:(lia)) as Hh.
  destruct (in_file bs 0 ElfHeader64.SIZE) eqn:Hin; cycle 1.
  { erewrite bind_err by exact Hh. eexists. split; [done|]. by left. }
  erewrite bind_ok by exact Hh. cbv zeta. fold (header_of bs).
  destruct (ElfMap.check_header (header_of bs)) as [[]|e] eqn:Hck; cycle 1.
  { erewrite bind_err by done. eexists. split; [done|]. by right; left. }
  erewrite bind_ok by done.
  pose proof (get_range_eq bs (ElfHeader64.e_phoff (header_of bs)) (ElfHeader64.e_phnum (header_of bs) * ElfHeader64.e_phentsize (header_of bs))
    (S := list ElfSegment.t) [] Hbs (field_nonneg _ _ _)) as Ht. fold (table_in_file bs) (table_of bs) in Ht.
  destruct (table_in_file bs) eqn:Htf; cycle 1.
  { erewrite bind_err by exact Ht. eexists. split; [done|]. by right; right; left. }
  erewrite bind_ok by exact Ht.
  destruct (load_all bs (table_of bs) (ElfHeader64.e_phentsize (header_of bs)) (indices bs) []) as (r & segs & E & Hr).
  - done.
  - unfold addressable, table_of, range in *. rewrite length_take, length_drop. lia.
  - apply field_nonneg.
  - unfold indices. rewrite length_seq. cbn. lia.
  - destruct r as [[]|e].
    + erewrite bind_ok by exact E. erewrite bind_ok by done. eexists. split; [done|]. split_and!; done.
    + erewrite bind_err by exact E. eexists. split; [done|]. by right; right; right.
Qed.

(** ** Files as a linker writes them *)
Definition to_byte (z : Z) : byte := default x00 (Byte.of_N (Z.to_N (z mod 256))).
Fixpoint le_encode (n : nat) (v : Z) : bytes :=
  match n with
  | O => []
  | S n => to_byte v :: le_encode n (v / 256)
  end.

Definition encode_ph (ph : ElfProgramHeader64.t) : bytes :=
  le_encode 4 (ElfProgramHeader64.p_type ph) ++ le_encode 4 (ElfProgramHeader64.p_flags ph) ++
  le_encode 8 (ElfProgramHeader64.p_offset ph) ++ le_encode 8 (ElfProgramHeader64.p_vaddr ph) ++
  le_encode 8 (ElfProgramHeader64.p_paddr ph) ++ le_encode 8 (ElfProgramHeader64.p_filesz ph) ++
  le_encode 8 (ElfProgramHeader64.p_memsz ph) ++ le_encode 8 (ElfProgramHeader64.p_align ph).
(** An executable for RISC-V whose program headers follow the file header. *)
Definition encode_header (entry phnum : Z) : bytes :=
  EI_MAGIC ++ le_encode 1 EI_CLASS_64 ++ le_encode 1 EI_DATA_LE ++ le_encode 1 EI_VERSION_1 ++ le_encode 9 0 ++
  le_encode 2 E_TYPE_EXEC ++ le_encode 2 E_MACHINE_RISCV ++ le_encode 4 E_VERSION_1 ++ le_encode 8 entry ++
  le_encode 8 ElfHeader64.SIZE ++ le_encode 8 0 ++ le_encode 4 0 ++ le_encode 2 E_EHSIZE ++
  le_encode 2 ElfProgramHeader64.SIZE ++ le_encode 2 phnum ++ le_encode 6 0.
Definition image (entry : Z) (phs : list ElfProgramHeader64.t) (payload : bytes) : bytes :=
  encode_header entry (Z.of_nat (length phs)) ++ concat (encode_ph <$> phs) ++ payload.

Record ph_wf (ph : ElfProgramHeader64.t) : Prop := {
  pw_type : 0 ≤ ElfProgramHeader64.p_type ph < 2 ^ 32;
  pw_flags : 0 ≤ ElfProgramHeader64.p_flags ph < 2 ^ 32;
  pw_offset : 0 ≤ ElfProgramHeader64.p_offset ph < U64;
  pw_vaddr : 0 ≤ ElfProgramHeader64.p_vaddr ph < U64;
  pw_paddr : 0 ≤ ElfProgramHeader64.p_paddr ph < U64;
  pw_filesz : 0 ≤ ElfProgramHeader64.p_filesz ph < U64;
  pw_memsz : 0 ≤ ElfProgramHeader64.p_memsz ph < U64;
  pw_align : 0 ≤ ElfProgramHeader64.p_align ph < U64
}.

Lemma to_byte_N z : Z.of_N (Byte.to_N (to_byte z)) = z mod 256.
Proof.
  unfold to_byte. pose proof (Z.mod_pos_bound z 256 ltac:(lia)). destruct (Byte.of_N _) as [b|] eqn:E; cbn.
  - apply Byte.to_of_N in E. rewrite E. lia.
  - apply Byte.of_N_None_iff in E. lia.
Qed.

Lemma length_le_encode n v : length (le_encode n v) = n.
Proof. revert v. induction n as [|n IH]; intros v; cbn; [done|]. by rewrite IH. Qed.

Lemma le_le_encode n v : 0 ≤ v < 256 ^ Z.of_nat n → le (le_encode n v) = v.
Proof.
  revert v. induction n as [|n IH]; intros v Hv; cbn [le le_encode]; [cbn in Hv; lia|].
  rewrite Nat2Z.inj_succ, Z.pow_succ_r in Hv by lia. rewrite to_byte_N, IH; [|split; [apply Z.div_pos; lia|apply Z.div_lt_upper_bound; lia]].
  pose proof (Z.div_mod v 256). lia.
Qed.

Lemma field_here n v rest : 0 ≤ v < 256 ^ Z.of_nat n → field (le_encode n v ++ rest) 0 n = v.
Proof.
  intros Hv. unfold field. rewrite drop_0, take_app_length' by (by rewrite length_le_encode). by apply le_le_encode.
Qed.
Lemma field_skip n v rest off m : (n ≤ off)%nat → field (le_encode n v ++ rest) off m = field rest (off - n) m.
Proof. intros Hn. unfold field. rewrite drop_app_ge by (by rewrite length_le_encode). by rewrite length_le_encode. Qed.
Lemma field_last n v off m : field (le_encode n v) off m = field (le_encode n v ++ []) off m.
Proof. by rewrite app_nil_r. Qed.

(** Reads a field of a concatenation. *)
Ltac read_field :=
  repeat (rewrite field_skip by lia; cbn [Nat.sub]); try rewrite (field_last _ _ 0); apply field_here; cbn; try lia.

Lemma length_encode_ph ph : length (encode_ph ph) = 56%nat.
Proof. unfold encode_ph. by rewrite !length_app, !length_le_encode. Qed.

Lemma read_encode_ph ph : ph_wf ph → ElfProgramHeader64.read (encode_ph ph) = ph.
Proof.
  intros []. unfold ElfProgramHeader64.read, encode_ph. destruct ph; cbn [ElfProgramHeader64.p_type ElfProgramHeader64.p_flags
    ElfProgramHeader64.p_offset ElfProgramHeader64.p_vaddr ElfProgramHeader64.p_paddr ElfProgramHeader64.p_filesz
    ElfProgramHeader64.p_memsz ElfProgramHeader64.p_align] in *. f_equal; read_field.
Qed.

Lemma length_encode_header entry n : length (encode_header entry n) = 64%nat.
Proof. unfold encode_header. by rewrite !length_app, !length_le_encode. Qed.

Lemma read_encode_header entry n :
  0 ≤ entry < U64 → 0 ≤ n < 2 ^ 16 →
  ElfHeader64.read (encode_header entry n) = ElfHeader64.mk EI_MAGIC EI_CLASS_64 EI_DATA_LE EI_VERSION_1 E_TYPE_EXEC
    E_MACHINE_RISCV E_VERSION_1 entry ElfHeader64.SIZE E_EHSIZE ElfProgramHeader64.SIZE n.
Proof.
  intros He Hn. unfold ElfHeader64.read, encode_header.
  assert (Hm : ∀ rest off k, (4 ≤ off)%nat → field (EI_MAGIC ++ rest) off k = field rest (off - 4) k).
  { intros rest off k Hoff. unfold field. by rewrite drop_app_ge. }
  f_equal; rewrite Hm by lia; cbn [Nat.sub]; read_field.
Qed.

Record segment_safe (bs : bytes) (s : ElfSegment.t) : Prop := {
  ss_size : 0 < ElfSegment.size s;
  ss_range : 0 ≤ ElfSegment.vaddr s ∧ ElfSegment.vaddr s + ElfSegment.size s < U64;
  ss_data d : ElfSegment.data s = Some d → d ≠ [] ∧
    ∃ offset, 0 ≤ offset ∧ offset + Z.of_nat (length d) ≤ Z.of_nat (length bs) ∧ d = range bs offset (Z.of_nat (length d))
}.

Lemma segment_new_inv data vaddr size flags s :
  ElfSegment.new data vaddr size flags = Ok s →
  ElfSegment.data s = data ∧ ElfSegment.vaddr s = vaddr ∧ ElfSegment.size s = size ∧ vaddr + size < U64.
Proof.
  unfold ElfSegment.new, checked_add. destruct (if flags =? PF_R then _ else _); [|done].
  destruct (Z.ltb_spec (vaddr + size) U64); [|done]. by intros [= <-].
Qed.

Lemma segment_is_safe bs b s : segment bs (ElfProgramHeader64.read b) = Ok (Some s) → segment_safe bs s.
Proof.
  unfold segment. set (ph := ElfProgramHeader64.read b).
  assert (0 ≤ ElfProgramHeader64.p_memsz ph) by apply field_nonneg. assert (0 ≤ ElfProgramHeader64.p_vaddr ph) by apply field_nonneg.
  assert (0 ≤ ElfProgramHeader64.p_offset ph) by apply field_nonneg.
  destruct (negb _ || _) eqn:Hl; [done|]. apply orb_false_iff in Hl as [_ Hm%Z.eqb_neq].
  destruct (_ && negb _) eqn:Hf; [done|]. destruct (ElfSegment.new _ _ _ _) as [s'|] eqn:Hn; [|done]. intros [= ->].
  apply segment_new_inv in Hn as (Hd & Hv & Hs & Hr). split; [lia|lia|]. rewrite Hd.
  destruct (Z.ltb_spec 0 (ElfProgramHeader64.p_filesz ph)); [|done]. apply negb_false_iff in Hf.
  intros d Ed. apply (inj Some) in Ed as <-. pose proof (length_range bs (ElfProgramHeader64.p_offset ph) _ ltac:(done) Hf) as HL.
  rewrite HL. split.
  - intros E. rewrite E in HL. cbn [length] in HL. lia.
  - exists (ElfProgramHeader64.p_offset ph). split_and!; [done| |done]. apply andb_true_iff in Hf as [_ Hf%Z.leb_le]. done.
Qed.

Lemma length_omap_id {A} (os : list (option A)) : (length (omap id os) ≤ length os)%nat.
Proof. induction os as [|[x|] os IH]; cbn in *; lia. Qed.

(** C31: the ELF loader is safe on any bytes. It returns without panicking; and a file
    that it accepts is a RISC-V executable of which it takes at most eight
    segments, each not empty, within the 64-bit address space, and with initial data,
    if any, that lies within the file. *)
Theorem elf_loader_is_safe bs :
  addressable bs →
  ∃ r, ElfMap.new bs = Returns r ∧
    ∀ m, r = Ok m →
      ElfHeader64.ei_magic (header_of bs) = EI_MAGIC ∧ ElfHeader64.e_machine (header_of bs) = E_MACHINE_RISCV ∧
      ElfHeader64.e_type (header_of bs) = E_TYPE_EXEC ∧ ElfMap.entry m = ElfHeader64.e_entry (header_of bs) ∧
      (length (ElfMap.segments m) ≤ ELF_SEGMENTS_MAX)%nat ∧ Forall (segment_safe bs) (ElfMap.segments m).
Proof.
  intros Hbs. destruct (elf_new_spec bs Hbs) as (r & E & Hr). exists r. split; [done|]. intros m ->.
  destruct Hr as (_ & Hck & _ & He & os & HF & ->).
  unfold ElfMap.check_header in Hck. repeat case_match; simplify_eq.
  rewrite !negb_false_iff, !Z.eqb_eq, ?bool_decide_eq_false in *. split_and!; [by apply dec_stable|done..| |].
  - etrans; [apply length_omap_id|]. apply Forall2_length in HF as <-. unfold indices. rewrite length_seq. lia.
  - apply list.Forall_forall. intros s Hs. apply list_elem_of_omap in Hs as (o & Ho & E'). cbn in E'. subst o.
    apply list_elem_of_lookup in Ho as [k Hk]. destruct (Forall2_lookup_r _ _ _ _ _ HF Hk) as (i & _ & Hy).
    unfold yields_in, yields in Hy. destruct (in_file _ _ _); [|done]. by apply segment_is_safe in Hy.
Qed.

(** ** Reading back what was written *)
Definition perms_of (flags : Z) : option ElfSegmentPerms.t :=
  if flags =? PF_R then Some ReadOnly
  else if flags =? Z.lor PF_R PF_W then Some ReadWrite
  else if flags =? Z.lor PF_R PF_X then Some ReadOnlyExecute
  else None.

(** A header that occupies memory. *)
Definition loaded (ph : ElfProgramHeader64.t) : bool :=
  (ElfProgramHeader64.p_type ph =? PT_LOAD) && negb (ElfProgramHeader64.p_memsz ph =? 0).
(** Its segment in the file [bs]. *)
Definition segment_of (bs : bytes) (ph : ElfProgramHeader64.t) : option ElfSegment.t :=
  if loaded ph then
    ElfSegment.mk (if 0 <? ElfProgramHeader64.p_filesz ph
                   then Some (range bs (ElfProgramHeader64.p_offset ph) (ElfProgramHeader64.p_filesz ph)) else None)
      (ElfProgramHeader64.p_vaddr ph) (ElfProgramHeader64.p_memsz ph) <$> perms_of (ElfProgramHeader64.p_flags ph)
  else None.
(** What a linker has to respect. *)
Record linked (bs : bytes) (ph : ElfProgramHeader64.t) : Prop := {
  lk_wf : ph_wf ph;
  lk_perms : loaded ph = true → is_Some (perms_of (ElfProgramHeader64.p_flags ph));
  lk_vaddr : loaded ph = true → ElfProgramHeader64.p_vaddr ph + ElfProgramHeader64.p_memsz ph < U64;
  lk_data : loaded ph = true → 0 < ElfProgramHeader64.p_filesz ph →
    ElfProgramHeader64.p_offset ph + ElfProgramHeader64.p_filesz ph ≤ Z.of_nat (length bs)
}.

Lemma linked_segment bs ph : linked bs ph → segment bs ph = Ok (segment_of bs ph).
Proof.
  intros [_ Hp Hv Hd]. unfold segment, segment_of. destruct (loaded ph) eqn:Hl; unfold loaded in Hl.
  - apply andb_true_iff in Hl as [-> ->%negb_true_iff]. cbn [negb orb].
    destruct (Hp eq_refl) as [p Hp']. rewrite Hp'. unfold ElfSegment.new. fold (perms_of (ElfProgramHeader64.p_flags ph)).
    rewrite Hp'. unfold checked_add. rewrite (proj2 (Z.ltb_lt _ U64) (Hv eq_refl)).
    destruct (Z.ltb_spec 0 (ElfProgramHeader64.p_filesz ph)); [|done].
    unfold in_file. rewrite (proj2 (Z.leb_le 1 _)) by lia. rewrite (proj2 (Z.leb_le _ _) (Hd eq_refl ltac:(lia))). done.
  - apply andb_false_iff in Hl. by destruct Hl as [->| ->%negb_false_iff]; cbn; rewrite ?orb_true_r.
Qed.

Lemma table_range phs rest i ph :
  phs !! i = Some ph →
  range (concat (encode_ph <$> phs) ++ rest) (Z.of_nat i * ElfProgramHeader64.SIZE) ElfProgramHeader64.SIZE = encode_ph ph.
Proof.
  revert i. induction phs as [|x phs IH]; intros i Hi; [done|]. unfold range. cbn [fmap list_fmap concat]. rewrite <-app_assoc.
  destruct i as [|i].
  - injection Hi as ->. cbn [Z.of_nat]. rewrite Z.mul_0_l. cbn [Z.to_nat]. rewrite drop_0, take_app_length' by (by rewrite length_encode_ph). done.
  - rewrite drop_app_ge by (rewrite length_encode_ph; unfold ElfProgramHeader64.SIZE; lia). rewrite length_encode_ph.
    rewrite <-(IH i Hi). unfold range. do 2 f_equal. unfold ElfProgramHeader64.SIZE. lia.
Qed.

Lemma length_table phs : Z.of_nat (length (concat (encode_ph <$> phs))) = Z.of_nat (length phs) * ElfProgramHeader64.SIZE.
Proof.
  induction phs as [|ph phs IH]; [done|]. cbn [fmap list_fmap concat length]. rewrite length_app, length_encode_ph.
  unfold ElfProgramHeader64.SIZE in *. lia.
Qed.

Lemma omap_id_fmap {A B} (f : A → option B) (l : list A) : omap id (f <$> l) = omap f l.
Proof. induction l as [|x l IH]; [done|]. cbn. by destruct (f x); rewrite IH. Qed.

Section image.
Variables (entry : Z) (phs : list ElfProgramHeader64.t) (payload : bytes).
Hypotheses (He : 0 ≤ entry < U64) (Hlen : (0 < length phs ≤ ELF_SEGMENTS_MAX)%nat).
Abbreviation bs := (image entry phs payload).

Lemma image_header : header_of bs = ElfHeader64.mk EI_MAGIC EI_CLASS_64 EI_DATA_LE EI_VERSION_1 E_TYPE_EXEC
  E_MACHINE_RISCV E_VERSION_1 entry ElfHeader64.SIZE E_EHSIZE ElfProgramHeader64.SIZE (Z.of_nat (length phs)).
Proof using He Hlen.
  unfold header_of, range, image. rewrite drop_0, take_app_length' by (by rewrite length_encode_header).
  apply read_encode_header; [done|]. unfold ELF_SEGMENTS_MAX in Hlen. lia.
Qed.

Lemma image_table : table_of bs = concat (encode_ph <$> phs).
Proof using He Hlen.
  unfold table_of. rewrite image_header. cbn [ElfHeader64.e_phoff ElfHeader64.e_phnum ElfHeader64.e_phentsize]. unfold range, image.
  rewrite drop_app_length' by (by rewrite length_encode_header). apply take_app_length'.
  pose proof (length_table phs) as Hl. unfold ElfProgramHeader64.SIZE in *. lia.
Qed.

Lemma image_indices : indices bs = seq 0 (length phs).
Proof using He Hlen.
  unfold indices. rewrite image_header. cbn [ElfHeader64.e_phnum]. f_equal. lia.
Qed.

Lemma length_image : Z.of_nat (length bs) = 64 + Z.of_nat (length phs) * 56 + Z.of_nat (length payload).
Proof using Type.
  clear Hlen. unfold image. rewrite !length_app, length_encode_header. pose proof (length_table phs) as Hl.
  unfold ElfProgramHeader64.SIZE in *. lia.
Qed.

Lemma image_yields i r :
  Forall (linked bs) phs → i ∈ indices bs → yields_in bs i r → ∃ ph, phs !! i = Some ph ∧ r = Ok (segment_of bs ph).
Proof using He Hlen.
  intros Hall. rewrite image_indices. intros Hi%elem_of_seq. unfold yields_in, yields. rewrite image_table, image_header.
  cbn [ElfHeader64.e_phentsize]. destruct (lookup_lt_is_Some_2 phs i) as [ph Hph]; [lia|]. pose proof (length_table phs) as Hl.
  unfold in_file. rewrite (proj2 (Z.leb_le 1 _)) by done.
  rewrite (proj2 (Z.leb_le _ _)) by (rewrite Hl; unfold ElfProgramHeader64.SIZE; lia). cbn [andb].
  rewrite <-(app_nil_r (concat _)). rewrite (table_range phs [] i ph Hph).
  pose proof (list.Forall_lookup_1 _ _ _ _ Hall Hph) as Hlk. rewrite read_encode_ph by apply Hlk.
  rewrite linked_segment by done. intros <-. by exists ph.
Qed.
End image.

(** The loader reads back what a linker wrote. For every file with up to eight
    program headers behind the file header that ask for supported permissions, for
    an address range that does not wrap and for data within the file, the loader
    returns the entry point and exactly the segments of the loadable headers, in order. *)
Theorem elf_roundtrip entry phs payload :
  0 ≤ entry < U64 → (0 < length phs ≤ ELF_SEGMENTS_MAX)%nat → addressable (image entry phs payload) →
  Forall (linked (image entry phs payload)) phs →
  ElfMap.new (image entry phs payload) =
    Returns (Ok (ElfMap.mk entry (omap (segment_of (image entry phs payload)) phs))).
Proof.
  intros He Hlen Hbs Hall. pose proof (image_header entry phs payload He Hlen) as Hhd.
  pose proof (λ i r, image_yields entry phs payload He Hlen i r Hall) as Hy.
  pose proof (image_indices entry phs payload He Hlen) as Hi. pose proof (length_image entry phs payload) as Hsz.
  destruct (elf_new_spec _ Hbs) as (r & E & Hr). rewrite E. f_equal. set (bs := image entry phs payload) in *.
  destruct r as [[e segs]|e].
  - destruct Hr as (_ & _ & _ & He' & os & HF & Hs). rewrite Hhd in He'. cbn in He', Hs. subst e segs. do 2 f_equal.
    rewrite <-(omap_id_fmap _ phs). f_equal. apply list_eq. intros i. rewrite list_lookup_fmap.
    pose proof HF as Hos. apply Forall2_length in Hos. rewrite Hi, length_seq in Hos. destruct (os !! i) as [o|] eqn:Ho.
    + destruct (Forall2_lookup_r _ _ _ _ _ HF Ho) as (j & Hj & Hyo). pose proof (list_elem_of_lookup_2 _ _ _ Hj) as Hin.
      rewrite Hi in Hj. apply lookup_seq in Hj as [-> _]. destruct (Hy _ _ Hin Hyo) as (ph & Hph & [= ->]).
      cbn [Nat.add] in Hph. by rewrite Hph.
    + apply lookup_ge_None in Ho. by rewrite (proj2 (lookup_ge_None phs i)) by lia.
  - exfalso. destruct Hr as [Hr|[Hr|[Hr|(i & Hin & Hyo)]]].
    + unfold in_file, ElfHeader64.SIZE in Hr. destruct (Z.leb_spec (0 + 64) (Z.of_nat (length bs))); [done|lia].
    + rewrite Hhd in Hr. unfold ElfMap.check_header in Hr. cbn in Hr. destruct (Z.eqb_spec (Z.of_nat (length phs)) 0); [lia|done].
    + unfold table_in_file, in_file in Hr. rewrite Hhd in Hr. cbn [ElfHeader64.e_phoff ElfHeader64.e_phnum ElfHeader64.e_phentsize] in Hr.
      unfold ElfHeader64.SIZE, ElfProgramHeader64.SIZE in Hr. apply andb_false_iff in Hr as [Hr%Z.leb_gt|Hr%Z.leb_gt]; lia.
    + by destruct (Hy _ _ Hin Hyo) as (ph & _ & ?).
Qed.

Definition example_phs : list ElfProgramHeader64.t :=
  [ElfProgramHeader64.mk PT_LOAD 5 176 0xffffffff00000000 0 3 4096 4096;
   ElfProgramHeader64.mk PT_LOAD 6 0 0xffffffff00001000 0 0 8192 4096].
Definition example_payload : bytes := [x13; x00; x00].

Lemma elf_roundtrip_witness :
  ElfMap.new (image 0xffffffff00000000 example_phs example_payload) = Returns (Ok (ElfMap.mk 0xffffffff00000000
    [ElfSegment.mk (Some example_payload) 0xffffffff00000000 4096 ReadOnlyExecute;
     ElfSegment.mk None 0xffffffff00001000 8192 ReadWrite])).
Proof.
  rewrite (elf_roundtrip 0xffffffff00000000 example_phs example_payload).
  - vm_compute. reflexivity.
  - lia.
  - cbn. unfold ELF_SEGMENTS_MAX. lia.
  - vm_compute. reflexivity.
  - repeat constructor; cbn; try lia; try (intros _; eexists; reflexivity); vm_compute; try discriminate; intros; done.
Defined.

Lemma elf_loader_is_safe_witness :
  ∃ m, ElfMap.new (image 0xffffffff00000000 example_phs example_payload) = Returns (Ok m) ∧
    length (ElfMap.segments m) = 2%nat ∧
    Forall (segment_safe (image 0xffffffff00000000 example_phs example_payload)) (ElfMap.segments m).
Proof.
  destruct (elf_loader_is_safe (image 0xffffffff00000000 example_phs example_payload)) as (r & E & Hr); [vm_compute; reflexivity|].
  destruct r as [m|e]; [|vm_compute in E; discriminate E]. exists m. destruct (Hr m eq_refl) as (_ & _ & _ & _ & _ & Hs).
  split_and!; [exact E| |exact Hs]. vm_compute in E. by injection E as <-.
Defined.

(** Program headers beyond the eighth are not loaded, and no error is reported. *)
Lemma ninth_header_is_ignored :
  let phs := replicate 8 (ElfProgramHeader64.mk 0 0 0 0 0 0 0 0) ++ example_phs in
  ElfMap.new (image 0xffffffff00000000 phs example_payload) = Returns (Ok (ElfMap.mk 0xffffffff00000000 [])).
Proof. vm_compute. reflexivity. Qed.
