(* ===== verification/Imsic.v ===== *)
(** * Layout of the interrupt files (drivers/src/imsic/geometry.rs, sw_file.rs)

    The IMSIC interrupt files of a machine are pages whose addresses are made of a
    base and three index fields: the file within a hart, the hart within a group and
    the group.  Index widths and shifts are [u32], so their sums wrap at 32 bits, and
    a shift of a 64-bit value uses the low six bits of the shift amount.  [SwFile] is
    the saved state of an interrupt file. *)
From stdpp Require Import strings.
From S2P Require Import Prelude RiscvPages MemMap.
Import PageSize(Size4k).

Definition wrap32 (x : Z) : Z := x mod 2 ^ 32.
Definition shl64 (x n : Z) : Z := wrap64 (Z.shiftl x (n mod 64)).
Definition shr64 (x n : Z) : Z := Z.shiftr x (n mod 64).

Module ImsicError.
Inductive t :=
| MissingImsicNode
| MissingProperty (name : string)
| InvalidParentInterruptCount (n : Z)
| InvalidInterruptIds (n : Z)
| InvalidGuestsPerHart (n : Z)
| InvalidGroupIndexShift (n : Z)
| InvalidAddressPattern (a : Z)
| InvalidMmioRegionCount (n : Z)
| MisalignedMmioRegion (a : Z)
| InvalidMmioRegion (a : Z)
| InvalidParentInterrupt (phandle int : Z)
| InvalidCpuLocation (cpu : Z)
| DuplicateCpuEntries (cpu : Z)
| TooManyInterruptFiles
| MissingInterruptFiles
| AddingMmioRegion (e : HwMemMap.error)
| InvalidCpu (cpu : Z)
| GuestFilesTaken (cpu : Z)
| InvalidGuestFile
| InvalidInterruptId (id : Z).
End ImsicError.
Import ImsicError.

Module ImsicFileId.
Inductive t := Supervisor | Guest (g : Z).
#[global] Instance eq_dec : EqDecision t.
Proof. solve_decision. Defined.
Definition supervisor : t := Supervisor.
Definition guest (g : Z) : t := Guest g.
Definition from_index (index : Z) : t := if index =? 0 then Supervisor else Guest (index - 1).
Definition bits (f : t) : Z := match f with Supervisor => 0 | Guest g => wrap32 (g + 1) end.
End ImsicFileId.

(** Group and hart ids are wrapped integers. *)
Module ImsicLocation.
Record t := mk { group : Z; hart : Z; file : ImsicFileId.t }.
#[global] Instance eq_dec : EqDecision t.
Proof. solve_decision. Defined.
End ImsicLocation.
Import ImsicLocation(group, hart, file).

Definition GUEST_INDEX_SHIFT : Z := 12.
Definition MIN_GROUP_INDEX_SHIFT : Z := 24.
Definition gen_mask (num_bits shift : Z) : Z := shl64 (wrap64 (shl64 1 num_bits - 1)) shift.
Definition extract (val num_bits shift : Z) : Z := Z.land (shr64 val shift) (wrap64 (shl64 1 num_bits - 1)).

Module ImsicGeometry.
Record t := mk {
  base_addr : Z;
  group_index_bits : Z;
  group_index_shift : Z;
  hart_index_bits : Z;
  guest_index_bits : Z;
  guests_per_hart : Z
}.
#[global] Instance eq_dec : EqDecision t.
Proof. solve_decision. Defined.

Definition index_mask (g : t) : Z :=
  let hart_mask := gen_mask (wrap32 (hart_index_bits g + guest_index_bits g)) GUEST_INDEX_SHIFT in
  let group_mask := gen_mask (group_index_bits g) (group_index_shift g) in
  Z.lor hart_mask group_mask.

Definition new (base gib gis hib uib guests : Z) : result ImsicError.t t :=
  if shl64 1 uib <=? guests then Err (InvalidGuestsPerHart guests)
  else if (64 <=? wrap32 (gis + gib)) || (gis <? MIN_GROUP_INDEX_SHIFT)
          || (gis <? wrap32 (wrap32 (GUEST_INDEX_SHIFT + hib) + uib))
  then Err (InvalidGroupIndexShift gis)
  else
    let geo := mk base gib gis hib uib guests in
    if negb (Z.land base (index_mask geo) =? 0) then Err (InvalidAddressPattern base) else Ok geo.

Definition index_bits (g : t) : Z :=
  wrap32 (wrap32 (group_index_bits g + hart_index_bits g) + guest_index_bits g).

Definition location_is_valid (g : t) (loc : ImsicLocation.t) : bool :=
  (group loc <? shl64 1 (group_index_bits g)) && (hart loc <? shl64 1 (hart_index_bits g))
  && (ImsicFileId.bits (file loc) <=? guests_per_hart g).

Definition location_to_addr (g : t) (loc : ImsicLocation.t) : option Z :=
  if negb (location_is_valid g loc) then None
  else
    let num_pages := Z.lor (Z.lor (ImsicFileId.bits (file loc)) (shl64 (hart loc) (guest_index_bits g)))
                       (shl64 (group loc) (wrap32 (group_index_shift g - GUEST_INDEX_SHIFT))) in
    PageAddr.checked_add_pages (base_addr g) num_pages.

Definition addr_to_location (g : t) (addr : Z) : option ImsicLocation.t :=
  if negb (Z.land addr (not64 (index_mask g)) =? base_addr g) then None
  else
    let group := extract addr (group_index_bits g) (group_index_shift g) in
    let hart := extract addr (hart_index_bits g) (wrap32 (guest_index_bits g + GUEST_INDEX_SHIFT)) in
    let file := wrap32 (extract addr (guest_index_bits g) GUEST_INDEX_SHIFT) in
    if guests_per_hart g <? file then None
    else Some (ImsicLocation.mk group hart (ImsicFileId.from_index file)).
End ImsicGeometry.

(** The addresses of a group: harts and files are contiguous. *)
Module GroupRangeIter.
Record t := mk { base_addr : Z; group_index_shift : Z; index : Z; total : Z; group_pages : Z }.
Definition new (g : ImsicGeometry.t) : t :=
  mk (ImsicGeometry.base_addr g) (ImsicGeometry.group_index_shift g) 0
    (shl64 1 (ImsicGeometry.group_index_bits g))
    (shl64 1 (wrap32 (ImsicGeometry.hart_index_bits g + ImsicGeometry.guest_index_bits g))).
Definition next (it : t) : option PageAddrRange.t * t :=
  if total it <=? index it then (None, it)
  else
    let pages := shl64 (index it) (wrap32 (group_index_shift it - GUEST_INDEX_SHIFT)) in
    match PageAddr.checked_add_pages (base_addr it) pages with
    | None => (None, it)
    | Some base =>
        (Some (PageAddrRange.new base (group_pages it)),
         mk (base_addr it) (group_index_shift it) (index it + 1) (total it) (group_pages it))
    end.
(** The iterator collected; it yields at most [total] ranges. *)
Fixpoint collect (fuel : nat) (it : t) : list PageAddrRange.t :=
  match fuel with
  | O => []
  | S fuel => match next it with
              | (Some r, it) => r :: collect fuel it
              | (None, _) => []
              end
  end.
End GroupRangeIter.
Definition group_ranges (g : ImsicGeometry.t) : list PageAddrRange.t :=
  let it := GroupRangeIter.new g in GroupRangeIter.collect (Z.to_nat (GroupRangeIter.total it)) it.

(** ** Saved interrupt files *)
Definition MAX_INTERRUPT_IDS : Z := 2048.
Definition SW_FILE_ENTRIES : nat := Z.to_nat (MAX_INTERRUPT_IDS / 64).

Module SwFile.
Record entry := Entry { pending : Z; enable : Z }.
Record t := mk { entries : list entry; eidelivery : Z; eithreshold : Z }.
Definition new : t := mk (repeat (Entry 0 0) SW_FILE_ENTRIES) 0 0.
Definition set_eidelivery (v : Z) (f : t) : t := mk (entries f) v (eithreshold f).
Definition set_eithreshold (v : Z) (f : t) : t := mk (entries f) (eidelivery f) v.
(** Indexing panics when the index is out of range. *)
Definition at_ (f : t) (index : Z) : outcome entry := unwrap_option (entries f !! Z.to_nat index).
Definition set_at (index : Z) (e : entry) (f : t) : t :=
  mk (<[Z.to_nat index := e]> (entries f)) (eidelivery f) (eithreshold f).
Definition eip (f : t) (index : Z) : outcome Z := e ← at_ f index; Returns (pending e).
Definition set_eip (index v : Z) (f : t) : outcome t :=
  e ← at_ f index; Returns (set_at index (Entry v (enable e)) f).
Definition set_eip_bit (id : Z) (f : t) : outcome t :=
  e ← at_ f (id / 64);
  Returns (set_at (id / 64) (Entry (Z.lor (pending e) (shl64 1 (id mod 64))) (enable e)) f).
Definition eie (f : t) (index : Z) : outcome Z := e ← at_ f index; Returns (enable e).
Definition set_eie (index v : Z) (f : t) : outcome t :=
  e ← at_ f index; Returns (set_at index (Entry (pending e) v) f).
End SwFile.
