(* ===== verification/ImsicFacts.v ===== *)
(** * Theorems about the layout of interrupt files

    In a geometry that the constructor accepts, locations and addresses of interrupt
    files correspond one to one, and the groups are disjoint ranges of addresses. *)
From S2P Require Import Prelude RiscvPages Imsic.
Import PageSize(Size4k).
Import ImsicLocation(group, hart, file).
Import ImsicGeometry(base_addr, group_index_bits, group_index_shift, hart_index_bits, guest_index_bits, guests_per_hart).

(** ** The fields of an address *)
Record geometry_ok (g : ImsicGeometry.t) : Prop := {
  go_group : 0 ≤ group_index_bits g;
  go_hart : 0 ≤ hart_index_bits g;
  go_guest : 0 ≤ guest_index_bits g;
  go_shift : MIN_GROUP_INDEX_SHIFT ≤ group_index_shift g;
  go_low : 12 + hart_index_bits g + guest_index_bits g ≤ group_index_shift g;
  go_high : group_index_shift g + group_index_bits g < 64;
  go_guests : 0 ≤ guests_per_hart g < 2 ^ guest_index_bits g;
  go_base : u64 (base_addr g);
  go_aligned : base_addr g mod 4096 = 0;
  go_pattern : Z.land (base_addr g) (ImsicGeometry.index_mask g) = 0
}.

Lemma shl64_one n : 0 ≤ n < 64 → shl64 1 n = 2 ^ n.
Proof.
  intros Hn. unfold shl64, wrap64. rewrite (Z.mod_small n) by done. rewrite Z.shiftl_1_l. apply Z.mod_small.
  split; [apply Z.pow_nonneg; lia|]. change U64 with (2 ^ 64). apply Z.pow_lt_mono_r; lia.
Qed.

Lemma ones_wrap n : 0 ≤ n < 64 → wrap64 (shl64 1 n - 1) = Z.ones n.
Proof.
  intros Hn. rewrite shl64_one, Z.ones_equiv by done. unfold wrap64. rewrite Z.mod_small; [lia|].
  pose proof (Z.pow_pos_nonneg 2 n). pose proof (Z.pow_lt_mono_r 2 n 64). lia.
Qed.

Lemma gen_mask_bit n s i : 0 ≤ n → 0 ≤ s → n + s < 64 → 0 ≤ i →
  Z.testbit (gen_mask n s) i = (s <=? i) && (i <? s + n).
Proof.
  intros Hn Hs Hns Hi. unfold gen_mask. rewrite ones_wrap by lia. unfold shl64. rewrite (Z.mod_small s) by lia.
  destruct (Z.lt_ge_cases i 64) as [H64|H64].
  - rewrite testbit_wrap64, Z.shiftl_spec by lia. destruct (Z.leb_spec s i).
    + rewrite Z.testbit_ones_nonneg by lia. cbn. apply eq_true_iff_eq. rewrite !Z.ltb_lt. lia.
    + by rewrite Z.testbit_neg_r by lia.
  - rewrite testbit_u64 by (apply wrap64_u64 || lia). symmetry. apply andb_false_intro2, Z.ltb_ge. lia.
Qed.

Lemma extract_bit v n s i : 0 ≤ n < 64 → 0 ≤ s < 64 → 0 ≤ i →
  Z.testbit (extract v n s) i = (i <? n) && Z.testbit v (i + s).
Proof.
  intros Hn Hs Hi. unfold extract, shr64. rewrite ones_wrap, (Z.mod_small s) by lia.
  rewrite Z.land_spec, Z.testbit_ones_nonneg, Z.shiftr_spec by lia. apply andb_comm.
Qed.

Lemma extract_bound v n s : 0 ≤ n < 64 → 0 ≤ extract v n s < 2 ^ n.
Proof.
  intros Hn. unfold extract. rewrite ones_wrap by done. rewrite Z.land_ones by lia.
  apply Z.mod_pos_bound, Z.pow_pos_nonneg; lia.
Qed.

Section geometry.
Variable g : ImsicGeometry.t.
Hypothesis Hg : geometry_ok g.

Abbreviation hib := (hart_index_bits g).
Abbreviation uib := (guest_index_bits g).
Abbreviation gib := (group_index_bits g).
Abbreviation gis := (group_index_shift g).
Abbreviation base := (base_addr g).

(** The bits of an address that hold an index. *)
Definition index_bit (i : Z) : bool := ((12 <=? i) && (i <? 12 + hib + uib)) || ((gis <=? i) && (i <? gis + gib)).

Lemma index_mask_bit i : 0 ≤ i → Z.testbit (ImsicGeometry.index_mask g) i = index_bit i.
Proof using Hg.
  intros Hi. destruct Hg. unfold ImsicGeometry.index_mask, GUEST_INDEX_SHIFT, MIN_GROUP_INDEX_SHIFT, index_bit, wrap32 in *.
  rewrite Z.lor_spec, Z.mod_small by lia. rewrite !gen_mask_bit by lia.
  by replace (12 + (hib + uib)) with (12 + hib + uib) by lia.
Qed.

Lemma index_mask_u64 : u64 (ImsicGeometry.index_mask g).
Proof using Type. unfold ImsicGeometry.index_mask, gen_mask, shl64. apply lor_u64; apply wrap64_u64. Qed.

Lemma base_bit i : 0 ≤ i → index_bit i = true → Z.testbit base i = false.
Proof using Hg.
  intros Hi Hb. pose proof (Z.land_spec base (ImsicGeometry.index_mask g) i) as E.
  rewrite (go_pattern g Hg), Z.bits_0, index_mask_bit, Hb, andb_true_r in E by done. done.
Qed.

(** The page number that [location_to_addr] adds to the base. *)
Definition page_index (f h gr : Z) : Z := Z.lor (Z.lor f (Z.shiftl h uib)) (Z.shiftl gr (gis - 12)).

Definition fields_ok (f h gr : Z) : Prop := 0 ≤ f < 2 ^ uib ∧ 0 ≤ h < 2 ^ hib ∧ 0 ≤ gr < 2 ^ gib.

Lemma page_index_bit f h gr j : fields_ok f h gr → 0 ≤ j →
  Z.testbit (page_index f h gr) j =
  if j <? uib then Z.testbit f j else if j <? hib + uib then Z.testbit h (j - uib)
  else if j <? gis - 12 then false else Z.testbit gr (j - (gis - 12)).
Proof using Hg.
  intros (Hf & Hh & Hgr) Hj. destruct Hg. unfold page_index. rewrite !Z.lor_spec, !Z.shiftl_spec by lia.
  destruct (Z.ltb_spec j uib).
  { rewrite !(Z.testbit_neg_r _ (_ - _)) by lia. by rewrite !orb_false_r. }
  rewrite (testbit_high f j uib) by lia. destruct (Z.ltb_spec j (hib + uib)).
  { rewrite (Z.testbit_neg_r gr) by lia. by rewrite orb_false_r. }
  rewrite (testbit_high h (j - uib) hib) by lia. destruct (Z.ltb_spec j (gis - 12)); [|done].
  by rewrite Z.testbit_neg_r by lia.
Qed.

Lemma page_index_outside f h gr i : fields_ok f h gr → 0 ≤ i → index_bit i = false →
  Z.testbit (Z.shiftl (page_index f h gr) 12) i = false.
Proof using Hg.
  intros Hok Hi Hb. rewrite Z.shiftl_spec by done. destruct (Z.lt_ge_cases i 12); [by apply Z.testbit_neg_r; lia|].
  pose proof Hok as (Hf & Hh & Hgr). pose proof Hg as []. rewrite page_index_bit by (done || lia).
  unfold index_bit in Hb. apply orb_false_iff in Hb as [Hb1 Hb2].
  apply andb_false_iff in Hb1 as [?%Z.leb_gt|?%Z.ltb_ge]; [lia|].
  rewrite (proj2 (Z.ltb_ge (i - 12) uib)), (proj2 (Z.ltb_ge (i - 12) (hib + uib))) by lia.
  destruct (Z.ltb_spec (i - 12) (gis - 12)); [done|].
  apply andb_false_iff in Hb2 as [?%Z.leb_gt|?%Z.ltb_ge]; [lia|]. apply (testbit_high _ _ gib); lia.
Qed.

Lemma page_index_nonneg f h gr : fields_ok f h gr → 0 ≤ page_index f h gr.
Proof using Type. intros (? & ? & ?). unfold page_index. rewrite !Z.lor_nonneg, !Z.shiftl_nonneg. lia. Qed.

(** Adding the page index to the base sets the index bits and nothing else. *)
Lemma address_bits f h gr : fields_ok f h gr →
  base + page_index f h gr * 4096 = Z.lor base (Z.shiftl (page_index f h gr) 12).
Proof using Hg.
  intros Hok. change 4096 with (2 ^ 12). rewrite <-Z.shiftl_mul_pow2 by lia.
  apply Z.add_nocarry_lor, Z.bits_inj'. intros i Hi. rewrite Z.land_spec, Z.bits_0.
  destruct (index_bit i) eqn:Hb; [by rewrite base_bit|]. by rewrite page_index_outside, andb_false_r.
Qed.

Lemma address_u64 f h gr : fields_ok f h gr → u64 (base + page_index f h gr * 4096).
Proof using Hg.
  intros Hok. rewrite address_bits by done. apply lor_u64; [apply Hg|]. apply u64_bits.
  - apply Z.shiftl_nonneg. by apply page_index_nonneg.
  - intros i Hi. apply page_index_outside; [done|lia|]. destruct Hg. unfold index_bit.
    rewrite (proj2 (Z.ltb_ge i (gis + gib))) by lia. rewrite (proj2 (Z.ltb_ge i (12 + hib + uib))) by lia.
    by rewrite !andb_false_r.
Qed.

Lemma add_pages_eq f h gr : fields_ok f h gr →
  PageAddr.checked_add_pages base (page_index f h gr) = Some (base + page_index f h gr * 4096).
Proof using Hg.
  intros Hok. pose proof (address_u64 f h gr Hok) as [_ Hb]. pose proof (page_index_nonneg f h gr Hok).
  pose proof (go_base g Hg) as [? _]. apply checked_add_pages_spec; [apply Hg|]. cbn. lia.
Qed.

Lemma index_bit_cases i : 0 ≤ i → index_bit i = true →
  12 ≤ i < 12 + uib ∨ 12 + uib ≤ i < 12 + uib + hib ∨ gis ≤ i < gis + gib.
Proof using Type.
  intros Hi. unfold index_bit. rewrite orb_true_iff, !andb_true_iff, !Z.leb_le, !Z.ltb_lt. lia.
Qed.

(** Each field of the address can be read back. *)
Lemma address_fields f h gr : fields_ok f h gr →
  let a := base + page_index f h gr * 4096 in
  Z.land a (not64 (ImsicGeometry.index_mask g)) = base ∧
  extract a uib 12 = f ∧ extract a hib (uib + 12) = h ∧ extract a gib gis = gr.
Proof using Hg.
  intros Hok a. pose proof Hok as (Hf & Hh & Hgr). pose proof Hg as [].
  assert (Hbit : ∀ i, 0 ≤ i → index_bit i = true → Z.testbit a i = Z.testbit (page_index f h gr) (i - 12)).
  { intros i Hi Hb. unfold a. rewrite address_bits, Z.lor_spec, base_bit by done. by rewrite Z.shiftl_spec. }
  assert (Hin : ∀ i, 12 ≤ i < 12 + hib + uib ∨ gis ≤ i < gis + gib → index_bit i = true).
  { intros i. unfold index_bit. rewrite orb_true_iff, !andb_true_iff, !Z.leb_le, !Z.ltb_lt. lia. }
  split_and!; apply Z.bits_inj'; intros i Hi.
  - rewrite Z.land_spec. destruct (Z.lt_ge_cases i 64).
    + rewrite testbit_not64, index_mask_bit by (apply index_mask_u64 || done). unfold a. rewrite address_bits, Z.lor_spec by done.
      destruct (index_bit i) eqn:Hb; [by rewrite base_bit, andb_false_r|].
      by rewrite page_index_outside, orb_false_r, andb_true_r.
    + by rewrite (testbit_u64 a), (testbit_u64 base) by (done || by apply address_u64).
  - rewrite extract_bit by lia. destruct (Z.ltb_spec i uib); [|by rewrite (testbit_high f i uib) by lia].
    rewrite Hbit by (try apply Hin; lia). rewrite page_index_bit by (done || lia).
    replace (i + 12 - 12) with i by lia. by rewrite (proj2 (Z.ltb_lt i uib)) by lia.
  - rewrite extract_bit by lia. destruct (Z.ltb_spec i hib); [|by rewrite (testbit_high h i hib) by lia].
    rewrite Hbit by (try apply Hin; lia). rewrite page_index_bit by (done || lia).
    replace (i + (uib + 12) - 12) with (i + uib) by lia. rewrite (proj2 (Z.ltb_ge (i + uib) uib)) by lia.
    rewrite (proj2 (Z.ltb_lt (i + uib) (hib + uib))) by lia. by replace (i + uib - uib) with i by lia.
  - rewrite extract_bit by lia. destruct (Z.ltb_spec i gib); [|by rewrite (testbit_high gr i gib) by lia].
    rewrite Hbit by (try apply Hin; lia). rewrite page_index_bit by (done || lia).
    rewrite !(proj2 (Z.ltb_ge (i + gis - 12) _)) by lia. by replace (i + gis - 12 - (gis - 12)) with i by lia.
Qed.

(** An address that matches the pattern is made of its fields. *)
Lemma address_of_fields a : u64 a → a mod 4096 = 0 →
  Z.land a (not64 (ImsicGeometry.index_mask g)) = base →
  base + page_index (extract a uib 12) (extract a hib (uib + 12)) (extract a gib gis) * 4096 = a.
Proof using Hg.
  intros Ha Hal Hb. pose proof Hg as [].
  assert (Hok : fields_ok (extract a uib 12) (extract a hib (uib + 12)) (extract a gib gis)).
  { split_and!; apply extract_bound; lia. }
  rewrite address_bits by done. apply Z.bits_inj'. intros i Hi. rewrite Z.lor_spec.
  destruct (Z.lt_ge_cases i 64) as [H64|H64]; cycle 1.
  { rewrite <-Z.lor_spec, <-address_bits by done. by rewrite !testbit_u64 by (done || by apply address_u64). }
  destruct (index_bit i) eqn:Hbit; cycle 1.
  { rewrite page_index_outside, orb_false_r by done. rewrite <-Hb, Z.land_spec.
    rewrite testbit_not64, index_mask_bit, Hbit, andb_true_r by (apply index_mask_u64 || done). done. }
  rewrite base_bit, Z.shiftl_spec by done. cbn [orb]. apply index_bit_cases in Hbit; [|done].
  rewrite page_index_bit by (done || lia).
  destruct Hbit as [Hr|[Hr|Hr]].
  - rewrite (proj2 (Z.ltb_lt (i - 12) uib)) by lia. rewrite extract_bit by lia.
    rewrite (proj2 (Z.ltb_lt (i - 12) uib)) by lia. by replace (i - 12 + 12) with i by lia.
  - rewrite (proj2 (Z.ltb_ge (i - 12) uib)), (proj2 (Z.ltb_lt (i - 12) (hib + uib))) by lia. rewrite extract_bit by lia.
    rewrite (proj2 (Z.ltb_lt _ hib)) by lia. by replace (i - 12 - uib + (uib + 12)) with i by lia.
  - rewrite !(proj2 (Z.ltb_ge (i - 12) _)) by lia. rewrite extract_bit by lia.
    rewrite (proj2 (Z.ltb_lt _ gib)) by lia. by replace (i - 12 - (gis - 12) + gis) with i by lia.
Qed.

Lemma page_index_sum f h gr : fields_ok f h gr → page_index f h gr = f + h * 2 ^ uib + gr * 2 ^ (gis - 12).
Proof using Hg.
  intros (Hf & Hh & Hgr). pose proof Hg as []. unfold page_index. rewrite (lor_fields f h) by lia.
  pose proof (fields_bound f h uib hib) as Hb. rewrite lor_fields; [done|lia|].
  pose proof (Z.pow_le_mono_r 2 (hib + uib) (gis - 12)). lia.
Qed.

Lemma shl64_field n x w : 0 ≤ n → 0 ≤ w → n + w ≤ 64 → 0 ≤ x < 2 ^ w → shl64 x (wrap32 n) = Z.shiftl x n.
Proof using Type.
  intros Hn Hw Hnw Hx. unfold shl64, wrap32. rewrite (Z.mod_small n) by lia.
  destruct (decide (n = 64)) as [->|].
  { assert (w = 0) as -> by lia. by assert (x = 0) as -> by lia. }
  rewrite (Z.mod_small n) by lia. unfold wrap64. rewrite Z.shiftl_mul_pow2 by lia. apply Z.mod_small.
  pose proof (Z.pow_pos_nonneg 2 n). change U64 with (2 ^ 64). split; [nia|].
  apply Z.lt_le_trans with (2 ^ w * 2 ^ n); [nia|]. rewrite <-Z.pow_add_r by lia. apply Z.pow_le_mono_r; lia.
Qed.

(** The fields packed without the gap below the group. *)
Lemma packed_fields f h gr : fields_ok f h gr →
  Z.lor (Z.lor f (shl64 h uib)) (shl64 gr (wrap32 (uib + hib))) = f + (h + gr * 2 ^ hib) * 2 ^ uib ∧
  0 ≤ f + (h + gr * 2 ^ hib) * 2 ^ uib < 2 ^ (gib + hib + uib).
Proof using Hg.
  intros (Hf & Hh & Hgr). pose proof Hg as [].
  rewrite (shl64_field (uib + hib) gr gib) by lia.
  assert (shl64 h uib = Z.shiftl h uib) as ->.
  { rewrite <-(shl64_field uib h hib) by lia. f_equal. symmetry. apply Z.mod_small. lia. }
  pose proof (fields_bound f h uib hib) as Hb. rewrite (lor_fields f h) by lia.
  replace (uib + hib) with (hib + uib) by lia. rewrite lor_fields by lia. split.
  - rewrite Z.pow_add_r by lia. ring.
  - apply fields_bound; [lia|lia|lia|]. apply fields_bound; lia.
Qed.

(** ** Locations *)
Definition location_wf (loc : ImsicLocation.t) : Prop :=
  0 ≤ group loc ∧ 0 ≤ hart loc ∧
  match file loc with ImsicFileId.Supervisor => True | ImsicFileId.Guest n => 0 ≤ n < 2 ^ 32 - 1 end.

Lemma valid_iff loc : location_wf loc →
  ImsicGeometry.location_is_valid g loc = true ↔
  fields_ok (ImsicFileId.bits (file loc)) (hart loc) (group loc) ∧ ImsicFileId.bits (file loc) ≤ guests_per_hart g.
Proof using Hg.
  intros (H1 & H2 & H3). pose proof Hg as []. unfold ImsicGeometry.location_is_valid.
  rewrite !andb_true_iff, !Z.ltb_lt, Z.leb_le, !shl64_one by lia. unfold fields_ok.
  assert (0 ≤ ImsicFileId.bits (file loc)).
  { unfold ImsicFileId.bits, wrap32. destruct (file loc); [done|]. by apply Z.mod_pos_bound. }
  intuition lia.
Qed.

Lemma location_to_addr_eq loc : location_wf loc → ImsicGeometry.location_is_valid g loc = true →
  ImsicGeometry.location_to_addr g loc =
  Some (base + page_index (ImsicFileId.bits (file loc)) (hart loc) (group loc) * 4096).
Proof using Hg.
  intros Hw Hv. unfold ImsicGeometry.location_to_addr. rewrite Hv. cbn [negb]. apply valid_iff in Hv as [Hok _]; [|done].
  rewrite <-add_pages_eq by done. pose proof Hok as (Hf & Hh & Hgr). pose proof Hg as []. unfold page_index, GUEST_INDEX_SHIFT.
  rewrite <-(shl64_field (gis - 12) (group loc) gib) by lia. f_equal. f_equal. f_equal.
  rewrite <-(shl64_field uib (hart loc) hib) by lia. unfold wrap32. by rewrite Z.mod_small by lia.
Qed.

Lemma from_index_bits f : location_wf (ImsicLocation.mk 0 0 f) → ImsicFileId.from_index (ImsicFileId.bits f) = f.
Proof using Type.
  intros (_ & _ & Hf). destruct f as [|n]; [done|]. cbn in Hf |- *. unfold wrap32, ImsicFileId.from_index.
  rewrite Z.mod_small by lia. destruct (Z.eqb_spec (n + 1) 0); [lia|]. f_equal. lia.
Qed.

Lemma bits_from_index i : 0 ≤ i < 2 ^ 32 → ImsicFileId.bits (ImsicFileId.from_index i) = i.
Proof using Type.
  intros Hi. unfold ImsicFileId.from_index. destruct (Z.eqb_spec i 0) as [->|]; [done|]. cbn. unfold wrap32.
  rewrite Z.mod_small; lia.
Qed.

Lemma locate loc : location_wf loc → ImsicGeometry.location_is_valid g loc = true →
  ∃ a, ImsicGeometry.location_to_addr g loc = Some a ∧ u64 a ∧ a mod 4096 = 0 ∧
    ImsicGeometry.addr_to_location g a = Some loc.
Proof using Hg.
  intros Hw Hv. rewrite location_to_addr_eq by done. eexists. split; [done|]. pose proof Hv as [Hok Hn]%valid_iff; [|done].
  split; [by apply address_u64|]. pose proof Hg as [].
  split; [rewrite Z.mod_add; done|]. unfold ImsicGeometry.addr_to_location.
  destruct (address_fields _ _ _ Hok) as (-> & Hf & Hh & Hgr). rewrite Z.eqb_refl. cbn [negb].
  assert (wrap32 (uib + GUEST_INDEX_SHIFT) = uib + 12) as ->.
  { unfold wrap32, GUEST_INDEX_SHIFT. apply Z.mod_small. lia. }
  change GUEST_INDEX_SHIFT with 12. rewrite Hf, Hh, Hgr.
  assert (wrap32 (ImsicFileId.bits (file loc)) = ImsicFileId.bits (file loc)) as ->.
  { unfold ImsicFileId.bits, wrap32. destruct (file loc); [done|]. apply Z.mod_mod. done. }
  rewrite (proj2 (Z.ltb_ge _ _)) by done. rewrite from_index_bits by by split_and!; [..|apply Hw].
  by destruct loc.
Qed.

Lemma address_locate a loc : uib ≤ 32 → u64 a → a mod 4096 = 0 →
  ImsicGeometry.addr_to_location g a = Some loc →
  location_wf loc ∧ ImsicGeometry.location_is_valid g loc = true ∧ ImsicGeometry.location_to_addr g loc = Some a.
Proof using Hg.
  intros H32 Ha Hal. pose proof Hg as []. unfold ImsicGeometry.addr_to_location.
  destruct (Z.eqb_spec (Z.land a (not64 (ImsicGeometry.index_mask g))) base) as [Hb|]; [|done]. cbn [negb].
  assert (wrap32 (uib + GUEST_INDEX_SHIFT) = uib + 12) as ->.
  { unfold wrap32, GUEST_INDEX_SHIFT. apply Z.mod_small. lia. }
  change GUEST_INDEX_SHIFT with 12.
  pose proof (extract_bound a uib 12) as Hf. pose proof (extract_bound a hib (uib + 12)) as Hh.
  pose proof (extract_bound a gib gis) as Hgr. pose proof (Z.pow_le_mono_r 2 uib 32).
  assert (wrap32 (extract a uib 12) = extract a uib 12) as -> by (apply Z.mod_small; lia).
  destruct (Z.ltb_spec (guests_per_hart g) (extract a uib 12)) as [|Hgf]; [done|]. intros [= <-].
  set (loc := ImsicLocation.mk _ _ _).
  assert (Hbits : ImsicFileId.bits (file loc) = extract a uib 12) by (apply bits_from_index; lia).
  assert (Hw : location_wf loc).
  { split_and!; [cbn; lia..|]. cbn. unfold ImsicFileId.from_index. destruct (Z.eqb_spec (extract a uib 12) 0); [done|]. lia. }
  assert (Hv : ImsicGeometry.location_is_valid g loc = true).
  { apply valid_iff; [done|]. rewrite Hbits. split; [|done]. split_and!; cbn; lia. }
  split_and!; [done..|]. rewrite location_to_addr_eq, Hbits by done. by rewrite address_of_fields.
Qed.

(** ** Groups *)
Definition in_range (r : PageAddrRange.t) (a : Z) : Prop :=
  PageAddrRange.base r ≤ a < PageAddrRange.base r + PageAddrRange.num_pages r * 4096.
Definition group_range (k : Z) : PageAddrRange.t := PageAddrRange.new (base + k * 2 ^ gis) (2 ^ (hib + uib)).

Lemma group_next k :
  0 ≤ k < 2 ^ gib →
  GroupRangeIter.next (GroupRangeIter.mk base gis k (2 ^ gib) (2 ^ (hib + uib)))
  = (Some (group_range k), GroupRangeIter.mk base gis (k + 1) (2 ^ gib) (2 ^ (hib + uib))).
Proof using Hg.
  intros Hk. pose proof Hg as []. unfold GroupRangeIter.next. cbn. rewrite (proj2 (Z.leb_gt _ _)) by lia.
  assert (Hok : fields_ok 0 0 k) by (split_and!; try lia; apply Z.pow_pos_nonneg; lia).
  pose proof (add_pages_eq _ _ _ Hok) as E. unfold page_index in E. rewrite Z.shiftl_0_l, !Z.lor_0_l in E.
  unfold GUEST_INDEX_SHIFT. rewrite (shl64_field _ _ gib) by lia. rewrite E.
  unfold group_range. rewrite Z.shiftl_mul_pow2 by lia. do 3 f_equal.
  rewrite <-Z.mul_assoc. change 4096 with (2 ^ 12). rewrite <-Z.pow_add_r by lia. do 3 f_equal. lia.
Qed.

Lemma group_collect n k :
  0 ≤ k → k + Z.of_nat n = 2 ^ gib →
  GroupRangeIter.collect n (GroupRangeIter.mk base gis k (2 ^ gib) (2 ^ (hib + uib)))
  = (λ i, group_range (k + Z.of_nat i)) <$> seq 0 n.
Proof using Hg.
  revert k. induction n as [|n IH]; intros k Hk Hn; [done|]. cbn [GroupRangeIter.collect].
  rewrite group_next by lia. rewrite IH by lia. cbn [seq fmap list_fmap]. f_equal; [f_equal; lia|].
  rewrite <-list.fmap_S_seq, <-list_fmap_compose. apply list_fmap_ext. intros i x _. cbn. f_equal. lia.
Qed.

Lemma group_ranges_eq : group_ranges g = (λ i, group_range (Z.of_nat i)) <$> seq 0 (Z.to_nat (2 ^ gib)).
Proof using Hg.
  pose proof Hg as []. unfold group_ranges, GroupRangeIter.new.
  assert (wrap32 (hib + uib) = hib + uib) as -> by (apply Z.mod_small; lia).
  rewrite !shl64_one by lia. cbn [GroupRangeIter.total]. pose proof (Z.pow_nonneg 2 gib).
  rewrite group_collect by lia. done.
Qed.

Lemma group_range_matches k a :
  0 ≤ k < 2 ^ gib → a mod 4096 = 0 → in_range (group_range k) a →
  ∃ f h, fields_ok f h k ∧ a = base + page_index f h k * 4096.
Proof using Hg.
  intros Hk Hal [Hlo Hhi]. pose proof Hg as []. cbn in Hlo, Hhi. rewrite Z.pow_add_r in Hhi by lia.
  set (q := (a - (base + k * 2 ^ gis)) / 4096).
  assert (Hgis : 2 ^ gis = 2 ^ (gis - 12) * 4096).
  { change 4096 with (2 ^ 12). rewrite <-Z.pow_add_r by lia. f_equal. lia. }
  assert (Hq : a = base + k * 2 ^ gis + q * 4096).
  { unfold q. rewrite Hgis. rewrite Hgis in Hlo. set (P := 2 ^ (gis - 12)) in *. mod_lia. }
  assert (0 < 2 ^ uib) by (apply Z.pow_pos_nonneg; lia).
  assert (0 < 2 ^ hib) by (apply Z.pow_pos_nonneg; lia).
  assert (Hqb : 0 ≤ q < 2 ^ hib * 2 ^ uib) by lia.
  assert (Hok : fields_ok (q mod 2 ^ uib) (q / 2 ^ uib) k).
  { split_and!; try lia; [apply Z.mod_pos_bound; lia|apply Z.mod_pos_bound; lia|apply Z.div_pos; lia|].
    apply Z.div_lt_upper_bound; lia. }
  exists (q mod 2 ^ uib), (q / 2 ^ uib). split; [done|]. rewrite page_index_sum by done.
  pose proof (Z.div_mod q (2 ^ uib)). rewrite Hgis in Hq. lia.
Qed.

Lemma page_index_in_range f h k : fields_ok f h k → in_range (group_range k) (base + page_index f h k * 4096).
Proof using Hg.
  intros Hok. pose proof Hok as (Hf & Hh & Hk). pose proof Hg as []. rewrite page_index_sum by done.
  unfold in_range, group_range. cbn. rewrite Z.pow_add_r by lia.
  assert (Hgis : 2 ^ gis = 2 ^ (gis - 12) * 4096).
  { change 4096 with (2 ^ 12). rewrite <-Z.pow_add_r by lia. f_equal. lia. }
  rewrite Hgis. clear -Hf Hh. set (P := 2 ^ uib) in *. set (Q := 2 ^ hib) in *. set (R := 2 ^ (gis - 12)) in *. nia.
Qed.

Lemma group_lookup i r : group_ranges g !! i = Some r ↔ Z.of_nat i < 2 ^ gib ∧ r = group_range (Z.of_nat i).
Proof using Hg.
  rewrite group_ranges_eq, list_lookup_fmap_Some. split.
  - intros (k & -> & [-> Hi]%lookup_seq). split; [lia|done].
  - intros [Hi ->]. exists i. split; [done|]. apply lookup_seq. lia.
Qed.

Lemma group_disjoint k k' a : in_range (group_range k) a → in_range (group_range k') a → k = k'.
Proof using Hg.
  unfold in_range, group_range. cbn. pose proof Hg as [].
  assert (HS : 2 ^ (hib + uib) * 4096 ≤ 2 ^ gis).
  { change 4096 with (2 ^ 12). rewrite <-Z.pow_add_r by lia. apply Z.pow_le_mono_r; lia. }
  assert (0 < 2 ^ gis) by (apply Z.pow_pos_nonneg; lia). clear -HS.
  set (G := 2 ^ gis) in *. set (N := 2 ^ (hib + uib) * 4096) in *. intros [? ?] [? ?].
  destruct (Z.lt_trichotomy k k') as [|[|]]; [nia|done|nia].
Qed.
End geometry.

(** Index widths are far below the width of [u32]. *)
Definition widths_ok (gib gis hib uib : Z) : Prop :=
  0 ≤ gib < 2 ^ 30 ∧ 0 ≤ gis < 2 ^ 30 ∧ 0 ≤ hib < 2 ^ 30 ∧ 0 ≤ uib < 2 ^ 30.

Lemma new_ok base gib gis hib uib guests g :
  widths_ok gib gis hib uib → u64 base → base mod 4096 = 0 → 0 ≤ guests →
  ImsicGeometry.new base gib gis hib uib guests = Ok g →
  g = ImsicGeometry.mk base gib gis hib uib guests ∧ geometry_ok g.
Proof.
  intros (H1 & H2 & H3 & H4) Hb Ha Hn. unfold ImsicGeometry.new, wrap32, GUEST_INDEX_SHIFT, MIN_GROUP_INDEX_SHIFT.
  rewrite !(Z.mod_small (gis + gib)), !(Z.mod_small (12 + hib)), !Z.mod_small by lia.
  destruct (Z.leb_spec (shl64 1 uib) guests) as [|Hg]; [done|].
  destruct (Z.leb_spec 64 (gis + gib)) as [|Hs]; [done|]. destruct (Z.ltb_spec gis 24) as [|Hm]; [done|].
  destruct (Z.ltb_spec gis (12 + hib + uib)) as [|Hl]; [done|]. cbn [orb].
  destruct (Z.eqb_spec (Z.land base (ImsicGeometry.index_mask (ImsicGeometry.mk base gib gis hib uib guests))) 0)
    as [Hp|]; [|done]. intros [= <-].
  split; [done|]. rewrite shl64_one in Hg by lia. split; cbn; unfold MIN_GROUP_INDEX_SHIFT; done || lia.
Qed.

(** The layout of a machine with four groups of sixteen harts. *)
Definition example_geometry : ImsicGeometry.t := ImsicGeometry.mk 0x28000000 2 24 4 4 3.
Lemma example_geometry_new : ImsicGeometry.new 0x28000000 2 24 4 4 3 = Ok example_geometry.
Proof. vm_compute. reflexivity. Qed.
Lemma example_widths : widths_ok 2 24 4 4.
Proof. unfold widths_ok. lia. Qed.

(** ** Theorems *)

(** In every geometry that the constructor accepts (with index widths that do not
    overflow and at most 2^32 files per hart), locations and addresses of interrupt
    files correspond one to one: every valid location has an address, which is page
    aligned, does not overflow and translates back to the location, and every
    address that translates to a location is the address of that location, which is
    valid. *)
Theorem imsic_location_roundtrip (base gib gis hib uib guests : Z) (g : ImsicGeometry.t) :
  widths_ok gib gis hib uib → u64 base → base mod 4096 = 0 → 0 ≤ guests →
  ImsicGeometry.new base gib gis hib uib guests = Ok g → uib ≤ 32 →
  (∀ loc, location_wf loc → ImsicGeometry.location_is_valid g loc = true →
     ∃ a, ImsicGeometry.location_to_addr g loc = Some a ∧ u64 a ∧ a mod 4096 = 0 ∧
       ImsicGeometry.addr_to_location g a = Some loc) ∧
  (∀ a loc, u64 a → a mod 4096 = 0 → ImsicGeometry.addr_to_location g a = Some loc →
     location_wf loc ∧ ImsicGeometry.location_is_valid g loc = true ∧ ImsicGeometry.location_to_addr g loc = Some a).
Proof.
  intros Hw Hb Ha Hn Hnew H32. destruct (new_ok _ _ _ _ _ _ _ Hw Hb Ha Hn Hnew) as [-> Hok].
  split; [by apply locate|]. intros a loc. by apply address_locate.
Qed.

Lemma imsic_location_roundtrip_witness :
  let loc := ImsicLocation.mk 2 3 (ImsicFileId.Guest 1) in
  ImsicGeometry.location_to_addr example_geometry loc = Some 0x2a032000 ∧
  ImsicGeometry.addr_to_location example_geometry 0x2a032000 = Some loc.
Proof.
  destruct (imsic_location_roundtrip 0x28000000 2 24 4 4 3 example_geometry) as [Hto _];
    [apply example_widths|unfold u64; lia|done|done|apply example_geometry_new|done|].
  destruct (Hto (ImsicLocation.mk 2 3 (ImsicFileId.Guest 1))) as (a & Hl & _ & _ & Hb);
    [unfold location_wf; cbn; lia|vm_compute; reflexivity|].
  assert (Some a = Some 0x2a032000) as [= ->] by (rewrite <-Hl; vm_compute; reflexivity). by split.
Defined.

(** The groups of a geometry are disjoint ranges of addresses, one for each group
    number, and every interrupt file lies in the range of its group. *)
Theorem imsic_groups_partition (base gib gis hib uib guests : Z) (g : ImsicGeometry.t) :
  widths_ok gib gis hib uib → u64 base → base mod 4096 = 0 → 0 ≤ guests →
  ImsicGeometry.new base gib gis hib uib guests = Ok g → uib ≤ 32 →
  Z.of_nat (length (group_ranges g)) = 2 ^ gib ∧
  (∀ i j r r' a, group_ranges g !! i = Some r → group_ranges g !! j = Some r' → in_range r a → in_range r' a → i = j) ∧
  (∀ a loc, u64 a → a mod 4096 = 0 → ImsicGeometry.addr_to_location g a = Some loc →
     ∃ r, group_ranges g !! Z.to_nat (group loc) = Some r ∧ in_range r a).
Proof.
  intros Hw Hb Ha Hn Hnew H32. destruct (new_ok _ _ _ _ _ _ _ Hw Hb Ha Hn Hnew) as [Hg Hok].
  split_and!.
  - rewrite group_ranges_eq, length_fmap, length_seq by done. rewrite Hg. cbn. pose proof (Z.pow_nonneg 2 gib). lia.
  - intros i j r r' a [_ ->]%group_lookup [_ ->]%group_lookup Hi Hj; [|done..].
    apply Nat2Z.inj. by eapply group_disjoint.
  - intros a loc Hu Hal Hloc. destruct (address_locate g Hok a loc) as (Hwf & Hv & Hto); [by rewrite Hg|done..|].
    rewrite location_to_addr_eq in Hto by done. injection Hto as <-.
    pose proof Hv as [Hf _]%valid_iff; [|done..]. pose proof Hf as (_ & _ & Hgr).
    exists (group_range g (group loc)). split; [|by apply page_index_in_range].
    apply group_lookup; [done|]. rewrite Z2Nat.id by apply Hgr. split; [apply Hgr|done].
Qed.

Lemma imsic_groups_partition_witness :
  length (group_ranges example_geometry) = 4%nat ∧
  ∃ r, group_ranges example_geometry !! 2%nat = Some r ∧ in_range r 0x2a032000.
Proof.
  destruct (imsic_groups_partition 0x28000000 2 24 4 4 3 example_geometry) as (Hl & _ & Hin);
    [apply example_widths|unfold u64; lia|done|done|apply example_geometry_new|done|].
  split; [lia|]. apply (Hin 0x2a032000 (ImsicLocation.mk 2 3 (ImsicFileId.Guest 1))); [unfold u64; lia|done|].
  vm_compute. reflexivity.
Defined.
