(* ===== verification/PageInfoModel.v ===== *)
(** * Ownership of one page (page-tracking/src/page_info.rs, tlb_version.rs)

    [PageState] and [PageInfo] are the per-page record of the page tracker: the
    life-cycle state of the page, its chain of owners (at most
    [MAX_PAGE_OWNERS]) and its list link.  The theorems state the life cycle:
    which transitions exist, that they keep the record well formed, and that the
    owner chain behaves as a stack. *)
From S2P Require Import Prelude RiscvPages.

(** [page_tracker::Error], re-exported as [PageTrackingError]. *)
Module PageTrackingError.
Inductive t :=
| GuestOverflow
| IdOverflow
| InvalidPage (addr : Z)
| OwnerOverflow
| OwnerUnderflow
| UnownedPage
| HypervisorStatePage
| ReservedPage
| OwnerMismatch
| SharedPage
| PageNotConvertible
| PageNotAssignable
| PageNotUnassignable
| PageNotReclaimable
| PageNotShareable
| PageNotShared
| InvalidStateTransition
| PageNotLocked
| PageLocked
| PageAlreadyLinked
| RefCountOverflow
| RefCountUnderflow.
#[global] Instance eq_dec : EqDecision t.
Proof. solve_decision. Defined.
End PageTrackingError.
Import PageTrackingError(GuestOverflow, IdOverflow, InvalidPage, OwnerOverflow, OwnerUnderflow,
  UnownedPage, HypervisorStatePage, ReservedPage, OwnerMismatch, SharedPage, PageNotConvertible,
  PageNotAssignable, PageNotUnassignable, PageNotReclaimable, PageNotShareable, PageNotShared,
  InvalidStateTransition, PageNotLocked, PageLocked, PageAlreadyLinked, RefCountOverflow,
  RefCountUnderflow).

(** TLB versions are wrapping 64-bit counters compared with [<]. *)
Module TlbVersion.
Definition t := Z.
Definition new : t := 0.
Definition increment (v : t) : t := wrap64 (v + 1).
End TlbVersion.

Module PageState.
Inductive t :=
| Reserved
| Free
| Mapped
| Shared (rc : Z)
| VmState
| HypState
| Converting (v : TlbVersion.t)
| Unassigning (v : TlbVersion.t)
| Converted
| ConvertedLocked.
#[global] Instance eq_dec : EqDecision t.
Proof. unfold TlbVersion.t. solve_decision. Defined.
End PageState.
Import PageState(Reserved, Free, Mapped, Shared, VmState, HypState, Converting, Unassigning,
  Converted, ConvertedLocked).

Module PageInfo.
Definition MAX_PAGE_OWNERS : nat := 2.

(** [owners] is the chain of custody, the current owner last. *)
Record t := mk {
  mem_type : MemType.t;
  state : PageState.t;
  owners : list PageOwnerId.t;
  link_ : option Z
}.
#[global] Instance eq_dec : EqDecision t.
Proof. unfold PageOwnerId.t. solve_decision. Defined.

Abbreviation error := PageTrackingError.t.

Definition new : t := mk MemType.Ram Free [] None.
Definition new_hypervisor_owned : t := mk MemType.Ram ConvertedLocked [] None.
Definition new_reserved : t := mk MemType.Ram Reserved [] None.
Definition new_mmio (dev_type : DeviceMemType.t) : t :=
  mk (MemType.Mmio dev_type) ConvertedLocked [] None.

Definition set_state (s : PageState.t) (p : t) : t := mk (mem_type p) s (owners p) (link_ p).
Definition set_owners (o : list PageOwnerId.t) (p : t) : t := mk (mem_type p) (state p) o (link_ p).
Definition set_link (l : option Z) (p : t) : t := mk (mem_type p) (state p) (owners p) l.

Definition owner (p : t) : option PageOwnerId.t :=
  match state p with
  | Converting _ | Unassigning _ | Converted | ConvertedLocked | Mapped | VmState | Shared _ =>
      match owners p !! (length (owners p) - 1)%nat with
      | Some o => Some o
      | None => Some PageOwnerId.hypervisor
      end
  | _ => None
  end.

Definition is_free (p : t) : bool := match state p with Free => true | _ => false end.
Definition is_reserved (p : t) : bool := match state p with Reserved => true | _ => false end.

(** [ArrayVec::pop]. *)
Definition pop (l : list PageOwnerId.t) : list PageOwnerId.t := take (length l - 1) l.
Arguments pop : simpl never.

Definition release (p : t) : result error t :=
  match state p with
  | Mapped | VmState | Converted | Converting _ | Unassigning _ =>
      match owners p with
      | [] => Err OwnerUnderflow
      | _ => Ok (set_state Converted (set_owners (pop (owners p)) p))
      end
  | ConvertedLocked => Err PageLocked
  | Shared rc =>
      match checked_sub rc 1 with
      | Some rc => Ok (set_state (if rc =? 0 then Mapped else Shared rc) p)
      | None => Err RefCountUnderflow
      end
  | HypState => Err HypervisorStatePage
  | Reserved => Err ReservedPage
  | Free => Err UnownedPage
  end.

(** [push] on a full [ArrayVec] panics, [try_push] reports the overflow. *)
Definition assign (o : PageOwnerId.t) (new_state : PageState.t) (p : t) : outcome (result error t) :=
  match state p with
  | Free =>
      match new_state with
      | ConvertedLocked | HypState =>
          os ← (if o =? PageOwnerId.hypervisor then Returns (owners p)
                else push_cap MAX_PAGE_OWNERS o (owners p));
          Returns (Ok (set_state new_state (set_owners os p)))
      | _ => Returns (Err InvalidStateTransition)
      end
  | Converted => Returns (Err PageNotLocked)
  | ConvertedLocked =>
      match new_state with
      | Mapped | VmState =>
          if decide (length (owners p) < MAX_PAGE_OWNERS)%nat
          then Returns (Ok (set_state new_state (set_owners (owners p ++ [o]) p)))
          else Returns (Err OwnerOverflow)
      | _ => Returns (Err InvalidStateTransition)
      end
  | _ => Returns (Err PageNotAssignable)
  end.

Definition begin_conversion (v : TlbVersion.t) (p : t) : result error t :=
  match state p with
  | Mapped => Ok (set_state (Converting v) p)
  | _ => Err PageNotConvertible
  end.

Definition complete_conversion (v : TlbVersion.t) (p : t) : result error t :=
  match state p with
  | Converting version =>
      if version <? v then Ok (set_state Converted p) else Err PageNotConvertible
  | _ => Err PageNotConvertible
  end.

Definition is_convertible (v : TlbVersion.t) (p : t) : bool :=
  match state p with Converting version => version <? v | _ => false end.

Definition begin_unassignment (v : TlbVersion.t) (p : t) : result error t :=
  match state p with
  | Mapped => Ok (set_state (Unassigning v) p)
  | _ => Err PageNotUnassignable
  end.

Definition complete_unassignment (v : TlbVersion.t) (p : t) : result error t :=
  match state p with
  | Unassigning version =>
      if version <? v then
        match owners p with
        | [] => Err OwnerUnderflow
        | _ => Ok (set_state Converted (set_owners (pop (owners p)) p))
        end
      else Err PageNotUnassignable
  | _ => Err PageNotUnassignable
  end.

Definition is_unassignable (v : TlbVersion.t) (p : t) : bool :=
  match state p with Unassigning version => version <? v | _ => false end.

Definition is_shareable (p : t) : bool :=
  match state p with
  | Shared rc => if rc =? U64_MAX then false else true
  | Mapped => true
  | _ => false
  end.

Definition is_shared (p : t) : bool := match state p with Shared _ => true | _ => false end.

Definition lock_for_assignment (p : t) : result error t :=
  match state p with
  | Converted => Ok (set_state ConvertedLocked p)
  | ConvertedLocked => Err PageLocked
  | _ => Err PageNotAssignable
  end.

Definition unlock (p : t) : result error t :=
  match state p with
  | ConvertedLocked => Ok (set_state Converted p)
  | _ => Err PageNotLocked
  end.

Definition share (p : t) : result error t :=
  match state p with
  | Mapped => Ok (set_state (Shared 1) p)
  | Shared rc =>
      match checked_add rc 1 with
      | Some rc => Ok (set_state (Shared rc) p)
      | None => Err RefCountOverflow
      end
  | _ => Err PageNotShareable
  end.

Definition reclaim (p : t) : result error t :=
  match state p with
  | ConvertedLocked => Ok (set_state Mapped p)
  | _ => Err PageNotReclaimable
  end.

(** [NonZeroU64::new(next.bits())] rejects the page at address 0. *)
Definition link (next : Z) (p : t) : result error t :=
  match link_ p with
  | Some _ => Err PageAlreadyLinked
  | None => if next =? 0 then Err (InvalidPage next) else Ok (set_link (Some next) p)
  end.

Definition unlink (p : t) : t := set_link None p.
Definition next (p : t) : option Z := n ← link_ p; PageAddr.new n.
End PageInfo.

(** ** The life cycle of a page *)
Inductive page_op :=
| OpRelease
| OpAssign (o : PageOwnerId.t) (s : PageState.t)
| OpBeginConversion (v : TlbVersion.t)
| OpCompleteConversion (v : TlbVersion.t)
| OpBeginUnassignment (v : TlbVersion.t)
| OpCompleteUnassignment (v : TlbVersion.t)
| OpLock
| OpUnlock
| OpShare
| OpReclaim
| OpLink (next : Z)
| OpUnlink.

Definition apply_op (op : page_op) (p : PageInfo.t) : outcome (result PageTrackingError.t PageInfo.t) :=
  match op with
  | OpRelease => Returns (PageInfo.release p)
  | OpAssign o s => PageInfo.assign o s p
  | OpBeginConversion v => Returns (PageInfo.begin_conversion v p)
  | OpCompleteConversion v => Returns (PageInfo.complete_conversion v p)
  | OpBeginUnassignment v => Returns (PageInfo.begin_unassignment v p)
  | OpCompleteUnassignment v => Returns (PageInfo.complete_unassignment v p)
  | OpLock => Returns (PageInfo.lock_for_assignment p)
  | OpUnlock => Returns (PageInfo.unlock p)
  | OpShare => Returns (PageInfo.share p)
  | OpReclaim => Returns (PageInfo.reclaim p)
  | OpLink n => Returns (PageInfo.link n p)
  | OpUnlink => Returns (Ok (PageInfo.unlink p))
  end.

(** Sequences of operations that all succeed. *)
Inductive page_steps (p : PageInfo.t) : list page_op → PageInfo.t → Prop :=
| steps_refl : page_steps p [] p
| steps_snoc ops q op r :
    page_steps p ops q → apply_op op q = Returns (Ok r) → page_steps p (ops ++ [op]) r.

(** Reference counts are positive and untouched pages have no owner. *)
Definition state_wf (s : PageState.t) (os : list PageOwnerId.t) : Prop :=
  match s with
  | Shared rc => 1 ≤ rc < U64
  | Free | Reserved => os = []
  | _ => True
  end.

Definition page_info_wf (p : PageInfo.t) : Prop :=
  (length (PageInfo.owners p) ≤ PageInfo.MAX_PAGE_OWNERS)%nat ∧
  (∀ a, PageInfo.link_ p = Some a → a ≠ 0) ∧
  state_wf (PageInfo.state p) (PageInfo.owners p).

Lemma length_pop l : length (PageInfo.pop l) = (length l - 1)%nat.
Proof. unfold PageInfo.pop. rewrite length_take. lia. Qed.

Lemma pop_snoc l o : PageInfo.pop (l ++ [o]) = l.
Proof.
  unfold PageInfo.pop. rewrite length_app. cbn. rewrite Nat.add_sub. apply take_app_length.
Qed.

Lemma nonempty_snoc {A} (l : list A) : l ≠ [] → ∃ l' x, l = l' ++ [x].
Proof. induction l as [|x l _] using rev_ind; [done|]. by exists l, x. Qed.

(** The states in which [release] pops the current owner. *)
Definition releasable (s : PageState.t) : Prop :=
  match s with Mapped | VmState | Converted | Converting _ | Unassigning _ => True | _ => False end.

(** The life cycle as an abstract state machine on the state and the owner
    chain; the last owner of the chain is the current one. *)
Inductive lifecycle : page_op → PageState.t → list PageOwnerId.t → PageState.t → list PageOwnerId.t → Prop :=
| lc_release s os o : releasable s → lifecycle OpRelease s (os ++ [o]) Converted os
| lc_unshare_last os : lifecycle OpRelease (Shared 1) os Mapped os
| lc_unshare rc os : 1 < rc → lifecycle OpRelease (Shared rc) os (Shared (rc - 1)) os
| lc_take_free s os :
    s = ConvertedLocked ∨ s = HypState →
    lifecycle (OpAssign PageOwnerId.hypervisor s) Free os s os
| lc_give_free o s os :
    s = ConvertedLocked ∨ s = HypState → o ≠ PageOwnerId.hypervisor →
    lifecycle (OpAssign o s) Free os s (os ++ [o])
| lc_assign o s os :
    s = Mapped ∨ s = VmState → (length os < PageInfo.MAX_PAGE_OWNERS)%nat →
    lifecycle (OpAssign o s) ConvertedLocked os s (os ++ [o])
| lc_begin_conversion v os : lifecycle (OpBeginConversion v) Mapped os (Converting v) os
| lc_complete_conversion v v' os :
    v < v' → lifecycle (OpCompleteConversion v') (Converting v) os Converted os
| lc_begin_unassignment v os : lifecycle (OpBeginUnassignment v) Mapped os (Unassigning v) os
| lc_complete_unassignment v v' os o :
    v < v' → lifecycle (OpCompleteUnassignment v') (Unassigning v) (os ++ [o]) Converted os
| lc_lock os : lifecycle OpLock Converted os ConvertedLocked os
| lc_unlock os : lifecycle OpUnlock ConvertedLocked os Converted os
| lc_share_first os : lifecycle OpShare Mapped os (Shared 1) os
| lc_share rc os : rc + 1 < U64 → lifecycle OpShare (Shared rc) os (Shared (rc + 1)) os
| lc_reclaim os : lifecycle OpReclaim ConvertedLocked os Mapped os
| lc_link n s os : n ≠ 0 → lifecycle (OpLink n) s os s os
| lc_unlink s os : lifecycle OpUnlink s os s os.
#[export] Hint Constructors lifecycle : salus.

(** Case analysis on an operation of a page. *)
Ltac page_cases :=
  unfold PageInfo.release, PageInfo.assign, PageInfo.begin_conversion,
    PageInfo.complete_conversion, PageInfo.begin_unassignment, PageInfo.complete_unassignment,
    PageInfo.lock_for_assignment, PageInfo.unlock, PageInfo.share, PageInfo.reclaim,
    PageInfo.link, PageInfo.unlink, push_cap, checked_add, checked_sub, mbind, outcome_bind in *;
  repeat (case_match; simplify_eq/=).

Ltac bool_hyps :=
  repeat match goal with
  | H : (_ <? _) = true |- _ => apply Z.ltb_lt in H
  | H : (_ <? _) = false |- _ => apply Z.ltb_ge in H
  | H : (_ <=? _) = true |- _ => apply Z.leb_le in H
  | H : (_ <=? _) = false |- _ => apply Z.leb_gt in H
  | H : (_ =? _) = true |- _ => apply Z.eqb_eq in H
  | H : (_ =? _) = false |- _ => apply Z.eqb_neq in H
  end.

Lemma apply_op_sound op p q :
  page_info_wf p → apply_op op p = Returns (Ok q) →
  lifecycle op (PageInfo.state p) (PageInfo.owners p) (PageInfo.state q) (PageInfo.owners q) ∧
  PageInfo.mem_type q = PageInfo.mem_type p.
Proof.
  intros (Ho & Hl & Hs) Happ. destruct p as [mt st os lk].
  assert (Hpop : ∀ t l, os = t :: l → ∃ os' o, os = os' ++ [o] ∧ PageInfo.pop os = os').
  { intros t l ->. destruct (nonempty_snoc (t :: l)) as (os' & o & E); [done|].
    exists os', o. rewrite E. split; [done|]. apply pop_snoc. }
  destruct op; cbn in *; page_cases; bool_hyps; simplify_eq/=; (split; [|done]);
    try (edestruct Hpop as (os' & o' & E1 & E2); [reflexivity|]; rewrite E2; rewrite E1;
         by constructor);
    auto with salus; try (constructor; (done || lia)).
  replace rc with 1 by lia. constructor.
Qed.

Lemma apply_op_complete op p s' os' :
  page_info_wf p → (∀ n, op = OpLink n → PageInfo.link_ p = None) →
  lifecycle op (PageInfo.state p) (PageInfo.owners p) s' os' →
  ∃ q, apply_op op p = Returns (Ok q) ∧ PageInfo.state q = s' ∧ PageInfo.owners q = os'.
Proof.
  intros (Ho & Hl & Hs) Hlink Hlc. unfold state_wf in Hs. destruct p as [mt st os lk]; cbn in *.
  assert (Hpop : ∀ os o, ∃ x l, os ++ [o] = x :: l ∧ PageInfo.pop (x :: l) = os).
  { intros os0 o. destruct (os0 ++ [o]) as [|x l] eqn:E; [by destruct os0|].
    exists x, l. split; [done|]. rewrite <-E. apply pop_snoc. }
  inversion Hlc; subst; cbn; try (specialize (Hlink _ eq_refl)); subst;
  unfold PageInfo.release, PageInfo.complete_unassignment, PageInfo.complete_conversion,
    PageInfo.assign, PageInfo.share, PageInfo.link, checked_sub, checked_add, push_cap; cbn;
  try match goal with |- context [?a ++ [?b]] =>
    destruct (Hpop a b) as (x & l & E1 & E2); rewrite E1 in * end;
  repeat match goal with
  | H : _ ∨ _ |- _ => destruct H; subst
  | H : releasable ?s |- _ => is_var s; destruct s; try done; clear H
  | |- context [?a <? ?b] => rewrite (proj2 (Z.ltb_lt a b)) by lia
  | |- context [?a <=? ?b] => rewrite (proj2 (Z.leb_le a b)) by lia
  | |- context [?a =? ?b] => rewrite (proj2 (Z.eqb_neq a b)) by (done || lia)
  | |- context [decide (?P)] => rewrite (decide_True (P := P)) by (subst; cbn in *; unfold PageInfo.MAX_PAGE_OWNERS in *; lia)
  end; cbn;
  try (eexists; split; [reflexivity|by cbn]).
Qed.

Lemma lifecycle_wf op s os s' os' :
  lifecycle op s os s' os' →
  (length os ≤ PageInfo.MAX_PAGE_OWNERS)%nat ∧ state_wf s os →
  (length os' ≤ PageInfo.MAX_PAGE_OWNERS)%nat ∧ state_wf s' os'.
Proof.
  intros Hlc [Hl Hs]. destruct Hlc; cbn in *; subst; rewrite ?length_app in *; cbn in *;
    repeat match goal with H : _ ∨ _ |- _ => destruct H; subst end;
    (split; [unfold PageInfo.MAX_PAGE_OWNERS in *; cbn in *; lia|]); cbn; try done; lia.
Qed.

Lemma apply_op_wf op p q :
  page_info_wf p → apply_op op p = Returns (Ok q) → page_info_wf q.
Proof.
  intros Hwf Happ. destruct (apply_op_sound op p q Hwf Happ) as [Hlc _].
  destruct Hwf as (Ho & Hl & Hs).
  destruct (lifecycle_wf _ _ _ _ _ Hlc (conj Ho Hs)) as [Ho' Hs']. split_and!; [done| |done].
  destruct op; cbn in Happ; page_cases; bool_hyps; intros a Ha; cbn in *; simplify_eq; eauto.
Qed.

Lemma page_steps_wf p ops q : page_info_wf p → page_steps p ops q → page_info_wf q.
Proof. intros Hwf. induction 1; eauto using apply_op_wf. Qed.

(** What is known of a page that was in use with a chain of [n] owners, given
    the versions [B] at which a conversion was begun and whether some conversion
    was completed at a newer version than it was begun at ([F]). *)
Definition custody (n : nat) (B : TlbVersion.t → Prop) (F : Prop)
    (s : PageState.t) (os : list PageOwnerId.t) : Prop :=
  s ≠ Free ∧
  ((n < length os)%nat → F) ∧
  (length os = n → s = Converted ∨ s = ConvertedLocked → F) ∧
  (length os = n → ∀ v, s = Converting v → B v).

Lemma custody_mono n (B B' : TlbVersion.t → Prop) (F F' : Prop) s os :
  (∀ v, B v → B' v) → (F → F') → custody n B F s os → custody n B' F' s os.
Proof. unfold custody. intros HB HF (H1 & H2 & H3 & H4). split_and!; eauto. Qed.

Lemma custody_step n B F op s os s' os' :
  lifecycle op s os s' os' → custody n B F s os →
  custody n (λ v, B v ∨ op = OpBeginConversion v)
    (F ∨ ∃ v v', op = OpCompleteConversion v' ∧ B v ∧ v < v') s' os'.
Proof.
  intros Hlc (Hf & Hgt & Hconv & Hbeg).
  assert (Hsame : length os' = length os → s' = s →
    custody n (λ v, B v ∨ op = OpBeginConversion v)
      (F ∨ ∃ v v', op = OpCompleteConversion v' ∧ B v ∧ v < v') s' os').
  { intros Hl ->. unfold custody. rewrite Hl. split_and!; eauto. }
  destruct Hlc; try (by apply Hsame); unfold custody in *; rewrite ?length_app in *; cbn in *;
    repeat match goal with H : _ ∨ _ |- _ => destruct H; subst end; try done;
    (split_and!; [done|..]); intros;
    repeat match goal with H : _ ∨ _ |- _ => destruct H end; simplify_eq;
    try (left; first [apply Hgt; lia | apply Hconv; [lia|by auto]
      | destruct (decide (n < length os)%nat); [by apply Hgt|apply Hconv; [lia|by auto]]]).
  - by right.
  - right. eauto 6.
Qed.

Lemma custody_init n B F s os :
  length os = n → s ∉ [Free; Converted; ConvertedLocked] → (∀ v, s ≠ Converting v) →
  custody n B F s os.
Proof. intros Hl Hs Hc. unfold custody. split_and!; [set_solver|lia|set_solver|naive_solver]. Qed.

(** [ops] starts a conversion at some TLB version and later completes it at a
    strictly newer one. *)
Definition fenced_conversion (ops : list page_op) : Prop :=
  ∃ a v b v' c, ops = a ++ OpBeginConversion v :: b ++ OpCompleteConversion v' :: c ∧ v < v'.

Lemma custody_steps p ops q :
  page_info_wf p → page_steps p ops q →
  PageInfo.state p ∉ [Free; Converted; ConvertedLocked] →
  (∀ v, PageInfo.state p ≠ Converting v) →
  custody (length (PageInfo.owners p)) (λ v, ∃ a b, ops = a ++ OpBeginConversion v :: b)
    (fenced_conversion ops) (PageInfo.state q) (PageInfo.owners q).
Proof.
  intros Hwf Hsteps Hst Hcv. induction Hsteps as [|ops q op r Hsteps IH Happ].
  { by apply custody_init. }
  eapply custody_mono; [..|eapply custody_step; [|exact IH]].
  - intros v [(a & b & ->)| ->]; [|by exists ops, []]. exists a, (b ++ [op]). by rewrite <-app_assoc.
  - intros [(a & v & b & v' & c & -> & Hv)|(v & v' & -> & (a & b & ->) & Hv)].
    + exists a, v, b, v', (c ++ [op]). split; [|done]. by rewrite <-!app_assoc, app_comm_cons, <-app_assoc.
    + exists a, v, b, v', []. split; [|done]. by rewrite <-app_assoc.
  - apply apply_op_sound; [by eapply page_steps_wf|done].
Qed.

(** ** Properties *)

(** C11: The page operations implement the life-cycle state machine: on a
    well-formed page an operation succeeds exactly when the state machine has a
    transition for it, with that result, and none of them panics.  Linking in
    addition needs an unlinked page. *)
Theorem page_ops_refine_lifecycle (op : page_op) (p : PageInfo.t) :
  page_info_wf p → (∀ n, op = OpLink n → PageInfo.link_ p = None) →
  apply_op op p ≠ Panics ∧
  ∀ s os, (∃ q, apply_op op p = Returns (Ok q) ∧ PageInfo.state q = s ∧ PageInfo.owners q = os) ↔
    lifecycle op (PageInfo.state p) (PageInfo.owners p) s os.
Proof.
  intros Hwf Hlink. split.
  - intros Hp. destruct op; try done. cbn in Hp. destruct Hwf as (_ & _ & Hs).
    destruct p as [mt st os lk]. unfold state_wf in Hs. cbn in *.
    page_cases; try done; rewrite Hs in *; unfold PageInfo.MAX_PAGE_OWNERS in *; cbn in *; lia.
  - intros s' os'. split; [|by apply apply_op_complete].
    intros (q & Happ & <- & <-). by apply apply_op_sound.
Qed.

Definition example_page : PageInfo.t :=
  PageInfo.mk MemType.Ram ConvertedLocked [PageOwnerId.host] None.

Lemma page_ops_refine_lifecycle_witness :
  apply_op (OpAssign 7 Mapped) example_page ≠ Panics ∧
  ∀ s os, (∃ q, apply_op (OpAssign 7 Mapped) example_page = Returns (Ok q) ∧
      PageInfo.state q = s ∧ PageInfo.owners q = os) ↔
    lifecycle (OpAssign 7 Mapped) ConvertedLocked [PageOwnerId.host] s os.
Proof.
  apply (page_ops_refine_lifecycle (OpAssign 7 Mapped) example_page); [|done].
  split_and!; [cbn; unfold PageInfo.MAX_PAGE_OWNERS; lia|done|done].
Defined.

(** Chain of custody: a page that is in use by its current owner (not free,
    not converted or converting) can only end up with a longer owner chain, that
    is, in the hands of a child of that owner, after a conversion was begun at
    some TLB version and completed at a strictly newer one. *)
Theorem reassignment_needs_fenced_conversion (p q : PageInfo.t) (ops : list page_op) :
  page_info_wf p → page_steps p ops q →
  PageInfo.state p ∉ [Free; Converted; ConvertedLocked] →
  (∀ v, PageInfo.state p ≠ Converting v) →
  (length (PageInfo.owners p) < length (PageInfo.owners q))%nat →
  fenced_conversion ops.
Proof. intros Hwf Hs H1 H2 Hlen. destruct (custody_steps p ops q Hwf Hs H1 H2) as (_ & Hgt & _). auto. Qed.

Lemma reassignment_needs_fenced_conversion_witness :
  fenced_conversion ([] ++ [OpBeginConversion 3] ++ [OpCompleteConversion 4] ++ [OpLock] ++
    [OpAssign 7 Mapped]).
Proof.
  apply (reassignment_needs_fenced_conversion
    (PageInfo.mk MemType.Ram Mapped [PageOwnerId.host] None)
    (PageInfo.mk MemType.Ram Mapped [PageOwnerId.host; 7] None)).
  - split_and!; [cbn; unfold PageInfo.MAX_PAGE_OWNERS; lia|done|done].
  - rewrite !app_assoc. eapply steps_snoc; [eapply steps_snoc; [eapply steps_snoc; [eapply steps_snoc;
      [constructor|]|]|]|]; reflexivity.
  - cbn. set_solver.
  - done.
  - cbn. lia.
Defined.

(** Releasing undoes assigning and sharing: an assigned page goes back to the
    previous owner chain in state [Converted], a shared page to exactly what it
    was before. *)
Theorem release_undoes (p q : PageInfo.t) :
  page_info_wf p →
  (∀ o s, PageInfo.state p = ConvertedLocked → PageInfo.assign o s p = Returns (Ok q) →
    PageInfo.owner q = Some o ∧ PageInfo.release q = Ok (PageInfo.set_state Converted p)) ∧
  (PageInfo.share p = Ok q → PageInfo.owner q = PageInfo.owner p ∧ PageInfo.release q = Ok p).
Proof.
  intros (_ & _ & Hs). destruct p as [mt st os lk]. unfold state_wf in Hs. cbn in *. split.
  - intros o s ->. unfold PageInfo.assign. cbn.
    destruct s; try done; (case_decide; [|done]); intros [= <-]; unfold PageInfo.owner, PageInfo.release; cbn;
      rewrite length_app, Nat.add_sub, list_lookup_middle by done; (split; [done|]);
      (destruct (os ++ [o]) eqn:E; [by destruct os|]); rewrite <-E, pop_snoc; done.
  - unfold PageInfo.share. cbn. destruct st; try done; cbn in *.
    + intros [= <-]. done.
    + unfold checked_add. destruct (rc + 1 <? _); [|done]. intros [= <-]. split; [done|].
      unfold PageInfo.release, checked_sub. cbn. rewrite (proj2 (Z.leb_le _ _)) by lia.
      replace (rc + 1 - 1) with rc by lia. rewrite (proj2 (Z.eqb_neq _ _)) by lia. done.
Qed.

Lemma release_undoes_witness :
  PageInfo.owner (PageInfo.mk MemType.Ram Mapped [PageOwnerId.host; 7] None) = Some 7.
Proof.
  apply (release_undoes example_page) with (s := Mapped);
    [split_and!; [cbn; unfold PageInfo.MAX_PAGE_OWNERS; lia|done|done]|done|reflexivity].
Defined.
