(* ===== verification/PageMapModel.v ===== *)
(** * The system page map (page-tracking/src/page_info.rs from [PageMap] on)

    [PageMap] holds one [PageInfo] per page of the hardware
    memory map; a sparse map turns page frame numbers into indices.  The
    theorems show that the map built from a memory map types every page as the
    memory map does, that looking up and updating pages behaves like a finite
    map, and that the iterator visits the pages in address order. *)
From S2P Require Import Prelude Intervals RiscvPages MemMap PageInfoModel.
Import PageSize(Size4k).
Import PageState(Reserved, Free, Mapped, Shared, VmState, HypState, Converting, Unassigning,
  Converted, ConvertedLocked).

(** [start.iter_from().take_while(|&a| a != end)]: the addresses before [end_].
    The iterator makes at most [(end_ - start) / 4096] steps before it meets an
    aligned [end_ >= start], which bounds the fuel. *)
Fixpoint take_while_ne (it : PageAddrIter.t) (end_ : Z) (fuel : nat) : list Z :=
  match fuel with
  | O => []
  | S k => match PageAddrIter.next it with
           | (Some a, it') => if a =? end_ then [] else a :: take_while_ne it' end_ k
           | (None, _) => []
           end
  end.
Definition iter_until (start end_ : Z) : outcome (list Z) :=
  it ← unwrap_option (PageAddrIter.new start Size4k);
  Returns (take_while_ne it end_ (S (Z.to_nat ((end_ - start) / 4096)))).

Module SparseMapEntry.
Record t := mk { base_pfn : Z; num_pages : Z; page_map_index : Z }.
#[global] Instance eq_dec : EqDecision t.
Proof. solve_decision. Defined.
End SparseMapEntry.
Import SparseMapEntry(base_pfn, num_pages, page_map_index).

Module PageMap.
Definition MAX_SPARSE_MAP_ENTRIES : nat := 16.

(** [capacity] is the room of the backing [RawPageVec]. *)
Record t := mk {
  pages : list PageInfo.t;
  capacity : Z;
  sparse_map : list SparseMapEntry.t
}.

Definition new (cap : Z) : t := mk [] cap [].

(** [RawPageVec::push] panics when the backing pages are full. *)
Definition push_page (p : PageInfo.t) (pm : t) : outcome t :=
  if Z.of_nat (length (pages pm)) <? capacity pm
  then Returns (mk (pages pm ++ [p]) (capacity pm) (sparse_map pm)) else Panics.
Definition push_entry (e : SparseMapEntry.t) (pm : t) : outcome t :=
  es ← push_cap MAX_SPARSE_MAP_ENTRIES e (sparse_map pm);
  Returns (mk (pages pm) (capacity pm) es).

(** The [PageInfo] of the pages of a region. *)
Definition region_page_info (rt : HwMemRegionType.t) : PageInfo.t :=
  match rt with
  | HwMemRegionType.Available => PageInfo.new
  | HwMemRegionType.Reserved HwReservedMemType.HostKernelImage
  | HwMemRegionType.Reserved HwReservedMemType.HostInitramfsImage =>
      PageInfo.new_hypervisor_owned
  | HwMemRegionType.Mmio d => PageInfo.new_mmio d
  | _ => PageInfo.new_reserved
  end.

(** The inner loop: one [PageInfo] per page address of the region. *)
Fixpoint populate_pages (rt : HwMemRegionType.t) (addrs : list Z) (cur : SparseMapEntry.t) (pm : t)
    : outcome (SparseMapEntry.t * t) :=
  match addrs with
  | [] => Returns (cur, pm)
  | _ :: rest =>
      pm ← push_page (region_page_info rt) pm;
      populate_pages rt rest
        (SparseMapEntry.mk (base_pfn cur) (wrap64 (num_pages cur + 1)) (page_map_index cur)) pm
  end.

(** One iteration of the loop over the regions. *)
Definition populate_region (r : HwMemRegion.t) (cur : SparseMapEntry.t) (pm : t)
    : outcome (SparseMapEntry.t * t) :=
  let base := HwMemRegion.base r in
  '(cur, pm) ←
    (if wrap64 (base_pfn cur + num_pages cur) =? PageAddr.index base then Returns (cur, pm)
     else
       pm ← push_entry cur pm;
       Returns (SparseMapEntry.mk (PageAddr.index base) 0
                  (wrap64 (page_map_index cur + num_pages cur)), pm));
  e ← HwMemRegion.end_ r;
  addrs ← iter_until base e;
  '(cur, pm) ← populate_pages (HwMemRegion.region_type r) addrs cur pm;
  match checked_add (base_pfn cur) (num_pages cur) with
  | Some _ => Returns (cur, pm)
  | None => Panics
  end.

Fixpoint populate_regions (rs : list HwMemRegion.t) (cur : SparseMapEntry.t) (pm : t)
    : outcome (SparseMapEntry.t * t) :=
  match rs with
  | [] => Returns (cur, pm)
  | r :: rest =>
      '(cur, pm) ← populate_region r cur pm;
      populate_regions rest cur pm
  end.

Definition populate_from (mem_map : HwMemMap.t) (pm : t) : outcome t :=
  first ← unwrap_option (HwMemMap.regions mem_map !! 0%nat);
  '(cur, pm) ← populate_regions (HwMemMap.regions mem_map)
    (SparseMapEntry.mk (PageAddr.index (HwMemRegion.base first)) 0 0) pm;
  push_entry cur pm.

(** [build_from]; [info_size] is [core::mem::size_of::<PageInfo>()]. *)
Definition build_from (info_size : Z) (mem_map : HwMemMap.t) : outcome (t * HwMemMap.t) :=
  let total_pages :=
    foldl (λ n r, wrap64 (n + HwMemRegion.size r / PageSize.bytes Size4k)) 0
      (HwMemMap.regions mem_map) in
  let page_map_size := PageSize.round_up Size4k (wrap64 (total_pages * info_size)) in
  let page_map_pages := page_map_size / PageSize.bytes Size4k in
  region ← unwrap_option (List.find (λ r,
    bool_decide (HwMemRegion.region_type r = HwMemRegionType.Available) &&
    (page_map_size <=? HwMemRegion.size r)) (HwMemMap.regions mem_map));
  seq ← unwrap_option
    (SequentialPages.from_mem_range (HwMemRegion.base region) Size4k page_map_pages);
  match HwMemMap.reserve_region HwReservedMemType.PageMap (HwMemRegion.base region)
          page_map_size mem_map with
  | Returns (Ok _, mem_map) =>
      pm ← populate_from mem_map (new (SequentialPages.length_bytes seq / info_size));
      Returns (pm, mem_map)
  | _ => Panics
  end.

Definition holds_pfn (pfn : Z) (s : SparseMapEntry.t) : bool :=
  (base_pfn s <=? pfn) && (pfn <? wrap64 (base_pfn s + num_pages s)).

Definition get_map_index (pm : t) (addr : Z) : option Z :=
  entry ← List.find (holds_pfn (PageAddr.index addr)) (sparse_map pm);
  Some (wrap64 (page_map_index entry + PageAddr.index addr - base_pfn entry)).

Definition get (pm : t) (addr : Z) : option PageInfo.t :=
  index ← get_map_index pm addr;
  pages pm !! Z.to_nat index.

(** Writing through the reference that [get_mut] returns. *)
Definition set (addr : Z) (p : PageInfo.t) (pm : t) : t :=
  match get_map_index pm addr with
  | Some index => mk (<[Z.to_nat index := p]> (pages pm)) (capacity pm) (sparse_map pm)
  | None => pm
  end.

Arguments get_map_index : simpl never.

Definition num_after (pm : t) (addr : Z) : option Z :=
  index ← get_map_index pm addr;
  checked_sub (Z.of_nat (length (pages pm))) index.
End PageMap.

Module PageMapIter.
Record t := mk { cur_sparse_entry : nat; cur_index : Z }.

(** [PageMapIter::new], i.e. [PageMap::iter_from]. *)
Definition new (pm : PageMap.t) (start_addr : Z) : option t :=
  i ← position (PageMap.holds_pfn (PageAddr.index start_addr)) (PageMap.sparse_map pm);
  entry ← PageMap.sparse_map pm !! i;
  Some (mk i (wrap64 (page_map_index entry + PageAddr.index start_addr - base_pfn entry))).

Definition next (pm : PageMap.t) (it : t) : outcome (option (PageInfo.t * Z) * t) :=
  match PageMap.sparse_map pm !! cur_sparse_entry it with
  | None => Returns (None, it)
  | Some entry =>
      page ← unwrap_option (PageMap.pages pm !! Z.to_nat (cur_index it));
      addr ← unwrap_option (PageAddr.from_pfn
        (wrap64 (base_pfn entry + cur_index it - page_map_index entry)) Size4k);
      let ci := wrap64 (cur_index it + 1) in
      let cs := if wrap64 (num_pages entry + page_map_index entry) <=? ci
                then S (cur_sparse_entry it) else cur_sparse_entry it in
      Returns (Some (page, addr), mk cs ci)
  end.

(** [Iterator::find]; every step consumes a page, so [fuel] above the number of
    pages is never exhausted. *)
Fixpoint find (pm : PageMap.t) (p : PageInfo.t → Z → outcome bool) (it : t) (fuel : nat)
    : outcome (option (PageInfo.t * Z)) :=
  match fuel with
  | O => Returns None
  | S k =>
      '(item, it') ← next pm it;
      match item with
      | None => Returns None
      | Some (page, addr) =>
          b ← p page addr;
          if b : bool then Returns (Some (page, addr)) else find pm p it' k
      end
  end.

(** [iter_from(addr).and_then(|mut i| i.find(p)).map(|p| p.addr)]. *)
Definition find_from (pm : PageMap.t) (addr : Z) (p : PageInfo.t → Z → outcome bool)
    : outcome (option Z) :=
  match new pm addr with
  | None => Returns None
  | Some it =>
      r ← find pm p it (S (length (PageMap.pages pm)));
      Returns (option_map snd r)
  end.
End PageMapIter.

(** ** Lookup and update *)

(** Page-aligned physical addresses of the 56-bit physical address space. *)
Definition phys (a : Z) : Prop := 0 ≤ a < 2 ^ 56 ∧ a mod 4096 = 0.

Definition pfn_end (e : SparseMapEntry.t) : Z := base_pfn e + num_pages e.
Definition index_end (e : SparseMapEntry.t) : Z := page_map_index e + num_pages e.

(** Entries are sorted and disjoint, both by frame number and by index, and
    every index they hand out is inside the page vector. *)
Record page_map_wf (pm : PageMap.t) : Prop := {
  pm_pfns : ordered base_pfn pfn_end (PageMap.sparse_map pm);
  pm_indices : ordered page_map_index index_end (PageMap.sparse_map pm);
  pm_bounds : Forall (λ e, 0 ≤ base_pfn e ∧ 0 ≤ num_pages e ∧ pfn_end e ≤ 2 ^ 44 ∧
    0 ≤ page_map_index e ∧ index_end e ≤ Z.of_nat (length (PageMap.pages pm))) (PageMap.sparse_map pm);
  pm_size : Z.of_nat (length (PageMap.pages pm)) < 2 ^ 52
}.

Lemma phys_pfn a : phys a → PageAddr.index a = a / 4096 ∧ a = 4096 * (a / 4096) ∧ 0 ≤ a / 4096 < 2 ^ 44.
Proof.
  intros [Ha Hm]. unfold PageAddr.index. rewrite pfn_small by done. split; [done|]. mod_lia.
Qed.

Lemma find_entry es pfn :
  Forall (λ e, 0 ≤ base_pfn e ∧ 0 ≤ num_pages e ∧ pfn_end e ≤ 2 ^ 44) es →
  List.find (PageMap.holds_pfn pfn) es = find_at base_pfn pfn_end pfn es.
Proof.
  induction 1 as [|e es He Hes IH]; cbn [List.find find_at]; [done|].
  assert (PageMap.holds_pfn pfn e = covers base_pfn pfn_end e pfn) as ->.
  { unfold PageMap.holds_pfn, covers, pfn_end, wrap64 in *. by rewrite Z.mod_small by lia. }
  by rewrite IH.
Qed.

Lemma entry_bounds_weaken pm :
  page_map_wf pm →
  Forall (λ e, 0 ≤ base_pfn e ∧ 0 ≤ num_pages e ∧ pfn_end e ≤ 2 ^ 44) (PageMap.sparse_map pm).
Proof. intros H. eapply list.Forall_impl; [apply (pm_bounds _ H)|]. cbn. tauto. Qed.

Lemma get_map_index_Some pm a i :
  page_map_wf pm → phys a →
  PageMap.get_map_index pm a = Some i ↔
  ∃ e, e ∈ PageMap.sparse_map pm ∧ base_pfn e ≤ a / 4096 < pfn_end e ∧
    i = page_map_index e + (a / 4096 - base_pfn e).
Proof.
  intros Hwf Ha. destruct (phys_pfn a Ha) as (Hp & _ & Hr). unfold PageMap.get_map_index. rewrite Hp.
  rewrite find_entry by by apply entry_bounds_weaken.
  assert (Hi : ∀ e, e ∈ PageMap.sparse_map pm → base_pfn e ≤ a / 4096 < pfn_end e →
    wrap64 (page_map_index e + a / 4096 - base_pfn e) = page_map_index e + (a / 4096 - base_pfn e)).
  { intros e He Hc. pose proof (pm_bounds _ Hwf) as Hb. rewrite list.Forall_forall in Hb.
    specialize (Hb e He). pose proof (pm_size _ Hwf). unfold pfn_end, index_end, wrap64 in *.
    rewrite Z.mod_small by lia. lia. }
  destruct (find_at base_pfn pfn_end (a / 4096) (PageMap.sparse_map pm)) as [e|] eqn:E; cbn.
  - apply find_at_Some in E as [He Hc]; [|apply Hwf]. rewrite Hi by done. split.
    + intros [= <-]. eauto.
    + intros (e' & He' & Hc' & ->). f_equal.
      assert (find_at base_pfn pfn_end (a / 4096) (PageMap.sparse_map pm) = Some e') as E'.
      { apply find_at_Some; [apply Hwf|done]. }
      assert (find_at base_pfn pfn_end (a / 4096) (PageMap.sparse_map pm) = Some e) as E.
      { apply find_at_Some; [apply Hwf|done]. }
      congruence.
  - split; [done|]. intros (e & He & Hc & _). apply find_at_None in E.
    rewrite list.Forall_forall in E. by apply E in He.
Qed.

Lemma get_map_index_bound pm a i :
  page_map_wf pm → phys a → PageMap.get_map_index pm a = Some i →
  0 ≤ i < Z.of_nat (length (PageMap.pages pm)).
Proof.
  intros Hwf Ha (e & He & Hc & ->)%get_map_index_Some; [|done..].
  pose proof (pm_bounds _ Hwf) as Hb. rewrite list.Forall_forall in Hb. specialize (Hb e He).
  unfold pfn_end, index_end in *. lia.
Qed.

(** Ordered intervals that share a point are the same interval. *)
Lemma ordered_unique {R} (lo hi : R → Z) l x e e' :
  ordered lo hi l → e ∈ l → e' ∈ l → lo e ≤ x < hi e → lo e' ≤ x < hi e' → e = e'.
Proof.
  intros Hl He He' Hx Hx'.
  assert (find_at lo hi x l = Some e) by by apply find_at_Some.
  assert (find_at lo hi x l = Some e') by by apply find_at_Some. congruence.
Qed.

Lemma get_map_index_inj pm a b i :
  page_map_wf pm → phys a → phys b →
  PageMap.get_map_index pm a = Some i → PageMap.get_map_index pm b = Some i → a = b.
Proof.
  intros Hwf Ha Hb (e & He & Hc & Hi)%get_map_index_Some (e' & He' & Hc' & Hi')%get_map_index_Some; try done.
  assert (e = e') as <-.
  { eapply (ordered_unique page_map_index index_end _ i); [apply Hwf|done|done|..];
      unfold pfn_end, index_end in *; lia. }
  destruct (phys_pfn a Ha) as (_ & -> & _), (phys_pfn b Hb) as (_ & -> & _). lia.
Qed.

Lemma get_is_Some pm a :
  page_map_wf pm → phys a → is_Some (PageMap.get pm a) ↔ is_Some (PageMap.get_map_index pm a).
Proof.
  intros Hwf Ha. unfold PageMap.get. destruct (PageMap.get_map_index pm a) as [i|] eqn:E; cbn.
  - split; [by eauto|]. intros _. apply lookup_lt_is_Some.
    apply get_map_index_bound in E; [lia|done..].
  - done.
Qed.

Lemma set_index a p pm b : PageMap.get_map_index (PageMap.set a p pm) b = PageMap.get_map_index pm b.
Proof. unfold PageMap.set. by destruct (PageMap.get_map_index pm a). Qed.

(** Updates keep the shape of the map: which pages exist and where. *)
Definition same_shape (pm pm' : PageMap.t) : Prop :=
  PageMap.sparse_map pm' = PageMap.sparse_map pm ∧
  length (PageMap.pages pm') = length (PageMap.pages pm).

#[export] Instance same_shape_equiv : Equivalence same_shape.
Proof.
  split; [by intros pm|intros pm pm' []; by split|].
  intros pm1 pm2 pm3 [] []. unfold same_shape. split; congruence.
Qed.

Lemma set_shape a p pm : same_shape pm (PageMap.set a p pm).
Proof.
  unfold PageMap.set. destruct (PageMap.get_map_index pm a); [|done].
  split; cbn; [done|by rewrite length_insert].
Qed.

#[export] Instance get_map_index_proper : Proper (same_shape ==> eq ==> eq) PageMap.get_map_index.
Proof. intros pm pm' [Hs _] a _ <-. unfold PageMap.get_map_index. by rewrite Hs. Qed.

Lemma same_shape_wf pm pm' : same_shape pm pm' → page_map_wf pm → page_map_wf pm'.
Proof. intros [Hs Hl] []. split; by rewrite ?Hs, ?Hl. Qed.

Lemma set_wf a p pm : page_map_wf pm → page_map_wf (PageMap.set a p pm).
Proof.
  intros []. unfold PageMap.set. destruct (PageMap.get_map_index pm a); [|done].
  split; cbn; rewrite ?length_insert; done.
Qed.

Lemma get_set_eq pm a p q :
  page_map_wf pm → phys a → PageMap.get pm a = Some q → PageMap.get (PageMap.set a p pm) a = Some p.
Proof.
  intros Hwf Ha Hg. unfold PageMap.get in *. rewrite set_index.
  destruct (PageMap.get_map_index pm a) as [i|] eqn:E; [|done]. cbn in *.
  unfold PageMap.set. rewrite E. cbn. apply list_lookup_insert_eq. by eapply lookup_lt_Some.
Qed.

Lemma get_set_ne pm a b p :
  page_map_wf pm → phys a → phys b → a ≠ b →
  PageMap.get (PageMap.set a p pm) b = PageMap.get pm b.
Proof.
  intros Hwf Ha Hb Hne. unfold PageMap.get. rewrite set_index.
  destruct (PageMap.get_map_index pm b) as [j|] eqn:Ej; [|done]. cbn.
  unfold PageMap.set. destruct (PageMap.get_map_index pm a) as [i|] eqn:Ei; [|done]. cbn.
  apply list_lookup_insert_ne. intros Heq. apply Hne.
  pose proof (get_map_index_bound _ _ _ Hwf Ha Ei). pose proof (get_map_index_bound _ _ _ Hwf Hb Ej).
  assert (i = j) as <- by lia. by eapply get_map_index_inj.
Qed.
#[export] Hint Resolve set_wf : salus.

(** ** Ranges of page addresses *)
Lemma take_while_ne_run n a end_ fuel :
  0 ≤ a → a mod 4096 = 0 → end_ = a + Z.of_nat n * 4096 → end_ < U64 → (n < fuel)%nat →
  take_while_ne (PageAddrIter.mk (Some a) Size4k) end_ fuel = page_seq a Size4k n.
Proof.
  revert a fuel. induction n as [|n IH]; intros a fuel Ha Hm He Hb Hf;
    (destruct fuel as [|fuel]; [lia|]); cbn [take_while_ne PageAddrIter.next PageAddrIter.it_next].
  - by rewrite (proj2 (Z.eqb_eq a end_)) by lia.
  - rewrite (proj2 (Z.eqb_neq a end_)) by lia. cbn [page_seq PageAddrIter.increment]. f_equal.
    assert (PageAddr.checked_add_pages_with_size a 1 Size4k = Some (a + 4096)) as ->.
    { apply checked_add_pages_spec; [done|]. cbn [PageSize.bytes]. lia. }
    cbn [PageSize.bytes]. apply IH; [lia|mod_lia|lia|lia|lia].
Qed.

Lemma iter_until_run a n end_ :
  0 ≤ a → a mod 4096 = 0 → end_ = a + Z.of_nat n * 4096 → end_ < U64 →
  iter_until a end_ = Returns (page_seq a Size4k n).
Proof.
  intros Ha Hm He Hb. unfold iter_until, PageAddrIter.new.
  rewrite (proj2 (with_alignment_Some a Size4k a)) by done.
  cbn [mbind option_bind unwrap_option outcome_bind]. f_equal.
  apply take_while_ne_run; try done.
  replace (end_ - a) with (Z.of_nat n * 4096) by lia. rewrite Z.div_mul by lia. lia.
Qed.

(** ** The iterator over the page map

    The iterator walks the page vector by index and translates back to
    addresses; it needs entries without gaps and without empty entries. *)
Record page_map_dense (pm : PageMap.t) : Prop := {
  pd_wf : page_map_wf pm;
  pd_nonempty : Forall (λ e, 0 < num_pages e) (PageMap.sparse_map pm);
  pd_adjacent : ∀ i e e', PageMap.sparse_map pm !! i = Some e →
    PageMap.sparse_map pm !! S i = Some e' → page_map_index e' = index_end e;
  pd_last : ∀ i e, PageMap.sparse_map pm !! i = Some e →
    PageMap.sparse_map pm !! S i = None → index_end e = Z.of_nat (length (PageMap.pages pm))
}.

Lemma set_dense a p pm : page_map_dense pm → page_map_dense (PageMap.set a p pm).
Proof.
  intros [Hwf Hn Ha Hl]. pose proof (set_wf a p pm Hwf) as Hwf'.
  unfold PageMap.set in *. destruct (PageMap.get_map_index pm a); [|done].
  split; cbn in *; rewrite ?length_insert; done.
Qed.
#[export] Hint Resolve set_dense pd_wf : salus.

(** Addresses and indices are ordered alike. *)
Lemma index_mono pm a b i j :
  page_map_wf pm → phys a → phys b →
  PageMap.get_map_index pm a = Some i → PageMap.get_map_index pm b = Some j → a < b ↔ i < j.
Proof.
  intros Hwf Ha Hb (e & He & Hx & ->)%get_map_index_Some (e' & He' & Hx' & ->)%get_map_index_Some; try done.
  destruct (phys_pfn a Ha) as (_ & Hax & _), (phys_pfn b Hb) as (_ & Hbx & _).
  destruct (pm_pfns _ Hwf) as [Hp _], (pm_indices _ Hwf) as [Hi _].
  apply list_elem_of_lookup in He as [k Hk]. apply list_elem_of_lookup in He' as [k' Hk'].
  unfold pfn_end, index_end in *.
  destruct (lt_eq_lt_dec k k') as [[Hlt| ->]|Hgt].
  - specialize (Hp _ _ _ _ Hlt Hk Hk'). specialize (Hi _ _ _ _ Hlt Hk Hk'). lia.
  - rewrite Hk in Hk'. simplify_eq. lia.
  - specialize (Hp _ _ _ _ Hgt Hk' Hk). specialize (Hi _ _ _ _ Hgt Hk' Hk). lia.
Qed.

(** The iterator stands before the page with index [i]. *)
Definition iter_at (pm : PageMap.t) (it : PageMapIter.t) (i : Z) : Prop :=
  PageMapIter.cur_index it = i ∧
  ((∃ e, PageMap.sparse_map pm !! PageMapIter.cur_sparse_entry it = Some e ∧
      page_map_index e ≤ i < index_end e) ∨
   (PageMap.sparse_map pm !! PageMapIter.cur_sparse_entry it = None ∧
      i = Z.of_nat (length (PageMap.pages pm)))).

Lemma iter_new pm a i :
  page_map_dense pm → phys a → PageMap.get_map_index pm a = Some i →
  ∃ it, PageMapIter.new pm a = Some it ∧ iter_at pm it i.
Proof.
  intros [Hwf _ _ _] Ha Hi. unfold PageMapIter.new.
  destruct (position _ _) as [k|] eqn:Hpos.
  - apply position_Some in Hpos as (e & Hk & Hh & _). cbn [mbind option_bind].
    rewrite Hk. cbn [mbind option_bind].
    destruct (phys_pfn a Ha) as (Hidx & _ & _). rewrite Hidx in *.
    apply get_map_index_Some in Hi as (e' & He' & Hx' & ->); [|done..].
    pose proof (pm_bounds _ Hwf) as Hb. rewrite list.Forall_forall in Hb.
    pose proof (Hb e ltac:(by eapply list_elem_of_lookup_2)) as Hbe.
    pose proof (Hb e' He') as Hbe'. pose proof (pm_size _ Hwf).
    unfold PageMap.holds_pfn in Hh. apply andb_true_iff in Hh as [Hh1%Z.leb_le Hh2%Z.ltb_lt].
    unfold wrap64 in Hh2. rewrite Z.mod_small in Hh2 by (unfold pfn_end in *; lia).
    assert (e = e') as <-.
    { eapply (ordered_unique base_pfn pfn_end _ (a / 4096)); [apply Hwf| |done|unfold pfn_end; lia|done].
      by eapply list_elem_of_lookup_2. }
    unfold pfn_end, index_end in *. eexists. split; [reflexivity|]. split.
    + cbn. unfold wrap64. rewrite Z.mod_small by lia. lia.
    + left. exists e. cbn. split; [done|]. unfold index_end. lia.
  - exfalso. apply position_None in Hpos. rewrite list.Forall_forall in Hpos.
    unfold PageMap.get_map_index in Hi.
    destruct (List.find _ _) as [e|] eqn:Hf; [|done].
    apply List.find_some in Hf as [Hin Hh]. apply list_elem_of_In in Hin. apply Hpos in Hin. congruence.
Qed.

Lemma iter_next_spec pm it i :
  page_map_dense pm → iter_at pm it i →
  (i = Z.of_nat (length (PageMap.pages pm)) ∧ PageMapIter.next pm it = Returns (None, it)) ∨
  (∃ a p it', PageMapIter.next pm it = Returns (Some (p, a), it') ∧ phys a ∧
    PageMap.get_map_index pm a = Some i ∧ PageMap.get pm a = Some p ∧ iter_at pm it' (i + 1)).
Proof.
  intros [Hwf Hne Hadj Hlast] [<- [(e & He & Hr)|[Hn Hi]]]; unfold PageMapIter.next.
  2: { left. by rewrite Hn. }
  right. rewrite He. set (i := PageMapIter.cur_index it) in *.
  pose proof (pm_bounds _ Hwf) as Hb. rewrite list.Forall_forall in Hb.
  pose proof (list_elem_of_lookup_2 _ _ _ He) as Hin. specialize (Hb e Hin).
  pose proof (pm_size _ Hwf). unfold pfn_end, index_end in *.
  destruct (PageMap.pages pm !! Z.to_nat i) as [p|] eqn:Hp.
  2: { apply lookup_ge_None in Hp. lia. }
  set (a := 4096 * (base_pfn e + (i - page_map_index e))).
  assert (Ha : phys a) by (unfold phys, a; split; [lia|]; rewrite Z.mul_comm; apply Z.mod_mul; lia).
  assert (Hpf : a / 4096 = base_pfn e + (i - page_map_index e)).
  { unfold a. rewrite Z.mul_comm. apply Z.div_mul. lia. }
  assert (Hidx : PageMap.get_map_index pm a = Some i).
  { apply get_map_index_Some; [done..|]. exists e. rewrite Hpf. unfold pfn_end. split_and!; (done || lia). }
  assert (Hfrom : PageAddr.from_pfn (wrap64 (base_pfn e + i - page_map_index e)) Size4k = Some a).
  { unfold wrap64. rewrite Z.mod_small by lia. apply from_pfn_Some; [lia|].
    split; [unfold a; lia|apply Ha]. }
  cbn [unwrap_option mbind outcome_bind]. rewrite Hfrom. cbn [unwrap_option mbind outcome_bind].
  exists a, p. eexists. split; [reflexivity|]. split_and!; [done..| |].
  { unfold PageMap.get. rewrite Hidx. done. }
  unfold iter_at, wrap64. cbn. rewrite !Z.mod_small by lia. split; [done|].
  destruct (Z.leb_spec (num_pages e + page_map_index e) (i + 1)); [|left; exists e; split; [done|]; unfold index_end; lia].
  destruct (PageMap.sparse_map pm !! S (PageMapIter.cur_sparse_entry it)) as [e'|] eqn:He'.
  - left. exists e'. split; [done|]. rewrite list.Forall_forall in Hne.
    pose proof (Hne e' (list_elem_of_lookup_2 _ _ _ He')). pose proof (Hadj _ _ _ He He').
    unfold index_end in *. lia.
  - right. split; [done|]. pose proof (Hlast _ _ He He'). unfold index_end in *. lia.
Qed.

(** [find] returns the first page that satisfies the predicate. *)
Lemma iter_find_spec pm p f fuel it i :
  page_map_dense pm → iter_at pm it i →
  Z.of_nat (length (PageMap.pages pm)) - i < Z.of_nat fuel →
  (∀ a pi, phys a → PageMap.get pm a = Some pi → p pi a = Returns (f pi a)) →
  ∃ r, PageMapIter.find pm p it fuel = Returns r ∧
  match r with
  | Some (pi, b) => phys b ∧ PageMap.get pm b = Some pi ∧ f pi b = true ∧
      ∃ j, PageMap.get_map_index pm b = Some j ∧ i ≤ j ∧
      ∀ c k pc, phys c → PageMap.get_map_index pm c = Some k → PageMap.get pm c = Some pc →
        i ≤ k < j → f pc c = false
  | None => ∀ c k pc, phys c → PageMap.get_map_index pm c = Some k → PageMap.get pm c = Some pc →
        i ≤ k → f pc c = false
  end.
Proof.
  intros Hd Hit Hfuel Hp. revert it i Hit Hfuel. induction fuel as [|fuel IH]; intros it i Hit Hfuel.
  { exists None. split; [done|]. intros c k pc Hc Hk _ Hik.
    apply get_map_index_bound in Hk; [lia|by apply pd_wf|done]. }
  cbn [PageMapIter.find]. destruct (iter_next_spec pm it i Hd Hit)
    as [[-> ->]|(a & pa & it' & -> & Ha & Hi & Hga & Hit')].
  { cbn. exists None. split; [done|]. intros c k pc Hc Hk _ Hik.
    apply get_map_index_bound in Hk; [lia|by apply pd_wf|done]. }
  cbn [mbind outcome_bind]. rewrite (Hp a pa) by done. cbn [mbind outcome_bind].
  assert (Hinj : ∀ c pc, phys c → PageMap.get_map_index pm c = Some i →
    PageMap.get pm c = Some pc → c = a ∧ pc = pa).
  { intros c pc Hc Hci Hgc. assert (c = a) as -> by (eapply get_map_index_inj; eauto using pd_wf).
    split; [done|congruence]. }
  destruct (f pa a) eqn:Hfa.
  - exists (Some (pa, a)). split; [done|]. split_and!; try done. exists i. split_and!; [done|lia|lia].
  - destruct (IH it' (i + 1) Hit') as (r & -> & Hr); [lia|]. exists r. split; [done|].
    destruct r as [[pb b]|].
    + destruct Hr as (Hb & Hgb & Hfb & j & Hj & Hij & Hbefore). split_and!; try done.
      exists j. split_and!; [done|lia|]. intros c k pc Hc Hk Hgc Hik.
      destruct (decide (k = i)) as [->|]; [|eapply Hbefore; eauto; lia].
      destruct (Hinj c pc) as [-> ->]; done.
    + intros c k pc Hc Hk Hgc Hik.
      destruct (decide (k = i)) as [->|]; [|eapply Hr; eauto; lia].
      destruct (Hinj c pc) as [-> ->]; done.
Qed.

(** The same in terms of addresses. *)
Lemma find_from_spec pm p f start :
  page_map_dense pm → phys start → is_Some (PageMap.get pm start) →
  (∀ a pi, phys a → PageMap.get pm a = Some pi → p pi a = Returns (f pi a)) →
  ∃ r, PageMapIter.find_from pm start p = Returns r ∧
  match r with
  | Some b => phys b ∧ start ≤ b ∧ (∃ pi, PageMap.get pm b = Some pi ∧ f pi b = true) ∧
      ∀ c pc, phys c → PageMap.get pm c = Some pc → start ≤ c < b → f pc c = false
  | None => ∀ c pc, phys c → PageMap.get pm c = Some pc → start ≤ c → f pc c = false
  end.
Proof.
  intros Hd Hs Hsome Hp. pose proof (pd_wf _ Hd) as Hwf.
  apply get_is_Some in Hsome as [i Hi]; [|done..].
  destruct (iter_new pm start i Hd Hs Hi) as (it & Hnew & Hit).
  pose proof (get_map_index_bound _ _ _ Hwf Hs Hi).
  destruct (iter_find_spec pm p f (S (length (PageMap.pages pm))) it i Hd Hit) as (r & Hr & Hpost); [lia|done|].
  unfold PageMapIter.find_from. rewrite Hnew, Hr. cbn [mbind outcome_bind].
  assert (Hidx : ∀ c pc, phys c → PageMap.get pm c = Some pc → ∃ k, PageMap.get_map_index pm c = Some k).
  { intros c pc Hc Hgc. apply get_is_Some; eauto. }
  exists (option_map snd r). split; [done|]. destruct r as [[pb b]|]; cbn.
  - destruct Hpost as (Hb & Hgb & Hfb & j & Hj & Hij & Hbefore).
    pose proof (index_mono pm b start j i Hwf Hb Hs Hj Hi).
    split_and!; [done|lia|eauto|]. intros c pc Hc Hgc Hr'. destruct (Hidx c pc Hc Hgc) as [k Hk].
    pose proof (index_mono pm c start k i Hwf Hc Hs Hk Hi). pose proof (index_mono pm c b k j Hwf Hc Hb Hk Hj).
    eapply Hbefore; eauto; lia.
  - intros c pc Hc Hgc Hr'. destruct (Hidx c pc Hc Hgc) as [k Hk].
    pose proof (index_mono pm c start k i Hwf Hc Hs Hk Hi). eapply Hpost; eauto; lia.
Qed.

(** ** Building the page map from the memory map *)
Lemma populate_pages_spec rt addrs cur pm :
  0 ≤ num_pages cur → num_pages cur + Z.of_nat (length addrs) < U64 →
  Z.of_nat (length (PageMap.pages pm) + length addrs) ≤ PageMap.capacity pm →
  PageMap.populate_pages rt addrs cur pm =
  Returns (SparseMapEntry.mk (base_pfn cur) (num_pages cur + Z.of_nat (length addrs)) (page_map_index cur),
    PageMap.mk (PageMap.pages pm ++ replicate (length addrs) (PageMap.region_page_info rt))
      (PageMap.capacity pm) (PageMap.sparse_map pm)).
Proof.
  revert cur pm. induction addrs as [|a addrs IH]; intros cur pm Hn0 Hn Hc; cbn [PageMap.populate_pages length].
  - rewrite Z.add_0_r, app_nil_r. by destruct cur, pm.
  - unfold PageMap.push_page. rewrite (proj2 (Z.ltb_lt _ _)) by (cbn in Hc; lia).
    cbn [mbind outcome_bind]. unfold wrap64. rewrite Z.mod_small by (cbn in Hn; lia).
    cbn [length] in *. rewrite IH; cbn; [|lia|lia|rewrite length_app; cbn; lia].
    rewrite <-app_assoc. do 2 f_equal. f_equal. lia.
Qed.

(** The map with the entry under construction pushed. *)
Definition close (cur : SparseMapEntry.t) (pm : PageMap.t) : PageMap.t :=
  PageMap.mk (PageMap.pages pm) (PageMap.capacity pm) (PageMap.sparse_map pm ++ [cur]).

(** What the loop knows after the regions [done]. *)
Record populate_inv (done : list HwMemRegion.t) (cur : SparseMapEntry.t) (pm : PageMap.t) : Prop := {
  pi_wf : page_map_wf (close cur pm);
  pi_last : index_end cur = Z.of_nat (length (PageMap.pages pm));
  pi_small : index_end cur ≤ pfn_end cur;
  pi_adjacent : ∀ i e e', PageMap.sparse_map (close cur pm) !! i = Some e →
    PageMap.sparse_map (close cur pm) !! S i = Some e' → page_map_index e' = index_end e;
  pi_get : ∀ a, phys a → PageMap.get (close cur pm) a =
    PageMap.region_page_info ∘ HwMemRegion.region_type <$>
      find_at HwMemRegion.base region_end a done
}.

(** Adjacency depends only on where the last entry starts. *)
Lemma adjacent_last (es : list SparseMapEntry.t) c c' i e e' :
  (∀ i e e', (es ++ [c]) !! i = Some e → (es ++ [c]) !! S i = Some e' → page_map_index e' = index_end e) →
  page_map_index c' = page_map_index c →
  (es ++ [c']) !! i = Some e → (es ++ [c']) !! S i = Some e' → page_map_index e' = index_end e.
Proof.
  intros Hadj Hc He He'. apply lookup_lt_Some in He' as Hlt. rewrite length_app in Hlt. cbn in Hlt.
  rewrite lookup_app_l in He by lia.
  destruct (decide (S i < length es)%nat) as [Hi|Hi].
  - rewrite lookup_app_l in He' by lia. apply (Hadj i e e'); [by rewrite lookup_app_l by lia|].
    by rewrite lookup_app_l by lia.
  - assert (S i = length es) as Hi' by lia. rewrite Hi', list_lookup_middle in He' by done. simplify_eq.
    rewrite Hc. apply (Hadj i e c); [by rewrite lookup_app_l by lia|]. by rewrite Hi', list_lookup_middle.
Qed.

(** Extending the last entry by [n] pages that start at its end. *)
Lemma extend_last done cur pm r n :
  populate_inv done cur pm →
  HwMemRegion.base r = 4096 * pfn_end cur → region_end r = HwMemRegion.base r + 4096 * Z.of_nat n →
  region_end r ≤ 2 ^ 56 →
  populate_inv (done ++ [r])
    (SparseMapEntry.mk (base_pfn cur) (num_pages cur + Z.of_nat n) (page_map_index cur))
    (PageMap.mk (PageMap.pages pm ++ replicate n (PageMap.region_page_info (HwMemRegion.region_type r)))
      (PageMap.capacity pm) (PageMap.sparse_map pm)).
Proof.
  intros [Hwf Hlast Hsmall Hadj Hget] Hbase Hend Hmax.
  set (cur' := SparseMapEntry.mk _ _ _). set (pm' := PageMap.mk _ _ _).
  pose proof Hwf as [Hp Hi Hb Hs]. cbn in Hp, Hi, Hb, Hs.
  apply ordered_snoc in Hp as (Hp1 & Hp2 & Hp3). apply ordered_snoc in Hi as (Hi1 & Hi2 & Hi3).
  apply list.Forall_app in Hb as [Hb1 [Hb2 _]%list.Forall_cons].
  assert (Hwf' : page_map_wf (close cur' pm')).
  { split; cbn.
    - apply ordered_snoc. split_and!; [done| |exact Hp3]. unfold pfn_end in *. cbn. lia.
    - apply ordered_snoc. split_and!; [done| |exact Hi3]. unfold index_end in *. cbn. lia.
    - rewrite length_app, length_replicate. apply list.Forall_app. split.
      + eapply list.Forall_impl; [exact Hb1|]. cbn. lia.
      + constructor; [|constructor]. unfold pfn_end, index_end in *. cbn. lia.
    - rewrite length_app, length_replicate. unfold pfn_end, index_end in *. lia. }
  split; [done|..].
  - unfold index_end in *. cbn. rewrite length_app, length_replicate. lia.
  - unfold index_end, pfn_end in *. cbn. lia.
  - intros i e e' He He'. by eapply (adjacent_last (PageMap.sparse_map pm) cur cur' i).
  - intros a Ha. destruct (phys_pfn a Ha) as (_ & Hax & _). specialize (Hget a Ha).
    rewrite find_at_app. cbn [find_at]. unfold PageMap.get in *.
    destruct (covers HwMemRegion.base region_end r a) eqn:Hcov.
    + apply covers_spec in Hcov.
      assert (Hi' : PageMap.get_map_index (close cur' pm') a =
        Some (Z.of_nat (length (PageMap.pages pm)) + (a / 4096 - pfn_end cur))).
      { apply get_map_index_Some; [done..|]. exists cur'. split; [cbn; set_solver|].
        unfold pfn_end, index_end in *. cbn. lia. }
      destruct (PageMap.get_map_index (close cur pm) a) as [i|] eqn:Hold.
      { exfalso. apply get_map_index_Some in Hold as (e & He & Hx & _); [|done..]. cbn in He.
        apply elem_of_app in He as [He|He%list_elem_of_singleton].
        - rewrite list.Forall_forall in Hp3. specialize (Hp3 e He).
          cbn in Hp3. lia.
        - subst. lia. }
      cbn in Hget. destruct (find_at HwMemRegion.base region_end a done); [done|].
      rewrite Hi'. cbn. rewrite lookup_app_r by lia. apply lookup_replicate. split; [done|lia].
    + assert (Hnc : ¬ (HwMemRegion.base r ≤ a < region_end r)).
      { rewrite <-(covers_spec HwMemRegion.base region_end). congruence. }
      assert (Hsame : PageMap.get_map_index (close cur' pm') a = PageMap.get_map_index (close cur pm) a).
      { apply option_eq. intros i. rewrite !get_map_index_Some by done. cbn. split.
        - intros (e & He & Hx & ->). apply elem_of_app in He as [He|He%list_elem_of_singleton].
          + exists e. split; [set_solver|done].
          + subst e. exists cur. split; [set_solver|]. unfold pfn_end in *. cbn in *. lia.
        - intros (e & He & Hx & ->). apply elem_of_app in He as [He|He%list_elem_of_singleton].
          + exists e. split; [set_solver|done].
          + subst e. exists cur'. split; [set_solver|]. unfold pfn_end in *. cbn in *. lia. }
      rewrite Hsame. destruct (PageMap.get_map_index (close cur pm) a) as [i|] eqn:Hold; cbn in *.
      * apply get_map_index_bound in Hold; [|done..]. cbn in Hold.
        rewrite lookup_app_l by lia. rewrite Hget. by destruct (find_at _ _ a done).
      * by destruct (find_at _ _ a done).
Qed.

(** Starting a new, empty entry behind the last one. *)
Lemma new_entry done cur pm b :
  populate_inv done cur pm → pfn_end cur ≤ b ≤ 2 ^ 44 →
  populate_inv done (SparseMapEntry.mk b 0 (index_end cur)) (close cur pm).
Proof.
  intros [Hwf Hlast Hsmall Hadj Hget] Hb. set (cur' := SparseMapEntry.mk _ _ _).
  pose proof Hwf as [Hp Hi Hbd Hs].
  assert (Hends : Forall (λ e, pfn_end e ≤ pfn_end cur ∧ index_end e ≤ index_end cur)
    (PageMap.sparse_map (close cur pm))).
  { cbn in *. apply ordered_snoc in Hp as (_ & Hp2 & Hp3). apply ordered_snoc in Hi as (_ & Hi2 & Hi3).
    apply list.Forall_app. split; [|by repeat constructor].
    rewrite list.Forall_forall in Hp3, Hi3 |- *. intros e He. specialize (Hp3 e He). specialize (Hi3 e He).
    cbn in *. lia. }
  assert (Hwf' : page_map_wf (close cur' (close cur pm))).
  { split; cbn [close PageMap.sparse_map PageMap.pages].
    - apply ordered_snoc. split_and!; [done|unfold pfn_end; cbn; lia|].
      eapply list.Forall_impl; [exact Hends|]. cbn. lia.
    - apply ordered_snoc. split_and!; [done|unfold index_end; cbn; lia|].
      eapply list.Forall_impl; [exact Hends|]. cbn. lia.
    - apply list.Forall_app. split; [done|]. constructor; [|constructor].
      assert (0 ≤ pfn_end cur ∧ 0 ≤ index_end cur).
      { cbn in Hbd. apply list.Forall_app in Hbd as [_ [Hc _]%list.Forall_cons].
        unfold pfn_end, index_end in *. lia. }
      subst cur'. unfold pfn_end, index_end in *. cbn in *. lia.
    - done. }
  split; [done|unfold index_end in *; cbn; lia|unfold index_end at 1, pfn_end at 1; cbn; lia|..].
  { intros i e e' He He'. cbn [close PageMap.sparse_map] in *.
    destruct (decide (S i < length (PageMap.sparse_map pm ++ [cur]))%nat) as [Hlt'|Hge].
    - rewrite lookup_app_l in He, He' by lia. by eapply Hadj.
    - apply lookup_lt_Some in He' as Hlt. rewrite length_app in Hlt, Hge. cbn in Hlt, Hge.
      assert (i = length (PageMap.sparse_map pm)) as -> by (rewrite length_app in Hlt; cbn in Hlt; lia).
      rewrite <-app_assoc in He. cbn [app] in He. rewrite list_lookup_middle in He by done.
      rewrite list_lookup_middle in He' by (rewrite length_app; cbn; lia). by simplify_eq. }
  intros a Ha. rewrite <-Hget by done. unfold PageMap.get.
  assert (PageMap.get_map_index (close cur' (close cur pm)) a = PageMap.get_map_index (close cur pm) a) as ->; [|done].
  apply option_eq. intros i. rewrite !get_map_index_Some by done.
  cbn [close PageMap.sparse_map]. split; intros (e & He & Hx & ->); exists e.
  - apply elem_of_app in He as [He|He%list_elem_of_singleton]; [done|].
    subst e. unfold pfn_end in Hx. cbn in Hx. lia.
  - split; [|done]. apply elem_of_app. by left.
Qed.

(** Pages of a region. *)
Definition region_pages (r : HwMemRegion.t) : nat := Z.to_nat (HwMemRegion.size r / 4096).

Definition phys_region (r : HwMemRegion.t) : Prop :=
  region_wf r ∧ HwMemRegion.base r < 2 ^ 56 ∧ region_end r ≤ 2 ^ 56.

(** The entry the pages of [r] go to. *)
Lemma populate_entry_spec done cur pm r :
  populate_inv done cur pm → phys_region r → 4096 * pfn_end cur ≤ HwMemRegion.base r →
  (length (PageMap.sparse_map pm) < PageMap.MAX_SPARSE_MAP_ENTRIES)%nat →
  ∃ cur' pm',
    (if wrap64 (base_pfn cur + num_pages cur) =? PageAddr.index (HwMemRegion.base r)
     then Returns (cur, pm)
     else
       pm ← PageMap.push_entry cur pm;
       Returns (SparseMapEntry.mk (PageAddr.index (HwMemRegion.base r)) 0
                  (wrap64 (page_map_index cur + num_pages cur)), pm)) = Returns (cur', pm') ∧
    populate_inv done cur' pm' ∧ 4096 * pfn_end cur' = HwMemRegion.base r ∧
    PageMap.pages pm' = PageMap.pages pm ∧ PageMap.capacity pm' = PageMap.capacity pm ∧
    (length (PageMap.sparse_map pm') ≤ S (length (PageMap.sparse_map pm)))%nat ∧
    0 ≤ num_pages cur' ∧
    (pm' = pm ∨ 4096 * pfn_end cur ≠ HwMemRegion.base r ∧ pm' = close cur pm).
Proof.
  intros Hinv (Hr & Hb & _) Hle Hcap.
  destruct (phys_pfn (HwMemRegion.base r)) as (Hidx & Hbx & Hbr).
  { split; [destruct Hr; lia|apply Hr]. }
  assert (Hcur : 0 ≤ num_pages cur ∧ 0 ≤ pfn_end cur ≤ 2 ^ 44 ∧ 0 ≤ index_end cur < 2 ^ 52).
  { destruct Hinv as [[_ _ Hbd Hs] Hlast _ _ _]. cbn in *.
    apply list.Forall_app in Hbd as [_ [Hc _]%list.Forall_cons]. unfold pfn_end, index_end in *. lia. }
  fold (pfn_end cur) (index_end cur). rewrite Hidx.
  unfold wrap64 at 1. rewrite Z.mod_small by lia.
  destruct (Z.eqb_spec (pfn_end cur) (HwMemRegion.base r / 4096)) as [Heq|Hne].
  - exists cur, pm. split_and!; (done || lia || by left).
  - unfold PageMap.push_entry, push_cap. rewrite decide_True by done. cbn [mbind outcome_bind].
    unfold wrap64. rewrite Z.mod_small by lia. do 2 eexists. split; [reflexivity|].
    split; [apply (new_entry done cur pm); [done|lia]|].
    unfold pfn_end at 1. cbn. rewrite length_app. cbn. split_and!; try (done || lia).
    right. split; [lia|done].
Qed.

Lemma populate_region_spec done cur pm r :
  populate_inv done cur pm → phys_region r → 4096 * pfn_end cur ≤ HwMemRegion.base r →
  (length (PageMap.sparse_map pm) < PageMap.MAX_SPARSE_MAP_ENTRIES)%nat →
  Z.of_nat (length (PageMap.pages pm) + region_pages r) ≤ PageMap.capacity pm →
  ∃ cur' pm', PageMap.populate_region r cur pm = Returns (cur', pm') ∧
    populate_inv (done ++ [r]) cur' pm' ∧ 4096 * pfn_end cur' = region_end r ∧
    (length (PageMap.sparse_map pm') ≤ S (length (PageMap.sparse_map pm)))%nat ∧
    length (PageMap.pages pm') = (length (PageMap.pages pm) + region_pages r)%nat ∧
    PageMap.capacity pm' = PageMap.capacity pm ∧
    Z.of_nat (region_pages r) ≤ num_pages cur' ∧
    (PageMap.sparse_map pm' = PageMap.sparse_map pm ∨
     4096 * pfn_end cur ≠ HwMemRegion.base r ∧
     PageMap.sparse_map pm' = PageMap.sparse_map pm ++ [cur]).
Proof.
  intros Hinv Hphys Hbase Hcap Hpages. pose proof Hphys as (Hr & Hb & Hmax).
  pose proof Hr as (Hb0 & Hbm & Hs0 & Hsm & Hend).
  destruct (populate_entry_spec done cur pm r Hinv Hphys Hbase Hcap)
    as (c1 & pm1 & E1 & Hinv1 & Hc1 & Hp1 & Hcap1 & Hlen1 & Hn1 & Hsame).
  unfold PageMap.populate_region. cbv zeta. rewrite E1. rewrite end_wf by done.
  set (n := region_pages r) in *. assert (Hn : 4096 * Z.of_nat n = HwMemRegion.size r).
  { unfold n, region_pages. mod_lia. }
  assert (Hrange : region_end r = HwMemRegion.base r + 4096 * Z.of_nat n) by (unfold region_end; lia).
  cbn [mbind outcome_bind]. rewrite (iter_until_run _ n) by (done || lia). cbn [mbind outcome_bind].
  assert (Hc : 0 ≤ base_pfn c1 ∧ 0 ≤ num_pages c1 ∧ pfn_end c1 ≤ 2 ^ 44).
  { destruct Hinv1 as [[_ _ Hbd _] _ _ _ _]. cbn in Hbd.
    apply list.Forall_app in Hbd as [_ [Hbd _]%list.Forall_cons]. lia. }
  rewrite populate_pages_spec; rewrite ?length_page_seq;
    [|lia|unfold pfn_end in *; lia|rewrite Hp1, Hcap1; lia].
  cbn [mbind outcome_bind]. unfold checked_add. rewrite (proj2 (Z.ltb_lt _ _)) by (unfold pfn_end in *; cbn; lia).
  do 2 eexists. split; [reflexivity|]. split; [apply extend_last; (done || lia)|].
  cbn. rewrite length_app, length_replicate, Hp1. unfold pfn_end in *. cbn.
  split_and!; [lia|done|lia|done|lia|].
  destruct Hsame as [->|[Hne ->]]; [by left|by right].
Qed.

Lemma populate_regions_spec rs done cur pm :
  populate_inv done cur pm → Forall phys_region rs → ordered HwMemRegion.base region_end rs →
  Forall (λ r, 4096 * pfn_end cur ≤ HwMemRegion.base r) rs →
  (length (PageMap.sparse_map pm) + length rs ≤ PageMap.MAX_SPARSE_MAP_ENTRIES)%nat →
  Z.of_nat (length (PageMap.pages pm) + sum_list_with region_pages rs) ≤ PageMap.capacity pm →
  ∃ cur' pm', PageMap.populate_regions rs cur pm = Returns (cur', pm') ∧
    populate_inv (done ++ rs) cur' pm' ∧
    (length (PageMap.sparse_map pm') ≤ length (PageMap.sparse_map pm) + length rs)%nat ∧
    (Forall (λ r, 0 < HwMemRegion.size r) rs →
     Forall (λ e, 0 < num_pages e) (PageMap.sparse_map (close cur pm)) →
     Forall (λ e, 0 < num_pages e) (PageMap.sparse_map (close cur' pm'))).
Proof.
  revert done cur pm. induction rs as [|r rs IH]; intros done cur pm Hinv Hphys Hord Hbase Hcap Hpages.
  { exists cur, pm. rewrite app_nil_r. split_and!; (done || lia). }
  apply list.Forall_cons in Hphys as [Hr Hphys]. apply ordered_cons in Hord as (_ & Hafter & Hord).
  apply list.Forall_cons in Hbase as [Hb _]. cbn [length sum_list_with] in *.
  destruct (populate_region_spec done cur pm r) as (c1 & pm1 & E1 & Hinv1 & He1 & Hl1 & Hp1 & Hc1 & Hn1 & Hsp);
    [done|done|done|lia|lia|].
  cbn [PageMap.populate_regions]. rewrite E1. cbn [mbind outcome_bind].
  destruct (IH (done ++ [r]) c1 pm1) as (c2 & pm2 & E2 & Hinv2 & Hl2 & Hne); [done|done|done| |lia|lia|].
  { eapply list.Forall_impl; [exact Hafter|]. cbn. lia. }
  exists c2, pm2. rewrite <-app_assoc in Hinv2. split_and!; [done|done|lia|].
  intros [Hsz Hszs]%list.Forall_cons Hall. apply Hne; [done|]. cbn in *.
  apply list.Forall_app in Hall as [Hall Hcur]. apply list.Forall_app. split.
  - destruct Hsp as [->|[_ ->]]; [done|]. by apply list.Forall_app.
  - constructor; [|constructor]. destruct Hr as ((_ & _ & _ & Hm & _) & _).
    unfold region_pages in Hn1. mod_lia.
Qed.

Lemma populate_init b cap :
  0 ≤ b ≤ 2 ^ 44 → populate_inv [] (SparseMapEntry.mk b 0 0) (PageMap.new cap).
Proof.
  intros Hb. assert (Hwf : page_map_wf (close (SparseMapEntry.mk b 0 0) (PageMap.new cap))).
  { split; cbn; [apply ordered_singleton|apply ordered_singleton|repeat constructor|];
      unfold pfn_end, index_end; cbn; lia. }
  split; [done|done|unfold index_end, pfn_end; cbn; lia|by intros [|i] e e' He He'|].
  intros a Ha. cbn. unfold PageMap.get.
  destruct (PageMap.get_map_index _ a) as [i|] eqn:E; [|done].
  apply get_map_index_Some in E as (e & He & Hx & _); [|done..]. cbn in He.
  apply list_elem_of_singleton in He as ->. unfold pfn_end in Hx. cbn in Hx. lia.
Qed.

(** C32: The page map built from a well-formed memory map has exactly one record
    per page of the map, with the initial state that belongs to the type of the
    page's region: free for available RAM, hypervisor-owned for MMIO and the
    host images, reserved otherwise.  Building it succeeds whenever the backing
    vector is large enough and the map has at most 16 regions; without empty
    regions the result also meets what the page iterator relies on. *)
Theorem populate_from_spec (m : HwMemMap.t) (cap : Z) :
  mem_map_wf m → HwMemMap.regions m ≠ [] → Forall phys_region (HwMemMap.regions m) →
  (length (HwMemMap.regions m) ≤ PageMap.MAX_SPARSE_MAP_ENTRIES)%nat →
  Z.of_nat (sum_list_with region_pages (HwMemMap.regions m)) ≤ cap →
  ∃ pm, PageMap.populate_from m (PageMap.new cap) = Returns pm ∧ page_map_wf pm ∧
    (Forall (λ r, 0 < HwMemRegion.size r) (HwMemMap.regions m) → page_map_dense pm) ∧
    ∀ a, phys a → PageMap.get pm a = PageMap.region_page_info <$> type_at m a.
Proof.
  intros Hm Hne Hphys Hlen Hcap. destruct (wf_ordered m Hm) as [Ho1 Ho2].
  pose proof (conj Ho1 Ho2 : ordered _ _ _) as Hord. clear Ho1 Ho2. unfold type_at.
  unfold PageMap.populate_from. destruct (HwMemMap.regions m) as [|r0 rs] eqn:Hrs; [done|].
  apply list.Forall_cons in Hphys as [Hr0 Hphys]. apply ordered_cons in Hord as (_ & Hafter & Hord).
  cbn [length sum_list_with] in *. cbn [lookup list_lookup unwrap_option mbind outcome_bind].
  destruct (phys_pfn (HwMemRegion.base r0)) as (Hidx & Hbx & Hbr).
  { split; [destruct Hr0 as [[] ?]; lia|apply Hr0]. }
  rewrite Hidx. destruct (populate_region_spec [] (SparseMapEntry.mk (HwMemRegion.base r0 / 4096) 0 0)
    (PageMap.new cap) r0) as (c1 & pm1 & E1 & Hinv1 & He1 & _ & Hp1 & Hc1 & Hn1 & Hsame);
    [apply populate_init; lia|done|unfold pfn_end; cbn; lia|unfold PageMap.MAX_SPARSE_MAP_ENTRIES; cbn; lia|cbn; lia|].
  cbn [PageMap.populate_regions]. rewrite E1. cbn [mbind outcome_bind].
  assert (Hs1 : PageMap.sparse_map pm1 = []).
  { destruct Hsame as [->|[Hneq _]]; [done|]. unfold pfn_end in Hneq. cbn in Hneq. lia. }
  destruct (populate_regions_spec rs [r0] c1 pm1) as (c2 & pm2 & E2 & Hinv2 & Hl2 & Hd2);
    [done|done|done| |rewrite Hs1; cbn; lia|cbn in *; lia|].
  { eapply list.Forall_impl; [exact Hafter|]. cbn. lia. }
  rewrite E2. cbn [mbind outcome_bind]. rewrite Hs1 in Hl2. cbn in Hl2.
  unfold PageMap.push_entry, push_cap. rewrite decide_True by lia. cbn [mbind outcome_bind].
  eexists. split; [reflexivity|]. destruct Hinv2 as [Hwf Hlast _ Hadj Hget]. split; [exact Hwf|].
  split; [intros [Hsz Hszs]%list.Forall_cons; split; [exact Hwf| |exact Hadj|]|].
  { apply Hd2; [done|]. cbn. rewrite Hs1. constructor; [|constructor].
    destruct Hr0 as ((_ & _ & _ & Hm0 & _) & _). unfold region_pages in Hn1. mod_lia. }
  { intros i e He Hnone. cbn in *. apply lookup_ge_None in Hnone. rewrite length_app in Hnone. cbn in Hnone.
    apply lookup_lt_Some in He as Hlt. rewrite length_app in Hlt. cbn in Hlt.
    rewrite list_lookup_middle in He by lia. by simplify_eq. }
  intros a Ha. etrans; [exact (Hget a Ha)|]. cbn [app]. by rewrite <-option_fmap_compose.
Qed.

Definition example_mem_map : HwMemMap.t :=
  HwMemMap.mk
    [HwMemRegion.mk (HwMemRegionType.Mmio DeviceMemType.Imsic) 40960 4096;
     HwMemRegion.mk (HwMemRegionType.Reserved HwReservedMemType.HostKernelImage) 65536 8192;
     HwMemRegion.mk HwMemRegionType.Available 73728 12288] 4096.

Lemma example_mem_map_wf : mem_map_wf example_mem_map.
Proof.
  split; cbn.
  - by exists 12.
  - repeat constructor; unfold region_end; cbn; lia.
  - rewrite !ordered_cons. unfold region_end. cbn. pose proof (ordered_nil HwMemRegion.base region_end).
    repeat constructor; (done || cbn; lia).
  - unfold HwMemMap.MAX_HW_MEM_REGIONS. lia.
Qed.

Lemma populate_from_spec_witness :
  ∃ pm, PageMap.populate_from example_mem_map (PageMap.new 6) = Returns pm ∧ page_map_wf pm ∧
    PageMap.get pm 77824 = Some PageInfo.new.
Proof.
  destruct (populate_from_spec example_mem_map 6) as (pm & E & Hwf & _ & Hget);
    [exact example_mem_map_wf|done|repeat constructor; unfold region_end; cbn; lia
    |unfold PageMap.MAX_SPARSE_MAP_ENTRIES; cbn; lia|by vm_compute|].
  exists pm. split; [exact E|split; [exact Hwf|]]. rewrite Hget; [by vm_compute|].
  unfold phys. split; [lia|done].
Defined.
