(* ===== verification/HypAlloc.v ===== *)
(** * The boot-time page allocator ([HypPageAlloc] of page-tracking/src/page_tracker.rs)

    Allocates contiguous pages for the hypervisor and the host from the page
    map, and finally drains the remaining free pages into a linked list for the
    host.  The theorems give the effect on every page of the system. *)
From S2P Require Import Prelude Intervals RiscvPages MemMap PageInfoModel PageMapModel.
Import PageSize(Size4k).
Import PageState(Reserved, Free, Mapped, Shared, VmState, HypState, Converting, Unassigning,
  Converted, ConvertedLocked).

Module HypPageAlloc.
Record t := mk { next_page : option Z; pages : PageMap.t }.

Definition next_free_page (pm : PageMap.t) (addr : Z) : outcome (option Z) :=
  PageMapIter.find_from pm addr (λ page _, Returns (PageInfo.is_free page)).

Definition new (info_size : Z) (mem_map : HwMemMap.t) : outcome (t * HwMemMap.t) :=
  first ← unwrap_option (HwMemMap.regions mem_map !! 0%nat);
  '(pm, mem_map) ← PageMap.build_from info_size mem_map;
  n ← next_free_page pm (HwMemRegion.base first);
  Returns (mk n pm, mem_map).

(** [info.assign(hypervisor, state).unwrap()] of the page at [addr]. *)
Definition take_page (state : PageState.t) (addr : Z) (info : PageInfo.t) (pm : PageMap.t)
    : outcome PageMap.t :=
  r ← PageInfo.assign PageOwnerId.hypervisor state info;
  info' ← unwrap_result r;
  Returns (PageMap.set addr info' pm).

(** The loop of [drain]; [fuel] bounds the number of free pages left. *)
Fixpoint drain_loop (fuel : nat) (tail : option Z) (h : t) : outcome t :=
  match next_page h with
  | None => Returns h
  | Some next =>
      match fuel with
      | O => Panics
      | S k =>
          info ← unwrap_option (PageMap.get (pages h) next);
          pm ← take_page ConvertedLocked next info (pages h);
          _ ← Page.new next;
          pm ← match tail with
               | None => Returns pm
               | Some tail_addr =>
                   tail_info ← unwrap_option (PageMap.get pm tail_addr);
                   tail_info' ← unwrap_result (PageInfo.link next tail_info);
                   Returns (PageMap.set tail_addr tail_info' pm)
               end;
          n ← next_free_page pm next;
          drain_loop k (Some next) (mk n pm)
      end
  end.

Definition drain (h : t) : outcome (PageMap.t * Z) :=
  let head := next_page h in
  h' ← drain_loop (S (length (PageMap.pages (pages h)))) None h;
  head ← unwrap_option head;
  Returns (pages h', head).

Definition pages_remaining (h : t) : outcome Z :=
  match next_page h with
  | Some addr => unwrap_option (PageMap.num_after (pages h) addr)
  | None => Returns 0
  end.

(** The helper closure of [alloc_pages]. *)
Definition range_is_free_and_aligned (pm : PageMap.t) (count align start : Z) : outcome bool :=
  end_ ← unwrap_option (PageAddr.checked_add_pages start count);
  if negb (Z.land start (wrap64 (align - 1)) =? 0) then Returns false
  else
    addrs ← iter_until start end_;
    Returns (forallb (λ a,
      match PageMap.get pm a with Some p => PageInfo.is_free p | None => false end) addrs).

(** Marks the free pages among [addrs]. *)
Fixpoint take_free_pages (state : PageState.t) (addrs : list Z) (pm : PageMap.t)
    : outcome PageMap.t :=
  match addrs with
  | [] => Returns pm
  | page :: rest =>
      pm ← match PageMap.get pm page with
           | Some info =>
               if PageInfo.is_free info then take_page state page info pm else Returns pm
           | None => Returns pm
           end;
      take_free_pages state rest pm
  end.

Definition alloc_pages (count align : Z) (state : PageState.t) (h : t)
    : outcome (PageAddrRange.t * t) :=
  start_page ← unwrap_option (next_page h);
  found ← PageMapIter.find_from (pages h) start_page
    (λ _ addr, range_is_free_and_aligned (pages h) count align addr);
  first_page ← unwrap_option found;
  last_page ← unwrap_option (PageAddr.checked_add_pages first_page count);
  addrs ← iter_until start_page last_page;
  pm ← take_free_pages state addrs (pages h);
  n ← next_free_page pm last_page;
  Returns (PageAddrRange.new first_page count, mk n pm).

Definition take_pages (count align : Z) (h : t) : outcome (SequentialPages.t * t) :=
  '(r, h) ← alloc_pages count align ConvertedLocked h;
  seq ← unwrap_option (SequentialPages.from_mem_range (PageAddrRange.base r)
    (PageAddrRange.page_size r) (PageAddrRange.num_pages r));
  Returns (seq, h).

(** The closure mapped over the pages: each becomes host state. *)
Fixpoint assign_host_state (ps : list Page.t) (pm : PageMap.t) : outcome PageMap.t :=
  match ps with
  | [] => Returns pm
  | p :: rest =>
      info ← unwrap_option (PageMap.get pm (Page.addr p));
      r ← PageInfo.assign PageOwnerId.host VmState info;
      info' ← unwrap_result r;
      _ ← Page.new (Page.addr p);
      assign_host_state rest (PageMap.set (Page.addr p) info' pm)
  end.

Definition take_pages_for_host_state_with_alignment (count align : Z) (h : t)
    : outcome (SequentialPages.t * t) :=
  '(seq, h) ← take_pages count align h;
  ps ← SequentialPages.into_iter seq;
  pm ← assign_host_state ps (pages h);
  seq ← unwrap_result (SequentialPages.from_pages (map (λ p, Page.mk (Page.addr p) Size4k) ps));
  Returns (seq, mk (next_page h) pm).

Definition take_pages_for_host_state (count : Z) (h : t) : outcome (SequentialPages.t * t) :=
  take_pages_for_host_state_with_alignment count (PageSize.bytes Size4k) h.

Definition take_pages_for_hyp_state (count : Z) (h : t) : outcome (SequentialPages.t * t) :=
  '(r, h) ← alloc_pages count (PageSize.bytes Size4k) HypState h;
  seq ← unwrap_option (SequentialPages.from_mem_range (PageAddrRange.base r)
    (PageAddrRange.page_size r) (PageAddrRange.num_pages r));
  Returns (seq, h).
End HypPageAlloc.

(** ** Taking free pages *)
Definition page_is_free (pm : PageMap.t) (a : Z) : bool :=
  match PageMap.get pm a with Some p => PageInfo.is_free p | None => false end.

(** A page a free page becomes when the hypervisor takes it. *)
Definition hyp_taken (s : PageState.t) (p : PageInfo.t) : PageInfo.t :=
  if PageInfo.is_free p then PageInfo.set_state s p else p.

Definition takeable (s : PageState.t) : Prop := s = ConvertedLocked ∨ s = HypState.

Lemma take_page_spec s a p pm :
  takeable s → PageInfo.is_free p = true →
  HypPageAlloc.take_page s a p pm = Returns (PageMap.set a (PageInfo.set_state s p) pm).
Proof.
  intros Hs Hf. unfold HypPageAlloc.take_page, PageInfo.assign, PageInfo.is_free in *.
  destruct p as [mt st os lk]. destruct st; try done. by destruct Hs as [->| ->].
Qed.

Lemma take_free_pages_spec s addrs pm :
  takeable s → s ≠ Free → page_map_dense pm → Forall phys addrs →
  ∃ pm', HypPageAlloc.take_free_pages s addrs pm = Returns pm' ∧ page_map_dense pm' ∧
    ∀ a, phys a → PageMap.get pm' a =
      if decide (a ∈ addrs) then hyp_taken s <$> PageMap.get pm a else PageMap.get pm a.
Proof.
  intros Hs Hnf. revert pm. induction addrs as [|x addrs IH]; intros pm Hd Hphys.
  { exists pm. split_and!; [done..|]. intros a Ha. by rewrite decide_False by apply not_elem_of_nil. }
  apply list.Forall_cons in Hphys as [Hx Hphys]. pose proof (pd_wf _ Hd) as Hwf.
  cbn [HypPageAlloc.take_free_pages].
  assert (Hidem : ∀ p, hyp_taken s (hyp_taken s p) = hyp_taken s p).
  { intros p. unfold hyp_taken, PageInfo.is_free. destruct p as [mt st os lk].
    destruct st; cbn; try done. by destruct s. }
  assert (∃ pm1, match PageMap.get pm x with
      | Some info => if PageInfo.is_free info then HypPageAlloc.take_page s x info pm else Returns pm
      | None => Returns pm end = Returns pm1 ∧ page_map_dense pm1 ∧
      ∀ a, phys a → PageMap.get pm1 a =
        if decide (a = x) then hyp_taken s <$> PageMap.get pm a else PageMap.get pm a)
    as (pm1 & -> & Hd1 & Hg1).
  { destruct (PageMap.get pm x) as [p|] eqn:Hp; [destruct (PageInfo.is_free p) eqn:Hf|].
    - rewrite take_page_spec by done. eexists. split_and!; [done|by apply set_dense|].
      intros a Ha. case_decide; [subst a|by apply get_set_ne].
      rewrite Hp. cbn. unfold hyp_taken. rewrite Hf. by eapply get_set_eq.
    - exists pm. split_and!; [done..|]. intros a Ha. case_decide; [subst a|done].
      rewrite Hp. cbn. unfold hyp_taken. by rewrite Hf.
    - exists pm. split_and!; [done..|]. intros a Ha. case_decide; [subst a|done]. by rewrite Hp. }
  cbn [mbind outcome_bind]. destruct (IH pm1 Hd1 Hphys) as (pm' & -> & Hd' & Hg').
  exists pm'. split_and!; [done..|]. intros a Ha. rewrite Hg', Hg1 by done.
  destruct (decide (a ∈ addrs)), (decide (a = x)), (decide (a ∈ x :: addrs)) as [Hin|Hin]; try done;
    rewrite elem_of_cons in Hin; try tauto.
  rewrite <-option_fmap_compose. destruct (PageMap.get pm a); [|done]. cbn. f_equal. apply Hidem.
Qed.

Lemma next_free_page_spec pm start :
  page_map_dense pm → phys start → is_Some (PageMap.get pm start) →
  ∃ r, HypPageAlloc.next_free_page pm start = Returns r ∧
  match r with
  | Some b => phys b ∧ start ≤ b ∧ page_is_free pm b = true ∧
      ∀ c, phys c → start ≤ c < b → page_is_free pm c = false
  | None => ∀ c, phys c → start ≤ c → page_is_free pm c = false
  end.
Proof.
  intros Hd Hs Hsome.
  destruct (find_from_spec pm (λ page _, Returns (PageInfo.is_free page)) (λ page _, PageInfo.is_free page)
    start Hd Hs Hsome) as (r & Hr & Hpost); [done|]. exists r. split; [done|]. unfold page_is_free.
  destruct r as [b|].
  - destruct Hpost as (Hb & Hle & (pb & Hgb & Hfb) & Hbefore). split_and!; [done..| |].
    + by rewrite Hgb.
    + intros c Hc Hcr. destruct (PageMap.get pm c) eqn:Hgc; [|done]. by eapply Hbefore.
  - intros c Hc Hcr. destruct (PageMap.get pm c) eqn:Hgc; [|done]. by eapply Hpost.
Qed.

Lemma next_free_page_outside pm start :
  page_map_wf pm → phys start → PageMap.get pm start = None →
  HypPageAlloc.next_free_page pm start = Returns None.
Proof.
  intros Hwf Hs Hnone. unfold HypPageAlloc.next_free_page, PageMapIter.find_from, PageMapIter.new.
  destruct (position _ _) as [k|] eqn:Hpos; [|done]. exfalso.
  apply position_Some in Hpos as (e & Hk & Hh & _).
  assert (is_Some (PageMap.get_map_index pm start)) as Hsome.
  { unfold PageMap.get_map_index. destruct (List.find _ _) eqn:Hf; [cbn; eauto|].
    apply List.find_none with (x := e) in Hf; [congruence|].
    apply list_elem_of_In. by eapply list_elem_of_lookup_2. }
  apply get_is_Some in Hsome as [? ?]; [|done..]. congruence.
Qed.

(** ** Allocation *)

(** [count] pages from [b] are free and [b] is aligned. *)
Definition suitable (pm : PageMap.t) (count align b : Z) : bool :=
  (Z.land b (wrap64 (align - 1)) =? 0) &&
  forallb (page_is_free pm) (page_seq b Size4k (Z.to_nat count)).

Lemma range_check_spec pm count align b :
  phys b → 0 ≤ count < 2 ^ 44 →
  HypPageAlloc.range_is_free_and_aligned pm count align b = Returns (suitable pm count align b).
Proof.
  intros [Hb Hm] Hc. unfold HypPageAlloc.range_is_free_and_aligned, PageAddr.checked_add_pages, suitable.
  assert (PageAddr.checked_add_pages_with_size b count Size4k = Some (b + count * 4096)) as ->.
  { apply checked_add_pages_spec; [done|]. cbn [PageSize.bytes]. lia. }
  cbn [unwrap_option mbind outcome_bind]. destruct (Z.land b _ =? 0); [|done]. cbn [negb andb].
  rewrite (iter_until_run b (Z.to_nat count)) by (done || lia). done.
Qed.

Lemma suitable_spec pm count align b :
  suitable pm count align b = true ↔
  Z.land b (wrap64 (align - 1)) = 0 ∧
  ∀ i, 0 ≤ i < count → page_is_free pm (b + i * 4096) = true.
Proof.
  unfold suitable. rewrite andb_true_iff, Z.eqb_eq, forallb_forall.
  assert ((∀ x, In x (page_seq b Size4k (Z.to_nat count)) → page_is_free pm x = true) ↔
    ∀ i, 0 ≤ i < count → page_is_free pm (b + i * 4096) = true) as ->; [|done].
  setoid_rewrite <-list_elem_of_In. setoid_rewrite elem_of_page_seq. cbn [PageSize.bytes]. split.
  - intros H i Hi. apply H. exists i. split; [lia|done].
  - intros H x (i & Hi & ->). apply H. lia.
Qed.

(** Frame numbers have 44 bits. *)
Lemma get_top pm : PageMap.get pm (2 ^ 56) = PageMap.get pm 0.
Proof. unfold PageMap.get, PageMap.get_map_index. by change (PageAddr.index (2 ^ 56)) with (PageAddr.index 0). Qed.

Lemma next_free_top pm : HypPageAlloc.next_free_page pm (2 ^ 56) = HypPageAlloc.next_free_page pm 0.
Proof.
  unfold HypPageAlloc.next_free_page, PageMapIter.find_from, PageMapIter.new.
  by change (PageAddr.index (2 ^ 56)) with (PageAddr.index 0).
Qed.

(** With no page at address 0, no allocation crosses the end of the physical
    address space, where frame numbers wrap around. *)
Lemma suitable_end pm count align b :
  PageMap.get pm 0 = None → phys b → suitable pm count align b = true → b + count * 4096 ≤ 2 ^ 56.
Proof.
  intros H0 [Hb Hm] [_ Hfree]%suitable_spec. destruct (Z.le_gt_cases (b + count * 4096) (2 ^ 56)); [done|].
  specialize (Hfree ((2 ^ 56 - b) / 4096)). exfalso.
  assert (b + (2 ^ 56 - b) / 4096 * 4096 = 2 ^ 56) as Heq by mod_lia.
  rewrite Heq in Hfree. unfold page_is_free in Hfree.
  rewrite get_top, H0 in Hfree. assert (false = true) by (apply Hfree; mod_lia). done.
Qed.

(** The effect of a successful allocation of [count] pages from [b], searching
    from [s]: the free pages of [s, b + count pages) change state, nothing else
    changes, and the search continues behind the allocation if that page is part
    of the map. *)
Definition alloc_post (count align s : Z) (st : PageState.t) (h : HypPageAlloc.t) (b : Z)
    (res : outcome (PageAddrRange.t * HypPageAlloc.t)) : Prop :=
  ∃ h', res = Returns (PageAddrRange.new b count, h') ∧ page_map_dense (HypPageAlloc.pages h') ∧
    (∀ a, phys a → PageMap.get (HypPageAlloc.pages h') a =
      if (s <=? a) && (a <? b + count * 4096)
      then hyp_taken st <$> PageMap.get (HypPageAlloc.pages h) a
      else PageMap.get (HypPageAlloc.pages h) a) ∧
    match HypPageAlloc.next_page h' with
    | Some n => phys n ∧ b + count * 4096 ≤ n ∧ page_is_free (HypPageAlloc.pages h) n = true ∧
        ∀ c, phys c → b + count * 4096 ≤ c < n → page_is_free (HypPageAlloc.pages h) c = false
    | None => PageMap.get (HypPageAlloc.pages h) (b + count * 4096) = None ∨
        ∀ c, phys c → b + count * 4096 ≤ c → page_is_free (HypPageAlloc.pages h) c = false
    end.

(** Marking the free pages of a range. *)
Lemma take_range_spec st pm s last :
  takeable st → page_map_dense pm → phys s → s ≤ last ≤ 2 ^ 56 → last mod 4096 = 0 →
  ∃ addrs pm', iter_until s last = Returns addrs ∧
    HypPageAlloc.take_free_pages st addrs pm = Returns pm' ∧ page_map_dense pm' ∧
    ∀ a, phys a → PageMap.get pm' a =
      if (s <=? a) && (a <? last) then hyp_taken st <$> PageMap.get pm a else PageMap.get pm a.
Proof.
  intros Hst Hd [Hs1 Hs2] Hlast Hlm. set (addrs := page_seq s Size4k (Z.to_nat ((last - s) / 4096))).
  assert (Haddrs : ∀ a, phys a → a ∈ addrs ↔ s ≤ a < last).
  { intros a [Ha1 Ha2]. unfold addrs. rewrite elem_of_page_seq. cbn [PageSize.bytes]. split.
    - intros (i & Hi & ->). mod_lia.
    - intros Hr. exists ((a - s) / 4096). mod_lia. }
  assert (Hphys : Forall phys addrs).
  { apply list.Forall_forall. intros a Ha. unfold addrs in Ha. apply elem_of_page_seq in Ha as (i & Hi & ->).
    cbn [PageSize.bytes]. unfold phys. mod_lia. }
  destruct (take_free_pages_spec st addrs pm Hst) as (pm' & Ht & Hd' & Hg');
    [by destruct Hst as [->| ->]|done|done|].
  exists addrs, pm'. split_and!; [apply iter_until_run; (done || lia || mod_lia)|done|done|].
  intros a Ha. rewrite Hg' by done. specialize (Haddrs a Ha). fold (covers (λ _, s) (λ _, last) tt a).
  pose proof (covers_spec (λ _, s) (λ _, last) tt a) as Hcov. cbn in Hcov.
  case_decide; destruct (covers _ _ _ _); try done; [|tauto].
  assert (false = true) by tauto. done.
Qed.

(** The search for the next free page behind an allocation. *)
Lemma next_free_after pm pm' last :
  page_map_dense pm' → PageMap.get pm' 0 = None → 0 ≤ last ≤ 2 ^ 56 → last mod 4096 = 0 →
  (∀ c, phys c → last ≤ c → PageMap.get pm' c = PageMap.get pm c) →
  PageMap.get pm 0 = None →
  ∃ n, HypPageAlloc.next_free_page pm' last = Returns n ∧
    match n with
    | Some n => phys n ∧ last ≤ n ∧ page_is_free pm n = true ∧
        ∀ c, phys c → last ≤ c < n → page_is_free pm c = false
    | None => PageMap.get pm last = None ∨
        ∀ c, phys c → last ≤ c → page_is_free pm c = false
    end.
Proof.
  intros Hd H0' Hl Hlm Hsame H0.
  destruct (decide (last = 2 ^ 56)) as [->|Hne].
  { exists None. rewrite next_free_top, get_top. split; [|by left].
    apply next_free_page_outside; [by apply pd_wf|split; [lia|done]|done]. }
  assert (Hp : phys last) by (split; [lia|done]).
  destruct (PageMap.get pm last) as [pl|] eqn:Hpl.
  2: { exists None. split; [|by left].
       apply next_free_page_outside; [by apply pd_wf|done|]. rewrite Hsame by (done || lia). done. }
  destruct (next_free_page_spec pm' last Hd Hp) as (n & -> & Hn).
  { rewrite Hsame by (done || lia). eauto. }
  exists n. split; [done|].
  assert (Hfree : ∀ c, phys c → last ≤ c → page_is_free pm c = page_is_free pm' c).
  { intros c Hc Hle. unfold page_is_free. by rewrite Hsame. }
  destruct n as [n|].
  - destruct Hn as (Hn1 & Hn2 & Hn3 & Hn4). rewrite Hfree by done. split_and!; try done.
    intros c Hc Hr. rewrite Hfree by (done || lia). apply Hn4; [done|lia].
  - right. intros c Hc Hle. rewrite Hfree by done. by apply Hn.
Qed.

Lemma alloc_pages_spec_aux h count align st s :
  page_map_dense (HypPageAlloc.pages h) → PageMap.get (HypPageAlloc.pages h) 0 = None →
  HypPageAlloc.next_page h = Some s → phys s → is_Some (PageMap.get (HypPageAlloc.pages h) s) →
  0 < count < 2 ^ 44 → takeable st →
  (∃ b, phys b ∧ s ≤ b ∧ suitable (HypPageAlloc.pages h) count align b = true ∧
    (∀ c, phys c → s ≤ c < b → suitable (HypPageAlloc.pages h) count align c = false) ∧
    alloc_post count align s st h b (HypPageAlloc.alloc_pages count align st h)) ∨
  ((∀ c, phys c → s ≤ c → suitable (HypPageAlloc.pages h) count align c = false) ∧
    HypPageAlloc.alloc_pages count align st h = Panics).
Proof.
  intros Hd H0 Hnext Hs Hsome Hcount Hst. unfold alloc_post, HypPageAlloc.alloc_pages.
  set (pm := HypPageAlloc.pages h) in *. rewrite Hnext. cbn [unwrap_option mbind outcome_bind].
  destruct (find_from_spec pm (λ _ addr, HypPageAlloc.range_is_free_and_aligned pm count align addr)
    (λ _ addr, suitable pm count align addr) s Hd Hs Hsome) as (r & -> & Hr).
  { intros a pa Ha _. apply range_check_spec; [done|lia]. }
  assert (Hdom : ∀ c, phys c → suitable pm count align c = true → is_Some (PageMap.get pm c)).
  { intros c Hc [_ Hsuit]%suitable_spec. specialize (Hsuit 0). rewrite Z.mul_0_l, Z.add_0_r in Hsuit.
    unfold page_is_free in Hsuit. destruct (PageMap.get pm c); [eauto|]. discriminate Hsuit. lia. }
  cbn [mbind outcome_bind]. destruct r as [b|].
  2: { right. split; [|done]. intros c Hc Hle. destruct (suitable pm count align c) eqn:E; [|done].
       destruct (Hdom c Hc E) as [pc Hpc]. specialize (Hr c pc Hc Hpc Hle). cbn in Hr. congruence. }
  left. destruct Hr as (Hb & Hle & (pb & Hgb & Hsuit) & Hbefore). exists b.
  pose proof (suitable_end pm count align b H0 Hb Hsuit) as Hend.
  split_and!; [done..| |].
  { intros c Hc Hr. destruct (suitable pm count align c) eqn:E; [|done].
    destruct (Hdom c Hc E) as [pc Hpc]. specialize (Hbefore c pc Hc Hpc Hr). cbn in Hbefore. congruence. }
  pose proof Hb as [Hb1 Hb2]. cbn [unwrap_option mbind outcome_bind].
  assert (PageAddr.checked_add_pages b count = Some (b + count * 4096)) as ->.
  { unfold PageAddr.checked_add_pages. apply checked_add_pages_spec; [done|]. cbn [PageSize.bytes]. lia. }
  cbn [unwrap_option mbind outcome_bind]. set (last := b + count * 4096) in *.
  assert (Hlm : last mod 4096 = 0) by (subst last; mod_lia).
  destruct (take_range_spec st pm s last Hst Hd Hs) as (addrs & pm' & -> & Ht & Hd' & Hg);
    [subst last; lia|done|].
  cbn [mbind outcome_bind]. rewrite Ht. cbn [mbind outcome_bind].
  destruct (next_free_after pm pm' last) as (n & -> & Hn); try done; [|subst last; lia| |].
  { rewrite Hg by (split; done || lia). rewrite H0. by destruct (_ && _). }
  { intros c Hc Hle'. rewrite Hg by done. by rewrite (proj2 (Z.ltb_ge c last)), andb_false_r by lia. }
  eexists. split; [reflexivity|]. cbn. split_and!; done.
Qed.

(** ** Draining the free pages *)

(** [F] lists the free pages of [pm] from [n] on in address order. *)
Record free_list (pm : PageMap.t) (n : Z) (F : list Z) : Prop := {
  fl_head : F !! 0%nat = Some n;
  fl_phys : Forall phys F;
  fl_elem : ∀ a, phys a → a ∈ F ↔ n ≤ a ∧ page_is_free pm a = true;
  fl_sorted : ∀ i j a b, (i < j)%nat → F !! i = Some a → F !! j = Some b → a < b
}.

(** Page [p], drained, with its successor in the list. *)
Definition drained (next : option Z) (p : PageInfo.t) : PageInfo.t :=
  PageInfo.set_link next (PageInfo.set_state ConvertedLocked p).

(** [pm'] is [pm] with the pages of [F] drained and linked. *)
Record drain_post (F : list Z) (pm pm' : PageMap.t) : Prop := {
  dp_dense : page_map_dense pm';
  dp_drained : ∀ i a p, F !! i = Some a → PageMap.get pm a = Some p →
    PageMap.get pm' a = Some (drained (F !! S i) p);
  dp_other : ∀ a, phys a → a ∉ F → PageMap.get pm' a = PageMap.get pm a
}.

(** One iteration: page [n] is taken and linked behind [tail]. *)
Lemma drain_step pm tail n p :
  page_map_dense pm → phys n → n ≠ 0 → PageMap.get pm n = Some p → PageInfo.is_free p = true →
  (∀ t, tail = Some t → phys t ∧ t ≠ n ∧ ∃ pt, PageMap.get pm t = Some pt ∧ PageInfo.link_ pt = None) →
  ∃ pm', (∀ B (k : PageMap.t → outcome B),
      (pm1 ← HypPageAlloc.take_page ConvertedLocked n p pm;
       _ ← Page.new n;
       pm2 ← match tail with
             | None => Returns pm1
             | Some tail_addr =>
                 tail_info ← unwrap_option (PageMap.get pm1 tail_addr);
                 tail_info' ← unwrap_result (PageInfo.link n tail_info);
                 Returns (PageMap.set tail_addr tail_info' pm1)
             end;
       k pm2) = k pm') ∧ page_map_dense pm' ∧ same_shape pm pm' ∧
    ∀ a, phys a → PageMap.get pm' a =
      if decide (a = n) then Some (PageInfo.set_state ConvertedLocked p)
      else if decide (Some a = tail) then PageInfo.set_link (Some n) <$> PageMap.get pm a
      else PageMap.get pm a.
Proof.
  intros Hd Hn Hn0 Hp Hf Htail. rewrite take_page_spec by (done || by left).
  cbn [mbind outcome_bind]. unfold Page.new, Page.new_with_size. rewrite is_aligned_true by apply Hn.
  cbn [mbind outcome_bind]. pose proof (pd_wf _ Hd) as Hwf.
  set (pm1 := PageMap.set n _ pm).
  assert (Hd1 : page_map_dense pm1) by by apply set_dense.
  assert (Hg1 : ∀ a, phys a → PageMap.get pm1 a =
    if decide (a = n) then Some (PageInfo.set_state ConvertedLocked p) else PageMap.get pm a).
  { intros a Ha. case_decide; [subst; by eapply get_set_eq|by apply get_set_ne]. }
  destruct tail as [t|].
  2: { exists pm1. split_and!; [done|done|apply set_shape|]. intros a Ha. rewrite Hg1 by done. done. }
  destruct (Htail t eq_refl) as (Ht & Htn & pt & Hpt & Hlk).
  rewrite Hg1, decide_False, Hpt by done. cbn [unwrap_option mbind outcome_bind].
  unfold PageInfo.link. rewrite Hlk, (proj2 (Z.eqb_neq n 0)) by done. cbn [unwrap_result mbind outcome_bind].
  eexists. split; [intros; reflexivity|]. split; [by apply set_dense|].
  split; [etrans; apply set_shape|]. intros a Ha.
  pose proof (pd_wf _ Hd1). destruct (decide (Some a = Some t)) as [[= ->]|Hne].
  - rewrite decide_False, Hpt by done. eapply get_set_eq; [done..|]. by rewrite Hg1, decide_False, Hpt.
  - rewrite get_set_ne by (done || congruence). by apply Hg1.
Qed.

Lemma page_is_free_Some pm a :
  page_is_free pm a = true ↔ ∃ p, PageMap.get pm a = Some p ∧ PageInfo.is_free p = true.
Proof. unfold page_is_free. destruct (PageMap.get pm a); naive_solver. Qed.

(** What the loop needs: [n] is the next free page, free pages are unlinked. *)
Record drain_pre (pm : PageMap.t) (tail : option Z) (n : Z) : Prop := {
  dr_dense : page_map_dense pm;
  dr_zero : PageMap.get pm 0 = None;
  dr_next : phys n ∧ page_is_free pm n = true;
  dr_unlinked : ∀ a p, phys a → n ≤ a → PageMap.get pm a = Some p → PageInfo.is_free p = true →
    PageInfo.link_ p = None;
  dr_tail : ∀ t, tail = Some t → phys t ∧ t < n ∧
    ∃ pt, PageMap.get pm t = Some pt ∧ PageInfo.link_ pt = None
}.

(** The pages before [n] are left alone, but for the link of the tail. *)
Definition relink (tail : option Z) (n : Z) (pm : PageMap.t) (a : Z) : option PageInfo.t :=
  if decide (Some a = tail) then PageInfo.set_link (Some n) <$> PageMap.get pm a else PageMap.get pm a.

Lemma free_list_single pm n :
  phys n → page_is_free pm n = true →
  (∀ c, phys c → n < c → page_is_free pm c = false) → free_list pm n [n].
Proof.
  intros Hn Hf Hnone. split; [done|by apply list.Forall_singleton| |].
  - intros a Ha. rewrite list_elem_of_singleton. split; [intros ->; done|].
    intros [Hle Hfa]. destruct (decide (a = n)) as [|Hne]; [done|].
    rewrite Hnone in Hfa by (done || lia). done.
  - intros [|i] [|j] a b Hij; cbn; [lia|..]; try done.
Qed.

Lemma free_list_cons pm pm' n n' F :
  phys n → page_is_free pm n = true → n < n' →
  (∀ c, phys c → n < c → page_is_free pm' c = page_is_free pm c) →
  (∀ c, phys c → n < c < n' → page_is_free pm c = false) →
  free_list pm' n' F → free_list pm n (n :: F).
Proof.
  intros Hn Hf Hlt Hsame Hgap [Hh Hp He Hs]. split; [done|by constructor| |].
  - intros a Ha. rewrite elem_of_cons, He by done. split.
    + intros [->|[Hle Hfa]]; [done|]. rewrite <-Hsame by (done || lia). split; [lia|done].
    + intros [Hle Hfa]. destruct (decide (a = n)) as [->|Hne]; [by left|right].
      destruct (Z.lt_ge_cases a n') as [Hl|Hl]; [rewrite Hgap in Hfa by (done || lia); done|].
      rewrite Hsame by (done || lia). done.
  - assert (Hall : ∀ j b, F !! j = Some b → n' ≤ b).
    { intros [|j] b Hb; [rewrite Hh in Hb; simplify_eq; lia|].
      assert (n' < b); [|lia]. apply (Hs 0%nat (S j)); [lia|done|done]. }
    intros [|i] [|j] a b Hij Ha Hb; cbn in *; simplify_eq; [lia| |lia|].
    + apply Hall in Hb. lia.
    + eapply (Hs i j); [lia|done..].
Qed.

(** The state after one iteration meets the precondition of the next. *)
Lemma drain_pre_step pm pm1 tail n n' p :
  drain_pre pm tail n → PageMap.get pm n = Some p → PageInfo.link_ p = None →
  page_map_dense pm1 → phys n' → n < n' → page_is_free pm1 n' = true →
  (∀ a, phys a → PageMap.get pm1 a =
    if decide (a = n) then Some (PageInfo.set_state ConvertedLocked p) else relink tail n pm a) →
  drain_pre pm1 (Some n) n'.
Proof.
  intros [Hd H0 [Hn Hfree] Hunl Htail] Hp Hlk Hd1 Hn' Hlt Hf' Hg1.
  assert (Hn0 : n ≠ 0). { intros ->. unfold page_is_free in Hfree. by rewrite H0 in Hfree. }
  split; [done| |done| |].
  - rewrite Hg1 by (split; [lia|done]). rewrite decide_False by done. unfold relink. rewrite H0.
    by case_decide.
  - intros a pa Ha Hle Hpa Hfa. rewrite Hg1, decide_False in Hpa by (done || lia).
    unfold relink in Hpa. rewrite decide_False in Hpa.
    + apply (Hunl a); (done || lia).
    + intros Ht. destruct (Htail a) as (_ & ? & _); [done|lia].
  - intros t [= <-]. split_and!; [done..|]. eexists. split; [by rewrite Hg1, decide_True|done].
Qed.

(** Putting an iteration in front of the rest of the loop. *)
Lemma drain_post_cons pm pm1 pm' tail n n' p F :
  drain_pre pm tail n → PageMap.get pm n = Some p → phys n → n < n' →
  free_list pm1 n' F →
  (∀ a, phys a → PageMap.get pm1 a =
    if decide (a = n) then Some (PageInfo.set_state ConvertedLocked p) else relink tail n pm a) →
  (∀ i a p, F !! i = Some a → PageMap.get pm1 a = Some p →
    PageMap.get pm' a = Some (drained (F !! S i) p)) →
  (∀ a, phys a → a ∉ F → PageMap.get pm' a = relink (Some n) n' pm1 a) →
  (∀ i a p, (n :: F) !! i = Some a → PageMap.get pm a = Some p →
    PageMap.get pm' a = Some (drained ((n :: F) !! S i) p)) ∧
  (∀ a, phys a → a ∉ n :: F → PageMap.get pm' a = relink tail n pm a).
Proof.
  intros [_ _ _ _ Htail] Hp Hn Hlt [Hh HFp He _] Hg1 Hin Hout.
  assert (Hge : ∀ a, a ∈ F → phys a ∧ n' ≤ a).
  { intros a Ha. rewrite list.Forall_forall in HFp. pose proof (HFp a Ha). split; [done|]. by apply He. }
  split.
  - intros [|i] a pa Ha Hpa; cbn in Ha.
    + simplify_eq. rewrite Hout; [|done|by intros [_ ?]%Hge; lia].
      unfold relink. rewrite decide_True, Hg1, decide_True by done.
      change ((a :: F) !! 1%nat) with (F !! 0%nat). by rewrite Hh.
    + pose proof (list_elem_of_lookup_2 _ _ _ Ha) as [Hap Hle]%Hge.
      cbn. apply Hin; [done|]. rewrite Hg1, decide_False by (done || lia).
      unfold relink. rewrite decide_False; [done|].
      intros Ht. destruct (Htail a) as (_ & ? & _); [done|lia].
  - intros a Ha Hnin. apply not_elem_of_cons in Hnin as [Hne Hnin].
    rewrite Hout by done. unfold relink at 1. rewrite decide_False by congruence.
    by rewrite Hg1, decide_False.
Qed.

Lemma drain_loop_spec fuel tail h n i :
  let pm := HypPageAlloc.pages h in
  HypPageAlloc.next_page h = Some n → drain_pre pm tail n →
  PageMap.get_map_index pm n = Some i → Z.of_nat (length (PageMap.pages pm)) - i < Z.of_nat fuel →
  ∃ F h', HypPageAlloc.drain_loop fuel tail h = Returns h' ∧ free_list pm n F ∧
    page_map_dense (HypPageAlloc.pages h') ∧
    (∀ i a p, F !! i = Some a → PageMap.get pm a = Some p →
      PageMap.get (HypPageAlloc.pages h') a = Some (drained (F !! S i) p)) ∧
    (∀ a, phys a → a ∉ F → PageMap.get (HypPageAlloc.pages h') a = relink tail n pm a).
Proof.
  cbv zeta. revert tail h n i. induction fuel as [|fuel IH]; intros tail h n i Hnext Hpre Hi Hfuel.
  { destruct Hpre as [Hd _ [Hn _] _ _]. apply get_map_index_bound in Hi; [lia|by apply pd_wf|done]. }
  set (pm := HypPageAlloc.pages h) in *.
  pose proof Hpre as [Hd H0 [Hn Hfree] Hunl Htail].
  assert (Hn0 : n ≠ 0). { intros ->. unfold page_is_free in Hfree. by rewrite H0 in Hfree. }
  pose proof Hfree as (p & Hp & Hf)%page_is_free_Some.
  pose proof (Hunl n p Hn (Z.le_refl _) Hp Hf) as Hplink.
  destruct (drain_step pm tail n p) as (pm1 & Hstep & Hd1 & Hshape & Hg1); try done.
  { intros t Ht. destruct (Htail t Ht) as (? & ? & ?). split_and!; (done || lia). }
  cbn [HypPageAlloc.drain_loop]. rewrite Hnext. fold pm. rewrite Hp. cbn [unwrap_option].
  rewrite obind_ret, Hstep.
  assert (Hfree1 : ∀ c, phys c → n < c → page_is_free pm1 c = page_is_free pm c).
  { intros c Hc Hlt. unfold page_is_free. rewrite Hg1, decide_False by (done || lia).
    rewrite decide_False; [done|]. intros Ht. destruct (Htail c) as (_ & ? & _); [done|lia]. }
  assert (Hgn : PageMap.get pm1 n = Some (PageInfo.set_state ConvertedLocked p)).
  { by rewrite Hg1, decide_True. }
  destruct (next_free_page_spec pm1 n Hd1 Hn) as (r & -> & Hr); [by eauto|]. rewrite obind_ret.
  destruct r as [n'|].
  2: { exists [n]. eexists. split; [by destruct fuel|]. cbn [HypPageAlloc.pages]. split_and!; [|done|..].
       - apply free_list_single; [done..|]. intros c Hc Hlt. rewrite <-Hfree1 by done. apply Hr; [done|lia].
       - intros [|k] a pa Ha Hpa; cbn in Ha; simplify_eq. rewrite Hgn. cbn. f_equal.
         unfold drained. destruct p. cbn in *. by subst.
       - intros a Ha Hnin. rewrite Hg1 by done. rewrite decide_False; [done|]. set_solver. }
  destruct Hr as (Hn' & Hle & Hf' & Hgap).
  assert (Hlt : n < n').
  { destruct (decide (n = n')) as [<-|]; [|lia]. unfold page_is_free in Hf'. by rewrite Hgn in Hf'. }
  assert (Hsome : is_Some (PageMap.get pm1 n')).
  { apply page_is_free_Some in Hf' as (? & ? & _). eauto. }
  apply get_is_Some in Hsome as [i' Hi']; [|by apply pd_wf|done].
  assert (Hii : i < i').
  { apply (index_mono pm1 n n'); [by apply pd_wf|done|done| |done|lia]. by rewrite <-Hshape. }
  destruct (IH (Some n) (HypPageAlloc.mk (Some n') pm1) n' i') as (F & h' & -> & HF & Hd' & Hin & Hout).
  { done. }
  { by eapply (drain_pre_step pm pm1 tail n n' p). }
  { done. }
  { cbn. destruct Hshape as [_ ->]. lia. }
  cbn [HypPageAlloc.pages] in *. exists (n :: F), h'. split_and!; [done| |done|..].
  - apply (free_list_cons pm pm1 n n' F); try done. intros c Hc Hr. rewrite <-Hfree1 by (done || lia).
    apply Hgap; [done|lia].
  - eapply (drain_post_cons pm pm1 _ tail n n' p F); done.
  - eapply (drain_post_cons pm pm1 _ tail n n' p F); done.
Qed.

(** ** Properties *)

(** [alloc_pages] is a first-fit allocator: it returns the first aligned run
    of [count] free pages at or after the search position, marks the free pages
    from the search position to the end of the run as taken and changes no other
    page, and moves the search position to the next free page behind the run; it
    panics exactly when there is no such run. *)
Theorem alloc_pages_first_fit (h : HypPageAlloc.t) (count align s : Z) (st : PageState.t) :
  page_map_dense (HypPageAlloc.pages h) → PageMap.get (HypPageAlloc.pages h) 0 = None →
  HypPageAlloc.next_page h = Some s → phys s → is_Some (PageMap.get (HypPageAlloc.pages h) s) →
  0 < count < 2 ^ 44 → takeable st →
  (∃ b, phys b ∧ s ≤ b ∧ suitable (HypPageAlloc.pages h) count align b = true ∧
    (∀ c, phys c → s ≤ c < b → suitable (HypPageAlloc.pages h) count align c = false) ∧
    alloc_post count align s st h b (HypPageAlloc.alloc_pages count align st h)) ∨
  ((∀ c, phys c → s ≤ c → suitable (HypPageAlloc.pages h) count align c = false) ∧
    HypPageAlloc.alloc_pages count align st h = Panics).
Proof. apply alloc_pages_spec_aux. Qed.

(** Four RAM pages at 64kB, two at 128kB. *)
Definition two_bank_map : PageMap.t :=
  PageMap.mk (repeat PageInfo.new 6) 6
    [SparseMapEntry.mk 16 4 0; SparseMapEntry.mk 32 2 4].

Lemma two_bank_map_dense : page_map_dense two_bank_map.
Proof.
  split; [split|..]; cbn.
  - rewrite !ordered_cons. unfold pfn_end. cbn. pose proof (ordered_nil SparseMapEntry.base_pfn pfn_end).
    repeat constructor; (done || cbn; lia).
  - rewrite !ordered_cons. unfold index_end. cbn.
    pose proof (ordered_nil SparseMapEntry.page_map_index index_end).
    repeat constructor; (done || cbn; lia).
  - unfold pfn_end, index_end. repeat constructor; cbn; lia.
  - lia.
  - repeat constructor; cbn; lia.
  - intros [|[|i]] e e' He He'; cbn in *; simplify_eq; done.
  - intros [|[|i]] e He He'; cbn in *; simplify_eq; done.
Qed.

Lemma alloc_pages_first_fit_witness :
  alloc_post 2 8192 65536 ConvertedLocked (HypPageAlloc.mk (Some 65536) two_bank_map) 65536
    (HypPageAlloc.alloc_pages 2 8192 ConvertedLocked (HypPageAlloc.mk (Some 65536) two_bank_map)).
Proof.
  destruct (alloc_pages_first_fit (HypPageAlloc.mk (Some 65536) two_bank_map) 2 8192 65536 ConvertedLocked)
    as [(b & Hb & Hle & _ & Hfirst & Hpost)|[_ Hp]];
    [exact two_bank_map_dense|done|done|split; [lia|done]|by vm_compute; eauto|lia|by left| |].
  - assert (b = 65536) as ->; [|exact Hpost].
    destruct (decide (b = 65536)) as [|Hne]; [done|].
    assert (suitable two_bank_map 2 8192 65536 = false) as Hs by (apply Hfirst; [split; [lia|done]|lia]).
    vm_compute in Hs. done.
  - vm_compute in Hp. done.
Defined.

Lemma drain_spec_aux (h : HypPageAlloc.t) (n : Z) :
  HypPageAlloc.next_page h = Some n → drain_pre (HypPageAlloc.pages h) None n →
  ∃ F pm', HypPageAlloc.drain h = Returns (pm', n) ∧
    free_list (HypPageAlloc.pages h) n F ∧ drain_post F (HypPageAlloc.pages h) pm'.
Proof.
  intros Hnext Hpre. pose proof Hpre as [Hd _ [Hn Hfree] _ _].
  apply page_is_free_Some in Hfree as (p & Hp & _).
  assert (is_Some (PageMap.get_map_index (HypPageAlloc.pages h) n)) as [i Hi].
  { apply get_is_Some; [by apply pd_wf|done|eauto]. }
  pose proof (get_map_index_bound _ _ _ (pd_wf _ Hd) Hn Hi).
  destruct (drain_loop_spec (S (length (PageMap.pages (HypPageAlloc.pages h)))) None h n i)
    as (F & h' & E & HF & Hd' & Hin & Hout); [done|done|done|lia|].
  exists F, (HypPageAlloc.pages h'). unfold HypPageAlloc.drain. rewrite E, Hnext. split_and!; [done..|].
  split; [done|done|]. intros a Ha Hnin. by rewrite Hout.
Qed.

(** [drain] takes every free page from the search position on, marks it
    converted-and-locked for the hypervisor and links it to the next one in
    address order; all other pages keep their records, and the loop terminates. *)
Theorem drain_links_free_pages (h : HypPageAlloc.t) (n : Z) :
  HypPageAlloc.next_page h = Some n → drain_pre (HypPageAlloc.pages h) None n →
  ∃ F pm', HypPageAlloc.drain h = Returns (pm', n) ∧
    free_list (HypPageAlloc.pages h) n F ∧ drain_post F (HypPageAlloc.pages h) pm'.
Proof. apply drain_spec_aux. Qed.

Lemma drain_links_free_pages_witness :
  ∃ F pm', HypPageAlloc.drain (HypPageAlloc.mk (Some 65536) two_bank_map) = Returns (pm', 65536) ∧
    free_list two_bank_map 65536 F ∧ drain_post F two_bank_map pm'.
Proof.
  apply (drain_links_free_pages (HypPageAlloc.mk (Some 65536) two_bank_map)); [done|].
  split; [exact two_bank_map_dense|done|split; [split; [lia|done]|done]| |done].
  intros a p Ha Hle Hp _. unfold PageMap.get in Hp.
  destruct (PageMap.get_map_index _ a) as [i|]; [|done].
  apply list_elem_of_lookup_2, list_elem_of_In, repeat_spec in Hp. by subst p.
Defined.

(** The search for the next free page gives up when the address behind an
    allocation is not part of the memory map: after allocating the whole first
    bank, the allocator reports no free page although the second bank is free,
    and the final drain panics. *)
Theorem alloc_loses_memory_behind_hole :
  ∃ r h', HypPageAlloc.alloc_pages 4 4096 ConvertedLocked (HypPageAlloc.mk (Some 65536) two_bank_map)
      = Returns (r, h') ∧
    HypPageAlloc.next_page h' = None ∧
    page_is_free (HypPageAlloc.pages h') 131072 = true ∧
    HypPageAlloc.drain h' = Panics.
Proof. do 2 eexists. do 3 (split; [vm_compute; reflexivity|]). vm_compute. reflexivity. Qed.

(** RAM banks of which the second is smaller than the alignment and is therefore
    kept as an empty region. *)
Definition tiny_bank_map : outcome (result HwMemMap.error HwMemMap.t) :=
  m ← HwMemMapBuilder.new 16384;
  r ← HwMemMapBuilder.add_memory_region 65536 32768 m;
  m ← unwrap_result r;
  r ← HwMemMapBuilder.add_memory_region 131072 4096 m;
  m ← unwrap_result r;
  HwMemMapBuilder.add_memory_region 262144 32768 m.

(** A memory region smaller than the RAM alignment is accepted as an empty
    region; the page iterator then reports the page behind it under the empty
    region's address, which is not in the map: once the first bank is used up the
    next free page is wrong and the final drain panics. *)
Theorem empty_region_misleads_iterator :
  ∃ m pm r h', tiny_bank_map = Returns (Ok m) ∧
    PageMap.populate_from m (PageMap.new 100) = Returns pm ∧
    HypPageAlloc.alloc_pages 7 4096 ConvertedLocked (HypPageAlloc.mk (Some 65536) pm) = Returns (r, h') ∧
    HypPageAlloc.next_page h' = Some 94208 ∧
    HypPageAlloc.drain h' = Panics ∧
    (∃ pm', HypPageAlloc.take_free_pages ConvertedLocked [94208] (HypPageAlloc.pages h') = Returns pm' ∧
      HypPageAlloc.next_free_page pm' 94208 = Returns (Some 131072) ∧
      PageMap.get pm' 131072 = None).
Proof.
  do 4 eexists. do 5 (split; [vm_compute; reflexivity|]).
  eexists. do 2 (split; [vm_compute; reflexivity|]). vm_compute. reflexivity.
Qed.
