(* ===== verification/Tracker.v ===== *)
(** * The page tracker (page-tracking/src/page_tracker.rs, page_list.rs)

    [PageTracker] is the shared, mutex-protected record of all pages and active
    guests; every method takes the lock for its whole body, so each is one atomic
    step on the state [PageTracker.t].  [PageList] and [LockedPageList] are linked
    lists threaded through the page records. *)
From S2P Require Import Prelude Intervals RiscvPages MemMap PageInfoModel PageMapModel HypAlloc.
Import PageSize(Size4k).
Import PageState(Reserved, Free, Mapped, Shared, VmState, HypState, Converting, Unassigning,
  Converted, ConvertedLocked).
Import PageTrackingError(GuestOverflow, IdOverflow, InvalidPage, OwnerOverflow, OwnerUnderflow,
  UnownedPage, HypervisorStatePage, ReservedPage, OwnerMismatch, SharedPage, PageNotConvertible,
  PageNotAssignable, PageNotUnassignable, PageNotReclaimable, PageNotShareable, PageNotShared,
  InvalidStateTransition, PageNotLocked, PageLocked, PageAlreadyLinked, RefCountOverflow,
  RefCountUnderflow).

Module PageTracker.
(** [PageTrackerInner]; [guests_capacity] is the capacity of the [RawPageVec]. *)
Record t := mk {
  next_owner_id : Z;
  active_guests : list PageOwnerId.t;
  guests_capacity : Z;
  pages : PageMap.t
}.

Abbreviation error := PageTrackingError.t.

Definition set_pages (pm : PageMap.t) (s : t) : t :=
  mk (next_owner_id s) (active_guests s) (guests_capacity s) pm.

(** [PageTrackerInner::get] and [get_mut]; [put_info] writes through the
    reference that [get_mut] returns. *)
Definition get (addr : Z) : M t error PageInfo.t :=
  s ← Prelude.get; lift (ok_or (PageMap.get (pages s) addr) (InvalidPage addr)).
Definition put_info (addr : Z) (p : PageInfo.t) : M t error unit :=
  modify (λ s, set_pages (PageMap.set addr p (pages s)) s).

(** [get_mut(addr)?] and [get_mut(addr).unwrap()] followed by an update. *)
Definition update (addr : Z) (f : PageInfo.t → result error PageInfo.t) : M t error unit :=
  info ← get addr; p ← lift (f info); put_info addr p.
Definition update_unwrap (addr : Z) (f : PageInfo.t → result error PageInfo.t) : M t error unit :=
  info ← unwrap (get addr); p ← lift (f info); put_info addr p.
Definition assign_unwrap (addr : Z) (o : PageOwnerId.t) (st : PageState.t) : M t error unit :=
  info ← unwrap (get addr);
  r ← of_outcome (PageInfo.assign o st info);
  p ← lift r;
  put_info addr p.

Definition add_active_guest : M t error PageOwnerId.t :=
  s ← Prelude.get;
  id ← of_outcome (unwrap_option (PageOwnerId.new (next_owner_id s)));
  n ← lift (ok_or (checked_add (next_owner_id s) 1) IdOverflow);
  modify (λ s, mk n (active_guests s) (guests_capacity s) (pages s));;
  s ← Prelude.get;
  if guests_capacity s <? Z.of_nat (length (active_guests s)) + 1 then err GuestOverflow
  else
    put (mk (next_owner_id s) (active_guests s ++ [id]) (guests_capacity s) (pages s));;
    mret id.

Definition rm_active_guest (remove_id : PageOwnerId.t) : M t error unit :=
  modify (λ s, mk (next_owner_id s) (List.filter (λ id, negb (id =? remove_id)) (active_guests s))
                  (guests_capacity s) (pages s)).

Definition same_page (page : Page.t) : M t error Page.t :=
  of_outcome (Page.new_with_size (Page.addr page) (Page.size page)).

Definition assign_page_for_mapping (page : Page.t) (owner : PageOwnerId.t) : M t error Page.t :=
  assign_unwrap (Page.addr page) owner Mapped;; same_page page.

(** The typing check of the shareable pages: owner, memory type, state. *)
Definition check_shareable (mem_type : MemType.t) (owner : PageOwnerId.t) (info : PageInfo.t) : bool :=
  bool_decide (PageInfo.owner info = Some owner) && bool_decide (PageInfo.mem_type info = mem_type)
  && PageInfo.is_shareable info.

Definition share_page (mem_type : MemType.t) (page : Page.t) (owner : PageOwnerId.t) : M t error Page.t :=
  info ← unwrap (get (Page.addr page));
  if negb (check_shareable mem_type owner info) then err PageNotShareable
  else
    p ← lift (PageInfo.share info);
    put_info (Page.addr page) p;;
    same_page page.

Definition assign_page_for_internal_state (page : Page.t) (owner : PageOwnerId.t) : M t error Page.t :=
  assign_unwrap (Page.addr page) owner VmState;; same_page page.

Definition release_page (page : Page.t) : M t error unit :=
  update_unwrap (Page.addr page) PageInfo.release.

Definition release_page_by_addr (addr : Z) (owner : PageOwnerId.t) : M t error unit :=
  update addr (λ info,
    if negb (bool_decide (PageInfo.owner info = Some owner)) && negb (PageInfo.is_shared info)
    then Err OwnerMismatch
    else PageInfo.release info).

Definition convert_page (page : Page.t) (tlb_version : TlbVersion.t) : M t error unit :=
  update_unwrap (Page.addr page) (PageInfo.begin_conversion tlb_version).

Definition reclaim_page (page : Page.t) : M t error Page.t :=
  update_unwrap (Page.addr page) PageInfo.reclaim;; same_page page.

(** The condition is lazy: [complete_conversion] runs only for a page of the
    owner and type that is not converted yet, and mutates it when it succeeds. *)
Definition convert_if_needed (tlb_version : TlbVersion.t) (info : PageInfo.t) : result error PageInfo.t :=
  if bool_decide (PageInfo.state info = Converted) then Ok info
  else PageInfo.complete_conversion tlb_version info.

Definition get_converted_page (mem_type : MemType.t) (addr : Z) (owner : PageOwnerId.t)
    (tlb_version : TlbVersion.t) : M t error Page.t :=
  info ← get addr;
  if negb (bool_decide (PageInfo.owner info = Some owner))
     || negb (bool_decide (PageInfo.mem_type info = mem_type))
  then err PageNotConvertible
  else
    match convert_if_needed tlb_version info with
    | Err _ => err PageNotConvertible
    | Ok info =>
        put_info addr info;;
        p ← lift (PageInfo.lock_for_assignment info);
        put_info addr p;;
        of_outcome (Page.new addr)
    end.

Definition unassign_page_begin (page : Page.t) (tlb_version : TlbVersion.t) : M t error unit :=
  update_unwrap (Page.addr page) (PageInfo.begin_unassignment tlb_version).

Definition unassign_page_complete (addr : Z) (owner : PageOwnerId.t) (mem_type : MemType.t)
    (tlb_version : TlbVersion.t) : M t error unit :=
  update addr (λ info,
    if negb (bool_decide (PageInfo.owner info = Some owner))
       || negb (bool_decide (PageInfo.mem_type info = mem_type))
    then Err PageNotUnassignable
    else PageInfo.complete_unassignment tlb_version info).

Definition unlock_page (page : Page.t) : M t error unit :=
  update (Page.addr page) PageInfo.unlock.

(** The queries: [false] for a page that is not in the map. *)
Definition query (addr : Z) (f : PageInfo.t → bool) (s : t) : bool :=
  match PageMap.get (pages s) addr with Some info => f info | None => false end.

Definition is_owned (addr : Z) (owner : PageOwnerId.t) : t → bool :=
  query addr (λ info, bool_decide (PageInfo.owner info = Some owner)).
Definition is_mapped_page (addr : Z) (owner : PageOwnerId.t) (mem_type : MemType.t) : t → bool :=
  query addr (λ info, bool_decide (PageInfo.owner info = Some owner)
    && bool_decide (PageInfo.mem_type info = mem_type) && bool_decide (PageInfo.state info = Mapped)).
Definition get_shareable_page (mem_type : MemType.t) (addr : Z) (owner : PageOwnerId.t)
    : M t error Page.t :=
  info ← get addr;
  if negb (check_shareable mem_type owner info) then err PageNotShareable
  else of_outcome (Page.new addr).
Definition is_shared_page (addr : Z) (mem_type : MemType.t) : t → bool :=
  query addr (λ info, bool_decide (PageInfo.mem_type info = mem_type) && PageInfo.is_shared info).
Definition is_shareable_page (addr : Z) (owner : PageOwnerId.t) (mem_type : MemType.t) : t → bool :=
  query addr (check_shareable mem_type owner).
Definition is_converted_page (addr : Z) (owner : PageOwnerId.t) (mem_type : MemType.t)
    (tlb_version : TlbVersion.t) : t → bool :=
  query addr (λ info, bool_decide (PageInfo.owner info = Some owner)
    && bool_decide (PageInfo.mem_type info = mem_type)
    && (bool_decide (PageInfo.state info = Converted) || PageInfo.is_convertible tlb_version info)).
Definition is_unassignable_page (addr : Z) (owner : PageOwnerId.t) (mem_type : MemType.t)
    (tlb_version : TlbVersion.t) : t → bool :=
  query addr (λ info, bool_decide (PageInfo.owner info = Some owner)
    && bool_decide (PageInfo.mem_type info = mem_type) && PageInfo.is_unassignable tlb_version info).
Definition is_internal_state_page (addr : Z) (owner : PageOwnerId.t) : t → bool :=
  query addr (λ info, bool_decide (PageInfo.owner info = Some owner)
    && bool_decide (PageInfo.mem_type info = MemType.Ram) && bool_decide (PageInfo.state info = VmState)).

Definition link_pages (a b : Z) : M t error unit :=
  dst ← get b;
  match PageInfo.next dst with
  | Some _ => err PageAlreadyLinked
  | None => update a (PageInfo.link b)
  end.

(** [get_mut(addr).ok()?]: a missing page is [None]. *)
Definition unlink_page (addr : Z) (s : t) : option Z * t :=
  match PageMap.get (pages s) addr with
  | None => (None, s)
  | Some info => (PageInfo.next info, set_pages (PageMap.set addr (PageInfo.unlink info) (pages s)) s)
  end.
Definition linked_page (addr : Z) (s : t) : option Z :=
  info ← PageMap.get (pages s) addr; PageInfo.next info.
End PageTracker.

Module PageList.
Record t := mk { head : option Z; tail : option Z; len : Z }.
Abbreviation error := PageTrackingError.t.

Definition new : t := mk None None 0.

(** The walk to the end of an existing list; a list has at most as many pages as
    the page map, so [fuel] is not exhausted by an acyclic list. *)
Fixpoint walk (pt : PageTracker.t) (fuel : nat) (tail len : Z) : option (Z * Z) :=
  match PageTracker.linked_page tail pt with
  | None => Some (tail, len)
  | Some addr => match fuel with
                 | O => None
                 | S k => walk pt k addr (wrap64 (len + 1))
                 end
  end.
(** [None] stands for a walk that does not end. *)
Definition from_raw_parts (pt : PageTracker.t) (head : Z) : option t :=
  '(tail, len) ← walk pt (length (PageMap.pages (PageTracker.pages pt))) head 1;
  Some (mk (Some head) (Some tail) len).

Definition push (page : Page.t) (l : t) : M PageTracker.t error t :=
  match tail l with
  | Some tail_addr =>
      PageTracker.link_pages tail_addr (Page.addr page);;
      mret (mk (head l) (Some (Page.addr page)) (wrap64 (len l + 1)))
  | None => mret (mk (Some (Page.addr page)) (Some (Page.addr page)) (wrap64 (len l + 1)))
  end.

Definition pop (l : t) : M PageTracker.t error (option Page.t * t) := λ s,
  match head l with
  | None => Returns (Ok (None, l), s)
  | Some addr =>
      let '(next, s') := PageTracker.unlink_page addr s in
      match Page.new addr with
      | Returns page =>
          Returns (Ok (Some page,
            mk next (match next with None => None | Some _ => tail l end) (wrap64 (len l - 1))), s')
      | Panics => Panics
      end
  end.

Definition is_empty (l : t) : bool := bool_decide (head l = None).
Definition peek (l : t) : option Z := head l.

Fixpoint contiguous_from (pt : PageTracker.t) (fuel : nat) (prev : Z) : bool :=
  match fuel with
  | O => true
  | S k =>
      match PageTracker.linked_page prev pt with
      | None => true
      | Some addr =>
          match PageAddr.checked_add_pages prev 1 with
          | Some next => if addr =? next then contiguous_from pt k next else false
          | None => false
          end
      end
  end.
(** The loop climbs by a page per step, so it ends within the page map. *)
Definition is_contiguous (pt : PageTracker.t) (l : t) : bool :=
  match head l with
  | None => true
  | Some h => contiguous_from pt (S (length (PageMap.pages (PageTracker.pages pt)))) h
  end.

(** [Drop for PageList]: pops until the list is empty. *)
Fixpoint drop_ (fuel : nat) (l : t) : M PageTracker.t error unit :=
  '(p, l') ← pop l;
  match p, fuel with
  | None, _ => mret tt
  | Some _, O => mret tt
  | Some _, S k => drop_ k l'
  end.
End PageList.

Module LockedPageList.
(** [Drop for LockedPageList]: also unlocks every page. *)
Fixpoint drop_ (fuel : nat) (l : PageList.t) : M PageTracker.t PageTrackingError.t unit :=
  '(p, l') ← PageList.pop l;
  match p, fuel with
  | None, _ => mret tt
  | Some page, O => unwrap (PageTracker.unlock_page page)
  | Some page, S k => unwrap (PageTracker.unlock_page page);; drop_ k l'
  end.
End LockedPageList.

(** [PageTracker::from]; [owner_size] is [size_of::<PageOwnerId>()].  The
    storage page of the tracker itself holds no modelled state. *)
Definition tracker_from (owner_size : Z) (hyp_mem : HypPageAlloc.t) (host_alignment : Z)
    : outcome (PageTracker.t * PageList.t) :=
  '(guest_pages, hyp_mem) ← HypPageAlloc.take_pages_for_host_state 2 hyp_mem;
  let cap := SequentialPages.length_bytes guest_pages / owner_size in
  guests ← (if 0 <? cap then Returns [PageOwnerId.host] else Panics);
  '(storage, hyp_mem) ← HypPageAlloc.take_pages_for_host_state 1 hyp_mem;
  '(first, _) ← SequentialPages.iter_next storage;
  _ ← unwrap_option first;
  '(_, hyp_mem) ← HypPageAlloc.take_pages (host_alignment / PageSize.bytes Size4k) host_alignment hyp_mem;
  '(page_map, head_addr) ← HypPageAlloc.drain hyp_mem;
  let pt := PageTracker.mk 2 guests cap page_map in
  host_pages ← unwrap_option (PageList.from_raw_parts pt head_addr);
  Returns (pt, host_pages).
