(* ===== verification/TrackerFacts.v ===== *)
(** * Theorems about the page tracker

    Every method of [PageTracker] moves at most one page along its life cycle;
    the invariant [tracker_wf] holds after any sequence of calls, calls on known
    pages never panic, and no sequence of calls hands a page in use to a child
    owner without a conversion that was completed at a newer TLB version than it
    was begun at.  The queries agree with the operations they guard. *)
From S2P Require Import Prelude Intervals RiscvPages MemMap PageInfoModel PageMapModel HypAlloc Tracker.
Import PageSize(Size4k).
Import PageState(Reserved, Free, Mapped, Shared, VmState, HypState, Converting, Unassigning,
  Converted, ConvertedLocked).
Import PageTrackingError(InvalidPage, PageNotConvertible, PageAlreadyLinked).

Definition get_page (s : PageTracker.t) (a : Z) : option PageInfo.t :=
  PageMap.get (PageTracker.pages s) a.
Definition set_page (a : Z) (p : PageInfo.t) (s : PageTracker.t) : PageTracker.t :=
  PageTracker.set_pages (PageMap.set a p (PageTracker.pages s)) s.

Record tracker_wf (s : PageTracker.t) : Prop := {
  tw_map : page_map_wf (PageTracker.pages s);
  tw_pages : ∀ a p, phys a → get_page s a = Some p → page_info_wf p;
  tw_next : 2 ≤ PageTracker.next_owner_id s < U64;
  tw_guests : NoDup (PageTracker.active_guests s);
  tw_ids : Forall (λ g, g = PageOwnerId.host ∨ 2 ≤ g < PageTracker.next_owner_id s)
    (PageTracker.active_guests s);
  tw_cap : Z.of_nat (length (PageTracker.active_guests s)) ≤ PageTracker.guests_capacity s
}.

(** ** Normal forms of the updates *)
Lemma update_eq a f s :
  PageTracker.update a f s =
  match get_page s a with
  | None => Returns (Err (InvalidPage a), s)
  | Some info => match f info with
                 | Ok p => Returns (Ok tt, set_page a p s)
                 | Err e => Returns (Err e, s)
                 end
  end.
Proof.
  unfold PageTracker.update, PageTracker.get, PageTracker.put_info, get_page. msimpl.
  destruct (PageMap.get _ a) as [info|]; [|done]. by destruct (f info).
Qed.

Lemma update_unwrap_eq a f s :
  PageTracker.update_unwrap a f s =
  match get_page s a with
  | None => Panics
  | Some info => match f info with
                 | Ok p => Returns (Ok tt, set_page a p s)
                 | Err e => Returns (Err e, s)
                 end
  end.
Proof.
  unfold PageTracker.update_unwrap, PageTracker.get, PageTracker.put_info, get_page. msimpl.
  destruct (PageMap.get _ a) as [info|]; [|done]. by destruct (f info).
Qed.

Lemma assign_unwrap_eq a o st s :
  PageTracker.assign_unwrap a o st s =
  match get_page s a with
  | None => Panics
  | Some info => match PageInfo.assign o st info with
                 | Returns (Ok p) => Returns (Ok tt, set_page a p s)
                 | Returns (Err e) => Returns (Err e, s)
                 | Panics => Panics
                 end
  end.
Proof.
  unfold PageTracker.assign_unwrap, PageTracker.get, PageTracker.put_info, get_page. msimpl.
  destruct (PageMap.get _ a) as [info|]; [|done]. by destruct (PageInfo.assign o st info) as [[]|].
Qed.

Lemma get_page_set_eq s a p q :
  page_map_wf (PageTracker.pages s) → phys a → get_page s a = Some q → get_page (set_page a p s) a = Some p.
Proof. apply get_set_eq. Qed.

Lemma get_page_set_ne s a b p :
  page_map_wf (PageTracker.pages s) → phys a → phys b → a ≠ b →
  get_page (set_page a p s) b = get_page s b.
Proof. apply get_set_ne. Qed.

(** ** Effect of one call: a page moves along its life cycle *)

(** Either nothing changed, or page [a] went through operations of [emit]. *)
Definition page_effect (emit : list page_op) (a : Z) (s s' : PageTracker.t) : Prop :=
  s' = s ∨ ∃ p ops q, get_page s a = Some p ∧ s' = set_page a q s ∧ page_steps p ops q ∧
    Forall (λ x, x ∈ emit) ops.

Lemma page_steps_one op p q : apply_op op p = Returns (Ok q) → page_steps p [op] q.
Proof. intros H. change [op] with ([] ++ [op]). eapply steps_snoc; [constructor|done]. Qed.

Lemma page_effect_one op emit a s p q :
  get_page s a = Some p → apply_op op p = Returns (Ok q) → op ∈ emit →
  page_effect emit a s (set_page a q s).
Proof.
  intros Hp Hop Hin. right. exists p, [op], q. split_and!; [done|done|by apply page_steps_one|].
  by apply list.Forall_singleton.
Qed.

Lemma set_page_set_page a p q s : set_page a p (set_page a q s) = set_page a p s.
Proof.
  unfold set_page, PageTracker.set_pages. cbn. f_equal. unfold PageMap.set at 1. rewrite set_index.
  unfold PageMap.set. destruct (PageMap.get_map_index (PageTracker.pages s) a); [|done].
  cbn. by rewrite list_insert_insert_eq.
Qed.

Lemma tracker_wf_set_page s a p q :
  tracker_wf s → phys a → get_page s a = Some p → page_info_wf q → tracker_wf (set_page a q s).
Proof.
  intros [Hm Hp Hn Hg Hi Hc] Ha Hpa Hq. split; cbn; try done; [by apply set_wf|].
  intros b pb Hb Hpb. destruct (decide (a = b)) as [->|Hne].
  - rewrite (get_page_set_eq s b q p) in Hpb by done. by simplify_eq.
  - rewrite get_page_set_ne in Hpb by done. by eapply Hp.
Qed.

Lemma page_effect_wf emit a s s' :
  tracker_wf s → phys a → page_effect emit a s s' → tracker_wf s'.
Proof.
  intros Hwf Ha [->|(p & ops & q & Hp & -> & Hst & _)]; [done|].
  eapply tracker_wf_set_page; [done|done|done|]. eapply page_steps_wf; [|done]. by eapply tw_pages.
Qed.

(** The effect on an arbitrary page [b]. *)
Lemma page_effect_at emit a s s' b p :
  tracker_wf s → phys a → phys b → page_effect emit a s s' → get_page s b = Some p →
  ∃ ops q, get_page s' b = Some q ∧ page_steps p ops q ∧ Forall (λ x, b = a ∧ x ∈ emit) ops.
Proof.
  intros Hwf Ha Hb Heff Hp. pose proof (tw_map _ Hwf).
  assert (Hsame : get_page s' b = get_page s b → ∃ ops q, get_page s' b = Some q ∧
    page_steps p ops q ∧ Forall (λ x, b = a ∧ x ∈ emit) ops).
  { intros E. exists [], p. rewrite E. split_and!; [done|constructor|constructor]. }
  destruct Heff as [->|(p' & ops & q & Hp' & -> & Hst & Hem)]; [by apply Hsame|].
  destruct (decide (a = b)) as [<-|Hne]; [|by apply Hsame, get_page_set_ne].
  rewrite Hp in Hp'. simplify_eq. exists ops, q. split_and!; [by eapply get_page_set_eq|done|].
  eapply list.Forall_impl; [exact Hem|]. done.
Qed.

Lemma page_effect_absent emit a s s' b :
  phys a → phys b → page_effect emit a s s' → get_page s b = None → get_page s' b = None.
Proof.
  intros Ha Hb [->|(p' & ops & q & Hp' & -> & _)] Hnone; [done|].
  unfold get_page, set_page, PageTracker.set_pages, PageMap.get in *. cbn. rewrite set_index.
  destruct (PageMap.get_map_index _ b) as [i|]; [|done]. cbn in *.
  unfold PageMap.set. destruct (PageMap.get_map_index _ a); [|done]. cbn.
  apply lookup_ge_None. rewrite length_insert. by apply lookup_ge_None.
Qed.

(** ** The methods as one operation type *)
Inductive tracker_op :=
| TAssignMapping (page : Page.t) (o : PageOwnerId.t)
| TAssignState (page : Page.t) (o : PageOwnerId.t)
| TShare (mt : MemType.t) (page : Page.t) (o : PageOwnerId.t)
| TRelease (page : Page.t)
| TReleaseByAddr (a : Z) (o : PageOwnerId.t)
| TConvert (page : Page.t) (v : TlbVersion.t)
| TReclaim (page : Page.t)
| TGetConverted (mt : MemType.t) (a : Z) (o : PageOwnerId.t) (v : TlbVersion.t)
| TUnassignBegin (page : Page.t) (v : TlbVersion.t)
| TUnassignComplete (a : Z) (o : PageOwnerId.t) (mt : MemType.t) (v : TlbVersion.t)
| TUnlock (page : Page.t)
| TLink (a b : Z)
| TUnlink (a : Z)
| TAddGuest
| TRmGuest (id : PageOwnerId.t).

Definition run_op (op : tracker_op) : M PageTracker.t PageTrackingError.t unit :=
  match op with
  | TAssignMapping page o => PageTracker.assign_page_for_mapping page o;; mret tt
  | TAssignState page o => PageTracker.assign_page_for_internal_state page o;; mret tt
  | TShare mt page o => PageTracker.share_page mt page o;; mret tt
  | TRelease page => PageTracker.release_page page
  | TReleaseByAddr a o => PageTracker.release_page_by_addr a o
  | TConvert page v => PageTracker.convert_page page v
  | TReclaim page => PageTracker.reclaim_page page;; mret tt
  | TGetConverted mt a o v => PageTracker.get_converted_page mt a o v;; mret tt
  | TUnassignBegin page v => PageTracker.unassign_page_begin page v
  | TUnassignComplete a o mt v => PageTracker.unassign_page_complete a o mt v
  | TUnlock page => PageTracker.unlock_page page
  | TLink a b => PageTracker.link_pages a b
  | TUnlink a => λ s, Returns (Ok tt, snd (PageTracker.unlink_page a s))
  | TAddGuest => PageTracker.add_active_guest;; mret tt
  | TRmGuest id => PageTracker.rm_active_guest id
  end.

(** The page a method may change, and the life-cycle operations it may perform. *)
Definition op_page (op : tracker_op) : option Z :=
  match op with
  | TAssignMapping page _ | TAssignState page _ | TShare _ page _ | TRelease page
  | TConvert page _ | TReclaim page | TUnassignBegin page _ | TUnlock page => Some (Page.addr page)
  | TReleaseByAddr a _ | TGetConverted _ a _ _ | TUnassignComplete a _ _ _ | TLink a _
  | TUnlink a => Some a
  | TAddGuest | TRmGuest _ => None
  end.

Definition op_emits (op : tracker_op) : list page_op :=
  match op with
  | TAssignMapping _ o => [OpAssign o Mapped]
  | TAssignState _ o => [OpAssign o VmState]
  | TShare _ _ _ => [OpShare]
  | TRelease _ | TReleaseByAddr _ _ => [OpRelease]
  | TConvert _ v => [OpBeginConversion v]
  | TReclaim _ => [OpReclaim]
  | TGetConverted _ _ _ v => [OpCompleteConversion v; OpLock]
  | TUnassignBegin _ v => [OpBeginUnassignment v]
  | TUnassignComplete _ _ _ v => [OpCompleteUnassignment v]
  | TUnlock _ => [OpUnlock]
  | TLink _ b => [OpLink b]
  | TUnlink _ => [OpUnlink]
  | TAddGuest | TRmGuest _ => []
  end.

Lemma then_inv {S E A} (m : M S E A) s r s' :
  (m ≫= λ _, mret tt) s = Returns (r, s') → ∃ r', m s = Returns (r', s').
Proof. intros [(a & s1 & H1 & H2)|(e & H1 & _)]%bind_inv; [|eauto]. unfold mret, M_ret in H2. simplify_eq. eauto. Qed.

Lemma same_page_inv page (s : PageTracker.t) r s' :
  PageTracker.same_page page s = Returns (r, s') → s' = s.
Proof. unfold PageTracker.same_page, of_outcome. by case_match; intros; simplify_eq. Qed.

(** An update that applies one life-cycle operation. *)
Lemma update_effect op emit a f s r s' :
  (∀ p q, f p = Ok q → apply_op op p = Returns (Ok q)) → op ∈ emit →
  PageTracker.update a f s = Returns (r, s') ∨ PageTracker.update_unwrap a f s = Returns (r, s') →
  page_effect emit a s s'.
Proof.
  intros Hf Hin. rewrite update_eq, update_unwrap_eq.
  destruct (get_page s a) as [p|] eqn:Hp; [|intros [?|?]; simplify_eq; by left].
  destruct (f p) as [q|e] eqn:Hq; intros [?|?]; simplify_eq; try (by left);
    eapply page_effect_one; eauto.
Qed.

Lemma assign_effect emit o st page s r s' :
  OpAssign o st ∈ emit →
  (PageTracker.assign_unwrap (Page.addr page) o st;; PageTracker.same_page page) s = Returns (r, s') →
  page_effect emit (Page.addr page) s s'.
Proof.
  intros Hin H. apply bind_inv in H as [(u & s1 & H1 & H2)|(e & H1 & _)].
  - apply same_page_inv in H2 as ->. rewrite assign_unwrap_eq in H1.
    destruct (get_page s (Page.addr page)) as [p|] eqn:Hp; [|done].
    destruct (PageInfo.assign o st p) as [[q|e]|] eqn:Hq; simplify_eq.
    by eapply (page_effect_one (OpAssign o st)).
  - rewrite assign_unwrap_eq in H1. repeat case_match; simplify_eq. by left.
Qed.

Lemma share_effect mt page o s r s' :
  PageTracker.share_page mt page o s = Returns (r, s') → page_effect [OpShare] (Page.addr page) s s'.
Proof.
  unfold PageTracker.share_page, PageTracker.get, PageTracker.put_info. msimpl. fold (get_page s (Page.addr page)).
  destruct (get_page s (Page.addr page)) as [p|] eqn:Hp; [|done].
  destruct (negb _); [intros; simplify_eq; by left|].
  destruct (PageInfo.share p) as [q|e] eqn:Hq; [|intros; simplify_eq; by left].
  intros H. assert (s' = set_page (Page.addr page) q s) as ->.
  { revert H. unfold PageTracker.same_page. msimpl. by case_match; intros; simplify_eq. }
  eapply (page_effect_one OpShare); [done|cbn; by rewrite Hq|set_solver].
Qed.

Lemma get_converted_effect mt a o v s r s' :
  tracker_wf s → phys a → PageTracker.get_converted_page mt a o v s = Returns (r, s') →
  page_effect [OpCompleteConversion v; OpLock] a s s'.
Proof.
  intros Hwf Ha. unfold PageTracker.get_converted_page, PageTracker.get, PageTracker.put_info. msimpl.
  fold (get_page s a). destruct (get_page s a) as [p|] eqn:Hp; [|intros; simplify_eq; by left].
  destruct (_ || _); [intros; simplify_eq; by left|].
  destruct (PageTracker.convert_if_needed v p) as [p1|e] eqn:Hp1; [|intros; simplify_eq; by left].
  fold (set_page a p1 s).
  assert (Hsteps : ∃ ops, page_steps p ops p1 ∧ Forall (λ x, x ∈ [OpCompleteConversion v; OpLock]) ops).
  { unfold PageTracker.convert_if_needed in Hp1. case_bool_decide; simplify_eq.
    - exists []. split; [constructor|by constructor].
    - exists [OpCompleteConversion v]. split; [apply page_steps_one; cbn; by rewrite Hp1|].
      apply list.Forall_singleton. set_solver. }
  destruct Hsteps as (ops & Hst & Hem).
  destruct (PageInfo.lock_for_assignment p1) as [p2|e] eqn:Hp2; intros H.
  - assert (s' = set_page a p2 (set_page a p1 s)) as ->.
    { revert H. by case_match; intros; simplify_eq. }
    rewrite set_page_set_page. right. exists p, (ops ++ [OpLock]), p2. split_and!; [done|done|..].
    + eapply steps_snoc; [done|]. cbn. by rewrite Hp2.
    + apply list.Forall_app. split; [done|]. apply list.Forall_singleton. set_solver.
  - simplify_eq. right. exists p, ops, p1. done.
Qed.

Lemma run_op_effect op a s r s' :
  tracker_wf s → op_page op = Some a → phys a → run_op op s = Returns (r, s') →
  page_effect (op_emits op) a s s'.
Proof.
  intros Hwf Hpage Ha. destruct op; cbn in Hpage |- *; simplify_eq; intros H.
  - apply then_inv in H as [r' H]. eapply assign_effect; [|exact H]. set_solver.
  - apply then_inv in H as [r' H]. eapply assign_effect; [|exact H]. set_solver.
  - apply then_inv in H as [r' H]. by eapply share_effect.
  - eapply (update_effect OpRelease); [..|right; exact H]; [cbn; congruence|set_solver].
  - eapply (update_effect OpRelease); [..|left; exact H]; [|set_solver].
    intros p q. cbn. case_match; [done|]. congruence.
  - eapply (update_effect (OpBeginConversion v)); [..|right; exact H]; [cbn; congruence|set_solver].
  - apply then_inv in H as [r' H]. unfold PageTracker.reclaim_page in H.
    apply bind_inv in H as [(u & s1 & H1 & ->%same_page_inv)|(e & H1 & _)];
      (eapply (update_effect OpReclaim); [..|right; exact H1]; [cbn; congruence|set_solver]).
  - apply then_inv in H as [r' H]. by eapply get_converted_effect.
  - eapply (update_effect (OpBeginUnassignment v)); [..|right; exact H]; [cbn; congruence|set_solver].
  - eapply (update_effect (OpCompleteUnassignment v)); [..|left; exact H]; [|set_solver].
    intros p q. cbn. case_match; [done|]. congruence.
  - eapply (update_effect OpUnlock); [..|left; exact H]; [cbn; congruence|set_solver].
  - unfold PageTracker.link_pages in H. apply bind_inv in H as [(d & s1 & H1 & H2)|(e & H1 & _)].
    + assert (s1 = s) as -> by (unfold PageTracker.get in H1; msimpl; by simplify_eq).
      destruct (PageInfo.next d); [unfold err in H2; simplify_eq; by left|].
      eapply (update_effect (OpLink b)); [..|left; exact H2]; [cbn; congruence|set_solver].
    + unfold PageTracker.get in H1. msimpl. simplify_eq. by left.
  - unfold PageTracker.unlink_page in H. destruct (PageMap.get _ a) as [p|] eqn:Hp; cbn in H; simplify_eq; [|by left].
    eapply (page_effect_one OpUnlink); [exact Hp|done|set_solver].
Qed.

(** ** Sequences of calls *)
Lemma add_guest_spec s :
  tracker_wf s →
  ∃ r s', PageTracker.add_active_guest s = Returns (r, s') ∧ tracker_wf s' ∧
    PageTracker.pages s' = PageTracker.pages s ∧
    PageTracker.next_owner_id s ≤ PageTracker.next_owner_id s' ∧
    (∀ id, r = Ok id → id = PageTracker.next_owner_id s ∧
      PageTracker.next_owner_id s' = id + 1 ∧
      PageTracker.active_guests s' = PageTracker.active_guests s ++ [id] ∧
      id ∉ PageTracker.active_guests s) ∧
    (∀ e, r = Err e → PageTracker.active_guests s' = PageTracker.active_guests s).
Proof.
  intros [Hm Hp Hn Hg Hi Hc]. unfold PageTracker.add_active_guest, PageOwnerId.new.
  erewrite bind_ok by done.
  assert ((PageTracker.next_owner_id s =? PageOwnerId.HOST) = false) as ->
    by (apply Z.eqb_neq; unfold PageOwnerId.HOST; lia).
  assert ((PageTracker.next_owner_id s =? PageOwnerId.HYPERVISOR) = false) as ->
    by (apply Z.eqb_neq; unfold PageOwnerId.HYPERVISOR; lia).
  cbn [orb unwrap_option]. erewrite bind_ok by done. unfold checked_add.
  destruct (Z.ltb_spec (PageTracker.next_owner_id s + 1) U64).
  2: { do 2 eexists. split; [reflexivity|]. split_and!; [done|done|lia|done|done]. }
  cbn [ok_or]. do 3 (erewrite bind_ok by done).
  assert (Hweak : Forall (λ g, g = PageOwnerId.host ∨ 2 ≤ g < PageTracker.next_owner_id s + 1)
    (PageTracker.active_guests s)).
  { eapply list.Forall_impl; [exact Hi|]. cbn. lia. }
  assert (Hfresh : PageTracker.next_owner_id s ∉ PageTracker.active_guests s).
  { intros Hin. rewrite list.Forall_forall in Hi. apply Hi in Hin as [Hh|Hr]; [|lia].
    unfold PageOwnerId.host, PageOwnerId.HOST in Hh. lia. }
  cbn [PageTracker.guests_capacity PageTracker.active_guests].
  destruct (Z.ltb_spec (PageTracker.guests_capacity s) (Z.of_nat (length (PageTracker.active_guests s)) + 1)).
  - do 2 eexists. split; [reflexivity|]. split_and!; [split; cbn; (done || lia)|done|cbn; lia|done|done].
  - erewrite bind_ok by done. do 2 eexists. split; [reflexivity|].
    split_and!; [|done|cbn; lia| |done].
    + split; cbn; try done; [lia|..].
      * apply list.NoDup_app. split_and!; [done| |apply NoDup_singleton]. set_solver.
      * apply list.Forall_app. split; [done|]. apply list.Forall_singleton. lia.
      * rewrite length_app. cbn. lia.
    + by intros id [= <-].
Qed.

Lemma rm_guest_wf s id :
  tracker_wf s → tracker_wf (PageTracker.mk (PageTracker.next_owner_id s)
    (List.filter (λ g, negb (g =? id)) (PageTracker.active_guests s))
    (PageTracker.guests_capacity s) (PageTracker.pages s)).
Proof.
  intros [Hm Hp Hn Hg Hi Hc]. split; cbn; try done.
  - apply NoDup_ListNoDup, List.NoDup_filter. by apply NoDup_ListNoDup.
  - apply list.Forall_forall. intros g Hin%list_elem_of_In%List.filter_In.
    rewrite list.Forall_forall in Hi. apply Hi, list_elem_of_In. tauto.
  - etrans; [|exact Hc]. apply inj_le, List.filter_length_le.
Qed.

(** The pages named by a call are page-aligned physical addresses. *)
Definition op_ok (op : tracker_op) : Prop := ∀ a, op_page op = Some a → phys a.

Lemma run_op_wf op s r s' :
  tracker_wf s → op_ok op → run_op op s = Returns (r, s') → tracker_wf s'.
Proof.
  intros Hwf Hok Hrun. destruct (op_page op) as [a|] eqn:Hpage.
  { eapply page_effect_wf; [done|by apply Hok|]. by eapply run_op_effect; eauto. }
  destruct op; cbn in Hpage, Hrun; simplify_eq.
  - apply then_inv in Hrun as [r' Hrun]. destruct (add_guest_spec s Hwf) as (r1 & s1 & E & Hwf' & _).
    rewrite E in Hrun. by simplify_eq.
  - unfold PageTracker.rm_active_guest, modify in Hrun. simplify_eq. by apply rm_guest_wf.
Qed.

(** What a call does to page [b]. *)
Lemma run_op_page op s r s' b p :
  tracker_wf s → op_ok op → phys b → run_op op s = Returns (r, s') → get_page s b = Some p →
  ∃ ops q, get_page s' b = Some q ∧ page_steps p ops q ∧
    Forall (λ x, op_page op = Some b ∧ x ∈ op_emits op) ops.
Proof.
  intros Hwf Hok Hb Hrun Hp. destruct (op_page op) as [a|] eqn:Hpage.
  - destruct (page_effect_at (op_emits op) a s s' b p) as (ops & q & Hq & Hst & Hem); try done.
    + by apply Hok.
    + eapply run_op_effect; eauto.
    + exists ops, q. split_and!; try done. eapply list.Forall_impl; [exact Hem|]. intros x [-> ?]. done.
  - assert (get_page s' b = get_page s b) as E.
    { destruct op; cbn in Hpage, Hrun; simplify_eq.
      - apply then_inv in Hrun as [r' Hrun]. destruct (add_guest_spec s Hwf) as (r1 & s1 & E & _ & Hpg & _).
        rewrite E in Hrun. simplify_eq. unfold get_page. by rewrite Hpg.
      - unfold PageTracker.rm_active_guest, modify in Hrun. by simplify_eq. }
    exists [], p. rewrite E. split_and!; [done|constructor|constructor].
Qed.

(** Calls in sequence; a call may return an error. *)
Inductive tracker_run (s : PageTracker.t) : list tracker_op → PageTracker.t → Prop :=
| run_refl : tracker_run s [] s
| run_snoc ops s1 op r s2 :
    tracker_run s ops s1 → op_ok op → run_op op s1 = Returns (r, s2) →
    tracker_run s (ops ++ [op]) s2.

Lemma tracker_run_wf s ops s' : tracker_wf s → tracker_run s ops s' → tracker_wf s'.
Proof. intros Hwf. induction 1; eauto using run_op_wf. Qed.

Lemma page_steps_custody n (B B' : TlbVersion.t → Prop) (F F' : Prop) p ops q :
  page_info_wf p → page_steps p ops q → custody n B F (PageInfo.state p) (PageInfo.owners p) →
  (∀ v, B v → B' v) → (F → F') → (∀ v, OpBeginConversion v ∈ ops → B' v) →
  (∀ v v', OpCompleteConversion v' ∈ ops → B' v → v < v' → F') →
  custody n B' F' (PageInfo.state q) (PageInfo.owners q).
Proof.
  intros Hwf Hst Hc HB HF. induction Hst as [|ops q op r Hst IH Happ]; intros Hbeg Hcomp.
  { by eapply custody_mono. }
  assert (lifecycle op (PageInfo.state q) (PageInfo.owners q) (PageInfo.state r) (PageInfo.owners r)) as Hlc.
  { apply apply_op_sound; [by eapply page_steps_wf|done]. }
  setoid_rewrite elem_of_app in Hbeg. setoid_rewrite elem_of_app in Hcomp.
  eapply custody_mono; [..|eapply (custody_step n B' F' op); [exact Hlc|apply IH; eauto]].
  - intros v [?| ->]; [done|]. apply Hbeg. right. left.
  - intros [?|(v & v' & -> & Hv & Hlt)]; [done|]. eapply Hcomp; [|done..]. right. left.
Qed.

Ltac elem_cases H :=
  repeat match type of H with
  | _ ∈ [] => by apply not_elem_of_nil in H
  | _ ∈ _ :: _ => apply elem_of_cons in H as [H|H]; [try discriminate H|]
  end.

Lemma emits_begin op v :
  OpBeginConversion v ∈ op_emits op → ∃ page, op = TConvert page v.
Proof. destruct op; cbn; intros H; elem_cases H. simplify_eq. eauto. Qed.

Lemma emits_complete op v :
  OpCompleteConversion v ∈ op_emits op → ∃ mt a o, op = TGetConverted mt a o v.
Proof. destruct op; cbn; intros H; elem_cases H. simplify_eq. eauto. Qed.

Definition begun (a : Z) (ops : list tracker_op) (v : TlbVersion.t) : Prop :=
  ∃ pre page post, ops = pre ++ TConvert page v :: post ∧ Page.addr page = a.
(** [a] was converted at [v] and later picked up at a newer version. *)
Definition fenced (a : Z) (ops : list tracker_op) : Prop :=
  ∃ pre page v mid mt o v' post,
    ops = pre ++ TConvert page v :: mid ++ TGetConverted mt a o v' :: post ∧
    Page.addr page = a ∧ v < v'.

Lemma tracker_custody s ops s' a p :
  tracker_wf s → tracker_run s ops s' → phys a → get_page s a = Some p →
  PageInfo.state p ∉ [Free; Converted; ConvertedLocked] → (∀ v, PageInfo.state p ≠ Converting v) →
  ∃ q, get_page s' a = Some q ∧
    custody (length (PageInfo.owners p)) (begun a ops) (fenced a ops) (PageInfo.state q) (PageInfo.owners q).
Proof.
  intros Hwf Hrun Ha Hp Hst Hcv. induction Hrun as [|ops s1 op r s2 Hrun IH Hok Hop].
  { exists p. split; [done|]. by apply custody_init. }
  destruct IH as (p1 & Hp1 & Hc). pose proof (tracker_run_wf _ _ _ Hwf Hrun) as Hwf1.
  destruct (run_op_page op s1 r s2 a p1) as (pops & q & Hq & Hsteps & Hem); try done.
  exists q. split; [done|]. rewrite list.Forall_forall in Hem.
  eapply page_steps_custody; [|exact Hsteps|exact Hc|..].
  - by eapply tw_pages.
  - intros v (pre & page & post & -> & Hpg). exists pre, page, (post ++ [op]). by rewrite <-app_assoc.
  - intros (pre & page & v & mid & mt & o & v' & post & -> & Hpg & Hv).
    exists pre, page, v, mid, mt, o, v', (post ++ [op]). split; [|done].
    by rewrite <-!app_assoc, app_comm_cons, <-app_assoc.
  - intros v [Hpage [page ->]%emits_begin]%Hem. exists ops, page, []. cbn in Hpage. by simplify_eq.
  - intros v v' [Hpage (mt & a' & o & ->)%emits_complete]%Hem (pre & page & post & E & Hpg) Hlt.
    cbn in Hpage. simplify_eq. destruct (nonempty_snoc post) as (post' & x & Hx).
    { intros ->. apply (f_equal reverse) in E. rewrite !reverse_app in E. cbn in E. simplify_eq. }
    subst post. rewrite app_comm_cons, app_assoc in E. apply app_inj_tail in E as [-> <-].
    exists pre, page, v, post', mt, o, v', []. split_and!; [|done|done]. by rewrite <-!app_assoc.
Qed.

(** ** Giving a page up

    What is known of a page of the owners [os0], given the versions [U] at which an
    unassignment was begun and whether an owner gave the page up ([G]). *)
Definition held_by (os0 : list PageOwnerId.t) (U : TlbVersion.t → Prop) (G : Prop) (s : PageState.t) (os : list PageOwnerId.t) : Prop :=
  G ∨ os0 `prefix_of` os ∧ ∀ v, s = Unassigning v → U v.
Lemma held_by_mono os0 (U U' : TlbVersion.t → Prop) (G G' : Prop) s os :
  (∀ v, U v → U' v) → (G → G') → held_by os0 U G s os → held_by os0 U' G' s os.
Proof. unfold held_by. naive_solver. Qed.
Lemma prefix_pop {A} (l k : list A) x : l `prefix_of` k ++ [x] → l `prefix_of` k ∨ l = k ++ [x].
Proof.
  intros [z Hz]. destruct z as [|y z] using rev_ind; [right; by rewrite app_nil_r in Hz|].
  left. rewrite app_assoc in Hz. apply app_inj_tail in Hz as [-> _]. by exists z.
Qed.
Lemma held_by_step os0 U G op s os s' os' :
  lifecycle op s os s' os' → held_by os0 U G s os →
  held_by os0 (λ v, U v ∨ op = OpBeginUnassignment v)
    (G ∨ op = OpRelease ∨ ∃ v v', op = OpCompleteUnassignment v' ∧ U v ∧ v < v') s' os'.
Proof.
  intros Hlc [HG|[Hp Hu]]; [by left; left|].
  destruct Hlc; try (right; split; [done|naive_solver]).
  - destruct (prefix_pop _ _ _ Hp) as [?| ->]; [right; by split|]. left. by right; left.
  - right. split; [by apply prefix_app_r|]. intros v ->. naive_solver.
  - right. split; [by apply prefix_app_r|]. intros v ->. naive_solver.
  - destruct (prefix_pop _ _ _ Hp) as [?| ->]; [right; by split|]. left. right. right. exists v, v'. auto.
Qed.
Lemma page_steps_held os0 (U U' : TlbVersion.t → Prop) (G G' : Prop) p ops q :
  page_info_wf p → page_steps p ops q → held_by os0 U G (PageInfo.state p) (PageInfo.owners p) →
  (∀ v, U v → U' v) → (G → G') → (∀ v, OpBeginUnassignment v ∈ ops → U' v) → (OpRelease ∈ ops → G') →
  (∀ v v', OpCompleteUnassignment v' ∈ ops → U' v → v < v' → G') →
  held_by os0 U' G' (PageInfo.state q) (PageInfo.owners q).
Proof.
  intros Hwf Hst Hc HU HG. induction Hst as [|ops q op r Hst IH Happ]; intros Hbeg Hrel Hcomp.
  { eapply held_by_mono; [exact HU|exact HG|exact Hc]. }
  assert (lifecycle op (PageInfo.state q) (PageInfo.owners q) (PageInfo.state r) (PageInfo.owners r)) as Hlc.
  { apply apply_op_sound; [by eapply page_steps_wf|done]. }
  rewrite elem_of_app in Hrel. setoid_rewrite elem_of_app in Hbeg. setoid_rewrite elem_of_app in Hcomp.
  eapply held_by_mono; [..|eapply (held_by_step os0 U' G' op); [exact Hlc|apply IH; eauto]].
  - intros v [?| ->]; [done|]. apply Hbeg. right. left.
  - intros [?|[->|(v & v' & -> & Hv & Hlt)]]; [done|apply Hrel; right; left|]. eapply Hcomp; [|done..]. right. left.
Qed.
Lemma emits_begin_unassign op v : OpBeginUnassignment v ∈ op_emits op → ∃ page, op = TUnassignBegin page v.
Proof. destruct op; cbn; intros H; elem_cases H. simplify_eq. eauto. Qed.
Lemma emits_complete_unassign op v : OpCompleteUnassignment v ∈ op_emits op → ∃ a o mt, op = TUnassignComplete a o mt v.
Proof. destruct op; cbn; intros H; elem_cases H. simplify_eq. eauto. Qed.
Lemma emits_release op : OpRelease ∈ op_emits op → (∃ page, op = TRelease page) ∨ ∃ a o, op = TReleaseByAddr a o.
Proof. destruct op; cbn; intros H; elem_cases H; eauto. Qed.

Definition unassigning (a : Z) (ops : list tracker_op) (v : TlbVersion.t) : Prop :=
  ∃ pre page post, ops = pre ++ TUnassignBegin page v :: post ∧ Page.addr page = a.
(** [a] was released, or its unassignment was begun at a version and completed at a newer one. *)
Definition given_up (a : Z) (ops : list tracker_op) : Prop :=
  (∃ page, TRelease page ∈ ops ∧ Page.addr page = a) ∨ (∃ o, TReleaseByAddr a o ∈ ops) ∨
  ∃ pre page v mid o mt v' post,
    ops = pre ++ TUnassignBegin page v :: mid ++ TUnassignComplete a o mt v' :: post ∧ Page.addr page = a ∧ v < v'.
Lemma given_up_app a ops op : given_up a ops → given_up a (ops ++ [op]).
Proof.
  intros [(page & Hin & Ha)|[[o Hin]|(pre & page & v & mid & o & mt & v' & post & -> & Ha & Hv)]].
  - left. exists page. rewrite elem_of_app. auto.
  - right. left. exists o. rewrite elem_of_app. auto.
  - right. right. exists pre, page, v, mid, o, mt, v', (post ++ [op]). split; [|done]. by rewrite <-!app_assoc, app_comm_cons, <-app_assoc.
Qed.

Lemma tracker_held s ops s' a p :
  tracker_wf s → tracker_run s ops s' → phys a → get_page s a = Some p → (∀ v, PageInfo.state p ≠ Unassigning v) →
  ∃ q, get_page s' a = Some q ∧
    held_by (PageInfo.owners p) (unassigning a ops) (given_up a ops) (PageInfo.state q) (PageInfo.owners q).
Proof.
  intros Hwf Hrun Ha Hp Hst. induction Hrun as [|ops s1 op r s2 Hrun IH Hok Hop].
  { exists p. split; [done|]. right. split; [done|naive_solver]. }
  destruct IH as (p1 & Hp1 & Hc). pose proof (tracker_run_wf _ _ _ Hwf Hrun) as Hwf1.
  destruct (run_op_page op s1 r s2 a p1) as (pops & q & Hq & Hsteps & Hem); try done.
  exists q. split; [done|]. rewrite list.Forall_forall in Hem.
  eapply page_steps_held; [|exact Hsteps|exact Hc|..].
  - by eapply tw_pages.
  - intros v (pre & page & post & -> & Hpg). exists pre, page, (post ++ [op]). by rewrite <-app_assoc.
  - apply given_up_app.
  - intros v [Hpage [page ->]%emits_begin_unassign]%Hem. exists ops, page, []. cbn in Hpage. by simplify_eq.
  - intros [Hpage [[page ->]|(a' & o & ->)]%emits_release]%Hem; cbn in Hpage; simplify_eq.
    + left. exists page. rewrite elem_of_app, list_elem_of_singleton. auto.
    + right. left. exists o. rewrite elem_of_app, list_elem_of_singleton. auto.
  - intros v v' [Hpage (a' & o & mt & ->)%emits_complete_unassign]%Hem (pre & page & post & E & Hpg) Hlt.
    cbn in Hpage. simplify_eq. destruct (nonempty_snoc post) as (post' & x & Hx).
    { intros ->. apply (f_equal reverse) in E. rewrite !reverse_app in E. cbn in E. simplify_eq. }
    subst post. rewrite app_comm_cons, app_assoc in E. apply app_inj_tail in E as [-> <-].
    right. right. exists pre, page, v, post', o, mt, v', []. split_and!; [|done|done]. by rewrite <-!app_assoc.
Qed.

(** ** Properties *)

(** A tracker over two banks of pages; the first page is mapped by the host. *)
Definition example_tracker : PageTracker.t :=
  PageTracker.mk 2 [PageOwnerId.host] 1024
    (PageMap.set 65536 (PageInfo.mk MemType.Ram Mapped [PageOwnerId.host] None) two_bank_map).

Lemma example_tracker_wf : tracker_wf example_tracker.
Proof.
  pose proof (pd_wf _ two_bank_map_dense) as Hwf.
  split; cbn [example_tracker PageTracker.pages PageTracker.next_owner_id PageTracker.active_guests
    PageTracker.guests_capacity length].
  - by apply set_wf.
  - intros a p Ha Hp. unfold get_page in Hp. cbn [example_tracker PageTracker.pages] in Hp.
    assert (H65 : phys 65536) by (split; [lia|done]).
    destruct (decide (65536 = a)) as [<-|Hne].
    + rewrite (get_set_eq _ _ _ PageInfo.new) in Hp by done. simplify_eq.
      split_and!; [cbn; unfold PageInfo.MAX_PAGE_OWNERS; lia|done|done].
    + rewrite get_set_ne in Hp by done. unfold PageMap.get in Hp.
      destruct (PageMap.get_map_index _ a) as [i|]; [|done].
      apply list_elem_of_lookup_2, list_elem_of_In, repeat_spec in Hp. subst p.
      split_and!; [cbn; lia|done|done].
  - lia.
  - apply NoDup_singleton.
  - apply list.Forall_singleton. by left.
  - lia.
Qed.

Definition page65536 : Page.t := Page.mk 65536 Size4k.

Definition example_ops : list tracker_op :=
  (((([] ++ [TConvert page65536 5]) ++ [TGetConverted MemType.Ram 65536 PageOwnerId.host 5])
    ++ [TGetConverted MemType.Ram 65536 PageOwnerId.host 6]) ++ [TAddGuest])
    ++ [TAssignMapping page65536 2].

Lemma example_run :
  ∃ s', tracker_run example_tracker example_ops s' ∧
    get_page s' 65536 = Some (PageInfo.mk MemType.Ram Mapped [PageOwnerId.host; 2] None).
Proof.
  assert (Hok : ∀ op, op_page op = Some 65536 ∨ op_page op = None → op_ok op).
  { intros op Hop a Ha. destruct Hop; simplify_eq. split; [lia|done]. }
  eexists. split; [|shelve]. unfold example_ops.
  eapply run_snoc; [eapply run_snoc; [eapply run_snoc; [eapply run_snoc; [eapply run_snoc;
    [constructor|..]|..]|..]|..]|..]; 
    lazymatch goal with |- op_ok _ => apply Hok; cbn; by auto | _ => vm_compute; reflexivity end.
  Unshelve. vm_compute. reflexivity.
Qed.

(** C2: Chain of custody across the system: whatever calls of the page tracker are
    made, in whatever order and with whatever results, a page that is in use gets an
    additional owner only after it was converted at some TLB version and picked up
    again at a strictly newer one, and it loses an owner only if it was released, or if
    its unassignment was begun at some TLB version and completed at a strictly newer
    one. *)
Theorem tracker_chain_of_custody (s s' : PageTracker.t) (ops : list tracker_op) (a : Z)
    (p q : PageInfo.t) :
  tracker_wf s → tracker_run s ops s' → phys a →
  get_page s a = Some p → get_page s' a = Some q →
  PageInfo.state p ∉ [Free; Converted; ConvertedLocked] → (∀ v, PageInfo.state p ≠ Converting v) →
  ((length (PageInfo.owners p) < length (PageInfo.owners q))%nat → fenced a ops) ∧
  ((∀ v, PageInfo.state p ≠ Unassigning v) → ¬ PageInfo.owners p `prefix_of` PageInfo.owners q → given_up a ops).
Proof.
  intros Hwf Hrun Ha Hp Hq Hst Hcv. split.
  - intros Hlen. destruct (tracker_custody s ops s' a p) as (q' & Hq' & _ & Hgt & _); try done.
    rewrite Hq in Hq'. simplify_eq. auto.
  - intros Hun Hpre. destruct (tracker_held s ops s' a p) as (q' & Hq' & [?|[? _]]); try done.
    rewrite Hq in Hq'. by simplify_eq.
Qed.

Lemma tracker_chain_of_custody_witness : fenced 65536 example_ops.
Proof.
  destruct example_run as (s' & Hrun & Hq).
  refine (proj1 (tracker_chain_of_custody example_tracker s' example_ops 65536
    (PageInfo.mk MemType.Ram Mapped [PageOwnerId.host] None)
    (PageInfo.mk MemType.Ram Mapped [PageOwnerId.host; 2] None) _ _ _ _ _ _ _) _).
  - exact example_tracker_wf.
  - exact Hrun.
  - split; [lia|done].
  - vm_compute. reflexivity.
  - exact Hq.
  - cbn. intros H. elem_cases H.
  - done.
  - cbn. lia.
Defined.

(** C13: The invariant of the page tracker (a consistent page map, well-formed page
    records, unique guest ids below the next one) survives any sequence of
    calls, and the calls neither add nor remove pages. *)
Theorem tracker_invariant (s s' : PageTracker.t) (ops : list tracker_op) :
  tracker_wf s → tracker_run s ops s' →
  tracker_wf s' ∧ ∀ a, phys a → is_Some (get_page s' a) ↔ is_Some (get_page s a).
Proof.
  intros Hwf Hrun. split; [by eapply tracker_run_wf|]. intros a Ha.
  induction Hrun as [|ops s1 op r s2 Hrun IH Hok Hop]; [done|]. rewrite <-IH.
  pose proof (tracker_run_wf _ _ _ Hwf Hrun) as Hwf1.
  destruct (get_page s1 a) as [p|] eqn:Hp.
  - destruct (run_op_page op s1 r s2 a p) as (? & q & Hq & _); try done.
  - assert (get_page s2 a = None) as ->; [|done].
    destruct (op_page op) as [b|] eqn:Hpage.
    + eapply page_effect_absent; [by apply Hok|done| |done]. by eapply run_op_effect; eauto.
    + destruct op; cbn in Hpage, Hop; simplify_eq.
      * apply then_inv in Hop as [r' Hop]. destruct (add_guest_spec s1 Hwf1) as (r1 & s3 & E & _ & Hpg & _).
        rewrite E in Hop. simplify_eq. unfold get_page. by rewrite Hpg.
      * unfold PageTracker.rm_active_guest, modify in Hop. by simplify_eq.
Qed.

Lemma tracker_invariant_witness : ∃ s', tracker_run example_tracker example_ops s' ∧ tracker_wf s'.
Proof.
  destruct example_run as (s' & Hrun & Hq). exists s'. split; [exact Hrun|].
  apply (tracker_invariant example_tracker s' example_ops); [exact example_tracker_wf|exact Hrun].
Defined.

(** The pages a call unwraps are in the map and aligned to their size. *)
Definition op_known (s : PageTracker.t) (op : tracker_op) : Prop :=
  match op with
  | TAssignMapping page _ | TAssignState page _ | TShare _ page _ | TRelease page
  | TConvert page _ | TReclaim page | TUnassignBegin page _ =>
      is_Some (get_page s (Page.addr page)) ∧ PageAddr.is_aligned (Page.addr page) (Page.size page) = true
  | _ => True
  end.

Lemma same_page_ok page (s : PageTracker.t) :
  PageAddr.is_aligned (Page.addr page) (Page.size page) = true →
  PageTracker.same_page page s = Returns (Ok (Page.mk (Page.addr page) (Page.size page)), s).
Proof. intros H. unfold PageTracker.same_page, Page.new_with_size. by rewrite H. Qed.

Lemma assign_no_panic o st p : page_info_wf p → PageInfo.assign o st p ≠ Panics.
Proof.
  intros Hwf Hp. destruct Hwf as (_ & _ & Hs). destruct p as [mt s os lk]. unfold state_wf in Hs. cbn in *.
  page_cases; try done; rewrite Hs in *; unfold PageInfo.MAX_PAGE_OWNERS in *; cbn in *; lia.
Qed.

Lemma bind_not_panic {S E A B} (m : M S E A) (f : A → M S E B) s :
  m s ≠ Panics → (∀ a s', m s = Returns (Ok a, s') → f a s' ≠ Panics) → (m ≫= f) s ≠ Panics.
Proof.
  intros Hm Hf H. unfold mbind, M_bind in H. destruct (m s) as [[[a|e] s']|] eqn:E1; [|done|done].
  by eapply Hf.
Qed.

(** C14: No call of the page tracker panics as long as the pages handed to it as
    owned pages are in the page map: the overflow and state checks turn every
    misuse into an error value. *)
Theorem tracker_calls_do_not_panic (s : PageTracker.t) (op : tracker_op) :
  tracker_wf s → op_ok op → op_known s op → run_op op s ≠ Panics.
Proof.
  intros Hwf Hok Hk. assert (Hret : ∀ s', (mret tt : M PageTracker.t PageTrackingError.t unit) s' ≠ Panics) by done.
  destruct op; cbn in Hk |- *; try match type of Hk with _ ∧ _ => destruct Hk as [[p Hp] Hal] end.
  - apply bind_not_panic; [|done]. apply bind_not_panic; [|intros; by rewrite same_page_ok].
    rewrite assign_unwrap_eq, Hp. pose proof (assign_no_panic o Mapped p). repeat case_match; try done.
    exfalso. eapply H; [|done]. eapply tw_pages; [done| |done]. by apply Hok.
  - apply bind_not_panic; [|done]. apply bind_not_panic; [|intros; by rewrite same_page_ok].
    rewrite assign_unwrap_eq, Hp. pose proof (assign_no_panic o VmState p). repeat case_match; try done.
    exfalso. eapply H; [|done]. eapply tw_pages; [done| |done]. by apply Hok.
  - apply bind_not_panic; [|done]. unfold PageTracker.share_page, PageTracker.get, PageTracker.put_info.
    pose proof (λ s, same_page_ok page s Hal) as Hsp. msimpl. unfold get_page in Hp. rewrite Hp. cbn.
    destruct (negb _); [done|]. destruct (PageInfo.share p); [|done]. by rewrite Hsp.
  - unfold PageTracker.release_page. rewrite update_unwrap_eq, Hp. by case_match.
  - unfold PageTracker.release_page_by_addr. rewrite update_eq. by repeat case_match.
  - unfold PageTracker.convert_page. rewrite update_unwrap_eq, Hp. by case_match.
  - apply bind_not_panic; [|done]. apply bind_not_panic; [|intros; by rewrite same_page_ok].
    rewrite update_unwrap_eq, Hp. by case_match.
  - apply bind_not_panic; [|done]. unfold PageTracker.get_converted_page, PageTracker.get, PageTracker.put_info.
    unfold Page.new, Page.new_with_size.
    rewrite is_aligned_true by (destruct (Hok a eq_refl); done). msimpl.
    destruct (PageMap.get _ a); [|done]. destruct (_ || _); [done|].
    destruct (PageTracker.convert_if_needed v t); [|done].
    by destruct (PageInfo.lock_for_assignment a0).
  - unfold PageTracker.unassign_page_begin. rewrite update_unwrap_eq, Hp. by case_match.
  - unfold PageTracker.unassign_page_complete. rewrite update_eq. by repeat case_match.
  - unfold PageTracker.unlock_page. rewrite update_eq. by repeat case_match.
  - unfold PageTracker.link_pages. apply bind_not_panic; [unfold PageTracker.get; by msimpl|].
    intros d s' _. destruct (PageInfo.next d); [done|]. rewrite update_eq. by repeat case_match.
  - done.
  - apply bind_not_panic; [|done]. destruct (add_guest_spec s Hwf) as (? & ? & -> & _). done.
  - done.
Qed.

Lemma tracker_calls_do_not_panic_witness :
  run_op (TConvert page65536 3) example_tracker ≠ Panics.
Proof.
  apply tracker_calls_do_not_panic; [exact example_tracker_wf| |].
  - intros a [= <-]. split; [cbn; lia|done].
  - split; [eexists; vm_compute; reflexivity|done].
Defined.

(** Guest ids are never reused: of two successful [add_active_guest] calls,
    with any calls in between, the later one returns the larger id, and neither
    is the id of the host or of the hypervisor. *)
Theorem guest_ids_never_reused (s s1 s2 s3 : PageTracker.t) (ops : list tracker_op)
    (id1 id2 : PageOwnerId.t) :
  tracker_wf s → PageTracker.add_active_guest s = Returns (Ok id1, s1) →
  tracker_run s1 ops s2 → PageTracker.add_active_guest s2 = Returns (Ok id2, s3) →
  PageOwnerId.hypervisor < id1 < id2.
Proof.
  intros Hwf E1 Hrun E2.
  destruct (add_guest_spec s Hwf) as (r1 & t1 & E1' & Hwf1 & _ & _ & Hid1 & _).
  rewrite E1 in E1'. simplify_eq. destruct (Hid1 _ eq_refl) as (-> & Hn1 & _).
  pose proof (tracker_run_wf _ _ _ Hwf1 Hrun) as Hwf2.
  destruct (add_guest_spec s2 Hwf2) as (r2 & t2 & E2' & _ & _ & _ & Hid2 & _).
  rewrite E2 in E2'. simplify_eq. destruct (Hid2 _ eq_refl) as (-> & _).
  assert (PageTracker.next_owner_id t1 ≤ PageTracker.next_owner_id s2) as Hmono.
  { clear -Hwf1 Hrun. induction Hrun as [|ops s2 op r s3 Hrun IH Hok Hop]; [lia|].
    pose proof (tracker_run_wf _ _ _ Hwf1 Hrun) as Hwf2. etrans; [exact IH|].
    destruct (op_page op) as [b|] eqn:Hpage.
    - destruct (run_op_effect op b s2 r s3) as [->|(? & ? & ? & _ & -> & _)]; [done..|by apply Hok|done| |];
        cbn; lia.
    - destruct op; cbn in Hpage, Hop; simplify_eq.
      + apply then_inv in Hop as [r' Hop]. destruct (add_guest_spec s2 Hwf2) as (r1 & s4 & E & _ & _ & Hle & _).
        rewrite E in Hop. simplify_eq. lia.
      + unfold PageTracker.rm_active_guest, modify in Hop. simplify_eq. cbn. lia. }
  pose proof (tw_next _ Hwf). unfold PageOwnerId.hypervisor, PageOwnerId.HYPERVISOR. lia.
Qed.

Lemma guest_ids_never_reused_witness : PageOwnerId.hypervisor < 2 < 3.
Proof.
  eapply (guest_ids_never_reused example_tracker _ _ _ [] 2 3);
    [exact example_tracker_wf|vm_compute; reflexivity|constructor|vm_compute; reflexivity].
Defined.

(** ** Queries and the operations they guard *)
Lemma query_true a f s :
  PageTracker.query a f s = true ↔ ∃ p, get_page s a = Some p ∧ f p = true.
Proof. unfold PageTracker.query, get_page. destruct (PageMap.get _ a); naive_solver. Qed.

Lemma share_page_ok mt a o s p :
  phys a → get_page s a = Some p →
  PageTracker.share_page mt (Page.mk a Size4k) o s =
  if PageTracker.check_shareable mt o p then
    match PageInfo.share p with
    | Ok q => Returns (Ok (Page.mk a Size4k), set_page a q s)
    | Err e => Returns (Err e, s)
    end
  else Returns (Err PageTrackingError.PageNotShareable, s).
Proof.
  intros [_ Ha] Hp. unfold PageTracker.share_page, PageTracker.get, PageTracker.put_info. msimpl.
  unfold get_page in Hp. rewrite Hp. cbn. destruct (PageTracker.check_shareable mt o p); [|done]. cbn.
  destruct (PageInfo.share p); [|done].
  unfold PageTracker.same_page, Page.new_with_size, of_outcome. cbn. by rewrite is_aligned_true.
Qed.

Lemma get_converted_page_eq mt a o v s p :
  phys a → get_page s a = Some p →
  PageTracker.get_converted_page mt a o v s =
  if bool_decide (PageInfo.owner p = Some o) && bool_decide (PageInfo.mem_type p = mt) then
    if bool_decide (PageInfo.state p = Converted) || PageInfo.is_convertible v p
    then Returns (Ok (Page.mk a Size4k), set_page a (PageInfo.set_state ConvertedLocked p) s)
    else Returns (Err PageNotConvertible, s)
  else Returns (Err PageNotConvertible, s).
Proof.
  intros [_ Ha] Hp. unfold PageTracker.get_converted_page, PageTracker.get, PageTracker.put_info. msimpl.
  unfold get_page in Hp. rewrite Hp. cbn. destruct (bool_decide (PageInfo.owner p = Some o)); [|done].
  destruct (bool_decide (PageInfo.mem_type p = mt)); [|done]. cbn.
  assert (Page.new a = Returns (Page.mk a Size4k)) as ->.
  { unfold Page.new, Page.new_with_size. by rewrite is_aligned_true. }
  unfold PageTracker.convert_if_needed, PageInfo.complete_conversion, PageInfo.is_convertible,
    PageInfo.lock_for_assignment.
  fold (set_page a (PageInfo.set_state ConvertedLocked p) s).
  destruct p as [mt' st os lk]. case_bool_decide as Hst; cbn in Hst |- *.
  - subst st. by rewrite <-(set_page_set_page a _ (PageInfo.mk mt' Converted os lk)).
  - destruct st; try done. destruct (_ <? v); [|done]. cbn.
    by rewrite <-(set_page_set_page a _ (PageInfo.mk mt' Converted os lk)).
Qed.

(** The queries that callers use as guards agree with the operations: a page
    reported as mapped can be converted or unassigned, a page can be shared
    exactly when it is reported as shareable, it can be picked up as converted
    exactly when it is reported as converted (and is then locked), and a page
    reported as unassignable by a VM is returned to the previous owner. *)
Theorem queries_guard_operations (s : PageTracker.t) (a : Z) (o : PageOwnerId.t) (mt : MemType.t)
    (v : TlbVersion.t) (p : PageInfo.t) :
  tracker_wf s → phys a → get_page s a = Some p →
  (PageTracker.is_mapped_page a o mt s = true →
    PageTracker.convert_page (Page.mk a Size4k) v s =
      Returns (Ok tt, set_page a (PageInfo.set_state (Converting v) p) s) ∧
    PageTracker.unassign_page_begin (Page.mk a Size4k) v s =
      Returns (Ok tt, set_page a (PageInfo.set_state (Unassigning v) p) s)) ∧
  (PageTracker.is_shareable_page a o mt s = true ↔
    ∃ s', PageTracker.share_page mt (Page.mk a Size4k) o s = Returns (Ok (Page.mk a Size4k), s')) ∧
  (PageTracker.is_converted_page a o mt v s = true ↔
    PageTracker.get_converted_page mt a o v s =
      Returns (Ok (Page.mk a Size4k), set_page a (PageInfo.set_state ConvertedLocked p) s)) ∧
  (PageTracker.is_unassignable_page a o mt v s = true → o ≠ PageOwnerId.hypervisor →
    PageTracker.unassign_page_complete a o mt v s =
      Returns (Ok tt, set_page a (PageInfo.set_state Converted
        (PageInfo.set_owners (PageInfo.pop (PageInfo.owners p)) p)) s)).
Proof.
  intros Hwf Ha Hp. unfold PageTracker.is_mapped_page, PageTracker.is_shareable_page,
    PageTracker.is_converted_page, PageTracker.is_unassignable_page, PageTracker.query.
  unfold get_page in Hp. rewrite !Hp. fold (get_page s a) in Hp. split_and!.
  - rewrite !andb_true_iff, !bool_decide_eq_true. intros ((_ & _) & Hst).
    unfold PageTracker.convert_page, PageTracker.unassign_page_begin.
    rewrite !update_unwrap_eq. cbn [Page.addr]. rewrite Hp.
    unfold PageInfo.begin_conversion, PageInfo.begin_unassignment. by rewrite Hst.
  - rewrite (share_page_ok mt a o s p Ha Hp).
    destruct (PageTracker.check_shareable mt o p) eqn:Hc; [|naive_solver].
    split; [intros _|done]. pose proof (tw_pages s Hwf a p Ha Hp) as (_ & _ & Hsw).
    unfold PageTracker.check_shareable, PageInfo.is_shareable in Hc. apply andb_true_iff in Hc as [_ Hc].
    unfold PageInfo.share. destruct (PageInfo.state p); try done; [eauto|]. cbn in Hsw.
    unfold checked_add. destruct (Z.eqb_spec rc U64_MAX); [done|].
    rewrite (proj2 (Z.ltb_lt _ _)) by lia. eauto.
  - rewrite (get_converted_page_eq mt a o v s p Ha Hp).
    destruct (bool_decide (PageInfo.owner p = Some o)), (bool_decide (PageInfo.mem_type p = mt));
      cbn; try (split; [done|by intros [=]]).
    destruct (_ || _); [done|]. split; [done|by intros [=]].
  - rewrite !andb_true_iff, !bool_decide_eq_true. intros ((Hown & Hmt) & Hun) Ho.
    unfold PageTracker.unassign_page_complete. rewrite update_eq, Hp.
    rewrite !bool_decide_eq_true_2 by done. cbn [negb orb].
    unfold PageInfo.is_unassignable, PageInfo.complete_unassignment, PageInfo.owner in *.
    destruct (PageInfo.state p); try done. rewrite Hun. by destruct (PageInfo.owners p) eqn:E; simplify_eq/=.
Qed.

Lemma queries_guard_operations_witness :
  PageTracker.convert_page page65536 9 example_tracker =
    Returns (Ok tt, set_page 65536 (PageInfo.mk MemType.Ram (Converting 9) [PageOwnerId.host] None) example_tracker).
Proof.
  apply (queries_guard_operations example_tracker 65536 PageOwnerId.host MemType.Ram 9
    (PageInfo.mk MemType.Ram Mapped [PageOwnerId.host] None));
    [exact example_tracker_wf|split; [lia|done]|vm_compute; reflexivity|vm_compute; reflexivity].
Defined.
