(* ===== verification/PageListFacts.v ===== *)
(** * Linked page lists refine sequences (page-tracking/src/page_list.rs)

    A [PageList] threads its pages through the links of the page records.  The
    relation [list_rep] says which sequence of addresses a list stands for;
    pushing, popping and dropping implement the corresponding operations on the
    sequence and leave all other pages alone. *)
From S2P Require Import Prelude Intervals RiscvPages MemMap PageInfoModel PageMapModel HypAlloc Tracker TrackerFacts.
Import PageSize(Size4k).
Import PageState(Reserved, Free, Mapped, Shared, VmState, HypState, Converting, Unassigning,
  Converted, ConvertedLocked).
Import PageTrackingError(PageAlreadyLinked).

Definition last_of (xs : list Z) : option Z := xs !! (length xs - 1)%nat.

Record list_rep (s : PageTracker.t) (l : PageList.t) (xs : list Z) : Prop := {
  lr_head : PageList.head l = xs !! 0%nat;
  lr_tail : PageList.tail l = last_of xs;
  lr_len : PageList.len l = Z.of_nat (length xs);
  lr_small : Z.of_nat (length xs) < U64;
  lr_nodup : NoDup xs;
  lr_phys : Forall (λ a, phys a ∧ a ≠ 0) xs;
  lr_links : ∀ i a, xs !! i = Some a → ∃ p, get_page s a = Some p ∧ PageInfo.link_ p = xs !! S i
}.

Lemma list_rep_new s : list_rep s PageList.new [].
Proof. split; try done; by constructor. Qed.

Lemma next_link p : (∀ a, PageInfo.link_ p = Some a → phys a) → PageInfo.next p = PageInfo.link_ p.
Proof.
  intros H. unfold PageInfo.next. destruct (PageInfo.link_ p) as [a|]; [|done].
  cbn. apply with_alignment_Some. split; [done|]. by destruct (H a eq_refl).
Qed.

Lemma rep_next s l xs i a p :
  list_rep s l xs → xs !! i = Some a → get_page s a = Some p → PageInfo.next p = xs !! S i.
Proof.
  intros Hrep Hi Hp. destruct (lr_links _ _ _ Hrep i a Hi) as (p' & Hp' & Hl).
  rewrite Hp in Hp'. simplify_eq. rewrite <-Hl. apply next_link. intros b Hb.
  pose proof (lr_phys _ _ _ Hrep) as Hph. rewrite list.Forall_forall in Hph.
  apply Hph. rewrite Hl in Hb. by eapply list_elem_of_lookup_2.
Qed.

Lemma last_of_snoc xs b : last_of (xs ++ [b]) = Some b.
Proof.
  unfold last_of. rewrite length_app. cbn. rewrite Nat.add_sub. by apply list_lookup_middle.
Qed.

Lemma last_of_cons a xs : xs ≠ [] → last_of (a :: xs) = last_of xs.
Proof. destruct xs as [|b xs]; [done|]. intros _. unfold last_of. cbn. by rewrite Nat.sub_0_r. Qed.

Lemma links_snoc s l xs' t b pt pb :
  page_map_wf (PageTracker.pages s) → list_rep s l (xs' ++ [t]) →
  phys t ∧ t ≠ 0 → phys b → t ≠ b →
  get_page s t = Some pt → get_page s b = Some pb → PageInfo.link_ pb = None →
  ∀ i a, ((xs' ++ [t]) ++ [b]) !! i = Some a →
  ∃ p, get_page (set_page t (PageInfo.set_link (Some b) pt) s) a = Some p ∧
    PageInfo.link_ p = ((xs' ++ [t]) ++ [b]) !! S i.
Proof.
  intros Hwf Hrep Ht Hb Htb Hpt Hpb Hlk.
  intros i a Hi. destruct (decide (i = length (xs' ++ [t]))) as [->|Hib].
  { rewrite list_lookup_middle in Hi by done. simplify_eq.
    exists pb. rewrite get_page_set_ne by (done || apply Ht).
    rewrite lookup_ge_None_2 by (rewrite !length_app; cbn; lia). done. }
  assert (Hlt' : (i < length (xs' ++ [t]))%nat).
  { apply lookup_lt_Some in Hi. rewrite length_app in Hi |- *. cbn in *. rewrite length_app in Hib, Hi. cbn in *. lia. }
  rewrite lookup_app_l in Hi by done.
  destruct (decide (i = length xs')) as [->|Hit].
  { rewrite list_lookup_middle in Hi by done. simplify_eq.
    eexists. split; [by eapply get_page_set_eq; [done|apply Ht|]|]. cbn.
    rewrite <-app_assoc. cbn [app]. symmetry. rewrite lookup_app_r by lia.
    by replace (S (length xs') - length xs')%nat with 1%nat by lia. }
  destruct (lr_links _ _ _ Hrep i a Hi) as (p & Hp & Hl). exists p. split.
  - rewrite get_page_set_ne; [done|done|apply Ht|..].
    + pose proof (lr_phys _ _ _ Hrep) as H. rewrite list.Forall_forall in H.
       apply H. by eapply list_elem_of_lookup_2.
    + intros ->. apply Hit. eapply (NoDup_lookup (xs' ++ [a])); [apply Hrep|done|].
       by apply list_lookup_middle.
  - rewrite Hl. symmetry. apply lookup_app_l.
    rewrite length_app in *. cbn in *. lia.
Qed.

(** [push] on a non-empty list links the last page to the new one. *)
Lemma push_rep s l xs b pb :
  page_map_wf (PageTracker.pages s) → list_rep s l xs → Z.of_nat (length xs) + 1 < U64 →
  phys b → b ≠ 0 → b ∉ xs → get_page s b = Some pb → PageInfo.link_ pb = None →
  ∃ l' s', PageList.push (Page.mk b Size4k) l s = Returns (Ok l', s') ∧ list_rep s' l' (xs ++ [b]) ∧
    same_shape (PageTracker.pages s) (PageTracker.pages s') ∧
    (∀ c, phys c → c ∉ xs → get_page s' c = get_page s c) ∧
    (∀ c, phys c → PageInfo.unlink <$> get_page s' c = PageInfo.unlink <$> get_page s c).
Proof.
  intros Hwf Hrep Hlen Hb Hb0 Hnin Hpb Hlk. unfold PageList.push. rewrite (lr_tail _ _ _ Hrep).
  assert (Hlen' : wrap64 (PageList.len l + 1) = Z.of_nat (length (xs ++ [b]))).
  { rewrite (lr_len _ _ _ Hrep), length_app. unfold wrap64. rewrite Z.mod_small by lia. cbn. lia. }
  assert (Hph : Forall (λ a, phys a ∧ a ≠ 0) (xs ++ [b])).
  { apply list.Forall_app. split; [apply Hrep|]. by apply list.Forall_singleton. }
  assert (Hnd : NoDup (xs ++ [b])).
  { apply list.NoDup_app. split_and!; [apply Hrep| |apply NoDup_singleton]. set_solver. }
  destruct (nil_or_length_pos xs) as [->|Hpos]; cbn [last_of lookup].
  { do 2 eexists. split; [reflexivity|]. split; [|done]. split; try done. cbn [app].
    intros [|i] a Ha; cbn in Ha; simplify_eq. exists pb. done. }
  destruct (nonempty_snoc xs) as (xs' & t & ->); [by intros ->|]. rewrite last_of_snoc.
  assert (Ht : phys t ∧ t ≠ 0).
  { pose proof (lr_phys _ _ _ Hrep) as H. rewrite list.Forall_app, list.Forall_singleton in H. tauto. }
  assert (Htb : t ≠ b) by set_solver.
  destruct (lr_links _ _ _ Hrep (length xs') t) as (pt & Hpt & Hlt); [by apply list_lookup_middle|].
  rewrite lookup_ge_None_2 in Hlt by (rewrite length_app; cbn; lia).
  unfold PageTracker.link_pages.
  assert (Hg : PageTracker.get b s = Returns (Ok pb, s)).
  { unfold PageTracker.get. msimpl. unfold get_page in Hpb. by rewrite Hpb. }
  assert (Hn : PageInfo.next pb = None) by (unfold PageInfo.next; by rewrite Hlk).
  assert (Hu : PageTracker.update t (PageInfo.link b) s = Returns (Ok tt, set_page t (PageInfo.set_link (Some b) pt) s)).
  { rewrite update_eq, Hpt. unfold PageInfo.link. by rewrite Hlt, (proj2 (Z.eqb_neq b 0)). }
  erewrite bind_ok; [|erewrite bind_ok by exact Hg; cbn; rewrite Hn; exact Hu].
  do 2 eexists. split; [reflexivity|]. split; [|split; [apply set_shape|]].
  - split; cbn [PageList.head PageList.tail PageList.len]; try done.
    + rewrite (lr_head _ _ _ Hrep). by rewrite (lookup_app_l (xs' ++ [t]) [b]) by (rewrite length_app; cbn; lia).
    + by rewrite last_of_snoc.
    + rewrite !length_app in *. cbn in *. lia.
    + by eapply links_snoc.
  - split; intros c Hc.
    + intros Hnc. apply get_page_set_ne; [done|apply Ht|done|set_solver].
    + destruct (decide (t = c)) as [<-|Hne]; [|by rewrite get_page_set_ne by (done || apply Ht)].
      by rewrite (get_page_set_eq s t _ pt), Hpt by (done || apply Ht).
Qed.

Lemma last_of_elem xs a : last_of xs = Some a → a ∈ xs.
Proof. apply list_elem_of_lookup_2. Qed.

Lemma push_wf s l xs page r s' :
  tracker_wf s → list_rep s l xs → PageList.push page l s = Returns (r, s') → tracker_wf s'.
Proof.
  intros Hwf Hrep. unfold PageList.push. rewrite (lr_tail _ _ _ Hrep). destruct (last_of xs) as [t|] eqn:Ht; [|by intros [= _ <-]].
  assert (op_ok (TLink t (Page.addr page))).
  { intros a [= <-]. pose proof (lr_phys _ _ _ Hrep) as H. rewrite list.Forall_forall in H. by apply H, last_of_elem. }
  intros [(u & s1 & Hl & [= _ <-])|(e & Hl & _)]%bind_inv; by eapply (run_op_wf (TLink t (Page.addr page))).
Qed.

Lemma unlink_page_wf s a p : tracker_wf s → phys a → get_page s a = Some p → tracker_wf (set_page a (PageInfo.unlink p) s).
Proof. intros Hwf Ha Hp. eapply tracker_wf_set_page; [done..|]. by destruct (tw_pages _ Hwf a p Ha Hp) as (? & _ & ?). Qed.

Lemma pop_rep s l a xs :
  page_map_wf (PageTracker.pages s) → list_rep s l (a :: xs) →
  ∃ l' p, get_page s a = Some p ∧
    PageList.pop l s = Returns (Ok (Some (Page.mk a Size4k), l'), set_page a (PageInfo.unlink p) s) ∧
    list_rep (set_page a (PageInfo.unlink p) s) l' xs.
Proof.
  intros Hwf Hrep. destruct (lr_links _ _ _ Hrep 0 a eq_refl) as (p & Hp & _).
  pose proof (rep_next _ _ _ 0 a p Hrep eq_refl Hp) as Hn. cbn in Hn.
  pose proof (lr_phys _ _ _ Hrep) as [[Ha Ha0] Hph]%list.Forall_cons.
  pose proof (lr_nodup _ _ _ Hrep) as [Hnin Hnd]%list.NoDup_cons.
  unfold PageList.pop. rewrite (lr_head _ _ _ Hrep). cbn [lookup list_lookup].
  unfold PageTracker.unlink_page. unfold get_page in Hp. rewrite Hp. fold (get_page s a) in Hp.
  unfold Page.new, Page.new_with_size. rewrite is_aligned_true by apply Ha.
  rewrite Hn. do 2 eexists. split; [done|]. split; [reflexivity|].
  pose proof (lr_small _ _ _ Hrep) as Hsm. cbn [length] in Hsm.
  split; cbn [PageList.head PageList.tail PageList.len]; try done.
  - rewrite (lr_tail _ _ _ Hrep). destruct xs; [done|]. cbn [lookup list_lookup]. by apply last_of_cons.
  - rewrite (lr_len _ _ _ Hrep). cbn [length]. unfold wrap64. rewrite Z.mod_small by lia. lia.
  - lia.
  - intros i b Hi. destruct (lr_links _ _ _ Hrep (S i) b Hi) as (pb & Hpb & Hl). exists pb. split; [|done].
    assert (Hbin : b ∈ xs) by by eapply list_elem_of_lookup_2.
    rewrite get_page_set_ne; [done|done|done| |].
    + rewrite list.Forall_forall in Hph. by apply Hph.
    + intros ->. done.
Qed.

(** Dropping a locked list unlinks and unlocks its pages. *)
Lemma drop_locked_spec xs fuel l s :
  page_map_wf (PageTracker.pages s) → list_rep s l xs → (length xs ≤ fuel)%nat →
  (∀ a p, a ∈ xs → get_page s a = Some p → PageInfo.state p = ConvertedLocked) →
  ∃ s', LockedPageList.drop_ fuel l s = Returns (Ok tt, s') ∧
    (tracker_wf s → tracker_wf s') ∧
    (∀ a p, a ∈ xs → get_page s a = Some p →
      get_page s' a = Some (PageInfo.set_state Converted (PageInfo.unlink p))) ∧
    (∀ c, phys c → c ∉ xs → get_page s' c = get_page s c).
Proof.
  revert fuel l s. induction xs as [|a xs IH]; intros fuel l s Hwf Hrep Hfuel Hst.
  { exists s. split; [|split_and!; [done| |done]; intros a p Ha; by apply not_elem_of_nil in Ha].
    assert (PageList.pop l s = Returns (Ok (None, l), s)) as Hpop.
    { unfold PageList.pop. by rewrite (lr_head _ _ _ Hrep). }
    destruct fuel; cbn; (erewrite bind_ok by exact Hpop); done. }
  destruct fuel as [|fuel]; [cbn in Hfuel; lia|].
  destruct (pop_rep s l a xs Hwf Hrep) as (l' & p & Hp & Hpop & Hrep').
  pose proof (lr_phys _ _ _ Hrep) as [[Ha _] Hph]%list.Forall_cons.
  pose proof (lr_nodup _ _ _ Hrep) as [Hnin _]%list.NoDup_cons.
  set (s1 := set_page a (PageInfo.unlink p) s) in *.
  assert (Hwf1 : page_map_wf (PageTracker.pages s1)) by by apply set_wf.
  assert (Hg1 : get_page s1 a = Some (PageInfo.unlink p)) by by eapply get_page_set_eq.
  set (s2 := set_page a (PageInfo.set_state Converted (PageInfo.unlink p)) s1).
  assert (Hun : PageTracker.unlock_page (Page.mk a Size4k) s1 = Returns (Ok tt, s2)).
  { unfold PageTracker.unlock_page. rewrite update_eq. cbn [Page.addr]. rewrite Hg1.
    unfold PageInfo.unlock. cbn. rewrite (Hst a p) by (done || left). done. }
  assert (Hne : ∀ b, phys b → b ≠ a → get_page s2 b = get_page s b).
  { intros b Hb Hba. unfold s2. rewrite get_page_set_ne by done. unfold s1. by apply get_page_set_ne. }
  assert (Hph' : ∀ b, b ∈ xs → phys b ∧ b ≠ a).
  { intros b Hin. rewrite list.Forall_forall in Hph. split; [by apply Hph|]. by intros ->. }
  assert (Hrep2 : list_rep s2 l' xs).
  { destruct Hrep' as [? ? ? ? ? ? Hlinks]. split; try done. intros i b Hi.
    destruct (Hlinks i b Hi) as (pb & Hpb & Hl). exists pb. split; [|done].
    assert (Hin : b ∈ xs) by by eapply list_elem_of_lookup_2. destruct (Hph' b Hin) as [Hbp Hba].
    unfold s2. by rewrite get_page_set_ne. }
  destruct (IH fuel l' s2) as (s' & Hdrop & Hshape & Hin' & Hout').
  { by apply set_wf. } { done. } { cbn in Hfuel. lia. }
  { intros b pb Hin Hpb. destruct (Hph' b Hin) as [Hbp Hba].
    rewrite Hne in Hpb by done. eapply Hst; [by right|done]. }
  exists s'. cbn [LockedPageList.drop_]. split_and!.
  - erewrite bind_ok by exact Hpop. cbn. erewrite bind_ok; [exact Hdrop|]. unfold unwrap. by rewrite Hun.
  - intros Hw. apply Hshape. eapply (tracker_wf_set_page s1); [by apply unlink_page_wf|done..|].
    destruct (tw_pages _ Hw a p Ha Hp) as (? & _ & Hs). rewrite (Hst a p) in Hs by (done || left). done.
  - intros b pb [->|Hin]%elem_of_cons Hpb.
    + rewrite Hout' by done. unfold s2. rewrite Hp in Hpb. simplify_eq. by eapply get_page_set_eq.
    + destruct (Hph' b Hin). apply Hin'; [done|]. by rewrite Hne.
  - intros c Hc [Hca Hcin]%not_elem_of_cons. rewrite Hout' by done. by apply Hne.
Qed.

(** ** Lists built from drained pages *)

(** Distinct pages of the map have distinct indices. *)
Lemma nodup_pages_bound pm xs :
  page_map_wf pm → NoDup xs → Forall (λ a, phys a ∧ is_Some (PageMap.get pm a)) xs →
  (length xs ≤ length (PageMap.pages pm))%nat.
Proof.
  intros Hwf Hnd Hall. set (idx := λ a, Z.to_nat (default 0 (PageMap.get_map_index pm a))).
  rewrite list.Forall_forall in Hall.
  assert (Hidx : ∀ a, a ∈ xs → ∃ i, PageMap.get_map_index pm a = Some i ∧ idx a = Z.to_nat i ∧
    0 ≤ i < Z.of_nat (length (PageMap.pages pm))).
  { intros a Ha. destruct (Hall a Ha) as [Hp Hs]. apply get_is_Some in Hs as [i Hi]; [|done..].
    exists i. unfold idx. rewrite Hi. split_and!; try done; by eapply get_map_index_bound. }
  assert (Hinc : incl (idx <$> xs) (seq 0 (length (PageMap.pages pm)))).
  { intros k Hk. apply list_elem_of_In, list_elem_of_fmap in Hk as (a & -> & Ha).
    destruct (Hidx a Ha) as (i & _ & -> & Hr). apply in_seq. lia. }
  apply NoDup_incl_length in Hinc; [by rewrite length_fmap, length_seq in Hinc|].
  apply NoDup_ListNoDup, NoDup_fmap_2_strong; [|done]. intros a b Ha Hb Heq.
  destruct (Hidx a Ha) as (i & Hi & E1 & ?), (Hidx b Hb) as (j & Hj & E2 & ?).
  assert (i = j) as <- by lia. eapply get_map_index_inj; [done| | |done|done]; by apply Hall.
Qed.

Lemma list_walk_spec s l xs i a fuel :
  list_rep s l xs → xs !! i = Some a → (length xs ≤ S i + fuel)%nat →
  ∃ t, last_of xs = Some t ∧
    PageList.walk s fuel a (Z.of_nat (S i)) = Some (t, Z.of_nat (length xs)).
Proof.
  intros Hrep. revert i a. induction fuel as [|fuel IH]; intros i a Hi Hf;
    destruct (lr_links _ _ _ Hrep i a Hi) as (p & Hp & _);
    pose proof (rep_next _ _ _ _ _ _ Hrep Hi Hp) as Hn;
    pose proof (lookup_lt_Some _ _ _ Hi);
    cbn [PageList.walk]; unfold PageTracker.linked_page; fold (get_page s a); rewrite Hp; cbn; rewrite Hn.
  - rewrite lookup_ge_None_2 by lia. exists a. unfold last_of.
    replace (length xs - 1)%nat with i by lia. split; [done|]. do 2 f_equal. lia.
  - destruct (xs !! S i) as [b|] eqn:Hb.
    + destruct (IH (S i) b Hb) as (t & Ht & Hw); [lia|]. exists t. split; [done|].
      rewrite <-Hw. f_equal. unfold wrap64. pose proof (lr_small _ _ _ Hrep).
      apply lookup_lt_Some in Hb. rewrite Z.mod_small by lia. lia.
    + apply lookup_ge_None in Hb. exists a. unfold last_of.
      replace (length xs - 1)%nat with i by lia. split; [done|]. do 2 f_equal. lia.
Qed.

Lemma from_raw_parts_rep s xs n :
  page_map_wf (PageTracker.pages s) → xs !! 0%nat = Some n → NoDup xs →
  Forall (λ a, phys a ∧ a ≠ 0) xs →
  (∀ i a, xs !! i = Some a → ∃ p, get_page s a = Some p ∧ PageInfo.link_ p = xs !! S i) →
  ∃ l, PageList.from_raw_parts s n = Some l ∧ list_rep s l xs.
Proof.
  intros Hwf Hn Hnd Hph Hl.
  assert (Hlen : (length xs ≤ length (PageMap.pages (PageTracker.pages s)))%nat).
  { apply nodup_pages_bound; [done..|]. apply list.Forall_forall. intros a Ha.
    rewrite list.Forall_forall in Hph. split; [by apply Hph|].
    apply list_elem_of_lookup in Ha as [i Hi]. destruct (Hl i a Hi) as (p & Hp & _). eauto. }
  pose proof (pm_size _ Hwf) as Hsz.
  pose (l0 := PageList.mk (xs !! 0%nat) (last_of xs) (Z.of_nat (length xs))).
  assert (Hrep : list_rep s l0 xs) by (split; try done; lia).
  destruct (list_walk_spec s l0 xs 0 n (length (PageMap.pages (PageTracker.pages s))) Hrep Hn) as (t & Ht & Hw); [lia|].
  exists l0. split; [|done]. unfold PageList.from_raw_parts.
  change (Z.of_nat 1) with 1 in Hw. rewrite Hw. cbn. unfold l0. by rewrite Hn, Ht.
Qed.

(** [is_contiguous] holds exactly for runs of consecutive pages. *)
Lemma contiguous_from_spec s l xs i a fuel :
  list_rep s l xs → xs !! i = Some a → (length xs ≤ i + fuel)%nat →
  PageList.contiguous_from s fuel a = true ↔ drop i xs = page_seq a Size4k (length xs - i).
Proof.
  intros Hrep. revert i a. induction fuel as [|fuel IH]; intros i a Hi Hf;
    pose proof (lookup_lt_Some _ _ _ Hi) as Hlt; [lia|].
  destruct (lr_links _ _ _ Hrep i a Hi) as (p & Hp & _).
  pose proof (rep_next _ _ _ _ _ _ Hrep Hi Hp) as Hn.
  cbn [PageList.contiguous_from]; unfold PageTracker.linked_page; fold (get_page s a); rewrite Hp.
  cbn [mbind option_bind]. rewrite Hn. rewrite (drop_S _ _ _ Hi).
  replace (length xs - i)%nat with (S (length xs - S i)) by lia. cbn [page_seq].
  assert (Ha : phys a).
  { pose proof (lr_phys _ _ _ Hrep) as H. rewrite list.Forall_forall in H.
    apply H. by eapply list_elem_of_lookup_2. }
  unfold PageAddr.checked_add_pages.
  assert (PageAddr.checked_add_pages_with_size a 1 Size4k = Some (a + 4096)) as ->.
  { destruct Ha. apply checked_add_pages_spec; [done|]. cbn [PageSize.bytes]. lia. }
  destruct (xs !! S i) as [b|] eqn:Hb.
  - pose proof (lookup_lt_Some _ _ _ Hb). destruct (Z.eqb_spec b (a + 4096)) as [->|Hne].
    + rewrite (IH (S i)) by (done || lia). cbn [PageSize.bytes]. split; [by intros ->|by intros [= ?]].
    + split; [done|]. intros [= E]. rewrite (drop_S _ _ _ Hb) in E.
      replace (length xs - S i)%nat with (S (length xs - S (S i))) in E by lia. cbn in E. by simplify_eq.
  - apply lookup_ge_None in Hb. rewrite drop_ge by lia.
    replace (length xs - S i)%nat with 0%nat by lia. done.
Qed.

(** ** Properties *)

(** C33: [PageList] implements a queue of pages: pushing an unlinked page that is
    not on the list appends it, popping returns the first page and leaves it
    unlinked, neither touches pages outside the list, and pushing a page that is
    already linked onto a non-empty list is refused without any change. *)
Theorem page_list_is_queue (s : PageTracker.t) (l : PageList.t) (xs : list Z) :
  page_map_wf (PageTracker.pages s) → list_rep s l xs → Z.of_nat (length xs) + 1 < U64 →
  (∀ b pb, phys b → b ≠ 0 → b ∉ xs → get_page s b = Some pb → PageInfo.link_ pb = None →
    ∃ l' s', PageList.push (Page.mk b Size4k) l s = Returns (Ok l', s') ∧ list_rep s' l' (xs ++ [b]) ∧
      ∀ c, phys c → c ∉ xs → get_page s' c = get_page s c) ∧
  (∀ b pb n, xs ≠ [] → get_page s b = Some pb → PageInfo.next pb = Some n →
    PageList.push (Page.mk b Size4k) l s = Returns (Err PageAlreadyLinked, s)) ∧
  match xs with
  | [] => PageList.pop l s = Returns (Ok (None, l), s)
  | a :: xs' => ∃ l' p, get_page s a = Some p ∧
      PageList.pop l s = Returns (Ok (Some (Page.mk a Size4k), l'), set_page a (PageInfo.unlink p) s) ∧
      list_rep (set_page a (PageInfo.unlink p) s) l' xs'
  end.
Proof.
  intros Hwf Hrep Hlen. split_and!.
  - intros b pb Hb Hb0 Hnin Hpb Hlk.
    destruct (push_rep s l xs b pb) as (l' & s' & H1 & H2 & _ & H3 & _); try done. by exists l', s'.
  - intros b pb n Hne Hpb Hn. unfold PageList.push. rewrite (lr_tail _ _ _ Hrep).
    destruct (nonempty_snoc xs Hne) as (xs' & t & ->). rewrite last_of_snoc.
    apply bind_err. unfold PageTracker.link_pages, PageTracker.get. msimpl.
    unfold get_page in Hpb. rewrite Hpb. cbn. by rewrite Hn.
  - destruct xs as [|a xs]; [|by apply pop_rep].
    unfold PageList.pop. by rewrite (lr_head _ _ _ Hrep).
Qed.

Lemma page_list_is_queue_witness :
  PageList.pop (PageList.mk None None 0) example_tracker =
    Returns (Ok (None, PageList.mk None None 0), example_tracker).
Proof.
  apply (page_list_is_queue example_tracker (PageList.mk None None 0) []).
  - exact (tw_map _ example_tracker_wf).
  - split; try done. apply base.NoDup_nil_2.
  - cbn. lia.
Defined.

(** Dropping a list of locked pages unlinks every page and returns it to the
    [Converted] state, so that an aborted operation leaves its pages assignable,
    and changes no other page. *)
Theorem locked_list_drop_unlocks (s : PageTracker.t) (l : PageList.t) (xs : list Z) :
  page_map_wf (PageTracker.pages s) → list_rep s l xs →
  (∀ a p, a ∈ xs → get_page s a = Some p → PageInfo.state p = ConvertedLocked) →
  ∃ s', LockedPageList.drop_ (Z.to_nat (PageList.len l)) l s = Returns (Ok tt, s') ∧
    (∀ a p, a ∈ xs → get_page s a = Some p →
      get_page s' a = Some (PageInfo.set_state Converted (PageInfo.unlink p))) ∧
    (∀ c, phys c → c ∉ xs → get_page s' c = get_page s c).
Proof.
  intros Hwf Hrep Hst. pose proof (lr_len _ _ _ Hrep).
  destruct (drop_locked_spec xs (Z.to_nat (PageList.len l)) l s) as (s' & H1 & _ & H2 & H3); [done|done|lia|done|].
  eauto.
Qed.

Definition locked_page : PageInfo.t := PageInfo.mk MemType.Ram ConvertedLocked [PageOwnerId.host] None.
Definition locked_tracker : PageTracker.t := set_page 65536 locked_page example_tracker.

Lemma locked_list_drop_unlocks_witness :
  ∃ s', LockedPageList.drop_ 1 (PageList.mk (Some 65536) (Some 65536) 1) locked_tracker = Returns (Ok tt, s') ∧
    get_page s' 65536 = Some (PageInfo.set_state Converted locked_page).
Proof.
  assert (H65 : phys 65536) by (split; [lia|done]).
  assert (Hg : get_page locked_tracker 65536 = Some locked_page) by (vm_compute; reflexivity).
  destruct (locked_list_drop_unlocks locked_tracker (PageList.mk (Some 65536) (Some 65536) 1) [65536])
    as (s' & Hd & Hin & _).
  - apply set_wf. exact (tw_map _ example_tracker_wf).
  - split; try done; [apply NoDup_singleton|by apply list.Forall_singleton|].
    intros [|i] a Ha; cbn in Ha; simplify_eq. exists locked_page. done.
  - intros a p Ha Hp. apply list_elem_of_singleton in Ha. subst a. rewrite Hg in Hp. by simplify_eq.
  - exists s'. split; [exact Hd|]. apply (Hin 65536); [left|exact Hg].
Defined.

(** The list of host pages made from a drained allocator stands for exactly
    the pages that were free, in address order, and the walk that builds it
    terminates. *)
Theorem drained_pages_form_list (h : HypPageAlloc.t) (n next_id cap : Z) (guests : list PageOwnerId.t) :
  HypPageAlloc.next_page h = Some n → drain_pre (HypPageAlloc.pages h) None n →
  ∃ F pm' l, HypPageAlloc.drain h = Returns (pm', n) ∧ free_list (HypPageAlloc.pages h) n F ∧
    PageList.from_raw_parts (PageTracker.mk next_id guests cap pm') n = Some l ∧
    list_rep (PageTracker.mk next_id guests cap pm') l F.
Proof.
  intros Hnext Hpre. destruct (drain_spec_aux h n Hnext Hpre) as (F & pm' & Hdrain & HF & [Hd Hin _]).
  pose proof Hpre as [_ Hz [Hn Hnf] _ _]. pose proof HF as [Hh Hph He Hs].
  assert (Hall : Forall (λ a, phys a ∧ a ≠ 0) F).
  { apply list.Forall_forall. intros a Ha. rewrite list.Forall_forall in Hph. split; [by apply Hph|].
    intros ->. apply He in Ha as [_ Hf]; [|by apply Hph]. unfold page_is_free in Hf. by rewrite Hz in Hf. }
  destruct (from_raw_parts_rep (PageTracker.mk next_id guests cap pm') F n) as (l & Hl & Hrep).
  - by apply pd_wf.
  - done.
  - apply NoDup_alt. intros i j a Hi Hj. destruct (lt_eq_lt_dec i j) as [[Hlt|]|Hlt]; [|done|].
    + pose proof (Hs _ _ _ _ Hlt Hi Hj). lia.
    + pose proof (Hs _ _ _ _ Hlt Hj Hi). lia.
  - done.
  - intros i a Hi. pose proof (list_elem_of_lookup_2 _ _ _ Hi) as Ha.
    rewrite list.Forall_forall in Hph. apply He in Ha as [_ (p & Hp & _)%page_is_free_Some]; [|by apply Hph].
    exists (drained (F !! S i) p). split; [|done]. by apply Hin.
  - by exists F, pm', l.
Qed.

Lemma drained_pages_form_list_witness :
  ∃ F pm' l, HypPageAlloc.drain (HypPageAlloc.mk (Some 65536) two_bank_map) = Returns (pm', 65536) ∧
    free_list two_bank_map 65536 F ∧
    PageList.from_raw_parts (PageTracker.mk 2 [] 0 pm') 65536 = Some l ∧
    list_rep (PageTracker.mk 2 [] 0 pm') l F.
Proof.
  apply (drained_pages_form_list (HypPageAlloc.mk (Some 65536) two_bank_map) 65536 2 0 []); [done|].
  split; [exact two_bank_map_dense|done|split; [split; [lia|done]|done]| |done].
  intros a p Ha Hle Hp _. unfold PageMap.get in Hp.
  destruct (PageMap.get_map_index _ a) as [i|]; [|done].
  apply list_elem_of_lookup_2, list_elem_of_In, repeat_spec in Hp. by subst p.
Defined.

(** [is_contiguous] reports exactly the lists whose pages are consecutive. *)
Theorem page_list_is_contiguous (s : PageTracker.t) (l : PageList.t) (xs : list Z) :
  page_map_wf (PageTracker.pages s) → list_rep s l xs →
  PageList.is_contiguous s l = true ↔
    match xs with [] => True | a :: _ => xs = page_seq a Size4k (length xs) end.
Proof.
  intros Hwf Hrep. unfold PageList.is_contiguous. rewrite (lr_head _ _ _ Hrep).
  destruct xs as [|a xs]; [done|]. cbn [lookup list_lookup].
  rewrite (contiguous_from_spec s l (a :: xs) 0 a); [by rewrite Nat.sub_0_r|done|done|].
  assert ((length (a :: xs) ≤ length (PageMap.pages (PageTracker.pages s)))%nat); [|lia].
  apply nodup_pages_bound; [done|apply Hrep|]. apply list.Forall_forall. intros b Hb.
  pose proof (lr_phys _ _ _ Hrep) as Hph. rewrite list.Forall_forall in Hph. split; [by apply Hph|].
  apply list_elem_of_lookup in Hb as [i Hi]. destruct (lr_links _ _ _ Hrep i b Hi) as (p & Hp & _).
  unfold get_page in Hp. eauto.
Qed.

Lemma page_list_is_contiguous_witness :
  PageList.is_contiguous locked_tracker (PageList.mk (Some 65536) (Some 65536) 1) = true ↔
    [65536] = page_seq 65536 Size4k 1.
Proof.
  apply (page_list_is_contiguous locked_tracker (PageList.mk (Some 65536) (Some 65536) 1) [65536]).
  - apply set_wf. exact (tw_map _ example_tracker_wf).
  - assert (H65 : phys 65536) by (split; [lia|done]).
    split; try done; [apply NoDup_singleton|by apply list.Forall_singleton|].
    intros [|i] a Ha; cbn in Ha; simplify_eq. exists locked_page. split; [vm_compute; reflexivity|done].
Defined.
