(* ===== verification/Pte.v ===== *)
(** * Page table entries and paging modes (crate [riscv-page-tables])

    Models [pte.rs], [sv48.rs] and [sv48x4.rs]: the bit layout of a page table
    entry, its status bits, and the levels of the two paging modes as instances
    of the classes [PageTableLevel] and [PagingMode]. *)
From S2P Require Import Prelude RiscvPages.
Import PageSize(Size4k, Size2M, Size1G, Size512G).

Module PteFieldBit.
Inductive t := Valid | Read | Write | Execute | User | Global | Accessed | Dirty | Locked.
Definition shift (b : t) : Z :=
  match b with
  | Valid => 0 | Read => 1 | Write => 2 | Execute => 3 | User => 4
  | Global => 5 | Accessed => 6 | Dirty => 7 | Locked => 8
  end.
Definition mask (b : t) : Z := Z.shiftl 1 (shift b).
Definition is_set (b : t) (val : Z) : bool := negb (Z.land val (mask b) =? 0).
End PteFieldBit.

Module PteLeafPerms.
Inductive t := R | RW | X | RX | RWX | URX | UR | URW.
Definition bits (p : t) : Z :=
  let r := PteFieldBit.mask PteFieldBit.Read in
  let w := PteFieldBit.mask PteFieldBit.Write in
  let x := PteFieldBit.mask PteFieldBit.Execute in
  let u := PteFieldBit.mask PteFieldBit.User in
  match p with
  | R => r
  | RW => Z.lor r w
  | X => x
  | RX => Z.lor r x
  | RWX => Z.lor (Z.lor r w) x
  | URX => Z.lor (Z.lor u r) x
  | UR => Z.lor u r
  | URW => Z.lor (Z.lor u r) w
  end.
End PteLeafPerms.

Module PteFieldBits.
(** The [bits] field. *)
Definition t := Z.
Definition set_bit (s : t) (b : PteFieldBit.t) : t := Z.lor s (Z.shiftl 1 (PteFieldBit.shift b)).
Definition clear_bit (s : t) (b : PteFieldBit.t) : t :=
  Z.land s (not64 (Z.shiftl 1 (PteFieldBit.shift b))).
Definition leaf_with_perms (p : PteLeafPerms.t) : t := Z.lor 0 (PteLeafPerms.bits p).
Definition user_leaf_with_perms (p : PteLeafPerms.t) : t :=
  set_bit (Z.lor 0 (PteLeafPerms.bits p)) PteFieldBit.User.
Definition non_leaf : t := 0.
End PteFieldBits.

Module Pte.
(** The raw entry; the mutating methods return the new entry. *)
Definition t := Z.
Definition PFN_BITS : Z := 44.
Definition PFN_MASK : Z := Z.shiftl 1 PFN_BITS - 1.
Definition PFN_SHIFT : Z := 10.
Definition MASK_RWX : Z :=
  Z.lor (Z.lor (Z.shiftl 1 (PteFieldBit.shift PteFieldBit.Read))
               (Z.shiftl 1 (PteFieldBit.shift PteFieldBit.Write)))
        (Z.shiftl 1 (PteFieldBit.shift PteFieldBit.Execute)).

Definition set (pfn : Z) (status : PteFieldBits.t) : t :=
  Z.lor (Z.lor (wrap64 (Z.shiftl pfn PFN_SHIFT)) status) (PteFieldBit.mask PteFieldBit.Valid).
(** The previous frame number and the new entry. *)
Definition update_pfn (pfn : Z) (e : t) : Z * t :=
  (Z.land (Z.shiftr e PFN_SHIFT) PFN_MASK,
   Z.lor (Z.land e (not64 (wrap64 (Z.shiftl PFN_MASK PFN_SHIFT)))) (wrap64 (Z.shiftl pfn PFN_SHIFT))).
Definition valid (e : t) : bool := PteFieldBit.is_set PteFieldBit.Valid e.
Definition invalidate (e : t) : t := Z.land e (not64 (PteFieldBit.mask PteFieldBit.Valid)).
Definition mark_valid (e : t) : t := Z.lor e (PteFieldBit.mask PteFieldBit.Valid).
Definition locked (e : t) : bool := PteFieldBit.is_set PteFieldBit.Locked e.
Definition lock (e : t) : t := Z.lor e (PteFieldBit.mask PteFieldBit.Locked).
Definition unlock (e : t) : t := Z.land e (not64 (PteFieldBit.mask PteFieldBit.Locked)).
Definition clear (e : t) : t := 0.
Definition leaf (e : t) : bool := negb (Z.land e MASK_RWX =? 0).
Definition pfn (e : t) : Z := Z.land (Z.shiftr e PFN_SHIFT) PFN_MASK.
End Pte.

(** ** Paging modes: [trait PageTableLevel] and [trait PagingMode] *)
Class PageTableLevel (L : Type) := {
  leaf_page_size : L → PageSize.t;
  next_level : L → option L;
  addr_shift : L → Z;
  addr_width : L → Z;
  table_pages : L → Z;
  is_leaf : L → bool
}.

Class PagingMode (L : Type) := {
  mode_level :: PageTableLevel L;
  TOP_LEVEL_ALIGN : Z;
  root_level : L;
  max_pte_pages : Z → Z
}.

Definition ENTRIES_PER_PAGE : Z := 4096 / 8.

Module Sv48Level.
Inductive t := L1 | L2 | L3 | L4.
Definition leaf_page_size (l : t) : PageSize.t :=
  match l with L1 => Size4k | L2 => Size2M | L3 => Size1G | L4 => Size512G end.
Definition next (l : t) : option t :=
  match l with L1 => None | L2 => Some L1 | L3 => Some L2 | L4 => Some L3 end.
Definition addr_shift (l : t) : Z :=
  match l with L1 => 12 | L2 => 21 | L3 => 30 | L4 => 39 end.
Definition addr_width (l : t) : Z := 9.
Definition table_pages (l : t) : Z := 1.
Definition is_leaf (l : t) : bool := match l with L1 => true | _ => false end.
End Sv48Level.

#[export] Instance sv48_level : PageTableLevel Sv48Level.t := {|
  leaf_page_size := Sv48Level.leaf_page_size; next_level := Sv48Level.next;
  addr_shift := Sv48Level.addr_shift; addr_width := Sv48Level.addr_width;
  table_pages := Sv48Level.table_pages; is_leaf := Sv48Level.is_leaf |}.

Module Sv48.
Definition SATP_MODE : Z := 9.
Definition TOP_LEVEL_ALIGN : Z := 4 * 1024.
Definition root_level : Sv48Level.t := Sv48Level.L4.
Definition max_pte_pages (num_pages : Z) : Z :=
  let num_l1_pages := wrap64 (num_pages / ENTRIES_PER_PAGE + 1) in
  let num_l2_pages := wrap64 (num_l1_pages / ENTRIES_PER_PAGE + 1) in
  let num_l3_pages := wrap64 (num_l2_pages / ENTRIES_PER_PAGE + 1) in
  let num_l4_pages := 1 in
  wrap64 (num_l1_pages + num_l2_pages + num_l3_pages + num_l4_pages).
End Sv48.

#[export] Instance sv48 : PagingMode Sv48Level.t := {|
  TOP_LEVEL_ALIGN := Sv48.TOP_LEVEL_ALIGN; root_level := Sv48.root_level;
  max_pte_pages := Sv48.max_pte_pages |}.

Module Sv48x4Level.
Inductive t := L1Table | L2Table | L3Table | L4Table.
Definition leaf_page_size (l : t) : PageSize.t :=
  match l with L1Table => Size4k | L2Table => Size2M | L3Table => Size1G | L4Table => Size512G end.
Definition next (l : t) : option t :=
  match l with
  | L1Table => None | L2Table => Some L1Table | L3Table => Some L2Table | L4Table => Some L3Table
  end.
Definition addr_shift (l : t) : Z :=
  match l with L1Table => 12 | L2Table => 21 | L3Table => 30 | L4Table => 39 end.
Definition addr_width (l : t) : Z :=
  match l with L1Table => 9 | L2Table => 9 | L3Table => 9 | L4Table => 11 end.
Definition table_pages (l : t) : Z :=
  match l with L1Table => 1 | L2Table => 1 | L3Table => 1 | L4Table => 4 end.
Definition is_leaf (l : t) : bool := match l with L1Table => true | _ => false end.
End Sv48x4Level.

#[export] Instance sv48x4_level : PageTableLevel Sv48x4Level.t := {|
  leaf_page_size := Sv48x4Level.leaf_page_size; next_level := Sv48x4Level.next;
  addr_shift := Sv48x4Level.addr_shift; addr_width := Sv48x4Level.addr_width;
  table_pages := Sv48x4Level.table_pages; is_leaf := Sv48x4Level.is_leaf |}.

Module Sv48x4.
Definition HGATP_MODE : Z := 9.
Definition TOP_LEVEL_ALIGN : Z := 16 * 1024.
Definition root_level : Sv48x4Level.t := Sv48x4Level.L4Table.
Definition max_pte_pages (num_pages : Z) : Z :=
  let num_l1_pages := wrap64 (num_pages / ENTRIES_PER_PAGE + 1) in
  let num_l2_pages := wrap64 (num_l1_pages / ENTRIES_PER_PAGE + 1) in
  let num_l3_pages := wrap64 (num_l2_pages / ENTRIES_PER_PAGE + 1) in
  let num_l4_pages := 4 in
  wrap64 (num_l1_pages + num_l2_pages + num_l3_pages + num_l4_pages).
End Sv48x4.

#[export] Instance sv48x4 : PagingMode Sv48x4Level.t := {|
  TOP_LEVEL_ALIGN := Sv48x4.TOP_LEVEL_ALIGN; root_level := Sv48x4.root_level;
  max_pte_pages := Sv48x4.max_pte_pages |}.

(** What the generic page table code relies on: the levels form a chain whose
    index fields are adjacent, a table below the root is one page, and a leaf of
    a level covers exactly what the level's index does not select. *)
Class PagingLaws (L : Type) `{PagingMode L} := {
  depth : L → nat;
  law_eq :: EqDecision L;
  law_next (l l' : L) : next_level l = Some l' →
    depth l = S (depth l') ∧ addr_shift l = addr_shift l' + addr_width l' ∧ table_pages l' = 1;
  law_leaf (l : L) : is_leaf l = true ↔ next_level l = None;
  law_bottom (l : L) : next_level l = None ↔ leaf_page_size l = Size4k;
  law_zero (l : L) : next_level l = None → depth l = O;
  law_size (l l' : L) : leaf_page_size l = leaf_page_size l' → l = l';
  law_depth (l : L) : (depth l ≤ 3)%nat;
  law_reach s : ∃ l : L, leaf_page_size l = s;
  law_root (l : L) : l = root_level ∨ (depth l < depth root_level)%nat;
  law_inj (l l' : L) : depth l = depth l' → l = l';
  law_shift (l : L) : PageSize.bytes (leaf_page_size l) = 2 ^ addr_shift l;
  law_width (l : L) : 1 ≤ addr_width l ≤ 11 ∧ 12 ≤ addr_shift l ∧ addr_shift l + addr_width l ≤ 50;
  law_top (l : L) : addr_shift l + addr_width l ≤
    addr_shift (root_level (L := L)) + addr_width (root_level (L := L));
  law_pages (l : L) : 2 ^ addr_width l * 8 = table_pages l * 4096;
  law_align : TOP_LEVEL_ALIGN (L := L) = table_pages (root_level (L := L)) * 4096 ∧
    ∃ k, 12 ≤ k ≤ 14 ∧ TOP_LEVEL_ALIGN (L := L) = 2 ^ k
}.
Arguments law_reach {_ _ _} _.
Arguments law_align L {_ _}.

#[export] Instance sv48_laws : PagingLaws Sv48Level.t.
Proof.
  refine {| depth := λ l, match l with Sv48Level.L1 => 0 | Sv48Level.L2 => 1
                          | Sv48Level.L3 => 2 | Sv48Level.L4 => 3 end%nat |}.
  - solve_decision.
  - intros [] []; cbn; intros; simplify_eq; done.
  - by intros [].
  - by intros [].
  - by intros [].
  - by intros [] [].
  - intros []; lia.
  - intros []; [exists Sv48Level.L1|exists Sv48Level.L2|exists Sv48Level.L3|exists Sv48Level.L4]; done.
  - intros []; cbn; [right; lia|right; lia|right; lia|by left].
  - by intros [] [].
  - by intros [].
  - intros []; cbn; unfold Sv48Level.addr_width; lia.
  - by intros [].
  - by intros [].
  - split; [done|]. by exists 12.
Defined.

#[export] Instance sv48x4_laws : PagingLaws Sv48x4Level.t.
Proof.
  refine {| depth := λ l, match l with Sv48x4Level.L1Table => 0 | Sv48x4Level.L2Table => 1
                          | Sv48x4Level.L3Table => 2 | Sv48x4Level.L4Table => 3 end%nat |}.
  - solve_decision.
  - intros [] []; cbn; intros; simplify_eq; done.
  - by intros [].
  - by intros [].
  - by intros [].
  - by intros [] [].
  - intros []; lia.
  - intros []; [exists Sv48x4Level.L1Table|exists Sv48x4Level.L2Table|exists Sv48x4Level.L3Table
               |exists Sv48x4Level.L4Table]; done.
  - intros []; cbn; [right; lia|right; lia|right; lia|by left].
  - by intros [] [].
  - by intros [].
  - intros []; cbn; lia.
  - by intros [].
  - by intros [].
  - split; [done|]. by exists 14.
Defined.
