(* ===== verification/PteFacts.v ===== *)
(** * Page table entries as records of fields

    Every operation on a raw entry is described by its effect on four fields:
    the valid bit, the lock bit, whether it is a leaf, and the frame number. *)
From S2P Require Import Prelude RiscvPages Pte.

Lemma shift_bound b : 0 ≤ PteFieldBit.shift b ≤ 8.
Proof. destruct b; cbn; lia. Qed.

Lemma land_bit_zero v k : 0 ≤ k → (Z.land v (Z.shiftl 1 k) =? 0) = negb (Z.testbit v k).
Proof.
  intros Hk. destruct (Z.testbit v k) eqn:Hb; cbn.
  - apply Z.eqb_neq. intros H.
    assert (Z.testbit (Z.land v (Z.shiftl 1 k)) k = false) as Hf by (rewrite H; apply Z.bits_0).
    rewrite Z.land_spec, testbit_shiftl1, Z.eqb_refl, Hb in Hf by done. done.
  - apply Z.eqb_eq, Z.bits_inj'. intros i Hi. rewrite Z.land_spec, testbit_shiftl1, Z.bits_0 by done.
    destruct (Z.eqb_spec i k) as [->|]; [by rewrite Hb|apply andb_false_r].
Qed.

Lemma is_set_testbit b v : PteFieldBit.is_set b v = Z.testbit v (PteFieldBit.shift b).
Proof.
  unfold PteFieldBit.is_set, PteFieldBit.mask. rewrite land_bit_zero; [apply negb_involutive|].
  pose proof (shift_bound b). lia.
Qed.

Lemma leaf_testbit v : Pte.leaf v = Z.testbit v 1 || Z.testbit v 2 || Z.testbit v 3.
Proof.
  unfold Pte.leaf. change Pte.MASK_RWX with 14.
  destruct (Z.testbit v 1) eqn:H1, (Z.testbit v 2) eqn:H2, (Z.testbit v 3) eqn:H3; cbn.
  8: { rewrite Bool.negb_false_iff. apply Z.eqb_eq, Z.bits_inj'. intros i Hi. rewrite Z.land_spec, Z.bits_0.
       destruct (decide (i = 1)) as [->|]; [by rewrite H1|].
       destruct (decide (i = 2)) as [->|]; [by rewrite H2|].
       destruct (decide (i = 3)) as [->|]; [by rewrite H3|].
       replace (Z.testbit 14 i) with false; [apply andb_false_r|].
       destruct (decide (i = 0)) as [->|]; [done|]. symmetry. apply (testbit_high 14 i 4); lia. }
  all: rewrite Bool.negb_true_iff; apply Z.eqb_neq; intros H;
    assert (Hb : ∀ i, Z.testbit (Z.land v 14) i = false) by (intros; rewrite H; apply Z.bits_0);
    first [specialize (Hb 1); rewrite Z.land_spec, H1 in Hb; done
          |specialize (Hb 2); rewrite Z.land_spec, H2 in Hb; done
          |specialize (Hb 3); rewrite Z.land_spec, H3 in Hb; done].
Qed.

Lemma pfn_testbit v i : 0 ≤ i → Z.testbit (Pte.pfn v) i = (i <? 44) && Z.testbit v (i + 10).
Proof.
  intros Hi. unfold Pte.pfn. rewrite Z.land_spec, Z.shiftr_spec by done.
  change Pte.PFN_MASK with (Z.ones 44). change Pte.PFN_SHIFT with 10.
  destruct (Z.ltb_spec i 44).
  - rewrite Z.ones_spec_low by lia. rewrite andb_true_r. done.
  - rewrite Z.ones_spec_high by lia. apply andb_false_r.
Qed.

Lemma pfn_range v : 0 ≤ Pte.pfn v < 2 ^ 44.
Proof.
  unfold Pte.pfn. change Pte.PFN_MASK with (Z.ones 44). rewrite Z.land_ones by done.
  apply Z.mod_pos_bound. done.
Qed.

(** Two entries agree on the fields of an operation when they agree on its bits. *)
Lemma pfn_ext v w :
  (∀ i, 10 ≤ i < 54 → Z.testbit v i = Z.testbit w i) → Pte.pfn v = Pte.pfn w.
Proof.
  intros H. apply Z.bits_inj'. intros i Hi. rewrite !pfn_testbit by done.
  destruct (Z.ltb_spec i 44); [|done]. cbn. apply H. lia.
Qed.

Record pte_view := PteView { pv_valid : bool; pv_locked : bool; pv_leaf : bool; pv_pfn : Z }.
Definition view (v : Pte.t) : pte_view :=
  PteView (Pte.valid v) (Pte.locked v) (Pte.leaf v) (Pte.pfn v).

Lemma view_ext v b l f p :
  Z.testbit v 0 = b → Z.testbit v 8 = l →
  Z.testbit v 1 || Z.testbit v 2 || Z.testbit v 3 = f → Pte.pfn v = p →
  view v = PteView b l f p.
Proof.
  intros <- <- <- <-. unfold view, Pte.valid, Pte.locked. by rewrite !is_set_testbit, leaf_testbit.
Qed.

Lemma view_valid v : pv_valid (view v) = Z.testbit v 0.
Proof. apply is_set_testbit. Qed.
Lemma view_locked v : pv_locked (view v) = Z.testbit v 8.
Proof. apply is_set_testbit. Qed.

Ltac pte_bits :=
  repeat match goal with
  | |- context [Z.testbit (Z.lor ?a ?b) ?i] => rewrite (Z.lor_spec a b i)
  | |- context [Z.testbit (Z.land ?a ?b) ?i] => rewrite (Z.land_spec a b i)
  | |- context [Z.testbit (not64 ?a) ?i] => rewrite (testbit_not64 a i) by (first [lia | by unfold u64])
  | |- context [Z.testbit (wrap64 ?a) ?i] => rewrite (testbit_wrap64 a i) by lia
  | |- context [Z.testbit (Z.shiftl 1 ?k) ?i] => rewrite (testbit_shiftl1 k i) by lia
  | |- context [Z.testbit (Z.shiftl ?a ?k) ?i] => rewrite (Z.shiftl_spec a k i) by lia
  end.

Section operations.
Variable v : Z.
Hypothesis Hv : u64 v.

Lemma lock_view : view (Pte.lock v) = PteView (Pte.valid v) true (Pte.leaf v) (Pte.pfn v) ∧ u64 (Pte.lock v).
Proof using Hv.
  split; [|apply lor_u64; [done|by unfold u64]].
  unfold Pte.valid. rewrite is_set_testbit, leaf_testbit. unfold Pte.lock.
  change (PteFieldBit.mask PteFieldBit.Locked) with (Z.shiftl 1 8).
  apply view_ext; [| | |apply pfn_ext; intros i Hi]; pte_bits;
    rewrite ?orb_false_r, ?orb_true_r; try done.
  destruct (Z.eqb_spec i 8); [lia|]. apply orb_false_r.
Qed.

Lemma unlock_view :
  view (Pte.unlock v) = PteView (Pte.valid v) false (Pte.leaf v) (Pte.pfn v) ∧ u64 (Pte.unlock v).
Proof using Hv.
  split; [|apply land_u64; [done|done]].
  unfold Pte.valid. rewrite is_set_testbit, leaf_testbit. unfold Pte.unlock.
  change (PteFieldBit.mask PteFieldBit.Locked) with (Z.shiftl 1 8).
  apply view_ext; [| | |apply pfn_ext; intros i Hi]; pte_bits; rewrite ?andb_true_r, ?andb_false_r; try done.
  destruct (Z.eqb_spec i 8); [lia|]. apply andb_true_r.
Qed.

Lemma invalidate_view :
  view (Pte.invalidate v) = PteView false (Pte.locked v) (Pte.leaf v) (Pte.pfn v) ∧ u64 (Pte.invalidate v).
Proof using Hv.
  split; [|apply land_u64; [done|done]].
  unfold Pte.locked. rewrite is_set_testbit, leaf_testbit. unfold Pte.invalidate.
  change (PteFieldBit.mask PteFieldBit.Valid) with (Z.shiftl 1 0).
  apply view_ext; [| | |apply pfn_ext; intros i Hi]; pte_bits; rewrite ?andb_true_r, ?andb_false_r; try done.
  destruct (Z.eqb_spec i 0); [lia|]. apply andb_true_r.
Qed.

Lemma update_pfn_view p :
  0 ≤ p < 2 ^ 44 →
  (Pte.update_pfn p v).1 = Pte.pfn v ∧
  view (Pte.update_pfn p v).2 = PteView (Pte.valid v) (Pte.locked v) (Pte.leaf v) p ∧
  u64 (Pte.update_pfn p v).2.
Proof using Hv.
  intros Hp. split; [done|]. cbn [snd Pte.update_pfn].
  split; [|apply lor_u64; [by apply land_u64|apply wrap64_u64]].
  unfold Pte.valid, Pte.locked. rewrite !is_set_testbit, leaf_testbit. unfold Pte.PFN_SHIFT.
  assert (Hm : ∀ i, 0 ≤ i < 64 →
    Z.testbit (not64 (wrap64 (Z.shiftl Pte.PFN_MASK 10))) i = negb ((10 <=? i) && (i <? 54))).
  { intros i Hi. rewrite testbit_not64 by (try apply wrap64_u64; lia). f_equal.
    rewrite testbit_wrap64 by lia. rewrite Z.shiftl_spec by lia. change Pte.PFN_MASK with (Z.ones 44).
    destruct (Z.leb_spec 10 i).
    - destruct (Z.ltb_spec i 54); [apply Z.ones_spec_low; lia|apply Z.ones_spec_high; lia].
    - by rewrite Z.testbit_neg_r by lia. }
  apply view_ext; [| | |apply Z.bits_inj'; intros i Hi; rewrite pfn_testbit by done;
    destruct (Z.ltb_spec i 44); cbn [andb]; [|by rewrite (testbit_high p i 44)]];
    rewrite !Z.lor_spec, !Z.land_spec, !Hm, !testbit_wrap64, !Z.shiftl_spec by lia.
  1-3: rewrite !(Z.testbit_neg_r p) by lia; cbn; by rewrite ?orb_false_r, ?andb_true_r.
  destruct (Z.leb_spec 10 (i + 10)); [|lia]. destruct (Z.ltb_spec (i + 10) 54); [|lia]. cbn.
  rewrite andb_false_r. cbn. f_equal. lia.
Qed.
End operations.

Lemma set_view p s :
  0 ≤ p < 2 ^ 44 → 0 ≤ s < 2 ^ 10 →
  view (Pte.set p s) = PteView true (Pte.locked s) (Pte.leaf s) p ∧ u64 (Pte.set p s).
Proof.
  intros Hp Hs. unfold Pte.set. change (PteFieldBit.mask PteFieldBit.Valid) with (Z.shiftl 1 0).
  change Pte.PFN_SHIFT with 10.
  split; [|apply lor_u64; [apply lor_u64; [apply wrap64_u64|unfold u64; lia]|by unfold u64]].
  unfold Pte.locked. rewrite is_set_testbit, leaf_testbit.
  apply view_ext; [| | |apply Z.bits_inj'; intros i Hi; rewrite pfn_testbit by done;
    destruct (Z.ltb_spec i 44); cbn [andb]; [|by rewrite (testbit_high p i 44)]];
    pte_bits; rewrite ?(Z.testbit_neg_r p) by lia; cbn; rewrite ?orb_false_r, ?orb_true_r; try done.
  rewrite (testbit_high s (i + 10) 10) by lia. destruct (Z.eqb_spec (i + 10) 0); [lia|].
  rewrite !orb_false_r. f_equal. lia.
Qed.
