(* ===== verification/PageTableModel.v ===== *)
(** * Page tables (riscv-page-tables/src/page_table.rs)

    The memory that holds page tables is a finite map from the address of an
    entry to its 64-bit value; absent entries are zero, as in the zeroed pages
    that page tables are made of.  A reference to an entry is its address and
    level; [TableEntryType] has one constructor per type of entry.  Operations
    on [inner] under its lock are atomic.  [get_pte_page] hands out the pages of
    a list.  The iterators that the range operations return are the list of
    addresses still to visit with one [next] function each. *)
From S2P Require Import Prelude RiscvPages MemMap PageInfoModel PageMapModel HypAlloc Tracker Pte.
Import PageSize(Size4k).

Abbreviation mem := (gmap Z Z).
Definition read_pte (m : mem) (a : Z) : Pte.t := default 0 (m !! a).

Module PtError.
Inductive t :=
| InsufficientPages (p : SequentialPages.t)
| InsufficientPtePages
| LeafEntryNotTable
| TableEntryNotLeaf
| MisalignedPages (p : SequentialPages.t)
| UnsupportedPageSizePages (p : SequentialPages.t) (s : PageSize.t)
| PageSizeNotSupported (s : PageSize.t)
| PageSizeMismatch (a b : PageSize.t)
| MappingExists
| PageNotMapped
| PageNotUnmappable
| PageNotConverted
| PteLocked
| PteNotLocked
| RootPageNotOwned (p : SequentialPages.t)
| OutOfMapRange
| PageNotShareable
| AddressMisaligned (a : Z)
| PredicateFailed
| AddressOverflow.
End PtError.
Import PtError.

(** ** References to entries, by type of entry *)
Module TableEntryMut.
Record t {L : Type} := mk { pte : Z; level : L }.
Arguments t : clear implicits.
Arguments mk {L} _ _.
End TableEntryMut.
Abbreviation entry := TableEntryMut.t.

Module TableEntryType.
Inductive t {L : Type} :=
| Unused (e : entry L)
| Invalidated (e : entry L)
| LockedUnmapped (e : entry L)
| Leaf (e : entry L)
| LockedMapped (e : entry L)
| Table (e : entry L).
Arguments t : clear implicits.
Definition from_pte {L} (m : mem) (pte : Z) (level : L) : t L :=
  let v := read_pte m pte in
  let e := TableEntryMut.mk pte level in
  if negb (Pte.valid v) then
    if Pte.locked v then LockedUnmapped e
    else if negb (Pte.pfn v =? 0) then Invalidated e
    else Unused e
  else if negb (Pte.leaf v) then Table e
  else if Pte.locked v then LockedMapped e
  else Leaf e.
End TableEntryType.
Import TableEntryType(Unused, Invalidated, LockedUnmapped, Leaf, LockedMapped, Table).

(** Updates of the entry behind a reference. *)
Definition modify_pte {L} (e : entry L) (f : Pte.t → Pte.t) (m : mem) : mem :=
  <[TableEntryMut.pte e := f (read_pte m (TableEntryMut.pte e))]> m.

Module UnusedPte.
Definition map_table {L} (e : entry L) (table_paddr : Z) (m : mem) : mem :=
  modify_pte e (λ _, Pte.set (PageAddr.pfn table_paddr) PteFieldBits.non_leaf) m.
Definition lock {L} (e : entry L) (m : mem) : mem := modify_pte e Pte.lock m.
End UnusedPte.

Module InvalidatedPte.
Definition page_addr `{PagingMode L} (m : mem) (e : entry L) : outcome Z :=
  unwrap_option (PageAddr.from_pfn (Pte.pfn (read_pte m (TableEntryMut.pte e)))
    (leaf_page_size (TableEntryMut.level e))).
Definition lock {L} (e : entry L) (m : mem) : mem := modify_pte e Pte.lock m.
Definition clear {L} (e : entry L) (m : mem) : mem := modify_pte e Pte.clear m.
End InvalidatedPte.

Module LockedUnmappedPte.
Definition map_leaf `{PagingMode L} (e : entry L) (paddr : Z) (perms : PteFieldBits.t)
    : M mem PtError.t unit :=
  if negb (PageAddr.is_aligned paddr (leaf_page_size (TableEntryMut.level e)))
  then err (AddressMisaligned paddr)
  else modify (modify_pte e (λ _, Pte.set (PageAddr.pfn paddr) perms)).
Definition unlock {L} (e : entry L) (m : mem) : TableEntryType.t L * mem :=
  let m := modify_pte e Pte.unlock m in
  (if Pte.pfn (read_pte m (TableEntryMut.pte e)) =? 0 then Unused e else Invalidated e, m).
End LockedUnmappedPte.

Module LockedMappedPte.
Definition update_page_addr `{PagingMode L} (e : entry L) (paddr : Z) : M mem PtError.t Z :=
  if negb (PageAddr.is_aligned paddr (leaf_page_size (TableEntryMut.level e)))
  then err (AddressMisaligned paddr)
  else
    m ← get;
    let '(prev_pfn, v) := Pte.update_pfn (PageAddr.pfn paddr) (read_pte m (TableEntryMut.pte e)) in
    put (<[TableEntryMut.pte e := v]> m);;
    of_outcome (unwrap_option (PageAddr.from_pfn prev_pfn (leaf_page_size (TableEntryMut.level e)))).
Definition unlock {L} (e : entry L) (m : mem) : TableEntryType.t L * mem :=
  (Leaf e, modify_pte e Pte.unlock m).
End LockedMappedPte.

Module LeafPte.
Definition page_addr `{PagingMode L} (m : mem) (e : entry L) : outcome Z :=
  unwrap_option (PageAddr.from_pfn (Pte.pfn (read_pte m (TableEntryMut.pte e)))
    (leaf_page_size (TableEntryMut.level e))).
Definition invalidate {L} (e : entry L) (m : mem) : mem := modify_pte e Pte.invalidate m.
Definition lock {L} (e : entry L) (m : mem) : mem := modify_pte e Pte.lock m.
End LeafPte.

(** ** One table *)
Module PageTableIndex.
Definition from_addr `{PagingMode L} (addr : Z) (level : L) : Z :=
  let addr_bit_mask := Z.shiftl 1 (addr_width level) - 1 in
  Z.land (Z.shiftr addr (addr_shift level)) addr_bit_mask.
(** [PageTableIndexIter] drained. *)
Definition iter `{PagingMode L} (level : L) : list Z := seqZ 0 (Z.shiftl 1 (addr_width level)).
End PageTableIndex.

Module PageTable.
Record t {L : Type} := mk { table_addr : Z; level : L }.
Arguments t : clear implicits.
Arguments mk {L} _ _.

Definition from_root `{PagingMode L} (root : SequentialPages.t) : t L :=
  mk (SequentialPages.addr root) root_level.
Definition from_pte `{PagingMode L} (m : mem) (pte : Z) (level : L) : outcome (t L) :=
  if negb (Pte.valid (read_pte m pte)) then Panics
  else if negb (table_pages level =? 1) then Panics
  else
    a ← unwrap_option (PageAddr.from_pfn (Pte.pfn (read_pte m pte)) Size4k);
    Returns (mk a level).
(** The address of the entry; [as_mut().unwrap()] refuses a null pointer. *)
Definition entry_mut `{PagingMode L} (t : t L) (index : Z) : outcome Z :=
  let pte_addr := wrap64 (table_addr t + index * 8) in
  if pte_addr =? 0 then Panics else Returns pte_addr.
Definition entry_for_index_mut `{PagingMode L} (m : mem) (t : t L) (index : Z)
    : outcome (TableEntryType.t L) :=
  pte ← entry_mut t index;
  Returns (TableEntryType.from_pte m pte (level t)).
Definition entry_for_addr_mut `{PagingMode L} (m : mem) (t : t L) (addr : Z)
    : outcome (TableEntryType.t L) :=
  entry_for_index_mut m t (PageTableIndex.from_addr addr (level t)).
End PageTable.

Module PageTablePte.
Definition table_addr {L} (m : mem) (e : entry L) : outcome Z :=
  unwrap_option (PageAddr.from_pfn (Pte.pfn (read_pte m (TableEntryMut.pte e))) Size4k).
Definition table `{PagingMode L} (m : mem) (e : entry L) : outcome (PageTable.t L) :=
  level ← unwrap_option (next_level (TableEntryMut.level e));
  PageTable.from_pte m (TableEntryMut.pte e) level.
End PageTablePte.

(** ** Filling and releasing tables *)
Module PageTableWalk.
(** The next table; the state is the memory and the pages [get_pte_page] has left. *)
Definition next_level_or_fill_fn `{PagingMode L} (t : PageTable.t L) (addr : Z)
    : M (mem * list Page.t) PtError.t (PageTable.t L) := λ '(m, pages),
  match PageTable.entry_for_addr_mut m t addr with
  | Panics => Panics
  | Returns (Table e) =>
      match PageTablePte.table m e with Returns t' => Returns (Ok t', (m, pages)) | Panics => Panics end
  | Returns (Unused e) =>
      match pages with
      | [] => Returns (Err InsufficientPtePages, (m, pages))
      | pt_page :: pages' =>
          let m' := UnusedPte.map_table e (Page.addr pt_page) m in
          match PageTablePte.table m' e with
          | Returns t' => Returns (Ok t', (m', pages'))
          | Panics => Panics
          end
      end
  | Returns _ => Returns (Err MappingExists, (m, pages))
  end.

(** Recursion over the hierarchy; [fuel] bounds the number of levels below [t]. *)
Fixpoint release_pages `{PagingMode L} (fuel : nat) (m : mem) (owner : PageOwnerId.t)
    (t : PageTable.t L) : M PageTracker.t PtError.t unit :=
  for_each (PageTableIndex.iter (PageTable.level t)) (λ index,
    entry ← of_outcome (PageTable.entry_for_index_mut m t index);
    match entry with
    | Table e =>
        match fuel with
        | O => panic
        | S k =>
            table_addr ← of_outcome (PageTablePte.table_addr m e);
            t' ← of_outcome (PageTablePte.table m e);
            release_pages k m owner t';;
            table_page ← of_outcome (Page.new table_addr);
            unwrap (PageTracker.release_page table_page)
        end
    | Leaf e =>
        a ← of_outcome (LeafPte.page_addr m e);
        unwrap (PageTracker.release_page_by_addr a owner)
    | Invalidated e =>
        a ← of_outcome (InvalidatedPte.page_addr m e);
        unwrap (PageTracker.release_page_by_addr a owner)
    | _ => mret tt
    end).
End PageTableWalk.

(** Both paging modes have four levels. *)
Definition MAX_LEVELS : nat := 4.

(** ** The paging hierarchy *)
Module PageTableInner.
(** [L] stands for the paging mode. *)
Record t {L : Type} := mk { root : SequentialPages.t }.
Arguments t : clear implicits.
Arguments mk {L} _.

Definition new `{PagingMode L} (root : SequentialPages.t) : result PtError.t (t L) :=
  let page_size := SequentialPages.page_size root in
  if PageSize.is_huge page_size then Err (UnsupportedPageSizePages root page_size)
  else if negb (Z.land (SequentialPages.addr root) (TOP_LEVEL_ALIGN (L := L) - 1) =? 0)
  then Err (MisalignedPages root)
  else if SequentialPages.len root <? table_pages (root_level (L := L))
  then Err (InsufficientPages root)
  else Ok (mk root).

Fixpoint walk_from `{PagingMode L} (fuel : nat) (m : mem) (t : PageTable.t L) (vaddr : Z)
    : outcome (TableEntryType.t L) :=
  entry ← PageTable.entry_for_addr_mut m t vaddr;
  match entry with
  | Table e =>
      match fuel with
      | O => Panics
      | S k => t' ← PageTablePte.table m e; walk_from k m t' vaddr
      end
  | _ => Returns entry
  end.
Definition walk `{PagingMode L} (self : t L) (m : mem) (vaddr : Z) : outcome (TableEntryType.t L) :=
  walk_from MAX_LEVELS m (PageTable.from_root (root self)) vaddr.

Definition map_leaf `{PagingMode L} (self : t L) (vaddr paddr : Z) (page_size : PageSize.t)
    (perms : PteFieldBits.t) : M mem PtError.t unit :=
  m ← get;
  entry ← of_outcome (walk self m vaddr);
  match entry with
  | LockedUnmapped l =>
      let size := leaf_page_size (TableEntryMut.level l) in
      if negb (bool_decide (size = page_size)) then err (PageSizeMismatch page_size size)
      else LockedUnmappedPte.map_leaf l paddr perms
  | Unused _ | Invalidated _ => err PteNotLocked
  | LockedMapped _ | Leaf _ => err MappingExists
  | Table _ => panic
  end.

Definition remap_leaf `{PagingMode L} (self : t L) (vaddr paddr : Z) (page_size : PageSize.t)
    : M mem PtError.t Z :=
  m ← get;
  entry ← of_outcome (walk self m vaddr);
  match entry with
  | LockedUnmapped _ | Unused _ | Invalidated _ => err PageNotMapped
  | LockedMapped l =>
      let size := leaf_page_size (TableEntryMut.level l) in
      if negb (bool_decide (size = page_size)) then err (PageSizeMismatch page_size size)
      else LockedMappedPte.update_page_addr l paddr
  | Leaf _ => err PteNotLocked
  | Table _ => panic
  end.

(** The [while] loop of [lock_leaf_for_mapping]. *)
Fixpoint descend `{PagingMode L} (fuel : nat) (t : PageTable.t L) (vaddr : Z) (page_size : PageSize.t)
    : M (mem * list Page.t) PtError.t (PageTable.t L) :=
  if bool_decide (leaf_page_size (PageTable.level t) = page_size) then mret t
  else
    match fuel with
    | O => panic
    | S k => t' ← PageTableWalk.next_level_or_fill_fn t vaddr; descend k t' vaddr page_size
    end.
Definition lock_leaf_for_mapping `{PagingMode L} (self : t L) (vaddr : Z) (page_size : PageSize.t)
    : M (mem * list Page.t) PtError.t unit :=
  table ← descend MAX_LEVELS (PageTable.from_root (root self)) vaddr page_size;
  s ← get;
  entry ← of_outcome (PageTable.entry_for_addr_mut (s.1) table vaddr);
  match entry with
  | Invalidated i => put (InvalidatedPte.lock i (s.1), s.2)
  | Unused u => put (UnusedPte.lock u (s.1), s.2)
  | LockedMapped _ | LockedUnmapped _ => err PteLocked
  | Leaf _ => err MappingExists
  | Table _ => err TableEntryNotLeaf
  end.

Definition lock_leaf_for_remapping `{PagingMode L} (self : t L) (vaddr : Z) : M mem PtError.t unit :=
  m ← get;
  entry ← of_outcome (walk self m vaddr);
  match entry with
  | Invalidated _ | Unused _ => err PageNotMapped
  | LockedMapped _ | LockedUnmapped _ => err PteLocked
  | Leaf l => put (LeafPte.lock l m)
  | Table _ => err TableEntryNotLeaf
  end.

Definition unlock_leaf `{PagingMode L} (self : t L) (vaddr : Z) : M mem PtError.t unit :=
  m ← get;
  entry ← of_outcome (walk self m vaddr);
  match entry with
  | LockedUnmapped l => put (LockedUnmappedPte.unlock l m).2
  | LockedMapped l => put (LockedMappedPte.unlock l m).2
  | _ => err PteNotLocked
  end.

Definition get_mapped_4k_leaf `{PagingMode L} (self : t L) (vaddr : Z) : M mem PtError.t (entry L) :=
  m ← get;
  entry ← of_outcome (walk self m vaddr);
  match entry with
  | Leaf l =>
      if negb (is_leaf (TableEntryMut.level l))
      then err (PageSizeNotSupported (leaf_page_size (TableEntryMut.level l)))
      else mret l
  | _ => err PageNotMapped
  end.

Definition get_invalidated_4k_leaf `{PagingMode L} (self : t L) (vaddr : Z)
    : M mem PtError.t (entry L) :=
  m ← get;
  entry ← of_outcome (walk self m vaddr);
  match entry with
  | Invalidated i =>
      if negb (is_leaf (TableEntryMut.level i))
      then err (PageSizeNotSupported (leaf_page_size (TableEntryMut.level i)))
      else mret i
  | _ => err PageNotConverted
  end.
End PageTableInner.

(** ** First-stage tables *)
Module FirstStageMapper.
Record t := mk { vaddr : Z; page_size : PageSize.t; num_pages : Z }.
Definition map_addr `{PagingMode L} (inner : PageTableInner.t L) (self : t) (va paddr : Z)
    (pte_perms : PteFieldBits.t) : M mem PtError.t unit :=
  if negb (PageAddr.is_aligned paddr (page_size self)) then err (AddressMisaligned paddr)
  else if (va <? vaddr self)
       || (wrap64 (vaddr self + wrap64 (num_pages self * PageSize.bytes (page_size self))) <=? va)
  then err OutOfMapRange
  else PageTableInner.map_leaf inner va paddr (page_size self) pte_perms.
End FirstStageMapper.

Module FirstStagePageTable.
Definition new `{PagingMode L} (root : Page.t) : result PtError.t (PageTableInner.t L) :=
  PageTableInner.new (SequentialPages.from_page root).
Definition get_root_address {L} (inner : PageTableInner.t L) : Z :=
  SequentialPages.addr (PageTableInner.root inner).
(** PTEs locked before an error stay locked. *)
Definition map_range `{PagingMode L} (inner : PageTableInner.t L) (addr : Z) (page_size : PageSize.t)
    (num_pages : Z) : M (mem * list Page.t) PtError.t FirstStageMapper.t :=
  if negb (PageAddr.is_aligned addr page_size) then err (AddressMisaligned addr)
  else
    it ← lift (ok_or (PageAddrIter.new addr page_size) (AddressMisaligned addr));
    lift (ok_or (PageAddr.checked_add_pages_with_size addr num_pages page_size) OutOfMapRange);;
    for_each (PageAddrIter.take it (Z.to_nat num_pages))
      (λ a, PageTableInner.lock_leaf_for_mapping inner a page_size);;
    mret (FirstStageMapper.mk addr page_size num_pages).
(** The check of [unmap_range]; the result is the iterator. *)
Definition unmap_range `{PagingMode L} (inner : PageTableInner.t L) (base : Z) (page_size : PageSize.t)
    (num_pages : Z) : M mem PtError.t (list Z) :=
  if PageSize.is_huge page_size then err (PageSizeNotSupported page_size)
  else
    lift (ok_or (PageAddr.checked_add_pages base num_pages) AddressOverflow);;
    vas ← of_outcome (iter_from_take base num_pages);
    for_each vas (λ va,
      m ← get;
      entry ← of_outcome (PageTableInner.walk inner m va);
      match entry with
      | Leaf pte =>
          if negb (is_leaf (TableEntryMut.level pte))
          then err (PageSizeNotSupported (leaf_page_size (TableEntryMut.level pte)))
          else mret tt
      | _ => err PageNotMapped
      end);;
    mret vas.
(** One step of that iterator. *)
Definition unmap_next `{PagingMode L} (inner : PageTableInner.t L) (vas : list Z)
    : M mem PtError.t (option Z * list Z) :=
  match vas with
  | [] => mret (None, [])
  | va :: rest =>
      pte ← unwrap (PageTableInner.get_mapped_4k_leaf inner va);
      m ← get;
      paddr ← of_outcome (LeafPte.page_addr m pte);
      modify (modify_pte pte Pte.clear);;
      mret (Some paddr, rest)
  end.
End FirstStagePageTable.

(** ** Guest-stage tables *)

(** Runs an operation on the memory next to the pages of [get_pte_page]. *)
Definition on_mem {E A T} (f : M mem E A) : M (mem * T) E A := λ '(m, x),
  match f m with
  | Returns (r, m') => Returns (r, (m', x))
  | Panics => Panics
  end.

Module GuestStageMapper.
Record t := mk { vaddr : Z; num_pages : Z }.

(** The range check shared by [map_page] and [remap_page]. *)
Definition check_page (self : t) (va : Z) (page : Page.t) : M mem PtError.t unit :=
  if PageSize.is_huge (Page.size page) then err (PageSizeNotSupported (Page.size page))
  else
    end_vaddr ← of_outcome (unwrap_option (PageAddr.checked_add_pages (vaddr self) (num_pages self)));
    if (va <? vaddr self) || (end_vaddr <=? va) then err OutOfMapRange else mret tt.
Definition map_page `{PagingMode L} (inner : PageTableInner.t L) (self : t) (va : Z) (page : Page.t)
    : M mem PtError.t unit :=
  check_page self va page;;
  let pte_fields := PteFieldBits.user_leaf_with_perms PteLeafPerms.RWX in
  PageTableInner.map_leaf inner va (Page.addr page) (Page.size page) pte_fields.
Definition remap_page `{PagingMode L} (inner : PageTableInner.t L) (self : t) (va : Z) (page : Page.t)
    : M mem PtError.t Z :=
  check_page self va page;;
  PageTableInner.remap_leaf inner va (Page.addr page) (Page.size page).

(** [Drop]: unlocks what is still locked; the results are ignored. *)
Fixpoint unlock_all `{PagingMode L} (inner : PageTableInner.t L) (vas : list Z) : M mem PtError.t unit :=
  match vas with
  | [] => mret tt
  | va :: rest => λ m,
      match PageTableInner.unlock_leaf inner va m with
      | Returns (_, m') => unlock_all inner rest m'
      | Panics => Panics
      end
  end.
Definition drop_ `{PagingMode L} (inner : PageTableInner.t L) (self : t) : M mem PtError.t unit :=
  vas ← of_outcome (iter_from_take (vaddr self) (num_pages self));
  unlock_all inner vas.
End GuestStageMapper.

Module GuestStagePageTable.
(** The page tracker is shared and not part of the record. *)
Record t {L : Type} := mk { inner : PageTableInner.t L; owner : PageOwnerId.t }.
Arguments t : clear implicits.
Arguments mk {L} _ _.

Definition new `{PagingMode L} (root : SequentialPages.t) (owner : PageOwnerId.t) (pt : PageTracker.t)
    : outcome (result PtError.t (t L)) :=
  addrs ← SequentialPages.page_addrs root;
  if negb (forallb (λ a, PageTracker.is_owned a owner pt) addrs) then Returns (Err (RootPageNotOwned root))
  else
    Returns (match PageTableInner.new root with
             | Ok inner => Ok (mk inner owner)
             | Err e => Err e
             end).
Definition page_owner_id {L} (self : t L) : PageOwnerId.t := owner self.
Definition get_root_address {L} (self : t L) : Z := SequentialPages.addr (PageTableInner.root (inner self)).
Definition do_fault {L} (self : t L) (addr : Z) : bool := false.

(** The loop of [map_range]; the mapper is dropped when it fails. *)
Fixpoint map_loop `{PagingMode L} (self : t L) (page_size : PageSize.t) (vas : list Z)
    (mapper : GuestStageMapper.t) : M (mem * list Page.t) PtError.t GuestStageMapper.t :=
  match vas with
  | [] => mret mapper
  | va :: rest => λ s,
      match PageTableInner.lock_leaf_for_mapping (inner self) va page_size s with
      | Returns (Ok _, s') =>
          map_loop self page_size rest
            (GuestStageMapper.mk (GuestStageMapper.vaddr mapper)
               (wrap64 (GuestStageMapper.num_pages mapper + 1))) s'
      | Returns (Err e, s') =>
          match on_mem (GuestStageMapper.drop_ (inner self) mapper) s' with
          | Returns (_, s'') => Returns (Err e, s'')
          | Panics => Panics
          end
      | Panics => Panics
      end
  end.
Definition map_range `{PagingMode L} (self : t L) (addr : Z) (page_size : PageSize.t) (num_pages : Z)
    : M (mem * list Page.t) PtError.t GuestStageMapper.t :=
  if PageSize.is_huge page_size then err (PageSizeNotSupported page_size)
  else
    vas ← of_outcome (iter_from_take addr num_pages);
    map_loop self page_size vas (GuestStageMapper.mk addr 0).

Fixpoint remap_loop `{PagingMode L} (self : t L) (vas : list Z)
    (mapper : GuestStageMapper.t) : M mem PtError.t GuestStageMapper.t :=
  match vas with
  | [] => mret mapper
  | va :: rest => λ s,
      match PageTableInner.lock_leaf_for_remapping (inner self) va s with
      | Returns (Ok _, s') =>
          remap_loop self rest
            (GuestStageMapper.mk (GuestStageMapper.vaddr mapper)
               (wrap64 (GuestStageMapper.num_pages mapper + 1))) s'
      | Returns (Err e, s') =>
          match GuestStageMapper.drop_ (inner self) mapper s' with
          | Returns (_, s'') => Returns (Err e, s'')
          | Panics => Panics
          end
      | Panics => Panics
      end
  end.
Definition remap_range `{PagingMode L} (self : t L) (addr : Z) (page_size : PageSize.t) (num_pages : Z)
    : M mem PtError.t GuestStageMapper.t :=
  if PageSize.is_huge page_size then err (PageSizeNotSupported page_size)
  else
    vas ← of_outcome (iter_from_take addr num_pages);
    remap_loop self vas (GuestStageMapper.mk addr 0).

(** The addresses of a range operation, after the overflow check. *)
Definition range_addrs (vaddr len : Z) : M mem PtError.t (list Z) :=
  let num_pages := PageSize.num_4k_pages len in
  lift (ok_or (PageAddr.checked_add_pages vaddr num_pages) AddressOverflow);;
  of_outcome (iter_from_take vaddr num_pages).

Definition check_invalidate `{PagingMode L} (self : t L) (sparse : bool) (pred : Z → bool) (va : Z)
    : M mem PtError.t unit :=
  m ← get;
  entry ← of_outcome (PageTableInner.walk (inner self) m va);
  match entry with
  | Leaf pte =>
      if negb (is_leaf (TableEntryMut.level pte))
      then err (PageSizeNotSupported (leaf_page_size (TableEntryMut.level pte)))
      else
        a ← of_outcome (LeafPte.page_addr m pte);
        if negb (pred a) then err PredicateFailed else mret tt
  | Unused _ => if sparse then mret tt else err PageNotMapped
  | _ => err PageNotMapped
  end.
Definition do_invalidate_range `{PagingMode L} (self : t L) (vaddr len : Z) (sparse : bool)
    (pred : Z → bool) : M mem PtError.t (list Z) :=
  vas ← range_addrs vaddr len;
  for_each vas (check_invalidate self sparse pred);;
  mret vas.
Definition invalidate_range `{PagingMode L} (self : t L) (vaddr len : Z) (pred : Z → bool)
    : M mem PtError.t (list Z) := do_invalidate_range self vaddr len false pred.
Definition invalidate_range_sparse `{PagingMode L} (self : t L) (vaddr len : Z) (pred : Z → bool)
    : M mem PtError.t (list Z) := do_invalidate_range self vaddr len true pred.
(** One step of the returned iterator: skips what is not mapped. *)
Fixpoint invalidate_next `{PagingMode L} (self : t L) (vas : list Z)
    : M mem PtError.t (option Z * list Z) :=
  match vas with
  | [] => mret (None, [])
  | va :: rest => λ m,
      match PageTableInner.get_mapped_4k_leaf (inner self) va m with
      | Returns (Ok pte, m) =>
          let m := LeafPte.invalidate pte m in
          match InvalidatedPte.page_addr m pte with
          | Returns a => Returns (Ok (Some a, rest), m)
          | Panics => Panics
          end
      | Returns (Err _, m) => invalidate_next self rest m
      | Panics => Panics
      end
  end.

Definition check_unmap `{PagingMode L} (self : t L) (pred : Z → bool) (va : Z) : M mem PtError.t unit :=
  m ← get;
  entry ← of_outcome (PageTableInner.walk (inner self) m va);
  match entry with
  | Invalidated pte =>
      if negb (is_leaf (TableEntryMut.level pte))
      then err (PageSizeNotSupported (leaf_page_size (TableEntryMut.level pte)))
      else
        a ← of_outcome (InvalidatedPte.page_addr m pte);
        if negb (pred a) then err PredicateFailed else mret tt
  | Unused _ => mret tt
  | _ => err PageNotUnmappable
  end.
Definition unmap_range `{PagingMode L} (self : t L) (vaddr len : Z) (pred : Z → bool)
    : M mem PtError.t (list Z) :=
  vas ← range_addrs vaddr len;
  for_each vas (check_unmap self pred);;
  mret vas.
Fixpoint unmap_next `{PagingMode L} (self : t L) (vas : list Z) : M mem PtError.t (option Z * list Z) :=
  match vas with
  | [] => mret (None, [])
  | va :: rest => λ m,
      match PageTableInner.get_invalidated_4k_leaf (inner self) va m with
      | Returns (Ok pte, m) =>
          match InvalidatedPte.page_addr m pte with
          | Returns a => Returns (Ok (Some a, rest), InvalidatedPte.clear pte m)
          | Panics => Panics
          end
      | Returns (Err _, m) => unmap_next self rest m
      | Panics => Panics
      end
  end.

Definition get_mapped_page `{PagingMode L} (self : t L) (va : Z) : M mem PtError.t Z :=
  e ← PageTableInner.get_mapped_4k_leaf (inner self) va;
  m ← get;
  of_outcome (LeafPte.page_addr m e).
Definition get_mapped_pages `{PagingMode L} (self : t L) (vaddr len : Z) (pred : Z → bool)
    : M mem PtError.t (list Z) :=
  vas ← range_addrs vaddr len;
  for_each vas (λ va,
    paddr ← get_mapped_page self va;
    if negb (pred paddr) then err PredicateFailed else mret tt);;
  mret vas.
Definition get_mapped_next `{PagingMode L} (self : t L) (vas : list Z)
    : M mem PtError.t (option Z * list Z) :=
  match vas with
  | [] => mret (None, [])
  | va :: rest => a ← unwrap (get_mapped_page self va); mret (Some a, rest)
  end.

Definition get_invalidated_page `{PagingMode L} (self : t L) (va : Z) : M mem PtError.t Z :=
  e ← PageTableInner.get_invalidated_4k_leaf (inner self) va;
  m ← get;
  of_outcome (InvalidatedPte.page_addr m e).
Definition get_invalidated_pages `{PagingMode L} (self : t L) (vaddr len : Z) (pred : Z → bool)
    : M mem PtError.t (list Z) :=
  vas ← range_addrs vaddr len;
  for_each vas (λ va,
    paddr ← get_invalidated_page self va;
    if negb (pred paddr) then err PredicateFailed else mret tt);;
  mret vas.
Definition get_invalidated_next `{PagingMode L} (self : t L) (vas : list Z)
    : M mem PtError.t (option Z * list Z) :=
  match vas with
  | [] => mret (None, [])
  | va :: rest => a ← unwrap (get_invalidated_page self va); mret (Some a, rest)
  end.

(** [all] stops at the first entry that is in use. *)
Fixpoint all_unused `{PagingMode L} (self : t L) (m : mem) (vas : list Z) : outcome bool :=
  match vas with
  | [] => Returns true
  | va :: rest =>
      entry ← PageTableInner.walk (inner self) m va;
      match entry with Unused _ => all_unused self m rest | _ => Returns false end
  end.
Definition range_is_empty `{PagingMode L} (self : t L) (m : mem) (vaddr len : Z) : outcome bool :=
  vas ← iter_from_take vaddr (PageSize.num_4k_pages len);
  all_unused self m vas.

(** [Drop]: releases everything the table references, then its root pages. *)
Definition drop_ `{PagingMode L} (self : t L) (m : mem) : M PageTracker.t PtError.t unit :=
  let root := PageTableInner.root (inner self) in
  PageTableWalk.release_pages MAX_LEVELS m (owner self) (PageTable.from_root (L := L) root);;
  root_pages ← of_outcome (unwrap_option
    (SequentialPages.from_mem_range (SequentialPages.addr root) Size4k (SequentialPages.len root)));
  ps ← of_outcome (SequentialPages.into_iter root_pages);
  for_each ps (λ p, unwrap (PageTracker.release_page p)).
End GuestStagePageTable.
