(* ===== verification/PageTableFacts.v ===== *)
(** * Theorems about page tables

    [lookup] is the translation a page table stands for: what an address maps
    to, or in which intermediate state its entry is.  [pt_wf] says that the
    memory holds a tree of tables.  The operations are described by their effect
    on [lookup]. *)
From S2P Require Import Prelude RiscvPages MemMap PageInfoModel PageMapModel HypAlloc Tracker Pte PteFacts PageTableModel.
Import PageSize(Size4k).
Import PtError.
Import TableEntryType(Unused, Invalidated, LockedUnmapped, Leaf, LockedMapped, Table).

(** ** Kinds of entries *)
Inductive kind := KUnused | KInvalidated | KLockedUnmapped | KLeaf | KLockedMapped | KTable.
#[export] Instance kind_eq_dec : EqDecision kind.
Proof. solve_decision. Defined.

Definition kind_of (v : pte_view) : kind :=
  if negb (pv_valid v) then
    if pv_locked v then KLockedUnmapped
    else if negb (pv_pfn v =? 0) then KInvalidated else KUnused
  else if negb (pv_leaf v) then KTable
  else if pv_locked v then KLockedMapped else KLeaf.
Definition pkind (v : Pte.t) : kind := kind_of (view v).

Definition typed {L} (k : kind) (e : entry L) : TableEntryType.t L :=
  match k with
  | KUnused => Unused e
  | KInvalidated => Invalidated e
  | KLockedUnmapped => LockedUnmapped e
  | KLeaf => Leaf e
  | KLockedMapped => LockedMapped e
  | KTable => Table e
  end.
Definition entry_of {L} (t : TableEntryType.t L) : entry L :=
  match t with
  | Unused e | Invalidated e | LockedUnmapped e | Leaf e | LockedMapped e | Table e => e
  end.

Lemma from_pte_typed {L} m a (l : L) :
  TableEntryType.from_pte m a l = typed (pkind (read_pte m a)) (TableEntryMut.mk a l).
Proof.
  unfold TableEntryType.from_pte, pkind, kind_of, view. cbn.
  destruct (Pte.valid _); cbn; [|destruct (Pte.locked _); cbn; [done|by destruct (_ =? 0)]].
  destruct (Pte.leaf _); cbn; [|done]. by destruct (Pte.locked _).
Qed.
Lemma entry_of_typed {L} k (e : entry L) : entry_of (typed k e) = e.
Proof. by destruct k. Qed.

Lemma read_pte_insert_eq m a v : read_pte (<[a:=v]> m) a = v.
Proof. unfold read_pte. by rewrite lookup_insert_eq. Qed.
Lemma read_pte_insert_ne m a b v : a ≠ b → read_pte (<[a:=v]> m) b = read_pte m b.
Proof. intros. unfold read_pte. by rewrite lookup_insert_ne. Qed.

(** How the operations move an entry from kind to kind; the frame number is kept. *)
Lemma pkind_lock v :
  u64 v → u64 (Pte.lock v) ∧ Pte.pfn (Pte.lock v) = Pte.pfn v ∧
  (pkind v = KUnused ∨ pkind v = KInvalidated → pkind (Pte.lock v) = KLockedUnmapped) ∧
  (pkind v = KLeaf → pkind (Pte.lock v) = KLockedMapped).
Proof.
  intros Hv. destruct (lock_view v Hv) as [Hl Hu]. split; [done|].
  split; [by injection Hl|]. unfold pkind. rewrite Hl. unfold kind_of, view. cbn.
  destruct (Pte.valid v), (Pte.locked v), (Pte.leaf v), (Pte.pfn v =? 0); naive_solver.
Qed.

Lemma pkind_unlock v :
  u64 v → u64 (Pte.unlock v) ∧ Pte.pfn (Pte.unlock v) = Pte.pfn v ∧
  (pkind v = KLockedUnmapped →
     pkind (Pte.unlock v) = if Pte.pfn v =? 0 then KUnused else KInvalidated) ∧
  (pkind v = KLockedMapped → pkind (Pte.unlock v) = KLeaf).
Proof.
  intros Hv. destruct (unlock_view v Hv) as [Hl Hu]. split; [done|].
  split; [by injection Hl|]. unfold pkind. rewrite Hl. unfold kind_of, view. cbn.
  destruct (Pte.valid v), (Pte.locked v), (Pte.leaf v), (Pte.pfn v =? 0); naive_solver.
Qed.

Lemma pkind_invalidate v :
  u64 v → u64 (Pte.invalidate v) ∧ Pte.pfn (Pte.invalidate v) = Pte.pfn v ∧
  (pkind v = KLeaf → pkind (Pte.invalidate v) = if Pte.pfn v =? 0 then KUnused else KInvalidated).
Proof.
  intros Hv. destruct (invalidate_view v Hv) as [Hl Hu]. split; [done|].
  split; [by injection Hl|]. unfold pkind. rewrite Hl. unfold kind_of, view. cbn.
  destruct (Pte.valid v), (Pte.locked v), (Pte.leaf v), (Pte.pfn v =? 0); naive_solver.
Qed.

Lemma pkind_clear : pkind 0 = KUnused ∧ Pte.pfn 0 = 0.
Proof. done. Qed.

Lemma pkind_set p s :
  0 ≤ p < 2 ^ 44 → 0 ≤ s < 2 ^ 10 →
  u64 (Pte.set p s) ∧ Pte.pfn (Pte.set p s) = p ∧
  pkind (Pte.set p s) = (if Pte.leaf s then if Pte.locked s then KLockedMapped else KLeaf else KTable).
Proof.
  intros Hp Hs. destruct (set_view p s Hp Hs) as [Hl Hu]. split; [done|].
  split; [by injection Hl|]. unfold pkind. rewrite Hl. unfold kind_of. cbn. by destruct (Pte.leaf s).
Qed.

Lemma pkind_update_pfn p v :
  u64 v → 0 ≤ p < 2 ^ 44 → pkind v = KLockedMapped →
  (Pte.update_pfn p v).1 = Pte.pfn v ∧ u64 (Pte.update_pfn p v).2 ∧
  Pte.pfn (Pte.update_pfn p v).2 = p ∧ pkind (Pte.update_pfn p v).2 = KLockedMapped.
Proof.
  intros Hv Hp Hk. destruct (update_pfn_view v Hv p Hp) as (H1 & Hl & Hu). split; [done|]. split; [done|].
  split; [by injection Hl|]. unfold pkind in *. rewrite Hl. revert Hk.
  unfold kind_of, view. cbn. destruct (Pte.valid v), (Pte.locked v), (Pte.leaf v); try done; by destruct (_ =? 0).
Qed.

Section walk.
Context {L : Type} {PM : PagingMode L} {PL : PagingLaws L}.

(** ** Walks and updates of leaf entries *)
Lemma entry_for_index_eq m (t : PageTable.t L) i :
  PageTable.entry_for_index_mut m t i =
  (let a := wrap64 (PageTable.table_addr t + i * 8) in
   if a =? 0 then Panics else Returns (typed (pkind (read_pte m a)) (TableEntryMut.mk a (PageTable.level t)))).
Proof.
  unfold PageTable.entry_for_index_mut, PageTable.entry_mut. cbn zeta.
  destruct (_ =? 0); [done|]. cbn. by rewrite from_pte_typed.
Qed.

Definition retype (m : mem) (t : TableEntryType.t L) : TableEntryType.t L :=
  typed (pkind (read_pte m (TableEntryMut.pte (entry_of t)))) (entry_of t).

Lemma walk_from_shape fuel m (t : PageTable.t L) va e :
  PageTableInner.walk_from fuel m t va = Returns e →
  e = retype m e ∧ pkind (read_pte m (TableEntryMut.pte (entry_of e))) ≠ KTable.
Proof.
  revert t. induction fuel as [|k IH]; intros t; cbn [PageTableInner.walk_from];
    unfold PageTable.entry_for_addr_mut; rewrite entry_for_index_eq; cbn zeta;
    (destruct (_ =? 0); [done|]); cbn [mbind outcome_bind];
    set (a := wrap64 _); destruct (pkind (read_pte m a)) eqn:Hk; cbn [typed]; intros H; simplify_eq;
    try (cbn; rewrite Hk; done); try (unfold retype; cbn; rewrite Hk; done).
  destruct (PageTablePte.table m _) as [t'|]; [|done]. by eapply IH.
Qed.

Lemma walk_from_update fuel m (t : PageTable.t L) va a v :
  pkind (read_pte m a) ≠ KTable → pkind v ≠ KTable →
  PageTableInner.walk_from fuel (<[a:=v]> m) t va =
  match PageTableInner.walk_from fuel m t va with
  | Returns e => Returns (retype (<[a:=v]> m) e)
  | Panics => Panics
  end.
Proof.
  intros Ha Hv. revert t. induction fuel as [|k IH]; intros t; cbn [PageTableInner.walk_from];
    unfold PageTable.entry_for_addr_mut; rewrite !entry_for_index_eq; cbn zeta;
    (destruct (_ =? 0); [done|]); cbn [mbind outcome_bind]; set (b := wrap64 _);
    (destruct (decide (a = b)) as [Hab|Hab];
     [rewrite <-!Hab, read_pte_insert_eq;
      destruct (pkind v) eqn:Hkv, (pkind (read_pte m a)) eqn:Hka; try done; cbn; unfold retype; cbn;
      rewrite read_pte_insert_eq, Hkv; done|]);
    rewrite (read_pte_insert_ne m a b) by done;
    destruct (pkind (read_pte m b)) eqn:Hk; cbn [typed]; try done;
    try (unfold retype; cbn; rewrite read_pte_insert_ne, Hk by done; done).
  unfold PageTablePte.table. destruct (next_level _) as [l'|]; [|done].
  cbn [unwrap_option mbind outcome_bind TableEntryMut.pte TableEntryMut.level].
  unfold PageTable.from_pte. rewrite read_pte_insert_ne by done.
  destruct (negb (Pte.valid _)); [done|]. destruct (negb (_ =? 1)); [done|].
  destruct (unwrap_option _) as [ta|]; [|done]. cbn [mbind outcome_bind]. apply IH.
Qed.

(** ** The parts of an address

    The index fields cover the low [abits] bits; what lies above is ignored. *)
Definition abits : Z := addr_shift (root_level (L := L)) + addr_width (root_level (L := L)).
Definition norm (va : Z) : Z := va mod 2 ^ abits.
(** The number of the level-[l] leaf that holds [va], and of the table it is in. *)
Definition vpn (l : L) (va : Z) : Z := norm va / 2 ^ addr_shift l.
Definition prefix (l : L) (va : Z) : Z := norm va / 2 ^ (addr_shift l + addr_width l).

(** The number of the page of size [s] that holds [va]. *)
Definition leaf_no (s : PageSize.t) (va : Z) : Z := norm va / PageSize.bytes s.
Lemma vpn_leaf_no (l : L) va : vpn l va = leaf_no (leaf_page_size l) va.
Proof using PL. unfold vpn, leaf_no. by rewrite law_shift. Qed.

Lemma index_spec va (l : L) :
  PageTableIndex.from_addr va l = (va / 2 ^ addr_shift l) mod 2 ^ addr_width l.
Proof using PL.
  unfold PageTableIndex.from_addr. pose proof (law_width l).
  rewrite Z.shiftl_1_l, land_mask_mod, Z.shiftr_div_pow2 by lia. done.
Qed.

Lemma index_range va (l : L) : 0 ≤ PageTableIndex.from_addr va l < 2 ^ addr_width l.
Proof using PL.
  rewrite index_spec. pose proof (law_width l). apply Z.mod_pos_bound.
  apply Z.pow_pos_nonneg; lia.
Qed.

Lemma vpn_split va (l : L) :
  vpn l va = prefix l va * 2 ^ addr_width l + PageTableIndex.from_addr va l.
Proof using PL.
  rewrite index_spec. unfold vpn, prefix, norm, abits.
  pose proof (law_width l). pose proof (law_top l).
  set (s := addr_shift l) in *. set (w := addr_width l) in *. 
  set (n := addr_shift (root_level (L := L)) + addr_width (root_level (L := L))) in *.
  assert (Hd : va mod 2 ^ n / 2 ^ s = (va / 2 ^ s) mod 2 ^ (n - s)).
  { replace n with (s + (n - s)) at 1 by lia.
    rewrite Z.pow_add_r by lia. rewrite Z.rem_mul_r; [|apply Z.pow_nonzero; lia|apply Z.pow_pos_nonneg; lia].
    rewrite (Z.mul_comm (2 ^ s) (_ mod _)), Z.div_add by (apply Z.pow_nonzero; lia).
    rewrite Z.div_small by (apply Z.mod_pos_bound, Z.pow_pos_nonneg; lia). lia. }
  rewrite Z.pow_add_r by lia. rewrite <-Z.div_div by (try apply Z.pow_nonzero; try apply Z.pow_pos_nonneg; lia).
  rewrite Hd.
  pose proof (Z.div_mod ((va / 2 ^ s) mod 2 ^ (n - s)) (2 ^ w)) as Hdm.
  rewrite Hdm at 1 by (apply Z.pow_nonzero; lia). rewrite (Z.mul_comm (2 ^ w)). f_equal.
  replace (n - s) with (w + (n - s - w)) by lia. rewrite Z.pow_add_r by lia.
  rewrite Z.rem_mul_r by (try apply Z.pow_nonzero; try apply Z.pow_pos_nonneg; lia).
  rewrite Z.mul_comm, Z.mod_add by (apply Z.pow_nonzero; lia).
  apply Z.mod_small, Z.mod_pos_bound, Z.pow_pos_nonneg; lia.
Qed.

Lemma prefix_next va (l l' : L) : next_level l = Some l' → prefix l' va = vpn l va.
Proof using PL. intros (_ & Hs & _)%law_next. unfold prefix, vpn. by rewrite Hs. Qed.

Lemma prefix_root va : prefix root_level va = 0.
Proof using PL.
  unfold prefix, norm, abits. apply Z.div_small, Z.mod_pos_bound.
  pose proof (law_width (root_level (L := L))). apply Z.pow_pos_nonneg; lia.
Qed.

(** ** Well-formed page tables

    [T] gives every table its level and the part of the address space it is for. *)
Definition table_size (l : L) : Z := table_pages l * 4096.

Record entry_ok (T : gmap Z (L * Z)) (l : L) (n : Z) (v : Z) : Prop := {
  eo_u64 : u64 v;
  eo_table : pkind v = KTable → ∃ l', next_level l = Some l' ∧ T !! (Pte.pfn v * 4096) = Some (l', n);
  eo_leaf : pkind v ≠ KTable → (Pte.pfn v * 4096) mod PageSize.bytes (leaf_page_size l) = 0
}.

Record pt_wf (root : Z) (T : gmap Z (L * Z)) (m : mem) : Prop := {
  pw_root : T !! root = Some (root_level, 0);
  pw_table b l p : T !! b = Some (l, p) → 0 < b ∧ b mod 4096 = 0 ∧ b + table_size l ≤ 2 ^ 56;
  pw_disjoint b l p b' l' p' :
    T !! b = Some (l, p) → T !! b' = Some (l', p') → b ≠ b' →
    b + table_size l ≤ b' ∨ b' + table_size l' ≤ b;
  pw_entry b l p i :
    T !! b = Some (l, p) → 0 ≤ i < 2 ^ addr_width l →
    entry_ok T l (p * 2 ^ addr_width l + i) (read_pte m (b + i * 8))
}.

(** ** Walks in a well-formed table *)
Definition slot_at (T : gmap Z (L * Z)) (va : Z) (e : entry L) : Prop :=
  ∃ b, T !! b = Some (TableEntryMut.level e, prefix (TableEntryMut.level e) va) ∧
    TableEntryMut.pte e = b + PageTableIndex.from_addr va (TableEntryMut.level e) * 8.

Lemma table_bytes (l : L) i : 0 ≤ i < 2 ^ addr_width l → 0 ≤ i * 8 ∧ i * 8 + 8 ≤ table_size l.
Proof using PL. intros. unfold table_size. rewrite <-law_pages. lia. Qed.

Lemma wf_entry_addr root T m b l p i :
  pt_wf root T m → T !! b = Some (l, p) → 0 ≤ i < 2 ^ addr_width l →
  wrap64 (b + i * 8) = b + i * 8 ∧ (b + i * 8 =? 0) = false.
Proof using PL.
  intros Hwf Hb Hi. destruct (pw_table _ _ _ Hwf _ _ _ Hb) as (? & ? & ?).
  pose proof (table_bytes l i Hi). unfold wrap64. rewrite Z.mod_small by lia.
  split; [done|]. apply Z.eqb_neq. lia.
Qed.

Lemma table_eq m a (l l' : L) :
  pkind (read_pte m a) = KTable → next_level l = Some l' →
  PageTablePte.table m (TableEntryMut.mk a l) = Returns (PageTable.mk (Pte.pfn (read_pte m a) * 4096) l') ∧
  PageTablePte.table_addr m (TableEntryMut.mk a l) = Returns (Pte.pfn (read_pte m a) * 4096).
Proof using PL.
  intros Hk Hl'. destruct (law_next _ _ Hl') as (_ & _ & Hpg).
  assert (Hf : PageAddr.from_pfn (Pte.pfn (read_pte m a)) Size4k = Some (Pte.pfn (read_pte m a) * 4096)).
  { pose proof (pfn_range (read_pte m a)). apply from_pfn_Some; [lia|]. split; [done|].
    cbn. apply Z.mod_mul. done. }
  assert (Hval : Pte.valid (read_pte m a) = true).
  { revert Hk. unfold pkind, kind_of, view. cbn. destruct (Pte.valid _); [done|].
    cbn. destruct (Pte.locked _); [done|]. by destruct (_ =? 0). }
  unfold PageTablePte.table, PageTablePte.table_addr. cbn [TableEntryMut.level TableEntryMut.pte].
  rewrite Hl', Hf. cbn [unwrap_option mbind outcome_bind]. unfold PageTable.from_pte.
  rewrite Hval, Hpg, Hf. done.
Qed.

Lemma wf_table root T m b l p i e :
  pt_wf root T m → T !! b = Some (l, p) → 0 ≤ i < 2 ^ addr_width l →
  e = TableEntryMut.mk (b + i * 8) l → pkind (read_pte m (b + i * 8)) = KTable →
  ∃ b' l', PageTablePte.table m e = Returns (PageTable.mk b' l') ∧ PageTablePte.table_addr m e = Returns b' ∧
    next_level l = Some l' ∧ T !! b' = Some (l', p * 2 ^ addr_width l + i).
Proof using PL.
  intros Hwf Hb Hi -> Hk. pose proof (pw_entry _ _ _ Hwf _ _ _ _ Hb Hi) as [Hu Ht _].
  destruct (Ht Hk) as (l' & Hl' & Hb'). exists (Pte.pfn (read_pte m (b + i * 8)) * 4096), l'.
  by destruct (table_eq _ _ _ _ Hk Hl') as [-> ->].
Qed.

Lemma walk_from_wf fuel root T m b l va :
  pt_wf root T m → T !! b = Some (l, prefix l va) → (depth l ≤ fuel)%nat →
  ∃ e, PageTableInner.walk_from fuel m (PageTable.mk b l) va = Returns e ∧ slot_at T va (entry_of e).
Proof using PL.
  intros Hwf. revert b l. induction fuel as [|k IH]; intros b l Hb Hd; cbn [PageTableInner.walk_from];
    unfold PageTable.entry_for_addr_mut; rewrite entry_for_index_eq;
    cbn [PageTable.level PageTable.table_addr] in *; pose proof (index_range va l) as Hi;
    destruct (wf_entry_addr _ _ _ _ _ _ _ Hwf Hb Hi) as [-> ->];
    cbn [mbind outcome_bind].
  - destruct (pkind _) eqn:Hk; [..|]; cbn [typed]; try (eexists; split; [done|]; by exists b).
    destruct (wf_table _ _ _ _ _ _ _ _ Hwf Hb Hi eq_refl Hk) as (b' & l' & _ & _ & Hl' & _).
    destruct (law_next _ _ Hl'). lia.
  - destruct (pkind _) eqn:Hk; cbn [typed]; try (eexists; split; [done|]; by exists b).
    destruct (wf_table _ _ _ _ _ _ _ _ Hwf Hb Hi eq_refl Hk) as (b' & l' & -> & _ & Hl' & Hb').
    cbn [mbind outcome_bind]. destruct (law_next _ _ Hl') as [Hdl _]. apply IH; [|lia].
    rewrite Hb'. do 2 f_equal. rewrite (prefix_next va l l') by done. by rewrite vpn_split.
Qed.

Lemma slot_at_inj root T m va va' (e e' : entry L) :
  pt_wf root T m → slot_at T va e → slot_at T va' e' → TableEntryMut.pte e = TableEntryMut.pte e' →
  e = e' ∧ vpn (TableEntryMut.level e) va = vpn (TableEntryMut.level e) va'.
Proof using PL.
  destruct e as [a l], e' as [a' l']. unfold slot_at. cbn. intros Hwf (b & Hb & ->) (b' & Hb' & ->) Heq.
  pose proof (index_range va l) as Hi. pose proof (index_range va' l') as Hi'.
  pose proof (table_bytes _ _ Hi). pose proof (table_bytes _ _ Hi').
  destruct (decide (b = b')) as [<-|Hne].
  - rewrite Hb in Hb'. simplify_eq. split; [by f_equal|]. rewrite !vpn_split. f_equal; [congruence|lia].
  - destruct (pw_disjoint _ _ _ Hwf _ _ _ _ _ _ Hb Hb' Hne); lia.
Qed.

Lemma wf_update root T m va (e : entry L) v :
  pt_wf root T m → slot_at T va e →
  entry_ok T (TableEntryMut.level e) (vpn (TableEntryMut.level e) va) v →
  pt_wf root T (<[TableEntryMut.pte e := v]> m).
Proof using PL.
  destruct e as [a l]. unfold slot_at. cbn. intros Hwf (b & Hb & ->) Hv.
  pose proof (index_range va l) as Hi. pose proof (table_bytes _ _ Hi).
  split; [apply Hwf|apply Hwf|apply Hwf|]. intros b' l' p' i' Hb' Hi'.
  pose proof (table_bytes _ _ Hi').
  destruct (decide (b + PageTableIndex.from_addr va l * 8 = b' + i' * 8)) as [Heq|Hne].
  - destruct (decide (b = b')) as [<-|Hne]; [|destruct (pw_disjoint _ _ _ Hwf _ _ _ _ _ _ Hb Hb' Hne); lia].
    rewrite Hb in Hb'. simplify_eq. rewrite <-Heq, read_pte_insert_eq.
    assert (PageTableIndex.from_addr va l' = i') as <- by lia. by rewrite vpn_split in Hv.
  - rewrite read_pte_insert_ne by done. by apply Hwf.
Qed.

(** ** The translation a table stands for *)
Record mapping := Mapping { mp_kind : kind; mp_size : PageSize.t; mp_addr : Z }.
Definition mapping_at (m : mem) (e : entry L) : option mapping :=
  let v := read_pte m (TableEntryMut.pte e) in
  match pkind v with
  | KUnused => None
  | k => Some (Mapping k (leaf_page_size (TableEntryMut.level e)) (Pte.pfn v * 4096))
  end.
Definition lookup (self : PageTableInner.t L) (m : mem) (va : Z) : option mapping :=
  match PageTableInner.walk self m va with
  | Returns t => mapping_at m (entry_of t)
  | Panics => None
  end.
Definition root_addr (self : PageTableInner.t L) : Z := SequentialPages.addr (PageTableInner.root self).

(** The entry a walk ends at, and what is there. *)
Record walk_slot (self : PageTableInner.t L) (T : gmap Z (L * Z)) (m : mem) (va : Z) (e : entry L) : Prop := {
  ws_slot : slot_at T va e;
  ws_kind : pkind (read_pte m (TableEntryMut.pte e)) ≠ KTable;
  ws_walk : PageTableInner.walk self m va = Returns (typed (pkind (read_pte m (TableEntryMut.pte e))) e);
  ws_lookup : lookup self m va = mapping_at m e;
  ws_entry : entry_ok T (TableEntryMut.level e) (vpn (TableEntryMut.level e) va)
    (read_pte m (TableEntryMut.pte e))
}.

Lemma slot_entry_ok root T m va (e : entry L) :
  pt_wf root T m → slot_at T va e →
  entry_ok T (TableEntryMut.level e) (vpn (TableEntryMut.level e) va) (read_pte m (TableEntryMut.pte e)).
Proof using PL.
  intros Hwf (b & Hb & ->). rewrite vpn_split. apply (pw_entry _ _ _ Hwf); [done|]. apply index_range.
Qed.

Lemma walk_self_slot self T m va t :
  pt_wf (root_addr self) T m → slot_at T va (entry_of t) →
  PageTableInner.walk self m va = Returns t → walk_slot self T m va (entry_of t).
Proof using PL.
  intros Hwf Hs Hw. destruct (walk_from_shape _ _ _ _ _ Hw) as [Ht Hk]. split; try done.
  - rewrite Hw. f_equal. exact Ht.
  - unfold lookup. by rewrite Hw.
  - by eapply slot_entry_ok.
Qed.

Lemma root_depth : (depth (root_level (L := L)) ≤ MAX_LEVELS)%nat.
Proof using PL. pose proof (law_depth (root_level (L := L))). unfold MAX_LEVELS. lia. Qed.
Lemma root_prefix root T m va : pt_wf root T m → T !! root = Some (root_level, prefix root_level va).
Proof using PL. rewrite prefix_root. intros H. apply H. Qed.

Lemma walk_spec self T m va :
  pt_wf (root_addr self) T m → ∃ e, walk_slot self T m va e.
Proof using PL.
  intros Hwf.
  destruct (walk_from_wf _ _ _ _ _ _ va Hwf (root_prefix _ _ _ va Hwf) root_depth) as (t & Hw & Hs).
  exists (entry_of t). by apply walk_self_slot.
Qed.

(** Addresses in the same leaf walk to the same entry. *)
Lemma index_vpn va (l : L) : PageTableIndex.from_addr va l = vpn l va mod 2 ^ addr_width l.
Proof using PL.
  rewrite vpn_split. pose proof (index_range va l). pose proof (law_width l).
  rewrite Z.add_comm, Z.mod_add by (apply Z.pow_nonzero; lia). by rewrite Z.mod_small.
Qed.
Lemma prefix_vpn va (l : L) : prefix l va = vpn l va / 2 ^ addr_width l.
Proof using PL.
  rewrite vpn_split. pose proof (index_range va l). pose proof (law_width l).
  rewrite Z.add_comm, Z.div_add by (apply Z.pow_nonzero; lia). rewrite Z.div_small by done. lia.
Qed.

Lemma walk_from_same fuel m (t : PageTable.t L) va va' r :
  PageTableInner.walk_from fuel m t va = Returns r →
  vpn (TableEntryMut.level (entry_of r)) va' = vpn (TableEntryMut.level (entry_of r)) va →
  PageTableInner.walk_from fuel m t va' = Returns r ∧ vpn (PageTable.level t) va' = vpn (PageTable.level t) va.
Proof using PL.
  revert t. induction fuel as [|k IH]; intros t; cbn [PageTableInner.walk_from];
    unfold PageTable.entry_for_addr_mut; rewrite !entry_for_index_eq, !index_vpn; cbn zeta;
    (destruct (_ =? 0) eqn:Hz; [done|]); cbn [mbind outcome_bind];
    (destruct (pkind _) eqn:Hk; cbn [typed]; intros H Hvpn; simplify_eq;
      try (cbn in Hvpn; rewrite Hvpn, Hz, Hk; done)).
  destruct (PageTablePte.table m _) as [t'|] eqn:Ht; [|done]. cbn [mbind outcome_bind] in H.
  destruct (IH t' H Hvpn) as [Hw' Hv'].
  assert (Hv : vpn (PageTable.level t) va' = vpn (PageTable.level t) va).
  { revert Ht. unfold PageTablePte.table, PageTable.from_pte. cbn [TableEntryMut.level TableEntryMut.pte].
    destruct (next_level _) as [l'|] eqn:Hl'; [|done]. cbn [unwrap_option mbind outcome_bind].
    destruct (negb _); [done|]. destruct (negb _); [done|]. destruct (unwrap_option _); [|done].
    cbn [mbind outcome_bind]. intros [= <-]. cbn in Hv'.
    rewrite <-!(prefix_next _ _ _ Hl'), !prefix_vpn. by rewrite Hv'. }
  rewrite Hv, Hz. cbn [mbind outcome_bind]. rewrite Hk. cbn [typed]. rewrite Ht. done.
Qed.

Lemma walk_slot_same self T m va va' e :
  pt_wf (root_addr self) T m → walk_slot self T m va e →
  vpn (TableEntryMut.level e) va' = vpn (TableEntryMut.level e) va → walk_slot self T m va' e.
Proof using PL.
  intros Hwf He Hv. pose proof (ws_walk _ _ _ _ _ He) as Hw.
  destruct (walk_from_same _ _ _ _ va' _ Hw) as [Hw' _].
  { by rewrite entry_of_typed. }
  pose proof (λ H, walk_self_slot self T m va' _ Hwf H Hw') as Hs. rewrite entry_of_typed in Hs. apply Hs.
  destruct (ws_slot _ _ _ _ _ He) as (b & Hb & Ha). exists b.
  rewrite index_vpn, prefix_vpn, Hv, <-index_vpn, <-prefix_vpn. done.
Qed.

Lemma walk_slot_det self T m va e e' : walk_slot self T m va e → walk_slot self T m va e' → e = e'.
Proof using PL.
  intros [_ _ H1 _ _] [_ _ H2 _ _]. rewrite H1 in H2. injection H2 as H2.
  apply (f_equal entry_of) in H2. by rewrite !entry_of_typed in H2.
Qed.

(** ** Writing a leaf entry *)
Lemma update_spec self T m va e v :
  pt_wf (root_addr self) T m → walk_slot self T m va e →
  u64 v → pkind v ≠ KTable →
  (Pte.pfn v * 4096) mod PageSize.bytes (leaf_page_size (TableEntryMut.level e)) = 0 →
  let m' := <[TableEntryMut.pte e := v]> m in
  pt_wf (root_addr self) T m' ∧
  (∀ va', (∃ e', walk_slot self T m va' e' ∧ walk_slot self T m' va' e') ∧
    lookup self m' va' =
      if decide (vpn (TableEntryMut.level e) va' = vpn (TableEntryMut.level e) va)
      then mapping_at m' e else lookup self m va').
Proof using PL.
  intros Hwf He Hu Hk Hal m'.
  assert (Hwf' : pt_wf (root_addr self) T m').
  { apply (wf_update _ _ _ va); [done|apply He|]. by split. }
  split; [done|]. intros va'. destruct (walk_spec self T m va' Hwf) as (e' & He').
  assert (He'' : walk_slot self T m' va' e').
  { pose proof (walk_self_slot self T m' va' (retype m' (typed (pkind (read_pte m (TableEntryMut.pte e'))) e')) Hwf') as Hs.
    unfold retype in Hs. rewrite !entry_of_typed in Hs. apply Hs; [apply He'|].
    unfold PageTableInner.walk, m'. rewrite walk_from_update; [|apply He|done].
    pose proof (ws_walk _ _ _ _ _ He') as Hw. unfold PageTableInner.walk in Hw. rewrite Hw.
    unfold retype. by rewrite !entry_of_typed. }
  split; [by exists e'|]. rewrite (ws_lookup _ _ _ _ _ He''). case_decide as Hv.
  - f_equal. eapply walk_slot_det; [exact He'|]. by eapply walk_slot_same.
  - rewrite (ws_lookup _ _ _ _ _ He'). unfold mapping_at. unfold m'.
    rewrite read_pte_insert_ne; [done|]. intros Heq. apply Hv.
    destruct (slot_at_inj _ _ _ va va' e e' Hwf (ws_slot _ _ _ _ _ He) (ws_slot _ _ _ _ _ He') Heq). done.
Qed.
End walk.
Arguments norm L {_} _.
Arguments abits L {_}.
Arguments leaf_no L {_} _ _.
