(* ===== verification/PageTableOps.v ===== *)
(** * Operations on page tables, by their effect on the translation

    Filling in intermediate tables never changes the translation; locking,
    mapping, unlocking and invalidating an entry change it for exactly the leaf
    they are about. *)
From S2P Require Import Prelude RiscvPages MemMap PageInfoModel PageMapModel HypAlloc Tracker Pte PteFacts PageTableModel PageTableFacts.
Import PageSize(Size4k).
Import PtError.
Import TableEntryType(Unused, Invalidated, LockedUnmapped, Leaf, LockedMapped, Table).

(** The addresses that a table and the pages for it may occupy, the memory around
    them, which the operations do not touch, and what is left of the pages. *)
Class Footprint := {
  within : Z → Prop;
  around : mem;
  spare : list Page.t → Prop;
  spare_tail : ∀ p ps, spare (p :: ps) → spare ps
}.
(** No restriction. *)
#[global] Instance anywhere : Footprint | 100 :=
  {| within _ := True; around := ∅; spare _ := True; spare_tail _ _ H := H |}.

Section ops.
Context {L : Type} {PM : PagingMode L} {PL : PagingLaws L} {FP : Footprint}.
Implicit Types (self : PageTableInner.t L) (T : gmap Z (L * Z)) (m : mem) (pages : list Page.t).

(** Zeroed pages that are not part of the table yet ([Page<InternalClean>]). *)
Record page_fresh T m (a : Z) : Prop := {
  pf_addr : 0 < a ∧ a mod 4096 = 0 ∧ a + 4096 ≤ 2 ^ 56;
  pf_apart b l p : T !! b = Some (l, p) → a + 4096 ≤ b ∨ b + table_size l ≤ a;
  pf_zero i : 0 ≤ i < 512 → read_pte m (a + i * 8) = 0
}.
Record framed T m pages : Prop := {
  fm_table b l p a : T !! b = Some (l, p) → b ≤ a < b + table_size l → within a;
  fm_page p a : p ∈ pages → Page.addr p ≤ a < Page.addr p + 4096 → within a;
  fm_around a : ¬ within a → read_pte m a = read_pte around a;
  fm_spare : spare pages
}.
Definition pages_fresh T m pages : Prop :=
  NoDup (Page.addr <$> pages) ∧ Forall (λ p, page_fresh T m (Page.addr p)) pages ∧ framed T m pages.

Lemma pages_fresh_apart T m p pages q :
  pages_fresh T m (p :: pages) → q ∈ pages →
  Page.addr p + 4096 ≤ Page.addr q ∨ Page.addr q + 4096 ≤ Page.addr p.
Proof.
  intros (Hnd & Hf & _) Hq. cbn in Hnd. apply list.NoDup_cons in Hnd as [Hn _].
  apply list.Forall_cons in Hf as [Hp Hf]. rewrite list.Forall_forall in Hf. pose proof (Hf _ Hq) as Hq'.
  destruct (pf_addr _ _ _ Hp) as (_ & Hm & _), (pf_addr _ _ _ Hq') as (_ & Hm' & _).
  assert (Page.addr p ≠ Page.addr q) by (intros E; apply Hn; rewrite E; by apply list_elem_of_fmap_2).
  mod_lia.
Qed.

(** A write inside an existing table keeps the pages fresh. *)
Lemma pages_fresh_update T m pages va (e : entry L) v root :
  pt_wf root T m → slot_at T va e → pages_fresh T m pages →
  pages_fresh T (<[TableEntryMut.pte e := v]> m) pages.
Proof using PL.
  intros Hwf (b & Hb & Ha) (Hnd & Hf & Hfm).
  pose proof (index_range va (TableEntryMut.level e)) as Hr. pose proof (table_bytes _ _ Hr).
  split_and!; [done| |].
  - eapply list.Forall_impl; [exact Hf|]. intros p [H1 H2 H3]. split; [done|done|]. intros i Hi. cbn.
    rewrite read_pte_insert_ne; [by apply H3|]. destruct (H2 _ _ _ Hb); lia.
  - destruct Hfm as [F1 F2 F3 F4]. split; [done|done| |done]. intros a Ha'. rewrite read_pte_insert_ne; [by apply F3|].
    intros <-. apply Ha'. eapply F1; [exact Hb|]. lia.
Qed.

Lemma fresh_lookup T m a : page_fresh T m a → T !! a = None.
Proof using PL.
  intros [H1 H2 _]. destruct (T !! a) as [[l p]|] eqn:E; [|done].
  destruct (H2 _ _ _ E) as [|H]; [lia|]. unfold table_size in H.
  pose proof (law_pages l). pose proof (law_width l). pose proof (Z.pow_pos_nonneg 2 (addr_width l)). lia.
Qed.

Section fill.
Variables (self : PageTableInner.t L) (T : gmap Z (L * Z)) (m : mem) (va : Z) (e : entry L) (l' : L) (a : Z).
Hypothesis Hwf : pt_wf (root_addr self) T m.
Hypothesis Hslot : slot_at T va e.
Hypothesis Hunused : pkind (read_pte m (TableEntryMut.pte e)) = KUnused.
Hypothesis Hnext : next_level (TableEntryMut.level e) = Some l'.
Hypothesis Hfresh : page_fresh T m a.

Let m' : mem := UnusedPte.map_table e a m.
Let T' : gmap Z (L * Z) := <[a := (l', vpn (TableEntryMut.level e) va)]> T.

Lemma fill_value :
  m' = <[TableEntryMut.pte e := Pte.set (a / 4096) 0]> m ∧
  u64 (Pte.set (a / 4096) 0) ∧ Pte.pfn (Pte.set (a / 4096) 0) * 4096 = a ∧
  pkind (Pte.set (a / 4096) 0) = KTable.
Proof using Hfresh.
  destruct (pf_addr _ _ _ Hfresh) as (H0 & H1 & H2).
  split; [unfold m', UnusedPte.map_table, modify_pte; by rewrite pfn_small by lia|].
  destruct (pkind_set (a / 4096) 0) as (Hu & Hp & Hk); [|lia|split_and!; [done| |done]].
  - split; [apply Z.div_pos; lia|apply Z.div_lt_upper_bound; lia].
  - rewrite Hp. mod_lia.
Qed.

Lemma fill_table_size : table_size l' = 4096 ∧ 2 ^ addr_width l' = 512.
Proof using Hnext PL.
  destruct (law_next _ _ Hnext) as (_ & _ & Hp). unfold table_size. pose proof (law_pages l'). lia.
Qed.

Lemma fill_wf : pt_wf (root_addr self) T' m'.
Proof using Hwf Hslot Hnext Hfresh PL.
  pose proof (fresh_lookup _ _ _ Hfresh) as HTa. destruct fill_table_size as [Hsz Hw].
  destruct fill_value as (Hm' & Hu & Hpfn & Hk). destruct (pf_addr _ _ _ Hfresh) as (H0 & H1 & H2).
  assert (Hmono : ∀ b x, T !! b = Some x → T' !! b = Some x).
  { intros b x Hb. unfold T'. rewrite lookup_insert_ne; [done|]. intros <-. congruence. }
  split.
  - apply Hmono, Hwf.
  - intros b l p Hb. unfold T' in Hb. rewrite lookup_insert in Hb. case_decide; simplify_eq.
    + rewrite Hsz. done.
    + by apply (pw_table _ _ _ Hwf b l p).
  - intros b l p b' lb p' Hb Hb' Hne. unfold T' in Hb, Hb'. rewrite lookup_insert in Hb, Hb'.
    destruct (decide (a = b)) as [<-|], (decide (a = b')) as [<-|]; [done|..].
    + injection Hb as <- <-. rewrite Hsz. by apply (pf_apart _ _ _ Hfresh _ _ _ Hb').
    + injection Hb' as <- <-. rewrite Hsz. destruct (pf_apart _ _ _ Hfresh _ _ _ Hb); tauto.
    + by apply (pw_disjoint _ _ _ Hwf b l p b' lb p').
  - intros b l p i Hb Hi. destruct Hslot as (b0 & Hb0 & He). pose proof (index_range va (TableEntryMut.level e)) as Hr.
    pose proof (table_bytes _ _ Hr) as Htb. pose proof (table_bytes _ _ Hi) as Htb'.
    unfold T' in Hb. rewrite lookup_insert in Hb. case_decide; simplify_eq.
    { rewrite Hm', read_pte_insert_ne by (destruct (pf_apart _ _ _ Hfresh _ _ _ Hb0); lia).
      rewrite (pf_zero _ _ _ Hfresh) by lia. by split. }
    destruct (decide (TableEntryMut.pte e = b + i * 8)) as [Heq|Hne].
    + assert (b = b0) as ->.
      { destruct (decide (b = b0)) as [|Hne]; [done|].
        destruct (pw_disjoint _ _ _ Hwf _ _ _ _ _ _ Hb Hb0 Hne); lia. }
      rewrite Hb0 in Hb. simplify_eq. rewrite Hm', <-Heq, read_pte_insert_eq.
      assert (PageTableIndex.from_addr va (TableEntryMut.level e) = i) as <- by lia.
      split; [done| |done]. intros _. exists l'. split; [done|]. rewrite Hpfn. unfold T'.
      rewrite lookup_insert_eq, vpn_split. done.
    + rewrite Hm', read_pte_insert_ne by done.
      destruct (pw_entry _ _ _ Hwf _ _ _ _ Hb Hi) as [E1 E2 E3]. split; [done| |done].
      intros Ht. destruct (E2 Ht) as (ln & Hln & HT). exists ln. split; [done|]. by apply Hmono.
Qed.

Lemma fill_walk_from fuel b l va' r :
  T !! b = Some (l, prefix l va') → (depth l ≤ fuel)%nat →
  PageTableInner.walk_from fuel m (PageTable.mk b l) va' = Returns r →
  PageTableInner.walk_from fuel m' (PageTable.mk b l) va' =
  Returns (if decide (TableEntryMut.pte (entry_of r) = TableEntryMut.pte e)
           then Unused (TableEntryMut.mk (a + PageTableIndex.from_addr va' l' * 8) l') else r).
Proof using Hwf Hslot Hunused Hnext Hfresh PL.
  destruct fill_value as (Hm' & Hu & Hpfn & Hkt). destruct fill_table_size as [Hsz Hw].
  pose proof fill_wf as Hwf'. revert b l. induction fuel as [|k IH]; intros b l Hb Hd; cbn [PageTableInner.walk_from];
    unfold PageTable.entry_for_addr_mut; rewrite !entry_for_index_eq;
    cbn [PageTable.level PageTable.table_addr]; pose proof (index_range va' l) as Hi;
    destruct (wf_entry_addr _ _ _ _ _ _ _ Hwf Hb Hi) as [-> ->]; cbn [mbind outcome_bind].
  all: set (x := b + _ * 8); assert (Hsx : slot_at T va' (TableEntryMut.mk x l)) by by exists b.
  all: destruct (decide (x = TableEntryMut.pte e)) as [Hx|Hx].
  1,3: destruct (slot_at_inj _ _ _ _ _ _ _ Hwf Hsx Hslot Hx) as [<- _];
       cbn [TableEntryMut.pte TableEntryMut.level] in *.
  - destruct (law_next _ _ Hnext). lia.
  - rewrite Hunused. cbn [typed]. intros [= <-]. cbn [entry_of TableEntryMut.pte].
    rewrite decide_True by done.
    assert (Hrx : read_pte m' x = Pte.set (a / 4096) 0) by (rewrite Hm'; apply read_pte_insert_eq).
    assert (Hkx : pkind (read_pte m' x) = KTable) by by rewrite Hrx.
    rewrite Hkx. cbn [typed]. destruct (table_eq _ _ _ _ Hkx Hnext) as [-> _]. rewrite Hrx, Hpfn.
    cbn [mbind outcome_bind]. destruct (law_next _ _ Hnext) as [Hdl _].
    destruct k as [|k]; cbn [PageTableInner.walk_from]; unfold PageTable.entry_for_addr_mut;
      rewrite entry_for_index_eq; cbn [PageTable.level PageTable.table_addr];
      pose proof (index_range va' l') as Hi'; rewrite Hw in Hi';
      (assert (T' !! a = Some (l', vpn l va)) as HTa by (unfold T'; apply lookup_insert_eq));
      (destruct (wf_entry_addr _ _ _ _ _ _ (PageTableIndex.from_addr va' l') Hwf' HTa) as [-> ->];
        [apply index_range|]); cbn [mbind outcome_bind];
      rewrite Hm', read_pte_insert_ne by (destruct Hslot as (b0 & Hb0 & He0); cbn in He0, Hb0;
        pose proof (index_range va l) as Hr; pose proof (table_bytes _ _ Hr);
        destruct (pf_apart _ _ _ Hfresh _ _ _ Hb0); lia);
      rewrite (pf_zero _ _ _ Hfresh) by lia; done.
  - rewrite Hm', read_pte_insert_ne by done.
    destruct (pkind (read_pte m x)) eqn:Hk; cbn [typed]; intros [= <-];
      cbn [entry_of TableEntryMut.pte]; by rewrite decide_False by done.
  - rewrite Hm', read_pte_insert_ne by done.
    destruct (pkind (read_pte m x)) eqn:Hk; cbn [typed];
      try (intros [= <-]; cbn [entry_of TableEntryMut.pte]; by rewrite decide_False by done).
    destruct (wf_table _ _ _ _ _ _ _ _ Hwf Hb Hi eq_refl Hk) as (b' & l'' & Ht & _ & Hl'' & Hb').
    assert (Hkx : pkind (read_pte m' x) = KTable) by by rewrite Hm', read_pte_insert_ne.
    destruct (table_eq _ _ _ _ Hkx Hl'') as [Ht' _]. rewrite Hm' in Ht' at 1. rewrite Ht'.
    rewrite Hm', read_pte_insert_ne by done. destruct (table_eq _ _ _ _ Hk Hl'') as [Ht'' _]. fold x in Ht.
    rewrite Ht'' in Ht. rewrite Ht''. injection Ht as Hpb. rewrite Hpb. cbn [mbind outcome_bind].
    rewrite <-Hm'. apply IH; [|destruct (law_next _ _ Hl''); lia].
    rewrite Hb'. do 2 f_equal. rewrite (prefix_next va' l l'') by done. by rewrite vpn_split.
Qed.

Lemma fill_lookup va' : lookup self m' va' = lookup self m va'.
Proof using Hwf Hslot Hunused Hnext Hfresh PL.
  destruct (walk_spec self T m va' Hwf) as (e' & He'). rewrite (ws_lookup _ _ _ _ _ He').
  pose proof (ws_walk _ _ _ _ _ He') as Hw. unfold lookup, PageTableInner.walk in *.
  change (PageTable.from_root (PageTableInner.root self))
    with (PageTable.mk (root_addr self) (root_level (L := L))).
  rewrite (fill_walk_from _ _ _ _ _ (root_prefix _ _ _ va' Hwf) root_depth Hw).
  rewrite entry_of_typed. case_decide as Hd; cbn [entry_of]; unfold mapping_at.
  - cbn [TableEntryMut.pte]. rewrite Hd, Hunused.
    destruct fill_value as (Hm' & _). destruct fill_table_size as [Hsz Hw2].
    rewrite Hm', read_pte_insert_ne.
    { rewrite (pf_zero _ _ _ Hfresh); [done|]. pose proof (index_range va' l'). lia. }
    destruct Hslot as (b0 & Hb0 & He0). pose proof (index_range va (TableEntryMut.level e)) as Hr.
    pose proof (table_bytes _ _ Hr). pose proof (index_range va' l').
    destruct (pf_apart _ _ _ Hfresh _ _ _ Hb0); lia.
  - rewrite entry_of_typed. destruct fill_value as (Hm' & _). rewrite Hm', read_pte_insert_ne by done. done.
Qed.

Lemma fill_fresh page pages :
  Page.addr page = a → pages_fresh T m (page :: pages) → pages_fresh T' m' pages.
Proof using Hwf Hslot Hnext Hfresh PL.
  intros Ha Hf. destruct fill_table_size as [Hsz _]. assert (Hfr : pages_fresh T m' pages).
  { destruct fill_value as (Hm' & _). rewrite Hm'. eapply pages_fresh_update; [done..|].
    destruct Hf as (Hnd & Hf & [F1 F2 F3 F4]). cbn in Hnd. apply list.NoDup_cons in Hnd as [_ ?].
    apply list.Forall_cons in Hf as [_ ?]. split_and!; [done..|].
    split; [done| |done|by eapply spare_tail]. intros p b Hp. apply F2. by right. }
  destruct Hfr as (Hnd & Hall & [F1 F2 F3 F4]). split_and!; [done| |].
  - apply list.Forall_forall. intros q Hq.
    rewrite list.Forall_forall in Hall. destruct (Hall _ Hq) as [H1 H2 H3]. split; [done| |done].
    intros b l p Hb. unfold T' in Hb. rewrite lookup_insert in Hb. case_decide; simplify_eq; [|by eapply H2].
    rewrite Hsz. destruct (pages_fresh_apart _ _ _ _ _ Hf Hq); lia.
  - split; [|done..]. intros b l p x Hb Hx. unfold T' in Hb. rewrite lookup_insert in Hb. case_decide; simplify_eq; [|by eapply F1].
    destruct Hf as (_ & _ & [_ G2 _ _]). apply (G2 page); [by left|]. rewrite Hsz in Hx. lia.
Qed.
End fill.

(** [t] is a table on the way of the walk for [va]. *)
Definition on_path self m (va : Z) (t : PageTable.t L) : Prop :=
  ∃ k, (depth (PageTable.level t) ≤ k)%nat ∧
    PageTableInner.walk self m va = PageTableInner.walk_from k m t va.

Lemma on_path_root self m va : on_path self m va (PageTable.from_root (PageTableInner.root self)).
Proof using PL. exists MAX_LEVELS. split; [apply root_depth|done]. Qed.

Lemma on_path_next self T m va b l b' l' :
  pt_wf (root_addr self) T m → T !! b = Some (l, prefix l va) → on_path self m va (PageTable.mk b l) →
  pkind (read_pte m (b + PageTableIndex.from_addr va l * 8)) = KTable →
  PageTablePte.table m (TableEntryMut.mk (b + PageTableIndex.from_addr va l * 8) l) = Returns (PageTable.mk b' l') →
  next_level l = Some l' → on_path self m va (PageTable.mk b' l').
Proof using PL.
  intros Hwf Hb (k & Hd & Hw) Hk Ht Hl'. cbn in Hd. destruct (law_next _ _ Hl') as [Hdl _].
  destruct k as [|k]; [lia|]. exists k. split; [cbn; lia|]. rewrite Hw. cbn [PageTableInner.walk_from].
  unfold PageTable.entry_for_addr_mut. rewrite entry_for_index_eq. cbn [PageTable.level PageTable.table_addr].
  destruct (wf_entry_addr _ _ _ _ _ _ _ Hwf Hb (index_range va l)) as [-> ->].
  cbn [mbind outcome_bind]. rewrite Hk. cbn [typed]. by rewrite Ht.
Qed.

(** The entry of a table on the path is where the walk ends, unless it is a table. *)
Lemma on_path_slot self T m va b l :
  pt_wf (root_addr self) T m → T !! b = Some (l, prefix l va) → on_path self m va (PageTable.mk b l) →
  let e := TableEntryMut.mk (b + PageTableIndex.from_addr va l * 8) l in
  PageTable.entry_for_addr_mut m (PageTable.mk b l) va = Returns (typed (pkind (read_pte m (TableEntryMut.pte e))) e) ∧
  slot_at T va e ∧
  (pkind (read_pte m (TableEntryMut.pte e)) ≠ KTable → walk_slot self T m va e).
Proof using PL.
  intros Hwf Hb (k & Hd & Hw) e.
  assert (He : PageTable.entry_for_addr_mut m (PageTable.mk b l) va
               = Returns (typed (pkind (read_pte m (TableEntryMut.pte e))) e)).
  { unfold PageTable.entry_for_addr_mut. rewrite entry_for_index_eq. cbn [PageTable.level PageTable.table_addr].
    by destruct (wf_entry_addr _ _ _ _ _ _ _ Hwf Hb (index_range va l)) as [-> ->]. }
  assert (Hs : slot_at T va e) by by exists b.
  split_and!; [done|done|]. intros Hk.
  pose proof (walk_self_slot self T m va (typed (pkind (read_pte m (TableEntryMut.pte e))) e) Hwf) as Hws.
  rewrite entry_of_typed in Hws. apply Hws; [done|]. rewrite Hw.
  destruct k; cbn [PageTableInner.walk_from]; rewrite He; cbn [mbind outcome_bind];
    destruct (pkind _); done.
Qed.

(** ** Descending to a level *)
Lemma fill_step self T m va b l l' page pages :
  pt_wf (root_addr self) T m → pages_fresh T m (page :: pages) →
  T !! b = Some (l, prefix l va) → on_path self m va (PageTable.mk b l) → next_level l = Some l' →
  let e := TableEntryMut.mk (b + PageTableIndex.from_addr va l * 8) l in
  pkind (read_pte m (TableEntryMut.pte e)) = KUnused →
  let m' := UnusedPte.map_table e (Page.addr page) m in
  ∃ T', pt_wf (root_addr self) T' m' ∧ pages_fresh T' m' pages ∧
    (∀ va', lookup self m' va' = lookup self m va') ∧
    PageTablePte.table m' e = Returns (PageTable.mk (Page.addr page) l') ∧
    T' !! Page.addr page = Some (l', prefix l' va) ∧
    on_path self m' va (PageTable.mk (Page.addr page) l').
Proof using PL.
  intros Hwf Hf Hb Hp Hl' e Hk m'.
  destruct (on_path_slot _ _ _ _ _ _ Hwf Hb Hp) as (_ & Hs & Hws). fold e in Hs, Hws.
  assert (Hfr : page_fresh T m (Page.addr page)) by (destruct Hf as (_ & Hf & _); by apply list.Forall_cons in Hf as [? _]).
  destruct (fill_value T m e (Page.addr page) Hfr) as (Hm' & _ & Hpfn & Hkt).
  assert (Hr : read_pte m' (TableEntryMut.pte e) = Pte.set (Page.addr page / 4096) 0)
    by (unfold m'; rewrite Hm'; apply read_pte_insert_eq).
  assert (Hkm' : pkind (read_pte m' (TableEntryMut.pte e)) = KTable) by by rewrite Hr.
  destruct (table_eq m' (TableEntryMut.pte e) l l' Hkm' Hl') as [Ht _]. rewrite Hr, Hpfn in Ht.
  exists (<[Page.addr page := (l', vpn l va)]> T).
  assert (Hwf' : pt_wf (root_addr self) (<[Page.addr page := (l', vpn l va)]> T) m')
    by by apply (fill_wf self T m va e l' (Page.addr page)).
  split_and!; [done|by apply (fill_fresh self T m va e l' (Page.addr page) Hwf Hs Hl' Hfr page)| |done| |].
  - by apply (fill_lookup self T m va e l' (Page.addr page)).
  - rewrite lookup_insert_eq, (prefix_next va l l') by done. done.
  - apply (on_path_next self (<[Page.addr page := (l', vpn l va)]> T) m' va b l _ l'); try done.
    + rewrite lookup_insert_ne; [done|]. intros ?. pose proof (fresh_lookup _ _ _ Hfr). congruence.
    + destruct Hp as (k & Hd & Hw). exists k. split; [done|].
      pose proof (ws_walk _ _ _ _ _ (Hws ltac:(congruence))) as Hw0. rewrite Hw0 in Hw. symmetry in Hw.
      unfold m'. rewrite (fill_walk_from self T m va e l' _ Hwf Hs Hk Hl' Hfr _ _ _ _ _ Hb Hd Hw).
      apply (fill_walk_from self T m va e l' _ Hwf Hs Hk Hl' Hfr _ _ _ _ _ (root_prefix _ _ _ va Hwf) root_depth Hw0).
Qed.

(** The translation is unchanged, and what is left of the pages is still fresh. *)
Definition same_translation self m m' : Prop := ∀ va, lookup self m' va = lookup self m va.

(** The table found, or why there is none: no page left, or a leaf in the way. *)
Definition next_table self T m pages (va : Z) (l : L) (bad : mapping → Prop) (x : option mapping)
    (r : result PtError.t (PageTable.t L)) : Prop :=
  match r with
  | Ok t => ∃ b, t = PageTable.mk b l ∧ T !! b = Some (l, prefix l va) ∧ on_path self m va t
  | Err InsufficientPtePages => pages = []
  | Err MappingExists => ∃ y, x = Some y ∧ bad y
  | Err _ => False
  end.

Lemma next_level_spec self T m pages va b l l' :
  pt_wf (root_addr self) T m → pages_fresh T m pages →
  T !! b = Some (l, prefix l va) → on_path self m va (PageTable.mk b l) → next_level l = Some l' →
  ∃ r m' pages' T',
    PageTableWalk.next_level_or_fill_fn (PageTable.mk b l) va (m, pages) = Returns (r, (m', pages')) ∧
    pt_wf (root_addr self) T' m' ∧ pages_fresh T' m' pages' ∧ same_translation self m m' ∧
    next_table self T' m' pages' va l' (λ x, mp_size x = leaf_page_size l) (lookup self m va) r.
Proof using PL.
  intros Hwf Hf Hb Hp Hl'. destruct (on_path_slot _ _ _ _ _ _ Hwf Hb Hp) as (He & Hs & Hws).
  unfold PageTableWalk.next_level_or_fill_fn. rewrite He. set (e := TableEntryMut.mk _ l) in *.
  assert (Hother : pkind (read_pte m (TableEntryMut.pte e)) ≠ KUnused →
    pkind (read_pte m (TableEntryMut.pte e)) ≠ KTable →
    ∃ x, lookup self m va = Some x ∧ mp_size x = leaf_page_size l).
  { intros Hn1 Hn2. rewrite (ws_lookup _ _ _ _ _ (Hws Hn2)). unfold mapping_at.
    destruct (pkind _); try done; eexists; split; done. }
  destruct (pkind (read_pte m (TableEntryMut.pte e))) eqn:Hk; cbn [typed];
    try (by exists (Err MappingExists), m, pages, T; split_and!; [..|by apply Hother]).
  - destruct pages as [|page pages]; [by exists (Err InsufficientPtePages), m, [], T|].
    destruct (fill_step self T m va b l l' page pages) as (T' & Hwf' & Hf' & Hlk & Ht & Hb' & Hp'); try done.
    fold e in Hwf', Hf', Hlk, Ht, Hp'. rewrite Ht. do 4 eexists. split; [done|]. split_and!; [done..|].
    by eexists.
  - destruct (wf_table _ _ _ _ _ _ _ _ Hwf Hb (index_range va l) eq_refl Hk) as (b' & l'' & Ht & _ & Hl'' & Hb').
    simplify_eq. fold e in Ht. rewrite Ht. do 4 eexists. split; [done|]. split_and!; [done..|].
    exists b'. split_and!; [done| |by eapply on_path_next].
    rewrite Hb'. do 2 f_equal. rewrite (prefix_next va l l') by done. by rewrite vpn_split.
Qed.

Lemma descend_spec fuel self T m pages va b l lt :
  pt_wf (root_addr self) T m → pages_fresh T m pages →
  T !! b = Some (l, prefix l va) → on_path self m va (PageTable.mk b l) →
  (depth lt ≤ depth l)%nat → (depth l - depth lt ≤ fuel)%nat →
  ∃ r m' pages' T',
    PageTableInner.descend fuel (PageTable.mk b l) va (leaf_page_size lt) (m, pages)
      = Returns (r, (m', pages')) ∧
    pt_wf (root_addr self) T' m' ∧ pages_fresh T' m' pages' ∧ same_translation self m m' ∧
    next_table self T' m' pages' va lt (λ x, mp_size x ≠ leaf_page_size lt) (lookup self m va) r.
Proof using PL.
  revert T m pages b l. induction fuel as [|k IH]; intros T m pages b l Hwf Hf Hb Hp Hd Hfu;
    cbn [PageTableInner.descend PageTable.level];
    (case_bool_decide as Hsz;
      [apply law_size in Hsz as ->; exists (Ok (PageTable.mk b lt)), m, pages, T;
       split_and!; try done; by exists b|]);
    (assert (depth l ≠ depth lt) by (intros ->%law_inj; done)); [lia|].
  destruct (next_level l) as [l'|] eqn:Hl'; [|apply law_zero in Hl'; lia].
  destruct (law_next _ _ Hl') as [Hdl _].
  destruct (next_level_spec self T m pages va b l l' Hwf Hf Hb Hp Hl')
    as (r & m1 & pages1 & T1 & Hn & Hwf1 & Hf1 & Hs1 & Hr).
  destruct r as [t|e]; cbn in Hr.
  - destruct Hr as (b' & -> & Hb' & Hp').
    destruct (IH T1 m1 pages1 b' l' Hwf1 Hf1 Hb' Hp' ltac:(lia) ltac:(lia))
      as (r & m2 & pages2 & T2 & Hd2 & Hwf2 & Hf2 & Hs2 & Hr2).
    exists r, m2, pages2, T2. split; [by rewrite (bind_ok _ _ _ _ _ Hn)|].
    split_and!; [done..|intros va'; by rewrite Hs2|]. by rewrite Hs1 in Hr2.
  - exists (Err e), m1, pages1, T1. split; [by rewrite (bind_err _ _ _ _ _ Hn)|].
    split_and!; [done..|]. destruct e; try done. destruct Hr as (y & Hy & Hys). exists y.
    split; [done|]. congruence.
Qed.

Lemma pkind_pfn v : (pkind v = KUnused → Pte.pfn v = 0) ∧ (pkind v = KInvalidated → Pte.pfn v ≠ 0).
Proof.
  unfold pkind, kind_of, view. cbn. destruct (Pte.valid v), (Pte.locked v), (Pte.leaf v); cbn; try done;
    destruct (Z.eqb_spec (Pte.pfn v) 0); done.
Qed.

Definition mapping_of (k : kind) (s : PageSize.t) (pa : Z) : option mapping :=
  match k with KUnused => None | _ => Some (Mapping k s pa) end.

(** The translation of a leaf that is not in use: nothing, or the address of a
    page that was mapped there before. *)
Definition idle (s : PageSize.t) (pa : Z) : option mapping :=
  if pa =? 0 then None else Some (Mapping KInvalidated s pa).

Lemma mapping_of_idle v s :
  pkind v = KUnused ∨ pkind v = KInvalidated →
  mapping_of (pkind v) s (Pte.pfn v * 4096) = idle s (Pte.pfn v * 4096).
Proof.
  destruct (pkind_pfn v) as [H1 H2]. unfold idle. intros [Hk|Hk]; rewrite Hk; cbn.
  - by rewrite H1.
  - specialize (H2 Hk). by destruct (Z.eqb_spec (Pte.pfn v * 4096) 0); [lia|].
Qed.

Definition lock_post self (s : PageSize.t) m m' (pages' : list Page.t) (va : Z) (r : result PtError.t unit) : Prop :=
  match r with
  | Ok _ => ∃ pa, lookup self m va = idle s pa ∧
      ∀ va', lookup self m' va' =
        if decide (leaf_no L s va' = leaf_no L s va) then Some (Mapping KLockedUnmapped s pa)
        else lookup self m va'
  | Err e => same_translation self m m' ∧
      match e with
      | InsufficientPtePages => pages' = []
      | TableEntryNotLeaf => s ≠ Size4k
      | _ => ∃ x, lookup self m va = Some x ∧ (mp_kind x ≠ KInvalidated ∨ mp_size x ≠ s)
      end
  end.

Definition pt_state self m pages : Prop :=
  ∃ T, pt_wf (root_addr self) T m ∧ pages_fresh T m pages.

Lemma mapping_at_of m (e : entry L) :
  mapping_at m e = mapping_of (pkind (read_pte m (TableEntryMut.pte e))) (leaf_page_size (TableEntryMut.level e))
    (Pte.pfn (read_pte m (TableEntryMut.pte e)) * 4096).
Proof. unfold mapping_at. by destruct (pkind _). Qed.

(** Every operation on the entry of [va] changes the translation of its leaf only. *)
Lemma modify_leaf_spec self T m pages va e f :
  pt_wf (root_addr self) T m → pages_fresh T m pages → walk_slot self T m va e →
  let v := f (read_pte m (TableEntryMut.pte e)) in
  u64 v → pkind v ≠ KTable →
  (Pte.pfn v * 4096) mod PageSize.bytes (leaf_page_size (TableEntryMut.level e)) = 0 →
  pt_wf (root_addr self) T (modify_pte e f m) ∧ pages_fresh T (modify_pte e f m) pages ∧
  ∀ va', lookup self (modify_pte e f m) va' =
    if decide (leaf_no L (leaf_page_size (TableEntryMut.level e)) va' = leaf_no L (leaf_page_size (TableEntryMut.level e)) va)
    then mapping_of (pkind v) (leaf_page_size (TableEntryMut.level e)) (Pte.pfn v * 4096)
    else lookup self m va'.
Proof using PL.
  intros Hwf Hf He v Hu Hk Hal. destruct (update_spec self T m va e v Hwf He Hu Hk Hal) as [Hwf' Hl].
  split_and!; [done|by eapply pages_fresh_update; [|apply He|]|].
  intros va'. destruct (Hl va') as [_ Hl']. change (modify_pte e f m) with (<[TableEntryMut.pte e := v]> m).
  rewrite Hl', !vpn_leaf_no.
  clear Hl Hl'. case_decide; [|done].
  by rewrite mapping_at_of, read_pte_insert_eq.
Qed.

Lemma lock_leaf_for_mapping_spec self m pages va s :
  pt_state self m pages →
  ∃ r m' pages',
    PageTableInner.lock_leaf_for_mapping self va s (m, pages) = Returns (r, (m', pages')) ∧
    pt_state self m' pages' ∧ lock_post self s m m' pages' va r.
Proof using PL.
  intros (T & Hwf & Hf). destruct (law_reach (L := L) s) as [lt <-].
  destruct (descend_spec MAX_LEVELS self T m pages va (root_addr self) root_level lt)
    as (r & m1 & pages1 & T1 & Hd & Hwf1 & Hf1 & Hs1 & Hr); try done.
  { by apply (root_prefix _ _ m). }
  { apply on_path_root. }
  { destruct (law_root lt) as [->|]; lia. }
  { pose proof root_depth. lia. }
  unfold PageTableInner.lock_leaf_for_mapping.
  destruct r as [t|e]; cycle 1.
  { exists (Err e), m1, pages1. split; [erewrite bind_err by exact Hd; done|].
    split; [by exists T1|]. split; [done|]. destruct e; try done.
    destruct Hr as (y & Hy & ?). exists y. tauto. }
  destruct Hr as (b & -> & Hb & Hp). erewrite bind_ok by exact Hd.
  destruct (on_path_slot _ _ _ _ _ _ Hwf1 Hb Hp) as (He & Hs & Hws).
  set (e := TableEntryMut.mk _ lt) in *.
  erewrite bind_ok by done. cbn [fst]. rewrite He. erewrite bind_ok by done.
  pose proof (eo_u64 _ _ _ _ (slot_entry_ok _ _ _ _ _ Hwf1 Hs)) as Hu.
  assert (Hlock : pkind (read_pte m1 (TableEntryMut.pte e)) = KUnused ∨
                  pkind (read_pte m1 (TableEntryMut.pte e)) = KInvalidated →
    ∃ r m' pages',
      Returns (Ok tt, (modify_pte e Pte.lock m1, pages1)) = Returns (r, (m', pages')) ∧
      pt_state self m' pages' ∧ lock_post self (leaf_page_size lt) m m' pages' va r).
  { intros Hk. do 3 eexists. split; [done|]. destruct (pkind_lock _ Hu) as (Hlu & Hlp & Hlk & _).
    specialize (Hlk Hk). assert (Hw : walk_slot self T1 m1 va e) by (apply Hws; destruct Hk; congruence).
    destruct (modify_leaf_spec self T1 m1 pages1 va e Pte.lock) as (Hwf2 & Hf2 & Hl2);
      [done..|congruence|rewrite Hlp; apply Hw, Hw|]. rewrite Hlk, Hlp in Hl2.
    split; [by exists T1|]. eexists. split; [|intros va'; rewrite Hl2, Hs1; done].
    rewrite <-Hs1, (ws_lookup _ _ _ _ _ Hw), mapping_at_of. by apply mapping_of_idle. }
  assert (Hbusy : pkind (read_pte m1 (TableEntryMut.pte e)) ≠ KUnused →
    pkind (read_pte m1 (TableEntryMut.pte e)) ≠ KInvalidated → pkind (read_pte m1 (TableEntryMut.pte e)) ≠ KTable →
    ∃ x, lookup self m va = Some x ∧ (mp_kind x ≠ KInvalidated ∨ mp_size x ≠ leaf_page_size lt)).
  { intros Hn1 Hn2 Hn3. rewrite <-Hs1, (ws_lookup _ _ _ _ _ (Hws Hn3)). unfold mapping_at.
    destruct (pkind _); try done; (eexists; split; [done|by left]). }
  destruct (pkind (read_pte m1 (TableEntryMut.pte e))) eqn:Hk; cbn [typed].
  - apply Hlock. by left.
  - apply Hlock. by right.
  - exists (Err PteLocked), m1, pages1. split_and!; [done|by exists T1|split; [done|]]. by apply Hbusy.
  - exists (Err MappingExists), m1, pages1. split_and!; [done|by exists T1|split; [done|]]. by apply Hbusy.
  - exists (Err PteLocked), m1, pages1. split_and!; [done|by exists T1|split; [done|]]. by apply Hbusy.
  - exists (Err TableEntryNotLeaf), m1, pages1. split_and!; [done|by exists T1|split; [done|]].
    destruct (slot_entry_ok _ _ _ _ _ Hwf1 Hs) as [_ Ht _]. destruct (Ht Hk) as (l' & Hl' & _).
    cbn in Hl'. intros Hb4%law_bottom. congruence.
Qed.

(** ** Operations on one leaf *)

(** The walk in terms of the translation: [K] lists the kinds that stand for [x]. *)
Lemma walk_lookup self m pages va :
  pt_state self m pages →
  ∃ T e, pt_wf (root_addr self) T m ∧ pages_fresh T m pages ∧ walk_slot self T m va e ∧
    PageTableInner.walk self m va = Returns (typed (pkind (read_pte m (TableEntryMut.pte e))) e) ∧
    lookup self m va = mapping_of (pkind (read_pte m (TableEntryMut.pte e)))
      (leaf_page_size (TableEntryMut.level e)) (Pte.pfn (read_pte m (TableEntryMut.pte e)) * 4096) ∧
    pkind (read_pte m (TableEntryMut.pte e)) ≠ KTable ∧ u64 (read_pte m (TableEntryMut.pte e)) ∧
    (Pte.pfn (read_pte m (TableEntryMut.pte e)) * 4096)
      mod PageSize.bytes (leaf_page_size (TableEntryMut.level e)) = 0.
Proof using PL.
  intros (T & Hwf & Hf). destruct (walk_spec self T m va Hwf) as (e & He). exists T, e.
  split_and!; [done..|apply He| |apply He|apply He|apply He, He].
  by rewrite (ws_lookup _ _ _ _ _ He), mapping_at_of.
Qed.

(** The translation after an operation on the leaf of [va]. *)
Definition updated self m m' (s : PageSize.t) (va : Z) (x : option mapping) : Prop :=
  ∀ va', lookup self m' va' = if decide (leaf_no L s va' = leaf_no L s va) then x else lookup self m va'.

Definition map_result (x : option mapping) (size : PageSize.t) (pa : Z) : result PtError.t unit :=
  match x with
  | Some (Mapping KLockedUnmapped s _) =>
      if negb (bool_decide (s = size)) then Err (PageSizeMismatch size s)
      else if negb (PageAddr.is_aligned pa size) then Err (AddressMisaligned pa) else Ok tt
  | Some (Mapping KLeaf _ _) | Some (Mapping KLockedMapped _ _) => Err MappingExists
  | _ => Err PteNotLocked
  end.

Lemma map_leaf_spec self m pages va pa size perms :
  pt_state self m pages → 0 ≤ pa < 2 ^ 56 →
  0 ≤ perms < 2 ^ 10 → Pte.leaf perms = true → Pte.locked perms = false →
  ∃ m', PageTableInner.map_leaf self va pa size perms m
      = Returns (map_result (lookup self m va) size pa, m') ∧
    pt_state self m' pages ∧
    if is_ok (map_result (lookup self m va) size pa)
    then updated self m m' size va (Some (Mapping KLeaf size pa)) else m' = m.
Proof using PL.
  intros Hst Hpa Hperm Hlf Hlk.
  destruct (walk_lookup self m pages va Hst) as (T & e & Hwf & Hf & He & Hw & Hl & Hnt & Hu & Hal).
  unfold PageTableInner.map_leaf. erewrite bind_ok by done. rewrite Hw, Hl. erewrite bind_ok by done.
  destruct (pkind (read_pte m (TableEntryMut.pte e))) eqn:Hk; cbn [typed mapping_of map_result];
    try done; try (by exists m).
  case_bool_decide as Hsz; cbn [negb]; [|by exists m].
  unfold LockedUnmappedPte.map_leaf. rewrite Hsz.
  destruct (PageAddr.is_aligned pa size) eqn:Hpal; cbn [negb]; [|by exists m].
  apply is_aligned_spec in Hpal. cbn [is_ok].
  assert (Hp4 : Pte.pfn (Pte.set (PageAddr.pfn pa) perms) * 4096 = pa ∧
    u64 (Pte.set (PageAddr.pfn pa) perms) ∧ pkind (Pte.set (PageAddr.pfn pa) perms) = KLeaf).
  { rewrite pfn_small by lia. destruct (pkind_set (pa / 4096) perms) as (H1 & H2 & H3);
      [split; [apply Z.div_pos; lia|apply Z.div_lt_upper_bound; lia]|done|].
    rewrite H2, H3, Hlf, Hlk. split_and!; [|done..].
    apply is_aligned_spec, is_aligned_4k, is_aligned_spec in Hpal. cbn in Hpal. mod_lia. }
  destruct Hp4 as (Hp4 & Hu4 & Hk4).
  destruct (modify_leaf_spec self T m pages va e (λ _, Pte.set (PageAddr.pfn pa) perms) Hwf Hf He)
    as (Hwf' & Hf' & Hl'); [done|congruence|by rewrite Hp4, Hsz|].
  rewrite Hk4, Hp4, Hsz in Hl'. eexists. split; [done|]. split; [by exists T|]. exact Hl'.
Qed.

Definition unlock_result (x : option mapping) : result PtError.t unit :=
  match x with
  | Some (Mapping KLockedUnmapped _ _) | Some (Mapping KLockedMapped _ _) => Ok tt
  | _ => Err PteNotLocked
  end.
Definition unlocked (x : option mapping) : option mapping :=
  match x with
  | Some (Mapping KLockedUnmapped s pa) => idle s pa
  | Some (Mapping KLockedMapped s pa) => Some (Mapping KLeaf s pa)
  | _ => x
  end.

Lemma unlock_leaf_spec self m pages va :
  pt_state self m pages →
  ∃ m', PageTableInner.unlock_leaf self va m = Returns (unlock_result (lookup self m va), m') ∧
    pt_state self m' pages ∧
    match lookup self m va with
    | Some x => updated self m m' (mp_size x) va (unlocked (Some x))
    | None => m' = m
    end.
Proof using PL.
  intros Hst. destruct (walk_lookup self m pages va Hst) as (T & e & Hwf & Hf & He & Hw & Hl & Hnt & Hu & Hal).
  assert (Hid : ∀ x, lookup self m va = Some x → unlocked (Some x) = Some x → updated self m m (mp_size x) va (Some x)).
  { intros x Hx _ va'. case_decide as Hd; [|done].
    rewrite Hl in Hx. assert (mp_size x = leaf_page_size (TableEntryMut.level e)) as Hsz.
    { destruct (pkind _); cbn in Hx; by simplify_eq. }
    rewrite <-Hx, <-Hl. rewrite Hsz, <-!vpn_leaf_no in Hd.
    pose proof (walk_slot_same _ _ _ _ va' _ Hwf He Hd) as He'.
    by rewrite (ws_lookup _ _ _ _ _ He'), (ws_lookup _ _ _ _ _ He). }
  unfold PageTableInner.unlock_leaf. erewrite bind_ok by done. rewrite Hw. erewrite bind_ok by done.
  destruct (pkind_unlock _ Hu) as (Huu & Hup & Hk1 & Hk2).
  destruct (pkind (read_pte m (TableEntryMut.pte e))) eqn:Hk; cbn [mapping_of] in Hl; rewrite Hl;
    cbn [typed unlock_result unlocked mp_size]; try done; try (by exists m);
    try (by exists m; split_and!; [..|exact (Hid _ Hl eq_refl)]).
  - destruct (modify_leaf_spec self T m pages va e Pte.unlock Hwf Hf He) as (Hwf' & Hf' & Hl');
      [done|rewrite Hk1 by done; by destruct (_ =? 0)|by rewrite Hup|].
    eexists. split; [done|]. split; [by exists T|]. intros va'. rewrite Hl'. case_decide; [|done].
    rewrite <-Hup. apply mapping_of_idle. rewrite Hk1 by done. destruct (_ =? 0); tauto.
  - destruct (modify_leaf_spec self T m pages va e Pte.unlock Hwf Hf He) as (Hwf' & Hf' & Hl');
      [done|rewrite Hk2 by done; done|by rewrite Hup|].
    eexists. split; [done|]. split; [by exists T|]. intros va'. rewrite Hl'. case_decide; [|done].
    by rewrite Hk2, Hup.
Qed.

Definition remap_lock_result (x : option mapping) : result PtError.t unit :=
  match x with
  | Some (Mapping KLeaf _ _) => Ok tt
  | Some (Mapping KLockedUnmapped _ _) | Some (Mapping KLockedMapped _ _) => Err PteLocked
  | _ => Err PageNotMapped
  end.

Lemma lock_leaf_for_remapping_spec self m pages va :
  pt_state self m pages →
  ∃ m', PageTableInner.lock_leaf_for_remapping self va m
      = Returns (remap_lock_result (lookup self m va), m') ∧
    pt_state self m' pages ∧
    match lookup self m va with
    | Some (Mapping KLeaf s pa) => updated self m m' s va (Some (Mapping KLockedMapped s pa))
    | _ => m' = m
    end.
Proof using PL.
  intros Hst. destruct (walk_lookup self m pages va Hst) as (T & e & Hwf & Hf & He & Hw & Hl & Hnt & Hu & Hal).
  unfold PageTableInner.lock_leaf_for_remapping. erewrite bind_ok by done. rewrite Hw. erewrite bind_ok by done.
  destruct (pkind_lock _ Hu) as (Huu & Hup & _ & Hk2).
  destruct (pkind (read_pte m (TableEntryMut.pte e))) eqn:Hk; cbn [mapping_of] in Hl; rewrite Hl;
    cbn [typed remap_lock_result]; try done; try (by exists m).
  destruct (modify_leaf_spec self T m pages va e Pte.lock Hwf Hf He) as (Hwf' & Hf' & Hl');
    [done|rewrite Hk2 by done; done|by rewrite Hup|].
  eexists. split; [done|]. split; [by exists T|]. intros va'. rewrite Hl'. case_decide; [|done].
  by rewrite Hk2, Hup.
Qed.

Definition remap_result (x : option mapping) (size : PageSize.t) (pa : Z) : result PtError.t Z :=
  match x with
  | Some (Mapping KLockedMapped s old) =>
      if negb (bool_decide (s = size)) then Err (PageSizeMismatch size s)
      else if negb (PageAddr.is_aligned pa size) then Err (AddressMisaligned pa) else Ok old
  | Some (Mapping KLeaf _ _) => Err PteNotLocked
  | _ => Err PageNotMapped
  end.

(** The page address in a leaf or invalidated entry. *)
Lemma page_addr_eq m (e : entry L) :
  (Pte.pfn (read_pte m (TableEntryMut.pte e)) * 4096)
    mod PageSize.bytes (leaf_page_size (TableEntryMut.level e)) = 0 →
  LeafPte.page_addr m e = Returns (Pte.pfn (read_pte m (TableEntryMut.pte e)) * 4096) ∧
  InvalidatedPte.page_addr m e = Returns (Pte.pfn (read_pte m (TableEntryMut.pte e)) * 4096).
Proof.
  intros Hal. unfold LeafPte.page_addr, InvalidatedPte.page_addr.
  pose proof (pfn_range (read_pte m (TableEntryMut.pte e))).
  assert (PageAddr.from_pfn (Pte.pfn (read_pte m (TableEntryMut.pte e)))
    (leaf_page_size (TableEntryMut.level e)) = Some (Pte.pfn (read_pte m (TableEntryMut.pte e)) * 4096)) as ->.
  { apply from_pfn_Some; [lia|]. done. }
  done.
Qed.

Lemma remap_leaf_spec self m pages va pa size :
  pt_state self m pages → 0 ≤ pa < 2 ^ 56 →
  ∃ m', PageTableInner.remap_leaf self va pa size m
      = Returns (remap_result (lookup self m va) size pa, m') ∧
    pt_state self m' pages ∧
    if is_ok (remap_result (lookup self m va) size pa)
    then updated self m m' size va (Some (Mapping KLockedMapped size pa)) else m' = m.
Proof using PL.
  intros Hst Hpa.
  destruct (walk_lookup self m pages va Hst) as (T & e & Hwf & Hf & He & Hw & Hl & Hnt & Hu & Hal).
  unfold PageTableInner.remap_leaf. erewrite bind_ok by done. rewrite Hw, Hl. erewrite bind_ok by done.
  destruct (pkind (read_pte m (TableEntryMut.pte e))) eqn:Hk; cbn [typed mapping_of remap_result];
    try done; try (by exists m).
  case_bool_decide as Hsz; cbn [negb]; [|by exists m].
  unfold LockedMappedPte.update_page_addr. rewrite Hsz.
  destruct (PageAddr.is_aligned pa size) eqn:Hpal; cbn [negb]; [|by exists m].
  apply is_aligned_spec in Hpal. cbn [is_ok]. erewrite bind_ok by done.
  assert (Hpf : 0 ≤ PageAddr.pfn pa < 2 ^ 44).
  { rewrite pfn_small by lia. split; [apply Z.div_pos; lia|apply Z.div_lt_upper_bound; lia]. }
  destruct (pkind_update_pfn _ _ Hu Hpf Hk) as (Hold & Hu' & Hp' & Hk').
  destruct (Pte.update_pfn _ _) as [old v'] eqn:Hup. cbn [fst snd] in *. subst old.
  assert (Hp4 : Pte.pfn v' * 4096 = pa).
  { rewrite Hp', pfn_small by lia. apply is_aligned_spec, is_aligned_4k, is_aligned_spec in Hpal.
    cbn in Hpal. mod_lia. }
  destruct (modify_leaf_spec self T m pages va e (λ _, v') Hwf Hf He)
    as (Hwf' & Hf' & Hl'); [done|congruence|by rewrite Hp4, Hsz|].
  rewrite Hk', Hp4, Hsz in Hl'. eexists. split; [|split; [by exists T|exact Hl']].
  erewrite bind_ok by done.
  destruct (page_addr_eq m e Hal) as [Hpe _]. unfold LeafPte.page_addr in Hpe. rewrite Hsz in Hpe.
  rewrite Hpe. done.
Qed.

(** ** Memory outside of the table

    The translation depends on the footprint of the table only. *)
Definition same_within (m m' : mem) : Prop := ∀ a, within a → read_pte m' a = read_pte m a.

Lemma walk_from_within T root m m' fuel b l va :
  pt_wf root T m → (∀ b l p a, T !! b = Some (l, p) → b ≤ a < b + table_size l → within a) → same_within m m' →
  T !! b = Some (l, prefix l va) →
  PageTableInner.walk_from fuel m' (PageTable.mk b l) va = PageTableInner.walk_from fuel m (PageTable.mk b l) va.
Proof using PL.
  intros Hwf HT Hs. revert b l. induction fuel as [|k IH]; intros b l Hb; cbn [PageTableInner.walk_from];
    unfold PageTable.entry_for_addr_mut; rewrite !entry_for_index_eq;
    cbn [PageTable.level PageTable.table_addr] in *; pose proof (index_range va l) as Hi; pose proof (table_bytes _ _ Hi);
    destruct (wf_entry_addr _ _ _ _ _ _ _ Hwf Hb Hi) as [-> ->]; cbn [mbind outcome_bind];
    (assert (Hr : read_pte m' (b + PageTableIndex.from_addr va l * 8) = read_pte m (b + PageTableIndex.from_addr va l * 8))
      by (apply Hs; eapply HT; [exact Hb|lia])); rewrite Hr; [done|].
  destruct (pkind _) eqn:Hk; cbn [typed]; try done.
  destruct (wf_table _ _ _ _ _ _ _ _ Hwf Hb Hi eq_refl Hk) as (b' & l' & Ht & _ & Hl' & Hb').
  rewrite Ht. rewrite <-Hr in Hk. destruct (table_eq m' _ _ _ Hk Hl') as [Ht' _]. rewrite Hr in Hk, Ht'.
  destruct (table_eq m _ _ _ Hk Hl') as [Ht2 _]. rewrite Ht2 in Ht. rewrite Ht', Ht. cbn [mbind outcome_bind]. apply IH.
  rewrite Hb'. do 2 f_equal. rewrite (prefix_next va l l') by done. by rewrite vpn_split.
Qed.

Lemma pt_wf_within T root m m' :
  pt_wf root T m → (∀ b l p a, T !! b = Some (l, p) → b ≤ a < b + table_size l → within a) → same_within m m' →
  pt_wf root T m'.
Proof using PL.
  intros Hwf HT Hs. split; [apply Hwf|apply Hwf|apply Hwf|]. intros b l p i Hb Hi. pose proof (table_bytes _ _ Hi).
  rewrite Hs by (eapply HT; [exact Hb|lia]). by apply Hwf.
Qed.

(** The 4kB entries that the range operations visit. *)
Definition leaf_4k (x : option mapping) : option Z :=
  match x with Some (Mapping KLeaf Size4k pa) => Some pa | _ => None end.
Definition invalidated_4k (x : option mapping) : option Z :=
  match x with Some (Mapping KInvalidated Size4k pa) => Some pa | _ => None end.

Lemma is_leaf_4k (l : L) : is_leaf l = bool_decide (leaf_page_size l = Size4k).
Proof using PL.
  case_bool_decide as H.
  - by apply law_leaf, law_bottom.
  - destruct (is_leaf l) eqn:E; [|done]. by apply law_leaf, law_bottom in E.
Qed.

Lemma get_mapped_4k_leaf_spec self m pages va :
  pt_state self m pages →
  match leaf_4k (lookup self m va) with
  | Some pa => ∃ e, PageTableInner.get_mapped_4k_leaf self va m = Returns (Ok e, m) ∧
      LeafPte.page_addr m e = Returns pa ∧
      ∀ m', m' = LeafPte.invalidate e m →
        InvalidatedPte.page_addr m' e = Returns pa ∧ pt_state self m' pages ∧
        updated self m m' Size4k va (idle Size4k pa)
  | None => ∃ e, PageTableInner.get_mapped_4k_leaf self va m = Returns (Err e, m)
  end.
Proof using PL.
  intros Hst. destruct (walk_lookup self m pages va Hst) as (T & e & Hwf & Hf & He & Hw & Hl & Hnt & Hu & Hal).
  unfold PageTableInner.get_mapped_4k_leaf. erewrite bind_ok by done. rewrite Hw. erewrite bind_ok by done.
  destruct (pkind_invalidate _ Hu) as (Huu & Hup & Hk1).
  destruct (pkind (read_pte m (TableEntryMut.pte e))) eqn:Hk; cbn [mapping_of] in Hl; rewrite Hl;
    cbn [typed leaf_4k]; try done; try (by eexists).
  rewrite is_leaf_4k. destruct (leaf_page_size (TableEntryMut.level e)) eqn:Hsz; cbn [bool_decide];
    try (rewrite bool_decide_false by done; by eexists).
  rewrite bool_decide_true by done. cbn [negb]. exists e. split; [done|].
  rewrite <-Hsz in Hal. destruct (page_addr_eq m e Hal) as [-> _]. split; [done|]. intros m' ->.
  destruct (modify_leaf_spec self T m pages va e Pte.invalidate Hwf Hf He) as (Hwf' & Hf' & Hl');
    [done|rewrite Hk1 by done; by destruct (_ =? 0)|by rewrite Hup|].
  rewrite Hsz in Hl'. split_and!.
  - destruct (page_addr_eq (LeafPte.invalidate e m) e) as [_ ->];
      unfold LeafPte.invalidate, modify_pte; rewrite read_pte_insert_eq, Hup; done.
  - by exists T.
  - intros va'. unfold LeafPte.invalidate. rewrite Hl'. case_decide; [|done].
    rewrite <-Hup. apply mapping_of_idle. rewrite Hk1 by done. destruct (_ =? 0); tauto.
Qed.

Lemma get_invalidated_4k_leaf_spec self m pages va :
  pt_state self m pages →
  match invalidated_4k (lookup self m va) with
  | Some pa => ∃ e, PageTableInner.get_invalidated_4k_leaf self va m = Returns (Ok e, m) ∧
      InvalidatedPte.page_addr m e = Returns pa ∧
      ∀ m', m' = InvalidatedPte.clear e m → pt_state self m' pages ∧ updated self m m' Size4k va None
  | None => ∃ e, PageTableInner.get_invalidated_4k_leaf self va m = Returns (Err e, m)
  end.
Proof using PL.
  intros Hst. destruct (walk_lookup self m pages va Hst) as (T & e & Hwf & Hf & He & Hw & Hl & Hnt & Hu & Hal).
  unfold PageTableInner.get_invalidated_4k_leaf. erewrite bind_ok by done. rewrite Hw. erewrite bind_ok by done.
  destruct (pkind (read_pte m (TableEntryMut.pte e))) eqn:Hk; cbn [mapping_of] in Hl; rewrite Hl;
    cbn [typed invalidated_4k]; try done; try (by eexists).
  rewrite is_leaf_4k. destruct (leaf_page_size (TableEntryMut.level e)) eqn:Hsz; cbn [bool_decide];
    try (rewrite bool_decide_false by done; by eexists).
  rewrite bool_decide_true by done. cbn [negb]. exists e. split; [done|].
  rewrite <-Hsz in Hal. destruct (page_addr_eq m e Hal) as [_ ->]. split; [done|]. intros m' ->.
  destruct (modify_leaf_spec self T m pages va e Pte.clear Hwf Hf He) as (Hwf' & Hf' & Hl'); [done..|].
  rewrite Hsz in Hl'. split; [by exists T|exact Hl'].
Qed.
End ops.

(** A table is not affected by writes outside of its footprint. *)
Lemma pt_state_within `{PL : PagingLaws L} {FP : Footprint} (FP' : Footprint) (self : PageTableInner.t L) m m' pages :
  pt_state (FP := FP) self m pages → same_within (FP := FP) m m' →
  (∀ a, @within FP a → @within FP' a) → @spare FP' pages →
  (∀ a, ¬ @within FP' a → read_pte m' a = read_pte (@around FP') a) →
  pt_state (FP := FP') self m' pages ∧ same_translation self m m'.
Proof.
  intros (T & Hwf & Hnd & Hf & [F1 F2 F3 F4]) Hs Hw Hsp Har. pose proof (pt_wf_within (FP := FP) T _ m m' Hwf F1 Hs) as Hwf'. split.
  - exists T. split; [done|]. split; [done|]. split.
    + apply list.Forall_forall. intros p Hp. rewrite list.Forall_forall in Hf. destruct (Hf p Hp) as [H1 H2 H3].
      split; [done..|]. intros i Hi. rewrite Hs; [by apply H3|]. apply (F2 p); [done|lia].
    + split; [|intros p a Hp Ha; by apply Hw, (F2 p)|done|done]. intros b l p a Hb Ha. by eapply Hw, F1.
  - intros va. unfold lookup, PageTableInner.walk.
    change (PageTable.from_root (PageTableInner.root self)) with (PageTable.mk (root_addr self) (root_level (L := L))).
    rewrite (walk_from_within (FP := FP) T (root_addr self) m m' _ _ _ va) by (done || by apply (root_prefix _ T m)).
    destruct (walk_spec self T m va Hwf) as (e & He). pose proof (ws_walk _ _ _ _ _ He) as Hwk. unfold PageTableInner.walk in Hwk.
    change (PageTable.from_root (PageTableInner.root self)) with (PageTable.mk (root_addr self) (root_level (L := L))) in Hwk.
    rewrite Hwk, entry_of_typed. unfold mapping_at. rewrite Hs; [done|]. destruct (ws_slot _ _ _ _ _ He) as (b & Hb & ->).
    pose proof (table_bytes _ _ (index_range va (TableEntryMut.level e))). eapply F1; [exact Hb|lia].
Qed.

(** What a state says about the memory around the table and the pages left. *)
Lemma pt_state_frame `{PL : PagingLaws L} {FP : Footprint} (self : PageTableInner.t L) m pages :
  pt_state self m pages → spare pages ∧ NoDup (Page.addr <$> pages) ∧
  (∀ a, ¬ within a → read_pte m a = read_pte around a) ∧
  ∀ p a, p ∈ pages → Page.addr p ≤ a < Page.addr p + 4096 → within a.
Proof. intros (T & _ & Hnd & _ & [F1 F2 F3 F4]). done. Qed.

(** A zeroed page outside the footprint becomes available for tables. *)
Lemma pt_state_extend `{PL : PagingLaws L} {FP : Footprint} (FP' : Footprint) (self : PageTableInner.t L) m pages p :
  pt_state (FP := FP) self m pages →
  0 < Page.addr p → Page.addr p mod 4096 = 0 → Page.addr p + 4096 ≤ 2 ^ 56 →
  (∀ i, 0 ≤ i < 512 → read_pte m (Page.addr p + i * 8) = 0) →
  (∀ a, Page.addr p ≤ a < Page.addr p + 4096 → ¬ @within FP a ∧ @within FP' a) →
  (∀ a, @within FP a → @within FP' a) → @spare FP' (pages ++ [p]) →
  (∀ a, ¬ @within FP' a → read_pte m a = read_pte (@around FP') a) →
  pt_state (FP := FP') self m (pages ++ [p]).
Proof.
  intros (T & Hwf & Hnd & Hf & [F1 F2 F3 F4]) H0 Hal Hb Hz Hin Hw Hsp Har. exists T. split; [done|].
  assert (Hnew : Page.addr p ∉ Page.addr <$> pages).
  { intros (q & E & Hq)%list_elem_of_fmap. destruct (Hin (Page.addr p) ltac:(lia)) as [[] _]. apply (F2 q _ Hq). lia. }
  split_and!.
  - rewrite fmap_app. apply list.NoDup_app. split_and!; [done| |apply NoDup_singleton]. set_solver.
  - apply list.Forall_app. split; [done|]. apply list.Forall_singleton. split; [done| |done].
    intros b l n Hbl. destruct (pw_table _ _ _ Hwf _ _ _ Hbl) as (_ & Hbm & _).
    destruct (Z.le_gt_cases (Page.addr p + 4096) b); [by left|]. right.
    destruct (Z.le_gt_cases (b + table_size l) (Page.addr p)); [done|]. exfalso.
    apply (Hin (Z.max b (Page.addr p))); [lia|]. apply (F1 b l n); [done|]. split; [lia|].
    apply Z.max_lub_lt; [|lia]. unfold table_size. pose proof (law_pages l). pose proof (law_width l).
    pose proof (Z.pow_pos_nonneg 2 (addr_width l)). lia.
  - split; [intros b l n a Hbl Ha; by eapply Hw, F1| |done|done].
    intros q a [Hq|Hq%list_elem_of_singleton]%elem_of_app Ha; [by eapply Hw, F2|]. subst q. by apply Hin.
Qed.
