(* ===== verification/GuestTableFacts.v ===== *)
(** * Theorems about guest-stage page tables

    Range operations on guest page tables: preparing a range for mapping either
    locks every page of it or leaves the translation as it was, a mapper can map
    each page of its range, and invalidating or unmapping a range is
    all-or-nothing. *)
From S2P Require Import Prelude RiscvPages MemMap PageInfoModel PageMapModel HypAlloc Tracker Pte PteFacts PageTableModel PageTableFacts PageTableOps.
Import PageSize(Size4k).
Import PtError.

(** Draining an iterator whose [next] works through a list of addresses. *)
Fixpoint drain_iter {S E} (next : list Z → M S E (option Z * list Z)) (fuel : nat) (vas : list Z)
    : M S E (list Z) :=
  match fuel with
  | O => mret []
  | S k =>
      '(o, rest) ← next vas;
      match o with
      | None => mret []
      | Some a => l ← drain_iter next k rest; mret (a :: l)
      end
  end.

(** A loop of checks that do not change the state. *)
Lemma for_each_check {S E} (P : Z → Prop) (f : Z → M S E unit) (s : S) vas :
  (∀ va, va ∈ vas → ∃ r, f va s = Returns (r, s) ∧ (is_ok r = true ↔ P va)) →
  ∃ r, for_each vas f s = Returns (r, s) ∧
    match r with Ok _ => ∀ va, va ∈ vas → P va | Err _ => ∃ va, va ∈ vas ∧ ¬ P va end.
Proof.
  induction vas as [|va vas IH]; intros H.
  { exists (Ok tt). split; [done|]. intros va []%elem_of_nil. }
  cbn [for_each]. destruct (H va ltac:(by left)) as ([[]|e] & Hf & HP).
  - destruct IH as (r & Hr & Hp); [intros va' Hin; apply H; by right|].
    exists r. split; [by erewrite bind_ok by exact Hf|]. destruct r as [[]|e].
    + intros va' [->|Hin]%elem_of_cons; [by apply HP|by apply Hp].
    + destruct Hp as (va' & Hin & Hn). exists va'. split; [by right|done].
  - exists (Err e). split; [by erewrite bind_err by exact Hf|]. exists va. split; [by left|].
    intros HPv. apply HP in HPv. done.
Qed.

Section guest.
Context {L : Type} {PM : PagingMode L} {PL : PagingLaws L} {FP : Footprint}.
Implicit Types (self : PageTableInner.t L) (pt : GuestStagePageTable.t L) (m : mem) (pages : list Page.t).

Abbreviation page_no := (leaf_no L Size4k).

(** ** Pages of a range *)
Lemma leaf_no_coarser s va va' : page_no va = page_no va' → leaf_no L s va = leaf_no L s va'.
Proof.
  unfold leaf_no. intros H. cbn [PageSize.bytes] in H.
  assert (Hs : ∃ k, 0 < k ∧ PageSize.bytes s = 4096 * k)
    by (destruct s; [exists 1|exists 512|exists 262144|exists 134217728]; cbn; lia).
  destruct Hs as (k & Hk & ->). rewrite <-!Z.div_div by lia. by rewrite H.
Qed.

Lemma lookup_same_page self m pages va va' :
  pt_state self m pages → page_no va' = page_no va → lookup self m va' = lookup self m va.
Proof using PL.
  intros (T & Hwf & _) Hp. destruct (walk_spec self T m va Hwf) as (e & He).
  assert (walk_slot self T m va' e) as He'.
  { apply (walk_slot_same self T m va); [done..|]. rewrite !vpn_leaf_no. by apply leaf_no_coarser. }
  by rewrite (ws_lookup _ _ _ _ _ He), (ws_lookup _ _ _ _ _ He').
Qed.

Definition covered (vas : list Z) (va : Z) : Prop := page_no va ∈ page_no <$> vas.
#[export] Instance covered_dec vas va : Decision (covered vas va).
Proof. unfold covered. apply _. Defined.

(** [m'] differs from [m] by [g] on the pages of [vas]. *)
Definition mapped_over self m m' (vas : list Z) (g : option mapping → option mapping) : Prop :=
  ∀ va, lookup self m' va = if decide (covered vas va) then g (lookup self m va) else lookup self m va.

Lemma mapped_over_nil self m g : mapped_over self m m [] g.
Proof. intros va. rewrite decide_False; [done|]. unfold covered. apply not_elem_of_nil. Qed.

Lemma covered_cons va vas va' : covered (va :: vas) va' ↔ page_no va' = page_no va ∨ covered vas va'.
Proof. unfold covered. rewrite fmap_cons, elem_of_cons. done. Qed.
Lemma covered_app vas vas' va : covered (vas ++ vas') va ↔ covered vas va ∨ covered vas' va.
Proof. unfold covered. by rewrite fmap_app, elem_of_app. Qed.
Lemma covered_in va vas : va ∈ vas → covered vas va.
Proof. apply list_elem_of_fmap_2. Qed.

Lemma mapped_over_in self m m' vas g va :
  mapped_over self m m' vas g → va ∈ vas → lookup self m' va = g (lookup self m va).
Proof. intros Hm Hin. rewrite Hm. by rewrite decide_True by by apply covered_in. Qed.

(** Two stretches of pages, one after the other. *)
Lemma mapped_over_app self m1 m2 m3 vas vas' g :
  NoDup (page_no <$> vas ++ vas') →
  mapped_over self m1 m2 vas g → mapped_over self m2 m3 vas' g → mapped_over self m1 m3 (vas ++ vas') g.
Proof.
  intros Hnd H1 H2 va. rewrite H2, H1. rewrite fmap_app in Hnd. apply list.NoDup_app in Hnd as (_ & Hd & _).
  destruct (decide (covered vas' va)) as [Hc'|Hc'].
  - rewrite decide_False by (intros Hc; by apply (Hd _ Hc)).
    rewrite decide_True by (apply covered_app; tauto). done.
  - destruct (decide (covered vas va)) as [Hc|Hc].
    + by rewrite decide_True by (apply covered_app; tauto).
    + rewrite decide_False by (rewrite covered_app; tauto). done.
Qed.

Lemma updated_mapped_over self m m' pages va g :
  pt_state self m pages → updated self m m' Size4k va (g (lookup self m va)) → mapped_over self m m' [va] g.
Proof using PL.
  intros Hst Hu va'. rewrite Hu. case_decide as Hd.
  - rewrite decide_True by (apply covered_cons; by left). by rewrite (lookup_same_page self m pages va va').
  - rewrite decide_False; [done|]. rewrite covered_cons. intros [?|Hc]; [done|]. by apply elem_of_nil in Hc.
Qed.

Lemma mapped_over_same self m m' vas g va :
  mapped_over self m m' vas g → ¬ covered vas va → lookup self m' va = lookup self m va.
Proof. intros H Hn. rewrite H. by rewrite decide_False. Qed.

Lemma not_covered_tail va vas vas' :
  NoDup (page_no <$> vas ++ va :: vas') → ¬ covered vas va ∧ ¬ covered vas' va.
Proof.
  rewrite fmap_app, fmap_cons. intros (_ & Hd & Hnd)%list.NoDup_app. apply list.NoDup_cons in Hnd as [Hn _].
  split; [|done]. intros Hc. apply (Hd _ Hc). by left.
Qed.

Lemma not_covered_take vas k i va :
  NoDup (page_no <$> vas) → vas !! i = Some va → (k ≤ i)%nat → ¬ covered (take k vas) va.
Proof.
  intros Hnd Hi Hk Hc. unfold covered in Hc. rewrite fmap_take in Hc.
  apply list_elem_of_lookup in Hc as [j Hj]. apply lookup_take_Some in Hj as [Hj Hlt].
  assert (i = j); [|lia]. eapply NoDup_lookup; [exact Hnd| |exact Hj]. by rewrite list_lookup_fmap, Hi.
Qed.

Lemma omap_unaffected self m m1 va vas g (f : option mapping → option Z) :
  mapped_over self m m1 [va] g → ¬ covered vas va →
  omap (λ v, f (lookup self m1 v)) vas = omap (λ v, f (lookup self m v)) vas.
Proof.
  intros Hm Hnc. apply list_omap_ext, Forall2_same_length_lookup_2; [done|].
  intros i x y Hx Hy. rewrite Hx in Hy. simplify_eq. f_equal. eapply mapped_over_same; [exact Hm|].
  rewrite covered_cons. intros [Heq|Hc]; [|by apply elem_of_nil in Hc].
  apply Hnc. unfold covered. rewrite <-Heq. apply list_elem_of_fmap_2. by apply list_elem_of_lookup_2 in Hx.
Qed.

(** The pages of a range that does not wrap around the table are distinct. *)
Lemma page_no_inj a i j :
  a mod 4096 = 0 → 0 ≤ i < j → j * 4096 < i * 4096 + 2 ^ abits L →
  page_no (a + i * 4096) ≠ page_no (a + j * 4096).
Proof using PL.
  intros Ha Hij Hb. unfold leaf_no, norm. cbn [PageSize.bytes].
  assert (Hk : ∃ k, 0 < k ∧ 2 ^ abits L = k * 4096).
  { exists (2 ^ (abits L - 12)). unfold abits. pose proof (law_width (root_level (L := L))).
    split; [apply Z.pow_pos_nonneg; lia|]. change 4096 with (2 ^ 12). rewrite <-Z.pow_add_r by lia. f_equal. lia. }
  destruct Hk as (k & Hk & Hab). rewrite Hab in *.
  assert (∃ q, a = q * 4096) as (q & ->) by (exists (a / 4096); mod_lia).
  rewrite <-!Z.mul_add_distr_r. rewrite !Zmult_mod_distr_r, !Z.div_mul by lia. intros Heq.
  assert ((q + j - (q + i)) mod k = 0) as Hm by (rewrite Zminus_mod, Heq, Z.sub_diag; apply Z.mod_0_l; lia).
  rewrite Z.mod_small in Hm by lia. lia.
Qed.

Lemma range_NoDup a n :
  a mod 4096 = 0 → Z.of_nat n * 4096 ≤ 2 ^ abits L → NoDup (page_no <$> page_seq a Size4k n).
Proof using PL.
  intros Ha Hn. apply NoDup_alt. intros i j x Hi Hj. rewrite list_lookup_fmap in Hi, Hj.
  apply fmap_Some in Hi as (y & Hy & ->). apply fmap_Some in Hj as (z & Hz & Heq).
  pose proof (lookup_lt_Some _ _ _ Hy) as Hil. pose proof (lookup_lt_Some _ _ _ Hz) as Hjl.
  rewrite length_page_seq in Hil, Hjl.
  rewrite lookup_page_seq in Hy, Hz by done. cbn [PageSize.bytes] in Hy, Hz. simplify_eq.
  destruct (Nat.lt_trichotomy i j) as [Hlt|[->|Hlt]]; [|done|]; exfalso.
  - by apply (page_no_inj a (Z.of_nat i) (Z.of_nat j) Ha ltac:(lia) ltac:(lia)).
  - by apply (page_no_inj a (Z.of_nat j) (Z.of_nat i) Ha ltac:(lia) ltac:(lia)).
Qed.

(** ** Dropping a mapper *)
Definition only_4k self m (va : Z) : Prop := ∀ x, lookup self m va = Some x → mp_size x = Size4k.

Lemma unlock_all_spec self m pages vas :
  pt_state self m pages → NoDup (page_no <$> vas) → Forall (only_4k self m) vas →
  ∃ m', GuestStageMapper.unlock_all self vas m = Returns (Ok tt, m') ∧ pt_state self m' pages ∧
    mapped_over self m m' vas unlocked.
Proof using PL.
  revert m. induction vas as [|va vas IH]; intros m Hst Hnd H4k.
  { exists m. split_and!; [done|done|apply mapped_over_nil]. }
  cbn [GuestStageMapper.unlock_all]. apply list.Forall_cons in H4k as [Hva H4k].
  destruct (unlock_leaf_spec self m pages va Hst) as (m1 & -> & Hst1 & Hu).
  assert (Hm1 : mapped_over self m m1 [va] unlocked).
  { apply (updated_mapped_over _ _ _ pages); [done|].
    destruct (lookup self m va) as [x|] eqn:Hx; [by rewrite (Hva x Hx) in Hu|]. subst m1.
    intros va'. case_decide as Hd; [|done]. by rewrite (lookup_same_page self m pages va va'). }
  destruct (not_covered_tail va [] vas Hnd) as [_ Hn]. cbn in Hnd. apply list.NoDup_cons in Hnd as Hnd'.
  destruct (IH m1 Hst1) as (m2 & -> & Hst2 & Hm2); [apply Hnd'| |].
  { apply list.Forall_forall. intros va' Hin x Hx. rewrite list.Forall_forall in H4k.
    apply (H4k va' Hin). rewrite <-Hx. symmetry. eapply mapped_over_same; [exact Hm1|].
    rewrite covered_cons. intros [Heq|Hc]; [|by apply elem_of_nil in Hc].
    apply Hn. unfold covered. rewrite <-Heq. by apply list_elem_of_fmap_2. }
  exists m2. split_and!; [done..|]. change (va :: vas) with ([va] ++ vas).
  by apply (mapped_over_app _ _ m1).
Qed.

(** ** Preparing a range for mapping *)
Definition is_idle (x : option mapping) : Prop := ∃ pa, x = idle Size4k pa.
Definition lock_idle (x : option mapping) : option mapping :=
  match x with
  | None => Some (Mapping KLockedUnmapped Size4k 0)
  | Some (Mapping KInvalidated s pa) => Some (Mapping KLockedUnmapped s pa)
  | _ => x
  end.

Lemma lock_idle_eq pa : lock_idle (idle Size4k pa) = Some (Mapping KLockedUnmapped Size4k pa).
Proof. unfold idle. by destruct (Z.eqb_spec pa 0) as [->|]. Qed.
Lemma unlocked_lock_idle x : is_idle x → unlocked (lock_idle x) = x.
Proof. intros [pa ->]. by rewrite lock_idle_eq. Qed.

(** What stands in the way of a mapping: no page for a table, or an entry in use. *)
Definition map_error self m (pages' : list Page.t) (vas : list Z) (e : PtError.t) : Prop :=
  (e = InsufficientPtePages ∧ pages' = []) ∨
  ∃ va x, va ∈ vas ∧ lookup self m va = Some x ∧ (mp_kind x ≠ KInvalidated ∨ mp_size x ≠ Size4k).

Lemma lock_4k_spec self m pages va :
  pt_state self m pages →
  ∃ r m' pages', PageTableInner.lock_leaf_for_mapping self va Size4k (m, pages) = Returns (r, (m', pages')) ∧
    pt_state self m' pages' ∧
    match r with
    | Ok _ => is_idle (lookup self m va) ∧ mapped_over self m m' [va] lock_idle
    | Err e => same_translation self m m' ∧ map_error self m pages' [va] e
    end.
Proof using PL.
  intros Hst. destruct (lock_leaf_for_mapping_spec self m pages va Size4k Hst) as (r & m' & pages' & Hr & Hst' & Hp).
  exists r, m', pages'. split_and!; [done..|]. destruct r as [[]|e].
  - destruct Hp as (pa & Hpa & Hl). split; [by exists pa|].
    apply (updated_mapped_over _ _ _ pages); [done|]. rewrite Hpa, lock_idle_eq. exact Hl.
  - destruct Hp as [Hs He]. split; [done|]. destruct e; try (by left); try done; right;
      destruct He as (x & Hx & ?); exists va, x; (split; [by left|done]).
Qed.

Lemma same_translation_error self m m1 pages' vas e :
  same_translation self m m1 → map_error self m1 pages' vas e → map_error self m pages' vas e.
Proof. intros Hs [?|(va & x & ? & Hx & ?)]; [by left|right]. exists va, x. by rewrite <-Hs. Qed.

Definition map_post self m m' (pages' : list Page.t) (va0 : Z) (vas : list Z)
    (r : result PtError.t GuestStageMapper.t) : Prop :=
  match r with
  | Ok mapper => mapper = GuestStageMapper.mk va0 (Z.of_nat (length vas)) ∧
      Forall (λ va, is_idle (lookup self m va)) vas ∧ mapped_over self m m' vas lock_idle
  | Err e => same_translation self m m' ∧ map_error self m pages' vas e
  end.

Section map_loop.
Variables (pt : GuestStagePageTable.t L) (va0 : Z) (m0 : mem) (pages0 : list Page.t).
Abbreviation inner := (GuestStagePageTable.inner pt).
Hypothesis Hva0 : 0 ≤ va0 ∧ va0 mod 4096 = 0.
Hypothesis Hst0 : pt_state inner m0 pages0.

(** Dropping the mapper of the pages locked so far restores the translation. *)
Lemma drop_restores pages m m1 k :
  pt_state inner m1 pages → same_translation inner m m1 →
  va0 + Z.of_nat k * 4096 ≤ U64 → NoDup (page_no <$> page_seq va0 Size4k k) →
  Forall (λ va, is_idle (lookup inner m0 va)) (page_seq va0 Size4k k) →
  mapped_over inner m0 m (page_seq va0 Size4k k) lock_idle →
  ∃ m2, GuestStageMapper.drop_ inner (GuestStageMapper.mk va0 (Z.of_nat k)) m1 = Returns (Ok tt, m2) ∧
    pt_state inner m2 pages ∧ same_translation inner m0 m2.
Proof using PL Hva0 Hst0.
  intros Hst1 Hs Hb Hnd Hidle Hm. unfold GuestStageMapper.drop_. cbn [GuestStageMapper.vaddr GuestStageMapper.num_pages].
  rewrite iter_from_take_run by lia. rewrite Nat2Z.id. erewrite bind_ok by done.
  rewrite list.Forall_forall in Hidle.
  destruct (unlock_all_spec inner m1 pages (page_seq va0 Size4k k)) as (m2 & Hu & Hst2 & Hm2); [done..| |].
  { apply list.Forall_forall. intros va Hin x. rewrite Hs, (mapped_over_in _ _ _ _ _ _ Hm Hin).
    destruct (Hidle va Hin) as [pa ->]. rewrite lock_idle_eq. by intros [= <-]. }
  exists m2. split_and!; [done..|]. intros va. rewrite Hm2, Hs, Hm. case_decide as Hc; [|done].
  apply unlocked_lock_idle. unfold covered in Hc. apply list_elem_of_fmap in Hc as (va' & Heq & Hin).
  destruct (Hidle va' Hin) as [pa Hpa]. exists pa. by rewrite (lookup_same_page inner m0 pages0 va' va Hst0).
Qed.

Lemma map_loop_spec todo k m pages :
  todo = page_seq (va0 + Z.of_nat k * 4096) Size4k (length todo) →
  let vas := page_seq va0 Size4k (k + length todo) in
  pt_state inner m pages → va0 + Z.of_nat (k + length todo) * 4096 ≤ U64 → NoDup (page_no <$> vas) →
  Forall (λ va, is_idle (lookup inner m0 va)) (page_seq va0 Size4k k) →
  mapped_over inner m0 m (page_seq va0 Size4k k) lock_idle →
  ∃ r m' pages', GuestStagePageTable.map_loop pt Size4k todo (GuestStageMapper.mk va0 (Z.of_nat k)) (m, pages)
      = Returns (r, (m', pages')) ∧
    pt_state inner m' pages' ∧ map_post inner m0 m' pages' va0 vas r.
Proof using PL Hva0 Hst0.
  revert k m pages. induction todo as [|va todo IH]; intros k m pages Htodo vas Hst Hb Hnd Hidle Hm.
  { exists (Ok (GuestStageMapper.mk va0 (Z.of_nat k))), m, pages. split_and!; [done..|].
    unfold vas. cbn [length]. rewrite Nat.add_0_r. cbn. by rewrite length_page_seq. }
  cbn [GuestStagePageTable.map_loop]. cbn [length page_seq] in Htodo. injection Htodo as Hva Htodo.
  assert (Hsplit : vas = page_seq va0 Size4k k ++ va :: todo).
  { unfold vas. cbn [length]. rewrite page_seq_app. cbn [page_seq PageSize.bytes] in *. congruence. }
  assert (HSk : page_seq va0 Size4k (S k) = page_seq va0 Size4k k ++ [va]).
  { rewrite <-Nat.add_1_r, page_seq_app. cbn [page_seq PageSize.bytes]. by rewrite Hva. }
  destruct (not_covered_tail va (page_seq va0 Size4k k) todo) as [Hnc _]; [by rewrite <-Hsplit|].
  assert (Hnd1 : NoDup (page_no <$> page_seq va0 Size4k k ++ [va])).
  { rewrite Hsplit, cons_middle, app_assoc, fmap_app in Hnd. by apply list.NoDup_app in Hnd as [? _]. }
  destruct (lock_4k_spec inner m pages va Hst) as (r & m1 & pages1 & -> & Hst1 & Hr).
  destruct r as [[]|e].
  - destruct Hr as [Hid Hm1].
    cbn [GuestStageMapper.vaddr GuestStageMapper.num_pages]. unfold wrap64. cbn [length] in Hb. rewrite Z.mod_small by lia.
    replace (Z.of_nat k + 1) with (Z.of_nat (S k)) by lia.
    destruct (IH (S k) m1 pages1) as (r & m2 & pages2 & Heq & Hst2 & Hp2).
    + rewrite Htodo at 1. f_equal. cbn [PageSize.bytes]. lia.
    + done.
    + lia.
    + replace (S k + length todo)%nat with (k + length (va :: todo))%nat by (cbn; lia). done.
    + rewrite HSk. apply list.Forall_app. split; [done|]. constructor; [|done].
      by rewrite <-(mapped_over_same _ _ _ _ _ _ Hm Hnc).
    + rewrite HSk. by apply (mapped_over_app _ _ m).
    + replace (S k + length todo)%nat with (k + length (va :: todo))%nat in Hp2 by (cbn; lia).
      by exists r, m2, pages2.
  - destruct Hr as [Hs He]. unfold on_mem.
    destruct (drop_restores pages1 m m1 k) as (m2 & -> & Hst2 & Hs2); try done.
    + cbn [length] in Hb. lia.
    + rewrite fmap_app in Hnd1. by apply list.NoDup_app in Hnd1 as [? _].
    + exists (Err e), m2, pages1. split_and!; [done..|]. split; [done|].
      destruct He as [?|(va' & x & Hin & Hx & ?)]; [by left|right].
      apply list_elem_of_singleton in Hin as ->. exists va, x. split_and!; [|by rewrite <-(mapped_over_same _ _ _ _ _ _ Hm Hnc)|done].
      rewrite Hsplit. set_solver.
Qed.
End map_loop.

Lemma map_range_spec_aux pt m pages va0 n :
  pt_state (GuestStagePageTable.inner pt) m pages →
  0 ≤ va0 → va0 mod 4096 = 0 → 0 ≤ n → va0 + n * 4096 ≤ U64 → n * 4096 ≤ 2 ^ abits L →
  ∃ r m' pages', GuestStagePageTable.map_range pt va0 Size4k n (m, pages) = Returns (r, (m', pages')) ∧
    pt_state (GuestStagePageTable.inner pt) m' pages' ∧
    map_post (GuestStagePageTable.inner pt) m m' pages' va0 (page_seq va0 Size4k (Z.to_nat n)) r.
Proof using PL.
  intros Hst H0 Ha Hn Hb Hab. unfold GuestStagePageTable.map_range. cbn [PageSize.is_huge].
  rewrite iter_from_take_run by lia. erewrite bind_ok by done.
  pose proof (map_loop_spec pt va0 m pages (conj H0 Ha) Hst (page_seq va0 Size4k (Z.to_nat n)) 0 m pages) as Hl.
  rewrite length_page_seq in Hl. cbn [Nat.add Z.of_nat] in Hl. apply Hl; clear Hl; try done.
  all: first [apply mapped_over_nil|apply range_NoDup; [done|lia]|lia|f_equal; lia].
Qed.

(** ** Mapping pages with a mapper *)
Definition map_pages pt (mapper : GuestStageMapper.t) (vas : list Z) (ps : list Page.t) : M mem PtError.t unit :=
  for_each (zip vas ps) (λ '(va, p), GuestStageMapper.map_page (GuestStagePageTable.inner pt) mapper va p).

Definition mappable (p : Page.t) : Prop :=
  Page.size p = Size4k ∧ Page.addr p mod 4096 = 0 ∧ 0 ≤ Page.addr p < 2 ^ 56.

Definition in_mapper (mapper : GuestStageMapper.t) (va : Z) : Prop :=
  0 ≤ GuestStageMapper.vaddr mapper ∧ GuestStageMapper.vaddr mapper mod 4096 = 0 ∧
  GuestStageMapper.vaddr mapper ≤ va < GuestStageMapper.vaddr mapper + GuestStageMapper.num_pages mapper * 4096 ∧
  GuestStageMapper.vaddr mapper + GuestStageMapper.num_pages mapper * 4096 < U64.

Lemma check_page_ok mapper va p m :
  in_mapper mapper va → mappable p → GuestStageMapper.check_page mapper va p m = Returns (Ok tt, m).
Proof.
  intros (H0 & Hal & Hr & Hb) (Hs & _ & _). unfold GuestStageMapper.check_page. rewrite Hs. cbn [PageSize.is_huge].
  assert (PageAddr.checked_add_pages (GuestStageMapper.vaddr mapper) (GuestStageMapper.num_pages mapper)
    = Some (GuestStageMapper.vaddr mapper + GuestStageMapper.num_pages mapper * 4096)) as ->.
  { apply (checked_add_pages_spec _ _ Size4k); cbn; [done|]. lia. }
  erewrite bind_ok by done.
  destruct (Z.ltb_spec va (GuestStageMapper.vaddr mapper)); [lia|].
  destruct (Z.leb_spec (GuestStageMapper.vaddr mapper + GuestStageMapper.num_pages mapper * 4096) va); [lia|]. done.
Qed.

Lemma rwx_perms :
  let perms := PteFieldBits.user_leaf_with_perms PteLeafPerms.RWX in
  0 ≤ perms < 2 ^ 10 ∧ Pte.leaf perms = true ∧ Pte.locked perms = false.
Proof. done. Qed.

Lemma map_page_ok pt mapper m pages va p old :
  pt_state (GuestStagePageTable.inner pt) m pages → in_mapper mapper va → mappable p →
  lookup (GuestStagePageTable.inner pt) m va = Some (Mapping KLockedUnmapped Size4k old) →
  ∃ m', GuestStageMapper.map_page (GuestStagePageTable.inner pt) mapper va p m = Returns (Ok tt, m') ∧
    pt_state (GuestStagePageTable.inner pt) m' pages ∧
    updated (GuestStagePageTable.inner pt) m m' Size4k va (Some (Mapping KLeaf Size4k (Page.addr p))).
Proof using PL.
  intros Hst Hin Hp Hl. unfold GuestStageMapper.map_page. erewrite bind_ok by by apply check_page_ok.
  destruct Hp as (Hs & Hal & Hphys). destruct rwx_perms as (Hp1 & Hp2 & Hp3).
  destruct (map_leaf_spec _ m pages va (Page.addr p) (Page.size p) _ Hst Hphys Hp1 Hp2 Hp3) as (m' & Heq & Hst' & Hu).
  rewrite Hl, Hs in Heq, Hu. cbn [map_result] in Heq, Hu. rewrite bool_decide_true in Heq, Hu by done.
  assert (PageAddr.is_aligned (Page.addr p) Size4k = true) as Hal' by by apply is_aligned_true.
  rewrite Hal' in Heq, Hu. cbn [negb is_ok] in Heq, Hu. rewrite Hs. by exists m'.
Qed.

Definition mapped_zip self m m' (vas : list Z) (ps : list Page.t) : Prop :=
  (∀ i va p, vas !! i = Some va → ps !! i = Some p →
     lookup self m' va = Some (Mapping KLeaf Size4k (Page.addr p))) ∧
  ∀ va, ¬ covered (take (length ps) vas) va → lookup self m' va = lookup self m va.

Lemma map_pages_ok pt mapper vas ps m pages :
  pt_state (GuestStagePageTable.inner pt) m pages → NoDup (page_no <$> vas) → (length ps ≤ length vas)%nat →
  Forall (λ va, in_mapper mapper va ∧
    ∃ old, lookup (GuestStagePageTable.inner pt) m va = Some (Mapping KLockedUnmapped Size4k old)) vas →
  Forall mappable ps →
  ∃ m', map_pages pt mapper vas ps m = Returns (Ok tt, m') ∧ pt_state (GuestStagePageTable.inner pt) m' pages ∧
    mapped_zip (GuestStagePageTable.inner pt) m m' vas ps.
Proof using PL.
  revert vas m. induction ps as [|p ps IH]; intros vas m Hst Hnd Hlen Hvas Hps.
  { exists m. split_and!; [by destruct vas|done|]. split; done. }
  destruct vas as [|va vas]; cbn [length] in Hlen; [lia|].
  apply list.Forall_cons in Hvas as [[Hin [old Hold]] Hvas]. apply list.Forall_cons in Hps as [Hp Hps].
  destruct (map_page_ok pt mapper m pages va p old Hst Hin Hp Hold) as (m1 & Heq & Hst1 & Hu).
  destruct (not_covered_tail va [] vas Hnd) as [_ Hnc]. cbn in Hnd. apply list.NoDup_cons in Hnd as [Hn Hnd].
  assert (Hne : ∀ va', va' ∈ vas → page_no va' ≠ page_no va).
  { intros va' Hin' E. apply Hn. rewrite <-E. by apply list_elem_of_fmap_2. }
  destruct (IH vas m1 Hst1 Hnd ltac:(lia)) as (m2 & Heq2 & Hst2 & Hz1 & Hz2); [|done|].
  { rewrite list.Forall_forall in Hvas |- *. intros va' Hin'. destruct (Hvas va' Hin') as [? [o Ho]].
    split; [done|]. exists o. rewrite Hu, decide_False by by apply Hne. done. }
  exists m2. split_and!; [unfold map_pages; cbn [zip_with for_each]; by erewrite bind_ok by exact Heq|done|]. split.
  - intros [|i] va' p' Hva' Hp'; cbn in Hva', Hp'; simplify_eq; [|by eapply Hz1].
    rewrite Hz2; [|intros Hc; apply Hnc; unfold covered in *; rewrite <-(take_drop (length ps) vas), fmap_app;
      apply elem_of_app; by left].
    by rewrite Hu, decide_True.
  - intros va' Hc. cbn [length take] in Hc. rewrite covered_cons in Hc.
    rewrite Hz2 by tauto. rewrite Hu, decide_False by tauto. done.
Qed.

(** ** Range operations *)
Section range.
Variables (pt : GuestStagePageTable.t L) (pages : list Page.t).
Abbreviation inner := (GuestStagePageTable.inner pt).

Lemma range_addrs_eq m va0 len :
  0 ≤ va0 → va0 mod 4096 = 0 →
  GuestStagePageTable.range_addrs va0 len m =
  if va0 + PageSize.num_4k_pages len * 4096 <? U64
  then Returns (Ok (page_seq va0 Size4k (Z.to_nat (PageSize.num_4k_pages len))), m)
  else Returns (Err AddressOverflow, m).
Proof.
  intros H0 Hal. unfold GuestStagePageTable.range_addrs.
  assert (Hn : 0 ≤ PageSize.num_4k_pages len).
  { unfold PageSize.num_4k_pages. apply Z.div_pos; [|done].
    unfold wrap64. pose proof (Z.mod_pos_bound (len + PageSize.bytes Size4k - 1) U64). lia. }
  unfold PageAddr.checked_add_pages.
  destruct (Z.ltb_spec (va0 + PageSize.num_4k_pages len * 4096) U64) as [Hb|Hb].
  - assert (PageAddr.checked_add_pages_with_size va0 (PageSize.num_4k_pages len) Size4k
      = Some (va0 + PageSize.num_4k_pages len * 4096)) as ->.
    { apply checked_add_pages_spec; cbn; [done|]. lia. }
    erewrite bind_ok by done. rewrite iter_from_take_run by lia. done.
  - assert (PageAddr.checked_add_pages_with_size va0 (PageSize.num_4k_pages len) Size4k = None) as ->.
    { apply checked_add_pages_None; cbn; [done..|]. lia. }
    done.
Qed.

Definition invalidate_ok (sparse : bool) (pred : Z → bool) (x : option mapping) : Prop :=
  (∃ pa, leaf_4k x = Some pa ∧ pred pa = true) ∨ (sparse = true ∧ x = None).

Lemma check_invalidate_spec m sparse pred va :
  pt_state inner m pages →
  ∃ r, GuestStagePageTable.check_invalidate pt sparse pred va m = Returns (r, m) ∧
    (is_ok r = true ↔ invalidate_ok sparse pred (lookup inner m va)).
Proof using PL.
  intros Hst. destruct (walk_lookup inner m pages va Hst) as (T & e & Hwf & Hf & He & Hw & Hl & Hnt & Hu & Hal).
  unfold GuestStagePageTable.check_invalidate, invalidate_ok. erewrite bind_ok by done. rewrite Hw.
  erewrite bind_ok by done. rewrite Hl.
  destruct (pkind (read_pte m (TableEntryMut.pte e))) eqn:Hk; cbn [typed mapping_of leaf_4k];
    try (by eexists; split; [done|naive_solver]); try done.
  - destruct sparse; eexists; (split; [done|]); naive_solver.
  - rewrite is_leaf_4k. destruct (page_addr_eq m e Hal) as [Hpe _].
    destruct (leaf_page_size (TableEntryMut.level e)) eqn:Hsz;
      try (rewrite bool_decide_false by done; eexists; split; [done|naive_solver]).
    rewrite bool_decide_true by done. cbn [negb]. rewrite Hpe. erewrite bind_ok by done.
    destruct (pred _) eqn:Hp; cbn [negb]; eexists; (split; [done|]); naive_solver.
Qed.

(** What an invalidation makes of a translation. *)
Definition invalidated (x : option mapping) : option mapping :=
  match leaf_4k x with Some pa => idle Size4k pa | None => x end.

Lemma invalidate_drain vas m fuel :
  pt_state inner m pages → NoDup (page_no <$> vas) → (length vas < fuel)%nat →
  ∃ m', drain_iter (GuestStagePageTable.invalidate_next pt) fuel vas m
      = Returns (Ok (omap (λ va, leaf_4k (lookup inner m va)) vas), m') ∧
    pt_state inner m' pages ∧ mapped_over inner m m' vas invalidated.
Proof using PL.
  revert m fuel. induction vas as [|va vas IH]; intros m fuel Hst Hnd Hfuel;
    (destruct fuel as [|fuel]; [cbn in Hfuel; lia|]).
  { exists m. split_and!; [done|done|apply mapped_over_nil]. }
  destruct (not_covered_tail va [] vas Hnd) as [_ Hnc]. pose proof Hnd as Hnd0.
  cbn in Hnd. apply list.NoDup_cons in Hnd as [Hn Hnd]. cbn [length] in Hfuel.
  pose proof (get_mapped_4k_leaf_spec inner m pages va Hst) as Hg.
  destruct (leaf_4k (lookup inner m va)) as [pa|] eqn:Hlf.
  - destruct Hg as (e & Hge & _ & Hinv). destruct (Hinv _ eq_refl) as (Hpa & Hst1 & Hu).
    assert (Hm1 : mapped_over inner m (LeafPte.invalidate e m) [va] invalidated).
    { apply (updated_mapped_over _ _ _ pages); [done|]. unfold invalidated. by rewrite Hlf. }
    destruct (IH (LeafPte.invalidate e m) fuel Hst1 Hnd ltac:(lia)) as (m2 & Hd & Hst2 & Hm2).
    assert (Hnext : GuestStagePageTable.invalidate_next pt (va :: vas) m
      = Returns (Ok (Some pa, vas), LeafPte.invalidate e m)).
    { cbn [GuestStagePageTable.invalidate_next]. rewrite Hge. by rewrite Hpa. }
    exists m2. split_and!; [|done|change (va :: vas) with ([va] ++ vas); by apply (mapped_over_app _ _ (LeafPte.invalidate e m))].
    cbn [drain_iter]. erewrite bind_ok by exact Hnext. cbv beta iota. erewrite bind_ok by exact Hd.
    cbn [omap list_omap].
    rewrite Hlf. f_equal. by rewrite (omap_unaffected _ _ _ _ _ _ leaf_4k Hm1 Hnc).
  - destruct Hg as (e & Hge). cbn [omap list_omap]. rewrite Hlf.
    destruct (IH m (S fuel) Hst Hnd ltac:(lia)) as (m2 & Hd & Hst2 & Hm2).
    exists m2. split_and!; [|done|].
    + rewrite <-Hd. cbn [drain_iter GuestStagePageTable.invalidate_next].
      unfold mbind at 1, M_bind at 1. rewrite Hge. done.
    + change (va :: vas) with ([va] ++ vas). apply (mapped_over_app _ _ m); [done| |done].
      intros va'. case_decide as Hc; [|done]. apply covered_cons in Hc as [Heq|Hc]; [|by apply elem_of_nil in Hc].
      unfold invalidated. rewrite (lookup_same_page _ _ _ va va' Hst Heq), Hlf. done.
Qed.

Definition unmap_ok (pred : Z → bool) (x : option mapping) : Prop :=
  (∃ pa, invalidated_4k x = Some pa ∧ pred pa = true) ∨ x = None.

Lemma check_unmap_spec m pred va :
  pt_state inner m pages →
  ∃ r, GuestStagePageTable.check_unmap pt pred va m = Returns (r, m) ∧
    (is_ok r = true ↔ unmap_ok pred (lookup inner m va)).
Proof using PL.
  intros Hst. destruct (walk_lookup inner m pages va Hst) as (T & e & Hwf & Hf & He & Hw & Hl & Hnt & Hu & Hal).
  unfold GuestStagePageTable.check_unmap, unmap_ok. erewrite bind_ok by done. rewrite Hw.
  erewrite bind_ok by done. rewrite Hl.
  destruct (pkind (read_pte m (TableEntryMut.pte e))) eqn:Hk; cbn [typed mapping_of invalidated_4k];
    try (by eexists; split; [done|naive_solver]); try done.
  rewrite is_leaf_4k. destruct (page_addr_eq m e Hal) as [_ Hpe].
  destruct (leaf_page_size (TableEntryMut.level e)) eqn:Hsz;
    try (rewrite bool_decide_false by done; eexists; split; [done|naive_solver]).
  rewrite bool_decide_true by done. cbn [negb]. rewrite Hpe. erewrite bind_ok by done.
  destruct (pred _) eqn:Hp; cbn [negb]; eexists; (split; [done|]); naive_solver.
Qed.

Definition cleared (x : option mapping) : option mapping :=
  match invalidated_4k x with Some _ => None | None => x end.

Lemma unmap_drain vas m fuel :
  pt_state inner m pages → NoDup (page_no <$> vas) → (length vas < fuel)%nat →
  ∃ m', drain_iter (GuestStagePageTable.unmap_next pt) fuel vas m
      = Returns (Ok (omap (λ va, invalidated_4k (lookup inner m va)) vas), m') ∧
    pt_state inner m' pages ∧ mapped_over inner m m' vas cleared.
Proof using PL.
  revert m fuel. induction vas as [|va vas IH]; intros m fuel Hst Hnd Hfuel;
    (destruct fuel as [|fuel]; [cbn in Hfuel; lia|]).
  { exists m. split_and!; [done|done|apply mapped_over_nil]. }
  destruct (not_covered_tail va [] vas Hnd) as [_ Hnc]. pose proof Hnd as Hnd0.
  cbn in Hnd. apply list.NoDup_cons in Hnd as [Hn Hnd]. cbn [length] in Hfuel.
  pose proof (get_invalidated_4k_leaf_spec inner m pages va Hst) as Hg.
  destruct (invalidated_4k (lookup inner m va)) as [pa|] eqn:Hlf.
  - destruct Hg as (e & Hge & Hpa & Hinv). destruct (Hinv _ eq_refl) as (Hst1 & Hu).
    assert (Hm1 : mapped_over inner m (InvalidatedPte.clear e m) [va] cleared).
    { apply (updated_mapped_over _ _ _ pages); [done|]. unfold cleared. by rewrite Hlf. }
    destruct (IH (InvalidatedPte.clear e m) fuel Hst1 Hnd ltac:(lia)) as (m2 & Hd & Hst2 & Hm2).
    assert (Hnext : GuestStagePageTable.unmap_next pt (va :: vas) m
      = Returns (Ok (Some pa, vas), InvalidatedPte.clear e m)).
    { cbn [GuestStagePageTable.unmap_next]. rewrite Hge. by rewrite Hpa. }
    exists m2. split_and!; [|done|change (va :: vas) with ([va] ++ vas); by apply (mapped_over_app _ _ (InvalidatedPte.clear e m))].
    cbn [drain_iter]. erewrite bind_ok by exact Hnext. cbv beta iota. erewrite bind_ok by exact Hd.
    cbn [omap list_omap]. rewrite Hlf. f_equal. by rewrite (omap_unaffected _ _ _ _ _ _ invalidated_4k Hm1 Hnc).
  - destruct Hg as (e & Hge). cbn [omap list_omap]. rewrite Hlf.
    destruct (IH m (S fuel) Hst Hnd ltac:(lia)) as (m2 & Hd & Hst2 & Hm2).
    exists m2. split_and!; [|done|].
    + rewrite <-Hd. cbn [drain_iter GuestStagePageTable.unmap_next].
      unfold mbind at 1, M_bind at 1. rewrite Hge. done.
    + change (va :: vas) with ([va] ++ vas). apply (mapped_over_app _ _ m); [done| |done].
      intros va'. case_decide as Hc; [|done]. apply covered_cons in Hc as [Heq|Hc]; [|by apply elem_of_nil in Hc].
      unfold cleared. rewrite (lookup_same_page _ _ _ va va' Hst Heq), Hlf. done.
Qed.
End range.
End guest.

(** ** The state of a new table *)
Lemma pt_state_empty `{PL : PagingLaws L} {FP : Footprint} (root : SequentialPages.t) (pages : list Page.t) :
  0 < SequentialPages.addr root → SequentialPages.addr root mod 4096 = 0 →
  SequentialPages.addr root + table_size (root_level (L := L)) ≤ 2 ^ 56 →
  NoDup (Page.addr <$> pages) →
  Forall (λ p, Page.addr p mod 4096 = 0 ∧ Page.addr p + 4096 ≤ 2 ^ 56 ∧
    SequentialPages.addr root + table_size (root_level (L := L)) ≤ Page.addr p) pages →
  (∀ a, SequentialPages.addr root ≤ a < SequentialPages.addr root + table_size (root_level (L := L)) → within a) →
  (∀ p a, p ∈ pages → Page.addr p ≤ a < Page.addr p + 4096 → within a) →
  (∀ a, ¬ within a → read_pte ∅ a = read_pte around a) → spare pages →
  pt_state (PageTableInner.mk (L := L) root) ∅ pages.
Proof.
  intros H0 Hal Hb Hnd Hf W1 W2 W3 Hsp. exists {[SequentialPages.addr root := (root_level, 0)]}.
  split; [split|split_and!; [done| |split; [|done..]]].
  - apply lookup_singleton_eq.
  - intros b l p [<- [= <- <-]]%lookup_singleton_Some. done.
  - intros b l p b' l' p' [<- _]%lookup_singleton_Some [<- _]%lookup_singleton_Some. done.
  - intros b l p i _ _. by split.
  - eapply list.Forall_impl; [exact Hf|]. intros p (H1 & H2 & H3).
    assert (0 ≤ table_size (root_level (L := L))).
    { unfold table_size. rewrite <-law_pages.
      pose proof (Z.pow_nonneg 2 (addr_width (root_level (L := L)))). lia. }
    split; [lia| |done]. intros b l q [<- [= <- <-]]%lookup_singleton_Some. by right.
  - intros b l p a [<- [= <- <-]]%lookup_singleton_Some. apply W1.
Qed.

Lemma lookup_empty `{PL : PagingLaws L} {FP : Footprint} (self : PageTableInner.t L) pages va :
  pt_state self ∅ pages → lookup self ∅ va = None.
Proof. intros Hst. destruct (walk_lookup self ∅ pages va Hst) as (T & e & _ & _ & _ & _ & -> & _). done. Qed.

(** ** Theorems *)
Abbreviation guest_table := (GuestStagePageTable.t Sv48x4Level.t).

(** An empty Sv48x4 table and zeroed pages for its intermediate tables. *)
Definition example_table : guest_table :=
  GuestStagePageTable.mk (PageTableInner.mk (SequentialPages.mk 16384 Size4k 4)) 2.
Definition example_pages : list Page.t := page_run 65536 Size4k 3.

Lemma example_state : pt_state (GuestStagePageTable.inner example_table) ∅ example_pages.
Proof.
  apply pt_state_empty; cbn; [done|done|done| | |done|done| |done].
  - apply (NoDup_page_seq 65536 Size4k 3).
  - repeat constructor; done.
  - intros a []. exact I.
Qed.

(** C9: preparing a range of guest addresses for mapping is all-or-nothing and
    terminates without a panic: on success every page of the range was unused or
    invalidated, its entry is now locked (with the old page remembered), and no
    other address is affected; on failure the translation is the same as before,
    and the failure is due to a missing page for an intermediate table or an
    entry of the range that is in use. *)
Theorem map_range_all_or_nothing `{PL : PagingLaws L} {FP : Footprint} (pt : GuestStagePageTable.t L) m pages va0 n :
  pt_state (GuestStagePageTable.inner pt) m pages →
  0 ≤ va0 → va0 mod 4096 = 0 → 0 ≤ n → va0 + n * 4096 ≤ U64 → n * 4096 ≤ 2 ^ abits L →
  ∃ r m' pages', GuestStagePageTable.map_range pt va0 Size4k n (m, pages) = Returns (r, (m', pages')) ∧
    pt_state (GuestStagePageTable.inner pt) m' pages' ∧
    let vas := page_seq va0 Size4k (Z.to_nat n) in
    match r with
    | Ok mapper => mapper = GuestStageMapper.mk va0 n ∧
        Forall (λ va, is_idle (lookup (GuestStagePageTable.inner pt) m va)) vas ∧
        mapped_over (GuestStagePageTable.inner pt) m m' vas lock_idle
    | Err e => same_translation (GuestStagePageTable.inner pt) m m' ∧
        map_error (GuestStagePageTable.inner pt) m pages' vas e
    end.
Proof.
  intros Hst H0 Ha Hn Hb Hab.
  destruct (map_range_spec_aux pt m pages va0 n) as (r & m' & pages' & Heq & Hst' & Hp); [done..|].
  exists r, m', pages'. split_and!; [done..|]. unfold map_post in Hp.
  rewrite length_page_seq, Z2Nat.id in Hp by done. exact Hp.
Qed.

Lemma map_range_all_or_nothing_witness :
  ∃ r m' pages', GuestStagePageTable.map_range example_table 2147483648 Size4k 2 (∅, example_pages)
      = Returns (r, (m', pages')) ∧
    pt_state (GuestStagePageTable.inner example_table) m' pages' ∧
    match r with
    | Ok mapper => mapper = GuestStageMapper.mk 2147483648 2 ∧
        Forall (λ va, is_idle (lookup (GuestStagePageTable.inner example_table) ∅ va))
          (page_seq 2147483648 Size4k 2) ∧
        mapped_over (GuestStagePageTable.inner example_table) ∅ m' (page_seq 2147483648 Size4k 2) lock_idle
    | Err e => same_translation (GuestStagePageTable.inner example_table) ∅ m' ∧
        map_error (GuestStagePageTable.inner example_table) ∅ pages' (page_seq 2147483648 Size4k 2) e
    end.
Proof.
  apply (map_range_all_or_nothing example_table ∅ example_pages 2147483648 2); [apply example_state|done..].
Defined.

Lemma map_range_mapper `{PL : PagingLaws L} {FP : Footprint} (pt : GuestStagePageTable.t L) m pages va0 n mapper m1 pages1 :
  pt_state (GuestStagePageTable.inner pt) m pages →
  0 ≤ va0 → va0 mod 4096 = 0 → 0 ≤ n → va0 + n * 4096 < U64 → n * 4096 ≤ 2 ^ abits L →
  GuestStagePageTable.map_range pt va0 Size4k n (m, pages) = Returns (Ok mapper, (m1, pages1)) →
  pt_state (GuestStagePageTable.inner pt) m1 pages1 ∧ mapper = GuestStageMapper.mk va0 n ∧
  NoDup (leaf_no L Size4k <$> page_seq va0 Size4k (Z.to_nat n)) ∧
  Forall (λ va, is_idle (lookup (GuestStagePageTable.inner pt) m va)) (page_seq va0 Size4k (Z.to_nat n)) ∧
  mapped_over (GuestStagePageTable.inner pt) m m1 (page_seq va0 Size4k (Z.to_nat n)) lock_idle ∧
  Forall (λ va, in_mapper mapper va ∧
    ∃ old, lookup (GuestStagePageTable.inner pt) m1 va = Some (Mapping KLockedUnmapped Size4k old))
    (page_seq va0 Size4k (Z.to_nat n)).
Proof.
  intros Hst H0 Ha Hn Hb Hab Heq.
  destruct (map_range_spec_aux pt m pages va0 n) as (r & m' & pages' & Heq' & Hst' & Hp); [done..|lia|done|].
  rewrite Heq in Heq'. injection Heq' as <- <- <-. destruct Hp as (-> & Hidle & Hm).
  rewrite length_page_seq, Z2Nat.id by done. split_and!; [done..|apply range_NoDup; [done|lia]|done|done|].
  rewrite list.Forall_forall in Hidle |- *. intros va Hin. split.
  - apply elem_of_page_seq in Hin as (i & Hi & ->). unfold in_mapper. cbn. lia.
  - rewrite (mapped_over_in _ _ _ _ _ _ Hm Hin). destruct (Hidle va Hin) as [pa ->]. exists pa. apply lock_idle_eq.
Qed.

(** A mapper can map every page of its range, and dropping it cleans up: after
    a successful [map_range], mapping any number of pages (up to the size of the
    range) one after the other succeeds, and after the mapper is dropped exactly
    those addresses translate to exactly those pages; the rest of the range and
    all other addresses translate as before [map_range]. *)
Theorem mapper_maps_range `{PL : PagingLaws L} {FP : Footprint} (pt : GuestStagePageTable.t L) m pages va0 n mapper m1 pages1 ps :
  pt_state (GuestStagePageTable.inner pt) m pages →
  0 ≤ va0 → va0 mod 4096 = 0 → 0 ≤ n → va0 + n * 4096 < U64 → n * 4096 ≤ 2 ^ abits L →
  GuestStagePageTable.map_range pt va0 Size4k n (m, pages) = Returns (Ok mapper, (m1, pages1)) →
  Z.of_nat (length ps) ≤ n → Forall mappable ps →
  let vas := page_seq va0 Size4k (Z.to_nat n) in
  ∃ m2 m3, map_pages pt mapper vas ps m1 = Returns (Ok tt, m2) ∧
    GuestStageMapper.drop_ (GuestStagePageTable.inner pt) mapper m2 = Returns (Ok tt, m3) ∧
    pt_state (GuestStagePageTable.inner pt) m3 pages1 ∧
    (∀ i p, ps !! i = Some p →
       lookup (GuestStagePageTable.inner pt) m3 (va0 + Z.of_nat i * 4096)
         = Some (Mapping KLeaf Size4k (Page.addr p))) ∧
    (∀ va, ¬ covered (L := L) (take (length ps) vas) va →
       lookup (GuestStagePageTable.inner pt) m3 va = lookup (GuestStagePageTable.inner pt) m va).
Proof.
  intros Hst H0 Ha Hn Hb Hab Heq Hlen Hps vas.
  destruct (map_range_mapper pt m pages va0 n mapper m1 pages1) as (Hst1 & -> & Hnd & Hidle & Hm1 & Hlocked); [done..|].
  fold vas in Hnd, Hidle, Hm1, Hlocked.
  assert (Hlv : length vas = Z.to_nat n) by apply length_page_seq.
  destruct (map_pages_ok pt (GuestStageMapper.mk va0 n) vas ps m1 pages1 Hst1 Hnd ltac:(lia) Hlocked Hps)
    as (m2 & Hmp & Hst2 & Hz1 & Hz2).
  destruct (unlock_all_spec _ m2 pages1 vas Hst2 Hnd) as (m3 & Hu & Hst3 & Hm3).
  { apply list.Forall_forall. intros va Hin x Hx.
    apply list_elem_of_lookup in Hin as [i Hi]. destruct (ps !! i) as [p|] eqn:Hp.
    - rewrite (Hz1 i va p Hi Hp) in Hx. by simplify_eq.
    - rewrite list.Forall_forall in Hlocked.
      destruct (Hlocked va (list_elem_of_lookup_2 _ _ _ Hi)) as [_ [old Hold]].
      rewrite Hz2, Hold in Hx; [by simplify_eq|]. apply (not_covered_take _ _ i); [done|done|].
      by apply lookup_ge_None in Hp. }
  exists m2, m3. split_and!; [done| |done| |].
  - unfold GuestStageMapper.drop_. cbn [GuestStageMapper.vaddr GuestStageMapper.num_pages].
    rewrite iter_from_take_run by lia. by erewrite bind_ok by done.
  - intros i p Hp. pose proof (lookup_lt_Some _ _ _ Hp).
    assert (Hi : vas !! i = Some (va0 + Z.of_nat i * 4096)) by (apply (lookup_page_seq va0 Size4k); lia).
    rewrite (mapped_over_in _ _ _ _ _ _ Hm3 (list_elem_of_lookup_2 _ _ _ Hi)). by rewrite (Hz1 _ _ _ Hi Hp).
  - intros va Hnc. rewrite Hm3, Hz2, Hm1 by done. case_decide as Hc; [|done].
    apply unlocked_lock_idle. apply list_elem_of_fmap in Hc as (va' & Hpn & Hin).
    rewrite (lookup_same_page _ m pages va' va Hst Hpn). rewrite list.Forall_forall in Hidle. by apply Hidle.
Qed.

Definition example_map_range : result PtError.t GuestStageMapper.t * (mem * list Page.t) :=
  Eval vm_compute in
  match GuestStagePageTable.map_range example_table 2147483648 Size4k 2 (∅, example_pages) with
  | Returns r => r
  | Panics => (Err AddressOverflow, (∅, []))
  end.

Lemma mapper_maps_range_witness :
  let vas := page_seq 2147483648 Size4k 2 in
  let ps := [Page.mk 1048576 Size4k] in
  ∃ m2 m3, map_pages example_table (GuestStageMapper.mk 2147483648 2) vas ps example_map_range.2.1
      = Returns (Ok tt, m2) ∧
    GuestStageMapper.drop_ (GuestStagePageTable.inner example_table) (GuestStageMapper.mk 2147483648 2) m2
      = Returns (Ok tt, m3) ∧
    pt_state (GuestStagePageTable.inner example_table) m3 example_map_range.2.2 ∧
    (∀ i p, ps !! i = Some p →
       lookup (GuestStagePageTable.inner example_table) m3 (2147483648 + Z.of_nat i * 4096)
         = Some (Mapping KLeaf Size4k (Page.addr p))) ∧
    (∀ va, ¬ covered (L := Sv48x4Level.t) (take (length ps) vas) va →
       lookup (GuestStagePageTable.inner example_table) m3 va
         = lookup (GuestStagePageTable.inner example_table) ∅ va).
Proof.
  apply (mapper_maps_range example_table ∅ example_pages 2147483648 2 (GuestStageMapper.mk 2147483648 2)
    example_map_range.2.1 example_map_range.2.2 [Page.mk 1048576 Size4k]);
    [apply example_state|done|done|done|done|done|vm_compute; reflexivity|done|].
  repeat constructor; done.
Defined.

(** What the range operations return, and what draining the iterator does. *)
Definition drained `{PL : PagingLaws L} {FP : Footprint} (pt : GuestStagePageTable.t L) m pages (vas : list Z)
    (next : list Z → M mem PtError.t (option Z * list Z)) (ok : option mapping → Prop)
    (yield : option mapping → option Z) (g : option mapping → option mapping) (r : result PtError.t (list Z)) : Prop :=
  match r with
  | Err _ => ∃ va, va ∈ vas ∧ ¬ ok (lookup (GuestStagePageTable.inner pt) m va)
  | Ok it => it = vas ∧ (∀ va, va ∈ vas → ok (lookup (GuestStagePageTable.inner pt) m va)) ∧
      ∃ m', drain_iter next (S (length it)) it m
          = Returns (Ok (omap (λ va, yield (lookup (GuestStagePageTable.inner pt) m va)) vas), m') ∧
        pt_state (GuestStagePageTable.inner pt) m' pages ∧
        mapped_over (GuestStagePageTable.inner pt) m m' vas g
  end.

Lemma invalidate_range_drained `{PL : PagingLaws L} {FP : Footprint} (pt : GuestStagePageTable.t L) m pages
    va0 len (sparse : bool) (pred : Z → bool) :
  let n := PageSize.num_4k_pages len in
  let vas := page_seq va0 Size4k (Z.to_nat n) in
  pt_state (GuestStagePageTable.inner pt) m pages →
  0 ≤ va0 → va0 mod 4096 = 0 → va0 + n * 4096 < U64 → n * 4096 ≤ 2 ^ abits L →
  ∃ r, GuestStagePageTable.do_invalidate_range pt va0 len sparse pred m = Returns (r, m) ∧
    drained pt m pages vas (GuestStagePageTable.invalidate_next pt) (invalidate_ok sparse pred) leaf_4k invalidated r.
Proof.
  intros n vas Hst H0 Ha Hb Hab. unfold GuestStagePageTable.do_invalidate_range.
  rewrite (bind_ok _ _ m vas m) by (rewrite range_addrs_eq by done; fold n; by rewrite (proj2 (Z.ltb_lt _ _) Hb)).
  destruct (for_each_check (λ va, invalidate_ok sparse pred (lookup (GuestStagePageTable.inner pt) m va))
    (GuestStagePageTable.check_invalidate pt sparse pred) m vas) as (r & Hr & Hp).
  { intros va _. by apply (check_invalidate_spec pt pages). }
  destruct r as [[]|e].
  - exists (Ok vas). split; [by erewrite bind_ok by exact Hr|]. split_and!; [done..|].
    apply invalidate_drain; [done| |lia]. apply range_NoDup; [done|lia].
  - exists (Err e). split; [by erewrite bind_err by exact Hr|]. done.
Qed.

(** C10: invalidating a range is all-or-nothing: the check changes nothing and accepts
    the range exactly when every page is a mapped 4kB page that satisfies the
    predicate (or, if [sparse], unused); draining the iterator then yields the
    mapped pages in address order, invalidates exactly their entries, keeping the
    page addresses in them, and affects no other address. *)
Theorem invalidate_range_all_or_nothing `{PL : PagingLaws L} {FP : Footprint} (pt : GuestStagePageTable.t L) m pages
    va0 len (sparse : bool) (pred : Z → bool) :
  let n := PageSize.num_4k_pages len in
  let vas := page_seq va0 Size4k (Z.to_nat n) in
  pt_state (GuestStagePageTable.inner pt) m pages →
  0 ≤ va0 → va0 mod 4096 = 0 → va0 + n * 4096 < U64 → n * 4096 ≤ 2 ^ abits L →
  ∃ r, GuestStagePageTable.do_invalidate_range pt va0 len sparse pred m = Returns (r, m) ∧
    match r with
    | Err _ => ∃ va, va ∈ vas ∧ ¬ invalidate_ok sparse pred (lookup (GuestStagePageTable.inner pt) m va)
    | Ok it => it = vas ∧
        (∀ va, va ∈ vas → invalidate_ok sparse pred (lookup (GuestStagePageTable.inner pt) m va)) ∧
        ∃ m', drain_iter (GuestStagePageTable.invalidate_next pt) (S (length it)) it m
            = Returns (Ok (omap (λ va, leaf_4k (lookup (GuestStagePageTable.inner pt) m va)) vas), m') ∧
          pt_state (GuestStagePageTable.inner pt) m' pages ∧
          mapped_over (GuestStagePageTable.inner pt) m m' vas invalidated
    end.
Proof. exact (invalidate_range_drained pt m pages va0 len sparse pred). Qed.

(** A table with two mapped pages. *)
Definition example_mapped : mem :=
  Eval vm_compute in
  match map_pages example_table (GuestStageMapper.mk 2147483648 2) (page_seq 2147483648 Size4k 2)
          (page_run 1048576 Size4k 2) example_map_range.2.1 with
  | Returns (_, m) => m
  | Panics => ∅
  end.

(** The table as it is filled, wherever its pages may lie. *)
Lemma example_mapped_in {FP : Footprint} :
  pt_state (GuestStagePageTable.inner example_table) ∅ example_pages →
  pt_state (GuestStagePageTable.inner example_table) example_mapped example_map_range.2.2 ∧
  (∀ i, (i < 2)%nat → lookup (GuestStagePageTable.inner example_table) example_mapped (2147483648 + Z.of_nat i * 4096)
     = Some (Mapping KLeaf Size4k (1048576 + Z.of_nat i * 4096))) ∧
  ∀ va, ¬ covered (L := Sv48x4Level.t) (page_seq 2147483648 Size4k 2) va →
    lookup (GuestStagePageTable.inner example_table) example_mapped va = None.
Proof.
  intros Hst0.
  destruct (map_range_mapper example_table ∅ example_pages 2147483648 2 (GuestStageMapper.mk 2147483648 2)
    example_map_range.2.1 example_map_range.2.2) as (Hst & _ & Hnd & _ & Hm1 & Hl);
    [done|done|done|done|done|done|vm_compute; reflexivity|].
  destruct (map_pages_ok example_table (GuestStageMapper.mk 2147483648 2) (page_seq 2147483648 Size4k 2)
    (page_run 1048576 Size4k 2) _ _ Hst Hnd) as (m' & Hm & Hst' & Hz1 & Hz2); [cbn; lia|done|repeat constructor; done|].
  assert (Heq : map_pages example_table (GuestStageMapper.mk 2147483648 2) (page_seq 2147483648 Size4k 2)
    (page_run 1048576 Size4k 2) example_map_range.2.1 = Returns (Ok tt, example_mapped)) by (vm_compute; reflexivity).
  rewrite Heq in Hm. injection Hm as <-. split_and!; [done| |].
  - intros i Hi. apply (Hz1 i _ (Page.mk (1048576 + Z.of_nat i * 4096) Size4k)); by destruct i as [|[|]]; [..|lia].
  - intros va Hnc. rewrite Hz2 by done. rewrite Hm1. rewrite decide_False by done.
    apply (lookup_empty _ _ _ Hst0).
Qed.

Lemma example_mapped_spec :
  pt_state (GuestStagePageTable.inner example_table) example_mapped example_map_range.2.2 ∧
  (∀ i, (i < 2)%nat → lookup (GuestStagePageTable.inner example_table) example_mapped (2147483648 + Z.of_nat i * 4096)
     = Some (Mapping KLeaf Size4k (1048576 + Z.of_nat i * 4096))) ∧
  ∀ va, ¬ covered (L := Sv48x4Level.t) (page_seq 2147483648 Size4k 2) va →
    lookup (GuestStagePageTable.inner example_table) example_mapped va = None.
Proof. apply example_mapped_in, example_state. Qed.

Lemma example_mapped_state :
  pt_state (GuestStagePageTable.inner example_table) example_mapped example_map_range.2.2.
Proof. apply example_mapped_spec. Qed.

Lemma invalidate_range_all_or_nothing_witness :
  ∃ r, GuestStagePageTable.do_invalidate_range example_table 2147483648 8192 false (λ _, true) example_mapped
      = Returns (r, example_mapped) ∧
    match r with
    | Err _ => ∃ va, va ∈ page_seq 2147483648 Size4k 2 ∧
        ¬ invalidate_ok false (λ _, true) (lookup (GuestStagePageTable.inner example_table) example_mapped va)
    | Ok it => it = page_seq 2147483648 Size4k 2 ∧
        (∀ va, va ∈ page_seq 2147483648 Size4k 2 →
           invalidate_ok false (λ _, true) (lookup (GuestStagePageTable.inner example_table) example_mapped va)) ∧
        ∃ m', drain_iter (GuestStagePageTable.invalidate_next example_table) (S (length it)) it example_mapped
            = Returns (Ok (omap (λ va, leaf_4k (lookup (GuestStagePageTable.inner example_table) example_mapped va))
                             (page_seq 2147483648 Size4k 2)), m') ∧
          pt_state (GuestStagePageTable.inner example_table) m' example_map_range.2.2 ∧
          mapped_over (GuestStagePageTable.inner example_table) example_mapped m'
            (page_seq 2147483648 Size4k 2) invalidated
    end.
Proof.
  apply (invalidate_range_all_or_nothing example_table example_mapped example_map_range.2.2
    2147483648 8192 false (λ _, true)); [apply example_mapped_state|done..].
Defined.

Lemma unmap_range_drained `{PL : PagingLaws L} {FP : Footprint} (pt : GuestStagePageTable.t L) m pages
    va0 len (pred : Z → bool) :
  let n := PageSize.num_4k_pages len in
  let vas := page_seq va0 Size4k (Z.to_nat n) in
  pt_state (GuestStagePageTable.inner pt) m pages →
  0 ≤ va0 → va0 mod 4096 = 0 → va0 + n * 4096 < U64 → n * 4096 ≤ 2 ^ abits L →
  ∃ r, GuestStagePageTable.unmap_range pt va0 len pred m = Returns (r, m) ∧
    drained pt m pages vas (GuestStagePageTable.unmap_next pt) (unmap_ok pred) invalidated_4k cleared r.
Proof.
  intros n vas Hst H0 Ha Hb Hab. unfold GuestStagePageTable.unmap_range.
  rewrite (bind_ok _ _ m vas m) by (rewrite range_addrs_eq by done; fold n; by rewrite (proj2 (Z.ltb_lt _ _) Hb)).
  destruct (for_each_check (λ va, unmap_ok pred (lookup (GuestStagePageTable.inner pt) m va))
    (GuestStagePageTable.check_unmap pt pred) m vas) as (r & Hr & Hp).
  { intros va _. by apply (check_unmap_spec pt pages). }
  destruct r as [[]|e].
  - exists (Ok vas). split; [by erewrite bind_ok by exact Hr|]. split_and!; [done..|].
    apply unmap_drain; [done| |lia]. apply range_NoDup; [done|lia].
  - exists (Err e). split; [by erewrite bind_err by exact Hr|]. done.
Qed.

(** Unmapping a range is all-or-nothing: the check changes nothing and accepts the
    range exactly when every page is unused or an invalidated 4kB page that
    satisfies the predicate, so a page that is still mapped is never unmapped;
    draining the iterator then yields the invalidated pages in address order,
    clears exactly their entries and affects no other address. *)
Theorem unmap_range_all_or_nothing `{PL : PagingLaws L} {FP : Footprint} (pt : GuestStagePageTable.t L) m pages
    va0 len (pred : Z → bool) :
  let n := PageSize.num_4k_pages len in
  let vas := page_seq va0 Size4k (Z.to_nat n) in
  pt_state (GuestStagePageTable.inner pt) m pages →
  0 ≤ va0 → va0 mod 4096 = 0 → va0 + n * 4096 < U64 → n * 4096 ≤ 2 ^ abits L →
  ∃ r, GuestStagePageTable.unmap_range pt va0 len pred m = Returns (r, m) ∧
    match r with
    | Err _ => ∃ va, va ∈ vas ∧ ¬ unmap_ok pred (lookup (GuestStagePageTable.inner pt) m va)
    | Ok it => it = vas ∧
        (∀ va, va ∈ vas → unmap_ok pred (lookup (GuestStagePageTable.inner pt) m va)) ∧
        ∃ m', drain_iter (GuestStagePageTable.unmap_next pt) (S (length it)) it m
            = Returns (Ok (omap (λ va, invalidated_4k (lookup (GuestStagePageTable.inner pt) m va)) vas), m') ∧
          pt_state (GuestStagePageTable.inner pt) m' pages ∧
          mapped_over (GuestStagePageTable.inner pt) m m' vas cleared
    end.
Proof. exact (unmap_range_drained pt m pages va0 len pred). Qed.

Lemma unmap_range_all_or_nothing_witness :
  ∃ r, GuestStagePageTable.unmap_range example_table 2147483648 4096 (λ _, true) example_mapped
      = Returns (r, example_mapped) ∧
    match r with
    | Err _ => ∃ va, va ∈ page_seq 2147483648 Size4k 1 ∧
        ¬ unmap_ok (λ _, true) (lookup (GuestStagePageTable.inner example_table) example_mapped va)
    | Ok it => it = page_seq 2147483648 Size4k 1 ∧
        (∀ va, va ∈ page_seq 2147483648 Size4k 1 →
           unmap_ok (λ _, true) (lookup (GuestStagePageTable.inner example_table) example_mapped va)) ∧
        ∃ m', drain_iter (GuestStagePageTable.unmap_next example_table) (S (length it)) it example_mapped
            = Returns (Ok (omap (λ va, invalidated_4k (lookup (GuestStagePageTable.inner example_table) example_mapped va))
                             (page_seq 2147483648 Size4k 1)), m') ∧
          pt_state (GuestStagePageTable.inner example_table) m' example_map_range.2.2 ∧
          mapped_over (GuestStagePageTable.inner example_table) example_mapped m'
            (page_seq 2147483648 Size4k 1) cleared
    end.
Proof.
  apply (unmap_range_all_or_nothing example_table example_mapped example_map_range.2.2
    2147483648 4096 (λ _, true)); [apply example_mapped_state|done..].
Defined.
