(* ===== verification/TlbModel.v ===== *)
(** * TLB versions and VMIDs (src/vm_pages.rs, src/vm_id.rs, src/vm_cpu.rs)

    The reference-counted TLB versions of an address space, the allocation of
    VMIDs per physical CPU, and the activation of an address space on a CPU. *)
From S2P Require Import Prelude RiscvPages PageInfoModel PageTableModel.

(** [vm_pages::Error]; the payloads of the attestation, IOMMU and hypervisor map
    errors are dropped. *)
Module VmPagesError.
Inductive t :=
| Paging (e : PtError.t)
| PageFault
| NestingTooDeep
| UnalignedAddress
| UnsupportedPageSize (s : PageSize.t)
| AddressOverflow
| TlbCountUnderflow
| InvalidTlbVersion
| TlbFenceInProgress
| OverlappingVmRegion
| InsufficientVmRegionSpace
| VmRegionNotFound
| InvalidMapRegion
| EmptyPageRange
| Measurement
| NoImsicVirtualization
| ImsicGeometryAlreadySet
| IommuContextAlreadySet
| NoIommu
| AllocatingGscId
| CreatingMsiPageTable
| InvalidImsicLocation
| MsiTableMapping
| AttachingDevice
| PageTracking (e : PageTrackingError.t)
| HypMap.
End VmPagesError.
Import VmPagesError(TlbCountUnderflow, InvalidTlbVersion, TlbFenceInProgress).

Module RefCountedTlbVersion.
Record t := mk { version : TlbVersion.t; count : Z }.
Definition new (v : TlbVersion.t) : t := mk v 0.
Definition get (r : t) : t := mk (version r) (wrap64 (count r + 1)).
Definition put (r : t) : result VmPagesError.t (Z * t) :=
  match checked_sub (count r) 1 with
  | Some c => Ok (c, mk (version r) c)
  | None => Err TlbCountUnderflow
  end.
End RefCountedTlbVersion.
Abbreviation rc_version := RefCountedTlbVersion.version.
Abbreviation rc_count := RefCountedTlbVersion.count.

Module TlbTracker.
Record t := mk { current : RefCountedTlbVersion.t; prev : option RefCountedTlbVersion.t }.

Definition new : t := mk (RefCountedTlbVersion.mk 0 0) None.
Definition current_version (s : t) : TlbVersion.t := rc_version (current s).
Definition min_version (s : t) : TlbVersion.t :=
  match prev s with
  | Some p => if negb (rc_count p =? 0) then rc_version p else rc_version (current s)
  | None => rc_version (current s)
  end.
(** Whether the previous version still has references. *)
Definition prev_referenced (s : t) : bool :=
  match prev s with Some p => negb (rc_count p =? 0) | None => false end.
Definition increment (s : t) : result VmPagesError.t bool * t :=
  if negb (prev_referenced s) then
    let next := TlbVersion.increment (rc_version (current s)) in
    let prev' := if negb (rc_count (current s) =? 0) then Some (current s) else None in
    (Ok (match prev' with None => true | Some _ => false end), mk (RefCountedTlbVersion.new next) prev')
  else (Err TlbFenceInProgress, s).
Definition get_version (s : t) : TlbVersion.t * t :=
  let c := RefCountedTlbVersion.get (current s) in
  (rc_version c, mk c (prev s)).
Definition put_version (v : TlbVersion.t) (s : t) : result VmPagesError.t bool * t :=
  if rc_version (current s) =? v then
    match RefCountedTlbVersion.put (current s) with
    | Ok (_, c) => (Ok false, mk c (prev s))
    | Err e => (Err e, s)
    end
  else
    match prev s with
    | Some p =>
        if rc_version p =? v then
          match RefCountedTlbVersion.put p with
          | Ok (n, p') => if n =? 0 then (Ok true, mk (current s) None) else (Ok false, mk (current s) (Some p'))
          | Err e => (Err e, s)
          end
        else (Err InvalidTlbVersion, s)
    | None => (Err InvalidTlbVersion, s)
    end.
End TlbTracker.

(** ** VMIDs *)
Module VmId.
Record t := mk { vmid : Z; version : Z }.
#[global] Instance eq_dec : EqDecision t.
Proof. solve_decision. Defined.
End VmId.

Module VmIdTracker.
(** [vmid_bits] is probed from the hardware once and constant. *)
Record t := mk { next_vmid : Z; current_version : Z }.
Definition new : t := mk 0 0.
(** The VMID, whether all translations were flushed, and the new state. *)
Definition next (vmid_bits : Z) (s : t) : VmId.t * bool * t :=
  let flush := next_vmid s =? 0 in
  let version := if flush then wrap64 (current_version s + 1) else current_version s in
  (VmId.mk (next_vmid s) version, flush,
   mk (Z.land (wrap64 (next_vmid s + 1)) (Z.shiftl 1 vmid_bits - 1)) version).
End VmIdTracker.

(** ** Activating an address space *)
Module PrevTlb.
Record t := mk { cpu : Z; vmid : VmId.t; tlb_version : TlbVersion.t }.
End PrevTlb.

(** The translations a step drops from the TLB of the CPU. *)
Inductive hfence := FenceAll | FenceVmid (vmid : Z).

Module ActiveVmPages.
(** [ActiveVmPages::new]: the version acquired and the fence, if any. *)
Definition new (vmid : VmId.t) (prev_tlb_version : option TlbVersion.t) (tlb : TlbTracker.t)
    : TlbVersion.t * list hfence * TlbTracker.t :=
  let '(tlb_version, tlb) := TlbTracker.get_version tlb in
  (tlb_version,
   match prev_tlb_version with
   | Some v => if v <? tlb_version then [FenceVmid (VmId.vmid vmid)] else []
   | None => []
   end, tlb).
(** [Drop], without the pending unassignments: whether a flush completed. *)
Definition drop_ (tlb_version : TlbVersion.t) (tlb : TlbTracker.t) : outcome (bool * TlbTracker.t) :=
  match TlbTracker.put_version tlb_version tlb with
  | (Ok flush_completed, tlb) => Returns (flush_completed, tlb)
  | (Err _, _) => Panics
  end.
End ActiveVmPages.

Module ActiveVmCpu.
(** The start of [restore_from]: a previous use on another CPU is forgotten. *)
Definition forget_other_cpu (this_cpu : Z) (prev_tlb : option PrevTlb.t) : option PrevTlb.t :=
  match prev_tlb with
  | Some p => if negb (PrevTlb.cpu p =? this_cpu) then None else Some p
  | None => None
  end.
Definition restore_vm_pages (vmid_bits this_cpu : Z) (prev_tlb : option PrevTlb.t)
    (ids : VmIdTracker.t) (tlb : TlbTracker.t)
    : PrevTlb.t * list hfence * VmIdTracker.t * TlbTracker.t :=
  let '(vmid, tlb_version, fences, ids) :=
    match prev_tlb with
    | Some p =>
        if VmId.version (PrevTlb.vmid p) =? VmIdTracker.current_version ids
        then (PrevTlb.vmid p, Some (PrevTlb.tlb_version p), [], ids)
        else let '(vmid, flush, ids) := VmIdTracker.next vmid_bits ids in
             (vmid, None, if flush then [FenceAll] else [], ids)
    | None => let '(vmid, flush, ids) := VmIdTracker.next vmid_bits ids in
              (vmid, None, if flush then [FenceAll] else [], ids)
    end in
  let '(version, fences', tlb) := ActiveVmPages.new vmid tlb_version tlb in
  (PrevTlb.mk this_cpu vmid version, fences ++ fences', ids, tlb).
End ActiveVmCpu.
