(* ===== verification/TlbTrackerFacts.v ===== *)
(** * Theorems about TLB versions

    A [TlbTracker] counts the holders of two versions.  [tracker_ok H t] says that
    [t] is the tracker of the holders [H] (a map from holder to version). *)
From S2P Require Import Prelude RiscvPages PageInfoModel PageTableModel TlbModel.

Definition cnt (n : Z) (H : gmap Z Z) : nat := size (filter (λ kv, kv.2 = n) H).
Arguments cnt : simpl never.

Lemma cnt_insert n k v H :
  H !! k = None → cnt n (<[k:=v]> H) = ((if decide (v = n) then 1 else 0) + cnt n H)%nat.
Proof.
  intros Hk. unfold cnt. rewrite map_filter_insert. cbn. case_decide as Hv.
  - rewrite map_size_insert_None; [done|]. apply map_lookup_filter_None. by left.
  - rewrite delete_id; [done|]. done.
Qed.

Lemma cnt_delete n k v H :
  H !! k = Some v → cnt n H = ((if decide (v = n) then 1 else 0) + cnt n (delete k H))%nat.
Proof.
  intros Hk. rewrite <-(insert_delete_id H k v Hk) at 1. apply cnt_insert. apply lookup_delete_eq.
Qed.

Lemma cnt_zero n H : cnt n H = 0%nat → ∀ k, H !! k ≠ Some n.
Proof.
  intros Hc k Hk. rewrite (cnt_delete n k n H Hk) in Hc. rewrite decide_True in Hc by done. lia.
Qed.

Lemma cnt_none n H : (∀ k, H !! k ≠ Some n) → cnt n H = 0%nat.
Proof.
  intros Hn. unfold cnt. apply map_size_empty_iff, map_empty. intros k.
  apply map_lookup_filter_None. right. intros v Hv. cbn. intros ->. by apply (Hn k).
Qed.

Record tracker_ok (H : gmap Z Z) (t : TlbTracker.t) : Prop := {
  to_range : 0 ≤ TlbTracker.current_version t < U64;
  to_count : rc_count (TlbTracker.current t) = Z.of_nat (cnt (TlbTracker.current_version t) H) ∧
    rc_count (TlbTracker.current t) < U64;
  to_prev p : TlbTracker.prev t = Some p →
    0 ≤ rc_version p < TlbTracker.current_version t ∧
    rc_count p = Z.of_nat (cnt (rc_version p) H) ∧ 0 < rc_count p < U64;
  to_held k n : H !! k = Some n →
    n = TlbTracker.current_version t ∨ ∃ p, TlbTracker.prev t = Some p ∧ n = rc_version p
}.

Lemma tracker_ok_new : tracker_ok ∅ TlbTracker.new.
Proof. by split. Qed.

Lemma get_version_ok H t k :
  tracker_ok H t → H !! k = None → rc_count (TlbTracker.current t) + 1 < U64 →
  (TlbTracker.get_version t).1 = TlbTracker.current_version t ∧
  tracker_ok (<[k := TlbTracker.current_version t]> H) (TlbTracker.get_version t).2 ∧
  TlbTracker.current_version (TlbTracker.get_version t).2 = TlbTracker.current_version t ∧
  TlbTracker.min_version (TlbTracker.get_version t).2 = TlbTracker.min_version t.
Proof.
  intros [Hr [Hc Hc'] Hp Hh] Hk Hov. split; [done|]. split; [|done].
  unfold TlbTracker.get_version, RefCountedTlbVersion.get, wrap64. cbn. rewrite Z.mod_small by lia.
  unfold TlbTracker.current_version in *. split; cbn; unfold TlbTracker.current_version; cbn; [done| | |].
  - rewrite cnt_insert, decide_True by done. lia.
  - intros p Ep. destruct (Hp p Ep) as (H1 & H2 & H3). split_and!; try done; try lia.
    rewrite cnt_insert by done. rewrite decide_False by lia. done.
  - intros k' n Hn. rewrite lookup_insert in Hn. case_decide; simplify_eq; [by left|]. by eapply Hh.
Qed.

Lemma put_version_ok H t k v :
  tracker_ok H t → H !! k = Some v →
  ∃ b t', TlbTracker.put_version v t = (Ok b, t') ∧ tracker_ok (delete k H) t' ∧
    TlbTracker.current_version t' = TlbTracker.current_version t ∧
    (b = true ↔ TlbTracker.prev t ≠ None ∧ TlbTracker.prev t' = None).
Proof.
  intros [Hr [Hc Hc'] Hp Hh] Hk. unfold TlbTracker.put_version.
  assert (Hdel : ∀ k' n, delete k H !! k' = Some n → H !! k' = Some n).
  { intros k' n. rewrite lookup_delete. by case_decide. }
  destruct (Z.eqb_spec (rc_version (TlbTracker.current t)) v) as [Hv|Hv].
  - pose proof (cnt_delete v k v H Hk) as Hcd. rewrite decide_True in Hcd by done.
    unfold TlbTracker.current_version in *. rewrite Hv in *. unfold RefCountedTlbVersion.put, checked_sub.
    destruct (Z.leb_spec 1 (rc_count (TlbTracker.current t))); [|lia].
    do 2 eexists. split; [done|]. cbn. split_and!; [|done|split; [done|by intros [? ?]]].
    split; cbn; unfold TlbTracker.current_version; cbn; rewrite ?Hv; [done|lia| |].
    + intros p Ep. destruct (Hp p Ep) as (H1 & H2 & H3). split_and!; try lia.
      rewrite H2. rewrite (cnt_delete (rc_version p) k v H Hk), decide_False by lia. lia.
    + intros k' n Hn%Hdel. by apply Hh in Hn.
  - destruct (Hh k v Hk) as [->|(p & Ep & ->)]; [done|]. rewrite Ep, Z.eqb_refl.
    destruct (Hp p Ep) as (H1 & H2 & H3).
    pose proof (cnt_delete (rc_version p) k _ H Hk) as Hcd. rewrite decide_True in Hcd by done.
    assert (Hcc : cnt (TlbTracker.current_version t) (delete k H) = cnt (TlbTracker.current_version t) H).
    { rewrite (cnt_delete (TlbTracker.current_version t) k _ H Hk), decide_False by lia. done. }
    unfold RefCountedTlbVersion.put, checked_sub. destruct (Z.leb_spec 1 (rc_count p)); [|lia].
    destruct (Z.eqb_spec (rc_count p - 1) 0) as [Hz|Hz]; do 2 eexists; (split; [done|]); cbn;
      (split_and!; [|done|]).
    + split; cbn; unfold TlbTracker.current_version in *; cbn; [done|lia|done|].
      intros k' n Hn. destruct (Hh k' n (Hdel _ _ Hn)) as [->|(p' & Ep' & ->)]; [by left|].
      assert (p' = p) as -> by congruence. exfalso. eapply (cnt_zero (rc_version p) (delete k H)); [lia|exact Hn].
    + done.
    + split; cbn; unfold TlbTracker.current_version in *; cbn; [done|lia| |].
      * intros p' [= <-]. cbn. lia.
      * intros k' n Hn. destruct (Hh k' n (Hdel _ _ Hn)) as [->|(p' & Ep' & ->)]; [by left|].
        right. eexists. split; [done|]. cbn. congruence.
    + split; [done|]. by intros [_ ?].
Qed.

Lemma increment_ok H t :
  tracker_ok H t → TlbTracker.current_version t + 1 < U64 →
  tracker_ok H (TlbTracker.increment t).2 ∧
  match (TlbTracker.increment t).1 with
  | Ok b => TlbTracker.prev t = None ∧
      TlbTracker.current_version (TlbTracker.increment t).2 = TlbTracker.current_version t + 1 ∧
      (b = true ↔ H = ∅)
  | Err _ => (TlbTracker.increment t).2 = t ∧ TlbTracker.prev t ≠ None
  end.
Proof.
  intros Hok Hov. pose proof Hok as [Hr [Hc Hc'] Hp Hh]. unfold TlbTracker.increment, TlbTracker.prev_referenced.
  destruct (TlbTracker.prev t) as [p|] eqn:Ep; cbn.
  { destruct (Hp p eq_refl) as (H1 & H2 & H3). destruct (Z.eqb_spec (rc_count p) 0); [lia|]. cbn. by split_and!. }
  unfold TlbVersion.increment, wrap64. unfold TlbTracker.current_version in *. rewrite Z.mod_small by lia.
  assert (Hheld : ∀ k n, H !! k = Some n → n = rc_version (TlbTracker.current t)).
  { intros k n Hn. destruct (Hh k n Hn) as [|(p & ? & _)]; done. }
  split.
  - destruct (Z.eqb_spec (rc_count (TlbTracker.current t)) 0) as [Hz|Hz]; cbn;
      (split; unfold TlbTracker.current_version; cbn; [lia| | |]).
    + rewrite cnt_none; [lia|]. intros k Hk. apply Hheld in Hk. lia.
    + done.
    + intros k n Hn. exfalso. pose proof (Hheld _ _ Hn) as ->. by apply (cnt_zero (rc_version (TlbTracker.current t)) H ltac:(lia) k).
    + rewrite cnt_none; [lia|]. intros k Hk. apply Hheld in Hk. lia.
    + intros p [= <-]. lia.
    + intros k n Hn. right. eexists. split; [done|]. by eapply Hheld.
  - split_and!; [done|done|]. destruct (Z.eqb_spec (rc_count (TlbTracker.current t)) 0) as [Hz|Hz]; cbn.
    + split; [|done]. intros _. apply map_empty. intros k. destruct (H !! k) as [n|] eqn:Hk; [|done].
      exfalso. pose proof (Hheld _ _ Hk) as ->. by apply (cnt_zero (rc_version (TlbTracker.current t)) H ltac:(lia) k).
    + split; [done|]. intros ->. exfalso. apply Hz. rewrite Hc. done.
Qed.

(** [min_version] is a lower bound of the versions in use, and tight. *)
Lemma min_version_le H t :
  tracker_ok H t →
  TlbTracker.min_version t ≤ TlbTracker.current_version t ∧
  (∀ k n, H !! k = Some n → TlbTracker.min_version t ≤ n ≤ TlbTracker.current_version t).
Proof.
  intros [Hr [Hc Hc'] Hp Hh]. unfold TlbTracker.min_version, TlbTracker.current_version in *.
  destruct (TlbTracker.prev t) as [p|].
  - destruct (Hp p eq_refl) as (H1 & H2 & H3). destruct (Z.eqb_spec (rc_count p) 0) as [|_]; [lia|]. cbn. split; [lia|].
    intros k n Hn. destruct (Hh k n Hn) as [->|(p' & Ep' & ->)]; [lia|]. injection Ep' as <-. lia.
  - split; [lia|]. intros k n Hn. destruct (Hh k n Hn) as [->|(p' & Ep' & ->)]; [lia|done].
Qed.
