(* ===== verification/TlbProtocolFacts.v ===== *)
(** * Theorems about the TLB shootdown protocol

    Safety of the protocol under atomic conversions, by an invariant over all
    reachable states, and the interleaving that breaks it when the version is
    taken before the page is invalidated. *)
From stdpp Require Import functions.
From S2P Require Import Prelude RiscvPages PageInfoModel PageTableModel TlbModel TlbTrackerFacts TlbProtocol.

(** Whether an updated VM or CPU is the one looked at. *)
Ltac fn_cases x y :=
  destruct (decide (x = y)) as [Hfn|Hfn];
  [first [subst y|rewrite <-!Hfn]; rewrite ?fn_lookup_insert|rewrite ?fn_lookup_insert_ne by done]; cbn.

Section facts.
Context (vmid_bits : Z) (vm_of : Z → Z).

Implicit Types s : sys.

Abbreviation cur s x := (TlbTracker.current_version (tracker (vms s x))).
Abbreviation cpu_ids s c := (ids (cpus s c)).
Abbreviation use_vmid p := (VmId.vmid (PrevTlb.vmid p)).

(** The versions held by the running vCPUs of a VM. *)
Definition held (lu : gmap Z PrevTlb.t) (run : gset Z) (x : Z) : gmap Z Z :=
  PrevTlb.tlb_version <$> filter (λ kp, kp.1 ∈ run ∧ vm_of kp.1 = x) lu.

(** The use belongs to the current generation of VMIDs of its CPU. *)
Definition live (i : VmIdTracker.t) (p : PrevTlb.t) : Prop :=
  VmId.version (PrevTlb.vmid p) = VmIdTracker.current_version i.
(** VMIDs handed out in the current generation. *)
Definition allocated (i : VmIdTracker.t) (v : Z) : Prop :=
  0 ≤ v < 2 ^ vmid_bits ∧ (VmIdTracker.next_vmid i = 0 ∨ v < VmIdTracker.next_vmid i).

Record inv s : Prop := {
  i_tracker x : tracker_ok (held (last_use s) (running s) x) (tracker (vms s x));
  i_run k : k ∈ running s → ∃ p, last_use s !! k = Some p ∧ live (cpu_ids s (PrevTlb.cpu p)) p;
  i_ids c : 0 ≤ VmIdTracker.next_vmid (cpu_ids s c) < 2 ^ vmid_bits ∧
    0 ≤ VmIdTracker.current_version (cpu_ids s c) < U64;
  i_use k p : last_use s !! k = Some p →
    VmId.version (PrevTlb.vmid p) ≤ VmIdTracker.current_version (cpu_ids s (PrevTlb.cpu p)) ∧
    PrevTlb.tlb_version p ≤ cur s (vm_of k) ∧
    (live (cpu_ids s (PrevTlb.cpu p)) p → allocated (cpu_ids s (PrevTlb.cpu p)) (use_vmid p));
  i_uniq k k' p p' : last_use s !! k = Some p → last_use s !! k' = Some p' →
    PrevTlb.cpu p = PrevTlb.cpu p' → live (cpu_ids s (PrevTlb.cpu p)) p → live (cpu_ids s (PrevTlb.cpu p)) p' →
    use_vmid p = use_vmid p' → k = k';
  i_entry c e : e ∈ entries (cpus s c) → allocated (cpu_ids s c) e.1.1;
  i_fresh k p x pg f : last_use s !! k = Some p → live (cpu_ids s (PrevTlb.cpu p)) p →
    (use_vmid p, x, (pg, f)) ∈ entries (cpus s (PrevTlb.cpu p)) →
    x = vm_of k ∧
    (valid (vms s x) !! pg = Some f ∨
     (∃ v, conv (vms s x) !! pg = Some v ∧ PrevTlb.tlb_version p ≤ v) ∨
     ((k ∉ running s) ∧ PrevTlb.tlb_version p < cur s x));
  i_conv x pg v : conv (vms s x) !! pg = Some v → v ≤ cur s x ∧ valid (vms s x) !! pg = None
}.

Lemma held_lookup lu run x k (n : Z) :
  held lu run x !! k = Some n ↔ k ∈ run ∧ vm_of k = x ∧ ∃ p, lu !! k = Some p ∧ PrevTlb.tlb_version p = n.
Proof.
  unfold held. rewrite lookup_fmap, fmap_Some. setoid_rewrite map_lookup_filter_Some. cbn. naive_solver.
Qed.

Lemma held_ext lu run lu' run' x :
  (∀ k, vm_of k = x → k ∈ run ↔ k ∈ run') → (∀ k, vm_of k = x → lu !! k = lu' !! k) →
  held lu run x = held lu' run' x.
Proof.
  intros Hr Hl. apply map_eq. intros k. apply option_eq. intros n. rewrite !held_lookup.
  split; intros (H1 & H2 & p & H3 & H4); (split_and!; [by apply Hr|done|]); exists p; (split; [|done]);
    [rewrite <-Hl|rewrite Hl]; done.
Qed.

Lemma held_insert lu run k p :
  k ∉ run → held (<[k:=p]> lu) ({[k]} ∪ run) (vm_of k) = <[k := PrevTlb.tlb_version p]> (held lu run (vm_of k)).
Proof.
  intros Hk. apply map_eq. intros k'. apply option_eq. intros n. rewrite held_lookup.
  destruct (decide (k = k')) as [<-|Hd].
  - rewrite !lookup_insert_eq. set_solver.
  - rewrite !lookup_insert_ne, held_lookup by done. set_solver.
Qed.

Lemma held_none lu run x k : k ∉ run → held lu run x !! k = None.
Proof.
  intros Hk. destruct (held lu run x !! k) as [n|] eqn:E; [|done]. apply held_lookup in E. naive_solver.
Qed.

Lemma held_delete lu run k : held lu (run ∖ {[k]}) (vm_of k) = delete k (held lu run (vm_of k)).
Proof.
  apply map_eq. intros k'. apply option_eq. intros n. rewrite held_lookup, lookup_delete.
  case_decide as Hd; [subst k'; set_solver|]. rewrite held_lookup. set_solver.
Qed.

(** ** The reference counts, in every interleaving *)
Record counted s : Prop := {
  ct_tracker x : tracker_ok (held (last_use s) (running s) x) (tracker (vms s x));
  ct_run k : k ∈ running s → is_Some (last_use s !! k)
}.

Lemma counted_init : counted init.
Proof.
  split; cbn; [|set_solver]. intros x. unfold held. rewrite map_filter_empty, fmap_empty. apply tracker_ok_new.
Qed.

Lemma restore_tracker c p i t : let '(p', _, _, t') := ActiveVmCpu.restore_vm_pages vmid_bits c p i t in
  PrevTlb.cpu p' = c ∧ PrevTlb.tlb_version p' = TlbTracker.current_version t ∧ t' = (TlbTracker.get_version t).2.
Proof.
  unfold ActiveVmCpu.restore_vm_pages, ActiveVmPages.new.
  repeat (case_match; simplify_eq/=); done.
Qed.

Lemma counted_set_vm s x v :
  counted s → tracker_ok (held (last_use s) (running s) x) (tracker v) → counted (set_vm x v s).
Proof. intros [Ht Hr] Hv. split; cbn; [|done]. intros y. fn_cases x y; done. Qed.

Lemma counted_activate s k p t :
  counted s → k ∉ running s → PrevTlb.tlb_version p = cur s (vm_of k) →
  rc_count (TlbTracker.current (tracker (vms s (vm_of k)))) + 1 < U64 →
  t = (TlbTracker.get_version (tracker (vms s (vm_of k)))).2 →
  ∀ cs, counted (Sys (<[vm_of k := set_tracker t (vms s (vm_of k))]> (vms s)) cs (<[k := p]> (last_use s)) ({[k]} ∪ running s)).
Proof.
  intros [Ht Hr] Hk Hp Hov -> cs.
  destruct (get_version_ok _ _ k (Ht (vm_of k)) (held_none _ _ _ _ Hk) Hov) as (_ & Hok & _). split; cbn.
  - intros x. fn_cases (vm_of k) x.
    + by rewrite held_insert, Hp.
    + rewrite <-(held_ext (last_use s) (running s)); [done|set_solver|].
      intros k' <-. by rewrite lookup_insert_ne by congruence.
  - intros k' Hk'. rewrite lookup_insert. case_decide; [done|]. apply Hr. set_solver.
Qed.

Lemma drop_counted s k p :
  counted s → k ∈ running s → last_use s !! k = Some p →
  ∃ b t, ActiveVmPages.drop_ (PrevTlb.tlb_version p) (tracker (vms s (vm_of k))) = Returns (b, t) ∧
    tracker_ok (held (last_use s) (running s ∖ {[k]}) (vm_of k)) t ∧
    TlbTracker.current_version t = cur s (vm_of k).
Proof.
  intros [Ht Hr] Hk Hp.
  destruct (put_version_ok (held (last_use s) (running s) (vm_of k)) (tracker (vms s (vm_of k))) k (PrevTlb.tlb_version p))
    as (b & t & Hput & Hok & Hcur & _); [done|apply held_lookup; eauto|].
  exists b, t. unfold ActiveVmPages.drop_. rewrite Hput, held_delete. done.
Qed.

Lemma held_other s k x : x ≠ vm_of k → held (last_use s) (running s ∖ {[k]}) x = held (last_use s) (running s) x.
Proof. intros Hx. apply held_ext; [set_solver|done]. Qed.

Lemma counted_step s a o : counted s → exec vmid_bits vm_of a s = Some o → ∃ s', o = Returns s' ∧ counted s'.
Proof.
  intros Hs. pose proof Hs as [Ht Hr]. destruct a as [k c|k|k pg|c e|x|x pg|x pg|x pg|x pg f]; cbn.
  - case_match eqn:Hg; [done|]. apply orb_false_elim in Hg as [[Hk _]%orb_false_elim Hov].
    apply bool_decide_eq_false in Hk. apply negb_false_iff, andb_prop in Hov as [Hov%Z.ltb_lt _].
    pose proof (restore_tracker c (ActiveVmCpu.forget_other_cpu c (last_use s !! k)) (ids (cpus s c)) (tracker (vms s (vm_of k)))) as Hrt.
    destruct (ActiveVmCpu.restore_vm_pages _ _ _ _ _) as [[[p fs] i'] t]. intros [= <-]. eexists. split; [done|].
    destruct Hrt as (_ & Hv & Hrt). by apply counted_activate.
  - case_bool_decide as Hk; [|done]. destruct (Hr k Hk) as [p Hp]. rewrite Hp. cbn.
    destruct (drop_counted s k p Hs Hk Hp) as (b & t & -> & Hok & Hcur). intros [= <-]. eexists. split; [done|].
    split; cbn; [|intros k' ?; apply Hr; set_solver]. intros x. fn_cases (vm_of k) x; [done|].
    rewrite held_other by done. done.
  - case_bool_decide; [|done]. destruct (last_use s !! k); [|done]. cbn. destruct (valid _ !! pg); [|done].
    intros [= <-]. by eexists.
  - intros [= <-]. by eexists.
  - case_match eqn:Hov; [|done]. apply Z.ltb_lt in Hov. intros [= <-]. eexists. split; [done|].
    apply counted_set_vm; [done|]. by apply increment_ok.
  - case_bool_decide; [|done]. intros [= <-]. eexists. split; [done|]. by apply counted_set_vm.
  - intros [= <-]. eexists. split; [done|]. by apply counted_set_vm.
  - case_match; [|done]. case_bool_decide; [|done]. intros [= <-]. eexists. split; [done|]. by apply counted_set_vm.
  - destruct (valid _ !! pg); [done|]. destruct (conv _ !! pg); [case_match; [|done]|];
      intros [= <-]; (eexists; split; [done|]); by apply counted_set_vm.
Qed.

Lemma counted_reachable P s : reachable vmid_bits vm_of P s → counted s.
Proof.
  induction 1 as [|s a s' _ IH _ Hx]; [apply counted_init|].
  by destruct (counted_step s a _ IH Hx) as (s'' & [= <-] & ?).
Qed.

(** ** VMID allocation *)
Hypothesis Hbits : 0 ≤ vmid_bits ≤ 14.

Lemma next_vmid_spec i :
  0 ≤ VmIdTracker.next_vmid i < 2 ^ vmid_bits → VmIdTracker.current_version i + 1 < U64 →
  0 ≤ VmIdTracker.current_version i →
  ∃ i', VmIdTracker.next vmid_bits i =
    (VmId.mk (VmIdTracker.next_vmid i) (VmIdTracker.current_version i'), VmIdTracker.next_vmid i =? 0, i') ∧
  0 ≤ VmIdTracker.next_vmid i' < 2 ^ vmid_bits ∧
  (VmIdTracker.next_vmid i' = 0 ∨ VmIdTracker.next_vmid i' = VmIdTracker.next_vmid i + 1) ∧
  VmIdTracker.current_version i' =
    VmIdTracker.current_version i + (if VmIdTracker.next_vmid i =? 0 then 1 else 0).
Proof using Hbits.
  intros Hn Hv Hv0. exists (VmIdTracker.next vmid_bits i).2. split; [done|]. cbn.
  assert (2 ^ vmid_bits ≤ 2 ^ 14) by (apply Z.pow_le_mono_r; lia).
  assert (Hlt : VmIdTracker.next_vmid i + 1 < U64) by lia.
  assert (Hw : wrap64 (VmIdTracker.next_vmid i + 1) = VmIdTracker.next_vmid i + 1)
    by (apply Z.mod_small; lia).
  rewrite Hw, Z.shiftl_1_l, !land_mask_mod by lia.
  pose proof (Z.mod_pos_bound (VmIdTracker.next_vmid i + 1) (2 ^ vmid_bits)).
  split_and!; [lia|lia| |].
  - destruct (decide (VmIdTracker.next_vmid i + 1 = 2 ^ vmid_bits)) as [->|].
    + left. apply Z.mod_same. lia.
    + right. apply Z.mod_small. lia.
  - unfold wrap64. destruct (_ =? 0); rewrite ?Z.mod_small by lia; lia.
Qed.

(** TLB entries only disappear by a fence. *)
Lemma apply_fences_subset fs es e : e ∈ apply_fences fs es → e ∈ es.
Proof.
  unfold apply_fences. revert es. induction fs as [|f fs IH]; intros es; cbn; [done|].
  intros He%IH. destruct f; cbn in He; [by apply elem_of_empty in He|]. by apply elem_of_filter in He as [_ ?].
Qed.

(** What activating [k] on [c] does to the CPU. *)
Record activated s (k c : Z) (p : PrevTlb.t) (i' : VmIdTracker.t) (es : gset tlb_entry) : Prop := {
  ac_cpu : PrevTlb.cpu p = c;
  ac_live : live i' p;
  ac_tlb : PrevTlb.tlb_version p = cur s (vm_of k);
  ac_alloc : allocated i' (use_vmid p);
  ac_ids : 0 ≤ VmIdTracker.next_vmid i' < 2 ^ vmid_bits ∧
    VmIdTracker.current_version (cpu_ids s c) ≤ VmIdTracker.current_version i' < U64;
  ac_sub e : e ∈ es → e ∈ entries (cpus s c);
  ac_entry e : e ∈ es → allocated i' e.1.1;
  ac_reuse x pg : (use_vmid p, x, pg) ∈ es → ∃ q, last_use s !! k = Some q ∧ PrevTlb.cpu q = c ∧
    live (cpu_ids s c) q ∧ use_vmid q = use_vmid p ∧ PrevTlb.tlb_version q = PrevTlb.tlb_version p;
  ac_other k' p' : k' ≠ k → last_use s !! k' = Some p' → PrevTlb.cpu p' = c → live i' p' →
    live (cpu_ids s c) p' ∧ allocated i' (use_vmid p') ∧ use_vmid p' ≠ use_vmid p
}.

Lemma allocated_next i i' v :
  allocated i v → VmIdTracker.next_vmid i ≠ 0 →
  (VmIdTracker.next_vmid i' = 0 ∨ VmIdTracker.next_vmid i' = VmIdTracker.next_vmid i + 1) → allocated i' v.
Proof using Type. clear Hbits. unfold allocated. lia. Qed.

(** A vCPU that comes back to the CPU keeps its VMID. *)
Lemma activate_reuse s k c q :
  inv s → last_use s !! k = Some q → PrevTlb.cpu q = c → live (cpu_ids s c) q →
  activated s k c (PrevTlb.mk c (PrevTlb.vmid q) (cur s (vm_of k))) (cpu_ids s c)
    (apply_fences (match Some (PrevTlb.tlb_version q) with
                   | Some v => if v <? cur s (vm_of k) then [FenceVmid (use_vmid q)] else []
                   | None => []
                   end) (entries (cpus s c))).
Proof using Type.
  clear Hbits. intros Hinv Hq Hc Hl. destruct (i_use _ Hinv _ _ Hq) as (_ & Ht & Ha). rewrite Hc in Ha.
  split; cbn; try done.
  - by apply Ha.
  - split; [apply Hinv|]. destruct (i_ids _ Hinv c). lia.
  - apply apply_fences_subset.
  - intros e He%apply_fences_subset. by apply (i_entry _ Hinv).
  - intros x pg He. exists q. split_and!; try done.
    destruct (Z.ltb_spec (PrevTlb.tlb_version q) (cur s (vm_of k))); [|lia].
    cbn in He. apply elem_of_filter in He as [He _]. by cbn in He.
  - intros k' p' Hne Hp' Hc' Hl'. destruct (i_use _ Hinv _ _ Hp') as (_ & _ & Ha'). rewrite Hc' in Ha'.
    split_and!; [done|by apply Ha'|]. intros He. apply Hne.
    apply (i_uniq _ Hinv k' k p' q); rewrite ?Hc', ?Hc; done.
Qed.

(** Otherwise it gets a VMID that no cached translation is tagged with. *)
Lemma activate_fresh s k c :
  inv s → VmIdTracker.current_version (cpu_ids s c) + 1 < U64 →
  let '(vmid, flush, i') := VmIdTracker.next vmid_bits (cpu_ids s c) in
  activated s k c (PrevTlb.mk c vmid (cur s (vm_of k))) i'
    (apply_fences (if flush then [FenceAll] else []) (entries (cpus s c))).
Proof using Hbits.
  intros Hinv Hov. destruct (i_ids _ Hinv c) as [Hn Hv].
  destruct (next_vmid_spec (cpu_ids s c)) as (i' & -> & Hn' & Hor & Hv'); [done..|lia|].
  destruct (Z.eqb_spec (VmIdTracker.next_vmid (cpu_ids s c)) 0) as [Hz|Hz].
  - split; cbn; try done; try set_solver.
    + unfold allocated. cbn. lia.
    + lia.
    + intros k' p' _ Hp' Hc' Hl'. exfalso. destruct (i_use _ Hinv _ _ Hp') as (Hu & _). unfold live in Hl'.
      rewrite Hc' in Hu. lia.
  - rewrite Z.add_0_r in Hv'. split; cbn; try done.
    + unfold allocated. cbn. lia.
    + lia.
    + intros e He. eapply allocated_next; [by apply (i_entry _ Hinv)|done|done].
    + intros x pg He. apply (i_entry _ Hinv) in He. unfold allocated in He. cbn in He. lia.
    + intros k' p' _ Hp' Hc' Hl'. destruct (i_use _ Hinv _ _ Hp') as (_ & _ & Ha). rewrite Hc' in Ha.
      assert (live (cpu_ids s c) p') as Hl by (unfold live in *; lia). specialize (Ha Hl).
      split_and!; [done|by eapply allocated_next|]. unfold allocated in Ha. lia.
Qed.

Lemma activate_spec s k c :
  inv s → VmIdTracker.current_version (cpu_ids s c) + 1 < U64 →
  ∃ p fs i', ActiveVmCpu.restore_vm_pages vmid_bits c (ActiveVmCpu.forget_other_cpu c (last_use s !! k))
      (cpu_ids s c) (tracker (vms s (vm_of k)))
    = (p, fs, i', (TlbTracker.get_version (tracker (vms s (vm_of k)))).2) ∧
    activated s k c p i' (apply_fences fs (entries (cpus s c))).
Proof using Hbits.
  intros Hinv Hov. pose proof (activate_fresh s k c Hinv Hov) as Hfresh.
  unfold ActiveVmCpu.restore_vm_pages, ActiveVmPages.new.
  destruct (VmIdTracker.next vmid_bits (cpu_ids s c)) as [[vmid flush] i'].
  destruct (last_use s !! k) as [q|] eqn:Hq; cbn [ActiveVmCpu.forget_other_cpu].
  - destruct (Z.eqb_spec (PrevTlb.cpu q) c) as [Hc|Hc]; cbn [negb].
    + destruct (Z.eqb_spec (VmId.version (PrevTlb.vmid q)) (VmIdTracker.current_version (cpu_ids s c))) as [Hl|Hl].
      * do 3 eexists. split; [done|]. by apply (activate_reuse s k c q).
      * do 3 eexists. split; [done|]. rewrite app_nil_r. done.
    + do 3 eexists. split; [done|]. rewrite app_nil_r. done.
  - do 3 eexists. split; [done|]. rewrite app_nil_r. done.
Qed.

(** ** Preservation *)
Lemma inv_init : inv (init).
Proof using Hbits.
  assert (0 < 2 ^ vmid_bits) by lia.
  split; cbn; try done; try set_solver.
Qed.

(** Steps that leave the CPUs alone: a page leaves the page table only with the
    current version recorded, and a recorded version is dropped only once no
    running vCPU holds it. *)
Lemma inv_vms s s' :
  inv s → cpus s' = cpus s → last_use s' = last_use s → running s' ⊆ running s →
  (∀ x, tracker_ok (held (last_use s) (running s') x) (tracker (vms s' x)) ∧ cur s x ≤ cur s' x) →
  (∀ x pg f, valid (vms s x) !! pg = Some f →
     valid (vms s' x) !! pg = Some f ∨ conv (vms s' x) !! pg = Some (cur s x)) →
  (∀ x pg v, conv (vms s x) !! pg = Some v →
     conv (vms s' x) !! pg = Some v ∨ v < TlbTracker.min_version (tracker (vms s x))) →
  (∀ x pg v, conv (vms s' x) !! pg = Some v → v ≤ cur s' x ∧ valid (vms s' x) !! pg = None) →
  inv s'.
Proof using Type.
  clear Hbits. intros Hinv Hc Hl Hr Ht Hval Hcv Hconv. split; rewrite ?Hc, ?Hl.
  - apply Ht.
  - intros k Hk. apply (i_run _ Hinv). set_solver.
  - apply Hinv.
  - intros k p Hp. destruct (i_use _ Hinv k p Hp) as (? & ? & ?). destruct (Ht (vm_of k)). split_and!; [done|lia|done].
  - apply (i_uniq _ Hinv).
  - apply (i_entry _ Hinv).
  - intros k p x pg f Hp Hlv He. destruct (i_fresh _ Hinv k p x pg f Hp Hlv He) as [-> Hor]. split; [done|].
    destruct (i_use _ Hinv k p Hp) as (_ & Hle & _). destruct (Ht (vm_of k)) as [_ Hm].
    destruct (min_version_le _ _ (i_tracker _ Hinv (vm_of k))) as [Hmc Hmin].
    destruct Hor as [Hv|[(v & Hv & Hle')|[Hn Hlt]]].
    + destruct (Hval _ _ _ Hv); [by left|]. right. left. eauto.
    + destruct (Hcv _ _ _ Hv) as [|Hlt]; [by right; left; eauto|]. right. right. split; [|lia].
      intros Hk. assert (held (last_use s) (running s) (vm_of k) !! k = Some (PrevTlb.tlb_version p)) as Hh.
      { apply held_lookup. split_and!; [by apply Hr|done|eauto]. }
      apply Hmin in Hh. lia.
    + right. right. split; [set_solver|lia].
  - apply Hconv.
Qed.

(** A VM's tracker changes, its pages do not. *)
Lemma inv_set_tracker s s' x t :
  inv s → cpus s' = cpus s → last_use s' = last_use s → running s' ⊆ running s →
  vms s' = <[x := set_tracker t (vms s x)]> (vms s) →
  tracker_ok (held (last_use s) (running s') x) t → cur s x ≤ TlbTracker.current_version t →
  (∀ y, y ≠ x → held (last_use s) (running s') y = held (last_use s) (running s) y) → inv s'.
Proof using Type.
  clear Hbits. intros Hinv Hc Hl Hr Hv Ht Hcur Hheld. apply (inv_vms s); try done; rewrite Hv; intros y; fn_cases x y; try by eauto.
  - rewrite Hheld by done. split; [apply Hinv|lia].
  - intros pg v Hpg. destruct (i_conv _ Hinv x pg v Hpg). split; [lia|done].
  - apply (i_conv _ Hinv).
Qed.

(** A VM's pages change, its tracker does not. *)
Lemma inv_set_pages s x vl cv tk :
  inv s →
  (∀ pg f, valid (vms s x) !! pg = Some f → vl !! pg = Some f ∨ cv !! pg = Some (cur s x)) →
  (∀ pg v, conv (vms s x) !! pg = Some v → cv !! pg = Some v ∨ v < TlbTracker.min_version (tracker (vms s x))) →
  (∀ pg v, cv !! pg = Some v → v ≤ cur s x ∧ vl !! pg = None) →
  inv (set_vm x (VmState (tracker (vms s x)) vl cv tk) s).
Proof using Type.
  clear Hbits. intros Hinv H1 H2 H3. apply (inv_vms s); try done; cbn; intros y; fn_cases x y; try by eauto.
  - split; [apply Hinv|lia].
  - split; [apply Hinv|lia].
  - apply (i_conv _ Hinv).
Qed.

(** The set of cached translations of one CPU changes. *)
Lemma inv_set_entries s c es :
  inv s → (∀ e, e ∈ es → e ∈ entries (cpus s c) ∨
    ∃ k p pg f, k ∈ running s ∧ last_use s !! k = Some p ∧ PrevTlb.cpu p = c ∧
      valid (vms s (vm_of k)) !! pg = Some f ∧ e = (use_vmid p, vm_of k, (pg, f))) →
  inv (Sys (vms s) (<[c := CpuState (cpu_ids s c) es]> (cpus s)) (last_use s) (running s)).
Proof using Type.
  clear Hbits. intros Hinv Hes.
  assert (Hids : ∀ c', ids ((<[c := CpuState (cpu_ids s c) es]> (cpus s)) c') = cpu_ids s c').
  { intros c'. destruct (decide (c = c')) as [<-|]; [by rewrite fn_lookup_insert|by rewrite fn_lookup_insert_ne]. }
  split; cbn; try setoid_rewrite Hids; try apply Hinv.
  - intros c' e. destruct (decide (c = c')) as [<-|]; [rewrite fn_lookup_insert|rewrite fn_lookup_insert_ne by done; apply Hinv].
    cbn. intros [|(k & p & pg & f & Hk & Hp & Hc & _ & ->)]%Hes; [by apply Hinv|]. cbn.
    destruct (i_run _ Hinv k Hk) as (p' & Hp' & Hlv). simplify_eq. by apply (i_use _ Hinv k p Hp).
  - intros k p x pg f Hp Hlv. destruct (decide (c = PrevTlb.cpu p)) as [->|];
      [rewrite fn_lookup_insert|rewrite fn_lookup_insert_ne by done; by apply (i_fresh _ Hinv)].
    cbn. intros [He|(k' & p' & pg' & f' & Hk & Hp' & Hc & Hv & He)]%Hes; [by apply (i_fresh _ Hinv k p)|].
    injection He as Hid -> -> ->. destruct (i_run _ Hinv k' Hk) as (q & Hq & Hlv'). assert (q = p') as -> by congruence.
    rewrite Hc in Hlv'. assert (k = k') as <- by (apply (i_uniq _ Hinv k k' p p'); congruence). by split; [|left].
Qed.

Lemma activate_uniq s k c p i' es k1 k2 p1 p2 :
  inv s → activated s k c p i' es →
  let cs := <[c := CpuState i' es]> (cpus s) in
  <[k := p]> (last_use s) !! k1 = Some p1 → <[k := p]> (last_use s) !! k2 = Some p2 →
  PrevTlb.cpu p1 = PrevTlb.cpu p2 → live (ids (cs (PrevTlb.cpu p1))) p1 → live (ids (cs (PrevTlb.cpu p1))) p2 →
  use_vmid p1 = use_vmid p2 → k1 = k2.
Proof using Type.
  clear Hbits. intros Hinv Ha cs. pose proof (ac_cpu _ _ _ _ _ _ Ha) as Hcp. subst cs.
  intros [[<- <-]|[Hn1 H1]]%lookup_insert_Some [[<- <-]|[Hn2 H2]]%lookup_insert_Some Hc; [done|..].
  - rewrite Hcp, fn_lookup_insert. cbn. intros _ Hl He.
    destruct (ac_other _ _ _ _ _ _ Ha k2 p2) as (_ & _ & Hd); congruence.
  - rewrite Hc, Hcp, fn_lookup_insert. cbn. intros Hl _ He.
    destruct (ac_other _ _ _ _ _ _ Ha k1 p1) as (_ & _ & Hd); congruence.
  - fn_cases c (PrevTlb.cpu p1); intros Hl1 Hl2 He; [|by eapply (i_uniq _ Hinv)].
    destruct (ac_other _ _ _ _ _ _ Ha k1 p1) as (Hl1' & _); [congruence..|].
    destruct (ac_other _ _ _ _ _ _ Ha k2 p2) as (Hl2' & _); [congruence..|].
    apply (i_uniq _ Hinv k1 k2 p1 p2); first [done|by rewrite <-Hfn].
Qed.

Lemma activate_stale s k c p i' es k' p' x pg f :
  inv s → activated s k c p i' es →
  let cs := <[c := CpuState i' es]> (cpus s) in
  <[k := p]> (last_use s) !! k' = Some p' → live (ids (cs (PrevTlb.cpu p'))) p' →
  (use_vmid p', x, (pg, f)) ∈ entries (cs (PrevTlb.cpu p')) →
  x = vm_of k' ∧
  (valid (vms s x) !! pg = Some f ∨
   (∃ v, conv (vms s x) !! pg = Some v ∧ PrevTlb.tlb_version p' ≤ v) ∨
   ((k' ∉ {[k]} ∪ running s) ∧ PrevTlb.tlb_version p' < cur s x)).
Proof using Type.
  clear Hbits. intros Hinv Ha cs. pose proof (ac_cpu _ _ _ _ _ _ Ha) as Hcp. subst cs.
  intros [[<- <-]|[Hne Hp']]%lookup_insert_Some.
  - rewrite Hcp, fn_lookup_insert. cbn. intros Hl He. pose proof (ac_sub _ _ _ _ _ _ Ha _ He) as Hin.
    destruct (ac_reuse _ _ _ _ _ _ Ha _ _ He) as (q & Hq & Hqc & Hql & Hqv & Hqt).
    rewrite <-Hqv in Hin. subst c.
    destruct (i_fresh _ Hinv k q x pg f) as [-> Hor]; [done|by rewrite Hqc..|].
    split; [done|]. rewrite Hqt in Hor. pose proof (ac_tlb _ _ _ _ _ _ Ha).
    destruct Hor as [|[|[_ ?]]]; [by left|by right; left|lia].
  - intros Hl He. assert (live (cpu_ids s (PrevTlb.cpu p')) p' ∧
      (use_vmid p', x, (pg, f)) ∈ entries (cpus s (PrevTlb.cpu p'))) as [Hl' He'].
    { revert Hl He. fn_cases c (PrevTlb.cpu p'); [|done]. intros Hl He.
      split; [by eapply (ac_other _ _ _ _ _ _ Ha k' p')|]. by apply (ac_sub _ _ _ _ _ _ Ha). }
    destruct (i_fresh _ Hinv k' p' x pg f) as [-> Hor]; [done..|]. set_solver.
Qed.

Lemma inv_activate s k c p i' es t :
  inv s → k ∉ running s → activated s k c p i' es →
  tracker_ok (<[k := cur s (vm_of k)]> (held (last_use s) (running s) (vm_of k))) t →
  TlbTracker.current_version t = cur s (vm_of k) →
  (∀ k', k' ∈ running s → PrevTlb.cpu <$> last_use s !! k' ≠ Some c) →
  inv (Sys (<[vm_of k := set_tracker t (vms s (vm_of k))]> (vms s)) (<[c := CpuState i' es]> (cpus s))
    (<[k := p]> (last_use s)) ({[k]} ∪ running s)).
Proof using Type.
  clear Hbits. intros Hinv Hk Ha Ht Hcur Hidle. pose proof (ac_cpu _ _ _ _ _ _ Ha) as Hcp.
  assert (Hvm : ∀ x, let v := (<[vm_of k := set_tracker t (vms s (vm_of k))]> (vms s)) x in
    TlbTracker.current_version (tracker v) = cur s x ∧ valid v = valid (vms s x) ∧ conv v = conv (vms s x)).
  { intros x. fn_cases (vm_of k) x; done. }
  assert (Hids : ∀ c', VmIdTracker.current_version (cpu_ids s c') ≤
    VmIdTracker.current_version (ids ((<[c := CpuState i' es]> (cpus s)) c'))).
  { intros c'. fn_cases c c'; [apply Ha|lia]. }
  split; cbn.
  - intros x. fn_cases (vm_of k) x.
    + rewrite held_insert, (ac_tlb _ _ _ _ _ _ Ha) by done. done.
    + rewrite <-(held_ext (last_use s) (running s)); [apply Hinv|set_solver|].
      intros k' <-. by rewrite lookup_insert_ne by congruence.
  - intros k' Hk'. destruct (decide (k = k')) as [<-|Hne].
    { exists p. rewrite lookup_insert_eq, Hcp, fn_lookup_insert. split; [done|apply Ha]. }
    rewrite lookup_insert_ne by done. destruct (i_run _ Hinv k' ltac:(set_solver)) as (p' & Hp' & Hl).
    exists p'. split; [done|]. rewrite fn_lookup_insert_ne; [done|]. intros Hc.
    apply (Hidle k'); [set_solver|]. by rewrite Hp', Hc.
  - intros c'. fn_cases c c'; [|apply Hinv]. pose proof (ac_ids _ _ _ _ _ _ Ha). destruct (i_ids _ Hinv c). lia.
  - intros k' p' [[<- <-]|[Hne Hp']]%lookup_insert_Some; rewrite (proj1 (Hvm _)).
    { rewrite Hcp, fn_lookup_insert, (ac_tlb _ _ _ _ _ _ Ha). cbn. pose proof (ac_live _ _ _ _ _ _ Ha) as Hl.
      unfold live in *. split_and!; [lia|lia|intros _; apply Ha]. }
    destruct (i_use _ Hinv _ _ Hp') as (Hu & Htl & Hal). pose proof (Hids (PrevTlb.cpu p')). split_and!; [lia|done|].
    fn_cases c (PrevTlb.cpu p'); [|done]. intros Hl. by eapply (ac_other _ _ _ _ _ _ Ha k' p').
  - intros k1 k2 p1 p2. by apply (activate_uniq s k c p i' es).
  - intros c' e. fn_cases c c'; [apply Ha|apply Hinv].
  - intros k' p' x pg f Hp' Hl He. rewrite (proj1 (proj2 (Hvm x))), (proj2 (proj2 (Hvm x))), (proj1 (Hvm x)).
    by apply (activate_stale s k c p i' es).
  - intros x pg v. rewrite (proj1 (proj2 (Hvm x))), (proj2 (proj2 (Hvm x))), (proj1 (Hvm x)). apply Hinv.
Qed.

Lemma inv_counted s : inv s → counted s.
Proof using Type. intros Hinv. split; [apply Hinv|]. intros k (p & Hp & _)%(i_run _ Hinv). by exists p. Qed.

Lemma inv_convert s x pg :
  inv s → is_Some (valid (vms s x) !! pg) →
  inv (set_vm x (VmState (tracker (vms s x)) (delete pg (valid (vms s x)))
    (<[pg := cur s x]> (conv (vms s x))) (taken (vms s x))) s).
Proof using Type.
  clear Hbits. intros Hinv [f Hf]. apply inv_set_pages; [done|..]; intros pg' y; rewrite ?lookup_insert, ?lookup_delete;
    case_decide; simplify_eq; eauto.
  - intros (_ & Hn)%(i_conv _ Hinv). congruence.
  - intros [= <-]. split; [lia|done].
  - apply (i_conv _ Hinv).
Qed.

Lemma inv_map s x pg f :
  inv s → valid (vms s x) !! pg = None →
  (∀ v, conv (vms s x) !! pg = Some v → v < TlbTracker.min_version (tracker (vms s x))) →
  inv (set_vm x (VmState (tracker (vms s x)) (<[pg := f]> (valid (vms s x)))
    (delete pg (conv (vms s x))) (taken (vms s x))) s).
Proof using Type.
  clear Hbits. intros Hinv Hn Hmin. apply inv_set_pages; [done|..]; intros pg' y; rewrite ?lookup_insert, ?lookup_delete;
    case_decide; simplify_eq; eauto using i_conv; congruence.
Qed.

Lemma inv_step s a s' :
  inv s → atomic a → exec vmid_bits vm_of a s = Some (Returns s') → inv s'.
Proof using Hbits.
  intros Hinv Hat. pose proof (inv_counted s Hinv) as Hct.
  destruct a as [k c|k|k pg|c e|x|x pg|x pg|x pg|x pg f]; cbn; try done.
  - case_match eqn:Hg; [done|]. apply orb_false_elim in Hg as [[Hk Hid]%orb_false_elim Hov].
    apply bool_decide_eq_false in Hk. apply negb_false_iff, bool_decide_eq_true in Hid.
    apply negb_false_iff, andb_prop in Hov as [Hov%Z.ltb_lt Hov2%Z.ltb_lt].
    destruct (activate_spec s k c Hinv Hov2) as (p & fs & i' & -> & Ha). intros [= <-].
    destruct (get_version_ok _ _ k (i_tracker _ Hinv (vm_of k)) (held_none _ _ _ _ Hk) Hov) as (_ & Hok & Hcur & _).
    by apply inv_activate.
  - case_bool_decide as Hk; [|done]. destruct (i_run _ Hinv k Hk) as (p & Hp & _). rewrite Hp. cbn.
    destruct (drop_counted s k p Hct Hk Hp) as (b & t & -> & Hok & Hcur). intros [= <-].
    apply (inv_set_tracker s _ (vm_of k) t); cbn; try done; [set_solver|lia|apply held_other].
  - case_bool_decide as Hk; [|done]. destruct (last_use s !! k) as [p|] eqn:Hp; [|done]. cbn.
    destruct (valid _ !! pg) as [f|] eqn:Hf; [|done]. intros [= <-]. apply inv_set_entries; [done|].
    intros e [->%elem_of_singleton|]%elem_of_union; [right|by left]. by exists k, p, pg, f.
  - intros [= <-]. apply inv_set_entries; [done|]. intros e' [? _]%elem_of_difference. by left.
  - case_match eqn:Hov; [|done]. apply Z.ltb_lt in Hov. intros [= <-].
    destruct (increment_ok _ _ (i_tracker _ Hinv x) Hov) as [Hok Hinc].
    apply (inv_set_tracker s _ x (TlbTracker.increment (tracker (vms s x))).2); cbn; try done.
    destruct (TlbTracker.increment (tracker (vms s x))).1; [lia|]. by destruct Hinc as [-> _].
  - case_bool_decide; [|done]. intros [= <-]. by apply inv_convert.
  - destruct (valid _ !! pg) eqn:Hv; [done|]. destruct (conv _ !! pg) as [n|] eqn:Hcv; [case_match eqn:Hlt; [|done]|];
      intros [= <-]; apply inv_map; try done; intros v; rewrite Hcv; [|done]. intros [= <-]. by apply Z.ltb_lt.
Qed.

Lemma inv_reachable s : reachable vmid_bits vm_of atomic s → inv s.
Proof using Hbits.
  induction 1 as [|s a s' _ IH Ha Hx]; [apply inv_init|]. by eapply inv_step.
Qed.
End facts.

(** ** Theorems *)

(** C4: If a conversion records the TLB version and invalidates the page in one step,
    a translation that a running vCPU can use on its CPU comes from its own VM's
    page table, and it is either the current mapping of the page or that of a page
    under conversion whose recorded version is still in use, so that the page can
    not be reassigned yet. *)
Theorem no_stale_translation vmid_bits vm_of s k p x pg f :
  0 ≤ vmid_bits ≤ 14 → reachable vmid_bits vm_of atomic s →
  k ∈ running s → last_use s !! k = Some p →
  (VmId.vmid (PrevTlb.vmid p), x, (pg, f)) ∈ entries (cpus s (PrevTlb.cpu p)) →
  x = vm_of k ∧
  (valid (vms s x) !! pg = Some f ∨
   ∃ v, conv (vms s x) !! pg = Some v ∧ TlbTracker.min_version (tracker (vms s x)) ≤ v).
Proof.
  intros Hb Hr Hk Hp He. pose proof (inv_reachable _ _ Hb s Hr) as Hinv.
  destruct (i_run _ _ _ Hinv k Hk) as (p' & Hp' & Hl). assert (p' = p) as -> by congruence.
  destruct (i_fresh _ _ _ Hinv k p x pg f Hp Hl He) as [-> Hor]. split; [done|].
  destruct Hor as [|[(v & Hv & Hle)|[? _]]]; [by left| |done]. right. exists v. split; [done|].
  destruct (min_version_le _ _ (i_tracker _ _ _ Hinv (vm_of k))) as [_ Hmin].
  destruct (Hmin k (PrevTlb.tlb_version p)); [|lia]. apply held_lookup. eauto.
Qed.

(** No step of the protocol panics, whatever the interleaving of entries, exits, fences
    and conversions. *)
Lemma tlb_release_does_not_panic vmid_bits vm_of s a :
  reachable vmid_bits vm_of (λ _, True) s → exec vmid_bits vm_of a s ≠ Some Panics.
Proof.
  intros Hr Hx. apply counted_reachable in Hr. by destruct (counted_step _ _ _ _ _ Hr Hx) as (s' & ? & _).
Qed.

(** C16: A fence completes exactly when every vCPU that was running at the time has
    left or has been entered again: the minimum version in use is the current one
    if and only if all running vCPUs of the VM hold the current version. *)
Theorem fence_completes_when_vcpus_leave vmid_bits vm_of s x :
  reachable vmid_bits vm_of (λ _, True) s →
  TlbTracker.min_version (tracker (vms s x)) = TlbTracker.current_version (tracker (vms s x)) ↔
  ∀ k p, k ∈ running s → vm_of k = x → last_use s !! k = Some p →
    PrevTlb.tlb_version p = TlbTracker.current_version (tracker (vms s x)).
Proof.
  intros Hr. apply counted_reachable in Hr as [Ht _]. specialize (Ht x). split.
  - intros Hm k p Hk Hx Hp. destruct (min_version_le _ _ Ht) as [_ Hmin].
    destruct (Hmin k (PrevTlb.tlb_version p)); [apply held_lookup; eauto|lia].
  - intros Hall. unfold TlbTracker.min_version. destruct (TlbTracker.prev (tracker (vms s x))) as [q|] eqn:Hq; [|done].
    destruct (to_prev _ _ Ht q Hq) as (Hlt & Hcnt & Hpos). exfalso.
    rewrite cnt_none in Hcnt; [lia|]. intros k (Hk & Hx & p & Hp & Hv)%held_lookup. rewrite (Hall k p) in Hv by done. lia.
Qed.

(** ** Executions *)
Section run.
Context (vmid_bits : Z) (vm_of : Z → Z).

Fixpoint run (l : list action) (s : sys) : option sys :=
  match l with
  | [] => Some s
  | a :: l => match exec vmid_bits vm_of a s with Some (Returns s') => run l s' | _ => None end
  end.

Lemma run_reachable P l s s' :
  reachable vmid_bits vm_of P s → Forall P l → run l s = Some s' → reachable vmid_bits vm_of P s'.
Proof.
  revert s. induction l as [|a l IH]; intros s Hr; cbn; [by intros _ [= <-]|].
  intros [Ha Hl]%list.Forall_cons. destruct (exec _ _ a s) as [[s1|]|] eqn:Hx; try done.
  intros Hrun. eapply IH; [|done|done]. by eapply reach_step.
Qed.

Lemma run_reachable' P l s' :
  Forall P l → run l init = Some s' → reachable vmid_bits vm_of P s'.
Proof. intros. eapply run_reachable; [constructor|done..]. Qed.
End run.

(** Two VMs with two vCPUs each; VMIDs of one bit, so that they roll over. *)
Definition example_vm (k : Z) : Z := k / 2.
Definition shootdown_trace : list action :=
  [MapPage 0 100 7; Activate 0 0; Fill 0 100; Convert 0 100; Fence 0; Activate 1 1].
Definition race_trace : list action :=
  [MapPage 0 100 7; TakeVersion 0 100; Fence 0; Activate 0 0; Fill 0 100; Invalidate 0 100].
Definition after (l : list action) : sys := default init (run 1 example_vm l init).

Lemma no_stale_translation_witness :
  let s := after shootdown_trace in
  (0 : Z) = example_vm 0 ∧
  (valid (vms s 0) !! 100 = Some 7 ∨
   ∃ v, conv (vms s 0) !! 100 = Some v ∧ TlbTracker.min_version (tracker (vms s 0)) ≤ v).
Proof.
  cbv zeta. apply (no_stale_translation 1 example_vm (after shootdown_trace) 0 (PrevTlb.mk 0 (VmId.mk 0 1) 0)); [lia|..].
  - apply (run_reachable' 1 example_vm atomic shootdown_trace); [by repeat constructor|]. by vm_compute.
  - by vm_compute.
  - by vm_compute.
  - by vm_compute.
Defined.

Lemma tlb_release_does_not_panic_witness :
  exec 1 example_vm (Deactivate 0) (after shootdown_trace) ≠ Some Panics.
Proof.
  apply tlb_release_does_not_panic.
  apply (run_reachable' 1 example_vm _ shootdown_trace); [by repeat constructor|]. by vm_compute.
Defined.

Lemma fence_completes_when_vcpus_leave_witness :
  let s := after (shootdown_trace ++ [Deactivate 0]) in
  TlbTracker.min_version (tracker (vms s 0)) = TlbTracker.current_version (tracker (vms s 0)) ↔
  ∀ k p, k ∈ running s → example_vm k = 0 → last_use s !! k = Some p →
    PrevTlb.tlb_version p = TlbTracker.current_version (tracker (vms s 0)).
Proof.
  apply (fence_completes_when_vcpus_leave 1).
  apply (run_reachable' 1 example_vm _ (shootdown_trace ++ [Deactivate 0])); [by repeat constructor|]. by vm_compute.
Defined.

(** If the TLB version is taken before the page is invalidated, and a fence and an entry
    fall in between, a running vCPU caches the translation with the newer version, and the
    page counts as flushed while the translation is still there. *)
Example version_taken_early_leaves_stale_translation :
  ∃ s k p pg f v, reachable 1 example_vm (λ _, True) s ∧
    k ∈ running s ∧ last_use s !! k = Some p ∧
    (VmId.vmid (PrevTlb.vmid p), example_vm k, (pg, f)) ∈ entries (cpus s (PrevTlb.cpu p)) ∧
    conv (vms s (example_vm k)) !! pg = Some v ∧
    valid (vms s (example_vm k)) !! pg = None ∧
    v < TlbTracker.min_version (tracker (vms s (example_vm k))).
Proof.
  exists (after race_trace), 0, (PrevTlb.mk 0 (VmId.mk 0 1) 1), 100, 7, 0. split_and!.
  - apply (run_reachable' 1 example_vm _ race_trace); [by repeat constructor|]. by vm_compute.
  - by vm_compute.
  - by vm_compute.
  - by vm_compute.
  - by vm_compute.
  - by vm_compute.
  - by vm_compute.
Qed.
