(* ===== verification/VmRegions.v ===== *)
(** * Regions of guest physical address space (src/vm_pages.rs)

    [VmRegionList] is the sorted vector of at most [MAX_MEM_REGIONS] typed regions of
    a VM's address space, [VmRegionUpdater] the guard under which the type of a
    range changes. *)
From S2P Require Import Prelude Intervals RiscvPages PageInfoModel PageTableModel TlbModel.
Import VmPagesError(OverlappingVmRegion, InsufficientVmRegionSpace, VmRegionNotFound, InvalidMapRegion).

Module VmRegionType.
Inductive t :=
| Confidential
| Shared
| Mmio
| Imsic
| Pci
| Sharing (v : TlbVersion.t)
| Unsharing (v : TlbVersion.t)
| Updating.
#[global] Instance eq_dec : EqDecision t.
Proof. unfold TlbVersion.t. solve_decision. Defined.
End VmRegionType.

Module VmRegion.
Record t := mk { start : Z; end_ : Z; region_type : VmRegionType.t }.
#[global] Instance eq_dec : EqDecision t.
Proof. solve_decision. Defined.
End VmRegion.
Import VmRegion(start, end_, region_type).

Definition MAX_MEM_REGIONS : nat := 128.
Arguments MAX_MEM_REGIONS : simpl never.

Module VmRegionList.
(** The [regions] vector. *)
Abbreviation t := (list VmRegion.t).
Definition new : t := [].

(** [ArrayVec::insert]: panics when the vector is full. *)
Definition insert (i : nat) (r : VmRegion.t) (l : t) : outcome t :=
  unwrap_option (try_insert MAX_MEM_REGIONS i r l).

(** Merges the region at [index] with the one before it ... *)
Definition coalesce_prev (index : nat) (r : VmRegion.t) (l : t) : nat * Z * t :=
  match index with
  | O => (index, start r, l)
  | S i =>
      match l !! i with
      | Some prev =>
          if bool_decide (end_ prev = start r ∧ region_type prev = region_type r) then
            (i, start prev,
             delete index (<[i := VmRegion.mk (start prev) (end_ r) (region_type prev)]> l))
          else (index, start r, l)
      | None => (index, start r, l)
      end
  end.
(** ... and with the one after it. *)
Definition try_coalesce_at (index : nat) (l : t) : option nat * t :=
  match l !! index with
  | None => (None, l)
  | Some r =>
      let '(index, st, l) := coalesce_prev index r l in
      match l !! S index with
      | Some next =>
          if bool_decide (start next = end_ r ∧ region_type next = region_type r) then
            (Some index, delete index (<[S index := VmRegion.mk st (end_ next) (region_type next)]> l))
          else (Some index, l)
      | None => (Some index, l)
      end
  end.

(** The loop of [add]: the index of the first region behind [st], or [None] if the
    new region overlaps another one. *)
Fixpoint add_index (st en : Z) (l : t) : option nat :=
  match l with
  | [] => Some O
  | other :: l' =>
      if st <? start other then (if start other <? en then None else Some O)
      else if st <? end_ other then None
      else S <$> add_index st en l'
  end.

Definition add (st en : Z) (ty : VmRegionType.t) : M t VmPagesError.t unit := λ l,
  match add_index st en l with
  | None => Returns (Err OverlappingVmRegion, l)
  | Some index =>
      match try_insert MAX_MEM_REGIONS index (VmRegion.mk st en ty) l with
      | None => Returns (Err InsufficientVmRegionSpace, l)
      | Some l => Returns (Ok tt, (try_coalesce_at index l).2)
      end
  end.

(** The region lies around [st, en) and has type [ty]. *)
Definition encloses (st en : Z) (ty : VmRegionType.t) (r : VmRegion.t) : bool :=
  (start r <=? st) && (en <=? end_ r) && bool_decide (region_type r = ty).

Definition remove (st en : Z) (ty : VmRegionType.t) : M t VmPagesError.t unit := λ l,
  match position (encloses st en ty) l with
  | None => Returns (Err InvalidMapRegion, l)
  | Some index =>
      match l !! index with
      | None => Panics
      | Some r =>
          if (start r <? st) && (en <? end_ r) && bool_decide (length l = MAX_MEM_REGIONS) then
            Returns (Err InsufficientVmRegionSpace, l)
          else
            let l1 := delete index l in
            '(index, l2) ← (if start r <? st then
                              l2 ← insert index (VmRegion.mk (start r) st ty) l1;
                              mret (S index, l2)
                            else mret (index, l1) : outcome (nat * t));
            l3 ← (if en <? end_ r then insert index (VmRegion.mk en (end_ r) ty) l2
                  else mret l2 : outcome t);
            Returns (Ok tt, l3)
      end
  end.
End VmRegionList.

(** The guard's reference to the list is the list passed to [drop_]. *)
Module VmRegionUpdater.
Record t := mk { index : nat; region_type : VmRegionType.t }.
Definition new (index : nat) (ty : VmRegionType.t) : t := mk index ty.

(** [Drop]: the [index] panics when it is out of range. *)
Definition drop_ (u : t) (l : VmRegionList.t) : outcome VmRegionList.t :=
  match l !! index u with
  | None => Panics
  | Some r =>
      mret (VmRegionList.try_coalesce_at (index u)
        (<[index u := VmRegion.mk (start r) (end_ r) (region_type u)]> l)).2
  end.
(** [finish] consumes the guard, which is dropped with the new type. *)
Definition finish (new_type : VmRegionType.t) (u : t) (l : VmRegionList.t) : outcome VmRegionList.t :=
  drop_ (mk (index u) new_type) l.
End VmRegionUpdater.

Module VmRegionUpdates.
Import VmRegionList.
(** [VmRegionList::update]. *)
Definition update (st en : Z) (ty : VmRegionType.t) : M t VmPagesError.t VmRegionUpdater.t := λ l,
  match position (encloses st en ty) l with
  | None => Returns (Err VmRegionNotFound, l)
  | Some index =>
      match l !! index with
      | None => Panics
      | Some to_split =>
          let to_reserve := ((if bool_decide (start to_split ≠ st) then 1 else 0)
                             + (if bool_decide (end_ to_split ≠ en) then 1 else 0))%nat in
          if decide (MAX_MEM_REGIONS - length l < to_reserve)%nat then
            Returns (Err InsufficientVmRegionSpace, l)
          else
            '(index, l1) ← (if bool_decide (start to_split ≠ st) then
                              l1 ← insert index (VmRegion.mk (start to_split) st ty) l;
                              mret (S index, l1)
                            else mret (index, l) : outcome (nat * t));
            let l2 := <[index := VmRegion.mk st en VmRegionType.Updating]> l1 in
            l3 ← (if bool_decide (end_ to_split ≠ en) then insert (S index) (VmRegion.mk en (end_ to_split) ty) l2
                  else mret l2 : outcome t);
            Returns (Ok (VmRegionUpdater.new index ty), l3)
      end
  end.

(** The loop of [update_all], from index [i]; the closure may change a state [S]. *)
Fixpoint update_from {S} (f : VmRegion.t → S → outcome (option VmRegionType.t * S)) (fuel i : nat)
    (l : t) (s : S) : outcome (t * S) :=
  match fuel with
  | O => Panics
  | Datatypes.S fuel =>
      match l !! i with
      | None => mret (l, s)
      | Some r =>
          '(o, s) ← f r s;
          match o with
          | Some new_type =>
              let '(j, l') := try_coalesce_at i (<[i := VmRegion.mk (start r) (end_ r) new_type]> l) in
              j ← unwrap_option j; update_from f fuel (Datatypes.S j) l' s
          | None => update_from f fuel (Datatypes.S i) l s
          end
      end
  end.
(** Every turn shortens the part of the list from [i] on. *)
Definition update_all {S} (f : VmRegion.t → S → outcome (option VmRegionType.t * S)) (l : t) (s : S)
    : outcome (t * S) := update_from f (Datatypes.S (length l)) 0 l s.

Definition contains (st en : Z) (ty : VmRegionType.t) (l : t) : bool := existsb (encloses st en ty) l.

Definition find (addr : Z) (l : t) : option VmRegionType.t :=
  region_type <$> List.find (λ r, (start r <=? addr) && (addr <? end_ r)) l.
End VmRegionUpdates.
