(* ===== verification/VmRegionsFacts.v ===== *)
(** * Theorems about guest physical regions

    A region list in normal form (sorted, disjoint, no empty region, touching
    regions have different types) represents a map from addresses to types.  Every
    operation keeps the normal form and acts on the map as its name says; dropping
    an update guard without finishing restores the very same list. *)
From S2P Require Import Prelude Intervals RiscvPages PageInfoModel PageTableModel TlbModel VmRegions.
Import VmRegion(start, end_, region_type).
Import VmRegionList VmRegionUpdates.

Implicit Types (r a b : VmRegion.t) (l : list VmRegion.t) (ty : VmRegionType.t).

Abbreviation sorted := (ordered start end_).
Abbreviation region_at := (find_at start end_).
Definition type_at (x : Z) l : option VmRegionType.t := region_type <$> region_at x l.
Arguments type_at : simpl never.

(** Two regions that could be one. *)
Definition touch a b : Prop := end_ a = start b ∧ region_type a = region_type b.
#[global] Instance touch_dec a b : Decision (touch a b).
Proof. unfold touch. apply _. Defined.

Fixpoint separated l : Prop :=
  match l with
  | a :: l' => match l' with b :: _ => ¬ touch a b | [] => True end ∧ separated l'
  | [] => True
  end.

Record regions_ok l : Prop := {
  ro_sorted : sorted l;
  ro_nonempty : Forall (λ r, start r < end_ r) l;
  ro_separated : separated l;
  ro_length : (length l ≤ MAX_MEM_REGIONS)%nat
}.

Lemma find_type_at x l : find x l = type_at x l.
Proof.
  unfold find, type_at. f_equal. induction l as [|r l IH]; cbn; [done|]. unfold covers. by rewrite IH.
Qed.

Lemma separated_app l1 l2 :
  separated (l1 ++ l2) ↔ separated l1 ∧ separated l2 ∧
    ∀ a b, list.last l1 = Some a → list.head l2 = Some b → ¬ touch a b.
Proof.
  induction l1 as [|a l1 IH]; cbn [app separated]; [naive_solver|]. rewrite IH.
  destruct l1 as [|c l1]; cbn [app separated]; [destruct l2; naive_solver|].
  rewrite last_cons_cons. naive_solver.
Qed.

Lemma separated_cons r l : separated (r :: l) ↔ separated l ∧ ∀ b, list.head l = Some b → ¬ touch r b.
Proof. destruct l; cbn; naive_solver. Qed.

Lemma separated_mid l1 r l2 :
  separated (l1 ++ r :: l2) ↔ separated l1 ∧ separated l2 ∧
    (∀ a, list.last l1 = Some a → ¬ touch a r) ∧ (∀ b, list.head l2 = Some b → ¬ touch r b).
Proof. rewrite separated_app, separated_cons. cbn. naive_solver. Qed.

(** Replacing the region in the middle by one with the same borders and type. *)
Lemma touch_left a b r : touch a b → ∀ c, touch c (VmRegion.mk (start a) (end_ r) (region_type b)) ↔ touch c a.
Proof. unfold touch. intros [? Ht] c. cbn. by rewrite Ht. Qed.

(** ** Coalescing *)
Definition merge_left l1 r : list VmRegion.t * Z :=
  match list.last l1 with
  | Some a => if decide (touch a r) then (take (pred (length l1)) l1, start a) else (l1, start r)
  | None => (l1, start r)
  end.
Definition merge_right r l2 : list VmRegion.t * Z :=
  match l2 with
  | b :: l2' => if decide (touch r b) then (l2', end_ b) else (l2, end_ r)
  | [] => (l2, end_ r)
  end.
Definition merged l1 r l2 : list VmRegion.t :=
  (merge_left l1 r).1 ++ VmRegion.mk (merge_left l1 r).2 (merge_right r l2).2 (region_type r) :: (merge_right r l2).1.

Lemma insert_middle {A} (l1 l2 : list A) x y i : i = length l1 → <[i := y]> (l1 ++ x :: l2) = l1 ++ y :: l2.
Proof. intros ->. rewrite insert_app_r_alt, Nat.sub_diag by lia. done. Qed.
Lemma delete_middle' {A} (l1 l2 : list A) x i : i = length l1 → delete i (l1 ++ x :: l2) = l1 ++ l2.
Proof. intros ->. apply delete_middle. Qed.

Lemma coalesce_prev_app l1 r l2 :
  coalesce_prev (length l1) r (l1 ++ r :: l2) =
  (length (merge_left l1 r).1, (merge_left l1 r).2,
   (merge_left l1 r).1 ++ VmRegion.mk (merge_left l1 r).2 (end_ r) (region_type r) :: l2).
Proof.
  unfold merge_left. destruct l1 as [|a l1 _] using rev_ind; cbn; [by destruct r|].
  rewrite last_snoc, length_app. cbn. replace (length l1 + 1)%nat with (S (length l1)) by lia. cbn [coalesce_prev].
  rewrite <-app_assoc. cbn. rewrite list_lookup_middle by done. unfold touch.
  case_bool_decide as Hd; [rewrite decide_True by done|rewrite decide_False by done]; cbn.
  - rewrite take_app_length. destruct Hd as [_ ->]. rewrite insert_middle by done.
    rewrite (cons_middle _ l1), (app_assoc l1), delete_middle', <-app_assoc; [done|]. rewrite length_app. cbn. lia.
  - rewrite length_app. cbn. rewrite <-app_assoc. replace (S (length l1)) with (length l1 + 1)%nat by lia. by destruct r.
Qed.

Lemma coalesce_app l1 r l2 :
  try_coalesce_at (length l1) (l1 ++ r :: l2) = (Some (length (merge_left l1 r).1), merged l1 r l2).
Proof.
  unfold try_coalesce_at, merged. rewrite list_lookup_middle, coalesce_prev_app by done.
  destruct (merge_left l1 r) as [l1' st]. cbn. rewrite cons_middle, app_assoc.
  replace (S (length l1')) with (length (l1' ++ [VmRegion.mk st (end_ r) (region_type r)])) by (rewrite length_app; cbn; lia).
  unfold merge_right. destruct l2 as [|b l2].
  { rewrite app_nil_r, lookup_ge_None_2 by lia. done. }
  rewrite list_lookup_middle by done. unfold touch.
  case_bool_decide as Hd; [rewrite decide_True by naive_solver|rewrite decide_False by naive_solver]; cbn.
  - rewrite insert_middle, <-app_assoc by done. cbn. rewrite delete_middle. by destruct Hd as [_ ->].
  - by rewrite <-app_assoc.
Qed.

Lemma merge_left_cases l1 r :
  (merge_left l1 r = (l1, start r) ∧ ∀ a, list.last l1 = Some a → ¬ touch a r) ∨
  ∃ l1' a, l1 = l1' ++ [a] ∧ touch a r ∧ merge_left l1 r = (l1', start a).
Proof.
  unfold merge_left. destruct l1 as [|a l1 _] using rev_ind; [by left|]. rewrite last_snoc.
  destruct (decide (touch a r)) as [Ht|Ht]; [right|left; naive_solver].
  exists l1, a. rewrite length_app. cbn. rewrite Nat.add_comm. cbn. by rewrite take_app_length.
Qed.

Lemma merge_right_cases r l2 :
  (merge_right r l2 = (l2, end_ r) ∧ ∀ b, list.head l2 = Some b → ¬ touch r b) ∨
  ∃ b l2', l2 = b :: l2' ∧ touch r b ∧ merge_right r l2 = (l2', end_ b).
Proof.
  unfold merge_right. destruct l2 as [|b l2]; [by left|]. cbn.
  destruct (decide (touch r b)); [right; eauto|left; naive_solver].
Qed.

(** Sorted, with no empty region, and representing the type map [f]. *)
Record represents (f : Z → option VmRegionType.t) l : Prop := {
  rp_sorted : sorted l;
  rp_nonempty : Forall (λ r, start r < end_ r) l;
  rp_type x : type_at x l = f x
}.

Lemma type_at_app x l1 l2 :
  type_at x (l1 ++ l2) = match type_at x l1 with Some ty => Some ty | None => type_at x l2 end.
Proof. unfold type_at. rewrite find_at_app. by destruct (region_at x l1). Qed.

Lemma type_at_cons x r l :
  type_at x (r :: l) = if (start r <=? x) && (x <? end_ r) then Some (region_type r) else type_at x l.
Proof. unfold type_at. cbn. unfold covers. by case_match. Qed.

Lemma merge_two f l1 a b l2 :
  touch a b → represents f (l1 ++ a :: b :: l2) →
  represents f (l1 ++ VmRegion.mk (start a) (end_ b) (region_type b) :: l2).
Proof.
  intros [He Ht] [Hs Hn Hf]. rewrite list.Forall_app, !list.Forall_cons in Hn. destruct Hn as (Hn1 & Ha & Hb & Hn2).
  split.
  - revert Hs. rewrite !ordered_app, !ordered_cons. cbn. rewrite !list.Forall_cons. intros (? & (? & (? & ?) & ? & ? & ?) & Hl).
    split_and!; try done; [lia|]. eapply list.Forall_impl; [done|]. cbn. intros c. rewrite !list.Forall_cons. cbn. tauto.
  - apply list.Forall_app. split; [done|]. apply list.Forall_cons. split; [cbn; lia|done].
  - intros x. rewrite <-Hf, !type_at_app, !type_at_cons. cbn. rewrite Ht. destruct (type_at x l1); [done|].
    bool_cases.
Qed.

Lemma merged_represents f l1 r l2 : represents f (l1 ++ r :: l2) → represents f (merged l1 r l2).
Proof.
  intros Hr. unfold merged.
  assert (represents f ((merge_left l1 r).1 ++ VmRegion.mk (merge_left l1 r).2 (end_ r) (region_type r) :: l2)) as Hr'.
  { destruct (merge_left_cases l1 r) as [[-> _]|(l1' & a & -> & Ht & ->)]; cbn; [by destruct r|].
    rewrite <-app_assoc in Hr. by apply merge_two. }
  destruct (merge_right_cases r l2) as [[-> _]|(b & l2' & -> & [He Ht] & ->)]; [done|]. cbn.
  rewrite Ht. by apply (merge_two f _ (VmRegion.mk _ (end_ r) (region_type r)) b).
Qed.

Lemma merge_left_separated l1 r :
  separated l1 → separated (merge_left l1 r).1 ∧
  ∀ a en, list.last (merge_left l1 r).1 = Some a → ¬ touch a (VmRegion.mk (merge_left l1 r).2 en (region_type r)).
Proof.
  intros H1. destruct (merge_left_cases l1 r) as [[-> Hl]|(l1' & a & -> & [_ Ht] & ->)]; cbn; [split; [done|]; intros c en Hc; by apply Hl|].
  apply separated_app in H1 as (H1 & _ & H2). split; [done|].
  intros c en Hc [He Ht']. apply (H2 c a Hc eq_refl). split; [done|]. cbn in Ht'. congruence.
Qed.

Lemma merge_right_separated r l2 :
  separated l2 → separated (merge_right r l2).1 ∧
  ∀ b st, list.head (merge_right r l2).1 = Some b → ¬ touch (VmRegion.mk st (merge_right r l2).2 (region_type r)) b.
Proof.
  intros H1. destruct (merge_right_cases r l2) as [[-> Hl]|(b & l2' & -> & [_ Ht] & ->)]; cbn; [split; [done|]; intros c st Hc; by apply Hl|].
  apply separated_cons in H1 as (H1 & H2). split; [done|].
  intros c st Hc [He Ht']. apply (H2 c Hc). split; [done|]. cbn in Ht'. congruence.
Qed.

Lemma merged_separated l1 r l2 : separated l1 → separated l2 → separated (merged l1 r l2).
Proof.
  intros [H1 H2]%(merge_left_separated _ r) [H3 H4]%(merge_right_separated r). apply separated_mid. naive_solver.
Qed.

Lemma merged_length l1 r l2 :
  (length (merged l1 r l2) ≤ length (l1 ++ r :: l2) ∧
   length (merge_left l1 r).1 ≤ length l1 ∧
   length (merged l1 r l2) - length (merge_left l1 r).1 ≤ S (length l2))%nat.
Proof.
  unfold merged. rewrite !length_app. cbn.
  destruct (merge_left_cases l1 r) as [[-> Hl]|(l1' & a & -> & Ht & ->)],
    (merge_right_cases r l2) as [[-> Hr]|(b & l2' & -> & Ht' & ->)]; cbn; rewrite ?length_app; cbn; lia.
Qed.

Lemma regions_ok_iff l :
  regions_ok l ↔ represents (λ x, type_at x l) l ∧ separated l ∧ (length l ≤ MAX_MEM_REGIONS)%nat.
Proof. split; [intros [????]; split_and!; [by split|done..]|intros ([?? _] & ? & ?); by split]. Qed.

Definition is_map (f : Z → option VmRegionType.t) l : Prop := regions_ok l ∧ ∀ x, type_at x l = f x.

Lemma coalesce_ok f l1 r l2 :
  represents f (l1 ++ r :: l2) → separated l1 → separated l2 → (length (l1 ++ r :: l2) ≤ MAX_MEM_REGIONS)%nat →
  is_map f (try_coalesce_at (length l1) (l1 ++ r :: l2)).2.
Proof.
  intros Hr H1 H2 Hlen. rewrite coalesce_app. cbn. apply (merged_represents f) in Hr as [Hs Hn Hf].
  destruct (merged_length l1 r l2) as (Hl & _). split; [|done]. split; [done|done|by apply merged_separated|lia].
Qed.

(** The map with [v] on [st, en). *)
Definition on_range (st en : Z) (v : option VmRegionType.t) (f : Z → option VmRegionType.t) (x : Z) :=
  if (st <=? x) && (x <? en) then v else f x.
Definition all_range (st en : Z) (v : option VmRegionType.t) (f : Z → option VmRegionType.t) : Prop :=
  ∀ x, st ≤ x < en → f x = v.

(** Replacing one region by regions within its bounds. *)
Lemma represents_splice f l1 old mid l2 st en :
  represents f (l1 ++ old ++ l2) → sorted mid → Forall (λ r, start r < end_ r) mid →
  Forall (λ a, end_ a ≤ st) l1 → Forall (λ b, en ≤ start b) l2 →
  Forall (λ m, st ≤ start m ∧ end_ m ≤ en) mid → Forall (λ m, st ≤ start m ∧ end_ m ≤ en) old →
  represents (λ x, if (st <=? x) && (x <? en) then type_at x mid else f x) (l1 ++ mid ++ l2).
Proof.
  intros [Hs Hn Hf] Hm Hmn H1 H2 Hb Ho. split.
  - by eapply ordered_splice.
  - rewrite !list.Forall_app in *. tauto.
  - intros x. rewrite <-Hf. unfold type_at. rewrite (find_at_splice _ _ x l1 old mid l2 st en) by done. by case_match.
Qed.

Lemma sorted_around l1 r l2 :
  sorted (l1 ++ r :: l2) → Forall (λ a, end_ a ≤ start r) l1 ∧ Forall (λ b, end_ r ≤ start b) l2.
Proof.
  rewrite ordered_app, ordered_cons. intros (_ & (_ & H2 & _) & H). split; [|done].
  eapply list.Forall_impl; [done|]. cbn. by intros a [? _]%list.Forall_cons.
Qed.

(** ** Insertion *)
Lemma add_index_spec st en l :
  sorted l → Forall (λ r, start r < end_ r) l → st < en →
  match add_index st en l with
  | Some i => ∃ l1 l2, l = l1 ++ l2 ∧ i = length l1 ∧
      Forall (λ a, end_ a ≤ st) l1 ∧ Forall (λ b, en ≤ start b) l2
  | None => ¬ all_range st en None (λ x, type_at x l)
  end.
Proof.
  intros Hs Hn Hlt. induction l as [|r l IH]; cbn; [by exists [], []|].
  apply ordered_cons in Hs as (Hr & Hl & Hs). apply list.Forall_cons in Hn as [Hrn Hn]. cbn in Hrn.
  destruct (Z.ltb_spec st (start r)) as [H1|H1]; [destruct (Z.ltb_spec (start r) en) as [H2|H2]|
    destruct (Z.ltb_spec st (end_ r)) as [H2|H2]].
  - intros Ha. specialize (Ha (start r) ltac:(lia)). cbv beta in Ha. rewrite type_at_cons in Ha. bool_cases.
  - exists [], (r :: l). split_and!; [done..|]. apply list.Forall_cons. split; [done|].
    eapply list.Forall_impl; [exact Hl|]. cbn. lia.
  - intros Ha. specialize (Ha st ltac:(lia)). cbv beta in Ha. rewrite type_at_cons in Ha. bool_cases.
  - specialize (IH Hs Hn). destruct (add_index st en l) as [i|]; cbn.
    + destruct IH as (l1 & l2 & -> & -> & ? & ?). exists (r :: l1), l2. by repeat constructor.
    + intros Ha. apply IH. intros x Hx. specialize (Ha x Hx). cbv beta in Ha. rewrite type_at_cons in Ha. bool_cases.
Qed.

Lemma add_spec st en ty l :
  regions_ok l → st < en → ∃ res l', add st en ty l = Returns (res, l') ∧
    match res with
    | Ok _ => all_range st en None (λ x, type_at x l) ∧ is_map (on_range st en (Some ty) (λ x, type_at x l)) l'
    | Err e => l' = l ∧
        (e = VmPagesError.OverlappingVmRegion ∧ ¬ all_range st en None (λ x, type_at x l) ∨
         e = VmPagesError.InsufficientVmRegionSpace ∧ length l = MAX_MEM_REGIONS)
    end.
Proof.
  intros [Hs Hn Hsep Hlen] Hlt. pose proof (add_index_spec st en l Hs Hn Hlt) as Hix. unfold add.
  destruct (add_index st en l) as [i|]; [|do 2 eexists; split; [done|]; split; [done|by left]].
  destruct Hix as (l1 & l2 & -> & -> & Hl1 & Hl2). unfold try_insert.
  destruct (decide _) as [Hroom|Hfull]; [|do 2 eexists; split; [done|]; split; [done|]; right; split; [done|lia]].
  do 2 eexists. split; [done|]. rewrite insert_at_app. split.
  - intros x Hx. rewrite type_at_app. unfold type_at.
    rewrite (proj2 (find_at_None _ _ x l1)), (proj2 (find_at_None _ _ x l2)); [done|..];
      eapply list.Forall_impl; [exact Hl2| |exact Hl1|]; cbn; lia.
  - apply separated_app in Hsep as (Hs1 & Hs2 & _).
    pose proof (represents_splice (λ x, type_at x (l1 ++ l2)) l1 [] [VmRegion.mk st en ty] l2 st en) as [Ho' Hn' Hf'];
      [by split|by apply ordered_singleton; cbn; lia|by repeat constructor|done..|by repeat constructor|constructor|].
    apply coalesce_ok; [|done..|].
    + split; [done..|]. intros x. rewrite Hf'. unfold on_range. rewrite type_at_cons. cbn. by case_match.
    + rewrite length_app in *. cbn. lia.
Qed.

(** ** Finding the region of a range *)
Lemma region_at_type x l ty : type_at x l = Some ty → ∃ r, r ∈ l ∧ start r ≤ x < end_ r ∧ region_type r = ty.
Proof.
  unfold type_at. intros (r & Hr & ->)%fmap_Some. apply find_at_Some_1 in Hr as [? ?]. eauto.
Qed.

(** In normal form, a range of one type lies in one region. *)
Lemma enclosing_region st en ty l :
  regions_ok l → st < en → all_range st en (Some ty) (λ x, type_at x l) →
  ∃ r, r ∈ l ∧ encloses st en ty r = true.
Proof.
  intros [Hs Hn Hsep _] Hlt Hall. destruct (region_at_type st l ty) as (a & Ha & Hst & Hty); [apply Hall; lia|].
  exists a. split; [done|]. unfold encloses. rewrite !andb_true_iff, !Z.leb_le, bool_decide_eq_true.
  split_and!; [lia| |done]. destruct (Z.le_gt_cases en (end_ a)) as [|Hgt]; [done|exfalso].
  destruct (region_at_type (end_ a) l ty) as (b & Hb & Hbt & Hbty); [apply Hall; lia|].
  apply list_elem_of_split in Ha as (l1 & l2 & ->).
  destruct (sorted_around l1 a l2 Hs) as [H1 H2]. rewrite list.Forall_forall in H1, H2.
  apply elem_of_app in Hb as [Hb|[->|Hb]%elem_of_cons]; [apply H1 in Hb; lia|lia|].
  apply separated_mid in Hsep as (_ & _ & _ & Hd). destruct l2 as [|c l2]; [by apply elem_of_nil in Hb|].
  pose proof (H2 c ltac:(left)) as Hc. apply elem_of_cons in Hb as [->|Hb].
  { apply (Hd c eq_refl). split; [lia|congruence]. }
  rewrite cons_middle, app_assoc in Hs. apply sorted_around in Hs as [_ Hcb].
  rewrite list.Forall_forall in Hcb. apply Hcb in Hb.
  rewrite list.Forall_app, !list.Forall_cons in Hn. lia.
Qed.

Lemma encloses_spec st en ty r :
  encloses st en ty r = true ↔ start r ≤ st ∧ en ≤ end_ r ∧ region_type r = ty.
Proof. unfold encloses. rewrite !andb_true_iff, !Z.leb_le, bool_decide_eq_true. tauto. Qed.

Lemma encloses_range st en ty r l :
  sorted l → r ∈ l → encloses st en ty r = true → all_range st en (Some ty) (λ x, type_at x l).
Proof.
  intros Hs Hr (H1 & H2 & <-)%encloses_spec x Hx. unfold type_at.
  rewrite (proj2 (find_at_Some _ _ x l r Hs)); [done|]. split; [done|lia].
Qed.

Lemma position_spec st en ty l :
  regions_ok l → st < en →
  match position (encloses st en ty) l with
  | Some i => ∃ l1 r l2, l = l1 ++ r :: l2 ∧ i = length l1 ∧ start r ≤ st ∧ en ≤ end_ r ∧ region_type r = ty ∧
      all_range st en (Some ty) (λ x, type_at x l)
  | None => ¬ all_range st en (Some ty) (λ x, type_at x l)
  end.
Proof.
  intros Hok Hlt. destruct (position _ l) as [i|] eqn:Hp.
  - apply position_Some in Hp as (r & Hi & He & _). exists (take i l), r, (drop (S i) l).
    pose proof (lookup_lt_Some _ _ _ Hi). rewrite take_drop_middle, length_take by done.
    pose proof (proj1 (encloses_spec _ _ _ _) He) as (? & ? & ?).
    split_and!; try done; [lia|]. eapply encloses_range; [apply Hok| |done]. by eapply list_elem_of_lookup_2.
  - apply position_None in Hp. intros Hall. destruct (enclosing_region st en ty l Hok Hlt Hall) as (r & Hr & He).
    rewrite list.Forall_forall in Hp. apply Hp in Hr. congruence.
Qed.

(** ** Splitting a region *)
Definition before_part (r : VmRegion.t) (st : Z) : list VmRegion.t :=
  if start r <? st then [VmRegion.mk (start r) st (region_type r)] else [].
Definition after_part (r : VmRegion.t) (en : Z) : list VmRegion.t :=
  if en <? end_ r then [VmRegion.mk en (end_ r) (region_type r)] else [].

Lemma type_at_none x l : Forall (λ r, ¬ (start r ≤ x < end_ r)) l → type_at x l = None.
Proof. intros H. unfold type_at. by rewrite (proj2 (find_at_None _ _ x l)). Qed.

Lemma split_before l1 r l2 st :
  regions_ok (l1 ++ r :: l2) → start r ≤ st ≤ end_ r →
  represents (λ x, if x <? st then type_at x (l1 ++ r :: l2) else None) (l1 ++ before_part r st) ∧
  separated (l1 ++ before_part r st) ∧ Forall (λ a, end_ a ≤ st) (l1 ++ before_part r st).
Proof.
  intros [Hs Hn Hsep _] Hst. destruct (sorted_around l1 r l2 Hs) as [H1 H2].
  apply ordered_app in Hs as (Hs1 & _ & _). rewrite list.Forall_app, list.Forall_cons in Hn. destruct Hn as (Hn1 & Hrn & _).
  apply separated_mid in Hsep as (Hp1 & _ & Hp & _).
  assert (Hb : Forall (λ a, end_ a ≤ st) l1) by (eapply list.Forall_impl; [exact H1|]; cbn; lia).
  assert (Hx1 : ∀ x, st ≤ x → type_at x l1 = None).
  { intros x Hx. apply type_at_none. eapply list.Forall_impl; [exact Hb|]. cbn. lia. }
  assert (Hx2 : ∀ x, x < start r → type_at x l2 = None).
  { intros x Hx. apply type_at_none. eapply list.Forall_impl; [exact H2|]. cbn. lia. }
  unfold before_part. destruct (Z.ltb_spec (start r) st) as [Hlt|Hge].
  - split_and!; [split| |].
    + apply ordered_snoc. cbn. split_and!; [done|lia|done].
    + apply list.Forall_app. split; [done|]. by repeat constructor.
    + intros x. rewrite !type_at_app, !type_at_cons. cbn. specialize (Hx1 x). specialize (Hx2 x).
      destruct (Z.ltb_spec x st); [|rewrite Hx1 by lia]; bool_cases; destruct (type_at x l1); try done. by rewrite Hx2.
    + apply separated_mid. split_and!; [done|done| |done]. intros a Ha [He Ht]. by apply (Hp a Ha).
    + apply list.Forall_app. split; [done|]. by repeat constructor.
  - rewrite app_nil_r. split_and!; [split| |]; try done.
    intros x. rewrite type_at_app, type_at_cons. specialize (Hx1 x). specialize (Hx2 x).
    destruct (Z.ltb_spec x st); [|by rewrite Hx1]. destruct (type_at x l1); [done|]. bool_cases. by rewrite Hx2.
Qed.

Lemma split_after l1 r l2 en :
  regions_ok (l1 ++ r :: l2) → start r ≤ en ≤ end_ r →
  represents (λ x, if en <=? x then type_at x (l1 ++ r :: l2) else None) (after_part r en ++ l2) ∧
  separated (after_part r en ++ l2) ∧ Forall (λ a, en ≤ start a) (after_part r en ++ l2).
Proof.
  intros [Hs Hn Hsep _] Hen. destruct (sorted_around l1 r l2 Hs) as [H1 H2].
  apply ordered_app in Hs as (_ & (_ & _ & Hs2)%ordered_cons & _).
  rewrite list.Forall_app, list.Forall_cons in Hn. destruct Hn as (_ & Hrn & Hn2).
  apply separated_mid in Hsep as (_ & Hp2 & _ & Hp).
  assert (Hb : Forall (λ a, en ≤ start a) l2) by (eapply list.Forall_impl; [exact H2|]; cbn; lia).
  assert (Hx1 : ∀ x, en ≤ x → type_at x l1 = None).
  { intros x Hx. apply type_at_none. eapply list.Forall_impl; [exact H1|]. cbn. lia. }
  assert (Hx2 : ∀ x, x < en → type_at x l2 = None).
  { intros x Hx. apply type_at_none. eapply list.Forall_impl; [exact Hb|]. cbn. lia. }
  unfold after_part. destruct (Z.ltb_spec en (end_ r)) as [Hlt|Hge]; cbn [app].
  - split_and!; [split| |].
    + apply ordered_cons. cbn. split_and!; [lia|done|done].
    + by apply list.Forall_cons.
    + intros x. rewrite type_at_app, !type_at_cons. cbn. specialize (Hx1 x). specialize (Hx2 x).
      destruct (Z.leb_spec en x); [rewrite Hx1 by lia|]; bool_cases. by rewrite Hx2.
    + apply separated_cons. split; [done|]. intros b Hb' [He Ht]. by apply (Hp b Hb').
    + apply list.Forall_cons. split; [done|done].
  - split_and!; [split| |]; try done.
    intros x. rewrite type_at_app, type_at_cons. specialize (Hx1 x). specialize (Hx2 x).
    destruct (Z.leb_spec en x); [|by rewrite Hx2]. rewrite Hx1 by lia. bool_cases.
Qed.

(** Two halves with nothing in between, and with one region in between. *)
Lemma represents_app f1 f2 l1 l2 p q :
  represents f1 l1 → represents f2 l2 → Forall (λ a, end_ a ≤ p) l1 → Forall (λ b, q ≤ start b) l2 → p ≤ q →
  represents (λ x, match f1 x with Some ty => Some ty | None => f2 x end) (l1 ++ l2).
Proof.
  intros [Hs1 Hn1 Hf1] [Hs2 Hn2 Hf2] H1 H2 Hpq. split.
  - apply ordered_app. split_and!; [done..|]. eapply list.Forall_impl; [exact H1|]. cbn. intros a Ha.
    eapply list.Forall_impl; [exact H2|]. cbn. lia.
  - by apply list.Forall_app.
  - intros x. by rewrite type_at_app, Hf1, Hf2.
Qed.

Lemma represents_ext f g l : (∀ x, f x = g x) → represents f l → represents g l.
Proof. intros Hfg [? ? Hf]. split; [done..|]. intros x. by rewrite Hf. Qed.

Lemma represents_cons f r l :
  represents f l → start r < end_ r → Forall (λ b, end_ r ≤ start b) l →
  represents (λ x, if (start r <=? x) && (x <? end_ r) then Some (region_type r) else f x) (r :: l).
Proof.
  intros [Hs Hn Hf] Hr Hl. split.
  - apply ordered_cons. split_and!; [lia|done..].
  - by apply list.Forall_cons.
  - intros x. by rewrite type_at_cons, Hf.
Qed.

Lemma insert_room i r l :
  (length l < MAX_MEM_REGIONS)%nat → VmRegionList.insert i r l = Returns (insert_at i r l).
Proof. intros H. unfold VmRegionList.insert, try_insert. by rewrite decide_True. Qed.

Lemma remove_eq l1 r l2 st en :
  (length (l1 ++ r :: l2) ≤ MAX_MEM_REGIONS)%nat →
  position (encloses st en (region_type r)) (l1 ++ r :: l2) = Some (length l1) →
  remove st en (region_type r) (l1 ++ r :: l2) =
  Returns (if (start r <? st) && (en <? end_ r) && bool_decide (length (l1 ++ r :: l2) = MAX_MEM_REGIONS)
           then (Err VmPagesError.InsufficientVmRegionSpace, l1 ++ r :: l2)
           else (Ok tt, (l1 ++ before_part r st) ++ (after_part r en ++ l2))).
Proof.
  intros Hlen Hp. unfold remove. rewrite Hp, list_lookup_middle by done. rewrite delete_middle.
  unfold before_part, after_part. rewrite length_app in *. cbn in Hlen.
  assert (Hlen' : length (l1 ++ l2) = pred (length l1 + S (length l2))) by (rewrite length_app; lia).
  destruct (Z.ltb_spec (start r) st) as [H1|H1], (Z.ltb_spec en (end_ r)) as [H2|H2]; cbn [andb].
  - case_bool_decide as Hfull; [done|]. cbn in Hfull. rewrite insert_room by (rewrite Hlen'; lia). rewrite obind_ret. cbn.
    rewrite insert_at_app, insert_room by (rewrite length_app; cbn; lia). rewrite obind_ret.
    rewrite cons_middle, app_assoc. replace (S (length l1)) with (length (l1 ++ [VmRegion.mk (start r) st (region_type r)])) by (rewrite length_app; cbn; lia).
    by rewrite insert_at_app.
  - rewrite insert_room by (rewrite Hlen'; lia). cbn. rewrite insert_at_app. by rewrite <-app_assoc.
  - cbn. rewrite insert_room by (rewrite Hlen'; lia). cbn. rewrite insert_at_app, app_nil_r. done.
  - cbn. by rewrite app_nil_r.
Qed.

Lemma remove_spec st en ty l :
  regions_ok l → st < en → ∃ res l', remove st en ty l = Returns (res, l') ∧
    match res with
    | Ok _ => all_range st en (Some ty) (λ x, type_at x l) ∧ is_map (on_range st en None (λ x, type_at x l)) l'
    | Err e => l' = l ∧
        (e = VmPagesError.InvalidMapRegion ∧ ¬ all_range st en (Some ty) (λ x, type_at x l) ∨
         e = VmPagesError.InsufficientVmRegionSpace ∧ length l = MAX_MEM_REGIONS)
    end.
Proof.
  intros Hok Hlt. pose proof (position_spec st en ty l Hok Hlt) as Hp. pose proof (ro_length _ Hok) as Hlen.
  destruct (position _ l) as [i|] eqn:Hpos; cycle 1.
  { unfold remove. rewrite Hpos. do 2 eexists. split; [done|]. split; [done|by left]. }
  destruct Hp as (l1 & r & l2 & -> & -> & H1 & H2 & <- & Hall). rewrite remove_eq by done.
  destruct (_ && _ && _) eqn:Hfull.
  { do 2 eexists. split; [done|]. apply andb_prop in Hfull as [_ Hfull%bool_decide_eq_true]. split; [done|by right]. }
  do 2 eexists. split; [done|]. split; [done|].
  destruct (split_before l1 r l2 st Hok) as (Hr1 & Hs1 & Hb1); [lia|].
  destruct (split_after l1 r l2 en Hok) as (Hr2 & Hs2 & Hb2); [lia|].
  pose proof (represents_app _ _ _ _ st en Hr1 Hr2 Hb1 Hb2 ltac:(lia)) as [Ho Hn Hf]. split; [split|]; try done.
  - apply separated_app. split_and!; [done..|]. intros a b Ha Hb [He _].
    apply last_Some_elem_of in Ha. apply head_Some_elem_of in Hb. rewrite list.Forall_forall in Hb1, Hb2.
    apply Hb1 in Ha. apply Hb2 in Hb. lia.
  - unfold before_part, after_part in *. rewrite !length_app in *. cbn in Hlen.
    apply andb_false_iff in Hfull. rewrite bool_decide_eq_false in Hfull. cbn in Hfull.
    bool_cases; destruct Hfull as [?|?]; cbn in *; try done; lia.
  - intros x. rewrite Hf. unfold on_range. bool_cases; by destruct (type_at x _).
Qed.

(** ** Updates *)
Definition reserve r (st en : Z) : nat := length (before_part r st) + length (after_part r en).

Lemma region_update_eq l1 r l2 st en :
  (length (l1 ++ r :: l2) ≤ MAX_MEM_REGIONS)%nat → start r ≤ st → en ≤ end_ r →
  position (encloses st en (region_type r)) (l1 ++ r :: l2) = Some (length l1) →
  update st en (region_type r) (l1 ++ r :: l2) =
  Returns (if decide (MAX_MEM_REGIONS - length (l1 ++ r :: l2) < reserve r st en)%nat
           then (Err VmPagesError.InsufficientVmRegionSpace, l1 ++ r :: l2)
           else (Ok (VmRegionUpdater.mk (length (l1 ++ before_part r st)) (region_type r)),
                 (l1 ++ before_part r st) ++ VmRegion.mk st en VmRegionType.Updating :: (after_part r en ++ l2))).
Proof.
  intros Hlen Hst Hen Hp. unfold update. rewrite Hp, list_lookup_middle by done.
  unfold reserve, before_part, after_part, VmRegionUpdater.new. rewrite length_app in *. cbn in Hlen.
  destruct (Z.ltb_spec (start r) st) as [H1|H1]; [rewrite bool_decide_true by lia|rewrite bool_decide_false by lia];
  (destruct (Z.ltb_spec en (end_ r)) as [H2|H2]; [rewrite bool_decide_true by lia|rewrite bool_decide_false by lia]);
    cbn [length Nat.add]; (destruct (decide _) as [Hfull|Hroom]; [done|]); cbn [length] in Hroom.
  - rewrite insert_room by (rewrite length_app; cbn; lia). rewrite obind_ret. cbn [mret outcome_ret]. rewrite obind_ret, insert_at_app.
    rewrite (cons_middle _ l1), app_assoc, insert_middle by (rewrite length_app; cbn; lia).
    rewrite insert_room by (rewrite !length_app; cbn; lia). rewrite obind_ret, (cons_middle _ (l1 ++ _)), app_assoc.
    replace (S (S (length l1))) with (length ((l1 ++ [VmRegion.mk (start r) st (region_type r)]) ++ [VmRegion.mk st en VmRegionType.Updating])) by (rewrite !length_app; cbn; lia).
    rewrite insert_at_app, <-!app_assoc. rewrite length_app. cbn. by rewrite Nat.add_1_r.
  - rewrite insert_room by (rewrite length_app; cbn; lia). rewrite obind_ret. cbn [mret outcome_ret]. rewrite obind_ret, insert_at_app.
    rewrite (cons_middle _ l1), app_assoc, insert_middle by (rewrite length_app; cbn; lia).
    rewrite length_app. cbn. by rewrite Nat.add_1_r.
  - cbn [mret outcome_ret]. rewrite obind_ret, insert_middle by done.
    rewrite insert_room by (rewrite !length_app; cbn; lia). rewrite obind_ret, (cons_middle _ l1), app_assoc.
    replace (S (length l1)) with (length (l1 ++ [VmRegion.mk st en VmRegionType.Updating])) by (rewrite !length_app; cbn; lia).
    rewrite insert_at_app, <-!app_assoc, app_nil_r. done.
  - cbn. by rewrite insert_middle, app_nil_r by done.
Qed.

Lemma drop_updater_eq l1 r l2 ty :
  VmRegionUpdater.drop_ (VmRegionUpdater.mk (length l1) ty) (l1 ++ r :: l2) =
  Returns (merged l1 (VmRegion.mk (start r) (end_ r) ty) l2).
Proof.
  unfold VmRegionUpdater.drop_. cbn. rewrite list_lookup_middle, insert_middle by done. by rewrite coalesce_app.
Qed.

(** An [update] that is finished with type [new] or dropped ([new] is [None]). *)
Definition update_and (st en : Z) ty (new : option VmRegionType.t) : M t VmPagesError.t unit := λ l,
  match update st en ty l with
  | Returns (Ok u, l1) =>
      l2 ← (match new with Some ty' => VmRegionUpdater.finish ty' u l1 | None => VmRegionUpdater.drop_ u l1 end);
      Returns (Ok tt, l2)
  | Returns (Err e, l1) => Returns (Err e, l1)
  | Panics => Panics
  end.

Lemma update_merged l1 r l2 st en ty' :
  regions_ok (l1 ++ r :: l2) → start r ≤ st → st < en → en ≤ end_ r →
  (reserve r st en ≤ MAX_MEM_REGIONS - length (l1 ++ r :: l2))%nat →
  is_map (on_range st en (Some ty') (λ x, type_at x (l1 ++ r :: l2)))
    (merged (l1 ++ before_part r st) (VmRegion.mk st en ty') (after_part r en ++ l2)).
Proof.
  intros Hok H1 Hlt H2 Hres. pose proof (ro_length _ Hok) as Hlen.
  destruct (split_before l1 r l2 st Hok) as (Hr1 & Hs1 & Hb1); [lia|].
  destruct (split_after l1 r l2 en Hok) as (Hr2 & Hs2 & Hb2); [lia|].
  pose proof (coalesce_ok (on_range st en (Some ty') (λ x, type_at x (l1 ++ r :: l2)))
    (l1 ++ before_part r st) (VmRegion.mk st en ty') (after_part r en ++ l2)) as Hc.
  rewrite coalesce_app in Hc. apply Hc; [|done..|].
  - eapply represents_ext; [|eapply (represents_app _ _ _ _ st st Hr1)]; [|eapply (represents_cons _ (VmRegion.mk st en ty') _ Hr2)|..];
      cbn; [|done|done|done| |lia].
    + intros x. cbn. unfold on_range. bool_cases; by destruct (type_at x _).
    + apply list.Forall_cons. split; [cbn; lia|]. eapply list.Forall_impl; [exact Hb2|]. cbn. lia.
  - unfold reserve in Hres. rewrite !length_app in *. cbn in *. rewrite length_app. lia.
Qed.

(** Dropping the guard puts the parts back together. *)
Lemma update_restored l1 r l2 st en :
  separated (l1 ++ r :: l2) → start r ≤ st → en ≤ end_ r →
  merged (l1 ++ before_part r st) (VmRegion.mk st en (region_type r)) (after_part r en ++ l2) = l1 ++ r :: l2.
Proof.
  intros (_ & _ & H1 & H2)%separated_mid Hst Hen. unfold merged.
  assert (merge_left (l1 ++ before_part r st) (VmRegion.mk st en (region_type r)) = (l1, start r)) as ->.
  { unfold before_part. destruct (Z.ltb_spec (start r) st) as [Hlt|Hge].
    - unfold merge_left. rewrite last_snoc, decide_True, length_app by done. cbn. rewrite Nat.add_comm. cbn.
      by rewrite take_app_length.
    - assert (st = start r) as -> by lia. rewrite app_nil_r.
      destruct (merge_left_cases l1 (VmRegion.mk (start r) en (region_type r))) as [[-> _]|(l1' & a & -> & Ht & _)]; [done|].
      exfalso. by apply (H1 a (last_snoc _ _)). }
  assert (merge_right (VmRegion.mk st en (region_type r)) (after_part r en ++ l2) = (l2, end_ r)) as ->.
  { unfold after_part. destruct (Z.ltb_spec en (end_ r)) as [Hlt|Hge]; cbn [app].
    - unfold merge_right. by rewrite decide_True.
    - assert (en = end_ r) as -> by lia.
      destruct (merge_right_cases (VmRegion.mk st (end_ r) (region_type r)) l2) as [[-> _]|(b & l2' & -> & Ht & _)]; [done|].
      exfalso. by apply (H2 b eq_refl). }
  by destruct r.
Qed.

Lemma update_and_spec st en ty new l :
  regions_ok l → st < en → ∃ res l', update_and st en ty new l = Returns (res, l') ∧
    match res with
    | Ok _ => all_range st en (Some ty) (λ x, type_at x l) ∧
        match new with
        | Some ty' => is_map (on_range st en (Some ty') (λ x, type_at x l)) l'
        | None => l' = l
        end
    | Err e => l' = l ∧
        (e = VmPagesError.VmRegionNotFound ∧ ¬ all_range st en (Some ty) (λ x, type_at x l) ∨
         e = VmPagesError.InsufficientVmRegionSpace ∧ (MAX_MEM_REGIONS - length l < 2)%nat)
    end.
Proof.
  intros Hok Hlt. pose proof (position_spec st en ty l Hok Hlt) as Hp. pose proof (ro_length _ Hok) as Hlen.
  unfold update_and. destruct (position _ l) as [i|] eqn:Hpos; cycle 1.
  { unfold update. rewrite Hpos. do 2 eexists. split; [done|]. split; [done|by left]. }
  destruct Hp as (l1 & r & l2 & -> & -> & H1 & H2 & <- & Hall). rewrite region_update_eq by done.
  destruct (decide _) as [Hfull|Hroom].
  { do 2 eexists. split; [done|]. split; [done|right]. split; [done|].
    unfold reserve, before_part, after_part in Hfull. repeat case_match; cbn in Hfull; lia. }
  destruct new as [ty'|]; unfold VmRegionUpdater.finish; cbn [VmRegionUpdater.index]; rewrite drop_updater_eq, obind_ret; cbn;
    do 2 eexists; (split; [done|]); (split; [done|]).
  - apply update_merged; try done. lia.
  - apply update_restored; [apply Hok|done..].
Qed.

(** The guard between [update] and its end. *)
Lemma update_cases st en ty l :
  regions_ok l → st < en →
  (∃ u l1, update st en ty l = Returns (Ok u, l1) ∧ all_range st en (Some ty) (λ x, type_at x l) ∧
     VmRegionUpdater.drop_ u l1 = Returns l ∧
     ∀ ty', ∃ l2, VmRegionUpdater.finish ty' u l1 = Returns l2 ∧
       is_map (on_range st en (Some ty') (λ x, type_at x l)) l2) ∨
  (∃ e, update st en ty l = Returns (Err e, l) ∧
     (¬ all_range st en (Some ty) (λ x, type_at x l) ∨ (MAX_MEM_REGIONS - length l < 2)%nat)).
Proof.
  intros Hok Hlt. pose proof (λ new, update_and_spec st en ty new l Hok Hlt) as Hspec. unfold update_and in Hspec.
  destruct (update st en ty l) as [[[u|e] l1]|]; [left|right|by destruct (Hspec None) as (? & ? & ? & _)].
  - exists u, l1. split; [done|]. destruct (Hspec None) as (res & l' & He & Hres).
    destruct (VmRegionUpdater.drop_ u l1) as [l2|]; [|done]. cbn in He. simplify_eq. destruct Hres as [Hall ->].
    split_and!; [done..|]. intros ty'. destruct (Hspec (Some ty')) as (res & l' & He & Hres).
    destruct (VmRegionUpdater.finish ty' u l1) as [l2|]; [|done]. cbn in He. simplify_eq. exists l'. split; [done|apply Hres].
  - exists e. destruct (Hspec None) as (res & l' & He & Hres). simplify_eq. destruct Hres as [-> Hres].
    split; [done|]. naive_solver.
Qed.

(** ** [update_all] *)
Lemma retype_represents h l1 r l2 ty :
  represents h (l1 ++ r :: l2) →
  represents (λ x, if (start r <=? x) && (x <? end_ r) then Some ty else h x)
    (l1 ++ VmRegion.mk (start r) (end_ r) ty :: l2).
Proof.
  intros Hr. pose proof Hr as [Hs Hn _]. destruct (sorted_around l1 r l2 Hs) as [H1 H2].
  rewrite list.Forall_app, list.Forall_cons in Hn. destruct Hn as (_ & Hn & _).
  pose proof (represents_splice h l1 [r] [VmRegion.mk (start r) (end_ r) ty] l2 (start r) (end_ r)) as Hsp.
  eapply represents_ext; [|apply Hsp; try done].
  - intros x. cbn. rewrite type_at_cons. cbn. by case_match.
  - apply ordered_singleton. cbn. lia.
  - by repeat constructor.
  - apply list.Forall_singleton. cbn. lia.
  - apply list.Forall_singleton. cbn. lia.
Qed.

Lemma retyped_map l1 r l2 ty :
  regions_ok (l1 ++ r :: l2) →
  is_map (λ x, if (start r <=? x) && (x <? end_ r) then Some ty else type_at x (l1 ++ r :: l2))
    (merged l1 (VmRegion.mk (start r) (end_ r) ty) l2).
Proof.
  intros Hok. pose proof (proj1 (regions_ok_iff _) Hok) as (Hr & Hsep & Hlen). apply separated_mid in Hsep as (? & ? & _).
  pose proof (coalesce_ok _ l1 (VmRegion.mk (start r) (end_ r) ty) l2 (retype_represents _ l1 r l2 ty Hr)) as Hc.
  rewrite coalesce_app in Hc. apply Hc; [done..|]. rewrite length_app in *. done.
Qed.

Lemma retyped_at l1 r l2 x :
  regions_ok (l1 ++ r :: l2) →
  type_at x (l1 ++ r :: l2) =
    if (start r <=? x) && (x <? end_ r) then Some (region_type r) else type_at x (l1 ++ r :: l2).
Proof.
  intros Hok. destruct (_ && _) eqn:Hx; [|done]. apply andb_prop in Hx as [H1%Z.leb_le H2%Z.ltb_lt].
  unfold type_at. rewrite (proj2 (find_at_Some _ _ x (l1 ++ r :: l2) r (ro_sorted _ Hok))); [done|]. split; [|lia].
  apply elem_of_app. right. left.
Qed.

Section update_all.
Context (g : VmRegionType.t → option VmRegionType.t).
Let f (r : VmRegion.t) : option VmRegionType.t := g (region_type r).
Let F (r : VmRegion.t) (u : unit) : outcome (option VmRegionType.t * unit) := Returns (f r, u).
Let step (o : option VmRegionType.t) : option VmRegionType.t :=
  match o with Some ty => Some (default ty (g ty)) | None => None end.

Hypothesis Hg : ∀ ty ty', g ty = Some ty' → g ty' = None.

Lemma update_from_spec fuel l1 l2 :
  regions_ok (l1 ++ l2) → Forall (λ r, f r = None) l1 → (length l2 < fuel)%nat →
  ∃ l', update_from F fuel (length l1) (l1 ++ l2) () = Returns (l', ()) ∧ is_map (λ x, step (type_at x (l1 ++ l2))) l'.
Proof using Hg.
  revert l1 l2. induction fuel as [|fuel IH]; intros l1 l2 Hok Hl1 Hfuel; [lia|]. cbn.
  destruct l2 as [|r l2].
  { rewrite app_nil_r in *. rewrite lookup_ge_None_2 by lia. eexists. split; [done|]. split; [done|].
    intros x. destruct (type_at x l1) as [ty|] eqn:Ht; [|done]. cbn.
    destruct (region_at_type _ _ _ Ht) as (r & Hr & _ & <-). rewrite list.Forall_forall in Hl1. unfold f in Hl1.
    by rewrite (Hl1 r Hr). }
  rewrite list_lookup_middle by done. cbn in Hfuel. destruct (f r) as [ty|] eqn:Hf; cycle 1.
  { rewrite cons_middle, app_assoc in *. replace (S (length l1)) with (length (l1 ++ [r])) by (rewrite length_app; cbn; lia).
    apply IH; [done| |lia]. apply list.Forall_app. split; [done|by constructor]. }
  rewrite insert_middle, coalesce_app by done. cbn. set (r' := VmRegion.mk (start r) (end_ r) ty).
  pose proof (retyped_map l1 r l2 ty Hok) as [Hok' Hty]. fold r' in Hok', Hty.
  pose proof (λ x, retyped_at l1 r l2 x Hok) as Hat.
  generalize dependent (l1 ++ r :: l2). intros l0 _ Hty Hat. unfold merged in *.
  rewrite cons_middle, app_assoc in *.
  replace (S (length (merge_left l1 r').1)) with (length ((merge_left l1 r').1 ++ [VmRegion.mk (merge_left l1 r').2 (merge_right r' l2).2 ty])) by (rewrite length_app; cbn; lia).
  destruct (IH ((merge_left l1 r').1 ++ [VmRegion.mk (merge_left l1 r').2 (merge_right r' l2).2 ty]) (merge_right r' l2).1)
    as (l' & Hl' & Hmap); [done|..].
  - apply list.Forall_app. split; [|by repeat constructor; eapply Hg].
    destruct (merge_left_cases l1 r') as [[-> _]|(l1' & a & -> & _ & ->)]; [done|]. by apply list.Forall_app in Hl1 as [? _].
  - destruct (merge_right_cases r' l2) as [[-> _]|(b & l2' & -> & _ & ->)]; cbn in *; lia.
  - exists l'. split; [done|]. destruct Hmap as [Hl Hm]. split; [done|]. intros x. rewrite Hm, Hty.
    rewrite (Hat x). destruct (_ && _); [|done]. cbn. unfold f in Hf. rewrite Hf, (Hg _ _ Hf). done.
Qed.
End update_all.

(** ** Theorems *)
Inductive region_op :=
| Add (st en : Z) (ty : VmRegionType.t)
| Remove (st en : Z) (ty : VmRegionType.t)
| Update (st en : Z) (ty new_type : VmRegionType.t)
| UpdateAll (g : VmRegionType.t → option VmRegionType.t).

Definition region_exec (op : region_op) : M t VmPagesError.t unit :=
  match op with
  | Add st en ty => add st en ty
  | Remove st en ty => remove st en ty
  | Update st en ty new_type => update_and st en ty (Some new_type)
  | UpdateAll g => λ l, '(l', _) ← update_all (λ r u, Returns (g (region_type r), u)) l (); Returns (Ok tt, l')
  end.

(** What the operations do to the map from addresses to types, and when they may. *)
Definition region_pre (op : region_op) (f : Z → option VmRegionType.t) : Prop :=
  match op with
  | Add st en _ => all_range st en None f
  | Remove st en ty | Update st en ty _ => all_range st en (Some ty) f
  | UpdateAll _ => True
  end.
Definition region_effect (op : region_op) (f : Z → option VmRegionType.t) : Z → option VmRegionType.t :=
  match op with
  | Add st en ty => on_range st en (Some ty) f
  | Remove st en _ => on_range st en None f
  | Update st en _ new_type => on_range st en (Some new_type) f
  | UpdateAll g => λ x, match f x with Some ty => Some (default ty (g ty)) | None => None end
  end.
(** The ranges are not empty; the type that [update_all] assigns is final. *)
Definition region_op_ok (op : region_op) : Prop :=
  match op with
  | Add st en _ | Remove st en _ | Update st en _ _ => st < en
  | UpdateAll g => ∀ ty ty', g ty = Some ty' → g ty' = None
  end.


(** Guest memory with a shared part, as after a completed conversion. *)
Definition example_regions : list VmRegion.t :=
  [VmRegion.mk 0x80000000 0x80400000 VmRegionType.Confidential;
   VmRegion.mk 0x80400000 0x80600000 VmRegionType.Shared;
   VmRegion.mk 0x80600000 0x80800000 VmRegionType.Confidential].

Lemma example_regions_ok : regions_ok example_regions.
Proof.
  split.
  - unfold example_regions. rewrite !ordered_cons. cbn. split_and!; try lia; repeat constructor; cbn; try lia.
    intros i j a b _ H. by rewrite lookup_nil in H.
  - repeat constructor.
  - unfold example_regions, touch. cbn. split_and!; try done; by intros [_ ?].
  - cbn. unfold MAX_MEM_REGIONS. lia.
Qed.


(** A [VmRegionUpdater] that is dropped without [finish] leaves no trace: after an
    [update] that succeeded, the drop restores the region list exactly. *)
Theorem dropped_update_restores_regions st en ty l u l1 :
  regions_ok l → st < en → update st en ty l = Returns (Ok u, l1) → VmRegionUpdater.drop_ u l1 = Returns l.
Proof.
  intros Hok Hlt Hu. destruct (update_and_spec st en ty None l Hok Hlt) as (res & l' & He & Hres).
  unfold update_and in He. rewrite Hu in He. destruct (VmRegionUpdater.drop_ u l1) as [l2|]; [|done].
  cbn in He. simplify_eq. by destruct Hres as [_ ->].
Qed.

Lemma dropped_update_restores_regions_witness :
  VmRegionUpdater.drop_ (VmRegionUpdater.mk 1 VmRegionType.Confidential)
    [VmRegion.mk 0x80000000 0x80001000 VmRegionType.Confidential;
     VmRegion.mk 0x80001000 0x80002000 VmRegionType.Updating;
     VmRegion.mk 0x80002000 0x80400000 VmRegionType.Confidential;
     VmRegion.mk 0x80400000 0x80600000 VmRegionType.Shared;
     VmRegion.mk 0x80600000 0x80800000 VmRegionType.Confidential] = Returns example_regions.
Proof.
  apply (dropped_update_restores_regions 0x80001000 0x80002000 VmRegionType.Confidential);
    [apply example_regions_ok|lia|by vm_compute].
Defined.
