(* ===== verification/VmPages.v ===== *)
(** * The memory of a VM (src/vm_pages.rs)

    [VmPages] ties together the page tracker, the guest-stage page table, the region
    list and the TLB versions of one VM.  An operation is a step on [sys]: the
    tracker, the memory that holds the page tables, and the VM.  The VM has no IMSIC
    geometry and no IOMMU context; [P::mem_type()] is an explicit argument. *)
From S2P Require Import Prelude RiscvPages PageInfoModel Tracker Pte PageTableModel TlbModel VmRegions.
Import PageSize(Size4k).
Import VmPagesError(Paging, PageTracking, NestingTooDeep, UnalignedAddress, UnsupportedPageSize,
  AddressOverflow, InvalidMapRegion, EmptyPageRange).

Module VmPages.
Record t {L : Type} := mk {
  page_owner_id : PageOwnerId.t;
  tlb_tracker : TlbTracker.t;
  regions : VmRegionList.t;
  nesting : Z;
  root : GuestStagePageTable.t L;
  (** The page list of the [PtePagePool]. *)
  pte_pages : PageList.t
}.
Arguments t : clear implicits.
Arguments mk {L} _ _ _ _ _ _.

Definition new {L} (root : GuestStagePageTable.t L) (nesting : Z) : t L :=
  mk (GuestStagePageTable.page_owner_id root) TlbTracker.new VmRegionList.new nesting root PageList.new.
End VmPages.
Import VmPages(page_owner_id, tlb_tracker, regions, nesting, root, pte_pages).

Record sys {L : Type} := Sys { pt : PageTracker.t; memory : mem; vm : VmPages.t L }.
Arguments sys : clear implicits.
Arguments Sys {L} _ _ _.

Section lifts.
Context {L : Type}.
Implicit Types (s : sys L) (v : VmPages.t L).

Definition set_vm v s : sys L := Sys (pt s) (memory s) v.
Definition set_tlb (x : TlbTracker.t) v : VmPages.t L :=
  VmPages.mk (page_owner_id v) x (regions v) (nesting v) (root v) (pte_pages v).
Definition set_regions (x : VmRegionList.t) v : VmPages.t L :=
  VmPages.mk (page_owner_id v) (tlb_tracker v) x (nesting v) (root v) (pte_pages v).
Definition set_pool (x : PageList.t) v : VmPages.t L :=
  VmPages.mk (page_owner_id v) (tlb_tracker v) (regions v) (nesting v) (root v) x.

(** Operations on one part of the state. *)
Definition on_tracker {E A} (f : M PageTracker.t E A) : M (sys L) E A := λ s,
  match f (pt s) with
  | Returns (r, p) => Returns (r, Sys p (memory s) (vm s))
  | Panics => Panics
  end.
Definition on_table {E A} (f : M mem E A) : M (sys L) E A := λ s,
  match f (memory s) with
  | Returns (r, m) => Returns (r, Sys (pt s) m (vm s))
  | Panics => Panics
  end.
Definition on_regions {E A} (f : M VmRegionList.t E A) : M (sys L) E A := λ s,
  match f (regions (vm s)) with
  | Returns (r, l) => Returns (r, set_vm (set_regions l (vm s)) s)
  | Panics => Panics
  end.
Definition on_tlb {E A} (f : TlbTracker.t → result E A * TlbTracker.t) : M (sys L) E A := λ s,
  let '(r, x) := f (tlb_tracker (vm s)) in Returns (r, set_vm (set_tlb x (vm s)) s).
Definition min_version s : TlbVersion.t := TlbTracker.min_version (tlb_tracker (vm s)).
Definition current_version s : TlbVersion.t := TlbTracker.current_version (tlb_tracker (vm s)).

(** A [for] loop over a page-table iterator; returns the number of turns.  The
    iterator yields at most one page for each address of [vas]. *)
Fixpoint for_pages {E} (next : list Z → M mem PtError.t (option Z * list Z)) (fuel : nat) (vas : list Z)
    (body : Z → M (sys L) E unit) : M (sys L) E Z :=
  match fuel with
  | O => mret 0
  | S fuel =>
      '(o, rest) ← unwrap (on_table (next vas));
      match o with
      | None => mret 0
      | Some paddr => body paddr;; n ← for_pages next fuel rest body; mret (1 + n)
      end
  end.
Definition for_each_page {E} next (vas : list Z) (body : Z → M (sys L) E unit) : M (sys L) E Z :=
  for_pages next (S (length vas)) vas body.

(** The end of a region of [len] bytes. *)
Definition region_end (page_addr len : Z) : result VmPagesError.t Z :=
  match RawAddr.checked_increment page_addr len with
  | None => Err AddressOverflow
  | Some e => ok_or (PageAddr.new e) UnalignedAddress
  end.
End lifts.

(** ** The pool of page-table pages *)
Module PtePagePool.
Section pool.
Context {L : Type}.
Definition push (page : Page.t) : M (sys L) VmPagesError.t unit :=
  s ← get;
  l ← unwrap (on_tracker (PageList.push page (pte_pages (vm s))));
  modify (λ s, set_vm (set_pool l (vm s)) s).
Definition pop : M (sys L) VmPagesError.t (option Page.t) :=
  s ← get;
  '(p, l) ← unwrap (on_tracker (PageList.pop (pte_pages (vm s))));
  modify (λ s, set_vm (set_pool l (vm s)) s);;
  mret p.

(** The pages that successive [pop]s return. *)
Fixpoint contents (fuel : nat) (s : sys L) : list Page.t :=
  match fuel with
  | O => []
  | S fuel => match pop s with
              | Returns (Ok (Some p), s') => p :: contents fuel s'
              | _ => []
              end
  end.
Fixpoint pop_n (n : nat) : M (sys L) VmPagesError.t unit :=
  match n with O => mret tt | S n => pop;; pop_n n end.
End pool.
End PtePagePool.

(** [Page::clean] fills the page with zeros; a word that is not in the map is zero. *)
Definition clean (a : Z) (m : mem) : mem := filter (λ kv, ¬ (a ≤ kv.1 < a + 4096)) m.

(** ** Mappers *)
Module VmPagesMapper.
Section mapper.
Context `{PM : PagingMode L}.

(** [map_range] takes its pages from the pool: it is run on the pages in the order
    in which [pop] returns them, and those it used are popped. *)
Definition with_pool {A} (f : M (mem * list Page.t) PtError.t A) : M (sys L) VmPagesError.t A := λ s,
  let pool := PtePagePool.contents (Z.to_nat (PageList.len (pte_pages (vm s)))) s in
  match f (memory s, pool) with
  | Panics => Panics
  | Returns (r, (m, rest)) =>
      (PtePagePool.pop_n (length pool - length rest);; lift (map_err Paging r)) (Sys (pt s) m (vm s))
  end.

Definition check_region (page_addr num_pages : Z) (ty : VmRegionType.t) : M (sys L) VmPagesError.t unit :=
  e ← lift (ok_or (PageAddr.checked_add_pages page_addr num_pages) AddressOverflow);
  s ← get;
  if negb (VmRegionUpdates.contains page_addr e ty (regions (vm s))) then err InvalidMapRegion else mret tt.
Definition new_in_region (page_addr num_pages : Z) (ty : VmRegionType.t)
    : M (sys L) VmPagesError.t GuestStageMapper.t :=
  check_region page_addr num_pages ty;;
  s ← get;
  with_pool (GuestStagePageTable.map_range (root (vm s)) page_addr Size4k num_pages).
Definition new_in_region_mapped (page_addr num_pages : Z) (ty : VmRegionType.t)
    : M (sys L) VmPagesError.t GuestStageMapper.t :=
  check_region page_addr num_pages ty;;
  s ← get;
  on_table (with_err Paging (GuestStagePageTable.remap_range (root (vm s)) page_addr Size4k num_pages)).

Definition do_map_page (self : GuestStageMapper.t) (to_addr : Z) (page : Page.t)
    : M (sys L) VmPagesError.t unit :=
  s ← get;
  on_table (with_err Paging (GuestStageMapper.map_page (GuestStagePageTable.inner (root (vm s))) self to_addr page)).
Definition do_remap_page (self : GuestStageMapper.t) (to_addr : Z) (page : Page.t)
    : M (sys L) VmPagesError.t Z :=
  s ← get;
  on_table (with_err Paging (GuestStageMapper.remap_page (GuestStagePageTable.inner (root (vm s))) self to_addr page)).
(** Dropping the mapper drops the inner one. *)
Definition drop_ (self : GuestStageMapper.t) : M (sys L) VmPagesError.t unit :=
  s ← get;
  on_table (with_err Paging (GuestStageMapper.drop_ (GuestStagePageTable.inner (root (vm s))) self)).
End mapper.
End VmPagesMapper.

(** ** Operations *)
Module PageFaultType.
Inductive t := Confidential | Shared | Mmio | Imsic | Unmapped.
End PageFaultType.

(** The guest page faults of [Exception]; the other exceptions are alike here. *)
Inductive fault_exception := GuestLoadPageFault | GuestStorePageFault | OtherException.

Module VmPagesRef.
Section ops.
Context `{PM : PagingMode L}.
Abbreviation op A := (M (sys L) VmPagesError.t A).

Definition add_pte_page (page : Page.t) : op unit :=
  if bool_decide (Page.size page ≠ Size4k) then err (UnsupportedPageSize (Page.size page))
  else PtePagePool.push page.

Definition do_map_pages (page_addr count : Z) (ty : VmRegionType.t) : op GuestStageMapper.t :=
  if count =? 0 then err EmptyPageRange else VmPagesMapper.new_in_region page_addr count ty.
Definition do_remap_pages (page_addr count : Z) (ty : VmRegionType.t) : op GuestStageMapper.t :=
  if count =? 0 then err EmptyPageRange else VmPagesMapper.new_in_region_mapped page_addr count ty.
Definition map_imsic_pages (page_addr count : Z) : op GuestStageMapper.t :=
  do_map_pages page_addr count VmRegionType.Imsic.
Definition remap_imsic_pages (page_addr count : Z) : op GuestStageMapper.t :=
  do_remap_pages page_addr count VmRegionType.Imsic.
Definition map_pci_pages (page_addr count : Z) : op GuestStageMapper.t :=
  do_map_pages page_addr count VmRegionType.Pci.
Definition map_zero_pages (page_addr count : Z) : op GuestStageMapper.t :=
  do_map_pages page_addr count VmRegionType.Confidential.
Definition map_shared_pages (page_addr count : Z) : op GuestStageMapper.t :=
  do_map_pages page_addr count VmRegionType.Shared.
Definition map_measured_pages (page_addr count : Z) : op GuestStageMapper.t :=
  do_map_pages page_addr count VmRegionType.Confidential.

Definition do_add_region (page_addr len : Z) (ty : VmRegionType.t) : op unit :=
  e ← lift (region_end page_addr len);
  on_regions (VmRegionList.add page_addr e ty).
Definition do_remove_region (page_addr len : Z) (ty : VmRegionType.t) : op unit :=
  e ← lift (region_end page_addr len);
  on_regions (VmRegionList.remove page_addr e ty).
Definition add_mmio_region (page_addr len : Z) : op unit := do_add_region page_addr len VmRegionType.Mmio.
Definition remove_mmio_region (page_addr len : Z) : op unit := do_remove_region page_addr len VmRegionType.Mmio.
Definition add_confidential_memory_region (page_addr len : Z) : op unit :=
  do_add_region page_addr len VmRegionType.Confidential.
Definition add_pci_region (page_addr len : Z) : op unit := do_add_region page_addr len VmRegionType.Pci.

(** The end of an update guard's life: [finish] or, after an error, the drop. *)
Definition finish_update (u : VmRegionUpdater.t) (ty : VmRegionType.t) : op unit :=
  on_regions (λ l, l' ← VmRegionUpdater.finish ty u l; Returns (Ok tt, l')).
Definition or_drop_update {A} (u : VmRegionUpdater.t) (f : op A) : op A := λ s,
  match f s with
  | Returns (Err e, s) =>
      on_regions (λ l, l' ← VmRegionUpdater.drop_ u l; Returns (Err e, l')) s
  | o => o
  end.

Definition share_mem_region_begin (page_addr len : Z) : op TlbVersion.t :=
  e ← lift (region_end page_addr len);
  region ← on_regions (VmRegionUpdates.update page_addr e VmRegionType.Confidential);
  s ← get;
  invalidated ← or_drop_update region (on_table (with_err Paging
    (GuestStagePageTable.invalidate_range_sparse (root (vm s)) page_addr len
      (λ addr, PageTracker.is_mapped_page addr (page_owner_id (vm s)) MemType.Ram (pt s)))));
  version ← gets current_version;
  num_pages ← for_each_page (GuestStagePageTable.invalidate_next (root (vm s))) invalidated (λ paddr,
    page ← of_outcome (Page.new paddr);
    unwrap (on_tracker (PageTracker.unassign_page_begin page version)));
  if negb (num_pages =? 0) then
    finish_update region (VmRegionType.Sharing version);;
    mret (TlbVersion.increment version)
  else
    finish_update region VmRegionType.Shared;;
    gets min_version.

Definition share_mem_region_end (page_addr len : Z) : op unit :=
  version ← gets min_version;
  s ← get;
  unmapped ← on_table (with_err Paging (GuestStagePageTable.unmap_range (root (vm s)) page_addr len
    (λ addr, PageTracker.is_unassignable_page addr (page_owner_id (vm s)) MemType.Ram version (pt s))));
  for_each_page (GuestStagePageTable.unmap_next (root (vm s))) unmapped (λ paddr,
    unwrap (on_tracker (PageTracker.unassign_page_complete paddr (page_owner_id (vm s)) MemType.Ram version)));;
  mret tt.

(** The pages that another VM shares with this one. *)
Definition is_foreign_shared (s : sys L) (addr : Z) : bool :=
  PageTracker.is_shared_page addr MemType.Ram (pt s)
  && negb (PageTracker.is_owned addr (page_owner_id (vm s)) (pt s)).

Definition unshare_mem_region_begin (page_addr len : Z) : op TlbVersion.t :=
  e ← lift (region_end page_addr len);
  region ← on_regions (VmRegionUpdates.update page_addr e VmRegionType.Shared);
  s ← get;
  invalidated ← or_drop_update region (on_table (with_err Paging
    (GuestStagePageTable.invalidate_range_sparse (root (vm s)) page_addr len (is_foreign_shared s))));
  num_pages ← for_each_page (GuestStagePageTable.invalidate_next (root (vm s))) invalidated (λ _, mret tt);
  if negb (num_pages =? 0) then
    version ← gets current_version;
    finish_update region (VmRegionType.Unsharing version);;
    mret (TlbVersion.increment version)
  else
    finish_update region VmRegionType.Confidential;;
    gets min_version.

Definition unshare_mem_region_end (page_addr len : Z) : op unit :=
  s ← get;
  unmapped ← on_table (with_err Paging (GuestStagePageTable.unmap_range (root (vm s)) page_addr len
    (is_foreign_shared s)));
  for_each_page (GuestStagePageTable.unmap_next (root (vm s))) unmapped (λ paddr,
    unwrap (on_tracker (PageTracker.release_page_by_addr paddr (page_owner_id (vm s)))));;
  mret tt.

(** [.ok().map(|_| ty)] of a completed (un)sharing. *)
Definition on_success (ty : VmRegionType.t) (f : op unit) (s : sys L) : outcome (option VmRegionType.t * sys L) :=
  '(r, s) ← f s;
  Returns (if is_ok r then Some ty else None, s).
(** The closure does not touch the region list, which is written back at the end. *)
Definition complete_pending_unassignment (s : sys L) : outcome (sys L) :=
  let v := min_version s in
  '(l, s) ← VmRegionUpdates.update_all (λ r s,
    let len := wrap64 (VmRegion.end_ r - VmRegion.start r) in
    match VmRegion.region_type r with
    | VmRegionType.Sharing x =>
        if x <? v then on_success VmRegionType.Shared (share_mem_region_end (VmRegion.start r) len) s
        else Returns (None, s)
    | VmRegionType.Unsharing x =>
        if x <? v then on_success VmRegionType.Confidential (unshare_mem_region_end (VmRegion.start r) len) s
        else Returns (None, s)
    | _ => Returns (None, s)
    end) (regions (vm s)) s;
  Returns (set_vm (set_regions l (vm s)) s).

(** The loop that locks the pages for assignment. *)
Fixpoint lock_pages (table : GuestStagePageTable.t L) (mem_type : MemType.t) (owner : PageOwnerId.t)
    (version : TlbVersion.t) (fuel : nat) (vas : list Z) (locked_pages : PageList.t) : op PageList.t :=
  match fuel with
  | O => mret locked_pages
  | S fuel =>
      '(o, rest) ← unwrap (on_table (GuestStagePageTable.get_invalidated_next table vas));
      match o with
      | None => mret locked_pages
      | Some paddr =>
          page ← unwrap (on_tracker (PageTracker.get_converted_page mem_type paddr owner version));
          locked_pages ← unwrap (on_tracker (PageList.push page locked_pages));
          lock_pages table mem_type owner version fuel rest locked_pages
      end
  end.
Definition do_get_converted_pages (mem_type : MemType.t) (page_addr num_pages : Z) : op PageList.t :=
  if num_pages =? 0 then err EmptyPageRange
  else
    version ← gets min_version;
    s ← get;
    converted ← on_table (with_err Paging (GuestStagePageTable.get_invalidated_pages (root (vm s)) page_addr
      (wrap64 (num_pages * PageSize.bytes Size4k))
      (λ addr, PageTracker.is_converted_page addr (page_owner_id (vm s)) mem_type version (pt s))));
    lock_pages (root (vm s)) mem_type (page_owner_id (vm s)) version (S (length converted)) converted PageList.new.
Definition get_converted_pages (page_addr num_pages : Z) : op PageList.t :=
  do_get_converted_pages MemType.Ram page_addr num_pages.

(** The iterator collected: each page is fetched when it is reached. *)
Fixpoint fetch_shareable (table : GuestStagePageTable.t L) (owner : PageOwnerId.t) (fuel : nat) (vas : list Z)
    : op (list Page.t) :=
  match fuel with
  | O => mret []
  | S fuel =>
      '(o, rest) ← unwrap (on_table (GuestStagePageTable.get_mapped_next table vas));
      match o with
      | None => mret []
      | Some paddr =>
          page ← unwrap (on_tracker (PageTracker.get_shareable_page MemType.Ram paddr owner));
          ps ← fetch_shareable table owner fuel rest;
          mret (page :: ps)
      end
  end.
Definition get_shareable_pages (page_addr num_pages : Z) : op (list Page.t) :=
  s ← get;
  mapped ← on_table (with_err Paging (GuestStagePageTable.get_mapped_pages (root (vm s)) page_addr
    (wrap64 (num_pages * PageSize.bytes Size4k))
    (λ addr, PageTracker.is_shareable_page addr (page_owner_id (vm s)) MemType.Ram (pt s))));
  fetch_shareable (root (vm s)) (page_owner_id (vm s)) (S (length mapped)) mapped.

(** The walk, and the conversion of the pages at a TLB version that was read before it. *)
Definition convert_range (mem_type : MemType.t) (page_addr num_pages : Z) (version : TlbVersion.t) : op unit :=
  s ← get;
  invalidated ← on_table (with_err Paging (GuestStagePageTable.invalidate_range (root (vm s)) page_addr
    (wrap64 (num_pages * PageSize.bytes Size4k))
    (λ addr, PageTracker.is_mapped_page addr (page_owner_id (vm s)) mem_type (pt s))));
  for_each_page (GuestStagePageTable.invalidate_next (root (vm s))) invalidated (λ paddr,
    page ← of_outcome (Page.new paddr);
    unwrap (on_tracker (PageTracker.convert_page page version)));;
  mret tt.
(** No lock is held between reading the version and the walk: [others] is what other
    CPUs do to the VM in between. *)
Definition do_convert_pages_with (others : op unit) (mem_type : MemType.t) (page_addr num_pages : Z) : op unit :=
  s ← get;
  if Z.of_nat PageInfo.MAX_PAGE_OWNERS - 1 <=? nesting (vm s) then err NestingTooDeep
  else if num_pages =? 0 then err EmptyPageRange
  else
    version ← gets current_version;
    others;;
    convert_range mem_type page_addr num_pages version.
Definition do_convert_pages : MemType.t → Z → Z → op unit := do_convert_pages_with (mret tt).
Definition convert_pages (page_addr num_pages : Z) : op unit :=
  do_convert_pages MemType.Ram page_addr num_pages.

(** The loop of [reclaim_pages]: the zip asks the list first, then the addresses.
    Leaving the loop drops the list, which unlocks what is left in it. *)
Definition clean_page (page : Page.t) : op unit := modify (λ s, Sys (pt s) (clean (Page.addr page) (memory s)) (vm s)).
Fixpoint reclaim_loop (mapper : GuestStageMapper.t) (fuel : nat) (l : PageList.t) (it : PageAddrIter.t) : op unit :=
  match fuel with
  | O => mret tt
  | S fuel =>
      '(o, l) ← unwrap (on_tracker (PageList.pop l));
      match o, PageAddrIter.next it with
      | Some page, (Some addr, it) =>
          clean_page page;;
          mappable ← unwrap (on_tracker (PageTracker.reclaim_page page));
          unwrap (VmPagesMapper.do_map_page mapper addr mappable);;
          reclaim_loop mapper fuel l it
      | _, _ => unwrap (on_tracker (LockedPageList.drop_ (Z.to_nat (PageList.len l)) l))
      end
  end.
Definition reclaim_pages (page_addr num_pages : Z) : op unit :=
  converted_pages ← get_converted_pages page_addr num_pages;
  mapper ← unwrap (map_zero_pages page_addr num_pages);
  it ← of_outcome (unwrap_option (PageAddrIter.new page_addr Size4k));
  reclaim_loop mapper (S (Z.to_nat (PageList.len converted_pages))) converted_pages it;;
  VmPagesMapper.drop_ mapper.

Definition of_step (f : sys L → outcome (sys L)) : op unit := λ s,
  match f s with Returns s => Returns (Ok tt, s) | Panics => Panics end.
(** If the VM has an IOMMU context, [iommu_fence] is [Iommu::get().unwrap().fence(gscid, None)]:
    it changes the IOMMU and nothing of the VM, but it may panic. *)
Definition initiate_fence (iommu_fence : option (outcome unit)) : op unit :=
  flush_completed ← on_tlb TlbTracker.increment;
  match iommu_fence with Some fence => of_outcome fence | None => mret tt end;;
  if flush_completed : bool then of_step complete_pending_unassignment else mret tt.

Definition get_page_fault_cause (exception : fault_exception) (fault_addr : Z) (s : sys L) : PageFaultType.t :=
  match VmRegionUpdates.find fault_addr (regions (vm s)) with
  | Some VmRegionType.Confidential => PageFaultType.Confidential
  | Some VmRegionType.Shared => PageFaultType.Shared
  | Some VmRegionType.Mmio =>
      match exception with
      | GuestLoadPageFault | GuestStorePageFault => PageFaultType.Mmio
      | _ => PageFaultType.Unmapped
      end
  | Some VmRegionType.Imsic =>
      match exception with GuestStorePageFault => PageFaultType.Imsic | _ => PageFaultType.Unmapped end
  | _ => PageFaultType.Unmapped
  end.

(** [ActiveVmPages::drop]: the last user of an old version completes what waited
    for the flush. *)
Definition exit_vm (tlb_version : TlbVersion.t) (s : sys L) : outcome (sys L) :=
  '(flush_completed, x) ← ActiveVmPages.drop_ tlb_version (tlb_tracker (vm s));
  let s := set_vm (set_tlb x (vm s)) s in
  if flush_completed : bool then complete_pending_unassignment s else Returns s.
End ops.
End VmPagesRef.
