(* ===== verification/VmPagesFacts.v ===== *)
(** * Theorems about the memory of a VM

    Conversion of pages end to end: [convert_pages] moves exactly the mapped pages
    of the range to [Converting], [get_converted_pages] hands out only pages whose
    TLB flush has completed, and what goes wrong for addresses beyond the width of
    the page table. *)
From S2P Require Import Prelude Intervals RiscvPages PageInfoModel PageMapModel Tracker TrackerFacts PageListFacts Pte PteFacts PageTableModel PageTableFacts PageTableOps GuestTableFacts TlbModel TlbTrackerFacts VmRegions VmRegionsFacts VmPages.
Import PageSize(Size4k).
Import VmPages(page_owner_id, tlb_tracker, regions, nesting, root, pte_pages).

(** ** Loops over the pages of a range *)
Section loops.
Context {L : Type}.
Implicit Types s : sys L.

(** The body works on the tracker only, so the table and the tracker can be looked
    at one after the other. *)
Lemma for_pages_drain next fuel vas ps body (f : Z → M PageTracker.t VmPagesError.t unit) s m' t' :
  (∀ a s, body a s = on_tracker (f a) s) →
  drain_iter next fuel vas (memory s) = Returns (Ok ps, m') →
  for_each ps f (pt s) = Returns (Ok tt, t') →
  for_pages next fuel vas body s = Returns (Ok (Z.of_nat (length ps)), Sys t' m' (vm s)).
Proof.
  intros Hb. revert vas ps s. induction fuel as [|fuel IH]; intros vas ps s; cbn [drain_iter for_pages].
  { intros [= <- <-] [= <-]. by destruct s. }
  intros (x & m1 & Hn & Hd)%bind_inv_ok Hf. destruct x as [o rest].
  erewrite bind_ok by (unfold unwrap, on_table; by rewrite Hn). cbv beta iota.
  destruct o as [a|]; [|injection Hd as <- <-; injection Hf as <-; done].
  apply bind_inv_ok in Hd as (ps' & m2 & Hd & [= <- <-]). cbn in Hf.
  apply bind_inv_ok in Hf as ([] & t1 & Ha & Hf).
  erewrite bind_ok by (rewrite Hb; unfold on_tracker; cbn; by rewrite Ha).
  erewrite bind_ok by (by apply (IH rest ps' (Sys t1 m1 (vm s)))). cbn [length].
  by rewrite Nat2Z.inj_succ, <-Z.add_1_l.
Qed.

(** A page record update for each page of a list without duplicates. *)
Lemma for_each_update (f : PageInfo.t → PageInfo.t) (op : Z → M PageTracker.t VmPagesError.t unit) ps t :
  tracker_wf t → NoDup ps → Forall phys ps →
  (∀ a, a ∈ ps → ∃ p, get_page t a = Some p ∧ page_info_wf (f p) ∧
     ∀ t', get_page t' a = Some p → op a t' = Returns (Ok tt, set_page a (f p) t')) →
  ∃ t', for_each ps op t = Returns (Ok tt, t') ∧ tracker_wf t' ∧
    ∀ a, phys a → get_page t' a = if decide (a ∈ ps) then f <$> get_page t a else get_page t a.
Proof.
  revert t. induction ps as [|a ps IH]; intros t Hwf Hnd Hph Hop.
  { exists t. split_and!; [done..|]. intros a _. by rewrite decide_False by apply not_elem_of_nil. }
  apply list.NoDup_cons in Hnd as [Hn Hnd]. apply list.Forall_cons in Hph as [Ha Hph].
  destruct (Hop a ltac:(left)) as (p & Hp & Hpw & Hpa). cbn [for_each].
  assert (Hwf1 : tracker_wf (set_page a (f p) t)) by by eapply tracker_wf_set_page.
  assert (Hother : ∀ b, phys b → a ≠ b → get_page (set_page a (f p) t) b = get_page t b).
  { intros b Hb Hab. apply get_page_set_ne; [apply Hwf|done..]. }
  destruct (IH (set_page a (f p) t)) as (t' & Hf & Hwf' & Hg); [done..| |].
  { intros b Hb. rewrite list.Forall_forall in Hph. rewrite Hother by (try apply Hph; set_solver). apply Hop. by right. }
  exists t'. split_and!; [by erewrite bind_ok by by apply Hpa|done|]. intros b Hb. rewrite Hg by done.
  destruct (decide (a = b)) as [<-|Hab].
  - rewrite decide_False by done. rewrite decide_True by (by left).
    rewrite (get_page_set_eq t a (f p) p), Hp by (try apply Hwf; done). done.
  - rewrite Hother by done. destruct (decide (b ∈ ps)) as [Hin|Hni].
    + by rewrite decide_True by by right.
    + rewrite decide_False; [done|]. by intros [?|?]%elem_of_cons.
Qed.
End loops.

(** ** The invariant of a VM *)
Section vm.
Context `{PL : PagingLaws L} {FP : Footprint}.
Implicit Types s : sys L.

Abbreviation table s := (GuestStagePageTable.inner (root (vm s))).
Abbreviation translate s va := (lookup (table s) (memory s) va).
Abbreviation page_no := (leaf_no L Size4k).

(** The page that an entry maps, or mapped before it was invalidated. *)
Definition frame (x : option mapping) : option Z :=
  match leaf_4k x with Some pa => Some pa | None => invalidated_4k x end.

(** The table is well formed, and a page of this VM is referenced by one entry only
    and is not on a list. *)
Record vm_ok s (pages : list Page.t) : Prop := {
  vo_table : pt_state (table s) (memory s) pages;
  vo_tracker : tracker_wf (pt s);
  vo_excl va va' pa : frame (translate s va) = Some pa → frame (translate s va') = Some pa →
    PageTracker.is_owned pa (page_owner_id (vm s)) (pt s) = true → page_no va = page_no va';
  vo_unlinked va pa p : frame (translate s va) = Some pa → get_page (pt s) pa = Some p →
    PageInfo.owner p = Some (page_owner_id (vm s)) → PageInfo.link_ p = None
}.

Lemma frame_phys self m pages va pa : pt_state self m pages → frame (lookup self m va) = Some pa → phys pa.
Proof using PL.
  intros Hst. destruct (walk_lookup self m pages va Hst) as (T & e & _ & _ & _ & _ & -> & _).
  set (v := read_pte m (TableEntryMut.pte e)). assert (0 ≤ Pte.pfn v < 2 ^ 44) as Hp.
  { unfold Pte.pfn, Pte.PFN_MASK, Pte.PFN_BITS. rewrite Z.shiftl_1_l, land_mask_mod by lia. by apply Z.mod_pos_bound. }
  unfold frame. destruct (pkind v), (leaf_page_size (TableEntryMut.level e)); cbn; intros [= <-];
    (split; [lia|by rewrite Z.mod_mul]).
Qed.

Lemma frame_leaf x pa : leaf_4k x = Some pa → frame x = Some pa.
Proof using Type. unfold frame. by intros ->. Qed.
Lemma frame_invalidated x pa : invalidated_4k x = Some pa → frame x = Some pa.
Proof using Type. unfold frame. destruct x as [[[] [] ?]|]; done. Qed.

Lemma frame_invalidate x pa : frame (invalidated x) = Some pa → frame x = Some pa.
Proof using Type.
  unfold invalidated. destruct (leaf_4k x) as [pa'|] eqn:Hl; [|done]. unfold idle. case_match; [done|].
  intros [= <-]. by apply frame_leaf.
Qed.

(** The pages that the entries of a range refer to, in order. *)
Definition table_pages (f : option mapping → option Z) s (vas : list Z) : list Z := omap (λ va, f (translate s va)) vas.
Abbreviation mapped_pages := (table_pages leaf_4k).
Abbreviation blocked_pages := (table_pages invalidated_4k).

Lemma elem_of_table_pages f s vas pa :
  pa ∈ table_pages f s vas ↔ ∃ va, va ∈ vas ∧ f (translate s va) = Some pa.
Proof using Type. unfold table_pages. by rewrite list_elem_of_omap. Qed.

Lemma table_pages_NoDup f s pages vas :
  vm_ok s pages → (∀ x pa, f x = Some pa → frame x = Some pa) → NoDup (page_no <$> vas) →
  (∀ va pa, va ∈ vas → f (translate s va) = Some pa → PageTracker.is_owned pa (page_owner_id (vm s)) (pt s) = true) →
  NoDup (table_pages f s vas).
Proof using Type.
  intros Hok Hf. induction vas as [|va vas IH]; intros Hnd Hown; [constructor|]. cbn in Hnd.
  apply list.NoDup_cons in Hnd as [Hn Hnd]. unfold table_pages. cbn [omap list_omap].
  assert (NoDup (table_pages f s vas)) by (apply IH; [done|]; intros va' pa Hin; apply Hown; by right).
  destruct (f (translate s va)) as [pa|] eqn:Hl; [|done]. apply list.NoDup_cons. split; [|done].
  intros (va' & Hin & Hl')%elem_of_table_pages. apply Hn.
  rewrite (vo_excl _ _ Hok va va' pa); [by apply list_elem_of_fmap_2|by apply Hf..|].
  apply (Hown va); [by left|done].
Qed.

(** The mapped pages of [vas] left the table for state [st] of the tracker. *)
Record begun s s' (pages : list Page.t) (vas : list Z) (st : PageState.t) : Prop := {
  bg_ok : vm_ok s' pages;
  bg_table : mapped_over (table s) (memory s) (memory s') vas invalidated;
  bg_tracker pa : phys pa → get_page (pt s') pa =
    if decide (pa ∈ mapped_pages s vas) then PageInfo.set_state st <$> get_page (pt s) pa else get_page (pt s) pa
}.

Lemma vm_ok_begun s pages vas st m' t' :
  vm_ok s pages → pt_state (table s) m' pages → tracker_wf t' →
  mapped_over (table s) (memory s) m' vas invalidated →
  (∀ pa, phys pa → get_page t' pa =
    if decide (pa ∈ mapped_pages s vas) then PageInfo.set_state st <$> get_page (pt s) pa else get_page (pt s) pa) →
  (∀ pa q, pa ∈ mapped_pages s vas → get_page (pt s) pa = Some q →
    PageInfo.owner (PageInfo.set_state st q) = PageInfo.owner q) →
  begun s (Sys t' m' (vm s)) pages vas st.
Proof using PL.
  intros Hok Hst Hwf Hm Ht Ho.
  assert (Hframe : ∀ va pa, frame (lookup (table s) m' va) = Some pa → frame (translate s va) = Some pa ∧ phys pa).
  { intros va pa Hf. split; [|by eapply frame_phys]. rewrite Hm in Hf. case_decide; [|done]. by apply frame_invalidate. }
  assert (Hpage : ∀ pa p, phys pa → get_page t' pa = Some p → ∃ q, get_page (pt s) pa = Some q ∧
    PageInfo.owner p = PageInfo.owner q ∧ PageInfo.link_ p = PageInfo.link_ q).
  { intros pa p Hpa. rewrite Ht by done. case_decide; [|by exists p]. intros (q & Hq & ->)%fmap_Some. exists q.
    split_and!; [done|by eapply Ho|done]. }
  split; cbn; [|done|done]. split; cbn; [done|done| |].
  - intros va va' pa [Hf Hpa]%Hframe [Hf' _]%Hframe (p & Hp & Hpo)%query_true.
    apply (vo_excl _ _ Hok va va' pa); [done..|]. destruct (Hpage _ _ Hpa Hp) as (q & Hq & Hoq & _).
    apply query_true. exists q. split; [done|]. by rewrite <-Hoq.
  - intros va pa p [Hf Hpa]%Hframe Hp Hpo. destruct (Hpage _ _ Hpa Hp) as (q & Hq & Hoq & ->).
    apply (vo_unlinked _ _ Hok va pa); [done..|]. by rewrite <-Hoq.
Qed.

Lemma begin_spec s pages a len sparse mt st body (op : Z → M PageTracker.t VmPagesError.t unit) :
  let vas := page_seq a Size4k (Z.to_nat (PageSize.num_4k_pages len)) in
  let pred addr := PageTracker.is_mapped_page addr (page_owner_id (vm s)) mt (pt s) in
  vm_ok s pages → 0 ≤ a → a mod 4096 = 0 →
  a + PageSize.num_4k_pages len * 4096 < U64 → PageSize.num_4k_pages len * 4096 ≤ 2 ^ abits L →
  (∀ x s, body x s = on_tracker (op x) s) →
  (∀ pa p t, phys pa → PageInfo.state p = PageState.Mapped → get_page t pa = Some p →
     op pa t = Returns (Ok tt, set_page pa (PageInfo.set_state st p) t)) →
  (∃ v, st = PageState.Converting v ∨ st = PageState.Unassigning v) →
  ∃ r, GuestStagePageTable.do_invalidate_range (root (vm s)) a len sparse pred (memory s) = Returns (r, memory s) ∧
    match r with
    | Err _ => ∃ va, va ∈ vas ∧ ¬ invalidate_ok sparse pred (translate s va)
    | Ok it => it = vas ∧ (∀ va, va ∈ vas → invalidate_ok sparse pred (translate s va)) ∧
        ∃ s', for_each_page (GuestStagePageTable.invalidate_next (root (vm s))) it body s
            = Returns (Ok (Z.of_nat (length (mapped_pages s vas))), s') ∧ vm s' = vm s ∧ begun s s' pages vas st
    end.
Proof using PL.
  intros vas pred Hok H0 Hal Hb Hab Hbody Hop (v & Hv).
  destruct (invalidate_range_drained (root (vm s)) (memory s) pages a len sparse pred) as (r & Hr & Hd);
    [apply Hok|done..|]. exists r. split; [done|]. destruct r as [it|]; [|done].
  destruct Hd as (-> & Hall & m' & Hd & Hst & Hm). split_and!; [done..|].
  assert (Hmapped : ∀ pa, pa ∈ mapped_pages s vas → phys pa ∧ ∃ p, get_page (pt s) pa = Some p ∧
    PageInfo.state p = PageState.Mapped ∧ PageTracker.is_owned pa (page_owner_id (vm s)) (pt s) = true).
  { intros pa (va & Hin & Hl)%elem_of_table_pages. split; [eapply frame_phys; [apply Hok|by apply frame_leaf]|].
    destruct (Hall va Hin) as [(pa' & Hl' & Hp)|[_ Hn]]; [|by rewrite Hn in Hl]. assert (pa' = pa) as -> by congruence.
    unfold pred, PageTracker.is_mapped_page in Hp.
    apply query_true in Hp as (p & Hp & [[Ho _]%andb_prop Hs%bool_decide_eq_true]%andb_prop).
    exists p. split_and!; [done..|]. unfold PageTracker.is_owned. apply query_true. by exists p. }
  destruct (for_each_update (PageInfo.set_state st) op (mapped_pages s vas) (pt s)) as (t' & Hf & Hwf & Ht).
  - apply Hok.
  - eapply table_pages_NoDup; [done|apply frame_leaf|apply range_NoDup; [done|]|].
    { assert (0 ≤ PageSize.num_4k_pages len) by (apply Z.div_pos; [apply Z.mod_pos_bound|]; done). lia. }
    intros va pa Hin Hl. destruct (Hmapped pa) as (_ & p & _ & _ & ?); [|done]. apply elem_of_table_pages. eauto.
  - apply list.Forall_forall. intros pa Hpa. by apply Hmapped.
  - intros pa Hpa. destruct (Hmapped pa Hpa) as (Hph & p & Hp & Hs & _). exists p. split_and!; [done| |].
    + destruct (tw_pages _ (vo_tracker _ _ Hok) pa p Hph Hp) as (? & ? & _). by destruct Hv; subst st.
    + intros t Ht. by apply Hop.
  - exists (Sys t' m' (vm s)). split; [by apply (for_pages_drain _ _ _ _ _ op)|]. split; [done|]. apply vm_ok_begun; [done..|].
    intros pa q Hpa Hq. destruct (Hmapped pa Hpa) as (_ & p & Hp & Hs & _). assert (q = p) as -> by congruence.
    unfold PageInfo.owner. rewrite Hs. by destruct Hv; subst st.
Qed.

(** The tracker part of the loops. *)
Definition one_page (f : Page.t → M PageTracker.t PageTrackingError.t unit) (a : Z) : M PageTracker.t VmPagesError.t unit :=
  page ← of_outcome (Page.new a); unwrap (f page).

Lemma one_page_body f a s :
  (page ← of_outcome (Page.new a); unwrap (on_tracker (f page))) s
  = on_tracker (one_page f a) s :> outcome (result VmPagesError.t unit * sys L).
Proof using Type.
  unfold one_page, on_tracker, of_outcome, unwrap. unfold mbind, M_bind. destruct (Page.new a) as [pg|]; [|done].
  by destruct (f pg (pt s)) as [[[] ?]|].
Qed.

Lemma page_new_phys a : phys a → Page.new a = Returns (Page.mk a Size4k).
Proof using Type. intros [_ Ha]. unfold Page.new, Page.new_with_size. by rewrite is_aligned_true. Qed.

Lemma one_page_update f g a p q t :
  phys a → (∀ pg, f pg = PageTracker.update_unwrap (Page.addr pg) g) → get_page t a = Some p → g p = Ok q →
  one_page f a t = Returns (Ok tt, set_page a q t).
Proof using Type.
  intros Ha Hf Hp Hg. unfold one_page. rewrite page_new_phys by done. erewrite bind_ok by done.
  unfold unwrap. rewrite Hf. cbn [Page.addr]. by rewrite update_unwrap_eq, Hp, Hg.
Qed.

Lemma num_4k_bytes a n :
  0 ≤ n → 0 ≤ a → a + n * 4096 + 4096 ≤ U64 →
  wrap64 (n * PageSize.bytes Size4k) = n * 4096 ∧ PageSize.num_4k_pages (n * 4096) = n.
Proof using Type.
  intros Hn Ha Hb. split; [|apply num_4k_pages_mul; lia]. unfold wrap64. apply Z.mod_small. cbn. lia.
Qed.

(** The pages that may be converted: mapped 4kB pages that this VM owns. *)
Definition convertible s (mt : MemType.t) (va : Z) : Prop :=
  ∃ pa, leaf_4k (translate s va) = Some pa ∧
    PageTracker.is_mapped_page pa (page_owner_id (vm s)) mt (pt s) = true.

Lemma convert_range_spec s pages mt a n v :
  vm_ok s pages → 0 < n → 0 ≤ a → a mod 4096 = 0 → a + n * 4096 + 4096 ≤ U64 → n * 4096 ≤ 2 ^ abits L →
  let vas := page_seq a Size4k (Z.to_nat n) in
  ∃ r s', VmPagesRef.convert_range mt a n v s = Returns (r, s') ∧
    match r with
    | Ok _ => (∀ va, va ∈ vas → convertible s mt va) ∧ vm s' = vm s ∧ begun s s' pages vas (PageState.Converting v)
    | Err _ => s' = s ∧ ∃ va, va ∈ vas ∧ ¬ convertible s mt va
    end.
Proof using PL.
  intros Hok Hn Ha Hal Hb Hab vas. destruct (num_4k_bytes a n) as [Hw H4k]; [lia..|].
  unfold VmPagesRef.convert_range. erewrite bind_ok by done. rewrite Hw.
  destruct (begin_spec s pages a (n * 4096) false mt (PageState.Converting v)
    (λ paddr, page ← of_outcome (Page.new paddr); unwrap (on_tracker (PageTracker.convert_page page v)))
    (one_page (λ page, PageTracker.convert_page page v))) as (r & Hr & Hpost);
    rewrite ?H4k; try done; [lia| | |by eauto|].
  { intros x s0. apply one_page_body. }
  { intros pa p t Hpa Hs Hp. eapply one_page_update; [done|done|exact Hp|]. unfold PageInfo.begin_conversion. by rewrite Hs. }
  fold vas in Hpost. unfold mbind at 1, M_bind at 1, on_table, with_err, GuestStagePageTable.invalidate_range.
  rewrite Hr. rewrite H4k in Hpost. fold vas in Hpost. destruct r as [it|e]; cbn [map_err].
  - destruct Hpost as (-> & Hall & s' & Hf & Hvm & Hbg). do 2 eexists. split.
    { destruct s as [t0 m0 v0]. cbn [pt memory vm] in *. by erewrite bind_ok by exact Hf. }
    split_and!; [|done..]. intros va [(pa & ? & ?)|[? _]]%Hall; [by exists pa|done].
  - destruct Hpost as (va & Hin & Hno). do 2 eexists. split; [done|]. split; [by destruct s|].
    exists va. split; [done|]. intros (pa & ? & ?). apply Hno. left. by exists pa.
Qed.

(** Other CPUs may count TLB versions between the read of the version and the walk. *)
Lemma convert_with_spec s pages others x mt a n :
  vm_ok s pages → others s = Returns (Ok tt, VmPages.set_vm (set_tlb x (vm s)) s) →
  0 ≤ n → 0 ≤ a → a mod 4096 = 0 → a + n * 4096 + 4096 ≤ U64 → n * 4096 ≤ 2 ^ abits L →
  let vas := page_seq a Size4k (Z.to_nat n) in
  let s0 := VmPages.set_vm (set_tlb x (vm s)) s in
  ∃ r s', VmPagesRef.do_convert_pages_with others mt a n s = Returns (r, s') ∧
    match r with
    | Ok _ => 0 < n ∧ (∀ va, va ∈ vas → convertible s mt va) ∧
        vm s' = vm s0 ∧ begun s0 s' pages vas (PageState.Converting (current_version s))
    | Err _ => s' ∈ [s; s0] ∧ (1 ≤ nesting (vm s) ∨ n = 0 ∨ ∃ va, va ∈ vas ∧ ¬ convertible s mt va)
    end.
Proof using PL.
  intros Hok Hx Hn Ha Hal Hb Hab vas s0. unfold VmPagesRef.do_convert_pages_with. erewrite bind_ok by done.
  destruct (Z.leb_spec (Z.of_nat PageInfo.MAX_PAGE_OWNERS - 1) (nesting (vm s))) as [Hnest|_].
  { do 2 eexists. split; [done|]. split; [by left|]. left. exact Hnest. }
  destruct (Z.eqb_spec n 0) as [->|Hn0]; [do 2 eexists; split; [done|]; split; [by left|]; by right; left|].
  erewrite bind_ok by done. erewrite bind_ok by exact Hx. fold s0.
  destruct (convert_range_spec s0 pages mt a n (current_version s)) as (r & s' & Hr & Hp); [by destruct Hok|lia|done..|].
  exists r, s'. split; [done|]. destruct r as [u|e].
  - destruct Hp as (Hc & Hv & Hbg). split_and!; [lia|exact Hc|done..].
  - destruct Hp as [-> Hc]. split; [right; by left|]. right. right. exact Hc.
Qed.
Lemma convert_spec s pages mt a n :
  vm_ok s pages → 0 ≤ n → 0 ≤ a → a mod 4096 = 0 → a + n * 4096 + 4096 ≤ U64 → n * 4096 ≤ 2 ^ abits L →
  let vas := page_seq a Size4k (Z.to_nat n) in
  ∃ r s', VmPagesRef.do_convert_pages mt a n s = Returns (r, s') ∧
    match r with
    | Ok _ => 0 < n ∧ (∀ va, va ∈ vas → convertible s mt va) ∧
        vm s' = vm s ∧ begun s s' pages vas (PageState.Converting (current_version s))
    | Err _ => s' = s ∧ (1 ≤ nesting (vm s) ∨ n = 0 ∨ ∃ va, va ∈ vas ∧ ¬ convertible s mt va)
    end.
Proof using PL.
  intros Hok Hn Ha Hal Hb Hab vas. assert (Hs : VmPages.set_vm (set_tlb (tlb_tracker (vm s)) (vm s)) s = s) by by destruct s as [? ? []].
  destruct (convert_with_spec s pages (λ s, Returns (Ok tt, s)) (tlb_tracker (vm s)) mt a n) as (r & s' & Hr & Hp); [done|by rewrite Hs|done..|].
  rewrite Hs in Hp. exists r, s'. split; [done|]. destruct r; [done|]. destruct Hp as [Hin Hp]. split; [set_solver|done].
Qed.

(** ** Sharing *)
Lemma vm_ok_regions s pages l : vm_ok s pages → vm_ok (VmPages.set_vm (set_regions l (vm s)) s) pages.
Proof using Type. by intros [? ? ? ?]. Qed.

Lemma region_end_eq a len :
  0 ≤ a → a mod 4096 = 0 → a + len < U64 →
  region_end a len = if len mod 4096 =? 0 then Ok (a + len) else Err VmPagesError.UnalignedAddress.
Proof using Type.
  intros Ha Hal Hb. unfold region_end, RawAddr.checked_increment, checked_add.
  rewrite (proj2 (Z.ltb_lt _ _) Hb). unfold PageAddr.new.
  replace (len mod 4096) with ((a + len) mod 4096) by mod_lia.
  destruct (Z.eqb_spec ((a + len) mod 4096) 0) as [He|He].
  - by rewrite (proj2 (with_alignment_Some (a + len) Size4k (a + len))).
  - destruct (PageAddr.with_alignment (a + len) Size4k) as [b|] eqn:E; [|done].
    apply with_alignment_Some in E as [-> ?]. done.
Qed.

(** The state after sharing or unsharing began: the region of the range has type [ty],
    the others keep theirs. *)
Definition retyped s s' (a len : Z) (ty : VmRegionType.t) : Prop :=
  regions_ok (regions (vm s')) ∧
  ∀ x, VmRegionUpdates.find x (regions (vm s')) =
    on_range a (a + len) (Some ty) (λ x, VmRegionUpdates.find x (regions (vm s))) x.

Lemma finish_update_retyped s s1 u l1 a len ty :
  (∃ l2, VmRegionUpdater.finish ty u l1 = Returns l2 ∧
     is_map (on_range a (a + len) (Some ty) (λ x, type_at x (regions (vm s)))) l2) →
  regions (vm s1) = l1 →
  ∃ s2, VmPagesRef.finish_update u ty s1 = Returns (Ok tt, s2) ∧ retyped s s2 a len ty ∧
    pt s2 = pt s1 ∧ memory s2 = memory s1 ∧ root (vm s2) = root (vm s1) ∧
    page_owner_id (vm s2) = page_owner_id (vm s1) ∧ tlb_tracker (vm s2) = tlb_tracker (vm s1).
Proof using Type.
  intros (l2 & Hf & Hok & Hm) <-. unfold VmPagesRef.finish_update, on_regions. rewrite Hf. eexists. split; [done|].
  split; [|done]. split; [done|]. intros x.
  change (VmRegionUpdates.find x l2 = on_range a (a + len) (Some ty) (λ x, VmRegionUpdates.find x (regions (vm s))) x).
  rewrite find_type_at, Hm. unfold on_range. case_match; [done|]. by rewrite find_type_at.
Qed.

Definition num_pages (len : Z) : nat := Z.to_nat (len / 4096).

(** What the two operations that begin a change of a region's type have in common. *)
Lemma guarded_begin s pages a len ty sparse pred (k : VmRegionUpdater.t → sys L → list Z → M (sys L) VmPagesError.t TlbVersion.t) :
  vm_ok s pages → regions_ok (regions (vm s)) → 0 ≤ a → a mod 4096 = 0 → 0 < len → a + len + 4096 ≤ U64 →
  len ≤ 2 ^ abits L →
  let vas := page_seq a Size4k (num_pages len) in
  let m := e ← lift (region_end a len);
           region ← on_regions (VmRegionUpdates.update a e ty);
           s ← get;
           it ← VmPagesRef.or_drop_update region (on_table (with_err VmPagesError.Paging
             (GuestStagePageTable.do_invalidate_range (root (vm s)) a len sparse (pred s))));
           k region s it in
  (∃ e, m s = Returns (Err e, s)) ∨
  (len mod 4096 = 0 ∧ all_range a (a + len) (Some ty) (λ x, VmRegionUpdates.find x (regions (vm s))) ∧
   ∃ u l1, let s0 := VmPages.set_vm (set_regions l1 (vm s)) s in
     m s = k u s0 vas s0 ∧ (∀ va, va ∈ vas → invalidate_ok sparse (pred s0) (translate s va)) ∧
     ∀ ty', ∃ l2, VmRegionUpdater.finish ty' u l1 = Returns l2 ∧
       is_map (on_range a (a + len) (Some ty') (λ x, type_at x (regions (vm s)))) l2).
Proof using PL.
  intros Hok Hreg Ha Hal Hlen Hb Hab vas m. subst m.
  destruct (Z.eqb_spec (len mod 4096) 0) as [Hl|Hl]; cycle 1.
  { left. eexists. erewrite bind_err; [done|]. unfold lift. rewrite region_end_eq by lia.
    by rewrite (proj2 (Z.eqb_neq _ _) Hl). }
  assert (Hn : PageSize.num_4k_pages len = len / 4096).
  { replace len with (len / 4096 * 4096) at 1 by mod_lia. apply num_4k_pages_mul; mod_lia. }
  erewrite bind_ok by (unfold lift; rewrite region_end_eq by lia; by rewrite (proj2 (Z.eqb_eq _ _) Hl)).
  destruct (update_cases a (a + len) ty (regions (vm s)) Hreg ltac:(lia))
    as [(u & l1 & Hu & Hall & Hdrop & Hfin)|(e & He & _)]; cycle 1.
  { left. exists e. erewrite bind_err; [done|]. unfold on_regions. rewrite He. by destruct s as [? ? []]. }
  set (s0 := VmPages.set_vm (set_regions l1 (vm s)) s).
  erewrite bind_ok by (unfold on_regions; by rewrite Hu). erewrite bind_ok by done. fold s0.
  destruct (invalidate_range_drained (root (vm s0)) (memory s0) pages a len sparse (pred s0)) as (r & Hr & Hd);
    rewrite ?Hn; try done; [apply (vm_ok_regions s pages l1 Hok)|mod_lia|mod_lia|].
  rewrite Hn in Hd. fold (num_pages len) in Hd. fold vas in Hd. destruct r as [it|e].
  - right. destruct Hd as (-> & Hpred & _). split; [done|]. split.
    { intros x Hx. rewrite find_type_at. by apply Hall. }
    exists u, l1. split_and!; [|done|done]. erewrite bind_ok; [done|].
    unfold VmPagesRef.or_drop_update, on_table, with_err. by rewrite Hr.
  - left. exists (VmPagesError.Paging e). erewrite bind_err; [done|].
    unfold VmPagesRef.or_drop_update, on_table, with_err. rewrite Hr. cbn [map_err].
    unfold on_regions. cbn. rewrite Hdrop. by destruct s as [? ? []].
Qed.

Lemma begun_regions s s' s'' pages vas st l :
  begun (VmPages.set_vm (set_regions l (vm s)) s) s' pages vas st →
  pt s'' = pt s' → memory s'' = memory s' → root (vm s'') = root (vm s') →
  page_owner_id (vm s'') = page_owner_id (vm s') → begun s s'' pages vas st.
Proof using Type.
  intros [[Ht Hw He Hu] Htab Htr]. destruct s'' as [t m [? ? ? ? ? ?]], s' as [t' m' [? ? ? ? ? ?]].
  cbn in *. intros -> -> -> ->. split; [by split|done..].
Qed.

(** What [share_mem_region_begin] leaves behind. *)
Definition share_begun s s' (pages : list Page.t) (a len : Z) (v : TlbVersion.t) : Prop :=
  let vas := page_seq a Size4k (num_pages len) in
  begun s s' pages vas (PageState.Unassigning (current_version s)) ∧
  if decide (mapped_pages s vas = []) then retyped s s' a len VmRegionType.Shared ∧ v = min_version s
  else retyped s s' a len (VmRegionType.Sharing (current_version s)) ∧ v = TlbVersion.increment (current_version s).

Lemma share_begin s pages a len :
  vm_ok s pages → regions_ok (regions (vm s)) → 0 ≤ a → a mod 4096 = 0 → 0 < len → a + len + 4096 ≤ U64 →
  len ≤ 2 ^ abits L →
  ∃ r s', VmPagesRef.share_mem_region_begin a len s = Returns (r, s') ∧
    match r with
    | Err _ => s' = s
    | Ok v => all_range a (a + len) (Some VmRegionType.Confidential)
                (λ x, VmRegionUpdates.find x (regions (vm s))) ∧ share_begun s s' pages a len v
    end.
Proof using PL.
  intros Hok Hreg Ha Hal Hlen Hb Hab. set (vas := page_seq a Size4k (num_pages len)).
  destruct (guarded_begin s pages a len VmRegionType.Confidential true
    (λ s addr, PageTracker.is_mapped_page addr (page_owner_id (vm s)) MemType.Ram (pt s))
    (λ region s it, version ← gets current_version;
       n ← for_each_page (GuestStagePageTable.invalidate_next (root (vm s))) it (λ paddr,
         page ← of_outcome (Page.new paddr); unwrap (on_tracker (PageTracker.unassign_page_begin page version)));
       if negb (n =? 0) then
         VmPagesRef.finish_update region (VmRegionType.Sharing version);; mret (TlbVersion.increment version)
       else VmPagesRef.finish_update region VmRegionType.Shared;; gets min_version))
    as [(e & He)|(Hl & Hall & u & l1 & Hm & Hpred & Hfin)]; [done..| |].
  { exists (Err e), s. split; [exact He|done]. }
  set (s0 := VmPages.set_vm (set_regions l1 (vm s)) s) in *.
  assert (Hn : PageSize.num_4k_pages len = len / 4096).
  { replace len with (len / 4096 * 4096) at 1 by mod_lia. apply num_4k_pages_mul; mod_lia. }
  destruct (begin_spec s0 pages a len true MemType.Ram (PageState.Unassigning (current_version s0))
    (λ paddr, page ← of_outcome (Page.new paddr);
       unwrap (on_tracker (PageTracker.unassign_page_begin page (current_version s0))))
    (one_page (λ page, PageTracker.unassign_page_begin page (current_version s0)))) as (r & Hr & Hpost);
    rewrite ?Hn; try done; [by apply vm_ok_regions|mod_lia|mod_lia| | |by eauto|].
  { intros x s1. apply one_page_body. }
  { intros pa p t Hpa Hs Hp. eapply one_page_update; [done|done|exact Hp|]. unfold PageInfo.begin_unassignment. by rewrite Hs. }
  rewrite Hn in Hpost. fold (num_pages len) in Hpost. fold vas in Hpost, Hm. destruct r as [it|e].
  2: { destruct Hpost as (va & Hin & []). by apply Hpred. }
  destruct Hpost as (-> & _ & s1 & Hf & Hvm & Hbg).
  assert (Hend : ∀ ty, ∃ s2, VmPagesRef.finish_update u ty s1 = Returns (Ok tt, s2) ∧ retyped s s2 a len ty ∧
    begun s s2 pages vas (PageState.Unassigning (current_version s)) ∧ min_version s2 = min_version s).
  { intros ty. destruct (finish_update_retyped s s1 u l1 a len ty) as (s2 & H2 & Hre & Hp & Hme & Hro & Ho & Htl);
      [by apply Hfin|by rewrite Hvm|]. exists s2. split_and!; [done..| |].
    - by eapply (begun_regions s s1 s2 pages vas _ l1).
    - unfold min_version. by rewrite Htl, Hvm. }
  change (mapped_pages s0 vas) with (mapped_pages s vas) in Hf.
  match type of Hm with ?x = _ => change x with (VmPagesRef.share_mem_region_begin a len s) in Hm end.
  erewrite bind_ok in Hm by done. erewrite bind_ok in Hm by exact Hf. unfold share_begun. fold vas.
  destruct (decide (mapped_pages s vas = [])) as [E|E].
  - rewrite E in Hm. change (negb (Z.of_nat (length []) =? 0)) with false in Hm. cbv iota in Hm.
    destruct (Hend VmRegionType.Shared) as (s2 & H2 & Hre & Hbg2 & Hmv). erewrite bind_ok in Hm by exact H2.
    exists (Ok (min_version s2)), s2. by split_and!.
  - destruct (mapped_pages s vas) as [|x xs] eqn:Ev; [done|].
    change (negb (Z.of_nat (length (x :: xs)) =? 0)) with true in Hm. cbv iota in Hm.
    destruct (Hend (VmRegionType.Sharing (current_version s0))) as (s2 & H2 & Hre & Hbg2 & Hmv).
    erewrite bind_ok in Hm by exact H2.
    exists (Ok (TlbVersion.increment (current_version s0))), s2. by split_and!.
Qed.

(** ** Taking converted pages *)

(** The pages a VM may hand out: blocked in the table, owned by the VM, and
    converted or with a completed fence since the conversion began. *)
Definition handed_over s (mt : MemType.t) (va : Z) : Prop :=
  ∃ pa, invalidated_4k (translate s va) = Some pa ∧
    PageTracker.is_converted_page pa (page_owner_id (vm s)) mt (min_version s) (pt s) = true.

Lemma get_invalidated_page_spec (table : GuestStagePageTable.t L) m pages va :
  pt_state (GuestStagePageTable.inner table) m pages →
  match invalidated_4k (lookup (GuestStagePageTable.inner table) m va) with
  | Some pa => GuestStagePageTable.get_invalidated_page table va m = Returns (Ok pa, m)
  | None => ∃ e, GuestStagePageTable.get_invalidated_page table va m = Returns (Err e, m)
  end.
Proof using PL.
  intros Hst. pose proof (get_invalidated_4k_leaf_spec _ m pages va Hst) as Hg.
  unfold GuestStagePageTable.get_invalidated_page. destruct (invalidated_4k _) as [pa|].
  - destruct Hg as (e & Hge & Hpa & _).
    erewrite bind_ok by exact Hge. erewrite bind_ok by done. unfold of_outcome. by rewrite Hpa.
  - destruct Hg as (e & Hge). exists e. by erewrite bind_err by exact Hge.
Qed.

Lemma get_invalidated_pages_spec (table : GuestStagePageTable.t L) m pages a n pred :
  pt_state (GuestStagePageTable.inner table) m pages → 0 ≤ n → 0 ≤ a → a mod 4096 = 0 → a + n * 4096 + 4096 ≤ U64 →
  let vas := page_seq a Size4k (Z.to_nat n) in
  let ok va := ∃ pa, invalidated_4k (lookup (GuestStagePageTable.inner table) m va) = Some pa ∧ pred pa = true in
  ∃ r, GuestStagePageTable.get_invalidated_pages table a (wrap64 (n * PageSize.bytes Size4k)) pred m = Returns (r, m) ∧
    match r with
    | Ok it => it = vas ∧ ∀ va, va ∈ vas → ok va
    | Err _ => ∃ va, va ∈ vas ∧ ¬ ok va
    end.
Proof using PL.
  intros Hst Hn Ha Hal Hb vas ok. destruct (num_4k_bytes a n Hn Ha Hb) as [-> H4k].
  unfold GuestStagePageTable.get_invalidated_pages.
  rewrite (bind_ok _ _ m vas m)
    by (rewrite range_addrs_eq by done; rewrite H4k; by rewrite (proj2 (Z.ltb_lt _ _)) by lia).
  destruct (for_each_check ok (λ va, paddr ← GuestStagePageTable.get_invalidated_page table va;
    if negb (pred paddr) then err PtError.PredicateFailed else mret tt) m vas) as (r & Hr & Hp); cycle 1.
  { destruct r as [[]|e].
       - exists (Ok vas). split; [by erewrite bind_ok by exact Hr|done].
       - exists (Err e). split; [by erewrite bind_err by exact Hr|done]. }
  intros va _. pose proof (get_invalidated_page_spec table m pages va Hst) as Hg. unfold ok.
  destruct (invalidated_4k _) as [pa|].
  - erewrite bind_ok by exact Hg. destruct (pred pa) eqn:Hp; cbn [negb]; eexists; (split; [done|]); naive_solver.
  - destruct Hg as (e & Hg). erewrite bind_err by exact Hg. eexists. split; [done|]. naive_solver.
Qed.

(** A page that [get_converted_page] will lock and that is on no list. *)
Definition lockable (mt : MemType.t) (owner : PageOwnerId.t) (v : TlbVersion.t) (t : PageTracker.t) (pa : Z) : Prop :=
  phys pa ∧ pa ≠ 0 ∧ PageTracker.is_converted_page pa owner mt v t = true ∧
  ∀ p, get_page t pa = Some p → PageInfo.link_ p = None.

Lemma lock_one mt owner v t l xs pa :
  tracker_wf t → list_rep t l xs → Z.of_nat (length xs) + 1 < U64 → pa ∉ xs →
  lockable mt owner v t pa →
  ∃ l' t1 t', PageTracker.get_converted_page mt pa owner v t = Returns (Ok (Page.mk pa Size4k), t1) ∧
    PageList.push (Page.mk pa Size4k) l t1 = Returns (Ok l', t') ∧
    list_rep t' l' (xs ++ [pa]) ∧ tracker_wf t' ∧
    (∀ c, phys c → c ∉ xs → c ≠ pa → get_page t' c = get_page t c) ∧
    (∀ c, phys c → PageInfo.unlink <$> get_page t' c =
      PageInfo.unlink <$> (if decide (c = pa) then PageInfo.set_state PageState.ConvertedLocked <$> get_page t c else get_page t c)).
Proof using Type.
  intros Hwf Hrep Hlen Hnin (Hph & H0 & Hc & Hlk). apply query_true in Hc as (p & Hp & Hg).
  set (q := PageInfo.set_state PageState.ConvertedLocked p). set (t1 := set_page pa q t).
  assert (Hwf1 : page_map_wf (PageTracker.pages t1)) by apply set_wf, Hwf.
  assert (Hrep1 : list_rep t1 l xs).
  { destruct Hrep as [? ? ? ? ? Hphs Hl]. split; try done. intros i b Hi.
    assert (b ∈ xs) by by eapply list_elem_of_lookup_2. rewrite list.Forall_forall in Hphs.
    unfold t1. rewrite get_page_set_ne; [by apply Hl|apply Hwf|done|by apply Hphs|by intros ->]. }
  assert (Hq : get_page t1 pa = Some q) by (eapply get_page_set_eq; [apply Hwf|done..]).
  destruct (push_rep t1 l xs pa q) as (l' & t' & Hpush & Hrep' & Hsh & Hother & Hun); try done.
  { by apply (Hlk p). }
  exists l', t1, t'. split_and!; try done.
  - rewrite (get_converted_page_eq _ _ _ _ _ p) by done. apply andb_prop in Hg as [-> ->]. done.
  - eapply push_wf; [|exact Hrep1|exact Hpush]. eapply tracker_wf_set_page; [done..|].
    destruct (tw_pages _ Hwf pa p Hph Hp) as (? & ? & Hs). split_and!; [done..|].
    apply andb_prop in Hg as [_ Hg]. by destruct (PageInfo.state p).
  - intros c Hcp Hcx Hcpa. rewrite Hother by done. apply get_page_set_ne; [apply Hwf|done..].
  - intros c Hcp. rewrite Hun by done. destruct (decide (c = pa)) as [->|E]; [by rewrite Hq, Hp|].
    unfold t1. by rewrite get_page_set_ne by (done || apply Hwf).
Qed.

(** The pages of [pas] are on the list and locked, and nothing else changed. *)
Definition locked_all (t t' : PageTracker.t) (pas : list Z) : Prop :=
  ∀ c, phys c → PageInfo.unlink <$> get_page t' c = (PageInfo.unlink <$>
    if decide (c ∈ pas) then PageInfo.set_state PageState.ConvertedLocked <$> get_page t c else get_page t c).

Lemma lock_pages_spec (table : GuestStagePageTable.t L) mt owner v m pages w pas vas fuel t l xs :
  pt_state (GuestStagePageTable.inner table) m pages →
  Forall2 (λ va pa, invalidated_4k (lookup (GuestStagePageTable.inner table) m va) = Some pa) vas pas →
  tracker_wf t → list_rep t l xs → NoDup (xs ++ pas) →
  (Z.of_nat (length (xs ++ pas)) < U64) → (∀ pa, pa ∈ pas → lockable mt owner v t pa) → (length vas < fuel)%nat →
  ∃ l' t', VmPagesRef.lock_pages table mt owner v fuel vas l (Sys t m w) = Returns (Ok l', Sys t' m w) ∧
    list_rep t' l' (xs ++ pas) ∧ tracker_wf t' ∧ locked_all t t' pas ∧
    ∀ c, phys c → c ∉ xs ++ pas → get_page t' c = get_page t c.
Proof using PL.
  intros Hst. revert vas fuel t l xs. induction pas as [|pa pas IH]; intros vas fuel t l xs Hv Hwf Hrep Hnd Hlen Hlk Hfuel;
    (destruct fuel as [|fuel]; [lia|]).
  { apply Forall2_nil_inv_r in Hv as ->. exists l, t. rewrite app_nil_r. split_and!; [done..| |done].
    intros c Hc. by rewrite decide_False by apply not_elem_of_nil. }
  apply Forall2_cons_inv_r in Hv as (va & vas' & Hva & Hv & ->). cbn [length] in Hfuel.
  assert ((pa ∉ xs) ∧ pa ∉ pas) as [Hx Hp].
  { apply list.NoDup_app in Hnd as (_ & Hd & [? _]%list.NoDup_cons). split; [|done]. intros Hin. by apply (Hd pa Hin), list_elem_of_here. }
  rewrite length_app in Hlen. cbn [length] in Hlen.
  destruct (lock_one mt owner v t l xs pa) as (l1 & t1 & t2 & Hg & Hpush & Hrep2 & Hwf2 & Hoth & Hun);
    [done..|lia|done|apply Hlk; left|].
  assert (Hsame : ∀ c, c ∈ pas → get_page t2 c = get_page t c).
  { intros c Hc. apply list.NoDup_app in Hnd as (_ & Hd & _).
    apply Hoth; [by apply Hlk; right|intros Hin; apply (Hd c Hin); by right|by intros ->]. }
  destruct (IH vas' fuel t2 l1 (xs ++ [pa])) as (l' & t' & Hloop & Hrep' & Hwf' & Hall & Hrest);
    rewrite <-?app_assoc; try done; [rewrite length_app; cbn [length app]; lia| |lia|].
  { intros c Hc. destruct (Hlk c ltac:(by right)) as (Hcp & Hc0 & Hcv & Hcl).
    split_and!; [done..| |by rewrite Hsame]. apply query_true. rewrite Hsame by done. by apply query_true. }
  exists l', t'. rewrite <-app_assoc in Hrep', Hrest. split_and!; [|done..| |].
  - cbn [VmPagesRef.lock_pages]. pose proof (get_invalidated_page_spec table m pages va Hst) as Hgi. rewrite Hva in Hgi.
    erewrite bind_ok; cycle 1.
    { unfold unwrap at 1, on_table. cbn [GuestStagePageTable.get_invalidated_next memory].
      erewrite bind_ok by (unfold unwrap; rewrite Hgi; done). done. }
    cbv beta iota. erewrite bind_ok by (unfold unwrap, on_tracker; cbn [pt]; by rewrite Hg).
    erewrite bind_ok by (unfold unwrap, on_tracker; cbn [pt]; by rewrite Hpush). exact Hloop.
  - intros c Hc. rewrite Hall by done. destruct (decide (c = pa)) as [->|E].
    + rewrite decide_False by done. rewrite Hun by done. by rewrite !decide_True by (done || by left).
    + destruct (decide (c ∈ pas)) as [Hin|Hni].
      * rewrite decide_True by (by right). by rewrite Hsame.
      * rewrite decide_False by (by intros [?|?]%elem_of_cons). rewrite Hun by done. by rewrite decide_False.
  - intros c Hc Hni. rewrite Hrest by done. apply Hoth; [done|set_solver..].
Qed.

Lemma handed_over_lockable s pages mt va pa :
  vm_ok s pages → get_page (pt s) 0 = None → invalidated_4k (translate s va) = Some pa → handed_over s mt va →
  lockable mt (page_owner_id (vm s)) (min_version s) (pt s) pa ∧
  PageTracker.is_owned pa (page_owner_id (vm s)) (pt s) = true.
Proof using PL.
  intros Hok H0 Hv (pa' & Hv' & Hc). assert (pa' = pa) as -> by congruence.
  pose proof (frame_invalidated _ _ Hv) as Hf. pose proof Hc as (p & Hp & [[Ho _]%andb_prop _]%andb_prop)%query_true.
  split; [|apply query_true; by exists p]. apply bool_decide_eq_true in Ho.
  split_and!; [by eapply frame_phys; [apply Hok|]|by intros ->; congruence|done|].
  intros q Hq. assert (q = p) as -> by congruence. by eapply vo_unlinked.
Qed.

Lemma handed_over_pages s mt vas :
  (∀ va, va ∈ vas → handed_over s mt va) →
  Forall2 (λ va pa, invalidated_4k (translate s va) = Some pa) vas (blocked_pages s vas).
Proof using Type.
  intros Hall. induction vas as [|va vas IH]; [constructor|]. unfold table_pages. cbn [omap list_omap].
  destruct (Hall va ltac:(by left)) as (pa & Hv & _). rewrite Hv. constructor; [done|]. apply IH. intros ? ?. apply Hall. by right.
Qed.

Lemma take_converted s pages mt a n :
  vm_ok s pages → get_page (pt s) 0 = None →
  0 ≤ n → 0 ≤ a → a mod 4096 = 0 → a + n * 4096 + 4096 ≤ U64 → n * 4096 ≤ 2 ^ abits L →
  let vas := page_seq a Size4k (Z.to_nat n) in
  ∃ r t', VmPagesRef.do_get_converted_pages mt a n s = Returns (r, Sys t' (memory s) (vm s)) ∧
    match r with
    | Ok l => (0 < n ∧ (∀ va, va ∈ vas → handed_over s mt va) ∧
        list_rep t' l (blocked_pages s vas) ∧ locked_all (pt s) t' (blocked_pages s vas)) ∧
        tracker_wf t' ∧ ∀ c, phys c → c ∉ blocked_pages s vas → get_page t' c = get_page (pt s) c
    | Err _ => t' = pt s ∧ (n = 0 ∨ ∃ va, va ∈ vas ∧ ¬ handed_over s mt va)
    end.
Proof using PL.
  intros Hok H0 Hn Ha Hal Hb Hab vas. unfold VmPagesRef.do_get_converted_pages.
  destruct (Z.eqb_spec n 0) as [->|Hn0].
  { exists (Err VmPagesError.EmptyPageRange), (pt s). split; [by destruct s|]. by auto. }
  do 2 erewrite bind_ok by done.
  destruct (get_invalidated_pages_spec (root (vm s)) (memory s) pages a n
    (λ addr, PageTracker.is_converted_page addr (page_owner_id (vm s)) mt (min_version s) (pt s))) as (r & Hr & Hpost);
    [apply Hok|done..|]. fold vas in Hpost. unfold mbind at 1, M_bind at 1, on_table, with_err. rewrite Hr.
  destruct r as [it|e]; cbn [map_err]; cycle 1.
  { do 2 eexists. split; [done|]. split; [done|]. by right. }
  destruct Hpost as [-> Hall]. pose proof (handed_over_pages s mt vas Hall) as Hf2.
  assert (Hlk : ∀ pa, pa ∈ blocked_pages s vas → ∃ va, va ∈ vas ∧ invalidated_4k (translate s va) = Some pa)
    by (intros pa; apply elem_of_table_pages).
  destruct (lock_pages_spec (root (vm s)) mt (page_owner_id (vm s)) (min_version s) (memory s) pages (vm s)
    (blocked_pages s vas) vas (S (length vas)) (pt s) PageList.new []) as (l & t' & Hl & Hrep & Hwf & Hlock & Hother);
    try done; [apply Hok|apply Hok|apply list_rep_new|..|lia|].
  - eapply table_pages_NoDup; [done|apply frame_invalidated|apply range_NoDup; [done|lia]|].
    intros va pa Hin Hv. by eapply handed_over_lockable; [..|by apply Hall].
  - apply Forall2_length in Hf2. cbn [app]. rewrite <-Hf2. unfold vas. rewrite length_page_seq. lia.
  - intros pa (va & Hin & Hv)%Hlk. by eapply handed_over_lockable; [..|by apply Hall].
  - do 2 eexists. split; [exact Hl|]. split; [split_and!; [lia|done..]|done].
Qed.
(** Pages that were converted at a version below the minimum are handed over. *)
Lemma converted_handed_over s x s' pages vas va v :
  let s0 := VmPages.set_vm (set_tlb x (vm s)) s in
  vm_ok s pages → get_page (pt s) 0 = None → begun s0 s' pages vas (PageState.Converting v) → vm s' = vm s0 →
  v < TlbTracker.min_version x → va ∈ vas → convertible s MemType.Ram va → handed_over s' MemType.Ram va.
Proof using PL.
  intros s0 Hok H0 [_ Htab Htr] Hv Hlt Hin (pa & Hl & Hm). exists pa.
  apply query_true in Hm as (p & Hp & [[Ho Ht]%andb_prop Hs%bool_decide_eq_true]%andb_prop).
  assert (Hph : phys pa) by (eapply frame_phys; [apply Hok|by apply frame_leaf]).
  rewrite Hv. cbn in Htab, Htr |- *. split.
  - rewrite Htab, decide_True by (by apply list_elem_of_fmap_2). unfold invalidated. rewrite Hl. unfold idle.
    case_match eqn:E; [|done]. apply Z.eqb_eq in E as ->. congruence.
  - apply query_true. exists (PageInfo.set_state (PageState.Converting v) p). split.
    + rewrite Htr by done. rewrite decide_True; [by rewrite Hp|]. apply elem_of_table_pages. by exists va.
    + unfold PageInfo.is_convertible, min_version. rewrite Hv. cbn. apply bool_decide_eq_true in Ho. unfold PageInfo.owner in *. rewrite Hs in Ho.
      rewrite Ht, bool_decide_eq_true_2 by done. cbn. by apply Z.ltb_lt.
Qed.
End vm.

(** ** A VM with two mapped pages *)
Definition vm_tracker : PageTracker.t :=
  let info := PageInfo.mk MemType.Ram PageState.Mapped [2] None in
  PageTracker.mk 3 [2] 16
    (PageMap.mk [info; info] 1024 [SparseMapEntry.mk 256 2 0]).
Definition guest_vm : VmPages.t Sv48x4Level.t :=
  VmPages.mk 2 TlbTracker.new [VmRegion.mk 2147483648 2147491840 VmRegionType.Confidential] 0 example_table PageList.new.
Definition example_sys : sys Sv48x4Level.t := Sys vm_tracker example_mapped guest_vm.

Definition example_converted : sys Sv48x4Level.t :=
  final example_sys (VmPagesRef.convert_pages 2147483648 1 example_sys).
Definition example_fenced : sys Sv48x4Level.t :=
  final example_sys (VmPagesRef.initiate_fence None example_converted).

Lemma vm_tracker_wf : tracker_wf vm_tracker.
Proof.
  split; cbn [vm_tracker PageTracker.pages PageTracker.next_owner_id PageTracker.active_guests
    PageTracker.guests_capacity length].
  - assert (Ho : ∀ lo hi (e : SparseMapEntry.t), lo e ≤ hi e → ordered lo hi [e]).
    { intros lo hi e He. apply ordered_cons. split_and!; [done|constructor|apply ordered_nil]. }
    split; cbn; [by apply Ho..| |lia]. by repeat constructor.
  - intros a p Ha Hp. unfold get_page, PageMap.get in Hp. cbn [vm_tracker PageTracker.pages] in Hp.
    destruct (PageMap.get_map_index _ a) as [i|]; [|done]. cbn [mbind option_bind PageMap.pages] in Hp.
    apply list_elem_of_lookup_2, list_elem_of_In in Hp. destruct Hp as [<-|[<-|[]]];
    (split_and!; [cbn; unfold PageInfo.MAX_PAGE_OWNERS; lia|done|done]).
  - lia.
  - apply NoDup_singleton.
  - apply list.Forall_singleton. cbn. lia.
  - lia.
Qed.

Lemma example_frame va pa :
  frame (lookup (GuestStagePageTable.inner example_table) example_mapped va) = Some pa →
  ∃ i, 0 ≤ i < 2 ∧ leaf_no Sv48x4Level.t Size4k va = leaf_no Sv48x4Level.t Size4k (2147483648 + i * 4096) ∧
    pa = 1048576 + i * 4096.
Proof.
  destruct example_mapped_spec as (Hst & Hl & Hn). intros Hf.
  destruct (decide (covered (L := Sv48x4Level.t) (page_seq 2147483648 Size4k 2) va)) as [Hc|Hc];
    [|by rewrite Hn in Hf].
  apply list_elem_of_fmap in Hc as (va' & Hp & (i & Hi & ->)%elem_of_page_seq).
  exists i. split; [lia|]. split; [done|].
  rewrite (lookup_same_page _ _ _ _ _ Hst Hp) in Hf.
  specialize (Hl (Z.to_nat i) ltac:(lia)). rewrite Z2Nat.id in Hl by lia.
  change (PageSize.bytes Size4k) with 4096 in Hf. rewrite Hl in Hf. by injection Hf.
Qed.

Lemma example_vm_ok : vm_ok example_sys example_map_range.2.2.
Proof.
  split; cbn.
  - apply example_mapped_state.
  - apply vm_tracker_wf.
  - intros va va' pa (i & Hi & -> & ->)%example_frame (j & Hj & -> & ?)%example_frame _. do 2 f_equal. lia.
  - intros va pa p (i & Hi & _ & ->)%example_frame Hp _.
    assert (i = 0 ∨ i = 1) as [-> | ->] by lia; vm_compute in Hp; by simplify_eq.
Qed.

Lemma guest_regions_ok : regions_ok (regions guest_vm).
Proof.
  split; cbn; [|by repeat constructor|done|unfold MAX_MEM_REGIONS; lia].
  apply ordered_cons. split_and!; [done|constructor|apply ordered_nil].
Qed.

Lemma vm_ok_ext {L} `{PL : PagingLaws L} {FP : Footprint} (s s' : sys L) pages :
  vm_ok s pages → pt s' = pt s → memory s' = memory s → root (vm s') = root (vm s) →
  page_owner_id (vm s') = page_owner_id (vm s) → vm_ok s' pages.
Proof.
  destruct s as [? ? []], s' as [? ? []]. cbn. intros [? ? ? ?] -> -> -> ->. by split.
Qed.

Lemma example_fenced_ok : vm_ok example_fenced example_map_range.2.2.
Proof.
  destruct (convert_spec example_sys example_map_range.2.2 MemType.Ram 2147483648 1) as (r & s' & Hr & Hp);
    [apply example_vm_ok|done..|]. destruct r as [[]|e]; [|vm_compute in Hr; discriminate Hr].
  assert (example_converted = s') as Hs.
  { unfold example_converted, VmPagesRef.convert_pages. by rewrite Hr. }
  apply (vm_ok_ext example_converted); [rewrite Hs; by apply Hp|vm_compute; reflexivity..].
Qed.

(** ** Theorems *)



(** C7: beginning to share a region with the host is all-or-nothing and never
    panics: an error leaves everything as it was; on success the range was
    confidential, every mapped page of it has lost its translation and is waiting
    to be unassigned since the current TLB version, and the region is shared at
    once if there was no such page, or is being shared until that version has been
    flushed; types of addresses outside the range do not change. *)
Theorem share_mem_region_begin_all_or_nothing `{PL : PagingLaws L} {FP : Footprint} (s : sys L) pages a len :
  vm_ok s pages → regions_ok (regions (vm s)) → 0 ≤ a → a mod 4096 = 0 → 0 < len → a + len + 4096 ≤ U64 →
  len ≤ 2 ^ abits L →
  ∃ r s', VmPagesRef.share_mem_region_begin a len s = Returns (r, s') ∧
    match r with
    | Err _ => s' = s
    | Ok v => all_range a (a + len) (Some VmRegionType.Confidential)
                (λ x, VmRegionUpdates.find x (regions (vm s))) ∧ share_begun s s' pages a len v
    end.
Proof. apply share_begin. Qed.

Lemma share_mem_region_begin_all_or_nothing_witness :
  ∃ s', VmPagesRef.share_mem_region_begin 2147487744 4096 example_sys = Returns (Ok 1, s') ∧
    share_begun example_sys s' example_map_range.2.2 2147487744 4096 1.
Proof.
  destruct (share_mem_region_begin_all_or_nothing example_sys example_map_range.2.2 2147487744 4096)
    as (r & s' & Hr & Hp); [apply example_vm_ok|apply guest_regions_ok|done..|]. assert (E : r = Ok 1).
  { vm_compute in Hr. by injection Hr as <-. }
  subst r. destruct Hp as (_ & Hbg). exists s'. split; [exact Hr|exact Hbg].
Defined.



(** The table ignores the upper bits of an address, so pages that can be taken at one
    address can be taken at its aliases. *)
Lemma handed_over_alias `{PL : PagingLaws L} {FP : Footprint} (s : sys L) pages mt va va' :
  vm_ok s pages → va' mod 2 ^ abits L = va mod 2 ^ abits L → handed_over s mt va → handed_over s mt va'.
Proof.
  intros Hok E (pa & Hpa & Hc). exists pa. split; [|done]. rewrite <-Hpa. f_equal.
  eapply lookup_same_page; [apply Hok|]. unfold leaf_no, norm. by rewrite E.
Qed.
Lemma page_seq_alias `{PL : PagingLaws L} a a' n va' :
  a' mod 2 ^ abits L = a mod 2 ^ abits L → va' ∈ page_seq a' Size4k n → ∃ va, va ∈ page_seq a Size4k n ∧ va' mod 2 ^ abits L = va mod 2 ^ abits L.
Proof.
  intros E (i & Hi & ->)%elem_of_page_seq. exists (a + i * PageSize.bytes Size4k). split; [apply elem_of_page_seq; eauto|].
  destruct (decide (2 ^ abits L = 0)) as [E0|E0]; [rewrite E0, !Z.mod_0_r in *; lia|].
  by rewrite <-Z.add_mod_idemp_l, E, Z.add_mod_idemp_l.
Qed.

(** C35: A VM that has fenced converted pages can stop the hypervisor by reclaiming them
    at an alias of their address.  The address comes from the guest and is only checked
    for alignment; the pages are found, because the table ignores the upper bits, and the
    unwrap of the mapping panics unless the alias is in a confidential region itself. *)
Theorem aliased_reclaim_panics `{PL : PagingLaws L} {FP : Footprint} (s : sys L) pages a a' n :
  vm_ok s pages → get_page (pt s) 0 = None → 0 < n → n * 4096 ≤ 2 ^ abits L →
  (∀ va, va ∈ page_seq a Size4k (Z.to_nat n) → handed_over s MemType.Ram va) →
  a' mod 2 ^ abits L = a mod 2 ^ abits L → 0 ≤ a' → a' mod 4096 = 0 → a' + n * 4096 + 4096 ≤ U64 →
  VmRegionUpdates.contains a' (a' + n * 4096) VmRegionType.Confidential (regions (vm s)) = false →
  VmPagesRef.reclaim_pages a' n s = Panics.
Proof.
  intros Hok H0 Hn Hab Hall E Ha' Hal Hb Hreg.
  destruct (take_converted s pages MemType.Ram a' n) as (r & t' & Ht & Hp); [done|done|lia|done..|].
  destruct r as [l|e]; cycle 1.
  { destruct Hp as [_ [?|(va' & Hin & Hno)]]; [lia|]. destruct (page_seq_alias a a' _ va' E Hin) as (va & Hva & Ev).
    destruct Hno. eapply handed_over_alias; [done|exact Ev|]. by apply Hall. }
  unfold VmPagesRef.reclaim_pages. erewrite bind_ok by exact Ht.
  unfold VmPagesRef.map_zero_pages, VmPagesRef.do_map_pages, mbind, M_bind, unwrap. destruct (Z.eqb_spec n 0); [lia|].
  unfold VmPagesMapper.new_in_region. erewrite bind_err; [done|]. unfold VmPagesMapper.check_region, PageAddr.checked_add_pages.
  rewrite (proj2 (checked_add_pages_spec a' n Size4k (a' + n * 4096) Hal)) by (cbn; lia).
  do 2 erewrite bind_ok by done. cbn [vm]. by rewrite Hreg.
Qed.
Lemma aliased_reclaim_panics_witness : VmPagesRef.reclaim_pages (2 ^ 50 + 2147483648) 1 example_fenced = Panics.
Proof.
  refine (aliased_reclaim_panics example_fenced example_map_range.2.2 2147483648 (2 ^ 50 + 2147483648) 1 _ _ _ _ _ _ _ _ _ _);
    [apply example_fenced_ok|done|done|done| |done|done|done|done|vm_compute; reflexivity].
  intros va ->%list_elem_of_singleton. exists 1048576. split; vm_compute; reflexivity.
Defined.
(** A page count that wraps around to no bytes at all panics as well. *)
Example wrapped_reclaim_panics : VmPagesRef.reclaim_pages 2147483648 (2 ^ 52) example_fenced = Panics.
Proof. vm_compute. reflexivity. Qed.
Example reclaim_works_after_fence :
  VmPagesRef.reclaim_pages 2147483648 1 example_converted
    = Returns (Err (VmPagesError.Paging PtError.PredicateFailed), example_converted) ∧
  ∃ s', VmPagesRef.reclaim_pages 2147483648 1 example_fenced = Returns (Ok tt, s') ∧
    PageInfo.state <$> get_page (pt s') 1048576 = Some PageState.Mapped.
Proof.
  split; [vm_compute; reflexivity|].
  exists (final example_fenced (VmPagesRef.reclaim_pages 2147483648 1 example_fenced)).
  split; vm_compute; reflexivity.
Qed.

(** C17: the TLB version of a conversion is read before the pages are invalidated.  If
    other CPUs complete a fence in between, and perhaps enter the VM again, then the
    pages can be taken for assignment right after the conversion, although no fence
    followed their invalidation: whoever entered in between may still use the old
    translations. *)
Theorem fence_before_invalidation_counts `{PL : PagingLaws L} {FP : Footprint} (s : sys L) pages others x a n :
  vm_ok s pages → get_page (pt s) 0 = None → nesting (vm s) < 1 →
  0 < n → 0 ≤ a → a mod 4096 = 0 → a + n * 4096 + 4096 ≤ U64 → n * 4096 ≤ 2 ^ abits L →
  (∀ va, va ∈ page_seq a Size4k (Z.to_nat n) → convertible s MemType.Ram va) →
  others s = Returns (Ok tt, VmPages.set_vm (set_tlb x (vm s)) s) → current_version s < TlbTracker.min_version x →
  ∃ s' l s'', VmPagesRef.do_convert_pages_with others MemType.Ram a n s = Returns (Ok tt, s') ∧
    tlb_tracker (vm s') = x ∧ VmPagesRef.get_converted_pages a n s' = Returns (Ok l, s'').
Proof.
  intros Hok H0 Hn Hpos Ha Hal Hb Hab Hc Hx Hlt. set (vas := page_seq a Size4k (Z.to_nat n)) in *.
  destruct (convert_with_spec s pages others x MemType.Ram a n) as (r & s' & Hr & Hp); [done|done|lia|done..|].
  destruct r as [[]|e]; cycle 1.
  { destruct Hp as [_ [?|[?|(va & Hin & Hno)]]]; [lia|lia|]. by destruct Hno; apply Hc. }
  destruct Hp as (_ & _ & Hv & Hbg).
  assert (Hall : ∀ va, va ∈ vas → handed_over s' MemType.Ram va) by (intros va Hin; eapply converted_handed_over; eauto).
  destruct (take_converted s' pages MemType.Ram a n) as (r & t' & Hg & Hpost); [apply Hbg| |lia|done..|].
  { rewrite (bg_tracker _ _ _ _ _ Hbg) by done. cbn. case_decide; by rewrite H0. }
  destruct r as [l|e]; [|by destruct Hpost as [_ [?|(va & Hin & Hno)]]; [lia|destruct Hno; apply Hall]].
  exists s', l, (Sys t' (memory s') (vm s')). split_and!; [done|by rewrite Hv|done].
Qed.

(** A fence, and a vCPU that enters the VM after it. *)
Definition fence_and_enter : M (sys Sv48x4Level.t) VmPagesError.t unit :=
  VmPagesRef.initiate_fence None;;
  modify (λ s, VmPages.set_vm (set_tlb (TlbTracker.get_version (tlb_tracker (vm s))).2 (vm s)) s).
Lemma fence_before_invalidation_counts_witness :
  ∃ s' l s'', VmPagesRef.do_convert_pages_with fence_and_enter MemType.Ram 2147483648 1 example_sys = Returns (Ok tt, s') ∧
    VmPagesRef.get_converted_pages 2147483648 1 s' = Returns (Ok l, s'').
Proof.
  destruct (fence_before_invalidation_counts example_sys example_map_range.2.2 fence_and_enter
    (TlbTracker.get_version (TlbTracker.increment TlbTracker.new).2).2 2147483648 1) as (s' & l & s'' & H1 & _ & H2);
    [apply example_vm_ok|done|cbn; lia|done..| |vm_compute; reflexivity|vm_compute; reflexivity|].
  - intros va ->%list_elem_of_singleton. exists 1048576. split; vm_compute; reflexivity.
  - exists s', l, s''. split; [exact H1|exact H2].
Defined.
