(* ===== verification/VmCalls.v ===== *)
(** * The host's calls on guest VMs (src/vm.rs, src/guest_tracking.rs)

    A machine is the page tracker, the memory, the host VM and the guests that it
    has created.  The handlers here are those of the host's ECALLs that build a guest
    and give it memory; they move pages from the host's [VmPages] to a guest's.
    Decoded arguments are arguments; a handler runs as one step. *)
From S2P Require Import Prelude RiscvPages PageInfoModel Tracker Pte PageTableModel TlbModel VmRegions VmPages.
Import PageSize(Size4k).
Import VmPages(page_owner_id, nesting, pte_pages, root).

(** The errors of the sbi-rs crate that the handlers return. *)
Module SbiError.
Inductive t := InvalidParam | InvalidAddress | Failed.
End SbiError.
Import SbiError(InvalidParam, InvalidAddress, Failed).

Module EcallError.
Inductive t := Sbi (e : SbiError.t) | PageFault.
Definition from (error : VmPagesError.t) : t :=
  match error with
  | VmPagesError.PageFault => PageFault
  | _ => Sbi InvalidAddress
  end.
End EcallError.
Import EcallError(Sbi).

Module GuestState.
Inductive t := Init | Running.
#[global] Instance eq_dec : EqDecision t.
Proof. solve_decision. Defined.
End GuestState.

(** The errors of guest_tracking.rs, without what they carry. *)
Module GuestError.
Inductive t := InsufficientPages | InsufficientGuestStorage | InvalidGuestId | GuestInUse | GuestNotInitializing | VmFinalizeFailed.
End GuestError.
Import GuestError(InsufficientGuestStorage, InvalidGuestId, GuestInUse, GuestNotInitializing, VmFinalizeFailed).

Definition VM_CPUS_MAX : nat := 128.
Arguments VM_CPUS_MAX : simpl never.

(** The slots of [VmCpus], each with the pages of a vCPU; a slot is set once. *)
Module VmCpus.
Inductive error := BadVmCpuId | VmCpuExists.
Definition new : list (option SequentialPages.t) := replicate VM_CPUS_MAX None.
Definition add_vcpu (vcpu_id : Z) (vcpu : SequentialPages.t) (slots : list (option SequentialPages.t))
    : result error (list (option SequentialPages.t)) :=
  match slots !! Z.to_nat vcpu_id with
  | None => Err BadVmCpuId
  | Some (Some _) => Err VmCpuExists
  | Some None => Ok (<[Z.to_nat vcpu_id := Some vcpu]> slots)
  end.
End VmCpus.

(** A [GuestVm]: the VM, the pages of its vCPUs by their ids, its state, the pages that
    hold it, the references to it, and how many of them are locked for reading. *)
Module GuestVm.
Record t {L : Type} := mk {
  vm : VmPages.t L; vcpus : list (option SequentialPages.t); state : GuestState.t; storage : SequentialPages.t;
  ref_count : Z; readers : Z
}.
Arguments t : clear implicits.
Arguments mk {L} _ _ _ _ _ _.
Definition new {L} (vm : VmPages.t L) (pages : SequentialPages.t) : t L :=
  mk vm VmCpus.new GuestState.Init pages 1 0.
Definition page_owner_id {L} (g : t L) : PageOwnerId.t := VmPages.page_owner_id (vm g).
Definition set_vm {L} (v : VmPages.t L) (g : t L) : t L :=
  mk v (vcpus g) (state g) (storage g) (ref_count g) (readers g).
Definition set_vcpus {L} (cs : list (option SequentialPages.t)) (g : t L) : t L :=
  mk (vm g) cs (state g) (storage g) (ref_count g) (readers g).
Definition set_state {L} (x : GuestState.t) (g : t L) : t L := mk (vm g) (vcpus g) x (storage g) (ref_count g) (readers g).
Definition as_initializing_vm {L} (g : t L) : option (VmPages.t L) :=
  match state g with GuestState.Init => Some (vm g) | _ => None end.
Definition as_finalized_vm {L} (g : t L) : option (VmPages.t L) :=
  match state g with GuestState.Running => Some (vm g) | _ => None end.
(** [finalized] is whether [Vm::finalize] succeeds: powering on the boot vCPU and the
    measurement of its entry point. *)
Definition finalize {L} (finalized : bool) (g : t L) : result GuestError.t (t L) :=
  if 0 <? readers g then Err GuestInUse
  else if bool_decide (state g ≠ GuestState.Init) then Err GuestNotInitializing
  else if negb finalized then Err VmFinalizeFailed
  else Ok (set_state GuestState.Running g).
End GuestVm.

(** [guests] is the vector of [Guests]; its capacity is that of its pages. *)
Record machine {L : Type} := Machine {
  tracker : PageTracker.t; ram : mem; host : VmPages.t L; guests : list (GuestVm.t L); guests_capacity : nat
}.
Arguments machine : clear implicits.
Arguments Machine {L} _ _ _ _ _.

Section parts.
Context {L : Type}.
Implicit Types s : machine L.
Definition set_tracker (t : PageTracker.t) s : machine L := Machine t (ram s) (host s) (guests s) (guests_capacity s).
Definition set_ram (m : mem) s : machine L := Machine (tracker s) m (host s) (guests s) (guests_capacity s).
Definition set_guests (gs : list (GuestVm.t L)) s : machine L :=
  Machine (tracker s) (ram s) (host s) gs (guests_capacity s).

Definition track {E A} (f : M PageTracker.t E A) : M (machine L) E A := λ s,
  match f (tracker s) with
  | Returns (r, t) => Returns (r, set_tracker t s)
  | Panics => Panics
  end.
(** An operation on the memory of the host, and of the [i]-th guest. *)
Definition in_host {E A} (f : M (sys L) E A) : M (machine L) E A := λ s,
  match f (Sys (tracker s) (ram s) (host s)) with
  | Returns (r, Sys t m v) => Returns (r, Machine t m v (guests s) (guests_capacity s))
  | Panics => Panics
  end.
Definition in_guest {E A} (i : nat) (f : M (sys L) E A) : M (machine L) E A := λ s,
  match guests s !! i with
  | None => Panics
  | Some g =>
      match f (Sys (tracker s) (ram s) (GuestVm.vm g)) with
      | Returns (r, Sys t m v) =>
          Returns (r, Machine t m (host s) (<[i := GuestVm.set_vm v g]> (guests s)) (guests_capacity s))
      | Panics => Panics
      end
  end.

Definition clean_page (page : Page.t) {E} : M (machine L) E unit := modify (λ s, set_ram (clean (Page.addr page) (ram s)) s).

(** An error while a [LockedPageList] is alive drops it. *)
Definition or_drop_pages {A} (l : PageList.t) (f : M (machine L) EcallError.t A) : M (machine L) EcallError.t A := λ s,
  match f s with
  | Returns (Err e, s) =>
      (unwrap (track (LockedPageList.drop_ (Z.to_nat (PageList.len l)) l));; err e) s
  | o => o
  end.
End parts.

Module Guests.
Section guests.
Context {L : Type}.
(** The index in the vector stands for the reference. *)
Definition get (id : PageOwnerId.t) (s : machine L) : option nat :=
  position (λ g, GuestVm.page_owner_id g =? id) (guests s).
Definition add (guest : GuestVm.t L) : M (machine L) GuestError.t unit :=
  s ← Prelude.get;
  if decide (guests_capacity s < length (guests s) + 1)%nat then err InsufficientGuestStorage
  else put (set_guests (guests s ++ [guest]) s).
(** Returns the guest, which the caller drops. *)
Definition remove (id : PageOwnerId.t) : M (machine L) GuestError.t (GuestVm.t L) :=
  s ← Prelude.get;
  match get id s ≫= λ i, pair i <$> guests s !! i with
  | None => err InvalidGuestId
  | Some (i, guest) =>
      if negb (GuestVm.ref_count guest =? 1) then err GuestInUse
      else put (set_guests (delete i (guests s)) s);; mret guest
  end.
End guests.
End Guests.

Module VmRef.
Section calls.
Context `{PM : PagingMode L}.
Abbreviation call A := (M (machine L) EcallError.t A).

(** [.map_err(EcallError::from)?] of an operation on the host or the guest. *)
Definition host_pages {A} (f : M (sys L) VmPagesError.t A) : call A := with_err EcallError.from (in_host f).
Definition guest_pages {A} (i : nat) (f : M (sys L) VmPagesError.t A) : call A := with_err EcallError.from (in_guest i f).

Definition guest_addr_from_raw (guest_addr : Z) : call Z := lift (ok_or (PageAddr.new guest_addr) (Sbi InvalidParam)).

(** *** The host's own memory *)
Definition convert_pages (page_addr num_pages : Z) : call Z :=
  page_addr ← guest_addr_from_raw page_addr;
  host_pages (VmPagesRef.convert_pages page_addr num_pages);;
  mret num_pages.
Definition reclaim_pages (page_addr num_pages : Z) : call Z :=
  page_addr ← guest_addr_from_raw page_addr;
  host_pages (VmPagesRef.reclaim_pages page_addr num_pages);;
  mret num_pages.
(** Without the flush of the calling CPU's TLB. *)
Definition initiate_fence (iommu_fence : option (outcome unit)) : call Z :=
  host_pages (VmPagesRef.initiate_fence iommu_fence);; mret 0.

(** *** Guests *)

Definition guest_by_id (guest_id : Z) : call nat :=
  guest_id ← lift (ok_or (PageOwnerId.new guest_id) (Sbi InvalidParam));
  s ← get;
  lift (ok_or (Guests.get guest_id s) (Sbi InvalidParam)).
Definition with_state {A} (view : GuestVm.t L → option A) (i : nat) : call A :=
  s ← get;
  lift (ok_or (guests s !! i ≫= view) (Sbi InvalidParam)).

(** The loop over a [LockedPageList]: each page is popped, cleaned and assigned. *)
Fixpoint for_locked (fuel : nat) (l : PageList.t) (body : Page.t → call unit) : call unit :=
  match fuel with
  | O => mret tt
  | S fuel =>
      '(o, l) ← unwrap (track (PageList.pop l));
      match o with
      | None => mret tt
      | Some page => body page;; for_locked fuel l body
      end
  end.
Definition for_each_locked (l : PageList.t) (body : Page.t → call unit) : call unit :=
  for_locked (S (Z.to_nat (PageList.len l))) l body.

Definition guest_add_page_table_pages (guest_id from_addr num_pages : Z) : call Z :=
  i ← guest_by_id guest_id;
  guest ← with_state (λ g, Some (GuestVm.vm g)) i;
  from_page_addr ← guest_addr_from_raw from_addr;
  pages ← host_pages (VmPagesRef.get_converted_pages from_page_addr num_pages);
  for_each_locked pages (λ page,
    clean_page page;;
    page ← unwrap (track (PageTracker.assign_page_for_internal_state page (page_owner_id guest)));
    unwrap (in_guest i (VmPagesRef.add_pte_page page)));;
  mret 0.

Definition guest_add_memory_region (guest_id guest_addr len : Z) : call Z :=
  i ← guest_by_id guest_id;
  with_state GuestVm.as_initializing_vm i;;
  guest_addr ← guest_addr_from_raw guest_addr;
  guest_pages i (VmPagesRef.add_confidential_memory_region guest_addr len);;
  mret 0.

(** [pages.zip(addr.iter_from())]: the list is asked first, and a page for which no
    address is left is lost; the rest of the list is dropped. *)
Fixpoint zip_locked (fuel : nat) (l : PageList.t) (it : PageAddrIter.t) (body : Page.t → Z → call unit) : call unit :=
  match fuel with
  | O => mret tt
  | S fuel =>
      '(o, l) ← unwrap (track (PageList.pop l));
      match o, PageAddrIter.next it with
      | Some page, (Some addr, it) => body page addr;; zip_locked fuel l it body
      | _, _ => unwrap (track (LockedPageList.drop_ (Z.to_nat (PageList.len l)) l))
      end
  end.
Definition zip_each_locked (l : PageList.t) (addr : Z) (body : Page.t → Z → call unit) : call unit :=
  it ← of_outcome (unwrap_option (PageAddrIter.new addr Size4k));
  zip_locked (S (Z.to_nat (PageList.len l))) l it body.

(** [assign_page_for_mapping(..).unwrap()] and [mapper.map_page(..).unwrap()]. *)
Definition assign_and_map (i : nat) (owner : PageOwnerId.t) (mapper : GuestStageMapper.t) (page : Page.t) (addr : Z) : call unit :=
  page ← unwrap (track (PageTracker.assign_page_for_mapping page owner));
  unwrap (in_guest i (VmPagesMapper.do_map_page mapper addr page)).

Definition guest_add_zero_pages (guest_id page_addr : Z) (is_4k : bool) (num_pages guest_addr : Z) : call Z :=
  if negb is_4k then err (Sbi InvalidParam)
  else
    i ← guest_by_id guest_id;
    guest ← with_state GuestVm.as_finalized_vm i;
    from_page_addr ← guest_addr_from_raw page_addr;
    pages ← host_pages (VmPagesRef.get_converted_pages from_page_addr num_pages);
    '(to_page_addr, mapper) ← or_drop_pages pages (
      to_page_addr ← guest_addr_from_raw guest_addr;
      mapper ← guest_pages i (VmPagesRef.map_zero_pages to_page_addr num_pages);
      mret (to_page_addr, mapper));
    zip_each_locked pages to_page_addr (λ page addr,
      clean_page page;; assign_and_map i (page_owner_id guest) mapper page addr);;
    guest_pages i (VmPagesMapper.drop_ mapper);;
    mret num_pages.

(** *** Measured pages *)
Definition drop_locked (l : PageList.t) : call unit := unwrap (track (LockedPageList.drop_ (Z.to_nat (PageList.len l)) l)).
(** An error while the mapper is alive drops it. *)
Definition or_drop_mapper {A} (i : nat) (mapper : GuestStageMapper.t) (f : call A) : call A := λ s,
  match f s with
  | Returns (Err e, s) => (guest_pages i (VmPagesMapper.drop_ mapper);; err e) s
  | o => o
  end.

(** [match f { Ok(a) => .., Err(e) => .. }]. *)
Definition case_result {A B E} (f : M (machine L) E A) (ok : A → call B) (fail : E → call B) : call B := λ s,
  match f s with
  | Returns (Ok a, s) => ok a s
  | Returns (Err e, s) => fail e s
  | Panics => Panics
  end.

(** [copy dest src] is [copy_from_guest] to the page at [dest], which a fault makes fail.
    The page that could not be filled is unlocked, then the rest of the list and the
    pages filled so far are dropped. *)
Fixpoint initialize_pages (copy : Z → Z → M mem VmPagesError.t unit) (fuel : nat) (l initialized : PageList.t)
    (it : PageAddrIter.t) : call PageList.t :=
  match fuel with
  | O => mret initialized
  | S fuel =>
      '(o, l) ← unwrap (track (PageList.pop l));
      match o, PageAddrIter.next it with
      | Some page, (Some addr, it) =>
          case_result (in_host (on_table (copy (Page.addr page) addr)))
            (λ _, initialized ← unwrap (track (PageList.push page initialized));
                  initialize_pages copy fuel l initialized it)
            (λ e, unwrap (track (PageTracker.unlock_page page));;
                  drop_locked l;; drop_locked initialized;; err (EcallError.from e))
      | _, _ => drop_locked l;; mret initialized
      end
  end.

(** [measure] is [extend_tvm_page] for the page at a guest address. *)
Definition guest_add_measured_pages (copy : Z → Z → M mem VmPagesError.t unit) (measure : Z → Z → result VmPagesError.t unit)
    (guest_id src_addr dest_addr : Z) (is_4k : bool) (num_pages guest_addr : Z) : call Z :=
  if negb is_4k then err (Sbi InvalidParam)
  else
    i ← guest_by_id guest_id;
    guest ← with_state GuestVm.as_initializing_vm i;
    from_page_addr ← guest_addr_from_raw dest_addr;
    pages ← host_pages (VmPagesRef.get_converted_pages from_page_addr num_pages);
    '(to_page_addr, mapper) ← or_drop_pages pages (
      to_page_addr ← guest_addr_from_raw guest_addr;
      mapper ← guest_pages i (VmPagesRef.map_measured_pages to_page_addr num_pages);
      mret (to_page_addr, mapper));
    src_page_addr ← or_drop_pages pages (or_drop_mapper i mapper (guest_addr_from_raw src_addr));
    it ← of_outcome (unwrap_option (PageAddrIter.new src_page_addr Size4k));
    initialized ← or_drop_mapper i mapper
      (initialize_pages copy (S (Z.to_nat (PageList.len pages))) pages PageList.new it);
    zip_each_locked initialized to_page_addr (λ page addr,
      page ← unwrap (track (PageTracker.assign_page_for_mapping page (page_owner_id guest)));
      unwrap (lift (measure (Page.addr page) addr));;
      unwrap (in_guest i (VmPagesMapper.do_map_page mapper addr page)));;
    guest_pages i (VmPagesMapper.drop_ mapper);;
    mret num_pages.

(** *** Shared pages *)

(** The iterator of [get_shareable_pages] zipped with addresses: the next mapped page
    of the host is looked up when it is reached. *)
Fixpoint zip_shareable (fuel : nat) (vas : list Z) (it : PageAddrIter.t) (body : Page.t → Z → call unit) : call unit :=
  match fuel with
  | O => mret tt
  | S fuel =>
      s ← get;
      '(o, rest) ← unwrap (in_host (on_table (GuestStagePageTable.get_mapped_next (root (host s)) vas)));
      match o with
      | None => mret tt
      | Some paddr =>
          page ← unwrap (track (PageTracker.get_shareable_page MemType.Ram paddr (page_owner_id (host s))));
          match PageAddrIter.next it with
          | (Some addr, it) => body page addr;; zip_shareable fuel rest it body
          | _ => mret tt
          end
      end
  end.

Definition guest_add_shared_pages (guest_id page_addr : Z) (is_4k : bool) (num_pages guest_addr : Z) : call Z :=
  if negb is_4k || (num_pages =? 0) then err (Sbi InvalidParam)
  else
    i ← guest_by_id guest_id;
    with_state GuestVm.as_finalized_vm i;;
    from_page_addr ← guest_addr_from_raw page_addr;
    s ← get;
    pages ← host_pages (on_table (with_err VmPagesError.Paging (GuestStagePageTable.get_mapped_pages (root (host s)) from_page_addr
      (wrap64 (num_pages * PageSize.bytes Size4k))
      (λ addr, PageTracker.is_shareable_page addr (page_owner_id (host s)) MemType.Ram (tracker s)))));
    to_page_addr ← guest_addr_from_raw guest_addr;
    mapper ← guest_pages i (VmPagesRef.map_shared_pages to_page_addr num_pages);
    it ← of_outcome (unwrap_option (PageAddrIter.new to_page_addr Size4k));
    zip_shareable (S (length pages)) pages it (λ page addr,
      page ← unwrap (track (PageTracker.share_page MemType.Ram page (page_owner_id (host s))));
      unwrap (in_guest i (VmPagesMapper.do_map_page mapper addr page)));;
    guest_pages i (VmPagesMapper.drop_ mapper);;
    mret num_pages.

Definition guest_initiate_fence (iommu_fence : option (outcome unit)) (guest_id : Z) : call Z :=
  i ← guest_by_id guest_id;
  with_state GuestVm.as_finalized_vm i;;
  guest_pages i (VmPagesRef.initiate_fence iommu_fence);;
  mret 0.

(** *** Creation and destruction *)

(** The loop of [assign_pages]. *)
Fixpoint assign_locked (fuel : nat) (l assigned : PageList.t) (owner : PageOwnerId.t) : call PageList.t :=
  match fuel with
  | O => mret assigned
  | S fuel =>
      '(o, l) ← unwrap (track (PageList.pop l));
      match o with
      | None => mret assigned
      | Some page =>
          clean_page page;;
          page ← unwrap (track (PageTracker.assign_page_for_internal_state page owner));
          assigned ← unwrap (track (PageList.push page assigned));
          assign_locked fuel l assigned owner
      end
  end.
Definition assign_pages (l : PageList.t) (owner : PageOwnerId.t) : call PageList.t :=
  assign_locked (S (Z.to_nat (PageList.len l))) l PageList.new owner.
(** A [PageList] as an iterator. *)
Fixpoint list_pages (fuel : nat) (l : PageList.t) : call (list Page.t) :=
  match fuel with
  | O => mret []
  | S fuel =>
      '(o, l) ← unwrap (track (PageList.pop l));
      match o with
      | None => mret []
      | Some page => ps ← list_pages fuel l; mret (page :: ps)
      end
  end.
(** [SequentialPages::from_pages(Self::assign_pages(pages, owner)).unwrap()]; the loop of
    [from_pages] reads on until a page does not follow, which does not happen here. *)
Definition assign_sequential (l : PageList.t) (owner : PageOwnerId.t) : call SequentialPages.t :=
  assigned ← assign_pages l owner;
  ps ← list_pages (S (Z.to_nat (PageList.len assigned))) assigned;
  of_outcome (unwrap_result (SequentialPages.from_pages ps)).

(** Dropping pages of a [PageBox] or [PageArc], a pool and a VM. *)
Definition release_all (pages : SequentialPages.t) : call unit :=
  ps ← of_outcome (SequentialPages.into_iter pages);
  for_each ps (λ p, unwrap (track (PageTracker.release_page p))).
Fixpoint drop_pool (fuel : nat) (l : PageList.t) : call unit :=
  match fuel with
  | O => mret tt
  | S fuel =>
      '(o, l) ← unwrap (track (PageList.pop l));
      match o with
      | None => mret tt
      | Some page => unwrap (track (PageTracker.release_page page));; drop_pool fuel l
      end
  end.
Definition drop_vm_pages (v : VmPages.t L) : call unit :=
  s ← get;
  unwrap (track (GuestStagePageTable.drop_ (root v) (ram s)));;
  drop_pool (S (Z.to_nat (PageList.len (pte_pages v)))) (pte_pages v).
Definition drop_guest (g : GuestVm.t L) : call unit :=
  unwrap (track (PageTracker.rm_active_guest (GuestVm.page_owner_id g)));;
  for_each (omap id (GuestVm.vcpus g)) release_all;;
  drop_vm_pages (GuestVm.vm g);;
  release_all (GuestVm.storage g).

(** [required_pages] is [GuestVm::required_pages()], which depends on the layout of the
    type; [attested] tells whether the attestation manager could be created. *)
Definition add_guest (required_pages : Z) (attested : bool) (tvm_page_directory_addr tvm_state_addr : Z) : call Z :=
  page_root_addr ← guest_addr_from_raw tvm_page_directory_addr;
  guest_root_pages ← host_pages (VmPagesRef.get_converted_pages page_root_addr 4);
  guest_box_pages ← or_drop_pages guest_root_pages (
    s ← get;
    if negb (PageList.is_contiguous (tracker s) guest_root_pages) then err (Sbi InvalidAddress)
    else
      guest_root_base ← of_outcome (unwrap_option (PageList.peek guest_root_pages));
      if negb (guest_root_base mod TOP_LEVEL_ALIGN (L := L) =? 0) then err (Sbi InvalidAddress)
      else
        state_page_addr ← guest_addr_from_raw tvm_state_addr;
        host_pages (VmPagesRef.get_converted_pages state_page_addr required_pages));
  id ← or_drop_pages guest_root_pages (or_drop_pages guest_box_pages (
    s ← get;
    if negb (PageList.is_contiguous (tracker s) guest_box_pages) then err (Sbi InvalidAddress)
    else with_err (λ _, Sbi Failed) (track PageTracker.add_active_guest)));
  guest_root_pages ← assign_sequential guest_root_pages id;
  s ← get;
  r ← of_outcome (GuestStagePageTable.new guest_root_pages id (tracker s));
  guest_root ← of_outcome (unwrap_result r);
  let vm_pages := VmPages.new guest_root (wrap64 (nesting (host s) + 1)) in
  or_drop_pages guest_box_pages (if attested then mret tt else drop_vm_pages vm_pages;; err (Sbi Failed));;
  guest_box_pages ← assign_sequential guest_box_pages id;
  let guest_vm := GuestVm.new vm_pages guest_box_pages in
  case_result (Guests.add guest_vm) (λ _, mret id) (λ _, drop_guest guest_vm;; err (Sbi Failed)).

Definition destroy_guest (guest_id : Z) : call Z :=
  guest_id ← lift (ok_or (PageOwnerId.new guest_id) (Sbi InvalidParam));
  guest ← with_err (λ _, Sbi InvalidParam) (Guests.remove guest_id);
  drop_guest guest;;
  mret 0.

Definition guest_finalize (finalized : bool) (guest_id : Z) : call Z :=
  i ← guest_by_id guest_id;
  s ← get;
  guest ← of_outcome (unwrap_option (guests s !! i));
  guest ← lift (map_err (λ _, Sbi InvalidParam) (GuestVm.finalize finalized guest));
  put (set_guests (<[i := guest]> (guests s)) s);;
  mret 0.

(** [required_pages] is [VmCpus::required_state_pages_per_vcpu()]. *)
Definition guest_add_vcpu (required_pages guest_id vcpu_id state_page_addr : Z) : call Z :=
  i ← guest_by_id guest_id;
  guest ← with_state GuestVm.as_initializing_vm i;
  state_page_addr ← guest_addr_from_raw state_page_addr;
  pages ← host_pages (VmPagesRef.get_converted_pages state_page_addr required_pages);
  or_drop_pages pages (s ← get; if negb (PageList.is_contiguous (tracker s) pages) then err (Sbi InvalidAddress) else mret tt);;
  vcpu_pages ← assign_sequential pages (page_owner_id guest);
  s ← get;
  g ← of_outcome (unwrap_option (guests s !! i));
  match VmCpus.add_vcpu vcpu_id vcpu_pages (GuestVm.vcpus g) with
  | Ok slots => put (set_guests (<[i := GuestVm.set_vcpus slots g]> (guests s)) s);; mret 0
  | Err _ => release_all vcpu_pages;; err (Sbi InvalidParam)
  end.
End calls.
End VmRef.
