(* ===== verification/VmInvariant.v ===== *)
(** * The invariant of a VM on a machine with other VMs

    The tables of a VM lie in pages that the tracker records as internal state of that
    VM, and a VM maps only pages that it owns or that are shared.  A VM keeps this
    while others leave its pages alone, and while it maps pages and takes page-table
    pages. *)
From S2P Require Import Prelude Intervals RiscvPages PageInfoModel PageMapModel Tracker TrackerFacts PageListFacts Pte PteFacts PageTableModel PageTableFacts PageTableOps GuestTableFacts TlbModel TlbTrackerFacts VmRegions VmRegionsFacts VmPages VmPagesFacts.
Import PageSize(Size4k).
Import VmPages(page_owner_id, tlb_tracker, regions, nesting, root, pte_pages).

(** The page that an address lies in. *)
Definition page_of (a : Z) : Z := a / 4096 * 4096.

(** The internal state pages of [o] and the part of its pool [ps] that is left. *)
Definition state_of (t : PageTracker.t) (o : PageOwnerId.t) (a : Z) : Prop :=
  0 ≤ a < 2 ^ 56 ∧
  ∃ p, get_page t (page_of a) = Some p ∧ PageInfo.owner p = Some o ∧ PageInfo.state p = PageState.VmState.
Lemma drop_tail {A} (ps : list A) p l : (∃ k, p :: l = drop k ps) → ∃ k, l = drop k ps.
Proof. intros [k E]. exists (S k). by rewrite <-Nat.add_1_r, <-drop_drop, <-E. Qed.
Definition own (t : PageTracker.t) (o : PageOwnerId.t) (m : mem) (ps : list Page.t) : Footprint :=
  {| within := state_of t o; around := m; spare l := ∃ k, l = drop k ps; spare_tail := drop_tail ps |}.

(** A page that [o] may map. *)
Definition accessible (t : PageTracker.t) (o : PageOwnerId.t) (pa : Z) : Prop :=
  ∃ p, get_page t pa = Some p ∧
    (PageInfo.owner p = Some o ∧ PageInfo.state p = PageState.Mapped ∨ PageInfo.is_shared p = true).

(** No (un)sharing is in progress. *)
Definition settled (r : VmRegion.t) : Prop :=
  match VmRegion.region_type r with
  | VmRegionType.Sharing _ | VmRegionType.Unsharing _ | VmRegionType.Updating => False
  | _ => True
  end.

Lemma update_from_none {S} (f : VmRegion.t → S → outcome (option VmRegionType.t * S)) fuel i l x :
  (∀ r, r ∈ l → f r x = Returns (None, x)) → (length l < fuel + i)%nat → (0 < fuel)%nat →
  VmRegionUpdates.update_from f fuel i l x = Returns (l, x).
Proof.
  intros Hf. revert i. induction fuel as [|k IH]; intros i Hl Hk; [lia|]. cbn [VmRegionUpdates.update_from].
  destruct (l !! i) as [r|] eqn:Hr; [|done]. rewrite Hf by by eapply list_elem_of_lookup_2. cbn [mbind outcome_bind].
  apply IH; [lia|]. apply lookup_lt_Some in Hr. lia.
Qed.

Lemma complete_settled `{PM : PagingMode L} (s : sys L) :
  Forall settled (regions (vm s)) → VmPagesRef.complete_pending_unassignment s = Returns s.
Proof.
  intros Hs. unfold VmPagesRef.complete_pending_unassignment, VmRegionUpdates.update_all.
  rewrite list.Forall_forall in Hs. rewrite update_from_none; [by destruct s as [? ? []]| |lia|lia].
  intros r Hr. specialize (Hs r Hr). unfold settled in Hs. by destruct (VmRegion.region_type r).
Qed.

Section vm.
Context `{PL : PagingLaws L}.
Implicit Types v w : VmPages.t L.

Abbreviation table v := (GuestStagePageTable.inner (root v)).

(** What the entries of the table are. *)
Definition mapped_ok (t : PageTracker.t) (m : mem) v : Prop := ∀ va x, lookup (table v) m va = Some x →
  mp_size x = Size4k ∧
  match mp_kind x with
  | KLeaf => accessible t (page_owner_id v) (mp_addr x)
  | KInvalidated => nesting v < 1
  | KLockedUnmapped => mp_addr x = 0
  | _ => False
  end.

(** [ps] are the pages in the pool of the VM. *)
Record vm_inv (t : PageTracker.t) (m : mem) v (ps : list Page.t) : Prop := {
  vi_ok : vm_ok (FP := own t (page_owner_id v) m ps) (Sys t m v) ps;
  vi_pool : list_rep t (pte_pages v) (Page.addr <$> ps);
  vi_size : Forall (λ p, Page.size p = Size4k) ps;
  vi_mapped : mapped_ok t m v;
  vi_regions : regions_ok (regions v) ∧ Forall settled (regions v)
}.

(** What a step may do to the pages, as seen by a VM [o] that refers to pages [ref]. *)
Record undisturbed (ref : Z → Prop) (o : PageOwnerId.t) (t t' : PageTracker.t) : Prop := {
  un_wf : tracker_wf t';
  un_owned a p' : phys a → ref a → get_page t' a = Some p' → PageInfo.owner p' = Some o →
    ∃ p, get_page t a = Some p ∧ PageInfo.owner p = Some o ∧ PageInfo.link_ p' = PageInfo.link_ p;
  un_kept a p : phys a → get_page t a = Some p → PageInfo.owner p = Some o →
    PageInfo.state p = PageState.VmState → get_page t' a = Some p;
  un_access a : phys a → accessible t o a → accessible t' o a
}.
Definition refers m v (pa : Z) : Prop := ∃ va, frame (lookup (table v) m va) = Some pa.

Lemma page_of_phys a : 0 ≤ a < 2 ^ 56 → phys (page_of a).
Proof. intros Ha. unfold phys, page_of. split; [mod_lia|apply Z.mod_mul; lia]. Qed.

(** A VM whose pages and page-table memory are left alone keeps its invariant. *)
Lemma vm_inv_undisturbed t t' m m' v ps :
  vm_inv t m v ps → undisturbed (refers m v) (page_owner_id v) t t' →
  (∀ a, state_of t (page_owner_id v) a → read_pte m' a = read_pte m a) → vm_inv t' m' v ps.
Proof using PL.
  intros [[Hst Hwf Hex Hun] Hpool Hsz Hmap Hreg] [Uwf Uo Uk Us] Hm. cbn in Hst, Hwf, Hex, Hun.
  set (o := page_owner_id v) in *.
  assert (Hin : ∀ a, state_of t o a → state_of t' o a).
  { intros a (Ha & p & Hp & Ho & Hs). split; [done|]. exists p. split; [|done].
    apply Uk; [by apply page_of_phys|done..]. }
  destruct (pt_state_within (FP := own t o m ps) (own t' o m' ps) (table v) m m' ps Hst Hm Hin) as [Hst' Htr];
    [by exists 0%nat|done|].
  split.
  - split; cbn; [done|done| |].
    + intros va va' pa. rewrite !Htr. intros Hf Hf' (p' & Hp' & Ho')%query_true. apply bool_decide_eq_true in Ho'.
      pose proof (frame_phys (FP := own t o m ps) _ _ _ _ _ Hst Hf) as Hph.
      destruct (Uo pa p' Hph ltac:(by exists va) Hp' Ho') as (p & Hp & Ho & _). eapply Hex; [done..|]. apply query_true. exists p.
      split; [done|]. by apply bool_decide_eq_true.
    + intros va pa p'. rewrite Htr. intros Hf Hp' Ho'. pose proof (frame_phys (FP := own t o m ps) _ _ _ _ _ Hst Hf) as Hph.
      destruct (Uo pa p' Hph ltac:(by exists va) Hp' Ho') as (p & Hp & Ho & ->). by eapply Hun.
  - destruct (pt_state_frame (FP := own t o m ps) _ _ _ Hst) as (_ & _ & _ & Hpg). destruct Hpool as [P1 P2 P3 P4 P5 P6 P7].
    split; try done. intros i a Hi. destruct (P7 i a Hi) as (p & Hp & Hl). exists p. split; [|done].
    rewrite list.Forall_forall in P6. destruct (P6 a (list_elem_of_lookup_2 _ _ _ Hi)) as [Hph _].
    apply list_lookup_fmap_Some in Hi as (q & -> & Hq). destruct (Hpg q (Page.addr q) (list_elem_of_lookup_2 _ _ _ Hq) ltac:(lia))
      as (_ & p0 & Hp0 & Ho0 & Hs0). assert (page_of (Page.addr q) = Page.addr q) as E by (destruct Hph; unfold page_of; mod_lia).
    rewrite E in Hp0. assert (p0 = p) as -> by congruence. apply Uk; auto.
  - done.
  - intros va x. rewrite Htr. intros Hx. destruct (Hmap va x Hx) as [Hs Hk]. split; [done|].
    destruct (mp_kind x) eqn:Hkx; try done. apply Us; [|done]. eapply (frame_phys (FP := own t o m ps)); [exact Hst|]. rewrite Hx. unfold frame.
    destruct x as [k sz pa]; cbn in Hs, Hkx |- *; by subst.
  - done.
Qed.

(** A step of VM [g]: what it does to the others. *)
Record kept (g : PageOwnerId.t) (t0 : PageTracker.t) (m0 : mem) (t : PageTracker.t) (m : mem) : Prop := {
  kp_others o : o ≠ g → undisturbed (λ _, True) o t0 t;
  kp_mem o a : o ≠ g → state_of t0 o a → read_pte m a = read_pte m0 a
}.

Lemma kept_vm g t0 m0 t m w ps : kept g t0 m0 t m → vm_inv t0 m0 w ps → page_owner_id w ≠ g → vm_inv t m w ps.
Proof using PL.
  intros [Ho Hm] Hi Hw. eapply vm_inv_undisturbed; [done| |intros a; by apply Hm].
  destruct (Ho _ Hw) as [? Uo ? ?]. split; [done| |done|done]. intros a p' Ha _. by apply Uo.
Qed.

Lemma kept_trans g t0 m0 t1 m1 t m : kept g t0 m0 t1 m1 → kept g t1 m1 t m → kept g t0 m0 t m.
Proof using Type.
  intros [Ho Hm] [Ho' Hm']. split.
  - intros o Hne. destruct (Ho o Hne) as [U1 U2 U3 U4], (Ho' o Hne) as [V1 V2 V3 V4]. split; [done|..].
    + intros a p' Ha _ Hp' Hop'. destruct (V2 a p' Ha I Hp' Hop') as (p1 & Hp1 & Ho1 & ->). by apply U2.
    + intros a p Ha Hp Hop Hs. apply V3; [done|by apply U3|done|done].
    + intros a Ha Hacc. by apply V4, U4.
  - intros o a Hne Hst. rewrite (Hm' o a Hne), (Hm o a Hne Hst); [done|]. destruct Hst as (Ha & p & Hp & Hop & Hs).
    split; [done|]. exists p. split; [|done]. apply (un_kept _ _ _ _ (Ho o Hne)); [by apply page_of_phys|done..].
Qed.

(** ** The pool of page-table pages *)

(** [t'] is [t] without the links of [xs]. *)
Definition unlinked_from (xs : list Z) (t t' : PageTracker.t) : Prop :=
  tracker_wf t' ∧
  ∀ c, phys c → get_page t' c = if decide (c ∈ xs) then PageInfo.unlink <$> get_page t c else get_page t c.

Lemma pop_page t m v p ps :
  tracker_wf t → list_rep t (pte_pages v) (Page.addr <$> p :: ps) → Page.size p = Size4k →
  ∃ t' l', PtePagePool.pop (Sys t m v) = Returns (Ok (Some p), Sys t' m (set_pool l' v)) ∧
    unlinked_from [Page.addr p] t t' ∧ list_rep t' l' (Page.addr <$> ps).
Proof using Type.
  intros Hwf Hrep Hsz. destruct p as [a sz]. cbn in Hsz. subst sz. cbn in Hrep.
  destruct (pop_rep t (pte_pages v) a (Page.addr <$> ps)) as (l' & p & Hp & Hpop & Hrep'); [apply Hwf|done|].
  pose proof (lr_phys _ _ _ Hrep) as [[Ha _] _]%list.Forall_cons.
  exists (set_page a (PageInfo.unlink p) t), l'. split_and!; [|split|done].
  - unfold PtePagePool.pop. erewrite bind_ok by done. erewrite bind_ok by (unfold unwrap, on_tracker; cbn; by rewrite Hpop). done.
  - by apply unlink_page_wf.
  - intros c Hc. cbn. destruct (decide (c = a)) as [->|Hne].
    + rewrite decide_True by left. rewrite Hp. eapply get_page_set_eq; [apply Hwf|done..].
    + rewrite decide_False by (by intros [->|[]%elem_of_nil]%elem_of_cons). apply get_page_set_ne; [apply Hwf|done..].
Qed.

Lemma unlinked_app xs ys t t1 t2 : unlinked_from xs t t1 → unlinked_from ys t1 t2 → unlinked_from (xs ++ ys) t t2.
Proof using Type.
  intros [_ H1] [Hwf H2]. split; [done|]. intros c Hc. rewrite H2, H1 by done.
  destruct (decide (c ∈ xs)), (decide (c ∈ ys)), (decide (c ∈ xs ++ ys)) as [[]%elem_of_app|Hn]; try done;
    try (exfalso; apply Hn, elem_of_app; tauto); by destruct (get_page t c).
Qed.

Lemma pop_pages k t m v ps :
  tracker_wf t → list_rep t (pte_pages v) (Page.addr <$> ps) → Forall (λ p, Page.size p = Size4k) ps → (k ≤ length ps)%nat →
  ∃ t' l', PtePagePool.pop_n k (Sys t m v) = Returns (Ok tt, Sys t' m (set_pool l' v)) ∧
    unlinked_from (Page.addr <$> take k ps) t t' ∧ list_rep t' l' (Page.addr <$> drop k ps).
Proof using Type.
  revert t v ps. induction k as [|k IH]; intros t v ps Hwf Hrep Hsz Hk.
  { exists t, (pte_pages v). split_and!; [by destruct v|split; [done|]|done]. intros c _. by rewrite decide_False by apply not_elem_of_nil. }
  destruct ps as [|p ps]; [cbn in Hk; lia|]. apply list.Forall_cons in Hsz as [Hp Hsz]. cbn in Hk.
  destruct (pop_page t m v p ps) as (t1 & l1 & Hpop & Hun & Hrep1); [done..|].
  destruct (IH t1 (set_pool l1 v) ps) as (t' & l' & Hn & Hun' & Hrep'); [apply Hun|done|done|lia|].
  exists t', l'. split_and!; [|by apply (unlinked_app [Page.addr p] _ t t1)|done].
  cbn [PtePagePool.pop_n]. by erewrite bind_ok by exact Hpop.
Qed.

Lemma pool_contents t m v ps fuel :
  tracker_wf t → list_rep t (pte_pages v) (Page.addr <$> ps) → Forall (λ p, Page.size p = Size4k) ps → fuel = length ps →
  PtePagePool.contents fuel (Sys t m v) = ps.
Proof using Type.
  revert t v ps. induction fuel as [|k IH]; intros t v ps Hwf Hrep Hsz Hk; [by destruct ps|].
  destruct ps as [|p ps]; [done|]. apply list.Forall_cons in Hsz as [Hp Hsz]. injection Hk as Hk.
  destruct (pop_page t m v p ps) as (t1 & l1 & Hpop & Hun & Hrep1); [done..|].
  cbn [PtePagePool.contents]. rewrite Hpop. f_equal. apply IH; [apply Hun|done..].
Qed.

(** An operation on the table that takes pages from the pool. *)
Lemma with_pool_eq {A} (f : M (mem * list Page.t) PtError.t A) t m v ps k r m' :
  tracker_wf t → list_rep t (pte_pages v) (Page.addr <$> ps) → Forall (λ p, Page.size p = Size4k) ps →
  f (m, ps) = Returns (r, (m', drop k ps)) → (k ≤ length ps)%nat →
  ∃ t' l', VmPagesMapper.with_pool f (Sys t m v) = Returns (map_err VmPagesError.Paging r, Sys t' m' (set_pool l' v)) ∧
    unlinked_from (Page.addr <$> take k ps) t t' ∧ list_rep t' l' (Page.addr <$> drop k ps).
Proof using Type.
  intros Hwf Hrep Hsz Hf Hk. destruct (pop_pages k t m' v ps) as (t' & l' & Hn & Hun & Hrep'); [done..|].
  exists t', l'. split_and!; [|done..]. unfold VmPagesMapper.with_pool. cbn [vm memory pt].
  rewrite (pool_contents t m v ps) by (try done; rewrite (lr_len _ _ _ Hrep), Nat2Z.id; apply length_fmap).
  rewrite Hf. rewrite length_drop. replace (length ps - (length ps - k))%nat with k by lia.
  by erewrite bind_ok by exact Hn.
Qed.

(** ** Operations of the VM itself *)
Lemma vi_state t m v ps : vm_inv t m v ps → pt_state (FP := own t (page_owner_id v) m ps) (table v) m ps.
Proof using Type. intros [[Hs _ _ _] _ _ _ _]. exact Hs. Qed.
Lemma vi_wf t m v ps : vm_inv t m v ps → tracker_wf t.
Proof using Type. intros [[_ Hs _ _] _ _ _ _]. exact Hs. Qed.

(** Memory outside the tables does not matter for the translation. *)
Lemma same_tables t m v ps m' :
  vm_inv t m v ps → (∀ a, state_of t (page_owner_id v) a → read_pte m' a = read_pte m a) → same_translation (table v) m m'.
Proof using PL.
  intros Hi Hm. destruct (pt_state_within (FP := own t (page_owner_id v) m ps) anywhere (table v) m m' ps (vi_state _ _ _ _ Hi) Hm) as [_ Hs]; [done|done| |done].
  intros a []. exact I.
Qed.

Lemma state_of_unlinked xs t t' o a : unlinked_from xs t t' → state_of t o a → state_of t' o a.
Proof using Type.
  intros [_ Hg] (Ha & p & Hp & Ho & Hs). split; [done|]. rewrite Hg by by apply page_of_phys. rewrite Hp.
  case_decide; eexists; (split; [done|]); done.
Qed.

Lemma accessible_unlinked xs t t' o pa : unlinked_from xs t t' → phys pa → accessible t o pa → accessible t' o pa.
Proof using Type.
  intros [_ Hg] Hpa (p & Hp & Ha). unfold accessible. rewrite Hg by done. rewrite Hp.
  case_decide; eexists; (split; [done|]); done.
Qed.

(** The frames of a VM's entries are mapped pages or were converted. *)
Lemma leaf_accessible t m v ps va pa :
  vm_inv t m v ps → frame (lookup (table v) m va) = Some pa →
  phys pa ∧ (accessible t (page_owner_id v) pa ∨ nesting v < 1).
Proof using PL.
  intros Hi Hf. split; [by eapply (frame_phys (FP := own t (page_owner_id v) m ps)); [by eapply vi_state|]|].
  destruct (lookup (table v) m va) as [x|] eqn:Hx; [|done]. destruct (vi_mapped _ _ _ _ Hi va x Hx) as [Hs Hk].
  destruct x as [[] sz a]; cbn in *; subst sz; cbn in Hf; simplify_eq; auto.
Qed.

(** The table changes, and pages leave the pool. *)
Lemma vm_inv_popped t m v ps t' m' l' k :
  vm_inv t m v ps → pt_state (FP := own t (page_owner_id v) m ps) (table v) m' (drop k ps) →
  unlinked_from (Page.addr <$> take k ps) t t' → list_rep t' l' (Page.addr <$> drop k ps) →
  (∀ va pa, frame (lookup (table v) m' va) = Some pa → frame (lookup (table v) m va) = Some pa) →
  mapped_ok t m' v → vm_inv t' m' (set_pool l' v) (drop k ps).
Proof using PL.
  intros Hi Hst Hun Hrep Hfr Hmap. set (o := page_owner_id v) in *. pose proof Hi as [[Hst0 Hwf Hex Hul] _ Hsz _ Hreg].
  cbn in Hst0, Hwf, Hex, Hul.
  assert (Hpg : ∀ pa p', phys pa → get_page t' pa = Some p' → PageInfo.owner p' = Some o →
    ∃ p, get_page t pa = Some p ∧ PageInfo.owner p = Some o ∧ (PageInfo.link_ p = None → PageInfo.link_ p' = None)).
  { intros pa p' Hpa. destruct Hun as [_ Hg]. rewrite Hg by done. case_decide; [|by eauto].
    intros (p & Hp & ->)%fmap_Some Ho. exists p. done. }
  destruct (pt_state_within (FP := own t o m ps) (own t' o m' (drop k ps)) (table v) m' m' (drop k ps) Hst) as [Hst' _];
    [done|intros a; by eapply state_of_unlinked|by exists 0%nat|done|].
  split; cbn; [split; cbn| | | |].
  - exact Hst'.
  - apply Hun.
  - intros va va' pa Hf Hf' (p' & Hp' & Ho'%bool_decide_eq_true)%query_true.
    destruct (Hpg pa p') as (p & Hp & Ho & _); [by eapply (leaf_accessible t m v); [|apply Hfr]|done..|].
    eapply Hex; [by apply Hfr..|]. apply query_true. exists p. split; [done|]. by apply bool_decide_eq_true.
  - intros va pa p' Hf Hp' Ho'.
    destruct (Hpg pa p') as (p & Hp & Ho & Hl); [by eapply (leaf_accessible t m v); [|apply Hfr]|done..|].
    apply Hl. eapply Hul; [by apply Hfr|done..].
  - done.
  - by apply Forall_drop.
  - intros va x Hx. destruct (Hmap va x Hx) as [Hs Hk]. split; [done|]. cbn.
    destruct (mp_kind x) eqn:Hkx; try done. eapply accessible_unlinked; [done| |done].
    eapply (frame_phys (FP := own t o m ps)); [exact Hst|]. change (lookup (table v) m' va = Some x) in Hx. rewrite Hx.
    destruct x as [? sz pa]; cbn in *; by subst.
  - done.
Qed.

Lemma drop_min {A} k (l : list A) : ∃ k', (k' ≤ length l)%nat ∧ drop k l = drop k' l.
Proof using Type.
  exists (k `min` length l)%nat. split; [lia|]. destruct (decide (k ≤ length l)%nat); [by rewrite Nat.min_l|].
  by rewrite Nat.min_r, !drop_ge by lia.
Qed.

Lemma set_pool_id v : set_pool (pte_pages v) v = v.
Proof using Type. by destruct v. Qed.

(** The memory that only [o] may have changed. *)
Definition elsewhere (t : PageTracker.t) (o : PageOwnerId.t) (m m' : mem) : Prop :=
  ∀ a, ¬ state_of t o a → read_pte m' a = read_pte m a.

Lemma idle_unmapped t m v ps va :
  vm_inv t m v ps → 1 ≤ nesting v → is_idle (lookup (table v) m va) → lookup (table v) m va = None.
Proof using Type.
  intros Hi Hn [pa Hpa]. unfold idle in Hpa. destruct (pa =? 0); [done|].
  destruct (vi_mapped _ _ _ _ Hi va _ Hpa) as [_ Hk]. cbn in Hk. lia.
Qed.

Lemma lock_range_inv t m v ps m1 k vas :
  vm_inv t m v ps → 1 ≤ nesting v → pt_state (FP := own t (page_owner_id v) m ps) (table v) m1 (drop k ps) →
  Forall (λ va, is_idle (lookup (table v) m va)) vas → mapped_over (table v) m m1 vas lock_idle →
  (∀ va, va ∈ vas → lookup (table v) m1 va = Some (Mapping KLockedUnmapped Size4k 0)) ∧
  (∀ va pa, frame (lookup (table v) m1 va) = Some pa → frame (lookup (table v) m va) = Some pa) ∧ mapped_ok t m1 v.
Proof using PL.
  intros Hi Hn Hst Hid Hm. rewrite list.Forall_forall in Hid.
  assert (Hcov : ∀ va, covered (L := L) vas va → lookup (table v) m va = None).
  { intros va (va' & Heq & Hin)%list_elem_of_fmap.
    rewrite (lookup_same_page (FP := own t (page_owner_id v) m ps) (table v) m ps va' va) by (done || by apply vi_state).
    eapply idle_unmapped; [done..|]. by apply Hid. }
  split_and!.
  - intros va Hin. rewrite (mapped_over_in _ _ _ _ _ _ Hm Hin). by rewrite Hcov by by apply covered_in.
  - intros va pa. rewrite Hm. case_decide as Hc; [|done]. by rewrite Hcov.
  - intros va x. rewrite Hm. case_decide as Hc; [|by apply Hi]. rewrite Hcov by done. by intros [= <-].
Qed.

(** What [do_map_pages] leaves behind. *)
Definition range_locked t m v ps (a n : Z) (o : outcome (result VmPagesError.t GuestStageMapper.t * sys L)) : Prop :=
  ∃ r t' m' l' k, o = Returns (r, Sys t' m' (set_pool l' v)) ∧
    vm_inv t' m' (set_pool l' v) (drop k ps) ∧ unlinked_from (Page.addr <$> take k ps) t t' ∧
    elsewhere t (page_owner_id v) m m' ∧
    match r with
    | Ok mapper => 0 < n ∧ mapper = GuestStageMapper.mk a n ∧
        ∀ va, va ∈ page_seq a Size4k (Z.to_nat n) → lookup (table v) m' va = Some (Mapping KLockedUnmapped Size4k 0)
    | Err _ => True
    end.

Lemma map_pages_inv t m v ps a n ty :
  vm_inv t m v ps → 1 ≤ nesting v → 0 ≤ a → a mod 4096 = 0 → 0 ≤ n → a + n * 4096 < U64 → n * 4096 ≤ 2 ^ abits L →
  range_locked t m v ps a n (VmPagesRef.do_map_pages a n ty (Sys t m v)).
Proof using PL.
  intros Hi Hnest H0 Hal Hn Hb Hab. set (o := page_owner_id v).
  assert (Hid : ∀ e, range_locked t m v ps a n (Returns (Err e, Sys t m v))).
  { intros e. exists (Err e), t, m, (pte_pages v), 0%nat. rewrite set_pool_id. split_and!; [done|exact Hi| |done|done].
    split; [by eapply vi_wf|]. intros c _. by rewrite decide_False by apply not_elem_of_nil. }
  unfold VmPagesRef.do_map_pages. destruct (Z.eqb_spec n 0) as [->|Hn0]; [apply Hid|].
  unfold VmPagesMapper.new_in_region, VmPagesMapper.check_region.
  assert (PageAddr.checked_add_pages a n = Some (a + n * 4096)) as -> by (apply (checked_add_pages_spec a n Size4k); cbn; [done|lia]).
  destruct (VmRegionUpdates.contains a (a + n * 4096) ty (regions v)) eqn:Hc; cycle 1.
  { erewrite bind_err; [apply Hid|]. do 2 erewrite bind_ok by done. cbn [vm]. by rewrite Hc. }
  erewrite bind_ok by (do 2 erewrite bind_ok by done; cbn [vm]; by rewrite Hc). erewrite bind_ok by done. cbn [vm].
  destruct (map_range_spec_aux (FP := own t o m ps) (root v) m ps a n) as (r & m' & ps' & Hr & Hst & Hpost);
    [by apply vi_state|done..|lia|done|].
  destruct (pt_state_frame (FP := own t o m ps) _ _ _ Hst) as ((k0 & ->) & _ & Har & _).
  destruct (drop_min k0 ps) as (k & Hk & Hd). rewrite Hd in *. 
  destruct (with_pool_eq (GuestStagePageTable.map_range (root v) a Size4k n) t m v ps k r m') as (t' & l' & Hp & Hun & Hrep);
    [by eapply vi_wf|by apply Hi..|done|done|].
  exists (map_err VmPagesError.Paging r), t', m', l', k. split; [exact Hp|].
  destruct r as [mapper|e]; cbn [map_err].
  - destruct Hpost as (-> & Hidle & Hm). destruct (lock_range_inv t m v ps m' k (page_seq a Size4k (Z.to_nat n))) as (Hl & Hf & Hmp);
      [done..|]. split_and!; [by eapply vm_inv_popped|done|done|lia| |done].
    rewrite length_page_seq, Z2Nat.id by done. done.
  - destruct Hpost as [Hs _]. split_and!; [|done..]. eapply vm_inv_popped; [done..| |]; [by intros va pa; rewrite Hs|].
    intros va x. rewrite Hs. apply Hi.
Qed.

Lemma vm_inv_table t m v ps m' :
  vm_inv t m v ps → pt_state (FP := own t (page_owner_id v) m ps) (table v) m' ps → mapped_ok t m' v →
  (∀ va va' pa, frame (lookup (table v) m' va) = Some pa → frame (lookup (table v) m' va') = Some pa →
     PageTracker.is_owned pa (page_owner_id v) t = true → leaf_no L Size4k va = leaf_no L Size4k va') →
  (∀ va pa p, frame (lookup (table v) m' va) = Some pa → get_page t pa = Some p →
     PageInfo.owner p = Some (page_owner_id v) → PageInfo.link_ p = None) →
  vm_inv t m' v ps ∧ elsewhere t (page_owner_id v) m m'.
Proof using PL.
  intros [[_ Hwf _ _] Hpool Hsz _ Hreg] Hst Hmap Hex Hul. cbn in Hwf.
  destruct (pt_state_within (FP := own t (page_owner_id v) m ps) (own t (page_owner_id v) m' ps) (table v) m' m' ps Hst) as [Hst' _];
    [done|done|by exists 0%nat|done|].
  destruct (pt_state_frame (FP := own t (page_owner_id v) m ps) _ _ _ Hst) as (_ & _ & Har & _).
  split; [|exact Har]. by split.
Qed.

Lemma map_page_inv t m v ps mapper va pa :
  vm_inv t m v ps → in_mapper mapper va → phys pa →
  lookup (table v) m va = Some (Mapping KLockedUnmapped Size4k 0) → accessible t (page_owner_id v) pa →
  (∀ p, get_page t pa = Some p → PageInfo.owner p = Some (page_owner_id v) → PageInfo.link_ p = None ∧ ¬ refers m v pa) →
  ∃ m', VmPagesMapper.do_map_page mapper va (Page.mk pa Size4k) (Sys t m v) = Returns (Ok tt, Sys t m' v) ∧
    vm_inv t m' v ps ∧ elsewhere t (page_owner_id v) m m' ∧
    updated (table v) m m' Size4k va (Some (Mapping KLeaf Size4k pa)).
Proof using PL.
  intros Hi Hin Hpa Hl Hacc Hfree.
  destruct (map_page_ok (FP := own t (page_owner_id v) m ps) (root v) mapper m ps va (Page.mk pa Size4k) 0) as (m' & Heq & Hst & Hu);
    [by apply vi_state|done| |done|]. { destruct Hpa. split_and!; cbn; [done|done|lia|lia]. }
  cbn [Page.addr] in Hu. exists m'. split.
  { unfold VmPagesMapper.do_map_page, on_table, with_err. erewrite bind_ok by done. cbn [vm memory pt]. by rewrite Heq. }
  assert (Hframe : ∀ x p, frame (lookup (table v) m' x) = Some p →
    (leaf_no L Size4k x = leaf_no L Size4k va ∧ p = pa) ∨ frame (lookup (table v) m x) = Some p).
  { intros x p. rewrite Hu. case_decide; [intros [= <-]; by left|by right]. }
  assert (Hown : PageTracker.is_owned pa (page_owner_id v) t = true → ¬ refers m v pa).
  { intros (p & Hp & Ho%bool_decide_eq_true)%query_true. by eapply Hfree. }
  destruct (vm_inv_table t m v ps m') as [Hi' He]; [done|exact Hst| | | |by split_and!].
  - intros x y. rewrite Hu. case_decide; [|by apply Hi]. intros [= <-]. done.
  - intros x x' p [[-> ->]|Hf]%Hframe [[-> Hp]|Hf']%Hframe Ho; [done| | |].
    + destruct (Hown Ho). by eexists.
    + subst p. destruct (Hown Ho). by eexists.
    + by eapply (vo_excl (FP := own t (page_owner_id v) m ps) _ _ (vi_ok _ _ _ _ Hi)).
  - intros x p q [[_ ->]|Hf]%Hframe Hq Ho; [by apply (Hfree q)|].
    by eapply (vo_unlinked (FP := own t (page_owner_id v) m ps) _ _ (vi_ok _ _ _ _ Hi)).
Qed.

Lemma drop_mapper_inv t m v ps a n :
  vm_inv t m v ps → 0 ≤ a → a mod 4096 = 0 → 0 ≤ n → a + n * 4096 < U64 → n * 4096 ≤ 2 ^ abits L →
  ∃ m', VmPagesMapper.drop_ (GuestStageMapper.mk a n) (Sys t m v) = Returns (Ok tt, Sys t m' v) ∧
    vm_inv t m' v ps ∧ elsewhere t (page_owner_id v) m m'.
Proof using PL.
  intros Hi H0 Hal Hn Hb Hab.
  destruct (unlock_all_spec (FP := own t (page_owner_id v) m ps) (table v) m ps (page_seq a Size4k (Z.to_nat n))) as (m' & Hr & Hst & Hm);
    [by apply vi_state|apply range_NoDup; [done|lia]| |].
  { apply list.Forall_forall. intros va _ x Hx. by destruct (vi_mapped _ _ _ _ Hi va x Hx). }
  exists m'. split.
  { unfold VmPagesMapper.drop_, on_table, with_err, GuestStageMapper.drop_. erewrite bind_ok by done. cbn [vm memory pt].
    cbn [GuestStageMapper.vaddr GuestStageMapper.num_pages]. rewrite iter_from_take_run by lia. erewrite bind_ok by done. by rewrite Hr. }
  assert (Hsame : ∀ va, lookup (table v) m' va = lookup (table v) m va ∨ lookup (table v) m' va = None).
  { intros va. rewrite Hm. case_decide; [|by left]. destruct (lookup (table v) m va) as [[k sz pa]|] eqn:Hx; [|by left].
    destruct (vi_mapped _ _ _ _ Hi va _ Hx) as [Hs Hk]. cbn in Hs, Hk. destruct k; try done; try (by left). subst. by right. }
  apply vm_inv_table; [done|exact Hst|..].
  - intros va x. destruct (Hsame va) as [-> | ->]; [|done]. by apply Hi.
  - intros va va' pa. destruct (Hsame va) as [-> | ->]; [|done]. destruct (Hsame va') as [-> | ->]; [|done].
    apply (vo_excl (FP := own t (page_owner_id v) m ps) _ _ (vi_ok _ _ _ _ Hi)).
  - intros va pa p. destruct (Hsame va) as [-> | ->]; [|done].
    apply (vo_unlinked (FP := own t (page_owner_id v) m ps) _ _ (vi_ok _ _ _ _ Hi)).
Qed.

(** ** New page-table pages *)
Definition given (st : PageState.t) (o : PageOwnerId.t) (p : PageInfo.t) : PageInfo.t :=
  PageInfo.set_state st (PageInfo.set_owners (PageInfo.owners p ++ [o]) p).

Lemma owner_given st o p :
  st = PageState.Mapped ∨ st = PageState.VmState → PageInfo.owner (given st o p) = Some o.
Proof using Type.
  intros Hst. unfold PageInfo.owner, given. cbn. rewrite length_app, Nat.add_sub. cbn. rewrite list_lookup_middle by done.
  by destruct Hst as [-> | ->].
Qed.

(** Sharing a page disturbs no VM. *)
Lemma share_undisturbed o t c p q :
  tracker_wf t → phys c → get_page t c = Some p → PageInfo.share p = Ok q →
  tracker_wf (set_page c q t) ∧ PageInfo.is_shared q = true ∧ PageInfo.owner q = PageInfo.owner p ∧ PageInfo.owners q = PageInfo.owners p ∧
  undisturbed (λ _, True) o t (set_page c q t).
Proof using Type.
  intros Hwf Hc Hp Hq. destruct (tw_pages _ Hwf c p Hc Hp) as (H1 & H2 & H3).
  assert (∃ rc, q = PageInfo.set_state (PageState.Shared rc) p ∧ 1 ≤ rc < U64 ∧ (PageInfo.state p = PageState.Mapped ∨ ∃ n, PageInfo.state p = PageState.Shared n))
    as (rc & -> & Hrc & Hst).
  { unfold PageInfo.share in Hq. destruct (PageInfo.state p) as [| | |n| | | | | |] eqn:Hs; try done.
    - injection Hq as <-. exists 1. split_and!; [done|lia|lia|by left].
    - unfold checked_add in Hq. destruct (Z.ltb_spec (n + 1) U64); [|done]. injection Hq as <-. exists (n + 1). cbn in H3.
      split_and!; [done|lia|lia|right; by eexists]. }
  assert (Ho : PageInfo.owner (PageInfo.set_state (PageState.Shared rc) p) = PageInfo.owner p).
  { unfold PageInfo.owner. cbn. by destruct Hst as [-> | [n ->]]. }
  assert (Hwf' : tracker_wf (set_page c (PageInfo.set_state (PageState.Shared rc) p) t)) by (eapply tracker_wf_set_page; [done..|by split_and!]).
  assert (Heq : get_page (set_page c (PageInfo.set_state (PageState.Shared rc) p) t) c = Some (PageInfo.set_state (PageState.Shared rc) p)).
  { eapply get_page_set_eq; [apply Hwf|done..]. }
  assert (Hne : ∀ a, phys a → a ≠ c → get_page (set_page c (PageInfo.set_state (PageState.Shared rc) p) t) a = get_page t a).
  { intros a Ha Hac. apply get_page_set_ne; [apply Hwf|done..]. }
  split_and!; [done..|]. split; [done|..].
  - intros a p' Ha _ Hp' Ho'. destruct (decide (a = c)) as [->|Hac]; [|rewrite Hne in Hp' by done; eauto].
    rewrite Heq in Hp'. injection Hp' as <-. exists p. by rewrite <-Ho.
  - intros a x Ha Hx _ Hs. rewrite Hne; [done..|]. intros ->. assert (x = p) as -> by congruence. rewrite Hs in Hst. naive_solver.
  - intros a Ha (x & Hx & Hacc). destruct (decide (a = c)) as [->|Hac]; [eexists; split; [done|by right]|exists x; by rewrite Hne].
Qed.

(** A page that is to be given to [o]. *)
Record available (t : PageTracker.t) (o : PageOwnerId.t) (c : Z) (p : PageInfo.t) : Prop := {
  av_phys : phys c ∧ c ≠ 0;
  av_page : get_page t c = Some p;
  av_owner : PageInfo.owner p ≠ Some o;
  av_locked : PageInfo.state p = PageState.ConvertedLocked;
  av_chain : (length (PageInfo.owners p) < 2)%nat;
  av_link : PageInfo.link_ p = None
}.

Lemma given_wf t o c p st :
  tracker_wf t → available t o c p → st = PageState.Mapped ∨ st = PageState.VmState →
  tracker_wf (set_page c (given st o p) t).
Proof using Type.
  intros Hwf [[Hc H0] Hp _ Hl Hch Hlk] Hst. eapply tracker_wf_set_page; [done..|].
  destruct (tw_pages _ Hwf c p Hc Hp) as (_ & Hl0 & _). split_and!; [|done|].
  - cbn. rewrite length_app. cbn. unfold PageInfo.MAX_PAGE_OWNERS. lia.
  - destruct Hst as [-> | ->]; cbn; by destruct (PageInfo.owners p).
Qed.

(** A page that is not [o]'s changes; if it was shared, it still is. *)
Lemma undisturbed_set (ref : Z → Prop) o t c p q :
  tracker_wf t → tracker_wf (set_page c q t) → phys c → get_page t c = Some p →
  PageInfo.owner p ≠ Some o → PageInfo.is_shared p = false ∨ PageInfo.is_shared q = true → PageInfo.owner q ≠ Some o ∨ ¬ ref c →
  undisturbed ref o t (set_page c q t).
Proof using Type.
  intros Hwf Hwf' Hc Hp Ho Hs Hq.
  assert (Hne : ∀ a, phys a → a ≠ c → get_page (set_page c q t) a = get_page t a).
  { intros a Ha Hac. apply get_page_set_ne; [apply Hwf|done..]. }
  assert (Heq : get_page (set_page c q t) c = Some q) by (eapply get_page_set_eq; [apply Hwf|done..]).
  split; [done|..].
  - intros a p' Ha Hr Hp' Ho'. destruct (decide (a = c)) as [->|Hac].
    + rewrite Heq in Hp'. simplify_eq. by destruct Hq.
    + rewrite Hne in Hp' by done. eauto.
  - intros a x Ha Hx Hox _. rewrite Hne; [done..|]. intros ->. congruence.
  - intros a Ha (x & Hx & Hacc). destruct (decide (a = c)) as [->|Hac]; [|exists x; by rewrite Hne].
    exists q. split; [done|]. right. destruct Hs as [Hs|Hs]; [|done]. destruct Hacc as [[? _]|?]; congruence.
Qed.

Lemma available_unshared t o c p : available t o c p → PageInfo.is_shared p = false.
Proof using Type. intros [_ _ _ Hl _ _]. unfold PageInfo.is_shared. by rewrite Hl. Qed.

Lemma available_unmapped t m v ps c p :
  vm_inv t m v ps → 1 ≤ nesting v → available t (page_owner_id v) c p → ¬ refers m v c.
Proof using PL.
  intros Hi Hn Hav (va & Hf). pose proof (available_unshared _ _ _ _ Hav) as Hsh. destruct Hav as [_ Hp Ho _ _ _].
  destruct (leaf_accessible _ _ _ _ _ _ Hi Hf) as [_ [(q & Hq & [[Hoq _]|Hs])|?]]; [congruence|congruence|lia].
Qed.

Lemma vm_inv_given t m v ps c p st :
  vm_inv t m v ps → 1 ≤ nesting v → available t (page_owner_id v) c p → st = PageState.Mapped ∨ st = PageState.VmState →
  vm_inv (set_page c (given st (page_owner_id v) p) t) m v ps.
Proof using PL.
  intros Hi Hn Hav Hst. pose proof (vi_wf _ _ _ _ Hi) as Hwf. eapply vm_inv_undisturbed; [done| |done].
  eapply undisturbed_set; [done|by apply given_wf|apply Hav|apply Hav|apply Hav|left; by eapply available_unshared|].
  right. by eapply available_unmapped.
Qed.

Lemma state_unrelated t m v ps q : vm_inv t m v ps → q ∈ ps → state_of t (page_owner_id v) (Page.addr q) ∧ page_of (Page.addr q) = Page.addr q.
Proof using PL.
  intros Hi Hq. destruct (pt_state_frame (FP := own t (page_owner_id v) m ps) _ _ _ (vi_state _ _ _ _ Hi)) as (_ & _ & _ & Hpg).
  split; [apply (Hpg q _ Hq); lia|]. pose proof (lr_phys _ _ _ (vi_pool _ _ _ _ Hi)) as Hph. rewrite list.Forall_forall in Hph.
  destruct (Hph (Page.addr q)) as [[? Hm] _]; [by apply list_elem_of_fmap_2|]. unfold page_of. mod_lia.
Qed.

Lemma page_of_in c a : phys c → c ≤ a < c + 4096 → page_of a = c ∧ 0 ≤ a < 2 ^ 56.
Proof using Type. intros [? Hc] Ha. unfold page_of. split; mod_lia. Qed.

Lemma pool_small t m v ps : vm_inv t m v ps → Z.of_nat (length (Page.addr <$> ps)) + 1 < U64.
Proof using Type.
  intros Hi. pose proof (vi_wf _ _ _ _ Hi) as Hwf. destruct (vi_pool _ _ _ _ Hi) as [_ _ _ _ Hnd Hph Hlk].
  assert (length (Page.addr <$> ps) ≤ length (PageMap.pages (PageTracker.pages t)))%nat; [|pose proof (pm_size _ (tw_map _ Hwf)); lia].
  apply nodup_pages_bound; [apply Hwf|done|]. apply list.Forall_forall. intros a Ha. rewrite list.Forall_forall in Hph.
  split; [by apply Hph|]. apply list_elem_of_lookup in Ha as [i Hi']. destruct (Hlk i a Hi') as (p & Hp & _). eauto.
Qed.

(** [t'] is [t] with other links. *)
Definition relinked (t t' : PageTracker.t) : Prop :=
  ∀ c, phys c → PageInfo.unlink <$> get_page t' c = PageInfo.unlink <$> get_page t c.

Lemma relinked_page t t' c p :
  relinked t t' → phys c → get_page t c = Some p →
  ∃ p', get_page t' c = Some p' ∧ PageInfo.owner p' = PageInfo.owner p ∧ PageInfo.state p' = PageInfo.state p ∧
    PageInfo.owners p' = PageInfo.owners p ∧ PageInfo.is_shared p' = PageInfo.is_shared p.
Proof using Type.
  intros Hr Hc Hp. specialize (Hr c Hc). rewrite Hp in Hr. destruct (get_page t' c) as [[mt' st' os' lk']|]; [|done].
  destruct p as [mt st os lk]. injection Hr as -> -> ->. by eexists.
Qed.
Lemma relinked_sym t t' : relinked t t' → relinked t' t.
Proof using Type. intros Hr c Hc. by rewrite Hr. Qed.

Lemma state_of_relinked t t' o a : relinked t t' → state_of t o a → state_of t' o a.
Proof using Type.
  intros Hr (Ha & p & Hp & Ho & Hs). split; [done|].
  destruct (relinked_page t t' _ p Hr (page_of_phys a Ha) Hp) as (p' & Hp' & Ho' & Hs' & _). exists p'. by rewrite Ho', Hs'.
Qed.
Lemma accessible_relinked t t' o pa : relinked t t' → phys pa → accessible t o pa → accessible t' o pa.
Proof using Type.
  intros Hr Hpa (p & Hp & Ha). destruct (relinked_page t t' _ p Hr Hpa Hp) as (p' & Hp' & Ho' & Hs' & _ & Hsh). exists p'.
  by rewrite Ho', Hs', Hsh.
Qed.

(** [g] changes links of its own pages and its own tables. *)
Lemma kept_own g t m t' m' :
  tracker_wf t' → relinked t t' →
  (∀ c p, phys c → get_page t c = Some p → PageInfo.owner p ≠ Some g → get_page t' c = Some p) → elsewhere t g m m' →
  kept g t m t' m'.
Proof using Type.
  intros Hwf Hr Hk He. split.
  - intros o Hne. split; [done|..].
    + intros a p' Ha _ Hp' Ho'. destruct (relinked_page t' t a p' (relinked_sym _ _ Hr) Ha Hp') as (p & Hp & Ho & _).
      rewrite (Hk a p Ha Hp) in Hp' by congruence. exists p. split; [done|]. split; congruence.
    + intros a p Ha Hp Ho _. apply Hk; [done..|congruence].
    + intros a Ha. by apply accessible_relinked.
  - intros o a Hne (Ha & p & Hp & Ho & Hs). apply He. intros (_ & q & Hq & Hoq & _). congruence.
Qed.

(** A page of the VM joins its pool. *)
Lemma vm_inv_pushed t1 t' m v ps c l' :
  vm_inv t1 m v ps → 1 ≤ nesting v →
  pt_state (FP := own t' (page_owner_id v) m (ps ++ [Page.mk c Size4k])) (table v) m (ps ++ [Page.mk c Size4k]) →
  tracker_wf t' → relinked t1 t' → (∀ x, phys x → x ∉ Page.addr <$> ps → get_page t' x = get_page t1 x) →
  list_rep t' l' (Page.addr <$> ps ++ [Page.mk c Size4k]) →
  vm_inv t' m (set_pool l' v) (ps ++ [Page.mk c Size4k]).
Proof using PL.
  intros Hi Hn Hst Hwf Hr Hoth Hrep. set (o := page_owner_id v) in *.
  assert (Hfr : ∀ va pa, frame (lookup (table v) m va) = Some pa → phys pa ∧ get_page t' pa = get_page t1 pa).
  { intros va pa Hf. destruct (leaf_accessible _ _ _ _ _ _ Hi Hf) as [Hpa [(p & Hp & Hacc)|?]]; [|lia]. split; [done|].
    apply Hoth; [done|]. intros (q & -> & Hq)%list_elem_of_fmap.
    destruct (state_unrelated _ _ _ _ _ Hi Hq) as [(_ & p' & Hp' & _ & Hs) E]. rewrite E in Hp'. simplify_eq.
    unfold PageInfo.is_shared in Hacc. rewrite Hs in Hacc. by destruct Hacc as [[_ ?]|?]. }
  destruct Hi as [[_ _ Hex Hul] _ Hsz Hmap Hreg]. cbn in Hex, Hul. split; cbn; [split; cbn| | | |].
  - exact Hst.
  - done.
  - intros va va' pa Hf Hf' Ho. eapply Hex; [done..|]. apply query_true in Ho as (p & Hp & Ho). apply query_true. exists p.
    destruct (Hfr va pa Hf) as [_ <-]. done.
  - intros va pa p Hf Hp Ho. destruct (Hfr va pa Hf) as [_ E]. rewrite E in Hp. by eapply Hul.
  - done.
  - apply list.Forall_app. split; [done|]. by apply list.Forall_singleton.
  - intros va x Hx. destruct (Hmap va x Hx) as [Hs Hk]. split; [done|]. cbn. destruct (mp_kind x) eqn:Hkx; try done.
    eapply accessible_relinked; [done| |done]. eapply (Hfr va). change (lookup (table v) m va = Some x) in Hx. rewrite Hx.
    destruct x as [? sz pa]; cbn in *; by subst.
  - done.
Qed.

Lemma add_pte_inv t m v ps c p :
  vm_inv t m v ps → 1 ≤ nesting v → available t (page_owner_id v) c p →
  (∀ i, 0 ≤ i < 512 → read_pte m (c + i * 8) = 0) →
  let t1 := set_page c (given PageState.VmState (page_owner_id v) p) t in
  ∃ t' l', VmPagesRef.add_pte_page (Page.mk c Size4k) (Sys t1 m v) = Returns (Ok tt, Sys t' m (set_pool l' v)) ∧
    vm_inv t' m (set_pool l' v) (ps ++ [Page.mk c Size4k]) ∧ relinked t1 t' ∧
    ∀ x, phys x → x ∉ Page.addr <$> ps → get_page t' x = get_page t1 x.
Proof using PL.
  intros Hi Hn Hav Hz t1. set (o := page_owner_id v) in *. pose proof (vi_wf _ _ _ _ Hi) as Hwf. pose proof Hav as [[Hc H0] Hp Ho _ _ Hlk].
  assert (Hi1 : vm_inv t1 m v ps) by (apply vm_inv_given; auto).
  assert (Hq : get_page t1 c = Some (given PageState.VmState o p)) by (eapply get_page_set_eq; [apply Hwf|done..]).
  assert (Hnin : c ∉ Page.addr <$> ps).
  { intros (q & -> & Hq')%list_elem_of_fmap. destruct (state_unrelated _ _ _ _ _ Hi Hq') as [(_ & p' & Hp' & Ho' & _) E].
    rewrite E in Hp'. assert (p' = p) as -> by congruence. by destruct Ho. }
  destruct (push_rep t1 (pte_pages v) (Page.addr <$> ps) c (given PageState.VmState o p)) as (l' & t' & Hpush & Hrep & _ & Hoth & Hun);
    [apply (vi_wf _ _ _ _ Hi1)|apply Hi1|by eapply pool_small|done..|].
  pose proof (push_wf _ _ _ _ _ _ (vi_wf _ _ _ _ Hi1) (vi_pool _ _ _ _ Hi1) Hpush) as Hwf'.
  exists t', l'. split_and!; [| |done|done].
  { unfold VmPagesRef.add_pte_page. cbn [Page.size]. rewrite bool_decide_false by (intros Hx; by apply Hx).
    unfold PtePagePool.push. erewrite bind_ok by done. erewrite bind_ok by (unfold unwrap, on_tracker; cbn [pt vm]; by rewrite Hpush). done. }
  apply (vm_inv_pushed t1); [done..| |done|done|done|by rewrite fmap_app].
  assert (Hno : ∀ a, c ≤ a < c + 4096 → ¬ state_of t o a).
  { intros a Ha (_ & q & Hq' & Hoq & _). destruct (page_of_in c a Hc Ha) as [E _]. rewrite E in Hq'. congruence. }
  apply (pt_state_extend (FP := own t o m ps) (own t' o m (ps ++ [Page.mk c Size4k]))); cbn [Page.addr]; try done.
  - by apply vi_state.
  - destruct Hc. lia.
  - by destruct Hc.
  - destruct Hc. mod_lia.
  - intros a Ha. split; [by apply Hno|]. destruct (page_of_in c a Hc Ha) as [E Ha']. split; [done|]. rewrite E, (Hoth c Hc Hnin), Hq.
    eexists. split; [done|]. split; [apply owner_given; auto|done].
  - intros a Ha. apply (state_of_relinked t1 t' o a Hun). pose proof Ha as (Ha' & q & Hq' & Hoq & Hsq). split; [done|]. exists q.
    split; [|done]. unfold t1. rewrite get_page_set_ne; [done|apply Hwf|done|by apply page_of_phys|]. intros E. rewrite <-E in Hq'. congruence.
  - by exists 0%nat.
Qed.
End vm.
