(* ===== verification/TlbRelease.v ===== *)
(** * Leaving an address space

    The drop of an [ActiveVmPages] on the memory of the VM, for the TLB versions of any
    interleaving of the protocol. *)
From S2P Require Import Prelude RiscvPages PageInfoModel Tracker Pte PteFacts PageTableModel PageTableFacts TlbModel TlbTrackerFacts TlbProtocol TlbProtocolFacts VmRegions VmPages VmPagesFacts VmInvariant.
Import VmPages(tlb_tracker, regions).

(** C15: When a vCPU leaves the address space of its VM, in any interleaving of entries,
    exits, fences and conversions, the tracker still has the reference that the vCPU took,
    so that releasing it does not panic.  What follows is the completion of pending
    (un)sharing if it was the last reference to an old version; if no region is being
    shared or unshared, the drop returns and changes nothing but the TLB versions. *)
Theorem leaving_finds_reference `{PM : PagingMode L} vmid_bits vm_of s k p (w : VmPages.sys L) :
  reachable vmid_bits vm_of (λ _, True) s → k ∈ running s → last_use s !! k = Some p →
  tlb_tracker (VmPages.vm w) = tracker (vms s (vm_of k)) →
  ∃ flush_completed x, let w' := VmPages.set_vm (set_tlb x (VmPages.vm w)) w in
    TlbTracker.put_version (PrevTlb.tlb_version p) (tlb_tracker (VmPages.vm w)) = (Ok flush_completed, x) ∧
    VmPagesRef.exit_vm (PrevTlb.tlb_version p) w =
      (if flush_completed then VmPagesRef.complete_pending_unassignment w' else Returns w') ∧
    (Forall settled (regions (VmPages.vm w)) → VmPagesRef.exit_vm (PrevTlb.tlb_version p) w = Returns w').
Proof.
  intros Hr Hk Hp Ht. apply counted_reachable in Hr.
  destruct (exec vmid_bits vm_of (Deactivate k) s) as [o|] eqn:Hx; cbn in Hx; rewrite bool_decide_eq_true_2 in Hx by done; rewrite Hp in Hx; cbn in Hx; [|done].
  pose proof (counted_step vmid_bits vm_of s (Deactivate k) o Hr) as Hstep. cbn in Hstep. rewrite bool_decide_eq_true_2, Hp in Hstep by done. cbn in Hstep.
  destruct (Hstep Hx) as (s' & -> & _). clear Hstep. rewrite <-Ht in Hx. unfold VmPagesRef.exit_vm. unfold ActiveVmPages.drop_ in *.
  destruct (TlbTracker.put_version _ _) as [[b|e] x]; cbn in Hx; [|done]. exists b, x. cbv zeta. split_and!; [done|done|].
  intros Hs. destruct b; [|done]. by apply (complete_settled (VmPages.set_vm (set_tlb x (VmPages.vm w)) w)).
Qed.

(** A vCPU of VM 0 leaves after a fence; the VM has no region that is being shared. *)
Definition leaving_vm : VmPages.sys Sv48x4Level.t :=
  VmPages.set_vm (set_tlb (tracker (vms (after shootdown_trace) (example_vm 0))) guest_vm) example_sys.
Lemma leaving_finds_reference_witness :
  ∃ p x, last_use (after shootdown_trace) !! 0 = Some p ∧
    VmPagesRef.exit_vm (PrevTlb.tlb_version p) leaving_vm = Returns (VmPages.set_vm (set_tlb x guest_vm) example_sys).
Proof.
  eexists _. destruct (leaving_finds_reference 1 example_vm (after shootdown_trace) 0 (PrevTlb.mk 0 (VmId.mk 0 1) 0) leaving_vm)
    as (b & x & _ & _ & H).
  - apply (run_reachable' 1 example_vm _ shootdown_trace); [by repeat constructor|]. by vm_compute.
  - by vm_compute.
  - by vm_compute.
  - reflexivity.
  - exists x. split; [vm_compute; reflexivity|]. rewrite H; [reflexivity|]. by repeat constructor.
Defined.
