(* ===== verification/GuestCallFacts.v ===== *)
(** * Pages from the host to a guest

    The host's calls that give converted pages to a guest, as page-table pages or as
    zeroed memory, or that share its pages with a guest.  While a call is under way,
    the pages that are locked or already given are the only ones that changed; at
    the end every VM has its invariant again, whether the call succeeded or not. *)
From S2P Require Import Prelude Intervals RiscvPages PageInfoModel PageMapModel Tracker TrackerFacts PageListFacts Pte PteFacts PageTableModel PageTableFacts PageTableOps GuestTableFacts TlbModel TlbTrackerFacts VmRegions VmRegionsFacts VmPages VmPagesFacts VmInvariant VmCalls.
Import PageSize(Size4k).
Import VmPages(page_owner_id, tlb_tracker, regions, nesting, root, pte_pages).

Section transit.
Context `{PL : PagingLaws L}.
Implicit Types v w : VmPages.t L.

Abbreviation table v := (GuestStagePageTable.inner (root v)).

(** ** Pages on the way from one VM to another *)

(** Pages of [h] that were converted. *)
Definition takeable (h : PageOwnerId.t) (t : PageTracker.t) (c : Z) : Prop :=
  phys c ∧ c ≠ 0 ∧ ∃ p, get_page t c = Some p ∧ PageInfo.owner p = Some h ∧ PageInfo.link_ p = None ∧
    (length (PageInfo.owners p) < 2)%nat ∧
    (PageInfo.state p = PageState.Converted ∨ ∃ x, PageInfo.state p = PageState.Converting x).

(** From state [t0], [m0] on, pages [X] of [h] are moved to [g]; [R] are still locked. *)
Record transit (h g : PageOwnerId.t) (X R : list Z) (t0 : PageTracker.t) (m0 : mem) (t : PageTracker.t) (m : mem) : Prop := {
  tr_wf : tracker_wf t;
  tr_out c : phys c → c ∉ X → PageInfo.unlink <$> get_page t c = PageInfo.unlink <$> get_page t0 c;
  tr_kept c p : phys c → c ∉ X → get_page t0 c = Some p → PageInfo.owner p ≠ Some g → get_page t c = Some p;
  tr_page c : c ∈ X → ∃ p, get_page t c = Some p ∧
    (PageInfo.owner p = Some g ∧ (c ∉ R) ∨
     PageInfo.owner p = Some h ∧ (length (PageInfo.owners p) < 2)%nat ∧
       (c ∈ R ∧ PageInfo.state p = PageState.ConvertedLocked ∨
        (c ∉ R) ∧ PageInfo.state p = PageState.Converted ∧ PageInfo.link_ p = None));
  tr_mem a : ¬ state_of t0 g a → page_of a ∉ X → read_pte m a = read_pte m0 a
}.

Lemma read_clean c m a : read_pte (clean c m) a = if decide (c ≤ a < c + 4096) then 0 else read_pte m a.
Proof using Type.
  unfold read_pte, clean. case_decide as Hd.
  - rewrite map_lookup_filter_None_2; [done|]. right. intros x _ Hn. by apply Hn.
  - f_equal. apply option_eq. intros x. rewrite map_lookup_filter_Some. cbn. tauto.
Qed.

(** Nothing but the page at [c] is written. *)
Definition only_page (c : Z) (m m' : mem) : Prop := ∀ a, ¬ (c ≤ a < c + 4096) → read_pte m' a = read_pte m a.
Lemma only_page_clean c m : only_page c m (clean c m).
Proof using Type. intros a Ha. by rewrite read_clean, decide_False. Qed.
Lemma only_page_refl c m : only_page c m m.
Proof using Type. done. Qed.

Section pages.
Variables (h g : PageOwnerId.t) (X : list Z) (t0 : PageTracker.t) (m0 : mem).
Hypothesis Hhg : h ≠ g.
Hypothesis HX : ∀ c, c ∈ X → takeable h t0 c.

Lemma not_taken c p :
  get_page t0 c = Some p → PageInfo.is_shared p = true ∨ PageInfo.state p = PageState.Mapped ∨ PageInfo.state p = PageState.VmState → c ∉ X.
Proof using HX.
  clear Hhg. intros Hp Hs Hin. destruct (HX c Hin) as (_ & _ & q & Hq & _ & _ & _ & Hst). assert (q = p) as -> by congruence.
  unfold PageInfo.is_shared in Hs. destruct Hst as [E|[v E]]; rewrite E in Hs; naive_solver.
Qed.
Lemma not_taken_owner c p o : get_page t0 c = Some p → PageInfo.owner p = Some o → o ≠ h → c ∉ X.
Proof using HX. intros Hp Ho Hne Hin. destruct (HX c Hin) as (_ & _ & q & Hq & Hoq & _). congruence. Qed.

(** When all is done, every VM but the receiving one is as it was. *)
Lemma transit_kept t m : transit h g X [] t0 m0 t m → kept g t0 m0 t m.
Proof using Hhg HX.
  intros [Twf Tout Tkept Tpage Tmem]. split.
  - intros o Hw. split; [done|..].
    + intros a p' Ha _ Hp' Ho'. destruct (decide (a ∈ X)) as [Hin|Hni].
      * destruct (Tpage a Hin) as (q & Hq & [[Ho _]|(Ho & _ & [[[]%elem_of_nil _]|(_ & _ & Hl)])]); simplify_eq.
        destruct (HX a Hin) as (_ & _ & p & Hp & Hop & Hlp & _). exists p. split; [done|]. split; congruence.
      * pose proof (Tout a Ha Hni) as Hr. rewrite Hp' in Hr. destruct (get_page t0 a) as [p|] eqn:Hp; [|done].
        assert (PageInfo.owner p = PageInfo.owner p') as Ho by (destruct p, p'; by injection Hr as -> -> ->).
        rewrite (Tkept a p) in Hp' by (try done; congruence). exists p. split; [done|]. split; congruence.
    + intros a p Ha Hp Ho Hs. apply Tkept; [done| |done|congruence]. by eapply not_taken; eauto.
    + intros a Ha (p & Hp & Hacc). assert (a ∉ X) as Hni by (eapply not_taken; [done|]; tauto).
      pose proof (Tout a Ha Hni) as Hr. rewrite Hp in Hr. destruct (get_page t a) as [p'|] eqn:Hp'; [|done]. exists p'. split; [done|].
      destruct p, p'; injection Hr as -> -> ->. done.
  - intros o a Hw (Ha & p & Hp & Ho & Hs). apply Tmem.
    + intros (_ & q & Hq & Hoq & _). congruence.
    + eapply not_taken; eauto.
Qed.

Lemma transit_chain t m :
  transit h g X [] t0 m0 t m →
  (∀ a p, phys a → get_page t0 a = Some p → PageInfo.owner p = Some h → (length (PageInfo.owners p) < 2)%nat) →
  ∀ a p, phys a → get_page t a = Some p → PageInfo.owner p = Some h → (length (PageInfo.owners p) < 2)%nat.
Proof using Hhg.
  intros [_ Tout _ Tpage _] H0 a p Ha Hp Ho. destruct (decide (a ∈ X)) as [Hin|Hni].
  - destruct (Tpage a Hin) as (q & Hq & [[Hoq _]|(_ & Hl & _)]); simplify_eq. done.
  - pose proof (Tout a Ha Hni) as Hr. rewrite Hp in Hr. destruct (get_page t0 a) as [q|] eqn:Hq; [|done].
    specialize (H0 a q Ha Hq). destruct p, q; injection Hr as -> -> ->. by apply H0.
Qed.

Lemma transit_start t :
  locked_all t0 t X → tracker_wf t → (∀ c, phys c → c ∉ X → get_page t c = get_page t0 c) → transit h g X X t0 m0 t m0.
Proof using Hhg HX.
  intros Hl Hwf Hoth. split; [done|..].
  - intros c Hc Hni. by rewrite Hoth.
  - intros c p Hc Hni Hp _. by rewrite Hoth.
  - intros c Hin. destruct (HX c Hin) as (Hc & _ & p & Hp & Ho & _ & Hch & Hst).
    specialize (Hl c Hc). rewrite decide_True, Hp in Hl by done. destruct (get_page t c) as [q|]; [|done]. exists q. split; [done|].
    right. destruct p as [mt st os lk], q as [mt' st' os' lk']. cbn in *. injection Hl as -> -> ->.
    split_and!; [|done|by left]. by destruct Hst as [-> | [x ->]].
  - done.
Qed.

Lemma receiver_start t w ps :
  locked_all t0 t X → tracker_wf t → (∀ c, phys c → c ∉ X → get_page t c = get_page t0 c) →
  vm_inv t0 m0 w ps → page_owner_id w ≠ h → vm_inv t m0 w ps.
Proof using PL Hhg HX.
  intros Hl Hwf Hoth Hi Hw. pose proof (transit_start t Hl Hwf Hoth) as [_ _ _ Tpage _]. eapply vm_inv_undisturbed; [done| |done]. split; [done|..].
  - intros a p' Ha _ Hp' Ho'. destruct (decide (a ∈ X)) as [Hin|Hni]; [|rewrite Hoth in Hp' by done; eauto].
    destruct (Tpage a Hin) as (q & Hq & [[_ ?]|(Ho & _)]); [done|congruence].
  - intros a p Ha Hp Ho _. rewrite Hoth; [done..|]. by eapply not_taken_owner.
  - intros a Ha (p & Hp & Hacc). exists p. rewrite Hoth; [done..|]. eapply not_taken; [done|]; tauto.
Qed.

(** The receiving VM works on its own pages. *)
Lemma transit_relink R t m t' m' :
  transit h g X R t0 m0 t m → tracker_wf t' → relinked t t' →
  (∀ c p, phys c → get_page t c = Some p → PageInfo.owner p ≠ Some g → get_page t' c = Some p) →
  elsewhere t g m m' → transit h g X R t0 m0 t' m'.
Proof using Hhg HX.
  intros [Twf Tout Tkept Tpage Tmem] Hwf Hr Hk He. split; [done|..].
  - intros c Hc Hni. by rewrite Hr, Tout.
  - intros c p Hc Hni Hp Ho. apply Hk; [done|by apply Tkept|done].
  - intros c Hin. destruct (HX c Hin) as (Hc & _). destruct (Tpage c Hin) as (p & Hp & [[Ho Hn]|Hcase]).
    + destruct (relinked_page t t' c p Hr Hc Hp) as (p' & Hp' & Ho' & _). exists p'. split; [done|]. left. by rewrite Ho'.
    + exists p. split; [|by right]. apply Hk; [done..|]. destruct Hcase as [-> _]. congruence.
  - intros a Ha Hni. rewrite He; [by apply Tmem|]. intros (Hr' & p & Hp & Ho & Hs). apply Ha. split; [done|].
    pose proof (Tout (page_of a) (page_of_phys a Hr') Hni) as E. rewrite Hp in E. destruct (get_page t0 (page_of a)) as [q|]; [|done].
    exists q. split; [done|]. destruct p, q; injection E as -> -> ->. done.
Qed.

(** The rest of the pages is returned. *)
Lemma transit_drop R l t m :
  transit h g X R t0 m0 t m → list_rep t l R → (∀ c, c ∈ R → c ∈ X) →
  ∃ t', LockedPageList.drop_ (Z.to_nat (PageList.len l)) l t = Returns (Ok tt, t') ∧ transit h g X [] t0 m0 t' m ∧
    tracker_wf t' ∧ (∀ c, phys c → c ∉ R → get_page t' c = get_page t c) ∧
    ∀ c, c ∈ R → ∃ p p', get_page t c = Some p ∧ get_page t' c = Some p' ∧ PageInfo.owner p = Some h ∧ PageInfo.owner p' = Some h ∧
      PageInfo.is_shared p = false.
Proof using Hhg HX.
  intros [Twf Tout Tkept Tpage Tmem] Hrep HR.
  assert (Hlk : ∀ c p, c ∈ R → get_page t c = Some p →
    PageInfo.owner p = Some h ∧ (length (PageInfo.owners p) < 2)%nat ∧ PageInfo.state p = PageState.ConvertedLocked).
  { intros c p Hc Hp. destruct (Tpage c (HR c Hc)) as (q & Hq & [[_ ?]|(Ho & Hch & [[_ Hs]|[? _]])]); [done| |done].
    assert (q = p) as -> by congruence. done. }
  destruct (drop_locked_spec R (Z.to_nat (PageList.len l)) l t) as (t' & Hd & Hwf & Hin & Hout);
    [apply Twf|done|rewrite (lr_len _ _ _ Hrep); lia|intros; by eapply Hlk|].
  assert (Hset : ∀ c p, c ∈ R → get_page t c = Some p → PageInfo.owner (PageInfo.set_state PageState.Converted (PageInfo.unlink p)) = Some h).
  { intros c p Hc Hp. destruct (Hlk c p Hc Hp) as (<- & _ & Hs). unfold PageInfo.owner. by rewrite Hs. }
  exists t'. split_and!; [done| |by apply Hwf|done|]; cycle 1.
  { intros c Hc. destruct (Tpage c (HR c Hc)) as (p & Hp & _). exists p. eexists. destruct (Hlk c p Hc Hp) as (Ho & _ & Hs).
    split_and!; [done|by apply Hin|done|by eapply Hset|]. unfold PageInfo.is_shared. by rewrite Hs. }
  split; [by apply Hwf|..].
  - intros c Hc Hni. rewrite Hout; [by apply Tout|done|]. intros Hc'. by apply Hni, HR.
  - intros c p Hc Hni Hp Ho. rewrite Hout; [by apply Tkept|done|]. intros Hc'. by apply Hni, HR.
  - intros c Hc. destruct (HX c Hc) as (Hph & _). destruct (Tpage c Hc) as (p & Hp & Hcase). destruct (decide (c ∈ R)) as [HcR|HcR].
    + eexists. split; [by apply Hin|]. right. destruct (Hlk c p HcR Hp) as (Ho & Hch & Hs).
      split_and!; [by eapply Hset|done|right; split; [apply not_elem_of_nil|done]].
    + exists p. rewrite Hout by done. split; [done|]. destruct Hcase as [[Ho _]|(Ho & Hch & [[? _]|(_ & Hs & Hl)])]; [|done|].
      * left. split; [done|apply not_elem_of_nil].
      * right. split_and!; [done..|]. right. split; [apply not_elem_of_nil|done].
  - done.
Qed.

Lemma list_rep_set t l R c q :
  tracker_wf t → phys c → c ∉ R → list_rep t l R → list_rep (set_page c q t) l R.
Proof using Type.
  intros Hwf Hc Hn [? ? ? ? ? Hph Hl]. split; try done. intros i a Hi. destruct (Hl i a Hi) as (p & Hp & E). exists p. split; [|done].
  pose proof (list_elem_of_lookup_2 _ _ _ Hi) as Ha. rewrite list.Forall_forall in Hph.
  rewrite get_page_set_ne; [done|apply Hwf|done|by apply Hph|by intros ->].
Qed.

Lemma receiver_drop R l t m w ps :
  transit h g X R t0 m0 t m → list_rep t l R → (∀ c, c ∈ R → c ∈ X) → vm_inv t m w ps → page_owner_id w ≠ h →
  ∃ t', LockedPageList.drop_ (Z.to_nat (PageList.len l)) l t = Returns (Ok tt, t') ∧ transit h g X [] t0 m0 t' m ∧ vm_inv t' m w ps.
Proof using PL Hhg HX.
  intros HT Hrep HR Hi Hw. destruct (transit_drop R l t m HT Hrep HR) as (t' & Hd & HT' & Hwf & Hout & Hin).
  exists t'. split_and!; [done..|]. eapply vm_inv_undisturbed; [done| |done]. split; [done|..].
  - intros a p' Ha _ Hp' Ho'. destruct (decide (a ∈ R)) as [HaR|HaR]; [|rewrite Hout in Hp' by done; eauto].
    destruct (Hin a HaR) as (p & q & _ & Hq & _ & Hoq & _). congruence.
  - intros a p Ha Hp Ho _. rewrite Hout; [done..|]. intros HaR. destruct (Hin a HaR) as (q & _ & Hq & _ & Hoq & _). congruence.
  - intros a Ha (p & Hp & Hacc). exists p. rewrite Hout; [done..|]. intros HaR.
    destruct (Hin a HaR) as (q & _ & Hq & _ & Hoq & _ & Hsq). destruct Hacc as [[? _]|?]; congruence.
Qed.

(** The next locked page is taken from the list, its contents may change, and it is given to [g]. *)
Lemma transit_give R c l t m m' w ps :
  transit h g X (c :: R) t0 m0 t m → list_rep t l (c :: R) → c ∈ X → only_page c m m' →
  vm_inv t m w ps → page_owner_id w = g →
  ∃ l' p, let t1 := set_page c p t in
    PageList.pop l t = Returns (Ok (Some (Page.mk c Size4k), l'), t1) ∧ available t1 g c p ∧ vm_inv t1 m' w ps ∧
    same_translation (table w) m m' ∧
    ∀ st, st = PageState.Mapped ∨ st = PageState.VmState → let t' := set_page c (given st g p) t1 in
      transit h g X R t0 m0 t' m' ∧ list_rep t' l' R.
Proof using PL Hhg HX.
  intros HT Hrep HcX Hm Hi Hw. pose proof HT as [Twf Tout Tkept Tpage Tmem]. destruct (HX c HcX) as (Hc & H0 & _).
  destruct (pop_rep t l c R) as (l' & p0 & Hp0 & Hpop & Hrep'); [apply Twf|done|].
  pose proof (lr_nodup _ _ _ Hrep) as [HcR _]%list.NoDup_cons.
  destruct (Tpage c HcX) as (q & Hq & [[_ Hn]|(Ho & Hch & [[_ Hs]|[Hn _]])]); [destruct Hn; by left| |destruct Hn; by left].
  assert (q = p0) as -> by congruence. exists l', (PageInfo.unlink p0). set (t1 := set_page c (PageInfo.unlink p0) t) in *. cbv zeta.
  assert (Hwf1 : tracker_wf t1) by by apply unlink_page_wf.
  assert (Hp1 : get_page t1 c = Some (PageInfo.unlink p0)) by (eapply get_page_set_eq; [apply Twf|done..]).
  assert (Hav : available t1 g c (PageInfo.unlink p0)).
  { split; [done|done| |done..]. change (PageInfo.owner p0 ≠ Some g). congruence. }
  assert (Hstate : ∀ a, state_of t (page_owner_id w) a → read_pte m' a = read_pte m a).
  { intros a (Ha & p & Hp & Hop & _). apply Hm. intros Hin.
    destruct (page_of_in c a Hc Hin) as [E _]. rewrite E in Hp. congruence. }
  split_and!; [done|done| |by eapply same_tables|].
  - eapply vm_inv_undisturbed; [done|eapply (undisturbed_set _ _ t c p0)|]; [done|done|done|done|..].
    + rewrite Hw. congruence.
    + left. unfold PageInfo.is_shared. by rewrite Hs.
    + left. change (PageInfo.owner p0 ≠ Some (page_owner_id w)). rewrite Hw. congruence.
    + done.
  - intros st Hst. split; [|by apply list_rep_set]. set (t' := set_page c (given st g (PageInfo.unlink p0)) t1).
    assert (Hwf' : tracker_wf t') by by apply given_wf.
    assert (Hne : ∀ b, phys b → b ≠ c → get_page t' b = get_page t b).
    { intros b Hb Hbc. unfold t', t1. rewrite !get_page_set_ne; done || apply Hwf1 || apply Twf. }
    split; [done|..].
    + intros b Hb Hni. rewrite Hne by (done || by intros ->). by apply Tout.
    + intros b p Hb Hni Hp Hop. rewrite Hne by (done || by intros ->). by apply Tkept.
    + intros b Hb. destruct (decide (b = c)) as [->|Hbc].
      * exists (given st g (PageInfo.unlink p0)). split; [eapply get_page_set_eq; [apply Hwf1|done..]|]. left. split; [by apply owner_given|done].
      * destruct (HX b Hb) as (Hbp & _). rewrite Hne by done. destruct (Tpage b Hb) as (p & Hp & Hcase). exists p. split; [done|].
        assert (b ∈ c :: R ↔ b ∈ R) as E by (rewrite elem_of_cons; tauto). by rewrite <-E.
    + intros a Ha Hni. rewrite Hm; [by apply Tmem|]. intros Hin. destruct (page_of_in c a Hc Hin) as [E _]. congruence.
Qed.
End pages.

Lemma assign_available t o c p st :
  available t o c p → st = PageState.Mapped ∨ st = PageState.VmState →
  (PageTracker.assign_unwrap c o st;; PageTracker.same_page (Page.mk c Size4k)) t
  = Returns (Ok (Page.mk c Size4k), set_page c (given st o p) t).
Proof using Type.
  intros [[Hc _] Hp _ Hs Hch _] Hst. erewrite bind_ok; cycle 1.
  { rewrite assign_unwrap_eq, Hp. unfold PageInfo.assign. rewrite Hs. rewrite decide_True by done. by destruct Hst as [-> | ->]. }
  unfold PageTracker.same_page, of_outcome, Page.new_with_size. cbn [Page.addr Page.size]. rewrite is_aligned_true; [done|apply Hc].
Qed.

Lemma list_rep_kept t t' l R : (∀ c, c ∈ R → get_page t' c = get_page t c) → list_rep t l R → list_rep t' l R.
Proof using Type.
  intros He [? ? ? ? ? ? Hl]. split; try done. intros i a Hi. rewrite He; [by apply Hl|]. by eapply list_elem_of_lookup_2.
Qed.
Lemma relinked_refl t : relinked t t.
Proof using Type. done. Qed.
End transit.

(** ** The machine *)
Section machine.
Context `{PL : PagingLaws L}.
Implicit Types (v w : VmPages.t L) (s : machine L) (g : GuestVm.t L).
Abbreviation table v := (GuestStagePageTable.inner (root v)).

Definition host_id s : PageOwnerId.t := page_owner_id (host s).

(** [hps] and [gps] are the pools of the host and of the guests. *)
Record machine_inv s (hps : list Page.t) (gps : list (list Page.t)) : Prop := {
  mi_host : vm_inv (tracker s) (ram s) (host s) hps;
  mi_nesting : nesting (host s) < 1;
  mi_chain a p : phys a → get_page (tracker s) a = Some p → PageInfo.owner p = Some (host_id s) →
    (length (PageInfo.owners p) < 2)%nat;
  mi_guests : Forall2 (λ g ps, vm_inv (tracker s) (ram s) (GuestVm.vm g) ps ∧ 1 ≤ nesting (GuestVm.vm g)) (guests s) gps;
  mi_ids : NoDup (host_id s :: (GuestVm.page_owner_id <$> guests s));
  mi_zero : get_page (tracker s) 0 = None
}.
Definition inv s : Prop := ∃ hps gps, machine_inv s hps gps.

(** A call returns, and the invariant holds again. *)
Definition safe {E A} (f : M (machine L) E A) s : Prop := ∃ r s', f s = Returns (r, s') ∧ inv s'.

Lemma safe_err {E A} (e : E) s : inv s → safe (err (A := A) e) s.
Proof using Type. intros Hi. by exists (Err e), s. Qed.

(** A step that leaves the machine as it is. *)
Lemma safe_lift {E A B} (r : result E A) (k : A → M (machine L) E B) s :
  inv s → (∀ a, r = Ok a → safe (k a) s) → safe (lift r ≫= k) s.
Proof using Type. intros Hi Hk. destruct r as [a|e]; [by apply Hk|]. by exists (Err e), s. Qed.

Lemma from_raw_Ok a x : ok_or (PageAddr.new a) (EcallError.Sbi SbiError.InvalidParam) = Ok x → x = a ∧ a mod 4096 = 0.
Proof using Type. unfold PageAddr.new. destruct (PageAddr.with_alignment a Size4k) as [y|] eqn:E; [|done]. intros [= <-]. by apply with_alignment_Some in E. Qed.

Lemma safe_guest_by_id {B} id (k : nat → M (machine L) EcallError.t B) s :
  inv s → (∀ i g, guests s !! i = Some g → safe (k i) s) → safe (VmRef.guest_by_id id ≫= k) s.
Proof using Type.
  intros Hi Hk. unfold VmRef.guest_by_id. destruct (PageOwnerId.new id) as [x|] eqn:Ex; cycle 1.
  { by exists (Err (EcallError.Sbi SbiError.InvalidParam)), s. }
  destruct (Guests.get x s) as [i|] eqn:Hp; cycle 1.
  { exists (Err (EcallError.Sbi SbiError.InvalidParam)), s. split; [|done]. apply bind_err. do 2 erewrite bind_ok by done. by rewrite Hp. }
  destruct (position_Some _ _ _ Hp) as (g & Hg & _). destruct (Hk i g Hg) as (r & s' & Hr & Hi'). exists r, s'. split; [|done].
  rewrite <-Hr. apply bind_ok. do 2 erewrite bind_ok by done. by rewrite Hp.
Qed.

Lemma safe_with_state {A B} (view : GuestVm.t L → option A) i g (k : A → M (machine L) EcallError.t B) s :
  inv s → guests s !! i = Some g → (∀ a, view g = Some a → safe (k a) s) → safe (VmRef.with_state view i ≫= k) s.
Proof using Type.
  intros Hi Hg Hk. unfold VmRef.with_state. destruct (view g) as [a|] eqn:Ha.
  - destruct (Hk a eq_refl) as (r & s' & Hr & Hi'). exists r, s'. split; [|done]. rewrite <-Hr. apply bind_ok.
    erewrite bind_ok by done. rewrite Hg. cbn. by rewrite Ha.
  - exists (Err (EcallError.Sbi SbiError.InvalidParam)), s. split; [|done]. apply bind_err.
    erewrite bind_ok by done. rewrite Hg. cbn. by rewrite Ha.
Qed.

(** ** Taking pages from the host *)
Lemma host_take s hps gps a n :
  machine_inv s hps gps → 0 ≤ n → 0 ≤ a → a mod 4096 = 0 → a + n * 4096 + 4096 ≤ U64 → n * 4096 ≤ 2 ^ abits L →
  ∃ r t', VmRef.host_pages (VmPagesRef.get_converted_pages a n) s = Returns (r, set_tracker t' s) ∧
    match r with
    | Ok l => ∃ X, list_rep t' l X ∧ (∀ c, c ∈ X → takeable (host_id s) (tracker s) c) ∧ Z.of_nat (length X) = n ∧
        locked_all (tracker s) t' X ∧ tracker_wf t' ∧ ∀ c, phys c → c ∉ X → get_page t' c = get_page (tracker s) c
    | Err _ => t' = tracker s
    end.
Proof using PL.
  intros Hi Hn Ha Hal Hb Hab. set (FP := own (tracker s) (host_id s) (ram s) hps).
  set (sy := Sys (tracker s) (ram s) (host s)). pose proof (vi_ok _ _ _ _ (mi_host _ _ _ Hi)) as Hok.
  destruct (take_converted (FP := FP) sy hps MemType.Ram a n) as (r & t' & Hr & Hp); [done|apply Hi|done..|].
  exists (map_err EcallError.from r), t'. split.
  { unfold VmRef.host_pages, with_err, in_host, VmPagesRef.get_converted_pages. fold sy. by rewrite Hr. }
  destruct r as [l|e]; [|by apply Hp]. destruct Hp as ((H0 & Hall & Hrep & Hlk) & Hwf & Hoth). exists (table_pages invalidated_4k sy (page_seq a Size4k (Z.to_nat n))).
  split_and!; try done.
  - intros c (va & Hin & Hv)%elem_of_table_pages. destruct (handed_over_lockable (FP := FP) sy hps MemType.Ram va c Hok (mi_zero _ _ _ Hi) Hv (Hall va Hin))
      as [(Hc & Hc0 & Hconv & Hl) _].
    split_and!; [done..|]. apply query_true in Hconv as (p & Hpg & [[Ho%bool_decide_eq_true _]%andb_prop Hs]%andb_prop).
    exists p. split_and!; [done|done|by apply Hl|by eapply (mi_chain _ _ _ Hi)|].
    apply orb_prop in Hs as [Hs%bool_decide_eq_true|Hs]; [by left|]. unfold PageInfo.is_convertible in Hs. destruct (PageInfo.state p); try done. eauto.
  - pose proof (handed_over_pages sy MemType.Ram _ Hall) as Hf. apply Forall2_length in Hf. rewrite <-Hf, length_page_seq. lia.
Qed.

(** ** Giving pages to a guest *)
Section call.
Variables (s : machine L) (hps : list Page.t) (gps : list (list Page.t)) (i : nat) (g0 : GuestVm.t L) (ps0 : list Page.t).
Hypothesis Hinv : machine_inv s hps gps.
Hypothesis Hg0 : guests s !! i = Some g0.
Hypothesis Hps0 : gps !! i = Some ps0.

(** The machine while the call works on the guest. *)
Definition at_ (t : PageTracker.t) (m : mem) w : machine L :=
  Machine t m (host s) (<[i := GuestVm.set_vm w g0]> (guests s)) (guests_capacity s).

Lemma at_start t : set_tracker t s = at_ t (ram s) (GuestVm.vm g0).
Proof using Hg0. unfold set_tracker, at_. f_equal. rewrite list_insert_id; [done|]. rewrite Hg0. by destruct g0. Qed.

Lemma in_guest_at {E A} (f : M (sys L) E A) t m w r t' m' w' :
  f (Sys t m w) = Returns (r, Sys t' m' w') → in_guest i f (at_ t m w) = Returns (r, at_ t' m' w').
Proof using Hg0.
  intros Hf. unfold in_guest, at_ at 1. cbn [guests]. apply lookup_lt_Some in Hg0 as Hlt.
  rewrite list_lookup_insert_eq by done. unfold at_ at 1 2. cbn [tracker ram GuestVm.vm GuestVm.set_vm]. rewrite Hf.
  unfold at_. cbn [host guests guests_capacity]. by rewrite list_insert_insert_eq.
Qed.

Abbreviation gid := (page_owner_id (GuestVm.vm g0)).

Lemma guest_inv : vm_inv (tracker s) (ram s) (GuestVm.vm g0) ps0 ∧ 1 ≤ nesting (GuestVm.vm g0).
Proof using Hinv Hg0 Hps0. apply (Forall2_lookup_lr _ _ _ _ _ _ (mi_guests _ _ _ Hinv) Hg0 Hps0). Qed.

Lemma host_ne_guest : host_id s ≠ gid.
Proof using Hinv Hg0.
  pose proof (mi_ids _ _ _ Hinv) as [Hn _]%list.NoDup_cons. intros E. apply Hn. rewrite E.
  change gid with (GuestVm.page_owner_id g0). apply list_elem_of_fmap_2. by eapply list_elem_of_lookup_2.
Qed.

(** The host's pages can still be given away. *)
Definition chain_ok (t : PageTracker.t) : Prop := ∀ a p, phys a → get_page t a = Some p → PageInfo.owner p = Some (host_id s) →
  (length (PageInfo.owners p) < 2)%nat.

(** A call at a point where only the guest, now [w], differs from the start. *)
Record calling t m w ps : Prop := {
  ca_kept : kept gid (tracker s) (ram s) t m;
  ca_vm : vm_inv t m w ps;
  ca_id : page_owner_id w = gid;
  ca_nesting : 1 ≤ nesting w;
  ca_chain : chain_ok t;
  ca_zero : get_page t 0 = None
}.

Lemma calling_inv t m w ps : calling t m w ps → inv (at_ t m w).
Proof using PL Hinv Hg0 Hps0.
  intros [HK Hw Hid Hn Hch Hz]. exists hps, (<[i := ps]> gps). pose proof host_ne_guest as Hne. pose proof (mi_ids _ _ _ Hinv) as Hnd.
  assert (Hids : GuestVm.page_owner_id <$> guests (at_ t m w) = GuestVm.page_owner_id <$> guests s).
  { cbn. rewrite list_fmap_insert. change (GuestVm.page_owner_id (GuestVm.set_vm w g0)) with (page_owner_id w). rewrite Hid.
    apply list_insert_id. by rewrite list_lookup_fmap, Hg0. }
  split; cbn; [|apply Hinv|done| | |done].
  - eapply kept_vm; [done|apply Hinv|done].
  - apply Forall2_same_length_lookup_2.
    { rewrite !length_insert. pose proof (mi_guests _ _ _ Hinv) as Hf. by apply Forall2_length in Hf. }
    intros j g q Hg Hq. destruct (decide (i = j)) as [<-|Hij].
    + apply lookup_lt_Some in Hg0 as Hl1. apply lookup_lt_Some in Hps0 as Hl2.
      rewrite list_lookup_insert_eq in Hg by done. rewrite list_lookup_insert_eq in Hq by done. by simplify_eq.
    + rewrite list_lookup_insert_ne in Hg by done. rewrite list_lookup_insert_ne in Hq by done.
      destruct (Forall2_lookup_lr _ _ _ _ _ _ (mi_guests _ _ _ Hinv) Hg Hq) as [Hgi ?].
      split; [|done]. eapply kept_vm; [done..|]. intros E. apply Hij. apply list.NoDup_cons in Hnd as [_ Hnd].
      eapply NoDup_lookup; [exact Hnd|by rewrite list_lookup_fmap, Hg0|]. rewrite list_lookup_fmap, Hg. cbn. f_equal. exact E.
  - change (NoDup (host_id s :: (GuestVm.page_owner_id <$> guests (at_ t m w)))). by rewrite Hids.
Qed.

Lemma calling_own t m w ps t' m' w' ps' :
  calling t m w ps → vm_inv t' m' w' ps' → page_owner_id w' = page_owner_id w → nesting w' = nesting w → relinked t t' →
  (∀ c p, phys c → get_page t c = Some p → PageInfo.owner p ≠ Some gid → get_page t' c = Some p) → elsewhere t gid m m' →
  calling t' m' w' ps'.
Proof using Hinv Hg0.
  intros [HK Hw Hid Hn Hch Hz] Hw' Hid' Hn' Hr Hk He. split; [|done|congruence|lia| |].
  - eapply kept_trans; [done|]. apply kept_own; [by eapply vi_wf|done..].
  - intros a p' Ha Hp' Ho'. destruct (relinked_page t' t a p' (relinked_sym _ _ Hr) Ha Hp') as (p & Hp & Ho & _ & <- & _).
    apply (Hch a p); [done..|congruence].
  - assert (phys 0) as H0 by (by split). specialize (Hr 0 H0). rewrite Hz in Hr. by destruct (get_page t' 0).
Qed.

(** When all pages have arrived or were returned, only the guest has changed. *)
Lemma transit_calling X t m w ps :
  (∀ c, c ∈ X → takeable (host_id s) (tracker s) c) → transit (host_id s) gid X [] (tracker s) (ram s) t m →
  vm_inv t m w ps → page_owner_id w = gid → 1 ≤ nesting w → calling t m w ps.
Proof using Hinv Hg0.
  intros HX HT Hw Hid Hn. pose proof host_ne_guest as Hne. split; [|done..| |].
  - by apply (transit_kept (host_id s) gid X (tracker s) (ram s) Hne HX).
  - unfold chain_ok. eapply (transit_chain (host_id s) gid X (tracker s) (ram s)); [done|done|]. apply Hinv.
  - pose proof (tr_out _ _ _ _ _ _ _ _ HT 0) as E. rewrite (mi_zero _ _ _ Hinv) in E. destruct (get_page t 0); [|done].
    discriminate E; [by split|]. intros Hin. by destruct (HX 0 Hin) as (_ & ? & _).
Qed.

(** A call on the way: [R] is left in the list [l], and the guest is [w]. *)
Record under_way (X R : list Z) (l : PageList.t) t m w ps : Prop := {
  uw_transit : transit (host_id s) gid X R (tracker s) (ram s) t m;
  uw_list : list_rep t l R;
  uw_subset c : c ∈ R → c ∈ X;
  uw_vm : vm_inv t m w ps;
  uw_id : page_owner_id w = gid;
  uw_nesting : 1 ≤ nesting w
}.

Section pages.
Variable X : list Z.
Hypothesis HX : ∀ c, c ∈ X → takeable (host_id s) (tracker s) c.

(** The guest works on its own pages. *)
Lemma under_way_own R l t m w ps t' m' w' ps' :
  under_way X R l t m w ps → vm_inv t' m' w' ps' → page_owner_id w' = page_owner_id w → nesting w' = nesting w → relinked t t' →
  (∀ c p, phys c → get_page t c = Some p → PageInfo.owner p ≠ Some gid → get_page t' c = Some p) → elsewhere t gid m m' →
  under_way X R l t' m' w' ps'.
Proof using Hinv Hg0 HX.
  intros [HT Hl HR Hw Hid Hn] Hw' Hid' Hn' Hr Hk He. split; [..|congruence|lia]; [| |done|done].
  - eapply transit_relink; [by apply host_ne_guest|done|done|by eapply vi_wf|done..].
  - eapply list_rep_kept; [|done]. intros c Hc. pose proof (HR c Hc) as HcX. destruct (HX c HcX) as (Hph & _).
    destruct (tr_page _ _ _ _ _ _ _ _ HT c HcX) as (p & Hp & [[_ ?]|(Ho & _)]); [done|]. rewrite Hp. apply Hk; [done..|].
    rewrite Ho. intros [= E]. by apply host_ne_guest.
Qed.

(** The next page is taken from the list and given to the guest. *)
Lemma under_way_give R c l t m m' w ps st :
  under_way X (c :: R) l t m w ps → only_page c m m' → st = PageState.Mapped ∨ st = PageState.VmState →
  ∃ l' p, let t1 := set_page c p t in let t2 := set_page c (given st gid p) t1 in
    PageList.pop l t = Returns (Ok (Some (Page.mk c Size4k), l'), t1) ∧ available t1 gid c p ∧ vm_inv t1 m' w ps ∧
    same_translation (table w) m m' ∧ under_way X R l' t2 m' w ps.
Proof using PL Hinv Hg0 HX.
  intros [HT Hl HR Hw Hid Hn] Hm Hst. pose proof host_ne_guest as Hne.
  destruct (transit_give (host_id s) gid X (tracker s) (ram s) Hne HX R c l t m m' w ps) as (l' & p & Hpop & Hav & Hw1 & Hs & Hgive);
    [done|done|apply HR; by left|done..|].
  exists l', p. cbv zeta. split_and!; [done..|]. destruct (Hgive st Hst) as [HT' Hl']. split; [done|done| | |done|done].
  - intros x Hx. apply HR. by right.
  - rewrite <-Hid in Hav |- *. by apply vm_inv_given.
Qed.

Lemma pop_empty l t : list_rep t l [] → PageList.pop l t = Returns (Ok (None, l), t).
Proof using Type. intros Hl. unfold PageList.pop. by rewrite (lr_head _ _ _ Hl). Qed.

Lemma add_pte_loop R : ∀ fuel l t m w ps,
  under_way X R l t m w ps → (length R < fuel)%nat →
  ∃ t' m' w' ps' l', VmRef.for_locked fuel l (λ page,
      clean_page page;;
      page ← unwrap (track (PageTracker.assign_page_for_internal_state page gid));
      unwrap (in_guest i (VmPagesRef.add_pte_page page))) (at_ t m w) = Returns (Ok tt, at_ t' m' w') ∧
    under_way X [] l' t' m' w' ps'.
Proof using PL Hinv Hg0 HX.
  induction R as [|c R IH]; intros fuel l t m w ps Hu Hf; (destruct fuel as [|fuel]; [cbn in Hf; lia|]); cbn [VmRef.for_locked].
  { exists t, m, w, ps, l. split; [|done]. erewrite bind_ok by (eapply unwrap_eq; unfold track; cbn [tracker at_]; by rewrite (pop_empty _ _ (uw_list _ _ _ _ _ _ _ Hu))). done. }
  destruct (under_way_give R c l t m (clean c m) w ps PageState.VmState Hu (only_page_clean c m) ltac:(by right)) as (l' & p & Hpop & Hav & Hw1 & _ & Hu2).
  set (t1 := set_page c p t) in *. set (t2 := set_page c _ t1) in *. pose proof (uw_id _ _ _ _ _ _ _ Hu2) as Hid.
  destruct (add_pte_inv t1 (clean c m) w ps c p) as (t3 & l3 & Hadd & Hw3 & Hr & Hoth); [done|apply Hu|by rewrite Hid| |].
  { intros k Hk. rewrite read_clean. by rewrite decide_True by lia. }
  rewrite Hid in Hadd, Hr, Hoth. fold t2 in Hadd, Hr, Hoth.
  assert (Hu3 : under_way X R l' t3 (clean c m) (set_pool l3 w) (ps ++ [Page.mk c Size4k])).
  { eapply under_way_own; [exact Hu2|done|done|done|done| |done]. intros x q Hx Hq Ho. rewrite Hoth; [done..|].
    intros (y & -> & Hy)%list_elem_of_fmap. destruct (state_unrelated _ _ _ _ _ (uw_vm _ _ _ _ _ _ _ Hu2) Hy) as [(_ & z & Hz & Hoz & _) E].
    rewrite E in Hz. rewrite Hid in Hoz. congruence. }
  destruct (IH fuel l' t3 (clean c m) (set_pool l3 w) _ Hu3) as (t' & m' & w' & ps' & l'' & Hloop & Hu'); [cbn in Hf; lia|].
  exists t', m', w', ps', l''. split; [|done]. rewrite <-Hloop.
  erewrite bind_ok by (eapply unwrap_eq; unfold track; cbn [tracker at_]; by rewrite Hpop). cbv beta iota.
  erewrite bind_ok; [done|]. erewrite bind_ok by done.
  erewrite bind_ok by (eapply unwrap_eq; unfold track, PageTracker.assign_page_for_internal_state; cbn [tracker set_ram set_tracker at_ Page.addr];
    by rewrite (assign_available _ _ _ _ _ Hav ltac:(by right))).
  eapply unwrap_eq. by apply in_guest_at.
Qed.

(** One page is given to the guest and mapped where its table is locked. *)
Lemma assign_and_map_page R c l t m mc w ps mapper va :
  under_way X (c :: R) l t m w ps → only_page c m mc → in_mapper mapper va → lookup (table w) m va = Some (Mapping KLockedUnmapped Size4k 0) →
  ∃ l' t1 t2 m', PageList.pop l t = Returns (Ok (Some (Page.mk c Size4k), l'), t1) ∧
    VmRef.assign_and_map i gid mapper (Page.mk c Size4k) va (at_ t1 mc w) = Returns (Ok tt, at_ t2 m' w) ∧
    under_way X R l' t2 m' w ps ∧
    ∀ va', lookup (table w) m' va' = if decide (leaf_no L Size4k va' = leaf_no L Size4k va) then Some (Mapping KLeaf Size4k c) else lookup (table w) m va'.
Proof using PL Hinv Hg0 HX.
  intros Hu Hm Hin Hl. destruct (under_way_give R c l t m mc w ps PageState.Mapped Hu Hm ltac:(by left)) as (l' & p & Hpop & Hav & Hw1 & Hs & Hu2).
  set (t1 := set_page c p t) in *. set (t2 := set_page c _ t1) in *. pose proof (uw_id _ _ _ _ _ _ _ Hu2) as Hid. pose proof Hav as [[Hc _] Hp _ _ _ Hlk].
  assert (Hq : get_page t2 c = Some (given PageState.Mapped gid p)) by (eapply get_page_set_eq; [apply (vi_wf _ _ _ _ Hw1)|done..]).
  assert (Ho : PageInfo.owner (given PageState.Mapped gid p) = Some gid) by (apply owner_given; by left).
  destruct (map_page_inv t2 mc w ps mapper va c) as (m' & Hmap & Hw' & He & Hupd).
  { apply Hu2. } { done. } { done. } { by rewrite Hs. }
  { exists (given PageState.Mapped gid p). split; [done|]. left. by rewrite Hid. }
  { intros q Hq' _. rewrite Hq in Hq'. injection Hq' as <-. split; [done|]. eapply available_unmapped; [exact Hw1|apply Hu|by rewrite Hid]. }
  exists l', t1, t2, m'. split_and!; [done| | |].
  - unfold VmRef.assign_and_map. erewrite bind_ok; [eapply unwrap_eq; by apply in_guest_at|].
    eapply unwrap_eq. unfold track, PageTracker.assign_page_for_mapping. cbn [tracker at_ Page.addr]. by rewrite (assign_available _ _ _ _ _ Hav ltac:(by left)).
  - eapply under_way_own; [exact Hu2|done..|by rewrite Hid in He].
  - intros va'. rewrite Hupd. by rewrite Hs.
Qed.

Lemma zip_empty fuel l it body t m w :
  list_rep t l [] → VmRef.zip_locked (S fuel) l it body (at_ t m w) = Returns (Ok tt, at_ t m w).
Proof using Type.
  intros Hl. cbn [VmRef.zip_locked].
  erewrite bind_ok by (eapply unwrap_eq; unfold track; cbn [tracker at_]; by rewrite (pop_empty _ _ Hl)). cbv beta iota.
  eapply unwrap_eq. unfold track. rewrite (lr_len _ _ _ Hl).
  assert (LockedPageList.drop_ 0 l t = Returns (Ok tt, t)) as E by (cbn; by erewrite bind_ok by by apply pop_empty).
  change (Z.to_nat (Z.of_nat (length []))) with 0%nat. cbn [tracker at_ set_tracker]. by rewrite E.
Qed.

Lemma iter_next a : a mod 4096 = 0 → a + 4096 < U64 →
  PageAddrIter.next (PageAddrIter.mk (Some a) Size4k) = (Some a, PageAddrIter.mk (Some (a + 4096)) Size4k).
Proof using Type.
  intros Ha Hb. unfold PageAddrIter.next. cbn [PageAddrIter.it_next PageAddrIter.increment]. do 2 f_equal.
  apply checked_add_pages_spec; cbn; [done|]. lia.
Qed.

(** The pages are given to the guest one by one, after something was done to each. *)
Definition gives (mapper : GuestStageMapper.t) (body : Page.t → Z → M (machine L) EcallError.t unit) : Prop := ∀ c va t m w, ∃ m',
  only_page c m m' ∧ body (Page.mk c Size4k) va (at_ t m w) = VmRef.assign_and_map i gid mapper (Page.mk c Size4k) va (at_ t m' w).
Lemma give_loop mapper body w ps R : gives mapper body → ∀ fuel l t m a,
  under_way X R l t m w ps → (length R < fuel)%nat → a mod 4096 = 0 → a + Z.of_nat (length R) * 4096 + 4096 ≤ U64 →
  NoDup (leaf_no L Size4k <$> page_seq a Size4k (length R)) →
  (∀ va, va ∈ page_seq a Size4k (length R) → in_mapper mapper va ∧ lookup (table w) m va = Some (Mapping KLockedUnmapped Size4k 0)) →
  ∃ t' m' l', VmRef.zip_locked fuel l (PageAddrIter.mk (Some a) Size4k) body (at_ t m w) = Returns (Ok tt, at_ t' m' w) ∧
    under_way X [] l' t' m' w ps.
Proof using PL Hinv Hg0 HX.
  intros Hbody. induction R as [|c R IH]; intros fuel l t m a Hu Hf Hal Hb Hnd Hva; (destruct fuel as [|fuel]; [cbn in Hf; lia|]).
  { exists t, m, l. split; [|done]. apply zip_empty, Hu. }
  cbn [length page_seq] in *. apply list.NoDup_cons in Hnd as [Hn Hnd].
  destruct (Hva a ltac:(by left)) as [Hin Hl].
  destruct (pop_rep t l c R (tw_map _ (tr_wf _ _ _ _ _ _ _ _ (uw_transit _ _ _ _ _ _ _ Hu))) (uw_list _ _ _ _ _ _ _ Hu)) as (l0 & p0 & _ & Hpop0 & _).
  destruct (Hbody c a (set_page c (PageInfo.unlink p0) t) m w) as (mc & Hmc & Hb0).
  destruct (assign_and_map_page R c l t m mc w ps mapper a Hu Hmc Hin Hl) as (l' & t1 & t2 & m' & Hpop & Hrun & Hu' & Hlk).
  rewrite Hpop0 in Hpop. injection Hpop as -> <-.
  destruct (IH fuel l' t2 m' (a + 4096)) as (t' & m'' & l'' & Hloop & Hu''); [done|lia|mod_lia|lia|done| |].
  { intros va Hv. destruct (Hva va ltac:(by right)) as [Hin' Hl']. split; [done|]. rewrite Hlk, decide_False; [done|].
    intros E. apply Hn. rewrite <-E. by apply list_elem_of_fmap_2. }
  exists t', m'', l''. split; [|done]. rewrite <-Hloop. cbn [VmRef.zip_locked].
  erewrite bind_ok by (eapply unwrap_eq; unfold track; cbn [tracker at_]; by rewrite Hpop0). cbv beta iota.
  rewrite iter_next by lia. erewrite bind_ok; [done|]. etrans; [exact Hb0|exact Hrun].
Qed.
End pages.

(** The pages have been locked. *)
Lemma call_start X l t :
  (∀ c, c ∈ X → takeable (host_id s) (tracker s) c) → list_rep t l X → locked_all (tracker s) t X → tracker_wf t →
  (∀ c, phys c → c ∉ X → get_page t c = get_page (tracker s) c) →
  under_way X X l t (ram s) (GuestVm.vm g0) ps0.
Proof using PL Hinv Hg0 Hps0.
  intros HX Hl Hlk Hwf Hoth. pose proof host_ne_guest as Hne. destruct guest_inv as [Hw Hn]. split; [|done|done| |done|done].
  - by apply transit_start.
  - by apply (receiver_start (host_id s) gid X (tracker s) (ram s) Hne HX t).
Qed.

Lemma call_end X l t m w ps :
  (∀ c, c ∈ X → takeable (host_id s) (tracker s) c) → under_way X [] l t m w ps → inv (at_ t m w).
Proof using PL Hinv Hg0 Hps0.
  intros HX [HT _ _ Hw Hid Hn]. eapply calling_inv, transit_calling; done.
Qed.

(** An error drops the list. *)
Lemma call_drop {A} X R l (f : M (machine L) EcallError.t A) e st t m w ps :
  (∀ c, c ∈ X → takeable (host_id s) (tracker s) c) → f st = Returns (Err e, at_ t m w) → under_way X R l t m w ps →
  ∃ s', or_drop_pages l f st = Returns (Err e, s') ∧ inv s'.
Proof using PL Hinv Hg0 Hps0.
  intros HX Hf [HT Hl HR Hw Hid Hn]. pose proof host_ne_guest as Hne.
  destruct (receiver_drop (host_id s) gid X (tracker s) (ram s) Hne HX R l t m w ps) as (t' & Hd & HT' & Hw'); [done..|congruence|].
  exists (at_ t' m w). split; [|eapply calling_inv, transit_calling; done].
  unfold or_drop_pages. rewrite Hf. erewrite bind_ok; [done|]. eapply unwrap_eq. unfold track. cbn [tracker at_]. by rewrite Hd.
Qed.

(** Facts about the call that do not depend on the guest's own pages. *)
Definition own_stable (P : PageTracker.t → mem → VmPages.t L → list Page.t → Prop) : Prop := ∀ t m w ps, P t m w ps →
  vm_inv t m w ps ∧ page_owner_id w = gid ∧ 1 ≤ nesting w ∧
  ∀ t' m' w' ps', vm_inv t' m' w' ps' → page_owner_id w' = page_owner_id w → nesting w' = nesting w → relinked t t' →
    (∀ c p, phys c → get_page t c = Some p → PageInfo.owner p ≠ Some gid → get_page t' c = Some p) → elsewhere t gid m m' →
    P t' m' w' ps'.
Lemma under_way_stable X R l : (∀ c, c ∈ X → takeable (host_id s) (tracker s) c) → own_stable (under_way X R l).
Proof using Hinv Hg0. intros HX t m w ps Hu. split_and!; [apply Hu..|]. intros. by eapply under_way_own. Qed.
Lemma calling_stable : own_stable calling.
Proof using Hinv Hg0. intros t m w ps Hc. split_and!; [apply Hc..|]. intros. by eapply calling_own. Qed.

(** A range of the guest's table is prepared with pages from its pool. *)
Lemma lock_guest_range P t m w ps a n ty :
  own_stable P → P t m w ps → 0 ≤ a → a mod 4096 = 0 → 0 ≤ n → a + n * 4096 < U64 → n * 4096 ≤ 2 ^ abits L →
  ∃ r t' m' w' ps', VmRef.guest_pages i (VmPagesRef.do_map_pages a n ty) (at_ t m w) = Returns (r, at_ t' m' w') ∧
    P t' m' w' ps' ∧
    match r with
    | Ok mapper => mapper = GuestStageMapper.mk a n ∧ NoDup (leaf_no L Size4k <$> page_seq a Size4k (Z.to_nat n)) ∧
        ∀ va, va ∈ page_seq a Size4k (Z.to_nat n) → in_mapper mapper va ∧ lookup (table w') m' va = Some (Mapping KLockedUnmapped Size4k 0)
    | Err _ => True
    end ∧ (∀ c p, phys c → get_page t c = Some p → PageInfo.owner p ≠ Some gid → get_page t' c = Some p).
Proof using PL Hg0.
  intros HP HPt H0 Hal Hn Hb Hab. destruct (HP t m w ps HPt) as (Hw & Hid & Hne & Hown).
  destruct (map_pages_inv t m w ps a n ty) as (r & t' & m' & l' & k & Hr & Hw' & Hun & He & Hp); [done..|].
  assert (Hk : ∀ c p, phys c → get_page t c = Some p → PageInfo.owner p ≠ Some gid → get_page t' c = Some p).
  { intros c p Hc Hpg Ho. destruct Hun as [_ Hg]. rewrite Hg by done. rewrite decide_False; [done|].
    intros (q & -> & Hq)%list_elem_of_fmap. destruct (state_unrelated t m w ps q Hw) as [(_ & z & Hz & Hoz & _) E].
    { rewrite <-(take_drop k ps). apply elem_of_app. by left. }
    rewrite E in Hz. rewrite Hid in Hoz. congruence. }
  exists (map_err EcallError.from r), t', m', (set_pool l' w), (drop k ps). split_and!; [| | |done].
  - unfold VmRef.guest_pages, with_err. by rewrite (in_guest_at _ _ _ _ _ _ _ _ Hr).
  - apply Hown; [done..| |done|by rewrite Hid in He].
    intros c Hc. destruct Hun as [_ Hg]. rewrite Hg by done. case_decide; [|done]. by destruct (get_page t c).
  - destruct r as [mapper|e]; [|done]. destruct Hp as (Hn0 & -> & Hl). split_and!; [done|apply range_NoDup; [done|lia]|].
    intros va Hva. split; [|by apply Hl]. apply elem_of_page_seq in Hva as (j & Hj & ->). cbn. split_and!; cbn; [done|done|lia|lia|lia].
Qed.

(** The mapper is dropped. *)
Lemma drop_guest_mapper P t m w ps a n :
  own_stable P → P t m w ps → 0 ≤ a → a mod 4096 = 0 → 0 ≤ n → a + n * 4096 < U64 → n * 4096 ≤ 2 ^ abits L →
  ∃ m', VmRef.guest_pages i (VmPagesMapper.drop_ (GuestStageMapper.mk a n)) (at_ t m w) = Returns (Ok tt, at_ t m' w) ∧ P t m' w ps.
Proof using PL Hg0.
  intros HP HPt H0 Hal Hn Hb Hab. destruct (HP t m w ps HPt) as (Hw & Hid & Hne & Hown).
  destruct (drop_mapper_inv t m w ps a n) as (m' & Hd & Hw' & He); [done..|].
  exists m'. split; [unfold VmRef.guest_pages, with_err; by rewrite (in_guest_at _ _ _ _ _ _ _ _ Hd)|].
  apply Hown; [done..|]. by rewrite Hid in He.
Qed.
Lemma call_drop_mapper t m w ps a n :
  calling t m w ps → 0 ≤ a → a mod 4096 = 0 → 0 ≤ n → a + n * 4096 < U64 → n * 4096 ≤ 2 ^ abits L →
  ∃ s', VmRef.guest_pages i (VmPagesMapper.drop_ (GuestStageMapper.mk a n)) (at_ t m w) = Returns (Ok tt, s') ∧ inv s'.
Proof using PL Hinv Hg0 Hps0.
  intros Hc H0 Hal Hn Hb Hab. destruct (drop_guest_mapper calling t m w ps a n) as (m' & Hd & Hc'); [apply calling_stable|done..|].
  exists (at_ t m' w). split; [done|]. by eapply calling_inv.
Qed.

(** The destination of [n] pages is checked and prepared, or the pages are returned. *)
Definition destination (X : list Z) (l : PageList.t) (ga n : Z) t m w ps : Prop :=
  under_way X X l t m w ps ∧ ga mod 4096 = 0 ∧ NoDup (leaf_no L Size4k <$> page_seq ga Size4k (length X)) ∧
  ∀ va, va ∈ page_seq ga Size4k (length X) → in_mapper (GuestStageMapper.mk ga n) va ∧ lookup (table w) m va = Some (Mapping KLockedUnmapped Size4k 0).
Lemma lock_destination X l t m w ps ga n ty :
  (∀ c, c ∈ X → takeable (host_id s) (tracker s) c) → under_way X X l t m w ps → Z.of_nat (length X) = n →
  0 ≤ ga → ga + n * 4096 < U64 → n * 4096 ≤ 2 ^ abits L →
  ∃ r s', or_drop_pages l (
      to_page_addr ← VmRef.guest_addr_from_raw ga;
      mapper ← VmRef.guest_pages i (VmPagesRef.do_map_pages to_page_addr n ty);
      mret (to_page_addr, mapper)) (at_ t m w) = Returns (r, s') ∧
    match r with
    | Ok x => x = (ga, GuestStageMapper.mk ga n) ∧ ∃ t' m' w' ps', s' = at_ t' m' w' ∧ destination X l ga n t' m' w' ps'
    | Err _ => inv s'
    end.
Proof using PL Hinv Hg0 Hps0.
  intros HX Hu Hlen Hga Hgb Hab. set (f := VmRef.guest_addr_from_raw ga ≫= _).
  assert ((∃ e t' m' w' ps', f (at_ t m w) = Returns (Err e, at_ t' m' w') ∧ under_way X X l t' m' w' ps') ∨
    ∃ t' m' w' ps', f (at_ t m w) = Returns (Ok (ga, GuestStageMapper.mk ga n), at_ t' m' w') ∧ destination X l ga n t' m' w' ps')
    as [(e & t' & m' & w' & ps' & Hf & Hu')|(t' & m' & w' & ps' & Hf & Hd)].
  { unfold f, VmRef.guest_addr_from_raw. destruct (ok_or (PageAddr.new ga) _) as [x|e] eqn:Ex; cycle 1.
    { left. exists e. do 4 eexists. split; [|exact Hu]. done. }
    apply from_raw_Ok in Ex as [-> Hgal]. erewrite bind_ok by done.
    destruct (lock_guest_range (under_way X X l) t m w ps ga n ty) as (r & t' & m' & w' & ps' & Hrun & Hu' & Hp & _);
      [by eapply under_way_stable|done..|lia|done|done|].
    destruct r as [mapper|e].
    - right. destruct Hp as (-> & Hnd & Hva). assert (Z.to_nat n = length X) as E by lia. rewrite E in Hnd, Hva.
      exists t', m', w', ps'. split; [by erewrite bind_ok by exact Hrun|done].
    - left. exists e, t', m', w', ps'. split; [by erewrite bind_err by exact Hrun|done]. }
  - destruct (call_drop X X l f e (at_ t m w) t' m' w' ps') as (s' & Hd & Hi'); [done..|]. by exists (Err e), s'.
  - exists (Ok (ga, GuestStageMapper.mk ga n)), (at_ t' m' w'). split; [unfold or_drop_pages; by rewrite Hf|]. split; [done|].
    by exists t', m', w', ps'.
Qed.

(** *** Sharing pages of the host *)
Lemma host_mapped t m w ps va pa :
  calling t m w ps → leaf_4k (lookup (table (host s)) (ram s) va) = Some pa →
  GuestStagePageTable.get_mapped_page (root (host s)) va m = Returns (Ok pa, m).
Proof using PL Hinv Hg0.
  intros Hc Hl. pose proof (ca_kept _ _ _ _ Hc) as HK. pose proof host_ne_guest as Hne.
  pose proof (kept_vm _ _ _ _ _ _ _ HK (mi_host _ _ _ Hinv) Hne) as Hh.
  assert (same_translation (table (host s)) (ram s) m) as Hs by (eapply same_tables; [apply Hinv|]; intros a; by apply HK).
  pose proof (get_mapped_4k_leaf_spec (FP := own t (host_id s) m hps) (table (host s)) m hps va (vi_state _ _ _ _ Hh)) as Hg.
  rewrite Hs, Hl in Hg. destruct Hg as (e & Hge & Hpa & _). unfold GuestStagePageTable.get_mapped_page.
  erewrite bind_ok by exact Hge. erewrite bind_ok by done. unfold of_outcome. by rewrite Hpa.
Qed.

Lemma in_host_read {E A} (f : M mem E A) t m w r :
  f m = Returns (r, m) → in_host (on_table f) (at_ t m w) = Returns (r, at_ t m w).
Proof using Type. intros Hf. unfold in_host, on_table. cbn [memory tracker ram at_]. by rewrite Hf. Qed.

(** One page is shared and mapped. *)
Definition shareable (t : PageTracker.t) (pa : Z) : Prop := phys pa ∧ PageTracker.is_shareable_page pa (host_id s) MemType.Ram t = true.

Lemma share_and_map_page t m w ps mapper va pa :
  calling t m w ps → shareable t pa → in_mapper mapper va → lookup (table w) m va = Some (Mapping KLockedUnmapped Size4k 0) →
  ∃ t' m', PageTracker.get_shareable_page MemType.Ram pa (host_id s) t = Returns (Ok (Page.mk pa Size4k), t) ∧
    PageTracker.share_page MemType.Ram (Page.mk pa Size4k) (host_id s) t = Returns (Ok (Page.mk pa Size4k), t') ∧
    in_guest i (VmPagesMapper.do_map_page mapper va (Page.mk pa Size4k)) (at_ t' m w) = Returns (Ok tt, at_ t' m' w) ∧
    calling t' m' w ps ∧ (∀ c, phys c → c ≠ pa → get_page t' c = get_page t c) ∧
    ∀ va', lookup (table w) m' va' = if decide (leaf_no L Size4k va' = leaf_no L Size4k va) then Some (Mapping KLeaf Size4k pa) else lookup (table w) m va'.
Proof using PL Hinv Hg0.
  intros Hc [Hpa Hsh] Hin Hl. pose proof Hsh as (p & Hp & Hck)%query_true. pose proof Hck as [[Ho%bool_decide_eq_true _]%andb_prop Hs]%andb_prop.
  pose proof (vi_wf _ _ _ _ (ca_vm _ _ _ _ Hc)) as Hwf. pose proof (tw_pages _ Hwf pa p Hpa Hp) as (_ & _ & Hsw).
  assert (∃ q, PageInfo.share p = Ok q) as [q Hq].
  { unfold PageInfo.is_shareable in Hs. unfold PageInfo.share. destruct (PageInfo.state p) as [| | |n| | | | | |]; try done; [by eexists|].
    destruct (Z.eqb_spec n U64_MAX); [done|]. unfold checked_add. destruct (Z.ltb_spec (n + 1) U64); [by eexists|]. cbn in Hsw. lia. }
  destruct (share_undisturbed gid t pa p q Hwf Hpa Hp Hq) as (Hwf' & Hqs & Hqo & Hqc & Hg). set (t' := set_page pa q t) in *.
  assert (Hw' : vm_inv t' m w ps).
  { eapply vm_inv_undisturbed; [apply Hc| |done]. rewrite (ca_id _ _ _ _ Hc). destruct Hg as [? U ? ?]. split; [done| |done|done]. intros a p' Ha _. by apply U. }
  assert (Hne : ∀ c, phys c → c ≠ pa → get_page t' c = get_page t c) by (intros c Hcp Hca; apply get_page_set_ne; [apply Hwf|done..]).
  assert (Hpq : get_page t' pa = Some q) by (eapply get_page_set_eq; [apply Hwf|done..]).
  assert (Hc' : calling t' m w ps).
  { destruct Hc as [HK _ Hid Hn Hch Hz]. split; [|done..| |].
    - eapply kept_trans; [done|]. split; [|done]. intros o _. by destruct (share_undisturbed o t pa p q Hwf Hpa Hp Hq) as (_ & _ & _ & _ & ?).
    - intros a x Ha Hx Hox. destruct (decide (a = pa)) as [->|Hap]; [|rewrite Hne in Hx by done; by eapply Hch].
      rewrite Hpq in Hx. injection Hx as <-. rewrite Hqc. eapply Hch; [done..|congruence].
    - rewrite Hne; [done|by split|]. intros <-. congruence. }
  destruct (map_page_inv t' m w ps mapper va pa) as (m' & Hmap & Hw2 & He & Hu); [done|done|done|done| | |].
  { exists q. auto. } { intros x Hx Hox. rewrite Hpq in Hx. injection Hx as <-. rewrite (ca_id _ _ _ _ Hc) in Hox. destruct host_ne_guest. congruence. }
  exists t', m'. split_and!; [| |by apply in_guest_at| |done|done].
  - unfold PageTracker.get_shareable_page. erewrite bind_ok; cycle 1.
    { unfold PageTracker.get. erewrite bind_ok by done. unfold get_page in Hp. by rewrite Hp. }
    rewrite Hck. unfold of_outcome. by rewrite page_new_phys.
  - rewrite (share_page_ok _ _ _ _ p) by done. by rewrite Hck, Hq.
  - eapply calling_own; [exact Hc'|done..|]. by rewrite (ca_id _ _ _ _ Hc) in He.
Qed.

Lemma share_loop mapper w ps pas : ∀ fuel vas t m a,
  calling t m w ps → Forall2 (λ va pa, leaf_4k (lookup (table (host s)) (ram s) va) = Some pa) vas pas → NoDup pas →
  (∀ pa, pa ∈ pas → shareable t pa) → (length vas < fuel)%nat → a mod 4096 = 0 → a + Z.of_nat (length pas) * 4096 + 4096 ≤ U64 →
  NoDup (leaf_no L Size4k <$> page_seq a Size4k (length pas)) →
  (∀ va, va ∈ page_seq a Size4k (length pas) → in_mapper mapper va ∧ lookup (table w) m va = Some (Mapping KLockedUnmapped Size4k 0)) →
  ∃ t' m', VmRef.zip_shareable fuel vas (PageAddrIter.mk (Some a) Size4k) (λ page addr,
      page ← unwrap (track (PageTracker.share_page MemType.Ram page (host_id s)));
      unwrap (in_guest i (VmPagesMapper.do_map_page mapper addr page))) (at_ t m w) = Returns (Ok tt, at_ t' m' w) ∧
    calling t' m' w ps.
Proof using PL Hinv Hg0.
  induction pas as [|pa pas IH]; intros fuel vas t m a Hc Hf2 Hnp Hsh Hf Hal Hb Hnd Hva; (destruct fuel as [|fuel]; [lia|]).
  { apply Forall2_nil_inv_r in Hf2 as ->. exists t, m. split; [|done]. cbn [VmRef.zip_shareable]. erewrite bind_ok by done.
    erewrite bind_ok by (eapply unwrap_eq; done). done. }
  apply Forall2_cons_inv_r in Hf2 as (va0 & vas' & Hv0 & Hf2 & ->). cbn [length page_seq] in *.
  apply list.NoDup_cons in Hnd as [Hn Hnd]. apply list.NoDup_cons in Hnp as [Hpn Hnp]. destruct (Hva a ltac:(by left)) as [Hin Hl].
  destruct (share_and_map_page t m w ps mapper a pa Hc (Hsh pa ltac:(by left)) Hin Hl) as (t1 & m1 & Hg & Hs & Hmap & Hc1 & Hoth & Hlk).
  destruct (IH fuel vas' t1 m1 (a + 4096)) as (t' & m' & Hloop & Hc'); [done|done|done| |lia|mod_lia|lia|done| |].
  { intros x Hx. destruct (Hsh x ltac:(by right)) as [Hph Hq]. split; [done|]. apply query_true in Hq as (p & Hp & Hck). apply query_true. exists p.
    rewrite Hoth; [done..|]. by intros ->. }
  { intros va Hv. destruct (Hva va ltac:(by right)) as [Hin' Hl']. split; [done|]. rewrite Hlk, decide_False; [done|].
    intros E. apply Hn. rewrite <-E. by apply list_elem_of_fmap_2. }
  exists t', m'. split; [|done]. rewrite <-Hloop. cbn [VmRef.zip_shareable]. erewrite bind_ok by done. cbn [host at_].
  erewrite bind_ok; cycle 1.
  { eapply unwrap_eq, in_host_read. cbn [GuestStagePageTable.get_mapped_next].
    erewrite bind_ok by (eapply unwrap_eq; by eapply host_mapped). done. }
  cbv beta iota. erewrite bind_ok by (eapply unwrap_eq; unfold track; cbn [tracker at_]; unfold host_id in Hg; by rewrite Hg).
  rewrite iter_next by lia. erewrite bind_ok; [done|].
  erewrite bind_ok by (eapply unwrap_eq; unfold track; cbn [tracker at_ set_tracker]; by rewrite Hs). by eapply unwrap_eq.
Qed.

Lemma calling_start : calling (tracker s) (ram s) (GuestVm.vm g0) ps0.
Proof using Hinv Hg0 Hps0.
  destruct guest_inv as [Hw Hn]. split; [|done|done|done|unfold chain_ok; apply Hinv|apply Hinv].
  apply kept_own; [by eapply vi_wf|done..].
Qed.
End call.

(** The arguments of a call name a range of pages. *)
Definition page_range (a n : Z) : Prop := 0 ≤ n ∧ 0 ≤ a ∧ a + n * 4096 + 4096 ≤ U64 ∧ n * 4096 ≤ 2 ^ abits L.

Lemma safe_raw_addr {B} a (k : Z → M (machine L) EcallError.t B) s :
  inv s → (a mod 4096 = 0 → safe (k a) s) → safe (VmRef.guest_addr_from_raw a ≫= k) s.
Proof using Type. intros Hi Hk. apply safe_lift; [done|]. intros x [-> Hx]%from_raw_Ok. by apply Hk. Qed.

Lemma guest_has_pool s hps gps i g : machine_inv s hps gps → guests s !! i = Some g → ∃ ps, gps !! i = Some ps.
Proof using Type.
  intros Hi Hg. apply lookup_lt_is_Some. pose proof (mi_guests _ _ _ Hi) as Hf. apply Forall2_length in Hf. rewrite <-Hf. by eapply lookup_lt_Some.
Qed.

(** A call that takes pages from the host for guest [i]. *)
Lemma safe_host_take {B} s i g a n (k : PageList.t → M (machine L) EcallError.t B) :
  inv s → page_range a n → a mod 4096 = 0 → guests s !! i = Some g →
  (∀ hps gps ps X l t, machine_inv s hps gps → gps !! i = Some ps → (∀ c, c ∈ X → takeable (host_id s) (tracker s) c) →
     Z.of_nat (length X) = n → under_way s g X X l t (ram s) (GuestVm.vm g) ps →
     ∃ r s', k l (at_ s i g t (ram s) (GuestVm.vm g)) = Returns (r, s') ∧ inv s') →
  safe (VmRef.host_pages (VmPagesRef.get_converted_pages a n) ≫= k) s.
Proof using PL.
  intros (hps & gps & Hi) (Hn & Ha & Hb & Hab) Hal Hg Hk.
  destruct (host_take s hps gps a n Hi Hn Ha Hal Hb Hab) as (r & t' & Hr & Hp). destruct r as [l|e].
  - destruct Hp as (X & Hl & HX & Hlen & Hlk & Hwf & Hoth).
    destruct (guest_has_pool s hps gps i g Hi Hg) as [ps Hps].
    destruct (Hk hps gps ps X l t') as (r & s' & Hr' & Hi'); [done..| |].
    { by eapply call_start. }
    exists r, s'. split; [|done]. erewrite bind_ok by exact Hr. rewrite (at_start s i g Hg). exact Hr'.
  - subst t'. exists (Err e), s. split; [|by exists hps, gps]. erewrite bind_err by exact Hr. by destruct s.
Qed.

Lemma guest_add_page_table_pages_safe s id a n :
  inv s → page_range a n → safe (VmRef.guest_add_page_table_pages id a n) s.
Proof using PL.
  intros Hi Hr. unfold VmRef.guest_add_page_table_pages. apply safe_guest_by_id; [done|]. intros i g Hg.
  eapply safe_with_state; [done|done|]. intros v [= <-]. apply safe_raw_addr; [done|]. intros Hal.
  eapply safe_host_take; [done..|]. intros hps gps ps X l t Hm Hps HX Hlen Hu.
  destruct (add_pte_loop s hps gps i g Hm Hg X HX X (S (Z.to_nat (PageList.len l))) l t (ram s) (GuestVm.vm g) ps Hu) as (t' & m' & w' & ps' & l' & Hloop & Hu').
  { rewrite (lr_len _ _ _ (uw_list _ _ _ _ _ _ _ _ _ Hu)). lia. }
  do 2 eexists. split; [by erewrite bind_ok by exact Hloop|]. by eapply call_end.
Qed.

Lemma guest_add_zero_pages_safe s id a is_4k n ga :
  inv s → page_range a n → page_range ga n → safe (VmRef.guest_add_zero_pages id a is_4k n ga) s.
Proof using PL.
  intros Hi Hr (Hn & Hga & Hgb & Hab). unfold VmRef.guest_add_zero_pages. destruct is_4k; [|by apply safe_err]. cbn [negb].
  apply safe_guest_by_id; [done|]. intros i g Hg. eapply safe_with_state; [done|done|]. intros v Hv.
  assert (v = GuestVm.vm g) as -> by (unfold GuestVm.as_finalized_vm in Hv; case_match; congruence).
  apply safe_raw_addr; [done|]. intros Hal. eapply safe_host_take; [done..|].
  intros hps gps ps X l t Hm Hps HX Hlen Hu. unfold VmPagesRef.map_zero_pages.
  destruct (lock_destination s hps gps i g ps Hm Hg Hps X l t (ram s) (GuestVm.vm g) ps ga n VmRegionType.Confidential)
    as (r & s1 & Hf & Hd); [done..|lia|done|].
  destruct r as [x|e]; [|exists (Err e), s1; split; [by erewrite bind_err by exact Hf|done]].
  destruct Hd as (-> & t' & m' & w' & ps' & -> & Hu' & Hgal & Hnd & Hva).
  destruct (give_loop s hps gps i g Hm Hg X HX (GuestStageMapper.mk ga n)
    (λ page addr, clean_page page;; VmRef.assign_and_map i (page_owner_id (GuestVm.vm g)) (GuestStageMapper.mk ga n) page addr) w' ps' X
    ltac:(intros c va t1 m1 w1; exists (clean c m1); split; [apply only_page_clean|by erewrite bind_ok by done]) (S (Z.to_nat (PageList.len l))) l t' m' ga) as (t'' & m'' & l'' & Hloop & Hu''); [done| |done|lia|done|done|].
  { rewrite (lr_len _ _ _ (uw_list _ _ _ _ _ _ _ _ _ Hu)). lia. }
  destruct Hu'' as [HT _ _ Hw' Hid Hn'].
  destruct (call_drop_mapper s hps gps i g ps Hm Hg Hps t'' m'' w' ps' ga n) as (s' & Hd & Hi'); [by eapply transit_calling|done..|lia|done|].
  exists (Ok n), s'. split; [|done].
  erewrite bind_ok by exact Hf. cbv beta iota.
  erewrite bind_ok; [by erewrite bind_ok by exact Hd|]. unfold VmRef.zip_each_locked.
  erewrite bind_ok; [exact Hloop|]. unfold of_outcome, PageAddrIter.new. by rewrite (proj2 (with_alignment_Some ga Size4k ga)).
Qed.

Lemma get_mapped_pages_spec s hps gps a n pred :
  machine_inv s hps gps → page_range a n → a mod 4096 = 0 →
  ∃ r, GuestStagePageTable.get_mapped_pages (root (host s)) a (wrap64 (n * PageSize.bytes Size4k)) pred (ram s) = Returns (r, ram s) ∧
    match r with
    | Ok it => it = page_seq a Size4k (Z.to_nat n) ∧
        ∀ va, va ∈ it → ∃ pa, leaf_4k (lookup (table (host s)) (ram s) va) = Some pa ∧ pred pa = true
    | Err _ => True
    end.
Proof using PL.
  intros Hi (Hn & Ha & Hb & Hab) Hal. destruct (num_4k_bytes a n Hn Ha Hb) as [-> H4k].
  pose proof (vi_state _ _ _ _ (mi_host _ _ _ Hi)) as Hst. set (vas := page_seq a Size4k (Z.to_nat n)).
  unfold GuestStagePageTable.get_mapped_pages.
  rewrite (bind_ok _ _ (ram s) vas (ram s)) by (rewrite range_addrs_eq by done; rewrite H4k; by rewrite (proj2 (Z.ltb_lt _ _)) by lia).
  destruct (for_each_check (λ va, ∃ pa, leaf_4k (lookup (table (host s)) (ram s) va) = Some pa ∧ pred pa = true)
    (λ va, paddr ← GuestStagePageTable.get_mapped_page (root (host s)) va; if negb (pred paddr) then err PtError.PredicateFailed else mret tt) (ram s) vas)
    as (r & Hr & Hp); cycle 1.
  { destruct r as [[]|e]; [exists (Ok vas)|exists (Err e)]; (split; [|done]); [by erewrite bind_ok by exact Hr|by erewrite bind_err by exact Hr]. }
  intros va _. pose proof (get_mapped_4k_leaf_spec (FP := own (tracker s) (host_id s) (ram s) hps) _ _ _ va Hst) as Hg.
  unfold GuestStagePageTable.get_mapped_page. destruct (leaf_4k _) as [pa|].
  - destruct Hg as (e & Hge & Hpa & _). erewrite bind_ok.
    2: { erewrite bind_ok by exact Hge. erewrite bind_ok by done. unfold of_outcome. by rewrite Hpa. }
    destruct (pred pa) eqn:Hp; cbn [negb]; eexists; (split; [done|]); naive_solver.
  - destruct Hg as (e & Hge). eexists. split; [by erewrite bind_err by (by erewrite bind_err by exact Hge)|]. naive_solver.
Qed.

(** The pages that the host shares are distinct. *)
Lemma shareable_pages s hps gps a n :
  machine_inv s hps gps → page_range a n → a mod 4096 = 0 → let vas := page_seq a Size4k (Z.to_nat n) in
  (∀ va, va ∈ vas → ∃ pa, leaf_4k (lookup (table (host s)) (ram s) va) = Some pa ∧
     PageTracker.is_shareable_page pa (host_id s) MemType.Ram (tracker s) = true) →
  ∃ pas, Forall2 (λ va pa, leaf_4k (lookup (table (host s)) (ram s) va) = Some pa) vas pas ∧ NoDup pas ∧
    ∀ pa, pa ∈ pas → shareable s (tracker s) pa.
Proof using PL.
  intros Hi (Hn & Ha & Hb & Hab) Hal vas Hall. pose proof (mi_host _ _ _ Hi) as Hh. set (sy := Sys (tracker s) (ram s) (host s)).
  set (FP := own (tracker s) (host_id s) (ram s) hps). exists (table_pages leaf_4k sy vas). split_and!.
  - clearbody vas. induction vas as [|va vas IH]; [constructor|]. destruct (Hall va ltac:(by left)) as (pa & Hpa & _).
    unfold table_pages. cbn [omap list_omap vm memory sy]. rewrite Hpa. constructor; [done|]. apply IH. intros x Hx. apply Hall. by right.
  - eapply (table_pages_NoDup (FP := FP)); [apply Hh|apply frame_leaf|apply range_NoDup; [done|lia]|].
    intros va pa Hin Hpa. destruct (Hall va Hin) as (pa' & Hpa' & Hs).
    change (leaf_4k (lookup (table (host s)) (ram s) va) = Some pa) in Hpa. assert (pa' = pa) as -> by congruence.
    apply query_true in Hs as (p & Hp & [[Ho _]%andb_prop _]%andb_prop). apply query_true. by exists p.
  - intros pa (va & Hin & Hpa)%elem_of_table_pages. destruct (Hall va Hin) as (pa' & Hpa' & Hs).
    change (leaf_4k (lookup (table (host s)) (ram s) va) = Some pa) in Hpa. assert (pa' = pa) as -> by congruence.
    split; [|done]. eapply (frame_phys (FP := FP)); [by apply vi_state|]. by apply frame_leaf.
Qed.

Lemma guest_add_shared_pages_safe s id a is_4k n ga :
  inv s → page_range a n → page_range ga n → safe (VmRef.guest_add_shared_pages id a is_4k n ga) s.
Proof using PL.
  intros Hi Hr (Hn & Hga & Hgb & Hab). unfold VmRef.guest_add_shared_pages. destruct is_4k; [|by apply safe_err]. cbn [negb orb].
  destruct (n =? 0); [by apply safe_err|]. apply safe_guest_by_id; [done|]. intros i g Hg.
  eapply safe_with_state; [done|done|]. intros v Hv. apply safe_raw_addr; [done|]. intros Hal.
  pose proof Hi as (hps & gps & Hm). unfold safe. erewrite bind_ok by done.
  destruct (guest_has_pool s hps gps i g Hm Hg) as [ps Hps].
  destruct (get_mapped_pages_spec s hps gps a n (λ addr, PageTracker.is_shareable_page addr (host_id s) MemType.Ram (tracker s)))
    as (r & Hget & Hp); [done..|].
  assert (Hhp : VmRef.host_pages (on_table (with_err VmPagesError.Paging (GuestStagePageTable.get_mapped_pages (root (host s)) a
      (wrap64 (n * PageSize.bytes Size4k)) (λ addr, PageTracker.is_shareable_page addr (page_owner_id (host s)) MemType.Ram (tracker s))))) s
    = Returns (map_err EcallError.from (map_err VmPagesError.Paging r), s)).
  { unfold VmRef.host_pages, with_err, in_host, on_table. cbn [memory]. unfold host_id in Hget. rewrite Hget. cbn. by destruct s. }
  destruct r as [it|e]; [|by exists (Err (EcallError.from (VmPagesError.Paging e))), s; erewrite bind_err by exact Hhp].
  erewrite bind_ok by exact Hhp. destruct Hp as [-> Hall].
  destruct (shareable_pages s hps gps a n Hm Hr Hal Hall) as (pas & Hf2 & Hnp & Hsh).
  pose proof Hf2 as Hlen. apply Forall2_length in Hlen. rewrite length_page_seq in Hlen.
  apply safe_raw_addr; [done|]. intros Hgal. unfold safe.
  pose proof (calling_start s hps gps i g ps Hm Hg Hps) as Hc.
  destruct (lock_guest_range s i g Hg (calling s g) (tracker s) (ram s) (GuestVm.vm g) ps ga n VmRegionType.Shared)
    as (r & t' & m' & w' & ps' & Hrun & Hc' & Hpost & Hkeep); [by eapply calling_stable|done..|lia|done|].
  rewrite <-(at_start s i g Hg) in Hrun. assert (set_tracker (tracker s) s = s) as Es by (by destruct s). rewrite Es in Hrun.
  destruct r as [mapper|e]; cycle 1.
  { exists (Err e), (at_ s i g t' m' w'). split; [by erewrite bind_err by exact Hrun|]. by eapply calling_inv. }
  destruct Hpost as (-> & Hnd & Hva). rewrite Hlen in Hnd, Hva.
  destruct (share_loop s hps gps i g Hm Hg (GuestStageMapper.mk ga n) w' ps' pas (S (length (page_seq a Size4k (Z.to_nat n)))) (page_seq a Size4k (Z.to_nat n)) t' m' ga)
    as (t2 & m2 & Hloop & Hc2); [done..| |lia|done|lia|done|done|].
  { intros pa Hpa. destruct (Hsh pa Hpa) as [Hph Hq]. split; [done|]. apply query_true in Hq as (p & Hp & Hck). apply query_true. exists p.
    split; [|done]. apply Hkeep; [done..|]. apply andb_prop in Hck as [[Ho%bool_decide_eq_true _]%andb_prop _].
    rewrite Ho. intros [= E]. by apply (host_ne_guest s hps gps i g). }
  destruct (call_drop_mapper s hps gps i g ps Hm Hg Hps t2 m2 w' ps' ga n) as (s' & Hd & Hi'); [done..|lia|done|].
  exists (Ok n), s'. split; [|done]. erewrite bind_ok by exact Hrun.
  erewrite bind_ok; [|unfold of_outcome, PageAddrIter.new; by rewrite (proj2 (with_alignment_Some ga Size4k ga))].
  erewrite bind_ok by exact Hloop. by erewrite bind_ok by exact Hd.
Qed.
End machine.
