(* ===== verification/MeasuredCallFacts.v ===== *)
(** * Measured pages

    The host's call that copies its data to converted pages and gives them to a guest
    before the guest runs.  The pages move from one locked list to another while they
    are filled; if the copy of a page faults, all of them are returned. *)
From S2P Require Import Prelude Intervals RiscvPages PageInfoModel PageMapModel Tracker TrackerFacts PageListFacts Pte PteFacts PageTableModel PageTableFacts PageTableOps GuestTableFacts TlbModel TlbTrackerFacts VmRegions VmRegionsFacts VmPages VmPagesFacts VmInvariant VmCalls GuestCallFacts.
Import PageSize(Size4k).
Import VmPages(page_owner_id, tlb_tracker, regions, nesting, root, pte_pages).

(** ** Locked pages *)
Section locked.
Context `{PL : PagingLaws L}.
Implicit Types v w : VmPages.t L.
Abbreviation table v := (GuestStagePageTable.inner (root v)).
Variables (h g : PageOwnerId.t) (X : list Z) (t0 : PageTracker.t) (m0 : mem).
Hypothesis Hhg : h ≠ g.
Hypothesis HX : ∀ c, c ∈ X → takeable h t0 c.

(** Of the locked pages [R0], those in [R1] may be linked differently and have other
    contents, and the others are returned. *)
Record locked_step (R0 R1 : list Z) (t : PageTracker.t) (m : mem) (t' : PageTracker.t) (m' : mem) : Prop := {
  ls_wf : tracker_wf t';
  ls_subset c : c ∈ R1 → c ∈ R0;
  ls_out c : phys c → c ∉ R0 → get_page t' c = get_page t c;
  ls_page c p : c ∈ R0 → get_page t c = Some p → ∃ p', get_page t' c = Some p' ∧
    (c ∈ R1 ∧ PageInfo.unlink p' = PageInfo.unlink p ∨
     (c ∉ R1) ∧ p' = PageInfo.set_state PageState.Converted (PageInfo.unlink p));
  ls_mem a : page_of a ∉ R0 → read_pte m' a = read_pte m a
}.

Lemma locked_step_relink R t m t1 t2 m' :
  locked_step R R t m t1 m' → (∀ c, c ∈ R → phys c) → tracker_wf t2 → (∀ c, phys c → c ∉ R → get_page t2 c = get_page t1 c) →
  relinked t1 t2 → locked_step R R t m t2 m'.
Proof using Type.
  intros [Lwf _ Lout Lpage Lmem] Hph Hwf Hout Hr. split; [done|done| | |done].
  - intros c Hc Hn. rewrite Hout by done. by apply Lout.
  - intros c p Hc Hp. destruct (Lpage c p Hc Hp) as (p' & Hp' & [[_ E]|[? _]]); [|done].
    pose proof (Hr c (Hph c Hc)) as Hu. rewrite Hp' in Hu. destruct (get_page t2 c) as [q|]; [|done]. exists q. split; [done|].
    left. split; [done|]. cbn in Hu. congruence.
Qed.
(** The order of the locked pages does not matter. *)
Lemma locked_step_set R0 R1 R t m t' m' :
  (∀ c, c ∈ R ↔ c ∈ R1) → locked_step R0 R1 t m t' m' → locked_step R0 R t m t' m'.
Proof using Type.
  intros HR [Lwf Lsub Lout Lpage Lmem]. split; [done| |done| |done].
  - intros c Hc. by apply Lsub, HR.
  - intros c p Hc Hp. destruct (Lpage c p Hc Hp) as (p' & Hp' & Hcase). exists p'. by rewrite HR.
Qed.

Lemma locked_page R t m c :
  transit h g X R t0 m0 t m → c ∈ R → c ∈ X →
  ∃ p, get_page t c = Some p ∧ PageInfo.owner p = Some h ∧ (length (PageInfo.owners p) < 2)%nat ∧ PageInfo.state p = PageState.ConvertedLocked.
Proof using Type.
  intros HT HR Hc. destruct (tr_page _ _ _ _ _ _ _ _ HT c Hc) as (p & Hp & [[_ ?]|(Ho & Hl & [[_ Hs]|[? _]])]); [done| |done].
  by exists p.
Qed.
(** A locked page keeps its owner. *)
Lemma locked_step_owner R0 R1 t m t' m' c :
  transit h g X R0 t0 m0 t m → (∀ c, c ∈ R0 → c ∈ X) → locked_step R0 R1 t m t' m' → c ∈ R0 →
  ∃ p p', get_page t c = Some p ∧ get_page t' c = Some p' ∧ PageInfo.owner p = Some h ∧ PageInfo.owner p' = Some h ∧
    (length (PageInfo.owners p') < 2)%nat ∧ PageInfo.is_shared p = false ∧
    (c ∈ R1 ∧ PageInfo.state p' = PageState.ConvertedLocked ∨
     (c ∉ R1) ∧ PageInfo.state p' = PageState.Converted ∧ PageInfo.link_ p' = None).
Proof using Type.
  intros HT HR HL Hc. destruct (locked_page R0 t m c HT Hc (HR c Hc)) as (p & Hp & Ho & Hl & Hs).
  destruct (ls_page _ _ _ _ _ _ HL c p Hc Hp) as (p' & Hp' & Hcase). exists p, p'.
  assert (PageInfo.is_shared p = false) by (unfold PageInfo.is_shared; by rewrite Hs).
  destruct Hcase as [[H1 E]|[H1 ->]].
  - destruct p, p'. cbn in *. injection E as -> -> ->. split_and!; try done. by left.
  - split_and!; try done; [unfold PageInfo.owner in *; cbn; by rewrite Hs in Ho|]. by right.
Qed.

Lemma transit_locked R0 R1 t m t' m' :
  transit h g X R0 t0 m0 t m → (∀ c, c ∈ R0 → c ∈ X) → locked_step R0 R1 t m t' m' → transit h g X R1 t0 m0 t' m'.
Proof using HX.
  intros HT HR HL. pose proof HT as [Twf Tout Tkept Tpage Tmem]. pose proof HL as [Lwf Lsub Lout Lpage Lmem].
  assert (Hni : ∀ c, c ∉ X → c ∉ R0) by auto. split; [done|..].
  - intros c Hc Hn. rewrite Lout by auto. by apply Tout.
  - intros c p Hc Hn Hp Ho. rewrite Lout by auto. by apply Tkept.
  - intros c Hc. destruct (decide (c ∈ R0)) as [Hin|Hn].
    + destruct (locked_step_owner R0 R1 t m t' m' c HT HR HL Hin) as (_ & p' & _ & Hp' & _ & Ho & Hl & _ & Hcase).
      exists p'. split; [done|]. right. done.
    + destruct (HX c Hc) as (Hph & _). rewrite Lout by done. destruct (Tpage c Hc) as (p & Hp & Hcase). exists p. split; [done|].
      assert (c ∉ R1) by auto. destruct Hcase as [[Ho _]|(Ho & Hl & [[? _]|[_ ?]])]; [by left|done|]. right. auto.
  - intros a Ha Hn. rewrite Lmem by auto. by apply Tmem.
Qed.

Lemma receiver_locked R0 R1 t m t' m' w ps :
  transit h g X R0 t0 m0 t m → (∀ c, c ∈ R0 → c ∈ X) → locked_step R0 R1 t m t' m' → vm_inv t m w ps → page_owner_id w ≠ h →
  vm_inv t' m' w ps ∧ same_translation (table w) m m'.
Proof using PL.
  intros HT HR HL Hi Hw. pose proof (locked_step_owner R0 R1 t m t' m') as Hown.
  assert (Hmem : ∀ a, state_of t (page_owner_id w) a → read_pte m' a = read_pte m a).
  { intros a (_ & p & Hp & Ho & _). apply (ls_mem _ _ _ _ _ _ HL). intros Hin.
    destruct (Hown _ HT HR HL Hin) as (q & _ & Hq & _ & Hoq & _). congruence. }
  split; [|by eapply same_tables]. eapply vm_inv_undisturbed; [done| |done]. split; [apply HL|..].
  - intros a p' Ha _ Hp' Ho'. destruct (decide (a ∈ R0)) as [Hin|Hn]; [|rewrite (ls_out _ _ _ _ _ _ HL) in Hp' by done; eauto].
    destruct (Hown _ HT HR HL Hin) as (_ & q & _ & Hq & _ & Hoq & _). congruence.
  - intros a p Ha Hp Ho _. rewrite (ls_out _ _ _ _ _ _ HL); [done..|]. intros Hin.
    destruct (Hown _ HT HR HL Hin) as (q & _ & Hq & _ & Hoq & _). congruence.
  - intros a Ha (p & Hp & Hacc). exists p. rewrite (ls_out _ _ _ _ _ _ HL); [done..|]. intros Hin.
    destruct (Hown _ HT HR HL Hin) as (q & _ & Hq & _ & Hoq & _ & _ & Hsq & _). destruct Hacc as [[? _]|?]; congruence.
Qed.
End locked.

(** ** Filling the pages *)
Section call.
Context `{PL : PagingLaws L}.
Implicit Types (v w : VmPages.t L).
Abbreviation table v := (GuestStagePageTable.inner (root v)).
Variables (s : machine L) (hps : list Page.t) (gps : list (list Page.t)) (i : nat) (g0 : GuestVm.t L) (ps0 : list Page.t).
Hypothesis Hinv : machine_inv s hps gps.
Hypothesis Hg0 : guests s !! i = Some g0.
Hypothesis Hps0 : gps !! i = Some ps0.
Variable X : list Z.
Hypothesis HX : ∀ c, c ∈ X → takeable (host_id s) (tracker s) c.
Abbreviation gid := (page_owner_id (GuestVm.vm g0)).
Hypothesis Hlen : Z.of_nat (length X) + 1 < U64.
Abbreviation here := (at_ s i g0).

(** The pages [R] are still to be filled, the pages [S] are filled. *)
Record filling (R S : list Z) (l k : PageList.t) t m w ps : Prop := {
  fi_transit : transit (host_id s) gid X (R ++ S) (tracker s) (ram s) t m;
  fi_list : list_rep t l R;
  fi_filled : list_rep t k S;
  fi_nodup : NoDup (R ++ S);
  fi_subset c : c ∈ R ++ S → c ∈ X;
  fi_vm : vm_inv t m w ps;
  fi_id : page_owner_id w = gid;
  fi_nesting : 1 ≤ nesting w
}.

(** Copying writes to the page it fills, and may fail. *)
Definition copy_ok (copy : Z → Z → M mem VmPagesError.t unit) : Prop := ∀ dest src m, ∃ r m',
  copy dest src m = Returns (r, m') ∧ only_page dest m m'.

Lemma only_page_of c m m' a : only_page c m m' → phys c → page_of a ≠ c → read_pte m' a = read_pte m a.
Proof using Type. intros Hm Hc Hne. apply Hm. intros Hin. destruct (page_of_in c a Hc Hin). congruence. Qed.

(** The next page is taken from the list. *)
Lemma filling_pop c R S l k t m m' w ps :
  filling (c :: R) S l k t m w ps → only_page c m m' →
  ∃ l' p, let t' := set_page c (PageInfo.unlink p) t in
    PageList.pop l t = Returns (Ok (Some (Page.mk c Size4k), l'), t') ∧ get_page t' c = Some (PageInfo.unlink p) ∧
    PageInfo.state p = PageState.ConvertedLocked ∧ phys c ∧ c ≠ 0 ∧ list_rep t' l' R ∧ list_rep t' k S ∧ (c ∉ R ++ S) ∧
    locked_step (c :: R ++ S) (c :: R ++ S) t m t' m'.
Proof using HX.
  intros [HT Hl Hk Hnd Hsub Hw Hid Hn] Hm. pose proof (tr_wf _ _ _ _ _ _ _ _ HT) as Hwf. cbn [app] in HT, Hnd, Hsub.
  destruct (HX c (Hsub c ltac:(by left))) as (Hc & H0 & _). apply list.NoDup_cons in Hnd as [Hni Hnd].
  destruct (pop_rep t l c R) as (l' & p & Hp & Hpop & Hl'); [apply Hwf|done|].
  destruct (locked_page _ _ _ _ _ _ _ _ c HT ltac:(by left) ltac:(by apply Hsub; left)) as (q & Hq & _ & _ & Hs).
  assert (q = p) as -> by congruence. exists l', p. cbv zeta.
  assert (Hp' : get_page (set_page c (PageInfo.unlink p) t) c = Some (PageInfo.unlink p)) by (eapply get_page_set_eq; [apply Hwf|done..]).
  rewrite elem_of_app in Hni. split_and!; [done..| |by rewrite elem_of_app|].
  { apply list_rep_set; [done|done|tauto|done]. }
  split; [by apply unlink_page_wf|done| | |].
  - intros b Hb Hnb. apply get_page_set_ne; [apply Hwf|done..|]. intros ->. apply Hnb. by left.
  - intros b q Hb Hq'. destruct (decide (b = c)) as [->|Hbc].
    + assert (q = p) as -> by congruence. eexists. split; [done|]. left. split; [by left|done].
    + exists q. split; [|by left]. rewrite get_page_set_ne; [done|apply Hwf|done|by apply (HX b), Hsub|done].
  - intros a Ha. apply (only_page_of c); [done|done|]. intros E. apply Ha. rewrite E. by left.
Qed.

(** It is filled and put on the other list. *)
Lemma filling_push c R S l k t m m' w ps :
  filling (c :: R) S l k t m w ps → only_page c m m' →
  ∃ l' p t1 k' t2, PageList.pop l t = Returns (Ok (Some p, l'), t1) ∧ p = Page.mk c Size4k ∧
    PageList.push p k t1 = Returns (Ok k', t2) ∧ filling R (S ++ [c]) l' k' t2 m' w ps ∧ same_translation (table w) m m'.
Proof using PL HX Hinv Hg0 Hlen.
  intros Hf Hm. destruct (filling_pop c R S l k t m m' w ps Hf Hm) as (l' & p & Hpop & Hp' & Hs & Hc & H0 & Hl' & Hk' & Hni & HL).
  pose proof Hf as [HT Hl Hk Hnd Hsub Hw Hid Hn]. set (t1 := set_page c _ t) in *. rewrite elem_of_app in Hni.
  assert (Hperm : c :: R ++ S ≡ₚ R ++ S ++ [c]) by (by rewrite !app_assoc, Permutation_cons_append).
  destruct (push_rep t1 k S c (PageInfo.unlink p)) as (k' & t2 & Hpush & Hrep & _ & Hout & Hrel); [apply HL|done| |done|done|tauto|done|done|].
  { assert (length (c :: R ++ S) ≤ length X)%nat as Hle by by apply submseteq_length, NoDup_submseteq.
    cbn in Hle. rewrite length_app in Hle. lia. }
  assert (Hwf2 : tracker_wf t2) by (eapply push_wf; [apply HL|exact Hk'|done]).
  assert (Hin : ∀ x, x ∈ R ++ S ++ [c] ↔ x ∈ c :: R ++ S) by (intros x; by rewrite Hperm).
  assert (HL2 : locked_step (c :: R ++ S) (R ++ S ++ [c]) t m t2 m').
  { eapply locked_step_set; [done|]. eapply locked_step_relink; [exact HL|by intros x Hx; apply (HX x), Hsub|done| |done].
    intros x Hx Hnx. apply Hout; [done|]. intros HxS. apply Hnx. right. apply elem_of_app. by right. }
  destruct (receiver_locked (host_id s) gid X (tracker s) (ram s) _ _ t m t2 m' w ps HT Hsub HL2 Hw) as [Hw2 Htr].
  { rewrite Hid. intros E. by apply (host_ne_guest s hps gps i g0 Hinv Hg0). }
  exists l', (Page.mk c Size4k), t1, k', t2. split_and!; [done..| |done]. split; [|..|done|done|done].
  - by eapply transit_locked.
  - eapply list_rep_kept; [|done]. intros x Hx. apply Hout.
    + apply (HX x), Hsub. right. apply elem_of_app. by left.
    + intros HxS. change (NoDup (c :: R ++ S)) in Hnd.
      apply list.NoDup_cons in Hnd as [_ (_ & Hd & _)%list.NoDup_app]. by eapply Hd.
  - done.
  - by rewrite <-Hperm.
  - intros x Hx. by apply Hsub, Hin.
Qed.

(** Pages at the head of the locked ones are returned. *)
Lemma drop_some R S l t m w ps :
  transit (host_id s) gid X (R ++ S) (tracker s) (ram s) t m → list_rep t l R → (∀ c, c ∈ R ++ S → c ∈ X) → (∀ c, c ∈ R → c ∉ S) →
  vm_inv t m w ps → page_owner_id w = gid →
  ∃ t', VmRef.drop_locked l (here t m w) = Returns (Ok tt, here t' m w) ∧
    transit (host_id s) gid X S (tracker s) (ram s) t' m ∧ vm_inv t' m w ps ∧ ∀ k, list_rep t k S → list_rep t' k S.
Proof using PL HX Hinv Hg0.
  intros HT Hl Hsub Hd Hw Hid. pose proof (tr_wf _ _ _ _ _ _ _ _ HT) as Hwf.
  assert (HR : ∀ c, c ∈ R → c ∈ R ++ S) by (intros c Hc; apply elem_of_app; by left).
  assert (HS : ∀ c, c ∈ S → c ∈ R ++ S) by (intros c Hc; apply elem_of_app; by right).
  destruct (drop_locked_spec R (Z.to_nat (PageList.len l)) l t) as (t' & Hdrop & Hwf' & Hin & Hout);
    [apply Hwf|done|rewrite (lr_len _ _ _ Hl); lia| |].
  { intros c p Hc Hp. destruct (locked_page _ _ _ _ _ _ _ _ c HT (HR c Hc) (Hsub c (HR c Hc))) as (q & Hq & _ & _ & Hs). congruence. }
  assert (HL : locked_step (R ++ S) S t m t' m).
  { split; [by apply Hwf'|done| | |done].
    - intros c Hc Hn. apply Hout; [done|]. intros ?. by apply Hn, HR.
    - intros c p Hc Hp. destruct (decide (c ∈ R)) as [HcR|HcR]; [eexists; split; [by apply Hin|right; auto]|].
      exists p. rewrite Hout by (done || by apply (HX c), Hsub). apply elem_of_app in Hc as [?|Hc]; [done|]. auto. }
  exists t'. split_and!.
  - unfold VmRef.drop_locked. eapply unwrap_eq. unfold track. cbn [tracker at_]. by rewrite Hdrop.
  - by eapply transit_locked.
  - eapply (receiver_locked (host_id s) gid X (tracker s) (ram s)); [exact HT|done|exact HL|done|].
    rewrite Hid. intros E. by apply (host_ne_guest s hps gps i g0 Hinv Hg0).
  - intros k Hk. eapply list_rep_kept; [|done]. intros c Hc. apply Hout; [by apply (HX c), Hsub, HS|]. intros HcR. by apply (Hd c).
Qed.

(** The page that could not be filled and all others are returned. *)
Lemma filling_fail {A} c R S l k t m m' w ps (f : M (machine L) EcallError.t A) :
  filling (c :: R) S l k t m w ps → only_page c m m' →
  ∃ l' p t1 t2, PageList.pop l t = Returns (Ok (Some p, l'), t1) ∧ p = Page.mk c Size4k ∧
    (unwrap (track (PageTracker.unlock_page p));; VmRef.drop_locked l';; VmRef.drop_locked k;; f) (here t1 m' w) = f (here t2 m' w) ∧
    transit (host_id s) gid X [] (tracker s) (ram s) t2 m' ∧ vm_inv t2 m' w ps.
Proof using PL HX Hinv Hg0.
  intros Hf Hm. destruct (filling_pop c R S l k t m m' w ps Hf Hm) as (l' & p & Hpop & Hp' & Hs & Hc & H0 & Hl' & Hk' & Hni & HL).
  pose proof Hf as [HT Hl Hk Hnd Hsub Hw Hid Hn]. set (t1 := set_page c _ t) in *. pose proof (ls_wf _ _ _ _ _ _ HL) as Hwf1.
  set (q := PageInfo.set_state PageState.Converted (PageInfo.unlink p)). set (t2 := set_page c q t1).
  assert (Hun : PageTracker.unlock_page (Page.mk c Size4k) t1 = Returns (Ok tt, t2)).
  { unfold PageTracker.unlock_page. rewrite update_eq. cbn [Page.addr]. rewrite Hp'. unfold PageInfo.unlock. cbn. by rewrite Hs. }
  change (NoDup (c :: R ++ S)) in Hnd. apply list.NoDup_cons in Hnd as [_ Hnd].
  assert (HL2 : locked_step (c :: R ++ S) (R ++ S) t m t2 m').
  { destruct HL as [_ _ Lout Lpage Lmem]. split; [|by right| | |done].
    - eapply (run_op_wf (TUnlock (Page.mk c Size4k))); [exact Hwf1|by intros ? [= <-]|exact Hun].
    - intros b Hb Hnb. unfold t2. rewrite get_page_set_ne; [by apply Lout|apply Hwf1|done|done|]. intros ->. apply Hnb. by left.
    - intros b r Hb Hr. destruct (decide (b = c)) as [->|Hbc].
      + exists q. split; [eapply get_page_set_eq; [apply Hwf1|done..]|]. right. split; [done|].
        destruct (Lpage c r Hb Hr) as (r' & Hr' & [[_ E]|[E _]]); [|destruct E; by left].
        assert (r' = PageInfo.unlink p) as -> by congruence. unfold q. cbn in E. by rewrite <-E.
      + destruct (Lpage b r Hb Hr) as (r' & Hr' & Hcase). exists r'. unfold t2.
        rewrite get_page_set_ne; [|apply Hwf1|done|by apply (HX b), Hsub|done]. split; [done|].
        apply elem_of_cons in Hb as [?|Hb]; [done|]. left. split; [done|]. destruct Hcase as [[_ ?]|[Hn' _]]; [done|].
        destruct Hn'. by right. }
  destruct (receiver_locked (host_id s) gid X (tracker s) (ram s) _ _ t m t2 m' w ps HT Hsub HL2 Hw) as [Hw2 _].
  { rewrite Hid. intros E. by apply (host_ne_guest s hps gps i g0 Hinv Hg0). }
  pose proof (transit_locked (host_id s) gid X (tracker s) (ram s) HX _ _ t m t2 m' HT Hsub HL2) as HT2.
  rewrite elem_of_app in Hni. apply list.NoDup_app in Hnd as (_ & Hd & _).
  assert (Hl2 : list_rep t2 l' R) by (apply list_rep_set; [done|done|tauto|done]).
  assert (Hk2 : list_rep t2 k S) by (apply list_rep_set; [done|done|tauto|done]).
  destruct (drop_some R S l' t2 m' w ps) as (t3 & Hd3 & HT3 & Hw3 & Hk3); [done|done|by intros x ?; apply Hsub; right|done..|].
  destruct (drop_some S [] k t3 m' w ps) as (t4 & Hd4 & HT4 & Hw4 & _); [by rewrite app_nil_r|by apply Hk3| |by intros ? _ ?%elem_of_nil|done..|].
  { intros x. rewrite app_nil_r. intros ?. apply Hsub. right. apply elem_of_app. by right. }
  exists l', (Page.mk c Size4k), t1, t4. split_and!; [done..| |done|done].
  erewrite bind_ok by (eapply unwrap_eq; unfold track; cbn [tracker at_]; by rewrite Hun).
  erewrite bind_ok by exact Hd3. by erewrite bind_ok by exact Hd4.
Qed.

Lemma in_host_copy (copy : Z → Z → M mem VmPagesError.t unit) dest src t m w r m' :
  copy dest src m = Returns (r, m') → in_host (on_table (copy dest src)) (here t m w) = Returns (r, here t m' w).
Proof using Type. intros Hc. unfold in_host, on_table, at_. cbn [tracker ram host memory VmPages.pt vm]. by rewrite Hc. Qed.

Lemma unwrap_track {E E' A} (f : M PageTracker.t E A) t m w a t' :
  f t = Returns (Ok a, t') → unwrap (F := E') (track f) (here t m w) = Returns (Ok a, here t' m w).
Proof using Type. intros Hf. eapply unwrap_eq. unfold track. cbn [tracker at_]. by rewrite Hf. Qed.

(** All of the pages are filled, or all of them are returned. *)
Lemma initialize_loop copy w ps R : copy_ok copy → ∀ fuel S l k t m a,
  filling R S l k t m w ps → (length R < fuel)%nat → a mod 4096 = 0 → a + Z.of_nat (length R) * 4096 + 4096 ≤ U64 →
  ∃ r t' m', VmRef.initialize_pages copy fuel l k (PageAddrIter.mk (Some a) Size4k) (here t m w) = Returns (r, here t' m' w) ∧
    match r with
    | Ok k' => (∃ l', filling [] (S ++ R) l' k' t' m' w ps) ∧ same_translation (table w) m m'
    | Err _ => transit (host_id s) gid X [] (tracker s) (ram s) t' m' ∧ vm_inv t' m' w ps
    end.
Proof using PL HX Hinv Hg0 Hlen.
  intros Hcopy. induction R as [|c R IH]; intros fuel S l k t m a Hf Hfuel Hal Hb; (destruct fuel as [|fuel]; [cbn in Hfuel; lia|]);
    cbn [VmRef.initialize_pages].
  { pose proof (fi_list _ _ _ _ _ _ _ _ Hf) as Hl. exists (Ok k), t, m. split.
    - erewrite bind_ok by (apply unwrap_track; by apply pop_empty). cbv beta iota.
      erewrite bind_ok; [done|]. eapply unwrap_eq. unfold track. rewrite (lr_len _ _ _ Hl).
      change (Z.to_nat (Z.of_nat (length []))) with 0%nat. cbn [tracker at_ set_tracker LockedPageList.drop_].
      by erewrite bind_ok by by apply pop_empty.
    - rewrite app_nil_r. split; [by exists l|done]. }
  cbn [length] in *. destruct (Hcopy c a m) as (r & m1 & Hc & Hm). destruct r as [[]|e].
  - destruct (filling_push c R S l k t m m1 w ps Hf Hm) as (l' & p & t1 & k' & t2 & Hpop & -> & Hpush & Hf' & Htr).
    destruct (IH fuel (S ++ [c]) l' k' t2 m1 (a + 4096)) as (r & t' & m' & Hloop & Hr); [done|lia|mod_lia|lia|].
    exists r, t', m'. split.
    + rewrite <-Hloop. erewrite bind_ok by (apply unwrap_track; exact Hpop). cbv beta iota.
      rewrite iter_next by lia. unfold VmRef.case_result. cbn [Page.addr].
      rewrite (in_host_copy _ _ _ _ _ _ _ _ Hc).
      by erewrite bind_ok by (apply unwrap_track; exact Hpush).
    + destruct r as [k''|e]; [|done]. rewrite <-app_assoc in Hr. destruct Hr as [? Htr']. split; [done|]. intros va. by rewrite Htr', Htr.
  - destruct (filling_fail c R S l k t m m1 w ps (err (A := PageList.t) (EcallError.from e)) Hf Hm) as (l' & p & t1 & t2 & Hpop & -> & Hdrop & HT & Hw).
    exists (Err (EcallError.from e)), t2, m1. split; [|done].
    erewrite bind_ok by (apply unwrap_track; exact Hpop). cbv beta iota.
    rewrite iter_next by lia. unfold VmRef.case_result. cbn [Page.addr].
    rewrite (in_host_copy _ _ _ _ _ _ _ _ Hc).
    exact Hdrop.
Qed.

(** The source address is checked while the list and the mapper are alive. *)
Lemma source_address l t m w ps src ga n :
  destination s g0 X l ga n t m w ps → 0 ≤ ga → 0 ≤ n → ga + n * 4096 < U64 → n * 4096 ≤ 2 ^ abits L →
  ∃ r s', or_drop_pages l (VmRef.or_drop_mapper i (GuestStageMapper.mk ga n) (VmRef.guest_addr_from_raw src)) (here t m w) = Returns (r, s') ∧
    match r with Ok a => a = src ∧ src mod 4096 = 0 ∧ s' = here t m w | Err _ => inv s' end.
Proof using PL HX Hinv Hg0 Hps0.
  intros (Hu & Hgal & _) Hga Hn Hgb Hab. unfold VmRef.guest_addr_from_raw. destruct (ok_or (PageAddr.new src) _) as [x|e] eqn:Ex.
  { apply from_raw_Ok in Ex as [-> Hsrc]. by exists (Ok src), (here t m w). }
  destruct (drop_guest_mapper s i g0 Hg0 (under_way s g0 X X l) t m w ps ga n) as (m' & Hd & Hu'); [by eapply under_way_stable|done..|].
  destruct (call_drop s hps gps i g0 ps0 Hinv Hg0 Hps0 X X l
    (VmRef.or_drop_mapper (A := Z) i (GuestStageMapper.mk ga n) (lift (Err e))) e (here t m w) t m' w ps) as (s' & Hs' & Hi); [done| |done|].
  { unfold VmRef.or_drop_mapper. cbn [lift]. by erewrite bind_ok by exact Hd. }
  by exists (Err e), s'.
Qed.

(** The pages are filled, or they are returned and the mapper is dropped. *)
Lemma fill_pages copy l t m w ps src ga n :
  copy_ok copy → destination s g0 X l ga n t m w ps → Z.of_nat (length X) = n → 0 ≤ ga → ga + n * 4096 < U64 → n * 4096 ≤ 2 ^ abits L →
  src mod 4096 = 0 → src + n * 4096 + 4096 ≤ U64 →
  ∃ r s', VmRef.or_drop_mapper i (GuestStageMapper.mk ga n)
      (VmRef.initialize_pages copy (S (Z.to_nat (PageList.len l))) l PageList.new (PageAddrIter.mk (Some src) Size4k)) (here t m w) = Returns (r, s') ∧
    match r with
    | Ok k => ∃ t' m', s' = here t' m' w ∧ destination s g0 X k ga n t' m' w ps
    | Err _ => inv s'
    end.
Proof using PL HX Hinv Hg0 Hps0 Hlen.
  intros Hcopy (Hu & Hgal & Hnd & Hva) HXn Hga Hgb Hab Hsal Hsb. pose proof Hu as [HT Hl _ Hw Hid Hn].
  assert (Hf : filling X [] l PageList.new t m w ps).
  { split; rewrite ?app_nil_r; [done|done|apply list_rep_new|apply Hl|done|done|done|done]. }
  destruct (initialize_loop copy w ps X Hcopy (S (Z.to_nat (PageList.len l))) [] l PageList.new t m src Hf) as (r & t' & m' & Hrun & Hr);
    [rewrite (lr_len _ _ _ Hl); lia|done|lia|]. unfold VmRef.or_drop_mapper. rewrite Hrun. destruct r as [k|e].
  - destruct Hr as [(l' & [HT' _ Hk _ _ Hw' _ _]) Htr]. cbn [app] in HT', Hk. exists (Ok k), (here t' m' w). split; [done|].
    exists t', m'. split; [done|]. split; [by split|]. split_and!; [done..|]. intros va Hin. rewrite Htr. by apply Hva.
  - destruct Hr as [HT' Hw']. destruct (call_drop_mapper s hps gps i g0 ps0 Hinv Hg0 Hps0 t' m' w ps ga n) as (s' & Hd & Hi);
      [by eapply transit_calling|done|done|lia|done|done|]. exists (Err e), s'. split; [by erewrite bind_ok by exact Hd|done].
Qed.
End call.

Section safe.
Context `{PL : PagingLaws L}.

Lemma guest_add_measured_pages_safe (s : machine L) copy measure id src dest is_4k n ga :
  inv s → copy_ok copy → (∀ pa va, measure pa va = Ok tt) → page_range (L := L) src n → page_range (L := L) dest n → page_range (L := L) ga n →
  safe (VmRef.guest_add_measured_pages copy measure id src dest is_4k n ga) s.
Proof using PL.
  intros Hi Hcopy Hmeasure (_ & _ & Hsb & _) Hr (Hn & Hga & Hgb & Hab).
  unfold VmRef.guest_add_measured_pages. destruct is_4k; [|by apply safe_err]. cbn [negb].
  apply safe_guest_by_id; [done|]. intros i g Hg. eapply safe_with_state; [done|done|]. intros v Hv.
  assert (v = GuestVm.vm g) as -> by (unfold GuestVm.as_initializing_vm in Hv; case_match; congruence).
  apply safe_raw_addr; [done|]. intros Hal. eapply safe_host_take; [done..|].
  intros hps gps ps X l t Hm Hps HX Hlen Hu. unfold VmPagesRef.map_measured_pages.
  assert (HlenX : Z.of_nat (length X) + 1 < U64) by lia.
  destruct (lock_destination s hps gps i g ps Hm Hg Hps X l t (ram s) (GuestVm.vm g) ps ga n VmRegionType.Confidential)
    as (r & s1 & Hf & Hd); [done..|lia|done|].
  destruct r as [x|e]; [|exists (Err e), s1; split; [by erewrite bind_err by exact Hf|done]].
  destruct Hd as (-> & t1 & m1 & w & ps1 & -> & Hd). erewrite bind_ok by exact Hf. cbv beta iota.
  destruct (source_address s hps gps i g ps Hm Hg Hps X HX l t1 m1 w ps1 src ga n Hd) as (r & s1 & Hsrc & Hp); [done|done|lia|done|].
  destruct r as [x|e]; [|exists (Err e), s1; split; [by erewrite bind_err by exact Hsrc|done]].
  destruct Hp as (-> & Hsal & ->). erewrite bind_ok by exact Hsrc.
  erewrite bind_ok by (unfold of_outcome, PageAddrIter.new; by rewrite (proj2 (with_alignment_Some src Size4k src))).
  destruct (fill_pages s hps gps i g ps Hm Hg Hps X HX HlenX copy l t1 m1 w ps1 src ga n) as (r & s1 & Hfill & Hp); [done..|lia|done|done|done|].
  destruct r as [k|e]; [|exists (Err e), s1; split; [by erewrite bind_err by exact Hfill|done]].
  destruct Hp as (t2 & m2 & -> & Hu2 & Hgal & Hnd & Hva). erewrite bind_ok by exact Hfill.
  destruct (give_loop s hps gps i g Hm Hg X HX (GuestStageMapper.mk ga n) (λ page addr,
      page ← unwrap (track (PageTracker.assign_page_for_mapping page (page_owner_id (GuestVm.vm g))));
      unwrap (lift (measure (Page.addr page) addr));;
      unwrap (in_guest i (VmPagesMapper.do_map_page (GuestStageMapper.mk ga n) addr page))) w ps1 X) with (fuel := S (Z.to_nat (PageList.len k))) (l := k) (t := t2) (m := m2) (a := ga)
    as (t3 & m3 & l3 & Hloop & Hu3); [|done|rewrite (lr_len _ _ _ (uw_list _ _ _ _ _ _ _ _ _ Hu2)); lia|done|lia|done|done|].
  { intros c va t' m' w'. exists m'. split; [apply only_page_refl|]. unfold VmRef.assign_and_map, mbind, M_bind.
    destruct (unwrap _ _) as [[[page|e] s']|]; [|done|done]. cbn. by rewrite Hmeasure. }
  destruct Hu3 as [HT _ _ Hw' Hid Hn'].
  destruct (call_drop_mapper s hps gps i g ps Hm Hg Hps t3 m3 w ps1 ga n) as (s' & Hdm & Hi'); [by eapply transit_calling|done..|lia|done|].
  exists (Ok n), s'. split; [|done].
  erewrite bind_ok; [by erewrite bind_ok by exact Hdm|]. unfold VmRef.zip_each_locked.
  erewrite bind_ok; [exact Hloop|]. unfold of_outcome, PageAddrIter.new. by rewrite (proj2 (with_alignment_Some ga Size4k ga)).
Qed.
End safe.
