(* ===== verification/VcpuCallFacts.v ===== *)
(** * Pages for the state of a guest

    Converted pages of the host that hold state of a guest outside of its page tables,
    such as the pages of a vCPU: they are cleaned, assigned to the guest one by one, and
    put together to a sequence.  The call that adds a vCPU keeps the invariant of all
    VMs; if the vCPU can not be added, the host gets the pages back. *)
From S2P Require Import Prelude Intervals RiscvPages PageInfoModel PageMapModel Tracker TrackerFacts PageListFacts Pte PteFacts PageTableModel PageTableFacts PageTableOps GuestTableFacts TlbModel TlbTrackerFacts VmRegions VmRegionsFacts VmPages VmPagesFacts VmInvariant VmCalls GuestCallFacts.
Import PageSize(Size4k).
Import VmPages(page_owner_id, tlb_tracker, regions, nesting, root, pte_pages).

Section place.
Context `{PL : PagingLaws L}.
Implicit Types (v w : VmPages.t L) (s : machine L).
Variables (h g : PageOwnerId.t) (X : list Z) (t0 : PageTracker.t) (m0 : mem).
Hypothesis Hhg : h ≠ g.
Hypothesis HX : ∀ c, c ∈ X → takeable h t0 c.
Hypothesis Hlen : Z.of_nat (length X) + 1 < U64.

(** A page of [h] that is locked. *)
Definition locked_info (p : PageInfo.t) : Prop :=
  PageInfo.owner p = Some h ∧ (length (PageInfo.owners p) < 2)%nat ∧ PageInfo.state p = PageState.ConvertedLocked.
(** A page that was assigned to [g]. *)
Definition assigned_info (p : PageInfo.t) : Prop := ∃ q, PageInfo.unlink p = given PageState.VmState g q ∧ locked_info q ∧ PageInfo.link_ q = None.

(** Nothing but the pages [X] has changed. *)
Record only_pages (t : PageTracker.t) (m : mem) : Prop := {
  op_wf : tracker_wf t;
  op_out c : phys c → c ∉ X → get_page t c = get_page t0 c;
  op_mem a : page_of a ∉ X → read_pte m a = read_pte m0 a
}.
(** The pages [S] are assigned and the pages [R] are not yet. *)
Record placing (S R : list Z) (l k : PageList.t) t m : Prop := {
  pl_only : only_pages t m;
  pl_list : list_rep t l R;
  pl_done : list_rep t k S;
  pl_all : X = S ++ R;
  pl_locked c : c ∈ R → ∃ p, get_page t c = Some p ∧ locked_info p;
  pl_assigned c : c ∈ S → ∃ p, get_page t c = Some p ∧ assigned_info p
}.

(** Every page is the guest's, or the host has it back. *)
Definition placed t m : Prop := only_pages t m ∧ ∀ c, c ∈ X → ∃ p, get_page t c = Some p ∧
  (PageInfo.owner p = Some g ∨
   PageInfo.owner p = Some h ∧ (length (PageInfo.owners p) < 2)%nat ∧ PageInfo.state p = PageState.Converted ∧ PageInfo.link_ p = None).

Lemma only_pages_set t m c p m' :
  only_pages t m → c ∈ X → tracker_wf (set_page c p t) → only_page c m m' → only_pages (set_page c p t) m'.
Proof using HX.
  intros [Hwf Hout Hmem] Hc Hwf' Hm. destruct (HX c Hc) as (Hph & _). split; [done|..].
  - intros b Hb Hn. rewrite get_page_set_ne; [by apply Hout|apply Hwf|done|done|by intros ->].
  - intros a Ha. rewrite Hm; [by apply Hmem|]. intros Hin. destruct (page_of_in c a Hph Hin) as [E _]. congruence.
Qed.

Lemma placed_transit t m : placed t m → transit h g X [] t0 m0 t m.
Proof using Type.
  intros [[Hwf Hout Hmem] Hp]. split; [done|..].
  - intros c Hc Hn. by rewrite Hout.
  - intros c p Hc Hn Hpg _. by rewrite Hout.
  - intros c Hc. destruct (Hp c Hc) as (p & Hpg & Hcase). exists p. split; [done|]. pose proof (not_elem_of_nil c). tauto.
  - intros a _ Ha. by apply Hmem.
Qed.
(** A guest does not refer to the pages. *)
Lemma placed_vm t m w ps : placed t m → vm_inv t0 m0 w ps → 1 ≤ nesting w → page_owner_id w ≠ h → vm_inv t m w ps.
Proof using PL Hhg HX.
  intros [[Hwf Hout Hmem] Hp] Hw Hn Ho. pose proof (not_taken h X t0 HX) as Hnot.
  eapply vm_inv_undisturbed; [done| |].
  - split; [done|..].
    + intros a p' Ha (va & Hf) Hp' Ho'. destruct (leaf_accessible _ _ _ _ _ _ Hw Hf) as [_ [(q & Hq & Hacc)|?]]; [|lia].
      rewrite Hout in Hp' by (done || by eapply Hnot; [done|tauto]). eauto.
    + intros a p Ha Hpg Hop Hs. rewrite Hout; [done..|]. by eapply Hnot; eauto.
    + intros a Ha (p & Hpg & Hacc). exists p. rewrite Hout; [done..|]. eapply Hnot; [done|tauto].
  - intros a (_ & p & Hpg & Hop & Hs). apply Hmem. eapply Hnot; eauto.
Qed.

(** *** Assigning the pages *)
Lemma assigned_relinked p p' : PageInfo.unlink p' = PageInfo.unlink p → assigned_info p → assigned_info p'.
Proof using Type. intros E (q & Hq & ?). exists q. by rewrite E. Qed.

Lemma placing_disjoint S R l k t m c : placing S R l k t m → c ∈ R → c ∉ S.
Proof using Type.
  intros Hpl Hc Hin. destruct (pl_assigned _ _ _ _ _ _ Hpl c Hin) as (p & Hp & r & E & _).
  destruct (pl_locked _ _ _ _ _ _ Hpl c Hc) as (z & Hz & _ & _ & Hs). assert (z = p) as -> by congruence.
  destruct p, r; cbn in *. injection E as _ E _. by rewrite Hs in E.
Qed.
Lemma placing_step S c R l k t m :
  placing S (c :: R) l k t m →
  ∃ l' t1 t2 k' t3, let page := Page.mk c Size4k in
    PageList.pop l t = Returns (Ok (Some page, l'), t1) ∧
    PageTracker.assign_page_for_internal_state page g t1 = Returns (Ok page, t2) ∧
    PageList.push page k t2 = Returns (Ok k', t3) ∧ placing (S ++ [c]) R l' k' t3 (clean c m).
Proof using Hhg HX Hlen.
  intros Hpl. pose proof Hpl as [Ho Hl Hk HXe HR HS]. pose proof (op_wf _ _ Ho) as Hwf.
  assert (Hin : ∀ x, x ∈ c :: R ∨ x ∈ S → x ∈ X) by (intros x; rewrite HXe, elem_of_app; tauto).
  destruct (HX c ltac:(apply Hin; left; by left)) as (Hc & H0 & _).
  assert (c ∈ X) as HcX by (apply Hin; left; by left).
  pose proof (lr_nodup _ _ _ Hl) as [HcR _]%list.NoDup_cons.
  destruct (pop_rep t l c R) as (l' & p & Hp & Hpop & Hl'); [apply Hwf|done|]. set (t1 := set_page c _ t) in *.
  destruct (HR c ltac:(by left)) as (p0 & Hp0 & Hlk). assert (p0 = p) as -> by congruence. pose proof Hlk as (Hop & Hch & Hs).
  assert (Hwf1 : tracker_wf t1) by by apply unlink_page_wf.
  assert (HcS : c ∉ S) by (apply (placing_disjoint _ _ _ _ _ _ _ Hpl); by left).
  assert (Hav : available t1 g c (PageInfo.unlink p)).
  { split; [done|eapply get_page_set_eq; [apply Hwf|done..]| |done..]. change (PageInfo.owner p ≠ Some g). congruence. }
  set (q := given PageState.VmState g (PageInfo.unlink p)). set (t2 := set_page c q t1).
  assert (Hwf2 : tracker_wf t2) by (apply given_wf; [done|done|by right]).
  assert (Hq : get_page t2 c = Some q) by (eapply get_page_set_eq; [apply Hwf1|done|apply Hav]).
  assert (Hne : ∀ b, phys b → b ≠ c → get_page t2 b = get_page t b).
  { intros b Hb Hbc. unfold t2, t1. rewrite !get_page_set_ne; try done; [apply Hwf|apply Hwf1]. }
  assert (Hk2 : list_rep t2 k S) by (apply list_rep_set; [done|done|done|]; by apply list_rep_set).
  destruct (push_rep t2 k S c q) as (k' & t3 & Hpush & Hk3 & _ & Hout & Hrel); [apply Hwf2|done| |done..|].
  { rewrite HXe, length_app in Hlen. cbn in Hlen. lia. }
  assert (Hwf3 : tracker_wf t3) by by eapply push_wf.
  exists l', t1, t2, k', t3. cbv zeta. split_and!; [done| |done|].
  { unfold PageTracker.assign_page_for_internal_state. cbn [Page.addr]. by rewrite (assign_available _ _ _ _ _ Hav ltac:(by right)). }
  assert (HSX : ∀ x, x ∈ S → x ∈ X) by (intros; apply Hin; by right).
  assert (HnS : ∀ x, x ∈ R → x ∉ S) by (intros x Hx; apply (placing_disjoint _ _ _ _ _ _ _ Hpl); by right).
  assert (Hph : ∀ x, x ∈ X → phys x) by (intros x Hx; by apply (HX x Hx)).
  split; [|..|by rewrite HXe, <-app_assoc| |].
  - split; [done|..].
    + intros b Hb Hn. rewrite Hout, Hne by (done || (intros ?; by auto) || by intros ->). by apply Ho.
    + intros a Ha. rewrite read_clean, decide_False; [by apply Ho|]. intros Hc'. destruct (page_of_in c a Hc Hc') as [E _]. congruence.
  - eapply list_rep_kept; [|apply (list_rep_set t1 l' R c q); done]. intros x Hx. apply Hout; [|by apply HnS].
    apply Hph, Hin. left. by right.
  - done.
  - intros x Hx. destruct (HR x ltac:(by right)) as (y & Hy & Hyl). exists y. split; [|done].
    rewrite Hout, Hne; [done|..]; try (by apply HnS); try (apply Hph, Hin; left; by right). by intros ->.
  - intros x [Hx|<-%list_elem_of_singleton]%elem_of_app; cycle 1.
    + exists q. rewrite Hout by done. split; [done|]. by exists (PageInfo.unlink p).
    + destruct (HS x Hx) as (y & Hy & Hya). pose proof (Hrel x (Hph x (HSX x Hx))) as E. rewrite Hne, Hy in E; [|by apply Hph, HSX|by intros ->].
      destruct (get_page t3 x) as [z|]; [|done]. exists z. split; [done|]. eapply assigned_relinked; [|done]. cbn in E. congruence.
Qed.

(** The machine [s] with other pages. *)
Definition with_ s t m : machine L := Machine t m (host s) (guests s) (guests_capacity s).
Lemma track_with {E F A} (f : M PageTracker.t E A) s t m a t' :
  f t = Returns (Ok a, t') → unwrap (F := F) (track f) (with_ s t m) = Returns (Ok a, with_ s t' m).
Proof using Type. intros Hf. eapply unwrap_eq. unfold track. cbn [tracker with_]. by rewrite Hf. Qed.

Lemma assign_loop s R : ∀ fuel S l k t m,
  placing S R l k t m → (length R < fuel)%nat →
  ∃ l' k' t' m', VmRef.assign_locked fuel l k g (with_ s t m) = Returns (Ok k', with_ s t' m') ∧ placing X [] l' k' t' m'.
Proof using Hhg HX Hlen.
  induction R as [|c R IH]; intros fuel S l k t m Hpl Hf; (destruct fuel as [|fuel]; [cbn in Hf; lia|]); cbn [VmRef.assign_locked].
  { exists l, k, t, m. split.
    - by erewrite bind_ok by (apply track_with, pop_empty, Hpl).
    - pose proof (pl_all _ _ _ _ _ _ Hpl) as E. rewrite app_nil_r in E. by subst S. }
  destruct (placing_step S c R l k t m Hpl) as (l1 & t1 & t2 & k1 & t3 & Hpop & Has & Hpush & Hpl').
  destruct (IH fuel (S ++ [c]) l1 k1 t3 (clean c m) Hpl') as (l' & k' & t' & m' & Hloop & Hend); [cbn in Hf; lia|].
  exists l', k', t', m'. split; [|done]. rewrite <-Hloop.
  erewrite bind_ok by (apply track_with; exact Hpop). cbv beta iota.
  erewrite bind_ok by done. cbn [Page.addr]. change (set_ram (clean c (ram (with_ s t1 m))) (with_ s t1 m)) with (with_ s t1 (clean c m)).
  erewrite bind_ok by (apply track_with; exact Has). by erewrite bind_ok by (apply track_with; exact Hpush).
Qed.

(** Taking a list apart. *)
Lemma list_pages_run s m xs : ∀ fuel l t,
  tracker_wf t → list_rep t l xs → (length xs < fuel)%nat →
  ∃ t', VmRef.list_pages fuel l (with_ s t m) = Returns (Ok ((λ c, Page.mk c Size4k) <$> xs), with_ s t' m) ∧ tracker_wf t' ∧
    (∀ c, phys c → c ∉ xs → get_page t' c = get_page t c) ∧ ∀ c p, c ∈ xs → get_page t c = Some p → get_page t' c = Some (PageInfo.unlink p).
Proof using Type.
  clear Hlen HX X. induction xs as [|c xs IH]; intros fuel l t Hwf Hl Hf; (destruct fuel as [|fuel]; [cbn in Hf; lia|]); cbn [VmRef.list_pages].
  { exists t. split_and!; [by erewrite bind_ok by (by apply track_with, pop_empty)|done|done|by intros c p ?%elem_of_nil]. }
  pose proof (lr_phys _ _ _ Hl) as [[Hc _] Hph]%list.Forall_cons. pose proof (lr_nodup _ _ _ Hl) as [Hn _]%list.NoDup_cons.
  destruct (pop_rep t l c xs) as (l' & p & Hp & Hpop & Hl'); [apply Hwf|done|]. set (t1 := set_page c _ t) in *.
  assert (Hwf1 : tracker_wf t1) by by apply unlink_page_wf. assert (Hp1 : get_page t1 c = Some (PageInfo.unlink p)) by (eapply get_page_set_eq; [apply Hwf|done..]).
  destruct (IH fuel l' t1 Hwf1 Hl') as (t' & Hrun & Hwf' & Hout & Hin); [cbn in Hf; lia|]. exists t'. split_and!; [|done|..].
  - erewrite bind_ok by (apply track_with; exact Hpop). cbv beta iota. by erewrite bind_ok by exact Hrun.
  - intros b Hb Hnb. apply not_elem_of_cons in Hnb as [Hbc Hnb]. rewrite Hout by done. apply get_page_set_ne; [apply Hwf|done..].
  - intros b q [->|Hb]%elem_of_cons Hq.
    + rewrite Hout by done. rewrite Hp1. congruence.
    + assert (b ≠ c) as Hbc by by intros ->. apply Hin; [done|]. rewrite list.Forall_forall in Hph.
      unfold t1. rewrite get_page_set_ne; [done|apply Hwf|done|by apply Hph|done].
Qed.

(** The pages as a sequence. *)
Lemma sequence_end a : X ≠ [] → X = page_seq a Size4k (length X) → a + Z.of_nat (length X) * 4096 < 2 ^ 56 + 4096.
Proof using HX.
  clear Hlen. intros Hne Hseq. assert (last_of X = Some (a + Z.of_nat (length X - 1) * 4096)) as Hlast.
  { unfold last_of. trans (page_seq a Size4k (length X) !! (length X - 1)%nat); [by rewrite <-Hseq|].
    rewrite lookup_page_seq; [done|]. destruct X; [done|cbn; lia]. }
  apply last_of_elem in Hlast. destruct (HX _ Hlast) as ([? ?] & _). destruct X; [done|cbn [length] in *; lia].
Qed.
Definition owned_pages t m : Prop := only_pages t m ∧ ∀ c, c ∈ X → ∃ p, get_page t c = Some p ∧ assigned_info p ∧ PageInfo.link_ p = None.
Lemma assign_sequential_run s l t m a :
  placing [] X l PageList.new t m → X ≠ [] → X = page_seq a Size4k (length X) →
  ∃ t' m', VmRef.assign_sequential l g (with_ s t m) = Returns (Ok (SequentialPages.mk a Size4k (Z.of_nat (length X))), with_ s t' m') ∧ owned_pages t' m'.
Proof using Hhg HX Hlen.
  intros Hpl Hne Hseq. destruct (assign_loop s X (S (Z.to_nat (PageList.len l))) [] l PageList.new t m Hpl) as (l1 & k & t1 & m1 & Hrun & Hpl1).
  { rewrite (lr_len _ _ _ (pl_list _ _ _ _ _ _ Hpl)). lia. }
  destruct Hpl1 as [Ho _ Hk _ _ HS].
  destruct (list_pages_run s m1 X (S (Z.to_nat (PageList.len k))) k t1) as (t2 & Hlist & Hwf2 & Hout & Hin);
    [apply Ho|done|rewrite (lr_len _ _ _ Hk); lia|].
  exists t2, m1. split.
  - unfold VmRef.assign_sequential, VmRef.assign_pages. erewrite bind_ok by exact Hrun. erewrite bind_ok by exact Hlist.
    assert (SequentialPages.from_pages ((λ c, Page.mk c Size4k) <$> X) = Ok (SequentialPages.mk a Size4k (Z.of_nat (length X)))) as E; [|by rewrite E].
    apply from_pages_contiguous.
    { apply Forall_fmap, list.Forall_forall. intros c Hc. destruct (HX c Hc) as ([? ?] & _). cbn. split; [|done]. unfold u64. change (2^56) with 72057594037927936 in *. lia. }
    cbn. rewrite length_fmap. split_and!; [by destruct X|unfold page_run; by rewrite <-Hseq|done|].
    pose proof (sequence_end a Hne Hseq). change (2 ^ 56) with 72057594037927936 in *. lia.
  - split; [split; [done|..|apply Ho]|].
    + intros c Hc Hn. rewrite Hout by done. by apply Ho.
    + intros c Hc. destruct (HS c Hc) as (p & Hp & Ha). exists (PageInfo.unlink p). split_and!; [by apply Hin|by eapply assigned_relinked|done].
Qed.

Lemma owned_placed t m : owned_pages t m → placed t m.
Proof using Type.
  intros [Ho Hp]. split; [done|]. intros c Hc. destruct (Hp c Hc) as (p & Hpg & (q & E & _) & _). exists p. split; [done|]. left.
  change (PageInfo.owner (PageInfo.unlink p) = Some g). rewrite E. apply owner_given. by right.
Qed.

(** *** Returning the pages *)
Definition returned_info (p : PageInfo.t) : Prop :=
  PageInfo.owner p = Some h ∧ (length (PageInfo.owners p) < 2)%nat ∧ PageInfo.state p = PageState.Converted ∧ PageInfo.link_ p = None.
Lemma release_assigned p : assigned_info p → PageInfo.link_ p = None → ∃ p', PageInfo.release p = Ok p' ∧ returned_info p'.
Proof using Type.
  intros (q & E & (Ho & Hl & Hs) & Hq) Hlk. assert (p = given PageState.VmState g q) as -> by (rewrite <-E; destruct p; cbn in Hlk; by rewrite Hlk).
  destruct q as [mt st os lk]. cbn in *. subst st lk. unfold PageInfo.release. cbn.
  destruct (os ++ [g]) as [|x xs] eqn:Hos; [by destruct os|]. rewrite <-Hos. eexists. split; [done|]. unfold returned_info. cbn.
  assert (PageInfo.pop (os ++ [g]) = os) as -> by (unfold PageInfo.pop; rewrite length_app, Nat.add_sub; by apply take_app_length).
  done.
Qed.

Lemma release_run s m xs : ∀ t,
  only_pages t m → NoDup xs → (∀ c, c ∈ xs → c ∈ X) →
  (∀ c, c ∈ xs → ∃ p, get_page t c = Some p ∧ assigned_info p ∧ PageInfo.link_ p = None) →
  (∀ c, c ∈ X → c ∉ xs → ∃ p, get_page t c = Some p ∧ returned_info p) →
  ∃ t', for_each ((λ c, Page.mk c Size4k) <$> xs) (λ p, unwrap (track (PageTracker.release_page p))) (with_ s t m)
    = Returns (Ok tt : result EcallError.t unit, with_ s t' m) ∧ placed t' m.
Proof using HX.
  induction xs as [|c xs IH]; intros t Ho Hnd Hsub Ha Hr.
  { exists t. split; [done|]. split; [done|]. intros c Hc. destruct (Hr c Hc (not_elem_of_nil c)) as (p & Hp & Hi). exists p. split; [done|]. by right. }
  apply list.NoDup_cons in Hnd as [Hn Hnd]. destruct (Ha c ltac:(by left)) as (p & Hp & Hai & Hlk).
  destruct (release_assigned p Hai Hlk) as (p' & Hrel & Hret). destruct (HX c (Hsub c ltac:(by left))) as (Hc & _).
  pose proof (op_wf _ _ Ho) as Hwf. set (t1 := set_page c p' t).
  assert (Hrun : PageTracker.release_page (Page.mk c Size4k) t = Returns (Ok tt, t1)).
  { unfold PageTracker.release_page. rewrite update_unwrap_eq. cbn [Page.addr]. by rewrite Hp, Hrel. }
  assert (Hwf1 : tracker_wf t1) by (eapply (run_op_wf (TRelease (Page.mk c Size4k))); [exact Hwf|by intros ? [= <-]|exact Hrun]).
  assert (Hne : ∀ b, b ∈ X → b ≠ c → get_page t1 b = get_page t b).
  { intros b Hb Hbc. apply get_page_set_ne; [apply Hwf|done|by apply (HX b Hb)|done]. }
  destruct (IH t1) as (t' & Hloop & Hpl).
  - apply (only_pages_set t m c p' m Ho); [by apply Hsub; left|done|apply only_page_refl].
  - done.
  - intros b Hb. apply Hsub. by right.
  - intros b Hb. rewrite Hne; [apply Ha; by right|apply Hsub; by right|by intros ->].
  - intros b Hb Hnb. destruct (decide (b = c)) as [->|Hbc].
    + exists p'. split; [eapply get_page_set_eq; [apply Hwf|done..]|done].
    + rewrite Hne by done. apply Hr; [done|]. by apply not_elem_of_cons.
  - exists t'. split; [|done]. rewrite fmap_cons. cbn [for_each]. by erewrite bind_ok by (apply track_with; exact Hrun).
Qed.
End place.

Section call.
Context `{PL : PagingLaws L}.
Implicit Types s : machine L.

(** The pages of a vCPU do not matter to the invariant. *)
Lemma inv_set_vcpus s i g slots : inv s → guests s !! i = Some g → inv (set_guests (<[i := GuestVm.set_vcpus slots g]> (guests s)) s).
Proof using Type.
  intros (hps & gps & [Hh Hn Hch Hgs Hids Hz]) Hg. exists hps, gps. split; cbn [tracker ram host guests set_guests]; [done..| | |done].
  - pose proof Hgs as Hlen. apply Forall2_length in Hlen. apply Forall2_same_length_lookup_2; [by rewrite length_insert|].
    intros j g' ps Hg' Hps. destruct (decide (i = j)) as [<-|Hij].
    + rewrite list_lookup_insert_eq in Hg' by (by eapply lookup_lt_Some). injection Hg' as <-. exact (Forall2_lookup_lr _ _ _ _ _ _ Hgs Hg Hps).
    + rewrite list_lookup_insert_ne in Hg' by done. exact (Forall2_lookup_lr _ _ _ _ _ _ Hgs Hg' Hps).
  - change (NoDup (host_id s :: (GuestVm.page_owner_id <$> <[i:=GuestVm.set_vcpus slots g]> (guests s)))). rewrite list_fmap_insert.
    rewrite list_insert_id; [done|]. by rewrite list_lookup_fmap, Hg.
Qed.

Lemma placed_inv s hps gps i g X t m :
  machine_inv s hps gps → guests s !! i = Some g → (∀ c, c ∈ X → takeable (host_id s) (tracker s) c) →
  placed (host_id s) (GuestVm.page_owner_id g) X (tracker s) (ram s) t m → inv (with_ s t m).
Proof using PL.
  intros Hi Hg HX Hpl. destruct (guest_has_pool s hps gps i g Hi Hg) as [ps Hps]. pose proof (guest_inv s hps gps i g ps Hi Hg Hps) as [Hw Hn].
  assert (with_ s t m = at_ s i g t m (GuestVm.vm g)) as ->.
  { unfold with_, at_. f_equal. rewrite list_insert_id; [done|]. rewrite Hg. by destruct g. }
  pose proof (host_ne_guest s hps gps i g Hi Hg) as Hne. eapply (calling_inv s hps gps i g ps); [done..|].
  eapply transit_calling; [done|done|exact HX|by apply placed_transit| |done|done].
  eapply placed_vm; [exact Hne|done|exact Hpl|done|done|]. by intros E; apply Hne.
Qed.

(** The pages that the host has locked are ready to be assigned. *)
Lemma locked_placing h g X t0 m l t :
  (∀ c, c ∈ X → takeable h t0 c) → list_rep t l X → locked_all t0 t X → tracker_wf t → (∀ c, phys c → c ∉ X → get_page t c = get_page t0 c) →
  placing h g X t0 m [] X l PageList.new t m.
Proof using Type.
  intros HX Hl Hlk Hwf Hoth. split; [by split|done|apply list_rep_new|done| |by intros c ?%elem_of_nil].
  intros c Hc. destruct (HX c Hc) as (Hph & _ & p & Hp & Ho & _ & Hch & Hst).
  specialize (Hlk c Hph). rewrite decide_True, Hp in Hlk by done. destruct (get_page t c) as [q|]; [|done]. exists q. split; [done|].
  destruct p as [mt st os lk], q as [mt' st' os' lk']. cbn in *. injection Hlk as -> -> ->. split_and!; [|done|done].
  by destruct Hst as [-> | [x ->]].
Qed.

Lemma guest_add_vcpu_safe s required_pages id vcpu_id a :
  inv s → 0 < required_pages → page_range (L := L) a required_pages → safe (VmRef.guest_add_vcpu required_pages id vcpu_id a) s.
Proof using PL.
  intros Hi Hreq Hr. unfold VmRef.guest_add_vcpu. apply safe_guest_by_id; [done|]. intros i g Hg.
  eapply safe_with_state; [done|done|]. intros v Hv. assert (v = GuestVm.vm g) as -> by (unfold GuestVm.as_initializing_vm in Hv; case_match; congruence).
  apply safe_raw_addr; [done|]. intros Hal. destruct Hi as (hps & gps & Hi), Hr as (Hn & Ha & Hb & Hab).
  destruct (host_take s hps gps a required_pages Hi Hn Ha Hal Hb Hab) as (r & t & Hrun & Hp). destruct r as [l|e]; cycle 1.
  { subst t. exists (Err e), s. split; [|by exists hps, gps]. erewrite bind_err by exact Hrun. by destruct s. }
  destruct Hp as (X & Hl & HX & Hlen & Hlk & Hwf & Hoth). pose proof (host_ne_guest s hps gps i g Hi Hg) as Hne.
  destruct (guest_has_pool s hps gps i g Hi Hg) as [ps Hps].
  pose proof (call_start s hps gps i g ps Hi Hg Hps X l t HX Hl Hlk Hwf Hoth) as Hu.
  unfold safe. erewrite bind_ok by exact Hrun. pose proof (page_list_is_contiguous t l X (tw_map _ Hwf) Hl) as Hcont.
  destruct (PageList.is_contiguous t l) eqn:Hc; cycle 1.
  { destruct (call_drop (A := unit) s hps gps i g ps Hi Hg Hps X X l
      (s ← get; if negb (PageList.is_contiguous (tracker s) l) then err (EcallError.Sbi SbiError.InvalidAddress) else mret tt)
      (EcallError.Sbi SbiError.InvalidAddress) (set_tracker t s) t (ram s) (GuestVm.vm g) ps HX) as (s' & Hd & Hi'); [|exact Hu|].
    - erewrite bind_ok by done. cbn [tracker set_tracker]. rewrite Hc. by rewrite (at_start s i g Hg).
    - exists (Err (EcallError.Sbi SbiError.InvalidAddress)), s'. split; [by erewrite bind_err by exact Hd|done]. }
  erewrite bind_ok; cycle 1.
  { unfold or_drop_pages. erewrite bind_ok by done. cbn [tracker set_tracker]. rewrite Hc. done. }
  assert (HXne : X ≠ []) by (intros ->; cbn in Hlen; lia). destruct X as [|x X'] eqn:EX; [done|]. rewrite <-EX in *. apply proj1 in Hcont. specialize (Hcont eq_refl).
  assert (HlenX : Z.of_nat (length X) + 1 < U64) by lia.
  destruct (assign_sequential_run (host_id s) (GuestVm.page_owner_id g) X (tracker s) (ram s) Hne HX HlenX s l t (ram s) x) as (t' & m' & Hassign & Hown);
    [by apply locked_placing|done|done|].
  erewrite bind_ok by exact Hassign. erewrite bind_ok by done. cbn [guests with_]. rewrite Hg. erewrite bind_ok by done.
  destruct (VmCpus.add_vcpu _ _ _) as [slots|e].
  - do 2 eexists. split; [by erewrite bind_ok by done|]. apply (inv_set_vcpus (with_ s t' m')); [|done].
    eapply placed_inv; [done..|by apply owned_placed].
  - destruct Hown as [Ho Hp]. destruct (release_run (host_id s) (GuestVm.page_owner_id g) X (tracker s) (ram s) HX s m' X t' Ho) as (t2 & Hrel & Hpl);
      [apply Hl|done|done|done|].
    do 2 eexists. split; [|by eapply placed_inv]. erewrite bind_ok; [done|]. unfold VmRef.release_all.
    erewrite bind_ok; [exact Hrel|]. unfold of_outcome. destruct (HX x) as ([Hx Hxa] & _); [rewrite EX; by left|].
    pose proof (sequence_end (host_id s) X (tracker s) HX x HXne Hcont) as Hend. change (2 ^ 56) with 72057594037927936 in *.
    rewrite into_iter_run; [|lia|done|cbn; lia]. unfold page_run. by rewrite <-Hcont.
Qed.
End call.
