(* ===== verification/Isolation.v ===== *)
(** * Isolation of VMs

    The machine of [VmCalls]: the host's calls on guests and the writes of VMs to
    the memory they have mapped preserve the invariant of every VM, so a page of a VM that
    is not shared is mapped by no other VM, and no VM can change a page table. *)
From S2P Require Import Prelude Intervals RiscvPages PageInfoModel PageMapModel Tracker TrackerFacts PageListFacts Pte PteFacts PageTableModel PageTableFacts PageTableOps GuestTableFacts TlbModel TlbTrackerFacts VmRegions VmRegionsFacts VmPages VmPagesFacts VmInvariant VmCalls GuestCallFacts MeasuredCallFacts VcpuCallFacts.
Import PageSize(Size4k).
Import VmPages(page_owner_id, tlb_tracker, regions, nesting, root, pte_pages).

Section machine.
Context `{PL : PagingLaws L}.
Implicit Types (v w : VmPages.t L) (s : machine L) (g : GuestVm.t L).
Abbreviation table v := (GuestStagePageTable.inner (root v)).

(** ** The host's own memory *)
Lemma host_step s hps gps t m v :
  machine_inv s hps gps → kept (host_id s) (tracker s) (ram s) t m → vm_inv t m v hps → page_owner_id v = host_id s →
  nesting v = nesting (host s) → chain_ok s t → get_page t 0 = None →
  machine_inv (Machine t m v (guests s) (guests_capacity s)) hps gps.
Proof using PL.
  intros Hi HK Hv Hid Hn Hch Hz. pose proof (mi_ids _ _ _ Hi) as Hnd. split; cbn; [done| | | | |done].
  - rewrite Hn. apply Hi.
  - unfold host_id. cbn. rewrite Hid. exact Hch.
  - pose proof (mi_guests _ _ _ Hi) as Hgs. apply list.NoDup_cons in Hnd as [Hni _].
    apply Forall2_same_length_lookup_2; [by apply Forall2_length in Hgs|]. intros j g ps Hg Hps.
    destruct (Forall2_lookup_lr _ _ _ _ _ _ Hgs Hg Hps) as [Hgi ?]. split; [|done]. eapply kept_vm; [done..|].
    intros E. apply Hni. rewrite <-E. change (page_owner_id (GuestVm.vm g)) with (GuestVm.page_owner_id g).
    apply list_elem_of_fmap_2. by eapply list_elem_of_lookup_2.
  - unfold host_id. cbn. by rewrite Hid.
Qed.

Lemma converted_mapped_ok t m v ps t' m' sy vas :
  vm_inv t m v ps → nesting v < 1 → sy = Sys t m v → mapped_over (table v) m m' vas invalidated →
  (∀ c, c ∈ table_pages leaf_4k sy vas → phys c ∧ ∃ p, get_page t c = Some p ∧ PageInfo.owner p = Some (page_owner_id v) ∧ PageInfo.state p = PageState.Mapped) →
  (∀ c, phys c → c ∉ table_pages leaf_4k sy vas → get_page t' c = get_page t c) → mapped_ok t' m' v.
Proof using PL.
  intros Hi Hn -> Htab HX Hout va x. set (o := page_owner_id v) in *. rewrite Htab. case_decide as Hc.
  - unfold invalidated. destruct (leaf_4k (lookup (table v) m va)) as [pa|] eqn:Hl.
    { unfold idle. case_match; [done|]. by intros [= <-]. }
    intros Hx. destruct (vi_mapped _ _ _ _ Hi va x Hx) as [Hs Hk]. split; [done|]. rewrite Hx in Hl.
    destruct x as [[] sz pa]; cbn in *; try done. by subst sz.
  - intros Hx. destruct (vi_mapped _ _ _ _ Hi va x Hx) as [Hs Hk]. split; [done|]. destruct x as [[] sz pa]; cbn in *; try done. subst sz.
    assert (Hf : frame (lookup (table v) m va) = Some pa) by by rewrite Hx.
    assert (Hph : phys pa) by (eapply (frame_phys (FP := own t o m ps)); [by apply vi_state|done]).
    destruct Hk as (p & Hp & Hacc). exists p. split; [|done]. rewrite Hout; [done..|]. intros Hin.
    destruct (HX pa Hin) as (_ & q & Hq & Ho & _). apply elem_of_table_pages in Hin as (va' & Hin & Hl'). apply Hc.
    apply list_elem_of_fmap. exists va'. split; [|done].
    apply (vo_excl (FP := own t o m ps) _ _ (vi_ok _ _ _ _ Hi) va va' pa); [done|by apply frame_leaf|]. apply query_true. exists q.
    split; [done|]. by apply bool_decide_eq_true.
Qed.

(** Converting pages: they are unmapped and wait for the fence. *)
Lemma converted_kept t m v ps t' m' vas x :
  vm_inv t m v ps → nesting v < 1 → let o := page_owner_id v in let sy := Sys t m v in
  (∀ va, va ∈ vas → convertible sy MemType.Ram va) →
  begun (FP := own t o m ps) sy (Sys t' m' v) ps vas (PageState.Converting x) →
  vm_inv t' m' v ps ∧ kept o t m t' m' ∧
  ∀ a p', phys a → get_page t' a = Some p' → ∃ p, get_page t a = Some p ∧ PageInfo.owner p' = PageInfo.owner p ∧ PageInfo.owners p' = PageInfo.owners p.
Proof using PL.
  intros Hi Hn o sy Hconv [Hok Htab Htr]. cbn in Htab, Htr. set (X := table_pages leaf_4k sy vas) in *.
  assert (HX : ∀ c, c ∈ X → phys c ∧ ∃ p, get_page t c = Some p ∧ PageInfo.owner p = Some o ∧ PageInfo.state p = PageState.Mapped).
  { intros c (va & Hin & Hl)%elem_of_table_pages. split.
    - eapply (frame_phys (FP := own t o m ps)); [by apply vi_state|by apply frame_leaf].
    - destruct (Hconv va Hin) as (c' & Hl' & Hm). assert (c' = c) as -> by (cbn in *; congruence).
      apply query_true in Hm as (p & Hp & [[Ho%bool_decide_eq_true _]%andb_prop Hs%bool_decide_eq_true]%andb_prop). by exists p. }
  assert (Hout : ∀ c p, phys c → get_page t c = Some p → PageInfo.owner p ≠ Some o ∨ PageInfo.state p ≠ PageState.Mapped → get_page t' c = Some p).
  { intros c p Hc Hp Hne. rewrite Htr by done. rewrite decide_False; [done|]. intros Hin. destruct (HX c Hin) as (_ & q & Hq & Ho & Hs).
    assert (q = p) as -> by congruence. tauto. }
  assert (Hpage : ∀ a p', phys a → get_page t' a = Some p' →
    ∃ p, get_page t a = Some p ∧ PageInfo.owner p' = PageInfo.owner p ∧ PageInfo.owners p' = PageInfo.owners p ∧ PageInfo.link_ p' = PageInfo.link_ p).
  { intros a p' Ha. rewrite Htr by done. case_decide as Hin; [|by exists p'].
    intros (p & Hp & ->)%fmap_Some. exists p. destruct (HX a Hin) as (_ & q & Hq & _ & Hs). assert (q = p) as -> by congruence.
    split_and!; [done| |done|done]. unfold PageInfo.owner. by rewrite Hs. }
  assert (Hst : ∀ a, state_of t o a → state_of t' o a).
  { intros a (Ha & p & Hp & Ho & Hs). split; [done|]. exists p. split; [|done]. apply Hout; [by apply page_of_phys|done|]. right. by rewrite Hs. }
  destruct (pt_state_frame (FP := own t o m ps) _ _ _ (vo_table (FP := own t o m ps) _ _ Hok)) as (_ & _ & Har & _).
  split; [|split].
  - destruct (pt_state_within (FP := own t o m ps) (own t' o m' ps) (table v) m' m' ps (vo_table (FP := own t o m ps) _ _ Hok)) as [Hst' _];
      [done|done|by exists 0%nat|done|].
    split; [|apply (list_rep_kept t)|apply Hi| |apply Hi].
    + split; [done|apply (vo_tracker (FP := own t o m ps) _ _ Hok)|apply (vo_excl (FP := own t o m ps) _ _ Hok)|apply (vo_unlinked (FP := own t o m ps) _ _ Hok)].
    + intros c (q & -> & Hq)%list_elem_of_fmap. destruct (state_unrelated _ _ _ _ _ Hi Hq) as [(Ha & p & Hp & _ & Hs) E].
      pose proof (page_of_phys _ Ha) as Hph. rewrite E in Hp, Hph. rewrite Hp. apply Hout; [done..|]. right. by rewrite Hs.
    + apply Hi.
    + apply (converted_mapped_ok t m v ps t' m' sy vas); [done..|]. intros c Hc Hni. rewrite Htr by done. by rewrite decide_False.
  - split.
    + intros o' Hne. split; [apply (vo_tracker (FP := own t o m ps) _ _ Hok)|..].
      * intros a p' Ha _ Hp' Ho'. destruct (Hpage a p' Ha Hp') as (p & Hp & Ho & _ & Hl). exists p. rewrite <-Ho. done.
      * intros a p Ha Hp Ho _. apply Hout; [done..|]. left. congruence.
      * intros a Ha (p & Hp & Hacc). exists p. split; [|done]. apply Hout; [done..|]. destruct Hacc as [[Ho _]|Hs]; [left; congruence|right].
        unfold PageInfo.is_shared in Hs. intros E. by rewrite E in Hs.
    + intros o' a Hne (Ha & p & Hp & Ho & _). apply Har. intros (_ & q & Hq & Hoq & _). congruence.
  - intros a p' Ha Hp'. destruct (Hpage a p' Ha Hp') as (p & ? & ? & ? & _). by exists p.
Qed.

Lemma convert_pages_safe s a n : inv s → page_range a n → safe (VmRef.convert_pages a n) s.
Proof using PL.
  intros Hi Hr. unfold VmRef.convert_pages. apply safe_raw_addr; [done|]. intros Hal. pose proof Hi as (hps & gps & Hm).
  destruct Hr as (Hn & Ha & Hb & Hab). pose proof (mi_host _ _ _ Hm) as Hh.
  destruct (convert_spec (FP := own (tracker s) (host_id s) (ram s) hps) (Sys (tracker s) (ram s) (host s)) hps MemType.Ram a n)
    as (r & [t' m' v'] & Hrun & Hp); [apply Hh|done..|].
  assert (Hcall : VmRef.host_pages (VmPagesRef.convert_pages a n) s
    = Returns (map_err EcallError.from r, Machine t' m' v' (guests s) (guests_capacity s))).
  { unfold VmRef.host_pages, with_err, in_host, VmPagesRef.convert_pages. by rewrite Hrun. }
  destruct r as [[]|e]; cycle 1.
  { destruct Hp as [[= -> -> ->] _]. exists (Err (EcallError.from e)), s. split; [|done]. erewrite bind_err by exact Hcall. by destruct s. }
  destruct Hp as (_ & Hconv & Hvm & Hbg). cbn in Hvm. subst v'.
  destruct (converted_kept _ _ _ _ _ _ _ _ Hh (mi_nesting _ _ _ Hm) Hconv Hbg) as (Hv' & HK & Hpg).
  exists (Ok n). eexists. split; [by erewrite bind_ok by exact Hcall|]. exists hps, gps. apply host_step; [done..| |].
  - intros x p' Hx Hp' Ho'. destruct (Hpg x p' Hx Hp') as (p & Hp & Ho & ->). eapply (mi_chain _ _ _ Hm); [done..|]. by rewrite <-Ho.
  - destruct (get_page t' 0) as [p'|] eqn:Hp'; [|done]. destruct (Hpg 0 p' ltac:(by split) Hp') as (p & Hp & _).
    rewrite (mi_zero _ _ _ Hm) in Hp. done.
Qed.

(** ** Fences, regions *)
Lemma vm_inv_tlb t m v ps x : vm_inv t m v ps → vm_inv t m (set_tlb x v) ps.
Proof using PL.
  intros [Hok Hpool Hsz Hmap Hreg]. split; [|done|done|done|done].
  by apply (vm_ok_ext (FP := own t (page_owner_id v) m ps) (Sys t m v)).
Qed.

(** The fence of the IOMMU, if the VM has an IOMMU context, returns. *)
Definition iommu_returns (iommu_fence : option (outcome unit)) : Prop := iommu_fence ≠ Some Panics.
Lemma fence_settled io t m v :
  iommu_returns io → Forall settled (regions v) →
  ∃ r x, VmPagesRef.initiate_fence io (Sys t m v) = Returns (r, Sys t m (set_tlb x v)).
Proof using Type.
  intros Hio Hs. unfold VmPagesRef.initiate_fence, on_tlb. unfold mbind at 1, M_bind at 1. cbn [vm].
  destruct (TlbTracker.increment (tlb_tracker v)) as [[b|e] x]; [|by exists (Err e), x].
  rewrite (bind_ok _ _ _ tt (VmPages.set_vm (set_tlb x v) (Sys t m v))) by by destruct io as [[[]|]|].
  destruct b; [|by exists (Ok tt), x].
  exists (Ok tt), x. unfold VmPagesRef.of_step. by rewrite complete_settled.
Qed.

Lemma initiate_fence_safe s io : inv s → iommu_returns io → safe (VmRef.initiate_fence io) s.
Proof using PL.
  intros Hi Hio. pose proof Hi as (hps & gps & Hm). pose proof (mi_host _ _ _ Hm) as Hh.
  destruct (fence_settled io (tracker s) (ram s) (host s)) as (r & x & Hr); [done|apply Hh|].
  assert (Hcall : VmRef.host_pages (VmPagesRef.initiate_fence io) s
    = Returns (map_err EcallError.from r, Machine (tracker s) (ram s) (set_tlb x (host s)) (guests s) (guests_capacity s))).
  { unfold VmRef.host_pages, with_err, in_host. by rewrite Hr. }
  unfold VmRef.initiate_fence, safe, mbind, M_bind. rewrite Hcall.
  assert (inv (Machine (tracker s) (ram s) (set_tlb x (host s)) (guests s) (guests_capacity s))).
  { exists hps, gps. apply host_step; [done| |by apply vm_inv_tlb|done|done|unfold chain_ok; apply Hm|apply Hm].
    apply kept_own; [by eapply vi_wf|done..]. }
  destruct r; cbn [map_err]; by do 2 eexists.
Qed.

(** A call that works on one guest only. *)
Lemma safe_in_guest {A B} s i g (f : M (sys L) VmPagesError.t A) (b : B) :
  inv s → guests s !! i = Some g →
  (∀ t m ps, vm_inv t m (GuestVm.vm g) ps → ∃ r w, f (Sys t m (GuestVm.vm g)) = Returns (r, Sys t m w) ∧ vm_inv t m w ps ∧
     page_owner_id w = page_owner_id (GuestVm.vm g) ∧ nesting w = nesting (GuestVm.vm g)) →
  safe (VmRef.guest_pages i f;; mret b) s.
Proof using PL.
  intros (hps & gps & Hm) Hg Hf. destruct (guest_has_pool s hps gps i g Hm Hg) as [ps Hps].
  pose proof (calling_start s hps gps i g ps Hm Hg Hps) as Hc. destruct (Hf _ _ _ (ca_vm _ _ _ _ _ _ Hc)) as (r & w & Hr & Hw & Hid & Hn).
  assert (Hi' : inv (at_ s i g (tracker s) (ram s) w)) by (eapply calling_inv, calling_own; done).
  assert (Hcall : VmRef.guest_pages i f s = Returns (map_err EcallError.from r, at_ s i g (tracker s) (ram s) w)).
  { unfold VmRef.guest_pages, with_err. replace s with (set_tracker (tracker s) s) at 1 by (by destruct s). rewrite (at_start s i g Hg).
    by rewrite (in_guest_at s i g Hg _ _ _ _ _ _ _ _ Hr). }
  unfold safe, mbind, M_bind. rewrite Hcall. destruct r; cbn [map_err]; by do 2 eexists.
Qed.

Lemma guest_initiate_fence_safe s io id : inv s → iommu_returns io → safe (VmRef.guest_initiate_fence io id) s.
Proof using PL.
  intros Hi Hio. unfold VmRef.guest_initiate_fence. apply safe_guest_by_id; [done|]. intros i g Hg.
  eapply safe_with_state; [done|done|]. intros v _. eapply safe_in_guest; [done..|]. intros t m ps Hw.
  destruct (fence_settled io t m (GuestVm.vm g)) as (r & x & Hr); [done|apply Hw|]. exists r, (set_tlb x (GuestVm.vm g)).
  split_and!; [done|by apply vm_inv_tlb|done|done].
Qed.

Lemma vm_inv_regions t m v ps l : vm_inv t m v ps → regions_ok l → Forall settled l → vm_inv t m (set_regions l v) ps.
Proof using PL.
  intros [Hok Hpool Hsz Hmap Hreg] Hl Hs. split; [|done..].
  by apply (vm_ok_ext (FP := own t (page_owner_id v) m ps) (Sys t m v)).
Qed.

Lemma settled_types l : regions_ok l → (∀ x ty, type_at x l = Some ty → settled (VmRegion.mk 0 0 ty)) → Forall settled l.
Proof using Type.
  intros [Hs Hn _ _] Ht. apply list.Forall_forall. intros r Hr. rewrite list.Forall_forall in Hn.
  apply (Ht (VmRegion.start r) (VmRegion.region_type r)). unfold type_at.
  rewrite (proj2 (find_at_Some _ _ (VmRegion.start r) l r Hs)); [done|]. split; [done|]. specialize (Hn r Hr). lia.
Qed.

Lemma guest_add_memory_region_safe s id a len : inv s → 0 < len → safe (VmRef.guest_add_memory_region id a len) s.
Proof using PL.
  intros Hi Hlen. unfold VmRef.guest_add_memory_region. apply safe_guest_by_id; [done|]. intros i g Hg.
  eapply safe_with_state; [done|done|]. intros v _. apply safe_raw_addr; [done|]. intros Hal.
  eapply safe_in_guest; [done..|]. intros t m ps Hw. set (w := GuestVm.vm g) in *.
  unfold VmPagesRef.add_confidential_memory_region, VmPagesRef.do_add_region. destruct (region_end a len) as [e|e] eqn:He; cycle 1.
  { exists (Err e), w. done. }
  assert (e = a + len) as ->.
  { unfold region_end, RawAddr.checked_increment, checked_add in He. destruct (_ <? U64); [|done].
    destruct (PageAddr.new (a + len)) as [y|] eqn:Hy; [|done]. injection He as ->. unfold PageAddr.new in Hy. by apply with_alignment_Some in Hy as [-> _]. }
  erewrite bind_ok by done. destruct (vi_regions _ _ _ _ Hw) as [Hrok Hset].
  destruct (add_spec a (a + len) VmRegionType.Confidential (regions w)) as (res & l' & Hadd & Hp); [done|lia|].
  exists res, (set_regions l' w). split; [unfold on_regions; cbn [vm]; by rewrite Hadd|]. split; [|done].
  destruct res as [u|e']; cycle 1.
  { destruct Hp as [-> _]. by apply vm_inv_regions. }
  destruct Hp as (_ & Hl' & Hm). apply vm_inv_regions; [done..|]. apply settled_types; [done|]. intros x ty. rewrite Hm. unfold on_range.
  case_match; [by intros [= <-]|]. intros (r & Hr & _ & <-)%region_at_type. rewrite list.Forall_forall in Hset. by apply (Hset r).
Qed.

Lemma guest_finalize_safe s b id : inv s → safe (VmRef.guest_finalize b id) s.
Proof using PL.
  intros Hi. unfold VmRef.guest_finalize. apply safe_guest_by_id; [done|]. intros i g Hg. unfold safe. do 2 (erewrite bind_ok by (unfold of_outcome; cbn; by rewrite ?Hg)).
  destruct (GuestVm.finalize b g) as [g'|e] eqn:Hf; [|by apply safe_err]. do 2 (erewrite bind_ok by done). do 2 eexists. split; [done|].
  assert (GuestVm.vm g' = GuestVm.vm g) as Hv by (unfold GuestVm.finalize in Hf; repeat case_match; by simplify_eq).
  destruct Hi as (hps & gps & [H1 H2 H3 H4 H5 H6]). exists hps, gps. split; cbn; try done.
  - destruct (guest_has_pool s hps gps i g) as [ps Hps]; [by split|done|].
    replace gps with (<[i := ps]> gps) by by apply list_insert_id. apply Forall2_insert; [done|]. rewrite Hv.
    apply (Forall2_lookup_lr _ _ _ _ _ _ H4 Hg Hps).
  - change (host_id (set_guests _ s)) with (host_id s). rewrite list_fmap_insert.
    rewrite list_insert_id; [done|]. rewrite list_lookup_fmap, Hg. cbn. unfold GuestVm.page_owner_id. by rewrite Hv.
Qed.

(** ** Histories of the machine *)
Definition vms s : list (VmPages.t L) := host s :: (GuestVm.vm <$> guests s).

(** A VM stores the word [x] at its address [va]; the hardware walks its table. *)
Definition store (who : PageOwnerId.t) (va x : Z) : M (machine L) EcallError.t Z := λ s,
  match List.find (λ v, page_owner_id v =? who) (vms s) ≫= (λ v, lookup (table v) (ram s) va) with
  | Some (Mapping KLeaf sz pa) => Returns (Ok 0, set_ram (<[pa + va mod PageSize.bytes sz := x]> (ram s)) s)
  | _ => Returns (Err EcallError.PageFault, s)
  end.

Inductive command :=
| ConvertPages (a n : Z)
| Fence (iommu_fence : option (outcome unit))
| AddPageTablePages (id a n : Z)
| AddMemoryRegion (id a len : Z)
| AddZeroPages (id a : Z) (is_4k : bool) (n ga : Z)
| AddMeasuredPages (copy : Z → Z → M mem VmPagesError.t unit) (measure : Z → Z → result VmPagesError.t unit) (id src a : Z) (is_4k : bool) (n ga : Z)
| AddSharedPages (id a : Z) (is_4k : bool) (n ga : Z)
| AddVcpu (required_pages id vcpu_id a : Z)
| GuestFence (iommu_fence : option (outcome unit)) (id : Z)
| Finalize (b : bool) (id : Z)
| Store (who : PageOwnerId.t) (va x : Z).

Definition run_command (c : command) : M (machine L) EcallError.t Z :=
  match c with
  | ConvertPages a n => VmRef.convert_pages a n
  | Fence io => VmRef.initiate_fence io
  | AddPageTablePages id a n => VmRef.guest_add_page_table_pages id a n
  | AddMemoryRegion id a len => VmRef.guest_add_memory_region id a len
  | AddZeroPages id a is_4k n ga => VmRef.guest_add_zero_pages id a is_4k n ga
  | AddMeasuredPages copy measure id src a is_4k n ga => VmRef.guest_add_measured_pages copy measure id src a is_4k n ga
  | AddSharedPages id a is_4k n ga => VmRef.guest_add_shared_pages id a is_4k n ga
  | AddVcpu required_pages id vcpu_id a => VmRef.guest_add_vcpu required_pages id vcpu_id a
  | GuestFence io id => VmRef.guest_initiate_fence io id
  | Finalize b id => VmRef.guest_finalize b id
  | Store who va x => store who va x
  end.

(** The arguments name ranges of pages within the address space.  What the calls rely on:
    the fence of the IOMMU returns, copying from the host writes to the page it fills and
    measuring a page does not fail, and the state of a vCPU takes at least one page. *)
Definition command_ok (c : command) : Prop :=
  match c with
  | ConvertPages a n | AddPageTablePages _ a n => page_range (L := L) a n
  | AddZeroPages _ a _ n ga | AddSharedPages _ a _ n ga => page_range (L := L) a n ∧ page_range (L := L) ga n
  | AddMeasuredPages copy measure _ src a _ n ga => copy_ok copy ∧ (∀ pa va, measure pa va = Ok tt) ∧
      page_range (L := L) src n ∧ page_range (L := L) a n ∧ page_range (L := L) ga n
  | AddVcpu required_pages _ _ a => 0 < required_pages ∧ page_range (L := L) a required_pages
  | AddMemoryRegion _ _ len => 0 < len
  | Fence io | GuestFence io _ => iommu_returns io
  | _ => True
  end.

(** The calls and stores in sequence, whatever they return. *)
Fixpoint run_commands (cs : list command) s : outcome (machine L) :=
  match cs with
  | [] => Returns s
  | c :: cs => '(_, s) ← run_command c s; run_commands cs s
  end.

(** A page that two VMs can access is shared, and no store changes a translation. *)
Record isolated s : Prop := {
  is_private v w va va' sz sz' pa : v ∈ vms s → w ∈ vms s → page_owner_id v ≠ page_owner_id w →
    lookup (table v) (ram s) va = Some (Mapping KLeaf sz pa) → lookup (table w) (ram s) va' = Some (Mapping KLeaf sz' pa) →
    sz = Size4k ∧ sz' = Size4k ∧ ∃ p, get_page (tracker s) pa = Some p ∧ PageInfo.is_shared p = true;
  is_stable w who va x va' : w ∈ vms s →
    lookup (table w) (ram (final s (store who va x s))) va' = lookup (table w) (ram s) va'
}.

Lemma vms_inv s hps gps v : machine_inv s hps gps → v ∈ vms s → ∃ ps, vm_inv (tracker s) (ram s) v ps.
Proof using Type.
  intros Hi [->|(g & -> & Hg)%list_elem_of_fmap]%elem_of_cons; [exists hps; apply Hi|].
  apply list_elem_of_lookup in Hg as [i Hg]. destruct (guest_has_pool s hps gps i g Hi Hg) as [ps Hps].
  exists ps. apply (Forall2_lookup_lr _ _ _ _ _ _ (mi_guests _ _ _ Hi) Hg Hps).
Qed.

Lemma mapped_leaf t m v ps va sz pa :
  vm_inv t m v ps → lookup (table v) m va = Some (Mapping KLeaf sz pa) → sz = Size4k ∧ phys pa ∧ accessible t (page_owner_id v) pa.
Proof using PL.
  intros Hi Hl. destruct (vi_mapped _ _ _ _ Hi va _ Hl) as [Hs Hacc]. cbn in Hs, Hacc. subst sz. split_and!; [done| |done].
  eapply (frame_phys (FP := own t (page_owner_id v) m ps)); [by apply vi_state|]. by rewrite Hl.
Qed.

(** A store changes no memory that holds tables. *)
Lemma store_spec who va x s hps gps :
  machine_inv s hps gps → ∃ r m', store who va x s = Returns (r, set_ram m' s) ∧
    ∀ o a, state_of (tracker s) o a → read_pte m' a = read_pte (ram s) a.
Proof using PL.
  intros Hi. assert (Hno : ∃ r m', Returns (Err (A := Z) EcallError.PageFault, s) = Returns (r, set_ram m' s) ∧
    ∀ o a, state_of (tracker s) o a → read_pte m' a = read_pte (ram s) a).
  { exists (Err EcallError.PageFault), (ram s). split; [by destruct s|done]. }
  unfold store. destruct (List.find _ _) as [v|] eqn:Hv; cbn [mbind option_bind]; [|done].
  destruct (lookup (table v) (ram s) va) as [[k sz pa]|] eqn:Hl; [|done]. destruct k; try exact Hno.
  do 2 eexists. split; [done|]. intros o a (Ha & p & Hp & Ho & Hs). apply read_pte_insert_ne. intros <-.
  apply find_some in Hv as [Hin%list_elem_of_In _]. destruct (vms_inv s hps gps v Hi Hin) as [ps Hvi].
  destruct (mapped_leaf _ _ _ _ _ _ _ Hvi Hl) as (-> & Hph & q & Hq & Hacc). cbn [PageSize.bytes] in *.
  pose proof (Z.mod_pos_bound va 4096). destruct (page_of_in pa (pa + va mod 4096) Hph) as [E _]; [lia|]. rewrite E in Hp.
  assert (q = p) as -> by congruence. unfold PageInfo.is_shared in Hacc. rewrite Hs in Hacc. naive_solver.
Qed.

Lemma store_safe s who va x : inv s → safe (store who va x) s.
Proof using PL.
  intros (hps & gps & Hi). destruct (store_spec who va x s hps gps Hi) as (r & m' & Hst & Hm). exists r, (set_ram m' s). split; [done|].
  assert (Hv : ∀ v ps, vm_inv (tracker s) (ram s) v ps → vm_inv (tracker s) m' v ps).
  { intros v ps Hv. eapply vm_inv_undisturbed; [done| |intros a; apply Hm].
    split; [by eapply vi_wf| |done|done]. intros a p' _ _ Hp' Ho'. by exists p'. }
  exists hps, gps. destruct Hi as [H1 H2 H3 H4 H5 H6]. split; cbn; [by apply Hv|done|done| |done|done].
  eapply list.Forall2_impl; [exact H4|]. intros g ps [? ?]. split; [by apply Hv|done].
Qed.

Lemma command_safe c s : inv s → command_ok c → safe (run_command c) s.
Proof using PL.
  intros Hi Hc. destruct c; cbn in Hc |- *.
  - by apply convert_pages_safe.
  - by apply initiate_fence_safe.
  - by apply guest_add_page_table_pages_safe.
  - by apply guest_add_memory_region_safe.
  - by apply guest_add_zero_pages_safe; destruct Hc.
  - destruct Hc as (? & ? & ? & ? & ?). by apply guest_add_measured_pages_safe.
  - by apply guest_add_shared_pages_safe; destruct Hc.
  - by apply guest_add_vcpu_safe; destruct Hc.
  - by apply guest_initiate_fence_safe.
  - by apply guest_finalize_safe.
  - by apply store_safe.
Qed.

Lemma inv_isolated s : inv s → isolated s.
Proof using PL.
  intros (hps & gps & Hi). split.
  - intros v w va va' sz sz' pa Hv Hw Hne Hl Hl'. destruct (vms_inv s hps gps v Hi Hv) as [ps Hvi], (vms_inv s hps gps w Hi Hw) as [qs Hwi].
    destruct (mapped_leaf _ _ _ _ _ _ _ Hvi Hl) as (-> & _ & p & Hp & Hacc).
    destruct (mapped_leaf _ _ _ _ _ _ _ Hwi Hl') as (-> & _ & q & Hq & Hacc').
    split_and!; [done..|]. exists p. split; [done|]. assert (q = p) as -> by congruence.
    destruct Hacc as [[Ho _]|?]; [|done]. destruct Hacc' as [[Ho' _]|?]; [|done]. congruence.
  - intros w who va x va' Hw. destruct (store_spec who va x s hps gps Hi) as (r & m' & -> & Hm). cbn.
    destruct (vms_inv s hps gps w Hi Hw) as [ps Hwi]. by rewrite (same_tables _ _ _ _ m' Hwi (λ a, Hm _ a)).
Qed.

Lemma run_commands_inv cs s : inv s → Forall command_ok cs → ∃ s', run_commands cs s = Returns s' ∧ inv s'.
Proof using PL.
  revert s. induction cs as [|c cs IH]; intros s Hi Hcs; [by exists s|]. apply list.Forall_cons in Hcs as [Hc Hcs].
  destruct (command_safe c s Hi Hc) as (r & s1 & Hr & Hi1). destruct (IH s1 Hi1 Hcs) as (s' & Hs' & Hi'). exists s'.
  split; [|done]. cbn [run_commands]. by rewrite Hr.
Qed.
End machine.

(** ** A host with two mapped pages, and a guest *)
Definition machine_tracker : PageTracker.t :=
  let state os lk := PageInfo.mk MemType.Ram PageState.VmState os lk in
  let mapped := PageInfo.mk MemType.Ram PageState.Mapped [PageOwnerId.host] None in
  PageTracker.mk 3 [PageOwnerId.host; 2] 16
    (PageMap.mk (replicate 7 (state [PageOwnerId.host] None) ++ [mapped; mapped] ++ replicate 4 (state [PageOwnerId.host; 2] None) ++
                 [state [PageOwnerId.host; 2] (Some 1085440); state [PageOwnerId.host; 2] (Some 1089536); state [PageOwnerId.host; 2] None])
       1024 [SparseMapEntry.mk 4 4 0; SparseMapEntry.mk 16 3 4; SparseMapEntry.mk 256 2 7; SparseMapEntry.mk 260 7 9]).
Definition host_vm : VmPages.t Sv48x4Level.t :=
  VmPages.mk PageOwnerId.host TlbTracker.new [VmRegion.mk 2147483648 2147491840 VmRegionType.Confidential] 0
    (GuestStagePageTable.mk (GuestStagePageTable.inner example_table) PageOwnerId.host) PageList.new.
Definition new_guest : VmPages.t Sv48x4Level.t :=
  VmPages.mk 2 TlbTracker.new
    [VmRegion.mk 2147483648 2147487744 VmRegionType.Confidential; VmRegion.mk 2147487744 2147491840 VmRegionType.Shared] 1
    (GuestStagePageTable.mk (PageTableInner.mk (SequentialPages.mk 1064960 Size4k 4)) 2)
    (PageList.mk (Some 1081344) (Some 1089536) 3).
Definition guest_pool : list Page.t := page_run 1081344 Size4k 3.
Definition example_machine : machine Sv48x4Level.t :=
  Machine machine_tracker example_mapped host_vm
    [GuestVm.new new_guest (SequentialPages.mk 1093632 Size4k 1)] 4.

(** Copies the first word of a page. *)
Definition copy_word (dest src : Z) : M mem VmPagesError.t unit := λ m, Returns (Ok tt, <[dest := read_pte m src]> m).
Lemma copy_word_ok : copy_ok copy_word.
Proof. intros dest src m. do 2 eexists. split; [done|]. intros a Ha. apply read_pte_insert_ne. lia. Qed.

(** The first page is converted and given to the guest as a measured page; after the
    guest is finalized, the second one is shared with it. *)
Definition example_history : list command :=
  [ConvertPages 2147483648 1; Fence (Some (Returns tt)); AddMeasuredPages copy_word (λ _ _, Ok tt) 2 2147487744 2147483648 true 1 2147483648;
   AddVcpu 1 2 0 2147483648; Finalize true 2; AddSharedPages 2 2147487744 true 1 2147487744; Store 2 2147483648 7].
Definition example_end : machine Sv48x4Level.t :=
  match run_commands example_history example_machine with Returns s => s | Panics => example_machine end.

Lemma machine_tracker_wf : tracker_wf machine_tracker.
Proof.
  split; cbn [machine_tracker PageTracker.pages PageTracker.next_owner_id PageTracker.active_guests PageTracker.guests_capacity].
  - split; cbn; [| |by repeat constructor|lia]; repeat (apply ordered_cons; split_and!; [done|by repeat constructor|]); apply ordered_nil.
  - intros a p Ha Hp. unfold get_page, PageMap.get in Hp. destruct (PageMap.get_map_index _ a) as [i|]; [|done].
    assert (Forall page_info_wf (PageMap.pages (PageTracker.pages machine_tracker))) as Hall.
    { cbn. repeat constructor; cbn; try done; by intros x [= <-]. }
    rewrite list.Forall_forall in Hall. apply Hall. by eapply list_elem_of_lookup_2.
  - lia.
  - apply NoDup_cons_2; [by intros [= ]%list_elem_of_singleton|apply NoDup_singleton].
  - apply list.Forall_cons. split; [by left|]. apply list.Forall_singleton. right. lia.
  - cbn. lia.
Qed.

(** Every page of [cs] holds state of [o]. *)
Definition state_pages (o : PageOwnerId.t) (cs : list Z) : bool :=
  forallb (λ c, match get_page machine_tracker c with
                | Some p => bool_decide (PageInfo.owner p = Some o ∧ PageInfo.state p = PageState.VmState)
                | None => false
                end && (0 <=? c) && (c <? 2 ^ 56) && (c mod 4096 =? 0)) cs.
Lemma state_pages_of o c n a :
  state_pages o (page_seq c Size4k n) = true → c ≤ a < c + Z.of_nat n * 4096 → c mod 4096 = 0 → state_of machine_tracker o a.
Proof.
  intros Hs Ha Hc. unfold state_pages in Hs. rewrite forallb_forall in Hs.
  assert (page_of a ∈ page_seq c Size4k n) as Hin.
  { apply elem_of_page_seq. exists ((a - c) / 4096). cbn. unfold page_of. split; mod_lia. }
  specialize (Hs _ (proj1 (list_elem_of_In _ _) Hin)). apply andb_prop in Hs as [[[Hp H0]%andb_prop H1]%andb_prop H2].
  apply Z.leb_le in H0. apply Z.ltb_lt in H1. split; [unfold page_of in *; mod_lia|].
  destruct (get_page machine_tracker (page_of a)) as [p|]; [|done]. exists p. split; [done|]. by apply bool_decide_eq_true in Hp.
Qed.

Lemma example_host_table :
  pt_state (FP := own machine_tracker PageOwnerId.host ∅ example_pages) (GuestStagePageTable.inner example_table) ∅ example_pages.
Proof.
  apply (pt_state_empty (L := Sv48x4Level.t)); [done|done|done|apply (NoDup_page_seq 65536 Size4k 3)|by repeat constructor| | |done|by exists 0%nat].
  - intros a Ha. by apply (state_pages_of _ 16384 4).
  - intros p a Hp Ha. apply (state_pages_of _ 65536 3); [done| |done]. apply list_elem_of_In in Hp. cbn in Hp. cbn.
    destruct Hp as [<-|[<-|[<-|[]]]]; cbn in Ha; lia.
Qed.

Lemma example_host_inv : vm_inv machine_tracker example_mapped host_vm [].
Proof.
  destruct (example_mapped_in (FP := own machine_tracker PageOwnerId.host ∅ example_pages) example_host_table) as (Hst & Hl & Hn).
  destruct (pt_state_within (FP := own machine_tracker PageOwnerId.host ∅ example_pages) (own machine_tracker PageOwnerId.host example_mapped [])
    _ _ example_mapped _ Hst) as [Hst' _]; [done|done|by exists 0%nat|done|].
  split; cbn; [split; cbn| | | |].
  - exact Hst'.
  - apply machine_tracker_wf.
  - intros va va' pa (i & Hi & -> & ->)%example_frame (j & Hj & -> & ?)%example_frame _. do 2 f_equal. lia.
  - intros va pa p (i & Hi & _ & ->)%example_frame Hp _.
    assert (i = 0 ∨ i = 1) as [-> | ->] by lia; vm_compute in Hp; by simplify_eq.
  - apply list_rep_new.
  - done.
  - intros va x Hx. change (lookup (GuestStagePageTable.inner example_table) example_mapped va = Some x) in Hx.
    destruct (decide (covered (L := Sv48x4Level.t) (page_seq 2147483648 Size4k 2) va)) as [Hc|Hc]; [|rewrite Hn in Hx by done; done].
    apply list_elem_of_fmap in Hc as (va' & Hp & (i & Hi & ->)%elem_of_page_seq).
    rewrite (lookup_same_page (FP := own machine_tracker PageOwnerId.host ∅ example_pages) _ _ _ _ _ Hst Hp) in Hx.
    specialize (Hl (Z.to_nat i) ltac:(lia)). rewrite Z2Nat.id in Hl by lia. change (PageSize.bytes Size4k) with 4096 in Hx.
    rewrite Hl in Hx. injection Hx as <-. split; [done|]. cbn.
    assert (i = 0 ∨ i = 1) as [-> | ->] by lia; (eexists; split; [vm_compute; reflexivity|by left]).
  - split; [|by repeat constructor]. apply guest_regions_ok.
Qed.

Lemma new_guest_regions : regions_ok (regions new_guest).
Proof.
  split; cbn; [|by repeat constructor| |unfold MAX_MEM_REGIONS; lia].
  - repeat (apply ordered_cons; split_and!; [done|by repeat constructor|]). apply ordered_nil.
  - split_and!; [|done|done]. by intros [_ ?].
Qed.

Lemma example_guest_inv : vm_inv machine_tracker example_mapped new_guest guest_pool.
Proof.
  set (inner := GuestStagePageTable.inner (root new_guest)).
  assert (Hst0 : pt_state (FP := own machine_tracker 2 ∅ guest_pool) inner ∅ guest_pool).
  { apply (pt_state_empty (L := Sv48x4Level.t)); [done|done|done|apply (NoDup_page_seq 1081344 Size4k 3)|by repeat constructor| | |done|by exists 0%nat].
    - intros a Ha. by apply (state_pages_of _ 1064960 4).
    - intros p a Hp Ha. apply (state_pages_of _ 1081344 3); [done| |done]. apply list_elem_of_In in Hp. cbn in Hp. cbn.
      destruct Hp as [<-|[<-|[<-|[]]]]; cbn in Ha; lia. }
  assert (Hm : ∀ a, state_of machine_tracker 2 a → read_pte example_mapped a = read_pte ∅ a).
  { intros a (_ & p & Hp & Ho & _).
    destruct (example_mapped_in (FP := own machine_tracker PageOwnerId.host ∅ example_pages) example_host_table) as [Hst _].
    destruct (pt_state_frame (FP := own machine_tracker PageOwnerId.host ∅ example_pages) _ _ _ Hst) as (_ & _ & Har & _).
    apply Har. intros (_ & q & Hq & Hoq & _). assert (q = p) as -> by congruence. rewrite Ho in Hoq. done. }
  destruct (pt_state_within (FP := own machine_tracker 2 ∅ guest_pool) (own machine_tracker 2 example_mapped guest_pool)
    inner ∅ example_mapped guest_pool Hst0 Hm) as [Hst Htr]; [done|by exists 0%nat|done|].
  assert (Hnone : ∀ va, lookup inner example_mapped va = None).
  { intros va. rewrite Htr. by apply (lookup_empty (FP := own machine_tracker 2 ∅ guest_pool) _ guest_pool). }
  split; cbn; [split; cbn| | | |].
  - exact Hst.
  - apply machine_tracker_wf.
  - intros va va' pa Hf. fold inner in Hf. by rewrite Hnone in Hf.
  - intros va pa p Hf. fold inner in Hf. by rewrite Hnone in Hf.
  - split; [done|done|done|done|apply (NoDup_page_seq 1081344 Size4k 3)|by repeat constructor|].
    intros [|[|[|i]]] a; cbn; intros [= <-]; eexists; (split; [vm_compute; reflexivity|done]).
  - by repeat constructor.
  - intros va x Hx. change (lookup inner example_mapped va = Some x) in Hx. by rewrite Hnone in Hx.
  - split; [|by repeat constructor]. apply new_guest_regions.
Qed.

Lemma example_machine_inv : inv example_machine.
Proof.
  exists [], [guest_pool]. split; [apply example_host_inv|done| | | |].
  - intros a p Ha Hp Ho. cbn in Hp. unfold get_page, PageMap.get in Hp. destruct (PageMap.get_map_index _ a) as [i|]; [|done].
    apply list_elem_of_lookup_2, list_elem_of_In in Hp. cbn in Hp.
    repeat destruct Hp as [<-|Hp]; try done; cbn; lia.
  - constructor; [|constructor]. split; [apply example_guest_inv|done].
  - apply NoDup_cons_2; [by intros [= ]%list_elem_of_singleton|apply NoDup_singleton].
  - done.
Qed.

(** ** Theorems *)

(** C1: VMs are isolated.  Take a machine on which the host and every guest have their
    invariant, and a history of host calls that convert pages, fence the host or a guest,
    give page-table pages, regions, zeroed, measured or shared pages or the pages of a vCPU
    to guests, or finalize guests, with arguments that name ranges within the address
    space, interleaved with stores of the VMs to whatever they have mapped.  No call panics,
    provided that the fence of the IOMMU returns, copying writes only to the page it fills
    and measuring does not fail.  Afterwards a page that two VMs can access is one that
    the tracker records as shared, no store of any VM changes a translation of any VM, and
    the invariant holds again.  Guests are neither created nor destroyed in such a
    history, and the host does not reclaim pages. *)
Theorem vms_are_isolated `{PL : PagingLaws L} (s : machine L) (cs : list command) :
  inv s → Forall (command_ok (L := L)) cs →
  ∃ s', run_commands cs s = Returns s' ∧ inv s' ∧ isolated s'.
Proof.
  intros Hi Hcs. destruct (run_commands_inv cs s Hi Hcs) as (s' & Hs' & Hi'). exists s'. split_and!; [done..|].
  by apply inv_isolated.
Qed.

Lemma vms_are_isolated_witness :
  run_commands example_history example_machine = Returns example_end ∧ isolated example_end ∧
  get_page (tracker example_end) 1048576 = Some (PageInfo.mk MemType.Ram PageState.Mapped [PageOwnerId.host; 2] None) ∧
  get_page (tracker example_end) 1052672 = Some (PageInfo.mk MemType.Ram (PageState.Shared 1) [PageOwnerId.host] None) ∧
  read_pte (ram example_end) 1048576 = 7.
Proof.
  destruct (vms_are_isolated example_machine example_history) as (s' & Hs' & _ & His).
  - exact example_machine_inv.
  - repeat (apply list.Forall_cons; split); [..|apply list.Forall_nil_2]; cbn; unfold page_range; split_and?; done || apply copy_word_ok.
  - assert (example_end = s') as E by (unfold example_end; by rewrite Hs').
    rewrite <-E in Hs', His. split; [exact Hs'|]. split; [exact His|]. split_and!; vm_compute; reflexivity.
Defined.
