(* ===== verification/Iommu.v ===== *)
(** * The IOMMU (drivers/src/iommu)

    MSI page tables (msi_page_table.rs), the device directory (device_directory.rs),
    the queues shared with the hardware (queue.rs), and the IOMMU device that uses
    them to attach PCI devices to VMs (core.rs).  Tables are words of the memory that
    also holds page tables.  The hardware's progress through the command queue is not
    modelled: [submit_commands_sync] returns when it has consumed all commands. *)
From S2P Require Import Prelude RiscvPages PageInfoModel Tracker Pte PageTableModel Imsic.
Import PageSize(Size4k).

Module IommuError.
Inductive t :=
| InsufficientMsiTablePages
| MisalignedMsiTablePages
| UnownedMsiTablePages
| InvalidImsicLocation (l : ImsicLocation.t)
| MsiPageNotOwned (a : Z)
| MsiAlreadyMapped (l : ImsicLocation.t)
| MsiNotMapped (l : ImsicLocation.t)
| OutOfPages
| NotIntermediateTable
| PciAddressTooLarge (a : Z)
| OwnerMismatch
| DeviceNotFound (id : Z)
| DeviceAlreadyEnabled (id : Z)
| DeviceNotEnabled (id : Z)
| InvalidQueuePointer (n : Z)
| QueueFull
| QueueEmpty
| OutOfGscIds
| InvalidGscId (g : Z)
| GscIdAlreadyFree (g : Z)
| GscIdInUse (g : Z).
End IommuError.
Import IommuError.

Definition read64 (m : mem) (a : Z) : Z := read_pte m a.
Definition write64 (a v : Z) (m : mem) : mem := <[a := v]> m.

(** ** MSI page tables *)
Module MsiPte.
Definition SIZE : Z := 16.
Definition MSI_PTE_PFN_SHIFT : Z := 10.
Definition MSI_PTE_VALID : Z := Z.shiftl 1 0.
Definition MSI_PTE_WRITE : Z := Z.shiftl 1 2.
Definition set (pfn : Z) : Z := Z.lor (Z.lor (shl64 pfn MSI_PTE_PFN_SHIFT) MSI_PTE_VALID) MSI_PTE_WRITE.
Definition valid (pte : Z) : bool :=
  Z.land pte (Z.lor MSI_PTE_VALID MSI_PTE_WRITE) =? Z.lor MSI_PTE_VALID MSI_PTE_WRITE.
End MsiPte.

Module MsiPageTableIndex.
Definition from (g : ImsicGeometry.t) (loc : ImsicLocation.t) : option Z :=
  if negb (ImsicGeometry.location_is_valid g loc) then None
  else Some (Z.lor (Z.lor (ImsicFileId.bits (ImsicLocation.file loc))
                      (shl64 (ImsicLocation.hart loc) (ImsicGeometry.guest_index_bits g)))
               (shl64 (ImsicLocation.group loc)
                  (wrap32 (ImsicGeometry.guest_index_bits g + ImsicGeometry.hart_index_bits g)))).
End MsiPageTableIndex.

Module MsiPageTable.
Record t := mk {
  pages : SequentialPages.t;
  src_geometry : ImsicGeometry.t;
  dest_geometry : ImsicGeometry.t;
  owner : PageOwnerId.t
}.

(** The address of the entry. *)
Definition entry_for_index (self : t) (index : Z) : option Z :=
  if SequentialPages.length_bytes (pages self) / MsiPte.SIZE <=? index then None
  else Some (SequentialPages.addr (pages self) + MsiPte.SIZE * index).

Definition required_table_size (g : ImsicGeometry.t) : Z :=
  Z.max (PageSize.bytes Size4k) (wrap64 (shl64 1 (ImsicGeometry.index_bits g) * MsiPte.SIZE)).

(** The remainder panics when the table size is zero. *)
Definition new (pages : SequentialPages.t) (src dest : ImsicGeometry.t) (owner : PageOwnerId.t)
    : M PageTracker.t IommuError.t t :=
  let table_size := required_table_size src in
  if SequentialPages.length_bytes pages <? table_size then err InsufficientMsiTablePages
  else if negb (SequentialPages.addr pages mod table_size =? 0) then err MisalignedMsiTablePages
  else
    addrs ← of_outcome (iter_from_take (SequentialPages.addr pages) (SequentialPages.count pages));
    tracker ← get;
    if negb (forallb (λ a, PageTracker.is_internal_state_page a owner tracker) addrs) then err UnownedMsiTablePages
    else mret (mk pages src dest owner).

(** The address of the interrupt file [dest], which this VM must own. *)
Definition owned_dest (self : t) (tracker : PageTracker.t) (dest : ImsicLocation.t) : result IommuError.t Z :=
  match ImsicGeometry.location_to_addr (dest_geometry self) dest with
  | None => Err (InvalidImsicLocation dest)
  | Some dest_addr =>
      if negb (PageTracker.is_mapped_page dest_addr (owner self) (MemType.Mmio DeviceMemType.Imsic) tracker)
      then Err (MsiPageNotOwned dest_addr) else Ok dest_addr
  end.

Definition map (self : t) (tracker : PageTracker.t) (src dest : ImsicLocation.t) : M mem IommuError.t unit :=
  dest_addr ← lift (owned_dest self tracker dest);
  index ← lift (ok_or (MsiPageTableIndex.from (src_geometry self) src) (InvalidImsicLocation src));
  entry ← of_outcome (unwrap_option (entry_for_index self index));
  m ← get;
  if MsiPte.valid (read64 m entry) then err (MsiAlreadyMapped src)
  else modify (write64 entry (MsiPte.set (PageAddr.pfn dest_addr))).

Definition remap (self : t) (tracker : PageTracker.t) (src dest : ImsicLocation.t) : M mem IommuError.t unit :=
  dest_addr ← lift (owned_dest self tracker dest);
  entry ← lift (ok_or (MsiPageTableIndex.from (src_geometry self) src ≫= entry_for_index self)
                  (InvalidImsicLocation src));
  m ← get;
  if negb (MsiPte.valid (read64 m entry)) then err (MsiNotMapped src)
  else modify (write64 entry (MsiPte.set (PageAddr.pfn dest_addr))).

Definition unmap (self : t) (loc : ImsicLocation.t) : M mem IommuError.t unit :=
  index ← lift (ok_or (MsiPageTableIndex.from (src_geometry self) loc) (InvalidImsicLocation loc));
  entry ← of_outcome (unwrap_option (entry_for_index self index));
  m ← get;
  if negb (MsiPte.valid (read64 m entry)) then err (MsiNotMapped loc) else modify (write64 entry 0).

Definition msi_address_pattern (self : t) : Z * Z :=
  (ImsicGeometry.base_addr (src_geometry self), ImsicGeometry.index_mask (src_geometry self)).

(** [Drop] of the inner table. *)
Definition drop_ (self : t) : M PageTracker.t IommuError.t unit :=
  pages ← of_outcome (unwrap_option (SequentialPages.from_mem_range (SequentialPages.addr (pages self)) Size4k
            (SequentialPages.count (pages self))));
  ps ← of_outcome (SequentialPages.into_iter pages);
  for_each ps (λ p, unwrap (PageTracker.release_page p)).
End MsiPageTable.

(** ** The device directory *)
Module DeviceId.
Abbreviation t := Z.
Definition DEVICE_ID_BITS : Z := 24.
Definition LEAF_INDEX_BITS : Z := 6.
Definition NON_LEAF_INDEX_BITS : Z := 9.
Definition new (val : Z) : option t :=
  if Z.land val (2 ^ 32 - 1 - (Z.shiftl 1 DEVICE_ID_BITS - 1)) =? 0 then Some val else None.
Definition level_index_bits (id : t) (level : nat) : Z :=
  match level with
  | O => Z.land id (Z.shiftl 1 LEAF_INDEX_BITS - 1)
  | S l =>
      let shift := LEAF_INDEX_BITS + NON_LEAF_INDEX_BITS * Z.of_nat l in
      Z.land (Z.shiftr id shift) (Z.shiftl 1 NON_LEAF_INDEX_BITS - 1)
  end.
(** [TryFrom<Address>]: the requester id of a PCI device. *)
Definition try_from (address : Z) : result IommuError.t t := ok_or (new address) (PciAddressTooLarge address).
End DeviceId.

(** A device context is eight words; a reference to it is its address. *)
Module DeviceContext.
Definition SIZE : Z := 64.
Definition tc (dc : Z) : Z := dc.
Definition iohgatp (dc : Z) : Z := dc + 8.
Definition fsc (dc : Z) : Z := dc + 16.
Definition ta (dc : Z) : Z := dc + 24.
Definition msiptp (dc : Z) : Z := dc + 32.
Definition msi_addr_mask (dc : Z) : Z := dc + 40.
Definition msi_addr_pattern (dc : Z) : Z := dc + 48.
Definition DC_VALID : Z := Z.shiftl 1 0.
Definition DC_SW_INVALIDATED : Z := Z.shiftl 1 31.

Definition init (dc : Z) (m : mem) : mem :=
  write64 (msi_addr_pattern dc) 0 (write64 (msi_addr_mask dc) 0 (write64 (msiptp dc) 0 (write64 (ta dc) 0
    (write64 (fsc dc) 0 (write64 (iohgatp dc) 0 (write64 (tc dc) DC_SW_INVALIDATED m)))))).
Definition present (dc : Z) (m : mem) : bool :=
  negb (Z.land (read64 m (tc dc)) (Z.lor DC_VALID DC_SW_INVALIDATED) =? 0).
Definition valid (dc : Z) (m : mem) : bool := negb (Z.land (read64 m (tc dc)) DC_VALID =? 0).
Definition set (dc : Z) (pt : GuestStagePageTable.t Sv48x4Level.t) (msi_pt : MsiPageTable.t) (gscid : Z) (m : mem) : mem :=
  let m := write64 (msiptp dc)
    (Z.lor (PageAddr.pfn (SequentialPages.addr (MsiPageTable.pages msi_pt))) (Z.shiftl 1 60)) m in
  let '(addr, mask) := MsiPageTable.msi_address_pattern msi_pt in
  let m := write64 (msi_addr_mask dc) (Z.shiftr mask 12) m in
  let m := write64 (msi_addr_pattern dc) (PageAddr.pfn addr) m in
  let m := write64 (iohgatp dc)
    (Z.lor (Z.lor (PageAddr.pfn (GuestStagePageTable.get_root_address pt)) (Z.shiftl gscid 44))
       (shl64 Sv48x4.HGATP_MODE 60)) m in
  write64 (tc dc) DC_VALID m.
Definition invalidate (dc : Z) (m : mem) : mem := write64 (tc dc) DC_SW_INVALIDATED m.
End DeviceContext.

Module NonLeafEntry.
Definition SIZE : Z := 8.
Definition NL_PFN_BITS : Z := 44.
Definition NL_PFN_MASK : Z := Z.shiftl 1 NL_PFN_BITS - 1.
Definition NL_PFN_SHIFT : Z := 10.
Definition NL_VALID : Z := 1.
Definition valid (v : Z) : bool := negb (Z.land v NL_VALID =? 0).
Definition pfn (v : Z) : Z := Z.land (Z.shiftr v NL_PFN_SHIFT) NL_PFN_MASK.
Definition set (pfn : Z) : Z := Z.lor (shl64 pfn NL_PFN_SHIFT) NL_VALID.
End NonLeafEntry.

Module DeviceDirectoryTable.
Record t := mk { table_addr : Z; level : nat }.
Inductive entry :=
| PresentLeaf (dc : Z)
| NotPresentLeaf (dc : Z)
| NextLevel (table : t)
| Invalid (nle : Z) (level : nat).

Definition from_non_leaf_entry (m : mem) (nle : Z) (level : nat) : outcome (option t) :=
  if NonLeafEntry.valid (read64 m nle) then
    a ← unwrap_option (PageAddr.from_pfn (NonLeafEntry.pfn (read64 m nle)) Size4k);
    Returns (Some (mk a level))
  else Returns None.

(** [as_mut().unwrap()] panics on a null pointer. *)
Definition non_null (a : Z) : outcome Z := if a =? 0 then Panics else Returns a.

Definition entry_for_id (self : t) (id : DeviceId.t) (m : mem) : outcome entry :=
  let index := DeviceId.level_index_bits id (level self) in
  match level self with
  | O =>
      dc ← non_null (table_addr self + DeviceContext.SIZE * index);
      Returns (if DeviceContext.present dc m then PresentLeaf dc else NotPresentLeaf dc)
  | S level' =>
      nle ← non_null (table_addr self + NonLeafEntry.SIZE * index);
      if NonLeafEntry.valid (read64 m nle) then
        o ← from_non_leaf_entry m nle level';
        table ← unwrap_option o;
        Returns (NextLevel table)
      else Returns (Invalid nle level')
  end.

(** [get_page] hands out the pages of a list. *)
Definition next_level_or_fill (self : t) (id : DeviceId.t) : M (mem * list Page.t) IommuError.t t :=
  '(m, pages) ← get;
  entry ← of_outcome (entry_for_id self id m);
  match entry with
  | NextLevel t => mret t
  | Invalid nle level =>
      match pages with
      | [] => err OutOfPages
      | page :: rest =>
          let m := write64 nle (NonLeafEntry.set (PageAddr.pfn (Page.addr page))) m in
          put (m, rest);;
          o ← of_outcome (from_non_leaf_entry m nle level);
          of_outcome (unwrap_option o)
      end
  | _ => err NotIntermediateTable
  end.
End DeviceDirectoryTable.
Import DeviceDirectoryTable(PresentLeaf, NotPresentLeaf, NextLevel, Invalid).

Module DeviceDirectory.
(** The address of the root page; [Ddt3Level] has three levels. *)
Abbreviation t := Z.
Definition LEVELS : nat := 3.
Definition from_root (root : t) : DeviceDirectoryTable.t := DeviceDirectoryTable.mk root (LEVELS - 1).

(** The loop follows one level per turn. *)
Fixpoint follow (fuel : nat) (id : DeviceId.t) (m : mem) (e : DeviceDirectoryTable.entry) : outcome (option Z) :=
  match e with
  | NextLevel table =>
      match fuel with
      | O => Panics
      | S fuel => e ← DeviceDirectoryTable.entry_for_id table id m; follow fuel id m e
      end
  | PresentLeaf dc => Returns (Some dc)
  | _ => Returns None
  end.
Definition get_context_for_id (root : t) (id : DeviceId.t) (m : mem) : outcome (option Z) :=
  e ← DeviceDirectoryTable.entry_for_id (from_root root) id m;
  follow LEVELS id m e.

Fixpoint fill (fuel : nat) (id : DeviceId.t) (table : DeviceDirectoryTable.t)
    : M (mem * list Page.t) IommuError.t DeviceDirectoryTable.t :=
  match DeviceDirectoryTable.level table with
  | O => mret table
  | S _ =>
      match fuel with
      | O => panic
      | S fuel => table ← DeviceDirectoryTable.next_level_or_fill table id; fill fuel id table
      end
  end.
Definition add_device (root : t) (id : DeviceId.t) : M (mem * list Page.t) IommuError.t unit :=
  table ← fill LEVELS id (from_root root);
  '(m, pages) ← get;
  e ← of_outcome (DeviceDirectoryTable.entry_for_id table id m);
  match e with
  | NotPresentLeaf dc => put (DeviceContext.init dc m, pages)
  | _ => mret tt
  end.

Definition enable_device (root : t) (id : DeviceId.t) (pt : GuestStagePageTable.t Sv48x4Level.t)
    (msi_pt : MsiPageTable.t) (gscid : Z) : M mem IommuError.t unit :=
  if bool_decide (GuestStagePageTable.page_owner_id pt ≠ MsiPageTable.owner msi_pt) then err OwnerMismatch
  else
    m ← get;
    o ← of_outcome (get_context_for_id root id m);
    dc ← lift (ok_or o (DeviceNotFound id));
    if DeviceContext.valid dc m then err (DeviceAlreadyEnabled id)
    else modify (DeviceContext.set dc pt msi_pt gscid).
Definition disable_device (root : t) (id : DeviceId.t) : M mem IommuError.t unit :=
  m ← get;
  o ← of_outcome (get_context_for_id root id m);
  dc ← lift (ok_or o (DeviceNotFound id));
  if negb (DeviceContext.valid dc m) then err (DeviceNotEnabled id)
  else modify (DeviceContext.invalidate dc).
End DeviceDirectory.

(** ** Queues *)
Module Queue.
Section queue.
Context {T : Type}.
(** The elements of the page, by index; [capacity] elements fit. *)
Record t := mk { slots : gmap Z T; head : Z; tail : Z; capacity : Z }.

(** [new] asserts that the size of an element is a power of two below 4096. *)
Definition new (size : Z) : outcome t :=
  if (0 <? size) && (Z.land size (size - 1) =? 0) && (size <? PageSize.bytes Size4k)
  then Returns (mk ∅ 0 0 (PageSize.bytes Size4k / size)) else Panics.
Definition is_empty (q : t) : bool := head q =? tail q.
Definition is_full (q : t) : bool := Z.land (wrap64 (tail q + 1)) (capacity q - 1) =? head q.

(** Software produces. *)
Definition update_head (h : Z) : M t IommuError.t unit := λ q,
  if (capacity q <=? h)
     || ((head q <=? tail q) && ((tail q <? h) || (h <? head q)))
     || ((tail q <? head q) && (tail q <? h) && (h <? head q))
  then Returns (Err (InvalidQueuePointer h), q)
  else Returns (Ok tt, mk (slots q) h (tail q) (capacity q)).
(** [get_ref] fails outside of the page. *)
Definition push (elem : T) : M t IommuError.t unit := λ q,
  if is_full q then Returns (Err QueueFull, q)
  else if capacity q <=? tail q then Panics
  else Returns (Ok tt, mk (<[tail q := elem]> (slots q)) (head q) (Z.land (wrap64 (tail q + 1)) (capacity q - 1))
                         (capacity q)).

(** Software consumes. *)
Definition update_tail (x : Z) : M t IommuError.t unit := λ q,
  if (capacity q <=? x)
     || ((head q <? tail q) && (head q <=? x) && (x <? tail q))
     || ((tail q <? head q) && ((head q <=? x) || (x <? tail q)))
  then Returns (Err (InvalidQueuePointer x), q)
  else Returns (Ok tt, mk (slots q) (head q) x (capacity q)).
Definition pop : M t IommuError.t (option T) := λ q,
  if is_empty q then Returns (Err QueueEmpty, q)
  else if capacity q <=? head q then Panics
  else Returns (Ok (slots q !! head q), mk (slots q) (wrap64 (head q + 1)) (tail q) (capacity q)).
End queue.
Arguments t : clear implicits.
End Queue.

Module Command.
Record t := mk { op : Z; addr : Z }.
Definition SIZE : Z := 16.
Definition FUNC3_SHIFT : Z := 7.
Definition iotinval_gvma (gscid gpa : option Z) : t :=
  let o := Z.lor 1 (Z.shiftl 1 FUNC3_SHIFT) in
  let o := match gscid with Some g => Z.lor o (Z.lor (Z.shiftl 1 12) (shl64 g 40)) | None => o end in
  match gpa with
  | Some a => mk (Z.lor o (Z.shiftl 1 11)) a
  | None => mk o 0
  end.
Definition iodir_inval_ddt (dev : option DeviceId.t) : t :=
  let o := Z.lor 3 (Z.shiftl 0 FUNC3_SHIFT) in
  mk (match dev with Some d => Z.lor o (Z.lor (Z.shiftl 1 10) (shl64 d 40)) | None => o end) 0.
Definition iofence : t := mk (Z.lor (Z.lor 2 (Z.shiftl 1 10)) (Z.shiftl 1 11)) 0.
End Command.

(** ** PCI devices, as far as the IOMMU is concerned *)
Class IommuDevice (D : Type) := {
  dev_address : D → Z;
  dev_owner : D → option PageOwnerId.t;
  dev_set_attached : D → D;
  dev_clear_attached : D → D;
}.

(** ** The IOMMU device *)
Module GscIdState.
Record t := mk { owner : PageOwnerId.t; ref_count : Z }.
End GscIdState.

Module Iommu.
Definition MAX_GSCIDS : nat := 64.
Record t := mk { command_queue : Queue.t Command.t; ddt : DeviceDirectory.t; gscids : list (option GscIdState.t) }.

(** The state of the operations: the IOMMU, the memory and the device in question. *)
Record state {D : Type} := State { iommu : t; mem_ : mem; dev : D }.
#[global] Arguments state : clear implicits.
#[global] Arguments State {_} _ _ _.

Section iommu.
Context `{DEV : IommuDevice D}.
Abbreviation op A := (M (state D) IommuError.t A).
Definition set_gscids (l : list (option GscIdState.t)) (s : state D) : state D :=
  State (mk (command_queue (iommu s)) (ddt (iommu s)) l) (mem_ s) (dev s).
Definition set_dev (d : D) (s : state D) : state D := State (iommu s) (mem_ s) d.
Definition on_mem_ {A} (f : M mem IommuError.t A) : op A := λ s,
  match f (mem_ s) with
  | Returns (r, m) => Returns (r, State (iommu s) m (dev s))
  | Panics => Panics
  end.
Definition on_queue {A} (f : M (Queue.t Command.t) IommuError.t A) : op A := λ s,
  match f (command_queue (iommu s)) with
  | Returns (r, q) => Returns (r, State (mk q (ddt (iommu s)) (gscids (iommu s))) (mem_ s) (dev s))
  | Panics => Panics
  end.

Definition alloc_gscid (owner : PageOwnerId.t) : op Z :=
  s ← get;
  next ← lift (ok_or (position (λ g, bool_decide (g = None)) (gscids (iommu s))) OutOfGscIds);
  modify (set_gscids (<[next := Some (GscIdState.mk owner 0)]> (gscids (iommu s))));;
  mret (Z.of_nat next).

Definition free_gscid (gscid : Z) : op unit :=
  s ← get;
  state ← lift (ok_or (gscids (iommu s) !! Z.to_nat gscid) (InvalidGscId gscid));
  match state with
  | Some x =>
      if 0 <? GscIdState.ref_count x then err (GscIdInUse gscid)
      else modify (set_gscids (<[Z.to_nat gscid := None]> (gscids (iommu s))))
  | None => err (GscIdAlreadyFree gscid)
  end.

Definition get_gscid (gscid : Z) : op GscIdState.t :=
  s ← get;
  lift (ok_or (mjoin (gscids (iommu s) !! Z.to_nat gscid)) (InvalidGscId gscid)).
Definition set_ref_count (gscid : Z) (x : GscIdState.t) (n : Z) : op unit :=
  modify (λ s, set_gscids (<[Z.to_nat gscid := Some (GscIdState.mk (GscIdState.owner x) n)]> (gscids (iommu s))) s).

Definition attach_pci_device (pt : GuestStagePageTable.t Sv48x4Level.t) (msi_pt : MsiPageTable.t) (gscid : Z) : op unit :=
  s ← get;
  dev_id ← lift (DeviceId.try_from (dev_address (dev s)));
  x ← get_gscid gscid;
  if bool_decide (GuestStagePageTable.page_owner_id pt ≠ GscIdState.owner x)
     || bool_decide (MsiPageTable.owner msi_pt ≠ GscIdState.owner x)
     || bool_decide (dev_owner (dev s) ≠ Some (GscIdState.owner x))
  then err OwnerMismatch
  else
    on_mem_ (DeviceDirectory.enable_device (ddt (iommu s)) dev_id pt msi_pt gscid);;
    modify (λ s, set_dev (dev_set_attached (dev s)) s);;
    set_ref_count gscid x (wrap64 (GscIdState.ref_count x + 1)).

(** Posts the commands and waits until the hardware's head has reached the tail. *)
Definition submit_commands_sync (commands : list Command.t) : op unit :=
  for_each commands (λ cmd, on_queue (Queue.push cmd));;
  s ← get;
  unwrap (on_queue (Queue.update_head (Queue.tail (command_queue (iommu s))))).

Definition detach_pci_device (gscid : Z) : op unit :=
  s ← get;
  dev_id ← lift (DeviceId.try_from (dev_address (dev s)));
  x ← get_gscid gscid;
  if bool_decide (dev_owner (dev s) ≠ Some (GscIdState.owner x)) then err OwnerMismatch
  else
    modify (λ s, set_dev (dev_clear_attached (dev s)) s);;
    on_mem_ (DeviceDirectory.disable_device (ddt (iommu s)) dev_id);;
    set_ref_count gscid x (wrap64 (GscIdState.ref_count x - 1));;
    unwrap (submit_commands_sync [Command.iodir_inval_ddt (Some dev_id); Command.iofence]).

Definition fence (gscid : Z) (addr : option Z) : op unit :=
  unwrap (submit_commands_sync [Command.iotinval_gvma (Some gscid) addr; Command.iofence]).
End iommu.
End Iommu.
