(* ===== verification/DeviceDirectoryFacts.v ===== *)
(** * Theorems about the device directory

    The directory is a tree of tables in memory.  [context] is what it means: the
    words of the device context of a device, if the device was added.  Adding,
    enabling and disabling a device change the context of that device only. *)
From S2P Require Import Prelude RiscvPages PageInfoModel PageMapModel Tracker Pte PageTableModel Imsic Iommu.
Import PageSize(Size4k).
Import IommuError.
Import DeviceDirectoryTable(PresentLeaf, NotPresentLeaf, NextLevel, Invalid).

Lemma read64_write64 a b v m : read64 (write64 a v m) b = if decide (a = b) then v else read64 m b.
Proof.
  unfold read64, write64, read_pte. destruct (decide (a = b)) as [->|]; [by rewrite lookup_insert_eq|].
  by rewrite lookup_insert_ne.
Qed.

(** The table that a non-leaf entry points to. *)
Definition child (v : Z) : Z := NonLeafEntry.pfn v * 4096.
Definition device_id (id : Z) : Prop := 0 ≤ id < 2 ^ 24.
Abbreviation idx := DeviceId.level_index_bits.

Lemma idx_bound id l : 0 ≤ idx id l < match l with O => 64 | S _ => 512 end.
Proof.
  destruct l; cbn [DeviceId.level_index_bits]; rewrite Z.shiftl_1_l, land_mask_mod by done; by apply Z.mod_pos_bound.
Qed.

Lemma idx_inj id id' : device_id id → device_id id' → (∀ l, (l ≤ 2)%nat → idx id l = idx id' l) → id = id'.
Proof.
  intros Hi Hi' H. pose proof (H 0%nat ltac:(lia)) as H0. pose proof (H 1%nat ltac:(lia)) as H1.
  pose proof (H 2%nat ltac:(lia)) as H2. cbn [DeviceId.level_index_bits] in *.
  unfold DeviceId.LEAF_INDEX_BITS, DeviceId.NON_LEAF_INDEX_BITS, device_id in *.
  rewrite !Z.shiftl_1_l, !land_mask_mod, ?Z.shiftr_div_pow2 in * by done. cbn in *. mod_lia.
Qed.

(** The words of a device context. *)
Record device_context := Context_ {
  c_tc : Z; c_iohgatp : Z; c_fsc : Z; c_ta : Z; c_msiptp : Z; c_mask : Z; c_pattern : Z
}.
Definition words (m : mem) (dc : Z) : device_context :=
  Context_ (read64 m (DeviceContext.tc dc)) (read64 m (DeviceContext.iohgatp dc)) (read64 m (DeviceContext.fsc dc))
    (read64 m (DeviceContext.ta dc)) (read64 m (DeviceContext.msiptp dc)) (read64 m (DeviceContext.msi_addr_mask dc))
    (read64 m (DeviceContext.msi_addr_pattern dc)).
Definition enabled (c : device_context) : bool := negb (Z.land (c_tc c) DeviceContext.DC_VALID =? 0).

Lemma words_ext m m' dc :
  (∀ k, 0 ≤ k < 8 → read64 m' (dc + 8 * k) = read64 m (dc + 8 * k)) →
  words m' dc = words m dc ∧ DeviceContext.present dc m' = DeviceContext.present dc m.
Proof.
  intros H. assert (H0 : read64 m' dc = read64 m dc).
  { specialize (H 0 ltac:(lia)). by rewrite Z.mul_0_r, Z.add_0_r in H. }
  unfold words, DeviceContext.present, DeviceContext.tc. rewrite H0. split; [|done].
  f_equal; [apply (H 1)|apply (H 2)|apply (H 3)|apply (H 4)|apply (H 5)|apply (H 6)]; lia.
Qed.

Section directory.
Variable root : Z.

(** [T] gives the level of each table. *)
Record dir_wf (T : gmap Z nat) (m : mem) : Prop := {
  dw_root : T !! root = Some 2%nat;
  dw_phys a l : T !! a = Some l → phys a ∧ a ≠ 0;
  dw_child a l i : T !! a = Some (S l) → 0 ≤ i < 512 → NonLeafEntry.valid (read64 m (a + 8 * i)) = true →
    T !! child (read64 m (a + 8 * i)) = Some l;
  dw_tree a l i a' l' i' : T !! a = Some (S l) → T !! a' = Some (S l') → 0 ≤ i < 512 → 0 ≤ i' < 512 →
    NonLeafEntry.valid (read64 m (a + 8 * i)) = true → NonLeafEntry.valid (read64 m (a' + 8 * i')) = true →
    child (read64 m (a + 8 * i)) = child (read64 m (a' + 8 * i')) → a = a' ∧ i = i'
}.

(** The leaf table of a device, below the table [a]. *)
Fixpoint leaf_table (m : mem) (lvl : nat) (a id : Z) : option Z :=
  match lvl with
  | O => Some a
  | S l =>
      let v := read64 m (a + 8 * idx id lvl) in
      if NonLeafEntry.valid v then leaf_table m l (child v) id else None
  end.
Definition find (m : mem) (lvl : nat) (a id : Z) : option Z :=
  b ← leaf_table m lvl a id;
  let dc := b + 64 * idx id 0 in
  if DeviceContext.present dc m then Some dc else None.
Definition context (m : mem) (id : Z) : option device_context := words m <$> find m 2 root id.

Lemma leaf_table_level T m lvl a id b :
  dir_wf T m → T !! a = Some lvl → leaf_table m lvl a id = Some b → T !! b = Some 0%nat.
Proof.
  intros Hwf. revert a. induction lvl as [|l IH]; intros a Ha; [by intros [= <-]|].
  cbn [leaf_table]. destruct (NonLeafEntry.valid _) eqn:Hv; [|done]. apply IH.
  apply (dw_child _ _ Hwf); [done|apply (idx_bound id (S l))|done].
Qed.

(** A leaf table is reached by one path only. *)
Lemma leaf_table_path T m lvl a a' id id' b :
  dir_wf T m → T !! a = Some lvl → T !! a' = Some lvl →
  leaf_table m lvl a id = Some b → leaf_table m lvl a' id' = Some b →
  a = a' ∧ ∀ k, (1 ≤ k ≤ lvl)%nat → idx id k = idx id' k.
Proof.
  intros Hwf. revert a a'. induction lvl as [|l IH]; intros a a' Ha Ha'.
  { intros [= ->] [= ->]. split; [done|]. lia. }
  cbn [leaf_table]. destruct (NonLeafEntry.valid (read64 m (a + _))) eqn:Hv; [|done].
  destruct (NonLeafEntry.valid (read64 m (a' + _))) eqn:Hv'; [|done]. intros H1 H2.
  destruct (IH (child (read64 m (a + 8 * idx id (S l)))) (child (read64 m (a' + 8 * idx id' (S l))))) as [Hc Hk];
    [apply (dw_child _ _ Hwf); [done|apply (idx_bound _ (S l))|done]..|done|done|].
  destruct (dw_tree _ _ Hwf a l (idx id (S l)) a' l (idx id' (S l))) as [-> Hi];
    [done|done|apply (idx_bound _ (S l))|apply (idx_bound _ (S l))|done..|].
  split; [done|]. intros k Hk'. destruct (decide (k = S l)) as [->|]; [done|]. apply Hk. lia.
Qed.

(** Addresses in different pages. *)
Lemma page_ne a b x y : phys a → phys b → a ≠ b → 0 ≤ x < 4096 → 0 ≤ y < 4096 → a + x ≠ b + y.
Proof. intros [Ha Ham] [Hb Hbm] Hne Hx Hy. mod_lia. Qed.

(** Memory that differs in leaf tables only. *)
Definition same_inner (T : gmap Z nat) (m m' : mem) : Prop :=
  ∀ a l i, T !! a = Some (S l) → 0 ≤ i < 512 → read64 m' (a + 8 * i) = read64 m (a + 8 * i).

Lemma same_inner_wf T m m' : same_inner T m m' → dir_wf T m → dir_wf T m'.
Proof.
  intros Hs [H1 H2 H3 H4]. split; [done|done| |].
  - intros a l i Ha Hi. rewrite (Hs a l i Ha Hi). by apply H3.
  - intros a l i a' l' i' Ha Ha' Hi Hi'. rewrite (Hs a l i Ha Hi), (Hs a' l' i' Ha' Hi'). by eapply H4.
Qed.

Lemma same_inner_leaf T m m' lvl a id :
  same_inner T m m' → dir_wf T m → T !! a = Some lvl → leaf_table m' lvl a id = leaf_table m lvl a id.
Proof.
  intros Hs Hwf. revert a. induction lvl as [|l IH]; intros a Ha; [done|]. cbn [leaf_table].
  rewrite (Hs a l) by (done || apply (idx_bound _ (S l))). destruct (NonLeafEntry.valid _) eqn:Hv; [|done].
  apply IH. apply (dw_child _ _ Hwf); [done|apply (idx_bound id (S l))|done].
Qed.

(** ** Updates of one context *)
Definition only_at (dc : Z) (m m' : mem) : Prop :=
  ∀ w, (∀ k, 0 ≤ k < 8 → w ≠ dc + 8 * k) → read64 m' w = read64 m w.

Section update.
Variables (T : gmap Z nat) (m m' : mem) (id b : Z).
Hypotheses (Hwf : dir_wf T m) (Hleaf : leaf_table m 2 root id = Some b).
Abbreviation dc := (b + 64 * idx id 0).
Hypothesis Hat : only_at dc m m'.

Lemma update_inner : same_inner T m m'.
Proof using Hwf Hleaf Hat.
  intros a l i Ha Hi. apply Hat. intros k Hk. pose proof (leaf_table_level T m 2 root id b Hwf (dw_root _ _ Hwf) Hleaf) as Hb.
  destruct (dw_phys _ _ Hwf _ _ Ha) as [Hap _]. destruct (dw_phys _ _ Hwf _ _ Hb) as [Hbp _].
  pose proof (idx_bound id 0). replace (b + 64 * idx id 0 + 8 * k) with (b + (64 * idx id 0 + 8 * k)) by lia.
  apply page_ne; [done..| |lia|lia]. intros ->. congruence.
Qed.

Lemma update_wf : dir_wf T m'.
Proof using Hwf Hleaf Hat. eapply same_inner_wf; [apply update_inner|done]. Qed.

Lemma update_leaf id' : leaf_table m' 2 root id' = leaf_table m 2 root id'.
Proof using Hwf Hleaf Hat. eapply same_inner_leaf; [apply update_inner|done|apply Hwf]. Qed.

Lemma update_other id' : device_id id → device_id id' → id' ≠ id → context m' id' = context m id'.
Proof using Hwf Hleaf Hat.
  intros Hi Hi' Hne. unfold context, find. rewrite update_leaf.
  destruct (leaf_table m 2 root id') as [b'|] eqn:Hb'; [|done]. cbn [mbind option_bind].
  assert (Hsame : ∀ k, 0 ≤ k < 8 → read64 m' (b' + 64 * idx id' 0 + 8 * k) = read64 m (b' + 64 * idx id' 0 + 8 * k)).
  { intros k Hk. apply Hat. intros j Hj. pose proof (idx_bound id 0). pose proof (idx_bound id' 0).
    destruct (decide (b' = b)) as [->|Hbb].
    - destruct (leaf_table_path T m 2 root root id id' b) as [_ Hp]; [done|apply Hwf|apply Hwf|done..|].
      assert (idx id 0 ≠ idx id' 0); [|lia]. intros E0. apply Hne. symmetry. apply idx_inj; [done..|].
      intros [|l] Hl; [done|]. apply Hp. lia.
    - pose proof (leaf_table_level T m 2 root id b Hwf (dw_root _ _ Hwf) Hleaf) as Hbt.
      pose proof (leaf_table_level T m 2 root id' b' Hwf (dw_root _ _ Hwf) Hb') as Hbt'.
      rewrite <-!Z.add_assoc. apply page_ne; [by eapply dw_phys..|done|lia|lia]. }
  apply words_ext in Hsame as [Hwords ->]. destruct (DeviceContext.present _ m); [|done]. unfold fmap, option_fmap, option_map. by rewrite Hwords.
Qed.

Lemma update_this : context m' id = if DeviceContext.present dc m' then Some (words m' dc) else None.
Proof using Hwf Hleaf Hat.
  unfold context, find. rewrite update_leaf, Hleaf. cbn [mbind option_bind]. by destruct (DeviceContext.present _ m').
Qed.
End update.

(** ** Walks *)
Lemma entry_for_id_eq T m a lvl id :
  dir_wf T m → T !! a = Some lvl →
  DeviceDirectoryTable.entry_for_id (DeviceDirectoryTable.mk a lvl) id m = Returns
    match lvl with
    | O => if DeviceContext.present (a + 64 * idx id 0) m then PresentLeaf (a + 64 * idx id 0)
           else NotPresentLeaf (a + 64 * idx id 0)
    | S l => let nle := a + 8 * idx id lvl in
             if NonLeafEntry.valid (read64 m nle) then NextLevel (DeviceDirectoryTable.mk (child (read64 m nle)) l)
             else Invalid nle l
    end.
Proof.
  intros Hwf Ha. destruct (dw_phys _ _ Hwf _ _ Ha) as [[Hr _] H0]. pose proof (idx_bound id lvl) as Hb.
  unfold DeviceDirectoryTable.entry_for_id, DeviceDirectoryTable.non_null. cbn [DeviceDirectoryTable.level DeviceDirectoryTable.table_addr].
  destruct lvl as [|l].
  - unfold DeviceContext.SIZE. rewrite (proj2 (Z.eqb_neq _ _)) by lia. done.
  - unfold NonLeafEntry.SIZE. rewrite (proj2 (Z.eqb_neq _ _)) by lia. cbn [mbind outcome_bind]. 
    destruct (NonLeafEntry.valid _) eqn:Hv; [|done].
    unfold DeviceDirectoryTable.from_non_leaf_entry. rewrite Hv.
    assert (PageAddr.from_pfn (NonLeafEntry.pfn (read64 m (a + 8 * idx id (S l)))) Size4k
      = Some (child (read64 m (a + 8 * idx id (S l))))) as ->; [|done].
    unfold child. set (p := NonLeafEntry.pfn _).
    assert (0 ≤ p < 2 ^ 44).
    { unfold p, NonLeafEntry.pfn, NonLeafEntry.NL_PFN_MASK, NonLeafEntry.NL_PFN_BITS.
      rewrite Z.shiftl_1_l, land_mask_mod by lia. by apply Z.mod_pos_bound. }
    unfold PageAddr.from_pfn, PageAddr.PFN_SHIFT, wrap64. rewrite Z.shiftl_mul_pow2, Z.mod_small by lia.
    apply with_alignment_Some. split; [done|]. by rewrite Z.mod_mul.
Qed.

Lemma follow_eq T m lvl a id fuel :
  dir_wf T m → T !! a = Some lvl → (lvl ≤ fuel)%nat →
  (e ← DeviceDirectoryTable.entry_for_id (DeviceDirectoryTable.mk a lvl) id m; DeviceDirectory.follow fuel id m e)
  = Returns (find m lvl a id).
Proof.
  intros Hwf. revert a fuel. induction lvl as [|l IH]; intros a fuel Ha Hf; rewrite (entry_for_id_eq T) by done;
    rewrite obind_ret; unfold find; cbn [leaf_table].
  - cbn [mbind option_bind]. by destruct (DeviceContext.present _ m), fuel.
  - destruct (NonLeafEntry.valid _) eqn:Hv; [|by destruct fuel].
    destruct fuel as [|fuel]; [lia|]. cbn [DeviceDirectory.follow]. apply IH; [|lia].
    apply (dw_child _ _ Hwf); [done|apply (idx_bound id (S l))|done].
Qed.

Lemma get_context_eq T m id : dir_wf T m → DeviceDirectory.get_context_for_id root id m = Returns (find m 2 root id).
Proof. intros Hwf. apply (follow_eq T); [done|apply Hwf|]. unfold DeviceDirectory.LEVELS. lia. Qed.

Lemma find_inv m id dc : find m 2 root id = Some dc →
  ∃ b, leaf_table m 2 root id = Some b ∧ dc = b + 64 * idx id 0 ∧ DeviceContext.present dc m = true.
Proof.
  unfold find. intros (b & Hb & Hd)%bind_Some. exists b. destruct (DeviceContext.present _ m) eqn:Hp; [|done].
  injection Hd as <-. done.
Qed.

(** ** Enabling and disabling *)
Definition configured (pt : GuestStagePageTable.t Sv48x4Level.t) (msi_pt : MsiPageTable.t) (gscid : Z) (c : device_context)
    : device_context :=
  Context_ DeviceContext.DC_VALID
    (Z.lor (Z.lor (PageAddr.pfn (GuestStagePageTable.get_root_address pt)) (Z.shiftl gscid 44)) (shl64 Sv48x4.HGATP_MODE 60))
    (c_fsc c) (c_ta c)
    (Z.lor (PageAddr.pfn (SequentialPages.addr (MsiPageTable.pages msi_pt))) (Z.shiftl 1 60))
    (Z.shiftr (ImsicGeometry.index_mask (MsiPageTable.src_geometry msi_pt)) 12)
    (PageAddr.pfn (ImsicGeometry.base_addr (MsiPageTable.src_geometry msi_pt))).

Definition disabled (c : device_context) : device_context :=
  Context_ DeviceContext.DC_SW_INVALIDATED (c_iohgatp c) (c_fsc c) (c_ta c) (c_msiptp c) (c_mask c) (c_pattern c).

(** The context of [id] changes from [c] to [c'], nothing else does. *)
Definition context_step T (m m' : mem) (id : Z) (c c' : device_context) : Prop :=
  context m id = Some c ∧ context m' id = Some c' ∧ dir_wf T m' ∧
  ∀ id', device_id id' → id' ≠ id → context m' id' = context m id'.

Lemma context_update T m m' id dc :
  dir_wf T m → device_id id → find m 2 root id = Some dc → only_at dc m m' → DeviceContext.present dc m' = true →
  context_step T m m' id (words m dc) (words m' dc).
Proof.
  intros Hwf Hid Hf Hat Hp. pose proof Hf as (b & Hb & -> & _)%find_inv. split_and!.
  - unfold context. by rewrite Hf.
  - rewrite (update_this T m m' id b) by done. by rewrite Hp.
  - by apply (update_wf T m m' id b).
  - intros id' Hid' Hne. by apply (update_other T m m' id b).
Qed.

Ltac dc_words :=
  unfold words, DeviceContext.set, DeviceContext.invalidate, DeviceContext.init, MsiPageTable.msi_address_pattern;
  unfold DeviceContext.tc, DeviceContext.iohgatp, DeviceContext.fsc, DeviceContext.ta, DeviceContext.msiptp,
    DeviceContext.msi_addr_mask, DeviceContext.msi_addr_pattern; rewrite !read64_write64;
  repeat first [rewrite decide_True by done | rewrite decide_False by lia].

Lemma set_words dc pt msi_pt gscid m :
  words (DeviceContext.set dc pt msi_pt gscid m) dc = configured pt msi_pt gscid (words m dc) ∧
  only_at dc m (DeviceContext.set dc pt msi_pt gscid m).
Proof.
  split; [by dc_words|]. intros w Hw.
  pose proof (Hw 0). pose proof (Hw 1). pose proof (Hw 4). pose proof (Hw 5). pose proof (Hw 6). by dc_words.
Qed.

Lemma invalidate_words dc m :
  words (DeviceContext.invalidate dc m) dc = disabled (words m dc) ∧
  only_at dc m (DeviceContext.invalidate dc m).
Proof. split; [by dc_words|]. intros w Hw. pose proof (Hw 0). by dc_words. Qed.

Lemma init_words dc m :
  words (DeviceContext.init dc m) dc = Context_ DeviceContext.DC_SW_INVALIDATED 0 0 0 0 0 0 ∧
  only_at dc m (DeviceContext.init dc m).
Proof.
  split; [by dc_words|]. intros w Hw. pose proof (Hw 0). pose proof (Hw 1). pose proof (Hw 2). pose proof (Hw 3).
  pose proof (Hw 4). pose proof (Hw 5). pose proof (Hw 6). by dc_words.
Qed.

Lemma present_words dc m : DeviceContext.present dc m =
  negb (Z.land (c_tc (words m dc)) (Z.lor DeviceContext.DC_VALID DeviceContext.DC_SW_INVALIDATED) =? 0).
Proof. done. Qed.

Lemma dir_enable_spec T m id pt msi_pt gscid :
  dir_wf T m → device_id id →
  ∃ r m', DeviceDirectory.enable_device root id pt msi_pt gscid m = Returns (r, m') ∧
    match r with
    | Ok _ => GuestStagePageTable.page_owner_id pt = MsiPageTable.owner msi_pt ∧
        ∃ c, enabled c = false ∧ context_step T m m' id c (configured pt msi_pt gscid c)
    | Err e => m' = m ∧
        match e with
        | OwnerMismatch => GuestStagePageTable.page_owner_id pt ≠ MsiPageTable.owner msi_pt
        | DeviceNotFound _ => context m id = None
        | DeviceAlreadyEnabled _ => ∃ c, context m id = Some c ∧ enabled c = true
        | _ => False
        end
    end.
Proof.
  intros Hwf Hid. unfold DeviceDirectory.enable_device. case_bool_decide as Ho; [by do 2 eexists|].
  erewrite bind_ok by done. rewrite (get_context_eq T) by done. erewrite bind_ok by done.
  destruct (find m 2 root id) as [dc|] eqn:Hf; cycle 1.
  { do 2 eexists. split; [done|]. unfold context. by rewrite Hf. }
  erewrite bind_ok by done. change (DeviceContext.valid dc m) with (enabled (words m dc)).
  destruct (enabled (words m dc)) eqn:He.
  { do 2 eexists. split; [done|]. split; [done|]. unfold context. rewrite Hf. by eexists. }
  do 2 eexists. split; [done|]. split; [done|]. exists (words m dc). split; [done|].
  destruct (set_words dc pt msi_pt gscid m) as [<- Hat]. apply context_update; [done..|].
  rewrite present_words. by rewrite (proj1 (set_words dc pt msi_pt gscid m)).
Qed.

Lemma dir_disable_spec T m id :
  dir_wf T m → device_id id →
  ∃ r m', DeviceDirectory.disable_device root id m = Returns (r, m') ∧
    match r with
    | Ok _ => ∃ c, enabled c = true ∧ context_step T m m' id c (disabled c)
    | Err e => m' = m ∧
        match e with
        | DeviceNotFound _ => context m id = None
        | DeviceNotEnabled _ => ∃ c, context m id = Some c ∧ enabled c = false
        | _ => False
        end
    end.
Proof.
  intros Hwf Hid. unfold DeviceDirectory.disable_device.
  erewrite bind_ok by done. rewrite (get_context_eq T) by done. erewrite bind_ok by done.
  destruct (find m 2 root id) as [dc|] eqn:Hf; cycle 1.
  { do 2 eexists. split; [done|]. unfold context. by rewrite Hf. }
  erewrite bind_ok by done. change (DeviceContext.valid dc m) with (enabled (words m dc)).
  destruct (enabled (words m dc)) eqn:He; cbn [negb]; cycle 1.
  { do 2 eexists. split; [done|]. split; [done|]. unfold context. rewrite Hf. by eexists. }
  do 2 eexists. split; [done|]. exists (words m dc). split; [done|].
  destruct (invalidate_words dc m) as [<- Hat]. apply context_update; [done..|].
  rewrite present_words. by rewrite (proj1 (invalidate_words dc m)).
Qed.

(** ** Adding a device *)

(** Zeroed pages that are not part of the directory. *)
Definition zeroed (m : mem) (a : Z) : Prop := ∀ i, 0 ≤ i < 512 → read64 m (a + 8 * i) = 0.
Record fresh (T : gmap Z nat) (m : mem) (pages : list Page.t) : Prop := {
  fr_nodup : NoDup (Page.addr <$> pages);
  fr_page p : p ∈ pages → phys (Page.addr p) ∧ Page.addr p ≠ 0 ∧ T !! Page.addr p = None ∧ zeroed m (Page.addr p)
}.

(** What filling in a table preserves. *)
Record extends (T T' : gmap Z nat) (m m' : mem) : Prop := {
  ex_tables : T ⊆ T';
  ex_entries a l i : T !! a = Some (S l) → 0 ≤ i < 512 → NonLeafEntry.valid (read64 m (a + 8 * i)) = true →
    read64 m' (a + 8 * i) = read64 m (a + 8 * i);
  ex_leaves a x : T !! a = Some 0%nat → 0 ≤ x < 4096 → read64 m' (a + x) = read64 m (a + x);
  ex_find a lvl id : T !! a = Some lvl → find m' lvl a id = find m lvl a id
}.

Lemma extends_refl T m : extends T T m m.
Proof. by split. Qed.

Lemma extends_trans T1 T2 T3 m1 m2 m3 : extends T1 T2 m1 m2 → extends T2 T3 m2 m3 → extends T1 T3 m1 m3.
Proof.
  intros [A1 A2 A3 A4] [B1 B2 B3 B4]. assert (H : ∀ a l, T1 !! a = Some l → T2 !! a = Some l).
  { intros a l Ha. by eapply lookup_weaken. }
  split.
  - by etrans.
  - intros a l i Ha Hi Hv. rewrite (B2 a l i), (A2 a l i); [done..| |done|]; [by apply H|by rewrite (A2 a l i)].
  - intros a x Ha Hx. rewrite B3, A3; [done..| |done]. by apply H.
  - intros a lvl id Ha. rewrite B4, A4; [done..|]. by apply H.
Qed.

Lemma find_zeroed m l p id : zeroed m p → find m l p id = None.
Proof.
  intros Hz. unfold find. destruct l as [|l]; cbn [leaf_table].
  - cbn [mbind option_bind]. unfold DeviceContext.present, DeviceContext.tc. pose proof (idx_bound id 0).
    replace (p + 64 * idx id 0) with (p + 8 * (8 * idx id 0)) by lia. by rewrite Hz by lia.
  - by rewrite Hz by apply (idx_bound id (S l)).
Qed.

Lemma set_entry p : phys p → NonLeafEntry.valid (NonLeafEntry.set (PageAddr.pfn p)) = true ∧
  child (NonLeafEntry.set (PageAddr.pfn p)) = p.
Proof.
  intros Hp. destruct (phys_pfn p Hp) as (Hi & Hpm & Hr). unfold PageAddr.index in Hi. rewrite Hi. set (n := p / 4096) in *.
  assert (NonLeafEntry.set n = 1 + n * 2 ^ 10) as ->.
  { unfold NonLeafEntry.set, NonLeafEntry.NL_PFN_SHIFT, NonLeafEntry.NL_VALID. rewrite Z.lor_comm.
    assert (shl64 n 10 = Z.shiftl n 10) as ->; [|apply lor_fields; lia].
    unfold shl64, wrap64. rewrite (Z.mod_small 10) by done. rewrite Z.shiftl_mul_pow2 by done. apply Z.mod_small. lia. }
  split.
  - unfold NonLeafEntry.valid, NonLeafEntry.NL_VALID. change 1 with (2 ^ 1 - 1) at 2. rewrite land_mask_mod by lia.
    apply negb_true_iff, Z.eqb_neq. mod_lia.
  - unfold child, NonLeafEntry.pfn, NonLeafEntry.NL_PFN_SHIFT, NonLeafEntry.NL_PFN_MASK, NonLeafEntry.NL_PFN_BITS.
    rewrite Z.shiftl_1_l, land_mask_mod, Z.shiftr_div_pow2 by lia. rewrite Z.div_add by lia. change (1 / 2 ^ 10) with 0.
    rewrite Z.mod_small by lia. lia.
Qed.

Section new_table.
Variables (T : gmap Z nat) (m : mem) (a : Z) (l : nat) (j p : Z).
Hypotheses (Hwf : dir_wf T m) (Ha : T !! a = Some (S l)) (Hj : 0 ≤ j < 512).
Hypothesis Hinv : NonLeafEntry.valid (read64 m (a + 8 * j)) = false.
Hypotheses (Hp : phys p) (Hp0 : p ≠ 0) (HpT : T !! p = None) (Hpz : zeroed m p).
Abbreviation m' := (write64 (a + 8 * j) (NonLeafEntry.set (PageAddr.pfn p)) m).
Abbreviation T' := (<[p := l]> T).

Lemma new_read b lvl x : T' !! b = Some lvl → 0 ≤ x < 4096 →
  read64 m' (b + x) = if decide (b = a ∧ x = 8 * j) then NonLeafEntry.set (PageAddr.pfn p) else read64 m (b + x).
Proof using Type*.
  intros Hb Hx. rewrite read64_write64. destruct (dw_phys _ _ Hwf _ _ Ha) as [Hap _].
  assert (Hbp : phys b).
  { apply lookup_insert_Some in Hb as [[<- _]|[_ Hb]]; [done|]. by apply (dw_phys _ _ Hwf b lvl). }
  destruct (decide (b = a ∧ x = 8 * j)) as [[-> ->]|Hne]; [by rewrite decide_True|].
  rewrite decide_False; [done|]. intros E. apply Hne. destruct (decide (b = a)) as [->|Hba]; [split; [done|lia]|].
  exfalso. apply (page_ne a b (8 * j) x); [done..|lia|lia|done].
Qed.

Lemma new_zeroed q : phys q → T !! q = None → zeroed m q → zeroed m' q.
Proof using Type*.
  intros Hq HqT Hz i Hi. rewrite read64_write64. rewrite decide_False; [by apply Hz|].
  destruct (dw_phys _ _ Hwf _ _ Ha) as [Hap _]. apply page_ne; [done..| |lia|lia]. intros ->. by rewrite HqT in Ha.
Qed.

Lemma new_table_entry b l' i : T' !! b = Some (S l') → 0 ≤ i < 512 → NonLeafEntry.valid (read64 m' (b + 8 * i)) = true →
  (b = a ∧ i = j ∧ child (read64 m' (b + 8 * i)) = p ∧ l' = l) ∨
  (T !! b = Some (S l') ∧ (b = a → i ≠ j) ∧ read64 m' (b + 8 * i) = read64 m (b + 8 * i)).
Proof using Type*.
  intros Hb Hi. rewrite (new_read b (S l')) by (done || lia).
  apply lookup_insert_Some in Hb as [[<- Hl]|[Hne Hb]].
  { destruct (decide _) as [[-> _]|_]; [congruence|]. by rewrite Hpz. }
  destruct (decide (b = a ∧ 8 * i = 8 * j)) as [[-> E]|Hn]; intros Hv.
  - left. rewrite Ha in Hb. injection Hb as <-. split_and!; [done|lia|by apply set_entry|done].
  - right. split_and!; [done| |done]. intros -> ->. by apply Hn.
Qed.

Lemma new_wf : dir_wf T' m'.
Proof using Type*.
  assert (HpT' : T' !! p = Some l) by apply lookup_insert_eq.
  assert (Hold : ∀ c k, T !! c = Some k → T' !! c = Some k).
  { intros c k Hc. rewrite lookup_insert_ne; [done|]. intros <-. congruence. }
  split.
  - apply Hold, Hwf.
  - intros b k [[<- _]|[_ Hb]]%lookup_insert_Some; [done|]. by apply (dw_phys _ _ Hwf b k).
  - intros b k i Hb Hi Hv. destruct (new_table_entry b k i Hb Hi Hv) as [(_ & _ & -> & ->)|(HbT & _ & E)]; [done|].
    rewrite E in *. apply Hold. by apply (dw_child _ _ Hwf).
  - intros b k i b' k' i' Hb Hb' Hi Hi' Hv Hv' Hc.
    destruct (new_table_entry b k i Hb Hi Hv) as [(-> & -> & E1 & _)|(HbT & _ & E)];
    destruct (new_table_entry b' k' i' Hb' Hi' Hv') as [(-> & -> & E1' & _)|(HbT' & _ & E')]; [done|..].
    + rewrite E' in *. exfalso. pose proof (dw_child _ _ Hwf b' k' i' HbT' Hi' Hv') as Hcc. congruence.
    + rewrite E in *. exfalso. pose proof (dw_child _ _ Hwf b k i HbT Hi Hv) as Hcc. congruence.
    + rewrite E, E' in *. by apply (dw_tree _ _ Hwf b k i b' k' i').
Qed.

Lemma new_find b lvl id : T !! b = Some lvl → find m' lvl b id = find m lvl b id.
Proof using Type*.
  revert b. induction lvl as [|k IH]; intros b Hb; unfold find; cbn [leaf_table].
  - cbn [mbind option_bind]. assert (DeviceContext.present (b + 64 * idx id 0) m' = DeviceContext.present (b + 64 * idx id 0) m) as ->;
      [|done]. unfold DeviceContext.present, DeviceContext.tc. pose proof (idx_bound id 0).
    rewrite (new_read b 0); [|by rewrite lookup_insert_ne by congruence|lia].
    rewrite decide_False; [done|]. intros [-> _]. congruence.
  - pose proof (idx_bound id (S k)) as Hi. cbv beta iota in Hi.
    rewrite (new_read b (S k)); [|by rewrite lookup_insert_ne by congruence|lia].
    destruct (decide (b = a ∧ 8 * idx id (S k) = 8 * j)) as [[-> E]|Hn].
    + assert (idx id (S k) = j) as -> by lia. rewrite Hinv. rewrite Ha in Hb. injection Hb as <-.
      destruct (set_entry p Hp) as [-> ->]. apply (find_zeroed m' l p id). by apply new_zeroed.
    + destruct (NonLeafEntry.valid (read64 m (b + 8 * idx id (S k)))) eqn:Hv; [|done].
      apply IH. by apply (dw_child _ _ Hwf).
Qed.

Lemma new_extends : extends T T' m m'.
Proof using Type*.
  split.
  - by apply insert_subseteq.
  - intros b k i Hb Hi Hv. rewrite (new_read b (S k)); [|by rewrite lookup_insert_ne by congruence|lia].
    rewrite decide_False; [done|]. intros [-> E]. assert (i = j) as -> by lia. congruence.
  - intros b x Hb Hx. rewrite (new_read b 0); [|by rewrite lookup_insert_ne by congruence|lia].
    rewrite decide_False; [done|]. intros [-> _]. congruence.
  - intros b lvl id. apply new_find.
Qed.
End new_table.

Record filled (T T' : gmap Z nat) (m m' : mem) (pages' : list Page.t) : Prop := {
  fl_wf : dir_wf T' m';
  fl_fresh : fresh T' m' pages';
  fl_extends : extends T T' m m'
}.

Lemma dir_next_level_spec T m pages a l id :
  dir_wf T m → fresh T m pages → T !! a = Some (S l) →
  ∃ r T' m' pages', DeviceDirectoryTable.next_level_or_fill (DeviceDirectoryTable.mk a (S l)) id (m, pages)
      = Returns (r, (m', pages')) ∧ filled T T' m m' pages' ∧
    match r with
    | Err e => e = OutOfPages ∧ pages = [] ∧ m' = m
    | Ok t => (length pages ≤ S (length pages'))%nat ∧ NonLeafEntry.valid (read64 m' (a + 8 * idx id (S l))) = true ∧
        t = DeviceDirectoryTable.mk (child (read64 m' (a + 8 * idx id (S l)))) l
    end.
Proof.
  intros Hwf Hfr Ha. unfold DeviceDirectoryTable.next_level_or_fill. erewrite bind_ok by done. cbv beta iota.
  rewrite (entry_for_id_eq T) by done. erewrite bind_ok by done. cbv zeta.
  destruct (NonLeafEntry.valid _) eqn:Hv.
  { do 4 eexists. split; [done|]. split; [split; [done|done|apply extends_refl]|]. split_and!; [lia|done..]. }
  destruct pages as [|pg rest].
  { do 4 eexists. split; [done|]. by split; [split; [done|done|apply extends_refl]|]. }
  destruct (fr_page _ _ _ Hfr pg) as (Hp & Hp0 & HpT & Hpz); [by left|]. pose proof (idx_bound id (S l)) as Hi.
  set (m' := write64 (a + 8 * idx id (S l)) (NonLeafEntry.set (PageAddr.pfn (Page.addr pg))) m).
  assert (Hr : read64 m' (a + 8 * idx id (S l)) = NonLeafEntry.set (PageAddr.pfn (Page.addr pg))).
  { unfold m'. by rewrite read64_write64, decide_True. }
  destruct (set_entry _ Hp) as [Hsv Hsc].
  assert (Hwf' : dir_wf (<[Page.addr pg := l]> T) m') by by apply new_wf.
  exists (Ok (DeviceDirectoryTable.mk (child (read64 m' (a + 8 * idx id (S l)))) l)), (<[Page.addr pg := l]> T), m', rest.
  split; [|split; [split; [done| |by apply new_extends]|rewrite Hr; split_and!; [cbn; lia|done..]]].
  - erewrite bind_ok by done. pose proof (entry_for_id_eq _ _ a (S l) id Hwf') as He.
    rewrite lookup_insert_ne in He by congruence. specialize (He Ha). cbv zeta in He. rewrite Hr, Hsv in He.
    unfold DeviceDirectoryTable.entry_for_id in He. cbn [DeviceDirectoryTable.level DeviceDirectoryTable.table_addr] in He.
    unfold DeviceDirectoryTable.non_null, NonLeafEntry.SIZE in He.
    destruct (_ =? 0); [done|]. cbn [mbind outcome_bind] in He. rewrite Hr, Hsv in He. rewrite Hr.
    destruct (DeviceDirectoryTable.from_non_leaf_entry m' _ l) as [[t|]|] eqn:Hnl; try done.
    cbn in He. injection He as ->. by erewrite bind_ok by done.
  - destruct Hfr as [Hnd Hpage]. cbn in Hnd. apply list.NoDup_cons in Hnd as [Hn Hnd]. split; [done|].
    intros q Hq. destruct (Hpage q) as (Hq1 & Hq2 & Hq3 & Hq4); [by right|].
    assert (Page.addr pg ≠ Page.addr q) by (intros E; apply Hn; rewrite E; by apply list_elem_of_fmap_2).
    split_and!; [done|done|by rewrite lookup_insert_ne|by apply (new_zeroed T m a l)].
Qed.

Lemma fill_spec fuel T m pages a lvl id :
  dir_wf T m → fresh T m pages → T !! a = Some lvl → (lvl ≤ fuel)%nat →
  ∃ r T' m' pages', DeviceDirectory.fill fuel id (DeviceDirectoryTable.mk a lvl) (m, pages) = Returns (r, (m', pages')) ∧
    filled T T' m m' pages' ∧
    match r with
    | Err e => e = OutOfPages ∧ (length pages < lvl)%nat
    | Ok t => ∃ b, t = DeviceDirectoryTable.mk b 0 ∧ leaf_table m' lvl a id = Some b ∧ T' !! b = Some 0%nat
    end.
Proof.
  revert T m pages a lvl. induction fuel as [|fuel IH]; intros T m pages a lvl Hwf Hfr Ha Hf;
    (destruct lvl as [|l]; [|try lia]).
  1, 2: do 4 eexists; (split; [done|]); (split; [split; [done|done|apply extends_refl]|]); by exists a.
  cbn [DeviceDirectory.fill DeviceDirectoryTable.level].
  destruct (dir_next_level_spec T m pages a l id) as (r & T1 & m1 & pages1 & Hn & [Hwf1 Hfr1 Hex1] & Hr); [done..|].
  destruct r as [t|e]; cycle 1.
  { destruct Hr as (-> & -> & ->). do 4 eexists. split; [by erewrite bind_err by exact Hn|]. split; [done|]. split; [done|cbn; lia]. }
  destruct Hr as (Hlen & Hv & ->). erewrite bind_ok by exact Hn.
  assert (Ha1 : T1 !! a = Some (S l)) by (eapply lookup_weaken; [done|apply Hex1]).
  set (c := child (read64 m1 (a + 8 * idx id (S l)))) in *.
  destruct (IH T1 m1 pages1 c l) as (r & T2 & m2 & pages2 & Hfl & [Hwf2 Hfr2 Hex2] & Hr); [done|done| |lia|].
  { apply (dw_child _ _ Hwf1); [done|apply (idx_bound id (S l))|done]. }
  exists r, T2, m2, pages2. split; [exact Hfl|]. split; [split; [done|done|by eapply extends_trans]|].
  destruct r as [t|e]; [|split; [apply Hr|]; destruct Hr as [_ Hr]; lia].
  destruct Hr as (b & -> & Hb & HbT). exists b. split_and!; [done| |done]. cbn [leaf_table].
  rewrite (ex_entries _ _ _ _ Hex2 a l) by (done || apply (idx_bound id (S l))). by rewrite Hv.
Qed.

Lemma extends_context T T' m m' id : dir_wf T m → extends T T' m m' → context m' id = context m id.
Proof.
  intros Hwf Hex. unfold context. rewrite (ex_find _ _ _ _ Hex) by apply Hwf.
  destruct (find m 2 root id) as [dc|] eqn:Hf; [|done]. apply find_inv in Hf as (b & Hb & -> & _).
  unfold fmap, option_fmap, option_map. f_equal. apply words_ext. intros k Hk.
  pose proof (idx_bound id 0). rewrite <-Z.add_assoc. apply (ex_leaves _ _ _ _ Hex); [|lia].
  eapply leaf_table_level; [done|apply Hwf|done].
Qed.

Definition added : device_context := Context_ DeviceContext.DC_SW_INVALIDATED 0 0 0 0 0 0.

Lemma dir_add_spec T m pages id :
  dir_wf T m → fresh T m pages → device_id id →
  ∃ r T' m' pages', DeviceDirectory.add_device root id (m, pages) = Returns (r, (m', pages')) ∧ dir_wf T' m' ∧
    (∀ id', device_id id' → id' ≠ id → context m' id' = context m id') ∧
    match r with
    | Err e => e = OutOfPages ∧ (length pages < 2)%nat ∧ context m' id = context m id
    | Ok _ => context m' id = Some (default added (context m id))
    end.
Proof.
  intros Hwf Hfr Hid. unfold DeviceDirectory.add_device.
  destruct (fill_spec DeviceDirectory.LEVELS T m pages root 2 id) as (r & T1 & m1 & pages1 & Hfl & [Hwf1 Hfr1 Hex] & Hr);
    [done|done|apply Hwf|unfold DeviceDirectory.LEVELS; lia|].
  assert (Hctx : ∀ id', context m1 id' = context m id') by (intros id'; by apply (extends_context T T1)).
  destruct r as [t|e]; cycle 1.
  { destruct Hr as [-> Hlen]. exists (Err OutOfPages), T1, m1, pages1.
    split; [by erewrite bind_err by exact Hfl|]. split_and!; [done| |done|done|done]. by intros. }
  destruct Hr as (b & -> & Hb & HbT). erewrite bind_ok by exact Hfl. erewrite bind_ok by done. cbv beta iota.
  rewrite (entry_for_id_eq T1) by done. erewrite bind_ok by done.
  destruct (DeviceContext.present (b + 64 * idx id 0) m1) eqn:Hp.
  - exists (Ok tt), T1, m1, pages1. split_and!; [done|done|by intros|]. rewrite <-Hctx. unfold context, find.
    rewrite Hb. cbn [mbind option_bind]. by rewrite Hp.
  - destruct (init_words (b + 64 * idx id 0) m1) as [Hw Hat].
    exists (Ok tt), T1, (DeviceContext.init (b + 64 * idx id 0) m1), pages1. split_and!; [done|by eapply update_wf| |].
    + intros id' Hid' Hne. rewrite <-Hctx. by apply (update_other T1 m1 _ id b).
    + rewrite (update_this T1 m1 _ id b) by done. rewrite present_words, Hw. rewrite <-Hctx.
      assert (context m1 id = None) as ->; [|done]. unfold context, find. rewrite Hb. cbn [mbind option_bind]. by rewrite Hp.
Qed.
End directory.

(** ** Theorems *)

(** A new directory. *)
Lemma new_directory_wf root m : phys root → root ≠ 0 → zeroed m root → dir_wf root {[root := 2%nat]} m.
Proof.
  intros Hp H0 Hz. split.
  - apply lookup_singleton_eq.
  - intros a l [<- _]%lookup_singleton_Some. done.
  - intros a l i [<- _]%lookup_singleton_Some Hi. by rewrite Hz.
  - intros a l i a' l' i' [<- _]%lookup_singleton_Some _ Hi _. by rewrite Hz.
Qed.

Lemma example_fresh : fresh {[65536 := 2%nat]} ∅ (page_run 131072 Size4k 2).
Proof.
  split; [repeat constructor; set_solver|]. intros p Hp. cbn in Hp.
  assert (Page.addr p = 131072 ∨ Page.addr p = 135168) as [E|E].
  { apply elem_of_cons in Hp as [->|Hp]; [by left|]. apply list_elem_of_singleton in Hp as ->. by right. }
  all: rewrite E; split_and!; [split; [lia|done]|done|done|done].
Qed.

(** C28: the device directory is a map from device ids to device contexts: adding,
    enabling and disabling a device never panic and never change the context of
    another device.  Adding leaves a device that is present alone and otherwise
    gives it a disabled context, or fails for want of table pages; enabling
    succeeds exactly for a disabled device with page tables of one owner, and then
    points its context at them; disabling succeeds exactly for an enabled device. *)
Theorem device_directory_isolates_devices root T m pages id :
  dir_wf root T m → fresh T m pages → device_id id →
  (∃ r T' m' pages', DeviceDirectory.add_device root id (m, pages) = Returns (r, (m', pages')) ∧ dir_wf root T' m' ∧
    (∀ id', device_id id' → id' ≠ id → context root m' id' = context root m id') ∧
    match r with
    | Err e => e = OutOfPages ∧ (length pages < 2)%nat ∧ context root m' id = context root m id
    | Ok _ => context root m' id = Some (default added (context root m id))
    end) ∧
  (∀ pt msi_pt gscid, ∃ r m', DeviceDirectory.enable_device root id pt msi_pt gscid m = Returns (r, m') ∧
    match r with
    | Ok _ => GuestStagePageTable.page_owner_id pt = MsiPageTable.owner msi_pt ∧
        ∃ c, enabled c = false ∧ context_step root T m m' id c (configured pt msi_pt gscid c)
    | Err e => m' = m ∧
        match e with
        | OwnerMismatch => GuestStagePageTable.page_owner_id pt ≠ MsiPageTable.owner msi_pt
        | DeviceNotFound _ => context root m id = None
        | DeviceAlreadyEnabled _ => ∃ c, context root m id = Some c ∧ enabled c = true
        | _ => False
        end
    end) ∧
  (∃ r m', DeviceDirectory.disable_device root id m = Returns (r, m') ∧
    match r with
    | Ok _ => ∃ c, enabled c = true ∧ context_step root T m m' id c (disabled c)
    | Err e => m' = m ∧
        match e with
        | DeviceNotFound _ => context root m id = None
        | DeviceNotEnabled _ => ∃ c, context root m id = Some c ∧ enabled c = false
        | _ => False
        end
    end).
Proof.
  intros Hwf Hfr Hid. split_and!.
  - by apply (dir_add_spec root T).
  - intros pt msi_pt gscid. by apply dir_enable_spec.
  - by apply dir_disable_spec.
Qed.

Lemma device_directory_isolates_devices_witness :
  ∃ T' m' pages', DeviceDirectory.add_device 65536 2 (∅, page_run 131072 Size4k 2) = Returns (Ok tt, (m', pages')) ∧
    dir_wf 65536 T' m' ∧ context 65536 m' 2 = Some added.
Proof.
  destruct (device_directory_isolates_devices 65536 {[65536 := 2%nat]} ∅ (page_run 131072 Size4k 2) 2) as [Hadd _].
  - apply new_directory_wf; [split; [lia|done]|done|done].
  - apply example_fresh.
  - unfold device_id. lia.
  - destruct Hadd as (r & T' & m' & pages' & Hadd & Hwf & _ & Hr). destruct r as [[]|e].
    + exists T', m', pages'. split_and!; [exact Hadd|exact Hwf|exact Hr].
    + destruct Hr as (_ & Hlen & _). cbn in Hlen. lia.
Defined.
