(* ===== verification/IommuFacts.v ===== *)
(** * Theorems about the IOMMU

    An MSI page table is a finite map from the interrupt files of a VM to frame
    numbers, a queue is a FIFO of bounded length, and the reference counts of the
    soft-context ids count the attached devices. *)
From S2P Require Import Prelude RiscvPages PageInfoModel Tracker PageMapModel TrackerFacts Pte PageTableModel Imsic ImsicFacts Iommu DeviceDirectoryFacts TlbModel TlbTrackerFacts.
Import PageSize(Size4k).
Import IommuError.

(** ** MSI page tables *)
Module Msi.
Definition frame (pte : Z) : Z := Z.land (Z.shiftr pte MsiPte.MSI_PTE_PFN_SHIFT) (2 ^ 44 - 1).

Lemma set_bits p : 0 ≤ p < 2 ^ 44 → MsiPte.set p = 5 + p * 2 ^ 10.
Proof.
  intros Hp. unfold MsiPte.set, MsiPte.MSI_PTE_PFN_SHIFT. rewrite <-Z.lor_assoc, Z.lor_comm.
  assert (shl64 p 10 = Z.shiftl p 10) as ->.
  { unfold shl64, wrap64. rewrite (Z.mod_small 10) by done. rewrite Z.shiftl_mul_pow2 by done. apply Z.mod_small. lia. }
  change (Z.lor MsiPte.MSI_PTE_VALID MsiPte.MSI_PTE_WRITE) with 5. apply lor_fields; lia.
Qed.

Lemma set_valid p : 0 ≤ p < 2 ^ 44 → MsiPte.valid (MsiPte.set p) = true.
Proof.
  intros Hp. rewrite set_bits by done. unfold MsiPte.valid.
  change (Z.lor MsiPte.MSI_PTE_VALID MsiPte.MSI_PTE_WRITE) with 5. apply Z.eqb_eq.
  rewrite <-lor_fields by lia. rewrite Z.land_lor_distr_l. change (Z.land 5 5) with 5.
  assert (Z.land (Z.shiftl p 10) 5 = 0) as ->; [|done]. apply Z.bits_inj'. intros i Hi.
  rewrite Z.land_spec, Z.bits_0. destruct (Z.lt_ge_cases i 10).
  - by rewrite Z.shiftl_spec_low by lia.
  - rewrite (testbit_high 5 i 3) by lia. apply andb_false_r.
Qed.

Lemma set_frame p : 0 ≤ p < 2 ^ 44 → frame (MsiPte.set p) = p.
Proof.
  intros Hp. rewrite set_bits by done. unfold frame, MsiPte.MSI_PTE_PFN_SHIFT.
  rewrite land_mask_mod, Z.shiftr_div_pow2 by lia. rewrite Z.div_add by lia. change (5 / 2 ^ 10) with 0.
  apply Z.mod_small. lia.
Qed.

(** A table as the constructor accepts it. *)
Record table_ok (t : MsiPageTable.t) : Prop := {
  ok_src : geometry_ok (MsiPageTable.src_geometry t);
  ok_size : MsiPageTable.required_table_size (MsiPageTable.src_geometry t)
    ≤ SequentialPages.length_bytes (MsiPageTable.pages t)
}.

Section table.
Variable t : MsiPageTable.t.
Hypothesis Ht : table_ok t.
Abbreviation src := (MsiPageTable.src_geometry t).
Abbreviation valid loc := (ImsicGeometry.location_is_valid src loc).

Definition index (loc : ImsicLocation.t) : Z :=
  ImsicFileId.bits (ImsicLocation.file loc)
  + (ImsicLocation.hart loc + ImsicLocation.group loc * 2 ^ ImsicGeometry.hart_index_bits src)
    * 2 ^ ImsicGeometry.guest_index_bits src.
Definition entry (loc : ImsicLocation.t) : Z := SequentialPages.addr (MsiPageTable.pages t) + MsiPte.SIZE * index loc.

(** What the table means: the frame of the physical interrupt file. *)
Definition lookup (m : mem) (loc : ImsicLocation.t) : option Z :=
  let pte := read64 m (entry loc) in if MsiPte.valid pte then Some (frame pte) else None.

Lemma index_from loc : location_wf loc → valid loc = true →
  MsiPageTableIndex.from src loc = Some (index loc) ∧
  MsiPageTable.entry_for_index t (index loc) = Some (entry loc).
Proof using Ht.
  intros Hw Hv. pose proof (ok_src _ Ht) as Hg. pose proof Hv as [Hf _]%valid_iff; [|done..].
  destruct (packed_fields src Hg _ _ _ Hf) as [Hp Hb]. fold (index loc) in Hp, Hb. split.
  - unfold MsiPageTableIndex.from. rewrite Hv. cbn [negb]. by rewrite Hp.
  - unfold MsiPageTable.entry_for_index. rewrite (proj2 (Z.leb_gt _ _)); [done|].
    pose proof (ok_size _ Ht) as Hs. unfold MsiPageTable.required_table_size in Hs. pose proof Hg as [].
    assert (ImsicGeometry.index_bits src = ImsicGeometry.group_index_bits src + ImsicGeometry.hart_index_bits src
      + ImsicGeometry.guest_index_bits src) as E.
    { unfold ImsicGeometry.index_bits, wrap32. rewrite (Z.mod_small (_ + ImsicGeometry.hart_index_bits _)), Z.mod_small; lia. }
    rewrite E, shl64_one in Hs by lia. unfold MsiPte.SIZE in *.
    assert (2 ^ (ImsicGeometry.group_index_bits src + ImsicGeometry.hart_index_bits src
      + ImsicGeometry.guest_index_bits src) ≤ 2 ^ 52) by (apply Z.pow_le_mono_r; lia).
    unfold wrap64 in Hs. rewrite Z.mod_small in Hs by lia.
    apply Z.lt_le_trans with (1 := proj2 Hb). apply Z.div_le_lower_bound; lia.
Qed.

Lemma entry_inj loc loc' : location_wf loc → location_wf loc' → valid loc = true → valid loc' = true →
  entry loc = entry loc' → loc = loc'.
Proof using Ht.
  intros Hw Hw' Hv Hv' He. pose proof (ok_src _ Ht) as Hg. pose proof Hg as [].
  apply valid_iff in Hv as [(Hf & Hh & _) _], Hv' as [(Hf' & Hh' & _) _]; [|done..].
  assert (index loc = index loc') as Hi by (unfold entry, MsiPte.SIZE in He; lia). unfold index in Hi.
  apply fields_inj in Hi as [Ef Hi]; [|lia..]. apply fields_inj in Hi as [Eh Eg]; [|lia..].
  assert (ImsicLocation.file loc = ImsicLocation.file loc') as Ei.
  { rewrite <-(from_index_bits (ImsicLocation.file loc)) by by split_and!; [..|apply Hw].
    rewrite <-(from_index_bits (ImsicLocation.file loc')) by by split_and!; [..|apply Hw']. by rewrite Ef. }
  destruct loc, loc'. cbn in *. by subst.
Qed.

Lemma lookup_write m loc v loc' : location_wf loc → location_wf loc' → valid loc = true → valid loc' = true →
  lookup (write64 (entry loc) v m) loc' =
  if decide (loc' = loc) then (if MsiPte.valid v then Some (frame v) else None) else lookup m loc'.
Proof using Ht.
  intros Hw Hw' Hv Hv'. unfold lookup. rewrite read64_write64. destruct (decide (loc' = loc)) as [->|Hne].
  - by rewrite decide_True.
  - rewrite decide_False; [done|]. intros He. apply Hne. symmetry. by apply entry_inj.
Qed.
End table.

Lemma msi_new_ok pages src dest owner tr t tr' :
  geometry_ok src → MsiPageTable.new pages src dest owner tr = Returns (Ok t, tr') →
  table_ok t ∧ MsiPageTable.src_geometry t = src.
Proof.
  intros Hg. unfold MsiPageTable.new. destruct (Z.ltb_spec (SequentialPages.length_bytes pages)
    (MsiPageTable.required_table_size src)) as [|Hs]; [done|]. destruct (negb _); [done|].
  intros (addrs & s1 & Ha & Hb)%bind_inv_ok. unfold of_outcome in Ha.
  destruct (iter_from_take _ _) as [l|]; [|done]. injection Ha as -> <-.
  rewrite (bind_ok _ _ tr tr tr) in Hb by done. destruct (negb _); [done|]. by injection Hb as <- _.
Qed.

(** ** The abstract table: a map from interrupt files to frames *)
Inductive msi_op :=
| Map (src dest : ImsicLocation.t)
| Remap (src dest : ImsicLocation.t)
| Unmap (loc : ImsicLocation.t).

Definition exec (t : MsiPageTable.t) (tr : PageTracker.t) (op : msi_op) : M mem IommuError.t unit :=
  match op with
  | Map src dest => MsiPageTable.map t tr src dest
  | Remap src dest => MsiPageTable.remap t tr src dest
  | Unmap loc => MsiPageTable.unmap t loc
  end.

(** The frame of an interrupt file that the owner of the table has mapped. *)
Definition dest_frame (t : MsiPageTable.t) (tr : PageTracker.t) (dest : ImsicLocation.t) : result IommuError.t Z :=
  match ImsicGeometry.location_to_addr (MsiPageTable.dest_geometry t) dest with
  | None => Err (InvalidImsicLocation dest)
  | Some a =>
      if PageTracker.is_mapped_page a (MsiPageTable.owner t) (MemType.Mmio DeviceMemType.Imsic) tr
      then Ok (PageAddr.pfn a) else Err (MsiPageNotOwned a)
  end.

(** The update that an operation makes to the map [f], or its error. *)
Definition spec (t : MsiPageTable.t) (tr : PageTracker.t) (f : ImsicLocation.t → option Z) (op : msi_op)
    : result IommuError.t (ImsicLocation.t * option Z) :=
  let known loc := ImsicGeometry.location_is_valid (MsiPageTable.src_geometry t) loc in
  match op with
  | Map src dest =>
      match dest_frame t tr dest with
      | Err e => Err e
      | Ok p => if negb (known src) then Err (InvalidImsicLocation src)
                else match f src with Some _ => Err (MsiAlreadyMapped src) | None => Ok (src, Some p) end
      end
  | Remap src dest =>
      match dest_frame t tr dest with
      | Err e => Err e
      | Ok p => if negb (known src) then Err (InvalidImsicLocation src)
                else match f src with Some _ => Ok (src, Some p) | None => Err (MsiNotMapped src) end
      end
  | Unmap loc =>
      if negb (known loc) then Err (InvalidImsicLocation loc)
      else match f loc with Some _ => Ok (loc, None) | None => Err (MsiNotMapped loc) end
  end.

Definition op_wf (op : msi_op) : Prop :=
  match op with Map src _ | Remap src _ | Unmap src => location_wf src end.

Lemma owned_dest_eq t tr dest :
  match MsiPageTable.owned_dest t tr dest with
  | Ok a => dest_frame t tr dest = Ok (PageAddr.pfn a)
  | Err e => dest_frame t tr dest = Err e
  end.
Proof.
  unfold MsiPageTable.owned_dest, dest_frame. destruct (ImsicGeometry.location_to_addr _ _); [|done].
  by destruct (PageTracker.is_mapped_page _ _ _ _).
Qed.

Lemma pfn_frame a : 0 ≤ PageAddr.pfn a < 2 ^ 44.
Proof.
  unfold PageAddr.pfn, PageAddr.PFN_MASK, PageAddr.PFN_BITS. rewrite Z.shiftl_1_l, land_mask_mod by lia.
  by apply Z.mod_pos_bound.
Qed.

Lemma exec_spec t tr op m :
  table_ok t → op_wf op →
  match spec t tr (lookup t m) op with
  | Err e => exec t tr op m = Returns (Err e, m)
  | Ok (src, v) => ImsicGeometry.location_is_valid (MsiPageTable.src_geometry t) src = true ∧
      location_wf src ∧ ∃ w, exec t tr op m = Returns (Ok tt, write64 (entry t src) w m) ∧
        (if MsiPte.valid w then Some (frame w) else None) = v
  end.
Proof.
  intros Ht Hw. destruct op as [src dest|src dest|src]; cbn [spec exec op_wf] in *.
  - unfold MsiPageTable.map. pose proof (owned_dest_eq t tr dest) as Hd.
    destruct (MsiPageTable.owned_dest t tr dest) as [a|e]; rewrite Hd; [|done]. erewrite bind_ok by done.
    destruct (ImsicGeometry.location_is_valid _ src) eqn:Hv; cbn [negb]; cycle 1.
    { erewrite bind_err; [done|]. unfold MsiPageTableIndex.from. by rewrite Hv. }
    destruct (index_from t Ht src Hw Hv) as [-> He]. erewrite bind_ok by done. rewrite He.
    erewrite bind_ok by done. erewrite bind_ok by done. unfold lookup.
    destruct (MsiPte.valid (read64 m (entry t src))); [done|]. split_and!; [done..|].
    eexists. split; [done|]. rewrite set_valid, set_frame by apply pfn_frame. done.
  - unfold MsiPageTable.remap. pose proof (owned_dest_eq t tr dest) as Hd.
    destruct (MsiPageTable.owned_dest t tr dest) as [a|e]; rewrite Hd; [|done]. erewrite bind_ok by done.
    destruct (ImsicGeometry.location_is_valid _ src) eqn:Hv; cbn [negb]; cycle 1.
    { erewrite bind_err; [done|]. unfold MsiPageTableIndex.from. by rewrite Hv. }
    destruct (index_from t Ht src Hw Hv) as [-> He]. cbn [mbind option_bind]. rewrite He. erewrite bind_ok by done.
    erewrite bind_ok by done. unfold lookup.
    destruct (MsiPte.valid (read64 m (entry t src))); [|done]. split_and!; [done..|].
    eexists. split; [done|]. rewrite set_valid, set_frame by apply pfn_frame. done.
  - unfold MsiPageTable.unmap. destruct (ImsicGeometry.location_is_valid _ src) eqn:Hv; cbn [negb]; cycle 1.
    { erewrite bind_err; [done|]. unfold MsiPageTableIndex.from. by rewrite Hv. }
    destruct (index_from t Ht src Hw Hv) as [-> He]. erewrite bind_ok by done. rewrite He.
    erewrite bind_ok by done. erewrite bind_ok by done. unfold lookup.
    destruct (MsiPte.valid (read64 m (entry t src))); [|done]. split_and!; [done..|]. by eexists.
Qed.
End Msi.

(** An MSI page table of one page for a VM with eight harts. *)
Definition msi_src : ImsicGeometry.t := ImsicGeometry.mk 0x38000000 0 24 3 3 5.
Definition msi_dest : ImsicGeometry.t := ImsicGeometry.mk 0x28000000 0 24 4 4 15.
Definition msi_tracker : PageTracker.t :=
  PageTracker.mk 3 [2] 16 (PageMap.mk [PageInfo.mk MemType.Ram PageState.VmState [2] None;
    PageInfo.mk (MemType.Mmio DeviceMemType.Imsic) PageState.Mapped [2] None] 1024
    [SparseMapEntry.mk 256 1 0; SparseMapEntry.mk 0x28031 1 1]).
Definition msi_table : MsiPageTable.t := MsiPageTable.mk (SequentialPages.mk 1048576 Size4k 1) msi_src msi_dest 2.

(** C29: the MSI page table that the constructor accepts is a map from the interrupt
    files of the VM to physical frames: mapping, remapping and unmapping an
    interrupt file never panic, change the entry of that file and of no other, only
    ever map a file of the machine that the VM owns and has mapped, and fail without
    any effect exactly in the cases that the abstract map gives. *)
Theorem msi_table_refines_map pages src dest owner tr t tr' op m :
  geometry_ok src → MsiPageTable.new pages src dest owner tr = Returns (Ok t, tr') → Msi.op_wf op →
  match Msi.spec t tr (Msi.lookup t m) op with
  | Err e => Msi.exec t tr op m = Returns (Err e, m)
  | Ok (loc, v) => ∃ m', Msi.exec t tr op m = Returns (Ok tt, m') ∧
      ∀ loc', location_wf loc' → ImsicGeometry.location_is_valid src loc' = true →
        Msi.lookup t m' loc' = if decide (loc' = loc) then v else Msi.lookup t m loc'
  end.
Proof.
  intros Hg Hnew Hw. destruct (Msi.msi_new_ok _ _ _ _ _ _ _ Hg Hnew) as [Ht Hs].
  pose proof (Msi.exec_spec t tr op m Ht Hw) as He. destruct (Msi.spec _ _ _ _) as [[loc v]|e]; [|done].
  destruct He as (Hv & Hl & w & He & <-). eexists. split; [exact He|]. intros loc' Hl' Hv'. rewrite <-Hs in Hv'.
  by apply Msi.lookup_write.
Qed.

Lemma msi_table_refines_map_witness :
  let loc := ImsicLocation.mk 0 4 ImsicFileId.Supervisor in
  let op := Msi.Map loc (ImsicLocation.mk 0 3 (ImsicFileId.Guest 0)) in
  ∃ m', Msi.exec msi_table msi_tracker op ∅ = Returns (Ok tt, m') ∧ Msi.lookup msi_table m' loc = Some 0x28031.
Proof.
  pose proof (msi_table_refines_map (SequentialPages.mk 1048576 Size4k 1) msi_src msi_dest 2 msi_tracker msi_table
    msi_tracker (Msi.Map (ImsicLocation.mk 0 4 ImsicFileId.Supervisor) (ImsicLocation.mk 0 3 (ImsicFileId.Guest 0))) ∅) as H.
  destruct H as (m' & He & Hl); [|vm_compute; reflexivity|unfold Msi.op_wf, location_wf; cbn; lia|].
  { apply (new_ok 0x38000000 0 24 3 3 5); [unfold widths_ok; lia|unfold u64; lia|done|done|vm_compute; reflexivity]. }
  exists m'. split; [exact He|]. rewrite Hl; [vm_compute; reflexivity|unfold location_wf; cbn; lia|vm_compute; reflexivity].
Defined.

(** ** Queues *)
Module Ring.
(** Case analysis on positions around the end of the ring. *)
Ltac ring_cases :=
  repeat match goal with
  | |- context [?a <? ?b] => destruct (Z.ltb_spec a b)
  | |- context [?a <=? ?b] => destruct (Z.leb_spec a b)
  | |- context [?a =? ?b] => destruct (Z.eqb_spec a b)
  | H : context [?a <=? ?b] |- _ => destruct (Z.leb_spec a b)
  end; lia.

Section ring.
Context {T : Type}.
Implicit Types q : Queue.t T.
Import Queue(slots, head, tail, capacity).

Record queue_ok q : Prop := {
  qo_capacity : ∃ k, 1 ≤ k ≤ 12 ∧ capacity q = 2 ^ k;
  qo_head : 0 ≤ head q < capacity q;
  qo_tail : 0 ≤ tail q < capacity q
}.

Definition count q : Z := if head q <=? tail q then tail q - head q else tail q - head q + capacity q.
(** The slot of the [i]-th element. *)
Definition pos q (i : Z) : Z := if head q + i <? capacity q then head q + i else head q + i - capacity q.
Definition contents q : list (option T) := (λ i, slots q !! pos q i) <$> seqZ 0 (count q).

Lemma contents_lookup q i :
  contents q !! i = if decide (Z.of_nat i < count q) then Some (slots q !! pos q (Z.of_nat i)) else None.
Proof.
  unfold contents. rewrite list_lookup_fmap. case_decide.
  - by rewrite lookup_seqZ_lt by lia.
  - by rewrite lookup_seqZ_ge by lia.
Qed.

Lemma count_bound q : queue_ok q → 0 ≤ count q < capacity q.
Proof. intros [_ Hh Ht]. unfold count. destruct (Z.leb_spec (head q) (tail q)); lia. Qed.

Lemma length_contents q : queue_ok q → Z.of_nat (length (contents q)) = count q.
Proof. intros Hq. unfold contents. rewrite length_fmap, length_seqZ. pose proof (count_bound q Hq). lia. Qed.

Lemma next_slot q i : queue_ok q → 0 ≤ i < capacity q →
  Z.land (wrap64 (i + 1)) (capacity q - 1) = if i + 1 =? capacity q then 0 else i + 1.
Proof.
  intros [(k & Hk & Hc) _ _] Hi. rewrite Hc in *.
  assert (2 ^ k ≤ 2 ^ 12) by (apply Z.pow_le_mono_r; lia).
  unfold wrap64. rewrite (Z.mod_small (i + 1)) by lia. rewrite land_mask_mod by lia.
  destruct (Z.eqb_spec (i + 1) (2 ^ k)) as [->|]; [apply Z.mod_same; lia|apply Z.mod_small; lia].
Qed.

Lemma push_spec q x : queue_ok q →
  if count q =? capacity q - 1 then Queue.push x q = Returns (Err QueueFull, q)
  else ∃ q', Queue.push x q = Returns (Ok tt, q') ∧ queue_ok q' ∧ contents q' = contents q ++ [Some x] ∧
    capacity q' = capacity q ∧ head q' = head q.
Proof.
  intros Hq. pose proof (count_bound q Hq) as Hcb. pose proof Hq as [Hc Hh Ht]. unfold Queue.push, Queue.is_full.
  rewrite next_slot by done.
  assert (Hfull : ((if tail q + 1 =? capacity q then 0 else tail q + 1) =? head q) = (count q =? capacity q - 1)).
  { apply eq_true_iff_eq. rewrite !Z.eqb_eq. unfold count.
    ring_cases. }
  rewrite Hfull. destruct (Z.eqb_spec (count q) (capacity q - 1)) as [|Hnf]; [done|].
  rewrite (proj2 (Z.leb_gt _ _)) by lia. eexists. split; [done|].
  set (q' := Queue.mk _ _ _ _).
  assert (Hcount : count q' = count q + 1).
  { clear Hfull. unfold count, q'. unfold count in Hnf. cbn. ring_cases. }
  split_and!; [|..|done|done].
  - split; cbn; [done|done|]. ring_cases.
  - apply list_eq. intros i. rewrite contents_lookup, Hcount. pose proof (length_contents q Hq) as Hl.
    assert (Hpos : ∀ j, pos q' j = pos q j) by done. rewrite Hpos. case_decide as Hi.
    + destruct (decide (Z.of_nat i < count q)) as [Hlt|Hge].
      * rewrite lookup_app_l by lia. rewrite contents_lookup, decide_True by done. cbn.
        rewrite lookup_insert_ne; [done|]. unfold pos. unfold count in Hlt.
        ring_cases.
      * assert (Z.of_nat i = count q) as E by lia. rewrite lookup_app_r by lia.
        replace (i - length (contents q))%nat with 0%nat by lia. cbn. rewrite E.
        assert (pos q (count q) = tail q) as ->; [|by rewrite lookup_insert_eq].
        unfold pos, count. ring_cases.
    + symmetry. apply lookup_ge_None. rewrite length_app. cbn. lia.
Qed.

(** The heads that the hardware may report. *)
Lemma update_head_spec q h : queue_ok q → 0 ≤ h →
  match Queue.update_head h q with
  | Panics => False
  | Returns (Err e, q') => q' = q ∧ e = InvalidQueuePointer h ∧ ∀ n, 0 ≤ n ≤ count q → pos q n ≠ h
  | Returns (Ok _, q') => queue_ok q' ∧ capacity q' = capacity q ∧
      ∃ n, (n ≤ length (contents q))%nat ∧ pos q (Z.of_nat n) = h ∧ contents q' = drop n (contents q)
  end.
Proof.
  intros Hq Hh0. pose proof (count_bound q Hq) as Hcb. pose proof Hq as [Hc Hh Ht]. unfold Queue.update_head.
  pose proof (length_contents q Hq) as Hl.
  destruct (_ || _) eqn:Hb.
  - split_and!; [done..|]. intros n Hn. unfold pos, count in *.
    rewrite !orb_true_iff, !andb_true_iff, !orb_true_iff, !Z.leb_le, !Z.ltb_lt in Hb.
    ring_cases.
  - rewrite !orb_false_iff, !andb_false_iff, !orb_false_iff, !Z.leb_gt, !Z.ltb_ge in Hb.
    set (n := if head q <=? h then h - head q else h - head q + capacity q).
    assert (Hn : 0 ≤ n ≤ count q) by (unfold n, count; ring_cases).
    assert (Hp : pos q n = h) by (unfold pos, n; ring_cases).
    set (q' := Queue.mk _ _ _ _).
    assert (Hcount : count q' = count q - n).
    { unfold count, n, q'. cbn. clear Hp Hl. ring_cases. }
    split_and!; [split; cbn; [done|lia|done]|done|]. exists (Z.to_nat n). rewrite Z2Nat.id by lia.
    split_and!; [lia|done|]. apply list_eq. intros i. rewrite lookup_drop, !contents_lookup, Hcount.
    destruct (decide (Z.of_nat i < count q - n)) as [Hi|Hi].
    + rewrite decide_True by lia. do 2 f_equal. unfold pos, q'. cbn. rewrite <-Hp. unfold pos. clear -Hn Hi Hh Hcb. ring_cases.
    + by rewrite decide_False by lia.
Qed.
End ring.
End Ring.

(** ** Soft-context ids *)
Module Attach.
Import Iommu(iommu, mem_, dev, command_queue, ddt, gscids).

Section attach.
Context {D : Type} `{DEV : !IommuDevice D}.
Implicit Types (s : Iommu.state D).
(** [A] gives the soft-context id of each attached device. *)
Record iommu_ok (T : gmap Z nat) (A : gmap Z Z) (s : Iommu.state D) : Prop := {
  io_dir : dir_wf (ddt (iommu s)) T (mem_ s);
  io_queue : Ring.queue_ok (command_queue (iommu s));
  io_idle : Ring.contents (command_queue (iommu s)) = [];
  io_room : 4 ≤ Queue.capacity (command_queue (iommu s));
  io_ids id g : A !! id = Some g → device_id id ∧ 0 ≤ g ∧ ∃ x, gscids (iommu s) !! Z.to_nat g = Some (Some x);
  io_enabled id : device_id id →
    is_Some (A !! id) ↔ ∃ c, context (ddt (iommu s)) (mem_ s) id = Some c ∧ enabled c = true;
  io_count g x : gscids (iommu s) !! g = Some (Some x) → GscIdState.ref_count x = Z.of_nat (cnt (Z.of_nat g) A)
}.

Lemma attached_size T A s : iommu_ok T A s → Z.of_nat (size A) ≤ 2 ^ 24.
Proof.
  intros Hok. rewrite <-size_dom. assert (dom A ⊆ (list_to_set (seqZ 0 (2 ^ 24)) : gset Z)) as Hsub.
  { intros id [g Hg]%elem_of_dom. apply elem_of_list_to_set, elem_of_seqZ.
    destruct (io_ids _ _ _ Hok id g Hg) as [Hid _]. unfold device_id in Hid. lia. }
  apply subseteq_size in Hsub. etrans; [apply inj_le; exact Hsub|].
  rewrite size_list_to_set by apply NoDup_seqZ. rewrite length_seqZ. lia.
Qed.

Lemma cnt_size n (A : gmap Z Z) : (cnt n A ≤ size A)%nat.
Proof. unfold cnt. apply map_subseteq_size, map_filter_subseteq. Qed.

(** Commands that fit are appended in order. *)
Lemma push_all cmds s :
  Ring.queue_ok (command_queue (iommu s)) →
  Ring.count (command_queue (iommu s)) + Z.of_nat (length cmds) < Queue.capacity (command_queue (iommu s)) →
  ∃ q, for_each cmds (λ cmd, Iommu.on_queue (Queue.push cmd)) s
      = Returns (Ok tt, Iommu.State (Iommu.mk q (ddt (iommu s)) (gscids (iommu s))) (mem_ s) (dev s)) ∧
    Ring.queue_ok q ∧ Ring.contents q = Ring.contents (command_queue (iommu s)) ++ (Some <$> cmds) ∧
    Queue.capacity q = Queue.capacity (command_queue (iommu s)).
Proof.
  revert s. induction cmds as [|c cmds IH]; intros s Hq Hlen; cbn [for_each].
  { exists (command_queue (iommu s)). split_and!; [by destruct s as [[] ? ?]|done|by rewrite app_nil_r|done]. }
  cbn [length] in Hlen. pose proof (Ring.push_spec _ c Hq) as Hp.
  rewrite (proj2 (Z.eqb_neq _ _)) in Hp by lia. destruct Hp as (q & Hp & Hq' & Hc & Hcap & _).
  erewrite bind_ok by (unfold Iommu.on_queue; rewrite Hp; done).
  pose proof (Ring.length_contents _ Hq) as Hl. pose proof (Ring.length_contents _ Hq') as Hl'.
  rewrite Hc, length_app in Hl'. cbn [length] in Hl'.
  destruct (IH (Iommu.State (Iommu.mk q (ddt (iommu s)) (gscids (iommu s))) (mem_ s) (dev s))) as (q2 & E & H2 & H3 & H4);
    cbn [iommu command_queue]; [done|lia|]. cbn [iommu command_queue ddt gscids mem_ dev] in *.
  exists q2. split_and!; [exact E|done| |congruence]. rewrite H3, Hc, <-app_assoc. done.
Qed.

(** The state up to the command queue, which is idle. *)
Definition flushed (s s' : Iommu.state D) : Prop :=
  ∃ q, s' = Iommu.State (Iommu.mk q (ddt (iommu s)) (gscids (iommu s))) (mem_ s) (dev s) ∧
    Ring.queue_ok q ∧ Ring.contents q = [] ∧ Queue.capacity q = Queue.capacity (command_queue (iommu s)).

Lemma submit_spec cmds s :
  Ring.queue_ok (command_queue (iommu s)) → Ring.contents (command_queue (iommu s)) = [] →
  Z.of_nat (length cmds) < Queue.capacity (command_queue (iommu s)) →
  ∃ s', Iommu.submit_commands_sync cmds s = Returns (Ok tt, s') ∧ flushed s s'.
Proof.
  intros Hq Hidle Hlen. unfold Iommu.submit_commands_sync. pose proof (Ring.length_contents _ Hq) as Hl.
  rewrite Hidle in Hl. cbn [length] in Hl. destruct (push_all cmds s Hq) as (q & E & Hq' & Hc & Hcap); [lia|].
  erewrite bind_ok by exact E. erewrite bind_ok by done. unfold unwrap, Iommu.on_queue. cbn [iommu command_queue].
  pose proof (Ring.count_bound q Hq') as Hcb. pose proof Hq' as [_ Hh Ht].
  assert (Hup : Queue.update_head (Queue.tail q) q
      = Returns (Ok tt, Queue.mk (Queue.slots q) (Queue.tail q) (Queue.tail q) (Queue.capacity q))).
  { unfold Queue.update_head. destruct (_ || _) eqn:Hb; [|done]. exfalso.
    rewrite !orb_true_iff, !andb_true_iff, !orb_true_iff, !Z.leb_le, !Z.ltb_lt in Hb. lia. }
  rewrite Hup. eexists. split; [done|]. eexists. split; [done|]. split_and!; [| |done].
  - split; cbn; [apply Hq'|done|done].
  - unfold Ring.contents, Ring.count. cbn. by rewrite Z.leb_refl, Z.sub_diag.
Qed.

Lemma gscids_lookup (l : list (option GscIdState.t)) g : mjoin (l !! Z.to_nat g) = None ∨ ∃ x, l !! Z.to_nat g = Some (Some x).
Proof. destruct (l !! Z.to_nat g) as [[x|]|]; [right; by exists x|by left|by left]. Qed.

(** [iommu_ok] does not depend on the device, and the queue may be flushed. *)
Lemma ok_flushed T A s s' : iommu_ok T A s → flushed s s' → iommu_ok T A s'.
Proof. intros [] (q & -> & Hq & Hc & Hcap). split; cbn; try done. by rewrite Hcap. Qed.

Lemma ok_dev T A s d : iommu_ok T A s → iommu_ok T A (Iommu.set_dev d s).
Proof. by intros []; split. Qed.

Lemma ok_alloc T A s n o :
  iommu_ok T A s → gscids (iommu s) !! n = Some None →
  iommu_ok T A (Iommu.set_gscids (<[n := Some (GscIdState.mk o 0)]> (gscids (iommu s))) s).
Proof.
  intros [H1 H2 H3 H4 H5 H6 H7] Hn. split; cbn; try done.
  - intros id g Hg. destruct (H5 id g Hg) as (Hid & Hg0 & x & Hx). split_and!; [done..|].
    exists x. rewrite list_lookup_insert_ne; [done|]. intros ->. congruence.
  - intros g x. destruct (decide (n = g)) as [<-|].
    + rewrite list_lookup_insert_eq by (by eapply lookup_lt_Some). intros [= <-]. cbn. rewrite cnt_none; [done|].
      intros id Hid. destruct (H5 _ _ Hid) as (_ & _ & x & Hx). rewrite Nat2Z.id in Hx. congruence.
    + rewrite list_lookup_insert_ne by done. apply H7.
Qed.

Lemma ok_free T A s n x :
  iommu_ok T A s → gscids (iommu s) !! n = Some (Some x) → GscIdState.ref_count x ≤ 0 →
  (∀ id, A !! id ≠ Some (Z.of_nat n)) ∧
  iommu_ok T A (Iommu.set_gscids (<[n := None]> (gscids (iommu s))) s).
Proof.
  intros [H1 H2 H3 H4 H5 H6 H7] Hn Hx. assert (Hu : ∀ id, A !! id ≠ Some (Z.of_nat n)).
  { apply cnt_zero. rewrite (H7 n x Hn) in Hx. lia. }
  split; [done|]. split; cbn; try done.
  - intros id g Hg. destruct (H5 id g Hg) as (Hid & Hg0 & y & Hy). split_and!; [done..|].
    exists y. rewrite list_lookup_insert_ne; [done|]. intros ->. apply (Hu id). by rewrite Z2Nat.id.
  - intros g y Hg. destruct (decide (n = g)) as [<-|].
    + rewrite list_lookup_insert_eq in Hg by (by eapply lookup_lt_Some). done.
    + rewrite list_lookup_insert_ne in Hg by done. by apply H7.
Qed.

(** A device that changes from [o] to [o'] with its context. *)
Lemma ok_count T A A' s m' id g x n :
  iommu_ok T A s → 0 ≤ g → gscids (iommu s) !! Z.to_nat g = Some (Some x) → device_id id →
  (∃ c c', context_step (ddt (iommu s)) T (mem_ s) m' id c c' ∧ enabled c' = bool_decide (is_Some (A' !! id))) →
  (∀ id', id' ≠ id → A' !! id' = A !! id') → (∀ g', A' !! id = Some g' → g' = g) →
  (∀ g', cnt g' A' = if decide (g' = g) then Z.to_nat n else cnt g' A) → 0 ≤ n →
  iommu_ok T A' (Iommu.State (Iommu.mk (command_queue (iommu s)) (ddt (iommu s))
    (<[Z.to_nat g := Some (GscIdState.mk (GscIdState.owner x) n)]> (gscids (iommu s)))) m' (dev s)).
Proof.
  intros [H1 H2 H3 H4 H5 H6 H7] Hg Hx Hid (c & c' & (Hc & Hc' & Hwf & Hoth) & He) HA Hg' Hcnt Hn.
  pose proof (lookup_lt_Some _ _ _ Hx) as Hlt.
  split; cbn [iommu mem_ dev command_queue ddt gscids]; try done.
  - intros id' g' E. assert (device_id id' ∧ 0 ≤ g' ∧ ∃ x, gscids (iommu s) !! Z.to_nat g' = Some (Some x)) as (Hi & Hg0 & y & Hy).
    { destruct (decide (id' = id)) as [->|Hne]; [apply Hg' in E as ->; eauto|]. rewrite HA in E by done. by eapply H5. }
    split_and!; [done..|]. destruct (decide (Z.to_nat g = Z.to_nat g')) as [<-|].
    + rewrite list_lookup_insert_eq by done. eauto.
    + rewrite list_lookup_insert_ne by done. eauto.
  - intros id' Hid'. destruct (decide (id' = id)) as [->|Hne].
    + rewrite Hc'. split; [|by intros (? & [= <-] & E); rewrite He in E; apply bool_decide_eq_true in E].
      intros Hs. exists c'. split; [done|]. rewrite He. by apply bool_decide_eq_true.
    + rewrite HA, Hoth by done. by apply H6.
  - intros g' y. rewrite Hcnt. destruct (decide (Z.to_nat g = g')) as [<-|Hne].
    + rewrite list_lookup_insert_eq by done. intros [= <-]. cbn. rewrite Z2Nat.id, decide_True by done. lia.
    + rewrite list_lookup_insert_ne by done. rewrite decide_False by lia. apply H7.
Qed.

Lemma try_from_id a id : 0 ≤ a < 2 ^ 32 → DeviceId.try_from a = Ok id → id = a ∧ device_id id.
Proof.
  intros Ha. unfold DeviceId.try_from, DeviceId.new. destruct (Z.eqb_spec (Z.land a (2 ^ 32 - 1 - (Z.shiftl 1 DeviceId.DEVICE_ID_BITS - 1))) 0) as [E|]; [|done].
  intros [= <-]. split; [done|]. apply (f_equal (λ z, Z.shiftr z 24)) in E. rewrite Z.shiftr_land in E.
  change (Z.shiftr _ 24) with (2 ^ 8 - 1) in E at 2. rewrite land_mask_mod, Z.shiftr_0_l in E by lia.
  rewrite Z.shiftr_div_pow2 in E by lia. unfold device_id. mod_lia.
Qed.

Definition device_ok (d : D) : Prop := 0 ≤ dev_address d < 2 ^ 32.

(** What a device gets from [attach_pci_device]: a context with the tables of its owner. *)
Definition attached_to pt msi_pt g T s s' : Prop :=
  dev_owner (dev s) = Some (GuestStagePageTable.page_owner_id pt)
  ∧ MsiPageTable.owner msi_pt = GuestStagePageTable.page_owner_id pt
  ∧ dev s' = dev_set_attached (dev s) ∧ ddt (iommu s') = ddt (iommu s)
  ∧ device_id (dev_address (dev s))
  ∧ ∃ c, enabled c = false ∧
      context_step (ddt (iommu s)) T (mem_ s) (mem_ s') (dev_address (dev s)) c (configured pt msi_pt g c).
Lemma attach_spec T A s pt msi_pt g :
  iommu_ok T A s → device_ok (dev s) → 0 ≤ g →
  ∃ r s', Iommu.attach_pci_device pt msi_pt g s = Returns (r, s') ∧
    match r with
    | Ok _ => A !! dev_address (dev s) = None ∧ iommu_ok T (<[dev_address (dev s) := g]> A) s' ∧ attached_to pt msi_pt g T s s'
    | Err _ => s' = s
    end.
Proof.
  intros Hok Hd Hg. unfold Iommu.attach_pci_device. erewrite bind_ok by done.
  destruct (DeviceId.try_from _) as [id|e] eqn:Hid; [|by erewrite bind_err by done; do 2 eexists].
  erewrite bind_ok by done. apply try_from_id in Hid as [-> Hid]; [|exact Hd]. set (id := dev_address (dev s)) in *.
  destruct (gscids_lookup (gscids (iommu s)) g) as [Hn|[x Hx]].
  { erewrite bind_err by (unfold Iommu.get_gscid; erewrite bind_ok by done; rewrite Hn; done). by do 2 eexists. }
  erewrite bind_ok by (unfold Iommu.get_gscid; erewrite bind_ok by done; rewrite Hx; done).
  destruct (_ || _) eqn:Ho; [by do 2 eexists|].
  apply orb_false_iff in Ho as [[Ho1 Ho2]%orb_false_iff Ho3].
  apply bool_decide_eq_false, dec_stable in Ho1, Ho2, Ho3.
  destruct (dir_enable_spec (ddt (iommu s)) T (mem_ s) id pt msi_pt g (io_dir _ _ _ Hok) Hid) as (r & m' & Hen & Hr).
  destruct r as [[]|e].
  2: { destruct Hr as [-> _]. erewrite bind_err by (unfold Iommu.on_mem_; rewrite Hen; done). do 2 eexists. split; [done|]. by destruct s. }
  erewrite bind_ok by (unfold Iommu.on_mem_; rewrite Hen; done). erewrite bind_ok by done.
  destruct Hr as (_ & c & Hc & Hstep). do 2 eexists. split; [done|]. cbn beta iota.
  assert (Hnone : A !! id = None).
  { destruct (A !! id) eqn:E; [|done]. destruct (proj1 (io_enabled _ _ _ Hok id Hid) (mk_is_Some _ _ E)) as (c' & Hc' & He).
    destruct Hstep as [Hc2 _]. congruence. }
  split; [done|]. split; [|split_and!; [congruence|congruence|done|done|done|by exists c]].
  pose proof (io_count _ _ _ Hok _ _ Hx) as Hcount. rewrite Z2Nat.id in Hcount by done.
  pose proof (attached_size _ _ _ Hok). pose proof (cnt_size g A).
  assert (wrap64 (GscIdState.ref_count x + 1) = Z.of_nat (cnt g A) + 1) as ->.
  { rewrite Hcount. apply Z.mod_small. lia. }
  refine (ok_dev T (<[id:=g]> A) (Iommu.State (Iommu.mk (command_queue (iommu s)) (ddt (iommu s)) _) m' (dev s))
    (dev_set_attached (dev s)) (ok_count T A (<[id:=g]> A) s m' id g x (Z.of_nat (cnt g A) + 1) _ _ _ _ _ _ _ _ _)).
  - exact Hok.
  - done.
  - done.
  - exact Hid.
  - do 2 eexists. split; [exact Hstep|]. by rewrite lookup_insert_eq.
  - intros id' Hne. by rewrite lookup_insert_ne.
  - rewrite lookup_insert_eq. by intros g' [= ->].
  - intros g'. rewrite cnt_insert by done. destruct (decide (g' = g)) as [->|]; [rewrite decide_True by done; lia|].
    by rewrite decide_False by done.
  - lia.
Qed.

Lemma detach_spec T A s g :
  iommu_ok T A s → device_ok (dev s) → 0 ≤ g → (∀ g', A !! dev_address (dev s) = Some g' → g' = g) →
  ∃ r s', Iommu.detach_pci_device g s = Returns (r, s') ∧
    match r with
    | Ok _ => A !! dev_address (dev s) = Some g ∧ iommu_ok T (delete (dev_address (dev s)) A) s'
    | Err _ => iommu_ok T A s'
    end.
Proof.
  intros Hok Hd Hg Hat. unfold Iommu.detach_pci_device. erewrite bind_ok by done.
  destruct (DeviceId.try_from _) as [id|e] eqn:Hid; [|by erewrite bind_err by done; do 2 eexists].
  erewrite bind_ok by done. apply try_from_id in Hid as [-> Hid]; [|exact Hd]. set (id := dev_address (dev s)) in *.
  destruct (gscids_lookup (gscids (iommu s)) g) as [Hn|[x Hx]].
  { erewrite bind_err by (unfold Iommu.get_gscid; erewrite bind_ok by done; rewrite Hn; done). by do 2 eexists. }
  erewrite bind_ok by (unfold Iommu.get_gscid; erewrite bind_ok by done; rewrite Hx; done).
  destruct (bool_decide _) eqn:Ho; [by do 2 eexists|]. erewrite bind_ok by done.
  set (d := dev_clear_attached (dev s)).
  destruct (dir_disable_spec (ddt (iommu s)) T (mem_ s) id (io_dir _ _ _ Hok) Hid) as (r & m' & Hdis & Hr).
  destruct r as [[]|e].
  2: { destruct Hr as [-> _]. erewrite bind_err by (unfold Iommu.on_mem_; cbn [mem_ Iommu.set_dev iommu]; rewrite Hdis; done).
    do 2 eexists. split; [done|]. exact (ok_dev T A s d Hok). }
  erewrite bind_ok by (unfold Iommu.on_mem_; cbn [mem_ Iommu.set_dev iommu]; rewrite Hdis; done). erewrite bind_ok by done.
  destruct Hr as (c & Hc & Hstep).
  assert (A !! id = Some g) as HA.
  { destruct (proj2 (io_enabled _ _ _ Hok id Hid)) as [g' Hg']; [exists c; split; [apply Hstep|done]|].
    by rewrite Hg', (Hat g' Hg'). }
  pose proof (io_count _ _ _ Hok _ _ Hx) as Hcount. rewrite Z2Nat.id in Hcount by done.
  pose proof (cnt_delete g id g A HA) as Hdel. rewrite decide_True in Hdel by done.
  pose proof (attached_size _ _ _ Hok). pose proof (cnt_size g A).
  assert (wrap64 (GscIdState.ref_count x - 1) = Z.of_nat (cnt g (delete id A))) as ->.
  { rewrite Hcount. unfold wrap64. rewrite Z.mod_small; lia. }
  assert (Hok' : iommu_ok T (delete id A) (Iommu.set_dev d (Iommu.State (Iommu.mk (command_queue (iommu s)) (ddt (iommu s))
    (<[Z.to_nat g := Some (GscIdState.mk (GscIdState.owner x) (Z.of_nat (cnt g (delete id A))))]> (gscids (iommu s)))) m' (dev s)))).
  { apply ok_dev, (ok_count T A (delete id A) s m' id g x); [done..| | | | |lia].
    - do 2 eexists. split; [exact Hstep|]. by rewrite lookup_delete_eq.
    - intros id' Hne. by rewrite lookup_delete_ne.
    - by rewrite lookup_delete_eq.
    - intros g'. destruct (decide (g' = g)) as [->|]; [lia|]. rewrite (cnt_delete g' id g A HA), decide_False; done. }
  edestruct (submit_spec [Command.iodir_inval_ddt (Some id); Command.iofence]) as (s' & Hs & Hfl);
    [exact (io_queue _ _ _ Hok')|exact (io_idle _ _ _ Hok')|pose proof (io_room _ _ _ Hok'); cbn [length]; lia|].
  exists (Ok tt), s'. split; [|split; [done|by apply (ok_flushed T _ _ _ Hok')]]. apply (unwrap_eq _ _ _ _ Hs).
Qed.

Lemma free_spec T A s g :
  iommu_ok T A s → 0 ≤ g →
  ∃ r s', Iommu.free_gscid g s = Returns (r, s') ∧ iommu_ok T A s' ∧
    match r with
    | Ok _ => (∀ id, A !! id ≠ Some g) ∧ gscids (iommu s') !! Z.to_nat g = Some None
    | Err (GscIdInUse _) => s' = s ∧ ∃ id, A !! id = Some g
    | Err _ => s' = s ∧ mjoin (gscids (iommu s) !! Z.to_nat g) = None
    end.
Proof.
  intros Hok Hg. unfold Iommu.free_gscid. erewrite bind_ok by done.
  destruct (gscids (iommu s) !! Z.to_nat g) as [[x|]|] eqn:Hx.
  - erewrite bind_ok by done. cbv beta iota. destruct (Z.ltb_spec 0 (GscIdState.ref_count x)) as [Hlt|Hle]; do 2 (eexists).
    + split; [done|]. split; [exact Hok|]. split; [done|]. rewrite (io_count _ _ _ Hok _ _ Hx), Z2Nat.id in Hlt by done.
      destruct (decide (∃ id, id ∈ dom A ∧ A !! id = Some g)) as [(id & _ & E)|Hn]; [by exists id|].
      rewrite cnt_none in Hlt; [lia|]. intros id E. apply Hn. exists id. split; [by apply elem_of_dom_2 in E|done].
    + split; [done|]. destruct (ok_free T A s _ x Hok Hx Hle) as [Hu Hok']. rewrite Z2Nat.id in Hu by done.
      split_and!; [exact Hok'|done|]. apply list_lookup_insert_eq. by eapply lookup_lt_Some.
  - erewrite bind_ok by done. do 2 eexists. by split_and!.
  - erewrite bind_err by done. do 2 eexists. by split_and!.
Qed.

Lemma alloc_spec T A s o :
  iommu_ok T A s →
  ∃ r s', Iommu.alloc_gscid o s = Returns (r, s') ∧ iommu_ok T A s' ∧
    match r with
    | Ok g => 0 ≤ g ∧ gscids (iommu s) !! Z.to_nat g = Some None ∧ (∀ id, A !! id ≠ Some g) ∧
        gscids (iommu s') !! Z.to_nat g = Some (Some (GscIdState.mk o 0))
    | Err e => e = OutOfGscIds ∧ s' = s ∧ None ∉ gscids (iommu s)
    end.
Proof.
  intros Hok. unfold Iommu.alloc_gscid. erewrite bind_ok by done. destruct (position _ _) as [n|] eqn:Hp.
  - erewrite bind_ok by done. apply position_Some in Hp as (g & Hn & ->%bool_decide_eq_true & _).
    eexists (Ok (Z.of_nat n)), _. split; [done|]. rewrite Nat2Z.id. split; [by apply ok_alloc|]. split_and!; [lia|done| |].
    + intros id E. destruct (io_ids _ _ _ Hok id _ E) as (_ & _ & x & Hx). rewrite Nat2Z.id in Hx. congruence.
    + apply list_lookup_insert_eq. by eapply lookup_lt_Some.
  - erewrite bind_err by done. do 2 eexists. split; [done|]. split; [exact Hok|].
    split_and!; [done|done|]. apply position_None in Hp.
    intros Hin. rewrite list.Forall_forall in Hp. apply Hp in Hin. by rewrite bool_decide_eq_false in Hin.
Qed.
End attach.
End Attach.
Import Attach.
Import Iommu(iommu, mem_, dev, command_queue, ddt, gscids).
Import Ring(queue_ok, contents, count).

(** A command queue is a FIFO that holds one element less than its slots.
    Whatever the positions of its ends, a push appends its element, and fails,
    changing nothing, exactly when the queue is full; a head that the hardware
    reports is accepted exactly when it lies between the old head and the tail, and
    then drops the elements before it; and posting fewer commands than the
    capacity to an idle queue succeeds and leaves it idle, the rest of the IOMMU as
    it was, so the unwraps of [detach_pci_device] and [fence] do not panic. *)
Theorem command_queue_is_bounded_fifo {D} (q : Queue.t Command.t) :
  queue_ok q →
  (∀ x, if count q =? Queue.capacity q - 1 then Queue.push x q = Returns (Err QueueFull, q)
    else ∃ q', Queue.push x q = Returns (Ok tt, q') ∧ queue_ok q' ∧ contents q' = contents q ++ [Some x]) ∧
  (∀ h, 0 ≤ h → match Queue.update_head h q with
    | Panics => False
    | Returns (Err e, q') => q' = q ∧ e = InvalidQueuePointer h ∧ ∀ n, 0 ≤ n ≤ count q → Ring.pos q n ≠ h
    | Returns (Ok _, q') => queue_ok q' ∧
        ∃ n, (n ≤ length (contents q))%nat ∧ Ring.pos q (Z.of_nat n) = h ∧ contents q' = drop n (contents q)
    end) ∧
  (∀ (s : Iommu.state D) cmds, Iommu.command_queue (Iommu.iommu s) = q → contents q = [] → Z.of_nat (length cmds) < Queue.capacity q →
    ∃ s', Iommu.submit_commands_sync cmds s = Returns (Ok tt, s') ∧ flushed s s').
Proof.
  intros Hq. split_and!.
  - intros x. pose proof (Ring.push_spec q x Hq) as H. destruct (_ =? _); [done|]. naive_solver.
  - intros h Hh. pose proof (Ring.update_head_spec q h Hq Hh) as H. destruct (Queue.update_head h q) as [[[]q']|]; naive_solver.
  - intros s cmds <- Hc Hl. by apply submit_spec.
Qed.

Lemma command_queue_is_bounded_fifo_witness :
  let q := Queue.mk ∅ 255 255 256 in
  ∃ q1, Queue.push Command.iofence q = Returns (Ok tt, q1) ∧ contents q1 = [Some Command.iofence] ∧ Queue.tail q1 = 0.
Proof.
  destruct (command_queue_is_bounded_fifo (D := unit) (Queue.mk ∅ 255 255 256)) as [Hp _].
  - split; cbn; [by exists 8|lia|lia].
  - destruct (Hp Command.iofence) as (q1 & E & _ & Hc). exists q1. split_and!; [exact E|exact Hc|].
    vm_compute in E. by injection E as <-.
Defined.

(** C30: the reference counts of the soft-context ids are exact. Starting from any
    state in which the count of each allocated id is the number of attached devices
    that use it and the enabled device contexts are those of the attached devices,
    allocating, freeing, attaching, detaching (with the id the device was attached
    with) and fencing never panic and lead to such a state again; an id that is
    handed out is not used by any device, and an id is freed only when no
    device uses it. *)
Theorem gscid_counts_are_exact `{DEV : IommuDevice D} T A (s : Iommu.state D) :
  iommu_ok T A s →
  (∀ o, ∃ r s', Iommu.alloc_gscid o s = Returns (r, s') ∧ iommu_ok T A s' ∧
    match r with
    | Ok g => 0 ≤ g ∧ (∀ id, A !! id ≠ Some g) ∧
        Iommu.gscids (Iommu.iommu s') !! Z.to_nat g = Some (Some (GscIdState.mk o 0))
    | Err e => e = OutOfGscIds ∧ s' = s ∧ None ∉ Iommu.gscids (Iommu.iommu s)
    end) ∧
  (∀ g, 0 ≤ g → ∃ r s', Iommu.free_gscid g s = Returns (r, s') ∧ iommu_ok T A s' ∧
    match r with
    | Ok _ => (∀ id, A !! id ≠ Some g) ∧ Iommu.gscids (Iommu.iommu s') !! Z.to_nat g = Some None
    | Err (GscIdInUse _) => s' = s ∧ ∃ id, A !! id = Some g
    | Err _ => s' = s ∧ mjoin (Iommu.gscids (Iommu.iommu s) !! Z.to_nat g) = None
    end) ∧
  (∀ pt msi_pt g, device_ok (Iommu.dev s) → 0 ≤ g →
    ∃ r s', Iommu.attach_pci_device pt msi_pt g s = Returns (r, s') ∧
    match r with
    | Ok _ => A !! dev_address (Iommu.dev s) = None ∧
        iommu_ok T (<[dev_address (Iommu.dev s) := g]> A) s'
    | Err _ => s' = s
    end) ∧
  (∀ g, device_ok (Iommu.dev s) → 0 ≤ g → (∀ g', A !! dev_address (Iommu.dev s) = Some g' → g' = g) →
    ∃ r s', Iommu.detach_pci_device g s = Returns (r, s') ∧
    match r with
    | Ok _ => A !! dev_address (Iommu.dev s) = Some g ∧
        iommu_ok T (delete (dev_address (Iommu.dev s)) A) s'
    | Err _ => iommu_ok T A s'
    end) ∧
  (∀ g addr, ∃ s', Iommu.fence g addr s = Returns (Ok tt, s') ∧ iommu_ok T A s').
Proof.
  intros Hok. split_and!.
  - intros o. destruct (alloc_spec T A s o Hok) as (r & s' & E & Hs & Hr). exists r, s'. split_and!; [done..|].
    destruct r; naive_solver.
  - intros g Hg. by apply free_spec.
  - intros pt msi_pt g Hd Hg. destruct (attach_spec T A s pt msi_pt g Hok Hd Hg) as (r & s' & E & Hr).
    exists r, s'. split; [done|]. destruct r; naive_solver.
  - intros g Hd Hg Hat. by apply detach_spec.
  - intros g addr. edestruct (submit_spec [Command.iotinval_gvma (Some g) addr; Command.iofence] s) as (s' & Hs & Hfl);
      [apply Hok|apply Hok|pose proof (io_room _ _ _ Hok); cbn [length]; lia|].
    exists s'. split; [by apply unwrap_eq|by apply (ok_flushed T A s)].
Qed.

(** A directory with device 8, which VM 2 owns. *)
Definition example_ddt : outcome (result IommuError.t unit * (mem * list Page.t)) :=
  Eval vm_compute in DeviceDirectory.add_device 65536 8 (∅, page_run 131072 Size4k 2).
Record example_device := ExampleDevice { ex_address : Z; ex_owner : option PageOwnerId.t; ex_attached : bool }.
#[export] Instance example_dev : IommuDevice example_device := {|
  dev_address := ex_address;
  dev_owner := ex_owner;
  dev_set_attached d := ExampleDevice (ex_address d) (ex_owner d) true;
  dev_clear_attached d := ExampleDevice (ex_address d) (ex_owner d) false;
|}.
Definition example_iommu : Iommu.state example_device :=
  Iommu.State (Iommu.mk (Queue.mk ∅ 0 0 256) 65536 (Some (GscIdState.mk 2 0) :: replicate 63 None))
    (match example_ddt with Returns (_, (m, _)) => m | Panics => ∅ end) (ExampleDevice 8 (Some 2) false).
Definition example_pt : GuestStagePageTable.t Sv48x4Level.t :=
  GuestStagePageTable.mk (PageTableInner.mk (SequentialPages.mk 2097152 Size4k 4)) 2.

Lemma example_iommu_ok : ∃ T, iommu_ok T ∅ example_iommu.
Proof.
  destruct (dir_add_spec 65536 {[65536 := 2%nat]} ∅ (page_run 131072 Size4k 2) 8) as (r & T & m & pages & Hadd & Hwf & Hoth & Hr).
  - apply new_directory_wf; [split; [lia|done]|done|done].
  - apply example_fresh.
  - unfold device_id. lia.
  - assert (mem_ example_iommu = m) as Em.
    { change (DeviceDirectory.add_device 65536 8 _) with example_ddt in Hadd. unfold example_iommu. cbn [mem_]. by rewrite Hadd. }
    exists T. split; cbn [iommu command_queue ddt gscids example_iommu]; rewrite ?Em.
    + done.
    + split; cbn; [by exists 8|lia|lia].
    + done.
    + cbn. lia.
    + done.
    + intros id Hid. split; [by intros [g Hg]|]. intros (c & Hc & He). exfalso.
      assert (Hnone : ∀ i, context 65536 ∅ i = None) by (intros i; unfold context; by rewrite find_zeroed by done).
      destruct (decide (id = 8)) as [->|Hne]; [|by rewrite Hoth, Hnone in Hc].
      destruct r; [|by destruct Hr as (_ & Hl & _); cbn in Hl; lia]. rewrite Hnone in Hr. cbn [default] in Hr. rewrite Hr in Hc.
      by injection Hc as <-.
    + intros g x Hg. rewrite cnt_none by done. destruct g as [|g]; [by injection Hg as <-|].
      change (replicate 63 (None : option GscIdState.t) !! g = Some (Some x)) in Hg. by apply lookup_replicate in Hg as [? _].
Qed.

Lemma gscid_counts_are_exact_witness :
  ∃ s1 s2 T, Iommu.attach_pci_device example_pt msi_table 0 example_iommu = Returns (Ok tt, s1) ∧
    iommu_ok T {[8 := 0]} s1 ∧ Iommu.detach_pci_device 0 s1 = Returns (Ok tt, s2) ∧ iommu_ok T ∅ s2.
Proof.
  destruct example_iommu_ok as [T Hok].
  destruct (gscid_counts_are_exact T ∅ example_iommu Hok) as (_ & _ & Hat & _ & _).
  destruct (Hat example_pt msi_table 0) as (r & s1 & E & Hr); [split; cbn; lia|lia|].
  destruct r as [[]|e]; [|vm_compute in E; discriminate E]. destruct Hr as [_ Hok1].
  destruct (gscid_counts_are_exact T {[8 := 0]} s1 Hok1) as (_ & _ & _ & Hdet & _).
  assert (Ed : Iommu.dev s1 = ExampleDevice 8 (Some 2) true) by (vm_compute in E; by injection E as <-).
  destruct (Hdet 0) as (r & s2 & E2 & Hr); [by rewrite Ed|done|rewrite Ed; intros g' Eg; vm_compute in Eg; congruence|].
  destruct r as [[]|e]; [|vm_compute in E; injection E as <-; vm_compute in E2; discriminate E2].
  destruct Hr as [_ Hok2]. exists s1, s2, T. split_and!; [exact E|exact Hok1|exact E2|].
  rewrite Ed in Hok2. cbn [dev_address example_dev ex_address] in Hok2. rewrite delete_singleton_eq in Hok2. exact Hok2.
Defined.

(** A consumer that has read the last slot of the ring does not return to the first
    one: the next [pop] of a queue with another element panics. *)
Theorem pop_leaves_the_ring :
  let q := Queue.mk {[127 := 7; 0 := 8]} 127 1 128 in
  queue_ok q ∧ contents q = [Some 7; Some 8] ∧
  ∃ q', Queue.pop q = Returns (Ok (Some 7), q') ∧ Queue.is_empty q' = false ∧ Queue.pop q' = Panics.
Proof.
  cbv zeta. split; [split; cbn; [by exists 7|lia|lia]|]. split; [done|].
  exists (Queue.mk {[127 := 7; 0 := 8]} 128 1 128). done.
Qed.

(** An owner with two soft-context ids that detaches a device with the id the device
    is not attached with underflows the count of that id, and frees the id whose count
    it did not drop never again. *)
Theorem detach_with_other_gscid_underflows :
  ∃ s g s1 s2, Iommu.alloc_gscid 2 example_iommu = Returns (Ok g, s) ∧
    Iommu.attach_pci_device example_pt msi_table 0 s = Returns (Ok tt, s1) ∧
    Iommu.detach_pci_device g s1 = Returns (Ok tt, s2) ∧
    GscIdState.ref_count <$> mjoin (gscids (iommu s2) !! Z.to_nat g) = Some (2 ^ 64 - 1) ∧
    Iommu.free_gscid 0 s2 = Returns (Err (GscIdInUse 0), s2).
Proof.
  set (d := example_iommu). set (s := final d (Iommu.alloc_gscid 2 d)).
  set (s1 := final d (Iommu.attach_pci_device example_pt msi_table 0 s)).
  exists s, 1, s1, (final d (Iommu.detach_pci_device 1 s1)). split_and!; vm_compute; reflexivity.
Qed.
