(* ===== verification/PciRegs.v ===== *)
(** * Registers of PCI functions and partial accesses to them
      (drivers/src/pci/registers.rs, mmio_builder.rs)

    The register blocks of a PCI function are [repr(C)] structs over its
    configuration space, so a register is an offset and a width.  Two things are not
    code of the repository and are interfaces here: the hardware behind the
    registers ([ConfigHw]) and the bit fields of the crate tock-registers
    ([RegisterFields]), each with the laws that the code relies on and with one
    instance. *)
From stdpp Require Import strings.
From S2P Require Import Prelude.
Local Open Scope Z_scope.

(** ** Narrow words

    A shift by the width of the type or more masks the shift amount. *)
Definition wrap8 (x : Z) : Z := x mod 2 ^ 8.
Definition wrap16 (x : Z) : Z := x mod 2 ^ 16.
Definition wrap32 (x : Z) : Z := x mod 2 ^ 32.
Definition not16 (x : Z) : Z := 2 ^ 16 - 1 - x.
Definition not32 (x : Z) : Z := 2 ^ 32 - 1 - x.
Definition shl32 (x k : Z) : Z := wrap32 (Z.shiftl x (k mod 32)).
Definition shr32 (x k : Z) : Z := Z.shiftr x (k mod 32).

(** ** Hardware

    A function's configuration space under reads and writes of a width in bytes at
    an offset.  Reads of configuration registers have no effect. *)
Class ConfigHw (H : Type) := {
  cfg_read : Z → Z → H → Z;
  cfg_write : Z → Z → Z → H → H;
}.

(** What the code relies on: a register holds a value of its width, a write changes
    no register that it does not overlap, and a bit of the COMMAND register reads as
    one only if one was written to it. *)
Class ConfigHwLaws (H : Type) `{ConfigHw H} : Prop := {
  cfg_read_bound w o h : 0 ≤ w → 0 ≤ cfg_read w o h < 2 ^ (8 * w);
  cfg_write_frame w o v w' o' h :
    0 < w → 0 < w' → o + w ≤ o' ∨ o' + w' ≤ o → cfg_read w' o' (cfg_write w o v h) = cfg_read w' o' h;
  cfg_write_command v h : 0 ≤ v → Z.ldiff (cfg_read 2 4 (cfg_write 2 4 v h)) v = 0;
}.

(** ** Bit fields (the interface of tock-registers) *)
Module Field.
Record t := mk { shift : Z; numbits : Z }.
Definition mask (f : t) : Z := Z.ones (numbits f).
End Field.

Class RegisterFields := {
  field_read : Field.t → Z → Z;
  field_modify : Field.t → Z → Z → Z;
}.
Class RegisterFieldsLaws `{RegisterFields} : Prop := {
  field_read_spec f r : field_read f r = Z.land (Z.shiftr r (Field.shift f)) (Field.mask f);
  field_modify_spec f v r :
    field_modify f v r =
      Z.lor (Z.ldiff r (Z.shiftl (Field.mask f) (Field.shift f)))
            (Z.shiftl (Z.land v (Field.mask f)) (Field.shift f));
}.

Definition is_set `{RegisterFields} (f : Field.t) (r : Z) : bool := negb (field_read f r =? 0).

(** ** Layout of [repr(C)] structs: fields with size and alignment *)
Abbreviation layout := (list (string * (Z * Z))).
Definition align_up (x a : Z) : Z := (x + a - 1) / a * a.
Fixpoint offset_from (at_ : Z) (l : layout) (name : string) : option (Z * Z) :=
  match l with
  | [] => None
  | (n, (size, align)) :: l' =>
      let at_ := align_up at_ align in
      if String.eqb n name then Some (at_, size) else offset_from (at_ + size) l' name
  end.
Fixpoint end_from (at_ : Z) (l : layout) : Z :=
  match l with
  | [] => at_
  | (_, (size, align)) :: l' => end_from (align_up at_ align + size) l'
  end.
Definition size_of (l : layout) : Z :=
  align_up (end_from 0 l) (foldr (λ f m, Z.max (snd (snd f)) m) 1 l).

(** A register: its offset and its width, both in bytes. *)
Module Reg.
Record t := mk { offset : Z; width : Z }.
Definition at_field (l : layout) (name : string) : t :=
  match offset_from 0 l name with Some (o, s) => mk o s | None => mk 0 0 end.
(** [offset] is in the [span!()] of the register. *)
Definition span (r : t) (off : Z) : bool := (offset r <=? off) && (off <=? offset r + width r - 1).
End Reg.

Definition u8_ (name : string) : string * (Z * Z) := (name, (1, 1)).
Definition u16_ (name : string) : string * (Z * Z) := (name, (2, 2)).
Definition u32_ (name : string) : string * (Z * Z) := (name, (4, 4)).

Section layouts.
Local Open Scope string_scope.
Local Open Scope Z_scope.

Definition CommonRegisters : layout :=
  [u16_ "vendor_id"; u16_ "dev_id"; u16_ "command"; u16_ "status"; u8_ "rev_id"; u8_ "prog_if";
   u8_ "subclass"; u8_ "class"; u8_ "cl_size"; u8_ "lat_timer"; u8_ "header_type"; u8_ "bist"].

Definition PCI_ENDPOINT_BARS : nat := 6.
Definition EndpointRegisters : layout :=
  [("common", (16, 2)); ("bar", (4 * Z.of_nat PCI_ENDPOINT_BARS, 4)); u32_ "cardbus"; u16_ "subsys_vendor_id";
   u16_ "subsys_id"; u32_ "expansion_rom"; u8_ "cap_ptr"; ("_reserved", (7, 1)); u8_ "int_line";
   u8_ "int_pin"; u8_ "min_gnt"; u8_ "max_lat"].

Definition PCI_BRIDGE_BARS : nat := 2.
Definition BridgeRegisters : layout :=
  [("common", (16, 2)); ("bar", (4 * Z.of_nat PCI_BRIDGE_BARS, 4)); u8_ "pri_bus"; u8_ "sec_bus"; u8_ "sub_bus";
   u8_ "sec_lat"; u8_ "io_base"; u8_ "io_limit"; u16_ "sec_status"; u16_ "mem_base"; u16_ "mem_limit";
   u16_ "pref_base"; u16_ "pref_limit"; u32_ "pref_base_upper"; u32_ "pref_limit_upper";
   u16_ "io_base_upper"; u16_ "io_limit_upper"; u8_ "cap_ptr"; ("_reserved", (3, 1));
   u32_ "expansion_rom"; u8_ "int_line"; u8_ "int_pin"; u16_ "bridge_control"].

Definition CapabilityHeader : layout := [u8_ "cap_id"; u8_ "next_cap"].
Definition header_field : string * (Z * Z) := ("header", (2, 1)).

Definition PowerManagementRegisters : layout :=
  [header_field; u16_ "pmc"; u16_ "pmcsr"; u8_ "_reserved"; u8_ "data"].
Definition MsiRegisters : layout :=
  [header_field; u16_ "msg_control"; u32_ "msg_addr"; u32_ "msg_upper_addr"; u16_ "msg_data";
   u16_ "extended_msg_data"; u32_ "mask_bits"; u32_ "pending_bits"].
Definition MsiXRegisters : layout :=
  [header_field; u16_ "msg_control"; u32_ "table_offset"; u32_ "pba_offset"].
Definition VendorCapabilityHeader : layout :=
  [header_field; u8_ "cap_length"; u8_ "_vendor_specific"].
Definition BridgeSubsystemRegisters : layout :=
  [header_field; u16_ "_reserved"; u16_ "ssvid"; u16_ "ssid"].
Definition ExpressRegisters : layout :=
  [header_field; u16_ "exp_caps"; u32_ "dev_caps"; u16_ "dev_control"; u16_ "dev_status";
   u32_ "link_caps"; u16_ "link_control"; u16_ "link_status"; u32_ "slot_caps"; u16_ "slot_control";
   u16_ "slot_status"; u16_ "root_control"; u16_ "root_caps"; u32_ "root_status"; u32_ "dev_caps2";
   u16_ "dev_control2"; u16_ "dev_status2"; u32_ "link_caps2"; u16_ "link_control2";
   u16_ "link_status2"; u32_ "slot_caps2"; u16_ "slot_control2"; u16_ "slot_status2"].
End layouts.

Definition PCI_COMMON_HEADER_END : Z := 15.
Definition PCI_TYPE_HEADER_START : Z := 16.
Definition PCI_TYPE_HEADER_END : Z := 63.
Definition PCI_CAPS_START : Z := PCI_TYPE_HEADER_END + 1.
Definition PCI_CONFIG_SPACE_END : Z := 255.
Definition PCI_MAX_CAP_LENGTH : Z := PCI_CONFIG_SPACE_END - PCI_CAPS_START + 1.

(** ** The bit fields of the registers *)
Inductive register :=
| Command | Status | SecondaryStatus | BridgeControl | PmCapabilities | PmControlStatus
| MsiMessageControl | MsiXMessageControl | ExpressCapabilities | DeviceControl | LinkStatus | MemWindow
| Type_ | Bist | IoWindow
| BaseAddress | DeviceCapabilities | LinkCapabilities.
#[export] Instance register_eq_dec : EqDecision register.
Proof. solve_decision. Defined.

Section fields.
Local Open Scope string_scope.
Local Open Scope Z_scope.

(** The declarations: name, OFFSET and NUMBITS. *)
Definition bitfields_u16 : list (register * list (string * (Z * Z))) :=
  [(Command, [("IoEnable", (0, 1)); ("MemoryEnable", (1, 1)); ("BusMasterEnable", (2, 1));
      ("ParityErrorResponse", (6, 1)); ("SerrEnable", (8, 1)); ("InterruptDisable", (10, 1))]);
   (Status, [("ImmediateReadiness", (0, 1)); ("InterruptStatus", (3, 1)); ("CapabilitiesList", (4, 1));
      ("MasterDataParityError", (8, 1)); ("SignaledTargetAbort", (11, 1)); ("ReceivedTargetAbort", (12, 1));
      ("ReceivedMasterAbort", (13, 1)); ("SignaledSystemError", (14, 1)); ("DetectedParityError", (15, 1))]);
   (SecondaryStatus, [("MasterDataParityError", (8, 1)); ("SignaledTargetAbort", (11, 1));
      ("ReceivedTargetAbort", (12, 1)); ("ReceivedMasterAbort", (13, 1)); ("ReceivedSystemError", (14, 1));
      ("DetectedParityError", (15, 1))]);
   (BridgeControl, [("ParityErrorResponse", (0, 1)); ("SerrEnable", (1, 1)); ("IsaEnable", (2, 1));
      ("VgaEnable", (3, 1)); ("Vga16Bit", (4, 1)); ("SecondaryBusReset", (6, 1))]);
   (PmCapabilities, [("Version", (0, 3)); ("ImmediateReadinessD0", (4, 1)); ("DeviceSpecificInitialization", (5, 1));
      ("AuxCurrent", (6, 3)); ("D1Support", (9, 1)); ("D2Support", (10, 1)); ("PmeSupport", (11, 5))]);
   (PmControlStatus, [("PowerState", (0, 2)); ("NoSoftReset", (3, 1)); ("PmeEn", (8, 1)); ("DataSelect", (9, 4));
      ("DataScale", (13, 2)); ("PmeStatus", (15, 1))]);
   (MsiMessageControl, [("MsiEnable", (0, 1)); ("MultipleMessageCapable", (1, 3)); ("MultipleMessageEnable", (4, 3));
      ("Address64BitCapable", (7, 1)); ("VectorMaskingCapable", (8, 1)); ("ExtendedMessageCapable", (9, 1));
      ("ExtendedMessageEnable", (10, 1))]);
   (MsiXMessageControl, [("TableSize", (0, 10)); ("FunctionMask", (14, 1)); ("MsiXEnable", (15, 1))]);
   (ExpressCapabilities, [("Version", (0, 4)); ("DeviceType", (4, 4)); ("SlotImplemented", (8, 1));
      ("InterruptMessageNumber", (9, 5)); ("FlitModeSupported", (15, 1))]);
   (DeviceControl, [("EnableRelaxedOrdering", (4, 1)); ("MaxPayloadSize", (5, 3)); ("NoSnoop", (11, 1));
      ("MaxReadRequestSize", (12, 3)); ("FunctionLevelReset", (15, 1))]);
   (LinkStatus, [("LinkSpeed", (0, 4)); ("LinkWidth", (4, 6))]);
   (MemWindow, [("Address", (4, 12))])].
Definition bitfields_u8 : list (register * list (string * (Z * Z))) :=
  [(Type_, [("Layout", (0, 7)); ("MultiFunction", (7, 1))]);
   (Bist, [("CompletionCode", (0, 3)); ("Start", (6, 1)); ("Capable", (7, 1))]);
   (IoWindow, [("Address", (4, 4))])].
Definition bitfields_u32 : list (register * list (string * (Z * Z))) :=
  [(BaseAddress, [("SpaceType", (0, 1)); ("MemoryType", (1, 2)); ("Prefetchable", (3, 1)); ("Address", (4, 28))]);
   (DeviceCapabilities, [("MaxPayloadSize", (0, 3)); ("FunctionLevelReset", (28, 1))]);
   (LinkCapabilities, [("MaxLinkSpeed", (0, 4)); ("MaxLinkWidth", (4, 6)); ("PortNumber", (24, 8))])].
End fields.

Fixpoint assoc {K V} `{EqDecision K} (k : K) (l : list (K * V)) : option V :=
  match l with
  | [] => None
  | (k', v) :: l' => if decide (k' = k) then Some v else assoc k l'
  end.
(** [R::NAME]. *)
Definition fld (r : register) (name : string) : Field.t :=
  match (fs ← assoc r (bitfields_u16 ++ bitfields_u8 ++ bitfields_u32); assoc name fs) with
  | Some (o, n) => Field.mk o n
  | None => Field.mk 0 0
  end.

(** ** The masks of the bits that a VM may read, write or clear *)
Module Masks.
Record t := mk { writeable : Z; readable : Z; clearable : Z }.
End Masks.

Section masks.
Context `{RF : RegisterFields}.
Local Open Scope string_scope.
Local Open Scope Z_scope.

(** A sequence of [mask.modify(R::FIELD.val(v))]. *)
Definition set_fields (r : register) (l : list (string * Z)) (mask : Z) : Z :=
  fold_left (λ m '(name, v), field_modify (fld r name) v m) l mask.
(** [.val(R::FIELD.mask)]. *)
Definition full (r : register) (name : string) : string * Z := (name, Field.mask (fld r name)).

Definition Command_masks : Masks.t :=
  let w := set_fields Command [("IoEnable", 1); ("MemoryEnable", 1); ("BusMasterEnable", 1);
             ("ParityErrorResponse", 1); ("SerrEnable", 1)] 0 in
  Masks.mk w w 0.
Definition Status_masks : Masks.t :=
  let w := set_fields Status [("MasterDataParityError", 1); ("SignaledTargetAbort", 1); ("ReceivedTargetAbort", 1);
             ("ReceivedMasterAbort", 1); ("SignaledSystemError", 1); ("DetectedParityError", 1)] 0 in
  Masks.mk w (set_fields Status [("ImmediateReadiness", 1)] w) w.
Definition SecondaryStatus_masks : Masks.t :=
  let w := set_fields SecondaryStatus [("MasterDataParityError", 1); ("SignaledTargetAbort", 1);
             ("ReceivedTargetAbort", 1); ("ReceivedMasterAbort", 1); ("ReceivedSystemError", 1);
             ("DetectedParityError", 1)] 0 in
  Masks.mk w w w.
Definition BridgeControl_masks : Masks.t :=
  let w := set_fields BridgeControl [("ParityErrorResponse", 1); ("SerrEnable", 1)] 0 in
  Masks.mk w w 0.
Definition PmCapabilities_masks : Masks.t :=
  Masks.mk 0 (set_fields PmCapabilities [full PmCapabilities "Version"; ("ImmediateReadinessD0", 1);
    ("DeviceSpecificInitialization", 1); full PmCapabilities "AuxCurrent"] 0) 0.
Definition PmControlStatus_masks : Masks.t :=
  Masks.mk 0 (set_fields PmControlStatus [("NoSoftReset", 1)] 0) 0.
Definition MsiMessageControl_masks : Masks.t :=
  let w := set_fields MsiMessageControl [("MsiEnable", 1); full MsiMessageControl "MultipleMessageEnable";
             ("ExtendedMessageEnable", 1)] 0 in
  Masks.mk w (set_fields MsiMessageControl [full MsiMessageControl "MultipleMessageCapable";
    ("Address64BitCapable", 1); ("VectorMaskingCapable", 1); ("ExtendedMessageCapable", 1)] w) 0.
Definition MsiXMessageControl_masks : Masks.t :=
  let w := set_fields MsiXMessageControl [("FunctionMask", 1); ("MsiXEnable", 1)] 0 in
  Masks.mk w (set_fields MsiXMessageControl [full MsiXMessageControl "TableSize"] w) 0.
Definition ExpressCapabilities_masks : Masks.t :=
  Masks.mk 0 (set_fields ExpressCapabilities [full ExpressCapabilities "Version";
    full ExpressCapabilities "DeviceType"; full ExpressCapabilities "InterruptMessageNumber"] 0) 0.
Definition DeviceCapabilities_masks : Masks.t :=
  Masks.mk 0 (set_fields DeviceCapabilities [full DeviceCapabilities "MaxPayloadSize"] 0) 0.
Definition DeviceControl_masks : Masks.t :=
  let w := set_fields DeviceControl [("EnableRelaxedOrdering", 1); ("NoSnoop", 1)] 0 in
  Masks.mk w (set_fields DeviceControl [full DeviceControl "MaxPayloadSize"; full DeviceControl "MaxReadRequestSize"] w) 0.
Definition LinkCapabilities_masks : Masks.t :=
  Masks.mk 0 (set_fields LinkCapabilities [full LinkCapabilities "MaxLinkSpeed"; full LinkCapabilities "MaxLinkWidth";
    full LinkCapabilities "PortNumber"] 0) 0.
Definition LinkStatus_masks : Masks.t :=
  Masks.mk 0 (set_fields LinkStatus [full LinkStatus "LinkSpeed"; full LinkStatus "LinkWidth"] 0) 0.

(** [RegisterHelpers], for registers of 16 and of 32 bits. *)
Definition writeable_bits (m : Masks.t) (r : Z) : Z := Z.land r (Masks.writeable m).
Definition readable_bits (m : Masks.t) (r : Z) : Z := Z.land r (Masks.readable m).
Definition non_clearable_bits (m : Masks.t) (r : Z) : Z := Z.land r (not16 (Masks.clearable m)).
End masks.

(** ** Partial accesses (mmio_builder.rs) *)
Definition byte_mask (bytes : Z) : Z := wrap32 (wrap64 (wrap64 (Z.shiftl 1 (bytes * 8 mod 64)) - 1)).
Definition select_bytes (val offset len : Z) : Z := Z.land (shr32 val (offset * 8)) (byte_mask len).
Definition update_bytes (dest offset len src : Z) : Z :=
  let mask := shl32 (byte_mask len) (offset * 8) in
  Z.lor (Z.land dest (not32 mask)) (Z.land (shl32 src (offset * 8)) mask).

Module MmioReadBuilder.
Record t := mk { offset : Z; len : Z; written : Z; result_ : Z }.
Definition new (offset len : Z) : t := mk offset len 0 0.
Definition done_ (op : t) : bool := written op =? len op.
Definition push_byte (value : Z) (op : t) : t :=
  mk (offset op + 1) (len op) (written op + 1) (Z.lor (result_ op) (shl32 value (written op * 8))).
(** [push_word] and [push_dword], for a register of [size] bytes. *)
Definition push_part (size value : Z) (op : t) : t :=
  let offset_in := Z.land (offset op) (size - 1) in
  let to_write := Z.min (size - offset_in) (wrap64 (len op - written op)) in
  let value := select_bytes value offset_in to_write in
  mk (offset op + to_write) (len op) (written op + to_write)
     (Z.lor (result_ op) (shl32 value (written op * 8))).
Definition push_word (value : Z) (op : t) : t := push_part 2 value op.
Definition push_dword (value : Z) (op : t) : t := push_part 4 value op.
End MmioReadBuilder.

Module MmioWriteBuilder.
Record t := mk { offset : Z; len : Z; read : Z; value : Z }.
Definition new (offset value len : Z) : t := mk offset len 0 value.
Definition done_ (op : t) : bool := read op =? len op.
Definition pop_byte (op : t) : Z * t :=
  (wrap8 (shr32 (value op) (read op * 8)), mk (offset op + 1) (len op) (read op + 1) (value op)).
Definition pop_part (size dest : Z) (op : t) : Z * t :=
  let offset_in := Z.land (offset op) (size - 1) in
  let to_read := Z.min (size - offset_in) (wrap64 (len op - read op)) in
  (update_bytes dest offset_in to_read (shr32 (value op) (read op * 8)),
   mk (offset op + to_read) (len op) (read op + to_read) (value op)).
Definition pop_word (dest : Z) (op : t) : Z * t := let '(v, op) := pop_part 2 dest op in (wrap16 v, op).
Definition pop_dword (dest : Z) (op : t) : Z * t := pop_part 4 dest op.
End MmioWriteBuilder.

(** ** Instances *)
(** Fields as shifts and masks. *)
#[export] Instance plain_fields : RegisterFields := {|
  field_read f r := Z.land (Z.shiftr r (Field.shift f)) (Field.mask f);
  field_modify f v r := Z.lor (Z.ldiff r (Z.shiftl (Field.mask f) (Field.shift f)))
                              (Z.shiftl (Z.land v (Field.mask f)) (Field.shift f));
|}.
#[export] Instance plain_fields_laws : RegisterFieldsLaws.
Proof. split; done. Qed.

(** Registers as bytes: [fixed] bits always read as ones, and only the bits of
    [writable] take a written value.  COMMAND has no fixed bits. *)
Module MemHw.
Record t := mk { stored : gmap Z Z; fixed : gmap Z Z; writable : gmap Z Z }.
Definition byte (o : Z) (h : t) : Z :=
  wrap8 (Z.lor (default 0 (stored h !! o)) (if (o =? 4) || (o =? 5) then 0 else default 0 (fixed h !! o))).
Fixpoint read (n : nat) (o : Z) (h : t) : Z :=
  match n with O => 0 | S n => byte o h + 256 * read n (o + 1) h end.
Fixpoint write (n : nat) (o v : Z) (h : t) : t :=
  match n with
  | O => h
  | S n =>
      write n (o + 1) (v / 256)
        (mk (<[o := Z.land (wrap8 v) (default 255 (writable h !! o))]> (stored h)) (fixed h) (writable h))
  end.

Lemma byte_bound o h : 0 ≤ byte o h < 256.
Proof. unfold byte, wrap8. apply Z.mod_pos_bound. done. Qed.
Lemma read_bound n o h : 0 ≤ read n o h < 256 ^ Z.of_nat n.
Proof.
  revert o. induction n as [|n IH]; intros o; cbn [read]; [done|].
  rewrite Nat2Z.inj_succ, Z.pow_succ_r by lia. pose proof (byte_bound o h). specialize (IH (o + 1)). lia.
Qed.
Lemma byte_write n o v h o' : ¬ (o ≤ o' < o + Z.of_nat n) → byte o' (write n o v h) = byte o' h.
Proof.
  revert o v h. induction n as [|n IH]; intros o v h Ho; cbn [write]; [done|].
  rewrite IH by lia. unfold byte. cbn. by rewrite lookup_insert_ne by lia.
Qed.
Lemma read_write_frame n o v n' o' h : o + Z.of_nat n ≤ o' ∨ o' + Z.of_nat n' ≤ o → read n' o' (write n o v h) = read n' o' h.
Proof.
  revert o'. induction n' as [|n' IH]; intros o' Ho; cbn [read]; [done|].
  rewrite byte_write by lia. by rewrite IH by lia.
Qed.
Lemma ldiff_land a m : Z.ldiff (Z.land a m) a = 0.
Proof. apply Z.bits_inj'. intros i Hi. rewrite Z.ldiff_spec, Z.land_spec, Z.bits_0. by destruct (Z.testbit a i), (Z.testbit m i). Qed.
Lemma wrap8_land_bound v m : 0 ≤ Z.land (wrap8 v) m < 256.
Proof.
  assert (0 ≤ wrap8 v < 2 ^ 8) as Hv by (unfold wrap8; apply Z.mod_pos_bound; done).
  assert (0 ≤ Z.land (wrap8 v) m) as H0 by (apply Z.land_nonneg; lia). split; [done|].
  destruct (decide (Z.land (wrap8 v) m = 0)) as [->|]; [done|]. apply (Z.log2_lt_pow2 _ 8); [lia|].
  apply Z.nle_gt. intros Hl. pose proof (Z.bit_log2 (Z.land (wrap8 v) m) ltac:(lia)) as Hb.
  rewrite Z.land_spec, (testbit_high (wrap8 v) _ 8) in Hb by lia. done.
Qed.
Lemma command_write v h : 0 ≤ v → Z.ldiff (read 2 4 (write 2 4 v h)) v = 0.
Proof.
  intros Hv. cbn [read write]. unfold byte. cbn -[wrap8]. rewrite lookup_insert_ne, !lookup_insert_eq by done.
  cbn -[wrap8]. set (m4 := default 255 (writable h !! 4)).
  rewrite !Z.lor_0_r, Z.mul_0_r, Z.add_0_r. unfold wrap8 at 1 3.
  rewrite !Z.mod_small by apply wrap8_land_bound. rewrite (Z.mul_comm 256).
  rewrite <-(lor_fields _ _ 8) by (lia || apply wrap8_land_bound).
  apply Z.bits_inj'. intros i Hi. rewrite Z.ldiff_spec, Z.lor_spec, Z.shiftl_spec, !Z.land_spec, Z.bits_0 by done.
  unfold wrap8. destruct (Z.lt_ge_cases i 8).
  - rewrite Z.mod_pow2_bits_low by lia. rewrite (Z.testbit_neg_r _ (i - 8)) by lia. by destruct (Z.testbit v i), (Z.testbit m4 i).
  - rewrite Z.mod_pow2_bits_high by lia. change 256 with (2 ^ 8). rewrite <-Z.shiftr_div_pow2 by lia. cbn [andb orb].
    destruct (Z.lt_ge_cases (i - 8) 8); [|by rewrite Z.mod_pow2_bits_high by lia].
    rewrite Z.mod_pow2_bits_low, Z.shiftr_spec by lia. replace (i - 8 + 8) with i by lia.
    by destruct (Z.testbit v i), (Z.testbit (default _ _) _).
Qed.
End MemHw.

#[export] Instance mem_hw : ConfigHw MemHw.t := {|
  cfg_read w o h := MemHw.read (Z.to_nat w) o h;
  cfg_write w o v h := MemHw.write (Z.to_nat w) o v h;
|}.
#[export] Instance mem_hw_laws : ConfigHwLaws MemHw.t.
Proof.
  split; cbn.
  - intros w o h Hw. pose proof (MemHw.read_bound (Z.to_nat w) o h) as Hb. rewrite Z2Nat.id in Hb by done.
    change 256 with (2 ^ 8) in Hb. by rewrite <-Z.pow_mul_r in Hb.
  - intros w o v w' o' h Hw Hw' Ho. apply MemHw.read_write_frame. lia.
  - intros v h. apply MemHw.command_write.
Qed.
