(* ===== verification/PciCaps.v ===== *)
(** * Capabilities of PCI functions (drivers/src/pci/capabilities.rs)

    The capability list of a function is parsed at boot; VMs then access the
    capability registers through the emulation.  A capability's [registers]
    reference is its offset in the configuration space of the function.

    An emulation function decides on one access to the builder: a value that is
    pushed, or a value that is popped and what is done with it.  This is the type
    [read_access] or [write_access]. *)
From stdpp Require Import strings.
From S2P Require Import Prelude RiscvPages MemMap PciRegs.
Local Open Scope Z_scope.

(** ** Accesses to the builders *)
Inductive read_access :=
| PushByte (v : Z)
| PushWord (v : Z)
| PushDword (v : Z).
Definition push (a : read_access) : MmioReadBuilder.t → MmioReadBuilder.t :=
  match a with
  | PushByte v => MmioReadBuilder.push_byte v
  | PushWord v => MmioReadBuilder.push_word v
  | PushDword v => MmioReadBuilder.push_dword v
  end.

Inductive write_access (S : Type) :=
| PopByte (k : Z → outcome S)
| PopWord (dest : Z) (k : Z → outcome S)
| PopDword (dest : Z) (k : Z → outcome S).
Arguments PopByte {_} _.
Arguments PopWord {_} _ _.
Arguments PopDword {_} _ _.
Definition pop {S} (a : write_access S) (op : MmioWriteBuilder.t) : outcome (MmioWriteBuilder.t * S) :=
  match a with
  | PopByte k => let '(v, op) := MmioWriteBuilder.pop_byte op in s ← k v; Returns (op, s)
  | PopWord d k => let '(v, op) := MmioWriteBuilder.pop_word d op in s ← k v; Returns (op, s)
  | PopDword d k => let '(v, op) := MmioWriteBuilder.pop_dword d op in s ← k v; Returns (op, s)
  end.
(** The value is discarded. *)
Definition pop_nothing {S} (s : S) : write_access S := PopByte (λ _, Returns s).
(** The access as part of one on a larger state. *)
Definition map_access {S T} (f : S → T) (a : write_access S) : write_access T :=
  match a with
  | PopByte k => PopByte (λ v, s ← k v; Returns (f s))
  | PopWord d k => PopWord d (λ v, s ← k v; Returns (f s))
  | PopDword d k => PopDword d (λ v, s ← k v; Returns (f s))
  end.

(** ** Errors (error.rs); [HeaderType] is of device.rs *)
Module HeaderType.
Inductive t :=
| Endpoint
| PciBridge
| CardBusBridge
| Unknown (h : Z).
#[global] Instance eq_dec : EqDecision t.
Proof. solve_decision. Defined.
End HeaderType.

Module PciResourceType.
Inductive t := IoPort | Mem32 | PrefetchableMem32 | Mem64 | PrefetchableMem64.
#[global] Instance eq_dec : EqDecision t.
Proof. solve_decision. Defined.
End PciResourceType.

Module PciError.
Inductive t :=
| ConfigSpaceMisaligned (a : Z)
| ConfigSpaceNotPageMultiple (size : Z)
| ResourceMisaligned (a : Z)
| ResourceNotPageMultiple (size : Z)
| InvalidMmioRegion (e : HwMemMap.error)
| NoConfigBase
| NoCompatibleHostNode
| NoConfigSize
| NoRegProperty
| NoRangesProperty
| DuplicateResource (r : PciResourceType.t)
| ResourceTaken
| ResourceNotFound (r : PciResourceType.t)
| OutOfResources
| InvalidBusNumber (n : Z)
| MissingMsiParent
| InvalidMsiParent
| UnsupportedHeaderType (address : Z) (h : HeaderType.t)
| OutOfBoundsBusNumber (bus : Z)
| AllocError
| OutOfBuses
| UnsupportedConfigAccess
| InvalidConfigOffset
| DeviceNotPresent (address : Z)
| TooManyCapabilities
| MsiNot64BitCapable
| InvalidVendorCapabilityLength (len : Z)
| UnsupportedExpressCapabilityVersion (v : Z)
| UnsupportedExpressDevice (d : Z)
| Invalid64BitBarIndex
| InvalidBarSize (size : Z)
| InvalidBarAddress (addr : Z)
| BarNotPresent (index : nat)
| UnownedBarPage (page : Z)
| DeviceOwned
| DeviceNotOwned
| DeviceNotFound
| DeviceNotOnRootBus.
#[global] Instance eq_dec : EqDecision t.
Proof. solve_decision. Defined.
End PciError.
Import PciError(TooManyCapabilities, MsiNot64BitCapable, InvalidVendorCapabilityLength,
  UnsupportedExpressCapabilityVersion, UnsupportedExpressDevice).

(** ** Kinds of capabilities *)
Module CapabilityId.
Inductive t := PowerManagement | Msi | Vendor | BridgeSubsystem | PciExpress | MsiX.
#[global] Instance eq_dec : EqDecision t.
Proof. solve_decision. Defined.
(** [id as u8]. *)
Definition raw (id : t) : Z :=
  match id with
  | PowerManagement => 1 | Msi => 5 | Vendor => 9 | BridgeSubsystem => 13 | PciExpress => 16 | MsiX => 17
  end.
Definition from_raw (id : Z) : option t :=
  if id =? 1 then Some PowerManagement
  else if id =? 5 then Some Msi
  else if id =? 9 then Some Vendor
  else if id =? 13 then Some BridgeSubsystem
  else if id =? 16 then Some PciExpress
  else if id =? 17 then Some MsiX
  else None.
End CapabilityId.

Module PciExpressDeviceType.
Inductive t :=
| Endpoint | LegacyEndpoint | RootPort | UpstreamSwitchPort | DownstreamSwitchPort
| PciExpressToPciBridge | PciToPciExpressBridge | RootComplexIntegratedEndpoint | RootComplexEventCollector.
#[global] Instance eq_dec : EqDecision t.
Proof. solve_decision. Defined.
Definition from_raw (raw : Z) : option t :=
  if raw =? 0 then Some Endpoint
  else if raw =? 1 then Some LegacyEndpoint
  else if raw =? 4 then Some RootPort
  else if raw =? 5 then Some UpstreamSwitchPort
  else if raw =? 6 then Some DownstreamSwitchPort
  else if raw =? 7 then Some PciExpressToPciBridge
  else if raw =? 8 then Some PciToPciExpressBridge
  else if raw =? 9 then Some RootComplexIntegratedEndpoint
  else if raw =? 10 then Some RootComplexEventCollector
  else None.
Definition has_root_control (d : t) : bool :=
  match d with RootComplexIntegratedEndpoint | RootComplexEventCollector => true | _ => false end.
Definition has_link_control (d : t) : bool :=
  match d with
  | Endpoint | LegacyEndpoint | RootPort | UpstreamSwitchPort | DownstreamSwitchPort
  | PciExpressToPciBridge | PciToPciExpressBridge => true
  | _ => false
  end.
End PciExpressDeviceType.

Module CapabilityType.
Inductive t :=
| PowerManagement
| Msi (per_vector_masks : bool)
| MsiX
| Vendor (length : Z)
| BridgeSubsystem
| PciExpress (version : Z) (device_type : PciExpressDeviceType.t).
End CapabilityType.

Section capabilities.
Context `{HW : ConfigHw H} `{RF : RegisterFields}.
Local Open Scope string_scope.
Local Open Scope Z_scope.

(** Register [name] of the block [l] that lies at [base]. *)
Definition reg_get (base : Z) (l : layout) (name : string) (h : H) : Z :=
  cfg_read (Reg.width (Reg.at_field l name)) (base + Reg.offset (Reg.at_field l name)) h.
Definition reg_set (base : Z) (l : layout) (name : string) (v : Z) (h : H) : H :=
  cfg_write (Reg.width (Reg.at_field l name)) (base + Reg.offset (Reg.at_field l name)) v h.
Definition in_span (l : layout) (name : string) (off : Z) : bool := Reg.span (Reg.at_field l name) off.

Definition Msi_new (base : Z) (h : H) : result PciError.t CapabilityType.t :=
  let msg_control := reg_get base MsiRegisters "msg_control" h in
  if field_read (fld MsiMessageControl "Address64BitCapable") msg_control =? 0 then Err MsiNot64BitCapable
  else Ok (CapabilityType.Msi (negb (field_read (fld MsiMessageControl "VectorMaskingCapable") msg_control =? 0))).
Definition Vendor_new (base : Z) (h : H) : result PciError.t CapabilityType.t :=
  let length := reg_get base VendorCapabilityHeader "cap_length" h in
  if (length <? size_of VendorCapabilityHeader) || (PCI_MAX_CAP_LENGTH <? length)
  then Err (InvalidVendorCapabilityLength length)
  else Ok (CapabilityType.Vendor length).
Definition PciExpress_new (base : Z) (h : H) : result PciError.t CapabilityType.t :=
  let exp_caps := reg_get base ExpressRegisters "exp_caps" h in
  let version := wrap8 (field_read (fld ExpressCapabilities "Version") exp_caps) in
  if negb (version =? 1) && negb (version =? 2) then Err (UnsupportedExpressCapabilityVersion version)
  else
    let raw_type := wrap8 (field_read (fld ExpressCapabilities "DeviceType") exp_caps) in
    match PciExpressDeviceType.from_raw raw_type with
    | Some d => Ok (CapabilityType.PciExpress version d)
    | None => Err (UnsupportedExpressDevice raw_type)
    end.

(** [Capability::length]. *)
Definition cap_length (c : CapabilityType.t) : Z :=
  match c with
  | CapabilityType.PowerManagement => size_of PowerManagementRegisters
  | CapabilityType.Msi per_vector_masks =>
      if per_vector_masks then size_of MsiRegisters else Reg.offset (Reg.at_field MsiRegisters "mask_bits")
  | CapabilityType.MsiX => size_of MsiXRegisters
  | CapabilityType.Vendor length => length
  | CapabilityType.BridgeSubsystem => size_of BridgeSubsystemRegisters
  | CapabilityType.PciExpress version device_type =>
      if version =? 2 then size_of ExpressRegisters
      else if PciExpressDeviceType.has_root_control device_type then Reg.offset (Reg.at_field ExpressRegisters "dev_caps2")
      else if PciExpressDeviceType.has_link_control device_type then Reg.offset (Reg.at_field ExpressRegisters "slot_caps")
      else Reg.offset (Reg.at_field ExpressRegisters "link_caps")
  end.

(** [Capability::emulate_read] of the capabilities, at [base]. *)
Definition PowerManagement_read (base cap_offset : Z) (h : H) : read_access :=
  let l := PowerManagementRegisters in
  if in_span l "pmc" cap_offset then PushWord (readable_bits PmCapabilities_masks (reg_get base l "pmc" h))
  else if in_span l "pmcsr" cap_offset then PushWord (readable_bits PmControlStatus_masks (reg_get base l "pmcsr" h))
  else PushByte 0.
Definition Msi_read (per_vector_masks : bool) (base cap_offset : Z) (h : H) : read_access :=
  let l := MsiRegisters in
  if in_span l "msg_control" cap_offset then
    PushWord (readable_bits MsiMessageControl_masks (reg_get base l "msg_control" h))
  else if in_span l "msg_addr" cap_offset then PushDword (reg_get base l "msg_addr" h)
  else if in_span l "msg_upper_addr" cap_offset then PushDword (reg_get base l "msg_upper_addr" h)
  else if in_span l "msg_data" cap_offset then PushWord (reg_get base l "msg_data" h)
  else if in_span l "extended_msg_data" cap_offset then PushWord (reg_get base l "extended_msg_data" h)
  else if in_span l "mask_bits" cap_offset && per_vector_masks then PushDword (reg_get base l "mask_bits" h)
  else if in_span l "pending_bits" cap_offset && per_vector_masks then PushDword (reg_get base l "pending_bits" h)
  else PushByte 0.
Definition MsiX_read (base cap_offset : Z) (h : H) : read_access :=
  let l := MsiXRegisters in
  if in_span l "msg_control" cap_offset then
    PushWord (readable_bits MsiXMessageControl_masks (reg_get base l "msg_control" h))
  else if in_span l "table_offset" cap_offset then PushDword (reg_get base l "table_offset" h)
  else if in_span l "pba_offset" cap_offset then PushDword (reg_get base l "pba_offset" h)
  else PushByte 0.
(** The bytes behind the length are read one at a time. *)
Definition Vendor_read (length base cap_offset : Z) (h : H) : read_access :=
  let l := VendorCapabilityHeader in
  let end_offset := Reg.offset (Reg.at_field l "cap_length") in
  if in_span l "cap_length" cap_offset then PushByte (wrap8 length)
  else if (end_offset <? cap_offset) && (cap_offset <? length) then PushByte (cfg_read 1 (base + cap_offset) h)
  else PushByte 0.
Definition BridgeSubsystem_read (base cap_offset : Z) (h : H) : read_access :=
  let l := BridgeSubsystemRegisters in
  if in_span l "ssvid" cap_offset then PushWord (reg_get base l "ssvid" h)
  else if in_span l "ssid" cap_offset then PushWord (reg_get base l "ssid" h)
  else PushByte 0.
Definition PciExpress_read (d : PciExpressDeviceType.t) (base cap_offset : Z) (h : H) : read_access :=
  let l := ExpressRegisters in
  let link := PciExpressDeviceType.has_link_control d in
  if in_span l "exp_caps" cap_offset then PushWord (readable_bits ExpressCapabilities_masks (reg_get base l "exp_caps" h))
  else if in_span l "dev_caps" cap_offset then
    PushDword (readable_bits DeviceCapabilities_masks (reg_get base l "dev_caps" h))
  else if in_span l "dev_control" cap_offset then
    PushWord (readable_bits DeviceControl_masks (reg_get base l "dev_control" h))
  else if in_span l "link_caps" cap_offset && link then
    PushDword (readable_bits LinkCapabilities_masks (reg_get base l "link_caps" h))
  else if in_span l "link_status" cap_offset && link then
    PushWord (readable_bits LinkStatus_masks (reg_get base l "link_status" h))
  else PushByte 0.
Definition type_read (c : CapabilityType.t) (base cap_offset : Z) (h : H) : read_access :=
  match c with
  | CapabilityType.PowerManagement => PowerManagement_read base cap_offset h
  | CapabilityType.Msi m => Msi_read m base cap_offset h
  | CapabilityType.MsiX => MsiX_read base cap_offset h
  | CapabilityType.Vendor n => Vendor_read n base cap_offset h
  | CapabilityType.BridgeSubsystem => BridgeSubsystem_read base cap_offset h
  | CapabilityType.PciExpress _ d => PciExpress_read d base cap_offset h
  end.

(** Read, modify and write of a whole register. *)
Definition rmw_word (base : Z) (l : layout) (name : string) (h : H) : write_access H :=
  PopWord (reg_get base l name h) (λ v, Returns (reg_set base l name v h)).
Definition rmw_dword (base : Z) (l : layout) (name : string) (h : H) : write_access H :=
  PopDword (reg_get base l name h) (λ v, Returns (reg_set base l name v h)).
(** ... of the bits that a VM may write. *)
Definition rmw_masked (m : Masks.t) (base : Z) (l : layout) (name : string) (h : H) : write_access H :=
  PopWord (reg_get base l name h) (λ v, Returns (reg_set base l name (writeable_bits m v) h)).

(** [Capability::emulate_write]; the capabilities that are missing discard a byte. *)
Definition Msi_write (per_vector_masks : bool) (base cap_offset : Z) (h : H) : write_access H :=
  let l := MsiRegisters in
  if in_span l "msg_control" cap_offset then rmw_masked MsiMessageControl_masks base l "msg_control" h
  else if in_span l "msg_addr" cap_offset then rmw_dword base l "msg_addr" h
  else if in_span l "msg_upper_addr" cap_offset then rmw_dword base l "msg_upper_addr" h
  else if in_span l "msg_data" cap_offset then rmw_word base l "msg_data" h
  else if in_span l "extended_msg_data" cap_offset then rmw_word base l "extended_msg_data" h
  else if in_span l "mask_bits" cap_offset && per_vector_masks then rmw_dword base l "mask_bits" h
  else pop_nothing h.
Definition MsiX_write (base cap_offset : Z) (h : H) : write_access H :=
  if in_span MsiXRegisters "msg_control" cap_offset then
    rmw_masked MsiXMessageControl_masks base MsiXRegisters "msg_control" h
  else pop_nothing h.
Definition PciExpress_write (base cap_offset : Z) (h : H) : write_access H :=
  if in_span ExpressRegisters "dev_control" cap_offset then
    rmw_masked DeviceControl_masks base ExpressRegisters "dev_control" h
  else pop_nothing h.
Definition type_write (c : CapabilityType.t) (base cap_offset : Z) (h : H) : write_access H :=
  match c with
  | CapabilityType.Msi m => Msi_write m base cap_offset h
  | CapabilityType.MsiX => MsiX_write base cap_offset h
  | CapabilityType.PciExpress _ _ => PciExpress_write base cap_offset h
  | CapabilityType.PowerManagement | CapabilityType.Vendor _ | CapabilityType.BridgeSubsystem => pop_nothing h
  end.
End capabilities.

(** ** A capability of a function *)
Module PciCapability.
Record t := mk { id : CapabilityId.t; offset : Z; next : Z; cap_type : CapabilityType.t }.
Definition set_next (n : Z) (c : t) : t := mk (id c) (offset c) n (cap_type c).
Definition length (c : t) : Z := cap_length (cap_type c).

Section capability.
Context `{HW : ConfigHw H} `{RF : RegisterFields}.
Local Open Scope string_scope.
Local Open Scope Z_scope.

Definition new (i : CapabilityId.t) (offset : Z) (h : H) : result PciError.t t :=
  let cap_type :=
    match i with
    | CapabilityId.PowerManagement => Ok CapabilityType.PowerManagement
    | CapabilityId.Msi => Msi_new offset h
    | CapabilityId.MsiX => Ok CapabilityType.MsiX
    | CapabilityId.Vendor => Vendor_new offset h
    | CapabilityId.BridgeSubsystem => Ok CapabilityType.BridgeSubsystem
    | CapabilityId.PciExpress => PciExpress_new offset h
    end in
  match cap_type with Ok c => Ok (mk i offset 0 c) | Err e => Err e end.

Definition emulate_read (c : t) (off : Z) (h : H) : read_access :=
  let cap_offset := off - offset c in
  if in_span CapabilityHeader "cap_id" cap_offset then PushByte (CapabilityId.raw (id c))
  else if in_span CapabilityHeader "next_cap" cap_offset then PushByte (wrap8 (next c))
  else type_read (cap_type c) (offset c) cap_offset h.

Definition emulate_write (c : t) (off : Z) (h : H) : write_access H :=
  let cap_offset := off - offset c in
  if in_span CapabilityHeader "cap_id" cap_offset || in_span CapabilityHeader "next_cap" cap_offset then pop_nothing h
  else type_write (cap_type c) (offset c) cap_offset h.
End capability.
End PciCapability.

(** ** The capabilities of a function *)
Module PciCapabilities.
Abbreviation t := (list PciCapability.t).
Definition MAX_PCI_CAPS : nat := 8.

Definition capability_by_offset (offset : Z) (caps : t) : option PciCapability.t :=
  List.find (λ cap, (PciCapability.offset cap <=? offset)
    && (offset <? PciCapability.offset cap + PciCapability.length cap)) caps.
Definition capability_by_id (i : CapabilityId.t) (caps : t) : option PciCapability.t :=
  List.find (λ cap, bool_decide (PciCapability.id cap = i)) caps.
Definition has_msi (caps : t) : bool := bool_decide (is_Some (capability_by_id CapabilityId.Msi caps)).
Definition has_msix (caps : t) : bool := bool_decide (is_Some (capability_by_id CapabilityId.MsiX caps)).
Definition is_pcie (caps : t) : bool := bool_decide (is_Some (capability_by_id CapabilityId.PciExpress caps)).
Definition start_offset (caps : t) : Z := match caps with cap :: _ => PciCapability.offset cap | [] => 0 end.

(** The second loop of [new]: every capability points to its successor. *)
Fixpoint link (caps : t) : t :=
  match caps with
  | c :: ((d :: _) as caps') => PciCapability.set_next (PciCapability.offset d) c :: link caps'
  | _ => caps
  end.

Section capabilities.
Context `{HW : ConfigHw H} `{RF : RegisterFields}.
Local Open Scope string_scope.
Local Open Scope Z_scope.

(** The first loop of [new], [None] if it has not ended after [fuel] turns.  The list
    of a faulty device may be a cycle without a known capability, on which the loop
    never ends. *)
Fixpoint parse (fuel : nat) (current_offset : Z) (caps : t) (h : H) : option (result PciError.t t) :=
  if (PCI_TYPE_HEADER_END <? current_offset) && (current_offset <? PCI_CONFIG_SPACE_END) then
    match fuel with
    | O => None
    | S fuel =>
        let next := Z.land (reg_get current_offset CapabilityHeader "next_cap" h) (not64 3) in
        match CapabilityId.from_raw (reg_get current_offset CapabilityHeader "cap_id" h) with
        | Some i =>
            match PciCapability.new i current_offset h with
            | Err e => Some (Err e)
            | Ok cap =>
                if decide (length caps < MAX_PCI_CAPS)%nat then parse fuel next (caps ++ [cap]) h
                else Some (Err TooManyCapabilities)
            end
        | None => parse fuel next caps h
        end
    end
  else Some (Ok caps).

(** There are 48 offsets behind the first one and a ninth capability ends the loop, so
    a loop that has not ended after [PARSE_FUEL] turns never ends; [new] does not
    return then. *)
Definition PARSE_FUEL : nat := 512.
Definition new (start_offset : Z) (h : H) : outcome (result PciError.t t) :=
  match parse PARSE_FUEL start_offset [] h with
  | Some (Ok caps) => Returns (Ok (link caps))
  | Some (Err e) => Returns (Err e)
  | None => Panics
  end.

Definition emulate_read (caps : t) (off : Z) (h : H) : read_access :=
  match capability_by_offset off caps with
  | Some cap => PciCapability.emulate_read cap off h
  | None => PushByte 0
  end.
Definition emulate_write (caps : t) (off : Z) (h : H) : write_access H :=
  match capability_by_offset off caps with
  | Some cap => PciCapability.emulate_write cap off h
  | None => pop_nothing h
  end.
End capabilities.
End PciCapabilities.
