(* ===== verification/PciSpaces.v ===== *)
(** * PCI addresses, the configuration space and the resources of a root complex
      (drivers/src/pci/address.rs, config_space.rs, resource.rs)

    Address components and addresses are [u32] values in [Z]. *)
From stdpp Require Import strings.
From S2P Require Import Prelude RiscvPages PciRegs PciCaps.
Local Open Scope string_scope.
Local Open Scope Z_scope.
Import PciError(OutOfResources, ResourceTaken, DuplicateResource).
Import PciResourceType(IoPort, Mem32, PrefetchableMem32, Mem64, PrefetchableMem64).

(** ** Components of an address *)
Module AddressComponent.
Definition MAX_VAL (bits : Z) : Z := Z.shiftl 1 bits - 1.
(** [TryFrom] of the component with [bits] bits. *)
Definition try_from (bits v : Z) : option Z := if MAX_VAL bits <? v then None else Some v.
(** [max] and [next] of the component. *)
Definition next (bits v : Z) : option Z := try_from bits (v + 1).
End AddressComponent.

Module Function_.
Definition SHIFT : Z := 0.
Definition BITS : Z := 3.
End Function_.
Module Device_.
Definition SHIFT : Z := 3.
Definition BITS : Z := 5.
End Device_.
Module Bus.
Definition SHIFT : Z := 8.
Definition BITS : Z := 8.
Definition max : Z := AddressComponent.MAX_VAL BITS.
End Bus.
Module Segment.
Definition SHIFT : Z := 16.
Definition BITS : Z := 16.
End Segment.

(** Both ends are inclusive. *)
Module BusRange.
Record t := mk { start : Z; end_ : Z }.
Definition default : t := mk 0 0.
End BusRange.

Module Address.
Abbreviation t := Z.
Definition new (seg bus dev func : Z) : t :=
  Z.lor (Z.lor (Z.lor (Z.shiftl seg Segment.SHIFT) (Z.shiftl bus Bus.SHIFT)) (Z.shiftl dev Device_.SHIFT)) func.
Definition try_from_components (seg bus dev func : Z) : option t :=
  seg ← AddressComponent.try_from Segment.BITS seg;
  bus ← AddressComponent.try_from Bus.BITS bus;
  dev ← AddressComponent.try_from Device_.BITS dev;
  func ← AddressComponent.try_from Function_.BITS func;
  Some (new seg bus dev func).
Definition bus_address (bus : Z) : t := Z.shiftl bus Bus.SHIFT.
Definition function (a : t) : Z := Z.land a (AddressComponent.MAX_VAL Function_.BITS).
Definition device (a : t) : Z := Z.land (Z.shiftr a Device_.SHIFT) (AddressComponent.MAX_VAL Device_.BITS).
Definition bus (a : t) : Z := Z.land (Z.shiftr a Bus.SHIFT) (AddressComponent.MAX_VAL Bus.BITS).
Definition segment (a : t) : Z := Z.land (Z.shiftr a Segment.SHIFT) (AddressComponent.MAX_VAL Segment.BITS).
Definition next_device (a : t) : option t :=
  dev ← AddressComponent.next Device_.BITS (device a);
  Some (new (segment a) (bus a) dev 0).
End Address.

(** ** The memory-mapped configuration space *)
Module PciConfigSpace.
Definition PCIE_ECAM_FN_SHIFT : Z := 12.
Definition PCIE_ECAM_DEV_SHIFT : Z := 15.
Definition PCIE_ECAM_BUS_SHIFT : Z := 20.
Definition PCIE_FUNCTION_CONFIG_SIZE : Z := 4096.
Record t := mk { config_base : Z; config_size : Z; segment : Z; bus_range : BusRange.t }.

(** The address of the first function of a bus ([BusConfig]). *)
Definition bus (bus_num : Z) (c : t) : option Address.t :=
  if (bus_num <? BusRange.start (bus_range c)) || (BusRange.end_ (bus_range c) <? bus_num) then None
  else Some (Address.new (segment c) bus_num 0 0).
Definition config_space_offset (address : Address.t) (c : t) : option Z :=
  a ← checked_sub address (Address.bus_address (BusRange.start (bus_range c)));
  Some (wrap64 (Z.shiftl a PCIE_ECAM_FN_SHIFT)).
(** The address of the registers; the null pointer is refused. *)
Definition registers_for (address : Address.t) (c : t) : option Z :=
  offset ← config_space_offset address c;
  e ← checked_add offset PCIE_FUNCTION_CONFIG_SIZE;
  if config_size c <? e then None
  else let p := wrap64 (config_base c + offset) in if p =? 0 then None else Some p.
Definition offset_to_address (offset : Z) (c : t) : option (Address.t * Z) :=
  if config_size c <=? offset then None
  else
    let bus := Z.land (wrap32 (Z.shiftr offset PCIE_ECAM_BUS_SHIFT)) (AddressComponent.MAX_VAL Bus.BITS)
               + BusRange.start (bus_range c) in
    let dev := Z.land (wrap32 (Z.shiftr offset PCIE_ECAM_DEV_SHIFT)) (AddressComponent.MAX_VAL Device_.BITS) in
    let func := Z.land (wrap32 (Z.shiftr offset PCIE_ECAM_FN_SHIFT)) (AddressComponent.MAX_VAL Function_.BITS) in
    address ← Address.try_from_components (segment c) bus dev func;
    Some (address, Z.land offset (PCIE_FUNCTION_CONFIG_SIZE - 1)).
Definition mem_range (c : t) : PageAddrRange.t :=
  PageAddrRange.new (config_base c) (PageSize.num_4k_pages (config_size c)).
End PciConfigSpace.

(** ** Types of resources *)
Module ResourceType.
Definition index (r : PciResourceType.t) : nat :=
  match r with IoPort => 0 | Mem32 => 1 | PrefetchableMem32 => 2 | Mem64 => 3 | PrefetchableMem64 => 4 end.
Definition MAX_RESOURCE_TYPES : nat := S (index PrefetchableMem64).
Definition from_index (i : nat) : option PciResourceType.t :=
  match i with
  | 0%nat => Some IoPort
  | 1%nat => Some Mem32
  | 2%nat => Some PrefetchableMem32
  | 3%nat => Some Mem64
  | 4%nat => Some PrefetchableMem64
  | _ => None
  end.
Definition PCI_ADDR_PREFETCH_BIT : Z := Z.shiftl 1 30.
Definition PCI_ADDR_SPACE_CODE_SHIFT : Z := 24.
Definition PCI_ADDR_SPACE_CODE_MASK : Z := 3.
Definition from_dt_cell (cell : Z) : outcome (option PciResourceType.t) :=
  let prefetchable := negb (Z.land cell PCI_ADDR_PREFETCH_BIT =? 0) in
  let code := Z.land (Z.shiftr cell PCI_ADDR_SPACE_CODE_SHIFT) PCI_ADDR_SPACE_CODE_MASK in
  if code =? 0 then mret None
  else if code =? 1 then mret (Some IoPort)
  else if code =? 2 then mret (Some (if prefetchable then PrefetchableMem32 else Mem32))
  else if code =? 3 then mret (Some (if prefetchable then PrefetchableMem64 else Mem64))
  else Panics.
Definition to_dt_cell (r : PciResourceType.t) : Z :=
  match r with
  | IoPort => Z.shiftl 1 PCI_ADDR_SPACE_CODE_SHIFT
  | Mem32 => Z.shiftl 2 PCI_ADDR_SPACE_CODE_SHIFT
  | PrefetchableMem32 => Z.lor (Z.shiftl 2 PCI_ADDR_SPACE_CODE_SHIFT) PCI_ADDR_PREFETCH_BIT
  | Mem64 => Z.shiftl 3 PCI_ADDR_SPACE_CODE_SHIFT
  | PrefetchableMem64 => Z.lor (Z.shiftl 3 PCI_ADDR_SPACE_CODE_SHIFT) PCI_ADDR_PREFETCH_BIT
  end.
Definition from_bar_register `{RegisterFields} (reg : Z) : PciResourceType.t :=
  let is_mem := field_read (fld BaseAddress "SpaceType") reg =? 0 in
  let is_64bit := is_mem && (field_read (fld BaseAddress "MemoryType") reg =? 2) in
  let prefetch := is_mem && is_set (fld BaseAddress "Prefetchable") reg in
  if is_mem then
    match is_64bit, prefetch with
    | true, true => PrefetchableMem64
    | true, false => Mem64
    | false, true => PrefetchableMem32
    | false, false => Mem32
    end
  else IoPort.
Definition is_64bit (r : PciResourceType.t) : bool :=
  match r with Mem64 | PrefetchableMem64 => true | _ => false end.
End ResourceType.

(** ** The resources of the root complex *)
(** [u64::next_power_of_two]: wraps to 0 when it overflows. *)
Definition next_power_of_two (x : Z) : Z := if x <=? 1 then 1 else wrap64 (2 ^ (Z.log2 (x - 1) + 1)).

Module PciRootResource.
Record t := mk { addr : Z; host_size : Z; total_size : Z; taken : bool; pci_addr : Z }.
Definition new (addr size pci_addr : Z) : t := mk addr size size false pci_addr.
Definition size (r : t) : Z := total_size r.
Definition alloc_for_hypervisor (size : Z) : M t PciError.t Z :=
  let size := next_power_of_two (Z.max size (PageSize.bytes PageSize.Size4k)) in
  r ← get;
  rest ← lift (ok_or (checked_sub (host_size r) size) OutOfResources);
  let host_size := Z.land rest (not64 (wrap64 (size - 1))) in
  put (mk (addr r) host_size (total_size r) (taken r) (pci_addr r));;
  of_outcome (unwrap_option (PageAddr.checked_add_pages (addr r) (PageSize.num_4k_pages host_size))).
Definition take_for_host : M t PciError.t unit :=
  r ← get;
  if taken r then err ResourceTaken
  else put (mk (addr r) (host_size r) (total_size r) true (pci_addr r)).
End PciRootResource.

Module PciRootResources.
Import PciRootResource.
(** One slot per type of resource. *)
Abbreviation t := (list (option PciRootResource.t)).
Definition MAX_ROOT_RESOURCES : nat := ResourceType.MAX_RESOURCE_TYPES.
Definition new : t := replicate MAX_ROOT_RESOURCES None.
Definition get (ty : PciResourceType.t) (rs : t) : option PciRootResource.t := mjoin (rs !! ResourceType.index ty).
(** The index panics outside of the vector. *)
Definition insert (ty : PciResourceType.t) (r : PciRootResource.t) : M t PciError.t unit := λ rs,
  match rs !! ResourceType.index ty with
  | None => Panics
  | Some (Some _) => Returns (Err (DuplicateResource ty), rs)
  | Some None => Returns (Ok tt, <[ResourceType.index ty := Some r]> rs)
  end.
(** The fallback is to a type that has none itself. *)
Definition find_matching (ty : PciResourceType.t) (rs : t) : option PciResourceType.t :=
  let present ty := (λ _, ty) <$> get ty rs in
  match ty with
  | IoPort | Mem32 | Mem64 => present ty
  | PrefetchableMem32 => match present ty with Some x => Some x | None => present Mem32 end
  | PrefetchableMem64 => match present ty with Some x => Some x | None => present Mem64 end
  end.
Definition find_resource (p : PciRootResource.t → bool) (rs : t) : option PciRootResource.t :=
  mjoin (List.find (λ o, match o with Some r => p r | None => false end) rs).
Definition pci_to_physical_addr (a : Z) (rs : t) : option Z :=
  res ← find_resource (λ r, (pci_addr r <=? a) && (a <=? wrap64 (pci_addr r + size r))) rs;
  d ← checked_sub a (pci_addr res);
  RawAddr.checked_increment (addr res) d.
Definition physical_to_pci_addr (a : Z) (rs : t) : option Z :=
  res ← find_resource (λ r, (addr r <=? a) && (a <=? wrap64 (addr r + size r))) rs;
  d ← checked_sub a (addr res);
  checked_add (pci_addr res) d.
End PciRootResources.
