(* ===== verification/PciDevices.v ===== *)
(** * PCI functions and the emulation of their configuration space
      (drivers/src/pci/device.rs, and the data of bus.rs)

    A device owns its registers: the state [H] of the hardware is a part of the
    device.  The [Endpoint] and [Bridge] constructors carry the [PciDeviceCommon]
    part, as in the source. *)
From stdpp Require Import strings.
From S2P Require Import Prelude RiscvPages Tracker PciRegs PciCaps PciSpaces.
Local Open Scope string_scope.
Local Open Scope Z_scope.
Import PciError(Invalid64BitBarIndex, InvalidBarSize, InvalidBarAddress, BarNotPresent, UnownedBarPage,
  DeviceOwned, UnsupportedHeaderType).
Import PciResourceType(IoPort).

Module PciDeviceInfo.
Record t := mk { address : Address.t; vendor_id : Z; device_id : Z; class_ : Z; subclass : Z;
  multi_function : bool; header_type : HeaderType.t }.
Definition invalid_vendor : Z := 65535.
Definition read_from `{ConfigHw H} `{RegisterFields} (address : Address.t) (regs : H) : option t :=
  let get name := reg_get 0 CommonRegisters name regs in
  if get "vendor_id" =? invalid_vendor then None
  else
    let layout := field_read (fld Type_ "Layout") (get "header_type") in
    Some (mk address (get "vendor_id") (get "dev_id") (get "class") (get "subclass")
      (field_read (fld Type_ "MultiFunction") (get "header_type") =? 1)
      (if layout =? 0 then HeaderType.Endpoint
       else if layout =? 1 then HeaderType.PciBridge
       else if layout =? 2 then HeaderType.CardBusBridge
       else HeaderType.Unknown layout)).
End PciDeviceInfo.

Module PciBarInfo.
Record t := mk { index : nat; bar_type : PciResourceType.t; size : Z }.
End PciBarInfo.

(** The BAR registers are an array at the same offset in both kinds of headers. *)
Definition bar_offset (i : nat) : Z := Reg.offset (Reg.at_field EndpointRegisters "bar") + 4 * Z.of_nat i.
Definition bar_get `{ConfigHw H} (i : nat) (h : H) : Z := cfg_read 4 (bar_offset i) h.
Definition bar_set `{ConfigHw H} (i : nat) (v : Z) (h : H) : H := cfg_write 4 (bar_offset i) v h.

Definition is_power_of_two (x : Z) : bool := (0 <? x) && (Z.land x (x - 1) =? 0).

Module PciDeviceBarInfo.
Abbreviation t := (list PciBarInfo.t).

Section probe.
Context `{HW : ConfigHw H} `{RF : RegisterFields}.

(** Writes all ones and reads back which bits are implemented. *)
Definition probe_bits (i : nat) : M H PciError.t Z :=
  modify (bar_set i (not32 0));;
  val ← gets (bar_get i);
  modify (bar_set i 0);;
  mret val.

(** The loop of [new], over [n] registers from [index] on. *)
Fixpoint probe (fuel n index : nat) (bars : t) : M H PciError.t t :=
  if decide (index < n)%nat then
    match fuel with
    | O => panic
    | S fuel =>
        bar_type ← gets (λ h, ResourceType.from_bar_register (bar_get index h));
        val ← probe_bits index;
        if val =? 0 then probe fuel n (S index) bars
        else
          let bits_lo := Z.land val (not32 (Z.shiftl 1 (Field.shift (fld BaseAddress "Address")) - 1)) in
          '(bits_hi, next) ←
            (if ResourceType.is_64bit bar_type then
               if negb (Nat.even index) then err Invalid64BitBarIndex
               else if decide (S index < n)%nat then (hi ← probe_bits (S index); mret (hi, S (S index)))
               else panic
             else mret (not32 0, S index));
          let size := wrap64 (not64 (Z.lor bits_lo (Z.shiftl bits_hi 32)) + 1) in
          if negb (is_power_of_two size) then err (InvalidBarSize size)
          else
            bars ← of_outcome (push_cap PCI_ENDPOINT_BARS (PciBarInfo.mk index bar_type size) bars);
            probe fuel n next bars
    end
  else mret bars.
Definition new (n : nat) : M H PciError.t t := probe n n 0 [].
End probe.

Definition get (index : nat) (bars : t) : option PciBarInfo.t :=
  List.find (λ b, bool_decide (PciBarInfo.index b = index)) bars.
Definition index_to_type (index : nat) (bars : t) : option PciResourceType.t :=
  PciBarInfo.bar_type <$>
  List.find (λ b, bool_decide (PciBarInfo.index b = index)
    || (bool_decide (S (PciBarInfo.index b) = index) && ResourceType.is_64bit (PciBarInfo.bar_type b))) bars.
End PciDeviceBarInfo.

(** ** Buses (bus.rs) *)
Module BusDevice.
Record t := mk { address : Address.t; id : nat }.
End BusDevice.
Module PciBus.
Record t := mk { bus_range : BusRange.t; virtual_bus_range : BusRange.t; devices : list BusDevice.t }.
Definition subordinate_bus_num (b : t) : Z := BusRange.end_ (bus_range b).
Definition virtual_secondary_bus_num (b : t) : Z := BusRange.start (virtual_bus_range b).
Definition virtual_subordinate_bus_num (b : t) : Z := BusRange.end_ (virtual_bus_range b).
Definition set_virtual_secondary_bus_num (n : Z) (b : t) : t :=
  mk (bus_range b) (BusRange.mk n (virtual_subordinate_bus_num b)) (devices b).
Definition set_virtual_subordinate_bus_num (n : Z) (b : t) : t :=
  mk (bus_range b) (BusRange.mk (virtual_secondary_bus_num b) n) (devices b).
End PciBus.

Module PciDeviceCommon.
Record t := mk { info : PciDeviceInfo.t; capabilities : PciCapabilities.t; bar_info : PciDeviceBarInfo.t;
  owner : option PageOwnerId.t; iommu_attached : bool }.
Definition new (info : PciDeviceInfo.t) (caps : PciCapabilities.t) (bars : PciDeviceBarInfo.t) : t :=
  mk info caps bars None false.
Definition set_owner (o : option PageOwnerId.t) (c : t) : t :=
  mk (info c) (capabilities c) (bar_info c) o (iommu_attached c).
Definition set_attached (b : bool) (c : t) : t := mk (info c) (capabilities c) (bar_info c) (owner c) b.
End PciDeviceCommon.

Definition command_of `{ConfigHw H} (h : H) : Z := reg_get 0 CommonRegisters "command" h.

(** A write to a BAR is discarded while the space that it maps is enabled. *)
Definition bar_write_discarded (bars : PciDeviceBarInfo.t) (index : nat) (io_enabled mem_enabled : bool) : bool :=
  match PciDeviceBarInfo.index_to_type index bars with
  | Some ty => if decide (ty = IoPort) then io_enabled else mem_enabled
  | None => false
  end.
(** The index of the BAR register that holds the byte at [off]. *)
Definition bar_index (off : Z) : nat := Z.to_nat ((off - bar_offset 0) / 4).

(** ** Endpoints *)
Module PciEndpoint.
Record t {H : Type} := mk { registers : H; common : PciDeviceCommon.t }.
#[global] Arguments t : clear implicits.
#[global] Arguments mk {_} _ _.

Section endpoint.
Context `{HW : ConfigHw H} `{RF : RegisterFields}.

Definition new (info : PciDeviceInfo.t) (h : H) : outcome (result PciError.t (t H)) :=
  caps ← PciCapabilities.new (reg_get 0 EndpointRegisters "cap_ptr" h) h;
  match caps with
  | Err e => Returns (Err e)
  | Ok caps =>
      '(bars, h) ← PciDeviceBarInfo.new PCI_ENDPOINT_BARS h;
      match bars with
      | Err e => Returns (Err e)
      | Ok bars => Returns (Ok (mk h (PciDeviceCommon.new info caps bars)))
      end
  end.

Definition emulate_config_read (ep : t H) (off : Z) : read_access :=
  let l := EndpointRegisters in
  let h := registers ep in
  if in_span l "bar" off then PushDword (bar_get (bar_index off) h)
  else if in_span l "subsys_vendor_id" off then PushWord (reg_get 0 l "subsys_vendor_id" h)
  else if in_span l "subsys_id" off then PushWord (reg_get 0 l "subsys_id" h)
  else if in_span l "cap_ptr" off then
    PushByte (wrap8 (PciCapabilities.start_offset (PciDeviceCommon.capabilities (common ep))))
  else PushByte 0.

Definition emulate_config_write (ep : t H) (off : Z) : write_access H :=
  let h := registers ep in
  if in_span EndpointRegisters "bar" off then
    let index := bar_index off in
    PopDword (bar_get index h) (λ reg,
      let io_enabled := is_set (fld Command "IoEnable") (command_of h) in
      let mem_enabled := is_set (fld Command "MemoryEnable") (command_of h) in
      if bar_write_discarded (PciDeviceCommon.bar_info (common ep)) index io_enabled mem_enabled then Returns h
      else Returns (bar_set index reg h))
  else pop_nothing h.
End endpoint.
End PciEndpoint.

(** ** Bridges *)
Module PciBridge.
Record t {H : Type} := mk { registers : H; common : PciDeviceCommon.t; bus_range : BusRange.t;
  child_bus : option PciBus.t; virtual_primary_bus : Z; virtual_bus_reset : Z; has_io_window : bool;
  has_pref_window : bool }.
#[global] Arguments t : clear implicits.
#[global] Arguments mk {_} _ _ _ _ _ _ _ _.
Definition set_registers {H} (h : H) (b : t H) : t H :=
  mk h (common b) (bus_range b) (child_bus b) (virtual_primary_bus b) (virtual_bus_reset b) (has_io_window b)
    (has_pref_window b).
Definition set_common {H} (c : PciDeviceCommon.t) (b : t H) : t H :=
  mk (registers b) c (bus_range b) (child_bus b) (virtual_primary_bus b) (virtual_bus_reset b) (has_io_window b)
    (has_pref_window b).
Definition set_child_bus {H} (bus : PciBus.t) (b : t H) : t H :=
  mk (registers b) (common b) (bus_range b) (Some bus) (virtual_primary_bus b) (virtual_bus_reset b)
    (has_io_window b) (has_pref_window b).
Definition set_virtual {H} (primary reset : Z) (b : t H) : t H :=
  mk (registers b) (common b) (bus_range b) (child_bus b) primary reset (has_io_window b) (has_pref_window b).

Section bridge.
Context `{HW : ConfigHw H} `{RF : RegisterFields}.
Local Abbreviation rget := (reg_get 0 BridgeRegisters).
Local Abbreviation rset := (reg_set 0 BridgeRegisters).

(** Writes all ones to a register of [ones] and leaves zero; whether it is implemented. *)
Definition implemented (name : string) (ones : Z) (h : H) : bool * H :=
  let h := rset name ones h in
  let val := rget name h in
  (negb (val =? 0), rset name 0 h).

Definition new (info : PciDeviceInfo.t) (h : H) : outcome (result PciError.t (t H)) :=
  let h := rset "pri_bus" 0 (rset "sec_bus" 0 (rset "sub_bus" 0 h)) in
  let '(has_io_window, h) := implemented "io_limit" (2 ^ 8 - 1) h in
  let '(has_pref_window, h) := implemented "pref_limit" (2 ^ 16 - 1) h in
  caps ← PciCapabilities.new (rget "cap_ptr" h) h;
  match caps with
  | Err e => Returns (Err e)
  | Ok caps =>
      '(bars, h) ← PciDeviceBarInfo.new PCI_BRIDGE_BARS h;
      match bars with
      | Err e => Returns (Err e)
      | Ok bars =>
          Returns (Ok (mk h (PciDeviceCommon.new info caps bars) BusRange.default None 0 0
            has_io_window has_pref_window))
      end
  end.

Definition assign_bus_range (range : BusRange.t) (b : t H) : t H :=
  let h := rset "sub_bus" (wrap8 (BusRange.end_ range)) (registers b) in
  let h := rset "sec_bus" (wrap8 (BusRange.start range)) h in
  let pri_bus := Address.bus (PciDeviceInfo.address (PciDeviceCommon.info (common b))) in
  let h := rset "pri_bus" (wrap8 pri_bus) h in
  mk h (common b) range (child_bus b) (virtual_primary_bus b) (virtual_bus_reset b) (has_io_window b)
    (has_pref_window b).

Definition emulate_config_read (b : t H) (off : Z) : outcome read_access :=
  let h := registers b in
  let l := BridgeRegisters in
  if in_span l "bar" off then Returns (PushDword (bar_get (bar_index off) h))
  else if in_span l "pri_bus" off then Returns (PushByte (wrap8 (virtual_primary_bus b)))
  else if in_span l "sec_bus" off then
    bus ← unwrap_option (child_bus b); Returns (PushByte (wrap8 (PciBus.virtual_secondary_bus_num bus)))
  else if in_span l "sub_bus" off then
    bus ← unwrap_option (child_bus b); Returns (PushByte (wrap8 (PciBus.virtual_subordinate_bus_num bus)))
  else if in_span l "io_base" off then Returns (PushByte (rget "io_base" h))
  else if in_span l "io_limit" off then Returns (PushByte (rget "io_limit" h))
  else if in_span l "sec_status" off then Returns (PushWord (readable_bits SecondaryStatus_masks (rget "sec_status" h)))
  else if in_span l "mem_base" off then Returns (PushWord (rget "mem_base" h))
  else if in_span l "mem_limit" off then Returns (PushWord (rget "mem_limit" h))
  else if in_span l "pref_base" off then Returns (PushWord (rget "pref_base" h))
  else if in_span l "pref_limit" off then Returns (PushWord (rget "pref_limit" h))
  else if in_span l "pref_base_upper" off then Returns (PushDword (rget "pref_base_upper" h))
  else if in_span l "pref_limit_upper" off then Returns (PushDword (rget "pref_limit_upper" h))
  else if in_span l "io_base_upper" off then Returns (PushWord (rget "io_base_upper" h))
  else if in_span l "io_limit_upper" off then Returns (PushWord (rget "io_limit_upper" h))
  else if in_span l "cap_ptr" off then
    Returns (PushByte (wrap8 (PciCapabilities.start_offset (PciDeviceCommon.capabilities (common b)))))
  else if in_span l "bridge_control" off then
    let reg := readable_bits BridgeControl_masks (rget "bridge_control" h) in
    Returns (PushWord (field_modify (fld BridgeControl "SecondaryBusReset") (virtual_bus_reset b) reg))
  else Returns (PushByte 0).

(** The registers of a window are written unless its space is enabled. *)
Definition window_byte (b : t H) (name : string) (enabled : bool) : write_access (t H) :=
  PopByte (λ reg, Returns (if enabled then b else set_registers (rset name reg (registers b)) b)).
Definition window_word (b : t H) (name : string) (enabled : bool) : write_access (t H) :=
  PopWord (rget name (registers b)) (λ reg,
    Returns (if enabled then b else set_registers (rset name reg (registers b)) b)).
Definition window_dword (b : t H) (name : string) (enabled : bool) : write_access (t H) :=
  PopDword (rget name (registers b)) (λ reg,
    Returns (if enabled then b else set_registers (rset name reg (registers b)) b)).

Definition emulate_config_write (b : t H) (off : Z) : write_access (t H) :=
  let h := registers b in
  let l := BridgeRegisters in
  let io_enabled := is_set (fld Command "IoEnable") (command_of h) in
  let mem_enabled := is_set (fld Command "MemoryEnable") (command_of h) in
  if in_span l "bar" off then
    let index := bar_index off in
    PopDword (bar_get index h) (λ reg,
      if bar_write_discarded (PciDeviceCommon.bar_info (common b)) index io_enabled mem_enabled then Returns b
      else Returns (set_registers (bar_set index reg h) b))
  else if in_span l "pri_bus" off then PopByte (λ v, Returns (set_virtual v (virtual_bus_reset b) b))
  else if in_span l "sec_bus" off then PopByte (λ v,
    bus ← unwrap_option (child_bus b); Returns (set_child_bus (PciBus.set_virtual_secondary_bus_num v bus) b))
  else if in_span l "sub_bus" off then PopByte (λ v,
    bus ← unwrap_option (child_bus b); Returns (set_child_bus (PciBus.set_virtual_subordinate_bus_num v bus) b))
  else if in_span l "io_base" off then window_byte b "io_base" io_enabled
  else if in_span l "io_limit" off then window_byte b "io_limit" io_enabled
  else if in_span l "sec_status" off then
    PopWord (non_clearable_bits SecondaryStatus_masks (rget "sec_status" h)) (λ reg,
      Returns (set_registers (rset "sec_status" (writeable_bits SecondaryStatus_masks reg) h) b))
  else if in_span l "mem_base" off then window_word b "mem_base" mem_enabled
  else if in_span l "mem_limit" off then window_word b "mem_limit" mem_enabled
  else if in_span l "pref_base" off then window_word b "pref_base" mem_enabled
  else if in_span l "pref_limit" off then window_word b "pref_limit" mem_enabled
  else if in_span l "pref_base_upper" off then window_dword b "pref_base_upper" mem_enabled
  else if in_span l "pref_limit_upper" off then window_dword b "pref_limit_upper" mem_enabled
  else if in_span l "io_base_upper" off then window_word b "io_base_upper" io_enabled
  else if in_span l "io_limit_upper" off then window_word b "io_limit_upper" io_enabled
  else if in_span l "bridge_control" off then
    PopWord (rget "bridge_control" h) (λ reg,
      let b := set_virtual (virtual_primary_bus b) (field_read (fld BridgeControl "SecondaryBusReset") reg) b in
      Returns (set_registers (rset "bridge_control" (writeable_bits BridgeControl_masks reg) h) b))
  else pop_nothing b.

(** A window from [base] to [limit], both inclusive, unless it is empty. *)
Definition window (base limit : Z) : option (Z * Z) := if limit <? base then None else Some (base, limit).
Definition get_io_window (b : t H) : option (Z * Z) :=
  let h := registers b in
  let low name := Z.shiftl (field_read (fld IoWindow "Address") (rget name h)) 12 in
  let high name := Z.shiftl (rget name h) 16 in
  if has_io_window b then
    window (Z.lor (high "io_base_upper") (low "io_base"))
           (Z.lor (Z.lor (high "io_limit_upper") (low "io_limit")) (Z.shiftl 1 12 - 1))
  else None.
Definition get_mem_window (b : t H) : option (Z * Z) :=
  let low name := Z.shiftl (field_read (fld MemWindow "Address") (rget name (registers b))) 20 in
  window (low "mem_base") (Z.lor (low "mem_limit") (Z.shiftl 1 20 - 1)).
Definition get_pref_window (b : t H) : option (Z * Z) :=
  let h := registers b in
  let low name := Z.shiftl (field_read (fld MemWindow "Address") (rget name h)) 20 in
  let high name := Z.shiftl (rget name h) 32 in
  if has_pref_window b then
    window (Z.lor (high "pref_base_upper") (low "pref_base"))
           (Z.lor (Z.lor (high "pref_limit_upper") (low "pref_limit")) (Z.shiftl 1 20 - 1))
  else None.
End bridge.
End PciBridge.

(** ** The checks before a space is enabled *)
Module MmioEmulationContext.
Record t := mk { page_tracker : PageTracker.t; guest_id : PageOwnerId.t; resources : PciRootResources.t }.
End MmioEmulationContext.
Import MmioEmulationContext(page_tracker, guest_id, resources).

Fixpoint pages_are_owned (ps : list Z) (pt : PageTracker.t) (guest : PageOwnerId.t) : result PciError.t unit :=
  match ps with
  | [] => Ok tt
  | p :: ps =>
      if negb (PageTracker.is_mapped_page p guest (MemType.Mmio DeviceMemType.PciBar) pt) then Err (UnownedBarPage p)
      else pages_are_owned ps pt guest
  end.
Definition bar_range_is_owned (range : PageAddrRange.t) (pt : PageTracker.t) (guest : PageOwnerId.t)
    : result PciError.t unit := pages_are_owned (PageAddrRange.to_list range) pt guest.

(** The pages from the one of the bus address [base] on, for [size] bytes. *)
Definition range_is_valid (base size : Z) (context : MmioEmulationContext.t) : result PciError.t unit :=
  match PciRootResources.pci_to_physical_addr base (resources context) with
  | None => Err (InvalidBarAddress base)
  | Some phys_addr =>
      bar_range_is_owned
        (PageAddrRange.new (PageAddr.with_round_down phys_addr PageSize.Size4k) (PageSize.num_4k_pages size))
        (page_tracker context) (guest_id context)
  end.
Definition bridge_window_is_valid (base limit : Z) (context : MmioEmulationContext.t) : result PciError.t unit :=
  range_is_valid base (limit - base) context.

(** [try_for_each]. *)
Fixpoint try_for_each {A} (f : A → outcome (result PciError.t unit)) (l : list A) : outcome (result PciError.t unit) :=
  match l with
  | [] => Returns (Ok tt)
  | x :: l => r ← f x; match r with Ok _ => try_for_each f l | Err e => Returns (Err e) end
  end.
Definition and_then (r : result PciError.t unit) (k : result PciError.t unit) : result PciError.t unit :=
  match r with Ok _ => k | Err e => Err e end.
Definition window_is_valid (w : option (Z * Z)) (context : MmioEmulationContext.t) : result PciError.t unit :=
  match w with Some (base, limit) => bridge_window_is_valid base limit context | None => Ok tt end.

(** ** Devices *)
Module PciDevice.
Inductive t {H : Type} :=
| Endpoint (ep : PciEndpoint.t H)
| Bridge (b : PciBridge.t H).
#[global] Arguments t : clear implicits.

Section accessors.
Context {H : Type}.
Definition registers (d : t H) : H :=
  match d with Endpoint ep => PciEndpoint.registers ep | Bridge b => PciBridge.registers b end.
Definition set_registers (h : H) (d : t H) : t H :=
  match d with
  | Endpoint ep => Endpoint (PciEndpoint.mk h (PciEndpoint.common ep))
  | Bridge b => Bridge (PciBridge.set_registers h b)
  end.
Definition common (d : t H) : PciDeviceCommon.t :=
  match d with Endpoint ep => PciEndpoint.common ep | Bridge b => PciBridge.common b end.
Definition set_common (c : PciDeviceCommon.t) (d : t H) : t H :=
  match d with
  | Endpoint ep => Endpoint (PciEndpoint.mk (PciEndpoint.registers ep) c)
  | Bridge b => Bridge (PciBridge.set_common c b)
  end.
Definition info (d : t H) : PciDeviceInfo.t := PciDeviceCommon.info (common d).
Definition bar_info (d : t H) : PciDeviceBarInfo.t := PciDeviceCommon.bar_info (common d).
Definition owner (d : t H) : option PageOwnerId.t := PciDeviceCommon.owner (common d).
Definition iommu_attached (d : t H) : bool := PciDeviceCommon.iommu_attached (common d).
(** The number of BAR registers. *)
Definition bar_count (d : t H) : nat := match d with Endpoint _ => PCI_ENDPOINT_BARS | Bridge _ => PCI_BRIDGE_BARS end.
End accessors.

Section device.
Context `{HW : ConfigHw H} `{RF : RegisterFields}.

Definition new (info : PciDeviceInfo.t) (h : H) : outcome (result PciError.t (t H)) :=
  match PciDeviceInfo.header_type info with
  | HeaderType.Endpoint =>
      r ← PciEndpoint.new info h;
      Returns (match r with Ok ep => Ok (Endpoint ep) | Err e => Err e end)
  | HeaderType.PciBridge =>
      r ← PciBridge.new info h;
      Returns (match r with Ok b => Ok (Bridge b) | Err e => Err e end)
  | x => Returns (Err (UnsupportedHeaderType (PciDeviceInfo.address info) x))
  end.

Definition take (o : PageOwnerId.t) : M (t H) PciError.t unit :=
  d ← get;
  match owner d with
  | Some _ => err DeviceOwned
  | None => put (set_common (PciDeviceCommon.set_owner (Some o) (common d)) d)
  end.

(** One turn of the loop of [emulate_config_read]. *)
Definition config_read_at (d : t H) (off : Z) : outcome read_access :=
  let l := CommonRegisters in
  let h := registers d in
  let i := info d in
  if in_span l "vendor_id" off then Returns (PushWord (PciDeviceInfo.vendor_id i))
  else if in_span l "dev_id" off then Returns (PushWord (PciDeviceInfo.device_id i))
  else if in_span l "command" off then Returns (PushWord (readable_bits Command_masks (reg_get 0 l "command" h)))
  else if in_span l "status" off then
    Returns (PushWord (field_modify (fld Status "CapabilitiesList") 1 (readable_bits Status_masks (reg_get 0 l "status" h))))
  else if in_span l "rev_id" off then Returns (PushByte (reg_get 0 l "rev_id" h))
  else if in_span l "prog_if" off then Returns (PushByte (reg_get 0 l "prog_if" h))
  else if in_span l "subclass" off then Returns (PushByte (PciDeviceInfo.subclass i))
  else if in_span l "class" off then Returns (PushByte (PciDeviceInfo.class_ i))
  else if in_span l "header_type" off then Returns (PushByte (reg_get 0 l "header_type" h))
  else if (PCI_TYPE_HEADER_START <=? off) && (off <=? PCI_TYPE_HEADER_END) then
    match d with
    | Endpoint ep => Returns (PciEndpoint.emulate_config_read ep off)
    | Bridge b => PciBridge.emulate_config_read b off
    end
  else if (PCI_CAPS_START <=? off) && (off <=? PCI_CONFIG_SPACE_END) then
    Returns (PciCapabilities.emulate_read (PciDeviceCommon.capabilities (common d)) off h)
  else if off <=? PCI_COMMON_HEADER_END then Returns (PushByte 0)
  else Returns (PushDword (not32 0)).

Fixpoint read_loop (fuel : nat) (d : t H) (op : MmioReadBuilder.t) : outcome MmioReadBuilder.t :=
  if MmioReadBuilder.done_ op then Returns op
  else match fuel with
       | O => Panics
       | S fuel => a ← config_read_at d (MmioReadBuilder.offset op); read_loop fuel d (push a op)
       end.
(** Every turn takes at least one byte. *)
Definition emulate_config_read (offset len : Z) (d : t H) : outcome Z :=
  op ← read_loop (Z.to_nat len) d (MmioReadBuilder.new offset len);
  Returns (MmioReadBuilder.result_ op).

(** The [BaseAddress] register at [i], which panics outside of the array. *)
Definition bar_reg (i : nat) (d : t H) : outcome Z :=
  if decide (i < bar_count d)%nat then Returns (bar_get i (registers d)) else Panics.
Definition get_bar_addr (index : nat) (d : t H) : outcome (result PciError.t Z) :=
  match PciDeviceBarInfo.get index (bar_info d) with
  | None => Returns (Err (BarNotPresent index))
  | Some bar =>
      lo ← bar_reg index d;
      let addr_lo := Z.land lo (not32 (Z.shiftl 1 (Field.shift (fld BaseAddress "Address")) - 1)) in
      addr_hi ← (if ResourceType.is_64bit (PciBarInfo.bar_type bar) then bar_reg (S index) d else Returns 0);
      Returns (Ok (Z.lor addr_lo (Z.shiftl addr_hi 32)))
  end.
Definition set_bar_addr (index : nat) (pci_addr : Z) : M (t H) PciError.t unit :=
  d ← get;
  match PciDeviceBarInfo.get index (bar_info d) with
  | None => err (BarNotPresent index)
  | Some bar =>
      of_outcome (bar_reg index d);;
      modify (λ d, set_registers (bar_set index (wrap32 pci_addr) (registers d)) d);;
      if ResourceType.is_64bit (PciBarInfo.bar_type bar) then
        of_outcome (bar_reg (S index) d);;
        modify (λ d, set_registers (bar_set (S index) (wrap32 (Z.shiftr pci_addr 32)) (registers d)) d)
      else mret tt
  end.

Definition bar_assignment_is_valid (d : t H) (context : MmioEmulationContext.t) (bar : PciBarInfo.t)
    : outcome (result PciError.t unit) :=
  r ← get_bar_addr (PciBarInfo.index bar) d;
  pci_addr ← unwrap_result r;
  Returns (range_is_valid pci_addr (PciBarInfo.size bar) context).

Definition can_enable_io_space (d : t H) (context : MmioEmulationContext.t) : outcome (result PciError.t unit) :=
  r ← try_for_each (bar_assignment_is_valid d context) (filter (λ b, PciBarInfo.bar_type b = IoPort) (bar_info d));
  Returns (and_then r
    (match d with Bridge b => window_is_valid (PciBridge.get_io_window b) context | Endpoint _ => Ok tt end)).
Definition can_enable_mem_space (d : t H) (context : MmioEmulationContext.t) : outcome (result PciError.t unit) :=
  r ← try_for_each (bar_assignment_is_valid d context) (filter (λ b, PciBarInfo.bar_type b ≠ IoPort) (bar_info d));
  Returns (and_then r
    (match d with
     | Bridge b => and_then (window_is_valid (PciBridge.get_mem_window b) context)
                            (window_is_valid (PciBridge.get_pref_window b) context)
     | Endpoint _ => Ok tt
     end)).

(** [reg.modify(Command::F.val(0))] if the bit is set and the check fails. *)
Definition guard_bit (name : string) (allowed : outcome bool) (reg : Z) : outcome Z :=
  if is_set (fld Command name) reg then
    ok ← allowed; Returns (if (ok : bool) then reg else field_modify (fld Command name) 0 reg)
  else Returns reg.

(** The write to the COMMAND register. *)
Definition write_command (context : MmioEmulationContext.t) (d : t H) (reg : Z) : outcome (t H) :=
  reg ← guard_bit "IoEnable" (r ← can_enable_io_space d context; Returns (is_ok r)) reg;
  reg ← guard_bit "MemoryEnable" (r ← can_enable_mem_space d context; Returns (is_ok r)) reg;
  reg ← guard_bit "BusMasterEnable" (Returns (iommu_attached d)) reg;
  Returns (set_registers (reg_set 0 CommonRegisters "command" (writeable_bits Command_masks reg) (registers d)) d).

(** One turn of the loop of [emulate_config_write]. *)
Definition config_write_at (context : MmioEmulationContext.t) (d : t H) (off : Z) : write_access (t H) :=
  let l := CommonRegisters in
  let h := registers d in
  if in_span l "command" off then PopWord (reg_get 0 l "command" h) (write_command context d)
  else if in_span l "status" off then
    PopWord (non_clearable_bits Status_masks (reg_get 0 l "status" h)) (λ reg,
      Returns (set_registers (reg_set 0 l "status" (writeable_bits Status_masks reg) h) d))
  else if (PCI_TYPE_HEADER_START <=? off) && (off <=? PCI_TYPE_HEADER_END) then
    match d with
    | Endpoint ep => map_access (λ h, set_registers h d) (PciEndpoint.emulate_config_write ep off)
    | Bridge b => map_access Bridge (PciBridge.emulate_config_write b off)
    end
  else if (PCI_CAPS_START <=? off) && (off <=? PCI_CONFIG_SPACE_END) then
    map_access (λ h, set_registers h d)
      (PciCapabilities.emulate_write (PciDeviceCommon.capabilities (common d)) off h)
  else pop_nothing d.

Fixpoint write_loop (fuel : nat) (context : MmioEmulationContext.t) (d : t H) (op : MmioWriteBuilder.t) : outcome (t H) :=
  if MmioWriteBuilder.done_ op then Returns d
  else match fuel with
       | O => Panics
       | S fuel =>
           '(op, d) ← pop (config_write_at context d (MmioWriteBuilder.offset op)) op;
           write_loop fuel context d op
       end.
Definition emulate_config_write (offset value len : Z) (context : MmioEmulationContext.t) (d : t H) : outcome (t H) :=
  write_loop (Z.to_nat len) context d (MmioWriteBuilder.new offset value len).

(** [command.modify(Command::F.val(v))]. *)
Definition modify_command (name : string) (v : Z) (d : t H) : t H :=
  set_registers (reg_set 0 CommonRegisters "command"
    (field_modify (fld Command name) v (command_of (registers d))) (registers d)) d.
Definition enable_io_space : t H → t H := modify_command "IoEnable" 1.
Definition enable_mem_space : t H → t H := modify_command "MemoryEnable" 1.
Definition enable_dma : t H → t H := modify_command "BusMasterEnable" 1.
Definition set_iommu_attached (d : t H) : t H := set_common (PciDeviceCommon.set_attached true (common d)) d.
Definition clear_iommu_attached (d : t H) : t H :=
  let d := modify_command "BusMasterEnable" 1 d in
  set_common (PciDeviceCommon.set_attached false (common d)) d.
End device.
End PciDevice.
