(* ===== verification/PciRoot.v ===== *)
(** * Buses and the root complex (drivers/src/pci/bus.rs, config_space.rs, root.rs)

    The hardware is a function [ecam] from addresses to the configuration space that
    answers there once the bridges above it are programmed; an absent function
    answers with all ones.  The device arena is a list whose indices are the ids, as
    no device is ever removed.  A failing allocation of the hypervisor's heap is not
    modelled. *)
From S2P Require Import Prelude RiscvPages Tracker PciRegs PciCaps PciSpaces PciDevices.
Local Open Scope Z_scope.
Import PciError(OutOfBoundsBusNumber, OutOfBuses, UnsupportedConfigAccess, InvalidConfigOffset, DeviceNotPresent,
  DeviceNotOwned, DeviceNotFound, DeviceNotOnRootBus, ResourceNotFound).
Import PciResourceType(IoPort).

Section enumeration.
Context `{HW : ConfigHw H} `{RF : RegisterFields}.
Variables (ecam : Address.t → H) (config_space : PciConfigSpace.t).
Abbreviation arena := (list (PciDevice.t H)).

(** [PciConfigSpace::info_for]. *)
Definition info_for (address : Address.t) : option PciDeviceInfo.t :=
  _ ← PciConfigSpace.registers_for address config_space;
  PciDeviceInfo.read_from address (ecam address).

(** [function_scan_range]: the number of functions to look at. *)
Definition function_scan_range (header_addr : Address.t) : nat :=
  if negb (Address.function header_addr =? 0) then 0
  else match info_for header_addr with
       | Some info => if PciDeviceInfo.multi_function info then 8 else 1
       | None => 0
       end.
(** [FnIter]: the items up to the first one that is [None]. *)
Fixpoint functions_from (dev_addr : Address.t) (fn_idx n : nat) : list PciDeviceInfo.t :=
  match n with
  | O => []
  | S n =>
      match info_for (Address.new (Address.segment dev_addr) (Address.bus dev_addr) (Address.device dev_addr)
                        (Z.of_nat fn_idx)) with
      | Some info => info :: functions_from dev_addr (S fn_idx) n
      | None => []
      end
  end.
Definition functions (dev_addr : Address.t) : list PciDeviceInfo.t :=
  functions_from dev_addr 0 (function_scan_range dev_addr).
(** [DevIter], for the 32 devices of a bus. *)
Fixpoint devices_from (fuel : nat) (dev_addr : Address.t) : list Address.t :=
  match fuel, PciConfigSpace.config_space_offset dev_addr config_space with
  | S fuel, Some _ =>
      dev_addr :: match Address.next_device dev_addr with Some a => devices_from fuel a | None => [] end
  | _, _ => []
  end.
Definition bus_functions (bus_addr : Address.t) : list PciDeviceInfo.t :=
  devices_from 32 bus_addr ≫= functions.

(** The first loop of [enumerate]. *)
Fixpoint add_devices (infos : list PciDeviceInfo.t) : M arena PciError.t (list BusDevice.t) :=
  match infos with
  | [] => mret []
  | info :: infos =>
      let address := PciDeviceInfo.address info in
      of_outcome (unwrap_option (PciConfigSpace.registers_for address config_space));;
      r ← of_outcome (PciDevice.new info (ecam address));
      dev ← lift r;
      id ← gets (length (A := PciDevice.t H));
      modify (λ a, a ++ [dev]);;
      rest ← add_devices infos;
      mret (BusDevice.mk address id :: rest)
  end.

(** The bridge with the given id; [None] for an endpoint. *)
Definition bridge_at (id : nat) : M arena PciError.t (option (PciBridge.t H)) :=
  dev ← (λ a, (of_outcome (unwrap_option (a !! id)) : M arena PciError.t (PciDevice.t H)) a);
  mret (match dev with PciDevice.Bridge b => Some b | PciDevice.Endpoint _ => None end).
Definition put_bridge (id : nat) (b : PciBridge.t H) : M arena PciError.t unit :=
  modify (λ a, <[id := PciDevice.Bridge b]> a).

(** The second loop, with [enumerate] for the child buses. *)
Fixpoint enumerate_bridges (enumerate : Z → M arena PciError.t PciBus.t) (bds : list BusDevice.t) (cur_bus : Z)
    : M arena PciError.t Z :=
  match bds with
  | [] => mret cur_bus
  | bd :: bds =>
      sec_bus ← lift (ok_or (AddressComponent.next Bus.BITS cur_bus) OutOfBuses);
      o ← bridge_at (BusDevice.id bd);
      match o with
      | None => enumerate_bridges enumerate bds cur_bus
      | Some b =>
          put_bridge (BusDevice.id bd) (PciBridge.assign_bus_range (BusRange.mk sec_bus Bus.max) b);;
          child_bus ← enumerate sec_bus;
          let sub_bus := PciBus.subordinate_bus_num child_bus in
          o ← bridge_at (BusDevice.id bd);
          b ← of_outcome (unwrap_option o);
          put_bridge (BusDevice.id bd)
            (PciBridge.set_child_bus child_bus (PciBridge.assign_bus_range (BusRange.mk sec_bus sub_bus) b));;
          enumerate_bridges enumerate bds sub_bus
      end
  end.
(** Bus numbers grow with the depth, so 256 levels are enough. *)
Fixpoint enumerate (fuel : nat) (bus_num : Z) : M arena PciError.t PciBus.t :=
  match fuel with
  | O => panic
  | S fuel =>
      bus_addr ← lift (ok_or (PciConfigSpace.bus bus_num config_space) (OutOfBoundsBusNumber bus_num));
      devices ← add_devices (bus_functions bus_addr);
      cur_bus ← enumerate_bridges (enumerate fuel) devices bus_num;
      mret (PciBus.mk (BusRange.mk bus_num cur_bus) BusRange.default devices)
  end.
End enumeration.

Module PcieRoot.
Record t {H : Type} := mk { config_space : PciConfigSpace.t; root_bus : PciBus.t;
  device_arena : list (PciDevice.t H); resources : PciRootResources.t }.
#[global] Arguments t : clear implicits.
#[global] Arguments mk {_} _ _ _ _.

(** The last step of [probe_from]: the hierarchy is enumerated from the first bus. *)
Definition probe `{ConfigHw H} `{RegisterFields} (ecam : Address.t → H) (cs : PciConfigSpace.t)
    (rs : PciRootResources.t) : outcome (result PciError.t (t H)) :=
  '(r, a) ← enumerate ecam cs 256 (BusRange.start (PciConfigSpace.bus_range cs)) [];
  Returns (match r with Ok bus => Ok (mk cs bus a rs) | Err e => Err e end).

Definition valid_config_mmio_access (offset len : Z) : bool :=
  ((len =? 1) || (len =? 2) || (len =? 4)) && (Z.land offset (len - 1) =? 0).

Section root.
Context `{HW : ConfigHw H} `{RF : RegisterFields}.
Definition set_arena (a : list (PciDevice.t H)) (s : t H) : t H :=
  mk (config_space s) (root_bus s) a (resources s).
Definition set_resources (rs : PciRootResources.t) (s : t H) : t H :=
  mk (config_space s) (root_bus s) (device_arena s) rs.

(** A call on one resource. *)
Definition on_resource {A} (ty : PciResourceType.t) (f : M PciRootResource.t PciError.t A) : M (t H) PciError.t A := λ s,
  match PciRootResources.get ty (resources s) with
  | None => Returns (Err (ResourceNotFound ty), s)
  | Some r =>
      '(x, r) ← f r;
      Returns (x, set_resources (<[ResourceType.index ty := Some r]> (resources s)) s)
  end.
Definition take_host_resource (ty : PciResourceType.t) : M (t H) PciError.t PageAddrRange.t :=
  on_resource ty (
    PciRootResource.take_for_host;;
    res ← get;
    mret (PageAddrRange.new (PciRootResource.addr res) (PageSize.num_4k_pages (PciRootResource.host_size res)))).
Definition alloc_hypervisor_resource (ty : PciResourceType.t) (size : Z) : M (t H) PciError.t PageAddrRange.t :=
  s ← get;
  ty ← lift (ok_or (PciRootResources.find_matching ty (resources s)) (ResourceNotFound ty));
  addr ← on_resource ty (PciRootResource.alloc_for_hypervisor size);
  mret (PageAddrRange.new addr (PageSize.num_4k_pages size)).
(** [PciResourceIter]: the types of resource with their pages. *)
Definition resource_iter (s : t H) : list (PciResourceType.t * PageAddrRange.t) :=
  seq 0 ResourceType.MAX_RESOURCE_TYPES ≫= λ i,
    match ResourceType.from_index i with
    | Some ty =>
        match PciRootResources.get ty (resources s) with
        | Some res => [(ty, PageAddrRange.new (PciRootResource.addr res) (PageSize.num_4k_pages (PciRootResource.size res)))]
        | None => []
        end
    | None => []
    end.

(** A call on one device; the id must be in the arena. *)
Definition on_device {A} (id : nat) (f : M (PciDevice.t H) PciError.t A) : M (t H) PciError.t A := λ s,
  match device_arena s !! id with
  | None => Panics
  | Some d => '(x, d) ← f d; Returns (x, set_arena (<[id := d]> (device_arena s)) s)
  end.

Definition take_host_devices (s : t H) : t H :=
  set_arena ((λ d, final d (PciDevice.take PageOwnerId.host d)) <$> device_arena s) s.

Definition take_and_enable_hypervisor_device (vendor_id device_id : Z) : M (t H) PciError.t nat :=
  s ← get;
  let matches d := (PciDeviceInfo.vendor_id (PciDevice.info d) =? vendor_id)
                   && (PciDeviceInfo.device_id (PciDevice.info d) =? device_id) in
  dev_id ← lift (ok_or (position matches (device_arena s)) DeviceNotFound);
  if negb (existsb (λ bd, BusDevice.id bd =? dev_id)%nat (PciBus.devices (root_bus s))) then err DeviceNotOnRootBus
  else
    on_device dev_id (PciDevice.take PageOwnerId.hypervisor);;
    dev ← of_outcome (unwrap_option (device_arena s !! dev_id));
    let bar_info := PciDevice.bar_info dev in
    for_each bar_info (λ bar,
      range ← alloc_hypervisor_resource (PciBarInfo.bar_type bar) (PciBarInfo.size bar);
      s ← get;
      base ← of_outcome (unwrap_option (PciRootResources.physical_to_pci_addr (PageAddrRange.base range) (resources s)));
      unwrap (on_device dev_id (PciDevice.set_bar_addr (PciBarInfo.index bar) base)));;
    (if existsb (λ b, bool_decide (PciBarInfo.bar_type b = IoPort)) bar_info
     then on_device dev_id (modify PciDevice.enable_io_space) else mret tt);;
    (if existsb (λ b, bool_decide (PciBarInfo.bar_type b ≠ IoPort)) bar_info
     then on_device dev_id (modify PciDevice.enable_mem_space) else mret tt);;
    on_device dev_id (modify PciDevice.enable_dma);;
    mret dev_id.

(** [device_by_virtual_address_on]: descends into the child buses; the ids of their
    devices are larger than the bridge's. *)
Fixpoint device_by_virtual_address_on (fuel : nat) (a : list (PciDevice.t H)) (bus : PciBus.t) (address : Address.t)
    : outcome (option nat) :=
  match fuel with
  | O => Panics
  | S fuel =>
      if Address.bus address =? PciBus.virtual_secondary_bus_num bus then
        Returns (BusDevice.id <$> List.find (λ bd,
          (Address.device (BusDevice.address bd) =? Address.device address)
          && (Address.function (BusDevice.address bd) =? Address.function address)) (PciBus.devices bus))
      else
        (fix behind (bds : list BusDevice.t) : outcome (option nat) :=
           match bds with
           | [] => Returns None
           | bd :: bds =>
               dev ← unwrap_option (a !! BusDevice.id bd);
               match dev with
               | PciDevice.Bridge bridge =>
                   child_bus ← unwrap_option (PciBridge.child_bus bridge);
                   if (PciBus.virtual_secondary_bus_num child_bus <=? Address.bus address)
                      && (Address.bus address <=? PciBus.virtual_subordinate_bus_num child_bus)
                   then device_by_virtual_address_on fuel a child_bus address
                   else behind bds
               | PciDevice.Endpoint _ => behind bds
               end
           end) (PciBus.devices bus)
  end.
Definition virtual_config_offset_to_device (offset : Z) (s : t H) : outcome (result PciError.t (nat * Z)) :=
  match PciConfigSpace.offset_to_address offset (config_space s) with
  | None => Returns (Err InvalidConfigOffset)
  | Some (address, dev_offset) =>
      o ← device_by_virtual_address_on (S (length (device_arena s))) (device_arena s) (root_bus s) address;
      Returns (match o with Some id => Ok (id, dev_offset) | None => Err (DeviceNotPresent address) end)
  end.

(** The device that an access of the guest is for, and the offset in it. *)
Definition accessed_device (offset len : Z) (guest : PageOwnerId.t) (s : t H)
    : outcome (result PciError.t (nat * PciDevice.t H * Z)) :=
  if negb (valid_config_mmio_access offset len) then Returns (Err UnsupportedConfigAccess)
  else
    r ← virtual_config_offset_to_device offset s;
    match r with
    | Err e => Returns (Err e)
    | Ok (dev_id, dev_offset) =>
        dev ← unwrap_option (device_arena s !! dev_id);
        if bool_decide (PciDevice.owner dev ≠ Some guest) then Returns (Err DeviceNotOwned)
        else Returns (Ok (dev_id, dev, dev_offset))
    end.
Definition do_emulate_config_read (offset len : Z) (pt : PageTracker.t) (guest : PageOwnerId.t) (s : t H)
    : outcome (result PciError.t Z) :=
  r ← accessed_device offset len guest s;
  match r with
  | Err e => Returns (Err e)
  | Ok (_, dev, dev_offset) => v ← PciDevice.emulate_config_read dev_offset len dev; Returns (Ok v)
  end.
Definition do_emulate_config_write (offset value len : Z) (pt : PageTracker.t) (guest : PageOwnerId.t)
    : M (t H) PciError.t unit := λ s,
  r ← accessed_device offset len guest s;
  match r with
  | Err e => Returns (Err e, s)
  | Ok (dev_id, dev, dev_offset) =>
      dev ← PciDevice.emulate_config_write dev_offset (wrap32 value) len
              (MmioEmulationContext.mk pt guest (resources s)) dev;
      Returns (Ok tt, set_arena (<[dev_id := dev]> (device_arena s)) s)
  end.
Definition emulate_config_read (offset len : Z) (pt : PageTracker.t) (guest : PageOwnerId.t) (s : t H) : outcome Z :=
  r ← do_emulate_config_read offset len pt guest s;
  Returns (match r with Ok v => v | Err _ => not64 0 end).
Definition emulate_config_write (offset value len : Z) (pt : PageTracker.t) (guest : PageOwnerId.t) (s : t H)
    : outcome (t H) :=
  '(_, s) ← do_emulate_config_write offset value len pt guest s;
  Returns s.
End root.
End PcieRoot.
