(* ===== verification/PciProbe.v ===== *)
(** * The root complex in the device tree (drivers/src/pci/root.rs)

    [PcieRoot::probe_from] reads the node of the root complex and adds its regions to
    the memory map; [add_host_pcie_node] writes the node that the host gets.  A node is
    its properties as the accessors of the device tree return them, [value_u64] for
    [reg] and [value_u32] for the others. *)
From S2P Require Import Prelude RiscvPages MemMap PciRegs PciCaps PciSpaces PciDevices PciRoot.
Local Open Scope Z_scope.
Import PciError(ConfigSpaceMisaligned, ConfigSpaceNotPageMultiple, ResourceMisaligned, ResourceNotPageMultiple,
  InvalidMmioRegion, NoConfigBase, NoCompatibleHostNode, NoConfigSize, NoRegProperty, NoRangesProperty,
  InvalidBusNumber, MissingMsiParent, InvalidMsiParent).

Module PciNode.
Record t := mk { reg : option (list Z); msi_parent : option (list Z); bus_range : option (list Z);
  pci_domain : option (list Z); ranges : option (list Z) }.
End PciNode.
Abbreviation probe_op A := (M HwMemMap.t PciError.t A).

Definition U64Cell (hi lo : Z) : Z := Z.lor (Z.shiftl hi 32) lo.

(** A value that must be a multiple of the page size. *)
Definition page_addr (a : Z) (e : PciError.t) : probe_op Z := lift (ok_or (PageAddr.new a) e).
Definition page_multiple (n : Z) (e : PciError.t) : probe_op unit :=
  if negb (n mod PageSize.bytes PageSize.Size4k =? 0) then err e else mret tt.
Definition add_region (dev : DeviceMemType.t) (a n : Z) : probe_op unit :=
  with_err InvalidMmioRegion (HwMemMap.add_mmio_region dev a n).

(** The loop over the [ranges] property; what is left of fewer than seven cells is
    ignored. *)
Fixpoint parse_ranges (cells : list Z) (resources : PciRootResources.t) : probe_op PciRootResources.t :=
  match cells with
  | c0 :: c1 :: c2 :: c3 :: c4 :: c5 :: c6 :: cells =>
      o ← of_outcome (ResourceType.from_dt_cell c0);
      match o with
      | None => parse_ranges cells resources
      | Some resource_type =>
          let pci_addr := U64Cell c1 c2 in
          let cpu_addr := U64Cell c3 c4 in
          addr ← page_addr cpu_addr (ResourceMisaligned cpu_addr);
          let size := U64Cell c5 c6 in
          page_multiple size (ResourceNotPageMultiple size);;
          '(r, resources) ← of_outcome (PciRootResources.insert resource_type (PciRootResource.new addr size pci_addr) resources);
          lift r;;
          add_region DeviceMemType.PciBar addr size;;
          parse_ranges cells resources
      end
  | _ => mret resources
  end.

(** The first or the default value of a list of bus numbers. *)
Definition bus_number (o : option Z) (default_ : Z) : probe_op Z :=
  let n := default default_ o in lift (ok_or (AddressComponent.try_from Bus.BITS n) (InvalidBusNumber n)).
Definition parse_bus_range (prop : option (list Z)) : probe_op BusRange.t :=
  match prop with
  | Some l => start ← bus_number (l !! 0%nat) 0; e ← bus_number (l !! 1%nat) 255; mret (BusRange.mk start e)
  | None => mret (BusRange.mk 0 255)
  end.
Definition parse_segment (prop : option (list Z)) : Z :=
  default 0 (l ← prop; v ← head l; AddressComponent.try_from Segment.BITS v).

(** [probe_from] up to the enumeration: the configuration space, the resources and the
    MSI controller. *)
Definition probe_node (imsic_phandle : Z) (node : option PciNode.t)
    : probe_op (PciConfigSpace.t * PciRootResources.t * Z) :=
  pci_node ← lift (ok_or node NoCompatibleHostNode);
  regs ← lift (ok_or (PciNode.reg pci_node) NoRegProperty);
  config_addr_raw ← lift (ok_or (regs !! 0%nat) NoConfigBase);
  config_base ← page_addr config_addr_raw (ConfigSpaceMisaligned config_addr_raw);
  config_size ← lift (ok_or (regs !! 1%nat) NoConfigSize);
  page_multiple config_size (ConfigSpaceNotPageMultiple config_size);;
  add_region DeviceMemType.PciConfig config_base config_size;;
  msi_parent_phandle ← lift (ok_or (l ← PciNode.msi_parent pci_node; head l) MissingMsiParent);
  if negb (msi_parent_phandle =? imsic_phandle) then err InvalidMsiParent
  else
    bus_range ← parse_bus_range (PciNode.bus_range pci_node);
    let segment := parse_segment (PciNode.pci_domain pci_node) in
    ranges ← lift (ok_or (PciNode.ranges pci_node) NoRangesProperty);
    resources ← parse_ranges ranges PciRootResources.new;
    mret (PciConfigSpace.mk config_base config_size segment bus_range, resources, msi_parent_phandle).

(** [probe_from]; the result is the singleton. *)
Definition probe_from `{ConfigHw H} `{RegisterFields} (ecam : Address.t → H) (imsic_phandle : Z) (node : option PciNode.t)
    : probe_op (PcieRoot.t H) :=
  '(config_space, resources, _) ← probe_node imsic_phandle node;
  r ← of_outcome (PcieRoot.probe ecam config_space resources);
  lift r.

(** ** The host's node *)
Definition u64_cells (x : Z) : list Z := [wrap32 (Z.shiftr x 32); wrap32 x].
Definition host_range (resources : PciRootResources.t) (i : nat) : list Z :=
  match ResourceType.from_index i with
  | Some res_type =>
      match PciRootResources.get res_type resources with
      | Some res => ResourceType.to_dt_cell res_type :: u64_cells (PciRootResource.pci_addr res)
                    ++ u64_cells (PciRootResource.addr res) ++ u64_cells (PciRootResource.host_size res)
      | None => []
      end
  | None => []
  end.
Definition host_pcie_node {H} (s : PcieRoot.t H) (msi_parent_phandle : Z) : PciNode.t :=
  let cs := PcieRoot.config_space s in
  let config_mem := PciConfigSpace.mem_range cs in
  PciNode.mk (Some [PageAddrRange.base config_mem; PageAddrRange.length_bytes config_mem])
    (Some [msi_parent_phandle])
    (Some [BusRange.start (PciConfigSpace.bus_range cs); BusRange.end_ (PciConfigSpace.bus_range cs)])
    (Some [PciConfigSpace.segment cs])
    (Some (seq 0 ResourceType.MAX_RESOURCE_TYPES ≫= host_range (PcieRoot.resources s))).
