(* ===== verification/PciConfigFacts.v ===== *)
(** * What a VM reads from an emulated configuration space

    The accesses that the builders split into registers are accesses to one array of
    bytes, and the capability list that a VM finds in it is the list of the known
    capabilities. *)
From Stdlib Require Import ZifyBool.
From stdpp Require Import strings.
From S2P Require Import Prelude RiscvPages Tracker PciRegs PciCaps PciSpaces PciDevices.
Local Open Scope string_scope.
Local Open Scope Z_scope.

(** ** Bytes of a word *)
Definition byte_at (v i : Z) : Z := Z.land (Z.shiftr v (8 * i)) 255.
(** The word whose [n] bytes are [f 0], [f 1], ... *)
Fixpoint le_word (f : Z → Z) (n : nat) : Z :=
  match n with
  | O => 0
  | S n => Z.lor (le_word f n) (Z.shiftl (f (Z.of_nat n)) (8 * Z.of_nat n))
  end.

Lemma byte_at_bound v i : 0 ≤ byte_at v i < 256.
Proof. unfold byte_at. change 255 with (Z.ones 8). rewrite Z.land_ones by lia. apply Z.mod_pos_bound. lia. Qed.

Lemma le_word_ext f g n : (∀ i, 0 ≤ i < Z.of_nat n → f i = g i) → le_word f n = le_word g n.
Proof.
  induction n as [|n IH]; intros Hf; cbn [le_word]; [done|]. rewrite (Hf (Z.of_nat n)) by lia.
  rewrite IH; [done|]. intros. apply Hf. lia.
Qed.

Lemma le_word_app f k n :
  Z.lor (le_word f k) (Z.shiftl (le_word (λ j, f (Z.of_nat k + j)) n) (8 * Z.of_nat k)) = le_word f (k + n).
Proof.
  induction n as [|n IH]; cbn [le_word].
  - rewrite Z.shiftl_0_l, Z.lor_0_r, Nat.add_0_r. done.
  - rewrite Nat.add_succ_r. cbn [le_word]. rewrite <-IH, Z.shiftl_lor, Z.lor_assoc. f_equal.
    rewrite Z.shiftl_shiftl by lia. rewrite Nat2Z.inj_add. f_equal. lia.
Qed.

Lemma le_word_bits f n i : (∀ j, 0 ≤ j < Z.of_nat n → 0 ≤ f j < 256) → 0 ≤ i →
  Z.testbit (le_word f n) i = if i <? 8 * Z.of_nat n then Z.testbit (f (i / 8)) (i mod 8) else false.
Proof.
  intros Hf Hi. induction n as [|n IH]; cbn [le_word].
  - rewrite Z.testbit_0_l. destruct (Z.ltb_spec i (8 * Z.of_nat 0)); [lia|done].
  - rewrite Z.lor_spec, Z.shiftl_spec by lia. rewrite IH by (intros; apply Hf; lia).
    destruct (Z.ltb_spec i (8 * Z.of_nat n)).
    + rewrite (Z.testbit_neg_r (f (Z.of_nat n))) by lia. rewrite orb_false_r.
      destruct (Z.ltb_spec i (8 * Z.of_nat (S n))); [done|lia].
    + cbn [orb]. destruct (Z.ltb_spec i (8 * Z.of_nat (S n))).
      * assert (i / 8 = Z.of_nat n) as -> by mod_lia. f_equal. mod_lia.
      * apply (testbit_high _ _ 8); [|lia]. apply Hf. lia.
Qed.

Lemma le_word_nonneg f n : (∀ j, 0 ≤ j < Z.of_nat n → 0 ≤ f j < 256) → 0 ≤ le_word f n.
Proof.
  induction n as [|n IH]; intros Hf; cbn [le_word]; [done|]. apply Z.lor_nonneg. split.
  - apply IH. intros. apply Hf. lia.
  - apply Z.shiftl_nonneg. apply Hf. lia.
Qed.

Lemma le_word_bound f n : (∀ j, 0 ≤ j < Z.of_nat n → 0 ≤ f j < 256) → 0 ≤ le_word f n < 2 ^ (8 * Z.of_nat n).
Proof.
  intros Hf. pose proof (le_word_nonneg f n Hf) as H0. split; [done|].
  destruct (Z.lt_ge_cases (le_word f n) (2 ^ (8 * Z.of_nat n))) as [|Hge]; [done|]. exfalso.
  pose proof (Z.pow_pos_nonneg 2 (8 * Z.of_nat n)) as Hp.
  assert (8 * Z.of_nat n ≤ Z.log2 (le_word f n)) as Hl by (apply Z.log2_le_pow2; lia).
  pose proof (Z.bit_log2 (le_word f n) ltac:(lia)) as Hb. rewrite le_word_bits in Hb by (done || lia).
  destruct (Z.ltb_spec (Z.log2 (le_word f n)) (8 * Z.of_nat n)); [lia|done].
Qed.

Lemma byte_mask_ones n : 0 ≤ n ≤ 4 → byte_mask n = Z.ones (8 * n).
Proof.
  intros Hn. assert (n = 0 ∨ n = 1 ∨ n = 2 ∨ n = 3 ∨ n = 4) as [->|[->|[->|[->| ->]]]] by lia; reflexivity.
Qed.

Lemma shl32_small x k : 0 ≤ k ≤ 3 → 0 ≤ x < 2 ^ (8 * (4 - k)) → shl32 x (k * 8) = Z.shiftl x (8 * k).
Proof.
  intros Hk Hx. unfold shl32, wrap32. rewrite (Z.mod_small (k * 8)) by lia. rewrite (Z.mul_comm k 8).
  apply Z.mod_small. rewrite Z.shiftl_mul_pow2 by lia. pose proof (Z.pow_pos_nonneg 2 (8 * k)).
  split; [nia|]. replace 32 with (8 * (4 - k) + 8 * k) by lia. rewrite Z.pow_add_r by lia. nia.
Qed.

(** [select_bytes] takes consecutive bytes. *)
Lemma select_bytes_spec v o (n : nat) :
  0 ≤ o ≤ 3 → (n ≤ 4)%nat → select_bytes v o (Z.of_nat n) = le_word (λ j, byte_at v (o + j)) n.
Proof.
  intros Ho Hn. unfold select_bytes, shr32. rewrite (Z.mod_small (o * 8)) by lia.
  rewrite byte_mask_ones by lia. apply Z.bits_inj'. intros i Hi.
  rewrite le_word_bits by (intros; apply byte_at_bound || done). rewrite Z.land_spec, Z.shiftr_spec by done.
  destruct (Z.ltb_spec i (8 * Z.of_nat n)).
  - rewrite Z.ones_spec_low by lia. rewrite andb_true_r. unfold byte_at.
    rewrite Z.land_spec, Z.shiftr_spec by mod_lia. change 255 with (Z.ones 8).
    rewrite Z.ones_spec_low by mod_lia. rewrite andb_true_r. f_equal. mod_lia.
  - rewrite Z.ones_spec_high by lia. apply andb_false_r.
Qed.

(** ** What an access delivers *)
(** The byte at [off] of the register that the access pushes. *)
Definition access_byte (a : read_access) (off : Z) : Z :=
  match a with
  | PushByte v => v
  | PushWord v => byte_at v (Z.land off 1)
  | PushDword v => byte_at v (Z.land off 3)
  end.
Definition access_size (a : read_access) : Z :=
  match a with PushByte _ => 1 | PushWord _ => 2 | PushDword _ => 4 end.
(** A pushed byte is a byte. *)
Definition access_wf (a : read_access) : Prop := match a with PushByte v => 0 ≤ v < 256 | _ => True end.

Lemma access_byte_bound a off : access_wf a → 0 ≤ access_byte a off < 256.
Proof. destruct a; cbn; [done|intros _; apply byte_at_bound..]. Qed.

Lemma land_mask_size a off : Z.land off (access_size a - 1) = off mod access_size a.
Proof.
  destruct a; cbn [access_size]; [by rewrite Z.land_0_r, Z.mod_1_r|..].
  - exact (land_mask_mod off 1 ltac:(lia)).
  - exact (land_mask_mod off 2 ltac:(lia)).
Qed.

(** One push appends the bytes up to the end of the register or of the access. *)
Lemma push_access_spec a off (k len : nat) f :
  access_wf a → 0 ≤ off → (k < len ≤ 4)%nat →
  let n := Z.to_nat (Z.min (access_size a - (off + Z.of_nat k) mod access_size a) (Z.of_nat (len - k))) in
  (∀ j, 0 ≤ j < Z.of_nat n → f (Z.of_nat k + j) = access_byte a (off + Z.of_nat k + j)) →
  push a (MmioReadBuilder.mk (off + Z.of_nat k) (Z.of_nat len) (Z.of_nat k) (le_word f k))
  = MmioReadBuilder.mk (off + Z.of_nat (k + n)) (Z.of_nat len) (Z.of_nat (k + n)) (le_word f (k + n))
  ∧ (1 ≤ n)%nat ∧ (k + n ≤ len)%nat.
Proof.
  intros Ha Hoff Hk n Hf. set (o := off + Z.of_nat k) in *.
  assert (0 < access_size a) as Hs by (destruct a; done).
  pose proof (Z.mod_pos_bound o _ Hs) as Hm.
  assert (1 ≤ n ∧ k + n ≤ len)%nat as [Hn1 Hn2] by lia.
  split; [|done].
  assert (∀ v, Z.of_nat n = Z.min (access_size a - o mod access_size a) (wrap64 (Z.of_nat len - Z.of_nat k))
    → (∀ j, 0 ≤ j < Z.of_nat n → f (Z.of_nat k + j) = byte_at v (o mod access_size a + j))
    → MmioReadBuilder.push_part (access_size a) v (MmioReadBuilder.mk o (Z.of_nat len) (Z.of_nat k) (le_word f k))
      = MmioReadBuilder.mk (off + Z.of_nat (k + n)) (Z.of_nat len) (Z.of_nat (k + n)) (le_word f (k + n))) as Hpart.
  { intros v Hn Hv. unfold MmioReadBuilder.push_part. cbn [MmioReadBuilder.offset MmioReadBuilder.len
      MmioReadBuilder.written MmioReadBuilder.result_]. rewrite land_mask_size, <-Hn. f_equal; [lia|lia|].
    rewrite select_bytes_spec by (destruct a; cbn in *; lia).
    rewrite shl32_small.
    - rewrite <-le_word_app. f_equal. f_equal. apply le_word_ext. intros j Hj. by rewrite Hv by lia.
    - lia.
    - destruct (le_word_bound (λ j, byte_at v (o mod access_size a + j)) n) as [? Hb];
        [intros; apply byte_at_bound|]. split; [done|]. eapply Z.lt_le_trans; [exact Hb|].
      apply Z.pow_le_mono_r; lia. }
  assert (wrap64 (Z.of_nat len - Z.of_nat k) = Z.of_nat (len - k)) as Hw.
  { unfold wrap64. rewrite Z.mod_small; lia. }
  destruct a as [v|v|v]; cbn [push access_wf] in *.
  - assert (n = 1%nat) as En by (cbn [access_size] in *; lia).
    unfold MmioReadBuilder.push_byte. cbn [MmioReadBuilder.offset MmioReadBuilder.len
      MmioReadBuilder.written MmioReadBuilder.result_]. rewrite En. f_equal; [lia|lia|].
    rewrite Nat.add_1_r. cbn [le_word]. f_equal. rewrite shl32_small; [|lia|].
    + f_equal. specialize (Hf 0 ltac:(lia)). cbn in Hf. rewrite Z.add_0_r in Hf. done.
    + split; [lia|]. eapply Z.lt_le_trans; [apply Ha|].
      change 256 with (2 ^ 8). apply Z.pow_le_mono_r; lia.
  - apply (Hpart v); [rewrite Hw; lia|]. intros j Hj. rewrite Hf by lia. cbn [access_byte access_size] in *.
    f_equal. rewrite (land_mask_mod _ 1) by lia. change (2 ^ 1) with 2. mod_lia.
  - apply (Hpart v); [rewrite Hw; lia|]. intros j Hj. rewrite Hf by lia. cbn [access_byte access_size] in *.
    f_equal. rewrite (land_mask_mod _ 2) by lia. change (2 ^ 2) with 4. mod_lia.
Qed.

(** ** Reads that do not depend on how they are split *)
(** Where a register is accessed at all, it is accessed from there to its end. *)
Definition coherent (g : Z → outcome read_access) : Prop :=
  ∀ o, 0 ≤ o → ∃ a, g o = Returns a ∧ access_wf a
    ∧ ∀ o', o ≤ o' < o - o mod access_size a + access_size a → g o' = Returns a.
(** The byte that an access at [o] delivers. *)
Definition byte_of (g : Z → outcome read_access) (o : Z) : Z :=
  match g o with Returns a => access_byte a o | Panics => 0 end.

Lemma byte_of_bound g o : coherent g → 0 ≤ o → 0 ≤ byte_of g o < 256.
Proof. intros Hg Ho. destruct (Hg o Ho) as (a & Ha & Hwf & _). unfold byte_of. rewrite Ha. by apply access_byte_bound. Qed.

Section reads.
Context `{HWL : ConfigHwLaws H} `{RFL : RegisterFieldsLaws}.

Lemma read_loop_spec (d : PciDevice.t H) off (len k fuel : nat) :
  coherent (PciDevice.config_read_at d) → 0 ≤ off → (k ≤ len ≤ 4)%nat → (len - k ≤ fuel)%nat →
  let f i := byte_of (PciDevice.config_read_at d) (off + i) in
  PciDevice.read_loop fuel d (MmioReadBuilder.mk (off + Z.of_nat k) (Z.of_nat len) (Z.of_nat k) (le_word f k))
  = Returns (MmioReadBuilder.mk (off + Z.of_nat len) (Z.of_nat len) (Z.of_nat len) (le_word f len)).
Proof.
  intros Hg Hoff Hk Hfuel f. revert k Hk Hfuel. induction fuel as [|fuel IH]; intros k Hk Hfuel.
  - assert (k = len) as -> by lia. cbn. unfold MmioReadBuilder.done_. cbn. by rewrite Z.eqb_refl.
  - cbn [PciDevice.read_loop]. unfold MmioReadBuilder.done_.
    cbn [MmioReadBuilder.written MmioReadBuilder.len MmioReadBuilder.offset].
    destruct (Z.eqb_spec (Z.of_nat k) (Z.of_nat len)); [by assert (k = len) as -> by lia|].
    destruct (Hg (off + Z.of_nat k)) as (a & Ha & Hwf & Hsame); [lia|]. rewrite Ha. cbn.
    destruct (push_access_spec a off k len f) as (-> & Hn & Hle); [done|done|lia| |].
    + intros j Hj. unfold f, byte_of. rewrite Hsame by lia. f_equal. lia.
    + apply IH; lia.
Qed.

Lemma emulate_config_read_spec (d : PciDevice.t H) off (len : nat) :
  coherent (PciDevice.config_read_at d) → 0 ≤ off → (len ≤ 4)%nat →
  PciDevice.emulate_config_read off (Z.of_nat len) d
  = Returns (le_word (λ i, byte_of (PciDevice.config_read_at d) (off + i)) len).
Proof.
  intros Hg Hoff Hlen. unfold PciDevice.emulate_config_read, MmioReadBuilder.new. rewrite Nat2Z.id.
  pose proof (read_loop_spec d off len 0 len Hg Hoff ltac:(lia) ltac:(lia)) as E.
  change (Z.of_nat 0) with 0 in E. cbn [le_word] in E. rewrite Z.add_0_r in E. by rewrite E.
Qed.
End reads.

(** ** Spans *)
(** Evaluates the closed register layouts. *)
Ltac eval_layouts :=
  unfold in_span, Reg.span;
  repeat match goal with
  | |- context [Reg.at_field ?l ?n] => let r := eval vm_compute in (Reg.at_field l n) in change (Reg.at_field l n) with r
  | |- context [size_of ?l] => let r := eval vm_compute in (size_of l) in change (size_of l) with r
  end;
  cbn [Reg.offset Reg.width].

(** The access at [x] is one that [coherent] asks for, and its register ends before [n]. *)
Definition coherent_at (g : Z → read_access) (n x : Z) : Prop :=
  access_wf (g x) ∧ ∀ x', x ≤ x' < x - x mod access_size (g x) + access_size (g x) → g x' = g x ∧ x' < n.

Lemma coherent_at_intro (g : Z → read_access) n x :
  (∀ a, g x = a → access_wf a ∧ ∀ x', x ≤ x' < x - x mod access_size a + access_size a → g x' = a ∧ x' < n) →
  coherent_at g n x.
Proof. intros Hg. by apply Hg. Qed.

(** The tests of a chain of spans are decided by arithmetic at [x'], and one after
    the other at [x]. *)
Ltac span_decide :=
  repeat match goal with
  | |- (if ?c then _ else _) = _ => first [assert (c = false) as -> by lia | assert (c = true) as -> by lia]
  end; reflexivity.
Ltac span_branch :=
  split; [first [exact I | cbn [access_wf]; solve [auto with salus | lia]]|];
  intros x' Hx'; cbn [access_size] in Hx';
  match type of Hx' with context [?a mod ?b] => pose proof (Z.div_mod a b ltac:(lia)); pose proof (Z.mod_pos_bound a b ltac:(lia)) end;
  split; [span_decide|lia].
Ltac coherent_chain :=
  apply coherent_at_intro; intros a Ea; revert Ea; eval_layouts;
  repeat match goal with
  | |- (if ?b then _ else _) = _ → _ => let Hb := fresh in destruct b eqn:Hb; [intros <-; first [exfalso; lia | span_branch]|]
  end;
  intros <-; span_branch.

Section capabilities.
Context `{HWL : ConfigHwLaws H} `{RFL : RegisterFieldsLaws}.

Lemma cfg_read_byte o (h : H) : 0 ≤ cfg_read 1 o h < 256.
Proof using HWL. exact (cfg_read_bound 1 o h ltac:(lia)). Qed.
Lemma wrap8_byte x : 0 ≤ wrap8 x < 256.
Proof. unfold wrap8. apply Z.mod_pos_bound. done. Qed.
Hint Resolve cfg_read_byte wrap8_byte : salus.

(** The length of a vendor capability is within what the code accepts. *)
Definition type_wf (c : CapabilityType.t) : Prop :=
  match c with CapabilityType.Vendor n => 4 ≤ n ≤ PCI_MAX_CAP_LENGTH | _ => True end.

Lemma type_read_coherent c base (h : H) x : type_wf c → 2 ≤ x < cap_length c →
  coherent_at (λ x, type_read c base x h) (cap_length c) x.
Proof using HWL.
  intros Hwf. destruct c as [|m| |n| |v d]; unfold type_read, cap_length.
  - unfold PowerManagement_read. eval_layouts. intros Hx. coherent_chain.
  - unfold Msi_read. destruct m; eval_layouts; intros Hx; coherent_chain.
  - unfold MsiX_read. eval_layouts. intros Hx. coherent_chain.
  - intros Hx. assert (∀ y, ∃ b, Vendor_read n base y h = PushByte b ∧ 0 ≤ b < 256) as Hb.
    { intros y. unfold Vendor_read. repeat case_match; eexists; (split; [done|]); first [apply wrap8_byte | apply cfg_read_byte | lia]. }
    destruct (Hb x) as (b & Eb & Hbb). apply coherent_at_intro. intros a Ea. rewrite Eb in Ea. subst a.
    split; [done|]. cbn. intros x' Hx'. rewrite Z.mod_1_r in Hx'. assert (x' = x) as -> by lia. rewrite Eb. split; [done|lia].
  - unfold BridgeSubsystem_read. eval_layouts. intros Hx. coherent_chain.
  - unfold PciExpress_read. eval_layouts.
    destruct (v =? 2), d; cbn [PciExpressDeviceType.has_root_control PciExpressDeviceType.has_link_control];
      intros Hx; coherent_chain.
Qed.

(** A capability is in the region for capabilities, at a multiple of 4. *)
Definition cap_wf (c : PciCapability.t) : Prop :=
  PciCapability.offset c mod 4 = 0 ∧ PCI_CAPS_START ≤ PciCapability.offset c < PCI_CONFIG_SPACE_END
  ∧ type_wf (PciCapability.cap_type c).

Lemma find_cap_in caps x c : PciCapabilities.capability_by_offset x caps = Some c →
  c ∈ caps ∧ PciCapability.offset c ≤ x < PciCapability.offset c + PciCapability.length c.
Proof. intros [Hin Hc]%find_some. split; [by apply list_elem_of_In|]. lia. Qed.

(** No capability begins inside of a register, so the same one is found for all of it. *)
Lemma find_cap_same caps x x' c : Forall cap_wf caps → PciCapabilities.capability_by_offset x caps = Some c →
  x ≤ x' → x' / 4 = x / 4 → x' < PciCapability.offset c + PciCapability.length c →
  PciCapabilities.capability_by_offset x' caps = Some c.
Proof.
  unfold PciCapabilities.capability_by_offset. intros Hwf Hc Hx Hblock Hend.
  induction Hwf as [|e caps [He _] _ IH]; cbn in *; [done|].
  destruct ((PciCapability.offset e <=? x) && (x <? PciCapability.offset e + PciCapability.length e)) eqn:E.
  - injection Hc as ->. assert ((PciCapability.offset c <=? x') && (x' <? PciCapability.offset c + PciCapability.length c)
      = true) as -> by lia. done.
  - assert ((PciCapability.offset e <=? x') && (x' <? PciCapability.offset e + PciCapability.length e) = false) as ->.
    { pose proof (Z.div_mod x 4). pose proof (Z.div_mod x' 4). pose proof (Z.div_mod (PciCapability.offset e) 4).
      pose proof (Z.mod_pos_bound x 4). pose proof (Z.mod_pos_bound x' 4). lia. }
    by apply IH.
Qed.

Lemma block_of_register x x' a : x ≤ x' < x - x mod access_size a + access_size a → x' / 4 = x / 4.
Proof. destruct a; cbn [access_size]; mod_lia. Qed.

Lemma cap_read_coherent c (h : H) x : cap_wf c →
  PciCapability.offset c ≤ x < PciCapability.offset c + PciCapability.length c →
  coherent_at (λ x, PciCapability.emulate_read c x h) (PciCapability.offset c + PciCapability.length c) x.
Proof using HWL.
  intros (Ho & _ & Ht) Hx. set (b := PciCapability.offset c) in *. set (n := PciCapability.length c) in *.
  assert (∀ y v, PciCapability.emulate_read c y h = PushByte v → 0 ≤ v < 256 → y = x →
    coherent_at (λ x, PciCapability.emulate_read c x h) (b + n) x) as Hbyte.
  { intros y v Ey Hv ->. apply coherent_at_intro. intros a <-. rewrite Ey. split; [done|]. cbn. intros x' Hx'.
    rewrite Z.mod_1_r in Hx'. assert (x' = x) as -> by lia. split; [done|lia]. }
  destruct (decide (x < b + 2)) as [Hlt|Hge].
  - unfold PciCapability.emulate_read in *. fold b in Hbyte |- *. revert Hbyte. eval_layouts. intros Hbyte.
    destruct (decide (x = b)) as [->|].
    + eapply (Hbyte b (CapabilityId.raw (PciCapability.id c))); [|destruct (PciCapability.id c); done|done].
      assert ((0 <=? b - b) && (b - b <=? 0 + 1 - 1) = true) as -> by lia. done.
    + eapply (Hbyte x (wrap8 (PciCapability.next c))); [|apply wrap8_byte|done].
      assert ((0 <=? x - b) && (x - b <=? 0 + 1 - 1) = false) as -> by lia.
      assert ((1 <=? x - b) && (x - b <=? 1 + 1 - 1) = true) as -> by lia. done.
  - assert (∀ y, b + 2 ≤ y → PciCapability.emulate_read c y h = type_read (PciCapability.cap_type c) b (y - b) h) as Hty.
    { intros y Hy. unfold PciCapability.emulate_read. fold b. eval_layouts.
      assert ((0 <=? y - b) && (y - b <=? 0 + 1 - 1) = false) as -> by lia.
      by assert ((1 <=? y - b) && (y - b <=? 1 + 1 - 1) = false) as -> by lia. }
    destruct (type_read_coherent (PciCapability.cap_type c) b h (x - b) Ht) as [Hwf Hsame];
      [fold (PciCapability.length c); fold n; lia|].
    apply coherent_at_intro. intros a <-. rewrite (Hty x) by lia. split; [done|]. intros x' Hx'.
    rewrite Hty by lia. destruct (Hsame (x' - b)) as [-> Hlt]; [|split; [done|]].
    + revert Hx'. destruct (type_read _ _ _ _); cbn [access_size]; mod_lia.
    + unfold n, PciCapability.length. lia.
Qed.

Lemma caps_read_coherent caps (h : H) x : Forall cap_wf caps → x ≤ PCI_CONFIG_SPACE_END →
  coherent_at (λ x, PciCapabilities.emulate_read caps x h) (PCI_CONFIG_SPACE_END + 1) x.
Proof using HWL.
  intros Hwf Hx. apply coherent_at_intro. intros a Ea. unfold PciCapabilities.emulate_read in *.
  destruct (PciCapabilities.capability_by_offset x caps) as [c|] eqn:E.
  - pose proof (find_cap_in _ _ _ E) as [Hin Hr]. rewrite list.Forall_forall in Hwf.
    destruct (cap_read_coherent c h x (Hwf c Hin) Hr) as [Ha Hsame]. rewrite Ea in *. split; [done|].
    intros x' Hx'. pose proof (block_of_register _ _ _ Hx') as Hb. destruct (Hsame x' Hx') as [Es Hlt].
    rewrite (find_cap_same caps x x' c) by (rewrite ?list.Forall_forall; done || lia). rewrite Es.
    split; [done|]. unfold PCI_CONFIG_SPACE_END in *. mod_lia.
  - subst a. split; [done|]. cbn. intros x' Hx'. rewrite Z.mod_1_r in Hx'. assert (x' = x) as -> by lia.
    rewrite E. split; [done|lia].
Qed.
End capabilities.

(** ** Devices *)
Definition info_wf (i : PciDeviceInfo.t) : Prop :=
  0 ≤ PciDeviceInfo.class_ i < 256 ∧ 0 ≤ PciDeviceInfo.subclass i < 256.
(** The BARs are registers of the device; a wide one takes two of them. *)
Definition bar_wf (n : nat) (b : PciBarInfo.t) : Prop :=
  (PciBarInfo.index b < n)%nat
  ∧ (ResourceType.is_64bit (PciBarInfo.bar_type b) = true → (S (PciBarInfo.index b) < n)%nat)
  ∧ is_power_of_two (PciBarInfo.size b) = true ∧ PciBarInfo.size b < U64.
(** The register behind the last one of the BAR. *)
Definition bar_end (b : PciBarInfo.t) : nat :=
  if ResourceType.is_64bit (PciBarInfo.bar_type b) then S (S (PciBarInfo.index b)) else S (PciBarInfo.index b).
(** The BARs are listed by index and share no register. *)
Definition bars_apart (bars : PciDeviceBarInfo.t) : Prop :=
  ForallOrdPairs (λ b b', (bar_end b ≤ PciBarInfo.index b')%nat) bars.
Definition device_wf {H} (d : PciDevice.t H) : Prop :=
  info_wf (PciDevice.info d)
  ∧ Forall cap_wf (PciDeviceCommon.capabilities (PciDevice.common d))
  ∧ Forall (bar_wf (PciDevice.bar_count d)) (PciDevice.bar_info d)
  ∧ bars_apart (PciDevice.bar_info d).
(** The bus behind a bridge has been enumerated. *)
Definition enumerated {H} (d : PciDevice.t H) : Prop :=
  match d with PciDevice.Bridge b => is_Some (PciBridge.child_bus b) | PciDevice.Endpoint _ => True end.

Lemma bar_index_same o o' : 16 ≤ o → o' / 4 = o / 4 → bar_index o' = bar_index o.
Proof.
  intros Ho Hb. unfold bar_index. f_equal. change (bar_offset 0) with (4 * 4).
  rewrite <-!(Z.add_opp_r _ (4 * 4)), <-!Z.mul_opp_l, !Z.div_add by lia. by rewrite Hb.
Qed.

Ltac chain_branch :=
  eexists; split; [reflexivity|]; split; [first [exact I | cbn [access_wf]; solve [eauto with salus | lia]]|];
  intros x' Hx'; pose proof (block_of_register _ _ _ Hx') as Hblock; cbn [access_size] in Hx';
  match type of Hx' with context [?a mod ?b] => pose proof (Z.div_mod a b ltac:(lia)); pose proof (Z.mod_pos_bound a b ltac:(lia)) end;
  repeat match goal with
  | |- (if ?c then _ else _) = _ => first [assert (c = false) as -> by lia | assert (c = true) as -> by lia]
  end;
  first [reflexivity |
    match type of Hblock with ?y / _ = ?z / _ => rewrite (bar_index_same z y ltac:(lia) Hblock); reflexivity end].
Ltac coherent_chain_out :=
  eval_layouts;
  repeat match goal with
  | |- ∃ a, (if ?b then _ else _) = _ ∧ _ =>
      let Hb := fresh in destruct b eqn:Hb; [first [exfalso; lia | chain_branch]|]
  end; try chain_branch.

Section devices.
Context `{HWL : ConfigHwLaws H} `{RFL : RegisterFieldsLaws}.

Lemma reg_get_byte l n (h : H) : Reg.width (Reg.at_field l n) = 1 → 0 ≤ reg_get 0 l n h < 256.
Proof using HWL. unfold reg_get. intros ->. apply cfg_read_byte. Qed.

Lemma endpoint_read_coherent (ep : PciEndpoint.t H) x : 16 ≤ x < 64 →
  ∃ a, PciEndpoint.emulate_config_read ep x = a ∧ access_wf a
    ∧ ∀ x', x ≤ x' < x - x mod access_size a + access_size a → PciEndpoint.emulate_config_read ep x' = a.
Proof using HWL.
  intros Hx. unfold PciEndpoint.emulate_config_read. pose proof wrap8_byte. coherent_chain_out.
Qed.

Lemma bridge_read_coherent (b : PciBridge.t H) x : is_Some (PciBridge.child_bus b) → 16 ≤ x < 64 →
  ∃ a, PciBridge.emulate_config_read b x = Returns a ∧ access_wf a
    ∧ ∀ x', x ≤ x' < x - x mod access_size a + access_size a → PciBridge.emulate_config_read b x' = Returns a.
Proof using HWL.
  intros [bus Hbus] Hx. unfold PciBridge.emulate_config_read. rewrite Hbus. cbn [unwrap_option mbind outcome_bind].
  pose proof wrap8_byte.
  pose proof (reg_get_byte BridgeRegisters "io_base" (PciBridge.registers b) eq_refl).
  pose proof (reg_get_byte BridgeRegisters "io_limit" (PciBridge.registers b) eq_refl).
  coherent_chain_out.
Qed.

(** The regions of the configuration space. *)
Ltac region_decide :=
  unfold PciDevice.config_read_at, PCI_CAPS_START, PCI_TYPE_HEADER_START, PCI_TYPE_HEADER_END, PCI_CONFIG_SPACE_END,
    PCI_COMMON_HEADER_END; eval_layouts;
  repeat match goal with
  | |- (if ?c then _ else _) = _ => first [assert (c = false) as -> by lia | assert (c = true) as -> by lia]
  end.
Lemma config_read_type (d : PciDevice.t H) x : 16 ≤ x < 64 →
  PciDevice.config_read_at d x =
    match d with
    | PciDevice.Endpoint ep => Returns (PciEndpoint.emulate_config_read ep x)
    | PciDevice.Bridge b => PciBridge.emulate_config_read b x
    end.
Proof. intros Hx. region_decide. done. Qed.
Lemma config_read_caps (d : PciDevice.t H) x : 64 ≤ x < 256 →
  PciDevice.config_read_at d x =
    Returns (PciCapabilities.emulate_read (PciDeviceCommon.capabilities (PciDevice.common d)) x (PciDevice.registers d)).
Proof. intros Hx. region_decide. done. Qed.
Lemma config_read_extended (d : PciDevice.t H) x : 256 ≤ x → PciDevice.config_read_at d x = Returns (PushDword (not32 0)).
Proof. intros Hx. region_decide. done. Qed.

Lemma common_read_coherent (d : PciDevice.t H) x : info_wf (PciDevice.info d) → 0 ≤ x < 16 →
  ∃ a, PciDevice.config_read_at d x = Returns a ∧ access_wf a
    ∧ ∀ x', x ≤ x' < x - x mod access_size a + access_size a → PciDevice.config_read_at d x' = Returns a.
Proof using HWL.
  intros [Hc Hs] Hx. unfold PciDevice.config_read_at, PCI_CAPS_START, PCI_TYPE_HEADER_START, PCI_TYPE_HEADER_END,
    PCI_CONFIG_SPACE_END, PCI_COMMON_HEADER_END.
  pose proof (reg_get_byte CommonRegisters "rev_id" (PciDevice.registers d) eq_refl).
  pose proof (reg_get_byte CommonRegisters "prog_if" (PciDevice.registers d) eq_refl).
  pose proof (reg_get_byte CommonRegisters "header_type" (PciDevice.registers d) eq_refl).
  coherent_chain_out.
Qed.

Lemma config_read_coherent (d : PciDevice.t H) : device_wf d → enumerated d → coherent (PciDevice.config_read_at d).
Proof using HWL.
  intros (Hi & Hcaps & _) He x Hx0. destruct (decide (x < 16)); [by apply common_read_coherent|].
  destruct (decide (x < 64)); [|destruct (decide (x < 256))].
  - assert (∃ a, match d with
        | PciDevice.Endpoint ep => Returns (PciEndpoint.emulate_config_read ep x)
        | PciDevice.Bridge b => PciBridge.emulate_config_read b x end = Returns a ∧ access_wf a ∧
        ∀ x', x ≤ x' < x - x mod access_size a + access_size a →
          match d with
          | PciDevice.Endpoint ep => Returns (PciEndpoint.emulate_config_read ep x')
          | PciDevice.Bridge b => PciBridge.emulate_config_read b x' end = Returns a) as (a & Ha & Hwf & Hsame).
    { destruct d as [ep|b]; [|apply bridge_read_coherent; [done|lia]].
      destruct (endpoint_read_coherent ep x) as (a & <- & Hwf & Hsame); [lia|].
      eexists. split; [done|]. split; [done|]. intros x' Hx'. by rewrite Hsame. }
    exists a. rewrite config_read_type by lia. split; [done|]. split; [done|]. intros x' Hx'.
    pose proof (block_of_register _ _ _ Hx'). rewrite config_read_type by mod_lia. by apply Hsame.
  - destruct (caps_read_coherent (PciDeviceCommon.capabilities (PciDevice.common d)) (PciDevice.registers d) x)
      as [Hwf Hsame]; [done|unfold PCI_CONFIG_SPACE_END; lia|].
    eexists. rewrite config_read_caps by lia. split; [done|]. split; [done|]. intros x' Hx'.
    destruct (Hsame x' Hx') as [<- Hlt]. unfold PCI_CONFIG_SPACE_END in Hlt. by rewrite config_read_caps by lia.
  - exists (PushDword (not32 0)). rewrite config_read_extended by lia. split_and!; [done..|].
    intros x' Hx'. rewrite config_read_extended by lia. done.
Qed.
End devices.

(** ** The capability list *)
(** Every capability points to the next one, the last one to nothing. *)
Fixpoint linked (caps : PciCapabilities.t) : Prop :=
  match caps with
  | [] => True
  | [c] => PciCapability.next c = 0
  | c :: ((d :: _) as caps') => PciCapability.next c = PciCapability.offset d ∧ linked caps'
  end.
(** No two capabilities overlap. *)
Definition separate (caps : PciCapabilities.t) : Prop :=
  ForallOrdPairs (λ c e, PciCapability.offset c + PciCapability.length c ≤ PciCapability.offset e
    ∨ PciCapability.offset e + PciCapability.length e ≤ PciCapability.offset c) caps.

Lemma link_linked caps : Forall (λ c, PciCapability.next c = 0) caps → linked (PciCapabilities.link caps).
Proof.
  induction 1 as [|c caps Hc Hcaps IH]; [done|]. destruct caps as [|d caps]; [done|].
  destruct caps as [|e caps]; cbn in *; [by split|]. by split.
Qed.
Lemma link_wf caps : Forall cap_wf caps → Forall cap_wf (PciCapabilities.link caps).
Proof.
  induction 1 as [|c caps Hc Hcaps IH]; [done|]. destruct caps as [|d caps]; [by constructor|].
  by constructor.
Qed.

Section walk.
Context `{HWL : ConfigHwLaws H} `{RFL : RegisterFieldsLaws}.

Lemma capability_new_wf i off (h : H) c : off mod 4 = 0 → PCI_CAPS_START ≤ off < PCI_CONFIG_SPACE_END →
  PciCapability.new i off h = Ok c → cap_wf c ∧ PciCapability.next c = 0.
Proof.
  intros Ho Hr. unfold PciCapability.new.
  destruct (match i with CapabilityId.Vendor => _ | _ => _ end) as [ty|] eqn:E; [|done]. intros [= <-].
  split; [|done]. split_and!; [done|apply Hr..|]. cbn. destruct i; simplify_eq/=; try done.
  - unfold Msi_new in E. by case_match; simplify_eq.
  - unfold Vendor_new in E. revert E. change (size_of VendorCapabilityHeader) with 4.
    destruct ((_ <? 4) || _) eqn:El; [done|]. intros [= <-]. cbn. lia.
  - unfold PciExpress_new in E. repeat case_match; by simplify_eq.
Qed.

Lemma parse_wf fuel off caps (h : H) caps' : off mod 4 = 0 →
  Forall cap_wf caps → Forall (λ c, PciCapability.next c = 0) caps →
  PciCapabilities.parse fuel off caps h = Some (Ok caps') →
  Forall cap_wf caps' ∧ Forall (λ c, PciCapability.next c = 0) caps'.
Proof using HWL.
  revert off caps. induction fuel as [|fuel IH]; intros off caps Ho Hwf Hz; cbn.
  { case_match; [done|]. intros [= <-]. done. }
  destruct ((PCI_TYPE_HEADER_END <? off) && (off <? PCI_CONFIG_SPACE_END)) eqn:Hr; [|by intros [= <-]].
  assert (Z.land (reg_get off CapabilityHeader "next_cap" h) (not64 3) mod 4 = 0) as Hn.
  { change 3 with (2 ^ 2 - 1). rewrite land_not64_mask; [change (2 ^ 2) with 4; mod_lia| |lia].
    unfold reg_get. change (Reg.width _) with 1. pose proof (cfg_read_byte (off + Reg.offset (Reg.at_field CapabilityHeader "next_cap")) h).
    unfold u64. lia. }
  destruct (CapabilityId.from_raw _) as [i|]; [|by apply IH].
  destruct (PciCapability.new i off h) as [c|] eqn:Ec; [|done]. case_match; [|done].
  apply capability_new_wf in Ec as [Hc Hc0]; [|done|unfold PCI_CAPS_START; lia].
  apply IH; [done|..]; apply list.Forall_app; (split; [done|by apply list.Forall_singleton]).
Qed.

(** The capabilities of a device are linked and well formed. *)
Lemma capabilities_new_wf off (h : H) caps : off mod 4 = 0 → PciCapabilities.new off h = Returns (Ok caps) →
  Forall cap_wf caps ∧ linked caps.
Proof using HWL.
  intros Ho. unfold PciCapabilities.new. destruct (PciCapabilities.parse _ _ _ _) as [[cs|]|] eqn:E; [|done..].
  intros [= <-]. apply parse_wf in E as [Hwf Hz]; [|done..]. split; [by apply link_wf|by apply link_linked].
Qed.

(** A read of one byte. *)
Lemma read_one_byte (d : PciDevice.t H) o a : 0 ≤ o → PciDevice.config_read_at d o = Returns a → access_wf a →
  PciDevice.emulate_config_read o 1 d = Returns (access_byte a o).
Proof.
  intros Ho Ha Hwf. unfold PciDevice.emulate_config_read, MmioReadBuilder.new. change (Z.to_nat 1) with 1%nat.
  cbn [PciDevice.read_loop]. unfold MmioReadBuilder.done_ at 1. cbn [MmioReadBuilder.written MmioReadBuilder.len Z.eqb
    MmioReadBuilder.offset]. rewrite Ha. cbn [mbind outcome_bind].
  assert (0 < access_size a) as Hs by (destruct a; done). pose proof (Z.mod_pos_bound o _ Hs).
  assert (Z.to_nat (Z.min (access_size a - (o + Z.of_nat 0) mod access_size a) (Z.of_nat (1 - 0))) = 1%nat) as En.
  { rewrite Z.add_0_r. lia. }
  pose proof (push_access_spec a o 0 1 (λ _, access_byte a o) Hwf Ho ltac:(lia)) as Hp. cbv zeta in Hp. rewrite En in Hp.
  destruct Hp as [Hp _]; [intros j Hj; f_equal; lia|].
  change (Z.of_nat 0) with 0 in Hp. rewrite Z.add_0_r in Hp. cbn [le_word] in Hp. change (Z.of_nat 1) with 1 in Hp.
  rewrite Hp. cbn. by rewrite Z.shiftl_0_r.
Qed.
End walk.
