(* ===== verification/PciGuestView.v ===== *)
(** * What a VM finds in the configuration space of a device

    The theorems on emulated reads and writes of a single device, and the hardware
    and register-field instances that the examples use. *)
From Stdlib Require Import ZifyBool.
From stdpp Require Import strings.
From S2P Require Import Prelude RiscvPages Tracker PciRegs PciCaps PciSpaces PciDevices PciConfigFacts.
Local Open Scope string_scope.
Local Open Scope list_scope.
Local Open Scope Z_scope.

Lemma cap_length_min c : type_wf c → 4 ≤ cap_length c.
Proof.
  destruct c as [|[]| |n| |v d]; cbn [type_wf]; unfold cap_length; eval_layouts; try lia.
  repeat case_match; lia.
Qed.

(** With separate capabilities, an offset belongs to the capability around it. *)
Lemma find_own caps c x : separate caps → c ∈ caps →
  PciCapability.offset c ≤ x < PciCapability.offset c + PciCapability.length c →
  PciCapabilities.capability_by_offset x caps = Some c.
Proof.
  unfold PciCapabilities.capability_by_offset, separate. intros Hs Hc Hx.
  induction Hs as [|e caps He Hs IH]; [by apply not_elem_of_nil in Hc|]. cbn.
  apply elem_of_cons in Hc as [->|Hc]; [by replace ((_ <=? x) && _) with true by lia|].
  rewrite Forall_forall in He. specialize (He c ltac:(by apply list_elem_of_In)).
  replace ((_ <=? x) && _) with false by lia. by apply IH.
Qed.

Abbreviation caps_of d := (PciDeviceCommon.capabilities (PciDevice.common d)).
(** The raw id and the offset of a capability. *)
Definition cap_view (c : PciCapability.t) : Z * Z := (CapabilityId.raw (PciCapability.id c), PciCapability.offset c).
(** The hypervisor knows the capability. *)
Definition known (c : Z * Z) : Prop := is_Some (CapabilityId.from_raw c.1).
#[export] Instance known_dec c : Decision (known c).
Proof. unfold known. apply _. Defined.
Definition CAP_PTR : Z := 52.

Section walk.
Context `{HWL : ConfigHwLaws H} `{RFL : RegisterFieldsLaws}.

(** What a driver in a VM does: it follows the pointers, one byte at a time. *)
Fixpoint walk (fuel : nat) (d : PciDevice.t H) (ptr : Z) : outcome (list (Z * Z)) :=
  if ptr =? 0 then Returns []
  else match fuel with
       | O => Panics
       | S fuel =>
           i ← PciDevice.emulate_config_read ptr 1 d;
           next ← PciDevice.emulate_config_read (ptr + 1) 1 d;
           rest ← walk fuel d next;
           Returns ((i, ptr) :: rest)
       end.
Definition find_capabilities (d : PciDevice.t H) : outcome (list (Z * Z)) :=
  ptr ← PciDevice.emulate_config_read CAP_PTR 1 d;
  walk PciCapabilities.MAX_PCI_CAPS d ptr.

Lemma read_header_bytes (d : PciDevice.t H) c :
  Forall cap_wf (caps_of d) → separate (caps_of d) → c ∈ caps_of d →
  PciDevice.emulate_config_read (PciCapability.offset c) 1 d = Returns (CapabilityId.raw (PciCapability.id c))
  ∧ PciDevice.emulate_config_read (PciCapability.offset c + 1) 1 d = Returns (wrap8 (PciCapability.next c)).
Proof.
  intros Hwf Hs Hc. pose proof (proj1 (list.Forall_forall _ _) Hwf c Hc) as (Ho & Hr & Ht).
  pose proof (cap_length_min _ Ht) as Hlen. unfold PCI_CAPS_START, PCI_TYPE_HEADER_END, PCI_CONFIG_SPACE_END in Hr.
  assert (∀ x v, 0 ≤ v < 256 → PciCapability.offset c ≤ x ≤ PciCapability.offset c + 1 →
    PciCapability.emulate_read c x (PciDevice.registers d) = PushByte v →
    PciDevice.emulate_config_read x 1 d = Returns v) as Hread.
  { intros x v Hv Hx E. rewrite (read_one_byte d x (PushByte v)); [done|lia| |done].
    rewrite config_read_caps by lia. unfold PciCapabilities.emulate_read.
    rewrite (find_own _ c) by (try done; unfold PciCapability.length; lia). by rewrite E. }
  split; (apply Hread; [|lia|]).
  - destruct (PciCapability.id c); done.
  - unfold PciCapability.emulate_read. eval_layouts. by rewrite Z.sub_diag.
  - apply wrap8_byte.
  - unfold PciCapability.emulate_read. eval_layouts. by replace (_ + 1 - _) with 1 by lia.
Qed.

Lemma walk_linked (d : PciDevice.t H) caps fuel :
  Forall cap_wf (caps_of d) → separate (caps_of d) → linked caps → (∀ c, c ∈ caps → c ∈ caps_of d) →
  (length caps ≤ fuel)%nat →
  walk fuel d (PciCapabilities.start_offset caps)
  = Returns (cap_view <$> caps).
Proof.
  intros Hwf Hs. revert caps. induction fuel as [|fuel IH]; intros caps Hl Hin Hlen.
  { by destruct caps; [|cbn in Hlen; lia]. }
  destruct caps as [|c caps]; [done|]. cbn [walk PciCapabilities.start_offset].
  assert (c ∈ caps_of d) as Hc by (apply Hin; by left).
  pose proof (proj1 (list.Forall_forall _ _) Hwf c Hc) as (Ho & Hr & Ht).
  unfold PCI_CAPS_START, PCI_TYPE_HEADER_END in Hr. replace (_ =? 0) with false by lia.
  destruct (read_header_bytes d c Hwf Hs Hc) as [-> ->]. cbn [mbind outcome_bind].
  assert (wrap8 (PciCapability.next c) = PciCapabilities.start_offset caps ∧ linked caps) as [-> Hl'].
  { destruct caps as [|e caps]; cbn in Hl.
    - by rewrite Hl.
    - destruct Hl as [-> Hl]. split; [|done]. cbn.
      pose proof (proj1 (list.Forall_forall _ _) Hwf e (Hin e ltac:(by right; left))) as (_ & He & _).
      unfold PCI_CAPS_START, PCI_TYPE_HEADER_END, PCI_CONFIG_SPACE_END in He.
      unfold wrap8. apply Z.mod_small. lia. }
  rewrite IH; [done|done| |cbn in Hlen; lia]. intros e He. apply Hin. by right.
Qed.

(** The list in the hardware: the raw ids with their offsets. *)
Fixpoint hw_chain (fuel : nat) (off : Z) (h : H) : option (list (Z * Z)) :=
  if (PCI_TYPE_HEADER_END <? off) && (off <? PCI_CONFIG_SPACE_END) then
    match fuel with
    | O => None
    | S fuel =>
        l ← hw_chain fuel (Z.land (cfg_read 1 (off + 1) h) (not64 3)) h;
        Some ((cfg_read 1 off h, off) :: l)
    end
  else Some [].
Lemma from_raw_raw z i : CapabilityId.from_raw z = Some i → CapabilityId.raw i = z.
Proof. unfold CapabilityId.from_raw. repeat case_match; intros [= <-]; cbn; lia. Qed.

Lemma new_view i off (h : H) c : PciCapability.new i off h = Ok c → cap_view c = (CapabilityId.raw i, off).
Proof. unfold PciCapability.new. case_match; [|done]. by intros [= <-]. Qed.

Lemma parse_view fuel off caps (h : H) caps' : (length caps ≤ PciCapabilities.MAX_PCI_CAPS)%nat →
  PciCapabilities.parse fuel off caps h = Some (Ok caps') →
  (length caps' ≤ PciCapabilities.MAX_PCI_CAPS)%nat ∧
  ∃ l, hw_chain fuel off h = Some l ∧ cap_view <$> caps' = (cap_view <$> caps) ++ filter known l.
Proof.
  revert off caps. induction fuel as [|fuel IH]; intros off caps Hlen; cbn [PciCapabilities.parse hw_chain];
    (destruct ((_ <? off) && _); [|intros [= <-]; split; [done|]; eexists; split; [done|]; by rewrite app_nil_r]); [done|].
  unfold reg_get. eval_layouts. rewrite Z.add_0_r.
  destruct (CapabilityId.from_raw (cfg_read 1 off h)) as [i|] eqn:Ei.
  - destruct (PciCapability.new i off h) as [c|] eqn:Ec; [|done]. destruct (decide _) as [Hd|]; [|done]. intros E.
    apply IH in E as (Hlen' & l & -> & Hl); [|rewrite length_app; cbn; lia]. split; [done|]. eexists. split; [done|].
    rewrite Hl, fmap_app, <-app_assoc. f_equal. rewrite filter_cons_True by (unfold known; cbn; by rewrite Ei).
    cbn. f_equal. apply new_view in Ec. cbn in Ec. rewrite Ec. by rewrite (from_raw_raw _ _ Ei).
  - intros E. apply IH in E as (Hlen' & l & -> & Hl); [|done]. split; [done|]. eexists. split; [done|].
    rewrite Hl. f_equal. rewrite filter_cons_False; [done|]. unfold known. cbn. rewrite Ei. by intros [? ?].
Qed.

Lemma link_view caps : cap_view <$> PciCapabilities.link caps = cap_view <$> caps.
Proof. induction caps as [|c [|d caps] IH]; [done..|]. cbn in *. by f_equal. Qed.

(** The capabilities that [new] returns are the known ones of the list. *)
Lemma capabilities_new_view off (h : H) caps : PciCapabilities.new off h = Returns (Ok caps) →
  (length caps ≤ PciCapabilities.MAX_PCI_CAPS)%nat ∧
  ∃ l, hw_chain PciCapabilities.PARSE_FUEL off h = Some l ∧ cap_view <$> caps = filter known l.
Proof.
  unfold PciCapabilities.new. destruct (PciCapabilities.parse _ _ _ _) as [[cs|]|] eqn:E; [|done..]. intros [= <-].
  apply parse_view in E as (Hlen & l & Hl & Hv); [|cbn; lia]. split.
  - rewrite <-(length_fmap cap_view), link_view, length_fmap. done.
  - exists l. by rewrite link_view.
Qed.

(** Only the registers from the capability pointer on matter. *)
Lemma hw_chain_same fuel off (h h' : H) : (∀ o, 64 ≤ o → cfg_read 1 o h' = cfg_read 1 o h) →
  hw_chain fuel off h' = hw_chain fuel off h.
Proof.
  intros Hh. revert off. induction fuel as [|fuel IH]; intros off; cbn; [done|]. unfold PCI_TYPE_HEADER_END.
  destruct ((_ <? off) && _) eqn:E; [|done]. rewrite !Hh by lia. by rewrite IH.
Qed.
End walk.
