(* ===== verification/PciProbeFacts.v ===== *)
(** * Devices as they are found at boot

    Probing the BARs of a function and creating its [PciDevice] give a well-formed
    device and touch only the registers that they write. *)
From Stdlib Require Import ZifyBool.
From stdpp Require Import strings.
From S2P Require Import Prelude RiscvPages Tracker PciRegs PciCaps PciSpaces PciDevices PciConfigFacts PciGuestView.
Local Open Scope string_scope.
Local Open Scope list_scope.
Local Open Scope Z_scope.

Lemma bar_offset_eq i : bar_offset i = 16 + 4 * Z.of_nat i.
Proof. done. Qed.

Section probe.
Context `{HWL : ConfigHwLaws H} `{RFL : RegisterFieldsLaws}.

(** Two states of the hardware agree outside of the bytes from [lo] to [hi]. *)
Definition agree_outside (lo hi : Z) (h h' : H) : Prop :=
  ∀ w o, 0 < w → o + w ≤ lo ∨ hi ≤ o → cfg_read w o h' = cfg_read w o h.
Lemma agree_refl lo hi h : agree_outside lo hi h h.
Proof. by intros w o _ _. Qed.
Lemma agree_trans lo hi h1 h2 h3 : agree_outside lo hi h1 h2 → agree_outside lo hi h2 h3 → agree_outside lo hi h1 h3.
Proof. intros H12 H23 w o Hw Ho. by rewrite H23, H12. Qed.
Lemma agree_weaken lo hi lo' hi' h h' : lo' ≤ lo → hi ≤ hi' → agree_outside lo hi h h' → agree_outside lo' hi' h h'.
Proof. intros Hlo Hhi Ha w o Hw Ho. apply Ha; [done|lia]. Qed.
Lemma agree_write w o v h : 0 < w → agree_outside o (o + w) h (cfg_write w o v h).
Proof using HWL. intros Hw w' o' Hw' Ho'. apply cfg_write_frame; lia. Qed.

Lemma probe_bits_spec i h : ∃ h', PciDeviceBarInfo.probe_bits i h = Returns (Ok (bar_get i (bar_set i (not32 0) h)), h')
  ∧ agree_outside (bar_offset i) (bar_offset i + 4) h h'.
Proof using HWL.
  eexists. split; [reflexivity|]. eapply agree_trans; apply agree_write; lia.
Qed.

(** The BARs found before register [index]. *)
Definition bars_before (n index : nat) (bars : PciDeviceBarInfo.t) : Prop :=
  Forall (bar_wf n) bars ∧ bars_apart bars ∧ Forall (λ b, (bar_end b ≤ index)%nat) bars.
Lemma bars_before_mono n i j bars : (i ≤ j)%nat → bars_before n i bars → bars_before n j bars.
Proof. intros Hij (Hw & Ha & Hb). split_and!; [done..|]. eapply list.Forall_impl; [exact Hb|]. cbn. lia. Qed.
Lemma bars_apart_app bars b : bars_apart bars → Forall (λ b', (bar_end b' ≤ PciBarInfo.index b)%nat) bars →
  bars_apart (bars ++ [b]).
Proof.
  induction 1 as [|c bars Hc Hbars IH]; intros Hb; cbn; [by repeat constructor|].
  apply list.Forall_cons in Hb as [Hcb Hb]. constructor; [|by apply IH].
  rewrite Forall_app. split; [done|by repeat constructor].
Qed.
Lemma bars_before_app n i b bars : bars_before n (PciBarInfo.index b) bars → bar_wf n b → (bar_end b ≤ i)%nat →
  bars_before n i (bars ++ [b]).
Proof.
  intros (Hw & Ha & Hb) Hwf He. split_and!.
  - apply list.Forall_app. split; [done|by apply list.Forall_singleton].
  - by apply bars_apart_app.
  - apply list.Forall_app. split; [|by apply list.Forall_singleton].
    eapply list.Forall_impl; [exact Hb|]. cbn. intros c Hc. unfold bar_end in He. case_match; lia.
Qed.

(** The loop ends, its BARs are registers of the device, and it touches nothing else. *)
Lemma probe_spec n fuel index bars h :
  (n ≤ PCI_ENDPOINT_BARS)%nat → Nat.Even n → (n - index ≤ fuel)%nat → (length bars ≤ index)%nat →
  bars_before n index bars →
  ∃ r h', PciDeviceBarInfo.probe fuel n index bars h = Returns (r, h')
    ∧ agree_outside 16 (16 + 4 * Z.of_nat n) h h' ∧ ∀ bars', r = Ok bars' → Forall (bar_wf n) bars' ∧ bars_apart bars'.
Proof using HWL.
  intros Hn Heven. revert index bars h. induction fuel as [|fuel IH]; intros index bars h Hf Hlen Hwf;
    cbn [PciDeviceBarInfo.probe]; destruct (decide (index < n)%nat) as [Hi|Hi]; try lia.
  1,3: exists (Ok bars), h; split_and!; [done|apply agree_refl|]; intros ? [= <-]; split; apply Hwf.
  destruct (probe_bits_spec index h) as (h1 & Hp1 & Ha1).
  erewrite bind_ok by reflexivity. erewrite bind_ok by exact Hp1.
  set (ty := ResourceType.from_bar_register (bar_get index h)). set (val := bar_get index _).
  assert (agree_outside 16 (16 + 4 * Z.of_nat n) h h1) as Ha1'.
  { eapply agree_weaken; [| |exact Ha1]; rewrite bar_offset_eq; lia. }
  assert (∀ bars2 next h2, agree_outside 16 (16 + 4 * Z.of_nat n) h1 h2 → (index < next)%nat →
    (length bars2 ≤ next)%nat → bars_before n next bars2 →
    ∃ r h', PciDeviceBarInfo.probe fuel n next bars2 h2 = Returns (r, h')
      ∧ agree_outside 16 (16 + 4 * Z.of_nat n) h h'
      ∧ ∀ bars', r = Ok bars' → Forall (bar_wf n) bars' ∧ bars_apart bars') as Hrest.
  { intros bars2 next h2 Ha2 Hnext Hlen2 Hwf2. destruct (IH next bars2 h2) as (r & h' & -> & Ha & Hr); [lia|done..|].
    exists r, h'. split_and!; [done| |done]. eapply agree_trans; [|exact Ha]. by eapply agree_trans. }
  destruct (val =? 0).
  { apply Hrest; [apply agree_refl|lia..|]. apply (bars_before_mono n index); [lia|done]. }
  assert (∀ hi next h2, agree_outside 16 (16 + 4 * Z.of_nat n) h1 h2 →
    next = bar_end (PciBarInfo.mk index ty 0) → (ResourceType.is_64bit ty = true → (S index < n)%nat) →
    ∃ r h', (let size := wrap64 (not64 (Z.lor (Z.land val (not32 (Z.shiftl 1 (Field.shift (fld BaseAddress "Address")) - 1)))
                                        (Z.shiftl hi 32)) + 1) in
      if negb (is_power_of_two size) then err (PciError.InvalidBarSize size)
      else bars ← of_outcome (push_cap PCI_ENDPOINT_BARS (PciBarInfo.mk index ty size) bars);
           PciDeviceBarInfo.probe fuel n next bars) h2 = Returns (r, h')
      ∧ agree_outside 16 (16 + 4 * Z.of_nat n) h h'
      ∧ ∀ bars', r = Ok bars' → Forall (bar_wf n) bars' ∧ bars_apart bars') as Hpush.
  { intros hi next h2 Ha2 Hnext Hty. cbv zeta. set (size := wrap64 _).
    destruct (is_power_of_two size) eqn:Hpow; cbn [negb].
    - unfold push_cap. rewrite decide_True by lia. erewrite bind_ok by reflexivity.
      apply Hrest; [done| |rewrite length_app; cbn|].
      1,2: unfold bar_end in Hnext; cbn in Hnext; case_match; lia.
      apply bars_before_app; [done| |rewrite Hnext; done]. split_and!; [done..|apply wrap64_u64].
    - eexists _, _. split; [reflexivity|]. split; [by eapply agree_trans|done]. }
  unfold bar_end in Hpush. cbn in Hpush. destruct (ResourceType.is_64bit ty) eqn:H64.
  - destruct (Nat.even index) eqn:Hev; cbn [negb].
    + apply Nat.even_spec in Hev as [q Hq]. destruct Heven as [m Hm]. rewrite decide_True by lia.
      destruct (probe_bits_spec (S index) h1) as (h2 & Hp2 & Ha2).
      erewrite bind_ok by (erewrite bind_ok by exact Hp2; reflexivity).
      apply Hpush; [|lia..]. eapply agree_weaken; [| |exact Ha2]; rewrite bar_offset_eq; lia.
    + eexists _, _. split; [reflexivity|]. split; done.
  - erewrite bind_ok by reflexivity. apply Hpush; [apply agree_refl|lia|done].
Qed.

(** A device that was just created from the function with registers [h]. *)
Record fresh (info : PciDeviceInfo.t) (h : H) (d : PciDevice.t H) : Prop := {
  fresh_wf : device_wf d;
  fresh_info : PciDevice.info d = info;
  fresh_owner : PciDevice.owner d = None;
  fresh_attached : PciDevice.iommu_attached d = false;
  fresh_registers : agree_outside 16 64 h (PciDevice.registers d);
  fresh_linked : linked (caps_of d);
  fresh_length : (length (caps_of d) ≤ PciCapabilities.MAX_PCI_CAPS)%nat;
  fresh_caps : ∃ l, hw_chain PciCapabilities.PARSE_FUEL (cfg_read 1 CAP_PTR h) h = Some l
    ∧ cap_view <$> caps_of d = filter known l;
}.

Lemma reg_set_agree l name v h : 0 < Reg.width (Reg.at_field l name) → 16 ≤ Reg.offset (Reg.at_field l name) →
  Reg.offset (Reg.at_field l name) + Reg.width (Reg.at_field l name) ≤ 64 → agree_outside 16 64 h (reg_set 0 l name v h).
Proof using HWL. intros Hw Hlo Hhi. eapply agree_weaken; [| |by apply agree_write]; lia. Qed.

(** The parts of [new] that both kinds of devices share, from registers [h1] on. *)
Lemma new_parts info h h1 n caps (r : result PciError.t PciDeviceBarInfo.t) h2 bars :
  info_wf info → cfg_read 1 CAP_PTR h mod 4 = 0 → agree_outside 16 64 h h1 → cfg_read 1 CAP_PTR h1 = cfg_read 1 CAP_PTR h →
  (n = PCI_ENDPOINT_BARS ∨ n = PCI_BRIDGE_BARS) →
  PciCapabilities.new (cfg_read 1 CAP_PTR h1) h1 = Returns (Ok caps) →
  PciDeviceBarInfo.new n h1 = Returns (r, h2) → r = Ok bars →
  ∀ d, PciDevice.common d = PciDeviceCommon.new info caps bars → PciDevice.registers d = h2 → PciDevice.bar_count d = n →
  fresh info h d.
Proof using HWL.
  intros Hi Hp Ha Hcp Hn Hcaps Hbars -> d Hc Hr Hbc. rewrite Hcp in Hcaps.
  destruct (capabilities_new_wf _ _ _ Hp Hcaps) as [Hwf Hl].
  destruct (capabilities_new_view _ _ _ Hcaps) as (Hlen & l & Hchain & Hview).
  destruct (probe_spec n n 0 [] h1) as (r' & h' & E & Ha2 & Hb);
    [destruct Hn as [-> | ->]; unfold PCI_BRIDGE_BARS, PCI_ENDPOINT_BARS; lia|destruct Hn as [-> | ->]; [by exists 3%nat|by exists 1%nat]|lia|done|by repeat constructor|].
  unfold PciDeviceBarInfo.new in Hbars. rewrite E in Hbars. injection Hbars as -> ->.
  assert (caps_of d = caps) as Hcd by (by rewrite Hc).
  split; rewrite ?Hcd.
  - unfold device_wf, PciDevice.info, PciDevice.bar_info. rewrite Hbc, Hc. cbn. destruct (Hb _ eq_refl). split_and!; done.
  - unfold PciDevice.info. by rewrite Hc.
  - unfold PciDevice.owner. by rewrite Hc.
  - unfold PciDevice.iommu_attached. by rewrite Hc.
  - rewrite Hr. eapply agree_trans; [done|]. eapply agree_weaken; [| |exact Ha2]; [lia|].
    destruct Hn as [-> | ->]; unfold PCI_BRIDGE_BARS, PCI_ENDPOINT_BARS; lia.
  - done.
  - done.
  - exists l. split; [|done]. rewrite <-Hchain. symmetry. apply hw_chain_same. intros o Ho. apply Ha; lia.
Qed.

Lemma new_fresh info h d : info_wf info → cfg_read 1 CAP_PTR h mod 4 = 0 →
  PciDevice.new info h = Returns (Ok d) → fresh info h d.
Proof using HWL.
  intros Hi Hp. unfold PciDevice.new. destruct (PciDeviceInfo.header_type info); [| |done..].
  - unfold PciEndpoint.new. change (reg_get 0 EndpointRegisters "cap_ptr" h) with (cfg_read 1 CAP_PTR h).
    destruct (PciCapabilities.new _ h) as [[caps|]|] eqn:Ec; [|done..]. cbn [mbind outcome_bind].
    destruct (PciDeviceBarInfo.new PCI_ENDPOINT_BARS h) as [[[bars|] h2]|] eqn:Eb; [|done..]. intros [= <-].
    eapply (new_parts info h h PCI_ENDPOINT_BARS); first [done | apply agree_refl | by left].
  - unfold PciBridge.new, PciBridge.implemented. cbv zeta.
    set (h1 := reg_set 0 BridgeRegisters "pref_limit" 0 _).
    assert (agree_outside 16 64 h h1) as Ha.
    { unfold h1. repeat (eapply agree_trans; [|apply reg_set_agree; vm_compute; congruence]). apply agree_refl. }
    assert (cfg_read 1 CAP_PTR h1 = cfg_read 1 CAP_PTR h) as Hcp.
    { unfold h1, reg_set. eval_layouts. rewrite !cfg_write_frame by (unfold CAP_PTR; lia). done. }
    change (reg_get 0 BridgeRegisters "cap_ptr" h1) with (cfg_read 1 CAP_PTR h1).
    destruct (PciCapabilities.new _ h1) as [[caps|]|] eqn:Ec; [|done..]. cbn [mbind outcome_bind].
    destruct (PciDeviceBarInfo.new PCI_BRIDGE_BARS h1) as [[[bars|] h2]|] eqn:Eb; [|done..]. intros [= <-].
    eapply (new_parts info h h1 PCI_BRIDGE_BARS); first [done | by right].
Qed.

Lemma read_from_wf a h info : PciDeviceInfo.read_from a h = Some info →
  info_wf info ∧ PciDeviceInfo.address info = a.
Proof using HWL.
  unfold PciDeviceInfo.read_from. case_match; [done|]. intros [= <-]. split; [|done].
  split; cbn; by apply reg_get_byte.
Qed.

Lemma read_cap_ptr (d : PciDevice.t H) : Forall cap_wf (caps_of d) →
  PciDevice.emulate_config_read CAP_PTR 1 d = Returns (PciCapabilities.start_offset (caps_of d)).
Proof using HWL.
  intros Hwf. rewrite (read_one_byte d CAP_PTR (PushByte (wrap8 (PciCapabilities.start_offset (caps_of d)))));
    [|done| |apply wrap8_byte].
  - f_equal. cbn. unfold wrap8. apply Z.mod_small. inversion Hwf as [|c cs Hc _ Heq]; cbn; [lia|].
    destruct Hc as (_ & Hr & _). unfold PCI_CAPS_START, PCI_TYPE_HEADER_END, PCI_CONFIG_SPACE_END in Hr. lia.
  - rewrite config_read_type by done. destruct d as [ep|b]; [reflexivity|].
    unfold PciBridge.emulate_config_read. eval_layouts. reflexivity.
Qed.
End probe.

(** A VM finds the capabilities that the hypervisor knows.  When a device has
    been created from a function whose capability pointer is a multiple of 4 and
    whose capabilities do not overlap, the list that a VM finds by following the
    pointers through the emulation is the list in the hardware, in the same order,
    without the capabilities that are not emulated. *)
Theorem guest_finds_capabilities `{HWL : ConfigHwLaws H} `{RFL : RegisterFieldsLaws} a (h : H) info d :
  PciDeviceInfo.read_from a h = Some info → PciDevice.new info h = Returns (Ok d) →
  cfg_read 1 CAP_PTR h mod 4 = 0 → separate (caps_of d) →
  ∃ l, hw_chain PciCapabilities.PARSE_FUEL (cfg_read 1 CAP_PTR h) h = Some l
    ∧ find_capabilities d = Returns (filter known l).
Proof.
  intros Hi Hd Hp Hs. apply read_from_wf in Hi as [Hi _].
  destruct (new_fresh info h d Hi Hp Hd) as [(_ & Hwf & _ & _) _ _ _ _ Hl Hlen (l & Hchain & Hview)].
  exists l. split; [done|]. unfold find_capabilities. rewrite read_cap_ptr by done. cbn [mbind outcome_bind].
  rewrite (walk_linked d) by done. by rewrite Hview.
Qed.

(** C20: The emulated configuration space is an array of bytes.  However the accesses
    are split into registers, a read of up to four bytes at any offset returns the
    bytes of one array from that offset on, least significant byte first. *)
Theorem config_space_is_byte_array `{HWL : ConfigHwLaws H} `{RFL : RegisterFieldsLaws} (d : PciDevice.t H) :
  device_wf d → enumerated d →
  ∃ bytes : Z → Z, (∀ o, 0 ≤ o → 0 ≤ bytes o < 256) ∧
    ∀ off (len : nat), 0 ≤ off → (len ≤ 4)%nat →
      PciDevice.emulate_config_read off (Z.of_nat len) d = Returns (le_word (λ i, bytes (off + i)) len).
Proof.
  intros Hwf He. pose proof (config_read_coherent d Hwf He) as Hc.
  exists (byte_of (PciDevice.config_read_at d)). split; [intros o Ho; by apply byte_of_bound|].
  intros off len Hoff Hlen. by apply emulate_config_read_spec.
Qed.

(** ** An example: a function with a 64-bit BAR and five capabilities *)
Definition of_dwords (l : list (Z * Z)) : gmap Z Z :=
  foldr (λ '(o, v) m, <[o := byte_at v 0]> (<[o + 1 := byte_at v 1]> (<[o + 2 := byte_at v 2]> (<[o + 3 := byte_at v 3]> m))))
    ∅ l.
Definition example_hw : MemHw.t :=
  MemHw.mk
    (of_dwords [(0, 0x10411af4); (8, 0x02000000); (52, 0x40);
       (0x40, 0x00004801); (0x44, 0xdeadbeef);
       (0x48, 0x00035411); (0x4c, 2); (0x50, 4);
       (0x54, 0xaaaa6003);
       (0x60, 0x00029c10); (0x64, 2); (0x68, 0x2840);
       (0x9c, 0x00040009)])
    (of_dwords [(16, 0xc)])
    (of_dwords [(16, 0xffffc000); (24, 0); (28, 0); (32, 0); (36, 0)]).
Definition example_info : PciDeviceInfo.t :=
  match PciDeviceInfo.read_from 0 example_hw with
  | Some i => i
  | None => PciDeviceInfo.mk 0 0 0 0 0 false HeaderType.Endpoint
  end.
Definition example_device : PciDevice.t MemHw.t :=
  match PciDevice.new example_info example_hw with
  | Returns (Ok d) => d
  | _ => PciDevice.Endpoint (PciEndpoint.mk example_hw (PciDeviceCommon.new example_info [] []))
  end.

Lemma example_separate : separate (caps_of example_device).
Proof.
  unfold separate. let l := eval vm_compute in (caps_of example_device) in change (caps_of example_device) with l.
  repeat first [apply FOP_nil | apply FOP_cons | apply List.Forall_nil | apply List.Forall_cons]; left; by vm_compute.
Qed.
Lemma guest_finds_capabilities_witness :
  find_capabilities example_device = Returns [(1, 64); (17, 72); (16, 96); (9, 156)].
Proof.
  destruct (guest_finds_capabilities 0 example_hw example_info example_device) as (l & Hl & Hf);
    [vm_compute; reflexivity..|apply example_separate|].
  rewrite Hf. vm_compute in Hl. injection Hl as <-. vm_compute. reflexivity.
Defined.
Lemma example_device_new : PciDevice.new example_info example_hw = Returns (Ok example_device).
Proof. vm_compute. reflexivity. Qed.
Lemma example_device_wf : device_wf example_device.
Proof.
  apply (fresh_wf example_info example_hw). apply new_fresh; [by vm_compute|by vm_compute|apply example_device_new].
Qed.
Lemma config_space_is_byte_array_witness :
  ∃ bytes : Z → Z, PciDevice.emulate_config_read 0 4 example_device = Returns (le_word (λ i, bytes (0 + i)) 4)
    ∧ PciDevice.emulate_config_read 2 1 example_device = Returns (le_word (λ i, bytes (2 + i)) 1).
Proof.
  destruct (config_space_is_byte_array example_device example_device_wf I) as (bytes & _ & Hr). exists bytes.
  split; [apply (Hr 0 4%nat); lia|apply (Hr 2 1%nat); lia].
Defined.

(** A write of a VM to the device control register of PCI Express, whatever its value
    and even of the other byte, sets the payload and read request sizes to zero, which
    the VM is not meant to write. *)
Theorem device_control_write_clears_sizes `{HW : ConfigHw H} `{RFL : RegisterFieldsLaws} (h : H) c off dt lc :
  PciCapability.cap_type c = CapabilityType.PciExpress dt lc → 8 ≤ off - PciCapability.offset c < 10 →
  ∃ old k, PciCapability.emulate_write c off h = PopWord old k ∧
    ∀ v, ∃ w, k v = Returns (cfg_write 2 (PciCapability.offset c + 8) w h)
      ∧ field_read (fld DeviceControl "MaxPayloadSize") w = 0 ∧ field_read (fld DeviceControl "MaxReadRequestSize") w = 0.
Proof.
  intros Hc Ho. unfold PciCapability.emulate_write. rewrite Hc. cbn [type_write]. unfold PciExpress_write, rmw_masked, reg_get, reg_set.
  eval_layouts. set (x := off - PciCapability.offset c) in *.
  repeat (replace (_ && _) with false by lia). cbn [orb].
  replace ((8 <=? x) && _) with true by lia. eexists _, _. split; [done|]. intros v. eexists. split; [done|].
  assert (Masks.writeable DeviceControl_masks = 0x810) as Hm.
  { unfold DeviceControl_masks, set_fields. cbn [fold_left Masks.writeable]. rewrite !field_modify_spec. by vm_compute. }
  unfold writeable_bits. rewrite !field_read_spec, Hm. by split; rewrite Z.shiftr_land, <-Z.land_assoc; apply Z.land_0_r.
Qed.
Definition example_express : PciCapability.t :=
  PciCapability.mk CapabilityId.PciExpress 0x60 0x9c (CapabilityType.PciExpress 2 PciExpressDeviceType.Endpoint).
Lemma device_control_write_clears_sizes_witness :
  caps_of example_device !! 2%nat = Some example_express ∧ cfg_read 2 0x68 example_hw = 0x2840
    ∧ ∃ old k, PciCapability.emulate_write example_express 0x69 example_hw = PopWord old k
        ∧ ∃ w, k 0x2840 = Returns (cfg_write 2 (PciCapability.offset example_express + 8) w example_hw)
            ∧ field_read (fld DeviceControl "MaxPayloadSize") w = 0.
Proof.
  split; [vm_compute; reflexivity|]. split; [vm_compute; reflexivity|].
  destruct (device_control_write_clears_sizes example_hw example_express 0x69 _ _ eq_refl) as (old & k & E & Hk); [cbn; lia|].
  exists old, k. split; [exact E|]. destruct (Hk 0x2840) as (w & Hw & Hp & _). exists w. split; [exact Hw|exact Hp].
Defined.
