(* ===== verification/PciParseFacts.v ===== *)
(** * The loop over a capability list

    [PciCapabilities::new] follows the pointers of the device until one leaves the
    configuration space.  The fuel of the model is enough to tell whether it ends. *)
From Stdlib Require Import ZifyBool ListDec.
From stdpp Require Import strings.
From S2P Require Import Prelude RiscvPages Tracker PciRegs PciCaps PciSpaces PciDevices PciConfigFacts PciProbeFacts.
Local Open Scope string_scope.
Local Open Scope list_scope.
Local Open Scope Z_scope.
Import PciCapabilities(parse, MAX_PCI_CAPS, PARSE_FUEL).

Section parse.
Context `{HWL : ConfigHwLaws H} `{RF : RegisterFields}.
Variable h : H.

(** The pointer at an offset, and the offsets that the loop visits. *)
Definition next_offset (off : Z) : Z := Z.land (cfg_read 1 (off + 1) h) (not64 3).
Definition visited (i : nat) (off : Z) : Z := Nat.iter i next_offset off.
Definition live (off : Z) : Prop := PCI_TYPE_HEADER_END < off < PCI_CONFIG_SPACE_END.
(** An offset at which the loop goes on and adds nothing. *)
Definition skipped (off : Z) : Prop := live off ∧ CapabilityId.from_raw (cfg_read 1 off h) = None.

Lemma visited_S i off : visited (S i) off = visited i (next_offset off).
Proof. unfold visited. by rewrite Nat.iter_succ_r. Qed.
Lemma visited_add i j off : visited (i + j) off = visited i (visited j off).
Proof. unfold visited. by rewrite Nat.iter_add. Qed.
Lemma parse_step fuel off caps : parse fuel off caps h =
  if decide (live off) then
    match fuel with
    | O => None
    | S fuel =>
        match CapabilityId.from_raw (cfg_read 1 off h) with
        | Some i =>
            match PciCapability.new i off h with
            | Err e => Some (Err e)
            | Ok cap =>
                if decide (length caps < MAX_PCI_CAPS)%nat then parse fuel (next_offset off) (caps ++ [cap]) h
                else Some (Err PciError.TooManyCapabilities)
            end
        | None => parse fuel (next_offset off) caps h
        end
    end
  else Some (Ok caps).
Proof.
  unfold live. destruct fuel; cbn [parse]; unfold reg_get, next_offset; eval_layouts; rewrite ?Z.add_0_r;
    (destruct (decide (PCI_TYPE_HEADER_END < off < PCI_CONFIG_SPACE_END)); [replace (_ && _) with true by lia|replace (_ && _) with false by lia]); done.
Qed.

Lemma parse_mono n m off caps : (n ≤ m)%nat → parse m off caps h = None → parse n off caps h = None.
Proof.
  revert m off caps. induction n as [|n IH]; intros m off caps Hm;
    rewrite (parse_step m), parse_step; (destruct (decide (live off)); [|done]); [done|].
  destruct m as [|m]; [lia|]. destruct (CapabilityId.from_raw _); [|apply IH; lia].
  destruct (PciCapability.new _ _ _); [|done]. destruct (decide _); [apply IH; lia|done].
Qed.

(** Aligned offsets of capabilities: there are 48 of them. *)
Definition cap_offsets : list Z := (λ k, 64 + 4 * Z.of_nat k) <$> seq 0 48.
Lemma next_in_offsets off : live (next_offset off) → next_offset off ∈ cap_offsets.
Proof using HWL.
  unfold live, PCI_TYPE_HEADER_END, PCI_CONFIG_SPACE_END. intros Hl. apply list_elem_of_fmap.
  assert (next_offset off mod 4 = 0) as Hm.
  { unfold next_offset. pose proof (cfg_read_bound 1 (off + 1) h ltac:(lia)) as Hb. change (2 ^ (8 * 1)) with 256 in Hb.
    rewrite (land_not64_mask _ 2) by (unfold u64; lia). change (2 ^ 2) with 4. rewrite Zminus_mod, Zmod_mod, Z.sub_diag. done. }
  exists (Z.to_nat ((next_offset off - 64) / 4)). pose proof (Z.div_mod (next_offset off) 4 ltac:(lia)).
  replace (next_offset off - 64) with ((next_offset off / 4 - 16) * 4) by lia. rewrite Z.div_mul by lia.
  split; [lia|]. apply elem_of_seq. lia.
Qed.

(** Two of the first fifty offsets are the same. *)
Lemma visited_repeats off : (∀ i, (i < 50)%nat → skipped (visited i off)) →
  ∃ i j, (i < j < 50)%nat ∧ visited i off = visited j off.
Proof using HWL.
  intros Hs. set (l := (λ i, visited i off) <$> seq 1 49).
  destruct (decide (NoDup l)) as [Hnd|Hd].
  { exfalso. assert (l ⊆+ cap_offsets) as Hl%submseteq_length; [|by vm_compute in Hl; lia].
    apply NoDup_submseteq; [done|]. intros x (i & -> & Hi%elem_of_seq)%list_elem_of_fmap.
    destruct i as [|i]; [lia|]. apply next_in_offsets, (Hs (S i)). lia. }
  rewrite NoDup_ListNoDup in Hd. destruct (not_NoDup Z.eq_decidable Hd) as (x & l1 & l2 & l3 & E).
  assert (∀ i y, l !! i = Some y → (i < 49)%nat ∧ y = visited (S i) off) as Hl.
  { unfold l. intros i y. rewrite list_lookup_fmap. destruct (seq 1 49 !! i) as [k|] eqn:Ek; [|done].
    apply lookup_seq in Ek as [-> Hi]. intros [= <-]. done. }
  assert (l !! length l1 = Some x) as H1 by (rewrite E; by apply list_lookup_middle).
  assert (l !! (length l1 + S (length l2))%nat = Some x) as H2.
  { rewrite E, lookup_app_r by lia. replace (_ - _)%nat with (S (length l2)) by lia. cbn. by apply list_lookup_middle. }
  apply Hl in H1 as [Hi1 H1], H2 as [Hi2 H2]. exists (S (length l1)), (S (length l1 + S (length l2))). split; [lia|]. congruence.
Qed.
(** So a loop that skips fifty offsets skips forever. *)
Lemma skipped_forever off : (∀ i, (i < 50)%nat → skipped (visited i off)) → ∀ n, skipped (visited n off).
Proof using HWL.
  intros Hs. destruct (visited_repeats off Hs) as (i & j & Hij & E). intros n. induction n as [n IH] using lt_wf_ind.
  destruct (decide (n < 50)%nat); [by apply Hs|].
  replace n with ((n - j) + j)%nat by lia. rewrite visited_add, <-E, <-visited_add. apply IH. lia.
Qed.
Lemma skipped_never_ends off caps : (∀ n, skipped (visited n off)) → ∀ fuel, parse fuel off caps h = None.
Proof.
  intros Hs fuel. revert off Hs. induction fuel as [|fuel IH]; intros off Hs; rewrite parse_step;
    destruct (Hs 0%nat) as [Hl Hn]; cbn in Hl, Hn; (rewrite decide_True by done); [done|].
  rewrite Hn. apply IH. intros n. rewrite <-visited_S. apply Hs.
Qed.

(** A run that goes on skips its first [j] offsets, or adds a capability among them. *)
Lemma skips_or_adds j fuel off caps : (j ≤ fuel)%nat → parse fuel off caps h = None →
  (∀ i, (i < j)%nat → skipped (visited i off)) ∨
  ∃ off' caps', length caps' = S (length caps) ∧ (length caps' ≤ MAX_PCI_CAPS)%nat ∧ parse (fuel - j) off' caps' h = None
    ∧ ((∀ n, parse n off' caps' h = None) → ∀ n, parse n off caps h = None).
Proof.
  revert fuel off. induction j as [|j IH]; intros fuel off Hj Hp; [left; intros; lia|].
  destruct fuel as [|fuel]; [lia|]. rewrite parse_step in Hp. destruct (decide (live off)) as [Hl|]; [|done].
  destruct (CapabilityId.from_raw (cfg_read 1 off h)) as [i|] eqn:Ei.
  - right. destruct (PciCapability.new i off h) as [c|] eqn:Ec; [|done]. destruct (decide (length caps < MAX_PCI_CAPS)%nat) as [Hd|]; [|done].
    exists (next_offset off), (caps ++ [c]). rewrite length_app. cbn [length]. split; [lia|]. split; [lia|].
    split; [eapply parse_mono; [|exact Hp]; lia|]. intros Hn n. rewrite parse_step, decide_True by done. destruct n; [done|].
    by rewrite Ei, Ec, decide_True.
  - destruct (IH fuel (next_offset off)) as [Hs|(off' & caps' & H1' & H2' & H3' & H4')]; [lia|done| |].
    + left. intros [|i] Hi; [by split|]. rewrite visited_S. apply Hs. lia.
    + right. exists off', caps'. split; [done|]. split; [done|]. split; [eapply parse_mono; [|exact H3']; lia|].
      intros Hn n. rewrite parse_step, decide_True by done. destruct n; [done|]. rewrite Ei. by apply H4'.
Qed.

Lemma parse_forever room fuel off caps : (length caps + room = MAX_PCI_CAPS)%nat → (50 * S room ≤ fuel)%nat →
  parse fuel off caps h = None → ∀ n, parse n off caps h = None.
Proof using HWL.
  revert fuel off caps. induction room as [|room IH]; intros fuel off caps Hr Hf Hp;
    (destruct (skips_or_adds 50 fuel off caps) as [Hs|(off' & caps' & Hl & Hm & Hp' & Hk)];
      [lia|done|by apply skipped_never_ends, skipped_forever|]).
  - lia.
  - apply Hk. apply (IH (fuel - 50)%nat); [lia|lia|done].
Qed.
End parse.

(** The loop over the capability list of a device either ends within [PARSE_FUEL] turns
    or never: with at most 48 aligned offsets and at most eight capabilities, a loop that
    goes on runs in a circle without a known capability. *)
Theorem parse_fuel_is_enough `{HWL : ConfigHwLaws H} `{RF : RegisterFields} (h : H) off :
  parse PARSE_FUEL off [] h = None → ∀ fuel, parse fuel off [] h = None.
Proof. apply (parse_forever h MAX_PCI_CAPS); unfold MAX_PCI_CAPS, PARSE_FUEL; cbn; lia. Qed.
(** A capability of unknown type that points to itself. *)
Definition looping_hw : MemHw.t := MemHw.mk (of_dwords [(0x40, 0x40ff)]) ∅ ∅.
Lemma parse_fuel_is_enough_witness :
  parse PARSE_FUEL 0x40 [] looping_hw = None ∧ ∀ fuel, parse fuel 0x40 [] looping_hw = None.
Proof. split; [vm_compute; reflexivity|]. apply (parse_fuel_is_enough looping_hw 0x40). vm_compute. reflexivity. Defined.
