(* ===== verification/PciSafety.v ===== *)
(** * What a VM can make a device do

    Every emulated write keeps a device safe: memory and I/O decoding is on only
    while every BAR and window is over pages of the VM, and bus mastering is on only
    while the device is behind the IOMMU. *)
From Stdlib Require Import ZifyBool.
From stdpp Require Import strings.
From S2P Require Import Prelude RiscvPages Tracker PciRegs PciCaps PciSpaces PciDevices PciConfigFacts PciProbeFacts.
Local Open Scope string_scope.
Local Open Scope list_scope.
Local Open Scope Z_scope.
Import PciResourceType(IoPort).

(** ** The two address spaces of a device *)
Inductive space := IoSpace | MemSpace.
Definition in_space (sp : space) (b : PciBarInfo.t) : Prop :=
  match sp with IoSpace => PciBarInfo.bar_type b = IoPort | MemSpace => PciBarInfo.bar_type b ≠ IoPort end.
Definition enable_bit (sp : space) : string := match sp with IoSpace => "IoEnable" | MemSpace => "MemoryEnable" end.
(** The registers of the windows of a bridge. *)
Definition window_regs (sp : space) : list string :=
  match sp with
  | IoSpace => ["io_base"; "io_limit"; "io_base_upper"; "io_limit_upper"]
  | MemSpace => ["mem_base"; "mem_limit"; "pref_base"; "pref_limit"; "pref_base_upper"; "pref_limit_upper"]
  end.

(** What never changes in a device: its kind, the common part, the windows it has. *)
Definition shape {H} (d : PciDevice.t H) : PciDeviceCommon.t * option (bool * bool) :=
  (PciDevice.common d,
   match d with
   | PciDevice.Bridge b => Some (PciBridge.has_io_window b, PciBridge.has_pref_window b)
   | PciDevice.Endpoint _ => None
   end).

Lemma shape_common {H} (d d' : PciDevice.t H) : shape d' = shape d → PciDevice.common d' = PciDevice.common d.
Proof. by intros [=]. Qed.
Lemma shape_count {H} (d d' : PciDevice.t H) : shape d' = shape d → PciDevice.bar_count d' = PciDevice.bar_count d.
Proof. destruct d, d'; cbn; intros [=]; done. Qed.
Lemma shape_wf {H} (d d' : PciDevice.t H) : shape d' = shape d → device_wf d → device_wf d'.
Proof.
  intros Hs. unfold device_wf, PciDevice.info, PciDevice.bar_info.
  by rewrite (shape_count _ _ Hs), (shape_common _ _ Hs).
Qed.

Lemma bar_end_gt b : (PciBarInfo.index b < bar_end b)%nat.
Proof. unfold bar_end. case_match; lia. Qed.

(** A BAR is found under its own index. *)
Lemma get_own bars b : bars_apart bars → b ∈ bars → PciDeviceBarInfo.get (PciBarInfo.index b) bars = Some b.
Proof.
  unfold PciDeviceBarInfo.get. intros Ha Hb. induction Ha as [|c bars Hc Ha IH]; [by apply not_elem_of_nil in Hb|]. cbn.
  apply elem_of_cons in Hb as [->|Hb]; [by rewrite bool_decide_eq_true_2|].
  rewrite Forall_forall in Hc. specialize (Hc b ltac:(by apply list_elem_of_In)). pose proof (bar_end_gt c).
  rewrite bool_decide_eq_false_2 by lia. by apply IH.
Qed.

(** A register of a BAR has the type of that BAR. *)
Lemma index_to_type_own bars b i : bars_apart bars → b ∈ bars → (PciBarInfo.index b ≤ i < bar_end b)%nat →
  PciDeviceBarInfo.index_to_type i bars = Some (PciBarInfo.bar_type b).
Proof.
  unfold PciDeviceBarInfo.index_to_type. intros Ha Hb Hi.
  assert (∀ c, bool_decide (PciBarInfo.index c = i)
      || (bool_decide (S (PciBarInfo.index c) = i) && ResourceType.is_64bit (PciBarInfo.bar_type c)) = true
      ↔ (PciBarInfo.index c ≤ i < bar_end c)%nat) as Hin.
  { intros c. unfold bar_end. rewrite orb_true_iff, andb_true_iff, !bool_decide_eq_true.
    destruct (ResourceType.is_64bit (PciBarInfo.bar_type c)); split; [lia|lia|intros [?|[??]]; [lia|done]|lia]. }
  induction Ha as [|c bars Hc Ha IH]; [by apply not_elem_of_nil in Hb|]. cbn.
  apply elem_of_cons in Hb as [->|Hb]; [by rewrite (proj2 (Hin c))|].
  rewrite Forall_forall in Hc. specialize (Hc b ltac:(by apply list_elem_of_In)).
  destruct (_ || _) eqn:E; [apply Hin in E; lia|]. by apply IH.
Qed.

(** Whatever is popped, the access returns and its result has the property. *)
Definition access_ensures {S} (P : S → Prop) (a : write_access S) : Prop :=
  match a with
  | PopByte k | PopWord _ k => ∀ v, 0 ≤ v → ∃ s, k v = Returns s ∧ P s
  | PopDword _ k => ∀ v, ∃ s, k v = Returns s ∧ P s
  end.
Lemma access_ensures_impl {S} (P Q : S → Prop) a : (∀ s, P s → Q s) → access_ensures P a → access_ensures Q a.
Proof.
  intros HPQ. destruct a; cbn.
  1,2: intros Ha v Hv; destruct (Ha v Hv) as (s & -> & Hs); eauto.
  intros Ha v; destruct (Ha v) as (s & -> & Hs); eauto.
Qed.
Lemma map_access_ensures {S T} (f : S → T) (P : T → Prop) a :
  access_ensures (λ s, P (f s)) a → access_ensures P (map_access f a).
Proof.
  destruct a; cbn.
  1,2: intros Ha v Hv; destruct (Ha v Hv) as (s & -> & Hs); cbn; eauto.
  intros Ha v; destruct (Ha v) as (s & -> & Hs); cbn; eauto.
Qed.
Lemma pop_nothing_ensures {S} (P : S → Prop) s : P s → access_ensures P (pop_nothing s).
Proof. intros Hs v _. eauto. Qed.

Section checks.
Context `{HWL : ConfigHwLaws H} `{RFL : RegisterFieldsLaws}.
Implicit Types (d : PciDevice.t H) (h : H).

Definition can_enable (sp : space) d (ctx : MmioEmulationContext.t) : outcome (result PciError.t unit) :=
  match sp with IoSpace => PciDevice.can_enable_io_space d ctx | MemSpace => PciDevice.can_enable_mem_space d ctx end.

(** The registers that the check of a space reads are the same. *)
Definition space_same (sp : space) d d' : Prop :=
  (∀ b i, b ∈ PciDevice.bar_info d → in_space sp b → (PciBarInfo.index b ≤ i < bar_end b)%nat →
     bar_get i (PciDevice.registers d') = bar_get i (PciDevice.registers d))
  ∧ (PciDevice.bar_count d = PCI_BRIDGE_BARS → ∀ name, name ∈ window_regs sp →
       reg_get 0 BridgeRegisters name (PciDevice.registers d') = reg_get 0 BridgeRegisters name (PciDevice.registers d)).

Lemma get_bar_addr_ok d b : device_wf d → b ∈ PciDevice.bar_info d →
  PciDevice.get_bar_addr (PciBarInfo.index b) d =
    Returns (Ok (Z.lor (Z.land (bar_get (PciBarInfo.index b) (PciDevice.registers d))
                          (not32 (Z.shiftl 1 (Field.shift (fld BaseAddress "Address")) - 1)))
      (Z.shiftl (if ResourceType.is_64bit (PciBarInfo.bar_type b)
                 then bar_get (S (PciBarInfo.index b)) (PciDevice.registers d) else 0) 32))).
Proof.
  intros (_ & _ & Hw & Ha) Hb. unfold PciDevice.get_bar_addr. rewrite (get_own _ b Ha Hb).
  rewrite list.Forall_forall in Hw. destruct (Hw b Hb) as (Hi & H64 & _).
  unfold PciDevice.bar_reg. rewrite (decide_True _ _ Hi). cbn [mbind outcome_bind].
  destruct (ResourceType.is_64bit (PciBarInfo.bar_type b)); [|done]. by rewrite (decide_True _ _ (H64 eq_refl)).
Qed.

(** What the check of a BAR comes to. *)
Lemma bar_assignment_ok d b ctx : device_wf d → b ∈ PciDevice.bar_info d →
  ∃ addr, PciDevice.get_bar_addr (PciBarInfo.index b) d = Returns (Ok addr)
    ∧ PciDevice.bar_assignment_is_valid d ctx b = Returns (range_is_valid addr (PciBarInfo.size b) ctx).
Proof.
  intros Hwf Hb. eexists. split; [by apply get_bar_addr_ok|].
  unfold PciDevice.bar_assignment_is_valid. by rewrite get_bar_addr_ok.
Qed.

Lemma try_for_each_returns {A} (f : A → outcome (result PciError.t unit)) l :
  (∀ x, x ∈ l → ∃ r, f x = Returns r) → ∃ r, try_for_each f l = Returns r.
Proof.
  induction l as [|x l IH]; intros Hf; cbn; [eauto|]. destruct (Hf x ltac:(by left)) as [[u|e] ->]; cbn; [|eauto].
  apply IH. intros y Hy. apply Hf. by right.
Qed.
Lemma try_for_each_ok {A} (f : A → outcome (result PciError.t unit)) l :
  try_for_each f l = Returns (Ok tt) ↔ ∀ x, x ∈ l → f x = Returns (Ok tt).
Proof.
  induction l as [|x l IH]; cbn; [split; [intros _ y Hy; by apply not_elem_of_nil in Hy|done]|].
  destruct (f x) as [[[]|e]|] eqn:E; cbn.
  - rewrite IH. split; [intros Hl y [->|Hy]%elem_of_cons; auto|]. intros Hl y Hy. apply Hl. by right.
  - split; [done|]. intros Hl. specialize (Hl x ltac:(by left)). congruence.
  - split; [done|]. intros Hl. specialize (Hl x ltac:(by left)). congruence.
Qed.
Lemma try_for_each_ext {A} (f g : A → outcome (result PciError.t unit)) l :
  (∀ x, x ∈ l → f x = g x) → try_for_each f l = try_for_each g l.
Proof.
  induction l as [|x l IH]; intros Hf; cbn; [done|]. rewrite (Hf x) by (by left).
  destruct (g x) as [[|]|]; cbn; try done. apply IH. intros y Hy. apply Hf. by right.
Qed.

Lemma can_enable_returns sp d ctx : device_wf d → ∃ r, can_enable sp d ctx = Returns r.
Proof.
  intros Hwf. assert (∀ (P : PciBarInfo.t → Prop) `{∀ b, Decision (P b)},
    ∃ r, try_for_each (PciDevice.bar_assignment_is_valid d ctx) (filter P (PciDevice.bar_info d)) = Returns r) as Hr.
  { intros P ?. apply try_for_each_returns. intros b [_ Hb]%list_elem_of_filter.
    destruct (bar_assignment_ok d b ctx Hwf Hb) as (a & _ & ->). eauto. }
  destruct sp; unfold can_enable, PciDevice.can_enable_io_space, PciDevice.can_enable_mem_space;
    edestruct Hr as [r ->]; cbn; eauto.
Qed.

Lemma bar_assignment_same sp d d' ctx b : device_wf d → shape d' = shape d → space_same sp d d' →
  b ∈ PciDevice.bar_info d → in_space sp b →
  PciDevice.bar_assignment_is_valid d' ctx b = PciDevice.bar_assignment_is_valid d ctx b.
Proof.
  intros Hwf Hs [Hsame _] Hb Hsp. unfold PciDevice.bar_assignment_is_valid.
  assert (b ∈ PciDevice.bar_info d') as Hb' by (unfold PciDevice.bar_info; by rewrite (shape_common _ _ Hs)).
  rewrite !get_bar_addr_ok by eauto using shape_wf. pose proof (bar_end_gt b) as He.
  rewrite (Hsame b (PciBarInfo.index b)) by (done || lia).
  destruct (ResourceType.is_64bit (PciBarInfo.bar_type b)) eqn:E; [|done].
  rewrite (Hsame b (S (PciBarInfo.index b))); [done..|]. unfold bar_end. rewrite E. lia.
Qed.

Lemma windows_same sp (b b' : PciBridge.t H) :
  shape (PciDevice.Bridge b') = shape (PciDevice.Bridge b) → space_same sp (PciDevice.Bridge b) (PciDevice.Bridge b') →
  match sp with
  | IoSpace => PciBridge.get_io_window b' = PciBridge.get_io_window b
  | MemSpace => PciBridge.get_mem_window b' = PciBridge.get_mem_window b
                ∧ PciBridge.get_pref_window b' = PciBridge.get_pref_window b
  end.
Proof.
  clear HWL RFL. intros Hs [_ Hw]. specialize (Hw eq_refl). cbn [PciDevice.registers] in Hw. injection Hs as _ Hio Hpref.
  destruct sp; cbn [window_regs] in Hw.
  - unfold PciBridge.get_io_window. rewrite Hio. rewrite !Hw by set_solver. done.
  - unfold PciBridge.get_mem_window, PciBridge.get_pref_window. rewrite Hpref. rewrite !Hw by set_solver. done.
Qed.

Lemma can_enable_same sp d d' ctx : device_wf d → shape d' = shape d → space_same sp d d' →
  can_enable sp d' ctx = can_enable sp d ctx.
Proof.
  intros Hwf Hs Hsame.
  assert (∀ (P : PciBarInfo.t → Prop) `{∀ b, Decision (P b)}, (∀ b, P b → in_space sp b) →
    try_for_each (PciDevice.bar_assignment_is_valid d' ctx) (filter P (PciDevice.bar_info d'))
    = try_for_each (PciDevice.bar_assignment_is_valid d ctx) (filter P (PciDevice.bar_info d))) as Hbars.
  { intros P ? HP. unfold PciDevice.bar_info at 1. rewrite (shape_common _ _ Hs). apply try_for_each_ext.
    intros b [Hp Hb]%list_elem_of_filter. by apply (bar_assignment_same sp); [..|apply HP]. }
  destruct sp; unfold can_enable, PciDevice.can_enable_io_space, PciDevice.can_enable_mem_space;
    rewrite Hbars by done; destruct d as [ep|b], d' as [ep'|b']; try done;
    pose proof (windows_same _ b b' Hs Hsame) as Hw; cbn in Hw.
  - by rewrite Hw.
  - destruct Hw as [-> ->]. done.
Qed.

(** ** The safety of a device *)
Definition enabled (sp : space) d : bool := is_set (fld Command (enable_bit sp)) (command_of (PciDevice.registers d)).
Definition dma_enabled d : bool := is_set (fld Command "BusMasterEnable") (command_of (PciDevice.registers d)).
(** The invariant of a device that a VM owns. *)
Definition config_safe (ctx : MmioEmulationContext.t) d : Prop :=
  (∀ sp, enabled sp d = true → can_enable sp d ctx = Returns (Ok tt))
  ∧ (dma_enabled d = true → PciDevice.iommu_attached d = true).

(** A single-bit field of COMMAND. *)
Lemma command_bit_testbit name k r : fld Command name = Field.mk k 1 → 0 ≤ k → is_set (fld Command name) r = Z.testbit r k.
Proof using RFL.
  intros Hf Hk. unfold is_set. rewrite field_read_spec, Hf. cbn [Field.shift Field.mask Field.numbits].
  unfold Field.mask. cbn [Field.numbits]. rewrite Z.land_ones, Z.shiftr_div_pow2 by lia. change (2 ^ 1) with 2.
  destruct (Z.eqb_spec ((r / 2 ^ k) mod 2) 0) as [E|E].
  - symmetry. by apply Z.testbit_false.
  - symmetry. apply Z.testbit_true; [done|]. pose proof (Z.mod_pos_bound (r / 2 ^ k) 2). lia.
Qed.

Definition bit_of (sp : space) : Z := match sp with IoSpace => 0 | MemSpace => 1 end.
Lemma enabled_testbit sp d : enabled sp d = Z.testbit (command_of (PciDevice.registers d)) (bit_of sp).
Proof using RFL. unfold enabled. destruct sp; by apply command_bit_testbit. Qed.
Lemma dma_enabled_testbit d : dma_enabled d = Z.testbit (command_of (PciDevice.registers d)) 2.
Proof using RFL. by apply command_bit_testbit. Qed.

(** The guarded bit stays only if it is allowed, and no bit is added. *)
Lemma guard_bit_spec name k allowed ok reg : fld Command name = Field.mk k 1 → 0 ≤ k → allowed = Returns ok →
  ∃ reg', PciDevice.guard_bit name allowed reg = Returns reg' ∧ (Z.testbit reg' k = true → ok = true)
    ∧ ∀ i, 0 ≤ i → Z.testbit reg' i = true → Z.testbit reg i = true.
Proof using RFL.
  intros Hf Hk ->. unfold PciDevice.guard_bit. rewrite (command_bit_testbit name k) by done.
  destruct (Z.testbit reg k) eqn:E; [|exists reg; split_and!; [done|congruence|done]]. cbn [mbind outcome_bind].
  destruct ok; [by exists reg|]. eexists. split; [done|].
  assert (∀ i, 0 ≤ i → Z.testbit (field_modify (fld Command name) 0 reg) i = Z.testbit reg i && negb (i =? k)) as Hbit.
  { intros i Hi. rewrite field_modify_spec, Hf. cbn [Field.shift]. unfold Field.mask. cbn [Field.numbits].
    rewrite Z.land_0_l, Z.shiftl_0_l, Z.lor_0_r, Z.ldiff_spec. change (Z.ones 1) with 1.
    by rewrite testbit_shiftl1. }
  split; [rewrite Hbit, Z.eqb_refl, andb_false_r by done; done|].
  intros i Hi. rewrite Hbit by done. intros [? _]%andb_true_iff. done.
Qed.

Lemma is_ok_true (r : result PciError.t unit) : is_ok r = true → r = Ok tt.
Proof. by destruct r as [[]|]. Qed.

(** A write to COMMAND sets an enable bit only after its check. *)
Lemma write_command_spec ctx d v : device_wf d → 0 ≤ v →
  ∃ w, PciDevice.write_command ctx d v
       = Returns (PciDevice.set_registers (reg_set 0 CommonRegisters "command" w (PciDevice.registers d)) d)
    ∧ 0 ≤ w ∧ (∀ sp, Z.testbit w (bit_of sp) = true → can_enable sp d ctx = Returns (Ok tt))
    ∧ (Z.testbit w 2 = true → PciDevice.iommu_attached d = true).
Proof using RFL.
  intros Hwf Hv. unfold PciDevice.write_command.
  destruct (can_enable_returns IoSpace d ctx Hwf) as [r0 E0]. destruct (can_enable_returns MemSpace d ctx Hwf) as [r1 E1].
  cbn [can_enable] in E0, E1. rewrite E0, E1. cbn [mbind outcome_bind].
  destruct (guard_bit_spec "IoEnable" 0 (Returns (is_ok r0)) (is_ok r0) v) as (v0 & -> & Hok0 & Hsub0); [done..|].
  cbn [mbind outcome_bind].
  destruct (guard_bit_spec "MemoryEnable" 1 (Returns (is_ok r1)) (is_ok r1) v0) as (v1 & -> & Hok1 & Hsub1); [done..|].
  cbn [mbind outcome_bind].
  destruct (guard_bit_spec "BusMasterEnable" 2 (Returns (PciDevice.iommu_attached d)) (PciDevice.iommu_attached d) v1)
    as (v2 & -> & Hok2 & Hsub2); [done..|].
  eexists. split; [done|]. unfold writeable_bits.
  assert (∀ i, 0 ≤ i → Z.testbit (Z.land v2 (Masks.writeable Command_masks)) i = true → Z.testbit v2 i = true) as Hw.
  { intros i Hi. rewrite Z.land_spec. by intros [? _]%andb_true_iff. }
  split; [|split].
  - apply Z.land_nonneg. right. unfold Command_masks, set_fields. cbn [fold_left Masks.writeable].
    rewrite !field_modify_spec. by vm_compute.
  - intros [] Hb%Hw; cbn [can_enable bit_of] in *; try done.
    + rewrite E0. f_equal. apply is_ok_true, Hok0, Hsub1, Hsub2; done.
    + rewrite E1. f_equal. apply is_ok_true, Hok1, Hsub2; done.
  - intros Hb%Hw; [|done]. by apply Hok2.
Qed.

(** ** One access of a write *)
(** The devices on the bus behind a bridge. *)
Definition child_devices d : option (list BusDevice.t) :=
  match d with PciDevice.Bridge b => PciBus.devices <$> PciBridge.child_bus b | PciDevice.Endpoint _ => None end.
(** What a write of a VM leaves as it was, and that it keeps the device safe. *)
Record written (ctx : MmioEmulationContext.t) d d' : Prop := {
  wr_shape : shape d' = shape d;
  wr_children : child_devices d' = child_devices d;
  wr_safe : config_safe ctx d → config_safe ctx d';
}.
Lemma written_refl ctx d : written ctx d d.
Proof. by split. Qed.
Lemma written_trans ctx d1 d2 d3 : written ctx d1 d2 → written ctx d2 d3 → written ctx d1 d3.
Proof. intros [S1 C1 F1] [S2 C2 F2]. split; [congruence|congruence|auto]. Qed.

Lemma shape_attached d d' : shape d' = shape d → PciDevice.iommu_attached d' = PciDevice.iommu_attached d.
Proof. intros Hs. unfold PciDevice.iommu_attached. by rewrite (shape_common _ _ Hs). Qed.

(** A write that leaves COMMAND alone, and the registers of the enabled spaces. *)
Lemma quiet_safe ctx d d' : device_wf d → shape d' = shape d →
  command_of (PciDevice.registers d') = command_of (PciDevice.registers d) →
  (∀ sp, enabled sp d = true → space_same sp d d') → config_safe ctx d → config_safe ctx d'.
Proof.
  intros Hwf Hs Hc Hsame [Hen Hdma]. unfold config_safe, enabled, dma_enabled in *. rewrite Hc. split.
  - intros sp Hsp. rewrite (can_enable_same sp d d' ctx) by auto. by apply Hen.
  - rewrite (shape_attached d d' Hs). done.
Qed.

Lemma set_registers_shape h d : shape (PciDevice.set_registers h d) = shape d.
Proof. by destruct d. Qed.
Lemma set_registers_children h d : child_devices (PciDevice.set_registers h d) = child_devices d.
Proof. by destruct d. Qed.
Lemma registers_set h d : PciDevice.registers (PciDevice.set_registers h d) = h.
Proof. by destruct d. Qed.

(** The registers of the BARs lie in the header. *)
Lemma bar_register_range d b i : device_wf d → b ∈ PciDevice.bar_info d → (PciBarInfo.index b ≤ i < bar_end b)%nat →
  16 ≤ bar_offset i ∧ bar_offset i + 4 ≤ 16 + 4 * Z.of_nat (PciDevice.bar_count d).
Proof.
  intros (_ & _ & Hw & _) Hb Hi. rewrite list.Forall_forall in Hw. destruct (Hw b Hb) as (Hlt & H64 & _).
  rewrite bar_offset_eq. unfold bar_end in Hi. destruct (ResourceType.is_64bit _); [specialize (H64 eq_refl)|]; lia.
Qed.
Lemma bar_count_max d : (PciDevice.bar_count d ≤ 6)%nat.
Proof. destruct d; cbn; unfold PCI_ENDPOINT_BARS, PCI_BRIDGE_BARS; lia. Qed.

(** Where the window registers are. *)
Definition window_at (sp : space) : list (Z * Z) :=
  (λ n, (Reg.offset (Reg.at_field BridgeRegisters n), Reg.width (Reg.at_field BridgeRegisters n))) <$> window_regs sp.
Lemma window_at_range sp : Forall (λ '(o, w), 28 ≤ o ∧ 0 < w ∧ o + w ≤ 62) (window_at sp).
Proof. destruct sp; vm_compute window_at; repeat constructor; lia. Qed.

(** A write of hardware registers outside of COMMAND and of the registers in question. *)
Lemma space_same_write sp d w o v : device_wf d → 0 < w →
  (∀ b i, b ∈ PciDevice.bar_info d → in_space sp b → (PciBarInfo.index b ≤ i < bar_end b)%nat →
     o + w ≤ bar_offset i ∨ bar_offset i + 4 ≤ o) →
  (PciDevice.bar_count d = PCI_BRIDGE_BARS → Forall (λ '(o', w'), o + w ≤ o' ∨ o' + w' ≤ o) (window_at sp)) →
  space_same sp d (PciDevice.set_registers (cfg_write w o v (PciDevice.registers d)) d).
Proof using HWL.
  intros Hwf Hw Hb Hwin. split; rewrite registers_set.
  - intros b i Hin Hsp Hi. unfold bar_get. apply cfg_write_frame; [done|lia|]. by eapply Hb.
  - intros Hc name Hname. specialize (Hwin Hc). unfold window_at in Hwin. rewrite Forall_fmap, list.Forall_forall in Hwin.
    specialize (Hwin name Hname). cbn in Hwin. pose proof (window_at_range sp) as Hr.
    unfold window_at in Hr. rewrite Forall_fmap, list.Forall_forall in Hr. specialize (Hr name Hname). cbn in Hr.
    unfold reg_get. apply cfg_write_frame; [done|lia|lia].
Qed.
Lemma command_write_other d w o v : 0 < w → 6 ≤ o →
  command_of (PciDevice.registers (PciDevice.set_registers (cfg_write w o v (PciDevice.registers d)) d))
  = command_of (PciDevice.registers d).
Proof using HWL. intros Hw Ho. rewrite registers_set. unfold command_of, reg_get. eval_layouts. apply cfg_write_frame; lia. Qed.

(** A register outside of the type-specific header. *)
Lemma write_outside ctx d w o v : device_wf d → 0 < w → 6 ≤ o → o + w ≤ 16 ∨ 64 ≤ o →
  written ctx d (PciDevice.set_registers (cfg_write w o v (PciDevice.registers d)) d).
Proof using HWL.
  intros Hwf Hw Ho Hr. split; [apply set_registers_shape|apply set_registers_children|].
  apply quiet_safe; [done|apply set_registers_shape|by apply command_write_other|]. intros sp _.
  apply space_same_write; [done|done| |].
  - intros b i Hb _ Hi. pose proof (bar_register_range d b i Hwf Hb Hi). pose proof (bar_count_max d). lia.
  - intros _. eapply list.Forall_impl; [apply window_at_range|]. intros [o' w']. lia.
Qed.

Lemma command_written ctx d w : device_wf d → 0 ≤ w →
  (∀ sp, Z.testbit w (bit_of sp) = true → can_enable sp d ctx = Returns (Ok tt)) →
  (Z.testbit w 2 = true → PciDevice.iommu_attached d = true) →
  written ctx d (PciDevice.set_registers (reg_set 0 CommonRegisters "command" w (PciDevice.registers d)) d).
Proof using HWL RFL.
  intros Hwf Hw Hsp Hdma. set (d' := PciDevice.set_registers _ d).
  assert (∀ i, 0 ≤ i → Z.testbit (command_of (PciDevice.registers d')) i = true → Z.testbit w i = true) as Hsub.
  { intros i Hi Hb. unfold d' in Hb. rewrite registers_set in Hb. unfold command_of, reg_get, reg_set in Hb.
    revert Hb. eval_layouts. intros Hb. pose proof (cfg_write_command w (PciDevice.registers d) Hw) as Hl.
    apply (f_equal (λ z, Z.testbit z i)) in Hl. rewrite Z.ldiff_spec, Z.bits_0 in Hl. change (0 + 4) with 4 in Hb.
    rewrite Hb in Hl. by destruct (Z.testbit w i). }
  assert (∀ sp, space_same sp d d') as Hsame.
  { intros sp. unfold d', reg_set. eval_layouts. apply space_same_write; [done|done| |].
    - intros b i Hb _ Hi. pose proof (bar_register_range d b i Hwf Hb Hi). lia.
    - intros _. eapply list.Forall_impl; [apply window_at_range|]. intros [o' w']. lia. }
  assert (shape d' = shape d) as Hs by apply set_registers_shape.
  split; [done|apply set_registers_children|]. intros _. split.
  - intros sp. rewrite enabled_testbit. intros Hb%Hsub; [|destruct sp; done].
    rewrite (can_enable_same sp d d' ctx) by done. by apply Hsp.
  - rewrite dma_enabled_testbit. intros Hb%Hsub; [|done]. rewrite (shape_attached d d' Hs). by apply Hdma.
Qed.

Lemma bar_written ctx d i v : device_wf d → (i < PciDevice.bar_count d)%nat →
  bar_write_discarded (PciDevice.bar_info d) i (enabled IoSpace d) (enabled MemSpace d) = false →
  written ctx d (PciDevice.set_registers (bar_set i v (PciDevice.registers d)) d).
Proof using HWL.
  intros Hwf Hi Hdis. split; [apply set_registers_shape|apply set_registers_children|].
  apply quiet_safe; [done|apply set_registers_shape|apply command_write_other; rewrite ?bar_offset_eq; lia|].
  intros sp Hen. apply space_same_write; [done|done| |].
  - intros b j Hb Hsp Hj. rewrite !bar_offset_eq. destruct (decide (j = i)) as [->|]; [exfalso|lia].
    unfold bar_write_discarded in Hdis. destruct Hwf as (_ & _ & _ & Ha).
    rewrite (index_to_type_own _ b i Ha Hb Hj) in Hdis. destruct sp; cbn [in_space] in Hsp.
    + rewrite decide_True in Hdis by done. congruence.
    + rewrite decide_False in Hdis by done. congruence.
  - intros Hc. rewrite Hc in Hi. unfold PCI_BRIDGE_BARS in Hi.
    eapply list.Forall_impl; [apply window_at_range|]. intros [o' w']. rewrite bar_offset_eq. lia.
Qed.

(** A register of a bridge behind the bus numbers that is in no window of an enabled space. *)
Lemma bridge_register_written ctx (b : PciBridge.t H) name v :
  device_wf (PciDevice.Bridge b) → 24 ≤ Reg.offset (Reg.at_field BridgeRegisters name) →
  0 < Reg.width (Reg.at_field BridgeRegisters name) →
  (∀ sp, enabled sp (PciDevice.Bridge b) = true →
     Forall (λ '(o', w'), Reg.offset (Reg.at_field BridgeRegisters name) + Reg.width (Reg.at_field BridgeRegisters name) ≤ o'
                          ∨ o' + w' ≤ Reg.offset (Reg.at_field BridgeRegisters name)) (window_at sp)) →
  written ctx (PciDevice.Bridge b)
    (PciDevice.Bridge (PciBridge.set_registers (reg_set 0 BridgeRegisters name v (PciBridge.registers b)) b)).
Proof using HWL.
  intros Hwf Ho Hw Hsp. set (d := PciDevice.Bridge b) in *.
  change (PciDevice.Bridge (PciBridge.set_registers (reg_set 0 BridgeRegisters name v (PciBridge.registers b)) b))
    with (PciDevice.set_registers (cfg_write (Reg.width (Reg.at_field BridgeRegisters name))
            (0 + Reg.offset (Reg.at_field BridgeRegisters name)) v (PciDevice.registers d)) d).
  rewrite Z.add_0_l. split; [apply set_registers_shape|apply set_registers_children|].
  apply quiet_safe; [done|apply set_registers_shape|apply command_write_other; lia|].
  intros sp Hen. apply space_same_write; [done|done| |by auto].
  intros c i Hc _ Hi. pose proof (bar_register_range d c i Hwf Hc Hi) as Hr. change (PciDevice.bar_count d) with 2%nat in Hr. lia.
Qed.

(** The windows of the two spaces are apart. *)
Lemma windows_apart sp sp' name : sp' ≠ sp → name ∈ window_regs sp →
  Forall (λ '(o', w'), Reg.offset (Reg.at_field BridgeRegisters name) + Reg.width (Reg.at_field BridgeRegisters name) ≤ o'
                       ∨ o' + w' ≤ Reg.offset (Reg.at_field BridgeRegisters name)) (window_at sp').
Proof.
  intros Hne Hname. revert name Hname. apply list.Forall_forall.
  destruct sp, sp'; try done; vm_compute window_regs; vm_compute window_at;
    repeat match goal with |- Forall _ _ => constructor end; eval_layouts; lia.
Qed.
Lemma window_written ctx (b : PciBridge.t H) sp name v :
  device_wf (PciDevice.Bridge b) → name ∈ window_regs sp → enabled sp (PciDevice.Bridge b) = false →
  written ctx (PciDevice.Bridge b)
    (PciDevice.Bridge (PciBridge.set_registers (reg_set 0 BridgeRegisters name v (PciBridge.registers b)) b)).
Proof using HWL.
  intros Hwf Hname Hoff.
  pose proof (window_at_range sp) as Hr. unfold window_at in Hr. rewrite Forall_fmap, list.Forall_forall in Hr.
  specialize (Hr name Hname). cbn in Hr. apply bridge_register_written; [done|lia|lia|].
  intros sp' Hen. apply (windows_apart sp); [|done]. intros ->. congruence.
Qed.

(** The write of a capability stays in the region of the capabilities. *)
Definition behind_header h h' : Prop := h' = h ∨ ∃ w o v, 0 < w ∧ 64 ≤ o ∧ h' = cfg_write w o v h.
Lemma reg_set_behind base l name v h : 64 ≤ base → 0 < Reg.width (Reg.at_field l name) →
  0 ≤ Reg.offset (Reg.at_field l name) → behind_header h (reg_set base l name v h).
Proof. intros Hb Hw Ho. right. eexists _, _, _. split_and!; [exact Hw| |done]. lia. Qed.
Lemma caps_write_ensures caps off h : Forall cap_wf caps →
  access_ensures (behind_header h) (PciCapabilities.emulate_write caps off h).
Proof.
  intros Hwf. assert (behind_header h h) as Hsame by (by left).
  unfold PciCapabilities.emulate_write. destruct (PciCapabilities.capability_by_offset off caps) as [c|] eqn:E;
    [|by apply pop_nothing_ensures].
  apply find_cap_in in E as [Hc _]. rewrite list.Forall_forall in Hwf. destruct (Hwf c Hc) as (_ & Hr & _).
  unfold PCI_CAPS_START, PCI_TYPE_HEADER_END in Hr.
  unfold PciCapability.emulate_write, type_write, Msi_write, MsiX_write, PciExpress_write, rmw_masked, rmw_word, rmw_dword.
  repeat case_match; try by apply pop_nothing_ensures.
  all: cbn; intros; eexists; (split; [done|]); apply reg_set_behind; [lia|vm_compute; congruence..].
Qed.

Lemma bar_index_lt off n : 16 ≤ off ≤ 16 + 4 * Z.of_nat n - 1 → (bar_index off < n)%nat.
Proof. intros Ho. unfold bar_index. rewrite bar_offset_eq. cbn. mod_lia. Qed.

Lemma endpoint_write_ensures ctx (ep : PciEndpoint.t H) off : device_wf (PciDevice.Endpoint ep) →
  access_ensures (λ h, written ctx (PciDevice.Endpoint ep) (PciDevice.set_registers h (PciDevice.Endpoint ep)))
    (PciEndpoint.emulate_config_write ep off).
Proof using HWL.
  intros Hwf. set (d := PciDevice.Endpoint ep).
  assert (written ctx d (PciDevice.set_registers (PciEndpoint.registers ep) d)) as Hsame.
  { unfold d. destruct ep. apply written_refl. }
  unfold PciEndpoint.emulate_config_write. destruct (in_span _ _ off) eqn:Hspan; [|by apply pop_nothing_ensures].
  revert Hspan. eval_layouts. intros Hspan v. case_match eqn:Hdis; eexists; (split; [done|]); [done|].
  apply (bar_written ctx d); [done|apply bar_index_lt; change (PciDevice.bar_count d) with 6%nat; lia|done].
Qed.

(** The bus behind a bridge may get other virtual numbers. *)
Lemma virtual_written ctx (b b' : PciBridge.t H) :
  PciBridge.registers b' = PciBridge.registers b → PciBridge.common b' = PciBridge.common b →
  PciBridge.has_io_window b' = PciBridge.has_io_window b → PciBridge.has_pref_window b' = PciBridge.has_pref_window b →
  PciBus.devices <$> PciBridge.child_bus b' = PciBus.devices <$> PciBridge.child_bus b → device_wf (PciDevice.Bridge b) →
  written ctx (PciDevice.Bridge b) (PciDevice.Bridge b').
Proof.
  intros Hr Hc Hio Hpref Hch Hwf.
  assert (shape (PciDevice.Bridge b') = shape (PciDevice.Bridge b)) as Hs by (unfold shape; cbn; congruence).
  split; [done|done|]. apply quiet_safe; [done|done|cbn; by rewrite Hr|]. intros sp _. by split; cbn; rewrite Hr.
Qed.

Lemma window_access_ensures ctx (b : PciBridge.t H) sp name : device_wf (PciDevice.Bridge b) → name ∈ window_regs sp →
  let P := λ b', written ctx (PciDevice.Bridge b) (PciDevice.Bridge b') in
  access_ensures P (PciBridge.window_byte b name (enabled sp (PciDevice.Bridge b)))
  ∧ access_ensures P (PciBridge.window_word b name (enabled sp (PciDevice.Bridge b)))
  ∧ access_ensures P (PciBridge.window_dword b name (enabled sp (PciDevice.Bridge b))).
Proof using HWL.
  intros Hwf Hname P. assert (∀ v, P (if enabled sp (PciDevice.Bridge b) then b
    else PciBridge.set_registers (reg_set 0 BridgeRegisters name v (PciBridge.registers b)) b)) as Hv.
  { intros v. destruct (enabled sp _) eqn:He; [apply written_refl|]. by eapply window_written. }
  split_and!; cbn; eauto.
Qed.

Lemma bridge_write_ensures ctx (b : PciBridge.t H) off :
  device_wf (PciDevice.Bridge b) → is_Some (PciBridge.child_bus b) →
  access_ensures (λ b', written ctx (PciDevice.Bridge b) (PciDevice.Bridge b')) (PciBridge.emulate_config_write b off).
Proof using HWL RFL.
  intros Hwf [bus Hbus]. set (d := PciDevice.Bridge b). unfold PciBridge.emulate_config_write.
  change (is_set (fld Command "IoEnable") (command_of (PciBridge.registers b))) with (enabled IoSpace d).
  change (is_set (fld Command "MemoryEnable") (command_of (PciBridge.registers b))) with (enabled MemSpace d).
  assert (∀ name v, name = "sec_status" ∨ name = "bridge_control" →
    written ctx d (PciDevice.Bridge (PciBridge.set_registers (reg_set 0 BridgeRegisters name v (PciBridge.registers b)) b))) as Hreg.
  { intros name v Hname. apply bridge_register_written; [done|..]; destruct Hname as [-> | ->]; try (vm_compute; congruence).
    all: intros [] _; vm_compute window_at; repeat match goal with |- Forall _ _ => constructor end; eval_layouts; lia. }
  pose proof (λ n Hn, window_access_ensures ctx b IoSpace n Hwf Hn) as Hio.
  pose proof (λ n Hn, window_access_ensures ctx b MemSpace n Hwf Hn) as Hmem. cbn [window_regs] in Hio, Hmem.
  repeat match goal with |- access_ensures _ (if ?c then _ else _) => destruct c eqn:?E end;
    try (apply Hio; solve [repeat constructor]); try (apply Hmem; solve [repeat constructor]).
  - revert E. eval_layouts. intros E v. case_match eqn:Hdis; eexists; (split; [done|]); [apply written_refl|].
    apply (bar_written ctx d); [done|apply bar_index_lt; change (PciDevice.bar_count d) with 2%nat; lia|done].
  - intros v Hv. eexists. split; [done|]. by apply virtual_written.
  - intros v Hv. rewrite Hbus. cbn. eexists. split; [done|]. apply virtual_written; try done. cbn. by rewrite Hbus.
  - intros v Hv. rewrite Hbus. cbn. eexists. split; [done|]. apply virtual_written; try done. cbn. by rewrite Hbus.
  - intros v Hv. eexists. split; [done|]. apply Hreg. by left.
  - intros v Hv. eexists. split; [done|]. cbv zeta.
    eapply written_trans; [apply (Hreg "bridge_control"); by right|]. apply virtual_written; try done.
  - apply pop_nothing_ensures. apply written_refl.
Qed.

Lemma config_write_ensures ctx d off : device_wf d → enumerated d →
  access_ensures (written ctx d) (PciDevice.config_write_at ctx d off).
Proof using HWL RFL.
  intros Hwf He. unfold PciDevice.config_write_at.
  destruct (in_span CommonRegisters "command" off).
  { intros v Hv. destruct (write_command_spec ctx d v Hwf Hv) as (w & -> & Hw & Hsp & Hdma).
    eexists. split; [done|]. by apply command_written. }
  destruct (in_span CommonRegisters "status" off).
  { intros v Hv. eexists. split; [done|]. unfold reg_set. eval_layouts. apply write_outside; [done|lia..]. }
  destruct (_ && _).
  { destruct d as [ep|b]; apply map_access_ensures; [by apply endpoint_write_ensures|by apply bridge_write_ensures]. }
  destruct (_ && _); [|apply pop_nothing_ensures, written_refl].
  apply map_access_ensures. eapply access_ensures_impl; [|apply caps_write_ensures; apply Hwf].
  intros h [->|(w & o & v & Hw & Ho & ->)].
  - destruct d as [[]|[]]; apply written_refl.
  - apply write_outside; [done|done|lia..].
Qed.

(** ** The loop *)
Lemma pop_ensures {S} (P : S → Prop) a off (k len : nat) value : access_ensures P a → 0 ≤ off → (k < len ≤ 4)%nat →
  ∃ (n : nat) s, pop a (MmioWriteBuilder.mk (off + Z.of_nat k) (Z.of_nat len) (Z.of_nat k) value)
    = Returns (MmioWriteBuilder.mk (off + Z.of_nat (k + n)) (Z.of_nat len) (Z.of_nat (k + n)) value, s)
    ∧ (1 ≤ n)%nat ∧ (k + n ≤ len)%nat ∧ P s.
Proof.
  intros Ha Hoff Hk.
  assert (wrap64 (Z.of_nat len - Z.of_nat k) = Z.of_nat (len - k)) as Hw by (unfold wrap64; rewrite Z.mod_small; lia).
  assert (∀ size, size = 2 ∨ size = 4 → ∃ n : nat, (1 ≤ n)%nat ∧ (k + n ≤ len)%nat ∧
    Z.min (size - Z.land (off + Z.of_nat k) (size - 1)) (wrap64 (Z.of_nat len - Z.of_nat k)) = Z.of_nat n) as Hn.
  { intros size Hsize. assert (0 ≤ Z.land (off + Z.of_nat k) (size - 1) < size) as Hl.
    { destruct Hsize as [-> | ->]; [change (2 - 1) with (2 ^ 1 - 1)|change (4 - 1) with (2 ^ 2 - 1)];
        rewrite land_mask_mod by lia; apply Z.mod_pos_bound; done. }
    exists (Z.to_nat (Z.min (size - Z.land (off + Z.of_nat k) (size - 1)) (Z.of_nat (len - k)))). rewrite Hw. lia. }
  destruct a as [c|dest c|dest c]; cbn in Ha.
  - unfold pop, MmioWriteBuilder.pop_byte. cbn -[Z.of_nat wrap8 shr32].
    destruct (Ha (wrap8 (shr32 value (Z.of_nat k * 8)))) as (s & -> & Hs); [apply wrap8_byte|].
    exists 1%nat, s. split; [|split_and!; [lia..|done]]. cbn -[Z.of_nat]. do 3 f_equal; lia.
  - unfold pop, MmioWriteBuilder.pop_word, MmioWriteBuilder.pop_part. destruct (Hn 2 ltac:(by left)) as (n & Hn1 & Hn2 & En).
    cbn [MmioWriteBuilder.offset MmioWriteBuilder.len MmioWriteBuilder.read MmioWriteBuilder.value]. rewrite En.
    edestruct Ha as (s & -> & Hs); [unfold wrap16; apply Z.mod_pos_bound; done|].
    exists n, s. split; [|done]. cbn -[Z.of_nat]. do 3 f_equal; lia.
  - unfold pop, MmioWriteBuilder.pop_dword, MmioWriteBuilder.pop_part. destruct (Hn 4 ltac:(by right)) as (n & Hn1 & Hn2 & En).
    cbn [MmioWriteBuilder.offset MmioWriteBuilder.len MmioWriteBuilder.read MmioWriteBuilder.value]. rewrite En.
    edestruct Ha as (s & -> & Hs). exists n, s. split; [|done]. cbn -[Z.of_nat]. do 3 f_equal; lia.
Qed.

Lemma children_enumerated d d' : shape d' = shape d → child_devices d' = child_devices d → enumerated d → enumerated d'.
Proof.
  destruct d as [|b], d' as [|b']; cbn; try done. intros _ Hc [bus Hb]. rewrite Hb in Hc. cbn in Hc.
  destruct (PciBridge.child_bus b'); [by eexists|done].
Qed.

(** A write of up to four bytes returns and keeps the device safe. *)
Lemma emulate_config_write_spec ctx d off value (len : nat) : device_wf d → enumerated d → 0 ≤ off → (len ≤ 4)%nat →
  ∃ d', PciDevice.emulate_config_write off value (Z.of_nat len) ctx d = Returns d' ∧ written ctx d d'.
Proof using HWL RFL.
  intros Hwf He Hoff Hlen. unfold PciDevice.emulate_config_write, MmioWriteBuilder.new. rewrite Nat2Z.id.
  assert (∀ fuel k d, device_wf d → enumerated d → (k ≤ len)%nat → (len - k ≤ fuel)%nat →
    ∃ d', PciDevice.write_loop fuel ctx d (MmioWriteBuilder.mk (off + Z.of_nat k) (Z.of_nat len) (Z.of_nat k) value) = Returns d'
      ∧ written ctx d d') as Hloop.
  { clear d Hwf He. induction fuel as [|fuel IH]; intros k d Hwf He Hk Hf; cbn [PciDevice.write_loop];
      unfold MmioWriteBuilder.done_; cbn [MmioWriteBuilder.read MmioWriteBuilder.len MmioWriteBuilder.offset];
      (destruct (Z.eqb_spec (Z.of_nat k) (Z.of_nat len)) as [_|Hne]; [eauto using written_refl|]); [lia|].
    destruct (pop_ensures _ _ off k len value (config_write_ensures ctx d (off + Z.of_nat k) Hwf He) Hoff)
      as (n & d1 & -> & Hn & Hkn & Hw1); [lia|]. cbn [mbind outcome_bind].
    destruct (IH (k + n)%nat d1) as (d' & -> & Hw2); [by eapply shape_wf, Hwf; apply Hw1| |lia..|].
    - eapply children_enumerated; [apply Hw1..|done].
    - exists d'. split; [done|]. by eapply written_trans. }
  destruct (Hloop len 0%nat d Hwf He) as (d' & E & Hw); [lia..|]. change (Z.of_nat 0) with 0 in E.
  rewrite Z.add_0_r in E. eauto.
Qed.
End checks.
