(* ===== verification/PciResourceFacts.v ===== *)
(** * The resources of the root complex

    What the hypervisor takes from a resource is apart from what the host gets, and
    translations between bus and physical addresses do not change when it does. *)
From Stdlib Require Import ZifyBool.
From S2P Require Import Prelude RiscvPages PciRegs PciCaps PciSpaces PciDevices.
Import PciRootResource(addr, host_size, total_size, pci_addr).

Lemma power_of_two_log x : is_power_of_two x = true → x = 2 ^ Z.log2 x.
Proof.
  unfold is_power_of_two. intros [Hx Hl]%andb_true_iff. apply Z.ltb_lt in Hx. apply Z.eqb_eq in Hl.
  destruct (Z.log2_spec x Hx) as [Hlo Hhi]. destruct (decide (x = 2 ^ Z.log2 x)) as [|Hne]; [done|exfalso].
  apply (f_equal (λ z, Z.testbit z (Z.log2 x))) in Hl. rewrite Z.land_spec, Z.bits_0, Z.bit_log2 in Hl by done.
  cbn [andb] in Hl. assert (Z.log2 (x - 1) = Z.log2 x) as E.
  { apply Z.log2_unique; [apply Z.log2_nonneg|lia]. }
  rewrite <-E, Z.bit_log2 in Hl; [done|]. pose proof (Z.pow_pos_nonneg 2 (Z.log2 x)). pose proof (Z.log2_nonneg x). lia.
Qed.
Lemma power_of_two_max x : is_power_of_two x = true → x < U64 → 0 < x ≤ 2 ^ 63.
Proof.
  intros Hx Hlt. pose proof (power_of_two_log x Hx) as E. apply andb_true_iff in Hx as [Hp _]. split; [lia|].
  rewrite E. apply Z.pow_le_mono_r; [lia|]. apply (Z.log2_le_mono x (U64 - 1)); lia.
Qed.

(** The next power of two of a size that has one in 64 bits. *)
Lemma next_power_of_two_spec x : 1 < x ≤ 2 ^ 63 →
  ∃ k, 0 < k ≤ 63 ∧ next_power_of_two x = 2 ^ k ∧ x ≤ 2 ^ k.
Proof.
  intros Hx. unfold next_power_of_two. replace (x <=? 1) with false by lia.
  exists (Z.log2 (x - 1) + 1). pose proof (Z.log2_nonneg (x - 1)).
  destruct (Z.log2_spec (x - 1)) as [Hlo Hhi]; [lia|]. rewrite <-Z.add_1_r in Hhi.
  assert (Z.log2 (x - 1) < 63) by (apply Z.log2_lt_pow2; lia).
  split; [lia|]. split; [|lia]. unfold wrap64. apply Z.mod_small. split; [apply Z.pow_nonneg; lia|].
  change U64 with (2 ^ 64). apply Z.pow_lt_mono_r; lia.
Qed.

Definition resource_ok (r : PciRootResource.t) : Prop :=
  0 ≤ addr r ∧ addr r mod 4096 = 0 ∧ 0 ≤ host_size r ≤ total_size r ∧ addr r + total_size r + 4096 ≤ U64
  ∧ 0 ≤ pci_addr r ∧ pci_addr r + total_size r < U64.

(** The resource without its bookkeeping. *)
Definition same_resource (r r' : PciRootResource.t) : Prop :=
  addr r' = addr r ∧ total_size r' = total_size r ∧ pci_addr r' = pci_addr r.

Lemma alloc_for_hypervisor_spec size r : resource_ok r → 0 < size ≤ 2 ^ 63 →
  ∃ x r', PciRootResource.alloc_for_hypervisor size r = Returns (x, r')
    ∧ resource_ok r' ∧ same_resource r r' ∧ host_size r' ≤ host_size r
    ∧ ∀ base, x = Ok base → base = addr r + host_size r' ∧ base + size ≤ addr r + host_size r
        ∧ host_size r' mod 4096 = 0.
Proof.
  intros (Ha0 & Ha & Hh & Hend & Hp0 & Hp) Hsize. unfold PciRootResource.alloc_for_hypervisor.
  destruct (next_power_of_two_spec (Z.max size (PageSize.bytes PageSize.Size4k))) as (k & Hk & -> & Hle); [cbn; lia|].
  cbn [PageSize.bytes] in Hle. set (sz := 2 ^ k) in *.
  erewrite bind_ok by reflexivity. unfold checked_sub. destruct (Z.leb_spec sz (host_size r)) as [Hfit|].
  2: { exists (Err PciError.OutOfResources), r. split_and!; [done|done..|]. by intros ?. }
  erewrite bind_ok by reflexivity.
  assert (sz ≤ 2 ^ 63) by (unfold sz; apply Z.pow_le_mono_r; lia).
  assert (wrap64 (sz - 1) = 2 ^ k - 1) as -> by (unfold wrap64; rewrite Z.mod_small by lia; done).
  rewrite land_not64_mask by (unfold u64; lia || lia).
  set (rest := host_size r - sz). assert (0 ≤ rest mod 2 ^ k ≤ rest) as Hm.
  { split; [apply Z.mod_pos_bound; fold sz; lia|apply Z.mod_le; fold sz; lia]. }
  assert ((rest - rest mod 2 ^ k) mod 4096 = 0) as Hpage.
  { assert (12 ≤ k) as Hk12.
    { apply Z.nlt_ge. intros Hlt. assert (2 ^ k < 2 ^ 12) by (apply Z.pow_lt_mono_r; lia). fold sz in H0. lia. }
    replace (2 ^ k) with (2 ^ (k - 12) * 2 ^ 12) by (rewrite <-Z.pow_add_r by lia; f_equal; lia).
    change (2 ^ 12) with 4096. set (P := 2 ^ (k - 12)). assert (0 < P) by (apply Z.pow_pos_nonneg; lia).
    pose proof (Z.div_mod rest (P * 4096) ltac:(lia)) as Hdm.
    replace (rest - rest mod (P * 4096)) with ((rest / (P * 4096) * P) * 4096) by lia. apply Z_mod_mult. }
  set (hs := rest - rest mod 2 ^ k) in *. erewrite bind_ok by reflexivity.
  assert (PageSize.num_4k_pages hs = hs / 4096) as Hn.
  { assert (hs = hs / 4096 * 4096) as E by (pose proof (Z.div_mod hs 4096); lia). rewrite E at 1.
    apply num_4k_pages_mul; lia. }
  assert (PageAddr.checked_add_pages (addr r) (PageSize.num_4k_pages hs) = Some (addr r + hs)) as ->.
  { unfold PageAddr.checked_add_pages, PageAddr.checked_add_pages_with_size. rewrite Hn. cbn [PageSize.bytes].
    assert (hs / 4096 * 4096 = hs) as E by (pose proof (Z.div_mod hs 4096); lia).
    unfold checked_mul. rewrite E. replace (hs <? U64) with true by lia. cbn [mbind option_bind].
    unfold RawAddr.checked_increment, checked_add. replace (addr r + hs <? U64) with true by lia. cbn [mbind option_bind].
    unfold PageAddr.with_alignment, PageSize.is_aligned. cbn [PageSize.bytes]. change (4096 - 1) with (2 ^ 12 - 1).
    rewrite land_mask_mod by lia. change (2 ^ 12) with 4096. replace ((addr r + hs) mod 4096 =? 0) with true; [done|].
    symmetry. apply Z.eqb_eq. rewrite Z.add_mod, Ha, Hpage by lia. done. }
  eexists _, _. split; [reflexivity|]. cbn. split_and!; try done; try lia.
  - unfold resource_ok. cbn. split_and!; lia.
  - intros base [= <-]. split_and!; [done|lia|done].
Qed.

(** ** Sequences of allocations *)
(** The allocations that succeed, with their sizes; the last one first. *)
Fixpoint run_allocs (sizes : list Z) (r : PciRootResource.t) (l : list (Z * Z)) : outcome (list (Z * Z) * PciRootResource.t) :=
  match sizes with
  | [] => Returns (l, r)
  | size :: sizes =>
      '(x, r) ← PciRootResource.alloc_for_hypervisor size r;
      run_allocs sizes r (match x with Ok base => (base, size) :: l | Err _ => l end)
  end.

Lemma run_allocs_spec sizes r0 r l :
  resource_ok r → same_resource r0 r → host_size r ≤ host_size r0 → Forall (λ s, 0 < s ≤ 2 ^ 63) sizes →
  Forall (λ '(b, s), addr r + host_size r ≤ b ∧ b + s ≤ addr r0 + host_size r0) l →
  ForallOrdPairs (λ x y, x.1 + x.2 ≤ y.1) l →
  ∃ l' r', run_allocs sizes r l = Returns (l', r') ∧ resource_ok r' ∧ same_resource r0 r' ∧ host_size r' ≤ host_size r0
    ∧ Forall (λ '(b, s), addr r' + host_size r' ≤ b ∧ b + s ≤ addr r0 + host_size r0) l'
    ∧ ForallOrdPairs (λ x y, x.1 + x.2 ≤ y.1) l'.
Proof.
  intros Hr Hs Hh Hsizes. revert r l Hr Hs Hh. induction Hsizes as [|size sizes Hsize _ IH]; intros r l Hr Hs Hh Hl Hd; cbn.
  { by exists l, r. }
  destruct (alloc_for_hypervisor_spec size r Hr Hsize) as (x & r1 & -> & Hr1 & Hs1 & Hh1 & Hx). cbn [mbind outcome_bind].
  destruct Hs as (E1 & E2 & E3), Hs1 as (F1 & F2 & F3).
  assert (Forall (λ '(b, s), addr r1 + host_size r1 ≤ b ∧ b + s ≤ addr r0 + host_size r0) l) as Hl1.
  { eapply list.Forall_impl; [exact Hl|]. intros [b s]. lia. }
  apply IH; [done|repeat split; congruence|lia|..].
  - destruct x as [base|]; [|done]. destruct (Hx base eq_refl) as (-> & Hend & _).
    apply list.Forall_cons. split; [lia|done].
  - destruct x as [base|]; [|done]. destruct (Hx base eq_refl) as (-> & Hend & _).
    constructor; [|done]. rewrite Forall_forall. intros [b s] Hin. rewrite list.Forall_forall in Hl.
    specialize (Hl (b, s) ltac:(by apply list_elem_of_In)). cbn in *. lia.
Qed.

(** What the hypervisor takes from a PCI resource is apart from everything else.
    In any sequence of allocations, none panics, the ranges that are handed out do
    not overlap, and all of them lie in what the host had before and behind what the
    host has at the end. *)
Theorem hypervisor_allocations_apart r sizes :
  resource_ok r → Forall (λ s, 0 < s ≤ 2 ^ 63) sizes →
  ∃ l r', run_allocs sizes r [] = Returns (l, r') ∧ resource_ok r' ∧ same_resource r r'
    ∧ Forall (λ '(b, s), addr r + host_size r' ≤ b ∧ b + s ≤ addr r + host_size r) l
    ∧ ForallOrdPairs (λ x y, x.1 + x.2 ≤ y.1) l.
Proof.
  intros Hr Hs. destruct (run_allocs_spec sizes r r []) as (l & r' & E & Hr' & (Ha & Ht & Hp) & _ & Hl & Hd);
    [done|by split|lia|done|done|by constructor|].
  exists l, r'. split_and!; [done|done|by split| |done].
  eapply list.Forall_impl; [exact Hl|]. intros [b s]. lia.
Qed.

Lemma hypervisor_allocations_apart_witness :
  ∃ l r', run_allocs [8192; 100; 70000] (PciRootResource.new 1073741824 1048576 1073741824) [] = Returns (l, r')
    ∧ l = [(1074528256, 70000); (1074778112, 100); (1074782208, 8192)]
    ∧ ForallOrdPairs (λ x y, x.1 + x.2 ≤ y.1) l.
Proof.
  destruct (hypervisor_allocations_apart (PciRootResource.new 1073741824 1048576 1073741824) [8192; 100; 70000])
    as (l & r' & E & _ & _ & _ & Hd).
  - repeat split; vm_compute; congruence.
  - repeat constructor; lia.
  - exists l, r'. split; [exact E|]. split; [|exact Hd]. vm_compute in E. congruence.
Defined.
