(* ===== verification/PciDecodeFacts.v ===== *)
(** * The addresses that a device decodes

    The checks behind the enable bits of COMMAND, in terms of bus and physical
    addresses: a device whose check passes decodes pages of its owner only. *)
From Stdlib Require Import ZifyBool.
From stdpp Require Import strings.
From S2P Require Import Prelude RiscvPages Tracker PciRegs PciCaps PciSpaces PciDevices PciConfigFacts.
From S2P Require Import PciSafety PciResourceFacts.
Local Open Scope string_scope.
Local Open Scope list_scope.
Local Open Scope Z_scope.

(** ** Resources *)
Definition slot_same (o o' : option PciRootResource.t) : Prop :=
  match o, o' with
  | Some r, Some r' => same_resource r r'
  | None, None => True
  | _, _ => False
  end.
(** The same resources, up to what of them the host has. *)
Abbreviation same_resources := (Forall2 slot_same).
Definition resources_ok (rs : PciRootResources.t) : Prop :=
  length rs = PciRootResources.MAX_ROOT_RESOURCES ∧ Forall (λ o, match o with Some r => resource_ok r | None => True end) rs.

Lemma slot_same_refl o : slot_same o o.
Proof. destruct o; by repeat split. Qed.
Lemma same_resources_refl rs : same_resources rs rs.
Proof. apply Forall2_same_length_lookup_2; [done|]. intros i o o' -> [= ->]. apply slot_same_refl. Qed.

Lemma find_resource_same p rs rs' : (∀ r r', same_resource r r' → p r' = p r) → same_resources rs rs' →
  slot_same (PciRootResources.find_resource p rs) (PciRootResources.find_resource p rs').
Proof.
  unfold PciRootResources.find_resource. intros Hp. induction 1 as [|o o' rs rs' Ho _ IH]; cbn; [done|].
  destruct o as [r|], o' as [r'|]; cbn in Ho; try done. rewrite (Hp r r' Ho). by destruct (p r).
Qed.
Lemma pci_to_physical_same rs rs' a : same_resources rs rs' →
  PciRootResources.pci_to_physical_addr a rs' = PciRootResources.pci_to_physical_addr a rs.
Proof.
  intros Hs. unfold PciRootResources.pci_to_physical_addr.
  set (p := λ r, (PciRootResource.pci_addr r <=? a) && (a <=? wrap64 (PciRootResource.pci_addr r + PciRootResource.size r))).
  pose proof (find_resource_same p rs rs') as Hf. specialize (Hf ltac:(intros r r' (Ha & Ht & Hp); unfold p, PciRootResource.size; by rewrite Ht, Hp) Hs).
  destruct (PciRootResources.find_resource p rs) as [r|], (PciRootResources.find_resource p rs') as [r'|]; cbn in Hf; try done.
  destruct Hf as (Ha & Ht & Hp). cbn. by rewrite Ha, Hp.
Qed.

Lemma get_resource ty rs r : PciRootResources.get ty rs = Some r → rs !! ResourceType.index ty = Some (Some r).
Proof. unfold PciRootResources.get. destruct (rs !! _) as [[]|]; cbn; congruence. Qed.
Lemma insert_resource rs i r r' : resources_ok rs → rs !! i = Some (Some r) → resource_ok r' → same_resource r r' →
  resources_ok (<[i := Some r']> rs) ∧ same_resources rs (<[i := Some r']> rs).
Proof.
  intros [Hlen Hok] Hi Hr' Hs. split; [split; [by rewrite length_insert|by apply Forall_insert]|].
  apply Forall2_same_length_lookup_2; [by rewrite length_insert|]. intros j o o' Hj Hj'.
  destruct (decide (i = j)) as [->|].
  - rewrite list_lookup_insert_eq in Hj' by (eapply lookup_lt_Some; done). simplify_eq. done.
  - rewrite list_lookup_insert_ne in Hj' by done. simplify_eq. apply slot_same_refl.
Qed.

(** An address inside of a resource has a bus address. *)
Lemma physical_to_pci_some rs i r a : resources_ok rs → rs !! i = Some (Some r) →
  PciRootResource.addr r ≤ a ≤ PciRootResource.addr r + PciRootResource.total_size r →
  is_Some (PciRootResources.physical_to_pci_addr a rs).
Proof.
  intros [_ Hok] Hi Ha. unfold PciRootResources.physical_to_pci_addr.
  set (p := λ r, (PciRootResource.addr r <=? a) && (a <=? wrap64 (PciRootResource.addr r + PciRootResource.size r))).
  assert (∀ r, resource_ok r → p r = true ↔ PciRootResource.addr r ≤ a ≤ PciRootResource.addr r + PciRootResource.total_size r) as Hp.
  { intros x (Hx0 & _ & Hxh & Hxe & _). unfold p, PciRootResource.size, wrap64. rewrite Z.mod_small by lia. lia. }
  clearbody p. unfold PciRootResources.find_resource.
  destruct (List.find (λ o, match o with Some r => p r | None => false end) rs) as [o|] eqn:E.
  - apply find_some in E as [Hin Ho]. destruct o as [x|]; [|done]. cbn.
    rewrite list.Forall_forall in Hok. specialize (Hok (Some x) ltac:(by apply list_elem_of_In)). cbn in Hok.
    apply Hp in Ho; [|done]. destruct Hok as (? & ? & ? & ? & ? & ?). unfold checked_sub, checked_add.
    replace (PciRootResource.addr x <=? a) with true by lia. cbn.
    replace (_ <? U64) with true by lia. eauto.
  - exfalso. eapply find_none in E; [|apply list_elem_of_In; by eapply list_elem_of_lookup_2]. cbn in E.
    rewrite list.Forall_forall in Hok. specialize (Hok (Some r) ltac:(by eapply list_elem_of_lookup_2)). cbn in Hok.
    apply Hp in Ha; [congruence|done].
Qed.

(** ** Pages of a range *)
Lemma to_list_covers b n i : 0 ≤ b → b mod 4096 = 0 → 0 ≤ i < n → b + (i + 1) * 4096 < U64 →
  b + i * 4096 ∈ PageAddrRange.to_list (PageAddrRange.new b n).
Proof.
  intros Hb Ha Hi Ho. unfold PageAddrRange.to_list, PageAddrRange.new. cbn [PageAddrRange.num_pages].
  remember (Z.to_nat n) as fuel eqn:Ef. revert b n i Ef Hb Ha Hi Ho. induction fuel as [|fuel IH]; intros b n i Ef Hb Ha Hi Ho; [lia|].
  cbn [PageAddrRange.collect]. unfold PageAddrRange.next. cbn [PageAddrRange.num_pages PageAddrRange.base PageAddrRange.page_size].
  replace (n =? 0) with false by lia. rewrite (proj2 (checked_add_pages_spec b 1 PageSize.Size4k (b + 4096) Ha)) by (cbn [PageSize.bytes]; lia).
  apply elem_of_cons. destruct (decide (i = 0)) as [->|]; [left; lia|right].
  replace (b + i * 4096) with (b + 4096 + (i - 1) * 4096) by lia. apply IH; [lia|lia| |lia..].
  rewrite Z.add_mod, Ha by lia. done.
Qed.

(** ** What a device decodes *)
Section decodes.
Context `{HWL : ConfigHwLaws H} `{RFL : RegisterFieldsLaws}.
Implicit Types (d : PciDevice.t H).
Import MmioEmulationContext.

(** The windows that a bridge forwards, with their inclusive limits. *)
Definition windows (sp : space) (b : PciBridge.t H) : list (option (Z * Z)) :=
  match sp with
  | IoSpace => [PciBridge.get_io_window b]
  | MemSpace => [PciBridge.get_mem_window b; PciBridge.get_pref_window b]
  end.
(** The bus addresses from [base] on, [len] of them, that a device answers in a space. *)
Inductive decodes (sp : space) : PciDevice.t H → Z → Z → Prop :=
  | decodes_bar d b base : b ∈ PciDevice.bar_info d → in_space sp b →
      PciDevice.get_bar_addr (PciBarInfo.index b) d = Returns (Ok base) → decodes sp d base (PciBarInfo.size b)
  | decodes_window b base limit : Some (base, limit) ∈ windows sp b →
      decodes sp (PciDevice.Bridge b) base (limit - base + 1).

Lemma and_then_ok r r' : and_then r r' = Ok tt ↔ r = Ok tt ∧ r' = Ok tt.
Proof. destruct r as [[]|]; cbn; [|split; [done|by intros [? _]]]. split; [done|by intros [_ ?]]. Qed.

Lemma window_is_valid_ok w ctx :
  window_is_valid w ctx = Ok tt ↔ ∀ base limit, w = Some (base, limit) → range_is_valid base (limit - base) ctx = Ok tt.
Proof. destruct w as [[]|]; [|done]. unfold window_is_valid. split; [by intros ? ? ? [= <- <-]|]. intros Hw. by apply Hw. Qed.
Lemma check_ok (f : PciBarInfo.t → outcome (result PciError.t unit)) l w :
  (r ← try_for_each f l; Returns (and_then r w)) = Returns (Ok tt) ↔ try_for_each f l = Returns (Ok tt) ∧ w = Ok tt.
Proof.
  destruct (try_for_each f l) as [[[]|e]|]; cbn; [|split; [done|by intros [? _]]..].
  split; [by intros [= ->]|by intros [_ ->]].
Qed.

(** The check behind an enable bit: all of the ranges are valid. *)
Lemma can_enable_ok sp d ctx : device_wf d → can_enable sp d ctx = Returns (Ok tt) ↔
  (∀ b base, b ∈ PciDevice.bar_info d → in_space sp b → PciDevice.get_bar_addr (PciBarInfo.index b) d = Returns (Ok base) →
     range_is_valid base (PciBarInfo.size b) ctx = Ok tt)
  ∧ ∀ b base limit, d = PciDevice.Bridge b → Some (base, limit) ∈ windows sp b →
     range_is_valid base (limit - base) ctx = Ok tt.
Proof.
  intros Hwf.
  assert (∀ (P : PciBarInfo.t → Prop) `{∀ b, Decision (P b)}, (∀ b, P b ↔ in_space sp b) →
    try_for_each (PciDevice.bar_assignment_is_valid d ctx) (filter P (PciDevice.bar_info d)) = Returns (Ok tt) ↔
    ∀ b base, b ∈ PciDevice.bar_info d → in_space sp b → PciDevice.get_bar_addr (PciBarInfo.index b) d = Returns (Ok base) →
     range_is_valid base (PciBarInfo.size b) ctx = Ok tt) as Hbars.
  { intros P ? HP. rewrite try_for_each_ok. split.
    - intros Hall b base Hb Hsp Ha. specialize (Hall b ltac:(apply list_elem_of_filter; by rewrite HP)).
      destruct (bar_assignment_ok d b ctx Hwf Hb) as (a & Ha' & Hv). congruence.
    - intros Hall b [Hp Hb]%list_elem_of_filter. destruct (bar_assignment_ok d b ctx Hwf Hb) as (a & Ha & ->).
      f_equal. apply (Hall b); [done|by apply HP|done]. }
  destruct sp; unfold can_enable, PciDevice.can_enable_io_space, PciDevice.can_enable_mem_space;
    rewrite check_ok, Hbars by done; (apply and_iff_compat_l); (destruct d as [ep|b]; [by split|]).
  - rewrite window_is_valid_ok. split; [by intros Hw b' base limit [= <-] E%list_elem_of_singleton; apply Hw|].
    intros Hw base limit E. apply (Hw b); [done|]. rewrite <-E. by left.
  - rewrite and_then_ok, !window_is_valid_ok. split.
    + intros [Hm Hp] b' base limit [= <-] [E|E%list_elem_of_singleton]%elem_of_cons; [by apply Hm|by apply Hp].
    + intros Hw. split; intros base limit E; (apply (Hw b); [done|]); rewrite <-E; [by left|by right; left].
Qed.
(** The checks only use the translation of the resources. *)
Lemma range_is_valid_same pt g rs rs' a n : same_resources rs rs' →
  range_is_valid a n (mk pt g rs') = range_is_valid a n (mk pt g rs).
Proof. intros Hs. unfold range_is_valid. cbn [MmioEmulationContext.resources MmioEmulationContext.page_tracker MmioEmulationContext.guest_id].
  by rewrite (pci_to_physical_same rs rs'). Qed.

(** The BAR pages that a VM has mapped stay with it. *)
Definition keeps_bars (pt pt' : PageTracker.t) : Prop :=
  ∀ p g, PageTracker.is_mapped_page p g (MemType.Mmio DeviceMemType.PciBar) pt = true →
    PageTracker.is_mapped_page p g (MemType.Mmio DeviceMemType.PciBar) pt' = true.
Lemma pages_owned_spec ps pt g : pages_are_owned ps pt g = Ok tt ↔
  ∀ p, p ∈ ps → PageTracker.is_mapped_page p g (MemType.Mmio DeviceMemType.PciBar) pt = true.
Proof.
  induction ps as [|p ps IH]; cbn; [split; [by intros _ ? ?%not_elem_of_nil|done]|].
  destruct (PageTracker.is_mapped_page p g _ pt) eqn:E; cbn.
  - rewrite IH. split; [by intros Hps q [->|Hq]%elem_of_cons; auto|]. intros Hps q Hq. apply Hps. by right.
  - split; [done|]. intros Hps. specialize (Hps p ltac:(by left)). congruence.
Qed.
Lemma range_is_valid_ok a n pt g rs : range_is_valid a n (mk pt g rs) = Ok tt ↔
  ∃ phys, PciRootResources.pci_to_physical_addr a rs = Some phys
    ∧ ∀ p, p ∈ PageAddrRange.to_list (PageAddrRange.new (PageAddr.with_round_down phys PageSize.Size4k) (PageSize.num_4k_pages n)) →
        PageTracker.is_mapped_page p g (MemType.Mmio DeviceMemType.PciBar) pt = true.
Proof.
  unfold range_is_valid. cbn [MmioEmulationContext.resources MmioEmulationContext.page_tracker MmioEmulationContext.guest_id].
  destruct (PciRootResources.pci_to_physical_addr a rs) as [phys|]; [|by split; [|intros (? & ? & _)]].
  unfold bar_range_is_owned. rewrite pages_owned_spec. split; [eauto|]. by intros (? & [= <-] & ?).
Qed.
(** What is allowed stays allowed. *)
Lemma config_safe_keep d pt pt' g rs rs' : device_wf d → keeps_bars pt pt' → same_resources rs rs' →
  config_safe (mk pt g rs) d → config_safe (mk pt' g rs') d.
Proof.
  intros Hwf Hk Hs [Hen Hdma]. split; [|done]. intros sp Hsp. specialize (Hen sp Hsp).
  assert (∀ a n, range_is_valid a n (mk pt g rs) = Ok tt → range_is_valid a n (mk pt' g rs') = Ok tt) as Hr.
  { intros a n. rewrite (range_is_valid_same pt' g rs) by done. rewrite !range_is_valid_ok.
    intros (phys & Hp & Hm). exists phys. eauto. }
  rewrite can_enable_ok in Hen |- * by done. destruct Hen as [Hb Hw]. split; eauto.
Qed.

(** ** Confinement *)
(** What is known of a device of [g].  It does DMA only when it is attached to an IOMMU.
    A range of at most 2^64 - 4096 bytes that it decodes begins at a bus address of the
    root complex, and its bytes are on pages that [g] has mapped, provided that the range
    begins at a page or lies within one; bytes in the last page of the address space are
    not covered. *)
Definition confined pt rs g d : Prop :=
  (dma_enabled d = true → PciDevice.iommu_attached d = true)
  ∧ ∀ sp base len, enabled sp d = true → decodes sp d base len → len ≤ U64 - 4096 →
    ∃ phys, PciRootResources.pci_to_physical_addr base rs = Some phys ∧
      ∀ x, 0 ≤ x < len → phys + x < U64 - 4096 → (phys mod 4096 = 0 ∨ phys mod 4096 + len ≤ 4096) →
        PageTracker.is_mapped_page (PageAddr.with_round_down (phys + x) PageSize.Size4k) g
          (MemType.Mmio DeviceMemType.PciBar) pt = true.

Lemma pci_to_physical_bound a rs phys : resources_ok rs → PciRootResources.pci_to_physical_addr a rs = Some phys → 0 ≤ phys < U64.
Proof.
  intros [_ Hok]. unfold PciRootResources.pci_to_physical_addr, PciRootResources.find_resource.
  destruct (List.find _ rs) as [[r|]|] eqn:E; [|done..]. apply find_some in E as [Hin%list_elem_of_In _].
  rewrite list.Forall_forall in Hok. specialize (Hok _ Hin). destruct Hok as (Ha & _). cbn.
  unfold checked_sub. destruct (Z.leb_spec (PciRootResource.pci_addr r) a); [|done]. cbn.
  unfold RawAddr.checked_increment, checked_add. destruct (Z.ltb_spec (PciRootResource.addr r + (a - PciRootResource.pci_addr r)) U64); [|done].
  intros [= <-]. lia.
Qed.

(** The bytes behind a valid range, up to the end of its last page. *)
Lemma valid_range_covers base n len pt g rs : resources_ok rs → range_is_valid base n (mk pt g rs) = Ok tt →
  len ≤ PageSize.num_4k_pages n * 4096 →
  ∃ phys, PciRootResources.pci_to_physical_addr base rs = Some phys ∧
    ∀ x, 0 ≤ x < len → phys + x < U64 - 4096 → (phys mod 4096 = 0 ∨ phys mod 4096 + len ≤ 4096) →
      PageTracker.is_mapped_page (PageAddr.with_round_down (phys + x) PageSize.Size4k) g
        (MemType.Mmio DeviceMemType.PciBar) pt = true.
Proof.
  intros Hrs (phys & Hp & Hm)%range_is_valid_ok Hlen. exists phys. split; [done|]. intros x Hx Hend Hal. apply Hm.
  pose proof (pci_to_physical_bound _ _ _ Hrs Hp) as Hb. unfold PageAddr.with_round_down.
  rewrite !round_down_spec by (unfold u64; lia). cbn [PageSize.bytes].
  set (p := phys - phys mod 4096). set (i := (phys mod 4096 + x) / 4096).
  assert (phys + x - (phys + x) mod 4096 = p + i * 4096) as ->.
  { unfold p, i. pose proof (Z.div_mod phys 4096 ltac:(lia)). pose proof (Z.div_mod (phys mod 4096 + x) 4096 ltac:(lia)).
    replace (phys + x) with (phys mod 4096 + x + phys / 4096 * 4096) by lia. rewrite Z.mod_add by lia. lia. }
  assert (0 ≤ i ∧ i * 4096 ≤ phys mod 4096 + x) as [Hi0 Hi].
  { unfold i. pose proof (Z.mod_pos_bound phys 4096). pose proof (Z.mul_div_le (phys mod 4096 + x) 4096).
    pose proof (Z.div_pos (phys mod 4096 + x) 4096). lia. }
  pose proof (Z.mod_pos_bound phys 4096 ltac:(lia)). pose proof (Z.mod_le phys 4096 ltac:(lia) ltac:(lia)).
  apply to_list_covers; [unfold p; lia| | |unfold p; lia].
  - unfold p. rewrite Zminus_mod, Zmod_mod, Z.sub_diag. done.
  - split; [done|]. destruct Hal; lia.
Qed.

(** The windows are whole pages. *)
Lemma window_pages x y k : 12 ≤ k → (Z.lor (Z.shiftl y k) (Z.shiftl 1 k - 1) - Z.shiftl x k) mod 4096 = 4095.
Proof.
  intros Hk. rewrite Z.lor_comm, lor_fields, (Z.shiftl_mul_pow2 x), Z.shiftl_1_l by (rewrite ?Z.shiftl_1_l; lia).
  replace k with (12 + (k - 12)) by lia. rewrite Z.pow_add_r by lia. change (2 ^ 12) with 4096.
  set (q := 2 ^ (k - 12)). replace (4096 * q - 1 + y * (4096 * q) - x * (4096 * q)) with (4095 + (q - 1 + y * q - x * q) * 4096) by lia.
  by rewrite Z.mod_add.
Qed.
Lemma shiftl_lor_low a b k n : 0 ≤ n ≤ k → Z.lor (Z.shiftl a k) (Z.shiftl b n) = Z.shiftl (Z.lor (Z.shiftl a (k - n)) b) n.
Proof. intros Hn. rewrite Z.shiftl_lor, Z.shiftl_shiftl by lia. do 2 f_equal. lia. Qed.
Lemma windows_spec sp b base limit : Some (base, limit) ∈ windows sp b → base ≤ limit ∧ (limit - base) mod 4096 = 4095.
Proof.
  assert (∀ base0 limit0, (limit0 - base0) mod 4096 = 4095 → Some (base, limit) = PciBridge.window base0 limit0 →
    base ≤ limit ∧ (limit - base) mod 4096 = 4095) as Hw.
  { intros b0 l0 Hm. unfold PciBridge.window. destruct (Z.ltb_spec l0 b0); [done|]. by intros [= -> ->]. }
  assert (∀ (c : bool) o, Some (base, limit) = (if c then o else None) → Some (base, limit) = o) as Hif by (by intros []).
  destruct sp; [intros E%list_elem_of_singleton|intros [E|E%list_elem_of_singleton]%elem_of_cons].
  - apply Hif in E. revert E. apply Hw. rewrite !(shiftl_lor_low _ _ 16 12) by lia. by apply window_pages.
  - revert E. apply Hw. by apply window_pages.
  - apply Hif in E. revert E. apply Hw. rewrite !(shiftl_lor_low _ _ 32 20) by lia. by apply window_pages.
Qed.

Lemma safe_confined pt rs g d : device_wf d → resources_ok rs → config_safe (mk pt g rs) d → confined pt rs g d.
Proof.
  intros Hwf Hrs [Hen Hdma]. split; [done|]. intros sp base len Hsp Hd Hlen.
  specialize (Hen sp Hsp). apply can_enable_ok in Hen as [Hbars Hwin]; [|done].
  destruct Hd as [d b base Hb Hin Ha|b base limit Hw].
  - apply (valid_range_covers _ (PciBarInfo.size b)); [done|by apply (Hbars b)|].
    destruct Hwf as (_ & _ & Hbw & _). rewrite list.Forall_forall in Hbw. destruct (Hbw b Hb) as (_ & _ & Hp & Hlt).
    pose proof (num_4k_pages_spec (PciBarInfo.size b)). unfold is_power_of_two in Hp. lia.
  - apply (valid_range_covers _ (limit - base)); [done|by apply (Hwin b)|].
    destruct (windows_spec _ _ _ _ Hw) as [Hle Hm]. pose proof (num_4k_pages_spec (limit - base)).
    set (n := PageSize.num_4k_pages (limit - base)) in *. pose proof (Z.div_mod (limit - base) 4096). lia.
Qed.
End decodes.
