(* ===== verification/PciEnumFacts.v ===== *)
(** * Enumeration of the PCI hierarchy

    The recursion over the bridges of bus.rs ends, as the bus numbers grow, and leaves
    a tree in the arena: the devices behind a bridge come after the bridge.  All of
    the devices are well formed, unowned and silent. *)
From Stdlib Require Import ZifyBool.
From stdpp Require Import strings.
From S2P Require Import Prelude RiscvPages Tracker PciRegs PciCaps PciSpaces PciDevices PciRoot PciConfigFacts.
From S2P Require Import PciGuestView PciProbeFacts PciSafety.
Local Open Scope string_scope.
Local Open Scope list_scope.
Local Open Scope Z_scope.

Section returns.
Context `{HWL : ConfigHwLaws H} `{RFL : RegisterFieldsLaws}.

(** A capability list with an end is parsed. *)
Lemma parse_returns fuel off caps (h : H) l : hw_chain fuel off h = Some l →
  is_Some (PciCapabilities.parse fuel off caps h).
Proof.
  revert off caps l. induction fuel as [|fuel IH]; intros off caps l; cbn [PciCapabilities.parse hw_chain];
    (destruct ((_ <? off) && _); [|eauto]); [done|].
  unfold reg_get. eval_layouts. rewrite Z.add_0_r.
  destruct (hw_chain fuel _ h) as [l'|] eqn:E; [|done]. intros _.
  destruct (CapabilityId.from_raw _); [|by eapply IH]. destruct (PciCapability.new _ _ _); [|eauto].
  destruct (decide _); [by eapply IH|eauto].
Qed.
Lemma capabilities_new_returns off (h : H) : is_Some (hw_chain PciCapabilities.PARSE_FUEL off h) →
  ∃ r, PciCapabilities.new off h = Returns r.
Proof.
  intros [l Hl]. unfold PciCapabilities.new. destruct (parse_returns _ _ [] _ _ Hl) as [[] ->]; eauto.
Qed.
Lemma bar_info_returns n (h : H) : n = PCI_ENDPOINT_BARS ∨ n = PCI_BRIDGE_BARS →
  ∃ r h', PciDeviceBarInfo.new n h = Returns (r, h').
Proof using HWL RFL.
  intros Hn. destruct (probe_spec n n 0 [] h) as (r & h' & E & _);
    [destruct Hn as [-> | ->]; unfold PCI_BRIDGE_BARS, PCI_ENDPOINT_BARS; lia|destruct Hn as [-> | ->]; [by exists 3%nat|by exists 1%nat]|lia|done|by repeat constructor|].
  eauto.
Qed.
Lemma device_new_returns info (h : H) : is_Some (hw_chain PciCapabilities.PARSE_FUEL (cfg_read 1 CAP_PTR h) h) →
  ∃ r, PciDevice.new info h = Returns r.
Proof using HWL RFL.
  intros Hc. unfold PciDevice.new. destruct (PciDeviceInfo.header_type info); [| |eauto..].
  - unfold PciEndpoint.new. change (reg_get 0 EndpointRegisters "cap_ptr" h) with (cfg_read 1 CAP_PTR h).
    destruct (capabilities_new_returns _ _ Hc) as [[caps|e] ->]; cbn [mbind outcome_bind]; [|eauto].
    destruct (bar_info_returns PCI_ENDPOINT_BARS h) as ([] & h' & ->); [by left|cbn [mbind outcome_bind]; eauto..].
  - unfold PciBridge.new, PciBridge.implemented. cbv zeta.
    set (h1 := reg_set 0 BridgeRegisters "pref_limit" 0 _).
    change (reg_get 0 BridgeRegisters "cap_ptr" h1) with (cfg_read 1 CAP_PTR h1).
    assert (∀ o, o = CAP_PTR ∨ 64 ≤ o → cfg_read 1 o h1 = cfg_read 1 o h) as Hh.
    { intros o Ho. unfold h1, reg_set. eval_layouts. rewrite !cfg_write_frame by (unfold CAP_PTR in Ho; lia). done. }
    destruct (capabilities_new_returns (cfg_read 1 CAP_PTR h1) h1) as [[caps|e] ->]; [|cbn [mbind outcome_bind]|cbn; eauto].
    { rewrite (hw_chain_same _ _ h) by auto. rewrite Hh by auto. done. }
    destruct (bar_info_returns PCI_BRIDGE_BARS h1) as ([] & h' & ->); [by right|cbn [mbind outcome_bind]; eauto..].
Qed.
End returns.

(** ** The tree in the arena *)
Section tree.
Context {H : Type}.
Implicit Types (a : list (PciDevice.t H)).
(** Devices in the arena, from the id [lo] on. *)
Definition ids_in (lo n : nat) (bds : list BusDevice.t) : Prop := Forall (λ bd, lo ≤ BusDevice.id bd < n)%nat bds.
(** The bus behind every bridge is known, and its devices come after the bridge. *)
Definition node_ok (n j : nat) (d : PciDevice.t H) : Prop :=
  enumerated d ∧ ∀ bds, child_devices d = Some bds → ids_in (S j) n bds.
Definition tree_ok a (root : list BusDevice.t) : Prop :=
  ids_in 0 (length a) root ∧ ∀ j d, a !! j = Some d → node_ok (length a) j d.

Lemma ids_in_mono lo lo' n n' bds : (lo' ≤ lo)%nat → (n ≤ n')%nat → ids_in lo n bds → ids_in lo' n' bds.
Proof. intros ? ? Hb. eapply list.Forall_impl; [exact Hb|]. cbn. lia. Qed.
Lemma node_ok_mono n n' j d : (n ≤ n')%nat → node_ok n j d → node_ok n' j d.
Proof. intros Hn [He Hc]. split; [done|]. intros bds Hb. eapply ids_in_mono; [done|exact Hn|auto]. Qed.

(** The search for the device behind a virtual address ends with one of the arena. *)
Lemma device_by_virtual_address_ok fuel a bus lo addr :
  (∀ j d, a !! j = Some d → node_ok (length a) j d) → (lo ≤ length a)%nat → ids_in lo (length a) (PciBus.devices bus) →
  (length a < lo + fuel)%nat →
  ∃ o, PcieRoot.device_by_virtual_address_on fuel a bus addr = Returns o ∧ ∀ id, o = Some id → (id < length a)%nat.
Proof.
  intros Ha. revert bus lo. induction fuel as [|fuel IH]; intros bus lo Hlo Hb Hf; [lia|].
  cbn [PcieRoot.device_by_virtual_address_on]. destruct (_ =? _).
  - eexists. split; [done|]. intros id. destruct (List.find _ _) as [bd|] eqn:E; [|done]. intros [= <-].
    apply find_some in E as [Hin%list_elem_of_In _]. unfold ids_in in Hb. rewrite list.Forall_forall in Hb.
    apply Hb in Hin. lia.
  - induction Hb as [|bd bds Hbd _ IHb]; [by exists None|].
    destruct (lookup_lt_is_Some_2 a (BusDevice.id bd)) as [d Hd]; [lia|]. rewrite Hd.
    cbn [unwrap_option mbind outcome_bind]. destruct d as [ep|b]; [done|].
    destruct (Ha _ _ Hd) as [[child Hc] Hch]. rewrite Hc. cbn [unwrap_option mbind outcome_bind].
    destruct (_ && _); [|done]. apply (IH child (S (BusDevice.id bd))); [lia| |lia].
    apply Hch. cbn. by rewrite Hc.
Qed.
End tree.

(** ** Enumeration *)
Section enumeration_facts.
Context `{HWL : ConfigHwLaws H} `{RFL : RegisterFieldsLaws}.
Variables (ecam : Address.t → H) (cs : PciConfigSpace.t).
Implicit Types (a : list (PciDevice.t H)) (d : PciDevice.t H).

(** A function that is present has its reset state: a capability list with an end,
    at an aligned offset, and nothing is enabled. *)
Definition reset_state (h : H) : Prop :=
  command_of h = 0 ∧ cfg_read 1 CAP_PTR h mod 4 = 0
  ∧ is_Some (hw_chain PciCapabilities.PARSE_FUEL (cfg_read 1 CAP_PTR h) h).
Definition ecam_ok : Prop :=
  ∀ address info, info_for ecam cs address = Some info → reset_state (ecam address).

(** A device that nobody owns and that does nothing. *)
Definition silent d : Prop := (∀ sp, enabled sp d = false) ∧ dma_enabled d = false.
Record unused d : Prop := {
  unused_wf : device_wf d;
  unused_owner : PciDevice.owner d = None;
  unused_attached : PciDevice.iommu_attached d = false;
  unused_silent : silent d;
}.

Lemma silent_command d : command_of (PciDevice.registers d) = 0 → silent d.
Proof using RFL.
  intros Hc. split; [intros sp; rewrite enabled_testbit|rewrite dma_enabled_testbit]; rewrite Hc; apply Z.bits_0.
Qed.
Lemma silent_same d d' : command_of (PciDevice.registers d') = command_of (PciDevice.registers d) → silent d → silent d'.
Proof. unfold silent, enabled, dma_enabled. by intros ->. Qed.

Lemma fresh_unused info h d : command_of h = 0 → fresh info h d → unused d.
Proof using HWL RFL.
  intros Hc [Hwf _ Ho Ha Hr _ _ _]. split; try done. apply silent_command. rewrite <-Hc.
  unfold command_of, reg_get. eval_layouts. apply Hr; lia.
Qed.

Lemma info_for_some address info : info_for ecam cs address = Some info →
  is_Some (PciConfigSpace.registers_for address cs) ∧ PciDeviceInfo.read_from address (ecam address) = Some info.
Proof. unfold info_for. destruct (PciConfigSpace.registers_for _ _); [eauto|done]. Qed.

(** Every function of a bus is listed with its own address. *)
Lemma functions_listed dev_addr i n info : info ∈ functions_from ecam cs dev_addr i n →
  ∃ address, info_for ecam cs address = Some info.
Proof.
  revert i. induction n as [|n IH]; intros i; cbn; [by intros ?%not_elem_of_nil|].
  destruct (info_for _ _ _) eqn:E; [|by intros ?%not_elem_of_nil]. intros [->|Hin]%elem_of_cons; eauto.
Qed.
Lemma bus_functions_listed bus_addr info : info ∈ bus_functions ecam cs bus_addr →
  ∃ address, info_for ecam cs address = Some info ∧ PciDeviceInfo.address info = address.
Proof.
  intros (dev_addr & Hin & _)%list_elem_of_bind. apply functions_listed in Hin as [address Ha]. exists address. split; [done|].
  apply info_for_some in Ha as [_ Hr]. revert Hr. unfold PciDeviceInfo.read_from. case_match; [done|]. by intros [= <-].
Qed.

(** The first loop appends the devices of the bus. *)
Lemma add_devices_spec infos a : ecam_ok →
  (∀ info, info ∈ infos → info_for ecam cs (PciDeviceInfo.address info) = Some info) →
  ∃ r a', add_devices ecam cs infos a = Returns (r, a') ∧
    ∀ bds, r = Ok bds → ∃ ds, a' = a ++ ds ∧ Forall unused ds ∧ BusDevice.id <$> bds = seq (length a) (length ds).
Proof using HWL RFL.
  intros Hok. revert a. induction infos as [|info infos IH]; intros a Hin; cbn [add_devices].
  { eexists _, _. split; [done|]. intros bds [= <-]. exists []. by rewrite app_nil_r. }
  pose proof (Hin info ltac:(by left)) as Hi. destruct (info_for_some _ _ Hi) as [[offs Hoffs] Hread].
  destruct (Hok _ _ Hi) as (Hcmd & Hptr & Hchain).
  destruct (device_new_returns info (ecam (PciDeviceInfo.address info)) Hchain) as [[d|e] Hd].
  all: erewrite bind_ok by (rewrite Hoffs; reflexivity); erewrite bind_ok by (rewrite Hd; reflexivity).
  2: { eexists _, _. split; [reflexivity|]. done. }
  erewrite !bind_ok by reflexivity.
  destruct (IH (a ++ [d])) as (r & a' & E & Hr). { intros i Hi'. apply Hin. by right. }
  destruct r as [bds|e].
  2: { erewrite bind_err by exact E. by eexists _, _. }
  erewrite bind_ok by exact E. eexists _, _. split; [reflexivity|]. intros ? [= <-].
  destruct (Hr _ eq_refl) as (ds & -> & Hds & Hids). exists (d :: ds).
  split; [by rewrite <-app_assoc|]. split.
  - constructor; [|done]. eapply fresh_unused; [done|]. apply new_fresh; [|done..]. by eapply read_from_wf.
  - cbn. rewrite Hids, length_app. cbn. f_equal. f_equal. lia.
Qed.

(** The part of the arena that a call adds. *)
Definition added a a' : Prop :=
  a `prefix_of` a' ∧ ∀ j d, (length a ≤ j)%nat → a' !! j = Some d → unused d ∧ node_ok (length a') j d.
(** What the enumeration of a bus with at least the number [lo] does. *)
Definition enumerates (enum : Z → M (list (PciDevice.t H)) PciError.t PciBus.t) (lo : Z) : Prop :=
  ∀ bus a, lo ≤ bus ≤ Bus.max → ∃ r a', enum bus a = Returns (r, a') ∧
    ∀ b, r = Ok b → bus ≤ PciBus.subordinate_bus_num b ≤ Bus.max
      ∧ ids_in (length a) (length a') (PciBus.devices b) ∧ added a a'.

(** Programming the bus numbers leaves the rest of the bridge. *)
Lemma assign_bus_range_unused range (b : PciBridge.t H) : unused (PciDevice.Bridge b) →
  unused (PciDevice.Bridge (PciBridge.assign_bus_range range b)).
Proof using HWL.
  intros [Hwf Ho Ha Hs]. split; [done..|]. eapply silent_same; [|exact Hs].
  unfold command_of, reg_get, PciBridge.assign_bus_range, reg_set. cbn [PciDevice.registers PciBridge.registers PciBridge.set_registers].
  eval_layouts. by rewrite !cfg_write_frame by lia.
Qed.
Lemma bridge_at_spec id a d : a !! id = Some d →
  bridge_at id a = Returns (Ok (match d with PciDevice.Bridge b => Some b | PciDevice.Endpoint _ => None end), a).
Proof. intros Hd. unfold bridge_at. msimpl. by rewrite Hd. Qed.

Lemma set_child_bus_unused bus (b : PciBridge.t H) : unused (PciDevice.Bridge b) →
  unused (PciDevice.Bridge (PciBridge.set_child_bus bus b)).
Proof. intros [Hwf Ho Ha Hs]. by split. Qed.

(** One turn of the second loop, for the device [i]: from [a] and [cur] to [a'] and [cur']. *)
Definition turn i a cur a' cur' : Prop :=
  cur ≤ cur' ≤ Bus.max ∧ (length a ≤ length a')%nat ∧ (∀ j, j ≠ i → (j < length a)%nat → a' !! j = a !! j)
  ∧ ∀ j d, (j = i ∨ length a ≤ j)%nat → a' !! j = Some d → unused d ∧ node_ok (length a') j d.
Lemma enumerate_bridges_turn enum lo bd bds cur a d : enumerates enum lo → a !! BusDevice.id bd = Some d → unused d →
  lo ≤ cur + 1 → cur ≤ Bus.max →
  (∃ e a', enumerate_bridges enum (bd :: bds) cur a = Returns (Err e, a')) ∨
  ∃ a' cur', enumerate_bridges enum (bd :: bds) cur a = enumerate_bridges enum bds cur' a'
    ∧ turn (BusDevice.id bd) a cur a' cur'.
Proof using HWL.
  intros Henum Hd Hu Hlo Hmax. cbn [enumerate_bridges]. set (i := BusDevice.id bd) in *.
  pose proof (lookup_lt_Some _ _ _ Hd) as Hi.
  unfold AddressComponent.next, AddressComponent.try_from. fold Bus.max.
  destruct (Z.ltb_spec Bus.max (cur + 1)) as [|Hnext]; [left; erewrite bind_err by reflexivity; eauto|].
  erewrite bind_ok by reflexivity. erewrite bind_ok by (by apply bridge_at_spec). destruct d as [ep|b].
  { right. exists a, cur. split; [done|]. split; [lia|]. split; [done|]. split; [done|]. intros j d Hj Hjd.
    pose proof (lookup_lt_Some _ _ _ Hjd). replace j with i in Hjd |- * by lia. rewrite Hd in Hjd. injection Hjd as <-. by split. }
  erewrite bind_ok by reflexivity.
  set (a1 := <[i := PciDevice.Bridge (PciBridge.assign_bus_range (BusRange.mk (cur + 1) Bus.max) b)]> a).
  assert (length a1 = length a) as Hl1 by apply length_insert.
  destruct (Henum (cur + 1) a1) as ([child|e] & a2 & E & Hc); [lia| |left; erewrite bind_err by exact E; eauto].
  erewrite bind_ok by exact E. destruct (Hc _ eq_refl) as (Hsub & Hch & [a3 Ha3] & Hnew).
  assert (∀ j, (j < length a)%nat → a2 !! j = a1 !! j) as Hold by (intros j Hj; rewrite Ha3; apply lookup_app_l; lia).
  pose proof (Hold i Hi) as Hi2. unfold a1 in Hi2. rewrite list_lookup_insert_eq in Hi2 by done.
  erewrite bind_ok by (by apply bridge_at_spec). erewrite !bind_ok by reflexivity.
  assert (length a ≤ length a2)%nat as Hl2 by (rewrite Ha3, length_app; lia).
  right. eexists _, _. split; [reflexivity|]. unfold turn. rewrite length_insert. split; [lia|]. split; [done|]. split.
  - intros j Hji Hj. rewrite list_lookup_insert_ne by done. rewrite Hold by done. unfold a1. by rewrite list_lookup_insert_ne.
  - intros j d Hj Hjd. destruct (decide (j = i)) as [->|].
    + rewrite list_lookup_insert_eq in Hjd by lia. injection Hjd as <-.
      split; [by apply set_child_bus_unused, assign_bus_range_unused, assign_bus_range_unused|]. split; [cbn; eauto|].
      intros bds' [= <-]. eapply ids_in_mono; [| |exact Hch]; lia.
    + rewrite list_lookup_insert_ne in Hjd by done. apply Hnew; [lia|done].
Qed.

(** The second loop, over the devices with ids from [i] on. *)
Lemma enumerate_bridges_spec enum lo bds i cur a : enumerates enum lo →
  BusDevice.id <$> bds = seq i (length bds) → (i + length bds ≤ length a)%nat →
  (∀ j d, (i ≤ j < i + length bds)%nat → a !! j = Some d → unused d) → lo ≤ cur + 1 → cur ≤ Bus.max →
  ∃ r a', enumerate_bridges enum bds cur a = Returns (r, a') ∧
    ∀ sub, r = Ok sub → cur ≤ sub ≤ Bus.max ∧ (length a ≤ length a')%nat
      ∧ (∀ j, (j < i ∨ i + length bds ≤ j < length a)%nat → a' !! j = a !! j)
      ∧ ∀ j d, (i ≤ j < i + length bds ∨ length a ≤ j)%nat → a' !! j = Some d → unused d ∧ node_ok (length a') j d.
Proof using HWL.
  intros Henum. revert i cur a. induction bds as [|bd bds IH]; intros i cur a Hids Hlen Hun Hlo Hmax.
  { eexists _, _. split; [done|]. intros sub [= <-]. split; [lia|]. split; [done|]. split; [done|].
    intros j d Hj Hd. apply lookup_lt_Some in Hd. cbn in Hj. lia. }
  cbn in Hids, Hlen. injection Hids as Hid Hids. destruct (lookup_lt_is_Some_2 a i) as [d Hd]; [lia|].
  destruct (enumerate_bridges_turn enum lo bd bds cur a d) as [(e & a' & ->)|(a1 & cur1 & -> & Hc & Hl & Hsame & Hnew)];
    [done|by rewrite Hid|apply (Hun i); [cbn; lia|done]|done|done|by eexists _, _|].
  rewrite Hid in Hsame, Hnew.
  destruct (IH (S i) cur1 a1) as (r & a' & -> & Hr); [done|lia| |lia..|].
  { intros j d' Hj. rewrite Hsame by lia. apply Hun. cbn. lia. }
  eexists _, _. split; [done|]. intros sub Hsub. destruct (Hr sub Hsub) as (Hs & Hl' & Hsame' & Hnew').
  split; [lia|]. split; [lia|]. split; [intros j Hj; cbn in Hj; rewrite Hsame' by lia; apply Hsame; lia|].
  intros j d' Hj Hjd. cbn in Hj. destruct (decide (j = i ∨ length a ≤ j < length a1)%nat) as [Hji|]; [|apply Hnew'; [lia|done]].
  rewrite Hsame' in Hjd by lia. destruct (Hnew j d') as [Hu Hn]; [lia|done|]. split; [done|]. eapply node_ok_mono; [|done]. lia.
Qed.

(** Bus numbers have 8 bits, so the fuel does not run out. *)
Lemma enumerate_enumerates fuel : ecam_ok → enumerates (enumerate ecam cs fuel) (Bus.max + 1 - Z.of_nat fuel).
Proof using HWL RFL.
  intros Hok. induction fuel as [|fuel IH]; intros bus a Hbus; [lia|]. cbn [enumerate].
  destruct (PciConfigSpace.bus bus cs) as [addr|]; [|erewrite bind_err by reflexivity; by eexists _, _].
  erewrite bind_ok by reflexivity.
  destruct (add_devices_spec (bus_functions ecam cs addr) a) as ([bds|e] & a1 & E & Hr); [done| | |erewrite bind_err by exact E; by eexists _, _].
  { intros info Hi. by destruct (bus_functions_listed _ _ Hi) as (? & Ha & ->). }
  erewrite bind_ok by exact E. destruct (Hr _ eq_refl) as (ds & -> & Hds & Hids).
  assert (length bds = length ds) as Hlen by (by rewrite <-(length_fmap BusDevice.id bds), Hids, length_seq).
  destruct (enumerate_bridges_spec (enumerate ecam cs fuel) (Bus.max + 1 - Z.of_nat fuel) bds (length a) bus (a ++ ds))
    as ([sub|e] & a' & E2 & Hs); [done|by rewrite Hlen|rewrite length_app; lia| |lia..| |erewrite bind_err by exact E2; by eexists _, _].
  { intros j d Hj Hd. rewrite lookup_app_r in Hd by lia. rewrite list.Forall_forall in Hds. apply Hds. by eapply list_elem_of_lookup_2. }
  erewrite bind_ok by exact E2. eexists _, _. split; [reflexivity|]. intros b [= <-].
  destruct (Hs _ eq_refl) as (Hsub & Hl & Hsame & Hnew). rewrite length_app in *. cbn [PciBus.devices]. split; [done|]. split.
  - unfold ids_in. rewrite <-(list.Forall_fmap BusDevice.id (λ j, length a ≤ j < length a')%nat), Hids.
    apply list.Forall_forall. intros j Hj%elem_of_seq. lia.
  - split; [|intros j d Hj; apply Hnew; lia]. exists (drop (length a) a').
    apply list_eq. intros j. destruct (decide (j < length a)%nat).
    + rewrite Hsame, !lookup_app_l by lia. done.
    + rewrite lookup_app_r, lookup_drop by lia. f_equal. lia.
Qed.
End enumeration_facts.
