(* ===== verification/PciRootFacts.v ===== *)
(** * The root complex: every history of accesses keeps the devices apart

    The hierarchy that is found at boot satisfies an invariant that configuration
    accesses of VMs, the distribution of devices and resources at boot and the
    attachment to the IOMMU keep: a device of a VM stays confined to memory of that VM. *)
From Stdlib Require Import ZifyBool.
From S2P Require Import Prelude RiscvPages Tracker PciRegs PciCaps PciSpaces PciDevices PciRoot PciConfigFacts.
From S2P Require Import PciGuestView PciProbeFacts PciSafety PciResourceFacts PciDecodeFacts PciEnumFacts.
Local Open Scope Z_scope.
Import PcieRoot(device_arena, root_bus).

(** ** Loops that keep a property *)
Lemma ends_for_each {S E A} (body : A → M S E unit) l (I : S → Prop) s :
  (∀ x s, x ∈ l → I s → ends (body x) s (λ _ s', I s')) → I s → ends (for_each l body) s (λ _ s', I s').
Proof.
  revert s. induction l as [|x l IH]; intros s Hb Hi; cbn [for_each]; [by eapply ends_pure|].
  apply ends_bind. eapply ends_impl; [apply Hb; [by left|done]|]. intros [[]|e] s' Hs'; [|done].
  apply IH; [|done]. intros y s1 Hy. apply Hb. by right.
Qed.

Section invariant.
Context `{HWL : ConfigHwLaws H} `{RFL : RegisterFieldsLaws}.
Implicit Types (d : PciDevice.t H) (s : PcieRoot.t H).
(** The addresses of the devices that are behind the IOMMU, with the VM. *)
Variable attached : Z → PageOwnerId.t → Prop.
Abbreviation address d := (PciDeviceInfo.address (PciDevice.info d)).

(** An unowned device is silent, and one of a VM accesses what the VM may access. *)
Definition owner_safe (pt : PageTracker.t) (rs : PciRootResources.t) d : Prop :=
  (PciDevice.iommu_attached d = true → ∃ g, PciDevice.owner d = Some g ∧ attached (address d) g) ∧
  match PciDevice.owner d with
  | None => silent d
  | Some g => g ≠ PageOwnerId.hypervisor → config_safe (MmioEmulationContext.mk pt g rs) d
  end.
Record root_inv (pt : PageTracker.t) s : Prop := {
  inv_resources : resources_ok (PcieRoot.resources s);
  inv_tree : tree_ok (device_arena s) (PciBus.devices (root_bus s));
  inv_devices : ∀ id d, device_arena s !! id = Some d → device_wf d ∧ owner_safe pt (PcieRoot.resources s) d;
}.

Lemma owner_safe_keep pt pt' rs rs' d : device_wf d → keeps_bars pt pt' → same_resources rs rs' →
  owner_safe pt rs d → owner_safe pt' rs' d.
Proof.
  intros Hwf Hk Hs [Ha Ho]. split; [done|]. destruct (PciDevice.owner d); [|done]. intros Hn.
  eapply config_safe_keep; eauto.
Qed.
Lemma keeps_bars_refl pt : keeps_bars pt pt.
Proof. by intros p g. Qed.

(** Replacing one device, with the bus behind it, keeps the rest. *)
Lemma tree_ok_insert a root id d d' : tree_ok a root → a !! id = Some d → enumerated d' → child_devices d' = child_devices d →
  tree_ok (<[id := d']> a) root.
Proof.
  intros [Hroot Hnodes] Hd He Hc. split; rewrite length_insert; [done|]. intros j x Hx.
  destruct (decide (j = id)) as [->|]; [|rewrite list_lookup_insert_ne in Hx by done; by apply Hnodes].
  rewrite list_lookup_insert_eq in Hx by (by eapply lookup_lt_Some). injection Hx as <-.
  split; [done|]. rewrite Hc. by apply (Hnodes id d Hd).
Qed.
Lemma update_device pt s id d d' : root_inv pt s → device_arena s !! id = Some d →
  device_wf d' → enumerated d' → child_devices d' = child_devices d → owner_safe pt (PcieRoot.resources s) d' →
  root_inv pt (PcieRoot.set_arena (<[id := d']> (device_arena s)) s).
Proof.
  intros [Hrs Ht Hds] Hd Hwf He Hc Ho. split; [done|by eapply tree_ok_insert|]. cbn. intros j x Hx.
  destruct (decide (j = id)) as [->|]; [|rewrite list_lookup_insert_ne in Hx by done; by apply (Hds j)].
  rewrite list_lookup_insert_eq in Hx by (by eapply lookup_lt_Some). by injection Hx as <-.
Qed.
Lemma update_resources pt s rs : root_inv pt s → resources_ok rs → same_resources (PcieRoot.resources s) rs →
  root_inv pt (PcieRoot.set_resources rs s).
Proof.
  intros [Hrs Ht Hds] Hok Hs. split; [done..|]. cbn. intros id d Hd. destruct (Hds id d Hd) as [Hwf Ho]. split; [done|].
  eapply owner_safe_keep; [done|apply keeps_bars_refl|done|done].
Qed.

(** ** Accesses of VMs *)
Lemma accessed_device_spec pt off len g s : root_inv pt s → 0 ≤ off →
  ∃ r, PcieRoot.accessed_device off len g s = Returns r ∧
    ∀ id d o, r = Ok (id, d, o) → device_arena s !! id = Some d ∧ PciDevice.owner d = Some g ∧ 0 ≤ o
      ∧ ∃ n : nat, len = Z.of_nat n ∧ (n ≤ 4)%nat.
Proof.
  intros [Hrs [Hroot Hnodes] Hds] Hoff. unfold PcieRoot.accessed_device.
  destruct (PcieRoot.valid_config_mmio_access off len) eqn:Hv; [|by eexists].
  cbn [negb]. unfold PcieRoot.virtual_config_offset_to_device.
  destruct (PciConfigSpace.offset_to_address off (PcieRoot.config_space s)) as [[address o]|] eqn:Eo; [|by eexists].
  destruct (device_by_virtual_address_ok (S (length (device_arena s))) (device_arena s) (root_bus s) 0 address)
    as (found & -> & Hf); [done|lia|done|lia|]. cbn [mbind outcome_bind].
  destruct found as [id|]; [|by eexists].
  destruct (lookup_lt_is_Some_2 (device_arena s) id) as [d Hd]; [by apply Hf|]. rewrite Hd. cbn [unwrap_option mbind outcome_bind].
  case_bool_decide as Hown; [by eexists|]. eexists. split; [done|]. intros id' d' o' [= <- <- <-].
  split; [done|]. split; [by destruct (decide (PciDevice.owner d = Some g))|]. split.
  - revert Eo. unfold PciConfigSpace.offset_to_address. destruct (_ <=? _); [done|].
    destruct (Address.try_from_components _ _ _ _); [|done]. cbn [mbind option_bind]. intros [= _ <-].
    apply Z.land_nonneg. by left.
  - exists (Z.to_nat len). unfold PcieRoot.valid_config_mmio_access in Hv. lia.
Qed.

(** A write of [g] keeps the invariant and changes at most a device of [g]. *)
Lemma config_write_inv pt off value len g s : root_inv pt s → 0 ≤ off →
  ∃ s', PcieRoot.emulate_config_write off value len pt g s = Returns s' ∧ root_inv pt s'
    ∧ ∀ id d, device_arena s !! id = Some d → PciDevice.owner d ≠ Some g → device_arena s' !! id = Some d.
Proof using HWL RFL.
  intros Hinv Hoff. unfold PcieRoot.emulate_config_write, PcieRoot.do_emulate_config_write.
  destruct (accessed_device_spec pt off len g s Hinv Hoff) as ([[[id d] o]|e] & -> & Hd); cbn [mbind outcome_bind]; [|eauto].
  destruct (Hd _ _ _ eq_refl) as (Hid & Hown & Ho & n & -> & Hn).
  destruct (inv_devices _ _ Hinv id d Hid) as [Hwf Hsafe].
  destruct (proj2 (inv_tree _ _ Hinv) id d Hid) as [He _].
  destruct (emulate_config_write_spec (MmioEmulationContext.mk pt g (PcieRoot.resources s)) d o (wrap32 value) n) as (d' & -> & [Hs Hc Hk]); [done..|].
  cbn [mbind outcome_bind]. eexists. split; [done|]. split.
  - eapply update_device; [done|done|by eapply shape_wf|by eapply children_enumerated|done|].
    unfold owner_safe, PciDevice.info, PciDevice.iommu_attached, PciDevice.owner in *. rewrite (shape_common _ _ Hs), Hown in *.
    destruct Hsafe. auto.
  - intros j x Hx Hne. cbn. rewrite list_lookup_insert_ne; [done|]. intros ->. congruence.
Qed.

(** ** The distribution at boot *)
Lemma set_common_wf c d : PciDeviceCommon.info c = PciDevice.info d →
  PciDeviceCommon.capabilities c = PciDeviceCommon.capabilities (PciDevice.common d) →
  PciDeviceCommon.bar_info c = PciDevice.bar_info d → device_wf d → device_wf (PciDevice.set_common c d).
Proof. destruct d; unfold device_wf, PciDevice.info, PciDevice.bar_info; cbn; by intros -> -> ->. Qed.
Lemma set_common_parts c d : PciDevice.registers (PciDevice.set_common c d) = PciDevice.registers d
  ∧ child_devices (PciDevice.set_common c d) = child_devices d
  ∧ (enumerated d → enumerated (PciDevice.set_common c d))
  ∧ PciDevice.common (PciDevice.set_common c d) = c
  ∧ PciDevice.bar_count (PciDevice.set_common c d) = PciDevice.bar_count d.
Proof. by destruct d. Qed.

Lemma silent_safe ctx d : silent d → config_safe ctx d.
Proof. intros [Hs Hd]. split; [intros sp; by rewrite Hs|by rewrite Hd]. Qed.
Lemma take_device o pt rs d : device_wf d → owner_safe pt rs d → enumerated d →
  let d' := final d (PciDevice.take o d) in
  device_wf d' ∧ owner_safe pt rs d' ∧ enumerated d' ∧ child_devices d' = child_devices d.
Proof.
  intros Hwf Ho He. unfold PciDevice.take. msimpl. destruct (PciDevice.owner d) as [o'|] eqn:E; cbn [final]; [done|].
  set (c := PciDeviceCommon.set_owner (Some o) (PciDevice.common d)).
  destruct (set_common_parts c d) as (Hr & Hc & Hen & Hcm & _). split; [by apply set_common_wf|].
  split; [|auto]. unfold owner_safe in *. rewrite E in Ho. destruct Ho as [Ha Ho].
  unfold PciDevice.owner, PciDevice.iommu_attached, PciDevice.info in *. rewrite Hcm.
  split; [intros (g & Hg & _)%Ha; congruence|]. intros _.
  apply silent_safe. eapply silent_same; [|exact Ho]. by rewrite Hr.
Qed.

Lemma take_host_devices_inv pt s : root_inv pt s → root_inv pt (PcieRoot.take_host_devices s).
Proof.
  intros [Hrs [Hroot Hn] Hds].
  assert (∀ id d, device_arena (PcieRoot.take_host_devices s) !! id = Some d →
    ∃ d0, device_arena s !! id = Some d0 ∧ d = final d0 (PciDevice.take PageOwnerId.host d0)) as Hl.
  { intros id d. cbn. rewrite list_lookup_fmap. destruct (device_arena s !! id) as [d0|]; [|done]. cbn. intros [= <-]. eauto. }
  split; [done| |].
  - split; cbn [PcieRoot.take_host_devices PcieRoot.set_arena device_arena root_bus]; rewrite length_fmap; [done|].
    intros id d (d0 & Hd0 & ->)%Hl. destruct (Hn id d0 Hd0) as [He Hc]. destruct (Hds id d0 Hd0).
    destruct (take_device PageOwnerId.host pt (PcieRoot.resources s) d0) as (_ & _ & He' & Hc'); [done..|].
    split; [done|]. by rewrite Hc'.
  - intros id d (d0 & Hd0 & ->)%Hl. destruct (Hds id d0 Hd0). destruct (Hn id d0 Hd0).
    destruct (take_device PageOwnerId.host pt (PcieRoot.resources s) d0) as (? & ? & _); [done..|]. done.
Qed.

(** A call on a resource that keeps it a resource. *)
Lemma on_resource_inv {A} ty (f : M PciRootResource.t PciError.t A) pt s (P : A → PciRootResource.t → Prop) : root_inv pt s →
  (∀ r, resource_ok r → ends f r (λ x r', resource_ok r' ∧ same_resource r r' ∧ ∀ a, x = Ok a → P a r')) →
  ends (PcieRoot.on_resource ty f) s (λ x s', root_inv pt s' ∧ device_arena s' = device_arena s
    ∧ ∀ a, x = Ok a → ∃ i r, PcieRoot.resources s' !! i = Some (Some r) ∧ P a r).
Proof.
  intros Hinv Hf. unfold PcieRoot.on_resource.
  destruct (PciRootResources.get ty (PcieRoot.resources s)) as [r|] eqn:E.
  2: { eapply ends_pure; [by rewrite E|]. done. }
  apply get_resource in E as Hi. pose proof (inv_resources _ _ Hinv) as Hrs.
  pose proof (proj2 Hrs) as Hall. rewrite list.Forall_forall in Hall.
  specialize (Hall (Some r) ltac:(by eapply list_elem_of_lookup_2)). cbn in Hall.
  destruct (Hf r Hall) as (x & r' & Ef & Hr' & Hs & Hp).
  eapply ends_pure; [rewrite E; rewrite Ef; reflexivity|].
  destruct (insert_resource _ _ _ r' Hrs Hi) as [Hok Hsame]; [done..|].
  split; [by apply update_resources|]. split; [done|]. intros a Ha. exists (ResourceType.index ty), r'. cbn.
  rewrite list_lookup_insert_eq by (by eapply lookup_lt_Some). auto.
Qed.

Lemma take_host_resource_inv ty pt s : root_inv pt s →
  ends (PcieRoot.take_host_resource ty) s (λ _ s', root_inv pt s').
Proof.
  intros Hinv. eapply ends_impl; [apply (on_resource_inv _ _ _ _ (λ _ _, True) Hinv)|by intros x s' [? _]].
  intros r (? & ? & ? & ? & ? & ?). unfold ends, PciRootResource.take_for_host. msimpl.
  destruct (PciRootResource.taken r); eexists _, _; (split; [reflexivity|]); split_and!; try done.
Qed.

Lemma alloc_hypervisor_resource_inv ty size pt s : root_inv pt s → 0 < size ≤ 2 ^ 63 →
  ends (PcieRoot.alloc_hypervisor_resource ty size) s (λ x s', root_inv pt s' ∧ device_arena s' = device_arena s
    ∧ ∀ range, x = Ok range → is_Some (PciRootResources.physical_to_pci_addr (PageAddrRange.base range) (PcieRoot.resources s'))).
Proof.
  intros Hinv Hsize. unfold PcieRoot.alloc_hypervisor_resource. apply ends_bind. eapply ends_pure; [done|].
  apply ends_bind. destruct (PciRootResources.find_matching ty (PcieRoot.resources s)) as [ty'|].
  2: { by eapply ends_pure. }
  eapply ends_pure; [done|]. cbn. apply ends_bind.
  eapply ends_impl; [apply (on_resource_inv ty' _ pt s (λ base r, PciRootResource.addr r ≤ base ≤ PciRootResource.addr r + PciRootResource.total_size r) Hinv)|].
  - intros r Hr. destruct (alloc_for_hypervisor_spec size r Hr Hsize) as (x & r' & E & Hr' & Hs & Hh & Hx).
    exists x, r'. split; [done|]. split; [done|]. split; [done|]. intros base ->. destruct (Hx base eq_refl) as (-> & _ & _).
    destruct Hr' as (? & ? & ? & ? & ? & ?), Hs as (Hsa & _). lia.
  - intros [base|e] s' (Hinv' & Ha & Hb); [|done]. eapply ends_pure; [done|]. split; [done|]. split; [done|].
    intros range [= <-]. destruct (Hb base eq_refl) as (i & r & Hi & Hr). cbn.
    eapply physical_to_pci_some; [apply Hinv'|done|done].
Qed.

(** ** The hypervisor's own device *)
(** The device [id] is the hypervisor's, and has the given BARs. *)
Definition hypervisor_has pt (id : nat) (bars : PciDeviceBarInfo.t) s : Prop :=
  root_inv pt s ∧ ∃ d, device_arena s !! id = Some d ∧ PciDevice.owner d = Some PageOwnerId.hypervisor
    ∧ PciDevice.bar_info d = bars.

(** Its registers are not the concern of any VM. *)
Lemma on_hypervisor_device {A} pt id bars s (f : M (PciDevice.t H) PciError.t A) (P : result PciError.t A → Prop) :
  hypervisor_has pt id bars s →
  (∀ d, device_wf d → PciDevice.bar_info d = bars → ends f d (λ x d', shape d' = shape d ∧ child_devices d' = child_devices d ∧ P x)) →
  ends (PcieRoot.on_device id f) s (λ x s', hypervisor_has pt id bars s' ∧ P x).
Proof.
  intros [Hinv (d & Hd & Ho & Hb)] Hf. destruct (inv_devices _ _ Hinv id d Hd) as [Hwf _].
  destruct (Hf d Hwf Hb) as (x & d' & E & Hs & Hc & Hp). unfold PcieRoot.on_device.
  eapply ends_pure; [rewrite Hd, E; reflexivity|]. split; [|done].
  assert (PciDevice.owner d' = Some PageOwnerId.hypervisor) as Ho'.
  { unfold PciDevice.owner in *. by rewrite (shape_common _ _ Hs). }
  split.
  - eapply update_device; [done|done|by eapply shape_wf| |done|].
    + eapply children_enumerated; [done|done|]. apply (proj2 (inv_tree _ _ Hinv) id d Hd).
    + destruct (inv_devices _ _ Hinv id d Hd) as [_ [Ha _]]. split; [|by rewrite Ho'].
      unfold PciDevice.iommu_attached, PciDevice.info, PciDevice.owner in *. by rewrite (shape_common _ _ Hs).
  - exists d'. cbn. rewrite list_lookup_insert_eq by (by eapply lookup_lt_Some). split; [done|]. split; [done|].
    unfold PciDevice.bar_info in *. by rewrite (shape_common _ _ Hs).
Qed.
Lemma modify_command_shape name v d : shape (PciDevice.modify_command name v d) = shape d
  ∧ child_devices (PciDevice.modify_command name v d) = child_devices d.
Proof. unfold PciDevice.modify_command. by rewrite set_registers_shape, set_registers_children. Qed.
Lemma enable_hypervisor_device name v pt id bars s : hypervisor_has pt id bars s →
  ends (PcieRoot.on_device id (modify (PciDevice.modify_command name v))) s (λ _ s', hypervisor_has pt id bars s').
Proof.
  intros Hs. eapply ends_impl; [apply (on_hypervisor_device _ _ _ _ _ (λ _, True) Hs)|by intros x s' [? _]].
  intros d _ _. eapply ends_pure; [done|]. destruct (modify_command_shape name v d). done.
Qed.
Lemma set_bar_addr_spec b base d : device_wf d → b ∈ PciDevice.bar_info d →
  ends (PciDevice.set_bar_addr (PciBarInfo.index b) base) d
    (λ x d', shape d' = shape d ∧ child_devices d' = child_devices d ∧ is_ok x = true).
Proof.
  intros (_ & _ & Hw & Ha) Hb. unfold PciDevice.set_bar_addr. apply ends_bind. eapply ends_pure; [done|]. cbn beta match.
  rewrite (get_own _ b Ha Hb). rewrite list.Forall_forall in Hw. destruct (Hw b Hb) as (Hi & H64 & _).
  apply ends_bind. eapply ends_pure; [unfold PciDevice.bar_reg; rewrite (decide_True _ _ Hi); done|].
  apply ends_bind. eapply ends_pure; [done|]. cbn beta match.
  destruct (ResourceType.is_64bit (PciBarInfo.bar_type b)) eqn:E64.
  - apply ends_bind. eapply ends_pure; [unfold PciDevice.bar_reg; rewrite (decide_True _ _ (H64 eq_refl)); done|].
    eapply ends_pure; [done|]. by rewrite !set_registers_shape, !set_registers_children.
  - eapply ends_pure; [done|]. by rewrite !set_registers_shape, !set_registers_children.
Qed.

Lemma take_hypervisor_device pt id d s : root_inv pt s → device_arena s !! id = Some d →
  ends (PcieRoot.on_device id (PciDevice.take PageOwnerId.hypervisor)) s
    (λ x s', root_inv pt s' ∧ (is_ok x = true → hypervisor_has pt id (PciDevice.bar_info d) s')).
Proof.
  intros Hinv Hd. destruct (inv_devices _ _ Hinv id d Hd) as [Hwf Ho]. destruct (proj2 (inv_tree _ _ Hinv) id d Hd) as [He _].
  destruct (take_device PageOwnerId.hypervisor pt (PcieRoot.resources s) d) as (Hwf' & Ho' & He' & Hc); [done..|].
  assert (∃ x, PciDevice.take PageOwnerId.hypervisor d = Returns (x, final d (PciDevice.take PageOwnerId.hypervisor d))
    ∧ (is_ok x = true → PciDevice.owner (final d (PciDevice.take PageOwnerId.hypervisor d)) = Some PageOwnerId.hypervisor
        ∧ PciDevice.bar_info (final d (PciDevice.take PageOwnerId.hypervisor d)) = PciDevice.bar_info d)) as (x & E & Hx).
  { unfold PciDevice.take. msimpl. destruct (PciDevice.owner d); cbn [final]; eexists; (split; [done|]); [done|].
    intros _. unfold PciDevice.owner, PciDevice.bar_info. by rewrite (proj1 (proj2 (proj2 (proj2 (set_common_parts _ d))))). }
  assert (root_inv pt (PcieRoot.set_arena (<[id := final d (PciDevice.take PageOwnerId.hypervisor d)]> (device_arena s)) s)) as Hinv'
    by (by eapply update_device).
  unfold PcieRoot.on_device. eapply ends_pure; [rewrite Hd, E; reflexivity|]. split; [done|].
  intros [Hown Hbars]%Hx. split; [done|]. eexists. cbn. rewrite list_lookup_insert_eq by (by eapply lookup_lt_Some).
  split; [done|]. done.
Qed.

Lemma map_hypervisor_bar pt id bars b s : hypervisor_has pt id bars s → b ∈ bars →
  ends (range ← PcieRoot.alloc_hypervisor_resource (PciBarInfo.bar_type b) (PciBarInfo.size b);
        s ← get;
        base ← of_outcome (unwrap_option (PciRootResources.physical_to_pci_addr (PageAddrRange.base range) (PcieRoot.resources s)));
        unwrap (PcieRoot.on_device id (PciDevice.set_bar_addr (PciBarInfo.index b) base))) s
    (λ (_ : result PciError.t unit) s', hypervisor_has pt id bars s').
Proof.
  intros [Hinv (d & Hd & Ho & Hbars)] Hb. destruct (inv_devices _ _ Hinv id d Hd) as [Hwf _].
  assert (0 < PciBarInfo.size b ≤ 2 ^ 63) as Hsize.
  { destruct Hwf as (_ & _ & Hw & _). rewrite Hbars, list.Forall_forall in Hw. destruct (Hw b Hb) as (_ & _ & Hp & Hlt).
    apply power_of_two_max in Hp; [|done]. done. }
  apply ends_bind. eapply ends_impl; [by apply alloc_hypervisor_resource_inv|].
  intros [range|e] s' (Hinv' & Ha & Hr); [|split; [done|]; exists d; by rewrite Ha].
  destruct (Hr range eq_refl) as [base Hbase].
  apply ends_bind. eapply ends_pure; [done|]. cbn beta match. apply ends_bind. eapply ends_pure; [rewrite Hbase; done|]. cbn beta match.
  destruct (on_hypervisor_device pt id bars s' (PciDevice.set_bar_addr (PciBarInfo.index b) base) (λ x, is_ok x = true)) as ([[]|e] & s'' & E & Hh & Hok).
  - split; [done|]. exists d. by rewrite Ha.
  - intros d' Hwf' Hb'. apply set_bar_addr_spec; [done|]. by rewrite Hb'.
  - eapply ends_pure; [unfold unwrap; rewrite E; reflexivity|]. done.
  - done.
Qed.

Lemma take_and_enable_inv vid did pt s : root_inv pt s →
  ends (PcieRoot.take_and_enable_hypervisor_device vid did) s (λ _ s', root_inv pt s').
Proof.
  intros Hinv. unfold PcieRoot.take_and_enable_hypervisor_device. apply ends_bind. eapply ends_pure; [done|]. cbn beta match zeta.
  apply ends_bind. destruct (position _ (device_arena s)) as [id|] eqn:Ep; [|by eapply ends_pure].
  eapply ends_pure; [done|]. cbn [ok_or].
  destruct (negb _); [by eapply ends_pure|]. destruct (position_Some _ _ _ Ep) as (d & Hd & _).
  apply ends_bind. eapply ends_impl; [by apply take_hypervisor_device|].
  intros [[]|e] s1 [Hinv1 Hh]; [|done]. specialize (Hh eq_refl).
  apply ends_bind. eapply ends_pure; [rewrite Hd; done|]. cbn beta match zeta.
  set (bars := PciDevice.bar_info d) in *.
  apply ends_bind. eapply ends_impl; [apply (ends_for_each _ bars (hypervisor_has pt id bars))|]; [|done|].
  { intros b s2 Hb Hs2. by apply map_hypervisor_bar. }
  intros [[]|e] s2 Hs2; [|by apply Hs2].
  assert (∀ (c : bool) name s, hypervisor_has pt id bars s →
    ends (if c then PcieRoot.on_device id (modify (PciDevice.modify_command name 1)) else mret tt) s
      (λ _ s', hypervisor_has pt id bars s')) as Hen.
  { intros [] name s3 Hs3; [by apply enable_hypervisor_device|by eapply ends_pure]. }
  apply ends_bind. eapply ends_impl; [by apply Hen|]. intros [[]|e] s3 Hs3; [|by apply Hs3].
  apply ends_bind. eapply ends_impl; [by apply Hen|]. intros [[]|e] s4 Hs4; [|by apply Hs4].
  apply ends_bind. eapply ends_impl; [by apply enable_hypervisor_device|]. intros [[]|e] s5 Hs5; [|by apply Hs5].
  eapply ends_pure; [done|]. apply Hs5.
Qed.

(** ** The IOMMU *)
Lemma attach_inv pt id d s : root_inv pt s → device_arena s !! id = Some d →
  (∃ g, PciDevice.owner d = Some g ∧ attached (address d) g) →
  root_inv pt (PcieRoot.set_arena (<[id := PciDevice.set_iommu_attached d]> (device_arena s)) s).
Proof.
  intros Hinv Hd Hat. destruct (inv_devices _ _ Hinv id d Hd) as [Hwf [_ Ho]]. destruct (proj2 (inv_tree _ _ Hinv) id d Hd) as [He _].
  eapply update_device; [done|done|by apply set_common_wf|by destruct d|by destruct d|].
  split; [by destruct d|]. replace (PciDevice.owner (PciDevice.set_iommu_attached d)) with (PciDevice.owner d) by (by destruct d).
  destruct (PciDevice.owner d) as [g|]; [|by destruct d]. intros Hg. destruct (Ho Hg) as [Hen _]. split; [|by destruct d].
  intros sp Hsp. rewrite <-(Hen sp) by (by destruct d). by destruct d, sp.
Qed.

(** ** Histories *)
(** What happens to the root complex after it was probed: configuration writes of VMs,
    the distribution of devices and resources, an IOMMU that takes a device, and any
    change of the pages that leaves the mapped BAR pages as they are. *)
Inductive pci_op :=
  | ConfigWrite (g : PageOwnerId.t) (offset value len : Z)
  | TakeHostDevices
  | TakeHostResource (ty : PciResourceType.t)
  | TakeHypervisorDevice (vendor_id device_id : Z)
  | AttachDevice (id : nat)
  | PagesChange (pt : PageTracker.t).
Abbreviation pci_state := (PageTracker.t * PcieRoot.t H)%type.

Definition run_op (op : pci_op) (st : pci_state) : outcome pci_state :=
  let '(pt, s) := st in
  match op with
  | ConfigWrite g offset value len => s' ← PcieRoot.emulate_config_write offset value len pt g s; Returns (pt, s')
  | TakeHostDevices => Returns (pt, PcieRoot.take_host_devices s)
  | TakeHostResource ty => '(_, s') ← PcieRoot.take_host_resource ty s; Returns (pt, s')
  | TakeHypervisorDevice v d => '(_, s') ← PcieRoot.take_and_enable_hypervisor_device v d s; Returns (pt, s')
  | AttachDevice id => '(_, s') ← PcieRoot.on_device id (modify PciDevice.set_iommu_attached) s; Returns (pt, s')
  | PagesChange pt' => Returns (pt', s)
  end.
Definition admissible (op : pci_op) (st : pci_state) : Prop :=
  match op with
  | ConfigWrite _ offset _ _ => 0 ≤ offset
  | AttachDevice id => ∃ d g, device_arena st.2 !! id = Some d ∧ PciDevice.owner d = Some g
  | PagesChange pt' => keeps_bars st.1 pt'
  | _ => True
  end.
(** The device that an operation attaches is known to the IOMMU. *)
Definition known_to_iommu (op : pci_op) (st : pci_state) : Prop :=
  match op with
  | AttachDevice id => ∀ d g, device_arena st.2 !! id = Some d → PciDevice.owner d = Some g → attached (address d) g
  | _ => True
  end.
Inductive reachable (s0 : PcieRoot.t H) : pci_state → Prop :=
  | reachable_init pt : reachable s0 (pt, s0)
  | reachable_step st op st' : reachable s0 st → admissible op st → run_op op st = Returns st' → reachable s0 st'.

Lemma run_op_inv op st : root_inv st.1 st.2 → admissible op st → known_to_iommu op st →
  ∃ st', run_op op st = Returns st' ∧ root_inv st'.1 st'.2.
Proof using HWL RFL.
  destruct st as [pt s]. cbn [fst snd]. intros Hinv Hadm Hknown.
  destruct op as [g off v len| |ty|vid did|id|pt']; cbn [run_op admissible known_to_iommu fst snd] in *.
  - destruct (config_write_inv pt off v len g s Hinv Hadm) as (s' & -> & Hs' & _). eexists. by split.
  - eexists. split; [done|]. by apply take_host_devices_inv.
  - destruct (take_host_resource_inv ty pt s Hinv) as (x & s' & -> & Hs'). eexists. by split.
  - destruct (take_and_enable_inv vid did pt s Hinv) as (x & s' & -> & Hs'). eexists. by split.
  - destruct Hadm as (d & g & Hd & Hg). unfold PcieRoot.on_device. rewrite Hd. eexists. split; [done|].
    apply attach_inv; eauto.
  - eexists. split; [done|]. destruct Hinv as [Hrs Ht Hds]. split; [done..|]. intros id d Hd. destruct (Hds id d Hd). split; [done|].
    eapply owner_safe_keep; [done|done|apply same_resources_refl|done].
Qed.

(** The enumeration of the hierarchy, from the first bus of the root complex. *)
Lemma probe_spec_root ecam cs rs : ecam_ok ecam cs → 0 ≤ BusRange.start (PciConfigSpace.bus_range cs) ≤ Bus.max →
  ∃ r, PcieRoot.probe ecam cs rs = Returns r ∧ ∀ s, r = Ok s →
    PcieRoot.resources s = rs ∧ tree_ok (device_arena s) (PciBus.devices (root_bus s)) ∧ Forall unused (device_arena s).
Proof using HWL RFL.
  intros Hok Hb. unfold PcieRoot.probe.
  destruct (enumerate_enumerates ecam cs 256 Hok (BusRange.start (PciConfigSpace.bus_range cs)) []) as (r & a & -> & Hr).
  { assert (Bus.max = 255) by done. lia. }
  eexists. split; [done|]. destruct r as [bus|e]; [|done]. intros s [= <-].
  destruct (Hr bus eq_refl) as (_ & Hids & _ & Hnew). split; [done|]. split.
  - split; [done|]. intros j d Hd. apply Hnew; [cbn; lia|done].
  - apply Forall_lookup. intros j d Hd. apply (Hnew j d); [cbn; lia|done].
Qed.
Lemma reachable_inv s0 st : (∀ a g, attached a g) → (∀ pt, root_inv pt s0) → reachable s0 st → root_inv st.1 st.2.
Proof using HWL RFL.
  intros Hat H0'. induction 1 as [pt|st op st' _ IH Hadm E]; [apply H0'|].
  destruct (run_op_inv op st IH Hadm) as (st'' & E' & Hinv); [destruct op; cbn; auto|]. congruence.
Qed.
Lemma probe_inv ecam cs rs s0 pt : ecam_ok ecam cs → 0 ≤ BusRange.start (PciConfigSpace.bus_range cs) ≤ Bus.max → resources_ok rs →
  PcieRoot.probe ecam cs rs = Returns (Ok s0) → root_inv pt s0.
Proof using HWL RFL.
  intros Hok Hb Hrs E. destruct (probe_spec_root ecam cs rs Hok Hb) as (r & E' & Hr).
  destruct (Hr s0) as (Hres & Ht & Hun); [congruence|]. split; [congruence|done|]. intros id d Hd.
  rewrite list.Forall_forall in Hun. destruct (Hun d) as [Hwf Ho Ha Hs]; [by eapply list_elem_of_lookup_2|].
  split; [done|]. split; [by rewrite Ha|]. by rewrite Ho.
Qed.
End invariant.

(** More devices behind the IOMMU are harmless. *)
Lemma root_inv_mono `{HW : ConfigHw H} `{RF : RegisterFields} (att att' : Z → PageOwnerId.t → Prop) pt (s : PcieRoot.t H) :
  (∀ a g, att a g → att' a g) → root_inv att pt s → root_inv att' pt s.
Proof.
  intros Ha [Hrs Ht Hds]. split; [done..|]. intros id d Hd. destruct (Hds id d Hd) as (Hwf & Hat & Ho). split; [done|].
  split; [naive_solver|done].
Qed.
