(* ===== verification/PciAddressFacts.v ===== *)
(** * Addresses of configuration spaces

    The memory-mapped configuration space and the addresses of functions. *)
From Stdlib Require Import ZifyBool.
From S2P Require Import Prelude RiscvPages PciRegs PciCaps PciSpaces.
Local Open Scope Z_scope.

(** An address is the number made of its components. *)
Lemma address_new_sum bus dev func : 0 ≤ bus → 0 ≤ dev < 32 → 0 ≤ func < 8 → Address.new 0 bus dev func = bus * 256 + dev * 8 + func.
Proof.
  intros Hb Hd Hf. unfold Address.new. change (Z.shiftl 0 _) with 0. rewrite Z.lor_0_l. cbv [Bus.SHIFT Device_.SHIFT].
  rewrite (Z.lor_comm _ func), (Z.lor_comm (Z.shiftl bus 8)).
  replace (Z.lor (Z.shiftl dev 3) (Z.shiftl bus 8)) with (Z.shiftl (Z.lor dev (Z.shiftl bus 5)) 3)
    by (rewrite Z.shiftl_lor, Z.shiftl_shiftl by lia; done).
  rewrite (lor_fields dev), (lor_fields func) by lia. lia.
Qed.

Lemma land_max x bits : 0 ≤ bits → Z.land x (AddressComponent.MAX_VAL bits) = x mod 2 ^ bits.
Proof. intros Hb. unfold AddressComponent.MAX_VAL. rewrite Z.shiftl_1_l, Z.sub_1_r, <-Z.ones_equiv. by apply Z.land_ones. Qed.
Lemma address_components bus dev func : 0 ≤ bus < 256 → 0 ≤ dev < 32 → 0 ≤ func < 8 →
  let a := bus * 256 + dev * 8 + func in
  Address.bus a = bus ∧ Address.device a = dev ∧ Address.function a = func.
Proof.
  intros Hb Hd Hf a. unfold Address.bus, Address.device, Address.function.
  rewrite !land_max by done. cbv [Bus.SHIFT Device_.SHIFT Bus.BITS Device_.BITS Function_.BITS].
  rewrite !Z.shiftr_div_pow2 by lia. change (2 ^ 8) with 256. change (2 ^ 3) with 8. change (2 ^ 5) with 32. unfold a.
  split_and!; (try (replace (bus * 256 + dev * 8 + func) with (func + (bus * 32 + dev) * 8) by lia));
    (try (replace (_ / 256) with bus by (apply Z.div_unique with (dev * 8 + func); lia)));
    (try (replace (_ / 8) with (bus * 32 + dev) by (apply Z.div_unique with func; lia)));
    rewrite ?Z.mod_add by lia; try (apply Z.mod_small; lia).
  replace (bus * 32 + dev) with (dev + bus * 32) by lia. rewrite Z.mod_add by lia. apply Z.mod_small. lia.
Qed.
Lemma try_from_components_ok bus dev func : bus < 256 → dev < 32 → func < 8 →
  Address.try_from_components 0 bus dev func = Some (Address.new 0 bus dev func).
Proof.
  intros Hb Hd Hf. unfold Address.try_from_components, AddressComponent.try_from.
  change (AddressComponent.MAX_VAL Segment.BITS <? 0) with false. change (AddressComponent.MAX_VAL Bus.BITS) with 255.
  change (AddressComponent.MAX_VAL Device_.BITS) with 31. change (AddressComponent.MAX_VAL Function_.BITS) with 7.
  replace (255 <? bus) with false by lia. replace (31 <? dev) with false by lia. replace (7 <? func) with false by lia. done.
Qed.

(** The two translations of the configuration space agree.  On segment 0, every
    offset in the memory-mapped space belongs to one function, whose registers start at
    the page of the offset; the components of the function's address are the fields of
    the offset. *)
Theorem ecam_roundtrip (c : PciConfigSpace.t) o :
  PciConfigSpace.segment c = 0 → 0 ≤ BusRange.start (PciConfigSpace.bus_range c) →
  0 < PciConfigSpace.config_base c → PciConfigSpace.config_base c + PciConfigSpace.config_size c ≤ U64 →
  PciConfigSpace.config_size c mod 4096 = 0 →
  PciConfigSpace.config_size c ≤ (256 - BusRange.start (PciConfigSpace.bus_range c)) * 2 ^ 20 →
  0 ≤ o < PciConfigSpace.config_size c →
  ∃ a, PciConfigSpace.offset_to_address o c = Some (a, o mod 4096)
    ∧ PciConfigSpace.registers_for a c = Some (PciConfigSpace.config_base c + (o - o mod 4096))
    ∧ Address.bus a = o / 2 ^ 20 + BusRange.start (PciConfigSpace.bus_range c) ∧ Address.device a = o / 2 ^ 15 mod 32 ∧ Address.function a = o / 2 ^ 12 mod 8.
Proof.
  intros Hseg Hs Hb Hbs Hsz Hmax Ho. set (start := BusRange.start (PciConfigSpace.bus_range c)) in *.
  assert (o / 2 ^ 20 < 256 - start) as Hbus by (apply Z.div_lt_upper_bound; lia).
  assert (0 ≤ o / 2 ^ 20) as Hbus0 by (apply Z.div_pos; lia).
  pose proof (Z.mod_pos_bound (o / 2 ^ 15) 32 ltac:(lia)) as Hdev. pose proof (Z.mod_pos_bound (o / 2 ^ 12) 8 ltac:(lia)) as Hfn.
  set (a := (o / 2 ^ 20 + start) * 256 + o / 2 ^ 15 mod 32 * 8 + o / 2 ^ 12 mod 8).
  assert (a = start * 256 + o / 4096) as Ha.
  { unfold a. change 4096 with (2 ^ 12). set (q := o / 2 ^ 12).
    replace (o / 2 ^ 15) with (q / 8) by (unfold q; rewrite Z.div_div by lia; done).
    replace (o / 2 ^ 20) with (q / 8 / 32) by (unfold q; rewrite !Z.div_div by lia; done).
    pose proof (Z.div_mod q 8 ltac:(lia)). pose proof (Z.div_mod (q / 8) 32 ltac:(lia)). lia. }
  exists a. split; [|split; [|by apply address_components; lia]].
  - assert (∀ k, 12 ≤ k → wrap32 (Z.shiftr o k) = o / 2 ^ k) as Hw.
    { intros k Hk. rewrite Z.shiftr_div_pow2 by lia. unfold wrap32. apply Z.mod_small. split; [apply Z.div_pos; lia|].
      apply Z.div_lt_upper_bound; [lia|]. assert (2 ^ 12 ≤ 2 ^ k) by (apply Z.pow_le_mono_r; lia). nia. }
    unfold PciConfigSpace.offset_to_address. replace (_ <=? o) with false by lia. rewrite !land_max by done. fold start.
    rewrite !Hw by (vm_compute; congruence). rewrite Hseg.
    change (2 ^ Bus.BITS) with 256. change (2 ^ Device_.BITS) with 32. change (2 ^ Function_.BITS) with 8.
    cbv [PciConfigSpace.PCIE_ECAM_BUS_SHIFT PciConfigSpace.PCIE_ECAM_DEV_SHIFT PciConfigSpace.PCIE_ECAM_FN_SHIFT].
    rewrite (Z.mod_small (o / 2 ^ 20)) by lia. rewrite try_from_components_ok, address_new_sum by lia.
    cbn [mbind option_bind]. do 2 f_equal. by apply (Z.land_ones o 12).
  - pose proof (Z.div_mod o 4096 ltac:(lia)) as Hdm. pose proof (Z.mod_pos_bound o 4096 ltac:(lia)).
    assert (o / 4096 * 4096 + 4096 ≤ PciConfigSpace.config_size c) as Hend.
    { pose proof (Z.div_mod (PciConfigSpace.config_size c) 4096 ltac:(lia)). nia. }
    unfold PciConfigSpace.registers_for, PciConfigSpace.config_space_offset, Address.bus_address. fold start.
    cbv [Bus.SHIFT PciConfigSpace.PCIE_ECAM_FN_SHIFT PciConfigSpace.PCIE_FUNCTION_CONFIG_SIZE].
    rewrite (Z.shiftl_mul_pow2 start) by lia. change (2 ^ 8) with 256. unfold checked_sub. rewrite Ha.
    replace (start * 256 <=? _) with true by lia. cbn [mbind option_bind].
    rewrite Z.shiftl_mul_pow2 by lia. change (2 ^ 12) with 4096. unfold wrap64.
    replace ((start * 256 + o / 4096 - start * 256) * 4096) with (o - o mod 4096) by lia.
    rewrite (Z.mod_small (o - o mod 4096)) by lia. unfold checked_add. replace (_ <? U64) with true by lia. cbn [mbind option_bind].
    replace (_ <? _) with false by lia. rewrite Z.mod_small by lia. by replace (_ =? 0) with false by lia.
Qed.
Lemma ecam_roundtrip_witness :
  ∃ a, PciConfigSpace.offset_to_address 0x10a014 (PciConfigSpace.mk 0x30000000 0x10000000 0 (BusRange.mk 0 255)) = Some (a, 0x14)
    ∧ Address.bus a = 1 ∧ Address.device a = 1 ∧ Address.function a = 2.
Proof.
  destruct (ecam_roundtrip (PciConfigSpace.mk 0x30000000 0x10000000 0 (BusRange.mk 0 255)) 0x10a014)
    as (a & Ho & _ & Hb & Hd & Hf); [by vm_compute..|]. exists a. split; [exact Ho|]. split; [exact Hb|]. split; [exact Hd|exact Hf].
Defined.
