(* ===== verification/PciNodeFacts.v ===== *)
(** * The host's view of the root complex

    The node that the host gets describes the same configuration space, and the
    resources without what the hypervisor has allocated from them. *)
From Stdlib Require Import ZifyBool.
From S2P Require Import Prelude RiscvPages MemMap PciRegs PciCaps PciSpaces PciDevices PciRoot PciProbe.
From S2P Require Import PciResourceFacts PciDecodeFacts PciAddressFacts.
Local Open Scope Z_scope.

Lemma u64_cells_roundtrip x : u64 x → U64Cell (wrap32 (Z.shiftr x 32)) (wrap32 x) = x.
Proof.
  intros Hx. unfold U64Cell, wrap32, u64 in *. pose proof (Z.mod_pos_bound x (2 ^ 32) ltac:(lia)).
  rewrite Z.lor_comm, lor_fields, Z.shiftr_div_pow2 by lia.
  rewrite (Z.mod_small (x / 2 ^ 32)) by (split; [apply Z.div_pos; lia|apply Z.div_lt_upper_bound; lia]).
  pose proof (Z.div_mod x (2 ^ 32)). lia.
Qed.
Lemma dt_cell_roundtrip ty : ResourceType.from_dt_cell (ResourceType.to_dt_cell ty) = Returns (Some ty).
Proof. by destruct ty. Qed.
Lemma index_roundtrip i : (i < ResourceType.MAX_RESOURCE_TYPES)%nat →
  ∃ ty, ResourceType.from_index i = Some ty ∧ ResourceType.index ty = i.
Proof.
  change (ResourceType.MAX_RESOURCE_TYPES) with 5%nat. intros Hi.
  do 5 (destruct i as [|i]; [by eexists|]). lia.
Qed.

(** What of a resource the host gets. *)
Definition host_view (r : PciRootResource.t) : PciRootResource.t :=
  PciRootResource.new (PciRootResource.addr r) (PciRootResource.host_size r) (PciRootResource.pci_addr r).
Definition shareable (r : PciRootResource.t) : Prop := resource_ok r ∧ PciRootResource.host_size r mod 4096 = 0.

Lemma page_addr_ok a e m : a mod 4096 = 0 → page_addr a e m = Returns (Ok a, m).
Proof. intros Ha. unfold page_addr, PageAddr.new. by rewrite (proj2 (with_alignment_Some a PageSize.Size4k a)). Qed.
Lemma page_multiple_ok n e m : n mod 4096 = 0 → page_multiple n e m = Returns (Ok tt, m).
Proof. intros Hn. unfold page_multiple. cbn [PageSize.bytes]. by rewrite Hn. Qed.
(** A region is added or refused. *)
Lemma add_region_spec dev a n m : mem_map_wf m → 0 ≤ a → a mod 4096 = 0 → 0 ≤ n → n mod 4096 = 0 → a + n + 4096 ≤ U64 →
  (∃ e, add_region dev a n m = Returns (Err (PciError.InvalidMmioRegion e), m))
  ∨ ∃ m', add_region dev a n m = Returns (Ok tt, m') ∧ mem_map_wf m'.
Proof.
  intros Hm Ha Hal Hn Hnl He.
  assert (PageAddr.with_round_down a PageSize.Size4k = a) as Hd.
  { unfold PageAddr.with_round_down. rewrite round_down_spec by (unfold u64; lia). cbn [PageSize.bytes]. lia. }
  assert (PageSize.round_up PageSize.Size4k n = n) as Hu.
  { destruct (round_up_spec PageSize.Size4k n) as [Hm0 Hb]; [done|cbn; lia|]. cbn [PageSize.bytes] in *. mod_lia. }
  pose proof (add_mmio_region_spec m dev a n Hm) as Hs. cbv zeta in Hs. rewrite Hd, Hu in Hs.
  unfold add_region, with_err. unfold region_end in Hs. cbn [HwMemRegion.base HwMemRegion.size] in Hs.
  specialize (Hs ltac:(unfold u64; lia) Hn ltac:(lia) ltac:(lia)).
  destruct (HwMemMap.add_mmio_region dev a n m) as [[[[]|e] m']|]; cbn in Hs; [|destruct e; try done|done].
  - right. exists m'. split; [done|]. apply Hs.
  - left. destruct Hs as [-> _]. eauto.
  - left. destruct Hs as [-> _]. eauto.
Qed.

(** The outcome of a probe that may find its regions taken. *)
Definition probes {A} (o : outcome (result PciError.t A * HwMemMap.t)) (P : A → HwMemMap.t → Prop) : Prop :=
  match o with
  | Returns (Ok a, m) => P a m
  | Returns (Err (PciError.InvalidMmioRegion _), _) => True
  | _ => False
  end.
Lemma probes_bind {A B} (f : probe_op A) (k : A → probe_op B) m P :
  probes (f m) (λ a m', probes (k a m') P) → probes ((f ≫= k) m) P.
Proof.
  destruct (f m) as [[[a|e] m']|] eqn:E; cbn [probes]; [|by erewrite bind_err by exact E|done].
  by erewrite bind_ok by exact E.
Qed.
Lemma probes_region {B} dev a n (k : unit → probe_op B) m P : mem_map_wf m → 0 ≤ a → a mod 4096 = 0 → 0 ≤ n → n mod 4096 = 0 →
  a + n + 4096 ≤ U64 → (∀ m', mem_map_wf m' → probes (k tt m') P) → probes ((add_region dev a n ≫= k) m) P.
Proof.
  intros Hm Ha Hal Hn Hnl He Hk. apply probes_bind.
  destruct (add_region_spec dev a n m) as [[e ->]|(m' & -> & Hm')]; [done..|by apply Hk].
Qed.

(** The cells of one resource. *)
Lemma parse_host_range ty r cells rs m P : shareable r → mem_map_wf m → rs !! ResourceType.index ty = Some None →
  (∀ m', mem_map_wf m' → probes (parse_ranges cells (<[ResourceType.index ty := Some (host_view r)]> rs) m') P) →
  probes (parse_ranges ((ResourceType.to_dt_cell ty :: u64_cells (PciRootResource.pci_addr r)
    ++ u64_cells (PciRootResource.addr r) ++ u64_cells (PciRootResource.host_size r)) ++ cells) rs m) P.
Proof.
  intros [(Ha0 & Ha & Hh & He & Hp0 & Hp) Hhm] Hm Hslot Hk. unfold u64_cells. cbn [app parse_ranges].
  rewrite !u64_cells_roundtrip by (unfold u64; lia).
  apply probes_bind. rewrite dt_cell_roundtrip. cbn [of_outcome probes].
  apply probes_bind. rewrite page_addr_ok by done. cbn [probes]. apply probes_bind. rewrite page_multiple_ok by done. cbn [probes].
  apply probes_bind. unfold PciRootResources.insert. rewrite Hslot. cbn [of_outcome probes].
  apply probes_bind. cbn [lift probes]. apply probes_region; [done|done|done|lia|done|lia|]. exact Hk.
Qed.

Section ranges.
Variable rs : PciRootResources.t.
Hypothesis Hlen : length rs = PciRootResources.MAX_ROOT_RESOURCES.
Hypothesis Hrs : Forall (λ o, match o with Some r => shareable r | None => True end) rs.

(** The resources with the types below [k] have been parsed. *)
Definition parsed (k : nat) : PciRootResources.t := imap (λ i o, if decide (i < k)%nat then host_view <$> o else None) rs.
Lemma parsed_lookup k i o : rs !! i = Some o → parsed k !! i = Some (if decide (i < k)%nat then host_view <$> o else None).
Proof. intros Hi. unfold parsed. by rewrite list_lookup_imap, Hi. Qed.
Lemma parsed_step k o : rs !! k = Some o → parsed (S k) = match o with Some r => <[k := Some (host_view r)]> (parsed k) | None => parsed k end.
Proof.
  clear Hlen Hrs. intros Hk. assert (length (parsed k) = length rs) as Hl by apply length_imap. pose proof (lookup_lt_Some _ _ _ Hk) as Hlt.
  apply list_eq. intros i. destruct (rs !! i) as [x|] eqn:Ei.
  2: { apply lookup_ge_None in Ei. rewrite !lookup_ge_None_2; [done| |]; [destruct o; rewrite ?length_insert|unfold parsed; rewrite length_imap]; lia. }
  rewrite (parsed_lookup (S k) i x Ei). destruct (decide (i = k)) as [->|Hne].
  - rewrite decide_True by lia. assert (x = o) as -> by congruence. destruct o as [r|].
    + rewrite list_lookup_insert_eq by lia. done.
    + rewrite (parsed_lookup k k None Ei), decide_False by lia. done.
  - transitivity (parsed k !! i); [|by destruct o; [rewrite list_lookup_insert_ne|]].
    rewrite (parsed_lookup k i x Ei). f_equal. destruct (decide (i < S k)%nat), (decide (i < k)%nat); (done || lia).
Qed.

Lemma parse_host_ranges n k m : (k + n = ResourceType.MAX_RESOURCE_TYPES)%nat → mem_map_wf m →
  probes (parse_ranges (seq k n ≫= host_range rs) (parsed k) m) (λ rs' _, rs' = parsed ResourceType.MAX_RESOURCE_TYPES).
Proof using Hlen Hrs.
  revert k m. induction n as [|n IH]; intros k m Hk Hm; cbn [seq mbind list_bind].
  { cbn. f_equal. lia. }
  destruct (index_roundtrip k) as (ty & Hty & Hidx); [lia|].
  destruct (lookup_lt_is_Some_2 rs k) as [o Ho]; [rewrite Hlen; unfold PciRootResources.MAX_ROOT_RESOURCES; lia|].
  pose proof (parsed_step k o Ho) as Hstep. unfold host_range at 1. rewrite Hty. unfold PciRootResources.get. rewrite Hidx, Ho.
  destruct o as [r|]; cbn [mjoin option_join].
  - rewrite list.Forall_forall in Hrs. specialize (Hrs (Some r) ltac:(by eapply list_elem_of_lookup_2)).
    apply parse_host_range; [done|done|rewrite Hidx, (parsed_lookup k k _ Ho), decide_False by lia; done|].
    rewrite Hidx, <-Hstep. intros m' Hm'. apply IH; [lia|done].
  - rewrite <-Hstep. apply IH; [lia|done].
Qed.
End ranges.

(** A configuration space as [probe_node] accepts it. *)
Record space_ok (c : PciConfigSpace.t) : Prop := {
  cs_base : 0 ≤ PciConfigSpace.config_base c ∧ PciConfigSpace.config_base c mod 4096 = 0;
  cs_size : 0 ≤ PciConfigSpace.config_size c ∧ PciConfigSpace.config_size c mod 4096 = 0;
  cs_end : PciConfigSpace.config_base c + PciConfigSpace.config_size c + 4096 ≤ U64;
  cs_segment : PciConfigSpace.segment c < 2 ^ 16;
  cs_buses : BusRange.start (PciConfigSpace.bus_range c) ≤ Bus.max ∧ BusRange.end_ (PciConfigSpace.bus_range c) ≤ Bus.max;
}.

Lemma parse_bus_range_ok start e m : start ≤ Bus.max → e ≤ Bus.max →
  parse_bus_range (Some [start; e]) m = Returns (Ok (BusRange.mk start e), m).
Proof.
  intros Hs He. unfold parse_bus_range, bus_number, AddressComponent.try_from. fold Bus.max. cbn [default lookup list_lookup]. unfold id.
  replace (Bus.max <? start) with false by lia. replace (Bus.max <? e) with false by lia. done.
Qed.
Lemma parse_segment_ok x : x < 2 ^ 16 → parse_segment (Some [x]) = x.
Proof.
  intros Hx. unfold parse_segment, AddressComponent.try_from. cbn [mbind option_bind head].
  change (AddressComponent.MAX_VAL Segment.BITS) with (2 ^ 16 - 1). by replace (2 ^ 16 - 1 <? x) with false by lia.
Qed.
Lemma parsed_none rs : length rs = ResourceType.MAX_RESOURCE_TYPES →
  parsed rs 0 = replicate ResourceType.MAX_RESOURCE_TYPES None.
Proof.
  intros Hl. unfold parsed. rewrite <-Hl. apply list_eq. intros i. rewrite list_lookup_imap.
  destruct (rs !! i) as [o|] eqn:E; cbn.
  - rewrite lookup_replicate_2; [done|]. by eapply lookup_lt_Some.
  - symmetry. apply lookup_replicate_None. by apply lookup_ge_None.
Qed.
Lemma parsed_all rs : length rs = ResourceType.MAX_RESOURCE_TYPES →
  parsed rs ResourceType.MAX_RESOURCE_TYPES = map (option_map host_view) rs.
Proof.
  intros Hl. unfold parsed. apply list_eq. intros i. rewrite list_lookup_imap.
  change (map (option_map host_view) rs) with (option_map host_view <$> rs). rewrite list_lookup_fmap.
  destruct (rs !! i) as [o|] eqn:E; [|done]. cbn. rewrite decide_True; [done|]. rewrite <-Hl. by eapply lookup_lt_Some.
Qed.

(** The host's device tree node describes what the host has.  Probing the node that
    the host gets, on any memory map, finds the hypervisor's configuration space, bus
    range, segment and MSI controller, and each resource with its addresses and with
    the size that is left to the host; it fails only if a region is taken in the map. *)
Theorem host_node_roundtrip {H} (s : PcieRoot.t H) phandle m :
  space_ok (PcieRoot.config_space s) → length (PcieRoot.resources s) = PciRootResources.MAX_ROOT_RESOURCES →
  Forall (λ o, match o with Some r => shareable r | None => True end) (PcieRoot.resources s) → mem_map_wf m →
  match probe_node phandle (Some (host_pcie_node s phandle)) m with
  | Returns (Ok (cs, rs, ph), _) =>
      cs = PcieRoot.config_space s ∧ rs = map (option_map host_view) (PcieRoot.resources s) ∧ ph = phandle
  | Returns (Err e, _) => ∃ e', e = PciError.InvalidMmioRegion e'
  | Panics => False
  end.
Proof.
  intros [[Hb0 Hb] [Hs0 Hs] He Hseg [Hst Hen]] Hlen Hrs Hm. set (cs := PcieRoot.config_space s) in *.
  enough (probes (probe_node phandle (Some (host_pcie_node s phandle)) m) (λ '(c, rs, ph) _,
    c = cs ∧ rs = map (option_map host_view) (PcieRoot.resources s) ∧ ph = phandle)) as Hp.
  { destruct (probe_node _ _ m) as [[[[[c rs] ph]|e] m']|]; [done| |done]. cbn in Hp. destruct e; try done. eauto. }
  assert (PageAddrRange.length_bytes (PciConfigSpace.mem_range cs) = PciConfigSpace.config_size cs) as Hbytes.
  { unfold PageAddrRange.length_bytes. cbn [PciConfigSpace.mem_range PageAddrRange.new PageAddrRange.num_pages PageAddrRange.page_size PageSize.bytes].
    pose proof (Z.div_mod (PciConfigSpace.config_size cs) 4096 ltac:(lia)) as Hd.
    replace (PciConfigSpace.config_size cs) with (PciConfigSpace.config_size cs / 4096 * 4096) by lia.
    rewrite num_4k_pages_mul by lia. unfold wrap64. rewrite Z.mod_small by lia. lia. }
  unfold probe_node, host_pcie_node. fold cs. rewrite Hbytes.
  do 3 (apply probes_bind; cbn [lift ok_or probes PciNode.reg lookup list_lookup]).
  apply probes_bind. rewrite page_addr_ok by done. cbn [probes].
  apply probes_bind. cbn [lift ok_or probes PciNode.reg lookup list_lookup].
  apply probes_bind. rewrite page_multiple_ok by done. cbn [probes].
  apply probes_region; [done..|]. intros m' Hm'. apply probes_bind. cbn [probes lift ok_or PciNode.msi_parent mbind option_bind head].
  rewrite Z.eqb_refl. cbn [negb PciNode.bus_range PciNode.pci_domain PciNode.ranges].
  apply probes_bind. rewrite parse_bus_range_ok by done. cbn [probes].
  apply probes_bind. cbn [probes lift ok_or PciNode.ranges PciNode.pci_domain]. apply probes_bind.
  change PciRootResources.new with (replicate ResourceType.MAX_RESOURCE_TYPES (None : option PciRootResource.t)).
  rewrite <-(parsed_none (PcieRoot.resources s)) by done.
  pose proof (parse_host_ranges (PcieRoot.resources s) Hlen Hrs ResourceType.MAX_RESOURCE_TYPES 0 m' eq_refl Hm') as Hr.
  destruct (parse_ranges _ _ m') as [[[rs|e] m'']|]; cbn [probes] in Hr |- *; [|done..]. subst rs. cbn [mret M_ret probes].
  split; [|by rewrite (parsed_all _ Hlen)]. rewrite parse_segment_ok by done. subst cs. by destruct (PcieRoot.config_space s) as [b n sg []].
Qed.
Lemma host_node_roundtrip_witness : ∃ m,
  probe_node 7 (Some (host_pcie_node (PcieRoot.mk (PciConfigSpace.mk 0x30000000 0x10000000 0 (BusRange.mk 0 255))
    (PciBus.mk BusRange.default BusRange.default []) ([] : list (PciDevice.t unit))
    [None; None; None; None; Some (PciRootResource.mk 0x400000000 0x8000 0x100000 true 0x800000000)]) 7)) (HwMemMap.mk [] 4096)
  = Returns (Ok (PciConfigSpace.mk 0x30000000 0x10000000 0 (BusRange.mk 0 255),
      [None; None; None; None; Some (PciRootResource.new 0x400000000 0x8000 0x800000000)], 7), m).
Proof.
  pose proof (host_node_roundtrip (PcieRoot.mk (PciConfigSpace.mk 0x30000000 0x10000000 0 (BusRange.mk 0 255))
    (PciBus.mk BusRange.default BusRange.default []) ([] : list (PciDevice.t unit))
    [None; None; None; None; Some (PciRootResource.mk 0x400000000 0x8000 0x100000 true 0x800000000)]) 7 (HwMemMap.mk [] 4096)) as Hp.
  destruct (probe_node _ _ _) as [[[[[c rs] ph]|e] m]|] eqn:E; [|vm_compute in E; discriminate E..].
  exists m. destruct Hp as (-> & -> & ->); [by split; vm_compute|done| | |done].
  - repeat constructor; by vm_compute.
  - split; cbn; [by exists 12|constructor|by split|lia].
Defined.
