(* ===== verification/PciIsolation.v ===== *)
(** * Isolation of PCI devices

    The properties of the root complex as a whole, with a machine on which they are
    evaluated: a function and a bridge on the root bus, and a function behind the
    bridge. *)
From Stdlib Require Import ZifyBool.
From S2P Require Import Prelude RiscvPages PageInfoModel PageMapModel Tracker PciRegs PciCaps PciSpaces PciDevices PciRoot.
From S2P Require Import PciConfigFacts PciGuestView PciProbeFacts PciSafety PciResourceFacts PciDecodeFacts PciEnumFacts.
From S2P Require Import PciRootFacts.
Local Open Scope Z_scope.
Import PcieRoot(device_arena, root_bus).

(** ** A machine *)
Definition absent_hw : MemHw.t := MemHw.mk (of_dwords [(0, 0xffffffff)]) ∅ ∅.
(** A bridge without windows and capabilities. *)
Definition bridge_hw : MemHw.t :=
  MemHw.mk (of_dwords [(0, 0x000c1b36); (8, 0x06040000); (12, 0x00010000)]) ∅
    (of_dwords [(16, 0); (20, 0); (28, 0); (36, 0); (40, 0); (44, 0)]).
Definition example_ecam (a : Address.t) : MemHw.t :=
  if a =? Address.new 0 0 1 0 then example_hw
  else if a =? Address.new 0 0 2 0 then bridge_hw
  else if a =? Address.new 0 1 0 0 then example_hw
  else absent_hw.
Definition example_space : PciConfigSpace.t := PciConfigSpace.mk 0x30000000 0x10000000 0 (BusRange.mk 0 255).
Definition example_resources : PciRootResources.t :=
  [None; None; None; None; Some (PciRootResource.new 0x400000000 0x100000 0x800000000)].
Definition example_root : PcieRoot.t MemHw.t :=
  match PcieRoot.probe example_ecam example_space example_resources with
  | Returns (Ok s) => s
  | _ => PcieRoot.mk example_space (PciBus.mk BusRange.default BusRange.default []) [] []
  end.

Lemma example_reset a info : info_for example_ecam example_space a = Some info → reset_state (example_ecam a).
Proof.
  intros [_ Hr]%info_for_some. revert Hr. unfold example_ecam.
  repeat (destruct (_ =? _); [intros _; split; [by vm_compute|]; split; [by vm_compute|]; eexists; vm_compute; reflexivity|]).
  intros Hr. vm_compute in Hr. discriminate Hr.
Qed.
Lemma example_resources_ok : resources_ok example_resources.
Proof. split; [done|]. unfold example_resources. repeat constructor; by vm_compute. Qed.
Lemma example_probe : PcieRoot.probe example_ecam example_space example_resources = Returns (Ok example_root).
Proof. vm_compute. reflexivity. Qed.

(** The host maps the pages of a BAR, takes the devices, attaches one of them to the
    IOMMU, moves its BAR there and enables it. *)
Definition example_pages : PageTracker.t :=
  PageTracker.mk 2 [] 16 (PageMap.mk
    (replicate 4 (PageInfo.mk (MemType.Mmio DeviceMemType.PciBar) PageState.Mapped [PageOwnerId.hypervisor; PageOwnerId.host] None))
    16 [SparseMapEntry.mk 0x400000 4 0]).
Definition example_ops : list pci_op :=
  [TakeHostDevices; TakeHostResource PciResourceType.PrefetchableMem64; AttachDevice 0;
   ConfigWrite PageOwnerId.host 0x8014 8 4; ConfigWrite PageOwnerId.host 0x8004 6 2].
Fixpoint run_ops (ops : list pci_op) (st : PageTracker.t * PcieRoot.t MemHw.t) : outcome (PageTracker.t * PcieRoot.t MemHw.t) :=
  match ops with
  | [] => Returns st
  | op :: ops => st ← run_op op st; run_ops ops st
  end.
Definition example_state : PageTracker.t * PcieRoot.t MemHw.t :=
  match run_ops example_ops (example_pages, example_root) with Returns st => st | Panics => (example_pages, example_root) end.
Fixpoint ops_admissible (ops : list pci_op) (st : PageTracker.t * PcieRoot.t MemHw.t) : Prop :=
  match ops with
  | [] => True
  | op :: ops => admissible op st ∧ match run_op op st with Returns st => ops_admissible ops st | Panics => False end
  end.
Lemma run_ops_reachable s0 ops st st' : reachable s0 st → ops_admissible ops st → run_ops ops st = Returns st' → reachable s0 st'.
Proof.
  revert st. induction ops as [|op ops IH]; intros st Hst Ha; cbn [run_ops]; [by intros [= <-]|].
  destruct Ha as [Ha Hr]. destruct (run_op op st) as [st1|] eqn:E; [|done]. cbn [mbind outcome_bind].
  apply IH; [|done]. by eapply reachable_step.
Qed.
Lemma example_reachable : reachable example_root example_state.
Proof.
  apply (run_ops_reachable _ example_ops (example_pages, example_root)); [constructor| |vm_compute; reflexivity].
  vm_compute. repeat split; try done; try lia. eexists _, _. done.
Qed.

Lemma example_enabled : ∃ d, device_arena example_state.2 !! 0%nat = Some d ∧ PciDevice.owner d = Some PageOwnerId.host
  ∧ enabled MemSpace d = true ∧ dma_enabled d = true.
Proof. eexists. split; [vm_compute; reflexivity|]. split; [by vm_compute|]. split; by vm_compute. Qed.
Lemma example_start : 0 ≤ BusRange.start (PciConfigSpace.bus_range example_space) ≤ Bus.max.
Proof. by vm_compute. Qed.
Lemma host_not_hypervisor : PageOwnerId.host ≠ PageOwnerId.hypervisor.
Proof. done. Qed.

(** ** Properties *)
(** C12: Devices stay with their owners.  If the COMMAND register of every function is zero
    when the root complex is probed, as it is after reset, then whatever VMs write to
    configuration spaces, whichever devices and resources are handed out and whatever
    is attached to the IOMMU, no call panics; a device without an owner still neither
    decodes addresses nor does DMA; and a device of a VM does DMA only behind the
    IOMMU, and what its BARs and windows decode is on pages that are mapped in that VM.
    The last holds for ranges of at most 2^64 - 4096 bytes that begin at a page or lie
    within one, and for the bytes below the last page of the address space: a window
    over the whole address space escapes the check, see [whole_window_is_enabled]. *)
Theorem guest_devices_are_confined `{HWL : ConfigHwLaws H} `{RFL : RegisterFieldsLaws} ecam cs rs (s0 : PcieRoot.t H) st :
  ecam_ok ecam cs → resources_ok rs → 0 ≤ BusRange.start (PciConfigSpace.bus_range cs) ≤ Bus.max →
  PcieRoot.probe ecam cs rs = Returns (Ok s0) → reachable s0 st →
  (∀ op, admissible op st → ∃ st', run_op op st = Returns st') ∧
  ∀ id d, device_arena st.2 !! id = Some d →
    (PciDevice.owner d = None → silent d) ∧
    ∀ g, PciDevice.owner d = Some g → g ≠ PageOwnerId.hypervisor → confined st.1 (PcieRoot.resources st.2) g d.
Proof.
  intros Hok Hrs Hb Hp Hreach.
  pose proof (reachable_inv (λ _ _, True) s0 st (λ _ _, I) (λ pt, probe_inv (λ _ _, True) ecam cs rs s0 pt Hok Hb Hrs Hp) Hreach) as Hinv. split.
  - intros op Hadm. destruct (run_op_inv (λ _ _, True) op st Hinv Hadm) as (st' & E & _); [by destruct op|]. eauto.
  - intros id d Hd. destruct (inv_devices _ _ _ Hinv id d Hd) as [Hwf [_ Ho]]. split.
    + intros E. by rewrite E in Ho.
    + intros g E Hg. rewrite E in Ho. apply safe_confined; [done|apply Hinv|auto].
Qed.
Lemma guest_devices_are_confined_witness :
  ∃ d, device_arena example_state.2 !! 0%nat = Some d ∧ enabled MemSpace d = true ∧ dma_enabled d = true
    ∧ confined example_state.1 (PcieRoot.resources example_state.2) PageOwnerId.host d.
Proof.
  destruct example_enabled as (d & Hd & Ho & He & Hdma). exists d. split; [exact Hd|]. split; [exact He|]. split; [exact Hdma|].
  exact (proj2 (proj2 (guest_devices_are_confined example_ecam example_space example_resources example_root
    example_state example_reset example_resources_ok example_start example_probe example_reachable) 0%nat d Hd)
    PageOwnerId.host Ho host_not_hypervisor).
Defined.

(** C18: Configuration writes reach the devices of their VM only: a write of [g] at any
    offset leaves every device that is not [g]'s as it is. *)
Theorem config_writes_touch_own_devices `{HWL : ConfigHwLaws H} `{RFL : RegisterFieldsLaws} attached pt (s s' : PcieRoot.t H) g off value len :
  root_inv attached pt s → 0 ≤ off → PcieRoot.emulate_config_write off value len pt g s = Returns s' →
  root_inv attached pt s' ∧ PcieRoot.resources s' = PcieRoot.resources s
  ∧ ∀ id d, device_arena s !! id = Some d → PciDevice.owner d ≠ Some g → device_arena s' !! id = Some d.
Proof.
  intros Hinv Hoff E. destruct (config_write_inv attached pt off value len g s Hinv Hoff) as (s1 & E1 & Hinv1 & Ho).
  assert (s1 = s') as -> by congruence. split; [done|]. split; [|done]. revert E.
  unfold PcieRoot.emulate_config_write, PcieRoot.do_emulate_config_write.
  destruct (PcieRoot.accessed_device off len g s) as [[[[id d] o]|e]|]; cbn [mbind outcome_bind]; [|by intros [= <-]|done].
  destruct (PciDevice.emulate_config_write _ _ _ _ d); [|done]. cbn [mbind outcome_bind]. by intros [= <-].
Qed.
Lemma example_write :
  ∃ s', PcieRoot.emulate_config_write 0x8014 8 4 example_pages PageOwnerId.host example_root = Returns s'.
Proof. eexists. vm_compute. reflexivity. Qed.
Lemma config_writes_touch_own_devices_witness :
  ∃ s', PcieRoot.emulate_config_write 0x8014 8 4 example_pages PageOwnerId.host example_root = Returns s'
    ∧ root_inv (λ _ _, True) example_pages s'.
Proof.
  destruct example_write as [s' Hs']. exists s'. split; [exact Hs'|].
  refine (proj1 (config_writes_touch_own_devices (λ _ _, True) example_pages example_root s' PageOwnerId.host 0x8014 8 4 _ _ Hs')); [|lia].
  exact (probe_inv _ _ _ _ _ _ example_reset example_start example_resources_ok example_probe).
Defined.

(** C19: Enumeration ends and builds a tree.  On hardware in which the COMMAND register of
    every function is zero, as it is after reset, its capability pointer is aligned to a
    word and its capability list ends, probing the root complex returns; if it succeeds,
    the devices on the bus behind a bridge come after the bridge in the arena, the bus
    behind every bridge is known, and all of the devices are well formed, unowned and
    still silent: probing writes no COMMAND register, it relies on the state after reset. *)
Theorem enumeration_builds_tree `{HWL : ConfigHwLaws H} `{RFL : RegisterFieldsLaws} (ecam : Address.t → H) cs rs :
  ecam_ok ecam cs → 0 ≤ BusRange.start (PciConfigSpace.bus_range cs) ≤ Bus.max →
  ∃ r, PcieRoot.probe ecam cs rs = Returns r ∧ ∀ s, r = Ok s →
    PcieRoot.resources s = rs ∧ tree_ok (device_arena s) (PciBus.devices (root_bus s)) ∧ Forall unused (device_arena s).
Proof. apply probe_spec_root. Qed.
Lemma enumeration_builds_tree_witness :
  tree_ok (device_arena example_root) (PciBus.devices (root_bus example_root)) ∧ length (device_arena example_root) = 3%nat.
Proof.
  destruct (enumeration_builds_tree example_ecam example_space example_resources example_reset example_start) as (r & E & Hr).
  rewrite example_probe in E. injection E as <-. split; [exact (proj1 (proj2 (Hr _ eq_refl)))|vm_compute; reflexivity].
Defined.

(** Detaching a device from the IOMMU turns its bus mastering on: the device of a VM
    that was detached may do DMA that nothing translates. *)
Example detached_device_does_dma :
  ∃ d, device_arena example_state.2 !! 2%nat = Some d ∧ PciDevice.owner d = Some PageOwnerId.host ∧ dma_enabled d = false
    ∧ dma_enabled (PciDevice.clear_iommu_attached d) = true
    ∧ PciDevice.iommu_attached (PciDevice.clear_iommu_attached d) = false.
Proof. eexists. split; [vm_compute; reflexivity|]. repeat split; by vm_compute. Qed.

(** A bridge with a 64-bit prefetchable window that the host owns, a root complex with
    I/O ports at the bus address 0, and a host that has no page of a BAR mapped. *)
Definition window_bridge_hw : MemHw.t :=
  MemHw.mk (of_dwords [(0, 0x000c1b36); (8, 0x06040000); (12, 0x00010000)]) (of_dwords [(36, 0x00010001)])
    (of_dwords [(16, 0); (20, 0); (28, 0); (36, 0xfff0fff0)]).
Definition window_ecam (a : Address.t) : MemHw.t := if a =? Address.new 0 0 0 0 then window_bridge_hw else absent_hw.
Definition window_resources : PciRootResources.t := [Some (PciRootResource.new 0x3000000 0x10000 0); None; None; None; None].
Definition no_pages : PageTracker.t := PageTracker.mk 2 [] 16 (PageMap.mk [] 16 []).
(** The prefetchable window from 0 to the last address, no other window, memory decoding on. *)
Definition window_ops : list pci_op :=
  [TakeHostDevices; ConfigWrite PageOwnerId.host 0x24 0xfff00000 4; ConfigWrite PageOwnerId.host 0x28 0 4;
   ConfigWrite PageOwnerId.host 0x2c 0xffffffff 4; ConfigWrite PageOwnerId.host 0x20 0x0000fff0 4;
   ConfigWrite PageOwnerId.host 0x04 2 2].
(** The bridge then forwards every memory address. *)
Example whole_window_is_enabled : ∃ s0 st d b,
  PcieRoot.probe window_ecam example_space window_resources = Returns (Ok s0)
  ∧ run_ops window_ops (no_pages, s0) = Returns st
  ∧ device_arena st.2 !! 0%nat = Some d ∧ PciDevice.owner d = Some PageOwnerId.host ∧ enabled MemSpace d = true
  ∧ d = PciDevice.Bridge b ∧ PciBridge.get_pref_window b = Some (0, U64_MAX) ∧ PciBridge.get_mem_window b = None
  ∧ filter (λ x, PciBarInfo.bar_type x ≠ PciResourceType.IoPort) (PciDevice.bar_info (PciDevice.Bridge b)) = [].
Proof.
  eexists _, _, _, _. split; [vm_compute; reflexivity|]. split; [vm_compute; reflexivity|]. split; [reflexivity|].
  split; [by vm_compute|]. split; [by vm_compute|]. split; [reflexivity|].
  split; [by vm_compute|]. split; [by vm_compute|]. by vm_compute.
Qed.

(** C40: The check of a bridge window that spans all but at most 4095 bytes of the address
    space checks no page, because its size wraps around to zero pages.  If a resource of
    the root complex contains the base of the window, the check passes for any VM,
    whatever pages it has mapped, and so does the check before memory decoding is enabled
    for a bridge that has no other window and no memory BAR. *)
Theorem whole_window_passes_check `{HWL : ConfigHwLaws H} `{RFL : RegisterFieldsLaws} base limit phys context :
  PciRootResources.pci_to_physical_addr base (MmioEmulationContext.resources context) = Some phys →
  U64 - 4096 < limit - base < U64 →
  bridge_window_is_valid base limit context = Ok tt ∧
  ∀ b : PciBridge.t H, PciBridge.get_pref_window b = Some (base, limit) → PciBridge.get_mem_window b = None →
    filter (λ x, PciBarInfo.bar_type x ≠ PciResourceType.IoPort) (PciDevice.bar_info (PciDevice.Bridge b)) = [] →
    PciDevice.can_enable_mem_space (PciDevice.Bridge b) context = Returns (Ok tt).
Proof.
  intros Hp Hs. assert (Hv : bridge_window_is_valid base limit context = Ok tt).
  { unfold bridge_window_is_valid, range_is_valid. rewrite Hp.
    assert (PageSize.num_4k_pages (limit - base) = 0) as ->.
    { unfold PageSize.num_4k_pages, wrap64. change (PageSize.bytes PageSize.Size4k) with 4096 in *.
      replace (limit - base + 4096 - 1) with ((limit - base - U64 + 4095) + 1 * U64) by lia. rewrite Z.mod_add by done.
      rewrite Z.mod_small by lia. apply Z.div_small. lia. }
    unfold bar_range_is_owned, PageAddrRange.to_list. reflexivity. }
  split; [done|]. intros b Hpref Hmem Hbars. unfold PciDevice.can_enable_mem_space. rewrite Hbars. cbn.
  by rewrite Hmem, Hpref; cbn; rewrite Hv.
Qed.
Lemma whole_window_passes_check_witness : ∃ b : PciBridge.t MemHw.t,
  PciBridge.get_pref_window b = Some (0, U64_MAX)
  ∧ PciDevice.can_enable_mem_space (PciDevice.Bridge b) (MmioEmulationContext.mk no_pages PageOwnerId.host window_resources)
    = Returns (Ok tt).
Proof.
  destruct whole_window_is_enabled as (s0 & st & d & b & _ & _ & _ & _ & _ & _ & Hp & Hm & Hb). exists b. split; [exact Hp|].
  refine (proj2 (whole_window_passes_check 0 U64_MAX 0x3000000
    (MmioEmulationContext.mk no_pages PageOwnerId.host window_resources) _ _) b Hp Hm Hb); [reflexivity|done].
Defined.
