(* ===== verification/PciIommu.v ===== *)
(** * The IOMMU and the devices of the root complex

    A PCI device is what the IOMMU attaches.  The two components together: a device of
    a VM that does DMA has a device context with the tables of that VM. *)
From Stdlib Require Import ZifyBool.
From S2P Require Import Prelude RiscvPages PageInfoModel PageMapModel Tracker Pte PageTableModel Imsic Iommu.
From S2P Require Import DeviceDirectoryFacts IommuFacts PciRegs PciCaps PciSpaces PciDevices PciRoot.
From S2P Require Import PciConfigFacts PciGuestView PciProbeFacts PciSafety PciResourceFacts PciDecodeFacts PciEnumFacts PciRootFacts PciIsolation.
Local Open Scope Z_scope.
Import PcieRoot(device_arena, root_bus).
Import Iommu(iommu, mem_, dev, ddt).
Import Attach.

#[export] Instance pci_iommu_device `{HW : ConfigHw H} `{RF : RegisterFields} : IommuDevice (PciDevice.t H) := {|
  dev_address d := PciDeviceInfo.address (PciDevice.info d);
  dev_owner := PciDevice.owner;
  dev_set_attached := PciDevice.set_iommu_attached;
  dev_clear_attached := PciDevice.clear_iommu_attached;
|}.

Section system.
Context `{HWL : ConfigHwLaws H} `{RFL : RegisterFieldsLaws}.

(** The pages, the root complex, the IOMMU and the memory that holds its tables. *)
Record system := System { tracker : PageTracker.t; root : PcieRoot.t H; unit_ : Iommu.t; memory : mem }.

(** A call of the IOMMU on the device with the given id of the arena. *)
Definition on_device_id {A} (id : nat) (f : M (Iommu.state (PciDevice.t H)) IommuError.t A) (s : system)
    : outcome (result IommuError.t A * system) :=
  match device_arena (root s) !! id with
  | None => Panics
  | Some d =>
      '(r, st) ← f (Iommu.State (unit_ s) (memory s) d);
      Returns (r, System (tracker s) (PcieRoot.set_arena (<[id := dev st]> (device_arena (root s))) (root s)) (iommu st) (mem_ st))
  end.
(** A call that is about no device. *)
Definition on_unit {A} (f : M (Iommu.state unit) IommuError.t A) (s : system) : outcome (result IommuError.t A * system) :=
  '(r, st) ← f (Iommu.State (unit_ s) (memory s) tt);
  Returns (r, System (tracker s) (root s) (iommu st) (mem_ st)).

Inductive system_op :=
  | Pci (op : pci_op)
  | Attach (id : nat) (pt : GuestStagePageTable.t Sv48x4Level.t) (msi_pt : MsiPageTable.t) (gscid : Z)
  | AllocGscId (owner : PageOwnerId.t)
  | FreeGscId (gscid : Z)
  | Fence (gscid : Z) (addr : option Z).
Definition run_system (op : system_op) (s : system) : outcome system :=
  match op with
  | Pci op => '(pt, r) ← run_op op (tracker s, root s); Returns (System pt r (unit_ s) (memory s))
  | Attach id pt msi_pt g => '(_, s) ← on_device_id id (Iommu.attach_pci_device pt msi_pt g) s; Returns s
  | AllocGscId o => '(_, s) ← on_unit (Iommu.alloc_gscid o) s; Returns s
  | FreeGscId g => '(_, s) ← on_unit (Iommu.free_gscid g) s; Returns s
  | Fence g addr => '(_, s) ← on_unit (Iommu.fence g addr) s; Returns s
  end.
(** Devices are attached through the IOMMU, and addresses have 32 bits. *)
Definition system_admissible (op : system_op) (s : system) : Prop :=
  match op with
  | Pci (AttachDevice _) => False
  | Pci op => admissible op (tracker s, root s)
  | Attach id _ _ g => 0 ≤ g ∧ ∃ d, device_arena (root s) !! id = Some d ∧ 0 ≤ dev_address d < 2 ^ 32
  | FreeGscId g => 0 ≤ g
  | AllocGscId _ | Fence _ _ => True
  end.
Inductive system_reachable (s0 : system) : system → Prop :=
  | system_init : system_reachable s0 s0
  | system_step s op s' : system_reachable s0 s → system_admissible op s → run_system op s = Returns s' → system_reachable s0 s'.

(** The device at an address has an enabled context with tables of the VM. *)
Definition translated (dir : DeviceDirectory.t) (m : mem) (a : Z) (g : PageOwnerId.t) : Prop :=
  device_id a ∧ ∃ pt msi_pt gscid c, context dir m a = Some (configured pt msi_pt gscid c)
    ∧ GuestStagePageTable.page_owner_id pt = g ∧ MsiPageTable.owner msi_pt = g.
Record system_ok (T : gmap Z nat) (A : gmap Z Z) (s : system) : Prop := {
  sys_iommu : iommu_ok T A (Iommu.State (unit_ s) (memory s) tt);
  sys_root : root_inv (translated (ddt (unit_ s)) (memory s)) (tracker s) (root s);
}.

Lemma iommu_ok_dev {D D'} T A io m (d : D) (d' : D') : iommu_ok T A (Iommu.State io m d) → iommu_ok T A (Iommu.State io m d').
Proof. intros [H1' H2 H3 H4 H5 H6 H7]. by split. Qed.
Lemma configured_enabled pt msi_pt gscid c : DeviceDirectoryFacts.enabled (configured pt msi_pt gscid c) = true.
Proof. done. Qed.

(** Attaching one device leaves the contexts of the others. *)
Lemma translated_step dir T m m' id c c' a g : context_step dir T m m' id c c' → DeviceDirectoryFacts.enabled c = false →
  translated dir m a g → translated dir m' a g.
Proof.
  intros (Hc & _ & _ & Hoth) He [Ha (pt & msi & gid & c0 & Hctx & Ho)]. split; [done|]. exists pt, msi, gid, c0.
  rewrite Hoth; [done|done|]. intros ->. rewrite Hctx in Hc. injection Hc as <-. by rewrite configured_enabled in He.
Qed.

Lemma attach_ok T A s id pt msi_pt g : system_ok T A s → system_admissible (Attach id pt msi_pt g) s →
  ∃ r s', on_device_id id (Iommu.attach_pci_device pt msi_pt g) s = Returns (r, s') ∧ ∃ A', system_ok T A' s'.
Proof using HWL RFL.
  intros [Hio Hroot] (Hg & d & Hd & Haddr). unfold on_device_id. rewrite Hd.
  destruct (attach_spec T A (Iommu.State (unit_ s) (memory s) d) pt msi_pt g) as ([[]|e] & st & -> & Hr);
    [by eapply iommu_ok_dev|done|done| |]; cbn [mbind outcome_bind]; eexists _, _; (split; [done|]).
  - destruct Hr as (_ & Hio' & Hown & Hmsi & Hdev & Hddt & Hid & c & Hen & Hstep). cbn in *. exists (<[dev_address d := g]> A).
    split; cbn [unit_ memory tracker root].
    + destruct st. eapply iommu_ok_dev. exact Hio'.
    + rewrite Hdev, Hddt. eapply attach_inv; [|done|].
      * eapply root_inv_mono; [|exact Hroot]. intros a g'. by apply (translated_step _ _ _ _ _ _ _ _ _ Hstep).
      * eexists. split; [exact Hown|]. split; [done|]. exists pt, msi_pt, g, c. split; [apply Hstep|]. done.
  - subst st. exists A. split; cbn [unit_ memory tracker root iommu mem_ dev]; [done|].
    rewrite list_insert_id by done.
    by replace (PcieRoot.set_arena (device_arena (root s)) (root s)) with (root s) by (by destruct (root s)).
Qed.

(** A call that changes neither the directory nor the memory. *)
Lemma on_unit_ok {X} T A s (f : M (Iommu.state unit) IommuError.t X) : system_ok T A s →
  (∃ r st, f (Iommu.State (unit_ s) (memory s) tt) = Returns (r, st) ∧ iommu_ok T A st
    ∧ ddt (iommu st) = ddt (unit_ s) ∧ mem_ st = memory s) →
  ∃ r s', on_unit f s = Returns (r, s') ∧ system_ok T A s'.
Proof.
  intros [Hio Hroot] (r & st & E & Hst & Hd & Hm). unfold on_unit. rewrite E. eexists _, _. split; [done|].
  split; cbn [unit_ memory tracker root]; [destruct st; eapply iommu_ok_dev; exact Hst|]. by rewrite Hd, Hm.
Qed.

Lemma run_system_ok T A op s : system_ok T A s → system_admissible op s →
  ∃ s', run_system op s = Returns s' ∧ ∃ A', system_ok T A' s'.
Proof using HWL RFL.
  intros Hok Hadm. destruct op as [op|id pt msi_pt g|o|g|g addr]; cbn [run_system].
  - destruct Hok as [Hio Hroot].
    destruct (run_op_inv (translated (ddt (unit_ s)) (memory s)) op (tracker s, root s)) as ([pt r] & -> & Hinv);
      [done|by destruct op|by destruct op|]. eexists. split; [done|]. exists A. by split.
  - destruct (attach_ok T A s id pt msi_pt g Hok Hadm) as (r & s' & -> & HA). eexists. by split.
  - destruct (on_unit_ok T A s (Iommu.alloc_gscid o) Hok) as (r & s' & -> & Hs'); [|eexists; split; [done|]; by exists A].
    destruct (alloc_spec T A (Iommu.State (unit_ s) (memory s) tt) o (sys_iommu _ _ _ Hok)) as (r & st & E & Hst & _).
    exists r, st. split; [done|]. split; [done|]. revert E. unfold Iommu.alloc_gscid. msimpl.
    destruct (position _ _); intros [= _ <-]; done.
  - destruct (on_unit_ok T A s (Iommu.free_gscid g) Hok) as (r & s' & -> & Hs'); [|eexists; split; [done|]; by exists A].
    destruct (free_spec T A (Iommu.State (unit_ s) (memory s) tt) g (sys_iommu _ _ _ Hok) Hadm) as (r & st & E & Hst & _).
    exists r, st. split; [done|]. split; [done|]. revert E. unfold Iommu.free_gscid. msimpl.
    destruct (_ !! _) as [[x|]|]; [destruct (0 <? _)|..]; intros [= _ <-]; done.
  - destruct (on_unit_ok T A s (Iommu.fence g addr) Hok) as (r & s' & -> & Hs'); [|eexists; split; [done|]; by exists A].
    pose proof (sys_iommu _ _ _ Hok) as Hio.
    destruct (submit_spec [Command.iotinval_gvma (Some g) addr; Command.iofence] (Iommu.State (unit_ s) (memory s) tt)) as (st & E & Hfl);
      [apply Hio|apply Hio|pose proof (io_room _ _ _ Hio); cbn [length]; lia|].
    exists (Ok tt), st. split; [by apply unwrap_eq|]. split; [by apply (ok_flushed T A _ st Hio)|].
    destruct Hfl as (q & -> & _). done.
Qed.
Lemma system_reachable_ok T s0 s A0 : system_ok T A0 s0 → system_reachable s0 s → ∃ A, system_ok T A s.
Proof using HWL RFL.
  intros H0'. induction 1 as [|s op s' _ [A HA] Hadm E]; [eauto|].
  destruct (run_system_ok T A op s HA Hadm) as (s'' & E' & A' & HA'). exists A'. congruence.
Qed.
End system.

(** C3: DMA of a VM's device is translated with the VM's tables.  Start from a root
    complex that was probed while the COMMAND register of every function was zero, as it
    is after reset, and an IOMMU without attached devices.  After any sequence of
    configuration writes, hand-overs, attachments, fences and allocations of soft-context
    ids, none of which panics, a device of a VM with bus mastering on has an enabled
    device context whose page table and MSI table both belong to the VM, and what a
    device of a VM decodes is confined to pages of the VM, up to the ranges that
    [confined] leaves out.  No device is detached in such a sequence: detaching turns bus
    mastering on, see [detached_device_does_dma]. *)
Theorem dma_uses_tables_of_owner `{HWL : ConfigHwLaws H} `{RFL : RegisterFieldsLaws} ecam cs rs (r0 : PcieRoot.t H) pt T io m s :
  ecam_ok ecam cs → resources_ok rs → 0 ≤ BusRange.start (PciConfigSpace.bus_range cs) ≤ Bus.max →
  PcieRoot.probe ecam cs rs = Returns (Ok r0) → iommu_ok T ∅ (Iommu.State io m tt) →
  system_reachable (System pt r0 io m) s →
  (∀ op, system_admissible op s → ∃ s', run_system op s = Returns s') ∧
  ∀ id d g, device_arena (root s) !! id = Some d → PciDevice.owner d = Some g → g ≠ PageOwnerId.hypervisor →
    confined (tracker s) (PcieRoot.resources (root s)) g d ∧
    (dma_enabled d = true → translated (ddt (unit_ s)) (memory s) (dev_address d) g).
Proof.
  intros Hok Hrs Hb Hp Hio Hreach.
  destruct (system_reachable_ok T (System pt r0 io m) s ∅) as [A HA]; [split; [done|by eapply probe_inv]|done|]. split.
  - intros op Hadm. destruct (run_system_ok T A op s HA Hadm) as (s' & E & _). eauto.
  - intros id d g Hd Hg Hne. pose proof (sys_root _ _ _ HA) as Hroot.
    destruct (inv_devices _ _ _ Hroot id d Hd) as (Hwf & Hat & Ho). rewrite Hg in Ho. split.
    + apply safe_confined; [done|apply Hroot|auto].
    + intros Hdma. destruct (Hat (proj2 (Ho Hne) Hdma)) as (g' & Hg' & Ht). assert (g' = g) as -> by congruence. exact Ht.
Qed.

(** The host attaches the first device of the example machine and turns its DMA on. *)
Definition host_pt : GuestStagePageTable.t Sv48x4Level.t :=
  GuestStagePageTable.mk (PageTableInner.mk (SequentialPages.mk 2097152 PageSize.Size4k 4)) PageOwnerId.host.
Definition host_msi : MsiPageTable.t := MsiPageTable.mk (SequentialPages.mk 1048576 PageSize.Size4k 1) msi_src msi_dest PageOwnerId.host.
Definition example_system : @system MemHw.t := System example_pages example_root (iommu example_iommu) (mem_ example_iommu).
Definition step (op : system_op) (s : @system MemHw.t) : @system MemHw.t :=
  match run_system op s with Returns s' => s' | Panics => s end.
Definition example_taken := step (Pci TakeHostDevices) example_system.
Definition example_allocated := step (AllocGscId PageOwnerId.host) example_taken.
Definition example_attached := step (Attach 0 host_pt host_msi 1) example_allocated.
Definition example_dma := step (Pci (ConfigWrite PageOwnerId.host 0x8004 4 2)) example_attached.

Lemma step_reachable op s0 s : system_reachable s0 s → system_admissible op s →
  (match run_system op s with Returns _ => true | Panics => false end) = true → system_reachable s0 (step op s).
Proof.
  intros Hs Ha. unfold step. destruct (run_system op s) as [s'|] eqn:E; [|done]. intros _. by eapply system_step.
Qed.
Lemma example_dma_reachable : system_reachable example_system example_dma.
Proof.
  apply step_reachable; [|cbn; lia|vm_compute; reflexivity].
  apply step_reachable; [|split; [done|]; eexists; split; [vm_compute; reflexivity|by vm_compute]|vm_compute; reflexivity].
  apply step_reachable; [|done|vm_compute; reflexivity].
  apply step_reachable; [constructor|done|vm_compute; reflexivity].
Qed.
Lemma example_dma_device : ∃ d, device_arena (root example_dma) !! 0%nat = Some d ∧ PciDevice.owner d = Some PageOwnerId.host
  ∧ dma_enabled d = true.
Proof. eexists. split; [vm_compute; reflexivity|]. split; by vm_compute. Qed.
Lemma dma_uses_tables_of_owner_witness :
  ∃ d, device_arena (root example_dma) !! 0%nat = Some d ∧ dma_enabled d = true
    ∧ translated (ddt (unit_ example_dma)) (memory example_dma) (dev_address d) PageOwnerId.host.
Proof.
  destruct example_dma_device as (d & Hd & Ho & Hdma). exists d. split; [exact Hd|]. split; [exact Hdma|].
  destruct example_iommu_ok as [T Hio]. apply (iommu_ok_dev _ _ (iommu example_iommu) (mem_ example_iommu) _ tt) in Hio.
  exact (proj2 (proj2 (dma_uses_tables_of_owner example_ecam example_space example_resources example_root example_pages T
    (iommu example_iommu) (mem_ example_iommu) example_dma example_reset example_resources_ok example_start example_probe
    Hio example_dma_reachable) 0%nat d PageOwnerId.host Hd Ho host_not_hypervisor) Hdma).
Defined.
