(* ===== verification/DeviceTree.v ===== *)
(** * Device trees (device-tree/src/device_tree.rs, hyp-alloc/src/arena.rs)

    A device tree is an arena of nodes that refer to each other by their ids.  Strings
    and property values are lists of bytes.  Every [try_reserve] asks the heap, whose
    answers are those of the interface [Heap]; what an operation has done when an
    allocation fails stays done, so the state of a failing operation is modelled too.
    The payloads of errors that other crates define are dropped. *)
From stdpp Require Import strings.
From S2P Require Import Prelude.
Open Scope string_scope.
Open Scope list_scope.
Open Scope Z_scope.

Notation bytes := (list Z).

(** ** Strings of the standard library *)
Module Str.
Definition is_cont (b : Z) : bool := (128 <=? b) && (b <? 192).
(** The second byte of a sequence of three or four bytes, which excludes overlong
    forms, surrogates and code points beyond U+10FFFF. *)
Definition second_ok (b0 b1 : Z) : bool :=
  is_cont b1 &&
  (if b0 =? 224 then 160 <=? b1
   else if b0 =? 237 then b1 <? 160
   else if b0 =? 240 then 144 <=? b1
   else if b0 =? 244 then b1 <? 144
   else true).
Fixpoint is_utf8 (s : bytes) : bool :=
  match s with
  | [] => true
  | b0 :: r =>
      if (0 <=? b0) && (b0 <? 128) then is_utf8 r
      else match r with
           | b1 :: r =>
               if (194 <=? b0) && (b0 <? 224) then is_cont b1 && is_utf8 r
               else match r with
                    | b2 :: r =>
                        if (224 <=? b0) && (b0 <? 240)
                        then second_ok b0 b1 && is_cont b2 && is_utf8 r
                        else match r with
                             | b3 :: r =>
                                 (240 <=? b0) && (b0 <? 245) && second_ok b0 b1 &&
                                 is_cont b2 && is_cont b3 && is_utf8 r
                             | [] => false
                             end
                    | [] => false
                    end
           | [] => false
           end
  end.
Definition from_utf8 (s : bytes) : option bytes := if is_utf8 s then Some s else None.
Definition ends_with_nul (s : bytes) : bool :=
  match list.last s with Some b => b =? 0 | None => false end.
(** [strip_suffix('\0')] *)
Definition strip_nul (s : bytes) : option bytes :=
  if ends_with_nul s then Some (removelast s) else None.
Fixpoint starts_with (pat s : bytes) : bool :=
  match pat, s with
  | [], _ => true
  | p :: pat, b :: s => (p =? b) && starts_with pat s
  | _ :: _, [] => false
  end.
Fixpoint contains (pat s : bytes) : bool :=
  starts_with pat s || match s with [] => false | _ :: s => contains pat s end.
(** A string literal. *)
Definition lit (s : string) : bytes := map (λ a, Z.of_N (Ascii.N_of_ascii a)) (String.list_ascii_of_string s).
Definition eqb (a b : bytes) : bool := bool_decide (a = b).
End Str.

(** ** Integers in big-endian byte order *)
Definition from_be_bytes (l : bytes) : Z := fold_left (λ acc b, acc * 256 + b) l 0.
Fixpoint to_be_bytes (n : nat) (v : Z) : bytes :=
  match n with O => [] | S n => to_be_bytes n (v / 256) ++ [v mod 256] end.

(** ** The heap *)
Class Heap (H : Type) := try_reserve_in : Z → H → bool * H.

(** A method of a component of the state, and a method of a local value. *)
Definition zoom {S B H E A} (get : S → B) (set : B → S → S) (m : M (B * H) E A) : M (S * H) E A :=
  λ '(s, h), match m (get s, h) with
             | Returns (r, (b, h)) => Returns (r, (set b s, h))
             | Panics => Panics
             end.
Definition local {B H E A} (init : B) (m : M (B * H) E A) : M H E (A * B) :=
  λ h, match m (init, h) with
       | Returns (Ok a, (b, h)) => Returns (Ok (a, b), h)
       | Returns (Err e, (_, h)) => Returns (Err e, h)
       | Panics => Panics
       end.
Definition heap {S H E A} (m : M H E A) : M (S * H) E A :=
  λ '(s, h), match m h with
             | Returns (r, h) => Returns (r, (s, h))
             | Panics => Panics
             end.
Definition state {S H E} : M (S * H) E S := λ '(s, h), Returns (Ok s, (s, h)).
Definition update {S H E} (f : S → S) : M (S * H) E unit := λ '(s, h), Returns (Ok tt, (f s, h)).

Module DeviceTreeError.
Inductive t :=
| StrError
| InvalidNodeId
| MalformedFdt
| PropNotFound
| FdtError
| AllocError.
End DeviceTreeError.

(** ** The arena *)
Module Arena.
Definition ArenaId := nat.
Record t (T : Type) := mk { vals : list (option T) }.
Arguments mk {T}.
Arguments vals {T}.
Section arena.
Context {T : Type}.
Definition new : t T := mk [].
Definition get (a : t T) (id : ArenaId) : option T := mjoin (vals a !! id).
(** Writing through the reference that [get_mut] returned. *)
Definition set (a : t T) (id : ArenaId) (v : T) : t T := mk (<[id := Some v]> (vals a)).
Definition remove (a : t T) (id : ArenaId) : t T := mk (<[id := None]> (vals a)).
Definition push (a : t T) (v : T) : ArenaId * t T := (length (vals a), mk (vals a ++ [Some v])).
Definition ids (a : t T) : list ArenaId :=
  omap (λ '(i, v), match v with Some _ => Some i | None => None end) (imap pair (vals a)).
Definition iter (a : t T) : list T := omap id (vals a).
End arena.
End Arena.

Section heap_ops.
Context {H : Type} `{Heap H}.
Local Notation E := DeviceTreeError.t.

Definition try_reserve {S} (additional : Z) : M (S * H) E unit :=
  λ '(s, h), let '(ok, h) := try_reserve_in additional h in
             Returns (if ok then Ok tt else Err DeviceTreeError.AllocError, (s, h)).

(** [try_insert] of the arena, which has room for one more value or fails. *)
Definition try_insert {T} (v : T) : M (Arena.t T * H) E Arena.ArenaId :=
  try_reserve 1;;
  a ← state;
  let '(id, a) := Arena.push a v in
  update (λ _, a);;
  mret id.

(** The state is the destination. *)
Definition copy_string_with_null_termination (src : bytes) : M (bytes * H) E unit :=
  let has_null := Str.ends_with_nul src in
  update (λ _, []);;
  try_reserve (Z.of_nat (length src) + (if has_null then 0 else 1));;
  update (λ _, src);;
  (if has_null then mret tt else update (λ dest, dest ++ [0])).
End heap_ops.

(** ** Properties *)
Module DeviceTreeProp.
Record t := mk { name_raw : bytes; value_raw : bytes }.
#[export] Instance eq_dec : EqDecision t.
Proof. solve_decision. Defined.
Definition with_name (n : bytes) (p : t) : t := mk n (value_raw p).
Definition with_buf (b : bytes) (p : t) : t := mk (name_raw p) b.

(** [from_utf8(..).unwrap().strip_suffix('\0').unwrap()] *)
Definition c_str (raw : bytes) : outcome bytes :=
  s ← unwrap_option (Str.from_utf8 raw); unwrap_option (Str.strip_nul s).
Definition name (p : t) : outcome bytes := c_str (name_raw p).
Definition value_str (p : t) : option bytes := Str.from_utf8 (value_raw p) ≫= Str.strip_nul.

(** [DeviceTreePropIter]: the state is the rest of the buffer. *)
Definition iter_next (n : nat) (buf : bytes) : option (Z * bytes) :=
  if (length buf <? n)%nat then None
  else Some (from_be_bytes (take n buf), drop n buf).
Fixpoint iter_items (fuel n : nat) (buf : bytes) : list Z :=
  match fuel with
  | O => []
  | S fuel => match iter_next n buf with
              | Some (v, buf) => v :: iter_items fuel n buf
              | None => []
              end
  end.
Definition size_hint (n : nat) (buf : bytes) : nat := (length buf / n)%nat.
Definition value_u32 (p : t) : list Z := iter_items (length (value_raw p)) 4 (value_raw p).
Definition value_u64 (p : t) : list Z := iter_items (length (value_raw p)) 8 (value_raw p).

(** The loop of [set_value]: [split_array_mut] panics on a short remainder. *)
Fixpoint fill (n : nat) (vals : list Z) (remainder : bytes) : outcome bytes :=
  match vals with
  | [] => Returns remainder
  | v :: vals =>
      if (length remainder <? n)%nat then Panics
      else right ← fill n vals (drop n remainder); Returns (to_be_bytes n v ++ right)
  end.

Section ops.
Context {H : Type} `{Heap H}.
Local Notation E := DeviceTreeError.t.
Definition set_name (n : bytes) : M (t * H) E unit :=
  zoom name_raw with_name (copy_string_with_null_termination n).
Definition new (n : bytes) : M H E t :=
  r ← local (mk [] []) (set_name n); mret r.2.
Definition set_value_raw (val : bytes) : M (t * H) E unit :=
  update (with_buf []);;
  try_reserve (Z.of_nat (length val));;
  update (with_buf val).
Definition set_value_str (val : bytes) : M (t * H) E unit :=
  zoom value_raw with_buf (copy_string_with_null_termination val).
Definition set_value (n : nat) (vals : list Z) : M (t * H) E unit :=
  update (with_buf []);;
  try_reserve (Z.of_nat (length vals * n));;
  buf ← of_outcome (fill n vals (replicate (length vals * n) 0));
  update (with_buf buf).
Definition set_value_u32 (vals : list Z) : M (t * H) E unit := set_value 4 vals.
Definition set_value_u64 (vals : list Z) : M (t * H) E unit := set_value 8 vals.
End ops.
End DeviceTreeProp.

(** ** Nodes *)
Module DeviceTreeNode.
Record t := mk {
  id_ : option nat;
  name_raw : bytes;
  parent : option nat;
  children : list nat;
  props : list DeviceTreeProp.t
}.
Definition with_name (x : bytes) (n : t) : t := mk (id_ n) x (parent n) (children n) (props n).
Definition with_children (x : list nat) (n : t) : t := mk (id_ n) (name_raw n) (parent n) x (props n).
Definition with_props (x : list DeviceTreeProp.t) (n : t) : t :=
  mk (id_ n) (name_raw n) (parent n) (children n) x.

Definition id (n : t) : outcome nat := unwrap_option (id_ n).
Definition name (n : t) : outcome bytes := DeviceTreeProp.c_str (name_raw n).
Definition set_id (i : nat) (n : t) : t := mk (Some i) (name_raw n) (parent n) (children n) (props n).
Definition set_parent (p : option nat) (n : t) : t := mk (id_ n) (name_raw n) p (children n) (props n).
Definition remove_child (child : nat) (n : t) : t :=
  with_children (filter (λ i, i ≠ child) (children n)) n.

(** [position] and [any] with a closure that may panic. *)
Fixpoint any {A} (p : A → outcome bool) (l : list A) : outcome bool :=
  match l with
  | [] => Returns false
  | x :: l => b ← p x; if b : bool then Returns true else any p l
  end.
Fixpoint index_of (s : bytes) (l : list DeviceTreeProp.t) : outcome (option nat) :=
  match l with
  | [] => Returns None
  | p :: l => n ← DeviceTreeProp.name p;
              if Str.eqb n s then Returns (Some O)
              else i ← index_of s l; Returns (option_map S i)
  end.
Definition str_or_empty (p : DeviceTreeProp.t) : bytes := default [] (DeviceTreeProp.value_str p).
Definition disabled (n : t) : outcome bool :=
  any (λ p, pn ← DeviceTreeProp.name p;
            Returns (Str.eqb pn (Str.lit "status") && Str.eqb (str_or_empty p) (Str.lit "disabled")))
      (props n).
Definition compatible (compat_strings : list bytes) (n : t) : outcome bool :=
  any (λ compat, any (λ p, pn ← DeviceTreeProp.name p;
                           Returns (Str.eqb pn (Str.lit "compatible") && Str.contains compat (str_or_empty p)))
                     (props n)) compat_strings.

Section ops.
Context {H : Type} `{Heap H}.
Local Notation E := DeviceTreeError.t.
Definition set_name (n : bytes) : M (t * H) E unit :=
  zoom name_raw with_name (copy_string_with_null_termination n).
Definition new (n : bytes) : M H E t :=
  r ← local (mk None [] None [] []) (set_name n); mret r.2.
Definition insert_prop (p : DeviceTreeProp.t) : M (t * H) E unit :=
  try_reserve 1;;
  update (λ n, with_props (props n ++ [p]) n).
(** Returns the index of the new property in place of the reference to it. *)
Definition add_prop (n : bytes) : M (t * H) E nat :=
  node ← state;
  try_reserve 1;;
  p ← heap (DeviceTreeProp.new n);
  update (λ n, with_props (props n ++ [p]) n);;
  mret (length (props node)).
(** A method of the property at an index. *)
Definition on_prop (i : nat) (m : M (DeviceTreeProp.t * H) E unit) : M (t * H) E unit :=
  node ← state;
  match props node !! i with
  | Some p => zoom (λ _, p) (λ p n, with_props (<[i := p]> (props n)) n) m
  | None => panic
  end.
Definition remove_prop (n : bytes) : M (t * H) E unit :=
  node ← state;
  i ← of_outcome (index_of n (props node));
  match i with
  | None => err DeviceTreeError.PropNotFound
  | Some i => update (λ n, with_props (delete i (props n)) n)
  end.
Definition set_props (l : list DeviceTreeProp.t) : M (t * H) E unit :=
  update (with_props []);;
  for_each l insert_prop.
Definition add_child (child : nat) : M (t * H) E unit :=
  try_reserve 1;;
  update (λ n, with_children (children n ++ [child]) n).
End ops.
End DeviceTreeNode.

(** ** The iterator *)
Module DeviceTreeIter.
Definition tree := Arena.t DeviceTreeNode.t.
Record t := mk { root : option nat; current : option nat; depth : Z }.
Definition new (root : option nat) : t := mk root root 0.

(** The sibling behind a child: [find] leaves the iterator behind the child. *)
Fixpoint next_sibling (id : nat) (l : list nat) : outcome (option nat) :=
  match l with
  | [] => Panics
  | x :: l => if (x =? id)%nat then Returns (head l) else next_sibling id l
  end.
(** The loop of [set_next_node]; every turn goes up one level.  A loop that does not
    end, which needs a cycle of parents, runs out of fuel. *)
Fixpoint climb (fuel : nat) (a : tree) (root : option nat) (cur : DeviceTreeNode.t) (depth : Z) :
  outcome t :=
  match fuel with
  | O => Panics
  | S fuel =>
      match DeviceTreeNode.parent cur with
      | None => Returns (mk root None depth)
      | Some parent =>
          id ← DeviceTreeNode.id cur;
          r ← unwrap_option root;
          if (id =? r)%nat then Returns (mk root None depth)
          else
            pnode ← unwrap_option (Arena.get a parent);
            sibling ← next_sibling id (DeviceTreeNode.children pnode);
            match sibling with
            | Some sibling => Returns (mk root (Some sibling) depth)
            | None => climb fuel a root pnode (wrap64 (depth - 1))
            end
      end
  end.
Definition set_next_node (a : tree) (node : DeviceTreeNode.t) (it : t) : outcome t :=
  match DeviceTreeNode.children node with
  | c :: _ => Returns (mk (root it) (Some c) (wrap64 (depth it + 1)))
  | [] => climb (S (length (Arena.vals a))) a (root it) node (depth it)
  end.
Definition next (a : tree) (it : t) : outcome (option DeviceTreeNode.t * t) :=
  match current it ≫= Arena.get a with
  | None => Returns (None, it)
  | Some node => it ← set_next_node a node it; Returns (Some node, it)
  end.
(** A [for] loop over the iterator, with the nodes that it yields. *)
Fixpoint collect (fuel : nat) (a : tree) (it : t) : outcome (list DeviceTreeNode.t) :=
  match fuel with
  | O => Panics
  | S fuel =>
      '(r, it) ← next a it;
      match r with
      | None => Returns []
      | Some n => rest ← collect fuel a it; Returns (n :: rest)
      end
  end.
End DeviceTreeIter.

(** ** Tokens of a flattened tree, as the crate fdt-rs returns them *)
Module ParsedTok.
Inductive t :=
| BeginNode (name : bytes)
| EndNode
| Prop_ (prop_buf : bytes) (name_offset : Z)
| Nop.
End ParsedTok.

(** ** The tree *)
Module DeviceTree.
Record t := mk { node_arena : Arena.t DeviceTreeNode.t; root : option nat }.
Definition new : t := mk Arena.new None.
Definition with_arena (a : Arena.t DeviceTreeNode.t) (d : t) : t := mk a (root d).
Definition with_root (r : option nat) (d : t) : t := mk (node_arena d) r.
Definition get_node (d : t) (id : nat) : option DeviceTreeNode.t := Arena.get (node_arena d) id.
Definition iter (d : t) : DeviceTreeIter.t := DeviceTreeIter.new (root d).
Definition iter_from (d : t) (id : nat) : result DeviceTreeError.t DeviceTreeIter.t :=
  match get_node d id with
  | None => Err DeviceTreeError.InvalidNodeId
  | Some _ => Ok (DeviceTreeIter.new (Some id))
  end.
(** The nodes that a loop over an iterator sees: at most one per slot of the arena. *)
Definition nodes (d : t) (it : DeviceTreeIter.t) : outcome (list DeviceTreeNode.t) :=
  DeviceTreeIter.collect (S (length (Arena.vals (node_arena d)))) (node_arena d) it.

Section ops.
Context {H : Type} `{Heap H}.
Local Notation E := DeviceTreeError.t.
(** [get_mut_node] with what is done to the node; [None] if there is no such node. *)
Definition get_mut_node {A} (id : nat) (m : M (DeviceTreeNode.t * H) E A) : M (t * H) E (option A) :=
  d ← state;
  match get_node d id with
  | None => mret None
  | Some n =>
      r ← zoom (λ _, n) (λ n d, with_arena (Arena.set (node_arena d) id n) d) m;
      mret (Some r)
  end.
Definition alloc_node (name : bytes) : M (t * H) E nat :=
  node ← heap (DeviceTreeNode.new name);
  id ← zoom node_arena with_arena (try_insert node);
  r ← get_mut_node id (update (DeviceTreeNode.set_id id));
  of_outcome (unwrap_option r);;
  mret id.
Definition add_node (name : bytes) (parent : option nat) : M (t * H) E nat :=
  id ← alloc_node name;
  d ← state;
  match parent with
  | Some pid =>
      get_mut_node id (update (DeviceTreeNode.set_parent parent));;
      r ← get_mut_node pid (DeviceTreeNode.add_child id);
      lift (ok_or r DeviceTreeError.InvalidNodeId);;
      mret id
  | None =>
      match root d with
      | None => update (with_root (Some id));; mret id
      | Some _ => err DeviceTreeError.InvalidNodeId
      end
  end.
Definition remove_node (id : nat) : M (t * H) E unit :=
  d ← state;
  node ← lift (ok_or (get_node d id) DeviceTreeError.InvalidNodeId);
  match DeviceTreeNode.parent node with
  | Some pid =>
      get_mut_node id (update (DeviceTreeNode.set_parent None));;
      r ← get_mut_node pid (update (DeviceTreeNode.remove_child id));
      lift (ok_or r DeviceTreeError.InvalidNodeId)
  | None => update (with_root None)
  end;;
  d ← state;
  it ← of_outcome (unwrap_result (iter_from d id));
  l ← of_outcome (nodes d it);
  try_reserve (Z.of_nat (length l));;
  to_remove ← of_outcome (mapM DeviceTreeNode.id l);
  update (λ d, with_arena (fold_left Arena.remove to_remove (node_arena d)) d).

(** The loop of [from] over the tokens before the end or the first error; the name of a
    property is looked up in the strings of the flattened tree. *)
Fixpoint from_loop (string_at_offset : Z → option bytes) (tokens : list ParsedTok.t) (parent : option nat) :
  M (t * H) E unit :=
  match tokens with
  | [] => mret tt
  | ParsedTok.BeginNode n :: tokens =>
      name ← lift (ok_or (Str.from_utf8 n) DeviceTreeError.StrError);
      id ← add_node name parent;
      from_loop string_at_offset tokens (Some id)
  | ParsedTok.EndNode :: tokens =>
      pid ← lift (ok_or parent DeviceTreeError.MalformedFdt);
      d ← state;
      pnode ← of_outcome (unwrap_option (get_node d pid));
      from_loop string_at_offset tokens (DeviceTreeNode.parent pnode)
  | ParsedTok.Prop_ buf off :: tokens =>
      pid ← lift (ok_or parent DeviceTreeError.MalformedFdt);
      r ← get_mut_node pid (name ← lift (ok_or (string_at_offset off) DeviceTreeError.FdtError);
                            i ← DeviceTreeNode.add_prop name;
                            DeviceTreeNode.on_prop i (DeviceTreeProp.set_value_raw buf));
      of_outcome (unwrap_option r);;
      from_loop string_at_offset tokens parent
  | ParsedTok.Nop :: tokens => from_loop string_at_offset tokens parent
  end.
Definition from (string_at_offset : Z → option bytes) (tokens : list ParsedTok.t) : M H E t :=
  r ← local new (from_loop string_at_offset tokens None); mret r.2.
End ops.
End DeviceTree.
