(* ===== verification/DeviceTreeFacts.v ===== *)
(** * Device trees: the arena represents a tree

    [rose] is a tree as a mathematical object.  The operations on the arena implement
    operations on it, and the iterator, which has no stack, visits it in depth-first
    order. *)
From stdpp Require Import strings.
From S2P Require Import Prelude DeviceTree.
Open Scope string_scope.
Open Scope list_scope.
Open Scope Z_scope.

(** ** Trees *)
Inductive rose := Rose (i : nat) (name : bytes) (ps : list DeviceTreeProp.t) (kids : list rose).
Definition rid (r : rose) : nat := let 'Rose i _ _ _ := r in i.
Definition kids_of (r : rose) : list rose := let 'Rose _ _ _ l := r in l.

Section rose_ind.
Variable P : rose → Prop.
Hypothesis step : ∀ i n ps l, Forall P l → P (Rose i n ps l).
Fixpoint rose_induction (r : rose) : P r :=
  match r with
  | Rose i n ps l =>
      step i n ps l ((fix go l := match l return Forall P l with
                                  | [] => Forall_nil_2 P
                                  | x :: l => Forall_cons_2 P x l (rose_induction x) (go l)
                                  end) l)
  end.
End rose_ind.

(** The node that stands for a tree, and all of the nodes with their ids, in
    depth-first order. *)
Definition node_of (par : option nat) (r : rose) : DeviceTreeNode.t :=
  let 'Rose i n ps l := r in DeviceTreeNode.mk (Some i) n par (map rid l) ps.
Fixpoint entries (par : option nat) (r : rose) : list (nat * DeviceTreeNode.t) :=
  let 'Rose i n ps l := r in
  (i, node_of par r) :: (fix go l := match l with [] => [] | x :: l => entries (Some i) x ++ go l end) l.
Definition forest (par : option nat) (l : list rose) : list (nat * DeviceTreeNode.t) := l ≫= entries par.
Definition ids (r : rose) : list nat := (entries None r).*1.

Lemma entries_eq par i n ps l :
  entries par (Rose i n ps l) = (i, node_of par (Rose i n ps l)) :: forest (Some i) l.
Proof. done. Qed.

Lemma forest_cons par x l : forest par (x :: l) = entries par x ++ forest par l.
Proof. done. Qed.
Lemma forest_app par l k : forest par (l ++ k) = forest par l ++ forest par k.
Proof. apply bind_app. Qed.

Lemma ids_par par r : (entries par r).*1 = ids r.
Proof. destruct r as [i n ps l]. unfold ids. by rewrite !entries_eq. Qed.

Lemma forest_ids par l : (forest par l).*1 = l ≫= ids.
Proof.
  induction l as [|x l IH]; [done|]. rewrite forest_cons, fmap_app, ids_par, IH. done.
Qed.
Lemma ids_eq i n ps l : ids (Rose i n ps l) = i :: (l ≫= ids).
Proof. unfold ids at 1. rewrite entries_eq. simpl. by rewrite forest_ids. Qed.
Lemma rid_in_ids r : rid r ∈ ids r.
Proof. destruct r. rewrite ids_eq. left. Qed.
Lemma rids_submseteq l : NoDup (l ≫= ids) → NoDup (map rid l).
Proof.
  induction l as [|x l IH]; simpl; [constructor|]. intros (Hx & Hd & Hl)%list.NoDup_app. constructor; [|auto].
  intros (y & Hy & Hin)%list_elem_of_fmap_1. apply (Hd (rid x)); [apply rid_in_ids|].
  rewrite Hy. apply list_elem_of_bind. exists y. split; [apply rid_in_ids|done].
Qed.

(** ** The iterator *)
Section iterator.
Variable a : Arena.t DeviceTreeNode.t.
Import DeviceTreeIter.

(** A number of steps, with the nodes and the depth behind each of them. *)
Inductive runs : t → list (DeviceTreeNode.t * Z) → t → Prop :=
| runs_nil it : runs it [] it
| runs_cons it n it1 l it2 :
    next a it = Returns (Some n, it1) → runs it1 l it2 → runs it ((n, depth it1) :: l) it2.

Lemma runs_app it1 l it2 k it3 : runs it1 l it2 → runs it2 k it3 → runs it1 (l ++ k) it3.
Proof. induction 1; simpl; [done|]. intros. econstructor; eauto. Qed.

Lemma runs_collect it l it' k :
  runs it l it' → collect (length l + k) a it = (r ← collect k a it'; Returns (l.*1 ++ r)).
Proof.
  induction 1 as [|it n it1 l it2 Hn _ IH]; simpl.
  - by destruct (collect k a it).
  - rewrite Hn. simpl. rewrite IH. by destruct (collect k a it2).
Qed.

(** The steps over a tree at depth [d], when the iterator is at depth [e] behind it. *)
Fixpoint visits (par : option nat) (d e : Z) (r : rose) : list (DeviceTreeNode.t * Z) :=
  let 'Rose i n ps l := r in
  match l with
  | [] => [(node_of par r, e)]
  | _ => (node_of par r, d + 1) ::
         (fix go l := match l with
                      | [] => []
                      | x :: l => match l with
                                  | [] => visits (Some i) (d + 1) e x
                                  | _ => visits (Some i) (d + 1) (d + 1) x ++ go l
                                  end
                      end) l
  end.
Fixpoint visits_all (par : option nat) (d e : Z) (l : list rose) : list (DeviceTreeNode.t * Z) :=
  match l with
  | [] => []
  | [x] => visits par d e x
  | x :: l => visits par d d x ++ visits_all par d e l
  end.
Lemma visits_eq par d e i n ps l :
  visits par d e (Rose i n ps l) =
  match l with
  | [] => [(node_of par (Rose i n ps l), e)]
  | _ => (node_of par (Rose i n ps l), d + 1) :: visits_all (Some i) (d + 1) e l
  end.
Proof.
  destruct l as [|x l]; [done|]. cbn [visits]. f_equal. revert x.
  induction l as [|y l IH]; intros x; [done|]. cbn [visits_all]. by rewrite (IH y).
Qed.

Lemma visits_nodes par d e r : (visits par d e r).*1 = (entries par r).*2.
Proof.
  revert par d e. induction r as [i n ps l IH] using rose_induction. intros par d e.
  rewrite visits_eq, entries_eq. destruct l as [|x l]; [done|]. simpl. f_equal.
  generalize dependent x. induction l as [|y l IHl]; intros x IH; inversion_clear IH as [|?? Hx Hl].
  - simpl. by rewrite Hx, app_nil_r.
  - rewrite forest_cons, fmap_app. cbn [visits_all]. rewrite fmap_app, Hx. f_equal. by apply IHl.
Qed.

Fixpoint height (r : rose) : nat :=
  let 'Rose _ _ _ l := r in
  S ((fix go l := match l with [] => O | x :: l => (height x `max` go l)%nat end) l).
Definition heights (l : list rose) : nat := foldr (λ x m, height x `max` m)%nat O l.
Lemma height_eq i n ps l : height (Rose i n ps l) = S (heights l).
Proof. done. Qed.
Lemma height_entries par r : (height r ≤ length (entries par r))%nat.
Proof.
  revert par. induction r as [i n ps l IH] using rose_induction. intros par.
  rewrite height_eq, entries_eq. simpl. apply le_n_S.
  induction IH as [|x l Hx _ IH]; [done|]. rewrite forest_cons, length_app. simpl.
  specialize (Hx (Some i)). lia.
Qed.

Definition stored (l : list (nat * DeviceTreeNode.t)) : Prop :=
  Forall (λ '(i, n), Arena.get a i = Some n) l.

Lemma next_sibling_app id pre l :
  id ∉ pre → next_sibling id (pre ++ id :: l) = Returns (head l).
Proof.
  induction pre as [|x pre IH]; simpl; intros Hn.
  - by rewrite Nat.eqb_refl.
  - apply not_elem_of_cons in Hn as [Hx Hn]. rewrite (proj2 (Nat.eqb_neq x id)) by done. by apply IH.
Qed.

Lemma climb_child f R i x d pn pre rest :
  Arena.get a i = Some pn → DeviceTreeNode.children pn = pre ++ rid x :: rest → rid x ∉ pre → rid x ≠ R →
  climb (S f) a (Some R) (node_of (Some i) x) d =
  match head rest with
  | Some s => Returns (mk (Some R) (Some s) d)
  | None => climb f a (Some R) pn (wrap64 (d - 1))
  end.
Proof.
  intros Hg Hc Hpre HR. destruct x as [j n ps l]. cbn [climb node_of DeviceTreeNode.parent].
  cbn [DeviceTreeNode.id DeviceTreeNode.id_ unwrap_option mbind outcome_bind] in *.
  rewrite (proj2 (Nat.eqb_neq j R)) by done. rewrite Hg. cbn [unwrap_option].
  cbn [rid] in *. rewrite obind_ret, Hc, next_sibling_app by done. by rewrite obind_ret.
Qed.

(** What the iterator does on a tree, given where it goes from the root of the tree. *)
Definition visited (R : nat) (r : rose) : Prop := ∀ par d it f0,
  stored (entries par r) → NoDup (ids r) → R ∉ (kids_of r ≫= ids) →
  0 ≤ d → d + Z.of_nat (height r) < U64 → (f0 + height r ≤ S (S (length (Arena.vals a))))%nat →
  (∀ f, (f0 ≤ f)%nat → climb f a (Some R) (node_of par r) d = Returns it) →
  runs (mk (Some R) (Some (rid r)) d) (visits par d (depth it) r) it.

Lemma runs_siblings R i me pre c l d it f0 :
  Forall (visited R) (c :: l) →
  Arena.get a i = Some me → DeviceTreeNode.children me = map rid (pre ++ c :: l) →
  NoDup (map rid (pre ++ c :: l)) →
  stored (forest (Some i) (c :: l)) → NoDup ((c :: l) ≫= ids) → R ∉ ((c :: l) ≫= ids) →
  0 ≤ d → d + 1 + Z.of_nat (heights (c :: l)) < U64 →
  (f0 + S (heights (c :: l)) ≤ S (S (length (Arena.vals a))))%nat →
  (∀ f, (f0 ≤ f)%nat → climb f a (Some R) me d = Returns it) →
  runs (mk (Some R) (Some (rid c)) (d + 1)) (visits_all (Some i) (d + 1) (depth it) (c :: l)) it.
Proof.
  revert pre c. induction l as [|y l IHl]; intros pre c HV Hme Hch Hnr Hst Hnd HR Hd Hh Hf Hc.
  all: apply list.Forall_cons in HV as [HVc HV].
  all: rewrite forest_cons in Hst; apply list.Forall_app in Hst as [Hsc Hst].
  all: cbn [mbind list_bind] in Hnd, HR; apply list.NoDup_app in Hnd as (Hnc & _ & Hnl).
  all: rewrite not_elem_of_app in HR; destruct HR as [HRc HRl]; cbn [heights foldr] in Hh, Hf.
  all: rewrite map_app in Hch, Hnr; cbn [map] in Hch, Hnr.
  all: assert (rid c ∉ map rid pre) as Hpre by
      (apply list.NoDup_app in Hnr as (_ & Hdis & _); intros Hin; apply (Hdis _ Hin); left).
  all: assert (rid c ≠ R) as HcR by (intros <-; by apply HRc, rid_in_ids).
  all: assert (R ∉ (kids_of c ≫= ids)) as HRk by
      (intros Hin; apply HRc; destruct c; rewrite ids_eq; by right).
  - eapply (HVc (Some i) (d + 1) it (S f0)); [done..|lia|lia|lia|].
    intros [|f] Hle; [lia|]. erewrite climb_child by done. cbn [head map].
    replace (wrap64 (d + 1 - 1)) with d by (unfold wrap64; rewrite Z.mod_small; lia). apply Hc. lia.
  - eapply runs_app.
    + apply (HVc (Some i) (d + 1) (mk (Some R) (Some (rid y)) (d + 1)) 1%nat); [done..|lia|lia|lia|].
      intros [|f] Hle; [lia|]. by erewrite climb_child by done.
    + apply (IHl (pre ++ [c]) y); rewrite <-?app_assoc; try done; rewrite ?map_app; [done|done| | ];
        cbn [heights foldr]; lia.
Qed.

Lemma runs_rose R r : visited R r.
Proof.
  induction r as [i n ps l IH] using rose_induction. intros par d it f0 Hst Hnd HR Hd Hh Hf Hc.
  rewrite entries_eq in Hst. apply list.Forall_cons in Hst as [Hi Hst].
  rewrite ids_eq in Hnd. apply list.NoDup_cons in Hnd as [_ Hnd]. cbn [kids_of] in HR.
  rewrite height_eq in Hh, Hf. rewrite visits_eq.
  assert (∀ it', set_next_node a (node_of par (Rose i n ps l)) (mk (Some R) (Some i) d) = Returns it' →
    next a (mk (Some R) (Some i) d) = Returns (Some (node_of par (Rose i n ps l)), it')) as Hnext.
  { intros it' Hs. unfold next. cbn [current mbind option_bind]. by rewrite Hi, Hs. }
  destruct l as [|c l]; cbn [rid].
  - econstructor; [|constructor]. apply Hnext. unfold set_next_node. apply Hc. cbn [heights foldr] in Hf. lia.
  - apply runs_cons with (it1 := mk (Some R) (Some (rid c)) (d + 1)).
    + apply Hnext. unfold set_next_node. cbn. unfold wrap64. rewrite Z.mod_small by lia. done.
    + apply (runs_siblings R i _ [] c l d it f0 IH Hi); [done| |done..|lia|lia|done].
      by apply rids_submseteq.
Qed.
End iterator.

(** ** Subtrees *)
Record frame := Frame {
  f_id : nat; f_name : bytes; f_props : list DeviceTreeProp.t; f_left : list rose; f_right : list rose
}.
Definition frame_fill (f : frame) (s : rose) : rose :=
  Rose (f_id f) (f_name f) (f_props f) (f_left f ++ s :: f_right f).
(** A tree with a hole; the innermost frame comes first. *)
Fixpoint plug (C : list frame) (s : rose) : rose :=
  match C with [] => s | f :: C => plug C (frame_fill f s) end.
Definition par_of (C : list frame) : option nat := f_id <$> head C.
(** The nodes around a hole that holds a tree with root [x]. *)
Fixpoint around (C : list frame) (x : nat) : list (nat * DeviceTreeNode.t) :=
  match C with
  | [] => []
  | f :: C =>
      (f_id f, DeviceTreeNode.mk (Some (f_id f)) (f_name f) (par_of C)
                 (map rid (f_left f) ++ x :: map rid (f_right f)) (f_props f))
      :: forest (Some (f_id f)) (f_left f) ++ forest (Some (f_id f)) (f_right f) ++ around C (f_id f)
  end.

Lemma plug_app C C' s : plug (C ++ C') s = plug C' (plug C s).
Proof. revert s. induction C as [|f C IH]; intros s; [done|]. apply IH. Qed.

Lemma rid_plug C s s' : rid s = rid s' → rid (plug C s) = rid (plug C s').
Proof. revert s s'. induction C as [|f C IH]; intros s s' Heq; [done|]. by apply IH. Qed.

Lemma entries_plug C s : entries None (plug C s) ≡ₚ around C (rid s) ++ entries (par_of C) s.
Proof.
  revert s. induction C as [|f C IH]; intros s; [done|]. cbn [plug]. rewrite IH.
  unfold frame_fill. rewrite entries_eq. cbn [rid around node_of]. rewrite map_app, forest_app, forest_cons.
  cbn [map]. change (par_of (f :: C)) with (Some (f_id f)). simpl. solve_Permutation.
Qed.

Lemma ids_plug C s : ids (plug C s) ≡ₚ (around C (rid s)).*1 ++ ids s.
Proof. unfold ids at 1. by rewrite entries_plug, fmap_app, ids_par. Qed.

Lemma plug_at i r : i ∈ ids r → ∃ C s, r = plug C s ∧ rid s = i.
Proof.
  induction r as [j n ps l IH] using rose_induction. rewrite ids_eq. intros [->|Hin]%elem_of_cons.
  { by exists [], (Rose j n ps l). }
  apply list_elem_of_bind in Hin as (k & Hik & (l1 & l2 & ->)%list_elem_of_split).
  apply list.Forall_app in IH as [_ [IHk _]%list.Forall_cons].
  destruct (IHk Hik) as (C & s & -> & Hs). exists (C ++ [Frame j n ps l1 l2]), s.
  by rewrite plug_app.
Qed.

(** ** The tree that an arena represents *)
Definition oentries (o : option rose) : list (nat * DeviceTreeNode.t) := from_option (entries None) [] o.
Definition oids (o : option rose) : list nat := from_option ids [] o.
Definition c_string (raw : bytes) : Prop := Str.is_utf8 raw = true ∧ Str.ends_with_nul raw = true.
Definition named (n : DeviceTreeNode.t) : Prop :=
  c_string (DeviceTreeNode.name_raw n) ∧ Forall (c_string ∘ DeviceTreeProp.name_raw) (DeviceTreeNode.props n).

Record models (d : DeviceTree.t) (o : option rose) : Prop := {
  models_root : DeviceTree.root d = rid <$> o;
  models_stored : stored (DeviceTree.node_arena d) (oentries o);
  models_nodup : NoDup (oids o);
  models_named : Forall named (oentries o).*2
}.

Lemma get_lt {T} (a : Arena.t T) i x : Arena.get a i = Some x → (i < length (Arena.vals a))%nat.
Proof. unfold Arena.get. intros Hg. destruct (Arena.vals a !! i) eqn:He; [|done]. by eapply lookup_lt_Some. Qed.
Lemma get_set {T} (a : Arena.t T) i x y : Arena.get a i = Some y → Arena.get (Arena.set a i x) i = Some x.
Proof. intros Hg%get_lt. unfold Arena.get, Arena.set. simpl. by rewrite list_lookup_insert_eq. Qed.
Lemma arena_get_set_ne {T} (a : Arena.t T) i j x : i ≠ j → Arena.get (Arena.set a i x) j = Arena.get a j.
Proof. intros Hij. unfold Arena.get, Arena.set. simpl. by rewrite list_lookup_insert_ne. Qed.
Lemma get_remove_ne {T} (a : Arena.t T) i j : i ≠ j → Arena.get (Arena.remove a i) j = Arena.get a j.
Proof. intros Hij. unfold Arena.get, Arena.remove. simpl. by rewrite list_lookup_insert_ne. Qed.
Lemma get_push {T} (a : Arena.t T) x j y :
  Arena.get a j = Some y → Arena.get (snd (Arena.push a x)) j = Some y.
Proof.
  intros Hg. pose proof (get_lt _ _ _ Hg). unfold Arena.get, Arena.push in *. simpl.
  by rewrite lookup_app_l.
Qed.

Lemma stored_in a l i n : stored a l → (i, n) ∈ l → Arena.get a i = Some n.
Proof. unfold stored. rewrite list.Forall_forall. intros Hs Hin. apply (Hs _ Hin). Qed.
Lemma stored_lt a l i : stored a l → i ∈ l.*1 → (i < length (Arena.vals a))%nat.
Proof.
  intros Hs ([i' n] & -> & Hin)%list_elem_of_fmap_1. eapply get_lt, (stored_in a l); eauto.
Qed.
Lemma stored_get a b l :
  (∀ i n, i ∈ l.*1 → Arena.get a i = Some n → Arena.get b i = Some n) → stored a l → stored b l.
Proof.
  unfold stored. rewrite !list.Forall_forall. intros Hab Hs [i n] Hin. apply Hab; [|by apply (Hs _ Hin)].
  apply list_elem_of_fmap. by exists (i, n).
Qed.
Lemma stored_length a l : stored a l → NoDup l.*1 → (length l ≤ length (Arena.vals a))%nat.
Proof.
  intros Hs Hnd. rewrite <-(length_fmap fst l), <-(length_seq (length (Arena.vals a)) 0).
  apply submseteq_length, NoDup_submseteq; [done|]. intros i Hi%(stored_lt a l); [|done].
  apply elem_of_seq. lia.
Qed.

Definition fits (d : DeviceTree.t) : Prop := Z.of_nat (length (Arena.vals (DeviceTree.node_arena d))) < U64.

(** A loop over the nodes from the root of a stored tree. *)
Lemma runs_from a par s :
  stored a (entries par s) → NoDup (ids s) → Z.of_nat (length (Arena.vals a)) < U64 →
  runs a (DeviceTreeIter.new (Some (rid s))) (visits par 0 0 s) (DeviceTreeIter.mk (Some (rid s)) None 0).
Proof.
  intros Hst Hnd Hlen.
  assert (length (entries par s) ≤ length (Arena.vals a))%nat as Hle
    by (apply stored_length; [done|by rewrite ids_par]).
  pose proof (height_entries par s).
  apply (runs_rose a (rid s) s par 0 (DeviceTreeIter.mk (Some (rid s)) None 0) 1%nat); try done; try lia.
  - destruct s as [i n ps l]. rewrite ids_eq in Hnd. by apply list.NoDup_cons in Hnd as [? _].
  - intros [|f] Hf; [lia|]. destruct s as [i n ps l]. cbn [DeviceTreeIter.climb node_of DeviceTreeNode.parent].
    destruct par as [p|]; [|done].
    cbn [DeviceTreeNode.id DeviceTreeNode.id_ unwrap_option mbind outcome_bind rid].
    by rewrite Nat.eqb_refl.
Qed.
Lemma visits_length par d e s : length (visits par d e s) = length (entries par s).
Proof. by rewrite <-(length_fmap fst), visits_nodes, length_fmap. Qed.

Lemma nodes_from d par s :
  stored (DeviceTree.node_arena d) (entries par s) → NoDup (ids s) → fits d →
  DeviceTree.nodes d (DeviceTreeIter.new (Some (rid s))) = Returns (entries par s).*2.
Proof.
  intros Hst Hnd Hfit. unfold DeviceTree.nodes.
  assert (length (entries par s) ≤ length (Arena.vals (DeviceTree.node_arena d)))%nat as Hle
    by (apply stored_length; [done|by rewrite ids_par]).
  rewrite <-(visits_length par 0 0) in Hle.
  replace (S (length (Arena.vals (DeviceTree.node_arena d))))
    with (length (visits par 0 0 s) + S (length (Arena.vals (DeviceTree.node_arena d)) - length (visits par 0 0 s)))%nat
    by lia.
  erewrite runs_collect by by apply runs_from. cbn. by rewrite visits_nodes, app_nil_r.
Qed.

(** ** Replacing a subtree *)
Lemma models_node d C s :
  models d (Some (plug C s)) →
  DeviceTree.get_node d (rid s) = Some (node_of (par_of C) s) ∧ Forall named (entries (par_of C) s).*2 ∧
  stored (DeviceTree.node_arena d) (around C (rid s)) ∧ stored (DeviceTree.node_arena d) (entries (par_of C) s).
Proof.
  intros [_ Hst _ Hnm]. cbn [oentries from_option] in *. unfold stored in Hst.
  rewrite entries_plug in Hst, Hnm. apply list.Forall_app in Hst as [Ha Hs].
  assert ((rid s, node_of (par_of C) s) ∈ entries (par_of C) s) as Hin by (destruct s; rewrite entries_eq; left).
  split_and!; [|..|done|done].
  - by eapply stored_in.
  - rewrite fmap_app in Hnm. by apply list.Forall_app in Hnm as [_ Hnm].
Qed.

Lemma models_apart d C s :
  models d (Some (plug C s)) → NoDup (ids s) ∧ ∀ i, i ∈ ids s → i ∉ (around C (rid s)).*1.
Proof.
  intros [_ _ Hnd _]. cbn [oids from_option] in Hnd. rewrite ids_plug in Hnd.
  apply list.NoDup_app in Hnd as (_ & Hdis & Hnd). split; [done|]. intros i Hi Ha. by apply (Hdis i).
Qed.

Lemma models_replace d a C s s' :
  models d (Some (plug C s)) → rid s' = rid s →
  (∀ i n, i ∈ (around C (rid s)).*1 → DeviceTree.get_node d i = Some n → Arena.get a i = Some n) →
  stored a (entries (par_of C) s') →
  NoDup (ids s') → (∀ i, i ∈ ids s' → i ∉ (around C (rid s)).*1) →
  Forall named (entries (par_of C) s').*2 →
  models (DeviceTree.with_arena a d) (Some (plug C s')).
Proof.
  intros Hm Hid Ha Hs' Hnd Hin Hnm. destruct (models_node _ _ _ Hm) as (_ & _ & Har & _).
  destruct Hm as [Hroot Hst Hnd0 Hnm0]. cbn [oentries oids from_option] in *.
  constructor; cbn [oentries oids from_option DeviceTree.with_arena DeviceTree.root DeviceTree.node_arena].
  - rewrite Hroot. simpl. f_equal. by apply rid_plug.
  - unfold stored. rewrite entries_plug, list.Forall_app, Hid. split; [|done].
    by eapply stored_get.
  - rewrite ids_plug, Hid. rewrite ids_plug in Hnd0. apply list.NoDup_app in Hnd0 as (Hn1 & _ & _).
    apply list.NoDup_app. split_and!; [done| |done]. intros i Hi Hi'. by apply (Hin i).
  - rewrite entries_plug, Hid, fmap_app, list.Forall_app. split; [|done].
    rewrite entries_plug, fmap_app, list.Forall_app in Hnm0. by destruct Hnm0.
Qed.

(** ** Running methods whatever the heap answers *)
Section returns.
Context {H : Type} `{Heap H}.
Local Notation E := DeviceTreeError.t.
Definition returns {S A} (m : M (S * H) E A) (s : S) (Q : result E A → S → Prop) : Prop :=
  ∀ h, ∃ r s' h', m (s, h) = Returns (r, (s', h')) ∧ Q r s'.

Lemma returns_impl {S A} (m : M (S * H) E A) s (P Q : result E A → S → Prop) :
  returns m s P → (∀ r s', P r s' → Q r s') → returns m s Q.
Proof. intros HP HPQ h. destruct (HP h) as (r & s' & h' & ? & ?). eauto 10. Qed.
Lemma returns_ret {S A} (x : A) s (Q : result E A → S → Prop) : Q (Ok x) s → returns (mret x) s Q.
Proof. intros HQ h. eexists _, _, _. split; [reflexivity|done]. Qed.
Lemma returns_err {S A} (e : E) s (Q : result E A → S → Prop) : Q (Err e) s → returns (err e) s Q.
Proof. intros HQ h. eexists _, _, _. split; [reflexivity|done]. Qed.
Lemma returns_lift {S A} (r : result E A) s (Q : result E A → S → Prop) : Q r s → returns (lift r) s Q.
Proof. intros HQ h. eexists _, _, _. split; [reflexivity|done]. Qed.
Lemma returns_outcome {S A} (o : outcome A) x s (Q : result E A → S → Prop) :
  o = Returns x → Q (Ok x) s → returns (of_outcome o) s Q.
Proof. intros -> HQ h. eexists _, _, _. split; [reflexivity|done]. Qed.
Lemma returns_state {S} s (Q : result E S → S → Prop) : Q (Ok s) s → returns state s Q.
Proof. intros HQ h. eexists _, _, _. split; [reflexivity|done]. Qed.
Lemma returns_update {S} f s (Q : result E unit → S → Prop) : Q (Ok tt) (f s) → returns (update f) s Q.
Proof. intros HQ h. eexists _, _, _. split; [reflexivity|done]. Qed.
Lemma returns_reserve {S} n s (Q : result E unit → S → Prop) :
  Q (Ok tt) s → Q (Err DeviceTreeError.AllocError) s → returns (try_reserve n) s Q.
Proof.
  intros HO HE h. unfold try_reserve. destruct (try_reserve_in n h) as [[] h'];
    eexists _, _, _; (split; [reflexivity|done]).
Qed.
Lemma returns_bind {S A B} (m : M (S * H) E A) (f : A → M (S * H) E B) s Q :
  returns m s (λ r s', match r with Ok x => returns (f x) s' Q | Err e => Q (Err e) s' end) →
  returns (m ≫= f) s Q.
Proof.
  intros Hm h. destruct (Hm h) as ([x|e] & s' & h' & Heq & HP).
  - rewrite (bind_ok _ _ _ _ _ Heq). by apply HP.
  - rewrite (bind_err _ _ _ _ _ Heq). eauto 10.
Qed.
Lemma returns_zoom {S B A} (get : S → B) set (m : M (B * H) E A) s Q :
  returns m (get s) (λ r b, Q r (set b s)) → returns (zoom get set m) s Q.
Proof.
  intros Hm h. destruct (Hm h) as (r & b & h' & Heq & HQ). unfold zoom. rewrite Heq.
  eexists _, _, _. split; [reflexivity|done].
Qed.
(** A local value whose methods are run, inside of a method of something else. *)
Lemma returns_local {S B A C} (init : B) (m : M (B * H) E A) (k : A * B → C) s (Q : result E C → S → Prop) :
  returns m init (λ r b, Q (match r with Ok x => Ok (k (x, b)) | Err e => Err e end) s) →
  returns (heap (x ← local init m; mret (k x))) s Q.
Proof.
  intros Hm h. destruct (Hm h) as ([x|e] & b & h' & Heq & HQ); unfold heap, local, mbind, M_bind; rewrite Heq;
    eexists _, _, _; (split; [reflexivity|done]).
Qed.
Lemma returns_get_mut d id n {A} (m : M (DeviceTreeNode.t * H) E A) Q :
  DeviceTree.get_node d id = Some n →
  returns m n (λ r n', Q (match r with Ok x => Ok (Some x) | Err e => Err e end)
                         (DeviceTree.with_arena (Arena.set (DeviceTree.node_arena d) id n') d)) →
  returns (DeviceTree.get_mut_node id m) d Q.
Proof.
  intros Hg Hm. unfold DeviceTree.get_mut_node. apply returns_bind, returns_state. rewrite Hg.
  apply returns_bind, returns_zoom. eapply returns_impl; [apply Hm|]. intros [x|e] n' HQ; [|done].
  by apply returns_ret.
Qed.
Lemma returns_get_mut_none d id {A} (m : M (DeviceTreeNode.t * H) E A) Q :
  DeviceTree.get_node d id = None → Q (Ok None) d → returns (DeviceTree.get_mut_node id m) d Q.
Proof.
  intros Hg HQ. unfold DeviceTree.get_mut_node. apply returns_bind, returns_state. rewrite Hg.
  by apply returns_ret.
Qed.

(** *** C strings *)
Definition cstr (s : bytes) : bytes := if Str.ends_with_nul s then s else s ++ [0].

Lemma returns_copy src dest Q :
  Q (Ok tt) (cstr src) → Q (Err DeviceTreeError.AllocError) [] →
  returns (copy_string_with_null_termination src) dest Q.
Proof.
  intros HO HE. unfold copy_string_with_null_termination, cstr in *.
  apply returns_bind, returns_update, returns_bind, returns_reserve; [|done].
  apply returns_bind, returns_update.
  destruct Str.ends_with_nul; [by apply returns_ret|by apply returns_update].
Qed.
Lemma returns_new_prop {S} n (s : S) Q :
  Q (Ok (DeviceTreeProp.mk (cstr n) [])) s → Q (Err DeviceTreeError.AllocError) s →
  returns (heap (DeviceTreeProp.new n)) s Q.
Proof.
  intros HO HE. unfold DeviceTreeProp.new.
  apply (returns_local (DeviceTreeProp.mk [] []) (DeviceTreeProp.set_name n) snd s Q).
  apply returns_zoom. apply returns_copy; done.
Qed.
Lemma returns_new_node {S} n (s : S) Q :
  Q (Ok (DeviceTreeNode.mk None (cstr n) None [] [])) s → Q (Err DeviceTreeError.AllocError) s →
  returns (heap (DeviceTreeNode.new n)) s Q.
Proof.
  intros HO HE. unfold DeviceTreeNode.new.
  apply (returns_local (DeviceTreeNode.mk None [] None [] []) (DeviceTreeNode.set_name n) snd s Q).
  apply returns_zoom. apply returns_copy; done.
Qed.

(** *** Creating nodes *)
Lemma get_node_lt d i n :
  DeviceTree.get_node d i = Some n → (i < length (Arena.vals (DeviceTree.node_arena d)))%nat.
Proof. apply get_lt. Qed.

(** The arena behind [alloc_node]: one more slot. *)
Definition grown (d : DeviceTree.t) (n : DeviceTreeNode.t) : DeviceTree.t :=
  DeviceTree.with_arena (Arena.mk (Arena.vals (DeviceTree.node_arena d) ++ [Some n])) d.
Definition fresh_id (d : DeviceTree.t) : nat := length (Arena.vals (DeviceTree.node_arena d)).
Definition new_node (d : DeviceTree.t) (name : bytes) : DeviceTreeNode.t :=
  DeviceTreeNode.mk (Some (fresh_id d)) (cstr name) None [] [].

Lemma get_fresh d n : DeviceTree.get_node (grown d n) (fresh_id d) = Some n.
Proof. unfold DeviceTree.get_node, Arena.get, grown. simpl. by rewrite list_lookup_middle. Qed.
Lemma set_fresh d n n' :
  DeviceTree.with_arena (Arena.set (DeviceTree.node_arena (grown d n)) (fresh_id d) n') (grown d n) = grown d n'.
Proof.
  unfold grown, Arena.set, DeviceTree.with_arena. simpl. do 2 f_equal.
  by rewrite insert_app_r_alt, Nat.sub_diag by done.
Qed.
Lemma get_grown d i n x : DeviceTree.get_node d i = Some x → DeviceTree.get_node (grown d n) i = Some x.
Proof. intros Hg. by apply (get_push (DeviceTree.node_arena d) n i x). Qed.
Lemma get_grown_ne d i n : i ≠ fresh_id d → DeviceTree.get_node (grown d n) i = DeviceTree.get_node d i.
Proof.
  intros Hne. unfold DeviceTree.get_node, Arena.get, grown, fresh_id in *. simpl.
  destruct (decide (i < length (Arena.vals (DeviceTree.node_arena d)))%nat).
  - by rewrite lookup_app_l.
  - rewrite (lookup_ge_None_2 (Arena.vals _)) by lia. rewrite lookup_ge_None_2; [done|].
    rewrite length_app. simpl. lia.
Qed.

Lemma returns_alloc_node name d Q :
  Q (Ok (fresh_id d)) (grown d (new_node d name)) → Q (Err DeviceTreeError.AllocError) d →
  returns (DeviceTree.alloc_node name) d Q.
Proof.
  intros HO HE. unfold DeviceTree.alloc_node. apply returns_bind, returns_new_node; [|done].
  apply returns_bind, returns_zoom. unfold try_insert. apply returns_bind, returns_reserve.
  2: { by destruct d. }
  apply returns_bind, returns_state. apply returns_bind, returns_update, returns_ret.
  apply returns_bind. eapply returns_get_mut; [by apply get_fresh|]. apply returns_update.
  apply returns_bind, returns_outcome with (x := tt); [done|]. apply returns_ret.
  rewrite <-(set_fresh d (DeviceTreeNode.mk None (cstr name) None [] [])) in HO. exact HO.
Qed.

Lemma models_frame d a o :
  models d o → (∀ i n, i ∈ oids o → DeviceTree.get_node d i = Some n → Arena.get a i = Some n) →
  models (DeviceTree.with_arena a d) o.
Proof.
  intros [Hroot Hst Hnd Hnm] Ha. constructor; [done| |done|done].
  eapply stored_get, Hst. intros i n Hi. apply Ha. by destruct o.
Qed.
Lemma models_lt d o i : models d o → i ∈ oids o → (i < fresh_id d)%nat.
Proof. intros Hm Hi. eapply stored_lt; [apply Hm|]. by destruct o. Qed.

Lemma app_nul_utf8 s : Str.is_utf8 (s ++ [0]) = Str.is_utf8 s.
Proof.
  remember (length s) as k eqn:Hk. revert s Hk.
  induction k as [k IH] using (well_founded_induction lt_wf). intros s ->.
  destruct s as [|b0 s]; [done|]. cbn [Str.is_utf8 app length] in *.
  assert (∀ r, (length r ≤ length s)%nat → Str.is_utf8 (r ++ [0]) = Str.is_utf8 r) as IH'.
  { intros r Hr. apply (IH (length r)); [lia|done]. }
  clear IH. destruct ((0 <=? b0) && (b0 <? 128)); [by apply IH'|].
  destruct s as [|b1 s]; cbn [app length] in *; [by destruct (_ && _)|].
  destruct ((194 <=? b0) && (b0 <? 224)); [f_equal; apply IH'; lia|].
  destruct s as [|b2 s]; cbn [app length] in *.
  { destruct ((224 <=? b0) && (b0 <? 240)); [|done]. by rewrite andb_false_r. }
  destruct ((224 <=? b0) && (b0 <? 240)); [f_equal; apply IH'; lia|].
  destruct s as [|b3 s]; cbn [app length] in *; [by rewrite andb_false_r|]. f_equal. apply IH'. lia.
Qed.
Lemma cstr_c_string s : Str.is_utf8 s = true → c_string (cstr s).
Proof.
  intros Hs. unfold c_string, cstr. destruct (Str.ends_with_nul s) eqn:He; [done|].
  split; [by rewrite app_nul_utf8|]. unfold Str.ends_with_nul. by rewrite last_snoc.
Qed.

(** An id that a caller has: of a node of the tree, or of a node that was removed. *)
Definition issued (d : DeviceTree.t) (o : option rose) (i : nat) : Prop :=
  i ∈ oids o ∨ (i < fresh_id d)%nat ∧ DeviceTree.get_node d i = None.

Definition add_node_post (o : option rose) (name : bytes) (parent : option nat)
    (r : result E nat) (d' : DeviceTree.t) : Prop :=
  match r with
  | Err _ => models d' o
  | Ok id =>
      id ∉ oids o ∧
      match parent with
      | None => o = None ∧ models d' (Some (Rose id (cstr name) [] []))
      | Some p => ∃ C n ps l, o = Some (plug C (Rose p n ps l)) ∧
                    models d' (Some (plug C (Rose p n ps (l ++ [Rose id (cstr name) [] []]))))
      end
  end.

Lemma models_add_child d C p n ps l name :
  models d (Some (plug C (Rose p n ps l))) → Str.is_utf8 name = true →
  let d1 := grown d (DeviceTreeNode.set_parent (Some p) (new_node d name)) in
  let me := node_of (par_of C) (Rose p n ps l) in
  models (DeviceTree.with_arena
            (Arena.set (DeviceTree.node_arena d1) p
               (DeviceTreeNode.with_children (DeviceTreeNode.children me ++ [fresh_id d]) me)) d1)
         (Some (plug C (Rose p n ps (l ++ [Rose (fresh_id d) (cstr name) [] []])))).
Proof.
  intros Hm Hname. cbv zeta. set (leaf := Rose _ _ _ _). set (nw := DeviceTreeNode.set_parent _ _).
  assert (models (grown d nw) (Some (plug C (Rose p n ps l)))) as Hm1.
  { apply models_frame; [done|]. intros i m _ Hg. by apply (get_grown d i nw m). }
  destruct (models_apart _ _ _ Hm1) as [Hnd Hap]. destruct (models_node _ _ _ Hm1) as (Hg & _ & _ & Hst).
  destruct (models_node _ _ _ Hm) as (_ & Hnm & Har0 & Hst0).
  rewrite ids_eq in Hnd. apply list.NoDup_cons in Hnd as [Hp Hnd]. cbn [rid] in *.
  rewrite entries_eq in Hst. apply list.Forall_cons in Hst as [_ Hst].
  assert (∀ i, i ∈ ids (Rose p n ps l) → (i < fresh_id d)%nat) as Hlt.
  { intros i Hi. eapply stored_lt; [exact Hst0|]. by rewrite ids_par. }
  assert (p ≠ fresh_id d) as Hpf by (pose proof (Hlt p (rid_in_ids (Rose p n ps l))); lia).
  eapply models_replace; [exact Hm1|done|..].
  - intros i m Hi Hgi. rewrite arena_get_set_ne; [done|]. intros <-. by apply (Hap p (rid_in_ids (Rose p n ps l))).
  - rewrite entries_eq, forest_app. constructor; [|apply list.Forall_app; split].
    + rewrite (get_set _ _ _ _ Hg). unfold node_of, DeviceTreeNode.with_children. simpl. by rewrite map_app.
    + eapply stored_get, Hst. intros i m Hi Hgi. rewrite arena_get_set_ne; [done|]. intros <-.
      by rewrite forest_ids in Hi.
    + constructor; [|constructor]. rewrite arena_get_set_ne by done. apply (get_fresh d nw).
  - rewrite ids_eq, bind_app. cbn [mbind list_bind]. rewrite app_nil_r. unfold leaf. rewrite ids_eq.
    rewrite app_comm_cons, <-ids_eq with (n := n) (ps := ps). apply list.NoDup_app. split_and!.
    + rewrite ids_eq. by constructor.
    + intros i Hi%Hlt ->%list_elem_of_singleton. lia.
    + apply NoDup_singleton.
  - intros i. rewrite ids_eq, bind_app. cbn [mbind list_bind]. rewrite app_nil_r. unfold leaf. rewrite ids_eq.
    rewrite app_comm_cons, elem_of_app, <-ids_eq with (n := n) (ps := ps). intros [Hi|Hi]; [by apply Hap|].
    apply list_elem_of_singleton in Hi as ->. intros Hi%(stored_lt _ _ _ Har0). unfold fresh_id in Hi. lia.
  - rewrite entries_eq, forest_app, !fmap_cons, !fmap_app. rewrite entries_eq in Hnm.
    apply list.Forall_cons in Hnm as [Hn1 Hn2]. constructor; [done|]. apply list.Forall_app. split; [done|].
    destruct (cstr_c_string name Hname). by repeat constructor.
Qed.

Lemma models_grown d o n : models d o → models (grown d n) o.
Proof. intros Hm. apply models_frame; [done|]. intros i m _ Hg. by apply (get_grown d i n m). Qed.

(** A new node as the last child of a node of the tree. *)
Lemma add_child_spec name d C p n ps l :
  models d (Some (plug C (Rose p n ps l))) → Str.is_utf8 name = true →
  returns (DeviceTree.add_node name (Some p)) d (λ r d',
    match r with
    | Ok id => id ∉ ids (plug C (Rose p n ps l)) ∧
               models d' (Some (plug C (Rose p n ps (l ++ [Rose id (cstr name) [] []]))))
    | Err e => e = DeviceTreeError.AllocError ∧ models d' (Some (plug C (Rose p n ps l)))
    end).
Proof.
  intros Hm Hname. unfold DeviceTree.add_node.
  assert (fresh_id d ∉ ids (plug C (Rose p n ps l))) as Hfresh by (intros Hin%(models_lt _ _ _ Hm); lia).
  apply returns_bind, returns_alloc_node; [|done]. apply returns_bind, returns_state, returns_bind.
  eapply returns_get_mut; [apply get_fresh|]. apply returns_update. rewrite set_fresh. apply returns_bind.
  set (nw := DeviceTreeNode.set_parent _ _).
  destruct (models_node _ _ _ (models_grown _ _ nw Hm)) as (Hg & _ & _ & _).
  eapply returns_get_mut; [exact Hg|]. unfold DeviceTreeNode.add_child. apply returns_bind, returns_reserve.
  - apply returns_update, returns_bind, returns_lift, returns_ret. split; [done|]. by eapply models_add_child.
  - split; [done|]. apply models_frame; [by apply models_grown|]. intros i m Hi Hgi. cbn [rid] in Hg, Hgi |- *.
    destruct (decide (i = p)) as [->|]; [|by rewrite arena_get_set_ne].
    rewrite Hg in Hgi. simplify_eq. by erewrite get_set.
Qed.
Lemma add_root_spec name d :
  models d None → Str.is_utf8 name = true →
  returns (DeviceTree.add_node name None) d (λ r d',
    match r with
    | Ok id => models d' (Some (Rose id (cstr name) [] []))
    | Err e => e = DeviceTreeError.AllocError ∧ models d' None
    end).
Proof.
  intros Hm Hname. unfold DeviceTree.add_node. apply returns_bind, returns_alloc_node; [|done].
  apply returns_bind, returns_state. cbn [grown DeviceTree.with_arena DeviceTree.root].
  rewrite (models_root _ _ Hm). apply returns_bind, returns_update, returns_ret.
  constructor; [done| |apply NoDup_singleton|].
  - constructor; [apply (get_fresh d (new_node d name))|constructor].
  - destruct (cstr_c_string name Hname). by repeat constructor.
Qed.

Lemma add_node_spec name parent d o :
  models d o → Str.is_utf8 name = true →
  (∀ p, parent = Some p → issued d o p) →
  returns (DeviceTree.add_node name parent) d (add_node_post o name parent).
Proof.
  intros Hm Hname Hp. destruct parent as [p|].
  - destruct (Hp p eq_refl) as [Hin|[Hlt Hnone]].
    + destruct o as [r|]; [|by apply not_elem_of_nil in Hin].
      destruct (plug_at p r Hin) as (C & [p' n ps l] & -> & Hid). cbn [rid] in Hid. subst p'.
      eapply returns_impl; [by apply add_child_spec|]. intros [id|e] d' Hpost; [|apply Hpost].
      destruct Hpost as [Hid Hm']. split; [done|]. by exists C, n, ps, l.
    + unfold DeviceTree.add_node. apply returns_bind, returns_alloc_node; [|done].
      apply returns_bind, returns_state, returns_bind. eapply returns_get_mut; [apply get_fresh|].
      apply returns_update. rewrite set_fresh. apply returns_bind, returns_get_mut_none.
      * rewrite get_grown_ne by lia. done.
      * apply returns_bind, returns_lift. by apply models_grown.
  - destruct o as [r|].
    + unfold DeviceTree.add_node. apply returns_bind, returns_alloc_node; [|done].
      apply returns_bind, returns_state. cbn [grown DeviceTree.with_arena DeviceTree.root].
      rewrite (models_root _ _ Hm). by apply returns_err, models_grown.
    + eapply returns_impl; [by apply add_root_spec|]. intros [id|e] d' Hpost; [|apply Hpost].
      split; [apply not_elem_of_nil|done].
Qed.

(** *** Removing nodes *)
Definition frame_drop (f : frame) : rose := Rose (f_id f) (f_name f) (f_props f) (f_left f ++ f_right f).
Definition removed (id : nat) (o o' : option rose) (s : rose) : Prop :=
  rid s = id ∧
  (o = Some s ∧ o' = None ∨ ∃ C f, o = Some (plug (f :: C) s) ∧ o' = Some (plug C (frame_drop f))).

Lemma entries_id par r : Forall (λ '(i, n), DeviceTreeNode.id n = Returns i) (entries par r).
Proof.
  revert par. induction r as [i n ps l IH] using rose_induction. intros par. rewrite entries_eq.
  constructor; [done|]. unfold forest. induction IH as [|x l Hx _ IH]; [constructor|].
  cbn [mbind list_bind]. apply list.Forall_app. split; [apply Hx|done].
Qed.
Lemma mapM_id (l : list (nat * DeviceTreeNode.t)) :
  Forall (λ '(i, n), DeviceTreeNode.id n = Returns i) l → mapM DeviceTreeNode.id l.*2 = Returns l.*1.
Proof.
  induction 1 as [|[i n] l Hn _ IH]; [done|]. cbn [fmap list_fmap mapM snd fst] in *. rewrite Hn, obind_ret, IH.
  done.
Qed.
Lemma get_removed (a : Arena.t DeviceTreeNode.t) l i :
  Arena.get (fold_left Arena.remove l a) i = if decide (i ∈ l) then None else Arena.get a i.
Proof.
  revert a. induction l as [|j l IH]; intros a; cbn [fold_left]; [done|]. rewrite IH.
  destruct (decide (i ∈ l)); [by rewrite decide_True by by right|].
  destruct (decide (i = j)) as [->|].
  - rewrite decide_True by left. unfold Arena.get, Arena.remove. simpl.
    destruct (decide (j < length (Arena.vals a))%nat); [by rewrite list_lookup_insert_eq|].
    by rewrite list_insert_ge, lookup_ge_None_2 by lia.
  - rewrite decide_False by by rewrite elem_of_cons; intros [?|?]. by rewrite get_remove_ne.
Qed.
Lemma filter_drop (x : nat) l1 l2 : NoDup (l1 ++ x :: l2) → filter (λ i, i ≠ x) (l1 ++ x :: l2) = l1 ++ l2.
Proof.
  intros Hnd. rewrite list.filter_app, filter_cons_False by auto. apply list.NoDup_app in Hnd as (_ & Hdis & Hnd).
  apply list.NoDup_cons in Hnd as [Hx _].
  assert (∀ l : list nat, x ∉ l → filter (λ i, i ≠ x) l = l) as Hid.
  { intros l Hl. induction l as [|y l IH]; [done|]. apply not_elem_of_cons in Hl as [Hy Hl].
    rewrite filter_cons_True by done. by rewrite IH. }
  rewrite !Hid; [done|done|]. intros Hin. apply (Hdis x Hin). left.
Qed.

(** The loop that frees the nodes of a tree that was detached. *)
Lemma returns_free d s (Q : result E unit → DeviceTree.t → Prop) :
  stored (DeviceTree.node_arena d) (entries None s) → NoDup (ids s) → fits d →
  Q (Err DeviceTreeError.AllocError) d →
  Q (Ok tt) (DeviceTree.with_arena (fold_left Arena.remove (ids s) (DeviceTree.node_arena d)) d) →
  returns (d ← state;
           it ← of_outcome (unwrap_result (DeviceTree.iter_from d (rid s)));
           l ← of_outcome (DeviceTree.nodes d it);
           try_reserve (Z.of_nat (length l));;
           to_remove ← of_outcome (mapM DeviceTreeNode.id l);
           update (λ d, DeviceTree.with_arena (fold_left Arena.remove to_remove (DeviceTree.node_arena d)) d))
          d Q.
Proof.
  intros Hst Hnd Hfit HE HO. apply returns_bind, returns_state, returns_bind.
  assert (DeviceTree.get_node d (rid s) = Some (node_of None s)) as Hg.
  { eapply stored_in; [exact Hst|]. destruct s. rewrite entries_eq. left. }
  eapply returns_outcome; [unfold DeviceTree.iter_from; by rewrite Hg|].
  apply returns_bind. eapply returns_outcome; [by apply nodes_from|].
  apply returns_bind, returns_reserve; [|done].
  apply returns_bind. eapply returns_outcome; [apply mapM_id, entries_id|]. by apply returns_update.
Qed.

Lemma models_none d : DeviceTree.root d = None → models d None.
Proof. intros Hr. by constructor; [|constructor..]. Qed.

(** The arena when a subtree has been detached from its parent. *)
Definition detached (d : DeviceTree.t) (C : list frame) (f : frame) (s : rose) : DeviceTree.t :=
  let a := Arena.set (DeviceTree.node_arena d) (rid s) (node_of None s) in
  DeviceTree.with_arena (Arena.set a (f_id f) (node_of (par_of C) (frame_drop f))) d.

Lemma stored_detach d C f s p :
  DeviceTree.get_node d (rid s) = Some (node_of (Some p) s) →
  stored (DeviceTree.node_arena d) (entries (Some p) s) → f_id f ∉ ids s → NoDup (ids s) →
  stored (DeviceTree.node_arena (detached d C f s)) (entries None s).
Proof.
  intros Hg Hst Hf Hnd. destruct s as [i n ps l]. rewrite entries_eq in *. rewrite ids_eq in *.
  apply list.Forall_cons in Hst as [_ Hst]. apply not_elem_of_cons in Hf as [Hf1 Hf2].
  apply list.NoDup_cons in Hnd as [Hi _]. unfold detached. cbn [rid] in *.
  constructor.
  - cbn [DeviceTree.with_arena DeviceTree.node_arena]. rewrite arena_get_set_ne by done. by erewrite get_set.
  - eapply stored_get, Hst. intros j m Hj Hgj. rewrite forest_ids in Hj.
    cbn [DeviceTree.with_arena DeviceTree.node_arena]. rewrite !arena_get_set_ne; [done|..]; by intros <-.
Qed.

Lemma forest_drop P par l s r : Forall P (forest par (l ++ s :: r)) → Forall P (forest par (l ++ r)).
Proof. rewrite !forest_app, forest_cons, !list.Forall_app. tauto. Qed.

Lemma detached_stored d C f s :
  models d (Some (plug (f :: C) s)) →
  rid s ≠ f_id f ∧ NoDup (map rid (f_left f ++ s :: f_right f)) ∧ NoDup (ids s) ∧
  stored (DeviceTree.node_arena (detached d C f s)) (entries None s) ∧
  (∀ a, (∀ i, i ∉ ids s → Arena.get a i = DeviceTree.get_node (detached d C f s) i) →
        models (DeviceTree.with_arena a d) (Some (plug C (frame_drop f)))).
Proof.
  intros Hm. destruct (models_apart d C (frame_fill f s) Hm) as [Hnd Hap].
  destruct (models_node d C (frame_fill f s) Hm) as (Hg & Hnm & Har & Hst).
  destruct (models_node d (f :: C) s Hm) as (Hgs & _ & _ & Hss).
  unfold frame_fill in Hnd, Hap. rewrite ids_eq in Hnd, Hap. apply list.NoDup_cons in Hnd as [Hf Hnd].
  rewrite bind_app in Hnd, Hf. apply list.NoDup_app in Hnd as (Hl & Hlr & Hsr).
  cbn [mbind list_bind] in Hsr, Hf, Hlr. apply list.NoDup_app in Hsr as (Hs & Hsr & Hr).
  rewrite !not_elem_of_app in Hf. destruct Hf as (Hfl & Hfs & Hfr).
  assert (rid s ≠ f_id f) as Hne by (intros He; apply Hfs; rewrite <-He; apply rid_in_ids).
  assert (stored (DeviceTree.node_arena d) (forest (Some (f_id f)) (f_left f ++ f_right f)) ∧
    Forall named (forest (Some (f_id f)) (f_left f ++ f_right f)).*2 ∧
    named (node_of (par_of C) (frame_fill f s))) as (Hk & Hkn & Hnm1).
  { unfold frame_fill in Hst, Hnm. rewrite entries_eq in Hst, Hnm. rewrite list.Forall_fmap in Hnm |- *.
    apply list.Forall_cons in Hst as [_ Hst], Hnm as [Hn1 Hnm].
    split_and!; [by eapply forest_drop|by eapply forest_drop|done]. }
  split_and!; [done| |done| |].
  - apply rids_submseteq. rewrite bind_app. cbn [mbind list_bind].
    apply list.NoDup_app. split_and!; [done|done|]. by apply list.NoDup_app.
  - eapply stored_detach; [|exact Hss|done|done]. cbn. exact Hgs.
  - intros a Ha. assert (∀ i, i ∉ ids s → i ≠ f_id f → Arena.get a i = DeviceTree.get_node d i) as Ha'.
    { intros i His Hif. rewrite Ha by done. unfold DeviceTree.get_node, detached. simpl.
      rewrite !arena_get_set_ne; [done| |done]. intros <-. by apply His, rid_in_ids. }
    eapply (models_replace d a C (frame_fill f s)); [exact Hm|done|..].
    + intros i n Hi Hgi. rewrite Ha'; [done|..].
      * intros His. apply (Hap i); [|done]. right. rewrite bind_app, elem_of_app. cbn [mbind list_bind].
        rewrite elem_of_app. auto.
      * intros ->. apply (Hap (f_id f)); [left|done].
    + unfold frame_drop. rewrite entries_eq. constructor; [|].
      * rewrite Ha by done. unfold DeviceTree.get_node, detached.
        cbn [DeviceTree.with_arena DeviceTree.node_arena]. erewrite get_set; [done|].
        by rewrite arena_get_set_ne.
      * eapply stored_get; [|exact Hk]. intros i n Hi Hgi. rewrite forest_ids in Hi. rewrite Ha'; [done|..].
        -- intros His. rewrite bind_app, elem_of_app in Hi. destruct Hi as [Hi|Hi]; [|by apply (Hsr i)].
           apply (Hlr i Hi). rewrite elem_of_app. auto.
        -- intros ->. rewrite bind_app, elem_of_app in Hi. by destruct Hi.
    + unfold frame_drop. rewrite ids_eq, bind_app. constructor; [rewrite not_elem_of_app; done|].
      apply list.NoDup_app. split_and!; [done| |done]. intros i Hi Hi'. apply (Hlr i Hi). rewrite elem_of_app. auto.
    + intros i. unfold frame_drop. rewrite ids_eq, bind_app. intros Hi. apply Hap.
      rewrite elem_of_cons, elem_of_app in *. rewrite bind_app, elem_of_app. cbn [mbind list_bind].
      rewrite elem_of_app. tauto.
    + unfold frame_drop. rewrite entries_eq. constructor; [apply Hnm1|done].
Qed.

Definition remove_node_post (o : option rose) (id : nat) (r : result E unit) (d' : DeviceTree.t) : Prop :=
  match r with
  | Ok _ => ∃ s o', removed id o o' s ∧ models d' o' ∧ ∀ i, i ∈ ids s → DeviceTree.get_node d' i = None
  | Err DeviceTreeError.InvalidNodeId => id ∉ oids o ∧ models d' o
  | Err _ => ∃ s o', removed id o o' s ∧ models d' o'
  end.

Lemma remove_node_spec id d o :
  models d o → issued d o id → fits d → returns (DeviceTree.remove_node id) d (remove_node_post o id).
Proof.
  intros Hm Hid Hfit. unfold DeviceTree.remove_node. apply returns_bind, returns_state, returns_bind.
  destruct (decide (id ∈ oids o)) as [Hin|Hout].
  2: { destruct Hid as [?|[_ Hn]]; [done|]. rewrite Hn. by apply returns_lift. }
  destruct o as [r|]; [|by apply not_elem_of_nil in Hin].
  destruct (plug_at id r Hin) as (C & s & -> & <-).
  destruct (models_node _ _ _ Hm) as (Hg & _ & _ & Hst). rewrite Hg. apply returns_lift. apply returns_bind.
  destruct C as [|f C].
  - replace (DeviceTreeNode.parent (node_of (par_of []) s)) with (@None nat) by by destruct s.
    apply returns_update. destruct (models_apart _ _ _ Hm) as [Hnd _].
    apply returns_free; [done|done|done| |].
    + exists s, None. split; [by split; [|left]|]. by apply models_none.
    + exists s, None. split; [by split; [|left]|]. split; [by apply models_none|]. intros i Hi.
      unfold DeviceTree.get_node. simpl. by rewrite get_removed, decide_True.
  - replace (DeviceTreeNode.parent (node_of (par_of (f :: C)) s)) with (Some (f_id f)) by by destruct s.
    destruct (detached_stored _ _ _ _ Hm) as (Hne & Hndk & Hnd & Hds & Hdm).
    apply returns_bind. eapply returns_get_mut; [exact Hg|]. apply returns_update.
    replace (DeviceTreeNode.set_parent _ _) with (node_of None s) by by destruct s.
    destruct (models_node d C (frame_fill f s) Hm) as (Hgf & _ & _ & _).
    apply returns_bind. eapply returns_get_mut.
    { unfold DeviceTree.get_node. simpl. by rewrite arena_get_set_ne. }
    apply returns_update.
    replace (DeviceTreeNode.remove_child _ _) with (node_of (par_of C) (frame_drop f)).
    2: { unfold DeviceTreeNode.remove_child, frame_fill, frame_drop, node_of, DeviceTreeNode.with_children.
         cbn [DeviceTreeNode.id_ DeviceTreeNode.name_raw DeviceTreeNode.parent DeviceTreeNode.children
              DeviceTreeNode.props].
         rewrite map_app in Hndk. rewrite !map_app. cbn [map] in *. by rewrite filter_drop. }
    apply returns_lift. apply (returns_free (detached d C f s)); [done|done| | |].
    + unfold fits, detached. simpl. by rewrite !length_insert.
    + exists s, (Some (plug C (frame_drop f))). split; [by split; [|right; eauto]|]. by apply Hdm.
    + exists s, (Some (plug C (frame_drop f))). split; [by split; [|right; eauto]|]. split.
      * apply Hdm. intros i Hi. by rewrite get_removed, decide_False.
      * intros i Hi. unfold DeviceTree.get_node. cbn [DeviceTree.with_arena DeviceTree.node_arena].
        by rewrite get_removed, decide_True.
Qed.
End returns.

(** ** Properties of nodes *)
Section props.
Context {H : Type} `{Heap H}.
Local Notation E := DeviceTreeError.t.

Lemma models_set_props d C i n ps l ps' :
  models d (Some (plug C (Rose i n ps l))) → Forall (c_string ∘ DeviceTreeProp.name_raw) ps' →
  models (DeviceTree.with_arena (Arena.set (DeviceTree.node_arena d) i
            (DeviceTreeNode.with_props ps' (node_of (par_of C) (Rose i n ps l)))) d)
         (Some (plug C (Rose i n ps' l))).
Proof.
  intros Hm Hps. destruct (models_apart _ _ _ Hm) as [Hnd Hap].
  destruct (models_node _ _ _ Hm) as (Hg & Hnm & _ & Hst). cbn [rid] in *.
  rewrite entries_eq in Hst, Hnm. apply list.Forall_cons in Hst as [_ Hst], Hnm as [[Hn _] Hnm].
  rewrite ids_eq in Hnd, Hap. pose proof Hnd as [Hi _]%list.NoDup_cons.
  eapply models_replace; [exact Hm|done|..].
  - intros j m Hj Hgj. rewrite arena_get_set_ne; [done|]. intros <-. apply (Hap i); [left|done].
  - rewrite entries_eq. constructor; [by rewrite (get_set _ _ _ _ Hg)|].
    eapply stored_get, Hst. intros j m Hj Hgj. rewrite arena_get_set_ne; [done|]. intros <-. by rewrite forest_ids in Hj.
  - by rewrite ids_eq.
  - by rewrite ids_eq.
  - rewrite entries_eq. by constructor.
Qed.

(** A method of a node that changes its properties only. *)
Definition props_post := result E unit → list DeviceTreeProp.t → list DeviceTreeProp.t → Prop.
Definition changes_props (P : props_post) (n : DeviceTreeNode.t) (r : result E unit) (n' : DeviceTreeNode.t) : Prop :=
  ∃ ps', n' = DeviceTreeNode.with_props ps' n ∧ Forall (c_string ∘ DeviceTreeProp.name_raw) ps' ∧
         P r (DeviceTreeNode.props n) ps'.
Lemma returns_in_node d C i n ps l (m : M (DeviceTreeNode.t * H) E unit) (P : props_post) :
  models d (Some (plug C (Rose i n ps l))) → (∀ n, named n → returns m n (changes_props P n)) →
  returns (DeviceTree.get_mut_node i m) d (λ r d', ∃ ps',
    P (match r with Ok _ => Ok tt | Err e => Err e end) ps ps' ∧ models d' (Some (plug C (Rose i n ps' l))) ∧
    (r = Ok (Some tt) ∨ ∃ e, r = Err e)).
Proof.
  intros Hm Hret. destruct (models_node _ _ _ Hm) as (Hg & Hnm & _ & _). eapply returns_get_mut; [exact Hg|].
  rewrite entries_eq in Hnm. apply list.Forall_cons in Hnm as [Hnm _].
  eapply returns_impl; [apply (Hret _ Hnm)|]. intros r n' (ps' & -> & Hps' & HP). exists ps'.
  split; [by destruct r as [[]|e]|]. split; [eauto using models_set_props|]. destruct r as [[]|e]; eauto.
Qed.
Lemma returns_on_node d o i (m : M (DeviceTreeNode.t * H) E unit) (P : props_post) :
  models d o → issued d o i → (∀ n, named n → returns m n (changes_props P n)) →
  returns (r ← DeviceTree.get_mut_node i m; lift (ok_or r DeviceTreeError.InvalidNodeId)) d
    (λ r d', (i ∉ oids o ∧ r = Err DeviceTreeError.InvalidNodeId ∧ models d' o) ∨
       ∃ C n ps ps' l, o = Some (plug C (Rose i n ps l)) ∧ P r ps ps' ∧ models d' (Some (plug C (Rose i n ps' l)))).
Proof.
  intros Hm Hi Hret. apply returns_bind. destruct (decide (i ∈ oids o)) as [Hin|Hout].
  2: { destruct Hi as [?|[_ Hn]]; [done|]. apply returns_get_mut_none; [done|]. apply returns_lift. by left. }
  destruct o as [r|]; [|by apply not_elem_of_nil in Hin].
  destruct (plug_at i r Hin) as (C & [i' n ps l] & -> & Hid). cbn [rid] in Hid. subst i'.
  eapply returns_impl; [by eapply returns_in_node|]. intros r d' (ps' & HP & Hm' & [->|[e ->]]).
  - apply returns_lift. right. by exists C, n, ps, ps', l.
  - right. by exists C, n, ps, ps', l.
Qed.

(** *** Values *)
Lemma fill_replicate n vals rest :
  DeviceTreeProp.fill n vals (replicate (length vals * n) 0 ++ rest) = Returns ((vals ≫= to_be_bytes n) ++ rest).
Proof.
  induction vals as [|v vals IH]; [done|]. cbn [DeviceTreeProp.fill length Nat.mul].
  rewrite replicate_add, <-app_assoc.
  destruct (_ <? n)%nat eqn:Hlt.
  { apply Nat.ltb_lt in Hlt. rewrite length_app, length_replicate in Hlt. lia. }
  rewrite drop_app_length' by by rewrite length_replicate. rewrite IH, obind_ret. cbn [mbind list_bind].
  by rewrite <-app_assoc.
Qed.

Inductive prop_value :=
| ValRaw (b : bytes)
| ValStr (s : bytes)
| ValU32 (l : list Z)
| ValU64 (l : list Z).
Definition set_prop_value (v : prop_value) : M (DeviceTreeProp.t * H) E unit :=
  match v with
  | ValRaw b => DeviceTreeProp.set_value_raw b
  | ValStr s => DeviceTreeProp.set_value_str s
  | ValU32 l => DeviceTreeProp.set_value_u32 l
  | ValU64 l => DeviceTreeProp.set_value_u64 l
  end.
Definition value_bytes (v : prop_value) : bytes :=
  match v with
  | ValRaw b => b
  | ValStr s => cstr s
  | ValU32 l => l ≫= to_be_bytes 4
  | ValU64 l => l ≫= to_be_bytes 8
  end.

Lemma returns_set_value n vals p Q :
  Q (Ok tt) (DeviceTreeProp.with_buf (vals ≫= to_be_bytes n) p) →
  Q (Err DeviceTreeError.AllocError) (DeviceTreeProp.with_buf [] p) →
  returns (DeviceTreeProp.set_value n vals) p Q.
Proof.
  intros HO HE. unfold DeviceTreeProp.set_value. apply returns_bind, returns_update.
  apply returns_bind, returns_reserve; [|done]. apply returns_bind. eapply returns_outcome.
  { pose proof (fill_replicate n vals []) as Hf. rewrite !app_nil_r in Hf. exact Hf. }
  by apply returns_update.
Qed.
Lemma returns_set_prop_value v p (Q : result E unit → DeviceTreeProp.t → Prop) :
  Q (Ok tt) (DeviceTreeProp.with_buf (value_bytes v) p) →
  Q (Err DeviceTreeError.AllocError) (DeviceTreeProp.with_buf [] p) →
  returns (set_prop_value v) p Q.
Proof.
  intros HO HE. destruct v; cbn [set_prop_value value_bytes] in *; [| |by apply returns_set_value..].
  - apply returns_bind, returns_update, returns_bind, returns_reserve; [|done]. by apply returns_update.
  - by apply returns_zoom, returns_copy.
Qed.

(** [add_prop] and one of the setters on the new property, as all callers do. *)
Definition add_value (name : bytes) (v : prop_value) : M (DeviceTreeNode.t * H) E unit :=
  i ← DeviceTreeNode.add_prop name;
  DeviceTreeNode.on_prop i (set_prop_value v).

Definition prop_added (name : bytes) (v : prop_value) : props_post := λ r ps ps',
  match r with
  | Ok _ => ps' = ps ++ [DeviceTreeProp.mk (cstr name) (value_bytes v)]
  | Err e => e = DeviceTreeError.AllocError ∧ (ps' = ps ∨ ps' = ps ++ [DeviceTreeProp.mk (cstr name) []])
  end.
Lemma returns_add_value name v n :
  named n → Str.is_utf8 name = true →
  returns (add_value name v) n (changes_props (prop_added name v) n).
Proof.
  intros [_ Hps] Hname. unfold changes_props, prop_added, add_value, DeviceTreeNode.add_prop.
  assert (∀ v, Forall (c_string ∘ DeviceTreeProp.name_raw)
                 (DeviceTreeNode.props n ++ [DeviceTreeProp.mk (cstr name) v])) as Hps'.
  { intros b. apply list.Forall_app. split; [done|]. constructor; [by apply cstr_c_string|constructor]. }
  assert (n = DeviceTreeNode.with_props (DeviceTreeNode.props n) n) as Hn by by destruct n.
  apply returns_bind, returns_bind, returns_state. apply returns_bind, returns_reserve; [|eauto 10].
  apply returns_bind, returns_new_prop; [|eauto 10]. apply returns_bind, returns_update, returns_ret.
  unfold DeviceTreeNode.on_prop. apply returns_bind, returns_state.
  cbn [DeviceTreeNode.with_props DeviceTreeNode.props]. rewrite list_lookup_middle by done.
  apply returns_zoom, returns_set_prop_value; cbn [DeviceTreeNode.with_props DeviceTreeNode.props];
    rewrite insert_app_r_alt, Nat.sub_diag by done; cbn [insert list_insert]; eauto 10.
Qed.

(** *** Removing and replacing properties *)
Lemma c_string_str raw : c_string raw → DeviceTreeProp.c_str raw = Returns (removelast raw).
Proof. intros [Hu He]. unfold DeviceTreeProp.c_str, Str.from_utf8, Str.strip_nul. rewrite Hu. simpl. by rewrite He. Qed.

Definition prop_named (name : bytes) (p : DeviceTreeProp.t) : Prop := DeviceTreeProp.name p = Returns name.

Lemma index_of_spec name ps :
  Forall (c_string ∘ DeviceTreeProp.name_raw) ps →
  (∃ l1 p l2, ps = l1 ++ p :: l2 ∧ prop_named name p ∧ Forall (λ q, ¬ prop_named name q) l1 ∧
     DeviceTreeNode.index_of name ps = Returns (Some (length l1))) ∨
  (Forall (λ q, ¬ prop_named name q) ps ∧ DeviceTreeNode.index_of name ps = Returns None).
Proof.
  induction 1 as [|p ps Hp _ IH]; [by right|]. cbn [DeviceTreeNode.index_of].
  pose proof (c_string_str _ Hp) as Hs. change (DeviceTreeProp.c_str _) with (DeviceTreeProp.name p) in Hs.
  rewrite Hs, obind_ret. unfold Str.eqb. case_bool_decide as Heq.
  - left. exists [], p, ps. split; [done|]. split; [by rewrite <-Heq|]. by split; [constructor|].
  - assert (¬ prop_named name p) as Hnp by (unfold prop_named; rewrite Hs; congruence).
    destruct IH as [(l1 & q & l2 & -> & Hq & Hl & Hi)|[Hl Hi]]; rewrite Hi.
    + left. exists (p :: l1), q, l2. by split_and!; [..|constructor|].
    + right. by split; [constructor|].
Qed.

Definition prop_removed (name : bytes) : props_post := λ r ps ps',
  match r with
  | Ok _ => ∃ l1 p l2, ps = l1 ++ p :: l2 ∧ ps' = l1 ++ l2 ∧ prop_named name p ∧
              Forall (λ q, ¬ prop_named name q) l1
  | Err e => e = DeviceTreeError.PropNotFound ∧ ps' = ps ∧ Forall (λ q, ¬ prop_named name q) ps
  end.
Lemma returns_remove_prop name n :
  named n →
  returns (H := H) (DeviceTreeNode.remove_prop name) n (changes_props (prop_removed name) n).
Proof.
  intros [_ Hps]. unfold changes_props, prop_removed, DeviceTreeNode.remove_prop. apply returns_bind, returns_state.
  assert (n = DeviceTreeNode.with_props (DeviceTreeNode.props n) n) as Hn by by destruct n.
  destruct (index_of_spec name _ Hps) as [(l1 & p & l2 & Heq & Hp & Hl & Hi)|[Hl Hi]];
    (apply returns_bind; eapply returns_outcome; [exact Hi|]).
  - apply returns_update. exists (l1 ++ l2). rewrite Heq in Hps |- *. rewrite delete_middle.
    split; [done|]. split; [|by exists l1, p, l2].
    apply list.Forall_app in Hps as [H1 [_ H2]%list.Forall_cons]. by apply list.Forall_app.
  - apply returns_err. by exists (DeviceTreeNode.props n).
Qed.

Lemma returns_insert_props l n :
  returns (for_each l DeviceTreeNode.insert_prop) n (λ r n', ∃ l',
    n' = DeviceTreeNode.with_props (DeviceTreeNode.props n ++ l') n ∧
    match r with Ok _ => l' = l | Err e => e = DeviceTreeError.AllocError ∧ l' `prefix_of` l end).
Proof.
  revert n. induction l as [|p l IH]; intros n; cbn [for_each].
  { apply returns_ret. exists []. rewrite app_nil_r. by destruct n. }
  apply returns_bind. unfold DeviceTreeNode.insert_prop. apply returns_bind, returns_reserve.
  2: { exists []. rewrite app_nil_r. split; [by destruct n|]. split; [done|apply prefix_nil]. }
  apply returns_update. eapply returns_impl; [apply IH|]. cbn. intros r n' (l' & -> & Hr). exists (p :: l').
  rewrite <-app_assoc. split; [by destruct n|]. destruct r; [by rewrite Hr|]. destruct Hr as [? ?].
  split; [done|]. by apply prefix_cons.
Qed.
Definition props_set (l : list DeviceTreeProp.t) : props_post := λ r ps ps',
  match r with Ok _ => ps' = l | Err e => e = DeviceTreeError.AllocError ∧ ps' `prefix_of` l end.
Lemma returns_set_props l n :
  Forall (c_string ∘ DeviceTreeProp.name_raw) l →
  returns (DeviceTreeNode.set_props l) n (changes_props (props_set l) n).
Proof.
  intros Hl. unfold DeviceTreeNode.set_props. apply returns_bind, returns_update.
  eapply returns_impl; [apply returns_insert_props|]. cbn. intros r n' (l' & -> & Hr). exists l'.
  split; [by destruct n|]. split; [|done].
  destruct r; [by rewrite Hr|]. destruct Hr as [_ [k ->]]. by apply list.Forall_app in Hl as [? _].
Qed.
End props.
