(* ===== verification/DeviceTreeRefine.v ===== *)
(** * Device trees: the operations implement a tree

    What every operation on the arena does to the tree that the arena represents,
    whatever the allocator answers. *)
From stdpp Require Import strings.
From S2P Require Import Prelude DeviceTree DeviceTreeFacts.
Open Scope string_scope.
Open Scope list_scope.
Open Scope Z_scope.

(** ** Operations *)
Inductive tree_op :=
| OpAddNode (name : bytes) (parent : option nat)
| OpRemoveNode (id : nat)
| OpAddProp (id : nat) (name : bytes) (v : prop_value)
| OpRemoveProp (id : nat) (name : bytes)
| OpSetProps (id : nat) (l : list DeviceTreeProp.t).

(** Operations on a node go through [get_mut_node]; an absent node is an error of the
    caller. *)
Section ops.
Context {H : Type} `{Heap H}.
Local Notation E := DeviceTreeError.t.
Definition on_node (id : nat) (m : M (DeviceTreeNode.t * H) E unit) : M (DeviceTree.t * H) E unit :=
  r ← DeviceTree.get_mut_node id m; lift (ok_or r DeviceTreeError.InvalidNodeId).
Definition run_op (op : tree_op) : M (DeviceTree.t * H) E (option nat) :=
  match op with
  | OpAddNode name parent => id ← DeviceTree.add_node name parent; mret (Some id)
  | OpRemoveNode id => DeviceTree.remove_node id;; mret None
  | OpAddProp id name v => on_node id (add_value name v);; mret None
  | OpRemoveProp id name => on_node id (DeviceTreeNode.remove_prop name);; mret None
  | OpSetProps id l => on_node id (DeviceTreeNode.set_props l);; mret None
  end.
End ops.

(** Strings are UTF-8, and ids were handed out by the tree. *)
Definition admissible (op : tree_op) (d : DeviceTree.t) (o : option rose) : Prop :=
  match op with
  | OpAddNode name parent => Str.is_utf8 name = true ∧ ∀ p, parent = Some p → issued d o p
  | OpRemoveNode id => issued d o id ∧ fits d
  | OpAddProp id name _ => issued d o id ∧ Str.is_utf8 name = true
  | OpRemoveProp id name => issued d o id
  | OpSetProps id l => issued d o id ∧ Forall (c_string ∘ DeviceTreeProp.name_raw) l
  end.

(** ** The operations on trees *)
Definition props_change (id : nat) (o o' : option rose) (P : list DeviceTreeProp.t → list DeviceTreeProp.t → Prop) :
  Prop :=
  ∃ C n ps ps' l, o = Some (plug C (Rose id n ps l)) ∧ P ps ps' ∧ o' = Some (plug C (Rose id n ps' l)).

Inductive tree_step (o : option rose) : tree_op → result DeviceTreeError.t (option nat) → option rose → Prop :=
| step_add_root name id :
    o = None → tree_step o (OpAddNode name None) (Ok (Some id)) (Some (Rose id (cstr name) [] []))
| step_add_child name p id C n ps l :
    o = Some (plug C (Rose p n ps l)) → id ∉ oids o →
    tree_step o (OpAddNode name (Some p)) (Ok (Some id))
      (Some (plug C (Rose p n ps (l ++ [Rose id (cstr name) [] []]))))
| step_add_error name parent e : tree_step o (OpAddNode name parent) (Err e) o
| step_remove id s o' : removed id o o' s → tree_step o (OpRemoveNode id) (Ok None) o'
| step_remove_no_memory id s o' e : removed id o o' s → tree_step o (OpRemoveNode id) (Err e) o'
| step_remove_absent id :
    id ∉ oids o → tree_step o (OpRemoveNode id) (Err DeviceTreeError.InvalidNodeId) o
| step_add_prop id name v o' :
    props_change id o o' (λ ps ps', ps' = ps ++ [DeviceTreeProp.mk (cstr name) (value_bytes v)]) →
    tree_step o (OpAddProp id name v) (Ok None) o'
| step_add_prop_no_memory id name v o' :
    props_change id o o' (λ ps ps', ps' = ps ∨ ps' = ps ++ [DeviceTreeProp.mk (cstr name) []]) →
    tree_step o (OpAddProp id name v) (Err DeviceTreeError.AllocError) o'
| step_remove_prop id name o' :
    props_change id o o' (λ ps ps', ∃ l1 p l2, ps = l1 ++ p :: l2 ∧ ps' = l1 ++ l2 ∧ prop_named name p ∧
                                     Forall (λ q, ¬ prop_named name q) l1) →
    tree_step o (OpRemoveProp id name) (Ok None) o'
| step_remove_prop_absent id name :
    props_change id o o (λ ps ps', Forall (λ q, ¬ prop_named name q) ps) →
    tree_step o (OpRemoveProp id name) (Err DeviceTreeError.PropNotFound) o
| step_set_props id l o' :
    props_change id o o' (λ _ ps', ps' = l) → tree_step o (OpSetProps id l) (Ok None) o'
| step_set_props_no_memory id l o' :
    props_change id o o' (λ _ ps', ps' `prefix_of` l) →
    tree_step o (OpSetProps id l) (Err DeviceTreeError.AllocError) o'
| step_absent op id :
    id ∉ oids o →
    (∃ name v, op = OpAddProp id name v) ∨ (∃ name, op = OpRemoveProp id name) ∨ (∃ l, op = OpSetProps id l) →
    tree_step o op (Err DeviceTreeError.InvalidNodeId) o.

Section refinement.
Context {H : Type} `{Heap H}.
Local Notation E := DeviceTreeError.t.

Definition simulates (op : tree_op) (o : option rose) (r : result E (option nat)) (d' : DeviceTree.t) : Prop :=
  ∃ o', tree_step o op r o' ∧ models d' o'.

Lemma run_op_simulates op d o :
  models d o → admissible op d o → returns (H := H) (run_op op) d (simulates op o).
Proof.
  intros Hm Had. destruct op as [name parent|id|id name v|id name|id l]; cbn [run_op admissible] in *;
    apply returns_bind.
  - destruct Had as [Hn Hp]. eapply returns_impl; [by apply add_node_spec|].
    intros [i|e] d' Hpost; [|by exists o; split; [constructor|]].
    apply returns_ret. destruct Hpost as [Hi Hpost]. destruct parent as [p|].
    + destruct Hpost as (C & n & ps & l & -> & Hm'). eexists. split; [by econstructor|done].
    + destruct Hpost as [-> Hm']. eexists. split; [by constructor|done].
  - destruct Had as [Hi Hf]. eapply returns_impl; [by apply remove_node_spec|].
    intros [[]|e] d' Hpost.
    + apply returns_ret. destruct Hpost as (s & o' & Hr & Hm' & _). exists o'. split; [by econstructor|done].
    + destruct e; cbn in Hpost; try (destruct Hpost as (s & o' & Hr & Hm'); exists o'; split; [by econstructor|done]).
      destruct Hpost as [Hout Hm']. exists o. split; [by constructor|done].
  - destruct Had as [Hi Hn].
    eapply returns_impl; [eapply returns_on_node; [done|done|]; intros n Hnm; by apply returns_add_value|].
    intros r d' Hpost. destruct Hpost as [(Hout & -> & Hm')|(C & n & ps & ps' & l & -> & HP & Hm')].
    + exists o. split; [|done]. eapply step_absent; eauto.
    + destruct r as [[]|e]; [apply returns_ret|destruct HP as [-> HP]]; eexists; (split; [|exact Hm']);
        constructor; unfold props_change; eauto 10.
  - eapply returns_impl; [eapply returns_on_node; [done|done|]; intros n Hnm; by apply returns_remove_prop|].
    intros r d' Hpost. destruct Hpost as [(Hout & -> & Hm')|(C & n & ps & ps' & l & -> & HP & Hm')].
    + exists o. split; [|done]. eapply step_absent; eauto.
    + destruct r as [[]|e].
      * apply returns_ret. eexists. split; [|exact Hm']. constructor. unfold props_change. eauto 20.
      * destruct HP as (-> & -> & HP). eexists. split; [|exact Hm']. constructor. unfold props_change. eauto 20.
  - destruct Had as [Hi Hl].
    eapply returns_impl; [eapply returns_on_node; [done|done|]; intros n Hnm; by apply returns_set_props|].
    intros r d' Hpost. destruct Hpost as [(Hout & -> & Hm')|(C & n & ps & ps' & l' & -> & HP & Hm')].
    + exists o. split; [|done]. eapply step_absent; eauto.
    + destruct r as [[]|e]; [apply returns_ret|destruct HP as [-> HP]]; eexists; (split; [|exact Hm']);
        constructor; unfold props_change; eauto 20.
Qed.
End refinement.

Lemma iter_models d o :
  models d o → fits d → DeviceTree.nodes d (DeviceTree.iter d) = Returns (oentries o).*2.
Proof.
  intros Hm Hf. unfold DeviceTree.iter. rewrite (models_root _ _ Hm). destruct o as [s|]; [|done].
  cbn [fmap option_fmap option_map oentries from_option]. apply nodes_from; [apply Hm|apply Hm|done].
Qed.

(** C25: The arena of nodes implements a tree.  Adding or removing a node, adding a
    property with a value, removing one and replacing all properties of a node do not
    panic, whatever the allocator answers, and change the tree that the arena represents
    as the operation on trees says: a new node becomes the last child of its parent, a
    removed node goes with all of its descendants, and an operation that fails leaves the
    tree as it was, apart from the documented partial effects of a lack of memory.  The
    iterator then yields every node of the tree once, in depth-first order.  The ids are
    those of nodes of the tree or of nodes that are gone: a node that a removal could
    only detach, because memory ran out, is not named again, see
    [retried_removal_loses_tree].  Names are UTF-8, and nodes are not renamed. *)
Theorem device_tree_refines_tree {H} `{Heap H} op d o (h : H) :
  models d o → admissible op d o →
  ∃ r d' h' o', run_op op (d, h) = Returns (r, (d', h')) ∧ tree_step o op r o' ∧ models d' o' ∧
    (fits d' → DeviceTree.nodes d' (DeviceTree.iter d') = Returns (oentries o').*2).
Proof.
  intros Hm Had. destruct (run_op_simulates op d o Hm Had h) as (r & d' & h' & Heq & o' & Hs & Hm').
  exists r, d', h', o'. eauto using iter_models.
Qed.

(** ** Examples *)

(** A heap that answers as it is told, and then always has room. *)
#[export] Instance oracle_heap : Heap (list bool) := λ _ h,
  match h with [] => (true, []) | b :: h => (b, h) end.

Lemma new_models : models DeviceTree.new None.
Proof. by apply models_none. Qed.

Definition example_ops : list tree_op :=
  [OpAddNode [] None; OpAddNode (Str.lit "cpus") (Some O); OpAddNode (Str.lit "cpu@0") (Some 1%nat);
   OpAddNode (Str.lit "memory") (Some O); OpAddProp 2 (Str.lit "reg") (ValU32 [7])].
Definition example_tree : DeviceTree.t := Eval vm_compute in
  match for_each example_ops (λ op, run_op op;; mret tt) (DeviceTree.new, []) with
  | Returns (Ok tt, (d, _)) => d
  | _ => DeviceTree.new
  end.
Definition example_rose : rose :=
  Rose 0 [0] []
    [Rose 1 (Str.lit "cpus" ++ [0]) [] [Rose 2 (Str.lit "cpu@0" ++ [0]) [DeviceTreeProp.mk (Str.lit "reg" ++ [0]) [0; 0; 0; 7]] []];
     Rose 3 (Str.lit "memory" ++ [0]) [] []].
Lemma example_models : models example_tree (Some example_rose).
Proof.
  constructor.
  - reflexivity.
  - unfold stored. vm_compute. by repeat constructor.
  - apply (bool_decide_unpack (NoDup (oids (Some example_rose)))). by vm_compute.
  - vm_compute. by repeat constructor.
Qed.

Lemma device_tree_refines_tree_witness :
  ∃ r d' h' o', run_op (OpRemoveNode 1) (example_tree, [false]) = Returns (r, (d', h')) ∧
    tree_step (Some example_rose) (OpRemoveNode 1) r o' ∧ models d' o' ∧
    (fits d' → DeviceTree.nodes d' (DeviceTree.iter d') = Returns (oentries o').*2).
Proof.
  apply (device_tree_refines_tree (OpRemoveNode 1) example_tree (Some example_rose) [false]).
  - apply example_models.
  - split; [left; right; left|done].
Defined.

(** A removal for which there is no memory has detached the node from its parent.  When
    it is tried again the node looks like the root, and the tree is empty behind it. *)
Example retried_removal_loses_tree :
  match run_op (OpRemoveNode 1) (example_tree, [false]) with
  | Returns (r, (d, h)) =>
      r = Err DeviceTreeError.AllocError ∧ DeviceTree.root d = Some O ∧
      match run_op (OpRemoveNode 1) (d, h) with
      | Returns (r, (d, _)) => r = Ok None ∧ DeviceTree.root d = None
      | Panics => False
      end
  | Panics => False
  end.
Proof. vm_compute. auto. Qed.
