(* ===== verification/Fdt.v ===== *)
(** * Flattened device trees (device-tree/src/serialize.rs, fdt.rs)

    The writer of a flattened device tree cuts a buffer into four parts and fills them
    from the front.  A part is what has been written and what is left of it.  The
    wrapper of fdt.rs reads the tree that firmware passes; the crate fdt-rs, which
    parses it, is an argument: a tree is what the methods of that crate return for it. *)
From stdpp Require Import strings.
From S2P Require Import Prelude DeviceTree.
Open Scope string_scope.
Open Scope list_scope.
Open Scope Z_scope.

Definition FDT_ALIGN : Z := 4.
Definition fdt_align_size (size : Z) : Z := Z.land (wrap64 (size + FDT_ALIGN - 1)) (not64 (FDT_ALIGN - 1)).
Definition FDT_MAGIC : Z := 0xd00dfeed.
Definition FDT_VERSION : Z := 17.
Definition FDT_LAST_COMP_VERSION : Z := 16.
Definition U32 : Z := 2 ^ 32.
(** [try_into::<u32>().unwrap()] *)
Definition to_u32 (x : Z) : outcome Z := if x <? U32 then Returns x else Panics.
Definition len (b : bytes) : Z := Z.of_nat (length b).

Module FdtHeader.
Record t := mk {
  magic : Z; totalsize : Z; off_dt_struct : Z; off_dt_strings : Z; off_mem_rsvmap : Z;
  version : Z; last_comp_version : Z; boot_cpuid_phys : Z; size_dt_strings : Z; size_dt_struct : Z
}.
(** [mem::transmute] to an array. *)
Definition to_array (h : t) : list Z :=
  [magic h; totalsize h; off_dt_struct h; off_dt_strings h; off_mem_rsvmap h;
   version h; last_comp_version h; boot_cpuid_phys h; size_dt_strings h; size_dt_struct h].
Definition SIZE : Z := 40.
End FdtHeader.

Module FdtResvMap.
Record t := mk { address : Z; size : Z }.
Definition to_array (r : t) : list Z := [address r; size r].
Definition SIZE : Z := 16.
End FdtResvMap.

Module FdtToken.
Inductive t :=
| NodeStart (name : bytes)
| NodeEnd
| Prop_ (len nameoff : Z) (value : bytes)
| End.
Definition new_node_start (name : bytes) : t := NodeStart name.
Definition new_node_end : t := NodeEnd.
Definition new_prop (name_offset : Z) (value : bytes) : outcome t :=
  l ← to_u32 (len value); Returns (Prop_ l name_offset value).
Definition new_end : t := End.
Definition size (tok : t) : Z :=
  match tok with
  | NodeStart name => wrap64 (4 + fdt_align_size (len name))
  | NodeEnd => 4
  | Prop_ _ _ value => wrap64 (4 + 8 + fdt_align_size (len value))
  | End => 4
  end.
Definition code (tok : t) : Z :=
  match tok with NodeStart _ => 1 | NodeEnd => 2 | Prop_ _ _ _ => 3 | End => 9 end.
End FdtToken.

Module FdtLayout.
Record t := mk { header_size : Z; resv_map_size : Z; struct_size : Z; strings_size : Z }.
End FdtLayout.

(** ** The writer *)
Module Part.
Record t := mk { done : bytes; rest : bytes }.
Definition all (p : t) : bytes := done p ++ rest p.
(** [take_mut(..n).unwrap()], and the start of what was taken overwritten. *)
Definition put (n : Z) (data : bytes) (p : t) : outcome t :=
  if n <=? len (rest p)
  then Returns (mk (done p ++ data ++ drop (length data) (take (Z.to_nat n) (rest p))) (drop (Z.to_nat n) (rest p)))
  else Panics.
Definition split (n : Z) (buf : bytes) : outcome (t * bytes) :=
  if n <=? len buf then Returns (mk [] (take (Z.to_nat n) buf), drop (Z.to_nat n) buf) else Panics.
End Part.

Module FdtWriter.
Record t := mk {
  header_buf : Part.t; resv_map_buf : Part.t; struct_buf : Part.t; strings_buf : Part.t;
  string_pos : Z; tail : bytes
}.
Definition with_struct (p : Part.t) (w : t) : t :=
  mk (header_buf w) (resv_map_buf w) p (strings_buf w) (string_pos w) (tail w).
(** The buffer behind all of the slices. *)
Definition buffer (w : t) : bytes :=
  Part.all (header_buf w) ++ Part.all (resv_map_buf w) ++ Part.all (struct_buf w) ++
  Part.all (strings_buf w) ++ tail w.
Definition new (buf : bytes) (layout : FdtLayout.t) : outcome t :=
  '(header_buf, buf) ← Part.split (FdtLayout.header_size layout) buf;
  '(resv_map_buf, buf) ← Part.split (FdtLayout.resv_map_size layout) buf;
  '(struct_buf, buf) ← Part.split (FdtLayout.struct_size layout) buf;
  '(strings_buf, buf) ← Part.split (FdtLayout.strings_size layout) buf;
  Returns (mk header_buf resv_map_buf struct_buf strings_buf 0 buf).
(** A loop that puts big-endian integers of [n] bytes. *)
Fixpoint put_all (n : nat) (vals : list Z) (p : Part.t) : outcome Part.t :=
  match vals with
  | [] => Returns p
  | v :: vals => p ← Part.put (Z.of_nat n) (to_be_bytes n v) p; put_all n vals p
  end.
Definition push_header (h : FdtHeader.t) (w : t) : outcome t :=
  p ← put_all 4 (FdtHeader.to_array h) (header_buf w);
  Returns (mk p (resv_map_buf w) (struct_buf w) (strings_buf w) (string_pos w) (tail w)).
Definition push_resv_map (r : FdtResvMap.t) (w : t) : outcome t :=
  p ← put_all 8 (FdtResvMap.to_array r) (resv_map_buf w);
  Returns (mk (header_buf w) p (struct_buf w) (strings_buf w) (string_pos w) (tail w)).
Definition push_struct_u32 (v : Z) (w : t) : outcome t :=
  p ← Part.put 4 (to_be_bytes 4 v) (struct_buf w); Returns (with_struct p w).
Definition push_struct_raw (buf : bytes) (w : t) : outcome t :=
  let aligned := fdt_align_size (len buf) in
  p ← Part.put aligned buf (struct_buf w); Returns (with_struct p w).
Definition push_token (tok : FdtToken.t) (w : t) : outcome t :=
  w ← push_struct_u32 (FdtToken.code tok) w;
  match tok with
  | FdtToken.NodeStart name => push_struct_raw name w
  | FdtToken.Prop_ l nameoff val =>
      w ← push_struct_u32 l w;
      w ← push_struct_u32 nameoff w;
      push_struct_raw val w
  | _ => Returns w
  end.
Definition push_string (s : bytes) (w : t) : outcome (Z * t) :=
  p ← Part.put (len s) s (strings_buf w);
  let offset := string_pos w in
  let w := mk (header_buf w) (resv_map_buf w) (struct_buf w) p (wrap64 (string_pos w + len s)) (tail w) in
  o ← to_u32 offset;
  Returns (o, w).
End FdtWriter.

(** ** The serializer *)
Module DeviceTreeSerializer.
Record t := mk { layout : FdtLayout.t; tree : DeviceTree.t }.

Fixpoint prop_sizes (ps : list DeviceTreeProp.t) (struct_size strings_size : Z) : outcome (Z * Z) :=
  match ps with
  | [] => Returns (struct_size, strings_size)
  | p :: ps =>
      tok ← FdtToken.new_prop 0 (DeviceTreeProp.value_raw p);
      prop_sizes ps (wrap64 (struct_size + FdtToken.size tok))
                 (wrap64 (strings_size + len (DeviceTreeProp.name_raw p)))
  end.
Fixpoint node_sizes (ns : list DeviceTreeNode.t) (struct_size strings_size : Z) : outcome (Z * Z) :=
  match ns with
  | [] => Returns (struct_size, strings_size)
  | n :: ns =>
      let struct_size :=
        wrap64 (struct_size + (FdtToken.size (FdtToken.new_node_start (DeviceTreeNode.name_raw n)) +
                               FdtToken.size FdtToken.new_node_end)) in
      '(struct_size, strings_size) ← prop_sizes (DeviceTreeNode.props n) struct_size strings_size;
      node_sizes ns struct_size strings_size
  end.
Definition get_layout (d : DeviceTree.t) : outcome FdtLayout.t :=
  ns ← DeviceTree.nodes d (DeviceTree.iter d);
  '(struct_size, strings_size) ← node_sizes ns 0 0;
  let struct_size := wrap64 (struct_size + FdtToken.size FdtToken.new_end) in
  Returns (FdtLayout.mk FdtHeader.SIZE FdtResvMap.SIZE struct_size strings_size).
Definition new (d : DeviceTree.t) : outcome t :=
  l ← get_layout d; Returns (mk l d).
Definition output_size (s : t) : Z :=
  let l := layout s in
  fdt_align_size (wrap64 (FdtLayout.header_size l + FdtLayout.resv_map_size l + FdtLayout.struct_size l +
                          FdtLayout.strings_size l)).

Fixpoint push_props (ps : list DeviceTreeProp.t) (w : FdtWriter.t) : outcome FdtWriter.t :=
  match ps with
  | [] => Returns w
  | p :: ps =>
      '(name_offset, w) ← FdtWriter.push_string (DeviceTreeProp.name_raw p) w;
      tok ← FdtToken.new_prop name_offset (DeviceTreeProp.value_raw p);
      w ← FdtWriter.push_token tok w;
      push_props ps w
  end.
(** [while depth != target]; a turn takes one off [depth]. *)
Fixpoint push_ends (fuel : nat) (target depth : Z) (w : FdtWriter.t) : outcome (Z * FdtWriter.t) :=
  if depth =? target then Returns (depth, w)
  else match fuel with
       | O => Panics
       | S fuel => w ← FdtWriter.push_token FdtToken.new_node_end w; push_ends fuel target (depth - 1) w
       end.
(** What is done with one node when the iterator has gone on to depth [next]. *)
Definition push_node (n : DeviceTreeNode.t) (next depth : Z) (w : FdtWriter.t) : outcome (Z * FdtWriter.t) :=
  w ← FdtWriter.push_token (FdtToken.new_node_start (DeviceTreeNode.name_raw n)) w;
  w ← push_props (DeviceTreeNode.props n) w;
  if depth <? next
  then if wrap64 (depth + 1) =? next then Returns (wrap64 (depth + 1), w) else Panics
  else
    w ← FdtWriter.push_token FdtToken.new_node_end w;
    push_ends (Z.to_nat depth) next depth w.
Fixpoint push_nodes (fuel : nat) (d : DeviceTree.t) (it : DeviceTreeIter.t) (depth : Z) (w : FdtWriter.t) :
  outcome FdtWriter.t :=
  match fuel with
  | O => Panics
  | S fuel =>
      '(r, it) ← DeviceTreeIter.next (DeviceTree.node_arena d) it;
      match r with
      | None => Returns w
      | Some n =>
          '(depth, w) ← push_node n (DeviceTreeIter.depth it) depth w;
          push_nodes fuel d it depth w
      end
  end.
Definition header (s : t) : outcome FdtHeader.t :=
  let l := layout s in
  let struct_offset := wrap64 (FdtLayout.header_size l + FdtLayout.resv_map_size l) in
  let strings_offset := wrap64 (struct_offset + FdtLayout.struct_size l) in
  totalsize ← to_u32 (output_size s);
  off_dt_struct ← to_u32 struct_offset;
  off_dt_strings ← to_u32 strings_offset;
  off_mem_rsvmap ← to_u32 (FdtLayout.header_size l);
  size_dt_strings ← to_u32 (FdtLayout.strings_size l);
  size_dt_struct ← to_u32 (FdtLayout.struct_size l);
  Returns (FdtHeader.mk FDT_MAGIC totalsize off_dt_struct off_dt_strings off_mem_rsvmap
             FDT_VERSION FDT_LAST_COMP_VERSION 0 size_dt_strings size_dt_struct).
Definition write_to (s : t) (buf : bytes) : outcome bytes :=
  w ← FdtWriter.new buf (layout s);
  h ← header s;
  w ← FdtWriter.push_header h w;
  w ← FdtWriter.push_resv_map (FdtResvMap.mk 0 0) w;
  w ← push_nodes (S (length (Arena.vals (DeviceTree.node_arena (tree s))))) (tree s) (DeviceTree.iter (tree s)) 0 w;
  w ← FdtWriter.push_token FdtToken.new_end w;
  Returns (FdtWriter.buffer w).
End DeviceTreeSerializer.

(** ** The tree that firmware passes (fdt.rs)

    The iterators of fdt-rs are fallible: they yield items until the end or an error. *)
Record fallible (A : Type) := Fallible { items : list A; failed : bool }.
Arguments Fallible {A}.
Arguments items {A}.
Arguments failed {A}.
Module FallibleIter.
(** [find] with a closure that does not fail, and what is left behind the item. *)
Fixpoint find_in {A} (p : A → bool) (l : list A) : option (A * list A) :=
  match l with
  | [] => None
  | x :: l => if p x then Some (x, l) else find_in p l
  end.
Definition find {A} (p : A → bool) (it : fallible A) : result unit (option A) * fallible A :=
  match find_in p (items it) with
  | Some (x, l) => (Ok (Some x), Fallible l (failed it))
  | None => (if failed it then Err tt else Ok None, Fallible [] (failed it))
  end.
Definition any {A} (p : A → bool) (it : fallible A) : result unit bool :=
  match find p it with
  | (Ok (Some _), _) => Ok true
  | (Ok None, _) => Ok false
  | (Err e, _) => Err e
  end.
Definition skip {A} (it : fallible A) : fallible A := Fallible (List.tl (items it)) (failed it).
End FallibleIter.

Module DevTreeProp.
Record t := mk {
  name : option bytes;
  u32 : Z → option Z;
  u64 : Z → option Z;
  iter_str : fallible bytes;
  length : Z
}.
End DevTreeProp.
Module DevTreeNode.
Record t := mk { name : option bytes; props : fallible DevTreeProp.t }.
End DevTreeNode.
Module DevTree.
Record t := mk {
  nodes : fallible DevTreeNode.t;
  compatible_nodes : bytes → fallible DevTreeNode.t;
  tokens : list ParsedTok.t;
  string_at_offset : Z → option bytes;
  reserved_entries : list (Z * Z)
}.
End DevTree.

Module FdtMemoryRegion.
Record t := mk { base : Z; size : Z }.
End FdtMemoryRegion.

(** [props().find(|p| Ok(p.name().unwrap_or(other) == name))] *)
Definition find_prop (other name : bytes) (n : DevTreeNode.t) : result unit (option DevTreeProp.t) :=
  fst (FallibleIter.find (λ p, Str.eqb (default other (DevTreeProp.name p)) name) (DevTreeNode.props n)).

Module MemoryRegionIter.
Record t := mk { inner : fallible DevTreeNode.t; prop : option DevTreeProp.t; index : Z }.
Definition new (f : DevTree.t) : t := mk (DevTree.nodes f) None 0.
Definition is_memory (n : DevTreeNode.t) : bool :=
  Str.starts_with (Str.lit "memory") (default [] (DevTreeNode.name n)).
Definition next_mem_reg (inner : fallible DevTreeNode.t) : option DevTreeProp.t * fallible DevTreeNode.t :=
  match FallibleIter.find is_memory inner with
  | (Ok (Some node), inner) =>
      (match find_prop [] (Str.lit "reg") node with Ok p => p | Err _ => None end, FallibleIter.skip inner)
  | (_, inner) => (None, inner)
  end.
Definition next (it : t) : option FdtMemoryRegion.t * t :=
  let it := match prop it with
            | Some _ => it
            | None => let '(p, inner) := next_mem_reg (inner it) in mk inner p (index it)
            end in
  match prop it with
  | None => (None, it)
  | Some p =>
      match DevTreeProp.u64 p (index it), DevTreeProp.u64 p (index it + 1) with
      | Some base, Some size =>
          let index := index it + 2 in
          (Some (FdtMemoryRegion.mk base size),
           mk (inner it) (if DevTreeProp.length p <=? index * 8 then None else prop it) index)
      | _, _ => (None, it)
      end
  end.
(** A loop over the regions. *)
Fixpoint regions (fuel : nat) (it : t) : list FdtMemoryRegion.t :=
  match fuel with
  | O => []
  | S fuel => match next it with
              | (Some r, it) => r :: regions fuel it
              | (None, _) => []
              end
  end.
End MemoryRegionIter.

Module Fdt.
Definition memory_regions (f : DevTree.t) : MemoryRegionIter.t := MemoryRegionIter.new f.
Definition reserved_memory_regions (f : DevTree.t) : list FdtMemoryRegion.t :=
  map (λ '(a, s), FdtMemoryRegion.mk a s) (DevTree.reserved_entries f).
(** The loop over the nodes for modules; [?] on an error or a missing property gives up. *)
Fixpoint module_region (compat : bytes) (nodes : list DevTreeNode.t) : option FdtMemoryRegion.t :=
  match nodes with
  | [] => None
  | n :: nodes =>
      match find_prop (Str.lit "empty") (Str.lit "compatible") n with
      | Ok (Some compat_prop) =>
          match FallibleIter.any (λ s, Str.eqb s compat) (DevTreeProp.iter_str compat_prop) with
          | Err _ => None
          | Ok false => module_region compat nodes
          | Ok true =>
              match find_prop (Str.lit "empty") (Str.lit "reg") n with
              | Ok (Some reg_prop) =>
                  base ← DevTreeProp.u64 reg_prop 0;
                  size ← DevTreeProp.u64 reg_prop 1;
                  Some (FdtMemoryRegion.mk base size)
              | _ => None
              end
          end
      | _ => None
      end
  end.
Definition get_module_node_region (f : DevTree.t) (compat : bytes) : option FdtMemoryRegion.t :=
  module_region compat (items (DevTree.compatible_nodes f (Str.lit "multiboot,module"))).
Definition host_kernel_region (f : DevTree.t) : option FdtMemoryRegion.t :=
  get_module_node_region f (Str.lit "multiboot,kernel").
Definition host_initramfs_region (f : DevTree.t) : option FdtMemoryRegion.t :=
  get_module_node_region f (Str.lit "multiboot,ramdisk").
Fixpoint find_property (f : DevTree.t) (name : bytes) (tokens : list ParsedTok.t) : option bytes :=
  match tokens with
  | [] => None
  | ParsedTok.Prop_ buf off :: tokens =>
      match DevTree.string_at_offset f off with
      | Some found => if Str.contains name found
                      then match Str.from_utf8 buf with Some s => Some s | None => find_property f name tokens end
                      else find_property f name tokens
      | None => find_property f name tokens
      end
  | _ :: tokens => find_property f name tokens
  end.
Definition get_property (f : DevTree.t) (name : bytes) : option bytes :=
  find_property f name (DevTree.tokens f).
End Fdt.
