(* ===== verification/FdtFacts.v ===== *)
(** * Flattened device trees

    What the serializer writes is the flattened form of the tree, and reading it back
    gives the same tree. *)
From Stdlib Require Import ZifyBool.
From stdpp Require Import strings.
From S2P Require Import Prelude DeviceTree DeviceTreeFacts Fdt.
Open Scope string_scope.
Open Scope list_scope.
Open Scope Z_scope.

(** ** Trees as lists of tags *)
Inductive tag :=
| TagBegin (name : bytes)
| TagProp (name value : bytes)
| TagEnd.
Definition prop_tag (p : DeviceTreeProp.t) : tag := TagProp (DeviceTreeProp.name_raw p) (DeviceTreeProp.value_raw p).
Fixpoint tags (r : rose) : list tag :=
  let 'Rose _ n ps l := r in
  TagBegin n :: map prop_tag ps ++ (fix go l := match l with [] => [] | x :: l => tags x ++ go l end) l ++ [TagEnd].
Lemma tags_eq i n ps l : tags (Rose i n ps l) = TagBegin n :: map prop_tag ps ++ (l ≫= tags) ++ [TagEnd].
Proof. done. Qed.

(** A tree without the ids of its nodes. *)
Fixpoint erase (r : rose) : rose :=
  let 'Rose _ n ps l := r in Rose 0 n ps ((fix go l := match l with [] => [] | x :: l => erase x :: go l end) l).
Lemma erase_eq i n ps l : erase (Rose i n ps l) = Rose 0 n ps (map erase l).
Proof. done. Qed.

(** A name as it is stored: a string that ends with its only null. *)
Definition clean (raw : bytes) : Prop := ∃ s, raw = s ++ [0] ∧ 0 ∉ s ∧ Str.is_utf8 s = true.
Definition clean_tag (t : tag) : Prop :=
  match t with TagBegin n => clean n | TagProp n _ => clean n | TagEnd => True end.

Lemma ends_with_nul_in s : Str.ends_with_nul s = true → 0 ∈ s.
Proof.
  unfold Str.ends_with_nul. destruct (list.last s) as [b|] eqn:Hl; [|done]. intros ->%Z.eqb_eq.
  apply list.last_Some in Hl as [l ->]. apply elem_of_app. right. left.
Qed.
Lemma clean_cstr s : 0 ∉ s → cstr s = s ++ [0].
Proof. intros Hs. unfold cstr. destruct (Str.ends_with_nul s) eqn:He; [|done]. by apply ends_with_nul_in in He. Qed.

(** The tokens of a parser for a list of tags, with the strings by their offsets. *)
Definition token_for (strings : Z → option bytes) (t : ParsedTok.t) (g : tag) : Prop :=
  match g, t with
  | TagBegin n, ParsedTok.BeginNode s => n = s ++ [0] ∧ 0 ∉ s ∧ Str.is_utf8 s = true
  | TagProp n v, ParsedTok.Prop_ buf off =>
      buf = v ∧ ∃ s, strings off = Some s ∧ n = s ++ [0] ∧ 0 ∉ s ∧ Str.is_utf8 s = true
  | TagEnd, ParsedTok.EndNode => True
  | _, _ => False
  end.

(** ** Reading the tokens of a tree *)
Section from.
Context {H : Type} `{Heap H}.
Variable strings : Z → option bytes.
Local Notation E := DeviceTreeError.t.

(** All that can go wrong is a lack of memory. *)
Definition unless_no_memory (P : DeviceTree.t → Prop) (r : result E unit) (d : DeviceTree.t) : Prop :=
  match r with Ok _ => P d | Err e => e = DeviceTreeError.AllocError end.

Lemma from_props ps d C i n ps0 toks rest P :
  models d (Some (plug C (Rose i n ps0 []))) → Forall2 (token_for strings) toks (map prop_tag ps) →
  (∀ d', models d' (Some (plug C (Rose i n (ps0 ++ ps) []))) →
         returns (H := H) (DeviceTree.from_loop strings rest (Some i)) d' (unless_no_memory P)) →
  returns (H := H) (DeviceTree.from_loop strings (toks ++ rest) (Some i)) d (unless_no_memory P).
Proof.
  revert d ps0 toks. induction ps as [|p ps IH]; intros d ps0 toks Hm Ht Hk.
  { apply Forall2_nil_inv_r in Ht as ->. apply Hk. by rewrite app_nil_r. }
  apply Forall2_cons_inv_r in Ht as (t & toks' & Ht & Hts & ->).
  destruct t as [|?|buf off|]; try done. destruct Ht as (-> & s & Hs & Hn & Hs0 & Hu).
  cbn [app DeviceTree.from_loop]. apply returns_bind, returns_lift, returns_bind.
  rewrite Hs. eapply returns_impl.
  - eapply (returns_in_node _ _ _ _ _ _ _ (prop_added s (ValRaw (DeviceTreeProp.value_raw p)))); [exact Hm|].
    intros m Hnm. apply returns_bind, returns_lift. by apply (returns_add_value s (ValRaw _)).
  - intros r d' (ps' & HP & Hm' & [->|[e ->]]); [|apply HP].
    apply returns_bind, returns_outcome with (x := tt); [done|]. eapply (IH _ _ _ Hm' Hts).
    intros d2 Hm2. apply Hk. cbn in HP. rewrite HP, <-app_assoc in Hm2.
    rewrite clean_cstr, <-Hn in Hm2 by done. by destruct p.
Qed.

Definition reads_child (x : rose) : Prop := ∀ d C p n ps l toks rest P,
  models d (Some (plug C (Rose p n ps l))) → Forall2 (token_for strings) toks (tags x) →
  (∀ d' x', erase x' = erase x → models d' (Some (plug C (Rose p n ps (l ++ [x'])))) →
            returns (H := H) (DeviceTree.from_loop strings rest (Some p)) d' (unless_no_memory P)) →
  returns (H := H) (DeviceTree.from_loop strings (toks ++ rest) (Some p)) d (unless_no_memory P).

Lemma from_kids ks d C i n ps l toks rest P :
  Forall reads_child ks →
  models d (Some (plug C (Rose i n ps l))) → Forall2 (token_for strings) toks (ks ≫= tags) →
  (∀ d' l', map erase l' = map erase ks → models d' (Some (plug C (Rose i n ps (l ++ l')))) →
            returns (H := H) (DeviceTree.from_loop strings rest (Some i)) d' (unless_no_memory P)) →
  returns (H := H) (DeviceTree.from_loop strings (toks ++ rest) (Some i)) d (unless_no_memory P).
Proof.
  intros Hks. revert d l toks. induction Hks as [|x ks Hx _ IH]; intros d l toks Hm Ht Hk.
  { apply Forall2_nil_inv_r in Ht as ->. apply (Hk d []); [done|]. by rewrite app_nil_r. }
  cbn [mbind list_bind] in Ht. apply Forall2_app_inv_r in Ht as (t1 & t2 & H1 & H2 & ->). rewrite <-app_assoc.
  eapply (Hx _ _ _ _ _ _ _ _ _ Hm H1). intros d1 x' He Hm1. apply (IH _ _ _ Hm1 H2).
  intros d2 l' Hl Hm2. apply (Hk d2 (x' :: l')); [cbn; by rewrite He, Hl|]. by rewrite <-app_assoc in Hm2.
Qed.

(** The properties, children and end of a node that has just been added. *)
Lemma from_body ps ks d C i n toks rest P :
  Forall reads_child ks →
  models d (Some (plug C (Rose i n [] []))) →
  Forall2 (token_for strings) toks (map prop_tag ps ++ (ks ≫= tags) ++ [TagEnd]) →
  (∀ d' l', map erase l' = map erase ks → models d' (Some (plug C (Rose i n ps l'))) →
            returns (H := H) (DeviceTree.from_loop strings rest (par_of C)) d' (unless_no_memory P)) →
  returns (H := H) (DeviceTree.from_loop strings (toks ++ rest) (Some i)) d (unless_no_memory P).
Proof.
  intros Hks Hm Ht Hk. apply Forall2_app_inv_r in Ht as (t1 & t2 & H1 & H2 & ->).
  apply Forall2_app_inv_r in H2 as (t3 & t4 & H3 & H4 & ->).
  apply Forall2_cons_inv_r in H4 as (t & ? & Hend & ->%Forall2_nil_inv_r & ->).
  destruct t; try done. rewrite <-!app_assoc. eapply (from_props _ _ _ _ _ _ _ _ _ Hm H1).
  intros d1 Hm1. cbn [app] in Hm1. eapply (from_kids _ _ _ _ _ _ _ _ _ _ Hks Hm1 H3).
  intros d2 l' Hl Hm2. cbn [app] in *. cbn [DeviceTree.from_loop].
  apply returns_bind, returns_lift, returns_bind, returns_state, returns_bind.
  destruct (models_node _ _ _ Hm2) as (Hg & _ & _ & _). cbn [rid] in Hg.
  eapply returns_outcome; [by rewrite Hg|]. by eapply Hk.
Qed.

Lemma from_child x : reads_child x.
Proof.
  induction x as [i nm xps ks IH] using rose_induction. intros d C p n ps l toks rest P Hm Ht Hk.
  rewrite tags_eq in Ht. apply Forall2_cons_inv_r in Ht as (t & toks' & Hb & Ht & ->).
  destruct t as [s|?|?|]; try done. destruct Hb as (-> & Hs0 & Hu). cbn [app DeviceTree.from_loop].
  apply returns_bind. unfold Str.from_utf8. rewrite Hu. apply returns_lift, returns_bind.
  eapply returns_impl; [by apply add_child_spec|]. intros [id|e] d1 Hpost; [|by destruct Hpost].
  destruct Hpost as [_ Hm1]. rewrite clean_cstr in Hm1 by done.
  eapply (from_body xps ks d1 (Frame p n ps l [] :: C) id (s ++ [0])); [done|exact Hm1|done|].
  intros d2 l' Hl Hm2. apply (Hk d2 (Rose id (s ++ [0]) xps l')); [rewrite !erase_eq; by f_equal|exact Hm2].
Qed.

Lemma from_tree x toks :
  Forall2 (token_for strings) toks (tags x) →
  returns (H := H) (DeviceTree.from_loop strings toks None) DeviceTree.new
    (unless_no_memory (λ d, ∃ x', erase x' = erase x ∧ models d (Some x'))).
Proof.
  destruct x as [i nm xps ks]. rewrite tags_eq. intros Ht.
  apply Forall2_cons_inv_r in Ht as (t & toks' & Hb & Ht & ->).
  destruct t as [s|?|?|]; try done. destruct Hb as (-> & Hs0 & Hu). cbn [app DeviceTree.from_loop].
  apply returns_bind. unfold Str.from_utf8. rewrite Hu. apply returns_lift, returns_bind.
  eapply returns_impl; [apply add_root_spec; [by apply models_none|done]|].
  intros [id|e] d1 Hpost; [|by destruct Hpost]. rewrite clean_cstr in Hpost by done.
  rewrite <-(app_nil_r toks'). eapply (from_body xps ks d1 [] id (s ++ [0])); [|exact Hpost|done|].
  { apply list.Forall_forall. intros k _. apply from_child. }
  intros d2 l' Hl Hm2. apply returns_ret. exists (Rose id (s ++ [0]) xps l').
  split; [rewrite !erase_eq; by f_equal|exact Hm2].
Qed.
End from.

(** ** The flattened form *)
Definition padding (n : nat) : nat := ((4 - n mod 4) mod 4)%nat.
Definition pad4 (b : bytes) : bytes := b ++ replicate (padding (length b)) 0.
Definition encode (t : FdtToken.t) : bytes :=
  match t with
  | FdtToken.NodeStart raw => to_be_bytes 4 1 ++ pad4 raw
  | FdtToken.NodeEnd => to_be_bytes 4 2
  | FdtToken.Prop_ l off v => to_be_bytes 4 3 ++ to_be_bytes 4 l ++ to_be_bytes 4 off ++ pad4 v
  | FdtToken.End => to_be_bytes 4 9
  end.

Lemma length_to_be_bytes n v : length (to_be_bytes n v) = n.
Proof. revert v. induction n as [|n IH]; intros v; [done|]. cbn [to_be_bytes]. rewrite length_app, IH. simpl. lia. Qed.
Lemma length_pad4 b : length (pad4 b) = (length b + padding (length b))%nat.
Proof. unfold pad4. by rewrite length_app, length_replicate. Qed.
Lemma padding_bound n : (padding n < 4)%nat.
Proof. unfold padding. pose proof (Nat.mod_upper_bound (4 - n mod 4) 4). lia. Qed.
Lemma align_size b : len b < U64 - 4 → fdt_align_size (len b) = Z.of_nat (length (pad4 b)).
Proof.
  intros Hb. unfold fdt_align_size, FDT_ALIGN, len in *. rewrite length_pad4. unfold wrap64.
  rewrite Z.mod_small by lia. replace (4 - 1) with (2 ^ 2 - 1) by done.
  rewrite land_not64_mask by (unfold u64; lia).
  unfold padding. rewrite Nat2Z.inj_add, Nat2Z.inj_mod, Nat2Z.inj_sub, Nat2Z.inj_mod
    by (pose proof (Nat.mod_upper_bound (length b) 4); lia).
  change (Z.of_nat 4) with 4. change (2 ^ 2) with 4. mod_lia.
Qed.

(** ** The writer on a cleared buffer *)
Lemma put_zero dn m n data :
  (length data ≤ n ≤ m)%nat →
  Part.put (Z.of_nat n) data (Part.mk dn (replicate m 0)) =
  Returns (Part.mk (dn ++ data ++ replicate (n - length data) 0) (replicate (m - n) 0)).
Proof.
  intros Hn. unfold Part.put, len. cbn [Part.done Part.rest]. rewrite length_replicate.
  replace (Z.of_nat n <=? Z.of_nat m) with true by lia. rewrite Nat2Z.id.
  by rewrite take_replicate, !drop_replicate, Nat.min_l by lia.
Qed.

Section writer.
Variables hd rm : Part.t.
Variable tl : bytes.
(** A writer whose last two parts are cleared from where they are. *)
Definition W (sd : bytes) (sm : nat) (td : bytes) (tm : nat) : FdtWriter.t :=
  FdtWriter.mk hd rm (Part.mk sd (replicate sm 0)) (Part.mk td (replicate tm 0)) (len td) tl.

Lemma push_u32_eq v sd sm td tm :
  (4 ≤ sm)%nat → FdtWriter.push_struct_u32 v (W sd sm td tm) = Returns (W (sd ++ to_be_bytes 4 v) (sm - 4) td tm).
Proof.
  intros Hsm. unfold FdtWriter.push_struct_u32. cbn [FdtWriter.struct_buf W].
  pose proof (put_zero sd sm 4 (to_be_bytes 4 v)) as Hp. change (Z.of_nat 4) with 4 in Hp.
  rewrite Hp by (rewrite length_to_be_bytes; lia). rewrite obind_ret, length_to_be_bytes, Nat.sub_diag. cbn [replicate]. by rewrite app_nil_r.
Qed.
Lemma push_raw_eq b sd sm td tm :
  len b < U32 → (length (pad4 b) ≤ sm)%nat →
  FdtWriter.push_struct_raw b (W sd sm td tm) = Returns (W (sd ++ pad4 b) (sm - length (pad4 b)) td tm).
Proof.
  intros Hb Hsm. unfold FdtWriter.push_struct_raw. cbv zeta. cbn [FdtWriter.struct_buf W].
  rewrite align_size by (unfold U32 in Hb; lia). pose proof (length_pad4 b). rewrite put_zero by lia.
  rewrite obind_ret. unfold W, FdtWriter.with_struct. cbn. do 3 f_equal. unfold pad4. do 3 f_equal.
  rewrite length_app, length_replicate. lia.
Qed.

Definition token_ok (t : FdtToken.t) : Prop :=
  match t with
  | FdtToken.NodeStart raw => len raw < U32
  | FdtToken.Prop_ l _ v => l = len v ∧ len v < U32
  | _ => True
  end.
Lemma length_encode_pos t : (4 ≤ length (encode t))%nat.
Proof. destruct t; cbn [encode]; rewrite ?length_app, ?length_to_be_bytes; lia. Qed.
Lemma push_token_eq t sd sm td tm :
  token_ok t → (length (encode t) ≤ sm)%nat →
  FdtWriter.push_token t (W sd sm td tm) = Returns (W (sd ++ encode t) (sm - length (encode t)) td tm).
Proof.
  intros Hok Hsm. pose proof (length_encode_pos t). unfold FdtWriter.push_token.
  rewrite push_u32_eq, obind_ret by lia. destruct t as [raw| |l off v|]; cbn [encode token_ok FdtToken.code] in *.
  - rewrite length_app, length_to_be_bytes in *. rewrite push_raw_eq by (lia || done). rewrite <-app_assoc.
    do 2 f_equal. lia.
  - by rewrite length_to_be_bytes.
  - destruct Hok as [-> Hv]. rewrite !length_app, !length_to_be_bytes in *.
    rewrite push_u32_eq, obind_ret by lia. rewrite push_u32_eq, obind_ret by lia.
    rewrite push_raw_eq by (lia || done). rewrite <-!app_assoc. do 2 f_equal. lia.
  - by rewrite length_to_be_bytes.
Qed.

(** *** Properties *)
Definition names (ps : list DeviceTreeProp.t) : bytes := ps ≫= DeviceTreeProp.name_raw.
Fixpoint prop_tokens (pos : Z) (ps : list DeviceTreeProp.t) : list FdtToken.t :=
  match ps with
  | [] => []
  | p :: ps => FdtToken.Prop_ (len (DeviceTreeProp.value_raw p)) pos (DeviceTreeProp.value_raw p)
               :: prop_tokens (pos + len (DeviceTreeProp.name_raw p)) ps
  end.
Definition encode_all (ts : list FdtToken.t) : bytes := ts ≫= encode.

Lemma len_app a b : len (a ++ b) = len a + len b.
Proof. unfold len. rewrite length_app. lia. Qed.

Lemma push_string_eq nm sd sm td tm :
  len td + len nm < U32 → (length nm ≤ tm)%nat →
  FdtWriter.push_string nm (W sd sm td tm) = Returns (len td, W sd sm (td ++ nm) (tm - length nm)).
Proof.
  intros Hpos Htm. unfold FdtWriter.push_string. cbn [FdtWriter.strings_buf W FdtWriter.string_pos].
  pose proof (put_zero td tm (length nm) nm ltac:(lia)) as Hp. fold (len nm) in Hp. rewrite Hp, obind_ret.
  rewrite Nat.sub_diag. cbn [replicate]. rewrite app_nil_r. cbv zeta.
  unfold to_u32. replace (len td <? U32) with true by (unfold len in *; lia). rewrite obind_ret.
  replace (wrap64 (len td + len nm)) with (len (td ++ nm)); [done|].
  rewrite len_app. unfold wrap64. rewrite Z.mod_small; [done|]. unfold U32, len in *. lia.
Qed.

Lemma push_props_eq ps sd sm td tm :
  Forall (λ p, len (DeviceTreeProp.value_raw p) < U32) ps → len td + len (names ps) < U32 →
  (length (encode_all (prop_tokens (len td) ps)) ≤ sm)%nat → (length (names ps) ≤ tm)%nat →
  DeviceTreeSerializer.push_props ps (W sd sm td tm) =
  Returns (W (sd ++ encode_all (prop_tokens (len td) ps)) (sm - length (encode_all (prop_tokens (len td) ps)))
             (td ++ names ps) (tm - length (names ps))).
Proof.
  revert sd sm td tm. induction ps as [|p ps IH]; intros sd sm td tm Hv Hpos Hsm Htm.
  { cbn. by rewrite !app_nil_r, !Nat.sub_0_r. }
  apply list.Forall_cons in Hv as [Hp Hv]. unfold names, encode_all in *.
  cbn [mbind list_bind prop_tokens DeviceTreeSerializer.push_props] in *.
  rewrite len_app in Hpos. rewrite !length_app in *.
  set (nm := DeviceTreeProp.name_raw p) in *. set (v := DeviceTreeProp.value_raw p) in *.
  rewrite push_string_eq, obind_ret by (unfold len in *; lia).
  unfold FdtToken.new_prop, to_u32. replace (len v <? U32) with true by lia. rewrite !obind_ret.
  rewrite push_token_eq by (done || lia). rewrite obind_ret.
  rewrite <-len_app in Hsm |- *.
  rewrite IH; [|done|rewrite len_app; lia|lia|lia].
  do 2 f_equal; [by rewrite <-app_assoc|lia|by rewrite <-app_assoc|lia].
Qed.

(** *** Nodes *)
Definition node_tokens (pos : Z) (n : DeviceTreeNode.t) : list FdtToken.t :=
  FdtToken.NodeStart (DeviceTreeNode.name_raw n) :: prop_tokens pos (DeviceTreeNode.props n).
Definition end_tokens (depth next : Z) : list FdtToken.t :=
  if depth <? next then [] else FdtToken.NodeEnd :: replicate (Z.to_nat (depth - next)) FdtToken.NodeEnd.
Fixpoint visit_tokens (pos depth : Z) (l : list (DeviceTreeNode.t * Z)) : list FdtToken.t :=
  match l with
  | [] => []
  | (n, next) :: l =>
      node_tokens pos n ++ end_tokens depth next ++
      visit_tokens (pos + len (names (DeviceTreeNode.props n))) next l
  end.
Definition visit_names (l : list (DeviceTreeNode.t * Z)) : bytes := l ≫= λ '(n, _), names (DeviceTreeNode.props n).
Fixpoint steps_ok (depth : Z) (l : list (DeviceTreeNode.t * Z)) : Prop :=
  match l with
  | [] => True
  | (n, next) :: l =>
      (next = depth + 1 ∧ next < U64 ∨ 0 ≤ next ≤ depth) ∧ 0 ≤ depth ∧ steps_ok next l
  end.
Definition small_node (n : DeviceTreeNode.t) : Prop :=
  len (DeviceTreeNode.name_raw n) < U32 ∧ Forall (λ p, len (DeviceTreeProp.value_raw p) < U32) (DeviceTreeNode.props n).

Lemma encode_all_app a b : encode_all (a ++ b) = encode_all a ++ encode_all b.
Proof. apply bind_app. Qed.

Lemma encode_all_cons t ts : encode_all (t :: ts) = encode t ++ encode_all ts.
Proof. done. Qed.

Lemma push_ends_eq k target depth fuel sd sm td tm :
  depth = target + Z.of_nat k → (k ≤ fuel)%nat →
  (length (encode_all (replicate k FdtToken.NodeEnd)) ≤ sm)%nat →
  DeviceTreeSerializer.push_ends fuel target depth (W sd sm td tm) =
  Returns (target, W (sd ++ encode_all (replicate k FdtToken.NodeEnd))
                     (sm - length (encode_all (replicate k FdtToken.NodeEnd))) td tm).
Proof.
  revert depth fuel sd sm. induction k as [|k IH]; intros depth fuel sd sm Hd Hf Hsm.
  { replace depth with target by lia. cbn. rewrite app_nil_r, Nat.sub_0_r.
    destruct fuel; cbn [DeviceTreeSerializer.push_ends]; by rewrite Z.eqb_refl. }
  destruct fuel as [|fuel]; [lia|]. cbn [DeviceTreeSerializer.push_ends].
  replace (depth =? target) with false by lia. cbn [replicate] in *. rewrite encode_all_cons in *.
  rewrite length_app in *. unfold FdtToken.new_node_end. rewrite push_token_eq by (done || lia). rewrite obind_ret.
  rewrite IH by lia. do 3 f_equal; [by rewrite <-app_assoc|lia].
Qed.

Lemma push_node_eq n next depth sd sm td tm :
  small_node n → (next = depth + 1 ∧ next < U64 ∨ 0 ≤ next ≤ depth) → 0 ≤ depth →
  len td + len (names (DeviceTreeNode.props n)) < U32 →
  let ts := node_tokens (len td) n ++ end_tokens depth next in
  (length (encode_all ts) ≤ sm)%nat → (length (names (DeviceTreeNode.props n)) ≤ tm)%nat →
  DeviceTreeSerializer.push_node n next depth (W sd sm td tm) =
  Returns (next, W (sd ++ encode_all ts) (sm - length (encode_all ts)) (td ++ names (DeviceTreeNode.props n))
                   (tm - length (names (DeviceTreeNode.props n)))).
Proof.
  intros [Hn Hv] Hnext Hd Hpos ts Hsm Htm. unfold ts in *. clear ts. unfold node_tokens in *.
  rewrite encode_all_app, encode_all_cons, !length_app in *.
  unfold DeviceTreeSerializer.push_node, FdtToken.new_node_start.
  rewrite push_token_eq by (done || lia). rewrite obind_ret. rewrite push_props_eq by (done || lia). rewrite obind_ret.
  unfold end_tokens in *. destruct (depth <? next) eqn:Hlt.
  - unfold wrap64. rewrite Z.mod_small by lia. replace (depth + 1 =? next) with true by lia.
    cbn [encode_all mbind list_bind length]. replace next with (depth + 1) by lia. rewrite !app_nil_r, <-!app_assoc.
    do 3 f_equal. lia.
  - rewrite encode_all_cons, !length_app in *.
    unfold FdtToken.new_node_end. rewrite push_token_eq by (done || lia). rewrite obind_ret.
    rewrite (push_ends_eq (Z.to_nat (depth - next))) by lia.
    do 3 f_equal; [by rewrite <-!app_assoc|lia].
Qed.

Lemma push_nodes_eq d it l it' depth sd sm td tm k :
  runs (DeviceTree.node_arena d) it l it' → DeviceTreeIter.current it' = None →
  steps_ok depth l → Forall small_node l.*1 → len td + len (visit_names l) < U32 →
  (length (encode_all (visit_tokens (len td) depth l)) ≤ sm)%nat → (length (visit_names l) ≤ tm)%nat →
  DeviceTreeSerializer.push_nodes (length l + S k) d it depth (W sd sm td tm) =
  Returns (W (sd ++ encode_all (visit_tokens (len td) depth l))
             (sm - length (encode_all (visit_tokens (len td) depth l)))
             (td ++ visit_names l) (tm - length (visit_names l))).
Proof.
  intros Hruns. revert depth sd sm td tm.
  induction Hruns as [it|it n it1 l it2 Hn Hruns IH]; intros depth sd sm td tm Hend Hok Hsmall Hpos Hsm Htm.
  { cbn [length Nat.add DeviceTreeSerializer.push_nodes]. unfold DeviceTreeIter.next. rewrite Hend. cbn.
    by rewrite !app_nil_r, !Nat.sub_0_r. }
  cbn [length Nat.add DeviceTreeSerializer.push_nodes]. rewrite Hn, obind_ret.
  destruct Hok as (Hnext & Hd & Hok). cbn [fmap list_fmap fst] in Hsmall. apply list.Forall_cons in Hsmall as [Hsn Hsmall].
  cbn [visit_tokens] in *. rewrite app_assoc, encode_all_app, !length_app in *.
  change (visit_names ((n, DeviceTreeIter.depth it1) :: l))
    with (names (DeviceTreeNode.props n) ++ visit_names l) in *.
  rewrite len_app in Hpos. rewrite length_app in *.
  rewrite push_node_eq by (unfold len in *; done || lia). rewrite obind_ret.
  rewrite <-len_app in Hsm |- *.
  rewrite IH; [|done|done|done|rewrite len_app; lia|lia|lia].
  do 2 f_equal; [by rewrite <-app_assoc|lia|by rewrite <-app_assoc|lia].
Qed.
End writer.

(** ** The nodes in the order of the iterator, as tags *)
Fixpoint visit_tags (depth : Z) (l : list (DeviceTreeNode.t * Z)) : list tag :=
  match l with
  | [] => []
  | (n, next) :: l =>
      TagBegin (DeviceTreeNode.name_raw n) :: map prop_tag (DeviceTreeNode.props n) ++
      (if depth <? next then [] else TagEnd :: replicate (Z.to_nat (depth - next)) TagEnd) ++ visit_tags next l
  end.

(** The steps over a tree, and the tags they produce. *)
Definition visits_ok (r : rose) : Prop := ∀ par d e l,
  0 ≤ e ≤ d → d + Z.of_nat (height r) < U64 → steps_ok e l →
  steps_ok d (visits par d e r ++ l) ∧
  visit_tags d (visits par d e r ++ l) = tags r ++ replicate (Z.to_nat (d - e)) TagEnd ++ visit_tags e l.

Lemma visits_all_ok ks par d e l :
  Forall visits_ok ks → ks ≠ [] → 0 ≤ e ≤ d → d + Z.of_nat (heights ks) < U64 → steps_ok e l →
  steps_ok d (visits_all par d e ks ++ l) ∧
  visit_tags d (visits_all par d e ks ++ l) = (ks ≫= tags) ++ replicate (Z.to_nat (d - e)) TagEnd ++ visit_tags e l.
Proof.
  intros Hks. induction Hks as [|x ks Hx Hks IH]; intros Hne He Hh Hl; [done|].
  cbn [heights foldr] in Hh. cbn [mbind list_bind]. destruct ks as [|y ks].
  - cbn [visits_all list_bind]. rewrite app_nil_r. apply Hx; [done|lia|done].
  - change (visits_all par d e (x :: y :: ks)) with (visits par d d x ++ visits_all par d e (y :: ks)).
    rewrite <-!app_assoc. destruct IH as [IH1 IH2]; [done|done|unfold heights in *; lia|done|].
    destruct (Hx par d d (visits_all par d e (y :: ks) ++ l)) as [Hx1 Hx2]; [lia|lia|done|].
    split; [done|]. by rewrite Hx2, IH2, Z.sub_diag.
Qed.
Lemma visits_all_ok_rose r : visits_ok r.
Proof.
  induction r as [i n ps ks IH] using rose_induction. intros par d e l He Hh Hl.
  rewrite height_eq in Hh. rewrite visits_eq, tags_eq. destruct ks as [|k ks].
  - cbn [app steps_ok visit_tags node_of DeviceTreeNode.name_raw DeviceTreeNode.props]. split; [lia||(split_and!; [lia|lia|done])|].
    replace (d <? e) with false by lia. cbn [mbind list_bind app]. by rewrite <-app_assoc.
  - destruct (visits_all_ok (k :: ks) (Some i) (d + 1) e l IH) as [H1 H2]; [done|lia|lia|done|].
    cbn [app steps_ok visit_tags node_of DeviceTreeNode.name_raw DeviceTreeNode.props].
    split; [split_and!; [lia|lia|done]|]. replace (d <? d + 1) with true by lia. cbn [app].
    rewrite H2. rewrite <-!app_assoc. do 3 f_equal.
    replace (Z.to_nat (d + 1 - e)) with (S (Z.to_nat (d - e))) by lia. done.
Qed.
