(* ===== verification/FdtRoundtrip.v ===== *)
(** * Serializing a device tree and reading it back

    The layout that the serializer computes is exactly what it writes, the result is a
    flattened device tree in the sense of the Devicetree Specification, and a parser
    of such trees together with [DeviceTree::from] returns the tree. *)
From Stdlib Require Import ZifyBool.
From stdpp Require Import strings.
From S2P Require Import Prelude DeviceTree DeviceTreeFacts DeviceTreeRefine Fdt FdtFacts.
Open Scope string_scope.
Open Scope list_scope.
Open Scope Z_scope.

(** ** Sizes *)
Definition total {A} (f : A → nat) (l : list A) : nat := foldr (λ x n, (f x + n)%nat) O l.
Lemma total_app {A} (f : A → nat) l k : total f (l ++ k) = (total f l + total f k)%nat.
Proof. induction l as [|x l IH]; [done|]. unfold total in *. cbn. rewrite IH. lia. Qed.
Lemma total_cons {A} (f : A → nat) x l : total f (x :: l) = (f x + total f l)%nat.
Proof. done. Qed.
#[local] Arguments total : simpl never.
Lemma total_in {A} (f : A → nat) l x : x ∈ l → (f x ≤ total f l)%nat.
Proof. induction 1 as [x l|x y l _ IH]; rewrite total_cons; lia. Qed.

Definition tag_size (g : tag) : nat :=
  match g with
  | TagBegin n => 4 + length (pad4 n)
  | TagProp _ v => 12 + length (pad4 v)
  | TagEnd => 4
  end.
Definition node_size (n : DeviceTreeNode.t) : nat :=
  8 + length (pad4 (DeviceTreeNode.name_raw n)) + total tag_size (map prop_tag (DeviceTreeNode.props n)).
Definition names_size (n : DeviceTreeNode.t) : nat := length (names (DeviceTreeNode.props n)).

Lemma length_prop_tokens pos ps : length (encode_all (prop_tokens pos ps)) = total tag_size (map prop_tag ps).
Proof.
  revert pos. induction ps as [|p ps IH]; intros pos; [done|]. cbn [prop_tokens map].
  rewrite encode_all_cons, length_app, IH, total_cons. cbn [encode prop_tag tag_size].
  rewrite !length_app, !length_to_be_bytes. lia.
Qed.
Lemma length_visit_tokens pos depth l :
  length (encode_all (visit_tokens pos depth l)) = total tag_size (visit_tags depth l).
Proof.
  revert pos depth. induction l as [|[n next] l IH]; intros pos depth; [done|]. cbn [visit_tokens visit_tags].
  rewrite !encode_all_app, !length_app, IH. unfold node_tokens. rewrite encode_all_cons, length_app, length_prop_tokens.
  rewrite total_cons, !total_app. cbn [tag_size encode]. rewrite length_app, length_to_be_bytes.
  assert (length (encode_all (end_tokens depth next)) =
          total tag_size (if depth <? next then [] else TagEnd :: replicate (Z.to_nat (depth - next)) TagEnd)) as ->.
  { unfold end_tokens. destruct (depth <? next); [done|]. rewrite encode_all_cons, length_app, total_cons.
    f_equal. induction (Z.to_nat (depth - next)) as [|k IHk]; [done|]. cbn [replicate].
    by rewrite encode_all_cons, length_app, IHk, total_cons. }
  lia.
Qed.

Lemma tags_total par r : total tag_size (tags r) = total node_size (entries par r).*2.
Proof.
  revert par. induction r as [i n ps l IH] using rose_induction. intros par. rewrite tags_eq, entries_eq.
  cbn [fmap list_fmap snd]. rewrite !total_cons, !total_app. cbn [tag_size].
  assert (total tag_size (l ≫= tags) = total node_size (forest (Some i) l).*2) as Hl.
  { induction IH as [|x l Hx _ IH]; [done|]. rewrite forest_cons. cbn [mbind list_bind].
    rewrite total_app, fmap_app, total_app, (Hx (Some i)). by f_equal. }
  rewrite <-Hl. unfold node_size, node_of. cbn [DeviceTreeNode.name_raw DeviceTreeNode.props].
  rewrite total_cons. cbn [tag_size]. change (total tag_size []) with O. lia.
Qed.

(** The size of the flattened form of a tree, before the final alignment. *)
Definition struct_len (r : rose) : nat := (total node_size (entries None r).*2 + 4)%nat.
Definition strings_len (r : rose) : nat := total names_size (entries None r).*2.
Definition flat_size (r : rose) : nat := (56 + struct_len r + strings_len r)%nat.

(** ** The layout *)
Lemma prop_sizes_eq ps S N :
  Z.of_nat S + Z.of_nat (total tag_size (map prop_tag ps)) < U32 → Z.of_nat N + len (names ps) < U32 →
  DeviceTreeSerializer.prop_sizes ps (Z.of_nat S) (Z.of_nat N) =
  Returns (Z.of_nat (S + total tag_size (map prop_tag ps)), Z.of_nat (N + length (names ps))).
Proof.
  revert S N. induction ps as [|p ps IH]; intros S N HS HN.
  { change (total tag_size (map prop_tag [])) with O. change (length (names [])) with O. by rewrite !Nat.add_0_r. }
  cbn [DeviceTreeSerializer.prop_sizes]. set (v := DeviceTreeProp.value_raw p) in *.
  change (names (p :: ps)) with (DeviceTreeProp.name_raw p ++ names ps) in *. rewrite len_app in HN.
  change (total tag_size (map prop_tag (p :: ps)))
    with (12 + length (pad4 v) + total tag_size (map prop_tag ps))%nat in *.
  pose proof (length_pad4 v) as Hp. unfold U32 in *.
  unfold FdtToken.new_prop, to_u32, U32. replace (len v <? 2 ^ 32) with true by (unfold len in *; lia).
  rewrite !obind_ret. cbn [FdtToken.size]. rewrite align_size by (unfold len in *; lia).
  replace (wrap64 (Z.of_nat S + wrap64 (4 + 8 + Z.of_nat (length (pad4 v)))))
    with (Z.of_nat (S + (12 + length (pad4 v)))) by (unfold wrap64; rewrite (Z.mod_small (4 + 8 + _)), Z.mod_small; lia).
  replace (wrap64 (Z.of_nat N + len (DeviceTreeProp.name_raw p)))
    with (Z.of_nat (N + length (DeviceTreeProp.name_raw p)))
    by (unfold wrap64, len in *; rewrite Z.mod_small; lia).
  rewrite IH by (unfold len in *; lia). rewrite length_app. do 2 f_equal; lia.
Qed.
Lemma node_sizes_eq ns S N :
  Z.of_nat S + Z.of_nat (total node_size ns) < U32 → Z.of_nat N + Z.of_nat (total names_size ns) < U32 →
  DeviceTreeSerializer.node_sizes ns (Z.of_nat S) (Z.of_nat N) =
  Returns (Z.of_nat (S + total node_size ns), Z.of_nat (N + total names_size ns)).
Proof.
  revert S N. induction ns as [|n ns IH]; intros S N HS HN.
  { change (total node_size []) with O. change (total names_size []) with O. by rewrite !Nat.add_0_r. }
  cbn [DeviceTreeSerializer.node_sizes]. cbv zeta. set (raw := DeviceTreeNode.name_raw n).
  change (total node_size (n :: ns))
    with (8 + length (pad4 raw) + total tag_size (map prop_tag (DeviceTreeNode.props n)) + total node_size ns)%nat in *.
  change (total names_size (n :: ns)) with (length (names (DeviceTreeNode.props n)) + total names_size ns)%nat in *.
  pose proof (length_pad4 raw) as Hp. unfold U32 in *.
  unfold FdtToken.new_node_start, FdtToken.new_node_end. cbn [FdtToken.size].
  rewrite align_size by (unfold len in *; lia).
  replace (wrap64 (Z.of_nat S + (wrap64 (4 + Z.of_nat (length (pad4 raw))) + 4)))
    with (Z.of_nat (S + (8 + length (pad4 raw)))) by (unfold wrap64; rewrite (Z.mod_small (4 + _)), Z.mod_small; lia).
  rewrite prop_sizes_eq by (unfold U32, len in *; lia). rewrite obind_ret.
  rewrite IH by (unfold U32 in *; lia). do 2 f_equal; lia.
Qed.

Lemma layout_eq d r :
  models d (Some r) → fits d → Z.of_nat (flat_size r) < U32 →
  DeviceTreeSerializer.new d =
  Returns (DeviceTreeSerializer.mk
             (FdtLayout.mk 40 16 (Z.of_nat (struct_len r)) (Z.of_nat (strings_len r))) d).
Proof.
  intros Hm Hf Hsz. unfold DeviceTreeSerializer.new, DeviceTreeSerializer.get_layout, DeviceTree.iter.
  rewrite (models_root _ _ Hm). cbn [fmap option_fmap option_map].
  rewrite (nodes_from d None r), obind_ret; [|apply Hm|apply Hm|done].
  unfold flat_size, struct_len, strings_len in *.
  pose proof (node_sizes_eq (entries None r).*2 0 0) as Hn. change (Z.of_nat 0) with 0 in Hn.
  rewrite Hn by lia. rewrite obind_ret. unfold FdtToken.new_end. cbn [FdtToken.size Nat.add].
  unfold wrap64. unfold U32 in Hsz. rewrite Z.mod_small by lia. rewrite obind_ret. do 3 f_equal. lia.
Qed.

(** ** What is written *)
Lemma put_all_zero n vals dn m :
  (length vals * n ≤ m)%nat →
  FdtWriter.put_all n vals (Part.mk dn (replicate m 0)) =
  Returns (Part.mk (dn ++ (vals ≫= to_be_bytes n)) (replicate (m - length vals * n) 0)).
Proof.
  revert dn m. induction vals as [|v vals IH]; intros dn m Hm.
  { cbn. by rewrite app_nil_r, Nat.sub_0_r. }
  cbn [FdtWriter.put_all length Nat.mul] in *. rewrite put_zero by (rewrite length_to_be_bytes; lia).
  rewrite obind_ret, length_to_be_bytes, Nat.sub_diag. cbn [replicate]. rewrite app_nil_r, IH by lia.
  cbn [mbind list_bind]. rewrite <-app_assoc. do 3 f_equal. lia.
Qed.

Definition tokens (r : rose) : list FdtToken.t := visit_tokens 0 0 (visits None 0 0 r).
Definition strings (r : rose) : bytes := visit_names (visits None 0 0 r).
Definition aligned (n : nat) : nat := (n + padding n)%nat.
Definition header_of (r : rose) : FdtHeader.t :=
  FdtHeader.mk FDT_MAGIC (Z.of_nat (aligned (flat_size r))) 56 (Z.of_nat (56 + struct_len r)) 40
    FDT_VERSION FDT_LAST_COMP_VERSION 0 (Z.of_nat (strings_len r)) (Z.of_nat (struct_len r)).
Definition blob_of (k : nat) (r : rose) : bytes :=
  (FdtHeader.to_array (header_of r) ≫= to_be_bytes 4) ++ replicate 16 0 ++
  (encode_all (tokens r) ++ encode FdtToken.End) ++ strings r ++ replicate (k - flat_size r) 0.

Lemma length_tokens d r :
  models d (Some r) → fits d → (length (encode_all (tokens r)) + 4 = struct_len r)%nat ∧
  visit_tags 0 (visits None 0 0 r) = tags r ∧ steps_ok 0 (visits None 0 0 r).
Proof.
  intros Hm Hf. pose proof (height_entries None r).
  assert (length (entries None r) ≤ length (Arena.vals (DeviceTree.node_arena d)))%nat
    by (apply stored_length; [apply Hm|rewrite ids_par; apply Hm]).
  destruct (visits_all_ok_rose r None 0 0 []) as [Hok Htags]; [lia|unfold fits in Hf; lia|done|].
  rewrite app_nil_r in *. cbn in Htags. rewrite app_nil_r in Htags.
  split; [|done]. unfold tokens, struct_len. by rewrite length_visit_tokens, Htags, (tags_total None).
Qed.
Lemma length_strings r : length (strings r) = strings_len r.
Proof.
  unfold strings, strings_len. rewrite <-(visits_nodes None 0 0). unfold visit_names.
  induction (visits None 0 0 r) as [|[n e] l IH]; [done|]. cbn [mbind list_bind]. rewrite length_app, IH. done.
Qed.
Lemma small_nodes r :
  Z.of_nat (flat_size r) < U32 → Forall small_node (entries None r).*2.
Proof.
  intros Hsz. apply list.Forall_forall. intros n Hn. pose proof (total_in node_size _ _ Hn) as Hle.
  unfold flat_size, struct_len in Hsz. unfold node_size in Hle at 1.
  pose proof (length_pad4 (DeviceTreeNode.name_raw n)). split; [unfold len; lia|].
  apply list.Forall_forall. intros p Hp.
  assert (prop_tag p ∈ map prop_tag (DeviceTreeNode.props n)) as Ht by by apply list_elem_of_fmap_2.
  pose proof (total_in tag_size _ _ Ht) as Hlt. cbn [prop_tag tag_size] in Hlt.
  pose proof (length_pad4 (DeviceTreeProp.value_raw p)). unfold len. lia.
Qed.

Definition layout_of (r : rose) : FdtLayout.t :=
  FdtLayout.mk 40 16 (Z.of_nat (struct_len r)) (Z.of_nat (strings_len r)).
Lemma output_size_eq d r :
  Z.of_nat (flat_size r) + 4 < U32 →
  DeviceTreeSerializer.output_size (DeviceTreeSerializer.mk (layout_of r) d) = Z.of_nat (aligned (flat_size r)).
Proof.
  intros Hsz. unfold DeviceTreeSerializer.output_size, layout_of. cbv zeta.
  cbn [DeviceTreeSerializer.layout FdtLayout.header_size FdtLayout.resv_map_size FdtLayout.struct_size FdtLayout.strings_size].
  unfold flat_size, U32 in Hsz. replace (wrap64 _) with (len (replicate (flat_size r) 0)).
  2: { unfold len, flat_size, wrap64. rewrite length_replicate, Z.mod_small; lia. }
  rewrite align_size by (unfold len; rewrite length_replicate; unfold flat_size; lia).
  by rewrite length_pad4, length_replicate.
Qed.
Lemma header_eq d r :
  Z.of_nat (flat_size r) + 4 < U32 →
  DeviceTreeSerializer.header (DeviceTreeSerializer.mk (layout_of r) d) = Returns (header_of r).
Proof.
  intros Hsz. unfold DeviceTreeSerializer.header. cbv zeta. rewrite output_size_eq by done. unfold layout_of.
  cbn [DeviceTreeSerializer.layout FdtLayout.header_size FdtLayout.resv_map_size FdtLayout.struct_size FdtLayout.strings_size].
  change (wrap64 (40 + 16)) with 56. pose proof (padding_bound (flat_size r)). unfold aligned.
  unfold flat_size, U32 in Hsz.
  replace (wrap64 (56 + Z.of_nat (struct_len r))) with (Z.of_nat (56 + struct_len r))
    by (unfold wrap64; rewrite Z.mod_small; lia).
  unfold to_u32, U32. rewrite !(proj2 (Z.ltb_lt _ _)) by (unfold flat_size in *; lia). done.
Qed.

Lemma split_zero n k :
  (n ≤ k)%nat → Part.split (Z.of_nat n) (replicate k 0) = Returns (Part.mk [] (replicate n 0), replicate (k - n) 0).
Proof.
  intros Hn. unfold Part.split, len. rewrite length_replicate. replace (Z.of_nat n <=? Z.of_nat k) with true by lia.
  by rewrite Nat2Z.id, take_replicate, drop_replicate, Nat.min_l by lia.
Qed.
Lemma writer_new_eq S N k :
  (56 + S + N ≤ k)%nat →
  FdtWriter.new (replicate k 0) (FdtLayout.mk 40 16 (Z.of_nat S) (Z.of_nat N)) =
  Returns (W (Part.mk [] (replicate 40 0)) (Part.mk [] (replicate 16 0)) (replicate (k - (56 + S + N)) 0) [] S [] N).
Proof.
  intros Hk. unfold FdtWriter.new.
  cbn [FdtLayout.header_size FdtLayout.resv_map_size FdtLayout.struct_size FdtLayout.strings_size].
  pose proof (split_zero 40 k ltac:(lia)) as H1. pose proof (split_zero 16 (k - 40) ltac:(lia)) as H2.
  change (Z.of_nat 40) with 40 in H1. change (Z.of_nat 16) with 16 in H2. rewrite H1, obind_ret, H2, obind_ret.
  rewrite split_zero, obind_ret by lia. rewrite split_zero, obind_ret by lia.
  unfold W. do 3 f_equal. lia.
Qed.

Lemma write_to_eq d r k :
  models d (Some r) → fits d → Z.of_nat (flat_size r) + 4 < U32 → (flat_size r ≤ k)%nat →
  (s ← DeviceTreeSerializer.new d; DeviceTreeSerializer.write_to s (replicate k 0)) = Returns (blob_of k r).
Proof.
  intros Hm Hf Hsz Hk. rewrite (layout_eq d r) by (done || lia). rewrite obind_ret.
  unfold DeviceTreeSerializer.write_to. fold (layout_of r). rewrite header_eq by done. unfold layout_of.
  cbn [DeviceTreeSerializer.layout DeviceTreeSerializer.tree]. rewrite writer_new_eq, !obind_ret by done.
  fold (flat_size r). destruct (length_tokens d r Hm Hf) as (Hlen & _ & Hok).
  unfold FdtWriter.push_header. cbn [FdtWriter.header_buf W]. rewrite put_all_zero, !obind_ret by (cbn; lia).
  unfold FdtWriter.push_resv_map. cbn [FdtWriter.header_buf FdtWriter.resv_map_buf W].
  rewrite put_all_zero, !obind_ret by (cbn; lia).
  cbn [FdtWriter.header_buf FdtWriter.resv_map_buf FdtWriter.struct_buf FdtWriter.strings_buf FdtWriter.string_pos
       FdtWriter.tail W]. cbn [length FdtHeader.to_array FdtResvMap.to_array Nat.mul Nat.add Nat.sub replicate].
  set (hd := Part.mk _ []). set (rm := Part.mk ([] ++ (FdtResvMap.to_array _ ≫= _)) []).
  change (FdtWriter.mk hd rm _ _ _ _)
    with (W hd rm (replicate (k - flat_size r) 0) [] (struct_len r) [] (strings_len r)).
  unfold DeviceTree.iter. rewrite (models_root _ _ Hm). cbn [fmap option_fmap option_map].
  assert (length (visits None 0 0 r) ≤ length (Arena.vals (DeviceTree.node_arena d)))%nat as Hle.
  { rewrite visits_length. apply stored_length; [apply Hm|rewrite ids_par; apply Hm]. }
  replace (S (length (Arena.vals (DeviceTree.node_arena d))))
    with (length (visits None 0 0 r) + S (length (Arena.vals (DeviceTree.node_arena d)) - length (visits None 0 0 r)))%nat
    by lia.
  pose proof (length_strings r) as Hstr. unfold flat_size in Hsz.
  erewrite push_nodes_eq; [|apply runs_from; [apply Hm|apply Hm|exact Hf]|done|exact Hok| | | |].
  2: { rewrite visits_nodes. apply small_nodes. unfold flat_size. lia. }
  2: { fold (strings r). unfold len. rewrite Hstr. cbn. lia. }
  2: { change (len []) with 0. fold (tokens r). lia. }
  2: { fold (strings r). lia. }
  change (len []) with 0. fold (tokens r) (strings r). rewrite obind_ret. unfold FdtToken.new_end.
  rewrite push_token_eq, obind_ret; [|done|cbn [encode]; rewrite length_to_be_bytes; lia].
  f_equal. unfold FdtWriter.buffer, Part.all, blob_of, W. 
  cbn [FdtWriter.header_buf FdtWriter.resv_map_buf FdtWriter.struct_buf FdtWriter.strings_buf
       FdtWriter.tail Part.done Part.rest hd rm app].
  rewrite !app_nil_r. f_equal. f_equal.
  replace (strings_len r - length (strings r))%nat with O by lia.
  replace (struct_len r - length (encode_all (tokens r)) - length (encode FdtToken.End))%nat with O
    by (cbn [encode]; rewrite length_to_be_bytes; lia).
  cbn [replicate]. by rewrite !app_nil_r.
Qed.

(** ** Flattened device trees (Devicetree Specification, version 0.3, chapter 5) *)
Definition flat_token (t : ParsedTok.t) : bytes :=
  match t with
  | ParsedTok.BeginNode s => to_be_bytes 4 1 ++ pad4 (s ++ [0])
  | ParsedTok.EndNode => to_be_bytes 4 2
  | ParsedTok.Prop_ v off => to_be_bytes 4 3 ++ to_be_bytes 4 (len v) ++ to_be_bytes 4 off ++ pad4 v
  | ParsedTok.Nop => to_be_bytes 4 4
  end.
Definition be32_at (blob : bytes) (off : nat) : Z := from_be_bytes (take 4 (drop off blob)).
(** The string at an offset of the strings block. *)
Fixpoint c_str_at (bs : bytes) : option bytes :=
  match bs with
  | [] => None
  | b :: bs => if b =? 0 then Some [] else option_map (cons b) (c_str_at bs)
  end.
Definition string_in (strs : bytes) (off : Z) : option bytes := c_str_at (drop (Z.to_nat off) strs).
Definition small_token (t : ParsedTok.t) : Prop :=
  match t with ParsedTok.Prop_ v off => len v < U32 ∧ 0 ≤ off < U32 | _ => True end.

Record is_fdt (blob : bytes) (ts : list ParsedTok.t) (strs : bytes) : Prop := {
  fdt_magic : be32_at blob 0 = FDT_MAGIC;
  fdt_totalsize : be32_at blob 4 ≤ len blob;
  fdt_version : be32_at blob 20 = 17;
  fdt_last_comp_version : be32_at blob 24 = 16;
  fdt_struct_aligned : be32_at blob 8 mod 4 = 0;
  fdt_rsvmap_aligned : be32_at blob 16 mod 8 = 0;
  (* No reserved regions. *)
  fdt_rsvmap : take 16 (drop (Z.to_nat (be32_at blob 16)) blob) = replicate 16 0;
  fdt_struct : take (Z.to_nat (be32_at blob 36)) (drop (Z.to_nat (be32_at blob 8)) blob) =
               (ts ≫= flat_token) ++ to_be_bytes 4 9;
  fdt_strings : take (Z.to_nat (be32_at blob 32)) (drop (Z.to_nat (be32_at blob 12)) blob) = strs;
  fdt_small : Forall small_token ts;
  (* The tokens are those of one tree. *)
  fdt_tree : ∃ r, Forall2 (token_for (string_in strs)) ts (tags r)
}.

(** What fdt-rs returns for such a tree. *)
Class FdtParser := {
  parse_iter : bytes → list ParsedTok.t;
  string_at_offset : bytes → Z → option bytes
}.
Class FdtParserLaws (P : FdtParser) : Prop := {
  parse_iter_law blob ts strs : is_fdt blob ts strs → parse_iter blob = ts;
  string_at_offset_law blob ts strs off s :
    is_fdt blob ts strs → string_in strs off = Some s → string_at_offset blob off = Some s
}.

(** ** The result of the serializer is one *)
Lemma from_to_be n v : 0 ≤ v < 256 ^ Z.of_nat n → from_be_bytes (to_be_bytes n v) = v.
Proof.
  unfold from_be_bytes. revert v. induction n as [|n IH]; intros v Hv; [cbn in *; lia|].
  cbn [to_be_bytes]. rewrite fold_left_app. cbn [fold_left].
  rewrite Nat2Z.inj_succ, Z.pow_succ_r in Hv by lia. rewrite IH by mod_lia. mod_lia.
Qed.
Lemma from_to_be32 v : 0 ≤ v < U32 → from_be_bytes (to_be_bytes 4 v) = v.
Proof. intros Hv. apply from_to_be. exact Hv. Qed.

Definition parsed (t : FdtToken.t) : ParsedTok.t :=
  match t with
  | FdtToken.NodeStart raw => ParsedTok.BeginNode (removelast raw)
  | FdtToken.NodeEnd => ParsedTok.EndNode
  | FdtToken.Prop_ _ off v => ParsedTok.Prop_ v off
  | FdtToken.End => ParsedTok.Nop
  end.

Lemma c_str_at_app s rest : 0 ∉ s → c_str_at (s ++ 0 :: rest) = Some s.
Proof.
  induction s as [|b s IH]; intros Hs; [done|]. apply not_elem_of_cons in Hs as [Hb Hs]. cbn [app c_str_at].
  replace (b =? 0) with false by lia. by rewrite IH.
Qed.
Lemma string_in_app pre s post : 0 ∉ s → string_in (pre ++ (s ++ [0]) ++ post) (len pre) = Some s.
Proof.
  intros Hs. unfold string_in, len. rewrite Nat2Z.id, drop_app_length, <-app_assoc. by apply c_str_at_app.
Qed.

Lemma prop_tokens_for ps pre post :
  Forall clean_tag (map prop_tag ps) →
  Forall2 (token_for (string_in (pre ++ names ps ++ post))) (map parsed (prop_tokens (len pre) ps)) (map prop_tag ps).
Proof.
  revert pre. induction ps as [|p ps IH]; intros pre Hc; [constructor|].
  apply list.Forall_cons in Hc as [(s & Hs & Hs0 & Hu) Hc]. cbn [prop_tokens map].
  change (names (p :: ps)) with (DeviceTreeProp.name_raw p ++ names ps). rewrite Hs in *.
  constructor.
  - split; [done|]. exists s. rewrite <-app_assoc, string_in_app by done. done.
  - rewrite <-app_assoc, app_assoc. rewrite <-len_app. by apply IH.
Qed.
Lemma visit_tokens_for l depth pre post :
  Forall clean_tag (visit_tags depth l) →
  Forall2 (token_for (string_in (pre ++ visit_names l ++ post))) (map parsed (visit_tokens (len pre) depth l))
          (visit_tags depth l).
Proof.
  revert depth pre. induction l as [|[n next] l IH]; intros depth pre Hc; [constructor|].
  cbn [visit_tokens visit_tags] in *. apply list.Forall_cons in Hc as [(s & Hs & Hs0 & Hu) Hc].
  apply list.Forall_app in Hc as [Hcp Hc]. apply list.Forall_app in Hc as [_ Hc].
  change (visit_names ((n, next) :: l)) with (names (DeviceTreeNode.props n) ++ visit_names l).
  rewrite <-app_assoc. unfold node_tokens. rewrite !map_app. cbn [map]. constructor.
  { cbn [parsed token_for]. rewrite Hs, removelast_last. done. }
  apply Forall2_app; [by apply prop_tokens_for|]. apply Forall2_app.
  - unfold end_tokens. destruct (depth <? next); [constructor|]. constructor; [done|].
    induction (Z.to_nat (depth - next)); by constructor.
  - rewrite app_assoc, <-len_app. by apply IH.
Qed.

Definition flat_ok (t : FdtToken.t) : Prop := encode t = flat_token (parsed t) ∧ small_token (parsed t).
Lemma prop_tokens_flat ps pos :
  Forall (λ p, len (DeviceTreeProp.value_raw p) < U32) ps → 0 ≤ pos → pos + len (names ps) < U32 →
  Forall flat_ok (prop_tokens pos ps).
Proof.
  revert pos. induction ps as [|p ps IH]; intros pos Hv Hp Hb; [constructor|].
  apply list.Forall_cons in Hv as [Hv Hvs]. change (names (p :: ps)) with (DeviceTreeProp.name_raw p ++ names ps) in Hb.
  rewrite len_app in Hb. assert (0 ≤ len (names ps) ∧ 0 ≤ len (DeviceTreeProp.name_raw p)) by (unfold len; lia).
  constructor; [split; [done|]; cbn; lia|]. apply IH; [done|lia|lia].
Qed.
Lemma visit_tokens_flat l pos depth :
  Forall clean_tag (visit_tags depth l) → Forall small_node l.*1 → 0 ≤ pos → pos + len (visit_names l) < U32 →
  Forall flat_ok (visit_tokens pos depth l).
Proof.
  revert pos depth. induction l as [|[n next] l IH]; intros pos depth Hc Hs Hp Hb; [constructor|].
  cbn [visit_tokens visit_tags fmap list_fmap fst] in *.
  apply list.Forall_cons in Hc as [(s & Hraw & Hs0 & Hu) Hc].
  apply list.Forall_app in Hc as [_ Hc]. apply list.Forall_app in Hc as [_ Hc].
  apply list.Forall_cons in Hs as [[_ Hv] Hs].
  change (visit_names ((n, next) :: l)) with (names (DeviceTreeNode.props n) ++ visit_names l) in Hb.
  rewrite len_app in Hb.
  assert (0 ≤ len (names (DeviceTreeNode.props n)) ∧ 0 ≤ len (visit_names l)) by (unfold len; lia).
  apply list.Forall_app. split; [|apply list.Forall_app; split].
  - constructor; [|apply prop_tokens_flat; [done|lia|lia]].
    split; [|done]. cbn [encode parsed flat_token]. by rewrite Hraw, removelast_last.
  - unfold end_tokens. destruct (depth <? next); [constructor|]. constructor; [done|]. by apply Forall_replicate.
  - apply IH; [done|done|lia|lia].
Qed.

Lemma be32_at_field vals rest i v :
  vals !! i = Some v → 0 ≤ v < U32 → be32_at ((vals ≫= to_be_bytes 4) ++ rest) (4 * i) = v.
Proof.
  unfold be32_at. revert i. induction vals as [|x vals IH]; intros i Hi Hv; [done|].
  cbn [mbind list_bind]. rewrite <-app_assoc. destruct i as [|i].
  - cbn in Hi. simplify_eq. rewrite Nat.mul_0_r, drop_0, take_app_length' by by rewrite length_to_be_bytes.
    by apply from_to_be32.
  - replace (4 * S i)%nat with (4 + 4 * i)%nat by lia.
    rewrite <-drop_drop, drop_app_length' by by rewrite length_to_be_bytes. by apply IH.
Qed.
Lemma length_be32s vals : length (vals ≫= to_be_bytes 4) = (4 * length vals)%nat.
Proof.
  induction vals as [|x vals IH]; [done|]. cbn [mbind list_bind]. rewrite length_app, length_to_be_bytes.
  cbn in *. lia.
Qed.

Lemma blob_fields r k :
  Z.of_nat (flat_size r) + 4 < U32 →
  let blob := blob_of k r in
  be32_at blob 0 = FDT_MAGIC ∧ be32_at blob 4 = Z.of_nat (aligned (flat_size r)) ∧ be32_at blob 8 = 56 ∧
  be32_at blob 12 = Z.of_nat (56 + struct_len r) ∧ be32_at blob 16 = 40 ∧ be32_at blob 20 = 17 ∧
  be32_at blob 24 = 16 ∧ be32_at blob 32 = Z.of_nat (strings_len r) ∧ be32_at blob 36 = Z.of_nat (struct_len r).
Proof.
  intros Hsz. cbv zeta. pose proof (padding_bound (flat_size r)). unfold U32 in Hsz.
  assert (∀ i v, FdtHeader.to_array (header_of r) !! i = Some v → 0 ≤ v < U32 → be32_at (blob_of k r) (4 * i) = v)
    as Hat by (intros i v; apply be32_at_field).
  unfold aligned, U32 in *. split_and!.
  - by apply (Hat 0%nat).
  - apply (Hat 1%nat); [done|lia].
  - by apply (Hat 2%nat).
  - apply (Hat 3%nat); [done|unfold flat_size in Hsz; lia].
  - by apply (Hat 4%nat).
  - by apply (Hat 5%nat).
  - by apply (Hat 6%nat).
  - apply (Hat 8%nat); [done|unfold flat_size in Hsz; lia].
  - apply (Hat 9%nat); [done|unfold flat_size in Hsz; lia].
Qed.
Lemma length_blob d r k :
  models d (Some r) → fits d → (flat_size r ≤ k)%nat → length (blob_of k r) = k.
Proof.
  intros Hm Hf Hk. destruct (length_tokens d r Hm Hf) as (Hlen & _ & _). unfold blob_of.
  rewrite !length_app, length_be32s, !length_replicate, length_strings. cbn [encode FdtHeader.to_array length].
  rewrite length_to_be_bytes. unfold flat_size in *. lia.
Qed.

Lemma blob_is_fdt d r k :
  models d (Some r) → fits d → Forall clean_tag (tags r) →
  Z.of_nat (flat_size r) + 4 < U32 → (aligned (flat_size r) ≤ k)%nat →
  is_fdt (blob_of k r) (map parsed (tokens r)) (strings r).
Proof.
  intros Hm Hf Hclean Hsz Hk. destruct (length_tokens d r Hm Hf) as (Hlen & Htags & Hok).
  pose proof (length_strings r) as Hstr. unfold aligned in Hk.
  assert (Forall flat_ok (tokens r)) as Hflat.
  { apply visit_tokens_flat; [by rewrite Htags|rewrite visits_nodes; apply small_nodes; lia|done|].
    fold (strings r). unfold len. unfold flat_size in Hsz. lia. }
  assert (length (FdtHeader.to_array (header_of r) ≫= to_be_bytes 4) = 40%nat) as Hh by by rewrite length_be32s.
  destruct (blob_fields r k Hsz) as (H0 & H1 & H2 & H3 & H4 & H5 & H6 & H8 & H9).
  constructor; [done| |done|done|by rewrite H2|by rewrite H4|..].
  - rewrite H1. unfold len. rewrite (length_blob d r k) by (done || lia). unfold aligned. lia.
  - rewrite H4. change (Z.to_nat 40) with 40%nat. unfold blob_of. by rewrite drop_app_length'.
  - rewrite H2, H9, Nat2Z.id. change (Z.to_nat 56) with (40 + 16)%nat. unfold blob_of.
    rewrite <-drop_drop, (drop_app_length' _ _ 40) by done. rewrite (drop_app_length' _ _ 16) by done.
    rewrite take_app_length'; [|rewrite length_app; cbn [encode]; rewrite length_to_be_bytes; lia].
    f_equal. clear -Hflat. induction Hflat as [|t ts [Ht _] _ IH]; [done|].
    rewrite encode_all_cons. cbn [map mbind list_bind]. by rewrite IH, Ht.
  - rewrite H3, H8, !Nat2Z.id. replace (56 + struct_len r)%nat with (40 + (16 + struct_len r))%nat by lia.
    unfold blob_of. rewrite <-drop_drop, (drop_app_length' _ _ 40) by done.
    rewrite <-drop_drop, (drop_app_length' _ _ 16) by done.
    rewrite (drop_app_length' (_ ++ _)) by (rewrite length_app; cbn [encode]; rewrite length_to_be_bytes; lia).
    by rewrite take_app_length'.
  - clear -Hflat. induction Hflat as [|t ts [_ Ht] _ IH]; by constructor.
  - exists r. rewrite <-Htags. pose proof (visit_tokens_for (visits None 0 0 r) 0 [] []) as Hv.
    rewrite app_nil_r in Hv. apply Hv. by rewrite Htags.
Qed.

(** ** Reading it back *)
Lemma token_for_impl f g ts gs :
  (∀ off s, f off = Some s → g off = Some s) → Forall2 (token_for f) ts gs → Forall2 (token_for g) ts gs.
Proof.
  intros Hfg. apply Forall2_impl. intros t [n|n v|] Ht; destruct t; try done.
  destruct Ht as (? & s & Hs & ?). split; [done|]. exists s. split; [by apply Hfg|done].
Qed.

(** C26: A device tree survives serialization.  For a tree whose names have no inner
    null and whose flattened form is smaller than 4 GiB, the computed size is exactly
    what is written: the serializer does not panic on a cleared buffer of that size or
    more, and what it writes is a flattened device tree.  Reading it with a parser of
    flattened device trees gives a tree with the same names, properties and children
    in the same order, unless memory runs out. *)
Theorem device_tree_roundtrip {P : FdtParser} `{!FdtParserLaws P} {H} `{Heap H} d r k (h : H) :
  models d (Some r) → fits d → Forall clean_tag (tags r) →
  Z.of_nat (flat_size r) + 4 < U32 → (aligned (flat_size r) ≤ k)%nat →
  ∃ s blob res h',
    DeviceTreeSerializer.new d = Returns s ∧
    DeviceTreeSerializer.output_size s = Z.of_nat (aligned (flat_size r)) ∧
    DeviceTreeSerializer.write_to s (replicate k 0) = Returns blob ∧ length blob = k ∧
    DeviceTree.from (string_at_offset blob) (parse_iter blob) h = Returns (res, h') ∧
    match res with
    | Ok d' => ∃ r', erase r' = erase r ∧ models d' (Some r')
    | Err e => e = DeviceTreeError.AllocError
    end.
Proof.
  intros Hm Hf Hclean Hsz Hk. pose proof (layout_eq d r Hm Hf ltac:(lia)) as Hl.
  pose proof (write_to_eq d r k Hm Hf Hsz) as Hw. rewrite Hl, obind_ret in Hw. unfold aligned in Hk.
  pose proof (blob_is_fdt d r k Hm Hf Hclean Hsz Hk) as Hfdt.
  assert (Forall2 (token_for (string_at_offset (blob_of k r))) (parse_iter (blob_of k r)) (tags r)) as Ht.
  { rewrite (parse_iter_law _ _ _ Hfdt). eapply token_for_impl.
    { intros off s. by apply (string_at_offset_law _ _ _ _ _ Hfdt). }
    destruct (length_tokens d r Hm Hf) as (_ & Htags & _). rewrite <-Htags.
    pose proof (visit_tokens_for (visits None 0 0 r) 0 [] []) as Hv.
    rewrite app_nil_r in Hv. apply Hv. by rewrite Htags. }
  destruct (from_tree (H := H) _ _ _ Ht h) as (res & d' & h' & Heq & Hres).
  eexists _, (blob_of k r), (match res with Ok _ => Ok d' | Err e => Err e end), h'.
  split; [exact Hl|]. split; [by apply output_size_eq|]. split; [apply Hw; lia|].
  split; [apply (length_blob d r k); [done|done|lia]|]. split.
  - unfold DeviceTree.from, local, mbind, M_bind. rewrite Heq. by destruct res as [[]|].
  - by destruct res.
Qed.

(** ** A parser *)
Fixpoint parse_struct (fuel : nat) (bs : bytes) : list ParsedTok.t :=
  match fuel with
  | O => []
  | S fuel =>
      let code := from_be_bytes (take 4 bs) in
      let bs := drop 4 bs in
      if code =? 1 then
        match c_str_at bs with
        | Some s => ParsedTok.BeginNode s :: parse_struct fuel (drop (length (pad4 (s ++ [0]))) bs)
        | None => []
        end
      else if code =? 2 then ParsedTok.EndNode :: parse_struct fuel bs
      else if code =? 3 then
        let v := take (Z.to_nat (from_be_bytes (take 4 bs))) (drop 8 bs) in
        ParsedTok.Prop_ v (from_be_bytes (take 4 (drop 4 bs)))
          :: parse_struct fuel (drop (length (pad4 v)) (drop 8 bs))
      else if code =? 4 then ParsedTok.Nop :: parse_struct fuel bs
      else []
  end.
#[export] Instance reference_parser : FdtParser := {|
  parse_iter blob := parse_struct (length blob) (drop (Z.to_nat (be32_at blob 8)) blob);
  string_at_offset blob off :=
    string_in (take (Z.to_nat (be32_at blob 32)) (drop (Z.to_nat (be32_at blob 12)) blob)) off
|}.

Lemma c_str_at_pad s rest : 0 ∉ s → c_str_at (pad4 (s ++ [0]) ++ rest) = Some s.
Proof. intros Hs. unfold pad4. rewrite <-!app_assoc. by apply c_str_at_app. Qed.
Lemma parse_struct_eq ts rest fuel :
  Forall small_token ts → Forall (λ t, match t with ParsedTok.BeginNode s => 0 ∉ s | _ => True end) ts →
  (length ts < fuel)%nat → parse_struct fuel ((ts ≫= flat_token) ++ to_be_bytes 4 9 ++ rest) = ts.
Proof.
  intros Hsm. revert fuel. induction Hsm as [|t ts Ht Hsm IH]; intros fuel Hs Hf; (destruct fuel as [|fuel]; [cbn in Hf; lia|]).
  { done. }
  apply list.Forall_cons in Hs as [Hs Hss]. cbn [length] in Hf. cbn [mbind list_bind]. rewrite <-app_assoc.
  destruct t as [s| |v off|]; cbn [flat_token]; rewrite <-?app_assoc; cbn [parse_struct];
    rewrite (take_app_length' (to_be_bytes 4 _) _ 4), (drop_app_length' (to_be_bytes 4 _) _ 4) by done;
    rewrite from_to_be32 by done; cbn [Z.eqb Pos.eqb].
  - rewrite c_str_at_pad by done. rewrite drop_app_length. f_equal. apply IH; [done|lia].
  - f_equal. apply IH; [done|lia].
  - destruct Ht as [Hv Hoff]. rewrite (take_app_length' (to_be_bytes 4 _) _ 4) by done.
    rewrite from_to_be32 by (unfold len in *; lia). change 8%nat with (4 + 4)%nat.
    rewrite <-drop_drop, !(drop_app_length' (to_be_bytes 4 _) _ 4), (take_app_length' (to_be_bytes 4 _) _ 4) by done.
    rewrite from_to_be32 by done. unfold len. rewrite Nat2Z.id.
    assert (∀ r, take (length v) (pad4 v ++ r) = v) as -> by (intros r; unfold pad4; by rewrite <-app_assoc, take_app_length).
    rewrite drop_app_length. f_equal. apply IH; [done|lia].
  - f_equal. apply IH; [done|lia].
Qed.
Lemma length_flat ts : (4 * length ts ≤ length (ts ≫= flat_token))%nat.
Proof.
  induction ts as [|t ts IH]; [done|]. cbn [mbind list_bind length]. rewrite length_app.
  destruct t; cbn [flat_token]; rewrite ?length_app, ?length_to_be_bytes; cbn in *; lia.
Qed.

#[export] Instance reference_parser_laws : FdtParserLaws reference_parser.
Proof.
  split.
  - intros blob ts strs Hf. cbn [parse_iter reference_parser].
    destruct Hf as [_ _ _ _ _ _ _ Hst _ Hsm [r Hr]].
    set (n := Z.to_nat (be32_at blob 36)) in *. set (m := Z.to_nat (be32_at blob 8)) in *.
    pose proof (take_drop n (drop m blob)) as Htd. rewrite Hst, <-app_assoc in Htd. rewrite <-Htd.
    apply parse_struct_eq; [done| |].
    + clear -Hr. induction Hr as [|t g ts gs Ht _ IH]; constructor; [|done].
      destruct t as [s|?|?|], g; try done. by destruct Ht as (_ & ? & _).
    + pose proof (length_flat ts). apply (f_equal length) in Htd. rewrite !length_app, !length_drop in Htd.
      rewrite length_to_be_bytes in Htd. lia.
  - intros blob ts strs off s Hf Hs. cbn [string_at_offset reference_parser].
    by rewrite (fdt_strings _ _ _ Hf).
Qed.

Definition is_clean (g : tag) : bool :=
  match g with
  | TagBegin n | TagProp n _ =>
      let s := removelast n in bool_decide (n = s ++ [0] ∧ 0 ∉ s) && Str.is_utf8 s
  | TagEnd => true
  end.
Lemma is_clean_ok l : forallb is_clean l = true → Forall clean_tag l.
Proof.
  rewrite forallb_forall, list.Forall_forall. intros Hl g Hg%list_elem_of_In%Hl.
  destruct g as [n|n v|]; [..|done]; apply andb_prop in Hg as [[]%bool_decide_eq_true Hu]; by exists (removelast n).
Qed.
Lemma device_tree_roundtrip_witness :
  ∃ s blob res h',
    DeviceTreeSerializer.new example_tree = Returns s ∧
    DeviceTreeSerializer.output_size s = Z.of_nat (aligned (flat_size example_rose)) ∧
    DeviceTreeSerializer.write_to s (replicate 200 0) = Returns blob ∧ length blob = 200%nat ∧
    DeviceTree.from (string_at_offset blob) (parse_iter blob) [] = Returns (res, h') ∧
    match res with
    | Ok d' => ∃ r', erase r' = erase example_rose ∧ models d' (Some r')
    | Err e => e = DeviceTreeError.AllocError
    end.
Proof.
  apply (device_tree_roundtrip example_tree example_rose 200 []).
  - apply example_models.
  - done.
  - apply is_clean_ok. vm_compute. reflexivity.
  - vm_compute. reflexivity.
  - apply (bool_decide_unpack (aligned (flat_size example_rose) ≤ 200)%nat). vm_compute. exact I.
Defined.

(** The example comes back, so the result above is not an error. *)
Example example_comes_back :
  match (s ← DeviceTreeSerializer.new example_tree; DeviceTreeSerializer.write_to s (replicate 200 0)) with
  | Returns blob =>
      match DeviceTree.from (string_at_offset blob) (parse_iter blob) [] with
      | Returns (Ok d, _) => d = example_tree
      | _ => False
      end
  | Panics => False
  end.
Proof. vm_compute. reflexivity. Qed.
