(* ===== verification/FdtRegions.v ===== *)
(** * The memory that a flattened device tree describes

    The iterator over the memory regions of the tree that firmware passes. *)
From Stdlib Require Import ZifyBool.
From stdpp Require Import strings.
From S2P Require Import Prelude DeviceTree Fdt.
Open Scope string_scope.
Open Scope list_scope.
Open Scope Z_scope.
Import MemoryRegionIter.

(** A property [reg] with 64-bit cells. *)
Definition cells (regs : list FdtMemoryRegion.t) : list Z :=
  regs ≫= λ r, [FdtMemoryRegion.base r; FdtMemoryRegion.size r].
Definition reg_of (p : DevTreeProp.t) (regs : list FdtMemoryRegion.t) : Prop :=
  DevTreeProp.length p = 16 * Z.of_nat (length regs) ∧
  ∀ i, 0 ≤ i → DevTreeProp.u64 p i = cells regs !! Z.to_nat i.

Lemma length_cells regs : length (cells regs) = (2 * length regs)%nat.
Proof.
  induction regs as [|r regs IH]; [done|].
  change (cells (r :: regs)) with (FdtMemoryRegion.base r :: FdtMemoryRegion.size r :: cells regs). cbn [length]. lia.
Qed.
Lemma cells_at l r rest j : (j < 2)%nat →
  cells (l ++ r :: rest) !! (2 * length l + j)%nat = [FdtMemoryRegion.base r; FdtMemoryRegion.size r] !! j.
Proof.
  intros Hj. unfold cells. rewrite bind_app. rewrite lookup_app_r; fold (cells l); rewrite length_cells; [|lia].
  cbn [mbind list_bind]. replace (2 * length l + j - 2 * length l)%nat with j by lia.
  by rewrite lookup_app_l by (cbn; lia).
Qed.

(** The regions of the property that the iterator is in. *)
Lemma regions_in_prop p regs l rest nodes fuel :
  reg_of p regs → regs = l ++ rest → rest ≠ [] →
  regions (length rest + fuel) (mk nodes (Some p) (2 * Z.of_nat (length l))) =
  rest ++ regions fuel (mk nodes None (2 * Z.of_nat (length regs))).
Proof.
  intros [Hlen Hu]. revert l. induction rest as [|r rest IH]; intros l Heq Hne; [done|].
  cbn [length Nat.add regions]. unfold next. cbn [prop index].
  assert (∀ j, (j < 2)%nat → DevTreeProp.u64 p (2 * Z.of_nat (length l) + Z.of_nat j) =
            [FdtMemoryRegion.base r; FdtMemoryRegion.size r] !! j) as Hat.
  { intros j Hj. rewrite Hu, Heq by lia. rewrite <-(cells_at l r rest) by done. f_equal. lia. }
  pose proof (Hat 0%nat ltac:(lia)) as H0. pose proof (Hat 1%nat ltac:(lia)) as H1.
  rewrite Z.add_0_r in H0. change (Z.of_nat 1) with 1 in H1. rewrite H0, H1. cbn [lookup list_lookup].
  cbn [inner]. rewrite Hlen. subst regs. rewrite length_app. cbn [length app].
  replace (FdtMemoryRegion.mk _ _) with r by by destruct r. f_equal.
  destruct rest as [|r2 rest].
  - replace (_ <=? _) with true by (cbn [length]; lia). cbn [length Nat.add app].
    by replace (2 * Z.of_nat (length l) + 2) with (2 * Z.of_nat (length l + 1)) by lia.
  - replace (_ <=? _) with false by (cbn [length]; lia).
    replace (2 * Z.of_nat (length l) + 2) with (2 * Z.of_nat (length (l ++ [r])))
      by (rewrite length_app; cbn [length]; lia).
    rewrite IH; [|by rewrite <-app_assoc|done]. by rewrite length_app.
Qed.

Definition later_regs_at_most (k : nat) (l : list DevTreeNode.t) : Prop :=
  Forall (λ m, ∀ q, find_prop [] (Str.lit "reg") m = Ok (Some q) →
             ∃ regs, reg_of q regs ∧ (length regs ≤ k)%nat) l.

Lemma find_in_rest {A} p (l : list A) x l' : FallibleIter.find_in p l = Some (x, l') → ∃ pre, l = pre ++ x :: l'.
Proof.
  induction l as [|y l IH]; [done|]. cbn. destruct (p y); intros Heq.
  - simplify_eq. by exists [].
  - destruct (IH Heq) as [pre ->]. by exists (y :: pre).
Qed.


(** Two nodes with one region each: the second region is not seen. *)
Definition reg_prop (regs : list FdtMemoryRegion.t) : DevTreeProp.t :=
  DevTreeProp.mk (Some (Str.lit "reg")) (λ _, None)
    (λ i, if i <? 0 then None else cells regs !! Z.to_nat i) (Fallible [] false) (16 * Z.of_nat (length regs)).
Definition memory_node (name : bytes) (regs : list FdtMemoryRegion.t) : DevTreeNode.t :=
  DevTreeNode.mk (Some name) (Fallible [reg_prop regs] false).
Definition two_banks : DevTree.t :=
  DevTree.mk (Fallible [memory_node (Str.lit "memory@80000000") [FdtMemoryRegion.mk 0x80000000 0x40000000];
                        DevTreeNode.mk (Some (Str.lit "chosen")) (Fallible [] false);
                        memory_node (Str.lit "memory@100000000") [FdtMemoryRegion.mk 0x100000000 0x40000000]] false)
    (λ _, Fallible [] false) [] (λ _, None) [].
Lemma reg_prop_of regs : reg_of (reg_prop regs) regs.
Proof. split; [done|]. intros i Hi. cbn. by replace (i <? 0) with false by lia. Qed.

