(* ===== verification/ImsicCore.v ===== *)
(** * The IMSIC device (drivers/src/imsic/core.rs)

    The hardware is an interface.  A CPU sees the registers of one of its guest
    interrupt files, which VGEIN selects, through an indirect access (VSISELECT and
    VSIREG); a store to the page of an interrupt file makes an interrupt pending in
    it.  Every operation names the CPU that runs it. *)
From S2P Require Import Prelude RiscvPages Imsic.

Module ImsicRegister.
Inductive t := Eidelivery | Eithreshold | Eip (i : Z) | Eie (i : Z).
#[global] Instance eq_dec : EqDecision t.
Proof. solve_decision. Defined.
Definition to_raw (r : t) : Z :=
  match r with
  | Eidelivery => 0x70
  | Eithreshold => 0x72
  | Eip i => 0x80 + i * 2
  | Eie i => 0xc0 + i * 2
  end.
End ImsicRegister.
Import ImsicRegister(Eidelivery, Eithreshold, Eip, Eie).

Module ImsicInterruptId.
Inductive t := Ipi.
Definition raw (id : t) : Z := match id with Ipi => 1 end.
Definition from_raw (id : Z) : option t := if id =? 1 then Some Ipi else None.
Definition eie_register (id : t) : ImsicRegister.t := Eie (raw id / 64).
Definition eie_bit (id : t) : Z := raw id mod 64.
End ImsicInterruptId.

Definition CpuId := Z.

(** ** The hardware *)
Class ImsicHw (H : Type) := {
  hw_vgein : CpuId → H → Z;
  hw_set_vgein : CpuId → Z → H → H;
  (* VSISELECT is set, then VSIREG is accessed. *)
  hw_vsireg : CpuId → Z → H → Z;
  hw_set_vsireg : CpuId → Z → Z → H → H;
  (* The same for the interrupt file of the hypervisor. *)
  hw_set_sireg : CpuId → Z → Z → H → H;
  hw_sireg : CpuId → Z → H → Z;
  (* STOPEI is replaced with zero: the top interrupt is claimed. *)
  hw_claim : CpuId → H → Z * H;
  hw_seteipnum : Z → Z → H → H
}.

(** ** The device *)
Module ImsicPerCpu.
Record t := mk { group : Z; hart : Z; dt_index : Z; taken : bool }.
Definition set_taken (p : t) : t := mk (group p) (hart p) (dt_index p) true.
End ImsicPerCpu.

Module ImsicCpuState.
(** Indexed by [CpuId]. *)
Definition t := list (option ImsicPerCpu.t).
Definition get_cpu (s : t) (cpu : CpuId) : option ImsicPerCpu.t := mjoin (s !! Z.to_nat cpu).
Definition dt_index_to_cpu (s : t) (index : Z) : option CpuId :=
  option_map Z.of_nat (position (λ c, match c with Some c => ImsicPerCpu.dt_index c =? index | None => false end) s).
End ImsicCpuState.

Module Imsic.
Record t := mk {
  per_cpu : ImsicCpuState.t;
  mmio_regions : list PageAddrRange.t;
  geometry : ImsicGeometry.t;
  interrupt_ids : Z;
  phandle : Z
}.
Local Notation E := ImsicError.t.
Definition num_ei_regs (m : t) : Z := (interrupt_ids m + 63) / 64.
Definition with_per_cpu (s : ImsicCpuState.t) (m : t) : t :=
  mk s (mmio_regions m) (geometry m) (interrupt_ids m) (phandle m).

(** The guest interrupt files of a CPU, as a range of pages. *)
Definition take_guest_files (cpu : CpuId) : M t E PageAddrRange.t :=
  m ← get;
  pcpu ← lift (ok_or (ImsicCpuState.get_cpu (per_cpu m) cpu) (ImsicError.InvalidCpu cpu));
  if ImsicPerCpu.taken pcpu then err (ImsicError.GuestFilesTaken cpu)
  else
    put (with_per_cpu (<[Z.to_nat cpu := Some (ImsicPerCpu.set_taken pcpu)]> (per_cpu m)) m);;
    let start_loc := ImsicLocation.mk (ImsicPerCpu.group pcpu) (ImsicPerCpu.hart pcpu) (ImsicFileId.guest 0) in
    base_addr ← of_outcome (unwrap_option (ImsicGeometry.location_to_addr (geometry m) start_loc));
    mret (PageAddrRange.new base_addr (ImsicGeometry.guests_per_hart (geometry m))).

Definition phys_file_location (m : t) (cpu : CpuId) (file : ImsicFileId.t) : result E ImsicLocation.t :=
  match ImsicCpuState.get_cpu (per_cpu m) cpu with
  | None => Err (ImsicError.InvalidCpu cpu)
  | Some pcpu => Ok (ImsicLocation.mk (ImsicPerCpu.group pcpu) (ImsicPerCpu.hart pcpu) file)
  end.
Definition phys_file_addr (m : t) (cpu : CpuId) (file : ImsicFileId.t) : result E Z :=
  match phys_file_location m cpu file with
  | Ok loc => ok_or (ImsicGeometry.location_to_addr (geometry m) loc) ImsicError.InvalidGuestFile
  | Err e => Err e
  end.
Definition host_vm_geometry (m : t) : outcome ImsicGeometry.t :=
  let phys := geometry m in
  base ← unwrap_option (PageAddr.new (ImsicGeometry.base_addr phys));
  unwrap_result (ImsicGeometry.new base (ImsicGeometry.group_index_bits phys) (ImsicGeometry.group_index_shift phys)
                   (ImsicGeometry.hart_index_bits phys) (ImsicGeometry.guest_index_bits phys)
                   (wrap64 (ImsicGeometry.guests_per_hart phys - 1))).

Section hw.
Context {H : Type} `{ImsicHw H}.
Variable m : t.
Variable this_cpu : CpuId.

Definition send_ipi_raw (cpu : CpuId) (file : ImsicFileId.t) (id : Z) : M H E unit :=
  addr ← lift (phys_file_addr m cpu file);
  if (id =? 0) || (interrupt_ids m <=? id) then err (ImsicError.InvalidInterruptId id)
  else modify (hw_seteipnum addr id).
Definition send_ipi (cpu : CpuId) : M H E unit :=
  send_ipi_raw cpu ImsicFileId.Supervisor (ImsicInterruptId.raw ImsicInterruptId.Ipi).
Definition next_pending_interrupt (h : H) : option ImsicInterruptId.t * H :=
  let '(v, h) := hw_claim this_cpu h in
  (ImsicInterruptId.from_raw (Z.shiftr v 16), h).
Definition setup_this_cpu (h : H) : H :=
  let h := hw_set_sireg this_cpu (ImsicRegister.to_raw Eidelivery) 1 h in
  let h := hw_set_sireg this_cpu (ImsicRegister.to_raw Eithreshold) 0 h in
  let id := ImsicInterruptId.Ipi in
  let r := ImsicRegister.to_raw (ImsicInterruptId.eie_register id) in
  hw_set_sireg this_cpu r (Z.lor (hw_sireg this_cpu r h) (shl64 1 (ImsicInterruptId.eie_bit id))) h.

(** *** Guest interrupt files *)
Definition csr_read (r : ImsicRegister.t) (h : H) : Z := hw_vsireg this_cpu (ImsicRegister.to_raw r) h.
Definition csr_write (r : ImsicRegister.t) (v : Z) (h : H) : H := hw_set_vsireg this_cpu (ImsicRegister.to_raw r) v h.
Definition csr_set_bits (r : ImsicRegister.t) (mask : Z) (h : H) : H := csr_write r (Z.lor (csr_read r h) mask) h.

Definition guest_vgein (f : ImsicFileId.t) : option Z :=
  match f with
  | ImsicFileId.Guest g => if g <? ImsicGeometry.guests_per_hart (geometry m) then Some (ImsicFileId.bits f) else None
  | ImsicFileId.Supervisor => None
  end.
(** [get_guest_csrs], what is done with the access, and its drop. *)
Definition with_guest_csrs {S A} (f : ImsicFileId.t) (body : S * H → outcome (A * (S * H))) : M (S * H) E A :=
  λ '(s, h),
    match guest_vgein f with
    | None => Returns (Err ImsicError.InvalidGuestFile, (s, h))
    | Some vgein =>
        let old_vgein := hw_vgein this_cpu h in
        '(a, (s, h)) ← body (s, hw_set_vgein this_cpu vgein h);
        Returns (Ok a, (s, hw_set_vgein this_cpu old_vgein h))
    end.
(** [for i in 0..n] *)
Fixpoint loop {S} (body : Z → S → outcome S) (l : list Z) (s : S) : outcome S :=
  match l with
  | [] => Returns s
  | i :: l => s ← body i s; loop body l s
  end.
Definition ei_regs : list Z := seqZ 0 (num_ei_regs m).

Definition save_guest_file_prepare (f : ImsicFileId.t) : M (SwFile.t * H) E unit :=
  with_guest_csrs f (λ '(sw, h),
    sw ← loop (λ i sw, sw ← SwFile.set_eip i 0 sw; SwFile.set_eie i (csr_read (Eie i) h) sw) ei_regs sw;
    let sw := SwFile.set_eithreshold (csr_read Eithreshold h) sw in
    let sw := SwFile.set_eidelivery (csr_read Eidelivery h) sw in
    Returns (tt, (sw, csr_write Eidelivery 0 h))).
Definition save_guest_file_finish (f : ImsicFileId.t) : M (SwFile.t * H) E unit :=
  with_guest_csrs f (λ '(sw, h),
    sw ← loop (λ i sw, e ← SwFile.eip sw i; SwFile.set_eip i (Z.lor (csr_read (Eip i) h) e) sw) ei_regs sw;
    Returns (tt, (sw, h))).
Definition clear_guest_file (f : ImsicFileId.t) : M (SwFile.t * H) E unit :=
  with_guest_csrs f (λ '(sw, h),
    h ← loop (λ i h, Returns (csr_write (Eie i) 0 (csr_write (Eip i) 0 h))) ei_regs h;
    Returns (tt, (sw, csr_write Eidelivery 0 (csr_write Eithreshold 0 h)))).
Definition restore_guest_file (f : ImsicFileId.t) : M (SwFile.t * H) E unit :=
  with_guest_csrs f (λ '(sw, h),
    h ← loop (λ i h, p ← SwFile.eip sw i; e ← SwFile.eie sw i;
                     Returns (csr_write (Eie i) e (csr_set_bits (Eip i) p h))) ei_regs h;
    Returns (tt, (sw, csr_write Eidelivery (SwFile.eidelivery sw)
                        (csr_write Eithreshold (SwFile.eithreshold sw) h)))).
End hw.
End Imsic.
