(* ===== verification/ImsicCoreFacts.v ===== *)
(** * The guest interrupt files behind the IMSIC driver

    Laws of the hardware, the registers of a guest interrupt file as a state of their
    own, and what saving, clearing and restoring a file do to it.  Every operation
    leaves the other files and the selection of every CPU as they are. *)
From stdpp Require Import list.
From S2P Require Import Prelude RiscvPages Imsic ImsicCore.
Import ImsicRegister(Eidelivery, Eithreshold, Eip, Eie).
#[local] Set Default Proof Using "Type*".

(** A register of file [g] of a CPU, as it is read when the file is selected. *)
Definition hw_file {H} `{ImsicHw H} (c : CpuId) (g r : Z) (h : H) : Z := hw_vsireg c r (hw_set_vgein c g h).

(** ** Laws of the hardware *)
Class ImsicHwLaws (H : Type) `{ImsicHw H} (m : Imsic.t) := {
  (** The number of guest interrupt files of a hart. *)
  geilen : Z;
  geilen_guests : ImsicGeometry.guests_per_hart (Imsic.geometry m) ≤ geilen;
  geilen_max : geilen ≤ 63;
  vgein_range c h : 0 ≤ hw_vgein c h ≤ geilen;
  vgein_set c c' g h : 0 ≤ g ≤ geilen →
    hw_vgein c' (hw_set_vgein c g h) = if c =? c' then g else hw_vgein c' h;
  file_set_vgein c c' g g' r h : 0 ≤ g ≤ geilen → hw_file c' g' r (hw_set_vgein c g h) = hw_file c' g' r h;
  vsireg_selected c r h : hw_vsireg c r h = hw_file c (hw_vgein c h) r h;
  (** Registers hold the legal values only. *)
  conform : Z → Z → Z;
  conform_zero r : conform r 0 = 0;
  conform_file c g r h : 1 ≤ g ≤ geilen → conform r (hw_file c g r h) = hw_file c g r h;
  conform_eip id v : 0 < id < Imsic.interrupt_ids m →
    Z.testbit (conform (ImsicRegister.to_raw (Eip (id / 64))) v) (id mod 64) = Z.testbit v (id mod 64);
  vgein_set_vsireg c c' r v h : hw_vgein c' (hw_set_vsireg c r v h) = hw_vgein c' h;
  file_set_vsireg c c' g' r r' v h : hw_vgein c h ≠ 0 →
    hw_file c' g' r' (hw_set_vsireg c r v h) =
    if (c =? c') && (hw_vgein c h =? g') && (r =? r') then conform r v else hw_file c' g' r' h;
  (** A store to the page of a guest interrupt file makes an interrupt pending there. *)
  vgein_seteipnum a id c h : hw_vgein c (hw_seteipnum a id h) = hw_vgein c h;
  file_seteipnum a id c f c' g' r' h :
    0 ≤ c → 0 ≤ f < ImsicGeometry.guests_per_hart (Imsic.geometry m) →
    Imsic.phys_file_addr m c (ImsicFileId.Guest f) = Ok a → 0 < id < Imsic.interrupt_ids m →
    hw_file c' g' r' (hw_seteipnum a id h) =
    if (c =? c') && (f + 1 =? g') && (ImsicRegister.to_raw (Eip (id / 64)) =? r')
    then Z.lor (hw_file c' g' r' h) (Z.shiftl 1 (id mod 64)) else hw_file c' g' r' h
}.

(** ** Loops *)
Lemma loop_seqZ {A} (body : Z → A → outcome A) (I : Z → A → Prop) n s :
  0 ≤ n → I 0 s → (∀ i s, 0 ≤ i < n → I i s → ∃ s', body i s = Returns s' ∧ I (i + 1) s') →
  ∃ s', Imsic.loop body (seqZ 0 n) s = Returns s' ∧ I n s'.
Proof.
  intros Hn H0 Hstep.
  assert (∀ k s, (k ≤ Z.to_nat n)%nat → I (n - Z.of_nat k) s →
    ∃ s', Imsic.loop body (seqZ (n - Z.of_nat k) (Z.of_nat k)) s = Returns s' ∧ I n s') as Hgen.
  { clear s H0. induction k as [|k IH]; intros s Hk Hs; [by replace (n - Z.of_nat 0) with n in Hs by lia; exists s|].
    destruct (Hstep (n - Z.of_nat (S k)) s ltac:(lia) Hs) as (s1 & Hb & Hs1). rewrite seqZ_cons by lia. cbn. rewrite Hb. cbn.
    replace (Z.succ (n - _)) with (n - Z.of_nat k) by lia. replace (Z.pred _) with (Z.of_nat k) by lia.
    apply IH; [lia|]. by replace (n - Z.of_nat k) with (n - Z.of_nat (S k) + 1) by lia. }
  specialize (Hgen (Z.to_nat n) s ltac:(lia)). rewrite Z2Nat.id in Hgen by lia.
  replace (n - n) with 0 in Hgen by lia. auto.
Qed.

Lemma loop_ext {A} (body body' : Z → A → outcome A) l s :
  (∀ i s, body i s = body' i s) → Imsic.loop body l s = Imsic.loop body' l s.
Proof.
  intros He. revert s. induction l as [|i l IH]; intros s; [done|]. cbn. rewrite He.
  destruct (body' i s); cbn; auto.
Qed.

(** ** Software files *)
Definition sw_entry (f : SwFile.t) (i : Z) : SwFile.entry := default (SwFile.Entry 0 0) (SwFile.entries f !! Z.to_nat i).
Definition sw_wf (f : SwFile.t) : Prop := length (SwFile.entries f) = SW_FILE_ENTRIES.
Section sw_files.
Variable f : SwFile.t.
Hypothesis Hf : sw_wf f.
Variable i : Z.
Hypothesis Hi : 0 ≤ i < 32.

Lemma sw_at : SwFile.at_ f i = Returns (sw_entry f i).
Proof.
  unfold SwFile.at_, sw_entry. destruct (SwFile.entries f !! Z.to_nat i) eqn:E; [done|].
  apply lookup_ge_None in E. unfold sw_wf in Hf. rewrite Hf in E. change SW_FILE_ENTRIES with 32%nat in E. lia.
Qed.
Lemma sw_entry_set j e : 0 ≤ j → sw_entry (SwFile.set_at i e f) j = if i =? j then e else sw_entry f j.
Proof.
  intros Hj. unfold sw_entry. cbn. destruct (Z.eqb_spec i j) as [->|Hne].
  - rewrite list_lookup_insert_eq; [done|]. unfold sw_wf in Hf. rewrite Hf. change SW_FILE_ENTRIES with 32%nat. lia.
  - rewrite list_lookup_insert_ne; [done|]. lia.
Qed.
Lemma sw_wf_set e : sw_wf (SwFile.set_at i e f).
Proof. unfold sw_wf. cbn. by rewrite length_insert. Qed.
Lemma sw_eip : SwFile.eip f i = Returns (SwFile.pending (sw_entry f i)).
Proof. unfold SwFile.eip. by rewrite sw_at. Qed.
Lemma sw_eie : SwFile.eie f i = Returns (SwFile.enable (sw_entry f i)).
Proof. unfold SwFile.eie. by rewrite sw_at. Qed.
Lemma sw_set_eip v : SwFile.set_eip i v f = Returns (SwFile.set_at i (SwFile.Entry v (SwFile.enable (sw_entry f i))) f).
Proof. unfold SwFile.set_eip. by rewrite sw_at. Qed.
Lemma sw_set_eie v : SwFile.set_eie i v f = Returns (SwFile.set_at i (SwFile.Entry (SwFile.pending (sw_entry f i)) v) f).
Proof. unfold SwFile.set_eie. by rewrite sw_at. Qed.
End sw_files.
Ltac solve_sw := repeat first [lia | assumption | apply sw_wf_set].

(** ** Registers *)
Definition valid_reg (m : Imsic.t) (r : ImsicRegister.t) : Prop :=
  match r with
  | Eidelivery | Eithreshold => True
  | Eip i | Eie i => 0 ≤ i < Imsic.num_ei_regs m
  end.
Definition ids_ok (m : Imsic.t) : Prop := 0 < Imsic.interrupt_ids m ≤ MAX_INTERRUPT_IDS.
Lemma num_ei_regs_bound m : ids_ok m → 0 ≤ Imsic.num_ei_regs m ≤ 32.
Proof. unfold ids_ok, Imsic.num_ei_regs, MAX_INTERRUPT_IDS. intros. Z.to_euclidean_division_equations. lia. Qed.
Lemma eip_index m id : ids_ok m → 0 < id < Imsic.interrupt_ids m → valid_reg m (Eip (id / 64)).
Proof. unfold ids_ok. cbn. unfold Imsic.num_ei_regs. intros. Z.to_euclidean_division_equations. lia. Qed.
Lemma to_raw_inj m r r' :
  ids_ok m → valid_reg m r → valid_reg m r' → ImsicRegister.to_raw r = ImsicRegister.to_raw r' → r = r'.
Proof.
  intros Hm. pose proof (num_ei_regs_bound m Hm). destruct r, r'; cbn; intros; try done; try lia; f_equal; lia.
Qed.

(** The number of a guest file is unsigned. *)
Definition file_ok (f : ImsicFileId.t) : Prop := match f with ImsicFileId.Guest g => 0 ≤ g | ImsicFileId.Supervisor => True end.
Lemma guest_vgein_some {H} `{ImsicHw H} m `{!ImsicHwLaws H m} f g :
  file_ok f → Imsic.guest_vgein m f = Some g →
  f = ImsicFileId.Guest (g - 1) ∧ 1 ≤ g ≤ geilen ∧ g ≤ ImsicGeometry.guests_per_hart (Imsic.geometry m).
Proof.
  unfold Imsic.guest_vgein. destruct f as [|k]; [done|]. cbn. intros Hk.
  destruct (Z.ltb_spec k (ImsicGeometry.guests_per_hart (Imsic.geometry m))) as [Hlt|]; [|done].
  pose proof geilen_guests. pose proof geilen_max. unfold wrap32. rewrite Z.mod_small by lia. intros [= <-].
  split; [f_equal; lia|lia].
Qed.

(** ** The operations on a file *)
Section driver.
Context {H : Type} `{ImsicHw H} (m : Imsic.t) `{!ImsicHwLaws H m}.
Hypothesis Hm : ids_ok m.
Variable this : CpuId.
Implicit Types h : H.
Notation raw := ImsicRegister.to_raw.
Notation n := (Imsic.num_ei_regs m).

(** Only file [g] of this CPU may change. *)
Definition frame (g : Z) h h' : Prop :=
  (∀ c, hw_vgein c h' = hw_vgein c h) ∧
  (∀ c g' r, (c, g') ≠ (this, g) → hw_file c g' r h' = hw_file c g' r h).
Lemma frame_refl g h : frame g h h.
Proof. split; auto. Qed.
Lemma frame_trans g h1 h2 h3 : frame g h1 h2 → frame g h2 h3 → frame g h1 h3.
Proof. intros [A1 A2] [B1 B2]. split; intros; [by rewrite B1|by rewrite B2, A2]. Qed.

(** The selection is set for the body and restored behind it. *)
Lemma with_guest_csrs_spec {S A} f g (body : S * H → outcome (A * (S * H))) s h a s' (Q : H → Prop) :
  file_ok f → Imsic.guest_vgein m f = Some g →
  (∀ h0, hw_vgein this h0 = g → (∀ c g' r, hw_file c g' r h0 = hw_file c g' r h) →
    ∃ h1, body (s, h0) = Returns (a, (s', h1)) ∧ frame g h0 h1 ∧ Q h1) →
  (∀ h1 h2, (∀ c g' r, hw_file c g' r h2 = hw_file c g' r h1) → Q h1 → Q h2) →
  ∃ h', Imsic.with_guest_csrs m this f body (s, h) = Returns (Ok a, (s', h')) ∧ frame g h h' ∧ Q h'.
Proof.
  intros Hf Hg Hbody HQ. destruct (guest_vgein_some m f g Hf Hg) as (_ & Hrange & _).
  destruct (Hbody (hw_set_vgein this g h)) as (h1 & Hb & [Hv Hr] & Hq).
  { rewrite vgein_set by lia. by rewrite Z.eqb_refl. }
  { intros. apply file_set_vgein. lia. }
  pose proof (vgein_range this h) as Hold.
  exists (hw_set_vgein this (hw_vgein this h) h1). unfold Imsic.with_guest_csrs. rewrite Hg, Hb. cbn.
  split; [done|]. split; [split|].
  - intros c. rewrite vgein_set by done. destruct (Z.eqb_spec this c) as [<-|]; [done|].
    rewrite Hv, vgein_set by lia. by rewrite (proj2 (Z.eqb_neq _ _)).
  - intros c g' r Hne. rewrite file_set_vgein, Hr, file_set_vgein by (done || lia). done.
  - apply (HQ h1); [|done]. intros. by apply file_set_vgein.
Qed.

(** A write to the selected file. *)
Lemma csr_write_spec g r v h :
  hw_vgein this h = g → 1 ≤ g →
  frame g h (Imsic.csr_write this r v h) ∧
  ∀ r', hw_file this g r' (Imsic.csr_write this r v h) = if raw r =? r' then conform (raw r) v else hw_file this g r' h.
Proof.
  intros Hg Hpos. unfold Imsic.csr_write. split; [split|].
  - intros. apply vgein_set_vsireg.
  - intros c g' r' Hne. rewrite file_set_vsireg by lia. subst g.
    destruct (Z.eqb_spec this c), (Z.eqb_spec (hw_vgein this h) g'); cbn; congruence || done.
  - intros r'. rewrite file_set_vsireg by lia. subst g. by rewrite !Z.eqb_refl.
Qed.
Lemma csr_read_spec g r h : hw_vgein this h = g → Imsic.csr_read this r h = hw_file this g (raw r) h.
Proof. intros <-. apply vsireg_selected. Qed.

#[local] Ltac eqb_cases := repeat (case (Z.eqb_spec _ _); intros); done.

(** What a register holds behind a body, by register. *)
Lemma clear_guest_file_spec f g sw h :
  file_ok f → Imsic.guest_vgein m f = Some g →
  ∃ h', Imsic.clear_guest_file m this f (sw, h) = Returns (Ok tt, (sw, h')) ∧ frame g h h' ∧
    ∀ r, valid_reg m r → hw_file this g (raw r) h' = 0.
Proof.
  intros Hf Hg. destruct (guest_vgein_some m f g Hf Hg) as (_ & Hrange & _).
  apply (with_guest_csrs_spec f g); [done..| |intros h1 h2 He Hq r Hr; rewrite He; auto].
  intros h0 Hv _.
  destruct (loop_seqZ (λ i h, Returns (Imsic.csr_write this (Eie i) 0 (Imsic.csr_write this (Eip i) 0 h)))
    (λ k h, frame g h0 h ∧ ∀ i, 0 ≤ i < k → hw_file this g (raw (Eip i)) h = 0 ∧ hw_file this g (raw (Eie i)) h = 0)
    n h0) as (h1 & Hloop & Hfr & Hregs).
  - by apply num_ei_regs_bound.
  - split; [apply frame_refl|lia].
  - intros i h2 Hi [Hfr Hregs].
    destruct (csr_write_spec g (Eip i) 0 h2) as [Hf1 Hw1]; [by rewrite (proj1 Hfr)|lia|].
    destruct (csr_write_spec g (Eie i) 0 (Imsic.csr_write this (Eip i) 0 h2)) as [Hf2 Hw2].
    { by rewrite (proj1 Hf1), (proj1 Hfr). } { lia. }
    eexists. split; [done|]. split; [eauto using frame_trans|]. intros j Hj. rewrite !Hw2, !Hw1, !conform_zero.
    assert (i = j ∨ j < i) as [->|Hlt] by lia; [eqb_cases|].
    destruct (Hregs j ltac:(lia)) as [-> ->]. eqb_cases.
  - destruct (csr_write_spec g Eithreshold 0 h1) as [Hf1 Hw1]; [by rewrite (proj1 Hfr)|lia|].
    destruct (csr_write_spec g Eidelivery 0 (Imsic.csr_write this Eithreshold 0 h1)) as [Hf2 Hw2].
    { by rewrite (proj1 Hf1), (proj1 Hfr). } { lia. }
    eexists. unfold Imsic.ei_regs. rewrite Hloop. cbn [mbind outcome_bind]. split; [done|].
    split; [eauto using frame_trans|]. intros r Hr. rewrite Hw2, Hw1, !conform_zero.
    destruct r as [| |i|i]; [eqb_cases..| |]; destruct (Hregs i Hr) as [H1 H2]; eqb_cases.
Qed.

Lemma save_guest_file_prepare_spec f g sw h :
  file_ok f → Imsic.guest_vgein m f = Some g → sw_wf sw →
  ∃ sw' h', Imsic.save_guest_file_prepare m this f (sw, h) = Returns (Ok tt, (sw', h')) ∧ frame g h h' ∧
    (∀ r, valid_reg m r → r ≠ Eidelivery → hw_file this g (raw r) h' = hw_file this g (raw r) h) ∧ sw_wf sw' ∧
    (∀ i, 0 ≤ i < n → sw_entry sw' i = SwFile.Entry 0 (hw_file this g (raw (Eie i)) h)) ∧
    SwFile.eithreshold sw' = hw_file this g (raw Eithreshold) h ∧
    SwFile.eidelivery sw' = hw_file this g (raw Eidelivery) h.
Proof.
  intros Hf Hg Hsw. destruct (guest_vgein_some m f g Hf Hg) as (_ & Hrange & _).
  destruct (loop_seqZ (λ i sw, sw ← SwFile.set_eip i 0 sw; SwFile.set_eie i (hw_file this g (raw (Eie i)) h) sw)
    (λ k sw', sw_wf sw' ∧ ∀ i, 0 ≤ i < k → sw_entry sw' i = SwFile.Entry 0 (hw_file this g (raw (Eie i)) h))
    n sw) as (sw1 & Hloop & Hsw1 & Hent).
  - by apply num_ei_regs_bound.
  - split; [done|lia].
  - intros i s Hi [Hs Hent]. pose proof (num_ei_regs_bound m Hm). rewrite sw_set_eip by solve_sw.
    cbn [mbind outcome_bind]. rewrite sw_set_eie by solve_sw. eexists. split; [done|]. split; [solve_sw|].
    intros j Hj. rewrite !sw_entry_set by solve_sw. rewrite Z.eqb_refl. cbn.
    assert (i = j ∨ j < i) as [->|Hlt] by lia; [by rewrite Z.eqb_refl|].
    rewrite (proj2 (Z.eqb_neq i j)) by lia. apply Hent. lia.
  - exists (SwFile.set_eidelivery (hw_file this g (raw Eidelivery) h)
             (SwFile.set_eithreshold (hw_file this g (raw Eithreshold) h) sw1)).
    enough (∃ h', Imsic.save_guest_file_prepare m this f (sw, h) = Returns (Ok tt,
      (SwFile.set_eidelivery (hw_file this g (raw Eidelivery) h)
        (SwFile.set_eithreshold (hw_file this g (raw Eithreshold) h) sw1), h')) ∧ frame g h h' ∧
      ∀ r, valid_reg m r → r ≠ Eidelivery → hw_file this g (raw r) h' = hw_file this g (raw r) h)
      as (h' & He & Hfr & Hq); [by exists h'|].
    apply (with_guest_csrs_spec f g); [done|done| |].
    + intros h0 Hv Hsame. eexists. split; [|split; [apply csr_write_spec; [done|lia]|]].
      * erewrite loop_ext by (intros; rewrite (csr_read_spec g) by done; rewrite Hsame; reflexivity).
        unfold Imsic.ei_regs. rewrite Hloop. cbn [mbind outcome_bind].
        rewrite !(csr_read_spec g), !Hsame by done. reflexivity.
      * intros r Hr Hne. destruct (csr_write_spec g Eidelivery 0 h0 Hv ltac:(lia)) as [_ ->].
        rewrite Hsame. case (Z.eqb_spec _ _); [|done]. intros He%(to_raw_inj m); congruence || done.
    + intros h1 h2 He Hq r Hr Hne. rewrite He. auto.
Qed.

Lemma save_guest_file_finish_spec f g sw h :
  file_ok f → Imsic.guest_vgein m f = Some g → sw_wf sw →
  ∃ sw' h', Imsic.save_guest_file_finish m this f (sw, h) = Returns (Ok tt, (sw', h')) ∧ frame g h h' ∧
    (∀ r, hw_file this g r h' = hw_file this g r h) ∧ sw_wf sw' ∧
    (∀ i, 0 ≤ i < n → sw_entry sw' i =
      SwFile.Entry (Z.lor (hw_file this g (raw (Eip i)) h) (SwFile.pending (sw_entry sw i))) (SwFile.enable (sw_entry sw i))) ∧
    SwFile.eithreshold sw' = SwFile.eithreshold sw ∧ SwFile.eidelivery sw' = SwFile.eidelivery sw.
Proof.
  intros Hf Hg Hsw. destruct (guest_vgein_some m f g Hf Hg) as (_ & Hrange & _).
  set (merged i := SwFile.Entry (Z.lor (hw_file this g (raw (Eip i)) h) (SwFile.pending (sw_entry sw i)))
                     (SwFile.enable (sw_entry sw i))).
  destruct (loop_seqZ (λ i sw, e ← SwFile.eip sw i; SwFile.set_eip i (Z.lor (hw_file this g (raw (Eip i)) h) e) sw)
    (λ k sw', sw_wf sw' ∧ (∀ i, 0 ≤ i → sw_entry sw' i = if i <? k then merged i else sw_entry sw i) ∧
       SwFile.eithreshold sw' = SwFile.eithreshold sw ∧ SwFile.eidelivery sw' = SwFile.eidelivery sw)
    n sw) as (sw1 & Hloop & Hsw1 & Hent & Hctl).
  - by apply num_ei_regs_bound.
  - split; [done|]. split; [|done]. intros i Hi. by rewrite (proj2 (Z.ltb_ge i 0)).
  - intros i s Hi (Hs & Hent & Hctl). pose proof (num_ei_regs_bound m Hm). rewrite sw_eip by solve_sw.
    cbn [mbind outcome_bind]. rewrite sw_set_eip by solve_sw. eexists. split; [done|]. split; [solve_sw|].
    split; [|done]. intros j Hj. rewrite sw_entry_set by solve_sw. rewrite !Hent by lia. rewrite Z.ltb_irrefl.
    destruct (Z.eqb_spec i j) as [->|Hne]; [by rewrite (proj2 (Z.ltb_lt _ _)) by lia|].
    by case (Z.ltb_spec j i), (Z.ltb_spec j (i + 1)); lia || done.
  - exists sw1.
    enough (∃ h', Imsic.save_guest_file_finish m this f (sw, h) = Returns (Ok tt, (sw1, h')) ∧ frame g h h' ∧
      ∀ r, hw_file this g r h' = hw_file this g r h) as (h' & He & Hfr & Hq).
    { exists h'. do 4 (split; [done|]). split; [|done]. intros i Hi. rewrite Hent by lia.
      by rewrite (proj2 (Z.ltb_lt _ _)) by lia. }
    apply (with_guest_csrs_spec f g); [done|done| |intros h1 h2 He Hq r; by rewrite He].
    intros h0 Hv Hsame. exists h0. split; [|split; [apply frame_refl|intros; apply Hsame]].
    erewrite loop_ext by (intros; rewrite (csr_read_spec g) by done; rewrite Hsame; reflexivity).
    unfold Imsic.ei_regs. by rewrite Hloop.
Qed.

(** The loop of [restore_guest_file] behind the selection of file [g]. *)
Definition restored sw g h (i : Z) : Z :=
  conform (raw (Eip i)) (Z.lor (hw_file this g (raw (Eip i)) h) (SwFile.pending (sw_entry sw i))).
Lemma restore_loop sw g h h0 :
  1 ≤ g → sw_wf sw → hw_vgein this h0 = g → (∀ c g' r, hw_file c g' r h0 = hw_file c g' r h) →
  ∃ h1, Imsic.loop (λ i h, p ← SwFile.eip sw i; e ← SwFile.eie sw i;
      Returns (Imsic.csr_write this (Eie i) e (Imsic.csr_set_bits this (Eip i) p h))) (seqZ 0 n) h0 = Returns h1 ∧
    frame g h0 h1 ∧ ∀ i, 0 ≤ i < n →
      hw_file this g (raw (Eip i)) h1 = (if i <? n then restored sw g h i else hw_file this g (raw (Eip i)) h) ∧
      (i < n → hw_file this g (raw (Eie i)) h1 = conform (raw (Eie i)) (SwFile.enable (sw_entry sw i))).
Proof.
  intros Hpos Hsw Hv Hsame. pose proof (num_ei_regs_bound m Hm) as Hn.
  apply (loop_seqZ (λ i h, p ← SwFile.eip sw i; e ← SwFile.eie sw i;
      Returns (Imsic.csr_write this (Eie i) e (Imsic.csr_set_bits this (Eip i) p h)))
    (λ k h1, frame g h0 h1 ∧ ∀ i, 0 ≤ i < n →
      hw_file this g (raw (Eip i)) h1 = (if i <? k then restored sw g h i else hw_file this g (raw (Eip i)) h) ∧
      (i < k → hw_file this g (raw (Eie i)) h1 = conform (raw (Eie i)) (SwFile.enable (sw_entry sw i))))).
  - lia.
  - split; [apply frame_refl|]. intros i Hi. rewrite (proj2 (Z.ltb_ge i 0)) by lia. rewrite Hsame. split; [done|lia].
  - intros i h2 Hi [Hfr Hregs]. rewrite sw_eip by solve_sw. cbn [mbind outcome_bind]. rewrite sw_eie by solve_sw. cbn [mbind outcome_bind].
    unfold Imsic.csr_set_bits. set (v := Z.lor _ _). set (h3 := Imsic.csr_write this (Eip i) v h2).
    assert (hw_vgein this h2 = g) as Hv2 by (by rewrite (proj1 Hfr)).
    destruct (csr_write_spec g (Eip i) v h2 Hv2 ltac:(lia)) as [Hf1 Hw1].
    destruct (csr_write_spec g (Eie i) (SwFile.enable (sw_entry sw i)) h3) as [Hf2 Hw2]; [by rewrite (proj1 Hf1)|lia|].
    eexists. split; [reflexivity|]. split; [eauto using frame_trans|]. intros j Hj. rewrite !Hw2. unfold h3. rewrite !Hw1.
    rewrite (proj2 (Z.eqb_neq (raw (Eie i)) (raw (Eip j)))) by (cbn; lia).
    rewrite (proj2 (Z.eqb_neq (raw (Eip i)) (raw (Eie j)))) by (cbn; lia).
    destruct (Hregs j Hj) as [Hp He]. destruct (Z.eq_dec i j) as [->|Hne].
    + rewrite !Z.eqb_refl, (proj2 (Z.ltb_lt j (j + 1))) by lia. split; [|done]. unfold v, restored.
      rewrite (csr_read_spec g), Hp, Z.ltb_irrefl by done. done.
    + rewrite (proj2 (Z.eqb_neq (raw (Eip i)) (raw (Eip j)))) by (cbn; lia).
      rewrite (proj2 (Z.eqb_neq (raw (Eie i)) (raw (Eie j)))) by (cbn; lia).
      rewrite Hp. split; [|intros; apply He; lia]. by case (Z.ltb_spec j i), (Z.ltb_spec j (i + 1)); lia || done.
Qed.

Lemma restore_guest_file_spec f g sw h :
  file_ok f → Imsic.guest_vgein m f = Some g → sw_wf sw →
  ∃ h', Imsic.restore_guest_file m this f (sw, h) = Returns (Ok tt, (sw, h')) ∧ frame g h h' ∧
    (∀ i, 0 ≤ i < n →
      hw_file this g (raw (Eip i)) h' =
        conform (raw (Eip i)) (Z.lor (hw_file this g (raw (Eip i)) h) (SwFile.pending (sw_entry sw i))) ∧
      hw_file this g (raw (Eie i)) h' = conform (raw (Eie i)) (SwFile.enable (sw_entry sw i))) ∧
    hw_file this g (raw Eithreshold) h' = conform (raw Eithreshold) (SwFile.eithreshold sw) ∧
    hw_file this g (raw Eidelivery) h' = conform (raw Eidelivery) (SwFile.eidelivery sw).
Proof.
  intros Hf Hg Hsw. destruct (guest_vgein_some m f g Hf Hg) as (_ & Hrange & _). pose proof (num_ei_regs_bound m Hm) as Hn.
  apply (with_guest_csrs_spec f g); [done|done| |intros h1 h2 He Hq; rewrite !He; split; [|apply Hq]; intros; rewrite !He; by apply Hq].
  intros h0 Hv Hsame.
  destruct (restore_loop sw g h h0) as (h1 & Hloop & Hfr & Hregs); [lia|done..|].
  set (h2 := Imsic.csr_write this Eithreshold (SwFile.eithreshold sw) h1).
  destruct (csr_write_spec g Eithreshold (SwFile.eithreshold sw) h1) as [Hf1 Hw1]; [by rewrite (proj1 Hfr)|lia|].
  destruct (csr_write_spec g Eidelivery (SwFile.eidelivery sw) h2) as [Hf2 Hw2];
    [by rewrite (proj1 Hf1), (proj1 Hfr)|lia|].
  eexists. unfold Imsic.ei_regs. rewrite Hloop. cbn [mbind outcome_bind]. split; [reflexivity|].
  split; [eauto using frame_trans|]. rewrite !Hw2. unfold h2. rewrite !Hw1. split; [|done].
  intros i Hi. rewrite !Hw2, !Hw1. destruct (Hregs i Hi) as [Hp He]. rewrite Hp, He, (proj2 (Z.ltb_lt i n)) by lia.
  rewrite !(proj2 (Z.eqb_neq (raw Eidelivery) _)), !(proj2 (Z.eqb_neq (raw Eithreshold) _)) by (cbn; lia). done.
Qed.
End driver.
