(* ===== verification/VmInterrupts.v ===== *)
(** * External interrupts of a vCPU (src/vm_interrupts.rs)

    A vCPU is bound to a guest interrupt file of a physical CPU, or its interrupts are
    kept in a software file.  The state of an operation is that of the vCPU and of the
    IMSIC hardware; the IMSIC device and the CPU that runs the operation are
    arguments. *)
From S2P Require Import Prelude RiscvPages Imsic ImsicCore.

Module VmInterruptError.
Inductive t :=
| BindingImsic (e : ImsicError.t)
| RebindingImsic (e : ImsicError.t)
| UnbindingImsic (e : ImsicError.t)
| WrongBindStatus
| WrongPhysicalCpu
| InvalidInterruptId (id : Z)
| DeniedInterruptId (id : Z).
End VmInterruptError.
Import VmInterruptError(BindingImsic, RebindingImsic, UnbindingImsic, WrongBindStatus, WrongPhysicalCpu).

Module BindStatus.
Inductive t :=
| Binding (cpu : CpuId) (file : ImsicFileId.t)
| Bound (cpu : CpuId) (file : ImsicFileId.t)
| Rebinding (cpu : CpuId) (file : ImsicFileId.t) (new_cpu : CpuId) (new_file : ImsicFileId.t)
| Cloned (cpu : CpuId) (file : ImsicFileId.t)
| Unbinding (cpu : CpuId) (file : ImsicFileId.t)
| Unbound.
#[global] Instance eq_dec : EqDecision t.
Proof. solve_decision. Defined.
End BindStatus.
Import BindStatus(Binding, Bound, Rebinding, Cloned, Unbinding, Unbound).

Module AllowList.
Record t := mk { bits : list Z; num_ids : Z }.
Definition entries_of (num_ids : Z) : nat := Z.to_nat ((num_ids + 63) / 64).
(** Pushing to a full [ArrayVec] panics. *)
Definition new (num_ids : Z) : outcome t :=
  if (SW_FILE_ENTRIES <? entries_of num_ids)%nat then Panics
  else Returns (mk (replicate (entries_of num_ids) 0) num_ids).
Definition update (id : Z) (f : Z → Z) (l : t) : outcome t :=
  b ← unwrap_option (bits l !! Z.to_nat (id / 64));
  Returns (mk (<[Z.to_nat (id / 64) := f b]> (bits l)) (num_ids l)).
Definition bit (id : Z) : Z := shl64 1 (id mod 64).
Definition allow_id (id : Z) (l : t) : outcome (result VmInterruptError.t unit * t) :=
  if (id =? 0) || (num_ids l <=? id) then Returns (Err (VmInterruptError.InvalidInterruptId id), l)
  else l ← update id (λ b, Z.lor b (bit id)) l; Returns (Ok tt, l).
Definition allow_all (l : t) : t := mk (map (λ _, U64_MAX) (bits l)) (num_ids l).
Definition deny_id (id : Z) (l : t) : outcome (result VmInterruptError.t unit * t) :=
  if (id =? 0) || (num_ids l <=? id) then Returns (Err (VmInterruptError.InvalidInterruptId id), l)
  else l ← update id (λ b, Z.land b (not64 (bit id))) l; Returns (Ok tt, l).
Definition deny_all (l : t) : t := mk (map (λ _, 0) (bits l)) (num_ids l).
Definition is_allowed (id : Z) (l : t) : outcome bool :=
  if (id <? num_ids l) && negb (id =? 0)
  then b ← unwrap_option (bits l !! Z.to_nat (id / 64));
       Returns (negb (Z.land b (bit id) =? 0))
  else Returns false.
End AllowList.

Module VmCpuExtInterrupts.
Record t := mk {
  bind_status : BindStatus.t;
  imsic_location : ImsicLocation.t;
  sw_file : SwFile.t;
  allowed_ids : AllowList.t;
  num_guests : Z
}.
Definition with_status (s : BindStatus.t) (e : t) : t :=
  mk s (imsic_location e) (sw_file e) (allowed_ids e) (num_guests e).
Definition with_sw_file (f : SwFile.t) (e : t) : t :=
  mk (bind_status e) (imsic_location e) f (allowed_ids e) (num_guests e).
Definition with_allowed (a : AllowList.t) (e : t) : t :=
  mk (bind_status e) (imsic_location e) (sw_file e) a (num_guests e).

Section ops.
Context {H : Type} `{ImsicHw H}.
Variable m : Imsic.t.
Variable this_cpu : CpuId.
Local Notation E := VmInterruptError.t.
Local Notation Op A := (M (t * H) E A).

Definition new (imsic_location : ImsicLocation.t) (num_guests : Z) : outcome t :=
  allowed ← AllowList.new (Imsic.interrupt_ids m);
  Returns (mk Unbound imsic_location SwFile.new allowed num_guests).

(** A call of the IMSIC driver with the software file. *)
Definition imsic (wrap : ImsicError.t → E) (op : M (SwFile.t * H) ImsicError.t unit) : Op unit := λ '(e, h),
  match op (sw_file e, h) with
  | Returns (r, (f, h)) => Returns (map_err wrap r, (with_sw_file f e, h))
  | Panics => Panics
  end.
Definition status : Op BindStatus.t := λ '(e, h), Returns (Ok (bind_status e), (e, h)).
Definition set_status (s : BindStatus.t) : Op unit := λ '(e, h), Returns (Ok tt, (with_status s e, h)).
Definition check_cpu (cpu : CpuId) : Op unit :=
  if cpu =? this_cpu then mret tt else err WrongPhysicalCpu.

Definition bind_imsic_prepare (interrupt_file : ImsicFileId.t) : Op unit :=
  s ← status;
  if bool_decide (s = Unbound)
  then imsic BindingImsic (Imsic.clear_guest_file m this_cpu interrupt_file);;
       set_status (Binding this_cpu interrupt_file)
  else err WrongBindStatus.
Definition bind_imsic_finish : Op ImsicFileId.t :=
  s ← status;
  match s with
  | Binding cpu interrupt_file =>
      check_cpu cpu;;
      imsic BindingImsic (Imsic.restore_guest_file m this_cpu interrupt_file);;
      set_status (Bound cpu interrupt_file);;
      mret interrupt_file
  | _ => err WrongBindStatus
  end.
Definition rebind_imsic_prepare (interrupt_file : ImsicFileId.t) : Op unit :=
  s ← status;
  match s with
  | Bound cpu old_interrupt_file =>
      imsic BindingImsic (Imsic.clear_guest_file m this_cpu interrupt_file);;
      set_status (Rebinding cpu old_interrupt_file this_cpu interrupt_file)
  | _ => err WrongBindStatus
  end.
Definition rebind_imsic_clone : Op unit :=
  s ← status;
  match s with
  | Rebinding cpu interrupt_file new_cpu new_file =>
      check_cpu cpu;;
      imsic BindingImsic (Imsic.save_guest_file_prepare m this_cpu interrupt_file);;
      imsic RebindingImsic (Imsic.save_guest_file_finish m this_cpu interrupt_file);;
      set_status (Cloned new_cpu new_file)
  | _ => err WrongBindStatus
  end.
Definition prev_imsic_location (e : t) : result E ImsicLocation.t :=
  match bind_status e with
  | Rebinding cpu interrupt_file _ _ => map_err RebindingImsic (Imsic.phys_file_location m cpu interrupt_file)
  | _ => Err WrongBindStatus
  end.
Definition rebind_imsic_finish : Op ImsicFileId.t :=
  s ← status;
  match s with
  | Cloned cpu interrupt_file =>
      check_cpu cpu;;
      imsic RebindingImsic (Imsic.restore_guest_file m this_cpu interrupt_file);;
      set_status (Bound cpu interrupt_file);;
      mret interrupt_file
  | _ => err WrongBindStatus
  end.
Definition unbind_imsic_prepare : Op unit :=
  s ← status;
  match s with
  | Bound cpu interrupt_file =>
      check_cpu cpu;;
      imsic UnbindingImsic (Imsic.save_guest_file_prepare m this_cpu interrupt_file);;
      set_status (Unbinding cpu interrupt_file)
  | _ => err WrongBindStatus
  end.
Definition unbind_imsic_finish : Op unit :=
  s ← status;
  match s with
  | Unbinding cpu interrupt_file =>
      check_cpu cpu;;
      imsic UnbindingImsic (Imsic.save_guest_file_finish m this_cpu interrupt_file);;
      set_status Unbound
  | _ => err WrongBindStatus
  end.
Definition is_bound_on_this_cpu (e : t) : bool :=
  match bind_status e with Bound cpu_id _ => cpu_id =? this_cpu | _ => false end.

Definition on_allowed (f : AllowList.t → outcome (result E unit * AllowList.t)) : Op unit := λ '(e, h),
  '(r, a) ← f (allowed_ids e); Returns (r, (with_allowed a e, h)).
Definition allow_interrupt (id : Z) : Op unit := on_allowed (AllowList.allow_id id).
Definition allow_all_interrupts : Op unit := on_allowed (λ a, Returns (Ok tt, AllowList.allow_all a)).
Definition deny_interrupt (id : Z) : Op unit := on_allowed (AllowList.deny_id id).
Definition deny_all_interrupts : Op unit := on_allowed (λ a, Returns (Ok tt, AllowList.deny_all a)).

(** The store to the interrupt file of another CPU, and its [unwrap]. *)
Definition send (cpu : CpuId) (file : ImsicFileId.t) (id : Z) : Op unit := λ '(e, h),
  match Imsic.send_ipi_raw m cpu file id h with
  | Returns (Ok _, h) => Returns (Ok tt, (e, h))
  | _ => Panics
  end.
Definition inject_interrupt (id : Z) : Op unit := λ '(e, h),
  allowed ← AllowList.is_allowed id (allowed_ids e);
  if negb allowed then Returns (Err (VmInterruptError.DeniedInterruptId id), (e, h))
  else match bind_status e with
       | Bound cpu_id file => send cpu_id file (id mod 2 ^ 32) (e, h)
       | _ => f ← SwFile.set_eip_bit id (sw_file e); Returns (Ok tt, (with_sw_file f e, h))
       end.
End ops.
End VmCpuExtInterrupts.
