(* ===== verification/VmInterruptsFacts.v ===== *)
(** * Interrupts of a vCPU survive its moves

    Wherever a vCPU is bound, its pending interrupts are one set: the software file,
    the guest interrupt files that it is bound to or moves between, or both hold them.
    The operations of [VmCpuExtInterrupts] refine operations on that set. *)
From stdpp Require Import gmap list.
From S2P Require Import Prelude RiscvPages Imsic ImsicFacts ImsicCore ImsicCoreFacts VmInterrupts.
Import ImsicRegister(Eidelivery, Eithreshold, Eip, Eie).
Import VmInterruptError(BindingImsic, RebindingImsic, UnbindingImsic, WrongBindStatus, WrongPhysicalCpu).
Import BindStatus(Binding, Bound, Rebinding, Cloned, Unbinding, Unbound).
Import VmCpuExtInterrupts(bind_status, sw_file, allowed_ids).
#[local] Set Default Proof Using "Type*".
#[local] Arguments ImsicRegister.to_raw : simpl never.
Module Ext := VmCpuExtInterrupts.

(** Calls on a vCPU, and an interrupt message of a device or another CPU. *)
Inductive op :=
| BindPrepare (f : ImsicFileId.t) | BindFinish
| RebindPrepare (f : ImsicFileId.t) | RebindClone | RebindFinish
| UnbindPrepare | UnbindFinish
| Allow (id : Z) | AllowAll | Deny (id : Z) | DenyAll
| Inject (id : Z)
| Msi (c : CpuId) (f : ImsicFileId.t) (id : Z).

Section moves.
Context {H : Type} `{ImsicHw H} (m : Imsic.t) `{!ImsicHwLaws H m}.
Hypothesis Hm : ids_ok m.
Implicit Types (h : H) (e : Ext.t) (o : op).
Notation raw := ImsicRegister.to_raw.

(** ** The set of pending interrupts *)
Definition file_num (f : ImsicFileId.t) : Z := default 0 (Imsic.guest_vgein m f).
Definition hw_pending h (id : Z) (cf : CpuId * ImsicFileId.t) : bool :=
  Z.testbit (hw_file cf.1 (file_num cf.2) (raw (Eip (id / 64))) h) (id mod 64).
Definition sw_pending (f : SwFile.t) (id : Z) : bool := Z.testbit (SwFile.pending (sw_entry f (id / 64))) (id mod 64).
(** The files that hold interrupts of the vCPU. *)
Definition homes (s : BindStatus.t) : list (CpuId * ImsicFileId.t) :=
  match s with
  | Unbound => []
  | Binding c f | Bound c f | Cloned c f | Unbinding c f => [(c, f)]
  | Rebinding c f c' f' => [(c, f); (c', f')]
  end.
(** A bound vCPU has left its software file behind. *)
Definition uses_sw (s : BindStatus.t) : bool := match s with Bound _ _ | Rebinding _ _ _ _ => false | _ => true end.
Definition pending e h (id : Z) : bool :=
  uses_sw (bind_status e) && sw_pending (sw_file e) id || existsb (hw_pending h id) (homes (bind_status e)).
Definition ids : list Z := seqZ 1 (Imsic.interrupt_ids m - 1).
Definition pending_set e h : gset Z := list_to_set (filter (λ id, pending e h id = true) ids).
Definition allowed (a : AllowList.t) (id : Z) : bool :=
  Z.testbit (default 0 (AllowList.bits a !! Z.to_nat (id / 64))) (id mod 64).
Definition allowed_set e : gset Z := list_to_set (filter (λ id, allowed (allowed_ids e) id = true) ids).

Lemma elem_of_ids id : id ∈ ids ↔ 0 < id < Imsic.interrupt_ids m.
Proof. unfold ids. rewrite elem_of_seqZ. lia. Qed.
Lemma elem_of_pending e h id : id ∈ pending_set e h ↔ 0 < id < Imsic.interrupt_ids m ∧ pending e h id = true.
Proof. unfold pending_set. rewrite elem_of_list_to_set, list_elem_of_filter, elem_of_ids. tauto. Qed.
Lemma elem_of_allowed e id : id ∈ allowed_set e ↔ 0 < id < Imsic.interrupt_ids m ∧ allowed (allowed_ids e) id = true.
Proof. unfold allowed_set. rewrite elem_of_list_to_set, list_elem_of_filter, elem_of_ids. tauto. Qed.

(** ** Well-formed states *)
Definition home_ok (cf : CpuId * ImsicFileId.t) : Prop :=
  0 ≤ cf.1 ∧ file_ok cf.2 ∧ is_Some (Imsic.guest_vgein m cf.2) ∧ ∃ a, Imsic.phys_file_addr m cf.1 cf.2 = Ok a.
Record wf e : Prop := {
  wf_sw : sw_wf (sw_file e);
  wf_ids : AllowList.num_ids (allowed_ids e) = Imsic.interrupt_ids m;
  wf_bits : length (AllowList.bits (allowed_ids e)) = AllowList.entries_of (Imsic.interrupt_ids m);
  wf_homes : Forall home_ok (homes (bind_status e)) ∧ NoDup (homes (bind_status e))
}.
(** A CPU with guest interrupt files in the address space. *)
Definition cpu_ok (c : CpuId) : Prop :=
  0 ≤ c ∧ ∀ f, file_ok f → is_Some (Imsic.guest_vgein m f) → ∃ a, Imsic.phys_file_addr m c f = Ok a.

(** ** The specification *)
Definition check_file (wrap : ImsicError.t → VmInterruptError.t) (f : ImsicFileId.t) (s : BindStatus.t) :
  result VmInterruptError.t BindStatus.t :=
  match Imsic.guest_vgein m f with Some _ => Ok s | None => Err (wrap ImsicError.InvalidGuestFile) end.
Definition check_this (this c : CpuId) (s : BindStatus.t) : result VmInterruptError.t BindStatus.t :=
  if c =? this then Ok s else Err WrongPhysicalCpu.
Definition next_status (this : CpuId) o (s : BindStatus.t) : result VmInterruptError.t BindStatus.t :=
  match o, s with
  | BindPrepare f, Unbound => check_file BindingImsic f (Binding this f)
  | BindFinish, Binding c f => check_this this c (Bound c f)
  | RebindPrepare f, Bound c old => check_file BindingImsic f (Rebinding c old this f)
  | RebindClone, Rebinding c _ c' f' => check_this this c (Cloned c' f')
  | RebindFinish, Cloned c f => check_this this c (Bound c f)
  | UnbindPrepare, Bound c f => check_this this c (Unbinding c f)
  | UnbindFinish, Unbinding c f => check_this this c Unbound
  | (Allow _ | AllowAll | Deny _ | DenyAll | Inject _ | Msi _ _ _), s => Ok s
  | _, _ => Err WrongBindStatus
  end.
Definition sets : Type := gset Z * gset Z.
Definition spec o '((P, A) : sets) : result VmInterruptError.t unit * sets :=
  match o with
  | Inject id => if decide (id ∈ A) then (Ok tt, ({[id]} ∪ P, A)) else (Err (VmInterruptError.DeniedInterruptId id), (P, A))
  | Msi _ _ id => (Ok tt, ({[id]} ∪ P, A))
  | Allow id => if decide (id ∈ ids) then (Ok tt, (P, {[id]} ∪ A)) else (Err (VmInterruptError.InvalidInterruptId id), (P, A))
  | Deny id => if decide (id ∈ ids) then (Ok tt, (P, A ∖ {[id]})) else (Err (VmInterruptError.InvalidInterruptId id), (P, A))
  | AllowAll => (Ok tt, (P, list_to_set ids))
  | DenyAll => (Ok tt, (P, ∅))
  | _ => (Ok tt, (P, A))
  end.

Definition run (this : CpuId) o : M (Ext.t * H) VmInterruptError.t unit :=
  match o with
  | BindPrepare f => Ext.bind_imsic_prepare m this f
  | BindFinish => Ext.bind_imsic_finish m this;; mret tt
  | RebindPrepare f => Ext.rebind_imsic_prepare m this f
  | RebindClone => Ext.rebind_imsic_clone m this
  | RebindFinish => Ext.rebind_imsic_finish m this;; mret tt
  | UnbindPrepare => Ext.unbind_imsic_prepare m this
  | UnbindFinish => Ext.unbind_imsic_finish m this
  | Allow id => Ext.allow_interrupt id
  | AllowAll => Ext.allow_all_interrupts
  | Deny id => Ext.deny_interrupt id
  | DenyAll => Ext.deny_all_interrupts
  | Inject id => Ext.inject_interrupt m id
  | Msi c f id => Ext.send m c f id
  end.
(** A file that is cleared is not in use by the vCPU, messages go to its files, and
    nothing is injected between the start of a move and the copy of the old file. *)
Definition admissible (this : CpuId) o e : Prop :=
  match o with
  | BindPrepare f => file_ok f
  | RebindPrepare f => file_ok f ∧ (this, f) ∉ homes (bind_status e)
  | Inject id => 0 ≤ id ∧ match bind_status e with Rebinding _ _ _ _ => False | _ => True end
  | Allow id | Deny id => 0 ≤ id
  | Msi c f id => (c, f) ∈ homes (bind_status e) ∧ 0 < id < Imsic.interrupt_ids m
  | _ => True
  end.
(** What else may change: the files that hold interrupts of the vCPU now or then. *)
Definition untouched e e' h h' : Prop :=
  (∀ c, hw_vgein c h' = hw_vgein c h) ∧
  ∀ c g r, (∀ f, (c, f) ∈ homes (bind_status e) ++ homes (bind_status e') → file_num f ≠ g) →
    hw_file c g r h' = hw_file c g r h.

(** ** Shared facts *)
Lemma home_num cf :
  home_ok cf → cf.2 = ImsicFileId.Guest (file_num cf.2 - 1) ∧
  1 ≤ file_num cf.2 ≤ ImsicGeometry.guests_per_hart (Imsic.geometry m) ∧ Imsic.guest_vgein m cf.2 = Some (file_num cf.2).
Proof.
  intros (_ & Hf & [g Hg] & _). unfold file_num. rewrite Hg. cbn.
  destruct (guest_vgein_some m _ _ Hf Hg) as (? & ? & ?). split; [done|]. split; [lia|done].
Qed.
Lemma home_num_inj cf cf' : home_ok cf → home_ok cf' → cf.1 = cf'.1 → file_num cf.2 = file_num cf'.2 → cf = cf'.
Proof.
  intros Hh Hh' H1 H2. destruct (home_num _ Hh) as [E _], (home_num _ Hh') as [E' _].
  destruct cf, cf'; cbn in *. congruence.
Qed.
Lemma this_home this f : cpu_ok this → file_ok f → is_Some (Imsic.guest_vgein m f) → home_ok (this, f).
Proof. intros [Hpos Hc] Hf Hg. do 3 (split; [done|]). by apply Hc. Qed.
Lemma hw_pending_frame this f cf h h' id :
  home_ok (this, f) → home_ok cf → cf ≠ (this, f) → frame this (file_num f) h h' → hw_pending h' id cf = hw_pending h id cf.
Proof.
  intros Hh Hcf Hne [_ Hfr]. unfold hw_pending. rewrite Hfr; [done|]. intros [= H1 H2].
  apply Hne. by apply home_num_inj.
Qed.
Lemma untouched_frame this f e e' h h' :
  (this, f) ∈ homes (bind_status e) ++ homes (bind_status e') → frame this (file_num f) h h' → untouched e e' h h'.
Proof.
  intros Hin [Hv Hfr]. split; [done|]. intros c g r Hnot. apply Hfr. intros [= -> ->]. by apply (Hnot f).
Qed.
Lemma untouched_refl e e' h : untouched e e' h h.
Proof. split; auto. Qed.
Lemma pending_set_eq e e' h h' :
  (∀ id, 0 < id < Imsic.interrupt_ids m → pending e' h' id = pending e h id) → pending_set e' h' = pending_set e h.
Proof.
  intros He. apply set_eq. intros id. rewrite !elem_of_pending. split; intros [Hid Hp]; (split; [done|]); congruence || (rewrite <- He by done; done) || by rewrite He.
Qed.
Lemma index_small id : 0 < id < Imsic.interrupt_ids m → 0 ≤ id / 64 < Imsic.num_ei_regs m ∧ 0 ≤ id / 64 < 32.
Proof. intros Hid. pose proof (eip_index m id Hm Hid) as Hr. cbn in Hr. pose proof (num_ei_regs_bound m Hm). lia. Qed.

(** What a call does, in terms of the specification. *)
Definition simulates this o e h : Prop :=
  match next_status this o (bind_status e) with
  | Err x => run this o (e, h) = Returns (Err x, (e, h))
  | Ok s => ∃ r S e' h', run this o (e, h) = Returns (r, (e', h')) ∧ spec o (pending_set e h, allowed_set e) = (r, S) ∧
      bind_status e' = s ∧ wf e' ∧ (pending_set e' h', allowed_set e') = S ∧ untouched e e' h h'
  end.
(** A call that moves interrupts between files. *)
Lemma simulates_move this o e h s sw h' f :
  next_status this o (bind_status e) = Ok s →
  (∀ S, spec o S = (Ok tt, S)) →
  wf e → sw_wf sw → Forall home_ok (homes s) → NoDup (homes s) →
  run this o (e, h) = Returns (Ok tt, (Ext.with_status s (Ext.with_sw_file sw e), h')) →
  (this, f) ∈ homes (bind_status e) ++ homes s → frame this (file_num f) h h' →
  (∀ id, 0 < id < Imsic.interrupt_ids m →
    uses_sw s && sw_pending sw id || existsb (hw_pending h' id) (homes s) = pending e h id) →
  simulates this o e h.
Proof.
  intros Hs Hspec Hwf Hsw Hhomes Hdup Hrun Hin Hfr Hpend. unfold simulates. rewrite Hs.
  eexists _, _, _, _. split; [exact Hrun|]. split; [apply Hspec|]. split; [done|].
  split; [destruct Hwf; by split|]. split; [f_equal; by apply pending_set_eq|].
  by apply (untouched_frame this f).
Qed.
Lemma eta e : Ext.with_sw_file (sw_file e) e = e.
Proof. by destruct e. Qed.
(** *** Single steps of a call *)
Lemma status_bind {A} (k : BindStatus.t → M (Ext.t * H) VmInterruptError.t A) s e h :
  bind_status e = s → (x ← Ext.status; k x) (e, h) = k s (e, h).
Proof. by intros <-. Qed.
Lemma check_bind {A} (k : M (Ext.t * H) VmInterruptError.t A) this c e h :
  (Ext.check_cpu this c;; k) (e, h) = if c =? this then k (e, h) else Returns (Err WrongPhysicalCpu, (e, h)).
Proof. unfold Ext.check_cpu. by destruct (c =? this). Qed.
Lemma imsic_bind {A} wrap f e h (call : M (SwFile.t * H) ImsicError.t unit) h' (k : M (Ext.t * H) VmInterruptError.t A) :
  call (sw_file e, h) = Returns (Ok tt, (f, h')) →
  (Ext.imsic wrap call;; k) (e, h) = k (Ext.with_sw_file f e, h').
Proof.
  intros Hc. assert (Ext.imsic wrap call (e, h) = Returns (Ok tt, (Ext.with_sw_file f e, h'))) as Hi.
  { unfold Ext.imsic. by rewrite Hc. }
  by erewrite (bind_ok _ _ _ _ _ Hi).
Qed.
Lemma imsic_no_file {A} wrap this f (body : SwFile.t * H → outcome (unit * (SwFile.t * H))) e h
  (k : M (Ext.t * H) VmInterruptError.t A) :
  Imsic.guest_vgein m f = None →
  (Ext.imsic wrap (Imsic.with_guest_csrs m this f body);; k) (e, h) =
  Returns (Err (wrap ImsicError.InvalidGuestFile), (e, h)).
Proof.
  intros Hg. eapply bind_err. unfold Ext.imsic, Imsic.with_guest_csrs. rewrite Hg. by destruct e.
Qed.

(** The bits of a file that is cleared. *)
Lemma clear_bits this f h' id :
  0 < id < Imsic.interrupt_ids m → (∀ r, valid_reg m r → hw_file this (file_num f) (raw r) h' = 0) →
  hw_pending h' id (this, f) = false.
Proof. intros Hid Hzero. unfold hw_pending. rewrite Hzero by (by apply eip_index). apply Z.bits_0. Qed.
(** The bits of a file that is restored. *)
Lemma restore_bits this f sw h h' id :
  0 < id < Imsic.interrupt_ids m →
  (∀ i, 0 ≤ i < Imsic.num_ei_regs m →
    hw_file this (file_num f) (raw (Eip i)) h' =
      conform (raw (Eip i)) (Z.lor (hw_file this (file_num f) (raw (Eip i)) h) (SwFile.pending (sw_entry sw i))) ∧
    hw_file this (file_num f) (raw (Eie i)) h' = conform (raw (Eie i)) (SwFile.enable (sw_entry sw i))) →
  hw_pending h' id (this, f) = hw_pending h id (this, f) || sw_pending sw id.
Proof.
  intros Hid Hregs. unfold hw_pending. cbn. destruct (index_small id Hid) as [Hi _].
  destruct (Hregs (id / 64) Hi) as [-> _]. by rewrite conform_eip, Z.lor_spec.
Qed.
Lemma bind_prepare_simulates this f e h :
  wf e → cpu_ok this → file_ok f → simulates this (BindPrepare f) e h.
Proof.
  intros Hwf Hc Hf. destruct (decide (bind_status e = Unbound)) as [Hs|Hs].
  2: { unfold simulates. destruct (bind_status e) eqn:E; [..|done];
       cbn; unfold Ext.bind_imsic_prepare; by erewrite status_bind by exact E. }
  destruct (Imsic.guest_vgein m f) as [g|] eqn:Hg.
  2: { unfold simulates. rewrite Hs. cbn. unfold check_file. rewrite Hg. unfold Ext.bind_imsic_prepare.
       erewrite status_bind by exact Hs. cbn. by apply imsic_no_file. }
  assert (home_ok (this, f)) as Hh by (apply this_home; eauto).
  destruct (home_num _ Hh) as (_ & _ & Hn). cbn in Hn.
  destruct (clear_guest_file_spec m Hm this f (file_num f) (sw_file e) h Hf Hn) as (h' & Hcall & Hfr & Hzero).
  apply (simulates_move this _ e h (Binding this f) (sw_file e) h' f); [..|done|].
  - rewrite Hs. cbn. unfold check_file. by rewrite Hg.
  - by intros [].
  - done.
  - apply Hwf.
  - by apply Forall_singleton.
  - apply NoDup_singleton.
  - cbn. unfold Ext.bind_imsic_prepare. erewrite status_bind by exact Hs.
    rewrite bool_decide_eq_true_2 by done. by rewrite (imsic_bind _ _ _ _ _ _ _ Hcall).
  - rewrite Hs. cbn. set_solver.
  - intros id Hid. unfold pending. rewrite Hs. cbn -[hw_pending].
    by rewrite (clear_bits this f h' id Hid Hzero), !orb_false_r.
Qed.

(** [bind_imsic_finish] and [rebind_imsic_finish] are the same but for the status that
    they start from. *)
Lemma finish_simulates this c f e h o (call : M (Ext.t * H) VmInterruptError.t ImsicFileId.t) s0 wrap :
  wf e → bind_status e = s0 → s0 = Binding c f ∨ s0 = Cloned c f →
  next_status this o s0 = check_this this c (Bound c f) → (∀ S, spec o S = (Ok tt, S)) →
  run this o = (call;; mret tt) →
  call (e, h) = (Ext.check_cpu this c;; Ext.imsic wrap (Imsic.restore_guest_file m this f);;
                 Ext.set_status (Bound c f);; mret f) (e, h) →
  simulates this o e h.
Proof.
  intros Hwf Hs Hs0 Hnext Hspec Hrun Hcall.
  assert (homes s0 = [(c, f)] ∧ uses_sw s0 = true) as [Hhomes Huses] by (destruct Hs0 as [-> | ->]; done).
  destruct (wf_homes e Hwf) as [Hall Hdup]. rewrite Hs, Hhomes in Hall, Hdup.
  pose proof (proj1 (Forall_singleton home_ok _) Hall) as Hh. rewrite check_bind in Hcall. unfold check_this in Hnext.
  destruct (Z.eqb_spec c this) as [->|Hne].
  2: { unfold simulates. rewrite Hs, Hnext, Hrun. by erewrite (bind_err _ _ _ _ _ Hcall). }
  destruct (home_num _ Hh) as (_ & _ & Hn). cbn in Hn. pose proof (proj1 (proj2 Hh)) as Hf.
  destruct (restore_guest_file_spec m Hm this f (file_num f) (sw_file e) h Hf Hn (wf_sw e Hwf))
    as (h' & Hres & Hfr & Hregs & _).
  apply (simulates_move this _ e h (Bound this f) (sw_file e) h' f);
    [by rewrite Hs|done|done|apply Hwf|done|done| | |done|].
  - rewrite (imsic_bind _ _ _ _ _ _ _ Hres) in Hcall. rewrite Hrun. by rewrite (bind_ok _ _ _ _ _ Hcall).
  - rewrite Hs, Hhomes. set_solver.
  - intros id Hid. unfold pending. rewrite Hs, Hhomes, Huses. cbn -[hw_pending]. rewrite !orb_false_r.
    rewrite (restore_bits this f (sw_file e) h h' id Hid Hregs). apply orb_comm.
Qed.
Lemma bind_finish_simulates this e h : wf e → simulates this BindFinish e h.
Proof.
  intros Hwf. destruct (bind_status e) as [c f| | | | |] eqn:E.
  1: { apply (finish_simulates this c f e h _ (Ext.bind_imsic_finish m this) (Binding c f) BindingImsic); try done.
       - by left.
       - by intros [].
       - unfold Ext.bind_imsic_finish. by erewrite status_bind by exact E. }
  all: unfold simulates; rewrite E; cbn; unfold Ext.bind_imsic_finish;
    eapply bind_err; by erewrite status_bind by exact E.
Qed.
Lemma rebind_finish_simulates this e h : wf e → simulates this RebindFinish e h.
Proof.
  intros Hwf. destruct (bind_status e) as [| | |c f| |] eqn:E.
  4: { apply (finish_simulates this c f e h _ (Ext.rebind_imsic_finish m this) (Cloned c f) RebindingImsic); try done.
       - by right.
       - by intros [].
       - unfold Ext.rebind_imsic_finish. by erewrite status_bind by exact E. }
  all: unfold simulates; rewrite E; cbn; unfold Ext.rebind_imsic_finish;
    eapply bind_err; by erewrite status_bind by exact E.
Qed.
Lemma rebind_prepare_simulates this f e h :
  wf e → cpu_ok this → admissible this (RebindPrepare f) e → simulates this (RebindPrepare f) e h.
Proof.
  intros Hwf Hc [Hf Hnew]. destruct (bind_status e) as [|c old| | | |] eqn:E.
  2: destruct (Imsic.guest_vgein m f) as [g|] eqn:Hg.
  3: { unfold simulates. rewrite E. cbn. unfold check_file. rewrite Hg. unfold Ext.rebind_imsic_prepare.
       erewrite status_bind by exact E. by apply imsic_no_file. }
  1, 3-6: unfold simulates; rewrite E; cbn; unfold Ext.rebind_imsic_prepare; by erewrite status_bind by exact E.
  assert (home_ok (this, f)) as Hh by (apply this_home; eauto).
  destruct (home_num _ Hh) as (_ & _ & Hn). cbn in Hn.
  destruct (wf_homes e Hwf) as [Hall _]. rewrite E in Hall. pose proof (proj1 (Forall_singleton home_ok _) Hall) as Hold.
  destruct (clear_guest_file_spec m Hm this f (file_num f) (sw_file e) h Hf Hn) as (h' & Hcall & Hfr & Hzero).
  apply (simulates_move this _ e h (Rebinding c old this f) (sw_file e) h' f);
    [ |by intros []|done|apply Hwf| | | | |done|].
  - rewrite E. cbn. unfold check_file. by rewrite Hg.
  - by apply Forall_cons_2, Forall_singleton.
  - apply NoDup_cons_2; [set_solver|apply NoDup_singleton].
  - cbn. unfold Ext.rebind_imsic_prepare. erewrite status_bind by exact E. cbv beta match.
    by rewrite (imsic_bind _ _ _ _ _ _ _ Hcall).
  - set_solver.
  - intros id Hid. unfold pending. rewrite E. cbn -[hw_pending]. rewrite (clear_bits this f h' id Hid Hzero).
    rewrite (hw_pending_frame this f (c, old) h h' id) by (done || set_solver). by rewrite !orb_false_r.
Qed.
Lemma rebind_clone_simulates this e h : wf e → simulates this RebindClone e h.
Proof.
  intros Hwf. destruct (bind_status e) as [| |c f c' f'| | |] eqn:E.
  1, 2, 4-6: unfold simulates; rewrite E; cbn; unfold Ext.rebind_imsic_clone; by erewrite status_bind by exact E.
  destruct (wf_homes e Hwf) as [Hall Hdup]. rewrite E in Hall, Hdup.
  inversion_clear Hall as [|? ? Hh [|? ? Hh' _]]. inversion_clear Hdup as [|? ? Hne _].
  assert (run this RebindClone (e, h) = (Ext.check_cpu this c;;
    Ext.imsic BindingImsic (Imsic.save_guest_file_prepare m this f);;
    Ext.imsic RebindingImsic (Imsic.save_guest_file_finish m this f);;
    Ext.set_status (Cloned c' f')) (e, h)) as Hrun.
  { cbn. unfold Ext.rebind_imsic_clone. by erewrite status_bind by exact E. }
  rewrite check_bind in Hrun. destruct (Z.eqb_spec c this) as [->|Hc].
  2: { unfold simulates. rewrite E. cbn [next_status]. unfold check_this. by rewrite (proj2 (Z.eqb_neq c this)). }
  destruct (home_num _ Hh) as (_ & _ & Hn). cbn in Hn. pose proof (proj1 (proj2 Hh)) as Hf.
  destruct (save_guest_file_prepare_spec m Hm this f (file_num f) (sw_file e) h Hf Hn (wf_sw e Hwf))
    as (sw1 & h1 & Hcall1 & Hfr1 & Hregs1 & Hsw1 & Hent1 & _).
  destruct (save_guest_file_finish_spec m Hm this f (file_num f) sw1 h1 Hf Hn Hsw1)
    as (sw2 & h2 & Hcall2 & Hfr2 & _ & Hsw2 & Hent2 & _).
  assert (frame this (file_num f) h h2) as Hfr by eauto using frame_trans.
  apply (simulates_move this _ e h (Cloned c' f') sw2 h2 f);
    [ |by intros []|done|done|by apply Forall_singleton|apply NoDup_singleton| |rewrite E; cbn; set_solver|done|].
  - rewrite E. cbn. unfold check_this. by rewrite Z.eqb_refl.
  - rewrite Hrun, (imsic_bind _ _ _ _ _ _ _ Hcall1). by rewrite (imsic_bind _ _ (Ext.with_sw_file sw1 e) _ _ _ _ Hcall2).
  - intros id Hid. unfold pending. rewrite E. cbn -[hw_pending]. destruct (index_small id Hid) as [Hi _].
    unfold sw_pending. rewrite Hent2, Hent1, Z.lor_0_r, Hregs1 by (by cbn).
    rewrite (hw_pending_frame this f (c', f') h h2 id) by (done || set_solver). done.
Qed.
Lemma unbind_prepare_simulates this e h : wf e → simulates this UnbindPrepare e h.
Proof.
  intros Hwf. destruct (bind_status e) as [|c f| | | |] eqn:E.
  1, 3-6: unfold simulates; rewrite E; cbn; unfold Ext.unbind_imsic_prepare; by erewrite status_bind by exact E.
  destruct (wf_homes e Hwf) as [Hall Hdup]. rewrite E in Hall, Hdup.
  pose proof (proj1 (Forall_singleton home_ok _) Hall) as Hh.
  assert (run this UnbindPrepare (e, h) = (Ext.check_cpu this c;;
    Ext.imsic UnbindingImsic (Imsic.save_guest_file_prepare m this f);; Ext.set_status (Unbinding c f)) (e, h)) as Hrun.
  { cbn. unfold Ext.unbind_imsic_prepare. by erewrite status_bind by exact E. }
  rewrite check_bind in Hrun. destruct (Z.eqb_spec c this) as [->|Hc].
  2: { unfold simulates. rewrite E. cbn [next_status]. unfold check_this. by rewrite (proj2 (Z.eqb_neq c this)). }
  destruct (home_num _ Hh) as (_ & _ & Hn). cbn in Hn. pose proof (proj1 (proj2 Hh)) as Hf.
  destruct (save_guest_file_prepare_spec m Hm this f (file_num f) (sw_file e) h Hf Hn (wf_sw e Hwf))
    as (sw1 & h1 & Hcall1 & Hfr1 & Hregs1 & Hsw1 & Hent1 & _).
  apply (simulates_move this _ e h (Unbinding this f) sw1 h1 f);
    [ |by intros []|done|done|done|done| |rewrite E; cbn; set_solver|done|].
  - rewrite E. cbn. unfold check_this. by rewrite Z.eqb_refl.
  - by rewrite Hrun, (imsic_bind _ _ _ _ _ _ _ Hcall1).
  - intros id Hid. unfold pending. rewrite E. cbn. destruct (index_small id Hid) as [Hi _].
    unfold sw_pending, hw_pending. cbn. rewrite Hent1, Hregs1 by (by cbn). by rewrite Z.bits_0.
Qed.
Lemma unbind_finish_simulates this e h : wf e → simulates this UnbindFinish e h.
Proof.
  intros Hwf. destruct (bind_status e) as [| | | |c f|] eqn:E.
  1-4, 6: unfold simulates; rewrite E; cbn; unfold Ext.unbind_imsic_finish; by erewrite status_bind by exact E.
  destruct (wf_homes e Hwf) as [Hall Hdup]. rewrite E in Hall, Hdup.
  pose proof (proj1 (Forall_singleton home_ok _) Hall) as Hh.
  assert (run this UnbindFinish (e, h) = (Ext.check_cpu this c;;
    Ext.imsic UnbindingImsic (Imsic.save_guest_file_finish m this f);; Ext.set_status Unbound) (e, h)) as Hrun.
  { cbn. unfold Ext.unbind_imsic_finish. by erewrite status_bind by exact E. }
  rewrite check_bind in Hrun. destruct (Z.eqb_spec c this) as [->|Hc].
  2: { unfold simulates. rewrite E. cbn [next_status]. unfold check_this. by rewrite (proj2 (Z.eqb_neq c this)). }
  destruct (home_num _ Hh) as (_ & _ & Hn). cbn in Hn. pose proof (proj1 (proj2 Hh)) as Hf.
  destruct (save_guest_file_finish_spec m Hm this f (file_num f) (sw_file e) h Hf Hn (wf_sw e Hwf))
    as (sw1 & h1 & Hcall1 & Hfr1 & _ & Hsw1 & Hent1 & _).
  apply (simulates_move this _ e h Unbound sw1 h1 f);
    [ |by intros []|done|done|done|apply NoDup_nil_2| |rewrite E; cbn; set_solver|done|].
  - rewrite E. cbn. unfold check_this. by rewrite Z.eqb_refl.
  - by rewrite Hrun, (imsic_bind _ _ _ _ _ _ _ Hcall1).
  - intros id Hid. unfold pending. rewrite E. cbn. destruct (index_small id Hid) as [Hi _].
    unfold sw_pending, hw_pending. cbn. rewrite Hent1 by done. cbn. rewrite Z.lor_spec, !orb_false_r. apply orb_comm.
Qed.

(** *** The allow list *)
Lemma bit_spec id i : 0 ≤ i < 64 → Z.testbit (AllowList.bit id) i = (id mod 64 =? i).
Proof.
  intros Hi. unfold AllowList.bit. rewrite shl64_one by (apply Z.mod_pos_bound; lia).
  rewrite Z.pow2_bits_eqb by (apply Z.mod_pos_bound; lia). done.
Qed.
Lemma id_split id id' : (id / 64 =? id' / 64) && (id mod 64 =? id' mod 64) = (id =? id').
Proof.
  pose proof (Z.div_mod id 64). pose proof (Z.div_mod id' 64).
  destruct (Z.eqb_spec (id / 64) (id' / 64)), (Z.eqb_spec (id mod 64) (id' mod 64)), (Z.eqb_spec id id'); cbn; try done; subst; lia.
Qed.
Definition list_wf (a : AllowList.t) : Prop :=
  AllowList.num_ids a = Imsic.interrupt_ids m ∧ length (AllowList.bits a) = AllowList.entries_of (Imsic.interrupt_ids m).
Lemma wf_list e : wf e → list_wf (allowed_ids e).
Proof. intros []. by split. Qed.
Lemma bits_lookup a id : list_wf a → 0 < id < Imsic.interrupt_ids m → ∃ b, AllowList.bits a !! Z.to_nat (id / 64) = Some b.
Proof.
  intros [_ Hlen] Hid. apply lookup_lt_is_Some. rewrite Hlen. unfold AllowList.entries_of.
  destruct (index_small id Hid) as [Hi _]. unfold Imsic.num_ei_regs in Hi. lia.
Qed.
(** An update of the bit of one interrupt. *)
Lemma allow_update_spec a id g v :
  list_wf a → 0 < id < Imsic.interrupt_ids m →
  (∀ b i, 0 ≤ i < 64 → Z.testbit (g b) i = if id mod 64 =? i then v else Z.testbit b i) →
  ∃ a', AllowList.update id g a = Returns a' ∧ list_wf a' ∧
    ∀ id', 0 < id' < Imsic.interrupt_ids m → allowed a' id' = if id =? id' then v else allowed a id'.
Proof.
  intros Ha Hid Hg. destruct (bits_lookup a id Ha Hid) as [b Hb]. unfold AllowList.update. rewrite Hb. cbn.
  eexists. split; [done|]. split; [destruct Ha; split; cbn; by rewrite ?length_insert|].
  intros id' Hid'. unfold allowed. cbn. rewrite <- id_split. destruct (Z.eqb_spec (id / 64) (id' / 64)) as [Heq|Hne].
  - rewrite <- Heq, list_lookup_insert_eq, Hb by (by eapply lookup_lt_Some). cbn.
    apply Hg, Z.mod_pos_bound. lia.
  - rewrite list_lookup_insert_ne; [done|]. destruct (index_small id Hid), (index_small id' Hid'). lia.
Qed.
Lemma is_allowed_spec e id : wf e → 0 ≤ id →
  AllowList.is_allowed id (allowed_ids e) = Returns (bool_decide (id ∈ allowed_set e)).
Proof.
  intros Hwf%wf_list Hid. unfold AllowList.is_allowed. rewrite (proj1 Hwf).
  destruct (Z.ltb_spec id (Imsic.interrupt_ids m)), (Z.eqb_spec id 0); cbn;
    try (rewrite bool_decide_eq_false_2; [done|rewrite elem_of_allowed; lia]).
  destruct (bits_lookup (allowed_ids e) id Hwf ltac:(lia)) as [b Hb]. rewrite Hb. cbn. f_equal.
  assert (negb (Z.land b (AllowList.bit id) =? 0) = Z.testbit b (id mod 64)) as ->.
  { pose proof (Z.mod_pos_bound id 64). destruct (Z.testbit b (id mod 64)) eqn:Eb.
    - destruct (Z.eqb_spec (Z.land b (AllowList.bit id)) 0) as [Hz|]; [|done].
      assert (Z.testbit (Z.land b (AllowList.bit id)) (id mod 64) = true) as Ht; [|by rewrite Hz, Z.bits_0 in Ht].
      by rewrite Z.land_spec, Eb, bit_spec, Z.eqb_refl by lia.
    - rewrite (proj2 (Z.eqb_eq _ _)); [done|]. apply Z.bits_inj_iff'. intros i Hi. rewrite Z.land_spec, Z.bits_0.
      unfold AllowList.bit. rewrite shl64_one, Z.pow2_bits_eqb by lia.
      destruct (Z.eqb_spec (id mod 64) i) as [<-|]; [by rewrite Eb|apply andb_false_r]. }
  destruct (Z.testbit b (id mod 64)) eqn:Eb; symmetry; [apply bool_decide_eq_true_2|apply bool_decide_eq_false_2];
    rewrite elem_of_allowed; unfold allowed; rewrite Hb; cbn; rewrite Eb; [split; [lia|done]|naive_solver].
Qed.
(** A call that changes the allow list only. *)
Lemma simulates_list this o e h r a A :
  next_status this o (bind_status e) = Ok (bind_status e) → wf e →
  run this o (e, h) = Returns (r, (Ext.with_allowed a e, h)) → list_wf a →
  spec o (pending_set e h, allowed_set e) = (r, (pending_set e h, A)) →
  (∀ id, id ∈ A ↔ 0 < id < Imsic.interrupt_ids m ∧ allowed a id = true) → simulates this o e h.
Proof.
  intros Hs Hwf Hrun [Ha1 Ha2] Hspec HA. unfold simulates. rewrite Hs. eexists r, _, _, h.
  split; [exact Hrun|]. split; [exact Hspec|]. split; [done|]. split; [destruct Hwf; by split|].
  split; [|apply untouched_refl]. f_equal. apply set_eq. intros id. by rewrite HA, elem_of_allowed.
Qed.
Lemma with_allowed_eta e : Ext.with_allowed (allowed_ids e) e = e.
Proof. by destruct e. Qed.
Lemma out_of_range id : id ∉ ids → 0 ≤ id → (id =? 0) || (Imsic.interrupt_ids m <=? id) = true.
Proof. rewrite elem_of_ids. intros Hout Hid. destruct (Z.eqb_spec id 0), (Z.leb_spec (Imsic.interrupt_ids m) id); cbn; done || lia. Qed.
Lemma bit_u64 id : u64 (AllowList.bit id).
Proof. apply wrap64_u64. Qed.
Lemma allow_simulates this id e h : wf e → 0 ≤ id → simulates this (Allow id) e h.
Proof.
  intros Hwf Hid. pose proof (wf_list e Hwf) as Ha. destruct (decide (id ∈ ids)) as [Hin|Hout].
  - pose proof (proj1 (elem_of_ids id) Hin) as Hr.
    destruct (allow_update_spec (allowed_ids e) id (λ b, Z.lor b (AllowList.bit id)) true Ha Hr) as (a & Hu & Ha' & Hbits).
    { intros b i Hi. rewrite Z.lor_spec, bit_spec by done. by destruct (_ =? i), (Z.testbit b i). }
    apply (simulates_list this _ e h (Ok tt) a ({[id]} ∪ allowed_set e)); [done|done| |done| |].
    + cbn. unfold Ext.allow_interrupt, Ext.on_allowed, AllowList.allow_id. rewrite (proj1 Ha).
      rewrite (proj2 (Z.eqb_neq id 0)), (proj2 (Z.leb_gt _ _)) by lia. cbn. by rewrite Hu.
    + cbn. by rewrite decide_True.
    + intros id'. rewrite elem_of_union, elem_of_singleton, elem_of_allowed.
      destruct (Z.eq_dec id' id) as [->|Hne]; [rewrite Hbits, Z.eqb_refl by done; tauto|].
      split; [intros [|[Hr' Hal]]; [done|]|intros [Hr' Hal]; right]; (split; [done|]);
        rewrite Hbits, (proj2 (Z.eqb_neq id id')) in * by (done || congruence); done.
  - apply (simulates_list this _ e h (Err (VmInterruptError.InvalidInterruptId id)) (allowed_ids e) (allowed_set e));
      [done|done| |done|cbn; by rewrite decide_False|intros; apply elem_of_allowed].
    cbn. unfold Ext.allow_interrupt, Ext.on_allowed, AllowList.allow_id. rewrite (proj1 Ha), out_of_range by done.
    cbn. by rewrite with_allowed_eta.
Qed.
Lemma deny_simulates this id e h : wf e → 0 ≤ id → simulates this (Deny id) e h.
Proof.
  intros Hwf Hid. pose proof (wf_list e Hwf) as Ha. destruct (decide (id ∈ ids)) as [Hin|Hout].
  - pose proof (proj1 (elem_of_ids id) Hin) as Hr.
    destruct (allow_update_spec (allowed_ids e) id (λ b, Z.land b (not64 (AllowList.bit id))) false Ha Hr) as (a & Hu & Ha' & Hbits).
    { intros b i Hi. rewrite Z.land_spec, testbit_not64, bit_spec by (apply bit_u64 || done).
      by destruct (_ =? i), (Z.testbit b i). }
    apply (simulates_list this _ e h (Ok tt) a (allowed_set e ∖ {[id]})); [done|done| |done| |].
    + cbn. unfold Ext.deny_interrupt, Ext.on_allowed, AllowList.deny_id. rewrite (proj1 Ha).
      rewrite (proj2 (Z.eqb_neq id 0)), (proj2 (Z.leb_gt _ _)) by lia. cbn. by rewrite Hu.
    + cbn. by rewrite decide_True.
    + intros id'. rewrite elem_of_difference, elem_of_singleton, elem_of_allowed.
      destruct (Z.eq_dec id' id) as [->|Hne]; [rewrite Hbits, Z.eqb_refl by done; naive_solver|].
      split; [intros [[Hr' Hal] _]|intros [Hr' Hal]; split; [|done]]; (split; [done|]);
        rewrite Hbits, (proj2 (Z.eqb_neq id id')) in * by (done || congruence); done.
  - apply (simulates_list this _ e h (Err (VmInterruptError.InvalidInterruptId id)) (allowed_ids e) (allowed_set e));
      [done|done| |done|cbn; by rewrite decide_False|intros; apply elem_of_allowed].
    cbn. unfold Ext.deny_interrupt, Ext.on_allowed, AllowList.deny_id. rewrite (proj1 Ha), out_of_range by done.
    cbn. by rewrite with_allowed_eta.
Qed.
Lemma allow_all_simulates this e h : wf e → simulates this AllowAll e h.
Proof.
  intros Hwf. pose proof (wf_list e Hwf) as Ha.
  apply (simulates_list this _ e h (Ok tt) (AllowList.allow_all (allowed_ids e)) (list_to_set ids)); [done..| |done|].
  - destruct Ha. split; cbn; by rewrite ?length_map.
  - intros id. rewrite elem_of_list_to_set, elem_of_ids. split; [|tauto]. intros Hr. split; [done|].
    destruct (bits_lookup (allowed_ids e) id Ha Hr) as [b Hb]. unfold allowed. cbn. rewrite list_lookup_fmap, Hb. cbn.
    change U64_MAX with (Z.ones 64). rewrite Z.testbit_ones_nonneg by (try apply Z.mod_pos_bound; lia).
    apply Z.ltb_lt, Z.mod_pos_bound. lia.
Qed.
Lemma deny_all_simulates this e h : wf e → simulates this DenyAll e h.
Proof.
  intros Hwf. pose proof (wf_list e Hwf) as Ha.
  apply (simulates_list this _ e h (Ok tt) (AllowList.deny_all (allowed_ids e)) ∅); [done..| |done|].
  - destruct Ha. split; cbn; by rewrite ?length_map.
  - intros id. split; [set_solver|]. intros [Hr Hal].
    destruct (bits_lookup (allowed_ids e) id Ha Hr) as [b Hb]. unfold allowed in Hal. cbn in Hal.
    rewrite list_lookup_fmap, Hb in Hal. cbn in Hal. by rewrite Z.bits_0 in Hal.
Qed.

(** *** New interrupts *)
Lemma send_spec c f id e h :
  home_ok (c, f) → 0 < id < Imsic.interrupt_ids m →
  ∃ h', Ext.send m c f id (e, h) = Returns (Ok tt, (e, h')) ∧ frame c (file_num f) h h' ∧
    ∀ cf id', home_ok cf → 0 < id' < Imsic.interrupt_ids m →
      hw_pending h' id' cf = (bool_decide (cf = (c, f)) && (id =? id')) || hw_pending h id' cf.
Proof.
  intros Hh Hid. destruct (home_num _ Hh) as (Hk & Hrange & _). pose proof Hh as (Hpos & Hf & Hg & a & Haddr).
  cbn in *. exists (hw_seteipnum a id h).
  assert (∀ c' g' r', hw_file c' g' r' (hw_seteipnum a id h) =
    if (c =? c') && (file_num f =? g') && (raw (Eip (id / 64)) =? r')
    then Z.lor (hw_file c' g' r' h) (Z.shiftl 1 (id mod 64)) else hw_file c' g' r' h) as Hset.
  { intros. rewrite Hk in Haddr. rewrite (file_seteipnum a id c (file_num f - 1)) by (done || lia). by rewrite Z.sub_add. }
  split; [|split; [split|]].
  - unfold Ext.send, Imsic.send_ipi_raw. unfold lift. rewrite Haddr. cbn.
    by rewrite (proj2 (Z.eqb_neq id 0)), (proj2 (Z.leb_gt _ _)) by lia.
  - intros. apply vgein_seteipnum.
  - intros c' g' r' Hne. rewrite Hset. destruct (Z.eqb_spec c c'), (Z.eqb_spec (file_num f) g'); cbn; congruence || done.
  - intros [c' f'] id' Hh' Hid'. unfold hw_pending. cbn. rewrite Hset.
    destruct (index_small id Hid) as [Hi _], (index_small id' Hid') as [Hi' _].
    pose proof (Z.mod_pos_bound id 64 ltac:(lia)). pose proof (Z.mod_pos_bound id' 64 ltac:(lia)).
    rewrite <- (id_split id id'). case_bool_decide as Hcf.
    + injection Hcf as -> ->. rewrite !Z.eqb_refl. cbn. destruct (Z.eqb_spec (id / 64) (id' / 64)) as [Heq|Hne].
      * rewrite Heq, Z.eqb_refl, Z.lor_spec, Z.shiftl_1_l, Z.pow2_bits_eqb by lia. apply orb_comm.
      * by rewrite (proj2 (Z.eqb_neq _ _)) by (intros He%(to_raw_inj m); done || congruence).
    + destruct (Z.eqb_spec c c') as [->|], (Z.eqb_spec (file_num f) (file_num f')); [|done..].
      destruct Hcf. symmetry. by apply (home_num_inj (c', f) (c', f')).
Qed.
Lemma existsb_send c f id h h' l id' :
  Forall home_ok l → 0 < id' < Imsic.interrupt_ids m →
  (∀ cf id', home_ok cf → 0 < id' < Imsic.interrupt_ids m →
      hw_pending h' id' cf = (bool_decide (cf = (c, f)) && (id =? id')) || hw_pending h id' cf) →
  existsb (hw_pending h' id') l = (bool_decide ((c, f) ∈ l) && (id =? id')) || existsb (hw_pending h id') l.
Proof.
  intros Hl Hid' Hset. induction Hl as [|cf l Hcf Hl IH]; [done|]. cbn -[hw_pending]. rewrite IH, Hset by done.
  rewrite (bool_decide_ext ((c, f) ∈ cf :: l) (cf = (c, f) ∨ (c, f) ∈ l)) by set_solver. rewrite bool_decide_or.
  by destruct (bool_decide (cf = (c, f))), (bool_decide ((c, f) ∈ l)), (id =? id'), (hw_pending h id' cf), (existsb _ l).
Qed.
Lemma sw_inject id sw :
  sw_wf sw → 0 < id < Imsic.interrupt_ids m →
  ∃ sw', SwFile.set_eip_bit id sw = Returns sw' ∧ sw_wf sw' ∧
    ∀ id', 0 < id' < Imsic.interrupt_ids m → sw_pending sw' id' = (id =? id') || sw_pending sw id'.
Proof.
  intros Hsw Hid. destruct (index_small id Hid) as [_ Hi]. unfold SwFile.set_eip_bit. rewrite sw_at by done. cbn.
  eexists. split; [done|]. split; [solve_sw|]. intros id' Hid'. destruct (index_small id' Hid') as [_ Hi'].
  unfold sw_pending. rewrite sw_entry_set, <- (id_split id id') by solve_sw.
  destruct (Z.eqb_spec (id / 64) (id' / 64)) as [Heq|]; [|done]. cbn. rewrite <- Heq, Z.lor_spec.
  change (shl64 1 (id mod 64)) with (AllowList.bit id). rewrite bit_spec by (apply Z.mod_pos_bound; lia). apply orb_comm.
Qed.
Lemma pending_insert e e' h h' id :
  0 < id < Imsic.interrupt_ids m →
  (∀ id', 0 < id' < Imsic.interrupt_ids m → pending e' h' id' = (id =? id') || pending e h id') →
  pending_set e' h' = {[id]} ∪ pending_set e h.
Proof.
  intros Hid Hp. apply set_eq. intros id'. rewrite elem_of_union, elem_of_singleton, !elem_of_pending.
  destruct (Z.eq_dec id id') as [<-|Hne].
  - rewrite Hp, Z.eqb_refl by done. naive_solver.
  - split; [intros [Hr Ht]; right|intros [|[Hr Ht]]; [congruence|]]; (split; [done|]);
      rewrite Hp, (proj2 (Z.eqb_neq id id')) in * by done; done.
Qed.
Lemma msi_simulates this c f id e h : wf e → admissible this (Msi c f id) e → simulates this (Msi c f id) e h.
Proof.
  intros Hwf [Hin Hid]. destruct (wf_homes e Hwf) as [Hall _].
  pose proof (proj1 (list.Forall_forall _ _) Hall _ Hin) as Hh.
  destruct (send_spec c f id e h Hh Hid) as (h' & Hsend & Hfr & Hbits).
  unfold simulates. cbn. eexists _, _, e, h'. split; [done|]. split; [done|]. split; [done|]. split; [done|].
  split; [f_equal; apply pending_insert; [done|]|apply (untouched_frame c f); [set_solver|done]].
  intros id' Hid'. unfold pending. rewrite (existsb_send c f id h h' _ id' Hall Hid' Hbits), bool_decide_eq_true_2 by done.
  by destruct (_ && _), (id =? id'), (existsb _ _).
Qed.
Lemma inject_simulates this id e h : wf e → admissible this (Inject id) e → simulates this (Inject id) e h.
Proof.
  intros Hwf [Hid Hre]. unfold simulates. cbn. unfold Ext.inject_interrupt. rewrite is_allowed_spec by done. cbn.
  destruct (decide (id ∈ allowed_set e)) as [Hal|Hal].
  2: { rewrite bool_decide_eq_false_2 by done. cbn. eexists _, _, e, h. eauto 10 using untouched_refl. }
  rewrite bool_decide_eq_true_2 by done. cbn. apply elem_of_allowed in Hal as [Hr _].
  destruct (wf_homes e Hwf) as [Hall _]. destruct (sw_inject id (sw_file e) (wf_sw e Hwf) Hr) as (sw & Hset & Hsw & Hbits).
  assert (uses_sw (bind_status e) = true → ∃ (r : result VmInterruptError.t unit) (S : sets) e' h',
    (f ← SwFile.set_eip_bit id (sw_file e); Returns (@Ok VmInterruptError.t unit tt, (Ext.with_sw_file f e, h))) =
      Returns (r, (e', h')) ∧
    (Ok tt, ({[id]} ∪ pending_set e h, allowed_set e)) = (r, S) ∧ bind_status e' = bind_status e ∧ wf e' ∧
    (pending_set e' h', allowed_set e') = S ∧ untouched e e' h h') as Hsoft.
  { intros Hu. rewrite Hset. eexists _, _, _, h. split; [done|]. split; [done|]. split; [done|].
    split; [destruct Hwf; by split|]. split; [|apply untouched_refl]. f_equal. apply pending_insert; [done|].
    intros id' Hid'. unfold pending. cbn. rewrite Hu, Hbits by done. cbn. by rewrite orb_assoc. }
  destruct (bind_status e) as [|c f| | | |] eqn:E; [by apply Hsoft| |done|by apply Hsoft..].
  rewrite Z.mod_small by (unfold ids_ok, MAX_INTERRUPT_IDS in Hm; lia).
  pose proof (msi_simulates this c f id e h Hwf) as Hsim. unfold simulates in Hsim. cbn in Hsim. rewrite E in Hsim.
  apply Hsim. split; [set_solver|done].
Qed.
(** A call does what the specification says. *)
Lemma run_simulates this o e h : wf e → cpu_ok this → admissible this o e → simulates this o e h.
Proof.
  intros Hwf Hc Had. destruct o;
    eauto using bind_prepare_simulates, bind_finish_simulates, rebind_prepare_simulates, rebind_clone_simulates,
      rebind_finish_simulates, unbind_prepare_simulates, unbind_finish_simulates, allow_simulates,
      allow_all_simulates, deny_simulates, deny_all_simulates, inject_simulates, msi_simulates.
Qed.

(** The specification of a call: the next status, the result and the two sets. *)
Definition call_spec this o (s : BindStatus.t) (S : sets) : result VmInterruptError.t unit * (BindStatus.t * sets) :=
  match next_status this o s with
  | Err x => (Err x, (s, S))
  | Ok s => let '(r, S') := spec o S in (r, (s, S'))
  end.
Definition view e h : BindStatus.t * sets := (bind_status e, (pending_set e h, allowed_set e)).

(** C21: Wherever a vCPU is bound and however it moves, its pending interrupts are a
    set, and so are the interrupts that may be injected.  Every call on a well-formed
    vCPU returns, reports what the status machine and the sets say, and changes the
    sets accordingly: moves lose no interrupt and make none up, also when messages
    arrive meanwhile at the old or the new file, an injection adds exactly its
    interrupt and only if it is allowed.  The files of other vCPUs and the selected
    file of every CPU stay as they are.  The calls are those on files that the geometry
    has, a move goes to a file that is not in use, and nothing is injected while the
    vCPU is rebinding: such an interrupt is lost. *)
Theorem vcpu_interrupts_refine_set this o e h :
  wf e → cpu_ok this → admissible this o e →
  ∃ r e' h', run this o (e, h) = Returns (r, (e', h')) ∧ wf e' ∧
    call_spec this o (view e h).1 (view e h).2 = (r, view e' h') ∧ untouched e e' h h'.
Proof.
  intros Hwf Hc Had. pose proof (run_simulates this o e h Hwf Hc Had) as Hsim. unfold simulates in Hsim.
  unfold call_spec, view. cbn [fst snd]. destruct (next_status this o (bind_status e)) as [s|x].
  - destruct Hsim as (r & S' & e' & h' & Hrun & Hspec & Hs & Hwf' & HS & Hun). exists r, e', h'.
    rewrite Hspec, <- HS, <- Hs. done.
  - exists (Err x), e, h. split; [done|]. split; [done|]. split; [done|apply untouched_refl].
Qed.

(** ** A file moves as a whole *)
Fixpoint run_all (l : list (CpuId * op)) : M (Ext.t * H) VmInterruptError.t unit :=
  match l with
  | [] => mret tt
  | (this, o) :: l => run this o;; run_all l
  end.
Definition saves (sw : SwFile.t) (reg : ImsicRegister.t → Z) : Prop :=
  sw_wf sw ∧ (∀ i, 0 ≤ i < Imsic.num_ei_regs m → sw_entry sw i = SwFile.Entry (reg (Eip i)) (reg (Eie i))) ∧
  SwFile.eithreshold sw = reg Eithreshold ∧ SwFile.eidelivery sw = reg Eidelivery.
Definition regs (cf : CpuId * ImsicFileId.t) h (r : ImsicRegister.t) : Z := hw_file cf.1 (file_num cf.2) (raw r) h.

Lemma save_file c f sw h :
  home_ok (c, f) → sw_wf sw →
  ∃ sw1 h1 sw2 h2,
    Imsic.save_guest_file_prepare m c f (sw, h) = Returns (Ok tt, (sw1, h1)) ∧ frame c (file_num f) h h1 ∧
    Imsic.save_guest_file_finish m c f (sw1, h1) = Returns (Ok tt, (sw2, h2)) ∧ frame c (file_num f) h1 h2 ∧
    saves sw2 (regs (c, f) h).
Proof.
  intros Hh Hsw. destruct (home_num _ Hh) as (_ & _ & Hn). destruct Hh as (_ & Hf & _). cbn in *.
  destruct (save_guest_file_prepare_spec m Hm c f (file_num f) sw h Hf Hn Hsw)
    as (sw1 & h1 & Hcall1 & Hfr1 & Hregs1 & Hsw1 & Hent1 & Ht1 & Hd1).
  destruct (save_guest_file_finish_spec m Hm c f (file_num f) sw1 h1 Hf Hn Hsw1)
    as (sw2 & h2 & Hcall2 & Hfr2 & _ & Hsw2 & Hent2 & Ht2 & Hd2).
  exists sw1, h1, sw2, h2. do 4 (split; [done|]). unfold saves, regs. cbn [fst snd].
  split; [done|]. split; [|split; congruence].
  intros i Hi. rewrite Hent2, Hent1, Z.lor_0_r, Hregs1 by (by cbn). done.
Qed.
Lemma restore_file c f sw h h0 cf :
  home_ok (c, f) → home_ok cf → saves sw (regs cf h0) → (∀ r, valid_reg m r → regs (c, f) h r = 0) →
  ∃ h', Imsic.restore_guest_file m c f (sw, h) = Returns (Ok tt, (sw, h')) ∧
    ∀ r, valid_reg m r → regs (c, f) h' r = regs cf h0 r.
Proof.
  intros Hh Hcf (Hsw & Hent & Ht & Hd) Hzero. destruct (home_num _ Hh) as (_ & _ & Hn). destruct Hh as (_ & Hf & _). cbn in *.
  destruct (home_num _ Hcf) as (_ & Hrange & _). pose proof geilen_guests as Hgeilen.
  destruct (restore_guest_file_spec m Hm c f (file_num f) sw h Hf Hn Hsw) as (h' & Hcall & _ & Hei & Ht' & Hd').
  exists h'. split; [done|]. unfold regs in *. cbn in *. intros [| |i|i] Hr.
  - rewrite Hd', Hd. apply conform_file. lia.
  - rewrite Ht', Ht. apply conform_file. lia.
  - destruct (Hei i Hr) as [-> _]. rewrite Hzero, Z.lor_0_l, Hent by done. apply conform_file. lia.
  - destruct (Hei i Hr) as [_ ->]. rewrite Hent by done. apply conform_file. lia.
Qed.

Lemma clear_file c f sw h :
  home_ok (c, f) →
  ∃ h', Imsic.clear_guest_file m c f (sw, h) = Returns (Ok tt, (sw, h')) ∧ frame c (file_num f) h h' ∧
    ∀ r, valid_reg m r → regs (c, f) h' r = 0.
Proof. intros Hh. destruct (home_num _ Hh) as (_ & _ & Hn). destruct Hh as (_ & Hf & _). by apply clear_guest_file_spec. Qed.
Lemma regs_frame c f cf h h' r :
  home_ok (c, f) → home_ok cf → cf ≠ (c, f) → frame c (file_num f) h h' → regs cf h' r = regs cf h r.
Proof.
  intros Hh Hcf Hne [_ Hfr]. unfold regs. rewrite Hfr; [done|]. intros [= H1 H2]. apply Hne. by apply home_num_inj.
Qed.
(** The two ways to move a vCPU from one file to another. *)
Definition by_unbinding (c c' : CpuId) (f' : ImsicFileId.t) : list (CpuId * op) :=
  [(c, UnbindPrepare); (c, UnbindFinish); (c', BindPrepare f'); (c', BindFinish)].
Definition by_rebinding (c c' : CpuId) (f' : ImsicFileId.t) : list (CpuId * op) :=
  [(c', RebindPrepare f'); (c, RebindClone); (c', RebindFinish)].

(** What each call of a move does with the file and the hardware. *)
Section calls.
Variables (c : CpuId) (f : ImsicFileId.t) (e : Ext.t) (h : H) (sw : SwFile.t) (h' : H).
Notation moved s := (Returns (Ok tt, (Ext.with_status s (Ext.with_sw_file sw e), h'))).
Ltac run_call op :=
  intros Hs Hcall; cbn; unfold op; erewrite status_bind by exact Hs; cbv beta match;
  rewrite ?check_bind, ?Z.eqb_refl, ?bool_decide_eq_true_2 by done; by rewrite (imsic_bind _ _ _ _ _ _ _ Hcall).
Lemma run_bind_prepare :
  bind_status e = Unbound → Imsic.clear_guest_file m c f (sw_file e, h) = Returns (Ok tt, (sw, h')) →
  run c (BindPrepare f) (e, h) = moved (Binding c f).
Proof. run_call @Ext.bind_imsic_prepare. Qed.
Lemma run_rebind_prepare c0 f0 :
  bind_status e = Bound c0 f0 → Imsic.clear_guest_file m c f (sw_file e, h) = Returns (Ok tt, (sw, h')) →
  run c (RebindPrepare f) (e, h) = moved (Rebinding c0 f0 c f).
Proof. run_call @Ext.rebind_imsic_prepare. Qed.
Lemma run_unbind_prepare :
  bind_status e = Bound c f → Imsic.save_guest_file_prepare m c f (sw_file e, h) = Returns (Ok tt, (sw, h')) →
  run c UnbindPrepare (e, h) = moved (Unbinding c f).
Proof. run_call @Ext.unbind_imsic_prepare. Qed.
Lemma run_unbind_finish :
  bind_status e = Unbinding c f → Imsic.save_guest_file_finish m c f (sw_file e, h) = Returns (Ok tt, (sw, h')) →
  run c UnbindFinish (e, h) = moved Unbound.
Proof. run_call @Ext.unbind_imsic_finish. Qed.
Lemma run_rebind_clone c0 f0 sw1 h1 :
  bind_status e = Rebinding c f c0 f0 → Imsic.save_guest_file_prepare m c f (sw_file e, h) = Returns (Ok tt, (sw1, h1)) →
  Imsic.save_guest_file_finish m c f (sw1, h1) = Returns (Ok tt, (sw, h')) →
  run c RebindClone (e, h) = moved (Cloned c0 f0).
Proof.
  intros Hs Hcall1 Hcall2. cbn. unfold Ext.rebind_imsic_clone. erewrite status_bind by exact Hs. cbv beta match.
  rewrite check_bind, Z.eqb_refl, (imsic_bind _ _ _ _ _ _ _ Hcall1).
  by rewrite (imsic_bind _ _ (Ext.with_sw_file sw1 e) _ _ _ _ Hcall2).
Qed.
Lemma run_finish o :
  o = BindFinish ∧ bind_status e = Binding c f ∨ o = RebindFinish ∧ bind_status e = Cloned c f →
  Imsic.restore_guest_file m c f (sw_file e, h) = Returns (Ok tt, (sw, h')) →
  run c o (e, h) = moved (Bound c f).
Proof.
  intros [[-> Hs]|[-> Hs]] Hcall; cbn; [unfold Ext.bind_imsic_finish|unfold Ext.rebind_imsic_finish];
    (erewrite bind_ok; [reflexivity|]); erewrite status_bind by exact Hs; cbv beta match;
    rewrite check_bind, Z.eqb_refl; by rewrite (imsic_bind _ _ _ _ _ _ _ Hcall).
Qed.
End calls.

Lemma run_all_cons this o l e h e' h' :
  run this o (e, h) = Returns (Ok tt, (e', h')) → run_all ((this, o) :: l) (e, h) = run_all l (e', h').
Proof. intros Hrun. cbn [run_all]. by rewrite (bind_ok _ _ _ _ _ Hrun). Qed.
Lemma unbinding_moves c f c' f' e h :
  home_ok (c, f) → home_ok (c', f') → sw_wf (sw_file e) → bind_status e = Bound c f →
  ∃ e' h', run_all (by_unbinding c c' f') (e, h) = Returns (Ok tt, (e', h')) ∧ bind_status e' = Bound c' f' ∧
    ∀ r, valid_reg m r → regs (c', f') h' r = regs (c, f) h r.
Proof.
  intros Hh Hh' Hsw Hs.
  destruct (save_file c f (sw_file e) h Hh Hsw) as (sw1 & h1 & sw2 & h2 & Hc1 & _ & Hc2 & _ & Hsaves).
  destruct (clear_file c' f' sw2 h2 Hh') as (h3 & Hc3 & _ & Hzero).
  destruct (restore_file c' f' sw2 h3 h (c, f) Hh' Hh Hsaves Hzero) as (h4 & Hc4 & Hregs).
  unfold by_unbinding.
  rewrite (run_all_cons _ _ _ _ _ _ _ (run_unbind_prepare c f e h sw1 h1 Hs Hc1)).
  erewrite run_all_cons by (apply (run_unbind_finish c f _ h1 sw2 h2); [reflexivity|exact Hc2]).
  erewrite run_all_cons by (apply (run_bind_prepare c' f' _ h2 sw2 h3); [reflexivity|exact Hc3]).
  erewrite run_all_cons by (apply (run_finish c' f' _ h3 sw2 h4); [by left|exact Hc4]).
  eexists _, h4. split; [reflexivity|]. by split.
Qed.
Lemma rebinding_moves c f c' f' e h :
  home_ok (c, f) → home_ok (c', f') → sw_wf (sw_file e) → (c', f') ≠ (c, f) → bind_status e = Bound c f →
  ∃ e' h', run_all (by_rebinding c c' f') (e, h) = Returns (Ok tt, (e', h')) ∧ bind_status e' = Bound c' f' ∧
    ∀ r, valid_reg m r → regs (c', f') h' r = regs (c, f) h r.
Proof.
  intros Hh Hh' Hsw Hne Hs.
  destruct (clear_file c' f' (sw_file e) h Hh') as (h1 & Hc1 & Hfr1 & Hzero).
  destruct (save_file c f (sw_file e) h1 Hh Hsw) as (sw2 & h2 & sw3 & h3 & Hc2 & Hfr2 & Hc3 & Hfr3 & Hsaves).
  destruct (restore_file c' f' sw3 h3 h1 (c, f) Hh' Hh Hsaves) as (h4 & Hc4 & Hregs).
  { intros r Hr. rewrite (regs_frame c f _ h2 h3), (regs_frame c f _ h1 h2) by done. auto. }
  unfold by_rebinding.
  rewrite (run_all_cons _ _ _ _ _ _ _ (run_rebind_prepare c' f' e h (sw_file e) h1 _ _ Hs Hc1)).
  erewrite run_all_cons by (apply (run_rebind_clone c f _ h1 sw3 h3 c' f' sw2 h2); [reflexivity|exact Hc2|exact Hc3]).
  erewrite run_all_cons by (apply (run_finish c' f' _ h3 sw3 h4); [by right|exact Hc4]).
  eexists _, h4. split; [reflexivity|]. split; [done|]. intros r Hr. rewrite Hregs by done.
  by apply (regs_frame c' f').
Qed.

(** C22: A vCPU takes its interrupt file along.  Moving a bound vCPU to another guest
    interrupt file, of any CPU, succeeds, and then every register of the new file,
    pending and enabled interrupts, threshold and delivery, holds what the old one
    held, whether the vCPU is unbound and bound again or rebound. *)
Theorem interrupt_file_moves c f c' f' e h l :
  wf e → bind_status e = Bound c f → home_ok (c', f') → (c', f') ≠ (c, f) →
  l = by_unbinding c c' f' ∨ l = by_rebinding c c' f' →
  ∃ e' h', run_all l (e, h) = Returns (Ok tt, (e', h')) ∧ bind_status e' = Bound c' f' ∧
    ∀ r, valid_reg m r → regs (c', f') h' r = regs (c, f) h r.
Proof.
  intros Hwf Hs Hh' Hne Hl. destruct (wf_homes e Hwf) as [Hall _]. rewrite Hs in Hall.
  pose proof (proj1 (Forall_singleton home_ok _) Hall) as Hh. pose proof (wf_sw e Hwf).
  destruct Hl as [-> | ->]; eauto using unbinding_moves, rebinding_moves.
Qed.

Lemma simulates_ok this o e h s :
  simulates this o e h → next_status this o (bind_status e) = Ok s → (∀ S, spec o S = (Ok tt, S)) →
  ∃ e' h', run this o (e, h) = Returns (Ok tt, (e', h')) ∧ bind_status e' = s ∧ wf e' ∧
    pending_set e' h' = pending_set e h ∧ allowed_set e' = allowed_set e.
Proof.
  unfold simulates. intros Hsim Hn Hspec. rewrite Hn in Hsim.
  destruct Hsim as (r & S' & e' & h' & Hrun & HS & Hs & Hwf & Hview & _).
  rewrite Hspec in HS. injection HS as <- <-. injection Hview as HP HA. eauto 10.
Qed.
(** While the vCPU is rebound, an injection goes to the software file, which is not
    in use. *)
Lemma inject_rebinding c0 id e h c f c' f' :
  wf e → bind_status e = Rebinding c f c' f' → id ∈ allowed_set e →
  ∃ e', run c0 (Inject id) (e, h) = Returns (Ok tt, (e', h)) ∧ wf e' ∧ bind_status e' = bind_status e ∧
    pending_set e' h = pending_set e h.
Proof.
  intros Hwf Hs Hal. pose proof (proj1 (elem_of_allowed _ _) Hal) as [Hr _].
  destruct (sw_inject id (sw_file e) (wf_sw e Hwf) Hr) as (sw & Hset & Hsw & _).
  exists (Ext.with_sw_file sw e). split; [|split; [destruct Hwf; by split|split; [done|]]].
  - cbn. unfold Ext.inject_interrupt. rewrite is_allowed_spec, bool_decide_eq_true_2 by (done || lia). cbn.
    by rewrite Hs, Hset.
  - apply pending_set_eq. intros id' _. unfold pending. cbn. by rewrite Hs.
Qed.

(** C38: An interrupt that is injected while a vCPU moves can get lost.  Between the
    first call of a move, which makes the vCPU leave its old file, and the second one,
    which copies that file, an injection is stored in the software file and reported
    as done; the copy then overwrites the software file. *)
Theorem injection_while_rebinding_is_lost c f c' f' c0 id e h :
  wf e → cpu_ok c → cpu_ok c' → bind_status e = Bound c f → home_ok (c', f') → (c', f') ≠ (c, f) →
  id ∈ allowed_set e → id ∉ pending_set e h →
  ∃ e' h', run_all [(c', RebindPrepare f'); (c0, Inject id); (c, RebindClone); (c', RebindFinish)] (e, h) =
      Returns (Ok tt, (e', h')) ∧
    bind_status e' = Bound c' f' ∧ id ∉ pending_set e' h'.
Proof.
  intros Hwf Hc Hc' Hs Hh' Hne Hal Hnot.
  assert (next_status c' (RebindPrepare f') (bind_status e) = Ok (Rebinding c f c' f')) as Hn1.
  { rewrite Hs. cbn. unfold check_file. destruct Hh' as (_ & _ & [g Hg] & _). cbn in Hg. by rewrite Hg. }
  destruct (simulates_ok c' (RebindPrepare f') e h (Rebinding c f c' f')) as (e1 & h1 & Hrun1 & Hs1 & Hwf1 & HP1 & HA1).
  { apply rebind_prepare_simulates; [done..|]. split; [apply Hh'|]. rewrite Hs. cbn. set_solver. }
  { done. } { by intros []. }
  destruct (inject_rebinding c0 id e1 h1 c f c' f' Hwf1 Hs1) as (e2 & Hrun2 & Hwf2 & Hs2 & HP2); [by rewrite HA1|].
  destruct (simulates_ok c RebindClone e2 h1 (Cloned c' f')) as (e3 & h3 & Hrun3 & Hs3 & Hwf3 & HP3 & _).
  { by apply rebind_clone_simulates. } { rewrite Hs2, Hs1. cbn. unfold check_this. by rewrite Z.eqb_refl. } { by intros []. }
  destruct (simulates_ok c' RebindFinish e3 h3 (Bound c' f')) as (e4 & h4 & Hrun4 & Hs4 & Hwf4 & HP4 & _).
  { by apply rebind_finish_simulates. } { rewrite Hs3. cbn. unfold check_this. by rewrite Z.eqb_refl. } { by intros []. }
  exists e4, h4. rewrite (run_all_cons _ _ _ _ _ _ _ Hrun1), (run_all_cons _ _ _ _ _ _ _ Hrun2).
  rewrite (run_all_cons _ _ _ _ _ _ _ Hrun3), (run_all_cons _ _ _ _ _ _ _ Hrun4).
  split; [done|]. split; [done|]. by rewrite HP4, HP3, HP2, HP1.
Qed.
End moves.

(** ** A concrete IMSIC with two CPUs of two guest interrupt files each *)
Definition example_imsic : Imsic.t :=
  Imsic.mk [Some (ImsicPerCpu.mk 0 0 0 false); Some (ImsicPerCpu.mk 0 1 1 false)] []
    (ImsicGeometry.mk 0x28000000 0 24 1 2 2) 100 1.
Record example_hw := ExampleHw { selected : CpuId → Z; file_of : CpuId → Z → Z → Z }.
Definition legal_vgein (g : Z) : Z := if (0 <=? g) && (g <=? 2) then g else 0.
Definition set_selected (c : CpuId) (g : Z) (h : example_hw) : example_hw :=
  ExampleHw (λ c', if c =? c' then legal_vgein g else selected h c') (file_of h).
Definition set_file (c : CpuId) (g r v : Z) (h : example_hw) : example_hw :=
  ExampleHw (selected h) (λ c' g' r', if (c =? c') && (g =? g') && (r =? r') then v else file_of h c' g' r').
Definition example_files : list (CpuId * Z) := [(0, 0); (0, 1); (1, 0); (1, 1)].
Definition addressed (a : Z) : option (CpuId * Z) :=
  find (λ cf, match Imsic.phys_file_addr example_imsic cf.1 (ImsicFileId.Guest cf.2) with
              | Ok a' => a' =? a | Err _ => false end) example_files.
Definition store_msi (a id : Z) (h : example_hw) : example_hw :=
  match addressed a with
  | None => h
  | Some (c, f) =>
      let r := ImsicRegister.to_raw (Eip (id / 64)) in
      set_file c (f + 1) r (Z.lor (file_of h c (f + 1) r) (Z.shiftl 1 (id mod 64))) h
  end.
#[local] Instance example_hw_ops : ImsicHw example_hw := {
  hw_vgein c h := legal_vgein (selected h c);
  hw_set_vgein := set_selected;
  hw_vsireg c r h := file_of h c (legal_vgein (selected h c)) r;
  hw_set_vsireg c r v h := set_file c (legal_vgein (selected h c)) r v h;
  hw_set_sireg _ _ _ h := h;
  hw_sireg _ _ _ := 0;
  hw_claim _ h := (0, h);
  hw_seteipnum := store_msi
}.
Lemma legal_vgein_range g : 0 ≤ legal_vgein g ≤ 2.
Proof. unfold legal_vgein. destruct (Z.leb_spec 0 g), (Z.leb_spec g 2); cbn; lia. Qed.
Lemma legal_vgein_id g : 0 ≤ g ≤ 2 → legal_vgein g = g.
Proof. intros. unfold legal_vgein. by rewrite (proj2 (Z.leb_le 0 g)), (proj2 (Z.leb_le g 2)) by lia. Qed.
Lemma example_file c g r (h : example_hw) : hw_file c g r h = file_of h c (legal_vgein g) r.
Proof.
  unfold hw_file. cbn. rewrite Z.eqb_refl. by rewrite (legal_vgein_id (legal_vgein g)) by apply legal_vgein_range.
Qed.
Lemma example_cpu c f a :
  0 ≤ c → Imsic.phys_file_addr example_imsic c f = Ok a → c = 0 ∨ c = 1.
Proof.
  intros Hc. unfold Imsic.phys_file_addr, Imsic.phys_file_location, ImsicCpuState.get_cpu. cbn.
  destruct (Z.to_nat c) as [|[|k]] eqn:E; [lia|lia|done].
Qed.
Lemma addressed_ok c f a :
  0 ≤ c → 0 ≤ f < 2 → Imsic.phys_file_addr example_imsic c (ImsicFileId.Guest f) = Ok a → addressed a = Some (c, f).
Proof.
  intros Hc Hf Ha. destruct (example_cpu c _ a Hc Ha) as [-> | ->];
    (assert (f = 0 ∨ f = 1) as [-> | ->] by lia); vm_compute in Ha; injection Ha as <-; reflexivity.
Qed.
#[local, refine] Instance example_hw_laws : ImsicHwLaws example_hw example_imsic := {
  geilen := 2; conform _ v := v }.
Proof.
  - cbn. lia.
  - lia.
  - intros. apply legal_vgein_range.
  - intros c c' g h Hg. cbn. destruct (c =? c'); [|done]. by rewrite !legal_vgein_id by (rewrite ?legal_vgein_id; lia).
  - intros. by rewrite !example_file.
  - intros. rewrite example_file. cbn. by rewrite (legal_vgein_id (legal_vgein _)) by apply legal_vgein_range.
  - done.
  - done.
  - done.
  - done.
  - intros c c' g' r r' v h Hne. rewrite !example_file. cbn in *.
    destruct (Z.eqb_spec (legal_vgein (selected h c)) g') as [<-|Hg].
    + rewrite (legal_vgein_id (legal_vgein _)), Z.eqb_refl by apply legal_vgein_range. done.
    + rewrite !andb_false_r. cbn. destruct (Z.eqb_spec (legal_vgein (selected h c)) (legal_vgein g')) as [Heq|];
        [|by rewrite andb_false_r].
      exfalso. revert Heq Hne Hg. unfold legal_vgein at 2. destruct (_ && _); lia.
  - intros a id c h. cbn. unfold store_msi. by destruct (addressed a) as [[]|].
  - intros a id c f c' g' r' h Hc Hf Ha Hid. rewrite !example_file. cbn. unfold store_msi.
    rewrite (addressed_ok c f a Hc Hf Ha). cbn.
    destruct (Z.eqb_spec (f + 1) g') as [<-|Hg].
    + cbn in Hf. rewrite legal_vgein_id, Z.eqb_refl by lia. cbn in Hf.
      destruct (Z.eqb_spec c c') as [->|]; [|done]. cbn. by case (Z.eqb_spec _ r'); intros; subst.
    + rewrite !andb_false_r. cbn. destruct (Z.eqb_spec (f + 1) (legal_vgein g')) as [Heq|]; [|by rewrite andb_false_r].
      exfalso. cbn in Hf. revert Heq Hg. unfold legal_vgein. destruct (_ && _); lia.
Defined.
Definition quiet : example_hw := ExampleHw (λ _, 0) (λ _ _ _, 0).
(** A vCPU with a bind status that may receive every interrupt. *)
Definition example_vcpu (s : BindStatus.t) : Ext.t :=
  Ext.mk s (ImsicLocation.mk 0 0 ImsicFileId.Supervisor) SwFile.new
    (AllowList.allow_all (AllowList.mk (replicate 2 0) 100)) 2.
Notation file0 := (ImsicFileId.Guest 0).
Notation file1 := (ImsicFileId.Guest 1).

Lemma example_ids_ok : ids_ok example_imsic.
Proof. unfold ids_ok, MAX_INTERRUPT_IDS. cbn. lia. Qed.
Lemma example_cpu_ok c : c = 0 ∨ c = 1 → cpu_ok example_imsic c.
Proof.
  intros Hc. split; [lia|]. intros [|k] Hf [g Hg]; [done|]. cbn in Hf. unfold Imsic.guest_vgein in Hg. cbn in Hg.
  destruct (Z.ltb_spec k 2) as [Hk|]; [|done]. assert (k = 0 ∨ k = 1) as [-> | ->] by lia;
    destruct Hc as [-> | ->]; eexists; reflexivity.
Qed.
Lemma example_home_ok c f : c = 0 ∨ c = 1 → f = file0 ∨ f = file1 → home_ok example_imsic (c, f).
Proof.
  intros Hc Hf. apply (this_home (H := example_hw) example_imsic example_ids_ok); [by apply example_cpu_ok|..]; destruct Hf as [-> | ->]; done || by eexists.
Qed.
Lemma example_wf : wf example_imsic (example_vcpu (Bound 0 file0)).
Proof. split; try reflexivity. split; [|apply NoDup_singleton]. apply Forall_singleton, example_home_ok; auto. Qed.

Lemma vcpu_interrupts_refine_set_witness :
  ∃ r e' h', run example_imsic 1 (Inject 70) (example_vcpu (Bound 0 file0), quiet) = Returns (r, (e', h')) ∧
    wf example_imsic e' ∧
    call_spec example_imsic 1 (Inject 70) (bind_status (example_vcpu (Bound 0 file0)))
      (view example_imsic (example_vcpu (Bound 0 file0)) quiet).2 = (r, view example_imsic e' h') ∧
    untouched example_imsic (example_vcpu (Bound 0 file0)) e' quiet h'.
Proof.
  apply (vcpu_interrupts_refine_set example_imsic example_ids_ok 1 (Inject 70)).
  - apply example_wf.
  - apply example_cpu_ok. auto.
  - cbn. lia.
Defined.
Lemma interrupt_file_moves_witness :
  ∃ e' h', run_all example_imsic (by_rebinding 0 1 file1) (example_vcpu (Bound 0 file0), quiet) =
      Returns (Ok tt, (e', h')) ∧ bind_status e' = Bound 1 file1 ∧
    ∀ r, valid_reg example_imsic r → regs example_imsic (1, file1) h' r = regs example_imsic (0, file0) quiet r.
Proof.
  apply (interrupt_file_moves example_imsic example_ids_ok 0 file0 1 file1); [apply example_wf|done| |done|by right].
  apply example_home_ok; auto.
Defined.
Lemma injection_while_rebinding_is_lost_witness :
  ∃ e' h', run_all example_imsic [(1, RebindPrepare file1); (1, Inject 70); (0, RebindClone); (1, RebindFinish)]
      (example_vcpu (Bound 0 file0), quiet) = Returns (Ok tt, (e', h')) ∧
    bind_status e' = Bound 1 file1 ∧ 70 ∉ pending_set example_imsic e' h'.
Proof.
  apply (injection_while_rebinding_is_lost example_imsic example_ids_ok 0 file0 1 file1 1 70);
    [apply example_wf|apply example_cpu_ok; auto..|done|apply example_home_ok; auto|done| |].
  - by apply (elem_of_allowed (H := example_hw) example_imsic example_ids_ok).
  - intros [_ Hp]%(elem_of_pending example_imsic example_ids_ok). discriminate Hp.
Defined.
