(* ===== verification/CpuInfo.v ===== *)
(** * CPU features and topology (drivers/src/cpu.rs)

    What the hypervisor reads from the CPU nodes of its device tree, and the CPU nodes
    that it adds to the device tree of the host. *)
From stdpp Require Import strings.
From S2P Require Import Prelude Imsic ImsicCore DeviceTree.
Open Scope string_scope.
Open Scope list_scope.
Open Scope Z_scope.

Definition MAX_ISA_STRING_LEN : nat := 256.
Definition MAX_CPUS : nat := 128.

(** ** Queries *)

(** [find] on an iterator over nodes, with a closure that may panic; the iterator goes
    on behind the node that is found.  The iterator yields a node at most once. *)
Fixpoint find_in_iter (fuel : nat) (a : DeviceTreeIter.tree) (p : DeviceTreeNode.t → outcome bool) (it : DeviceTreeIter.t) :
  outcome (option DeviceTreeNode.t * DeviceTreeIter.t) :=
  match fuel with
  | O => Panics
  | S fuel =>
      '(r, it) ← DeviceTreeIter.next a it;
      match r with
      | None => Returns (None, it)
      | Some n => b ← p n; if b : bool then Returns (Some n, it) else find_in_iter fuel a p it
      end
  end.
Definition iter_fuel (d : DeviceTree.t) : nat := S (length (Arena.vals (DeviceTree.node_arena d))).
Definition find_node (d : DeviceTree.t) (p : DeviceTreeNode.t → outcome bool) (it : DeviceTreeIter.t) :=
  find_in_iter (iter_fuel d) (DeviceTree.node_arena d) p it.
Definition name_is (s : string) (n : DeviceTreeNode.t) : outcome bool :=
  x ← DeviceTreeNode.name n; Returns (Str.eqb x (Str.lit s)).
(** [node.props().find(|p| p.name() == name)] *)
Fixpoint find_prop_in (name : bytes) (l : list DeviceTreeProp.t) : outcome (option DeviceTreeProp.t) :=
  match l with
  | [] => Returns None
  | p :: l => n ← DeviceTreeProp.name p;
              if Str.eqb n name then Returns (Some p) else find_prop_in name l
  end.
Definition find_prop (name : string) (n : DeviceTreeNode.t) : outcome (option DeviceTreeProp.t) :=
  find_prop_in (Str.lit name) (DeviceTreeNode.props n).
(** [.value_u32().next()] *)
Definition first_u32 (p : DeviceTreeProp.t) : option Z := head (DeviceTreeProp.value_u32 p).

(** ** Names *)
Definition hex_digit (n : Z) : Z := if n <? 10 then 48 + n else 87 + n.
Fixpoint hex_digits (fuel : nat) (n : Z) (acc : bytes) : bytes :=
  match fuel with
  | O => acc
  | S fuel => let acc := hex_digit (n mod 16) :: acc in
              if n / 16 =? 0 then acc else hex_digits fuel (n / 16) acc
  end.
(** [{:x}] of a 64-bit number *)
Definition hex (n : Z) : bytes := hex_digits 16 n [].
(** [fmt::write] to an [ArrayString] and its [unwrap] *)
Definition array_string (capacity : nat) (s : bytes) : outcome bytes :=
  if (length s <=? capacity)%nat then Returns s else Panics.
(** [push] to an [ArrayVec], which panics if it is full *)
Definition array_push {A} (capacity : nat) (l : list A) (x : A) : outcome (list A) :=
  if (length l <? capacity)%nat then Returns (l ++ [x]) else Panics.

(** ** ISA strings *)
(** [str::split] at a byte that is a character of its own *)
Fixpoint split_at (sep : Z) (s : bytes) : list bytes :=
  match s with
  | [] => [[]]
  | b :: s => if b =? sep then [] :: split_at sep s
              else match split_at sep s with
                   | [] => [[b]]
                   | w :: ws => (b :: w) :: ws
                   end
  end.
Definition UNDERSCORE : Z := 95.
Definition isa_string_has_extension (isa_string : bytes) (extension : string) : bool :=
  existsb (λ f, Str.eqb f (Str.lit extension)) (split_at UNDERSCORE isa_string).
(** [chars().skip(n)]: a character is a byte that is no continuation, with those that
    follow it. *)
Fixpoint skip_conts (s : bytes) : bytes :=
  match s with
  | b :: s' => if Str.is_cont b then skip_conts s' else s
  | [] => []
  end.
Fixpoint skip_chars (n : nat) (s : bytes) : bytes :=
  match n with
  | O => s
  | S n => match s with [] => [] | _ :: s => skip_chars n (skip_conts s) end
  end.
Definition isa_string_has_base_extension (isa_string : bytes) (extension : Z) : bool :=
  match head (split_at UNDERSCORE isa_string) with
  | Some s => existsb (Z.eqb extension) (skip_chars 4 s)
  | None => false
  end.

Module CpuInfo.
Record t := mk {
  has_aia : bool;
  has_sstc : bool;
  has_sscofpmf : bool;
  has_vector : bool;
  timer_frequency : Z;
  isa_string : bytes;
  hart_ids : list Z;
  intc_phandles : list Z
}.

Definition hart_id_from_cpu_node (n : DeviceTreeNode.t) : outcome Z :=
  r ← find_prop "reg" n;
  p ← unwrap_option r;
  unwrap_option (first_u32 p).
Definition intc_node_from_cpu_node (d : DeviceTree.t) (n : DeviceTreeNode.t) : outcome DeviceTreeNode.t :=
  id ← DeviceTreeNode.id n;
  it ← unwrap_result (DeviceTree.iter_from d id);
  '(r, _) ← find_node d (name_is "interrupt-controller") it;
  unwrap_option r.
Definition intc_phandle_from_cpu_node (d : DeviceTree.t) (n : DeviceTreeNode.t) : outcome Z :=
  intc_node ← intc_node_from_cpu_node d n;
  r ← find_prop "phandle" intc_node;
  p ← unwrap_option r;
  unwrap_option (first_u32 p).

(** A node with [device_type] "cpu" *)
Definition is_cpu (n : DeviceTreeNode.t) : outcome bool :=
  DeviceTreeNode.any (λ p, pn ← DeviceTreeProp.name p;
                           Returns (Str.eqb pn (Str.lit "device_type") &&
                                    Str.eqb (DeviceTreeNode.str_or_empty p) (Str.lit "cpu")))
    (DeviceTreeNode.props n).
(** The loop over the CPUs that the iterator yields *)
Fixpoint cpus_loop (fuel : nat) (d : DeviceTree.t) (it : DeviceTreeIter.t) (hart_ids intc_phandles : list Z) :
  outcome (list Z * list Z) :=
  match fuel with
  | O => Panics
  | S fuel =>
      '(r, it) ← find_node d is_cpu it;
      match r with
      | None => Returns (hart_ids, intc_phandles)
      | Some cpu =>
          h ← hart_id_from_cpu_node cpu;
          hart_ids ← array_push MAX_CPUS hart_ids h;
          p ← intc_phandle_from_cpu_node d cpu;
          intc_phandles ← array_push MAX_CPUS intc_phandles p;
          cpus_loop fuel d it hart_ids intc_phandles
      end
  end.

(** A string property of a node that must be there *)
Definition prop_str (name : string) (n : DeviceTreeNode.t) : outcome bytes :=
  r ← find_prop name n;
  p ← unwrap_option r;
  unwrap_option (DeviceTreeProp.value_str p).
Definition prop_first_u32 (name : string) (n : DeviceTreeNode.t) : outcome Z :=
  r ← find_prop name n;
  p ← unwrap_option r;
  unwrap_option (first_u32 p).

Definition parse_from (d : DeviceTree.t) : outcome t :=
  '(r, it) ← find_node d (name_is "cpus") (DeviceTree.iter d);
  cpus_node ← unwrap_option r;
  ac ← prop_first_u32 "#address-cells" cpus_node;
  (if ac =? 1 then Returns tt else Panics);;
  timer_frequency ← prop_first_u32 "timebase-frequency" cpus_node;
  '(r, it) ← find_node d is_cpu it;
  cpu0 ← unwrap_option r;
  isa_string ← prop_str "riscv,isa" cpu0;
  mmu_string ← prop_str "mmu-type" cpu0;
  (if Str.eqb mmu_string (Str.lit "riscv,sv48") || Str.eqb mmu_string (Str.lit "riscv,sv57")
   then Returns tt else Panics);;
  hart_id ← hart_id_from_cpu_node cpu0;
  phandle ← intc_phandle_from_cpu_node d cpu0;
  '(hart_ids, intc_phandles) ← cpus_loop (iter_fuel d) d it [hart_id] [phandle];
  isa ← array_string MAX_ISA_STRING_LEN isa_string;
  Returns (mk (isa_string_has_extension isa_string "ssaia") (isa_string_has_extension isa_string "sstc")
             (isa_string_has_extension isa_string "sscofpmf") (isa_string_has_base_extension isa_string 118)
             timer_frequency isa hart_ids intc_phandles).

Definition num_cpus (c : t) : Z := Z.of_nat (length (hart_ids c)).
Definition cpu_to_hart_id (c : t) (cpu : CpuId) : option Z := hart_ids c !! Z.to_nat cpu.
Definition hart_id_to_cpu (c : t) (hart_id : Z) : option CpuId :=
  option_map Z.of_nat (position (λ h, h =? hart_id) (hart_ids c)).
Definition cpu_to_intc_phandle (c : t) (cpu : CpuId) : option Z := intc_phandles c !! Z.to_nat cpu.
Definition intc_phandle_to_cpu (c : t) (intc_phandle : Z) : option CpuId :=
  option_map Z.of_nat (position (λ p, p =? intc_phandle) (intc_phandles c)).
End CpuInfo.

(** ** Writing nodes *)
Section write.
Context {H : Type} `{Heap H}.
Local Notation E := DeviceTreeError.t.
(** [dt.get_mut_node(id).unwrap()] and what is done to the node *)
Definition edit (id : nat) (m : M (DeviceTreeNode.t * H) E unit) : M (DeviceTree.t * H) E unit :=
  r ← DeviceTree.get_mut_node id m;
  of_outcome (unwrap_option r).
Definition put_u32 (name : string) (vals : list Z) : M (DeviceTreeNode.t * H) E unit :=
  i ← DeviceTreeNode.add_prop (Str.lit name);
  DeviceTreeNode.on_prop i (DeviceTreeProp.set_value_u32 vals).
Definition put_u64 (name : string) (vals : list Z) : M (DeviceTreeNode.t * H) E unit :=
  i ← DeviceTreeNode.add_prop (Str.lit name);
  DeviceTreeNode.on_prop i (DeviceTreeProp.set_value_u64 vals).
Definition put_str (name : string) (val : bytes) : M (DeviceTreeNode.t * H) E unit :=
  i ← DeviceTreeNode.add_prop (Str.lit name);
  DeviceTreeNode.on_prop i (DeviceTreeProp.set_value_str val).
Definition put_flag (name : string) : M (DeviceTreeNode.t * H) E unit :=
  DeviceTreeNode.add_prop (Str.lit name);; mret tt.

(** The turn of the loop of [add_host_cpu_nodes] for CPU [i] *)
Definition add_host_cpu_node (c : CpuInfo.t) (cpus_id : nat) (i phandle : Z) : M (DeviceTree.t * H) E unit :=
  cpu_name ← of_outcome (array_string 16 (Str.lit "cpu@" ++ hex i));
  cpu_node_id ← DeviceTree.add_node cpu_name (Some cpus_id);
  edit cpu_node_id (
    put_str "device_type" (Str.lit "cpu");;
    put_str "compatible" (Str.lit "riscv");;
    put_u32 "reg" [wrap32 i];;
    put_str "mmu-type" (Str.lit "riscv,sv48");;
    put_str "riscv,isa" (CpuInfo.isa_string c);;
    put_str "status" (Str.lit "okay"));;
  intc_id ← DeviceTree.add_node (Str.lit "interrupt-controller") (Some cpu_node_id);
  edit intc_id (
    put_u32 "#interrupt-cells" [1];;
    put_flag "interrupt-controller";;
    put_u32 "phandle" [phandle];;
    put_str "compatible" (Str.lit "riscv,cpu-intc")).
Definition add_host_cpu_nodes (c : CpuInfo.t) : M (DeviceTree.t * H) E unit :=
  d ← state;
  cpus_id ← DeviceTree.add_node (Str.lit "cpus") (DeviceTree.root d);
  edit cpus_id (
    put_u32 "#address-cells" [1];;
    put_u32 "#size-cells" [0];;
    put_u32 "timebase-frequency" [CpuInfo.timer_frequency c]);;
  for_each (imap (λ i p, (Z.of_nat i, p)) (CpuInfo.intc_phandles c))
    (λ '(i, phandle), add_host_cpu_node c cpus_id i phandle).
End write.
