(* ===== verification/ImsicProbe.v ===== *)
(** * Probing the IMSIC (drivers/src/imsic/core.rs)

    [Imsic::probe_from], which reads the IMSIC node of the device tree and matches the
    interrupt files with CPUs, and the node that is added for the host. *)
From stdpp Require Import strings.
From S2P Require Import Prelude RiscvPages MemMap Imsic ImsicCore DeviceTree CpuInfo.
Open Scope string_scope.
Open Scope list_scope.
Open Scope Z_scope.
Import ImsicError(MissingImsicNode, MissingProperty, InvalidParentInterruptCount, InvalidInterruptIds, InvalidGuestsPerHart, InvalidMmioRegionCount, MisalignedMmioRegion, InvalidMmioRegion, InvalidParentInterrupt, InvalidCpuLocation, DuplicateCpuEntries, TooManyInterruptFiles, MissingInterruptFiles, AddingMmioRegion).

Definition MAX_GUEST_FILES : Z := 7.
Definition MAX_MMIO_REGIONS : nat := 8.
(** [sie::sext.shift] *)
Definition SEXT_SHIFT : Z := 9.

(** [HGEIE] keeps the bits of the guest interrupt files that are implemented when ones
    are written to it; [hgeie] is what it then holds. *)
Fixpoint count_ones (fuel : nat) (x : Z) : Z :=
  match fuel with
  | O => 0
  | S fuel => x mod 2 + count_ones fuel (x / 2)
  end.
Definition get_guests_per_hart (hgeie : Z) : Z := count_ones 64 hgeie.

Module ImsicNode.
Definition t := DeviceTreeNode.t.
Local Notation E := ImsicError.t.
Section read.
Context {S : Type}.
Variable n : t.
Definition prop (name : string) : M S E (option DeviceTreeProp.t) := of_outcome (find_prop name n).
(** [.ok_or(Error::MissingProperty(name))?] *)
Definition required (name : string) : M S E DeviceTreeProp.t :=
  p ← prop name; lift (ok_or p (MissingProperty name)).
Definition cell (name : string) : M S E (option Z) :=
  p ← prop name; mret (p ≫= first_u32).
Definition required_cell (name : string) : M S E Z :=
  c ← cell name; lift (ok_or c (MissingProperty name)).
End read.

(** The properties of the node. *)
Record layout := Layout {
  interrupts : list Z;
  node_phandle : Z;
  num_ids : Z;
  node_geometry : ImsicGeometry.t;
  regs : list Z
}.
Definition len32 (p : DeviceTreeProp.t) : Z := Z.of_nat (DeviceTreeProp.size_hint 4 (DeviceTreeProp.value_raw p)).
Definition len64 (p : DeviceTreeProp.t) : Z := Z.of_nat (DeviceTreeProp.size_hint 8 (DeviceTreeProp.value_raw p)).
(** [num_cpus.next_power_of_two().ilog2()] *)
Definition default_hart_bits (num_cpus : Z) : Z := Z.log2_up num_cpus.
Definition probe_geometry {S} (regs_prop : DeviceTreeProp.t) (gib gis hib uib guests : Z) : M S E ImsicGeometry.t :=
  let len := len64 regs_prop in
  if (len =? 0) || negb (len mod 2 =? 0) then err (InvalidMmioRegionCount len)
  else
    first ← of_outcome (unwrap_option (head (DeviceTreeProp.value_u64 regs_prop)));
    let base_addr := Z.land first (not64 (gen_mask gib gis)) in
    base ← lift (ok_or (PageAddr.new base_addr) (MisalignedMmioRegion base_addr));
    lift (ImsicGeometry.new base gib gis hib uib guests).
Definition read_layout {S} (hgeie num_cpus : Z) (n : t) : M S E layout :=
  interrupts_prop ← required n "interrupts-extended";
  let len := len32 interrupts_prop in
  if negb (len =? wrap64 (num_cpus * 2)) then err (InvalidParentInterruptCount len)
  else
    phandle ← required_cell n "phandle";
    interrupt_ids ← required_cell n "riscv,num-ids";
    if (interrupt_ids =? 0) || (MAX_INTERRUPT_IDS <? interrupt_ids) then err (InvalidInterruptIds interrupt_ids)
    else
      guest_index_bits ← required_cell n "riscv,guest-index-bits";
      if guest_index_bits =? 0 then err (InvalidGuestsPerHart 0)
      else
        let guests := get_guests_per_hart hgeie in
        if (guests =? 0) || (MAX_GUEST_FILES <? guests) then err (InvalidGuestsPerHart guests)
        else
          hib ← cell n "riscv,hart-index-bits";
          gib ← cell n "riscv,group-index-bits";
          gis ← cell n "riscv,group-index-shift";
          regs_prop ← required n "reg";
          geometry ← probe_geometry regs_prop (default 0 gib) (default MIN_GROUP_INDEX_SHIFT gis)
                       (default (default_hart_bits num_cpus) hib) guest_index_bits guests;
          mret (Layout (DeviceTreeProp.value_u32 interrupts_prop) phandle interrupt_ids geometry
                  (DeviceTreeProp.value_u64 regs_prop)).

(** *** Matching interrupt files with CPUs *)
Record matching := Matching { per_cpu : list (option ImsicPerCpu.t); dt_index : Z }.
Section matching.
Variable info : CpuInfo.t.
Variable g : ImsicGeometry.t.
Definition per_hart_size : Z := wrap64 (shl64 1 (ImsicGeometry.guest_index_bits g) * 4096).
Definition place_cpu (region_base i cpu : Z) (m : matching) : outcome (result E matching) :=
  cpu_base_addr ← unwrap_option (PageAddr.checked_add_pages region_base (wrap64 (i * per_hart_size) / 4096));
  match ImsicGeometry.addr_to_location g cpu_base_addr with
  | None => Returns (Err (InvalidCpuLocation cpu))
  | Some location =>
      slot ← unwrap_option (per_cpu m !! Z.to_nat cpu);
      match slot with
      | Some _ => Returns (Err (DuplicateCpuEntries cpu))
      | None =>
          let s := ImsicPerCpu.mk (ImsicLocation.group location) (ImsicLocation.hart location) (dt_index m) false in
          Returns (Ok (Matching (<[Z.to_nat cpu := Some s]> (per_cpu m)) (dt_index m + 1)))
      end
  end.
(** [for i in 0..harts_in_region]: a turn takes two cells off the interrupts. *)
Fixpoint place_harts (region_base i harts : Z) (interrupts : list Z) (m : matching) :
  outcome (result E (list Z * matching)) :=
  if harts <=? i then Returns (Ok (interrupts, m))
  else match interrupts with
       | cpu_intc_phandle :: cpu_int :: interrupts =>
           if negb (cpu_int =? SEXT_SHIFT) then Returns (Err (InvalidParentInterrupt cpu_intc_phandle cpu_int))
           else match CpuInfo.intc_phandle_to_cpu info cpu_intc_phandle with
                | None => Returns (Err (InvalidParentInterrupt cpu_intc_phandle cpu_int))
                | Some cpu =>
                    r ← place_cpu region_base i cpu m;
                    match r with
                    | Err e => Returns (Err e)
                    | Ok m => place_harts region_base (i + 1) harts interrupts m
                    end
                end
       | _ => Returns (Err TooManyInterruptFiles)
       end.
Definition region_start (base : Z) : result E Z :=
  match PageAddr.new base with
  | None => Err (MisalignedMmioRegion base)
  | Some base =>
      match ImsicGeometry.addr_to_location g base with
      | None => Err (InvalidMmioRegion base)
      | Some l =>
          if negb (ImsicLocation.hart l =? 0) || negb (ImsicFileId.bits (ImsicLocation.file l) =? 0)
          then Err (InvalidMmioRegion base) else Ok base
      end
  end.
(** [while let Some(region_base_addr) = regs.next()] *)
Fixpoint place_regions (regs interrupts : list Z) (m : matching) (mmio_regions : list PageAddrRange.t) :
  outcome (result E (matching * list PageAddrRange.t)) :=
  match regs with
  | [] => Returns (Ok (m, mmio_regions))
  | region_base_addr :: regs =>
      match region_start region_base_addr with
      | Err e => Returns (Err e)
      | Ok base =>
          match regs with
          | [] => Panics
          | region_size :: regs =>
              if per_hart_size =? 0 then Panics
              else if negb (region_size mod per_hart_size =? 0) then Returns (Err (MisalignedMmioRegion base))
              else
                r ← place_harts base 0 (region_size / per_hart_size) interrupts m;
                match r with
                | Err e => Returns (Err e)
                | Ok (interrupts, m) =>
                    mmio_regions ← array_push MAX_MMIO_REGIONS mmio_regions
                                     (PageAddrRange.new base (PageSize.num_4k_pages region_size));
                    place_regions regs interrupts m mmio_regions
                end
          end
      end
  end.
End matching.

Definition is_imsic (n : t) : outcome bool :=
  c ← DeviceTreeNode.compatible [Str.lit "riscv,imsics"] n;
  if c : bool then b ← DeviceTreeNode.disabled n; Returns (negb b) else Returns false.
(** The matching at the beginning: no CPU has interrupt files.  Pushing to a full
    [ArrayVec] panics. *)
Definition no_files (num_cpus : Z) : outcome matching :=
  if (Z.to_nat num_cpus <=? MAX_CPUS)%nat then Returns (Matching (replicate (Z.to_nat num_cpus) None) 0) else Panics.

Definition probe_from (info : CpuInfo.t) (hgeie : Z) (d : DeviceTree.t) : M HwMemMap.t E Imsic.t :=
  let num_cpus := CpuInfo.num_cpus info in
  '(r, _) ← of_outcome (find_node d is_imsic (DeviceTree.iter d));
  n ← lift (ok_or r MissingImsicNode);
  l ← read_layout hgeie num_cpus n;
  m ← of_outcome (no_files num_cpus);
  '(m, mmio_regions) ← of_outcome (place_regions info (node_geometry l) (regs l) (interrupts l) m []) ≫= lift;
  if negb (dt_index m =? num_cpus) then err MissingInterruptFiles
  else
    for_each mmio_regions (λ r,
      with_err AddingMmioRegion (HwMemMap.add_mmio_region DeviceMemType.Imsic (PageAddrRange.base r) (PageAddrRange.length_bytes r)));;
    mret (Imsic.mk (per_cpu m) mmio_regions (node_geometry l) (num_ids l) (node_phandle l)).

(** ** The node of the host *)
Section host.
Context {H : Type} `{Heap H}.
Variable info : CpuInfo.t.
Variable m : Imsic.t.
Local Notation D := DeviceTreeError.t.
Definition host_regs : list Z :=
  Imsic.mmio_regions m ≫= λ r, [PageAddrRange.base r; PageAddrRange.length_bytes r].
(** The interrupts of the CPUs in the order of the probed node *)
Definition host_interrupt (i : Z) : outcome (list Z) :=
  cpu_id ← unwrap_option (ImsicCpuState.dt_index_to_cpu (Imsic.per_cpu m) i);
  phandle ← unwrap_option (CpuInfo.cpu_to_intc_phandle info cpu_id);
  Returns [phandle; SEXT_SHIFT].
Definition host_interrupts : outcome (list Z) :=
  l ← mapM host_interrupt (seqZ 0 (CpuInfo.num_cpus info));
  if (length (concat l) <=? 2 * MAX_CPUS)%nat then Returns (concat l) else Panics.
Definition soc_node_id (d : DeviceTree.t) : outcome nat :=
  '(r, _) ← find_node d (name_is "soc") (DeviceTree.iter d);
  n ← unwrap_option r;
  DeviceTreeNode.id n.
Definition group_props (g : ImsicGeometry.t) : M (DeviceTreeNode.t * H) D unit :=
  if 0 <? ImsicGeometry.group_index_bits (Imsic.geometry m) then
    put_u32 "riscv,group-index-bits" [ImsicGeometry.group_index_bits g];;
    put_u32 "riscv,group-index-shift" [ImsicGeometry.group_index_shift g]
  else mret tt.
Definition add_host_imsic_node : M (DeviceTree.t * H) D unit :=
  g ← of_outcome (Imsic.host_vm_geometry m);
  d ← state;
  soc ← of_outcome (soc_node_id d);
  first ← of_outcome (unwrap_option (head (Imsic.mmio_regions m)));
  imsic_name ← of_outcome (array_string 32 (Str.lit "imsics@" ++ hex (PageAddrRange.base first)));
  imsic_id ← DeviceTree.add_node imsic_name (Some soc);
  edit imsic_id (
    put_str "compatible" (Str.lit "riscv,imsics");;
    put_u32 "phandle" [Imsic.phandle m];;
    put_flag "msi-controller";;
    put_flag "interrupt-controller";;
    put_u32 "#interrupt-cells" [0];;
    put_u32 "riscv,guest-index-bits" [ImsicGeometry.guest_index_bits g];;
    put_u32 "riscv,hart-index-bits" [ImsicGeometry.hart_index_bits g];;
    put_u32 "riscv,ipi-id" [1];;
    put_u32 "riscv,num-ids" [wrap32 (Imsic.interrupt_ids m)];;
    group_props g;;
    put_u64 "reg" host_regs;;
    interrupts ← of_outcome host_interrupts;
    put_u32 "interrupts-extended" interrupts).
End host.
End ImsicNode.
