(* ===== verification/NodeFacts.v ===== *)
(** * Reading and writing nodes of a device tree

    Lookups over the nodes and properties of a tree, values of properties, and the
    sequences of properties that the hypervisor adds to the host's nodes. *)
From stdpp Require Import strings.
From S2P Require Import Prelude DeviceTree DeviceTreeFacts Fdt FdtFacts FdtRoundtrip CpuInfo.
Open Scope string_scope.
Open Scope list_scope.
Open Scope Z_scope.

(** ** Searching nodes *)
Section search.
Variable a : Arena.t DeviceTreeNode.t.
Variable p : DeviceTreeNode.t → outcome bool.

Lemma find_runs_none it l it' k :
  runs a it l it' → DeviceTreeIter.next a it' = Returns (None, it') →
  Forall (λ n, p n = Returns false) l.*1 → (length l < k)%nat → find_in_iter k a p it = Returns (None, it').
Proof.
  intros Hr Hend. revert k. induction Hr as [it|it n it1 l it2 Hn Hr IH]; intros k Hl Hk; (destruct k as [|k]; [cbn in Hk; lia|]).
  - cbn [find_in_iter]. by rewrite Hend.
  - cbn [find_in_iter]. rewrite Hn. cbn [mbind outcome_bind]. inversion_clear Hl as [|? ? Hp Hl'].
    rewrite Hp. cbn [mbind outcome_bind]. apply IH; [done..|]. cbn in Hk. lia.
Qed.
Lemma find_runs_some it l it' k pre n post :
  runs a it l it' → l.*1 = pre ++ n :: post →
  Forall (λ n, p n = Returns false) pre → p n = Returns true → (length pre < k)%nat →
  ∃ it1 l1, find_in_iter k a p it = Returns (Some n, it1) ∧ runs a it1 l1 it' ∧ l1.*1 = post.
Proof.
  intros Hr. revert k pre. induction Hr as [it|it m it1 l it2 Hn Hr IH]; intros k pre Hl Hpre Hp Hk.
  { by destruct pre. }
  destruct k as [|k]; [lia|]. cbn [find_in_iter]. rewrite Hn. cbn [mbind outcome_bind]. cbn in Hl.
  destruct pre as [|m' pre]; injection Hl as -> Hl.
  - rewrite Hp. cbn [mbind outcome_bind]. eauto.
  - inversion_clear Hpre as [|? ? Hm Hpre']. rewrite Hm. cbn [mbind outcome_bind].
    apply (IH k pre); [done..|]. cbn in Hk. lia.
Qed.
End search.

(** A loop over a whole tree ends behind its last node. *)
Lemma tree_runs d par s :
  stored (DeviceTree.node_arena d) (entries par s) → NoDup (ids s) → fits d →
  ∃ l it', runs (DeviceTree.node_arena d) (DeviceTreeIter.new (Some (rid s))) l it' ∧ l.*1 = (entries par s).*2 ∧
    DeviceTreeIter.next (DeviceTree.node_arena d) it' = Returns (None, it') ∧ (length l < iter_fuel d)%nat.
Proof.
  intros Hst Hnd Hfit. exists (visits par 0 0 s), (DeviceTreeIter.mk (Some (rid s)) None 0).
  split; [by apply runs_from|]. split; [apply visits_nodes|]. split; [done|].
  rewrite visits_length. unfold iter_fuel. apply Nat.lt_succ_r. apply stored_length; [done|by rewrite ids_par].
Qed.

(** ** Names *)
Lemma lit_inj s t : Str.lit s = Str.lit t → s = t.
Proof.
  intros Heq. rewrite <- (String.string_of_list_ascii_of_string s), <- (String.string_of_list_ascii_of_string t).
  f_equal. unfold Str.lit in Heq. revert Heq. generalize (String.list_ascii_of_string t).
  induction (String.list_ascii_of_string s) as [|x l IH]; intros [|y k] Heq; try done.
  cbn in Heq. injection Heq as Hxy Hl. f_equal; [|by apply IH].
  rewrite <- (Ascii.ascii_N_embedding x), <- (Ascii.ascii_N_embedding y). f_equal. lia.
Qed.
(** A literal without a final null, as all names of properties are. *)
Definition plain (s : bytes) : bool := Str.is_utf8 s && negb (Str.ends_with_nul s).
Lemma plain_cstr s : plain s = true → c_string (cstr s) ∧ DeviceTreeProp.c_str (cstr s) = Returns s.
Proof.
  intros [Hu He]%andb_true_iff. apply negb_true_iff in He. pose proof (cstr_c_string s Hu) as Hc. split; [done|].
  rewrite c_string_str by done. unfold cstr. rewrite He. by rewrite removelast_last.
Qed.

(** ** Properties *)
Definition prop_of (nv : string * prop_value) : DeviceTreeProp.t :=
  DeviceTreeProp.mk (cstr (Str.lit nv.1)) (value_bytes nv.2).
Fixpoint assoc (name : string) (l : list (string * prop_value)) : option prop_value :=
  match l with
  | [] => None
  | (n, v) :: l => if String.eqb n name then Some v else assoc name l
  end.
Definition plain_names (l : list (string * prop_value)) : bool := forallb (λ nv, plain (Str.lit nv.1)) l.

Lemma prop_of_name nv : plain (Str.lit nv.1) = true → DeviceTreeProp.name (prop_of nv) = Returns (Str.lit nv.1).
Proof. intros Hp. apply (plain_cstr _ Hp). Qed.
Lemma lit_eqb s t : Str.eqb (Str.lit s) (Str.lit t) = String.eqb s t.
Proof.
  unfold Str.eqb. destruct (String.eqb_spec s t) as [->|Hne]; [by apply bool_decide_eq_true_2|].
  apply bool_decide_eq_false_2. by intros Heq%lit_inj.
Qed.
Lemma find_prop_assoc name l n :
  plain_names l = true → DeviceTreeNode.props n = map prop_of l →
  find_prop name n = Returns ((λ v, prop_of (name, v)) <$> assoc name l).
Proof.
  unfold find_prop. intros Hl ->. induction l as [|[s v] l IH]; [done|]. cbn in Hl. apply andb_true_iff in Hl as [Hs Hl].
  cbn [map find_prop_in]. rewrite prop_of_name by done. cbn [mbind outcome_bind fst]. rewrite lit_eqb. cbn [assoc].
  destruct (String.eqb_spec s name) as [->|]; [done|]. by apply IH.
Qed.
(** A closure over the properties that tests a name and a value. *)
Lemma any_prop name (f : DeviceTreeProp.t → bool) l :
  plain_names l = true →
  DeviceTreeNode.any (λ p, pn ← DeviceTreeProp.name p; Returns (Str.eqb pn (Str.lit name) && f p)) (map prop_of l) =
  Returns (existsb (λ nv, String.eqb nv.1 name && f (prop_of nv)) l).
Proof.
  induction l as [|[s v] l IH]; [done|]. cbn [plain_names forallb fst]. intros [Hs Hl]%andb_true_iff.
  cbn [map DeviceTreeNode.any existsb]. rewrite prop_of_name by done. cbn [mbind outcome_bind fst]. rewrite lit_eqb.
  destruct (String.eqb s name && f (prop_of (s, v))); [done|]. by apply IH.
Qed.

(** ** Values *)
Definition in_width (n : nat) (v : Z) : Prop := 0 ≤ v < 256 ^ Z.of_nat n.
Lemma length_be n vals : length (vals ≫= to_be_bytes n) = (length vals * n)%nat.
Proof. induction vals as [|v vals IH]; [done|]. cbn. by rewrite length_app, length_to_be_bytes, IH. Qed.
Lemma iter_items_be fuel n vals :
  (0 < n)%nat → Forall (in_width n) vals → (length vals ≤ fuel)%nat →
  DeviceTreeProp.iter_items fuel n (vals ≫= to_be_bytes n) = vals.
Proof.
  intros Hn Hv. revert fuel. induction Hv as [|v vals Hv Hvs IH]; intros fuel Hf.
  - destruct fuel as [|fuel]; [done|]. cbn [mbind list_bind DeviceTreeProp.iter_items]. unfold DeviceTreeProp.iter_next.
    cbn [length]. by rewrite (proj2 (Nat.ltb_lt 0 n)).
  - destruct fuel as [|fuel]; [cbn in Hf; lia|]. cbn [mbind list_bind DeviceTreeProp.iter_items].
    unfold DeviceTreeProp.iter_next. rewrite length_app, length_to_be_bytes, (proj2 (Nat.ltb_ge _ n)) by lia.
    rewrite take_app_length', drop_app_length' by by rewrite length_to_be_bytes. rewrite from_to_be by done. f_equal.
    apply IH. cbn in Hf. lia.
Qed.
Lemma value_u32_be name vals : Forall (in_width 4) vals → DeviceTreeProp.value_u32 (prop_of (name, ValU32 vals)) = vals.
Proof. intros Hv. apply iter_items_be; [lia|done|].
  cbn [prop_of DeviceTreeProp.value_raw snd value_bytes]. rewrite length_be. lia. Qed.
Lemma value_u64_be name vals : Forall (in_width 8) vals → DeviceTreeProp.value_u64 (prop_of (name, ValU64 vals)) = vals.
Proof. intros Hv. apply iter_items_be; [lia|done|].
  cbn [prop_of DeviceTreeProp.value_raw snd value_bytes]. rewrite length_be. lia. Qed.
Lemma first_u32_be name v : in_width 4 v → first_u32 (prop_of (name, ValU32 [v])) = Some v.
Proof. intros Hv. unfold first_u32. by rewrite value_u32_be by (by apply Forall_singleton). Qed.
Lemma size_hint_u32 name vals :
  DeviceTreeProp.size_hint 4 (DeviceTreeProp.value_raw (prop_of (name, ValU32 vals))) = length vals.
Proof. unfold DeviceTreeProp.size_hint. cbn [prop_of DeviceTreeProp.value_raw snd value_bytes]. rewrite length_be. by apply Nat.div_mul. Qed.
Lemma size_hint_u64 name vals :
  DeviceTreeProp.size_hint 8 (DeviceTreeProp.value_raw (prop_of (name, ValU64 vals))) = length vals.
Proof. unfold DeviceTreeProp.size_hint. cbn [prop_of DeviceTreeProp.value_raw snd value_bytes]. rewrite length_be. by apply Nat.div_mul. Qed.
Lemma value_str_of name s : plain s = true → DeviceTreeProp.value_str (prop_of (name, ValStr s)) = Some s.
Proof.
  intros Hp. destruct (plain_cstr s Hp) as [[Hu He] Hc]. unfold DeviceTreeProp.c_str in Hc.
  unfold DeviceTreeProp.value_str. cbn [prop_of DeviceTreeProp.value_raw snd value_bytes].
  destruct (Str.from_utf8 (cstr s)) as [x|]; [|done]. cbn in *. destruct (Str.strip_nul x); [|done].
  by injection Hc as ->.
Qed.

(** ** Adding properties *)
Section edits.
Context {H : Type} `{Heap H}.
Local Notation E := DeviceTreeError.t.
Definition appended (l : list (string * prop_value)) : props_post := λ r ps ps',
  match r with Ok _ => ps' = ps ++ map prop_of l | Err e => e = DeviceTreeError.AllocError end.
Definition appends (l : list (string * prop_value)) (m : M (DeviceTreeNode.t * H) E unit) : Prop :=
  ∀ n, named n → returns m n (changes_props (appended l) n).

Lemma appends_value name v m :
  plain (Str.lit name) = true → m = add_value (Str.lit name) v → appends [(name, v)] m.
Proof.
  intros [Hu _]%andb_true_iff -> n Hn. eapply returns_impl; [by apply returns_add_value|].
  intros r n' (ps' & Hn' & Hps & HP). exists ps'. split; [done|]. split; [done|]. by destruct r; [|destruct HP].
Qed.
Lemma appends_u32 name vals : plain (Str.lit name) = true → appends [(name, ValU32 vals)] (put_u32 name vals).
Proof. intros Hp. by apply appends_value. Qed.
Lemma appends_u64 name vals : plain (Str.lit name) = true → appends [(name, ValU64 vals)] (put_u64 name vals).
Proof. intros Hp. by apply appends_value. Qed.
Lemma appends_str name val : plain (Str.lit name) = true → appends [(name, ValStr val)] (put_str name val).
Proof. intros Hp. by apply appends_value. Qed.
Lemma appends_flag name : plain (Str.lit name) = true → appends [(name, ValRaw [])] (put_flag name).
Proof.
  intros [Hu _]%andb_true_iff n Hn. unfold put_flag, DeviceTreeNode.add_prop.
  destruct Hn as [_ Hps].
  assert (changes_props (appended [(name, ValRaw [])]) n (Err DeviceTreeError.AllocError) n) as Herr.
  { exists (DeviceTreeNode.props n). by destruct n. }
  apply returns_bind, returns_bind, returns_state. apply returns_bind, returns_reserve; [|done].
  apply returns_bind, returns_new_prop; [|done]. apply returns_bind, returns_update, returns_ret, returns_ret.
  eexists. split; [reflexivity|]. split; [|done]. apply list.Forall_app. split; [done|].
  constructor; [by apply cstr_c_string|constructor].
Qed.
Lemma appends_nil : appends [] (mret tt).
Proof.
  intros n [_ Hps]. apply returns_ret. exists (DeviceTreeNode.props n). split; [by destruct n|]. split; [done|].
  cbn. by rewrite app_nil_r.
Qed.
Lemma appends_bind l1 l2 m1 m2 : appends l1 m1 → appends l2 m2 → appends (l1 ++ l2) (m1;; m2).
Proof.
  intros H1 H2 n Hn. apply returns_bind. eapply returns_impl; [by apply H1|].
  intros [[]|e] n1 (ps1 & -> & Hps1 & HP1); [|by exists ps1].
  eapply returns_impl; [apply H2; by split; [apply Hn|]|].
  intros r n2 (ps2 & -> & Hps2 & HP2). exists ps2. split; [done|]. split; [done|].
  destruct r as [|e]; [|done]. cbn in *. rewrite HP2, HP1, map_app, app_assoc. done.
Qed.
(** An edit of a node of the tree. *)
Lemma edit_spec d C i n ps k l (m : M (DeviceTreeNode.t * H) E unit) :
  models d (Some (plug C (Rose i n ps k))) → appends l m →
  returns (edit i m) d (λ r d',
    match r with
    | Ok _ => models d' (Some (plug C (Rose i n (ps ++ map prop_of l) k)))
    | Err e => e = DeviceTreeError.AllocError
    end).
Proof.
  intros Hm Ha. unfold edit. apply returns_bind. eapply returns_impl; [by eapply returns_in_node|].
  intros r d' (ps' & HP & Hm' & [->|[e ->]]); cbn in HP.
  - eapply returns_outcome; [done|]. by subst ps'.
  - done.
Qed.
End edits.
