(* ===== verification/CpuInfoFacts.v ===== *)
(** * The CPU nodes of the host

    The CPU nodes that the hypervisor writes for the host, as a tree, and that they
    are read back as they were. *)
From stdpp Require Import strings.
From S2P Require Import Prelude Imsic DeviceTree DeviceTreeFacts DeviceTreeRefine Fdt FdtFacts CpuInfo NodeFacts.
Open Scope string_scope.
Open Scope list_scope.
Open Scope Z_scope.

(** ** Names *)
Definition ascii_byte (b : Z) : Prop := 0 < b < 128.
Lemma ascii_plain s : Forall ascii_byte s → plain s = true.
Proof.
  intros Hs. apply andb_true_iff. split.
  - induction Hs as [|b s Hb _ IH]; [done|]. unfold ascii_byte in Hb. cbn [Str.is_utf8].
    by rewrite (proj2 (Z.leb_le 0 b)), (proj2 (Z.ltb_lt b 128)) by lia.
  - apply negb_true_iff. unfold Str.ends_with_nul. destruct (list.last s) as [b|] eqn:E; [|done].
    apply last_Some in E as [l ->]. apply list.Forall_app in Hs as [_ Hb]. inversion_clear Hb as [|? ? Hlast _].
    unfold ascii_byte in Hlast. apply Z.eqb_neq. lia.
Qed.
Lemma hex_digits_spec fuel n acc :
  0 ≤ n → Forall ascii_byte acc →
  Forall ascii_byte (hex_digits fuel n acc) ∧ (length (hex_digits fuel n acc) ≤ fuel + length acc)%nat.
Proof.
  revert n acc. induction fuel as [|fuel IH]; intros n acc Hn Hacc; [split; [done|cbn; lia]|]. cbn [hex_digits].
  assert (Forall ascii_byte (hex_digit (n mod 16) :: acc)) as Hacc'.
  { constructor; [|done]. unfold ascii_byte, hex_digit. pose proof (Z.mod_pos_bound n 16).
    destruct (Z.ltb_spec (n mod 16) 10); lia. }
  destruct (n / 16 =? 0); [split; [done|cbn; lia]|].
  destruct (IH (n / 16) _ ltac:(apply Z.div_pos; lia) Hacc') as [H1 H2]. split; [done|]. cbn in H2. lia.
Qed.
Lemma hex_digits_short fuel k n acc :
  0 ≤ n < 16 ^ Z.of_nat k → (0 < k ≤ fuel)%nat → (length (hex_digits fuel n acc) ≤ k + length acc)%nat.
Proof.
  revert k n acc. induction fuel as [|fuel IH]; intros k n acc Hn Hk; [lia|]. cbn [hex_digits].
  destruct (Z.eqb_spec (n / 16) 0) as [|Hne]; [cbn; lia|]. destruct k as [|[|k]]; [lia| |].
  - exfalso. apply Hne, Z.div_small. cbn in Hn. lia.
  - assert (0 ≤ n / 16 < 16 ^ Z.of_nat (S k)) as Hd.
    { rewrite (Nat2Z.inj_succ (S k)), Z.pow_succ_r in Hn by lia.
      split; [apply Z.div_pos; lia|apply Z.div_lt_upper_bound; lia]. }
    specialize (IH (S k) (n / 16) (hex_digit (n mod 16) :: acc) Hd ltac:(lia)). cbn [length] in IH. lia.
Qed.
Definition cpu_name (i : Z) : bytes := Str.lit "cpu@" ++ hex i.
Lemma cpu_name_fits i : 0 ≤ i < 128 → array_string 16 (cpu_name i) = Returns (cpu_name i).
Proof.
  intros Hi. pose proof (hex_digits_short 16 2 i [] ltac:(lia) ltac:(lia)) as Hlen. cbn [length] in Hlen.
  unfold array_string, cpu_name. rewrite length_app. change (length (Str.lit "cpu@")) with 4%nat.
  unfold hex. by rewrite (proj2 (Nat.leb_le _ _)) by lia.
Qed.
Lemma cpu_name_plain i : 0 ≤ i → plain (cpu_name i) = true.
Proof.
  intros Hi. apply ascii_plain, list.Forall_app. split; [by repeat constructor|].
  apply (hex_digits_spec 16 i []); [lia|constructor].
Qed.
Lemma plain_utf8 s : plain s = true → Str.is_utf8 s = true.
Proof. by intros [? _]%andb_true_iff. Qed.

(** ** The nodes as trees *)
Definition cpus_props (c : CpuInfo.t) : list (string * prop_value) :=
  [("#address-cells", ValU32 [1]); ("#size-cells", ValU32 [0]);
   ("timebase-frequency", ValU32 [CpuInfo.timer_frequency c])].
Definition cpu_props (c : CpuInfo.t) (i : Z) : list (string * prop_value) :=
  [("device_type", ValStr (Str.lit "cpu")); ("compatible", ValStr (Str.lit "riscv")); ("reg", ValU32 [wrap32 i]);
   ("mmu-type", ValStr (Str.lit "riscv,sv48")); ("riscv,isa", ValStr (CpuInfo.isa_string c));
   ("status", ValStr (Str.lit "okay"))].
Definition intc_props (phandle : Z) : list (string * prop_value) :=
  [("#interrupt-cells", ValU32 [1]); ("interrupt-controller", ValRaw []); ("phandle", ValU32 [phandle]);
   ("compatible", ValStr (Str.lit "riscv,cpu-intc"))].
Definition cpu_rose (c : CpuInfo.t) (id id2 : nat) (i phandle : Z) : rose :=
  Rose id (cstr (cpu_name i)) (map prop_of (cpu_props c i))
    [Rose id2 (cstr (Str.lit "interrupt-controller")) (map prop_of (intc_props phandle)) []].
Definition is_cpu_rose (c : CpuInfo.t) (ip : Z * Z) (x : rose) : Prop := ∃ id id2, x = cpu_rose c id id2 ip.1 ip.2.

Section host.
Context {H : Type} `{Heap H}.
Local Notation E := DeviceTreeError.t.
Variable c : CpuInfo.t.
Ltac put := repeat first [apply appends_bind | by apply appends_u32 | by apply appends_str | by apply appends_flag].

Lemma add_host_cpu_node_spec d C cid n ps l i phandle :
  0 ≤ i < 128 → models d (Some (plug C (Rose cid n ps l))) →
  returns (H := H) (add_host_cpu_node c cid i phandle) d (λ r d',
    match r with
    | Ok _ => ∃ x, is_cpu_rose c (i, phandle) x ∧ models d' (Some (plug C (Rose cid n ps (l ++ [x]))))
    | Err e => e = DeviceTreeError.AllocError
    end).
Proof.
  intros Hi Hm. pose proof (cpu_name_fits i Hi) as Hname. pose proof (plain_utf8 _ (cpu_name_plain i ltac:(lia))) as Hutf. unfold add_host_cpu_node.
  apply returns_bind. eapply returns_outcome; [exact Hname|]. apply returns_bind.
  eapply returns_impl; [by apply (add_child_spec _ d C cid n ps l)|]. intros [id|e] d1; [|by intros [? _]]. intros [_ Hm1].
  apply returns_bind. eapply returns_impl.
  { eapply (edit_spec d1 (Frame cid n ps l [] :: C) id _ [] [] (cpu_props c i)); [exact Hm1|].
    unfold cpu_props. rewrite (eq_refl : [_; _; _; _; _; _] = [_] ++ [_] ++ [_] ++ [_] ++ [_] ++ [_]). put. }
  intros [[]|e] d2; [|done]. intros Hm2. apply returns_bind.
  eapply returns_impl; [by apply (add_child_spec _ d2 (Frame cid n ps l [] :: C) id _ _ [] Hm2)|].
  intros [id2|e] d3; [|by intros [? _]]. intros [_ Hm3].
  eapply returns_impl.
  { eapply (edit_spec d3 (Frame id _ (map prop_of (cpu_props c i)) [] [] :: Frame cid n ps l [] :: C) id2 _ [] [] (intc_props phandle));
      [exact Hm3|].
    unfold intc_props. rewrite (eq_refl : [_; _; _; _] = [_] ++ [_] ++ [_] ++ [_]). put. }
  intros [[]|e] d4; [|done]. intros Hm4. exists (cpu_rose c id id2 i phandle). split; [by exists id, id2|]. exact Hm4.
Qed.
Lemma add_cpu_nodes_spec lst d C cid n ps l :
  Forall (λ ip, 0 ≤ ip.1 < 128) lst → models d (Some (plug C (Rose cid n ps l))) →
  returns (H := H) (for_each lst (λ '(i, phandle), add_host_cpu_node c cid i phandle)) d (λ r d',
    match r with
    | Ok _ => ∃ xs, Forall2 (is_cpu_rose c) lst xs ∧ models d' (Some (plug C (Rose cid n ps (l ++ xs))))
    | Err e => e = DeviceTreeError.AllocError
    end).
Proof.
  intros Hl. revert d l. induction Hl as [|[i p] lst Hi _ IH]; intros d l Hm; cbn [for_each].
  - apply returns_ret. exists []. rewrite app_nil_r. split; [constructor|done].
  - apply returns_bind. eapply returns_impl; [by apply add_host_cpu_node_spec|].
    intros [[]|e] d1; [|done]. intros (x & Hx & Hm1). eapply returns_impl; [by apply IH|].
    intros [[]|e] d2; [|done]. intros (xs & Hxs & Hm2). exists (x :: xs). split; [by constructor|].
    by rewrite <- app_assoc in Hm2.
Qed.
Definition numbered : list (Z * Z) := imap (λ i p, (Z.of_nat i, p)) (CpuInfo.intc_phandles c).
Lemma add_host_cpu_nodes_spec d r n ps l :
  (length (CpuInfo.intc_phandles c) ≤ 128)%nat → models d (Some (Rose r n ps l)) →
  returns (H := H) (add_host_cpu_nodes c) d (λ res d',
    match res with
    | Ok _ => ∃ cid xs, Forall2 (is_cpu_rose c) numbered xs ∧
        models d' (Some (Rose r n ps (l ++ [Rose cid (cstr (Str.lit "cpus")) (map prop_of (cpus_props c)) xs])))
    | Err e => e = DeviceTreeError.AllocError
    end).
Proof.
  intros Hlen Hm. unfold add_host_cpu_nodes. apply returns_bind, returns_state. rewrite (models_root _ _ Hm). cbn [fmap option_fmap option_map rid].
  apply returns_bind. eapply returns_impl; [by apply (add_child_spec _ d [] r n ps l)|].
  intros [cid|e] d1; [|by intros [? _]]. intros [_ Hm1]. apply returns_bind. eapply returns_impl.
  { eapply (edit_spec d1 [Frame r n ps l []] cid _ [] [] (cpus_props c)); [exact Hm1|].
    unfold cpus_props. rewrite (eq_refl : [_; _; _] = [_] ++ [_] ++ [_]). put. }
  intros [[]|e] d2; [|done]. intros Hm2. eapply returns_impl.
  { eapply (add_cpu_nodes_spec _ d2 [Frame r n ps l []] cid _ _ []); [|exact Hm2].
    apply list.Forall_forall. intros ip (k & p & -> & Hk)%elem_of_lookup_imap_1. cbn.
    apply lookup_lt_Some in Hk. lia. }
  intros [[]|e] d3; [|done]. intros (xs & Hxs & Hm3). by exists cid, xs.
Qed.
End host.

(** ** Reading the nodes *)
Definition is_device_type (p : DeviceTreeProp.t) : bool := Str.eqb (DeviceTreeNode.str_or_empty p) (Str.lit "cpu").
Lemma is_cpu_props n l :
  DeviceTreeNode.props n = map prop_of l → plain_names l = true →
  CpuInfo.is_cpu n = Returns (existsb (λ nv, String.eqb nv.1 "device_type" && is_device_type (prop_of nv)) l).
Proof. unfold CpuInfo.is_cpu. intros -> Hl. by apply (any_prop "device_type" is_device_type). Qed.
Lemma name_is_plain s n x :
  DeviceTreeNode.name_raw n = cstr x → plain x = true → name_is s n = Returns (Str.eqb x (Str.lit s)).
Proof.
  intros Hn Hx. unfold name_is, DeviceTreeNode.name. rewrite Hn, (proj2 (plain_cstr x Hx)). done.
Qed.

Section parse.
Variable c : CpuInfo.t.
(** What the hypervisor knows of the CPUs, as [parse_from] makes it. *)
Record info_wf : Prop := {
  wf_isa : plain (CpuInfo.isa_string c) = true ∧ (length (CpuInfo.isa_string c) ≤ MAX_ISA_STRING_LEN)%nat;
  wf_flags :
    CpuInfo.has_aia c = isa_string_has_extension (CpuInfo.isa_string c) "ssaia" ∧
    CpuInfo.has_sstc c = isa_string_has_extension (CpuInfo.isa_string c) "sstc" ∧
    CpuInfo.has_sscofpmf c = isa_string_has_extension (CpuInfo.isa_string c) "sscofpmf" ∧
    CpuInfo.has_vector c = isa_string_has_base_extension (CpuInfo.isa_string c) 118;
  wf_timer : in_width 4 (CpuInfo.timer_frequency c);
  wf_phandles : Forall (in_width 4) (CpuInfo.intc_phandles c) ∧ (1 ≤ length (CpuInfo.intc_phandles c) ≤ MAX_CPUS)%nat
}.
Hypothesis Hwf : info_wf.
#[local] Set Default Proof Using "Type*".

Lemma cpu_rose_is_cpu par id id2 i p : CpuInfo.is_cpu (node_of par (cpu_rose c id id2 i p)) = Returns true.
Proof.
  rewrite (is_cpu_props _ (cpu_props c i)) by reflexivity. cbn [cpu_props existsb fst]. unfold is_device_type, DeviceTreeNode.str_or_empty.
  rewrite value_str_of by reflexivity. done.
Qed.
Lemma intc_is_cpu par id n p : CpuInfo.is_cpu (node_of par (Rose id n (map prop_of (intc_props p)) [])) = Returns false.
Proof. by rewrite (is_cpu_props _ (intc_props p)) by reflexivity. Qed.
Lemma wrap32_width i : in_width 4 (wrap32 i).
Proof. unfold in_width, wrap32. apply Z.mod_pos_bound. lia. Qed.
Lemma cpu_hart_id par id id2 i p : CpuInfo.hart_id_from_cpu_node (node_of par (cpu_rose c id id2 i p)) = Returns (wrap32 i).
Proof.
  unfold CpuInfo.hart_id_from_cpu_node. rewrite (find_prop_assoc _ (cpu_props c i)) by reflexivity. cbn [cpu_props assoc String.eqb Ascii.eqb Bool.eqb fmap option_fmap option_map].
  cbn [mbind outcome_bind unwrap_option]. by rewrite first_u32_be by apply wrap32_width.
Qed.
Lemma cpu_phandle d C cid cn cps l1 l2 id id2 i p :
  0 ≤ i → in_width 4 p → fits d → models d (Some (plug C (Rose cid cn cps (l1 ++ cpu_rose c id id2 i p :: l2)))) →
  CpuInfo.intc_phandle_from_cpu_node d (node_of (Some cid) (cpu_rose c id id2 i p)) = Returns p.
Proof.
  intros Hi Hp Hfit Hm. change (models d (Some (plug (Frame cid cn cps l1 l2 :: C) (cpu_rose c id id2 i p)))) in Hm.
  destruct (models_node _ _ _ Hm) as (Hg & _ & _ & Hst). destruct (models_apart _ _ _ Hm) as [Hnd _].
  destruct (tree_runs d _ _ Hst Hnd Hfit) as (l & it' & Hruns & Hl & _ & Hlen).
  unfold CpuInfo.intc_phandle_from_cpu_node, CpuInfo.intc_node_from_cpu_node, DeviceTree.iter_from. cbn [rid cpu_rose] in Hg.
  cbn [cpu_rose node_of DeviceTreeNode.id DeviceTreeNode.id_ unwrap_option mbind outcome_bind] in *. rewrite Hg.
  cbn [unwrap_result]. unfold find_node. change (rid (cpu_rose c id id2 i p)) with id in Hruns.
  edestruct (find_runs_some _ (name_is "interrupt-controller") _ _ _ (iter_fuel d) [_] _ [] Hruns Hl) as (it1 & l' & Hfind & _).
  - apply Forall_singleton. by rewrite (name_is_plain _ _ (cpu_name i)) by (reflexivity || by apply cpu_name_plain).
  - by rewrite (name_is_plain _ _ (Str.lit "interrupt-controller")) by reflexivity.
  - unfold iter_fuel. cbn. destruct (Arena.vals (DeviceTree.node_arena d)) eqn:E; [|cbn; lia].
    exfalso. unfold DeviceTree.get_node, Arena.get in Hg. by rewrite E in Hg.
  - cbn [mbind outcome_bind]. rewrite Hfind. cbn [mbind outcome_bind unwrap_option]. rewrite (find_prop_assoc _ (intc_props p)) by reflexivity.
    cbn [intc_props assoc String.eqb Ascii.eqb Bool.eqb fmap option_fmap option_map mbind outcome_bind unwrap_option].
    by rewrite first_u32_be.
Qed.

Definition intc_node (id id2 : nat) (p : Z) : DeviceTreeNode.t :=
  node_of (Some id) (Rose id2 (cstr (Str.lit "interrupt-controller")) (map prop_of (intc_props p)) []).
Lemma cpu_entries par id id2 i p :
  (entries par (cpu_rose c id id2 i p)).*2 = [node_of par (cpu_rose c id id2 i p); intc_node id id2 p].
Proof. done. Qed.
(** The loop over the CPUs, behind nodes that are none. *)
Lemma cpus_loop_spec d C cid cn cps it' lst :
  fits d → DeviceTreeIter.next (DeviceTree.node_arena d) it' = Returns (None, it') →
  Forall (λ ip, 0 ≤ ip.1 ∧ in_width 4 ip.2) lst →
  ∀ xs l1 pre l it fuel hs ps,
    models d (Some (plug C (Rose cid cn cps (l1 ++ xs)))) → Forall2 (is_cpu_rose c) lst xs →
    runs (DeviceTree.node_arena d) it l it' → l.*1 = pre ++ (forest (Some cid) xs).*2 →
    Forall (λ n, CpuInfo.is_cpu n = Returns false) pre → (length l < iter_fuel d)%nat → (length lst < fuel)%nat →
    (length hs + length lst ≤ MAX_CPUS)%nat → length ps = length hs →
    CpuInfo.cpus_loop fuel d it hs ps = Returns (hs ++ map (λ ip, wrap32 ip.1) lst, ps ++ map snd lst).
Proof.
  intros Hfit Hend Hlst. induction Hlst as [|[i p] lst [Hi Hp] _ IH]; intros xs l1 pre l it fuel hs ps Hm Hxs Hr Hl Hpre Hlen Hfuel Hmax Hps;
    (destruct fuel as [|fuel]; [lia|]); cbn [CpuInfo.cpus_loop].
  - inversion Hxs. subst xs. cbn in Hl. rewrite app_nil_r in Hl. unfold find_node.
    rewrite (find_runs_none _ _ _ _ _ _ Hr Hend) by (by rewrite ?Hl). cbn. by rewrite !app_nil_r.
  - inversion Hxs as [|? x ? xs' (id & id2 & Hx) Hxs' Hlst' Hxs'']. subst. cbn [fst snd] in *.
    rewrite forest_cons, fmap_app, cpu_entries in Hl. cbn [app] in Hl.
    edestruct (find_runs_some _ CpuInfo.is_cpu _ _ _ (iter_fuel d) pre _ _ Hr Hl Hpre) as (it1 & l' & Hfind & Hr' & Hl').
    { apply (cpu_rose_is_cpu (Some cid) id id2 i p). }
    { apply (f_equal length) in Hl. rewrite length_fmap, length_app in Hl. lia. }
    unfold find_node. rewrite Hfind. cbn [mbind outcome_bind].
    rewrite cpu_hart_id. cbn [mbind outcome_bind length] in *.
    unfold array_push. rewrite (proj2 (Nat.ltb_lt _ _)) by lia. cbn [mbind outcome_bind].
    rewrite (cpu_phandle d C cid cn cps l1 xs' id id2 i p Hi Hp Hfit Hm).
    cbn [mbind outcome_bind]. rewrite (proj2 (Nat.ltb_lt _ _)) by lia. cbn [mbind outcome_bind].
    rewrite (IH xs' (l1 ++ [cpu_rose c id id2 i p]) [intc_node id id2 p] l');
      [by rewrite <- !app_assoc|by rewrite <- app_assoc|done|done|exact Hl'|..].
    + apply Forall_singleton, intc_is_cpu.
    + apply (f_equal length) in Hl, Hl'. rewrite length_app in Hl. cbn [length] in Hl, Hl'.
      rewrite !length_fmap in Hl, Hl'. lia.
    + lia.
    + rewrite length_app. cbn. lia.
    + rewrite !length_app. cbn. lia.
Qed.

(** What the host sees: the CPUs are numbered from 0. *)
Definition as_host : CpuInfo.t :=
  CpuInfo.mk (CpuInfo.has_aia c) (CpuInfo.has_sstc c) (CpuInfo.has_sscofpmf c) (CpuInfo.has_vector c)
    (CpuInfo.timer_frequency c) (CpuInfo.isa_string c)
    (seqZ 0 (Z.of_nat (length (CpuInfo.intc_phandles c)))) (CpuInfo.intc_phandles c).
Lemma numbered_hart_ids : map (λ ip, wrap32 ip.1) (numbered c) = seqZ 0 (Z.of_nat (length (CpuInfo.intc_phandles c))).
Proof.
  destruct (wf_phandles Hwf) as [_ [_ Hmax]]. unfold MAX_CPUS in Hmax. apply list_eq. intros i. unfold numbered.
  change (map ?f ?l) with (f <$> l). rewrite list_lookup_fmap, list_lookup_imap.
  destruct (CpuInfo.intc_phandles c !! i) as [p|] eqn:E; cbn.
  - apply lookup_lt_Some in E. rewrite lookup_seqZ_lt by lia. f_equal. unfold wrap32. rewrite Z.mod_small by lia. lia.
  - apply lookup_ge_None in E. by rewrite lookup_seqZ_ge by lia.
Qed.
Lemma numbered_phandles : map snd (numbered c) = CpuInfo.intc_phandles c.
Proof.
  apply list_eq. intros i. unfold numbered. change (map ?f ?l) with (f <$> l). rewrite list_lookup_fmap, list_lookup_imap.
  by destruct (CpuInfo.intc_phandles c !! i).
Qed.
Lemma numbered_ok : Forall (λ ip, 0 ≤ ip.1 ∧ in_width 4 ip.2) (numbered c).
Proof.
  destruct (wf_phandles Hwf) as [Hp _]. apply list.Forall_forall. intros ip (k & p & -> & Hk)%elem_of_lookup_imap_1.
  cbn. split; [lia|]. apply (proj1 (list.Forall_forall _ _) Hp). by eapply list_elem_of_lookup_2.
Qed.
(** No node of a tree has the name. *)
Definition unused (name : string) (t : rose) : Prop :=
  Forall (λ n, DeviceTreeNode.name n ≠ Returns (Str.lit name)) (entries None t).*2.
Lemma unused_name_is name n :
  named n → DeviceTreeNode.name n ≠ Returns (Str.lit name) → name_is name n = Returns false.
Proof.
  intros [Hn _] Hne. unfold name_is, DeviceTreeNode.name in *. rewrite c_string_str in * by done. cbn.
  f_equal. apply bool_decide_eq_false_2. congruence.
Qed.
Lemma prop_first_u32_of name n l v :
  DeviceTreeNode.props n = map prop_of l → plain_names l = true → assoc name l = Some (ValU32 [v]) → in_width 4 v →
  CpuInfo.prop_first_u32 name n = Returns v.
Proof.
  intros Hn Hl Ha Hv. unfold CpuInfo.prop_first_u32. rewrite (find_prop_assoc _ l) by done. rewrite Ha.
  cbn [fmap option_fmap option_map mbind outcome_bind unwrap_option]. by rewrite first_u32_be.
Qed.
Lemma prop_str_of name n l v :
  DeviceTreeNode.props n = map prop_of l → plain_names l = true → assoc name l = Some (ValStr v) → plain v = true →
  CpuInfo.prop_str name n = Returns v.
Proof.
  intros Hn Hl Ha Hv. unfold CpuInfo.prop_str. rewrite (find_prop_assoc _ l) by done. rewrite Ha.
  cbn [fmap option_fmap option_map mbind outcome_bind unwrap_option]. by rewrite value_str_of.
Qed.

Lemma cpu_forest_length lst par xs : Forall2 (is_cpu_rose c) lst xs → length (forest par xs) = (2 * length lst)%nat.
Proof.
  induction 1 as [|ip x lst xs (id & id2 & ->) _ IH]; [done|]. rewrite forest_cons, length_app, IH.
  pose proof (f_equal length (cpu_entries par id id2 ip.1 ip.2)) as He. rewrite length_fmap in He. rewrite He. cbn. lia.
Qed.
(** The part of [parse_from] behind the node of all CPUs. *)
Lemma parse_host_rest d C cid cn cps xs it l it' :
  fits d → models d (Some (plug C (Rose cid cn cps xs))) → Forall2 (is_cpu_rose c) (numbered c) xs →
  runs (DeviceTree.node_arena d) it l it' → l.*1 = (forest (Some cid) xs).*2 →
  DeviceTreeIter.next (DeviceTree.node_arena d) it' = Returns (None, it') → (length l < iter_fuel d)%nat →
  ('(r, it) ← find_in_iter (iter_fuel d) (DeviceTree.node_arena d) CpuInfo.is_cpu it;
   cpu0 ← unwrap_option r;
   isa_string ← CpuInfo.prop_str "riscv,isa" cpu0;
   mmu_string ← CpuInfo.prop_str "mmu-type" cpu0;
   (if Str.eqb mmu_string (Str.lit "riscv,sv48") || Str.eqb mmu_string (Str.lit "riscv,sv57")
    then Returns tt else Panics);;
   hart_id ← CpuInfo.hart_id_from_cpu_node cpu0;
   phandle ← CpuInfo.intc_phandle_from_cpu_node d cpu0;
   '(hart_ids, intc_phandles) ← CpuInfo.cpus_loop (iter_fuel d) d it [hart_id] [phandle];
   isa ← array_string MAX_ISA_STRING_LEN isa_string;
   Returns (CpuInfo.mk (isa_string_has_extension isa_string "ssaia") (isa_string_has_extension isa_string "sstc")
              (isa_string_has_extension isa_string "sscofpmf") (isa_string_has_base_extension isa_string 118)
              (CpuInfo.timer_frequency c) isa hart_ids intc_phandles)) = Returns as_host.
Proof.
  intros Hfit Hm Hxs Hr Hl Hend Hlen. pose proof numbered_ok as Hok. pose proof numbered_hart_ids as Hids.
  pose proof numbered_phandles as Hphs. destruct (wf_phandles Hwf) as [_ Hlen1]. rewrite <- Hphs, length_map in Hlen1.
  destruct (numbered c) as [|[i p] lst]; [cbn in Hlen1; lia|]. cbn [map fst snd] in Hids, Hphs.
  inversion_clear Hok as [|? ? [Hi Hp] Hok']. cbn [fst snd] in Hi, Hp.
  inversion Hxs as [|? y ? xs' (id & id2 & Hy) Hxs' Hlst' Hxs'']. subst. cbn [fst snd] in *.
  rewrite forest_cons, fmap_app, cpu_entries in Hl. cbn [app] in Hl.
  edestruct (find_runs_some _ CpuInfo.is_cpu _ _ _ (iter_fuel d) [] _ _ Hr Hl) as (it1 & l' & Hfind & Hr' & Hl');
    [constructor|apply cpu_rose_is_cpu|cbn; lia|].
  rewrite Hfind. cbn [mbind outcome_bind unwrap_option].
  rewrite (prop_str_of "riscv,isa" _ (cpu_props c i) (CpuInfo.isa_string c)) by (apply (wf_isa Hwf) || reflexivity).
  cbn [mbind outcome_bind]. rewrite (prop_str_of "mmu-type" _ (cpu_props c i) (Str.lit "riscv,sv48")) by reflexivity.
  cbn [mbind outcome_bind]. rewrite lit_eqb. cbn [String.eqb Ascii.eqb Bool.eqb orb mbind outcome_bind].
  rewrite cpu_hart_id. cbn [mbind outcome_bind].
  rewrite (cpu_phandle d C cid cn cps [] xs' id id2 i p Hi Hp Hfit Hm). cbn [mbind outcome_bind].
  rewrite (cpus_loop_spec d C cid cn cps it' lst Hfit Hend Hok' xs' [cpu_rose c id id2 i p] [intc_node id id2 p] l' it1);
    [|done|done|done|exact Hl'|apply Forall_singleton, intc_is_cpu|..].
  - cbn [mbind outcome_bind app]. rewrite Hids, Hphs. unfold array_string.
    rewrite (proj2 (Nat.leb_le _ _)) by apply (wf_isa Hwf). cbn [mbind outcome_bind].
    destruct (wf_flags Hwf) as (<- & <- & <- & <-). done.
  - apply (f_equal length) in Hl, Hl'. rewrite length_fmap in Hl, Hl'. cbn [length] in *. rewrite length_fmap in *. lia.
  - apply (f_equal length) in Hl. cbn [length] in Hl. rewrite !length_fmap, (cpu_forest_length lst) in Hl by done. lia.
  - cbn in *. lia.
  - done.
Qed.
Lemma parse_host_cpus d r n ps l cid xs :
  fits d → unused "cpus" (Rose r n ps l) → Forall2 (is_cpu_rose c) (numbered c) xs →
  models d (Some (Rose r n ps (l ++ [Rose cid (cstr (Str.lit "cpus")) (map prop_of (cpus_props c)) xs]))) →
  CpuInfo.parse_from d = Returns as_host.
Proof.
  intros Hfit Hun Hxs Hm. set (cpus := Rose cid _ _ xs) in *.
  destruct (tree_runs d None (Rose r n ps (l ++ [cpus]))) as (vs & it' & Hruns & Hvs & Hend & Hlen); [apply Hm|apply Hm|done|].
  rewrite entries_eq, forest_app, forest_cons in Hvs. cbn [fmap list_fmap] in Hvs. rewrite !fmap_app in Hvs.
  unfold cpus at 2 in Hvs. rewrite entries_eq in Hvs. fold cpus in Hvs. cbn [fmap list_fmap snd forest mbind list_bind] in Hvs. rewrite app_nil_r in Hvs.
  assert (Forall (λ m, name_is "cpus" m = Returns false) (node_of None (Rose r n ps (l ++ [cpus])) :: (forest (Some r) l).*2)) as Hpre.
  { pose proof (models_named _ _ Hm) as Hnm. cbn [oentries from_option] in Hnm. rewrite entries_eq, forest_app in Hnm.
    cbn [fmap list_fmap] in Hnm. rewrite fmap_app in Hnm. inversion_clear Hnm as [|? ? Hroot Hrest].
    apply list.Forall_app in Hrest as [Hrest _]. unfold unused in Hun. rewrite entries_eq in Hun. cbn [fmap list_fmap] in Hun.
    inversion_clear Hun as [|? ? Hroot' Hrest']. constructor; [by apply unused_name_is|].
    apply list.Forall_forall. intros m Hin. apply unused_name_is.
    - by apply (proj1 (list.Forall_forall _ _) Hrest).
    - by apply (proj1 (list.Forall_forall _ _) Hrest'). }
  unfold CpuInfo.parse_from, find_node, DeviceTree.iter. rewrite (models_root _ _ Hm). cbn [fmap option_fmap option_map rid] in *.
  edestruct (find_runs_some _ (name_is "cpus") _ _ _ (iter_fuel d) (_ :: _) _ _ Hruns Hvs Hpre) as (it1 & l1 & Hfind & Hr1 & Hl1).
  { by rewrite (name_is_plain _ _ (Str.lit "cpus")) by reflexivity. }
  { apply (f_equal length) in Hvs. rewrite length_fmap in Hvs. cbn [length] in Hvs. rewrite length_app in Hvs. cbn [length] in *. lia. }
  assert (length l1 < iter_fuel d)%nat as Hlen1.
  { apply (f_equal length) in Hvs, Hl1. rewrite length_fmap in Hvs, Hl1. cbn [length] in Hvs. rewrite length_app in Hvs. cbn [length] in *. lia. }
  rewrite Hfind. cbn [mbind outcome_bind unwrap_option].
  rewrite (prop_first_u32_of "#address-cells" _ (cpus_props c) 1) by (reflexivity || (unfold in_width; lia)). cbn [mbind outcome_bind]. rewrite Z.eqb_refl. cbn [mbind outcome_bind].
  rewrite (prop_first_u32_of "timebase-frequency" _ (cpus_props c) (CpuInfo.timer_frequency c)) by (reflexivity || apply (wf_timer Hwf)).
  cbn [mbind outcome_bind]. by apply (parse_host_rest d [Frame r n ps l []] cid (cstr (Str.lit "cpus")) (map prop_of (cpus_props c)) xs it1 l1 it').
Qed.
End parse.

(** The host finds the CPUs of the machine.  Whatever the allocator answers, adding
    the CPU nodes to a tree without them does not panic and fails only for lack of
    memory; reading the tree then gives back what the hypervisor knows of its CPUs,
    with harts numbered from 0 in the order of the logical CPUs. *)
Theorem host_cpu_nodes_roundtrip {H} `{Heap H} c d r n ps l (h : H) :
  info_wf c → models d (Some (Rose r n ps l)) → unused "cpus" (Rose r n ps l) →
  ∃ res d' h', add_host_cpu_nodes c (d, h) = Returns (res, (d', h')) ∧
    match res with
    | Ok _ => fits d' → CpuInfo.parse_from d' = Returns (as_host c)
    | Err e => e = DeviceTreeError.AllocError
    end.
Proof.
  intros Hwf Hm Hun. destruct (wf_phandles c Hwf) as [_ [_ Hmax]].
  destruct (add_host_cpu_nodes_spec c d r n ps l Hmax Hm h) as (res & d' & h' & Hrun & Hpost).
  exists res, d', h'. split; [done|]. destruct res as [[]|e]; [|done]. destruct Hpost as (cid & xs & Hxs & Hm').
  intros Hfit. by eapply parse_host_cpus.
Qed.

(** ** Example: two CPUs *)
Definition example_info : CpuInfo.t :=
  CpuInfo.mk true true false true 10000000 (Str.lit "rv64imafdcvh_ssaia_sstc") [4; 7] [21; 22].
Definition host_tree : DeviceTree.t := Eval vm_compute in
  match for_each [OpAddNode [] None; OpAddNode (Str.lit "soc") (Some O)] (λ op, run_op op;; mret tt) (DeviceTree.new, []) with
  | Returns (Ok tt, (d, _)) => d
  | _ => DeviceTree.new
  end.
Definition host_rose : rose := Rose 0 [0] [] [Rose 1 (Str.lit "soc" ++ [0]) [] []].
Lemma host_models : models host_tree (Some host_rose).
Proof.
  constructor.
  - reflexivity.
  - unfold stored. vm_compute. by repeat constructor.
  - apply (bool_decide_unpack (NoDup (oids (Some host_rose)))). by vm_compute.
  - vm_compute. by repeat constructor.
Qed.
Lemma example_info_wf : info_wf example_info.
Proof.
  split; [split; [reflexivity|vm_compute; lia]|done|unfold in_width; cbn; lia|].
  split; [|cbn; unfold MAX_CPUS; lia]. repeat constructor; unfold in_width; lia.
Qed.
Lemma host_cpu_nodes_roundtrip_witness :
  ∃ res d' h', add_host_cpu_nodes example_info (host_tree, []) = Returns (res, (d', h')) ∧
    match res with
    | Ok _ => fits d' → CpuInfo.parse_from d' = Returns (as_host example_info)
    | Err e => e = DeviceTreeError.AllocError
    end.
Proof.
  apply (host_cpu_nodes_roundtrip example_info host_tree 0%nat [0] [] [Rose 1 (Str.lit "soc" ++ [0]) [] []] []).
  - apply example_info_wf.
  - apply host_models.
  - unfold unused. vm_compute. by repeat constructor.
Defined.
