(* ===== verification/ImsicProbeFacts.v ===== *)
(** * The host sees the interrupt files of the machine

    What probing an IMSIC node finds out, and that the node which the hypervisor
    writes for the host is probed with the same result, but for the guest interrupt
    file of the host itself. *)
From stdpp Require Import strings.
From S2P Require Import Prelude RiscvPages MemMap Imsic ImsicFacts ImsicCore DeviceTree DeviceTreeFacts Fdt FdtFacts FdtRoundtrip.
From S2P Require Import DeviceTreeRefine CpuInfo NodeFacts CpuInfoFacts ImsicProbe.
Open Scope string_scope.
Open Scope list_scope.
Open Scope Z_scope.
Import ImsicNode(dt_index, per_cpu).

(** ** Addresses of the harts of a region *)
Section geometry.
Variable g : ImsicGeometry.t.
Notation uib := (ImsicGeometry.guest_index_bits g).
Notation u := (uib mod 64).
Lemma shl64_bits : shl64 1 uib = 2 ^ u.
Proof.
  unfold shl64. rewrite Z.shiftl_1_l. unfold wrap64. pose proof (Z.mod_pos_bound uib 64 ltac:(lia)).
  pose proof (Z.pow_lt_mono_r 2 u 64 ltac:(lia) ltac:(lia) ltac:(lia)). apply Z.mod_small. lia.
Qed.
Lemma per_hart_size_pow : ImsicNode.per_hart_size g ≠ 0 → u ≤ 51 ∧ ImsicNode.per_hart_size g = 2 ^ u * 4096.
Proof.
  unfold ImsicNode.per_hart_size. rewrite shl64_bits. pose proof (Z.mod_pos_bound uib 64). intros Hne.
  change 4096 with (2 ^ 12) in *. rewrite <- Z.pow_add_r in * by lia.
  assert (u ≤ 51) as Hu.
  { destruct (Z.le_gt_cases u 51) as [|Hgt]; [done|]. exfalso. apply Hne. unfold wrap64. change U64 with (2 ^ 64).
    replace (u + 12) with (64 + (u - 52)) by lia. rewrite Z.pow_add_r, Z.mul_comm by lia. apply Z.mod_mul. lia. }
  split; [done|]. unfold wrap64. pose proof (Z.pow_lt_mono_r 2 (u + 12) 64 ltac:(lia) ltac:(lia) ltac:(lia)).
  apply Z.mod_small. lia.
Qed.
Lemma per_hart_size_pos : ImsicNode.per_hart_size g ≠ 0 → 0 < ImsicNode.per_hart_size g.
Proof. unfold ImsicNode.per_hart_size, wrap64. intros. pose proof (Z.mod_pos_bound (shl64 1 uib * 4096) U64 ltac:(lia)). lia. Qed.
Lemma extract_add a k :
  extract (a + 4096 * (k * 2 ^ u)) uib 12 = extract a uib 12.
Proof.
  unfold extract, shr64. change (12 mod 64) with 12. rewrite !Z.shiftr_div_pow2 by lia. change (2 ^ 12) with 4096.
  pose proof (Z.mod_pos_bound uib 64 ltac:(lia)). rewrite shl64_bits.
  assert (wrap64 (2 ^ u - 1) = Z.ones u) as ->.
  { rewrite Z.ones_equiv. unfold wrap64. rewrite Z.mod_small; [lia|].
    assert (0 < 2 ^ u ≤ 2 ^ 63) by (split; [lia|apply Z.pow_le_mono_r; lia]). lia. }
  rewrite !Z.land_ones by lia. rewrite (Z.mul_comm 4096), Z.div_add by lia. apply Z.mod_add. lia.
Qed.
End geometry.

(** ** A geometry with another number of guest files *)
Definition with_guests (k : Z) (g : ImsicGeometry.t) : ImsicGeometry.t :=
  ImsicGeometry.mk (ImsicGeometry.base_addr g) (ImsicGeometry.group_index_bits g) (ImsicGeometry.group_index_shift g)
    (ImsicGeometry.hart_index_bits g) (ImsicGeometry.guest_index_bits g) k.
Definition file_index (g : ImsicGeometry.t) (a : Z) : Z := wrap32 (extract a (ImsicGeometry.guest_index_bits g) GUEST_INDEX_SHIFT).
Lemma file_zero x : ImsicFileId.bits (ImsicFileId.from_index (wrap32 x)) = 0 → wrap32 x = 0.
Proof.
  unfold ImsicFileId.from_index. destruct (Z.eqb_spec (wrap32 x) 0) as [|Hne]; [done|]. cbn. rewrite Z.sub_add.
  unfold wrap32 in *. by rewrite Z.mod_mod by lia.
Qed.
Lemma location_file g a l :
  ImsicGeometry.addr_to_location g a = Some l → ImsicLocation.file l = ImsicFileId.from_index (file_index g a).
Proof.
  unfold ImsicGeometry.addr_to_location. destruct (negb _); [done|]. fold (file_index g a).
  destruct (_ <? file_index g a); [done|]. by intros [= <-].
Qed.
Lemma location_guests g k a l :
  ImsicGeometry.addr_to_location g a = Some l → ImsicFileId.bits (ImsicLocation.file l) = 0 → 0 ≤ k →
  ImsicGeometry.addr_to_location (with_guests k g) a = Some l.
Proof.
  intros Hl Hf Hk. pose proof (location_file _ _ _ Hl) as Hfile. rewrite Hfile in Hf. apply file_zero in Hf.
  revert Hl. unfold ImsicGeometry.addr_to_location.
  change (ImsicGeometry.index_mask (with_guests k g)) with (ImsicGeometry.index_mask g). cbn [with_guests ImsicGeometry.base_addr ImsicGeometry.guests_per_hart ImsicGeometry.group_index_bits ImsicGeometry.group_index_shift ImsicGeometry.hart_index_bits ImsicGeometry.guest_index_bits].
  destruct (negb _); [done|]. fold (file_index g a). unfold file_index in *. rewrite Hf.
  rewrite (proj2 (Z.ltb_ge k 0)) by lia. by destruct (_ <? 0).
Qed.
(** The first file of every hart of a region is that of the hypervisor. *)
Lemma hart_location g base i a l0 l :
  ImsicGeometry.addr_to_location g base = Some l0 → ImsicFileId.bits (ImsicLocation.file l0) = 0 →
  ImsicNode.per_hart_size g ≠ 0 → 0 ≤ i → i * ImsicNode.per_hart_size g < U64 →
  PageAddr.checked_add_pages base (wrap64 (i * ImsicNode.per_hart_size g) / 4096) = Some a →
  ImsicGeometry.addr_to_location g a = Some l → ImsicFileId.bits (ImsicLocation.file l) = 0.
Proof.
  intros Hl0 Hf0 Hph Hi Hlt Ha Hl. rewrite (location_file _ _ _ Hl0) in Hf0. apply file_zero in Hf0.
  rewrite (location_file _ _ _ Hl). destruct (per_hart_size_pow g Hph) as [Hu Hsize].
  assert (a = base + 4096 * (i * 2 ^ (ImsicGeometry.guest_index_bits g mod 64))) as ->.
  { unfold wrap64 in Ha. rewrite Z.mod_small in Ha by lia. rewrite Hsize in Ha.
    rewrite Z.mul_assoc, Z.div_mul in Ha by lia. unfold PageAddr.checked_add_pages, PageAddr.checked_add_pages_with_size in Ha.
    unfold checked_mul, RawAddr.checked_increment, checked_add, PageAddr.with_alignment in Ha. cbn in Ha.
    repeat (case_match; cbn in Ha; try done). injection Ha as <-. lia. }
  unfold file_index, GUEST_INDEX_SHIFT in *. rewrite extract_add, Hf0. done.
Qed.

(** ** Matching interrupt files with CPUs *)
(** The cells of the interrupts of CPUs with these phandles. *)
Definition cells (phs : list Z) : list Z := phs ≫= λ p, [p; SEXT_SHIFT].
Lemma cells_app l k : cells (l ++ k) = cells l ++ cells k.
Proof. apply bind_app. Qed.
Lemma length_int_cells l : length (cells l) = (2 * length l)%nat.
Proof. induction l as [|p l IH]; [done|]. cbn. unfold cells in IH. rewrite IH. lia. Qed.

Section matching.
Variable info : CpuInfo.t.
(** The interrupts were matched in their order, each with a CPU of its own. *)
Record placed (phs : list Z) (m : ImsicNode.matching) : Prop := {
  placed_count : dt_index m = Z.of_nat (length phs);
  placed_cpu j ph : phs !! j = Some ph → ∃ cpu s, CpuInfo.intc_phandle_to_cpu info ph = Some cpu ∧
    per_cpu m !! Z.to_nat cpu = Some (Some s) ∧ ImsicPerCpu.dt_index s = Z.of_nat j;
  placed_index k s : per_cpu m !! k = Some (Some s) →
    0 ≤ ImsicPerCpu.dt_index s < Z.of_nat (length phs) ∧ ImsicPerCpu.taken s = false;
  placed_unique k k' s s' : per_cpu m !! k = Some (Some s) → per_cpu m !! k' = Some (Some s') →
    ImsicPerCpu.dt_index s = ImsicPerCpu.dt_index s' → k = k'
}.
Lemma placed_nil n : placed [] (ImsicNode.Matching (replicate n None) 0).
Proof.
  split; [done|done| |]; intros k; intros.
  - by apply lookup_replicate_1 in H as [? _].
  - by apply lookup_replicate_1 in H as [? _].
Qed.
Lemma lookup_insert_cases {A} (l : list A) i j x y :
  <[i := x]> l !! j = Some y → (i = j ∧ y = x ∧ (i < length l)%nat) ∨ (i ≠ j ∧ l !! j = Some y).
Proof.
  destruct (decide (i = j)) as [->|Hne]; [|rewrite list_lookup_insert_ne by done; auto].
  intros Hy. pose proof (lookup_lt_Some _ _ _ Hy) as Hlt. rewrite length_insert in Hlt.
  rewrite list_lookup_insert_eq in Hy by done. left. by injection Hy.
Qed.
Lemma placed_snoc g phs m base i ph cpu m' :
  placed phs m → CpuInfo.intc_phandle_to_cpu info ph = Some cpu →
  ImsicNode.place_cpu g base i cpu m = Returns (Ok m') → placed (phs ++ [ph]) m'.
Proof.
  intros Hm Hcpu Hp. unfold ImsicNode.place_cpu in Hp.
  destruct (PageAddr.checked_add_pages base _) as [a|]; [cbn in Hp|done].
  destruct (ImsicGeometry.addr_to_location g a) as [loc|]; [|done].
  destruct (per_cpu m !! Z.to_nat cpu) as [[s0|]|] eqn:Hslot; cbn in Hp; [done| |done]. injection Hp as <-.
  destruct Hm as [Hcount Hcpus Hidx Huniq]. pose proof (lookup_lt_Some _ _ _ Hslot) as Hlt.
  split; cbn [ImsicNode.per_cpu ImsicNode.dt_index].
  - rewrite length_app. cbn. lia.
  - intros j p [Hj|[Hj Hp]]%lookup_app_Some.
    + destruct (Hcpus j p Hj) as (cpu' & s & H1 & H2 & H3). exists cpu', s. split; [done|]. split; [|done].
      rewrite list_lookup_insert_ne; [done|]. intros Heq. by rewrite Heq, H2 in Hslot.
    + apply list_lookup_singleton_Some in Hp as [Hj' <-]. eexists cpu, _. split; [done|].
      rewrite list_lookup_insert_eq by done. split; [done|]. cbn. lia.
  - rewrite length_app. cbn [length]. intros k s [(<- & [= ->] & _)|[_ Hk]]%lookup_insert_cases; [cbn; lia|].
    destruct (Hidx k s Hk). split; [lia|done].
  - intros k k' s s' [(<- & [= ->] & _)|[Hne Hk]]%lookup_insert_cases [(<- & [= ->] & _)|[Hne' Hk']]%lookup_insert_cases; cbn; [done|..].
    + destruct (Hidx k' s' Hk'). lia.
    + destruct (Hidx k s Hk). lia.
    + eauto.
Qed.
Lemma place_harts_placed g base harts ints :
  ∀ i m rest m' phs, placed phs m → ImsicNode.place_harts info g base i harts ints m = Returns (Ok (rest, m')) →
  ∃ new, ints = cells new ++ rest ∧ placed (phs ++ new) m'.
Proof.
  induction ints as [ints IH] using (well_founded_induction (Wf_nat.well_founded_ltof _ length)).
  intros i m rest m' phs Hm Hp. destruct ints as [|ph ints]; cbn [ImsicNode.place_harts] in Hp.
  { destruct (harts <=? i); [|done]. injection Hp as <- <-. exists []. split; [done|by rewrite app_nil_r]. }
  destruct (harts <=? i); [injection Hp as <- <-; exists []; split; [done|by rewrite app_nil_r]|].
  destruct ints as [|int ints]; [done|]. destruct (Z.eqb_spec int SEXT_SHIFT) as [->|]; [cbn [negb] in Hp|done].
  destruct (CpuInfo.intc_phandle_to_cpu info ph) as [cpu|] eqn:Hcpu; [|done].
  destruct (ImsicNode.place_cpu g base i cpu m) as [[m1|e]|] eqn:Hplace; cbn in Hp; [|done|done].
  pose proof (placed_snoc _ _ _ _ _ _ _ _ Hm Hcpu Hplace) as Hm1.
  destruct (IH ints ltac:(unfold Wf_nat.ltof; cbn; lia) _ _ _ _ _ Hm1 Hp) as (new & -> & Hnew).
  exists (ph :: new). split; [done|]. by rewrite <- app_assoc in Hnew.
Qed.

(** With other guest files the match is the same. *)
Lemma place_harts_guests g k base l0 harts ints :
  ImsicGeometry.addr_to_location g base = Some l0 → ImsicFileId.bits (ImsicLocation.file l0) = 0 →
  ImsicNode.per_hart_size g ≠ 0 → harts * ImsicNode.per_hart_size g < U64 → 0 ≤ k →
  ∀ i m r, 0 ≤ i → ImsicNode.place_harts info g base i harts ints m = Returns (Ok r) →
  ImsicNode.place_harts info (with_guests k g) base i harts ints m = Returns (Ok r).
Proof.
  intros Hl0 Hf0 Hph Hsize Hk.
  induction ints as [ints IH] using (well_founded_induction (Wf_nat.well_founded_ltof _ length)).
  intros i m r Hi Hp. destruct ints as [|ph ints]; cbn [ImsicNode.place_harts] in *; [done|].
  destruct (Z.leb_spec harts i) as [|Hlt]; [done|].
  destruct ints as [|int ints]; [done|]. destruct (negb (int =? SEXT_SHIFT)); [done|].
  destruct (CpuInfo.intc_phandle_to_cpu info ph) as [cpu|]; [|done].
  destruct (ImsicNode.place_cpu g base i cpu m) as [[m1|e]|] eqn:Hplace; cbn [mbind outcome_bind] in Hp; [|done|done].
  assert (ImsicNode.place_cpu (with_guests k g) base i cpu m = Returns (Ok m1)) as ->.
  { unfold ImsicNode.place_cpu in *. change (ImsicNode.per_hart_size (with_guests k g)) with (ImsicNode.per_hart_size g).
    destruct (PageAddr.checked_add_pages base _) as [a|] eqn:Ha; [cbn [unwrap_option mbind outcome_bind] in *|done].
    destruct (ImsicGeometry.addr_to_location g a) as [loc|] eqn:Hloc; [|done].
    rewrite (location_guests g k a loc Hloc); [done| |done]. eapply (hart_location g base i); eauto.
    pose proof (per_hart_size_pos g Hph). nia. }
  cbn [mbind outcome_bind]. apply IH; [unfold Wf_nat.ltof; cbn; lia|lia|done].
Qed.
Lemma region_start_guests g k b base :
  ImsicNode.region_start g b = Ok base → 0 ≤ k →
  ImsicNode.region_start (with_guests k g) b = Ok base ∧ base = b ∧
  ∃ l0, ImsicGeometry.addr_to_location g base = Some l0 ∧ ImsicFileId.bits (ImsicLocation.file l0) = 0.
Proof.
  unfold ImsicNode.region_start. intros Hs Hk. destruct (PageAddr.new b) as [b'|] eqn:Hb; [|done].
  assert (b' = b) as ->.
  { unfold PageAddr.new, PageAddr.with_alignment in Hb. destruct (PageSize.is_aligned _ b); [by injection Hb as <-|done]. }
  destruct (ImsicGeometry.addr_to_location g b) as [l|] eqn:Hl; [|done].
  destruct (Z.eqb_spec (ImsicFileId.bits (ImsicLocation.file l)) 0) as [Hf|]; [|by rewrite orb_true_r in Hs].
  rewrite (location_guests g k b l Hl Hf Hk), Hf. destruct (ImsicLocation.hart l =? 0); [|done]. injection Hs as <-. eauto.
Qed.

(** The registers of a region are its base and its size. *)
Definition region_regs (rs : list PageAddrRange.t) : list Z := rs ≫= λ r, [PageAddrRange.base r; PageAddrRange.length_bytes r].
Lemma region_size_kept g size base :
  u64 size → ImsicNode.per_hart_size g ≠ 0 → size mod ImsicNode.per_hart_size g = 0 →
  PageAddrRange.length_bytes (PageAddrRange.new base (PageSize.num_4k_pages size)) = size.
Proof.
  intros Hu Hph Hmod. destruct (per_hart_size_pow g Hph) as [Hb Hsize]. rewrite Hsize in Hmod.
  assert (size mod 4096 = 0) as H4k.
  { apply Z.mod_divide; [lia|]. apply Z.mod_divide in Hmod; [|lia]. etransitivity; [|exact Hmod]. by eexists. }
  apply Z.mod_divide in H4k as [q ->]; [|lia]. unfold u64 in Hu.
  rewrite num_4k_pages_mul by lia. unfold PageAddrRange.length_bytes. cbn. unfold wrap64. apply Z.mod_small. lia.
Qed.
Lemma place_regions_spec g k regs :
  0 ≤ k → Forall u64 regs → ∀ ints m mmio mt mmio' phs, placed phs m →
  ImsicNode.place_regions info g regs ints m mmio = Returns (Ok (mt, mmio')) →
  ∃ new rest rs, ints = cells new ++ rest ∧ placed (phs ++ new) mt ∧ mmio' = mmio ++ rs ∧ regs = region_regs rs ∧
    ImsicNode.place_regions info (with_guests k g) regs ints m mmio = Returns (Ok (mt, mmio')).
Proof.
  intros Hk. induction regs as [regs IH] using (well_founded_induction (Wf_nat.well_founded_ltof _ length)).
  intros Hu ints m mmio mt mmio' phs Hm Hp. destruct regs as [|b regs]; cbn [ImsicNode.place_regions] in *.
  { injection Hp as <- <-. exists [], ints, []. rewrite !app_nil_r. done. }
  destruct (ImsicNode.region_start g b) as [base|e] eqn:Hs; [|done].
  destruct (region_start_guests g k b base Hs Hk) as (Hs' & -> & l0 & Hl0 & Hf0). rewrite Hs'.
  change (ImsicNode.per_hart_size (with_guests k g)) with (ImsicNode.per_hart_size g).
  destruct regs as [|size regs]; [done|]. destruct (Z.eqb_spec (ImsicNode.per_hart_size g) 0) as [|Hph]; [done|].
  destruct (Z.eqb_spec (size mod ImsicNode.per_hart_size g) 0) as [Hmod|]; [cbn [negb] in *|done].
  inversion_clear Hu as [|? ? _ Hu1]. inversion_clear Hu1 as [|? ? Hsize Hu2].
  destruct (ImsicNode.place_harts info g b 0 _ ints m) as [[[ints1 m1]|e]|] eqn:Hharts; cbn [mbind outcome_bind] in Hp; [|done|done].
  destruct (place_harts_placed _ _ _ _ _ _ _ _ _ Hm Hharts) as (new1 & -> & Hm1).
  pose proof (per_hart_size_pos g Hph) as Hpos.
  rewrite (place_harts_guests g k b l0 _ _ Hl0 Hf0 Hph) with (r := (ints1, m1)); [|..|done|lia|exact Hharts].
  2: { unfold u64 in Hsize. pose proof (Z.div_mod size (ImsicNode.per_hart_size g) Hph). nia. }
  cbn [mbind outcome_bind]. unfold array_push in *.
  destruct (length mmio <? MAX_MMIO_REGIONS)%nat; [cbn [mbind outcome_bind] in *|done].
  destruct (IH regs ltac:(unfold Wf_nat.ltof; cbn; lia) Hu2 _ _ _ _ _ _ Hm1 Hp) as (new2 & rest & rs & -> & Hm2 & -> & -> & Hsame).
  exists (new1 ++ new2), rest, (PageAddrRange.new b (PageSize.num_4k_pages size) :: rs).
  rewrite cells_app, <- !app_assoc. split; [done|]. split; [by rewrite app_assoc|]. split; [done|]. split; [|by rewrite <- ?app_assoc in Hsame].
  unfold region_regs at 2. cbn [mbind list_bind app PageAddrRange.base PageAddrRange.new]. rewrite (region_size_kept g size b) by done. done.
Qed.

(** The CPU that a dt index belongs to *)
Lemma placed_dt_index phs m j ph :
  placed phs m → phs !! j = Some ph →
  ∃ cpu, ImsicCpuState.dt_index_to_cpu (per_cpu m) (Z.of_nat j) = Some cpu ∧ CpuInfo.cpu_to_intc_phandle info cpu = Some ph.
Proof.
  intros Hm Hj. destruct (placed_cpu _ _ Hm j ph Hj) as (cpu & s & Hcpu & Hs & Hidx).
  unfold CpuInfo.intc_phandle_to_cpu in Hcpu. destruct (position _ (CpuInfo.intc_phandles info)) as [i|] eqn:Hi; [|done].
  cbn in Hcpu. injection Hcpu as <-. rewrite Nat2Z.id in Hs. exists (Z.of_nat i). split.
  - unfold ImsicCpuState.dt_index_to_cpu. destruct (position _ (per_cpu m)) as [i'|] eqn:Hi'.
    + apply position_Some in Hi' as ([s'|] & Hs' & Hidx' & _); [|done]. apply Z.eqb_eq in Hidx'. cbn. do 2 f_equal.
      apply (placed_unique _ _ Hm i' i s' s Hs' Hs). congruence.
    + apply position_None in Hi'. pose proof (proj1 (list.Forall_lookup _ _) Hi' i _ Hs) as Hf. cbn in Hf. lia.
  - unfold CpuInfo.cpu_to_intc_phandle. rewrite Nat2Z.id. apply position_Some in Hi as (p & Hp & Heq & _).
    apply Z.eqb_eq in Heq. by subst.
Qed.
End matching.

Lemma concat_cells l : concat (map (λ p, [p; SEXT_SHIFT]) l) = cells l.
Proof. induction l as [|p l IH]; [done|]. cbn. by rewrite IH. Qed.
Lemma host_interrupts_spec info m mt phs :
  placed info phs mt → Imsic.per_cpu m = per_cpu mt → CpuInfo.num_cpus info = Z.of_nat (length phs) →
  (length phs ≤ MAX_CPUS)%nat → ImsicNode.host_interrupts info m = Returns (cells phs).
Proof.
  intros Hm Hper Hn Hmax. unfold ImsicNode.host_interrupts. rewrite Hn.
  assert (∀ l pre, phs = pre ++ l →
    mapM (ImsicNode.host_interrupt info m) (seqZ (Z.of_nat (length pre)) (Z.of_nat (length l))) =
    Returns (map (λ p, [p; SEXT_SHIFT]) l)) as Hmap.
  { induction l as [|p l IH]; intros pre Hphs; [done|]. cbn [length]. rewrite seqZ_cons by lia. cbn [mapM map].
    destruct (placed_dt_index info phs mt (length pre) p Hm) as (cpu & Hcpu & Hph).
    { subst phs. by apply list_lookup_middle. }
    assert (ImsicNode.host_interrupt info m (Z.of_nat (length pre)) = Returns [p; SEXT_SHIFT]) as ->.
    { unfold ImsicNode.host_interrupt. rewrite Hper, Hcpu. cbn. by rewrite Hph. }
    cbn [mbind outcome_bind].
    replace (Z.succ (Z.of_nat (length pre))) with (Z.of_nat (length (pre ++ [p]))) by (rewrite length_app; cbn; lia).
    replace (Z.pred (Z.of_nat (S (length l)))) with (Z.of_nat (length l)) by lia.
    rewrite (IH (pre ++ [p])) by (by rewrite <- app_assoc). done. }
  rewrite (Hmap phs [] eq_refl : mapM _ (seqZ 0 _) = _). cbn [mbind outcome_bind]. rewrite concat_cells, length_int_cells.
  by rewrite (proj2 (Nat.leb_le _ _)) by lia.
Qed.

(** ** Properties of bytes *)
Definition is_byte (b : Z) : Prop := 0 ≤ b < 256.
Lemma from_be_bound l : Forall is_byte l → 0 ≤ from_be_bytes l < 256 ^ Z.of_nat (length l).
Proof.
  unfold from_be_bytes. assert (∀ l acc k, Forall is_byte l → 0 ≤ acc < 256 ^ k → 0 ≤ k →
    0 ≤ fold_left (λ acc b, acc * 256 + b) l acc < 256 ^ (k + Z.of_nat (length l))) as Hgen.
  { clear l. induction l as [|b l IH]; intros acc k Hl Hacc Hk; cbn [fold_left length]; [by rewrite Z.add_0_r|].
    inversion_clear Hl as [|? ? Hb Hl']. unfold is_byte in Hb.
    replace (k + Z.of_nat (S (length l))) with (k + 1 + Z.of_nat (length l)) by lia.
    apply IH; [done| |lia]. rewrite Z.pow_add_r by lia. lia. }
  intros Hl. apply (Hgen l 0 0 Hl); lia.
Qed.
Lemma iter_items_width fuel n buf : Forall is_byte buf → Forall (in_width n) (DeviceTreeProp.iter_items fuel n buf).
Proof.
  revert buf. induction fuel as [|fuel IH]; intros buf Hb; [constructor|]. cbn. unfold DeviceTreeProp.iter_next.
  destruct (Nat.ltb_spec (length buf) n) as [|Hn]; [constructor|]. constructor.
  - pose proof (from_be_bound (take n buf) (Forall_take _ _ _ Hb)) as Hw. rewrite length_take in Hw.
    unfold in_width. by replace (n `min` length buf)%nat with n in Hw by lia.
  - apply IH. by apply Forall_drop.
Qed.
Lemma iter_items_length fuel n buf :
  (0 < n)%nat → (length buf ≤ fuel)%nat → length (DeviceTreeProp.iter_items fuel n buf) = (length buf / n)%nat.
Proof.
  intros Hn. revert buf. induction fuel as [|fuel IH]; intros buf Hf.
  { assert (length buf = 0)%nat as -> by lia. by rewrite Nat.Div0.div_0_l. }
  cbn. unfold DeviceTreeProp.iter_next. destruct (Nat.ltb_spec (length buf) n) as [Hlt|Hge].
  - by rewrite Nat.div_small.
  - cbn. rewrite IH, length_drop by (rewrite length_drop; lia).
    replace (length buf) with (length buf - n + 1 * n)%nat at 2 by lia. rewrite Nat.div_add by lia. lia.
Qed.
Definition byte_props (n : DeviceTreeNode.t) : Prop := Forall (Forall is_byte ∘ DeviceTreeProp.value_raw) (DeviceTreeNode.props n).
Lemma find_prop_bytes name n p : byte_props n → find_prop name n = Returns (Some p) → Forall is_byte (DeviceTreeProp.value_raw p).
Proof.
  unfold byte_props, find_prop. induction 1 as [|q l Hq _ IH]; [done|]. cbn. destruct (DeviceTreeProp.name q) as [x|]; [cbn|done].
  destruct (Str.eqb x _); [by intros [= <-]|done].
Qed.

(** ** The properties of a node that can be probed *)
Definition geometry_from (first : Z) (g : ImsicGeometry.t) : Prop :=
  ImsicGeometry.base_addr g =
    Z.land first (not64 (gen_mask (ImsicGeometry.group_index_bits g) (ImsicGeometry.group_index_shift g))) ∧
  PageAddr.new (ImsicGeometry.base_addr g) = Some (ImsicGeometry.base_addr g) ∧
  ImsicGeometry.new (ImsicGeometry.base_addr g) (ImsicGeometry.group_index_bits g) (ImsicGeometry.group_index_shift g)
    (ImsicGeometry.hart_index_bits g) (ImsicGeometry.guest_index_bits g) (ImsicGeometry.guests_per_hart g) = Ok g.
Record layout_ok (guests num_cpus : Z) (l : ImsicNode.layout) : Prop := {
  lay_interrupts : Z.of_nat (length (ImsicNode.interrupts l)) = num_cpus * 2 ∧ Forall (in_width 4) (ImsicNode.interrupts l);
  lay_phandle : in_width 4 (ImsicNode.node_phandle l);
  lay_ids : 0 < ImsicNode.num_ids l ≤ MAX_INTERRUPT_IDS;
  lay_regs : Forall (in_width 8) (ImsicNode.regs l) ∧ (length (ImsicNode.regs l) mod 2 = 0)%nat;
  lay_geometry : ∃ first rest, ImsicNode.regs l = first :: rest ∧ geometry_from first (ImsicNode.node_geometry l);
  lay_widths : in_width 4 (ImsicGeometry.group_index_bits (ImsicNode.node_geometry l)) ∧
    in_width 4 (ImsicGeometry.group_index_shift (ImsicNode.node_geometry l)) ∧
    in_width 4 (ImsicGeometry.hart_index_bits (ImsicNode.node_geometry l)) ∧
    in_width 4 (ImsicGeometry.guest_index_bits (ImsicNode.node_geometry l)) ∧
    ImsicGeometry.guest_index_bits (ImsicNode.node_geometry l) ≠ 0;
  lay_guests : ImsicGeometry.guests_per_hart (ImsicNode.node_geometry l) = guests ∧ 0 < guests ≤ MAX_GUEST_FILES
}.

Section inversion.
Context {S : Type}.
Variable n : DeviceTreeNode.t.
Hypothesis Hn : byte_props n.
Implicit Types s : S.
Lemma required_inv name s p s' :
  ImsicNode.required n name s = Returns (Ok p, s') → find_prop name n = Returns (Some p) ∧ s' = s.
Proof.
  unfold ImsicNode.required, ImsicNode.prop. intros (r & s1 & Hr & Hp)%bind_inv_ok. unfold of_outcome in Hr.
  destruct (find_prop name n) as [q|]; [|done]. injection Hr as <- <-. destruct q as [q|]; cbn in Hp; [|done].
  by injection Hp as <- <-.
Qed.
Lemma cell_inv name s c s' :
  ImsicNode.cell n name s = Returns (Ok c, s') → s' = s ∧ ∀ v, c = Some v → in_width 4 v.
Proof using Hn.
  unfold ImsicNode.cell, ImsicNode.prop. intros (r & s1 & Hr & Hp)%bind_inv_ok. unfold of_outcome in Hr.
  destruct (find_prop name n) as [q|] eqn:Hq; [|done]. injection Hr as <- <-. cbn in Hp. injection Hp as <- <-.
  split; [done|]. intros v Hv. destruct q as [p|]; [|done]. cbn in Hv.
  pose proof (iter_items_width (length (DeviceTreeProp.value_raw p)) 4 _ (find_prop_bytes _ _ _ Hn Hq)) as Hw.
  unfold first_u32, DeviceTreeProp.value_u32 in Hv. destruct (DeviceTreeProp.iter_items _ 4 _) as [|x l]; [done|].
  injection Hv as <-. by inversion_clear Hw.
Qed.
Lemma required_cell_inv name s v s' :
  ImsicNode.required_cell n name s = Returns (Ok v, s') → s' = s ∧ in_width 4 v.
Proof using Hn.
  unfold ImsicNode.required_cell. intros (c & s1 & Hc & Hv)%bind_inv_ok. apply cell_inv in Hc as [-> Hc].
  destruct c as [c|]; cbn in Hv; [|done]. injection Hv as <- <-. auto.
Qed.
End inversion.

Lemma count_ones_nonneg fuel x : 0 ≤ count_ones fuel x.
Proof.
  revert x. induction fuel as [|fuel IH]; intros x; cbn; [lia|]. pose proof (IH (x / 2)). pose proof (Z.mod_pos_bound x 2). lia.
Qed.
Lemma probe_geometry_inv {S} p gib gis hib uib guests (s : S) g s' :
  ImsicNode.probe_geometry p gib gis hib uib guests s = Returns (Ok g, s') →
  s' = s ∧ g = ImsicGeometry.mk (ImsicGeometry.base_addr g) gib gis hib uib guests ∧
  (length (DeviceTreeProp.value_u64 p) mod 2 = 0)%nat ∧
  ∃ first rest, DeviceTreeProp.value_u64 p = first :: rest ∧ geometry_from first g.
Proof.
  unfold ImsicNode.probe_geometry, ImsicNode.len64, DeviceTreeProp.size_hint.
  rewrite <- (iter_items_length (length (DeviceTreeProp.value_raw p)) 8 (DeviceTreeProp.value_raw p)) by lia.
  fold (DeviceTreeProp.value_u64 p). destruct (DeviceTreeProp.value_u64 p) as [|first rest] eqn:Hu; [done|].
  rewrite (proj2 (Z.eqb_neq (Z.of_nat (length (first :: rest))) 0)) by (cbn; lia). cbn [orb].
  destruct (Z.eqb_spec (Z.of_nat (length (first :: rest)) mod 2) 0) as [Hmod|]; cbn [negb]; [|done].
  intros Hg. apply bind_inv_ok in Hg as (x & s1 & Hx & Hg). cbn in Hx. injection Hx as <- <-.
  apply bind_inv_ok in Hg as (base & s1 & Hb & Hg). unfold lift in Hb.
  destruct (PageAddr.new _) as [b|] eqn:Hnew; cbn in Hb; [|done]. injection Hb as <- <-. unfold lift in Hg. injection Hg as Hg ->.
  assert (b = Z.land first (not64 (gen_mask gib gis))) as ->.
  { unfold PageAddr.new, PageAddr.with_alignment in Hnew. destruct (PageSize.is_aligned _ _); [by injection Hnew as <-|done]. }
  assert (g = ImsicGeometry.mk (Z.land first (not64 (gen_mask gib gis))) gib gis hib uib guests) as ->.
  { unfold ImsicGeometry.new in Hg. repeat (case_match; try done). by injection Hg as <-. }
  split; [done|]. split; [done|]. split; [|exists first, rest; split; [done|]; by split; [|split]].
  apply Nat2Z.inj. rewrite Nat2Z.inj_mod. exact Hmod.
Qed.
Lemma read_layout_inv {S} hgeie num_cpus n (s : S) l s' :
  byte_props n → 0 ≤ num_cpus ≤ Z.of_nat MAX_CPUS →
  ImsicNode.read_layout hgeie num_cpus n s = Returns (Ok l, s') →
  s' = s ∧ layout_ok (get_guests_per_hart hgeie) num_cpus l.
Proof.
  intros Hn Hnum. unfold ImsicNode.read_layout. intros (ip & s1 & [Hip ->]%required_inv & Hl)%bind_inv_ok.
  pose proof (find_prop_bytes _ _ _ Hn Hip) as Hbytes.
  unfold ImsicNode.len32, DeviceTreeProp.size_hint in Hl.
  rewrite <- (iter_items_length (length (DeviceTreeProp.value_raw ip)) 4 (DeviceTreeProp.value_raw ip)) in Hl by lia.
  fold (DeviceTreeProp.value_u32 ip) in Hl.
  destruct (Z.eqb_spec (Z.of_nat (length (DeviceTreeProp.value_u32 ip))) (wrap64 (num_cpus * 2))) as [Hlen|]; [cbn [negb] in Hl|done].
  unfold wrap64 in Hlen. rewrite Z.mod_small in Hlen by (unfold MAX_CPUS in Hnum; lia).
  apply bind_inv_ok in Hl as (ph & s1 & [-> Hph]%(required_cell_inv n Hn) & Hl).
  apply bind_inv_ok in Hl as (ids & s1 & [-> Hids]%(required_cell_inv n Hn) & Hl).
  destruct (Z.eqb_spec ids 0), (Z.ltb_spec MAX_INTERRUPT_IDS ids); cbn [orb] in Hl; try done.
  apply bind_inv_ok in Hl as (uib & s1 & [-> Huib]%(required_cell_inv n Hn) & Hl).
  destruct (Z.eqb_spec uib 0); [done|].
  destruct (Z.eqb_spec (get_guests_per_hart hgeie) 0), (Z.ltb_spec MAX_GUEST_FILES (get_guests_per_hart hgeie)); cbn [orb] in Hl; try done.
  apply bind_inv_ok in Hl as (hib & s1 & [-> Hhib]%(cell_inv n Hn) & Hl).
  apply bind_inv_ok in Hl as (gib & s1 & [-> Hgib]%(cell_inv n Hn) & Hl).
  apply bind_inv_ok in Hl as (gis & s1 & [-> Hgis]%(cell_inv n Hn) & Hl).
  apply bind_inv_ok in Hl as (rp & s1 & [Hrp ->]%required_inv & Hl).
  apply bind_inv_ok in Hl as (g & s1 & Hg%probe_geometry_inv & Hl). destruct Hg as (-> & Hgeo & Heven & Hfirst).
  cbn in Hl. injection Hl as <- <-. split; [done|]. rewrite Hgeo in Hfirst |- *.
  split; cbn -[get_guests_per_hart].
  - split; [done|]. by apply iter_items_width.
  - done.
  - unfold in_width in Hids. lia.
  - split; [|done]. apply iter_items_width. by eapply find_prop_bytes.
  - done.
  - assert (∀ (o : option Z) x, in_width 4 x → (∀ v, o = Some v → in_width 4 v) → in_width 4 (default x o)) as Hdef.
    { intros [v|] x Hx Ho; [by apply Ho|done]. }
    split; [apply Hdef; [unfold in_width; lia|done]|]. split; [apply Hdef; [unfold in_width, MIN_GROUP_INDEX_SHIFT; lia|done]|].
    split; [|done]. apply Hdef; [|done]. unfold ImsicNode.default_hart_bits, in_width. split; [apply Z.log2_up_nonneg|].
    pose proof (Z.log2_up_le_lin num_cpus). unfold MAX_CPUS in Hnum. lia.
  - split; [done|]. pose proof (count_ones_nonneg 64 hgeie). unfold get_guests_per_hart in *. lia.
Qed.

(** ** The node of the host *)
Definition imsic_props (ph ids : Z) (g : ImsicGeometry.t) (regs ints : list Z) : list (string * prop_value) :=
  [("compatible", ValStr (Str.lit "riscv,imsics")); ("phandle", ValU32 [ph]); ("msi-controller", ValRaw []);
   ("interrupt-controller", ValRaw []); ("#interrupt-cells", ValU32 [0]);
   ("riscv,guest-index-bits", ValU32 [ImsicGeometry.guest_index_bits g]);
   ("riscv,hart-index-bits", ValU32 [ImsicGeometry.hart_index_bits g]); ("riscv,ipi-id", ValU32 [1]);
   ("riscv,num-ids", ValU32 [ids])] ++
  (if 0 <? ImsicGeometry.group_index_bits g
   then [("riscv,group-index-bits", ValU32 [ImsicGeometry.group_index_bits g]);
         ("riscv,group-index-shift", ValU32 [ImsicGeometry.group_index_shift g])]
   else []) ++
  [("reg", ValU64 regs); ("interrupts-extended", ValU32 ints)].

Section reading.
Context {S : Type}.
Variable n : DeviceTreeNode.t.
Variable props : list (string * prop_value).
Hypothesis Hprops : DeviceTreeNode.props n = map prop_of props.
Hypothesis Hplain : plain_names props = true.
#[local] Set Default Proof Using "Type*".
Implicit Types s : S.
Lemma required_of name v s : assoc name props = Some v → ImsicNode.required n name s = Returns (Ok (prop_of (name, v)), s).
Proof.
  intros Ha. unfold ImsicNode.required, ImsicNode.prop, of_outcome. by rewrite (find_prop_assoc _ props), Ha by done.
Qed.
Lemma cell_of name v s : assoc name props = Some (ValU32 [v]) → in_width 4 v → ImsicNode.cell n name s = Returns (Ok (Some v), s).
Proof.
  intros Ha Hv. unfold ImsicNode.cell, ImsicNode.prop, of_outcome. rewrite (find_prop_assoc _ props), Ha by done.
  transitivity (Returns (Ok (first_u32 (prop_of (name, ValU32 [v])) : option Z) : result ImsicError.t _, s)); [done|].
  by rewrite first_u32_be.
Qed.
Lemma no_cell name s : assoc name props = None → ImsicNode.cell n name s = Returns (Ok None, s).
Proof. intros Ha. unfold ImsicNode.cell, ImsicNode.prop, of_outcome. by rewrite (find_prop_assoc _ props), Ha by done. Qed.
Lemma required_cell_of name v s :
  assoc name props = Some (ValU32 [v]) → in_width 4 v → ImsicNode.required_cell n name s = Returns (Ok v, s).
Proof. intros Ha Hv. unfold ImsicNode.required_cell. by rewrite (bind_ok _ _ _ _ _ (cell_of name v s Ha Hv)). Qed.
End reading.

Lemma imsic_props_plain ph ids g regs ints : plain_names (imsic_props ph ids g regs ints) = true.
Proof. unfold imsic_props. by destruct (0 <? _). Qed.
Lemma probe_geometry_of {S} regs g k first rest (s : S) :
  regs = first :: rest → Forall (in_width 8) regs → (length regs mod 2 = 0)%nat → geometry_from first g →
  0 ≤ k ≤ ImsicGeometry.guests_per_hart g →
  ImsicNode.probe_geometry (prop_of ("reg", ValU64 regs)) (ImsicGeometry.group_index_bits g) (ImsicGeometry.group_index_shift g)
    (ImsicGeometry.hart_index_bits g) (ImsicGeometry.guest_index_bits g) k s = Returns (Ok (with_guests k g), s).
Proof.
  intros Hregs Hw Heven (Hbase & Hnew & Hgeo) Hk. unfold ImsicNode.probe_geometry, ImsicNode.len64. rewrite size_hint_u64.
  rewrite (proj2 (Z.eqb_neq (Z.of_nat (length regs)) 0)) by (subst regs; cbn; lia).
  assert (Z.of_nat (length regs) mod 2 = 0) as -> by (change 2 with (Z.of_nat 2); rewrite <- Nat2Z.inj_mod; by rewrite Heven).
  cbn [orb negb Z.eqb]. rewrite value_u64_be by done. rewrite Hregs at 1. cbn [head unwrap_option].
  erewrite bind_ok by reflexivity. rewrite <- Hbase, Hnew. erewrite bind_ok by reflexivity. unfold lift. do 2 f_equal.
  unfold ImsicGeometry.new in *. destruct (Z.leb_spec (shl64 1 (ImsicGeometry.guest_index_bits g)) (ImsicGeometry.guests_per_hart g)); [done|].
  rewrite (proj2 (Z.leb_gt _ k)) by lia. destruct (_ || _); [done|].
  change (ImsicGeometry.index_mask (ImsicGeometry.mk _ ?a ?b ?c ?d k)) with (ImsicGeometry.index_mask (ImsicGeometry.mk (ImsicGeometry.base_addr g) a b c d (ImsicGeometry.guests_per_hart g))).
  by destruct (negb _).
Qed.
(** The default shift is read back when there are no groups. *)
Definition shift_written (g : ImsicGeometry.t) : Prop :=
  0 < ImsicGeometry.group_index_bits g ∨ ImsicGeometry.group_index_shift g = MIN_GROUP_INDEX_SHIFT.
Lemma read_host_layout {S} hgeie guests num_cpus n l (s : S) :
  layout_ok guests num_cpus l → 0 ≤ num_cpus ≤ Z.of_nat MAX_CPUS → shift_written (ImsicNode.node_geometry l) →
  0 < get_guests_per_hart hgeie ≤ guests →
  DeviceTreeNode.props n = map prop_of (imsic_props (ImsicNode.node_phandle l) (ImsicNode.num_ids l) (ImsicNode.node_geometry l) (ImsicNode.regs l) (ImsicNode.interrupts l)) →
  ImsicNode.read_layout hgeie num_cpus n s =
  Returns (Ok (ImsicNode.Layout (ImsicNode.interrupts l) (ImsicNode.node_phandle l) (ImsicNode.num_ids l)
                 (with_guests (get_guests_per_hart hgeie) (ImsicNode.node_geometry l)) (ImsicNode.regs l)), s).
Proof.
  intros Hl Hnum Hshift Hg Hn. destruct Hl as [[Hil Hiw] Hph Hids [Hrw Heven] (first & rest & Hregs & Hgeo) (Hgib & Hgis & Hhib & Huib & Huib0) [Hguests Hmax]].
  pose proof (imsic_props_plain (ImsicNode.node_phandle l) (ImsicNode.num_ids l) (ImsicNode.node_geometry l) (ImsicNode.regs l) (ImsicNode.interrupts l)) as Hplain.
  set (props := imsic_props _ _ _ _ _) in *.
  assert (assoc "interrupts-extended" props = Some (ValU32 (ImsicNode.interrupts l))) as H1 by (unfold props, imsic_props; by destruct (0 <? _)).
  assert (assoc "reg" props = Some (ValU64 (ImsicNode.regs l))) as H2 by (unfold props, imsic_props; by destruct (0 <? _)).
  unfold ImsicNode.read_layout. rewrite (bind_ok _ _ _ _ _ (required_of n props Hn Hplain "interrupts-extended" _ s H1)).
  unfold ImsicNode.len32. rewrite size_hint_u32. unfold wrap64. rewrite Z.mod_small by (unfold MAX_CPUS in *; lia).
  rewrite Hil, Z.eqb_refl. cbn [negb].
  rewrite (bind_ok _ _ _ _ _ (required_cell_of n props Hn Hplain "phandle" (ImsicNode.node_phandle l) s eq_refl Hph)).
  rewrite (bind_ok _ _ _ _ _ (required_cell_of n props Hn Hplain "riscv,num-ids" (ImsicNode.num_ids l) s eq_refl ltac:(unfold in_width, MAX_INTERRUPT_IDS in *; lia))).
  rewrite (proj2 (Z.eqb_neq _ 0)), (proj2 (Z.ltb_ge _ _)) by lia. cbn [orb].
  rewrite (bind_ok _ _ _ _ _ (required_cell_of n props Hn Hplain "riscv,guest-index-bits" _ s eq_refl Huib)).
  rewrite (proj2 (Z.eqb_neq _ 0)) by done.
  rewrite (proj2 (Z.eqb_neq (get_guests_per_hart hgeie) 0)), (proj2 (Z.ltb_ge MAX_GUEST_FILES (get_guests_per_hart hgeie))) by lia. cbn [orb].
  rewrite (bind_ok _ _ _ _ _ (cell_of n props Hn Hplain "riscv,hart-index-bits" _ s eq_refl Hhib)).
  assert (∃ gib gis, ImsicNode.cell n "riscv,group-index-bits" s = Returns (Ok gib, s) ∧ ImsicNode.cell n "riscv,group-index-shift" s = Returns (Ok gis, s) ∧
    default 0 gib = ImsicGeometry.group_index_bits (ImsicNode.node_geometry l) ∧
    default MIN_GROUP_INDEX_SHIFT gis = ImsicGeometry.group_index_shift (ImsicNode.node_geometry l)) as (gib & gis & Hcb & Hcs & Hdb & Hds).
  { destruct (0 <? ImsicGeometry.group_index_bits (ImsicNode.node_geometry l)) eqn:Hpos.
    - eexists _, _. split; [apply (cell_of n props Hn Hplain); [unfold props, imsic_props; by rewrite Hpos|done]|].
      split; [apply (cell_of n props Hn Hplain); [unfold props, imsic_props; by rewrite Hpos|done]|done].
    - exists None, None. apply Z.ltb_ge in Hpos as Hle. unfold in_width in Hgib.
      split; [apply (no_cell n props Hn Hplain); unfold props, imsic_props; by rewrite Hpos|].
      split; [apply (no_cell n props Hn Hplain); unfold props, imsic_props; by rewrite Hpos|].
      destruct Hshift; [lia|]. cbn [default]. split; [cbn; lia|done]. }
  rewrite (bind_ok _ _ _ _ _ Hcb), (bind_ok _ _ _ _ _ Hcs), Hdb, Hds.
  rewrite (bind_ok _ _ _ _ _ (required_of n props Hn Hplain "reg" _ s H2)).
  rewrite (bind_ok _ _ _ _ _ (probe_geometry_of _ _ (get_guests_per_hart hgeie) first rest s Hregs Hrw Heven Hgeo ltac:(lia))).
  rewrite value_u32_be, value_u64_be by done. done.
Qed.

(** ** What probing finds *)
Lemma find_runs_in a p it l it' k n it1 :
  runs a it l it' → DeviceTreeIter.next a it' = Returns (None, it') →
  find_in_iter k a p it = Returns (Some n, it1) → n ∈ l.*1.
Proof.
  intros Hr Hend. revert k. induction Hr as [it|it m it2 l it' Hn Hr IH]; intros k Hf; (destruct k as [|k]; [done|]);
    cbn [find_in_iter] in Hf.
  - by rewrite Hend in Hf.
  - rewrite Hn in Hf. cbn [mbind outcome_bind] in Hf. destruct (p m) as [[]|]; cbn [mbind outcome_bind] in Hf; [..|done].
    + injection Hf as <- _. by left.
    + right. by eapply IH.
Qed.
Definition add_regions (rs : list PageAddrRange.t) : M HwMemMap.t ImsicError.t unit :=
  for_each rs (λ r, with_err ImsicError.AddingMmioRegion
    (HwMemMap.add_mmio_region DeviceMemType.Imsic (PageAddrRange.base r) (PageAddrRange.length_bytes r))).
Definition no_match (num_cpus : Z) : ImsicNode.matching := ImsicNode.Matching (replicate (Z.to_nat num_cpus) None) 0.

Record probed (info : CpuInfo.t) (guests : Z) (m : Imsic.t) (l : ImsicNode.layout) (mt : ImsicNode.matching) (phs : list Z) : Prop := {
  pr_layout : layout_ok guests (CpuInfo.num_cpus info) l;
  pr_cpus : CpuInfo.num_cpus info = Z.of_nat (length phs) ∧ (length phs ≤ MAX_CPUS)%nat;
  pr_imsic : m = Imsic.mk (per_cpu mt) (Imsic.mmio_regions m) (ImsicNode.node_geometry l) (ImsicNode.num_ids l) (ImsicNode.node_phandle l);
  pr_interrupts : ImsicNode.interrupts l = cells phs;
  pr_regs : ImsicNode.regs l = region_regs (Imsic.mmio_regions m);
  pr_placed : placed info phs mt;
  pr_match k : 0 ≤ k → ImsicNode.place_regions info (with_guests k (ImsicNode.node_geometry l)) (ImsicNode.regs l) (ImsicNode.interrupts l)
    (no_match (CpuInfo.num_cpus info)) [] = Returns (Ok (mt, Imsic.mmio_regions m))
}.
(** A tree whose values are bytes, as they are read from a blob *)
Definition byte_tree (t : rose) : Prop := Forall byte_props (entries None t).*2.
Lemma probe_from_inv info hgeie d t mm m mm' :
  models d (Some t) → byte_tree t → fits d → ImsicNode.probe_from info hgeie d mm = Returns (Ok m, mm') →
  ∃ l mt phs, probed info (get_guests_per_hart hgeie) m l mt phs.
Proof.
  intros Hd Hb Hfit. unfold ImsicNode.probe_from. intros ([r it] & s1 & Hfind & Hp)%bind_inv_ok.
  unfold of_outcome in Hfind. destruct (find_node _ _ _) as [[r' it']|] eqn:Hf; [|done]. injection Hfind as -> -> <-.
  apply bind_inv_ok in Hp as (n & s1 & Hn & Hp). destruct r as [n'|]; cbn in Hn; [|done]. injection Hn as -> ->.
  apply bind_inv_ok in Hp as (l & s2 & Hl & Hp). apply bind_inv_ok in Hp as (m0 & s3 & Hm0 & Hp).
  unfold ImsicNode.no_files in Hm0. destruct (Nat.leb_spec (Z.to_nat (CpuInfo.num_cpus info)) MAX_CPUS) as [Hmax|]; [|done].
  cbn in Hm0. injection Hm0 as <- <-.
  assert (0 ≤ CpuInfo.num_cpus info) as Hpos by (unfold CpuInfo.num_cpus; lia).
  assert (byte_props n) as Hbn.
  { destruct (tree_runs d None t) as (vs & itn & Hruns & Hvs & Hend & _); [apply Hd|apply Hd|done|].
    unfold find_node, DeviceTree.iter in Hf. rewrite (models_root _ _ Hd) in Hf. cbn [fmap option_fmap option_map] in Hf.
    pose proof (find_runs_in _ _ _ _ _ _ _ _ Hruns Hend Hf) as Hin. rewrite Hvs in Hin.
    by apply (proj1 (list.Forall_forall _ _) Hb). }
  apply read_layout_inv in Hl as [-> Hl]; [|done|lia].
  apply bind_inv_ok in Hp as ([mt rs] & s4 & Hplace & Hp). apply bind_inv_ok in Hplace as (res & s5 & Hres & Hlift).
  unfold of_outcome in Hres. destruct (ImsicNode.place_regions _ _ _ _ _ _) as [res'|] eqn:Hpl; [|done]. injection Hres as -> <-.
  unfold lift in Hlift. injection Hlift as -> <-.
  destruct (Z.eqb_spec (dt_index mt) (CpuInfo.num_cpus info)) as [Hdt|]; [cbn [negb] in Hp|done].
  apply bind_inv_ok in Hp as ([] & s6 & _ & Hp). injection Hp as <- <-.
  assert (Forall u64 (ImsicNode.regs l)) as Hu.
  { destruct (lay_regs _ _ _ Hl) as [Hw _]. eapply list.Forall_impl; [exact Hw|]. intros x. unfold in_width, u64. lia. }
  assert (∀ k, 0 ≤ k → ∃ new rest rs', ImsicNode.interrupts l = cells new ++ rest ∧ placed info new mt ∧ rs = rs' ∧ ImsicNode.regs l = region_regs rs' ∧
    ImsicNode.place_regions info (with_guests k (ImsicNode.node_geometry l)) (ImsicNode.regs l) (ImsicNode.interrupts l) (no_match (CpuInfo.num_cpus info)) [] = Returns (Ok (mt, rs))) as Hspec.
  { intros k Hk. exact (place_regions_spec info _ k _ Hk Hu _ _ _ _ _ [] (placed_nil info _) Hpl). }
  destruct (Hspec 0 ltac:(lia)) as (phs & rest & rs' & Hints & Hplaced & <- & Hregs & _).
  assert (CpuInfo.num_cpus info = Z.of_nat (length phs)) as Hlen by (rewrite <- Hdt; apply (placed_count _ _ _ Hplaced)).
  exists l, mt, phs. split; try done.
  - split; [done|lia].
  - destruct (lay_interrupts _ _ _ Hl) as [Hil _]. rewrite Hints, length_app, length_int_cells in Hil.
    rewrite Hints. destruct rest; [by rewrite app_nil_r|cbn in Hil; lia].
  - intros k Hk. by destruct (Hspec k Hk) as (? & ? & ? & _ & _ & _ & _ & ?).
Qed.

(** ** Adding the node *)
Definition imsic_name (base : Z) : bytes := Str.lit "imsics@" ++ hex base.
Lemma imsic_name_fits base : 0 ≤ base → array_string 32 (imsic_name base) = Returns (imsic_name base) ∧ plain (imsic_name base) = true.
Proof.
  intros Hb. destruct (hex_digits_spec 16 base [] Hb ltac:(constructor)) as [Hascii Hlen]. cbn [length] in Hlen. split.
  - unfold array_string, imsic_name. rewrite length_app. change (length (Str.lit "imsics@")) with 7%nat. unfold hex.
    by rewrite (proj2 (Nat.leb_le _ _)) by lia.
  - apply ascii_plain, list.Forall_app. split; [by repeat constructor|done].
Qed.
Lemma appends_outcome {H} `{Heap H} {A} (o : outcome A) x l (f : A → M (DeviceTreeNode.t * H) DeviceTreeError.t unit) :
  o = Returns x → appends l (f x) → appends l (x ← of_outcome o; f x).
Proof. intros Ho Hf n Hn. apply returns_bind. eapply returns_outcome; [exact Ho|]. by apply Hf. Qed.
Lemma host_geometry m first guests :
  geometry_from first (Imsic.geometry m) → ImsicGeometry.guests_per_hart (Imsic.geometry m) = guests → 0 < guests ≤ MAX_GUEST_FILES →
  Imsic.host_vm_geometry m = Returns (with_guests (guests - 1) (Imsic.geometry m)).
Proof.
  intros (_ & Hnew & Hgeo) <- Hg. unfold Imsic.host_vm_geometry. rewrite Hnew. cbn [unwrap_option mbind outcome_bind].
  unfold MAX_GUEST_FILES in Hg. unfold wrap64. rewrite Z.mod_small by lia. revert Hgeo. unfold ImsicGeometry.new.
  destruct (Z.leb_spec (shl64 1 (ImsicGeometry.guest_index_bits (Imsic.geometry m))) (ImsicGeometry.guests_per_hart (Imsic.geometry m))); [done|].
  rewrite (proj2 (Z.leb_gt _ (_ - 1))) by lia. destruct (_ || _); [done|].
  change (ImsicGeometry.index_mask (ImsicGeometry.mk ?x ?a ?b ?c ?d (_ - 1))) with (ImsicGeometry.index_mask (ImsicGeometry.mk x a b c d (ImsicGeometry.guests_per_hart (Imsic.geometry m)))).
  by destruct (negb _).
Qed.
Definition host_props (m : Imsic.t) (ints : list Z) : list (string * prop_value) :=
  imsic_props (Imsic.phandle m) (Imsic.interrupt_ids m) (Imsic.geometry m) (region_regs (Imsic.mmio_regions m)) ints.

Section adding.
Context {H : Type} `{Heap H}.
Variable info : CpuInfo.t.
Variable m : Imsic.t.
Variable ints : list Z.
Hypothesis Hids : 0 < Imsic.interrupt_ids m ≤ MAX_INTERRUPT_IDS.
Hypothesis Hints : ImsicNode.host_interrupts info m = Returns ints.
#[local] Set Default Proof Using "Type*".
Ltac put := first [by apply appends_u32 | by apply appends_u64 | by apply appends_str | by apply appends_flag].
Lemma group_props_appends k :
  appends (H := H) (if 0 <? ImsicGeometry.group_index_bits (Imsic.geometry m)
                    then [("riscv,group-index-bits", ValU32 [ImsicGeometry.group_index_bits (Imsic.geometry m)]);
                          ("riscv,group-index-shift", ValU32 [ImsicGeometry.group_index_shift (Imsic.geometry m)])]
                    else []) (ImsicNode.group_props m (with_guests k (Imsic.geometry m))).
Proof.
  unfold ImsicNode.group_props. destruct (0 <? _); [|apply appends_nil]. apply (appends_bind [_] [_]); put.
Qed.
Lemma add_host_imsic_node_spec d C soc n ps l first r rs guests :
  models d (Some (plug C (Rose soc n ps l))) → ImsicNode.soc_node_id d = Returns soc →
  geometry_from first (Imsic.geometry m) → ImsicGeometry.guests_per_hart (Imsic.geometry m) = guests → 0 < guests ≤ MAX_GUEST_FILES →
  Imsic.mmio_regions m = r :: rs → 0 ≤ PageAddrRange.base r →
  returns (H := H) (ImsicNode.add_host_imsic_node info m) d (λ res d',
    match res with
    | Ok _ => ∃ id, models d' (Some (plug C (Rose soc n ps (l ++ [Rose id (cstr (imsic_name (PageAddrRange.base r))) (map prop_of (host_props m ints)) []]))))
    | Err e => e = DeviceTreeError.AllocError
    end).
Proof.
  intros Hm Hsoc Hgeo Hguests Hmax Hrs Hbase. destruct (imsic_name_fits _ Hbase) as [Hfit Hplain].
  unfold ImsicNode.add_host_imsic_node. apply returns_bind. eapply returns_outcome; [by eapply host_geometry|].
  apply returns_bind, returns_state, returns_bind. eapply returns_outcome; [exact Hsoc|].
  apply returns_bind. rewrite Hrs. eapply returns_outcome; [reflexivity|]. apply returns_bind. eapply returns_outcome; [exact Hfit|].
  apply returns_bind. eapply returns_impl; [apply (add_child_spec _ d C soc n ps l Hm); by apply plain_utf8|].
  intros [id|e] d1; [|by intros [? _]]. intros [_ Hm1]. eapply returns_impl.
  { eapply (edit_spec d1 (Frame soc n ps l [] :: C) id _ [] [] (host_props m ints)); [exact Hm1|].
    unfold host_props, imsic_props. cbn [app].
    do 8 (apply (appends_bind [_] (_ :: _)); [put|]). apply (appends_bind [_] _); [|].
    { unfold wrap32. rewrite Z.mod_small by (unfold MAX_INTERRUPT_IDS in *; lia). put. }
    apply appends_bind; [apply group_props_appends|]. apply (appends_bind [_] [_]); [put|].
    apply (appends_outcome _ ints); [exact Hints|put]. }
  intros [[]|e] d2; [|done]. intros Hm2. exists id. exact Hm2.
Qed.
End adding.

(** ** Probing the node of the host *)
(** The nodes around a place of a tree, in the order of the iterator *)
Lemma entries_around C s s' :
  rid s = rid s' → ∃ pre post, (entries None (plug C s)).*2 = pre ++ (entries (par_of C) s).*2 ++ post ∧
    (entries None (plug C s')).*2 = pre ++ (entries (par_of C) s').*2 ++ post.
Proof.
  revert s s'. induction C as [|f C IH]; intros s s' Hid.
  { exists [], []. by rewrite !app_nil_r. }
  cbn [plug]. destruct (IH (frame_fill f s) (frame_fill f s') eq_refl) as (pre & post & -> & ->).
  unfold frame_fill. rewrite !entries_eq, !forest_app, !forest_cons. cbn [fmap list_fmap]. rewrite !fmap_app.
  change (par_of (f :: C)) with (Some (f_id f)).
  exists (pre ++ node_of (par_of C) (frame_fill f s) :: (forest (Some (f_id f)) (f_left f)).*2), ((forest (Some (f_id f)) (f_right f)).*2 ++ post).
  unfold frame_fill, node_of. rewrite !map_app, !map_cons, Hid. cbn [snd]. repeat (rewrite <- !app_assoc; cbn [app]). done.
Qed.
Lemma is_imsic_host m ints n : DeviceTreeNode.props n = map prop_of (host_props m ints) → ImsicNode.is_imsic n = Returns true.
Proof.
  intros Hn. pose proof (imsic_props_plain (Imsic.phandle m) (Imsic.interrupt_ids m) (Imsic.geometry m) (region_regs (Imsic.mmio_regions m)) ints) as Hplain.
  unfold ImsicNode.is_imsic, DeviceTreeNode.compatible, DeviceTreeNode.disabled. cbn [DeviceTreeNode.any]. rewrite Hn.
  rewrite (any_prop "compatible" (λ p, Str.contains (Str.lit "riscv,imsics") (DeviceTreeNode.str_or_empty p))) by done.
  rewrite (any_prop "status" (λ p, Str.eqb (DeviceTreeNode.str_or_empty p) (Str.lit "disabled"))) by done.
  unfold host_props, imsic_props. by destruct (0 <? _).
Qed.
(** The IMSIC that the host finds: it has one guest interrupt file less. *)
Definition host_view (m : Imsic.t) : Imsic.t :=
  Imsic.mk (Imsic.per_cpu m) (Imsic.mmio_regions m)
    (with_guests (ImsicGeometry.guests_per_hart (Imsic.geometry m) - 1) (Imsic.geometry m)) (Imsic.interrupt_ids m) (Imsic.phandle m).
Definition not_imsic (t : rose) : Prop := Forall (λ n, ImsicNode.is_imsic n = Returns false) (entries None t).*2.

Lemma find_host_node d C soc n ps l id name m ints :
  models d (Some (plug C (Rose soc n ps (l ++ [Rose id name (map prop_of (host_props m ints)) []])))) → fits d →
  not_imsic (plug C (Rose soc n ps l)) →
  ∃ it, find_node d ImsicNode.is_imsic (DeviceTree.iter d) =
        Returns (Some (node_of (Some soc) (Rose id name (map prop_of (host_props m ints)) [])), it).
Proof.
  intros Hm Hfit Hnot. set (new := Rose id _ _ []) in *.
  destruct (tree_runs d None (plug C (Rose soc n ps (l ++ [new])))) as (vs & it' & Hruns & Hvs & _ & Hlen); [apply Hm|apply Hm|done|].
  destruct (entries_around C (Rose soc n ps l) (Rose soc n ps (l ++ [new])) eq_refl) as (pre & post & Hold & Hnew).
  rewrite Hnew in Hvs. unfold not_imsic in Hnot. rewrite Hold in Hnot. rewrite entries_eq in Hvs, Hnot.
  rewrite forest_app, forest_cons in Hvs. cbn [fmap list_fmap snd] in Hvs, Hnot. rewrite !fmap_app in Hvs.
  apply list.Forall_app in Hnot as [Hpre Hnot]. apply list.Forall_app in Hnot as [Hnot _]. inversion_clear Hnot as [|? ? Hroot Hl].
  unfold new in Hvs at 2. rewrite entries_eq in Hvs. fold new in Hvs. cbn [fmap list_fmap snd forest mbind list_bind app] in Hvs.
  unfold find_node, DeviceTree.iter. rewrite (models_root _ _ Hm). cbn [fmap option_fmap option_map].
  edestruct (find_runs_some _ ImsicNode.is_imsic _ _ _ (iter_fuel d)
    (pre ++ node_of (par_of C) (Rose soc n ps (l ++ [new])) :: (forest (Some soc) l).*2) (node_of (Some soc) new) post Hruns) as (it1 & l1 & Hfind & _).
  - rewrite Hvs, <- !app_assoc. done.
  - apply list.Forall_app. split; [done|]. by constructor.
  - by apply (is_imsic_host m ints).
  - apply (f_equal length) in Hvs. rewrite length_fmap in Hvs. rewrite Hvs in Hlen. rewrite !length_app in *. cbn [length] in *. rewrite !length_app in Hlen. cbn [length] in Hlen. lia.
  - by exists it1.
Qed.

Section probed.
Variable info : CpuInfo.t.
Variable guests : Z.
Variable m : Imsic.t.
Variable lay : ImsicNode.layout.
Variable mt : ImsicNode.matching.
Variable phs : list Z.
Hypothesis Hpr : probed info guests m lay mt phs.
#[local] Set Default Proof Using "Type*".
Lemma probed_fields :
  Imsic.per_cpu m = per_cpu mt ∧ Imsic.geometry m = ImsicNode.node_geometry lay ∧
  Imsic.interrupt_ids m = ImsicNode.num_ids lay ∧ Imsic.phandle m = ImsicNode.node_phandle lay.
Proof. by rewrite (pr_imsic _ _ _ _ _ _ Hpr). Qed.
Lemma add_probed_node {H} `{Heap H} d C soc n ps l :
  models d (Some (plug C (Rose soc n ps l))) → ImsicNode.soc_node_id d = Returns soc →
  returns (H := H) (ImsicNode.add_host_imsic_node info m) d (λ res d',
    match res with
    | Ok _ => ∃ id name, models d' (Some (plug C (Rose soc n ps (l ++ [Rose id name (map prop_of (host_props m (ImsicNode.interrupts lay))) []]))))
    | Err e => e = DeviceTreeError.AllocError
    end).
Proof.
  intros Hm Hsoc. destruct probed_fields as (Hper & Hgeo & Hids & _).
  destruct Hpr as [Hl [Hnum Hmax] _ Hints Hregs Hplaced _].
  destruct Hl as [_ _ Hidb [Hrw _] (first & rest & Hfirst & Hfrom) _ [Hg Hgmax]].
  destruct (Imsic.mmio_regions m) as [|r rs] eqn:Hrs; [by rewrite Hfirst in Hregs|].
  rewrite <- Hgeo in Hfrom, Hg. rewrite <- Hids in Hidb. eapply returns_impl.
  { eapply (add_host_imsic_node_spec info m (ImsicNode.interrupts lay) Hidb); [|done..|].
    - rewrite Hints. by apply (host_interrupts_spec info m mt).
    - rewrite Hregs in Hrw. inversion_clear Hrw as [|? ? Hw _]. unfold in_width in Hw. lia. }
  intros [[]|e] d'; [|done]. intros [id Hid]. by eexists id, _.
Qed.
Lemma probe_host_node hgeie' d' C soc n ps l id name mm1 mm2 :
  length (CpuInfo.hart_ids info) = length (CpuInfo.intc_phandles info) → shift_written (Imsic.geometry m) →
  0 < get_guests_per_hart hgeie' → get_guests_per_hart hgeie' = guests - 1 →
  models d' (Some (plug C (Rose soc n ps (l ++ [Rose id name (map prop_of (host_props m (ImsicNode.interrupts lay))) []])))) → fits d' →
  not_imsic (plug C (Rose soc n ps l)) → add_regions (Imsic.mmio_regions m) mm1 = Returns (Ok tt, mm2) →
  ImsicNode.probe_from (as_host info) hgeie' d' mm1 = Returns (Ok (host_view m), mm2).
Proof.
  intros Hharts Hshift Hpos Hguests Hm Hfit Hnot Hadd. destruct probed_fields as (Hper & Hgeo & Hids & Hph).
  destruct Hpr as [Hl [Hnum Hmax] _ _ Hregs Hplaced Hmatch]. destruct (lay_guests _ _ _ Hl) as [Hg _].
  assert (CpuInfo.num_cpus (as_host info) = CpuInfo.num_cpus info) as Hnum'.
  { unfold CpuInfo.num_cpus. cbn [as_host CpuInfo.hart_ids]. rewrite length_seqZ. lia. }
  destruct (find_host_node d' C soc n ps l id name m _ Hm Hfit Hnot) as [it Hfind].
  unfold ImsicNode.probe_from. rewrite Hnum'. erewrite bind_ok by (unfold of_outcome; rewrite Hfind; reflexivity). cbv beta iota.
  erewrite bind_ok by reflexivity. erewrite bind_ok.
  2: { apply (read_host_layout hgeie' guests _ _ lay); [done|lia|by rewrite <- Hgeo|lia|].
       cbn [DeviceTreeNode.props node_of]. unfold host_props. by rewrite Hids, Hph, Hgeo, Hregs. }
  unfold ImsicNode.no_files. rewrite (proj2 (Nat.leb_le _ _)) by lia. erewrite bind_ok by reflexivity.
  cbn [ImsicNode.node_geometry ImsicNode.regs ImsicNode.interrupts ImsicNode.num_ids ImsicNode.node_phandle].
  pose proof (Hmatch (get_guests_per_hart hgeie') ltac:(lia)) as Hplace.
  erewrite bind_ok.
  2: { change (ImsicNode.place_regions (as_host info)) with (ImsicNode.place_regions info). unfold no_match in Hplace.
       erewrite bind_ok by (unfold of_outcome; rewrite Hplace; reflexivity). reflexivity. }
  cbv beta iota.
  rewrite (placed_count _ _ _ Hplaced), Hnum, Z.eqb_refl. cbn [negb]. erewrite bind_ok by exact Hadd.
  unfold host_view. by rewrite Hper, Hgeo, Hids, Hph, Hg, Hguests.
Qed.
End probed.

(** C27: The host finds the interrupt files of the machine.  If the hypervisor probed
    its IMSIC node, then, whatever the allocator answers, adding the host's node below
    [soc] does not panic and fails only for lack of memory.  The host that probes the
    tree with its own view of the CPUs and one guest file less per hart finds the same
    regions, identities, phandle and CPU locations, and one guest file less.  It is
    assumed that at least one guest file is left to the host, and that the machine has
    several groups of interrupt files or the default shift of the group index: without
    groups the shift is not written, and a host that needs a larger one refuses the
    node, see [omitted_shift_stops_host]. *)
Theorem host_imsic_node_roundtrip {H} `{Heap H} info hgeie hgeie' d0 t0 mm mm0 m d C soc n ps l (h : H) :
  models d0 (Some t0) → byte_tree t0 → fits d0 → ImsicNode.probe_from info hgeie d0 mm = Returns (Ok m, mm0) →
  length (CpuInfo.hart_ids info) = length (CpuInfo.intc_phandles info) →
  shift_written (Imsic.geometry m) →
  0 < get_guests_per_hart hgeie' → get_guests_per_hart hgeie' = get_guests_per_hart hgeie - 1 →
  models d (Some (plug C (Rose soc n ps l))) → ImsicNode.soc_node_id d = Returns soc → not_imsic (plug C (Rose soc n ps l)) →
  ∃ res d' h', ImsicNode.add_host_imsic_node info m (d, h) = Returns (res, (d', h')) ∧
    match res with
    | Ok _ => fits d' → ∀ mm1 mm2, add_regions (Imsic.mmio_regions m) mm1 = Returns (Ok tt, mm2) →
                ImsicNode.probe_from (as_host info) hgeie' d' mm1 = Returns (Ok (host_view m), mm2)
    | Err e => e = DeviceTreeError.AllocError
    end.
Proof.
  intros Hd0 Hb Hfit0 Hprobe Hharts Hshift Hpos Hguests Hd Hsoc Hnot.
  destruct (probe_from_inv _ _ _ _ _ _ _ Hd0 Hb Hfit0 Hprobe) as (lay & mt & phs & Hpr).
  destruct (add_probed_node info _ m lay mt phs Hpr d C soc n ps l Hd Hsoc h) as (res & d' & h' & Hrun & Hpost).
  exists res, d', h'. split; [done|]. destruct res as [[]|e]; [|done]. destruct Hpost as (id & name & Hm').
  intros Hfit mm1 mm2 Hadd. by eapply probe_host_node.
Qed.

(** ** Examples: two CPUs *)
(** The node of a machine whose interrupt files begin at 0x28000000 *)
Definition machine_props (hart_bits shift : Z) : list (string * prop_value) :=
  [("compatible", ValStr (Str.lit "riscv,imsics")); ("phandle", ValU32 [30]); ("riscv,num-ids", ValU32 [255]);
   ("riscv,guest-index-bits", ValU32 [3]); ("riscv,hart-index-bits", ValU32 [hart_bits]);
   ("riscv,group-index-shift", ValU32 [shift]); ("reg", ValU64 [671088640; 65536]);
   ("interrupts-extended", ValU32 [22; SEXT_SHIFT; 21; SEXT_SHIFT])].
Definition machine_tree (hart_bits shift : Z) : DeviceTree.t :=
  match for_each (OpAddNode [] None :: OpAddNode (Str.lit "imsics") (Some O) ::
                  map (λ nv, OpAddProp 1 (Str.lit nv.1) nv.2) (machine_props hart_bits shift))
          (λ op, run_op op;; mret tt) (DeviceTree.new, []) with
  | Returns (Ok tt, (d, _)) => d
  | _ => DeviceTree.new
  end.
Definition machine_rose (hart_bits shift : Z) : rose :=
  Rose 0 [0] [] [Rose 1 (Str.lit "imsics" ++ [0]) (map prop_of (machine_props hart_bits shift)) []].
Lemma machine_models : models (machine_tree 1 24) (Some (machine_rose 1 24)) ∧ byte_tree (machine_rose 1 24).
Proof.
  split; [constructor|].
  - reflexivity.
  - unfold stored. vm_compute. by repeat constructor.
  - apply (bool_decide_unpack (NoDup (oids (Some (machine_rose 1 24))))). by vm_compute.
  - vm_compute. by repeat constructor.
  - unfold byte_tree. repeat (apply List.Forall_cons || apply List.Forall_nil || (hnf; cbn [map DeviceTreeNode.props snd]));
      unfold is_byte; vm_compute; repeat constructor; discriminate.
Qed.
Definition no_memory : HwMemMap.t := HwMemMap.mk [] 4096.
Definition probe_machine (hart_bits shift : Z) : outcome (result ImsicError.t Imsic.t * HwMemMap.t) :=
  ImsicNode.probe_from example_info 14 (machine_tree hart_bits shift) no_memory.
Definition example_imsic : Imsic.t := Eval vm_compute in
  match probe_machine 1 24 with
  | Returns (Ok m, _) => m
  | _ => Imsic.mk [] [] (ImsicGeometry.mk 0 0 0 0 0 0) 0 0
  end.
Definition example_memory : HwMemMap.t := Eval vm_compute in
  match probe_machine 1 24 with Returns (_, mm) => mm | Panics => no_memory end.
Lemma host_imsic_node_roundtrip_witness :
  ∃ res d' h', ImsicNode.add_host_imsic_node example_info example_imsic (host_tree, []) = Returns (res, (d', h')) ∧
    match res with
    | Ok _ => fits d' → ∀ mm1 mm2, add_regions (Imsic.mmio_regions example_imsic) mm1 = Returns (Ok tt, mm2) →
                ImsicNode.probe_from (as_host example_info) 6 d' mm1 = Returns (Ok (host_view example_imsic), mm2)
    | Err e => e = DeviceTreeError.AllocError
    end.
Proof.
  apply (host_imsic_node_roundtrip example_info 14 6 (machine_tree 1 24) (machine_rose 1 24) no_memory example_memory
           example_imsic host_tree [Frame 0 [0] [] [] []] 1%nat (Str.lit "soc" ++ [0]) [] [] []).
  - apply machine_models.
  - apply machine_models.
  - by vm_compute.
  - by vm_compute.
  - done.
  - by right.
  - by vm_compute.
  - by vm_compute.
  - apply host_models.
  - by vm_compute.
  - unfold not_imsic. vm_compute. by repeat constructor.
Defined.

(** With one group the shift of the group index is not written for the host, but it
    bounds the other index bits also then: a machine that can be probed gives the host
    a node that can not. *)
Example omitted_shift_stops_host :
  match probe_machine 10 25 with
  | Returns (Ok m, mm) =>
      match ImsicNode.add_host_imsic_node example_info m (host_tree, []) with
      | Returns (Ok tt, (d, _)) =>
          ImsicNode.probe_from (as_host example_info) 6 d no_memory = Returns (Err (ImsicError.InvalidGroupIndexShift 24), no_memory)
      | _ => False
      end
  | _ => False
  end.
Proof. by vm_compute. Qed.
