(* ===== verification/VmPmu.v ===== *)
(** * Performance counters (drivers/src/pmu.rs, src/vm_pmu.rs)

    The hardware counters that the platform offers, the counters of a vCPU around the
    SBI calls to the platform, and the PMU calls of a guest (vm.rs). *)
From S2P Require Import Prelude Imsic.
Open Scope Z_scope.

Definition MAX_HARDWARE_COUNTERS : nat := 32.
Definition CSR_CYCLE : Z := 3072.
Definition CSR_HPMCOUNTER31 : Z := 3103.

(** The errors of SBI calls that the code tells apart *)
Module PmuError.
Inductive t := NotSupported | InvalidParam | Failed | AlreadyStarted | AlreadyStopped | Other (code : Z).
#[export] Instance eq_dec : EqDecision t.
Proof. solve_decision. Defined.
End PmuError.
Import PmuError(NotSupported, InvalidParam, Failed, AlreadyStarted, AlreadyStopped).
Local Notation E := PmuError.t.

(** The types of the crate sbi-rs *)
Class PmuTypes := {
  ConfigFlags : Type; StartFlags : Type; StopFlags : Type; EventType : Type; CounterInfo : Type;
  is_skip_match : ConfigFlags → bool; is_auto_start : ConfigFlags → bool;
  is_uinh : ConfigFlags → bool; is_sinh : ConfigFlags → bool;
  set_vuinh : ConfigFlags → ConfigFlags; set_vsinh : ConfigFlags → ConfigFlags;
  set_sinh : ConfigFlags → ConfigFlags; set_minh : ConfigFlags → ConfigFlags;
  unset_auto_start : ConfigFlags → ConfigFlags; unset_skip_match : ConfigFlags → ConfigFlags;
  unset_clear_value : ConfigFlags → ConfigFlags;
  default_start : StartFlags; set_init_value : StartFlags → StartFlags;
  default_stop : StopFlags; set_reset_flag : StopFlags → StopFlags; is_reset_flag : StopFlags → bool;
  get_csr : CounterInfo → Z; is_firmware_counter : CounterInfo → bool; info_raw : CounterInfo → Z
}.
(** The PMU calls to the platform and the counters of this CPU *)
Class Platform `{PmuTypes} (F : Type) := {
  sbi_get_num_counters : F → result E Z * F;
  sbi_get_counter_info : Z → F → result E CounterInfo * F;
  sbi_configure : Z → Z → ConfigFlags → EventType → Z → F → result E Z * F;
  sbi_start : Z → Z → StartFlags → Z → F → result E unit * F;
  sbi_stop : Z → Z → StopFlags → F → result E unit * F;
  hpmcounter : Z → F → Z
}.
(** This CPU: which counters VS-mode may read, and the platform *)
Record cpu (F : Type) := Cpu { hcounteren : Z; platform : F }.
Arguments Cpu {_} _ _.
Arguments hcounteren {_} _.
Arguments platform {_} _.

(** The result of a call as a value, as a [match] on it sees it *)
Definition attempt {S A} (m : M S E A) : M S E (result E A) := λ s,
  match m s with Returns (r, s) => Returns (Ok r, s) | Panics => Panics end.

(** ** The counters of the platform *)
Module PmuInfo.
Section info.
Context `{PmuTypes}.
Record t := mk { hw_counters_info : list (option CounterInfo); valid_hw_counters_mask : Z }.
Definition new : t := mk [] 0.
Definition is_valid_hardware_counter (info : CounterInfo) : bool :=
  (CSR_CYCLE <=? get_csr info) && (get_csr info <=? CSR_HPMCOUNTER31).

Definition csr_to_counter_index (self : t) (csr : Z) : result E Z :=
  let matches info := match info with Some i => get_csr i =? csr | None => false end in
  match position matches (hw_counters_info self) with
  | Some i => Ok (Z.of_nat i)
  | None => Err InvalidParam
  end.
Definition get_num_counters (self : t) : Z := Z.of_nat (length (hw_counters_info self)).
Definition get_counter_info (self : t) (counter_index : Z) : result E CounterInfo :=
  match hw_counters_info self !! Z.to_nat counter_index with
  | Some (Some info) => Ok info
  | _ => Err InvalidParam
  end.
Definition counter_index_to_csr (self : t) (counter_index : Z) : result E Z :=
  match get_counter_info self counter_index with Ok info => Ok (get_csr info) | Err e => Err e end.
(** [u64::BITS - mask.leading_zeros()] *)
Definition bit_length (x : Z) : Z := if x =? 0 then 0 else Z.log2 x + 1.
Definition filter_counter_mask (self : t) (counter_index counter_mask : Z) : result E Z :=
  if Z.of_nat (length (hw_counters_info self)) <? wrap64 (bit_length counter_mask + counter_index) then Err InvalidParam
  else Ok (Z.land counter_mask (shr64 (valid_hw_counters_mask self) counter_index)).

(** *** Discovery *)
Context {F : Type} `{!Platform F}.
Inductive ControlFlow := Continue | Break.
Definition init_counter (counter_index : Z) (self : t) : M F E (ControlFlow * t) :=
  info ← attempt (λ f, Returns (sbi_get_counter_info counter_index f));
  match info with
  | Ok info =>
      if is_firmware_counter info then mret (Break, self)
      else if negb (is_valid_hardware_counter info) then err NotSupported
      else
        l ← of_outcome (push_cap MAX_HARDWARE_COUNTERS (Some info) (hw_counters_info self));
        mret (Continue, mk l (Z.lor (valid_hw_counters_mask self) (shl64 1 counter_index)))
  | Err _ =>
      l ← of_outcome (push_cap MAX_HARDWARE_COUNTERS None (hw_counters_info self));
      mret (Continue, mk l (valid_hw_counters_mask self))
  end.
Fixpoint init_counters (l : list Z) (self : t) : M F E t :=
  match l with
  | [] => mret self
  | i :: l =>
      '(flow, self) ← init_counter i self;
      match flow with Break => mret self | Continue => init_counters l self end
  end.
(** What [PMU_INFO] is initialized with *)
Definition init : M F E t :=
  num_counters ← λ f, Returns (sbi_get_num_counters f);
  pmu_info ← init_counters (seqZ 0 (num_counters `min` Z.of_nat MAX_HARDWARE_COUNTERS)) new;
  match hw_counters_info pmu_info with
  | [] => err NotSupported
  | _ =>
      attempt (λ f, Returns (sbi_stop 0 (valid_hw_counters_mask pmu_info) (set_reset_flag default_stop) f));;
      mret pmu_info
  end.
End info.
Arguments t {_}.
End PmuInfo.

(** ** The counters of a mask *)
Module CounterMaskIter.
Record t := mk { counter_index : Z; counter_mask : Z; mask_index : Z }.
Definition new (counter_index counter_mask : Z) : t := mk counter_index counter_mask 0.
(** The [loop]; a turn clears a bit of the mask, so that 64 are enough. *)
Fixpoint next_loop (fuel : nat) (it : t) : outcome (option Z * t) :=
  if counter_mask it =? 0 then Returns (None, it)
  else match fuel with
       | O => Panics
       | S fuel =>
           let result := wrap64 (counter_index it + mask_index it) in
           let bit := shl64 1 (mask_index it) in
           let mask_bit_set := Z.land (counter_mask it) bit in
           let it := mk (counter_index it) (Z.land (counter_mask it) (not64 bit)) (wrap64 (mask_index it + 1)) in
           if negb (mask_bit_set =? 0) then Returns (Some result, it) else next_loop fuel it
       end.
Definition next (it : t) : outcome (option Z * t) := next_loop 64 it.
Fixpoint collect (fuel : nat) (it : t) : outcome (list Z) :=
  match fuel with
  | O => Panics
  | S fuel =>
      '(r, it) ← next it;
      match r with None => Returns [] | Some i => l ← collect fuel it; Returns (i :: l) end
  end.
(** The items of a [for] loop over the iterator *)
Definition items (it : t) : outcome (list Z) := collect 65 it.
End CounterMaskIter.

(** ** The counters of a vCPU *)
Module CounterState.
Section state.
Context `{PmuTypes}.
Record t := mk { value : Z; config_flags : ConfigFlags; event_type : EventType; event_data : Z }.
Definition with_value (v : Z) (c : t) : t := mk v (config_flags c) (event_type c) (event_data c).
End state.
Arguments t {_}.
End CounterState.
Module PmuCounterState.
Section state.
Context `{PmuTypes}.
Inductive t := NotConfigured | Configured (c : CounterState.t) | Started (c : CounterState.t) | Poisoned (c : CounterState.t).
End state.
Arguments t {_}.
End PmuCounterState.
Import PmuCounterState(NotConfigured, Configured, Started, Poisoned).

Module VmPmuState.
Section pmu.
Context `{PmuTypes} {F : Type} `{!Platform F}.
(** [PMU_INFO] *)
Variable PMU_INFO : option PmuInfo.t.
Definition t := list PmuCounterState.t.
Local Notation S := (list PmuCounterState.t * cpu F)%type.
Definition default : t := replicate MAX_HARDWARE_COUNTERS NotConfigured.
Definition get : result E PmuInfo.t := ok_or PMU_INFO NotSupported.

(** [self.counter_state[i]] panics out of range. *)
Definition counter_state (i : Z) : M S E PmuCounterState.t := λ s,
  of_outcome (unwrap_option (s.1 !! Z.to_nat i)) s.
Definition set_counter_state (i : Z) (x : PmuCounterState.t) : M S E unit := modify (λ s, (<[Z.to_nat i := x]> s.1, s.2)).
Definition sbi {A} (call : F → result E A * F) : M S E A := λ s,
  let '(r, f) := call (platform s.2) in Returns (r, (s.1, Cpu (hcounteren s.2) f)).

Definition counter_csr (counter_index : Z) : M S E Z :=
  pmu_info ← of_outcome (unwrap_result get);
  of_outcome (unwrap_result (PmuInfo.counter_index_to_csr pmu_info counter_index)).
Definition set_hcounteren_bit (counter_index : Z) : M S E unit :=
  csr ← counter_csr counter_index;
  modify (λ s, (s.1, Cpu (Z.lor (hcounteren s.2) (shl64 1 (wrap64 (csr - CSR_CYCLE)))) (platform s.2))).
Definition clear_hcounteren_bit (counter_index : Z) : M S E unit :=
  csr ← counter_csr counter_index;
  modify (λ s, (s.1, Cpu (Z.land (hcounteren s.2) (not64 (shl64 1 (wrap64 (csr - CSR_CYCLE))))) (platform s.2))).
(** [CSR.hpmcounter] has 32 registers. *)
Definition read_counter_csr (counter_index : Z) : M S E Z :=
  csr ← counter_csr counter_index;
  let i := wrap64 (csr - CSR_CYCLE) in
  if i <? 32 then gets (λ s, hpmcounter i (platform s.2)) else panic.

Definition update_configured_counter (counter_index : Z) (config_flags : ConfigFlags) (event_type : EventType)
  (event_data : Z) : M S E unit :=
  let new_state := CounterState.mk 0 config_flags event_type event_data in
  pmu_info ← lift get;
  lift (map_err (λ _, NotSupported) (PmuInfo.get_counter_info pmu_info counter_index));;
  state ← counter_state counter_index;
  match state with
  | Configured c | Started c =>
      if is_skip_match config_flags then
        if is_auto_start config_flags then
          set_hcounteren_bit counter_index;;
          set_counter_state counter_index (Started c)
        else mret tt
      else err InvalidParam
  | NotConfigured =>
      if negb (is_skip_match config_flags) then
        x ← (if is_auto_start config_flags then set_hcounteren_bit counter_index;; mret (Started new_state)
             else mret (Configured new_state));
        set_counter_state counter_index x
      else err InvalidParam
  | Poisoned _ => err InvalidParam
  end.
Definition update_started_counters (counter_index counter_mask : Z) : M S E unit :=
  l ← of_outcome (CounterMaskIter.items (CounterMaskIter.new counter_index counter_mask));
  for_each l (λ i,
    state ← counter_state i;
    match state with
    | Configured c => set_counter_state i (Started c);; set_hcounteren_bit i
    | _ => mret tt
    end).
Definition update_stopped_counters (counter_index counter_mask : Z) (stop_flags : StopFlags) : M S E unit :=
  l ← of_outcome (CounterMaskIter.items (CounterMaskIter.new counter_index counter_mask));
  for_each l (λ i,
    state ← counter_state i;
    match state with
    | Configured c | Started c =>
        if is_reset_flag stop_flags then
          clear_hcounteren_bit i;;
          set_counter_state i NotConfigured
        else
          c ← match state with
              | Started c => v ← read_counter_csr i; mret (CounterState.with_value v c)
              | _ => mret c
              end;
          set_counter_state i (Configured c)
    | _ => mret tt
    end).

(** [find] on the iterator with a test of the state of the counter *)
Fixpoint find_counter (p : PmuCounterState.t → bool) (l : list Z) : M S E bool :=
  match l with
  | [] => mret false
  | i :: l => state ← counter_state i; if p state then mret true else find_counter p l
  end.
Definition any_counter (p : PmuCounterState.t → bool) (counter_index counter_mask : Z) : M S E bool :=
  l ← of_outcome (CounterMaskIter.items (CounterMaskIter.new counter_index counter_mask));
  find_counter p l.
Definition is_configured (x : PmuCounterState.t) : bool := match x with Configured _ => true | _ => false end.
Definition is_not_configured (x : PmuCounterState.t) : bool := match x with NotConfigured => true | _ => false end.
Definition in_use (x : PmuCounterState.t) : bool := match x with Configured _ | Started _ => true | _ => false end.

Definition get_startable_counter_range (counter_index counter_mask : Z) : M S E Z :=
  pmu_info ← lift get;
  counter_mask ← lift (PmuInfo.filter_counter_mask pmu_info counter_index counter_mask);
  found ← any_counter is_configured counter_index counter_mask;
  if found : bool then mret counter_mask else err InvalidParam.
Definition get_stoppable_counter_range (counter_index counter_mask : Z) : M S E Z :=
  pmu_info ← lift get;
  lift (PmuInfo.filter_counter_mask pmu_info counter_index counter_mask).
Definition get_configurable_counter_range (counter_index counter_mask : Z) (config_flags : ConfigFlags) : M S E Z :=
  pmu_info ← lift get;
  counter_mask ← lift (PmuInfo.filter_counter_mask pmu_info counter_index counter_mask);
  if negb (is_skip_match config_flags) then
    found ← any_counter is_not_configured counter_index counter_mask;
    if found : bool then mret counter_mask else err InvalidParam
  else
    state ← gets (λ s, s.1 !! Z.to_nat counter_index) ≫= λ o, lift (ok_or o InvalidParam);
    if in_use state then mret counter_mask else err InvalidParam.

Definition get_cached_csr_value (csr : Z) : M S E Z :=
  pmu_info ← lift get;
  counter_index ← lift (PmuInfo.csr_to_counter_index pmu_info csr);
  state ← counter_state counter_index;
  match state with
  | Configured c | Poisoned c => mret (CounterState.value c)
  | _ => err Failed
  end.

(** *** Calls to the platform *)
Definition configure_matching_counters_internal (counter_index counter_mask : Z) (config_flags : ConfigFlags)
  (event_type : EventType) (event_data : Z) : M S E Z :=
  let config_flags := if is_uinh config_flags then set_vuinh config_flags else config_flags in
  let config_flags := if is_sinh config_flags then set_vsinh config_flags else config_flags in
  sbi (sbi_configure counter_index counter_mask (set_minh (set_sinh config_flags)) event_type event_data).
Definition start_counters_internal (counter_index counter_mask : Z) (start_flags : StartFlags) (initial_value : Z) :
  M S E unit :=
  sbi (sbi_start counter_index counter_mask start_flags initial_value).
Definition stop_counters_internal (counter_index counter_mask : Z) (stop_flags : StopFlags) : M S E unit :=
  sbi (sbi_stop counter_index counter_mask stop_flags).

Definition configure_matching_counters (counter_index counter_mask : Z) (config_flags : ConfigFlags)
  (event_type : EventType) (event_data : Z) : M S E Z :=
  counter_mask ← get_configurable_counter_range counter_index counter_mask config_flags;
  platform_counter_index ← configure_matching_counters_internal counter_index counter_mask config_flags event_type event_data;
  update_configured_counter platform_counter_index config_flags event_type event_data;;
  mret platform_counter_index.
Definition start_counters (counter_index counter_mask : Z) (start_flags : StartFlags) (initial_value : Z) : M S E unit :=
  counter_mask ← get_startable_counter_range counter_index counter_mask;
  result ← attempt (start_counters_internal counter_index counter_mask start_flags initial_value);
  match result with
  | Ok _ | Err AlreadyStarted => update_started_counters counter_index counter_mask
  | Err _ => mret tt
  end;;
  lift result.
Definition stop_counters (counter_index counter_mask : Z) (stop_flags : StopFlags) : M S E unit :=
  counter_mask ← get_stoppable_counter_range counter_index counter_mask;
  result ← attempt (stop_counters_internal counter_index counter_mask stop_flags);
  (if match result with Ok _ => true | Err AlreadyStopped => is_reset_flag stop_flags | Err _ => false end
   then update_stopped_counters counter_index counter_mask stop_flags else mret tt);;
  lift result.

(** *** Context switches *)
Definition reset_all_counters (counter_mask : Z) : M S E unit :=
  if negb (counter_mask =? 0) then
    r ← attempt (stop_counters_internal 0 counter_mask (set_reset_flag default_stop));
    match r with Err AlreadyStopped => mret tt | r => lift r end
  else mret tt.
(** The loop over the first counters: saves the values of those that are started and
    returns the mask of those that are in use. *)
Fixpoint save_loop (l : list Z) (counter_mask : Z) : M S E Z :=
  match l with
  | [] => mret counter_mask
  | i :: l =>
      state ← counter_state i;
      if in_use state then
        match state with
        | Started c => v ← read_counter_csr i; set_counter_state i (Started (CounterState.with_value v c))
        | _ => mret tt
        end;;
        save_loop l (Z.lor counter_mask (shl64 1 i))
      else save_loop l counter_mask
  end.
Definition save_counters : M S E unit :=
  match get with
  | Ok pmu_info =>
      counter_mask ← save_loop (seqZ 0 (Z.min (PmuInfo.get_num_counters pmu_info) (Z.of_nat MAX_HARDWARE_COUNTERS))) 0;
      attempt (reset_all_counters counter_mask);;
      mret tt
  | Err _ => mret tt
  end.
Definition resume_counter (counter_index : Z) (c : CounterState.t) : M S E unit :=
  start_counters_internal counter_index 1 (set_init_value default_start) (CounterState.value c);;
  set_hcounteren_bit counter_index.
Definition configure_counter (counter_index : Z) (c : CounterState.t) : M S E Z :=
  let config_flags := unset_clear_value (unset_skip_match (unset_auto_start (CounterState.config_flags c))) in
  configure_matching_counters_internal counter_index 1 config_flags (CounterState.event_type c) (CounterState.event_data c).
Definition restore_counter (i : Z) : M S E unit :=
  state ← counter_state i;
  match state with
  | Configured c | Started c =>
      result ← attempt (configure_counter i c;;
                        match state with Started _ => resume_counter i c | _ => mret tt end);
      match result with Err _ => set_counter_state i (Poisoned c) | Ok _ => mret tt end
  | _ => mret tt
  end.
Definition restore_counters : M S E unit :=
  match get with
  | Ok pmu_info => for_each (seqZ 0 (PmuInfo.get_num_counters pmu_info)) restore_counter
  | Err _ => mret tt
  end.

(** *** The calls of a guest (vm.rs) *)
Inductive PmuFunction :=
| GetNumCounters
| GetCounterInfo (counter_index : Z)
| ConfigureMatchingCounters (counter_index counter_mask : Z) (config_flags : ConfigFlags) (event_type : EventType) (event_data : Z)
| StartCounters (counter_index counter_mask : Z) (start_flags : StartFlags) (initial_value : Z)
| StopCounters (counter_index counter_mask : Z) (stop_flags : StopFlags)
| ReadFirmwareCounter (counter_index : Z).
Definition handle_pmu_msg (pmu_func : PmuFunction) : M S E Z :=
  match pmu_func with
  | GetNumCounters => pmu_info ← lift get; mret (PmuInfo.get_num_counters pmu_info)
  | GetCounterInfo counter_index =>
      pmu_info ← lift get;
      info ← lift (PmuInfo.get_counter_info pmu_info counter_index);
      mret (info_raw info)
  | StartCounters counter_index counter_mask start_flags initial_value =>
      start_counters counter_index counter_mask start_flags initial_value;; mret 0
  | StopCounters counter_index counter_mask stop_flags => stop_counters counter_index counter_mask stop_flags;; mret 0
  | ConfigureMatchingCounters counter_index counter_mask config_flags event_type event_data =>
      configure_matching_counters counter_index counter_mask config_flags event_type event_data
  | ReadFirmwareCounter _ => err NotSupported
  end.
End pmu.
End VmPmuState.
