(* ===== verification/VmPmuFacts.v ===== *)
(** * What the PMU calls of a guest do

    The iterator over a counter mask, what discovery finds, the effect of the calls on
    the counters of a vCPU and on the counters that it can read, and context
    switches.  The platform may answer as it likes unless a law says otherwise. *)
From S2P Require Import Prelude Imsic VmPmu.
Open Scope Z_scope.
Import PmuCounterState(NotConfigured, Configured, Started, Poisoned).
Local Notation E := PmuError.t.

Lemma ends_attempt {S A} (m : M S E A) s (Q : result E (result E A) → S → Prop) :
  ends m s (λ r s', Q (Ok r) s') → ends (attempt m) s Q.
Proof. intros (r & s' & Hm & HQ). exists (Ok r), s'. split; [|done]. unfold attempt. by rewrite Hm. Qed.

(** ** The iterator over a mask *)
Definition bits_from (k mask : Z) : list Z := filter (λ i, Z.testbit mask i = true) (seqZ k (64 - k)).
Definition set_bits (mask : Z) : list Z := bits_from 0 mask.

Lemma bits_from_cons k mask :
  0 ≤ k < 64 → bits_from k mask = (if Z.testbit mask k then [k] else []) ++ bits_from (k + 1) mask.
Proof.
  intros Hk. unfold bits_from. rewrite seqZ_cons by lia. rewrite filter_cons.
  replace (Z.succ k) with (k + 1) by lia. replace (Z.pred (64 - k)) with (64 - (k + 1)) by lia.
  destruct (Z.testbit mask k); [by rewrite decide_True by done|by rewrite decide_False by done].
Qed.
Lemma bits_from_ext k m m' : (∀ i, k ≤ i < 64 → Z.testbit m i = Z.testbit m' i) → bits_from k m = bits_from k m'.
Proof.
  intros Hext. unfold bits_from. assert (Forall (λ i, Z.testbit m i = Z.testbit m' i) (seqZ k (64 - k))) as Hall.
  { apply list.Forall_forall. intros i [??]%elem_of_seqZ. apply Hext. lia. }
  induction Hall as [|i l Hi _ IH]; [done|]. rewrite !filter_cons, Hi, IH. done.
Qed.
Lemma shl64_bit k : 0 ≤ k < 64 → shl64 1 k = 2 ^ k.
Proof.
  intros Hk. unfold shl64. rewrite Z.mod_small, Z.shiftl_1_l by lia. unfold wrap64. change U64 with (2 ^ 64).
  apply Z.mod_small. split; [lia|]. apply Z.pow_lt_mono_r; lia.
Qed.
Lemma clear_bit m k i :
  u64 m → 0 ≤ k < 64 → 0 ≤ i < 64 → Z.testbit (Z.land m (not64 (shl64 1 k))) i = Z.testbit m i && negb (i =? k).
Proof.
  intros Hm Hk Hi. rewrite shl64_bit by done. pose proof (Z.pow_lt_mono_r 2 k 64 ltac:(lia) ltac:(lia) ltac:(lia)).
  rewrite Z.land_spec, testbit_not64 by (unfold u64; lia || lia). f_equal. f_equal.
  destruct (Z.eqb_spec i k) as [->|]; [by apply Z.pow2_bits_true; lia|by apply Z.pow2_bits_false; lia].
Qed.
Lemma land_bit m k : 0 ≤ k < 64 → negb (Z.land m (shl64 1 k) =? 0) = Z.testbit m k.
Proof.
  intros Hk. rewrite shl64_bit by done. rewrite Z.land_comm.
  destruct (Z.testbit m k) eqn:Hb.
  - apply negb_true_iff, Z.eqb_neq. intros Hz. apply (f_equal (λ x, Z.testbit x k)) in Hz.
    rewrite Z.land_spec, Z.pow2_bits_true, Hb, Z.bits_0 in Hz by lia. done.
  - apply negb_false_iff, Z.eqb_eq, Z.bits_inj'. intros i Hi. rewrite Z.land_spec, Z.bits_0.
    destruct (decide (i = k)) as [->|]; [by rewrite Hb, andb_false_r|by rewrite Z.pow2_bits_false by lia].
Qed.

Record scan (idx : Z) (m k : Z) : Prop := { scan_mask : u64 m; scan_pos : 0 ≤ k ≤ 64; scan_low i : 0 ≤ i < k → Z.testbit m i = false }.
Lemma scan_done idx m k : scan idx m k → (m = 0 ↔ bits_from k m = []).
Proof.
  intros [Hm Hk Hlow]. split.
  - intros ->. unfold bits_from. assert (∀ l, filter (λ i, Z.testbit 0 i = true) l = []) as ->; [|done].
    induction l as [|i l IH]; [done|]. rewrite filter_cons, Z.bits_0, decide_False by done. done.
  - intros Hnil. apply Z.bits_inj'. intros i Hi. rewrite Z.bits_0. destruct (Z.lt_ge_cases i k); [by apply Hlow|].
    destruct (Z.lt_ge_cases i 64) as [Hlt|]; [|by apply testbit_u64]. destruct (Z.testbit m i) eqn:Hb; [|done].
    assert (i ∈ bits_from k m) as Hin by (apply list_elem_of_filter; split; [done|apply elem_of_seqZ; lia]).
    rewrite Hnil in Hin. by apply elem_of_nil in Hin.
Qed.
Lemma next_loop_spec fuel idx m k :
  scan idx m k → 64 - k ≤ Z.of_nat fuel →
  match bits_from k m with
  | [] => ∃ it, CounterMaskIter.next_loop fuel (CounterMaskIter.mk idx m k) = Returns (None, it)
  | j :: l => ∃ m', CounterMaskIter.next_loop fuel (CounterMaskIter.mk idx m k) =
                    Returns (Some (wrap64 (idx + j)), CounterMaskIter.mk idx m' (j + 1)) ∧
                    scan idx m' (j + 1) ∧ bits_from (j + 1) m' = l
  end.
Proof.
  revert m k. induction fuel as [|fuel IH]; intros m k Hs Hf; pose proof (scan_done idx m k Hs) as Hdone; destruct Hs as [Hm Hk Hlow].
  - assert (bits_from k m = []) as Hnil by (unfold bits_from; replace (64 - k) with 0 by lia; done).
    rewrite Hnil. cbn [CounterMaskIter.next_loop CounterMaskIter.counter_mask]. rewrite (proj2 Hdone Hnil). by eexists.
  - cbn [CounterMaskIter.next_loop CounterMaskIter.counter_mask CounterMaskIter.counter_index CounterMaskIter.mask_index].
    destruct (Z.eqb_spec m 0) as [->|Hne]; [rewrite (proj1 Hdone eq_refl); by eexists|].
    assert (k < 64) as Hlt.
    { destruct (Z.lt_ge_cases k 64); [done|]. exfalso. apply Hne, Hdone. unfold bits_from. replace (64 - k) with 0 by lia. done. }
    rewrite land_bit by lia. rewrite bits_from_cons by lia.
    assert (scan idx (Z.land m (not64 (shl64 1 k))) (k + 1)) as Hs'.
    { assert (u64 (not64 (shl64 1 k))).
      { rewrite shl64_bit by lia. pose proof (Z.pow_lt_mono_r 2 k 64 ltac:(lia) ltac:(lia) ltac:(lia)). unfold not64, u64. lia. }
      split; [apply land_u64; [done|unfold u64 in *; lia]|lia|]. intros i Hi. rewrite clear_bit by (done || lia).
      destruct (Z.eqb_spec i k); [by rewrite andb_false_r|]. by rewrite Hlow by lia. }
    assert (bits_from (k + 1) (Z.land m (not64 (shl64 1 k))) = bits_from (k + 1) m) as Heq.
    { apply bits_from_ext. intros i Hi. rewrite clear_bit by (done || lia). rewrite (proj2 (Z.eqb_neq i k)) by lia. by rewrite andb_true_r. }
    assert (wrap64 (k + 1) = k + 1) as -> by (unfold wrap64; apply Z.mod_small; lia).
    destruct (Z.testbit m k); cbn [app]; [eexists; split; [reflexivity|done]|].
    specialize (IH _ _ Hs' ltac:(lia)). by rewrite Heq in IH.
Qed.
(** The counters of a mask, in increasing order *)
Lemma items_spec idx mask :
  u64 mask → CounterMaskIter.items (CounterMaskIter.new idx mask) = Returns (map (λ i, wrap64 (idx + i)) (set_bits mask)).
Proof.
  intros Hm. unfold CounterMaskIter.items, CounterMaskIter.new, set_bits.
  assert (∀ fuel m k, scan idx m k → (length (bits_from k m) < fuel)%nat →
    CounterMaskIter.collect fuel (CounterMaskIter.mk idx m k) = Returns (map (λ i, wrap64 (idx + i)) (bits_from k m))) as Hgen.
  { induction fuel as [|fuel IH]; intros m k Hs Hf; [lia|]. cbn [CounterMaskIter.collect]. unfold CounterMaskIter.next.
    pose proof (next_loop_spec 64 idx m k Hs ltac:(destruct Hs; lia)) as Hnext. destruct (bits_from k m) as [|j l].
    - by destruct Hnext as [it ->].
    - destruct Hnext as (m' & -> & Hs' & <-). cbn [mbind outcome_bind]. rewrite IH; [done|done|cbn in Hf; lia]. }
  apply Hgen; [split; [done|lia|lia]|]. unfold bits_from.
  pose proof (length_filter (λ i, Z.testbit mask i = true) (seqZ 0 (64 - 0))) as Hl. rewrite length_seqZ in Hl. lia.
Qed.

(** ** What is known of the platform *)
Section pmu.
Context `{PmuTypes}.
Record info_wf (p : PmuInfo.t) : Prop := {
  wf_length : (length (PmuInfo.hw_counters_info p) ≤ MAX_HARDWARE_COUNTERS)%nat;
  wf_mask : u64 (PmuInfo.valid_hw_counters_mask p);
  wf_valid (i : nat) : Z.testbit (PmuInfo.valid_hw_counters_mask p) (Z.of_nat i) = true ↔
    ∃ info, PmuInfo.hw_counters_info p !! i = Some (Some info);
  wf_csr i info : PmuInfo.hw_counters_info p !! i = Some (Some info) → CSR_CYCLE ≤ get_csr info ≤ CSR_HPMCOUNTER31
}.
Definition valid (p : PmuInfo.t) (i : Z) : bool := Z.testbit (PmuInfo.valid_hw_counters_mask p) i.

Lemma wf_new : info_wf PmuInfo.new.
Proof.
  split; [cbn; lia|unfold u64; cbn; lia| |done]. intros i. cbn. rewrite Z.bits_0. split; [done|]. by intros [].
Qed.
Lemma wf_push_none p :
  info_wf p → (length (PmuInfo.hw_counters_info p) < MAX_HARDWARE_COUNTERS)%nat →
  info_wf (PmuInfo.mk (PmuInfo.hw_counters_info p ++ [None]) (PmuInfo.valid_hw_counters_mask p)).
Proof.
  intros [Hl Hm Hv Hc] Hlt. split; cbn [PmuInfo.hw_counters_info PmuInfo.valid_hw_counters_mask].
  - rewrite length_app. cbn. lia.
  - done.
  - intros i. rewrite Hv. split; intros [info Hi]; exists info.
    + by apply lookup_app_l_Some.
    + apply lookup_app_Some in Hi as [?|[_ Hi]]; [done|]. by apply list_lookup_singleton_Some in Hi as [_ ?].
  - intros i info Hi. apply lookup_app_Some in Hi as [?|[_ Hi]]; [by eapply Hc|].
    by apply list_lookup_singleton_Some in Hi as [_ ?].
Qed.
Lemma wf_push_some p info :
  info_wf p → (length (PmuInfo.hw_counters_info p) < MAX_HARDWARE_COUNTERS)%nat → PmuInfo.is_valid_hardware_counter info = true →
  info_wf (PmuInfo.mk (PmuInfo.hw_counters_info p ++ [Some info])
    (Z.lor (PmuInfo.valid_hw_counters_mask p) (shl64 1 (Z.of_nat (length (PmuInfo.hw_counters_info p)))))).
Proof.
  intros [Hl Hm Hv Hc] Hlt Hinfo. unfold MAX_HARDWARE_COUNTERS in *. set (n := length _) in *. rewrite shl64_bit by lia.
  pose proof (Z.pow_lt_mono_r 2 (Z.of_nat n) 64 ltac:(lia) ltac:(lia) ltac:(lia)).
  split; cbn [PmuInfo.hw_counters_info PmuInfo.valid_hw_counters_mask].
  - rewrite length_app. cbn. unfold n, MAX_HARDWARE_COUNTERS in *. lia.
  - apply lor_u64; [done|unfold u64; lia].
  - intros i. rewrite Z.lor_spec, orb_true_iff, Hv. rewrite <- Z.shiftl_1_l, testbit_shiftl1, Z.eqb_eq by lia. split.
    + intros [[x Hx]|Hi]; [exists x; by apply lookup_app_l_Some|]. exists info. assert (i = n) as -> by lia. apply list_lookup_middle. done.
    + intros [x Hx]. apply lookup_app_Some in Hx as [?|[Hn Hx]]; [left; by eexists|right].
      apply list_lookup_singleton_Some in Hx as [? _]. unfold n. lia.
  - intros i x Hx. apply lookup_app_Some in Hx as [?|[_ Hx]]; [by eapply Hc|].
    apply list_lookup_singleton_Some in Hx as [_ [= <-]]. unfold PmuInfo.is_valid_hardware_counter in Hinfo.
    apply andb_true_iff in Hinfo as [H1%Z.leb_le H2%Z.leb_le]. done.
Qed.

Section platform.
Context {F : Type} `{!Platform F}.
Lemma init_counters_wf n j p (f : F) :
  info_wf p → length (PmuInfo.hw_counters_info p) = j → (j + n ≤ MAX_HARDWARE_COUNTERS)%nat →
  ends (PmuInfo.init_counters (seqZ (Z.of_nat j) (Z.of_nat n)) p) f (λ r _, match r with Ok p => info_wf p | Err _ => True end).
Proof.
  revert j p f. induction n as [|n IH]; intros j p f Hp Hj Hn; [by apply ends_ret|].
  rewrite seqZ_cons by lia. cbn [PmuInfo.init_counters]. apply ends_bind.
  replace (Z.succ (Z.of_nat j)) with (Z.of_nat (S j)) by lia. replace (Z.pred (Z.of_nat (S n))) with (Z.of_nat n) by lia.
  unfold PmuInfo.init_counter. apply ends_bind, ends_attempt.
  destruct (sbi_get_counter_info (Z.of_nat j) f) as [r f'] eqn:Hcall. exists r, f'. split; [by rewrite Hcall|].
  assert (push_cap MAX_HARDWARE_COUNTERS (match r with Ok i => Some i | Err _ => None end) (PmuInfo.hw_counters_info p) =
          Returns (PmuInfo.hw_counters_info p ++ [match r with Ok i => Some i | Err _ => None end])) as Hpush.
  { unfold push_cap. by rewrite decide_True by lia. }
  destruct r as [info|e].
  - destruct (is_firmware_counter info); [by apply ends_ret, ends_ret|].
    destruct (PmuInfo.is_valid_hardware_counter info) eqn:Hv; cbn [negb]; [|by apply ends_err].
    apply ends_bind. eapply ends_outcome; [exact Hpush|]. apply ends_ret. apply (IH (S j)); [|cbn; rewrite length_app; cbn; lia|lia].
    subst j. apply wf_push_some; [done|lia|done].
  - apply ends_bind. eapply ends_outcome; [exact Hpush|]. apply ends_ret. apply (IH (S j)); [|cbn; rewrite length_app; cbn; lia|lia].
    apply wf_push_none; [done|lia].
Qed.
(** Discovery returns whatever the platform answers. *)
Lemma init_wf (f : F) : ends PmuInfo.init f (λ r _, match r with Ok p => info_wf p | Err _ => True end).
Proof.
  unfold PmuInfo.init. apply ends_bind. destruct (sbi_get_num_counters f) as [r f1] eqn:Hcall. exists r, f1.
  split; [by rewrite Hcall|]. destruct r as [num|e]; [|done]. apply ends_bind.
  eapply ends_impl.
  { replace (seqZ 0 (num `min` Z.of_nat MAX_HARDWARE_COUNTERS)) with (seqZ (Z.of_nat 0) (Z.of_nat (Z.to_nat (num `min` Z.of_nat MAX_HARDWARE_COUNTERS)))).
    - apply (init_counters_wf _ 0 _ f1 wf_new); [done|lia].
    - unfold seqZ. f_equal. by rewrite Nat2Z.id. }
  intros [p|e] f2; [|done]. intros Hp. destruct (PmuInfo.hw_counters_info p) eqn:Hl; [by apply ends_err|].
  apply ends_bind, ends_attempt. destruct (sbi_stop 0 (PmuInfo.valid_hw_counters_mask p) (set_reset_flag default_stop) f2) as [r f3] eqn:Hstop. exists r, f3. split; [by rewrite Hstop|].
  by apply ends_ret.
Qed.
End platform.

(** *** The mask of a call *)
Definition mask_bit (m idx i : Z) : bool := Z.testbit m (i - idx).
Lemma bit_length_bit m i : 0 ≤ m → Z.testbit m i = true → i < PmuInfo.bit_length m.
Proof.
  intros Hm Hb. unfold PmuInfo.bit_length. destruct (Z.eqb_spec m 0) as [->|Hne]; [by rewrite Z.bits_0 in Hb|].
  destruct (Z.lt_ge_cases i (Z.log2 m + 1)); [done|]. rewrite Z.bits_above_log2 in Hb by lia. done.
Qed.
Lemma bit_length_bound m : u64 m → 0 ≤ PmuInfo.bit_length m ≤ 64.
Proof.
  intros Hm. unfold PmuInfo.bit_length. destruct (Z.eqb_spec m 0) as [->|Hne]; [lia|]. unfold u64 in Hm.
  pose proof (Z.log2_nonneg m). pose proof (proj1 (Z.log2_lt_pow2 m 64 ltac:(lia)) ltac:(lia)). lia.
Qed.
(** A call whose counters are below 2^64 does not wrap around. *)
Definition no_wrap (idx : Z) : Prop := 0 ≤ idx < U64 - 64.
Lemma filter_counter_mask_spec p idx mask m :
  info_wf p → u64 mask → no_wrap idx → PmuInfo.filter_counter_mask p idx mask = Ok m →
  u64 m ∧ idx < 64 ∧ ∀ i, 0 ≤ i → mask_bit m idx i = mask_bit mask idx i && valid p i.
Proof.
  intros Hp Hmask Hidx. unfold PmuInfo.filter_counter_mask, no_wrap in *. pose proof (bit_length_bound mask Hmask) as Hbl.
  unfold wrap64. rewrite Z.mod_small by lia. destruct (Z.ltb_spec (Z.of_nat (length (PmuInfo.hw_counters_info p))) (PmuInfo.bit_length mask + idx)) as [|Hle]; [done|].
  intros [= <-]. pose proof (wf_length p Hp) as Hl. unfold MAX_HARDWARE_COUNTERS in Hl.
  unfold shr64. rewrite Z.mod_small by lia. pose proof (wf_mask p Hp) as Hv. unfold u64 in Hv. split.
  { apply land_u64; [done|]. apply Z.shiftr_nonneg. lia. }
  split; [lia|]. intros i Hi. unfold mask_bit, valid. rewrite Z.land_spec.
  destruct (Z.lt_ge_cases (i - idx) 0); [by rewrite !Z.testbit_neg_r by lia|].
  rewrite Z.shiftr_spec by lia. by replace (i - idx + idx) with i by lia.
Qed.
Lemma valid_lt p i : info_wf p → valid p i = true → 0 ≤ i < Z.of_nat MAX_HARDWARE_COUNTERS.
Proof.
  intros Hp Hv. unfold valid in Hv. destruct (Z.lt_ge_cases i 0) as [|Hi]; [by rewrite Z.testbit_neg_r in Hv by lia|].
  rewrite <- (Z2Nat.id i) in Hv by lia. apply (wf_valid p Hp) in Hv as [info Hinfo]. apply lookup_lt_Some in Hinfo.
  pose proof (wf_length p Hp). unfold MAX_HARDWARE_COUNTERS in *. lia.
Qed.
(** The counters of a filtered mask are those of its bits. *)
Lemma filtered_items p idx mask m :
  info_wf p → u64 mask → no_wrap idx → PmuInfo.filter_counter_mask p idx mask = Ok m →
  ∃ l, CounterMaskIter.items (CounterMaskIter.new idx m) = Returns l ∧ NoDup l ∧
    (∀ i, i ∈ l ↔ 0 ≤ i ∧ mask_bit m idx i = true) ∧ (∀ i, i ∈ l → valid p i = true).
Proof.
  intros Hp Hmask Hidx Hf. destruct (filter_counter_mask_spec _ _ _ _ Hp Hmask Hidx Hf) as (Hm & Hlt & Hbits).
  unfold no_wrap in Hidx. assert (map (λ i, wrap64 (idx + i)) (set_bits m) = map (λ i, idx + i) (set_bits m)) as Hmap.
  { apply map_ext_in. intros i Hi%list_elem_of_In. apply list_elem_of_filter in Hi as [_ [??]%elem_of_seqZ].
    unfold wrap64. apply Z.mod_small. lia. }
  exists (map (λ i, idx + i) (set_bits m)). split; [by rewrite items_spec, Hmap|].
  assert (∀ i, i ∈ map (λ i, idx + i) (set_bits m) ↔ 0 ≤ i ∧ mask_bit m idx i = true) as Hin.
  { intros i. rewrite list_elem_of_fmap. unfold set_bits, bits_from, mask_bit. split.
    - intros (j & -> & Hj). apply list_elem_of_filter in Hj as [Hj [??]%elem_of_seqZ]. split; [lia|]. by replace (idx + j - idx) with j by lia.
    - intros [Hi Hb]. exists (i - idx). split; [lia|]. apply list_elem_of_filter. split; [done|]. apply elem_of_seqZ.
      destruct (Z.lt_ge_cases (i - idx) 0); [by rewrite Z.testbit_neg_r in Hb by lia|].
      destruct (Z.lt_ge_cases (i - idx) 64); [lia|]. by rewrite testbit_u64 in Hb. }
  split; [|split; [done|]].
  - apply NoDup_fmap_2; [intros ???; lia|]. unfold set_bits, bits_from. apply list.NoDup_filter, NoDup_seqZ.
  - intros i [Hi Hb]%Hin. rewrite Hbits in Hb by lia. by apply andb_true_iff in Hb as [_ ?].
Qed.

(** ** Counters one by one *)
Context {F : Type} `{!Platform F}.
Variable p : PmuInfo.t.
Hypothesis Hp : info_wf p.
Local Notation X := PmuCounterState.t.
Local Notation St := (list X * cpu F)%type.

(** The register of a counter, relative to [cycle] *)
Definition reg (i : Z) : Z := match PmuInfo.get_counter_info p i with Ok info => get_csr info - CSR_CYCLE | Err _ => 0 end.
Definition bit_of (i : Z) : Z := Z.shiftl 1 (reg i).
#[local] Set Default Proof Using "Type*".
Lemma valid_info i : valid p i = true → ∃ info, PmuInfo.get_counter_info p i = Ok info ∧ reg i = get_csr info - CSR_CYCLE ∧ 0 ≤ reg i < 32.
Proof.
  intros Hv. pose proof (valid_lt p i Hp Hv) as Hi. unfold valid in Hv. rewrite <- (Z2Nat.id i) in Hv by lia.
  apply (wf_valid p Hp) in Hv as [info Hinfo]. pose proof (wf_csr p Hp _ _ Hinfo) as Hcsr. exists info.
  unfold reg, PmuInfo.get_counter_info. rewrite Hinfo. split; [done|]. unfold CSR_CYCLE, CSR_HPMCOUNTER31 in *. lia.
Qed.
Lemma info_valid i : 0 ≤ i → is_ok (PmuInfo.get_counter_info p i) = valid p i.
Proof.
  intros Hi. destruct (valid p i) eqn:Hv; [by destruct (valid_info i Hv) as (info & -> & _)|].
  unfold PmuInfo.get_counter_info. destruct (_ !! Z.to_nat i) as [[info|]|] eqn:Hinfo; try done.
  assert (Z.testbit (PmuInfo.valid_hw_counters_mask p) (Z.of_nat (Z.to_nat i)) = true) as Ht by (apply (wf_valid p Hp); eauto).
  rewrite Z2Nat.id in Ht by lia. unfold valid in Hv. congruence.
Qed.
Lemma counter_csr_valid i (s : St) : valid p i = true → VmPmuState.counter_csr (Some p) i s = Returns (Ok (reg i + CSR_CYCLE), s).
Proof.
  intros Hv. destruct (valid_info i Hv) as (info & Hinfo & Hreg & _). unfold VmPmuState.counter_csr.
  erewrite bind_ok by reflexivity. unfold PmuInfo.counter_index_to_csr. rewrite Hinfo, Hreg. cbn. do 3 f_equal. lia.
Qed.
Lemma reg_bit i : valid p i = true → shl64 1 (wrap64 (reg i + CSR_CYCLE - CSR_CYCLE)) = bit_of i ∧ wrap64 (reg i + CSR_CYCLE - CSR_CYCLE) = reg i.
Proof.
  intros Hv. destruct (valid_info i Hv) as (_ & _ & _ & Hreg). unfold bit_of. rewrite Z.shiftl_1_l.
  replace (reg i + CSR_CYCLE - CSR_CYCLE) with (reg i) by lia.
  assert (wrap64 (reg i) = reg i) as -> by (unfold wrap64; apply Z.mod_small; lia). split; [|done]. apply shl64_bit. lia.
Qed.
Lemma set_hcounteren_valid i st h (P : F) :
  valid p i = true → VmPmuState.set_hcounteren_bit (Some p) i (st, Cpu h P) = Returns (Ok tt, (st, Cpu (Z.lor h (bit_of i)) P)).
Proof.
  intros Hv. unfold VmPmuState.set_hcounteren_bit. rewrite (bind_ok _ _ _ _ _ (counter_csr_valid i _ Hv)).
  destruct (reg_bit i Hv) as [-> _]. done.
Qed.
Lemma clear_hcounteren_valid i st h (P : F) :
  valid p i = true → VmPmuState.clear_hcounteren_bit (Some p) i (st, Cpu h P) = Returns (Ok tt, (st, Cpu (Z.land h (not64 (bit_of i))) P)).
Proof.
  intros Hv. unfold VmPmuState.clear_hcounteren_bit. rewrite (bind_ok _ _ _ _ _ (counter_csr_valid i _ Hv)).
  destruct (reg_bit i Hv) as [-> _]. done.
Qed.
Lemma read_counter_valid i st h (P : F) :
  valid p i = true → VmPmuState.read_counter_csr (Some p) i (st, Cpu h P) = Returns (Ok (hpmcounter (reg i) P), (st, Cpu h P)).
Proof.
  intros Hv. destruct (valid_info i Hv) as (_ & _ & _ & Hreg). unfold VmPmuState.read_counter_csr.
  rewrite (bind_ok _ _ _ _ _ (counter_csr_valid i _ Hv)). destruct (reg_bit i Hv) as [_ ->].
  by rewrite (proj2 (Z.ltb_lt (reg i) 32)) by lia.
Qed.
Lemma counter_state_eq i st (c : cpu F) x :
  st !! Z.to_nat i = Some x → VmPmuState.counter_state i (st, c) = Returns (Ok x, (st, c)).
Proof. intros Hx. unfold VmPmuState.counter_state. cbn. by rewrite Hx. Qed.

(** A loop that changes every counter of a list once; [all_words] is the word that
    it accumulates. *)
Section loop.
#[local] Set Default Proof Using "Type".
Variable ok : Z → X → Prop.
Variable f : Z → X → X.
Variable g : Z → X → Z → Z.
Definition all_words (l : list Z) (st : list X) (h : Z) : Z :=
  fold_left (λ h i, match st !! Z.to_nat i with Some x => g i x h | None => h end) l h.
Definition ready (st : list X) (i : Z) : Prop := 0 ≤ i ∧ ∃ x, st !! Z.to_nat i = Some x ∧ ok i x.
Lemma all_words_insert i y l (st : list X) h :
  Forall (λ j, 0 ≤ j) l → 0 ≤ i → i ∉ l → all_words l (<[Z.to_nat i := y]> st) h = all_words l st h.
Proof.
  intros Hl Hi. revert h. unfold all_words. induction Hl as [|j l Hj _ IH]; intros h Hni; [done|]. cbn [fold_left].
  rewrite not_elem_of_cons in Hni. destruct Hni as [Hne Hni]. rewrite list_lookup_insert_ne by lia. by apply IH.
Qed.
Lemma all_words_ext g' l (st : list X) h :
  (∀ i x a, i ∈ l → g i x a = g' i x a) →
  all_words l st h = fold_left (λ h i, match st !! Z.to_nat i with Some x => g' i x h | None => h end) l h.
Proof.
  unfold all_words. revert h. induction l as [|i l IH]; intros h Hg; [done|]. cbn [fold_left].
  rewrite IH by (intros j x a Hj; apply Hg; by right). f_equal. destruct (st !! Z.to_nat i); [|done]. apply Hg. by left.
Qed.
Lemma ready_insert i y l (st : list X) :
  Forall (ready st) l → 0 ≤ i → i ∉ l → Forall (ready (<[Z.to_nat i := y]> st)) l.
Proof.
  intros Hl Hi Hni. apply list.Forall_forall. intros j Hj. destruct (proj1 (list.Forall_forall _ _) Hl j Hj) as [Hj0 Hx].
  split; [done|]. rewrite list_lookup_insert_ne; [done|]. intros Heq. apply Hni. by replace i with j by lia.
Qed.
(** What the states are after the loop *)
Definition after (l : list Z) (st st' : list X) : Prop :=
  length st' = length st ∧ ∀ k, st' !! k = (if decide (Z.of_nat k ∈ l) then f (Z.of_nat k) <$> st !! k else st !! k).
Lemma after_nil st : after [] st st.
Proof. split; [done|]. intros k. by rewrite decide_False by apply not_elem_of_nil. Qed.
Lemma after_cons i x l (st st' : list X) :
  0 ≤ i → st !! Z.to_nat i = Some x → i ∉ l → after l (<[Z.to_nat i := f i x]> st) st' → after (i :: l) st st'.
Proof.
  intros Hi Hx Hni [Hlen Hlook]. rewrite length_insert in Hlen. split; [done|]. intros k. rewrite Hlook.
  destruct (decide (k = Z.to_nat i)) as [->|Hne].
  - rewrite Z2Nat.id by lia. rewrite (decide_False (P := i ∈ l)) by done. rewrite decide_True by (by left).
    rewrite list_lookup_insert_eq by (by eapply lookup_lt_Some). by rewrite Hx.
  - rewrite list_lookup_insert_ne by done. destruct (decide (Z.of_nat k ∈ l)).
    + by rewrite decide_True by (by right).
    + rewrite decide_False; [done|]. rewrite elem_of_cons. intros [?|?]; [|done]. apply Hne. lia.
Qed.
Lemma for_each_counters (body : Z → M St E unit) (P : F) l st h :
  (∀ i x st h, ok i x → st !! Z.to_nat i = Some x →
     body i (st, Cpu h P) = Returns (Ok tt, (<[Z.to_nat i := f i x]> st, Cpu (g i x h) P))) →
  NoDup l → Forall (ready st) l →
  ∃ st', for_each l body (st, Cpu h P) = Returns (Ok tt, (st', Cpu (all_words l st h) P)) ∧ after l st st'.
Proof.
  intros Hbody. revert st h. induction l as [|i l IH]; intros st h Hnd Hl; [exists st; by split; [|apply after_nil]|].
  apply list.Forall_cons in Hl as [[Hi (x & Hx & Hok)] Hl']. apply list.NoDup_cons in Hnd as [Hni Hnd].
  destruct (IH (<[Z.to_nat i := f i x]> st) (g i x h) Hnd) as (st' & Hrun & Hafter); [apply ready_insert; [exact Hl'|exact Hi|exact Hni]|].
  exists st'. cbn [for_each]. rewrite (bind_ok _ _ _ _ _ (Hbody i x st h Hok Hx)), Hrun. split; [|by eapply after_cons].
  do 4 f_equal. unfold all_words at 2. cbn [fold_left]. rewrite Hx. apply all_words_insert; [|done..].
  eapply list.Forall_impl; [exact Hl'|]. by intros j [? _].
Qed.
End loop.

(** ** What the calls do *)
Definition start_step (x : X) : X := match x with Configured c => Started c | x => x end.
Definition stop_step (reset : bool) (v : Z) (x : X) : X :=
  match x with
  | Configured c => if reset then NotConfigured else Configured c
  | Started c => if reset then NotConfigured else Configured (CounterState.with_value v c)
  | x => x
  end.
(** The counters of a mask, changed one by one *)
Definition on_range (m idx : Z) (f : Z → X → X) (st : list X) : list X :=
  imap (λ k x, if mask_bit m idx (Z.of_nat k) then f (Z.of_nat k) x else x) st.
(** Which registers become readable, and which do not stay so *)
Definition selected (sel : Z → X → bool) (st : list X) (b : Z) : Prop :=
  ∃ k x, st !! k = Some x ∧ sel (Z.of_nat k) x = true ∧ reg (Z.of_nat k) = b.
Definition opens (sel : Z → X → bool) (st : list X) (h h' : Z) : Prop :=
  u64 h' ∧ ∀ b, 0 ≤ b → Z.testbit h' b = true ↔ Z.testbit h b = true ∨ selected sel st b.
Definition closes (sel : Z → X → bool) (st : list X) (h h' : Z) : Prop :=
  u64 h' ∧ ∀ b, 0 ≤ b → Z.testbit h' b = true ↔ Z.testbit h b = true ∧ ¬ selected sel st b.

Lemma bit_of_spec i b : valid p i = true → u64 (bit_of i) ∧ Z.testbit (bit_of i) b = (b =? reg i).
Proof.
  intros Hv. destruct (valid_info i Hv) as (_ & _ & _ & Hreg). unfold bit_of. split; [|apply testbit_shiftl1; lia].
  rewrite Z.shiftl_1_l. pose proof (Z.pow_lt_mono_r 2 (reg i) 64 ltac:(lia) ltac:(lia) ltac:(lia)). unfold u64. lia.
Qed.
(** Bits of a word that a loop sets or clears, one per counter *)
Section bits.
#[local] Set Default Proof Using "Type".
Variable pos : Z → Z.
Variable sel : X → bool.
Definition in_list (l : list Z) (st : list X) (b : Z) : Prop :=
  ∃ i x, i ∈ l ∧ st !! Z.to_nat i = Some x ∧ sel x = true ∧ pos i = b.
Lemma in_list_cons i l st b x :
  st !! Z.to_nat i = Some x → in_list (i :: l) st b ↔ (sel x = true ∧ pos i = b) ∨ in_list l st b.
Proof.
  intros Hx. split.
  - intros (j & y & [->|Hj]%elem_of_cons & Hy & Hs & Hb); [left|right; exists j, y; done].
    rewrite Hx in Hy. by injection Hy as <-.
  - intros [[Hs Hb]|(j & y & Hj & Hy & Hs & Hb)]; [exists i, x|exists j, y]; split; try done; [by left|by right].
Qed.
Lemma not_in_nil st b : ¬ in_list [] st b.
Proof. intros (i & x & Hin & _). by apply elem_of_nil in Hin. Qed.
Definition positioned (st : list X) (i : Z) : Prop := 0 ≤ pos i < 64 ∧ is_Some (st !! Z.to_nat i).
Lemma one_bit i b : 0 ≤ pos i < 64 → u64 (Z.shiftl 1 (pos i)) ∧ Z.testbit (Z.shiftl 1 (pos i)) b = (b =? pos i).
Proof.
  intros Hi. split; [|apply testbit_shiftl1; lia]. rewrite Z.shiftl_1_l.
  pose proof (Z.pow_lt_mono_r 2 (pos i) 64 ltac:(lia) ltac:(lia) ltac:(lia)). unfold u64. lia.
Qed.
Lemma all_words_set l st h :
  Forall (positioned st) l → u64 h →
  let h' := all_words (λ i x h, if sel x then Z.lor h (Z.shiftl 1 (pos i)) else h) l st h in
  u64 h' ∧ ∀ b, 0 ≤ b → Z.testbit h' b = true ↔ Z.testbit h b = true ∨ in_list l st b.
Proof.
  intros Hl. revert h. induction Hl as [|i l [Hi [x Hx]] _ IH]; intros h Hh; cbn.
  { split; [done|]. intros b Hb. pose proof (not_in_nil st b). tauto. }
  unfold all_words. cbn [fold_left]. rewrite Hx.
  destruct (one_bit i 0 Hi) as [Hu _]. destruct (IH (if sel x then Z.lor h (Z.shiftl 1 (pos i)) else h)) as [Hu' Hb'].
  { destruct (sel x); [by apply lor_u64|done]. }
  split; [done|]. intros b Hb. rewrite (in_list_cons i l st b x Hx). etransitivity; [by apply Hb'|]. destruct (sel x); [|naive_solver].
  rewrite Z.lor_spec, orb_true_iff, (proj2 (one_bit i b Hi)), Z.eqb_eq. naive_solver.
Qed.
Lemma all_words_clear l st h :
  Forall (positioned st) l → u64 h →
  let h' := all_words (λ i x h, if sel x then Z.land h (not64 (Z.shiftl 1 (pos i))) else h) l st h in
  u64 h' ∧ ∀ b, 0 ≤ b → Z.testbit h' b = true ↔ Z.testbit h b = true ∧ ¬ in_list l st b.
Proof.
  intros Hl. revert h. induction Hl as [|i l [Hi [x Hx]] _ IH]; intros h Hh; cbn.
  { split; [done|]. intros b Hb. pose proof (not_in_nil st b). tauto. }
  unfold all_words. cbn [fold_left]. rewrite Hx.
  destruct (one_bit i 0 Hi) as [Hu _]. destruct (IH (if sel x then Z.land h (not64 (Z.shiftl 1 (pos i))) else h)) as [Hu' Hb'].
  { destruct (sel x); [|done]. apply land_u64; [done|]. unfold not64, u64 in *. lia. }
  split; [done|]. intros b Hb. rewrite (in_list_cons i l st b x Hx). etransitivity; [by apply Hb'|]. destruct (sel x); [|naive_solver].
  destruct (Z.lt_ge_cases b 64) as [Hlt|Hge].
  - rewrite Z.land_spec, andb_true_iff, testbit_not64, negb_true_iff, (proj2 (one_bit i b Hi)), Z.eqb_neq by (done || lia). naive_solver.
  - rewrite Z.land_spec, (testbit_u64 h) by done. naive_solver.
Qed.
End bits.

(** The loops over the counters of a filtered mask *)
Definition range_sel (m idx : Z) (sel : X → bool) (i : Z) (x : X) : bool := mask_bit m idx i && sel x.
Section ranges.
Variable idx mask m : Z.
Hypothesis Hmask : u64 mask.
Hypothesis Hidx : no_wrap idx.
Hypothesis Hm : PmuInfo.filter_counter_mask p idx mask = Ok m.
Variable st : list X.
Hypothesis Hst : length st = MAX_HARDWARE_COUNTERS.

Lemma items_ready (l : list Z) : (∀ i, i ∈ l → valid p i = true) → Forall (ready (λ i _, valid p i = true) st) l.
Proof.
  intros Hl. apply list.Forall_forall. intros i Hi. pose proof (valid_lt p i Hp (Hl i Hi)) as Hlt. split; [lia|].
  destruct (lookup_lt_is_Some_2 st (Z.to_nat i)) as [x Hx]; [unfold MAX_HARDWARE_COUNTERS in *; lia|]. eauto.
Qed.
Lemma items_positioned (l : list Z) : (∀ i, i ∈ l → valid p i = true) → Forall (positioned reg st) l.
Proof.
  intros Hl. eapply list.Forall_impl; [by apply items_ready|]. intros i [_ (x & Hx & Hv)]. split; [|by exists x].
  destruct (valid_info i Hv) as (_ & _ & _ & Hreg). lia.
Qed.
Lemma in_list_selected (l : list Z) (sel : X → bool) b : (∀ i, i ∈ l ↔ 0 ≤ i ∧ mask_bit m idx i = true) → in_list reg sel l st b ↔ selected (range_sel m idx sel) st b.
Proof.
  intros Hin. unfold selected, range_sel. split.
  - intros (i & x & [Hi Hb]%Hin & Hx & Hs & Hr). exists (Z.to_nat i), x. rewrite Z2Nat.id by lia. by rewrite Hb, Hs.
  - intros (k & x & Hx & [Hb Hs]%andb_true_iff & Hr). exists (Z.of_nat k), x. rewrite Nat2Z.id. split; [apply Hin; split; [lia|done]|done].
Qed.
Lemma on_range_eq (l : list Z) (st' : list X) f :
  (∀ i, i ∈ l ↔ 0 ≤ i ∧ mask_bit m idx i = true) → after f l st st' → st' = on_range m idx f st.
Proof.
  intros Hin [_ Hlook]. apply list_eq. intros k. rewrite Hlook. unfold on_range. rewrite list_lookup_imap.
  destruct (mask_bit m idx (Z.of_nat k)) eqn:Hb.
  - rewrite decide_True by (apply Hin; split; [lia|done]). by destruct (st !! k).
  - rewrite decide_False by (rewrite Hin; intros [_ ?]; congruence). by destruct (st !! k).
Qed.

Lemma update_started_spec h (P : F) :
  u64 h → ends (VmPmuState.update_started_counters (Some p) idx m) (st, Cpu h P) (λ r s',
    r = Ok tt ∧ s'.1 = on_range m idx (λ _, start_step) st ∧ platform s'.2 = P ∧
    opens (range_sel m idx VmPmuState.is_configured) st h (hcounteren s'.2)).
Proof.
  intros Hh. destruct (filtered_items p idx mask m Hp Hmask Hidx Hm) as (l & Hl & Hnd & Hin & Hv).
  unfold VmPmuState.update_started_counters. apply ends_bind. eapply ends_outcome; [exact Hl|].
  edestruct (for_each_counters (λ i _, valid p i = true) (λ _, start_step) (λ i x h, if VmPmuState.is_configured x then Z.lor h (bit_of i) else h)
    (λ i, x ← VmPmuState.counter_state i; match x with Configured c => VmPmuState.set_counter_state i (Started c);; VmPmuState.set_hcounteren_bit (Some p) i | _ => mret tt end)
    P l st h) as (st' & Hrun & Hafter).
  - intros i x st0 h0 Hi Hx. rewrite (bind_ok _ _ _ _ _ (counter_state_eq i st0 _ x Hx)).
    destruct x as [|c|c|c]; cbn [start_step VmPmuState.is_configured]; try (by rewrite list_insert_id).
    erewrite bind_ok by reflexivity. by apply set_hcounteren_valid.
  - done.
  - by apply items_ready.
  - eexists _, _. split; [exact Hrun|]. cbn [fst snd hcounteren platform]. split; [done|]. split; [by apply (on_range_eq l)|]. split; [done|].
    destruct (all_words_set reg VmPmuState.is_configured l st h) as [Hu Hb]; [by apply items_positioned|done|].
    split; [done|]. intros b Hb0. rewrite <- (in_list_selected l) by done. by apply Hb.
Qed.
Lemma update_stopped_spec fl h (P : F) :
  u64 h → ends (VmPmuState.update_stopped_counters (Some p) idx m fl) (st, Cpu h P) (λ r s',
    r = Ok tt ∧ s'.1 = on_range m idx (λ i, stop_step (is_reset_flag fl) (hpmcounter (reg i) P)) st ∧ platform s'.2 = P ∧
    closes (range_sel m idx (λ x, is_reset_flag fl && VmPmuState.in_use x)) st h (hcounteren s'.2)).
Proof.
  intros Hh. destruct (filtered_items p idx mask m Hp Hmask Hidx Hm) as (l & Hl & Hnd & Hin & Hv).
  unfold VmPmuState.update_stopped_counters. apply ends_bind. eapply ends_outcome; [exact Hl|].
  edestruct (for_each_counters (λ i _, valid p i = true) (λ i, stop_step (is_reset_flag fl) (hpmcounter (reg i) P))
    (λ i x h, if is_reset_flag fl && VmPmuState.in_use x then Z.land h (not64 (bit_of i)) else h)
    (λ i, x ← VmPmuState.counter_state i;
      match x with
      | Configured c | Started c =>
          if is_reset_flag fl then VmPmuState.clear_hcounteren_bit (Some p) i;; VmPmuState.set_counter_state i NotConfigured
          else c ← match x with
                   | Started c => v ← VmPmuState.read_counter_csr (Some p) i; mret (CounterState.with_value v c)
                   | _ => mret c
                   end;
               VmPmuState.set_counter_state i (Configured c)
      | _ => mret tt
      end) P l st h) as (st' & Hrun & Hafter).
  - intros i x st0 h0 Hi Hx. rewrite (bind_ok _ _ _ _ _ (counter_state_eq i st0 _ x Hx)).
    destruct (is_reset_flag fl); destruct x as [|c|c|c]; cbn [stop_step VmPmuState.in_use andb]; try (by rewrite list_insert_id).
    + by rewrite (bind_ok _ _ _ _ _ (clear_hcounteren_valid i _ _ _ Hi)).
    + by rewrite (bind_ok _ _ _ _ _ (clear_hcounteren_valid i _ _ _ Hi)).
    + done.
    + erewrite bind_ok by (rewrite (bind_ok _ _ _ _ _ (read_counter_valid i _ _ _ Hi)); reflexivity). done.
  - done.
  - by apply items_ready.
  - eexists _, _. split; [exact Hrun|]. cbn [fst snd hcounteren platform]. split; [done|]. split; [by apply (on_range_eq l)|]. split; [done|].
    destruct (all_words_clear reg (λ x, is_reset_flag fl && VmPmuState.in_use x) l st h) as [Hu Hb]; [by apply items_positioned|done|].
    split; [done|]. intros b Hb0. rewrite <- (in_list_selected l) by done. by apply Hb.
Qed.
Lemma any_counter_spec sel (c : cpu F) :
  ∃ found, VmPmuState.any_counter sel idx m (st, c) = Returns (Ok found, (st, c)) ∧
    (found = true ↔ ∃ k x, st !! k = Some x ∧ range_sel m idx sel (Z.of_nat k) x = true).
Proof.
  destruct (filtered_items p idx mask m Hp Hmask Hidx Hm) as (l & Hl & _ & Hin & Hv). unfold VmPmuState.any_counter.
  erewrite bind_ok by (unfold of_outcome; rewrite Hl; reflexivity).
  assert (∀ l : list Z, (∀ i, i ∈ l → is_Some (st !! Z.to_nat i)) → ∃ found, VmPmuState.find_counter sel l (st, c) = Returns (Ok found, (st, c)) ∧
    (found = true ↔ ∃ i x, i ∈ l ∧ st !! Z.to_nat i = Some x ∧ sel x = true)) as Hgen.
  { clear l Hl Hin Hv. induction l as [|i l IH]; intros Hl.
    - exists false. split; [done|]. split; [done|]. intros (i & x & Hi & _). by apply elem_of_nil in Hi.
    - destruct (Hl i) as [x Hx]; [by left|]. cbn [VmPmuState.find_counter]. rewrite (bind_ok _ _ _ _ _ (counter_state_eq i st c x Hx)).
      destruct (sel x) eqn:Hs.
      + exists true. split; [done|]. split; [|done]. intros _. exists i, x. split; [by left|done].
      + destruct IH as (found & Hf & Hiff); [intros j Hj; apply Hl; by right|]. exists found. split; [done|]. rewrite Hiff.
        split; intros (j & y & Hj & Hy & Hsy); exists j, y; split; try done; [by right|].
        apply elem_of_cons in Hj as [->|?]; [|done]. rewrite Hx in Hy. injection Hy as <-. congruence. }
  destruct (Hgen l) as (found & Hf & Hiff); [intros i Hi; destruct (proj1 (list.Forall_forall _ _) (items_ready l Hv) i Hi) as [_ (x & Hx & _)]; by exists x|]. exists found. split; [done|]. rewrite Hiff. unfold range_sel. split.
  - intros (i & x & [Hi Hb]%Hin & Hx & Hs). exists (Z.to_nat i), x. rewrite Z2Nat.id by lia. by rewrite Hb, Hs.
  - intros (k & x & Hx & [Hb Hs]%andb_true_iff). exists (Z.of_nat k), x. rewrite Nat2Z.id. split; [apply Hin; split; [lia|done]|done].
Qed.
End ranges.

(** *** A call of the guest *)
(** The platform returns 64-bit words. *)
Class PlatformWords := {
  configure_word idx m fl et ed (f : F) j f' : sbi_configure idx m fl et ed f = (Ok j, f') → u64 j
}.
Definition pmu_inv (st : list X) : Prop :=
  length st = MAX_HARDWARE_COUNTERS ∧ ∀ k x, st !! k = Some x → x ≠ NotConfigured → valid p (Z.of_nat k) = true.
Definition some_in (m idx : Z) (sel : X → bool) (st : list X) : Prop :=
  ∃ k x, st !! k = Some x ∧ range_sel m idx sel (Z.of_nat k) x = true.
(** The flags that the platform gets: the guest runs in VS and VU mode. *)
Definition platform_flags (fl : ConfigFlags) : ConfigFlags :=
  let fl := if is_uinh fl then set_vuinh fl else fl in
  let fl := if is_sinh fl then set_vsinh fl else fl in
  set_minh (set_sinh fl).
Definition configure_step (fl : ConfigFlags) (et : EventType) (ed : Z) (x : X) : option X :=
  match x with
  | Configured c | Started c =>
      if is_skip_match fl then Some (if is_auto_start fl then Started c else x) else None
  | NotConfigured =>
      let c := CounterState.mk 0 fl et ed in
      if is_skip_match fl then None else Some (if is_auto_start fl then Started c else Configured c)
  | Poisoned _ => None
  end.
Definition unit_result (r : result E unit) : result E Z := match r with Ok _ => Ok 0 | Err e => Err e end.
Definition starts (r : result E unit) : bool := match r with Ok _ | Err PmuError.AlreadyStarted => true | _ => false end.
Definition stops (fl : StopFlags) (r : result E unit) : bool :=
  match r with Ok _ => true | Err PmuError.AlreadyStopped => is_reset_flag fl | _ => false end.
(** Only the platform has changed. *)
Definition kept (s s' : St) : Prop := s'.1 = s.1 ∧ hcounteren s'.2 = hcounteren s.2.

Definition configure_spec (m idx : Z) (fl : ConfigFlags) (et : EventType) (ed : Z) (s : St) (r : result E Z) (s' : St) : Prop :=
  ∃ r0, sbi_configure idx m (platform_flags fl) et ed (platform s.2) = (r0, platform s'.2) ∧
    match r0 with
    | Err e => r = Err e ∧ kept s s'
    | Ok j =>
        if valid p j then
          match s.1 !! Z.to_nat j ≫= configure_step fl et ed with
          | Some x => r = Ok j ∧ s'.1 = <[Z.to_nat j := x]> s.1 ∧
                      hcounteren s'.2 = (if is_auto_start fl then Z.lor (hcounteren s.2) (bit_of j) else hcounteren s.2)
          | None => r = Err PmuError.InvalidParam ∧ kept s s'
          end
        else r = Err PmuError.NotSupported ∧ kept s s'
    end.
Definition start_spec (m idx : Z) (fl : StartFlags) (v : Z) (s : St) (r : result E Z) (s' : St) : Prop :=
  ∃ r0, sbi_start idx m fl v (platform s.2) = (r0, platform s'.2) ∧ r = unit_result r0 ∧
    if starts r0 then s'.1 = on_range m idx (λ _, start_step) s.1 ∧
                      opens (range_sel m idx VmPmuState.is_configured) s.1 (hcounteren s.2) (hcounteren s'.2)
    else kept s s'.
Definition stop_spec (m idx : Z) (fl : StopFlags) (s : St) (r : result E Z) (s' : St) : Prop :=
  ∃ r0, sbi_stop idx m fl (platform s.2) = (r0, platform s'.2) ∧ r = unit_result r0 ∧
    if stops fl r0 then
      s'.1 = on_range m idx (λ i, stop_step (is_reset_flag fl) (hpmcounter (reg i) (platform s'.2))) s.1 ∧
      closes (range_sel m idx (λ x, is_reset_flag fl && VmPmuState.in_use x)) s.1 (hcounteren s.2) (hcounteren s'.2)
    else kept s s'.
(** A call is refused, without any effect, unless its mask and the state of its
    counters allow it. *)
Definition guarded (idx mask : Z) (allowed : Z → Prop) (go : Z → result E Z → St → Prop) (s : St) (r : result E Z) (s' : St) : Prop :=
  match PmuInfo.filter_counter_mask p idx mask with
  | Err e => r = Err e ∧ s' = s
  | Ok m => (¬ allowed m ∧ r = Err PmuError.InvalidParam ∧ s' = s) ∨ (allowed m ∧ go m r s')
  end.
Definition call_spec (f : VmPmuState.PmuFunction) (s : St) (r : result E Z) (s' : St) : Prop :=
  match f with
  | VmPmuState.GetNumCounters => r = Ok (PmuInfo.get_num_counters p) ∧ s' = s
  | VmPmuState.GetCounterInfo i =>
      r = match PmuInfo.get_counter_info p i with Ok info => Ok (info_raw info) | Err e => Err e end ∧ s' = s
  | VmPmuState.ReadFirmwareCounter _ => r = Err PmuError.NotSupported ∧ s' = s
  | VmPmuState.ConfigureMatchingCounters idx mask fl et ed =>
      guarded idx mask (λ m, if is_skip_match fl then ∃ x, s.1 !! Z.to_nat idx = Some x ∧ VmPmuState.in_use x = true
                             else some_in m idx VmPmuState.is_not_configured s.1) (λ m, configure_spec m idx fl et ed s) s r s'
  | VmPmuState.StartCounters idx mask fl v =>
      guarded idx mask (λ m, some_in m idx VmPmuState.is_configured s.1) (λ m, start_spec m idx fl v s) s r s'
  | VmPmuState.StopCounters idx mask fl => guarded idx mask (λ _, True) (λ m, stop_spec m idx fl s) s r s'
  end.
(** The words of a call; its counters do not wrap around. *)
Definition call_ok (f : VmPmuState.PmuFunction) : Prop :=
  match f with
  | VmPmuState.ConfigureMatchingCounters idx mask _ _ _ | VmPmuState.StartCounters idx mask _ _
  | VmPmuState.StopCounters idx mask _ => no_wrap idx ∧ u64 mask
  | _ => True
  end.
Lemma ends_sbi {A} (call : F → result E A * F) (s : St) (Q : result E A → St → Prop) :
  (∀ r f, call (platform s.2) = (r, f) → Q r (s.1, Cpu (hcounteren s.2) f)) → ends (VmPmuState.sbi call) s Q.
Proof.
  intros HQ. unfold VmPmuState.sbi. destruct (call (platform s.2)) as [r f] eqn:Hc.
  exists r, (s.1, Cpu (hcounteren s.2) f). split; [by rewrite Hc|]. by apply HQ.
Qed.

Section calls.
Variable st : list X.
Variable h : Z.
Variable P : F.
Hypothesis Hst : pmu_inv st.
Hypothesis Hh : u64 h.
Local Notation s := ((st, Cpu h P) : St).

Lemma update_configured_spec j fl et ed (P' : F) :
  u64 j → ends (VmPmuState.update_configured_counter (Some p) j fl et ed) (st, Cpu h P') (λ r s',
    platform s'.2 = P' ∧
    if valid p j then
      match st !! Z.to_nat j ≫= configure_step fl et ed with
      | Some x => r = Ok tt ∧ s'.1 = <[Z.to_nat j := x]> st ∧ hcounteren s'.2 = (if is_auto_start fl then Z.lor h (bit_of j) else h)
      | None => r = Err PmuError.InvalidParam ∧ s'.1 = st ∧ hcounteren s'.2 = h
      end
    else r = Err PmuError.NotSupported ∧ s'.1 = st ∧ hcounteren s'.2 = h).
Proof.
  intros Hj. unfold VmPmuState.update_configured_counter. apply ends_bind, ends_lift. cbn. apply ends_bind, ends_lift.
  unfold u64 in Hj. pose proof (info_valid j ltac:(lia)) as Hv. destruct (PmuInfo.get_counter_info p j) as [info|e]; cbn in Hv |- *; rewrite <- Hv; [|done].
  symmetry in Hv. pose proof (valid_lt p j Hp Hv) as Hlt. destruct Hst as [Hlen _]. unfold MAX_HARDWARE_COUNTERS in *.
  destruct (lookup_lt_is_Some_2 st (Z.to_nat j)) as [x Hx]; [lia|]. apply ends_bind.
  eexists _, _. split; [by apply counter_state_eq|]. rewrite Hx. cbn [mbind option_bind].
  destruct x as [|c|c|c]; cbn [configure_step].
  - destruct (is_skip_match fl); cbn [negb]; [by apply ends_err|]. destruct (is_auto_start fl).
    + apply ends_bind, ends_bind. eexists _, _. split; [by apply set_hcounteren_valid|]. by apply ends_ret, ends_modify.
    + apply ends_bind, ends_ret. by apply ends_modify.
  - destruct (is_skip_match fl); [|by apply ends_err]. destruct (is_auto_start fl).
    + apply ends_bind. eexists _, _. split; [by apply set_hcounteren_valid|]. by apply ends_modify.
    + apply ends_ret. by rewrite list_insert_id.
  - destruct (is_skip_match fl); [|by apply ends_err]. destruct (is_auto_start fl).
    + apply ends_bind. eexists _, _. split; [by apply set_hcounteren_valid|]. by apply ends_modify.
    + apply ends_ret. by rewrite list_insert_id.
  - by apply ends_err.
Qed.
Lemma start_counters_spec idx mask fl v :
  no_wrap idx → u64 mask →
  ends (VmPmuState.start_counters (Some p) idx mask fl v) s (λ r s',
    guarded idx mask (λ m, some_in m idx VmPmuState.is_configured st) (λ m, start_spec m idx fl v s) s (unit_result r) s').
Proof.
  intros Hidx Hmask. unfold VmPmuState.start_counters, guarded. apply ends_bind.
  unfold VmPmuState.get_startable_counter_range. apply ends_bind, ends_lift. cbn. apply ends_bind, ends_lift.
  destruct (PmuInfo.filter_counter_mask p idx mask) as [m|e] eqn:Hm; [|done]. destruct Hst as [Hlen _].
  destruct (any_counter_spec idx mask m Hmask Hidx Hm st Hlen VmPmuState.is_configured (Cpu h P)) as (found & Hf & Hiff).
  apply ends_bind. eexists _, _. split; [exact Hf|]. destruct found.
  - apply ends_ret, ends_bind, ends_attempt, ends_sbi. cbn [fst snd hcounteren platform]. intros r0 P' Hcall. apply ends_bind.
    assert (ends (match r0 with Ok _ | Err PmuError.AlreadyStarted => VmPmuState.update_started_counters (Some p) idx m | Err _ => mret tt end)
      (st, Cpu h P') (λ r s', r = Ok tt ∧ platform s'.2 = P' ∧ if starts r0 then s'.1 = on_range m idx (λ _, start_step) st ∧
                      opens (range_sel m idx VmPmuState.is_configured) st h (hcounteren s'.2) else kept s s')) as Hup.
    { pose proof (update_started_spec idx mask m Hmask Hidx Hm st Hlen h P' Hh) as Hspec.
      destruct r0 as [|[]]; cbn [starts]; try (by apply ends_ret); (eapply ends_impl; [exact Hspec|]); naive_solver. }
    eapply ends_impl; [exact Hup|]. intros r s' (-> & HP & Hpost). apply ends_lift. right. split; [by apply Hiff|].
    exists r0. cbn [fst snd hcounteren platform]. rewrite HP. by split.
  - apply ends_err. left. split; [|done]. intros Hs. by apply Hiff in Hs.
Qed.
Lemma stop_counters_spec idx mask fl :
  no_wrap idx → u64 mask →
  ends (VmPmuState.stop_counters (Some p) idx mask fl) s (λ r s',
    guarded idx mask (λ _, True) (λ m, stop_spec m idx fl s) s (unit_result r) s').
Proof.
  intros Hidx Hmask. unfold VmPmuState.stop_counters, guarded. apply ends_bind.
  unfold VmPmuState.get_stoppable_counter_range. apply ends_bind, ends_lift. cbn. apply ends_lift.
  destruct (PmuInfo.filter_counter_mask p idx mask) as [m|e] eqn:Hm; [|done]. destruct Hst as [Hlen _].
  apply ends_bind, ends_attempt, ends_sbi. cbn [fst snd hcounteren platform]. intros r0 P' Hcall. apply ends_bind.
  assert (ends (if stops fl r0 then VmPmuState.update_stopped_counters (Some p) idx m fl else mret tt)
    (st, Cpu h P') (λ r s', r = Ok tt ∧ platform s'.2 = P' ∧ if stops fl r0 then
        s'.1 = on_range m idx (λ i, stop_step (is_reset_flag fl) (hpmcounter (reg i) P')) st ∧
        closes (range_sel m idx (λ x, is_reset_flag fl && VmPmuState.in_use x)) st h (hcounteren s'.2) else kept s s')) as Hup.
  { destruct (stops fl r0); [|by apply ends_ret].
    eapply ends_impl; [exact (update_stopped_spec idx mask m Hmask Hidx Hm st Hlen fl h P' Hh)|]. naive_solver. }
  eapply ends_impl; [exact Hup|]. intros r s' (-> & HP & Hpost). apply ends_lift. right. split; [done|].
  exists r0. cbn [fst snd hcounteren platform]. rewrite HP. by split.
Qed.
Lemma configure_counters_spec `{!PlatformWords} idx mask fl et ed :
  no_wrap idx → u64 mask →
  ends (VmPmuState.configure_matching_counters (Some p) idx mask fl et ed) s
    (call_spec (VmPmuState.ConfigureMatchingCounters idx mask fl et ed) s).
Proof.
  intros Hidx Hmask. unfold call_spec, VmPmuState.configure_matching_counters, guarded. apply ends_bind.
  unfold VmPmuState.get_configurable_counter_range. apply ends_bind, ends_lift. cbn. apply ends_bind, ends_lift.
  destruct (PmuInfo.filter_counter_mask p idx mask) as [m|e] eqn:Hm; [|done]. destruct Hst as [Hlen _].
  set (allowed := if is_skip_match fl then _ else _).
  assert (∀ Q : result E Z → St → Prop, (allowed → Q (Ok m) s) → (¬ allowed → Q (Err PmuError.InvalidParam) s) →
    ends (if negb (is_skip_match fl) then
            found ← VmPmuState.any_counter VmPmuState.is_not_configured idx m;
            if found : bool then mret m else err PmuError.InvalidParam
          else
            state ← gets (λ s, s.1 !! Z.to_nat idx) ≫= λ o, lift (ok_or o PmuError.InvalidParam);
            if VmPmuState.in_use state then mret m else err PmuError.InvalidParam) s Q) as Hguard.
  { intros Q Hyes Hno. unfold allowed in *. destruct (is_skip_match fl); cbn [negb].
    - apply ends_bind, ends_bind, ends_gets, ends_lift. cbn [fst]. destruct (st !! Z.to_nat idx) as [x|]; cbn.
      + destruct (VmPmuState.in_use x) eqn:Hu; [apply ends_ret, Hyes; eauto|apply ends_err, Hno]. intros (y & [= ->] & ?). congruence.
      + apply Hno. by intros (y & ? & _).
    - destruct (any_counter_spec idx mask m Hmask Hidx Hm st Hlen VmPmuState.is_not_configured (Cpu h P)) as (found & Hf & Hiff).
      apply ends_bind. eexists _, _. split; [exact Hf|]. destruct found; [by apply ends_ret, Hyes, Hiff|]. apply ends_err, Hno. intros Hs. by apply Hiff in Hs. }
  apply Hguard; [|intros Hno; by left]. intros Hyes. apply ends_bind, ends_sbi. cbn [fst snd hcounteren platform]. intros r0 P' Hcall.
  destruct r0 as [j|e].
  - apply ends_bind. eapply ends_impl; [apply (update_configured_spec j fl et ed P'); by eapply configure_word|].
    intros r s' [HP Hpost]. assert (∀ r', (match r with Ok _ => r' = Ok j | Err e => r' = Err e end) →
      (¬ allowed ∧ r' = Err PmuError.InvalidParam ∧ s' = s) ∨ (allowed ∧ configure_spec m idx fl et ed s r' s')) as Hgoal.
    { intros r' Hr'. right. split; [done|]. exists (Ok j). cbn [fst snd hcounteren platform]. rewrite HP. split; [done|].
      unfold kept. cbn [fst snd hcounteren]. destruct (valid p j); [|by destruct Hpost as (-> & -> & ->)].
      destruct (st !! Z.to_nat j ≫= configure_step fl et ed); [destruct Hpost as (-> & -> & ->)|destruct Hpost as (-> & -> & ->)]; done. }
    destruct r as [[]|e]; [apply ends_ret|]; by apply Hgoal.
  - right. split; [done|]. exists (Err e). by cbn.
Qed.
End calls.

(** *** What the calls keep *)
(** Besides the time the vCPU can read only counters that it has configured. *)
Definition reads_own (s : St) : Prop :=
  ∀ b, 0 ≤ b → Z.testbit (hcounteren s.2) b = true →
    b = 1 ∨ ∃ k x, s.1 !! k = Some x ∧ VmPmuState.in_use x = true ∧ reg (Z.of_nat k) = b.
Record pmu_good (s : St) : Prop := {
  good_counters : pmu_inv s.1;
  good_word : u64 (hcounteren s.2);
  good_reads : reads_own s
}.
Lemma on_range_lookup m idx f st k :
  on_range m idx f st !! k = (λ x, if mask_bit m idx (Z.of_nat k) then f (Z.of_nat k) x else x) <$> st !! k.
Proof. unfold on_range. rewrite list_lookup_imap. by destruct (st !! k). Qed.
Lemma pmu_inv_range m idx f st :
  (∀ i, f i NotConfigured = NotConfigured) → pmu_inv st → pmu_inv (on_range m idx f st).
Proof.
  intros Hf [Hlen Hv]. split; [unfold on_range; by rewrite length_imap|]. intros k y Hy Hne. rewrite on_range_lookup in Hy.
  destruct (st !! k) as [x|] eqn:Hx; [|done]. injection Hy as <-. apply (Hv k x Hx). intros ->. apply Hne. rewrite Hf. by destruct (mask_bit _ _ _).
Qed.
Lemma good_kept s s' : pmu_good s → kept s s' → pmu_good s'.
Proof.
  intros [Hc Hw Hr] [Hst Hh]. split; [by rewrite Hst|by rewrite Hh|]. intros b Hb. rewrite Hst, Hh. by apply Hr.
Qed.
Lemma good_start m idx fl v s r s' : pmu_good s → start_spec m idx fl v s r s' → pmu_good s'.
Proof.
  intros Hg (r0 & _ & _ & Hpost). destruct (starts r0); [|by eapply good_kept]. destruct Hg as [Hc Hw Hr]. destruct Hpost as (Hst & Hu & Hb).
  split; [rewrite Hst; by apply pmu_inv_range|done|]. intros b Hb0 Ht. rewrite Hst.
  apply Hb in Ht as [Ht|(k & x & Hx & [Hm Hs]%andb_true_iff & Hreg)]; [|right|done].
  - destruct (Hr b Hb0 Ht) as [->|(k & x & Hx & Hu' & Hreg)]; [by left|right]. exists k. eexists. rewrite on_range_lookup, Hx.
    split; [done|]. split; [|done]. destruct (mask_bit _ _ _); [by destruct x|done].
  - exists k. eexists. rewrite on_range_lookup, Hx. split; [done|]. split; [|done]. rewrite Hm. by destruct x.
Qed.
Lemma good_stop m idx fl s r s' : pmu_good s → stop_spec m idx fl s r s' → pmu_good s'.
Proof.
  intros Hg (r0 & _ & _ & Hpost). destruct (stops fl r0); [|by eapply good_kept]. destruct Hg as [Hc Hw Hr]. destruct Hpost as (Hst & Hu & Hb).
  split; [rewrite Hst; by apply pmu_inv_range|done|]. intros b Hb0 Ht. rewrite Hst. apply Hb in Ht as [Ht Hnot]; [|done].
  destruct (Hr b Hb0 Ht) as [->|(k & x & Hx & Hu' & Hreg)]; [by left|right]. exists k. eexists. rewrite on_range_lookup, Hx.
  split; [done|]. split; [|done]. destruct (mask_bit m idx (Z.of_nat k)) eqn:Hm; [|done].
  destruct (is_reset_flag fl) eqn:Hf; [exfalso|by destruct x].
  apply Hnot. exists k, x. unfold range_sel. by rewrite Hm, Hu'.
Qed.
Lemma good_configure m idx fl et ed s r s' : pmu_good s → configure_spec m idx fl et ed s r s' → pmu_good s'.
Proof.
  intros Hg (r0 & _ & Hpost). destruct r0 as [j|e]; [|destruct Hpost; by eapply good_kept].
  destruct (valid p j) eqn:Hv; [|destruct Hpost; by eapply good_kept].
  destruct (s.1 !! Z.to_nat j) as [x|] eqn:Hx; cbn [mbind option_bind] in Hpost; [|destruct Hpost; by eapply good_kept].
  destruct (configure_step fl et ed x) as [y|] eqn:Hy; [|destruct Hpost; by eapply good_kept].
  destruct Hpost as (-> & Hst & Hh). destruct Hg as [[Hlen Hval] Hw Hr]. pose proof (valid_lt p j Hp Hv) as Hj.
  assert (VmPmuState.in_use y = true) as Huse.
  { destruct x; cbn in Hy; destruct (is_skip_match fl), (is_auto_start fl); try done; by injection Hy as <-. }
  assert (<[Z.to_nat j := y]> s.1 !! Z.to_nat j = Some y) as Hyj by (apply list_lookup_insert_eq; by eapply lookup_lt_Some).
  split.
  - rewrite Hst. split; [by rewrite length_insert|]. intros k z Hz Hne. destruct (decide (k = Z.to_nat j)) as [->|Hkj].
    + by rewrite Z2Nat.id by lia.
    + rewrite list_lookup_insert_ne in Hz by done. by eapply Hval.
  - rewrite Hh. destruct (is_auto_start fl); [|done]. apply lor_u64; [done|]. by apply bit_of_spec.
  - intros b Hb Ht. rewrite Hst. assert (Z.testbit (hcounteren s.2) b = true ∨ reg j = b) as [Hold|Hnew].
    { rewrite Hh in Ht. destruct (is_auto_start fl); [|by left]. rewrite Z.lor_spec, orb_true_iff, (proj2 (bit_of_spec j b Hv)), Z.eqb_eq in Ht. naive_solver. }
    + destruct (Hr b Hb Hold) as [->|(k & z & Hz & Hu & Hreg)]; [by left|right].
      destruct (decide (k = Z.to_nat j)) as [->|Hkj]; [by exists (Z.to_nat j), y|]. exists k, z. by rewrite list_lookup_insert_ne by done.
    + right. exists (Z.to_nat j), y. by rewrite Z2Nat.id by lia.
Qed.
Lemma call_keeps_good f s r s' : pmu_good s → call_spec f s r s' → pmu_good s'.
Proof.
  intros Hg Hcall. destruct f as [|i|idx mask fl et ed|idx mask fl v|idx mask fl|i]; cbn [call_spec] in Hcall;
    [by destruct Hcall as [_ ->]..| | | |by destruct Hcall as [_ ->]];
    (unfold guarded in Hcall; destruct (PmuInfo.filter_counter_mask p idx mask) as [m|]; [|by destruct Hcall as [_ ->]];
     destruct Hcall as [(_ & _ & ->)|[_ Hgo]]; [done|]).
  - by eapply good_configure.
  - by eapply good_start.
  - by eapply good_stop.
Qed.
Lemma handle_pmu_msg_spec `{!PlatformWords} f s :
  pmu_good s → call_ok f → ends (VmPmuState.handle_pmu_msg (Some p) f) s (λ r s', call_spec f s r s' ∧ pmu_good s').
Proof.
  intros Hg Hok. eapply (ends_impl _ _ (call_spec f s)); [|intros r s' Hcall; split; [done|by eapply call_keeps_good]].
  destruct s as [st [h P]]. destruct Hg as [Hst Hh _]. cbn [fst snd hcounteren platform] in *.
  destruct f as [|i|idx mask fl et ed|idx mask fl v|idx mask fl|i]; cbn [VmPmuState.handle_pmu_msg call_ok] in *.
  - by apply ends_bind, ends_lift, ends_ret.
  - apply ends_bind, ends_lift. cbn. unfold call_spec. apply ends_bind, ends_lift. destruct (PmuInfo.get_counter_info p i); [by apply ends_ret|done].
  - destruct Hok. by apply configure_counters_spec.
  - destruct Hok. apply ends_bind. eapply ends_impl; [by apply start_counters_spec|]. intros [[]|e] s' Hpost; [by apply ends_ret|done].
  - destruct Hok. apply ends_bind. eapply ends_impl; [by apply stop_counters_spec|]. intros [[]|e] s' Hpost; [by apply ends_ret|done].
  - by apply ends_err.
Qed.

(** ** Context switches *)
Definition save_step (P : F) (i : Z) (x : X) : X :=
  match x with Started c => Started (CounterState.with_value (hpmcounter (reg i) P) c) | x => x end.
Definition saved (P : F) (st : list X) : list X := imap (λ k, save_step P (Z.of_nat k)) st.

Lemma saved_lookup P st k : saved P st !! k = save_step P (Z.of_nat k) <$> st !! k.
Proof. unfold saved. rewrite list_lookup_imap. by destruct (st !! k). Qed.
Lemma saved_in_use P i x : VmPmuState.in_use (save_step P i x) = VmPmuState.in_use x.
Proof. by destruct x. Qed.
Lemma save_loop_spec l acc st h (P : F) :
  NoDup l → Forall (ready (λ i x, VmPmuState.in_use x = true → valid p i = true) st) l →
  ∃ st', VmPmuState.save_loop (Some p) l acc (st, Cpu h P) =
      Returns (Ok (all_words (λ i x a, if VmPmuState.in_use x then Z.lor a (shl64 1 i) else a) l st acc), (st', Cpu h P)) ∧
    after (save_step P) l st st'.
Proof.
  revert st acc. induction l as [|i l IH]; intros st acc Hnd Hl; [exists st; by split; [|apply after_nil]|].
  apply list.Forall_cons in Hl as [[Hi (x & Hx & Hv)] Hl']. apply list.NoDup_cons in Hnd as [Hni Hnd].
  cbn [VmPmuState.save_loop]. rewrite (bind_ok _ _ _ _ _ (counter_state_eq i st _ x Hx)).
  set (acc1 := if VmPmuState.in_use x then Z.lor acc (shl64 1 i) else acc).
  destruct (IH (<[Z.to_nat i := save_step P i x]> st) acc1 Hnd) as (st' & Hrun & Hafter); [by apply ready_insert|].
  exists st'. split; [|by eapply after_cons]. rewrite all_words_insert in Hrun; [| |done..].
  2: { eapply list.Forall_impl; [exact Hl'|]. by intros j [? _]. }
  unfold all_words. cbn [fold_left]. rewrite Hx. fold acc1. etransitivity; [|exact Hrun].
  destruct (VmPmuState.in_use x) eqn:Hu; unfold acc1 in *.
  - destruct x; try done; cbn [save_step].
    + erewrite bind_ok by reflexivity. by rewrite list_insert_id.
    + erewrite bind_ok by (rewrite (bind_ok _ _ _ _ _ (read_counter_valid i st h P (Hv eq_refl))); reflexivity). done.
  - replace (save_step P i x) with x by (by destruct x). by rewrite list_insert_id.
Qed.
(** The counters that the loop of a save sees *)
Lemma all_ready st n :
  pmu_inv st → 0 ≤ n ≤ Z.of_nat MAX_HARDWARE_COUNTERS →
  Forall (ready (λ i x, VmPmuState.in_use x = true → valid p i = true) st) (seqZ 0 n).
Proof.
  intros [Hlen Hv] Hn. apply list.Forall_forall. intros i [??]%elem_of_seqZ. split; [lia|].
  destruct (lookup_lt_is_Some_2 st (Z.to_nat i)) as [x Hx]; [lia|]. exists x. split; [done|]. intros Hu.
  rewrite <- (Z2Nat.id i) by lia. apply (Hv _ _ Hx). by intros ->.
Qed.
Lemma in_use_lt st k x : pmu_inv st → st !! k = Some x → VmPmuState.in_use x = true → Z.of_nat k < PmuInfo.get_num_counters p.
Proof.
  intros [_ Hv] Hx Hu. unfold PmuInfo.get_num_counters. assert (valid p (Z.of_nat k) = true) as Hk by (apply (Hv k x Hx); by intros ->).
  apply (wf_valid p Hp) in Hk as [info Hinfo]. apply lookup_lt_Some in Hinfo. lia.
Qed.
Lemma num_counters_bound : 0 ≤ PmuInfo.get_num_counters p ≤ Z.of_nat MAX_HARDWARE_COUNTERS.
Proof. pose proof (wf_length p Hp). unfold PmuInfo.get_num_counters. lia. Qed.
(** What a save does: the values of the started counters are kept, and the platform is
    asked to reset all counters in use. *)
Lemma save_counters_spec st h (P : F) :
  pmu_inv st → ∃ P' m, VmPmuState.save_counters (Some p) (st, Cpu h P) = Returns (Ok tt, (saved P st, Cpu h P')) ∧
    u64 m ∧ (∀ i, 0 ≤ i → Z.testbit m i = true ↔ ∃ x, st !! Z.to_nat i = Some x ∧ VmPmuState.in_use x = true) ∧
    P' = (if m =? 0 then P else (sbi_stop 0 m (set_reset_flag default_stop) P).2).
Proof.
  intros Hst. pose proof num_counters_bound as Hn. unfold VmPmuState.save_counters. cbn [VmPmuState.get ok_or]. rewrite Z.min_l by lia.
  destruct (save_loop_spec (seqZ 0 (PmuInfo.get_num_counters p)) 0 st h P (NoDup_seqZ _ _) (all_ready st _ Hst Hn)) as (st' & Hrun & Hlen & Hlook).
  rewrite (bind_ok _ _ _ _ _ Hrun). set (m := all_words _ _ _ _).
  assert (st' = saved P st) as ->.
  { apply list_eq. intros k. rewrite Hlook, saved_lookup. destruct (decide _) as [|Hk]; [done|]. destruct (st !! k) as [x|] eqn:Hx; [|done].
    cbn. f_equal. destruct (VmPmuState.in_use x) eqn:Hu; [|by destruct x]. destruct Hk. apply elem_of_seqZ.
    pose proof (in_use_lt st k x Hst Hx Hu). lia. }
  assert (m = all_words (λ i x a, if VmPmuState.in_use x then Z.lor a (Z.shiftl 1 i) else a) (seqZ 0 (PmuInfo.get_num_counters p)) st 0) as Hm.
  { apply all_words_ext. intros i x a [??]%elem_of_seqZ. unfold MAX_HARDWARE_COUNTERS in Hn. by rewrite shl64_bit, <- Z.shiftl_1_l by lia. }
  destruct (all_words_set id VmPmuState.in_use (seqZ 0 (PmuInfo.get_num_counters p)) st 0) as [Hu Hb].
  { apply list.Forall_forall. intros i Hi. pose proof (proj1 (elem_of_seqZ _ _ _) Hi). split; [unfold id, MAX_HARDWARE_COUNTERS in *; lia|].
    destruct (proj1 (list.Forall_forall _ _) (all_ready st _ Hst Hn) i Hi) as [_ (x & Hx & _)]. by exists x. }
  { unfold u64. lia. }
  exists (if m =? 0 then P else (sbi_stop 0 m (set_reset_flag default_stop) P).2), m. split; [|split; [by rewrite Hm|split; [|done]]].
  - unfold VmPmuState.reset_all_counters. destruct (m =? 0); cbn [negb]; [done|].
    unfold attempt, mbind, M_bind, VmPmuState.stop_counters_internal, VmPmuState.sbi. cbn [fst snd platform hcounteren].
    destruct (sbi_stop 0 m (set_reset_flag default_stop) P) as [[|[]] P']; done.
  - intros i Hi. rewrite Hm. etransitivity; [by apply Hb|]. rewrite Z.bits_0. split.
    + intros [?|(j & x & _ & Hx & Hs & <-)]; [done|]. by exists x.
    + intros (x & Hx & Hs). right. exists i, x. split; [|done]. apply elem_of_seqZ.
      pose proof (in_use_lt st _ x Hst Hx Hs). lia.
Qed.

(** *** A platform that does what the SBI specification says *)
Class PlatformLaws := {
  hw_event : Z → F → option (ConfigFlags * EventType * Z);
  hw_running : Z → F → bool;
  same_counter (i : Z) (f f' : F) : Prop :=
    hw_event i f' = hw_event i f ∧ hw_running i f' = hw_running i f ∧ hpmcounter (reg i) f' = hpmcounter (reg i) f;
  law_stop m f i : valid p i = true → Z.testbit m i = true →
    let f' := (sbi_stop 0 m (set_reset_flag default_stop) f).2 in hw_event i f' = None ∧ hw_running i f' = false;
  law_configure i fl et ed f : valid p i = true → is_auto_start fl = false →
    let '(r, f') := sbi_configure i 1 fl et ed f in
    (is_ok r = true → hw_event i f' = Some (fl, et, ed) ∧ hw_running i f' = hw_running i f) ∧
    ∀ j, valid p j = true → j ≠ i → same_counter j f f';
  law_start i v f : valid p i = true →
    let '(r, f') := sbi_start i 1 (set_init_value default_start) v f in
    (is_ok r = true → hw_event i f' = hw_event i f ∧ hw_running i f' = true ∧ hpmcounter (reg i) f' = v) ∧
    ∀ j, valid p j = true → j ≠ i → same_counter j f f';
  law_flags fl : is_auto_start (platform_flags (unset_clear_value (unset_skip_match (unset_auto_start fl)))) = false
}.
Section switch.
Context `{!PlatformLaws}.
Definition restart_event (c : CounterState.t) : ConfigFlags * EventType * Z :=
  (platform_flags (unset_clear_value (unset_skip_match (unset_auto_start (CounterState.config_flags c)))),
   CounterState.event_type c, CounterState.event_data c).
Definition unmapped (i : Z) (P : F) : Prop := hw_event i P = None ∧ hw_running i P = false.
(** The counter is on the platform as the vCPU has it. *)
Definition resumed (i : Z) (x : X) (h : Z) (P : F) : Prop :=
  match x with
  | Started c => hw_event i P = Some (restart_event c) ∧ hw_running i P = true ∧
                 hpmcounter (reg i) P = CounterState.value c ∧ Z.testbit h (reg i) = true
  | Configured c => hw_event i P = Some (restart_event c) ∧ hw_running i P = false
  | _ => True
  end.
(** The platform refuses to configure or to start the counter. *)
Definition refused (i : Z) (c : CounterState.t) : Prop := ∃ (f : F) e,
  (sbi_configure i 1 (restart_event c).1.1 (restart_event c).1.2 (restart_event c).2 f).1 = Err e ∨
  (sbi_start i 1 (set_init_value default_start) (CounterState.value c) f).1 = Err e.
(** A counter [x] of the vCPU and what it is after it was restored. *)
Definition restored (i : Z) (x y : X) (h : Z) (P : F) : Prop :=
  y = x ∧ resumed i x h P ∨
  ∃ c, (x = Started c ∨ x = Configured c) ∧ y = Poisoned c ∧ refused i c.
Definition grows (h h' : Z) : Prop := ∀ b, Z.testbit h b = true → Z.testbit h' b = true.
Lemma resumed_frame i x h h' P P' : resumed i x h P → same_counter i P P' → grows h h' → resumed i x h' P'.
Proof.
  intros Hx (He & Hr & Hv) Hg. destruct x as [|c|c|c]; cbn in *; [done| | |done].
  - by rewrite He, Hr.
  - destruct Hx as (? & ? & ? & ?). rewrite He, Hr, Hv. auto.
Qed.
Lemma sbi_run {A} (call : F → result E A * F) st h P r P' :
  call P = (r, P') → VmPmuState.sbi call (st, Cpu h P) = Returns (r, (st, Cpu h P')).
Proof. intros Hc. unfold VmPmuState.sbi. cbn [fst snd platform hcounteren]. by rewrite Hc. Qed.
Lemma attempt_ok {A} (m : M St E A) s a s' : m s = Returns (Ok a, s') → attempt m s = Returns (Ok (Ok a), s').
Proof. intros Hm. unfold attempt. by rewrite Hm. Qed.
Lemma restored_frame i x y h h' P P' : restored i x y h P → same_counter i P P' → grows h h' → restored i x y h' P'.
Proof. intros [[-> Hx]|Hx] Hs Hg; [|by right]. left. split; [done|]. by eapply resumed_frame. Qed.
Lemma same_counter_refl i P : same_counter i P P.
Proof. by split_and!. Qed.
Lemma same_counter_trans i P P' P'' : same_counter i P P' → same_counter i P' P'' → same_counter i P P''.
Proof. intros (? & ? & ?) (? & ? & ?). split_and!; congruence. Qed.
(** Configuring and perhaps starting one counter. *)
Lemma reconfigure_spec i c (start : bool) st h (P : F) :
  valid p i = true → hw_running i P = false →
  ∃ r h' P', attempt (VmPmuState.configure_counter i c;; if start then VmPmuState.resume_counter (Some p) i c else mret tt) (st, Cpu h P)
      = Returns (Ok r, (st, Cpu h' P')) ∧
    match r with
    | Ok _ => resumed i (if start then Started c else Configured c) h' P'
    | Err _ => refused i c
    end ∧ (∀ j, valid p j = true → j ≠ i → same_counter j P P') ∧ grows h h'.
Proof.
  intros Hv Hr. pose proof (law_configure i (restart_event c).1.1 (restart_event c).1.2 (restart_event c).2 P Hv (law_flags _)) as Hlaw.
  destruct (sbi_configure i 1 (restart_event c).1.1 (restart_event c).1.2 (restart_event c).2 P) as [r P1] eqn:Hc.
  destruct Hlaw as [Hok Hsame1].
  assert (VmPmuState.configure_counter i c (st, Cpu h P) = Returns (r, (st, Cpu h P1))) as Hrun by (by apply sbi_run).
  destruct r as [i'|e]; cycle 1.
  { exists (Err e), h, P1. unfold attempt. rewrite (bind_err _ _ _ _ _ Hrun). split_and!; [done| |done|by intros b].
    exists P, e. left. by rewrite Hc. }
  destruct (Hok eq_refl) as [He1 Hr1]. destruct start; cycle 1.
  { exists (Ok tt), h, P1. unfold attempt. rewrite (bind_ok _ _ _ _ _ Hrun). split_and!; [done| |done|by intros b].
    cbn. by rewrite He1, Hr1. }
  pose proof (law_start i (CounterState.value c) P1 Hv) as Hlaw. destruct (sbi_start i 1 _ _ P1) as [r P2] eqn:Hst.
  destruct Hlaw as [Hok2 Hsame2].
  assert (∀ j, valid p j = true → j ≠ i → same_counter j P P2) as Hsame by (intros; eapply same_counter_trans; eauto).
  destruct r as [[]|e]; cycle 1.
  { exists (Err e), h, P2. unfold attempt, VmPmuState.resume_counter. rewrite (bind_ok _ _ _ _ _ Hrun).
    erewrite bind_err by (by apply sbi_run). split_and!; [done| |done|by intros b]. exists P1, e. right. by rewrite Hst. }
  destruct (Hok2 eq_refl) as (He2 & Hr2 & Hval).
  exists (Ok tt), (Z.lor h (bit_of i)), P2. unfold attempt, VmPmuState.resume_counter. rewrite (bind_ok _ _ _ _ _ Hrun).
  erewrite bind_ok by (by apply sbi_run). rewrite set_hcounteren_valid by done. split_and!; [done| |done|].
  - cbn. rewrite He2, He1, Hr2, Z.lor_spec, (proj2 (bit_of_spec i (reg i) Hv)), Z.eqb_refl, orb_true_r. done.
  - intros b Hb. by rewrite Z.lor_spec, Hb.
Qed.
Lemma restore_counter_spec i x st h (P : F) :
  st !! Z.to_nat i = Some x → (VmPmuState.in_use x = true → valid p i = true ∧ hw_running i P = false) →
  ∃ y h' P', VmPmuState.restore_counter (Some p) i (st, Cpu h P) = Returns (Ok tt, (<[Z.to_nat i := y]> st, Cpu h' P')) ∧
    restored i x y h' P' ∧ (∀ j, valid p j = true → j ≠ i → same_counter j P P') ∧ grows h h'.
Proof.
  intros Hx Hu. unfold VmPmuState.restore_counter. rewrite (bind_ok _ _ _ _ _ (counter_state_eq i st _ x Hx)).
  assert (Huse : ∀ c (start : bool), x = (if start then Started c else Configured c) →
    ∃ y h' P', (result ← attempt (VmPmuState.configure_counter i c;; if start then VmPmuState.resume_counter (Some p) i c else mret tt);
                match result with Err _ => VmPmuState.set_counter_state i (Poisoned c) | Ok _ => mret tt end) (st, Cpu h P)
      = Returns (Ok tt, (<[Z.to_nat i := y]> st, Cpu h' P')) ∧
    restored i x y h' P' ∧ (∀ j, valid p j = true → j ≠ i → same_counter j P P') ∧ grows h h').
  { intros c start E. destruct (reconfigure_spec i c start st h P) as (r & h' & P' & Hrun & Hr & Hsame & Hg);
      [by apply Hu; rewrite E; destruct start..|]. rewrite (bind_ok _ _ _ _ _ Hrun). destruct r as [[]|e].
    - exists x, h', P'. rewrite list_insert_id by done. split_and!; [done|left; by rewrite E|done..].
    - exists (Poisoned c), h', P'. split_and!; [done|right; exists c; split_and!; [rewrite E; destruct start; by auto|done..]|done..]. }
  destruct x as [|c|c|c]; [|apply (Huse c false eq_refl)|apply (Huse c true eq_refl)|];
    (eexists _, h, P; rewrite list_insert_id by done; split_and!; [done|by left|by intros; apply same_counter_refl|by intros b]).
Qed.
Lemma restore_loop_spec l st h (P : F) :
  NoDup l → Forall (ready (λ i x, VmPmuState.in_use x = true → valid p i = true ∧ hw_running i P = false) st) l →
  ∃ st' h' P', for_each l (VmPmuState.restore_counter (Some p)) (st, Cpu h P) = Returns (Ok tt, (st', Cpu h' P')) ∧
    length st' = length st ∧
    (∀ k x, st !! k = Some x → Z.of_nat k ∈ l → (VmPmuState.in_use x = true → valid p (Z.of_nat k) = true) →
       ∃ y, st' !! k = Some y ∧ restored (Z.of_nat k) x y h' P') ∧
    (∀ k, Z.of_nat k ∉ l → st' !! k = st !! k) ∧
    (∀ j, valid p j = true → j ∉ l → same_counter j P P') ∧ grows h h'.
Proof.
  revert st h P. induction l as [|i l IH]; intros st h P Hnd Hl.
  { exists st, h, P. split_and!; [done|done|by intros k x _ Hi%elem_of_nil|done|by intros; apply same_counter_refl|by intros b]. }
  apply list.Forall_cons in Hl as [[Hi (x & Hx & Hu)] Hl']. apply list.NoDup_cons in Hnd as [Hni Hnd].
  destruct (restore_counter_spec i x st h P Hx Hu) as (y & h1 & P1 & Hrun1 & Hres1 & Hsame1 & Hg1).
  assert (Hne : ∀ k, Z.of_nat k ≠ i → <[Z.to_nat i := y]> st !! k = st !! k) by (intros k Hk; apply list_lookup_insert_ne; lia).
  destruct (IH (<[Z.to_nat i := y]> st) h1 P1 Hnd) as (st' & h2 & P2 & Hrun2 & Hlen & Hres2 & Hst & Hsame2 & Hg2).
  { apply list.Forall_forall. intros j Hj. destruct (proj1 (list.Forall_forall _ _) Hl' j Hj) as [Hj0 (z & Hz & Huz)].
    split; [done|]. assert (j ≠ i) by (by intros ->). exists z. split; [rewrite list_lookup_insert_ne; [done|lia]|].
    intros Hzu. destruct (Huz Hzu) as [Hv Hr]. split; [done|]. destruct (Hsame1 j Hv) as (_ & Hr1 & _); [done|]. congruence. }
  exists st', h2, P2. cbn [for_each]. rewrite (bind_ok _ _ _ _ _ Hrun1). rewrite length_insert in Hlen. split_and!; [done|done|..].
  - intros k z Hz [E|Hk]%elem_of_cons Hval.
    + exists y. subst i. rewrite Nat2Z.id in *. rewrite Hst by done. assert (z = x) as -> by congruence.
      split; [apply list_lookup_insert_eq; by eapply lookup_lt_Some|]. destruct Hres1 as [[-> Hr]|Hr]; [|by right]. left. split; [done|].
      destruct (VmPmuState.in_use x) eqn:Hux; [|by destruct x]. eapply resumed_frame; [exact Hr|by apply Hsame2; auto|done].
    + apply Hres2; [|done|done]. rewrite Hne; [done|]. by intros <-.
  - intros k [Hk1 Hk2]%not_elem_of_cons. rewrite Hst by done. by apply Hne.
  - intros j Hv [Hj1 Hj2]%not_elem_of_cons. eapply same_counter_trans; eauto.
  - intros b Hb. by apply Hg2, Hg1.
Qed.
Lemma restore_counters_spec st h (P : F) :
  pmu_inv st → (∀ k x, st !! k = Some x → VmPmuState.in_use x = true → hw_running (Z.of_nat k) P = false) →
  ∃ st' h' P', VmPmuState.restore_counters (Some p) (st, Cpu h P) = Returns (Ok tt, (st', Cpu h' P')) ∧
    length st' = length st ∧ ∀ k x, st !! k = Some x → ∃ y, st' !! k = Some y ∧ restored (Z.of_nat k) x y h' P'.
Proof.
  intros Hst Hun. pose proof num_counters_bound as Hn. unfold VmPmuState.restore_counters. cbn [VmPmuState.get ok_or].
  destruct (restore_loop_spec (seqZ 0 (PmuInfo.get_num_counters p)) st h P (NoDup_seqZ _ _)) as (st' & h' & P' & Hrun & Hlen & Hres & Hrest & _).
  { apply list.Forall_forall. intros i Hi. destruct (proj1 (list.Forall_forall _ _) (all_ready st _ Hst Hn) i Hi) as [Hi0 (x & Hx & Hv)].
    split; [done|]. exists x. split; [done|]. intros Hu. split; [by apply Hv|]. rewrite <- (Z2Nat.id i) by lia. by eapply Hun. }
  exists st', h', P'. split_and!; [done..|]. intros k x Hx. destruct (VmPmuState.in_use x) eqn:Hu.
  - pose proof (in_use_lt st k x Hst Hx Hu). apply Hres; [done|apply elem_of_seqZ; lia|].
    intros _. destruct Hst as [_ Hv]. apply (Hv k x Hx). by intros ->.
  - destruct (decide (Z.of_nat k ∈ seqZ 0 (PmuInfo.get_num_counters p))) as [Hk|Hk]; [apply Hres; [done|done|by rewrite Hu]|].
    exists x. rewrite Hrest by done. split; [done|]. left. split; [done|]. by destruct x.
Qed.
End switch.

(** C23: The PMU calls of a guest.  Whatever the platform answers, a call whose counters
    do not wrap around returns and does what is specified: it is refused without any
    effect unless its mask and its counters allow it; otherwise the platform is asked
    once, with the mask of the implemented counters, and exactly the counters of the
    mask change their state.  The vCPU can read only the time and counters that it has
    configured. *)
Theorem pmu_calls_refine `{!PlatformWords} f s :
  pmu_good s → call_ok f →
  ∃ r s', VmPmuState.handle_pmu_msg (Some p) f s = Returns (r, s') ∧ call_spec f s r s' ∧ pmu_good s'.
Proof. apply handle_pmu_msg_spec. Qed.

(** C37: Counters stay readable for the next vCPU.  After a vCPU with a started counter
    was saved, the counter can still be read by a vCPU that is restored on the same
    CPU and has not configured any counter. *)
Theorem counters_stay_readable st h (P : F) k c :
  pmu_inv st → st !! k = Some (Started c) → Z.testbit h (reg (Z.of_nat k)) = true → reg (Z.of_nat k) ≠ 1 →
  ∃ P1, VmPmuState.save_counters (Some p) (st, Cpu h P) = Returns (Ok tt, (saved P st, Cpu h P1)) ∧
    VmPmuState.restore_counters (Some p) (VmPmuState.default, Cpu h P1) = Returns (Ok tt, (VmPmuState.default, Cpu h P1)) ∧
    ¬ reads_own (VmPmuState.default, Cpu h P1).
Proof.
  intros Hst Hk Hh Hne. destruct (save_counters_spec st h P Hst) as (P1 & _ & Hrun & _). exists P1. split; [done|].
  assert (∀ i x, VmPmuState.default !! i = Some x → x = NotConfigured) as Hdef by (intros i x Hx; by apply lookup_replicate_1 in Hx as [-> _]).
  split.
  - pose proof num_counters_bound as Hn. unfold VmPmuState.restore_counters. cbn [VmPmuState.get ok_or].
    assert (Forall (λ i, 0 ≤ i < 32) (seqZ 0 (PmuInfo.get_num_counters p))) as Hall.
    { apply list.Forall_forall. intros i [??]%elem_of_seqZ. unfold MAX_HARDWARE_COUNTERS in Hn. lia. }
    induction Hall as [|i l Hi _ IH]; [done|]. cbn [for_each]. erewrite bind_ok; [exact IH|].
    unfold VmPmuState.restore_counter. erewrite bind_ok by (apply counter_state_eq, lookup_replicate_2; unfold MAX_HARDWARE_COUNTERS; lia). done.
  - intros Hreads. destruct Hst as [_ Hv]. destruct (valid_info (Z.of_nat k)) as (_ & _ & _ & Hreg); [by apply (Hv k _ Hk)|].
    destruct (Hreads (reg (Z.of_nat k))) as [?|(j & x & Hx & Hu & _)]; [lia|done|done|]. by rewrite (Hdef j x Hx) in Hu.
Qed.
(** C36: A guest can stop the hypervisor.  The check of a counter mask adds the first
    counter and the length of the mask modulo 2^64; with counters that wrap around it
    is passed, and the index of the counter is then out of range. *)
Theorem wrapped_counter_index_panics st (c : cpu F) fl v :
  pmu_inv st → valid p 0 = true →
  VmPmuState.handle_pmu_msg (Some p) (VmPmuState.StartCounters (U64 - 64) (2 ^ 63 + 1) fl v) (st, c) = Panics.
Proof.
  intros [Hlen _] Hv. set (idx := U64 - 64). cbn [VmPmuState.handle_pmu_msg].
  assert (PmuInfo.filter_counter_mask p idx (2 ^ 63 + 1) = Ok 1) as Hf.
  { unfold PmuInfo.filter_counter_mask. change (wrap64 (PmuInfo.bit_length (2 ^ 63 + 1) + idx)) with 0.
    rewrite (proj2 (Z.ltb_ge _ 0)) by lia. f_equal. unfold shr64. change (idx mod 64) with 0. rewrite Z.shiftr_0_r.
    apply Z.bits_inj'. intros i Hi. rewrite Z.land_spec. change (2 ^ 63 + 1) with (Z.lor (2 ^ 63) (2 ^ 0)). replace (Z.testbit 1 i) with (Z.testbit (2 ^ 0) i) by done.
    rewrite Z.lor_spec, !Z.pow2_bits_eqb by lia. destruct (Z.eqb_spec 0 i) as [<-|]; [unfold valid in Hv; by rewrite Hv|].
    rewrite orb_false_r. destruct (Z.eqb_spec 63 i) as [<-|]; [|done]. cbn [andb]. destruct (Z.testbit _ 63) eqn:H63; [|done].
    pose proof (valid_lt p 63 Hp H63). unfold MAX_HARDWARE_COUNTERS in *. lia. }
  unfold VmPmuState.start_counters, VmPmuState.get_startable_counter_range, VmPmuState.any_counter.
  assert (CounterMaskIter.items (CounterMaskIter.new idx 1) = Returns [idx]) as Hitems by (by rewrite items_spec by (unfold u64; lia)).
  assert (VmPmuState.counter_state idx (st, c) = Panics) as Hpanic.
  { unfold VmPmuState.counter_state. cbn [fst]. rewrite (lookup_ge_None_2 st) by (rewrite Hlen; unfold MAX_HARDWARE_COUNTERS, idx; lia). done. }
  unfold mbind, M_bind, lift. cbn [VmPmuState.get ok_or]. rewrite Hf. unfold of_outcome at 1. rewrite Hitems.
  cbn [VmPmuState.find_counter]. unfold mbind, M_bind. by rewrite Hpanic.
Qed.
End pmu.

(** ** Example: a platform with 32 counters *)
Record example_flags := Flags {
  f_skip : bool; f_clear : bool; f_auto : bool; f_uinh : bool; f_sinh : bool; f_vuinh : bool; f_vsinh : bool; f_minh : bool
}.
#[local] Instance example_types : PmuTypes := {|
  ConfigFlags := example_flags; StartFlags := bool; StopFlags := bool; EventType := Z; CounterInfo := Z;
  is_skip_match := f_skip; is_auto_start := f_auto; is_uinh := f_uinh; is_sinh := f_sinh;
  set_vuinh f := Flags (f_skip f) (f_clear f) (f_auto f) (f_uinh f) (f_sinh f) true (f_vsinh f) (f_minh f);
  set_vsinh f := Flags (f_skip f) (f_clear f) (f_auto f) (f_uinh f) (f_sinh f) (f_vuinh f) true (f_minh f);
  set_sinh f := Flags (f_skip f) (f_clear f) (f_auto f) (f_uinh f) true (f_vuinh f) (f_vsinh f) (f_minh f);
  set_minh f := Flags (f_skip f) (f_clear f) (f_auto f) (f_uinh f) (f_sinh f) (f_vuinh f) (f_vsinh f) true;
  unset_auto_start f := Flags (f_skip f) (f_clear f) false (f_uinh f) (f_sinh f) (f_vuinh f) (f_vsinh f) (f_minh f);
  unset_skip_match f := Flags false (f_clear f) (f_auto f) (f_uinh f) (f_sinh f) (f_vuinh f) (f_vsinh f) (f_minh f);
  unset_clear_value f := Flags (f_skip f) false (f_auto f) (f_uinh f) (f_sinh f) (f_vuinh f) (f_vsinh f) (f_minh f);
  default_start := false; set_init_value _ := true; default_stop := false; set_reset_flag _ := true; is_reset_flag b := b;
  get_csr i := i; is_firmware_counter _ := false; info_raw i := i
|}.
Record example_counter := Counter { ev : option (example_flags * Z * Z); running : bool; count : Z }.
Definition update_counter (i : Z) (c : example_counter) (f : Z → example_counter) : Z → example_counter :=
  λ j, if j =? i then c else f j.
#[local] Instance example_platform : Platform (Z → example_counter) := {|
  sbi_get_num_counters f := (Ok 32, f);
  sbi_get_counter_info i f := (Ok (CSR_CYCLE + i), f);
  sbi_configure idx m fl et ed f :=
    if Z.testbit m 0 && negb (bool_decide (is_Some (ev (f idx)))) then
      (Ok (wrap64 idx), update_counter idx (Counter (Some (fl, et, ed)) (running (f idx) || f_auto fl) (count (f idx))) f)
    else (Err PmuError.InvalidParam, f);
  sbi_start idx m fl v f :=
    if Z.testbit m 0 then (Ok tt, update_counter idx (Counter (ev (f idx)) true (if fl then v else count (f idx))) f)
    else (Err PmuError.InvalidParam, f);
  sbi_stop idx m fl f :=
    (Ok tt, λ i, if Z.testbit m (i - idx) then Counter (if fl then None else ev (f i)) false (count (f i)) else f i);
  hpmcounter r f := count (f r)
|}.
Definition example_info : PmuInfo.t := PmuInfo.mk (map (λ i, Some (CSR_CYCLE + i)) (seqZ 0 32)) (Z.ones 32).
Lemma example_lookup i : PmuInfo.hw_counters_info example_info !! i = (if (i <? 32)%nat then Some (Some (CSR_CYCLE + Z.of_nat i)) else None).
Proof.
  cbn [PmuInfo.hw_counters_info example_info]. change (map ?f ?l) with (f <$> l). rewrite list_lookup_fmap.
  destruct (Nat.ltb_spec i 32); [by rewrite lookup_seqZ_lt by lia|by rewrite lookup_seqZ_ge by lia].
Qed.
Lemma pmu_example_wf : info_wf example_info.
Proof.
  split.
  - apply Nat.leb_le. reflexivity.
  - by split; vm_compute.
  - intros i. rewrite example_lookup. cbn [PmuInfo.valid_hw_counters_mask example_info]. destruct (Nat.ltb_spec i 32).
    + rewrite Z.ones_spec_low by lia. split; [eauto|done].
    + rewrite Z.ones_spec_high by lia. split; [done|]. by intros [].
  - intros i info. rewrite example_lookup. destruct (Nat.ltb_spec i 32); [|done]. intros [= <-]. cbn. unfold CSR_CYCLE, CSR_HPMCOUNTER31. lia.
Qed.
Lemma example_reg i : valid example_info i = true → 0 ≤ i < 32 ∧ reg example_info i = i.
Proof.
  intros Hv. pose proof (valid_lt _ _ pmu_example_wf Hv) as Hi. unfold MAX_HARDWARE_COUNTERS in Hi. split; [lia|].
  unfold reg, PmuInfo.get_counter_info. rewrite example_lookup. rewrite (proj2 (Nat.ltb_lt _ 32)) by lia. cbn. lia.
Qed.
#[local] Instance example_words : PlatformWords (F := Z → example_counter).
Proof. constructor. intros idx m fl et ed f j f'. cbn. destruct (_ && _); [|done]. intros [= <- _]. apply wrap64_u64. Qed.
#[local] Instance example_laws : PlatformLaws (F := Z → example_counter) example_info.
Proof.
  refine {| hw_event i f := ev (f i); hw_running i f := running (f i) |}.
  - intros m f i Hv Hm. cbn. by rewrite Z.sub_0_r, Hm.
  - intros i fl et ed f Hv Hauto. cbn. destruct (bool_decide _); cbn; [by split|].
    unfold update_counter. rewrite Z.eqb_refl. split; [intros _; cbn in *; by rewrite Hauto, orb_false_r|].
    intros j Hj Hne. destruct (example_reg j Hj) as [_ ->]. by rewrite (proj2 (Z.eqb_neq j i)) by done.
  - intros i v f Hv. cbn. unfold update_counter. destruct (example_reg i Hv) as [_ ->].
    rewrite Z.eqb_refl. split; [done|].
    intros j Hj Hne. destruct (example_reg j Hj) as [_ ->]. by rewrite (proj2 (Z.eqb_neq j i)) by done.
  - intros fl. unfold platform_flags. cbn. by destruct (f_uinh fl), (f_sinh fl).
Defined.
(** A vCPU whose counter 3 is started, on a CPU where it can be read *)
Definition no_flags : example_flags := Flags false false false false false false false false.
Definition example_state : CounterState.t := CounterState.mk 0 no_flags 5 0.
Definition example_counters : list PmuCounterState.t := <[3%nat := Started example_state]> (replicate MAX_HARDWARE_COUNTERS NotConfigured).
Definition example_cpu : cpu (Z → example_counter) := Cpu 10 (λ i, Counter (if i =? 3 then Some (no_flags, 5, 0) else None) (i =? 3) 100).
Lemma example_lookup_counters k x : example_counters !! k = Some x → (k = 3%nat ∧ x = Started example_state) ∨ x = NotConfigured.
Proof.
  unfold example_counters. destruct (decide (k = 3%nat)) as [->|Hne].
  - intros Hx. left. split; [done|]. by injection Hx.
  - rewrite list_lookup_insert_ne by done. intros [-> _]%lookup_replicate_1. by right.
Qed.
Lemma example_inv : pmu_inv example_info example_counters.
Proof.
  split; [done|]. intros k x Hx Hne. apply example_lookup_counters in Hx as [[Hk _]|Hn]; [by subst|by destruct Hne].
Qed.
Lemma example_good : pmu_good example_info (example_counters, example_cpu).
Proof.
  split; [apply example_inv|cbn; unfold u64; lia|]. intros b Hb Ht. cbn [fst snd hcounteren example_cpu] in Ht.
  change 10 with (Z.lor (2 ^ 1) (2 ^ 3)) in Ht. rewrite Z.lor_spec, !Z.pow2_bits_eqb, orb_true_iff, !Z.eqb_eq in Ht by lia.
  destruct Ht as [Ht|Ht]; subst b; [by left|right]. by exists 3%nat, (Started example_state).
Qed.
Definition example_stop : VmPmuState.PmuFunction (H := example_types) := VmPmuState.StopCounters (H := example_types) 2 3 true.
Definition example_start : VmPmuState.PmuFunction (H := example_types) :=
  VmPmuState.StartCounters (H := example_types) (U64 - 64) (2 ^ 63 + 1) false 0.
Lemma pmu_calls_refine_witness :
  ∃ r s', VmPmuState.handle_pmu_msg (Some example_info) example_stop (example_counters, example_cpu) = Returns (r, s') ∧
    call_spec example_info example_stop (example_counters, example_cpu) r s' ∧ pmu_good example_info s'.
Proof.
  apply (pmu_calls_refine example_info pmu_example_wf example_stop (example_counters, example_cpu)).
  - apply example_good.
  - split; [unfold no_wrap; lia|unfold u64; lia].
Defined.
Lemma counters_stay_readable_witness :
  ∃ P1, VmPmuState.save_counters (Some example_info) (example_counters, example_cpu) =
      Returns (Ok tt, (saved example_info (platform example_cpu) example_counters, Cpu 10 P1)) ∧
    VmPmuState.restore_counters (Some example_info) (VmPmuState.default, Cpu 10 P1) = Returns (Ok tt, (VmPmuState.default, Cpu 10 P1)) ∧
    ¬ reads_own example_info (VmPmuState.default, Cpu 10 P1).
Proof.
  apply (counters_stay_readable example_info pmu_example_wf example_counters 10 (platform example_cpu) 3 example_state);
    [apply example_inv|done|done|done].
Defined.
Lemma wrapped_counter_index_panics_witness :
  VmPmuState.handle_pmu_msg (Some example_info) example_start (example_counters, example_cpu) = Panics.
Proof. apply (wrapped_counter_index_panics example_info pmu_example_wf example_counters example_cpu false 0); [apply example_inv|done]. Defined.
